(* ===== verification/_CoqProject ===== *)
-Q . S2P
Prelude.v
CecConsts.v
Cec.v
CecFuncs.v
CecProtocol.v
CecAuto.v
CecRecv.v
CecSend.v
CecTheory.v
CecHelpers.v
HeapLogic.v
Queue.v
QueueSeg.v
QueueTail.v
QueueList.v
QueueSTail.v
QueueCircle.v
QueueClient.v
QueueTheory.v
Swab.v
SwabTheory.v
Tipc.v
TipcTheory.v
Ioctl.v
DvTimings.v
StlArray.v
StlHeap.v
StlSort.v
StlSearch.v
Random.v
UniformInt.v
Shell.v
ShellRuns.v
DeviceScripts.v
BuildScripts.v
Makefile.v
WordSets.v
TimeVal.v
VirtioRing.v
Netlink.v
Cmsg.v
StdString.v
StdStringView.v
StdStringInPlace.v
StdStringOps.v
StdStringLife.v
StdStringMove.v
StdStringMemory.v
StdStringSpec.v
StdStringClient.v
StdStringTheory.v
StdStringAlias.v
StdStringFind.v
StlSeg.v
StlRotate.v
StlOrder.v
StlMerge.v
StlTempbuf.v
StlStable.v
StlPartition.v
StlSets.v
StlPermute.v
Obstack.v
ObstackSpec.v
ObstackTheory.v
ObstackInstance.v
ObstackClient.v
UsbCh9.v
HashTable.v
HashTableChain.v
HashTableTheory.v
HashPolicy.v
HashTableErase.v
HashTableInsert.v
HashTableClient.v
