(* ===== verification/Prelude.v ===== *)
(** * Verification of the Bananian source tree

    Bananian installs Debian on KaiOS phones. Its tree has the scripts that build
    and install the system, the kernel modules and configuration, and, for
    programs compiled for the phone, a copy of the target's system headers
    ([src/sysincludes], ARM, little endian). The code of the tree is its shell
    scripts and makefile, and the inline functions, macros and templates of those
    headers. This library models the scripts and the makefile in full and the parts
    of the headers that compute, with theorems on what they do.

    ** Conventions

    [Prelude] fixes how C is read. An integer of type [__u8], [__u16] or [__u32] is
    a [Z] in range and every store wraps around explicitly ([u8], [u16], [u32]); C
    operators are the operators on [Z] under C-like notations. A function that
    updates an object is a value of the monad [M], one that only reads it of [R];
    [None] is undefined behaviour (an access outside an object, through a null
    pointer or, in message buffers, at an address that is not aligned), so that a theorem that a run is [Some] is a memory-safety theorem.
    Lemmas and tactics on shifts, masks and byte fields ([bits], [range], the
    databases [c_arith] and [c_range]) are shared by all files.

    In the algorithms of the C++ library an object that has been moved from is an
    empty cell, and comparing it is undefined too. Objects that an operation may be
    given twice are held under pointers in a map, so that aliasing is modelled. An
    operation on strings returns or throws; whether there is memory for a block is
    the class [Allocator], a parameter of the theorems. Likewise [Memory] for the
    temporary buffers of algorithms and [Heap] for hash tables. Each of these monads has
    a weakest precondition with a rule per command, and the proofs are runs of
    the code by those rules.

    A script is a command of [Shell]: a function on the state of the shell that
    gives a status or exits. What the programs and the file system do is the class
    [System], a parameter of every theorem on scripts; the trace records which
    programs ran, where, with which environment, arguments and status. A signal (HUP, INT
    or TERM) may come during a program and is part of what the system does; theorems for
    systems without signals have the class [Quiet] as a hypothesis.

    ** Components

    - HDMI CEC messages, [linux/cec.h] and [linux/cec-funcs.h]. [CecConsts] holds
      the opcodes and operand values, [Cec] the struct [cec_msg] and the functions
      of [cec.h] on messages and logical addresses, [CecFuncs] each of the
      constructors [cec_msg_*] and parsers [cec_ops_*] under its own name.
      [CecProtocol] states the protocol: one constructor of [request] per message,
      [cec_send] and [cec_recv] that build and parse it with the functions of the
      header, and tables of its opcode, length, addressing, expected answer and
      operand ranges. [CecAuto] is the symbolic execution of the functions,
      [CecSend] and [CecRecv] go through all messages with it.
      [CecTheory]: building never leaves the message and sets what the tables say,
      parsing any bytes is safe, and a message built from operands that fit is
      parsed to the request [received], which is the one that was sent exactly if it is
      [req_intact], which leaves out what the functions of the header garble.
      [CecHelpers]: the functions of [cec.h], answers, lists with extension bits,
      sizes of vendor commands, and the tables against each other.
    - Intrusive lists and queues, [sys/queue.h]. [HeapLogic] is memory of pointer
      cells with a separation logic (an instance of Iris' BI interface with a
      weakest precondition for [M]); [Queue] is every macro as a program on that
      memory. [QueueSeg] has the chains that all structures are made of and the
      loops over them, [QueueList], [QueueSTail], [QueueTail] and [QueueCircle] the
      effect of each macro on the list of elements. [QueueClient] is the interface:
      the class of operations, the class of their laws, and the simulation of a
      plain list by any implementation of the laws, over any sequence of
      operations. [QueueTheory] has the six structures as instances and the
      theorems for programs: refinement, order of elements, concatenation,
      neighbours around a circle.
    - Byte order, [linux/swab.h], [asm/swab.h], [linux/byteorder/little_endian.h]
      and the macros of [bits/byteswap.h]. [Swab] models them for the
      configurations that the headers distinguish; [SwabTheory] proves all of them,
      the optimised ARM routine included, to reverse the bytes of a value.
    - TIPC configuration messages, [linux/tipc_config.h]. [Tipc] models the TLV
      (type, length, value) functions on a message buffer; [TipcTheory]: reading an
      encoded list that begins at a multiple of four gives back its items, what the writers write, and the inputs on
      which [TLV_SET] and [TLV_LIST_STEP] go wrong.
    - Ioctl numbers, [asm-generic/ioctl.h] and the ioctls of [linux/cec.h]: [Ioctl].
    - Digital video timings, [linux/v4l2-dv-timings.h] with the struct and macros of
      [linux/videodev2.h]: [DvTimings].
    - Netlink messages, routing attributes and next hops, [linux/netlink.h] and
      [linux/rtnetlink.h]: [Netlink]. A class of the macros and a class of what they
      promise to a loop over a buffer; the loop is safe on any bytes with an [int]
      length, reads back what was written, and overreads with an unsigned length.
    - Ancillary data, [bits/socket.h]: [Cmsg]. The loop over the headers ends inside
      the buffer unless the length of a header that it comes to wraps around the address
      space; one that does makes it run forever.
    - Sets of descriptors and of processors, [sys/select.h], [bits/select.h],
      [bits/cpu-set.h] and [sched.h]: [WordSets]. Both kinds of set refine finite
      sets of numbers; the operations on two sets; numbers outside the sets.
    - Time values, [sys/time.h]: [TimeVal]. Sums, differences and comparisons are
      those of the microseconds, and where they overflow.
    - Virtio rings, [linux/virtio_ring.h]: [VirtioRing]. The layout of a ring and
      its size agree; a notification is sent exactly when the index was passed.
    - Algorithms of the C++ library, [c++/8/bits]. [StlArray] has arrays and loops,
      [StlHeap] the heap algorithms and the priority queue, [StlSort] sorting and
      selection, [StlSearch] the binary searches: for any strict weak order they
      stay in the range, end, and sort, select or find. [StlSeg] says what
      stretches of an array hold and which cells change, [StlOrder] what sorted and
      stable mean; with them [StlRotate] has reversing and rotating, [StlMerge] the
      stable merges, [StlTempbuf] the temporary buffers, [StlStable] stable sorting
      and merging in place, [StlPartition] searching and partitioning by a
      predicate, [StlSets] the set operations on sorted ranges and [StlPermute] the
      permutations in dictionary order: they end and compute functions on the lists of
      values, however much memory there is; those that depend on the kind of the
      iterators do for each kind. [Random] has the engines of
      random numbers (modular arithmetic, the block update of the Mersenne twister
      against its recurrence), [UniformInt] the uniform distribution of integers.
    - Hash tables of the C++ library, [bits/hashtable.h] and
      [bits/hashtable_policy.h]. [HashTable] is [std::_Hashtable] with unique keys: the
      members of a table and its nodes are the state. The hash function and the
      equality are the class [Hashing], the policy for the number of buckets is
      [Rehash_policy], and [Hashing_ok] and [Policy_ok] are what the standard and the
      comments of the header ask of them. [HashPolicy] has the two policies of the header:
      the one by primes satisfies [Policy_ok] if the two functions of it that are in the
      compiled library do what their comments say; the one by powers of two gives the next
      power of two, except for no buckets at all. [HashTableChain] has the list of nodes with
      the array of buckets and what a change of one does to the other,
      [HashTableTheory] the invariant, the searches and the linking of a node,
      [HashTableErase] unlinking and clearing, [HashTableInsert] rehashing and
      inserting. [HashTableClient]: programs refine a collection of values with
      different keys, exceptions included, and no node is leaked.
    - Strings of the C++ library, [bits/basic_string.h], [bits/basic_string.tcc],
      [bits/char_traits.h] and [ext/new_allocator.h]. [StdString] is the class, with
      its objects, the local buffers in them and the blocks of memory as the state.
      [StdStringView] has what the primitives do to an object, [StdStringInPlace]
      the changes in the buffer, also by characters of the string itself,
      [StdStringOps] the functions that may need a new buffer, [StdStringLife]
      construction and reserving, [StdStringMove] destruction, moving and
      exchanging. [StdStringMemory] is the invariant: who owns which block.
      [StdStringSpec] states what the class promises: operations with all kinds of
      operands, programs that react to results and exceptions, their meaning on
      lists, and which of them have one ([defined]). [StdStringClient] proves each operation to implement its meaning;
      [StdStringTheory]: programs refine lists, blocks have one owner and none is
      lost, objects are well-formed, and exceptions change nothing.
      [StdStringFind]: searching and comparing. [StdStringAlias]: where a string with
      its own null character, or moved into itself, goes wrong.
    - Obstacks, [obstack.h]. [Obstack] has each macro on the control structure and
      bytes of memory with 32-bit addresses. The functions of the C library that they
      call are the class [Slow_paths]; what their documentation promises is the class
      [Obstack_c] of [ObstackSpec], for chunks below the address [ceiling], a parameter,
      that do not lie across the middle of the address space ([well_placed]);
      [ObstackInstance] shows it to have an implementation. [ObstackTheory] has what each macro does to the chunk and the
      growing object, [ObstackClient] programs: they refine a stack of objects, if what they
      add does not make an address wrap around; and where [obstack_grow] wraps around at the
      end of the address space and [obstack_finish] overflows in the middle of it.
    - Descriptors of USB endpoints, [linux/usb/ch9.h]: [UsbCh9]. Every descriptor is
      of one kind and direction and its fields are read back; the shift of
      [usb_ss_max_streams] that is undefined.
    - The scripts on the device ([on-device-scripts/]), of the build ([scripts/],
      [ramdisk/init]) and the [Makefile]. [Shell] is the POSIX shell as they use it
      with a weakest precondition for commands, [ShellRuns] the programs that a
      command may run; [DeviceScripts], [BuildScripts] and [Makefile] have each
      script, function and rule, and theorems on what is run in which order whatever
      the programs do: [unpack-debian.sh] unpacks only where nothing was before,
      [qemubootstrap] unmounts after all its mounts also when INT or TERM comes, and
      [make] touches the phone only after the plan of the whole build has been carried
      out in the same run.

    Constants, struct fields and tables of operand values are definitions of the
    files, next to the functions that use them.

    ** Fuel

    Loops over a queue take the number of iterations they may make; the theorems
    hold for any number from the number of elements on, so every loop ends. The
    loops of [cec_ops_report_features] run at most to the end of the message, and
    their fuel is the distance to it. Loops of the C++ algorithms ([iterate]) get one
    more than the length of the array; [iterate] without fuel left is undefined, so the
    theorems that they are safe say that they end. The seeding and discarding of
    the Mersenne twister count down what is left to do. The rejection loops of the
    uniform distribution end with the numbers of the generator, as an endless
    rejection cannot be excluded. [make] gets eight levels and the length of the
    name, more than any chain of prerequisites ([make_enough]). The loops over messages
    and headers in [Netlink] and [Cmsg] return nothing when the fuel is used up; the
    theorems give them one turn more than the buffer has bytes, and say that they end.
    [strlen] gets one turn more than its buffer has characters, and the searches of
    strings one more than the string; without fuel they are undefined, and the
    theorems say that they return. The loops over the nodes of a hash table get one
    turn more than there are nodes, and are undefined after that; the recursions of
    the algorithms that halve a range get the length of the range.

    ** Not modelled

    The programs that the scripts run, which are functions, so that one that does not end is
    left out; signals other than those above, and those that come between two programs;
    the boot and continuous integration
    configuration, and the kernel modules and configuration (binaries and data). Of
    the C++ library the other containers, streams, algorithms and distributions, and
    the forms of the algorithms without a comparison or with operations on elements that
    throw; of hash tables those with equivalent keys, ranges, copying and moving of whole
    tables and node handles, and their arrays of buckets are values, not
    memory that is given back; of strings the reference-counted ones of the old ABI, input and
    output, conversions to and from numbers, and overloads that only convert their
    arguments to those of the ones modelled. Of [obstack.h] the branch for compilers
    other than GNU. The remaining headers mostly declare functions, types and
    constants without code; functions of the C library behind them ([CPU_COUNT],
    [select]) are not in the tree.
    Numbers of type [float] and [long double] in [HashPolicy] are rational with a rounding
    function as a parameter.
    [__builtin_constant_p] and the compilation mode are parameters ([config] in
    [Swab]); the byte swaps that [bits/byteswap.h] leaves to the compiler are not. *)
From stdpp Require Import base numbers list gmap.
From Stdlib Require Import ZArith Lia.

#[global] Open Scope Z_scope.

(** * C integer operators

    [x << n], [x >> n], [x .& y] and [x .| y] are the C operators [<<], [>>],
    [&] and [|] on values that are already promoted to [int] or [unsigned];
    [c_cond c a b] is the conditional expression [c ? a : b], and [truth] the
    C reading of an integer as a condition. *)

Declare Scope c_scope.
Delimit Scope c_scope with C.
#[global] Open Scope c_scope.

Notation "x << n" := (Z.shiftl x n) (at level 36, left associativity) : c_scope.
Notation "x >> n" := (Z.shiftr x n) (at level 36, left associativity) : c_scope.
Notation "x .& y" := (Z.land x y) (at level 37, left associativity) : c_scope.
Notation "x .| y" := (Z.lor x y) (at level 38, left associativity) : c_scope.

Definition truth (z : Z) : bool := negb (z =? 0).
Definition c_cond (c a b : Z) : Z := if truth c then a else b.

(** * Fixed-width unsigned integers

    A value of type [__u8], [__u16] or [__u32] is a [Z] in range; storing into
    such an object wraps around. *)

Definition u8 (z : Z) : Z := z mod 256.
Definition u16 (z : Z) : Z := z mod 65536.
Definition u32 (z : Z) : Z := z mod 4294967296.

Definition is_u8 (z : Z) : Prop := 0 <= z < 256.
Definition is_u16 (z : Z) : Prop := 0 <= z < 65536.
Definition is_u32 (z : Z) : Prop := 0 <= z < 4294967296.

#[global] Instance is_u8_dec z : Decision (is_u8 z).
Proof. unfold is_u8. apply _. Defined.
#[global] Instance is_u16_dec z : Decision (is_u16 z).
Proof. unfold is_u16. apply _. Defined.
#[global] Instance is_u32_dec z : Decision (is_u32 z).
Proof. unfold is_u32. apply _. Defined.

(** * The undefined-behaviour monad

    A C function that updates an object of type [S] and returns a value of
    type [A]. [None] is undefined behaviour: an access outside the object, a
    dereference of a pointer that points nowhere. A theorem that a function
    returns [Some] is a memory-safety theorem. *)

Definition M (S A : Type) : Type := S → option (A * S).

#[global] Instance M_ret S : MRet (M S) := λ A a s, Some (a, s).
#[global] Instance M_bind S : MBind (M S) := λ A B k m s,
  match m s with
  | Some (a, s') => k a s'
  | None => None
  end.

Definition run {S A} (m : M S A) (s : S) : option S := snd <$> m s.
Definition gets {S A} (f : S → A) : M S A := λ s, Some (f s, s).
Definition modify {S} (f : S → S) : M S unit := λ s, Some (tt, f s).
Definition ub {S A} : M S A := λ _, None.
Definition lift_opt {S A} (o : option A) : M S A := λ s, (λ a, (a, s)) <$> o.
Definition when {S} (b : bool) (m : M S unit) : M S unit :=
  if b then m else mret tt.

(** Functions that only read an object through a pointer to [const]. *)

Definition R (S A : Type) : Type := S → option A.

#[global] Instance R_ret S : MRet (R S) := λ A a _, Some a.
#[global] Instance R_bind S : MBind (R S) := λ A B k m s,
  match m s with
  | Some a => k a s
  | None => None
  end.

Definition asks {S A} (f : S → A) : R S A := λ s, Some (f s).
Definition lift_R {S A} (o : option A) : R S A := λ _, o.

(** [s->f[i]] for an array member [f]. *)
Definition elem_at {S A} (f : S → list A) (i : nat) : R S A := λ s, f s !! i.

(** A reader run inside an updating function. *)
Definition read {S A} (r : R S A) : M S A := λ s, (λ a, (a, s)) <$> r s.

(** Counting loops [for (i = 0; i < n; i++)]: as updates, and as a fold of
    the array that the body fills. *)
Fixpoint for_loop {S} (i n : nat) (body : nat → M S unit) : M S unit :=
  match n with
  | O => mret tt
  | Datatypes.S n' => body i;; for_loop (Datatypes.S i) n' body
  end.

Fixpoint for_fold {S A} (i n : nat) (body : nat → A → R S A) (acc : A) : R S A :=
  match n with
  | O => mret acc
  | Datatypes.S n' => acc' ← body i acc; for_fold (Datatypes.S i) n' body acc'
  end.

(** * Automation *)

Create HintDb c_range.
Create Rewrite HintDb c_arith.

Ltac unfold_range :=
  unfold is_u8, is_u16, is_u32, u8, u16, u32 in *.

(** ** Ranges *)

Lemma u8_range z : is_u8 (u8 z).
Proof. unfold_range. apply Z.mod_pos_bound. lia. Qed.
Lemma u16_range z : is_u16 (u16 z).
Proof. unfold_range. apply Z.mod_pos_bound. lia. Qed.
Lemma u32_range z : is_u32 (u32 z).
Proof. unfold_range. apply Z.mod_pos_bound. lia. Qed.
Lemma u8_id z : is_u8 z → u8 z = z.
Proof. unfold_range. apply Z.mod_small. Qed.
Lemma u16_id z : is_u16 z → u16 z = z.
Proof. unfold_range. apply Z.mod_small. Qed.
Lemma u32_id z : is_u32 z → u32 z = z.
Proof. unfold_range. apply Z.mod_small. Qed.
Lemma u8_u16 z : is_u8 z → is_u16 z.
Proof. unfold_range. lia. Qed.
Lemma b2z_u8 b : is_u8 (Z.b2z b).
Proof. unfold_range. destruct b; cbn; lia. Qed.
#[export] Hint Resolve b2z_u8 u8_range u16_range u32_range : c_range.
#[export] Hint Extern 2 (is_u8 (Zpos _)) => unfold is_u8; lia : c_range.
#[export] Hint Extern 2 (is_u8 Z0) => unfold is_u8; lia : c_range.

(** ** Bit operations as arithmetic

    Every packing and unpacking in the sources is by constant shifts and
    masks, so it is linear arithmetic with division by constants, which [lia]
    decides once the operators are rewritten. *)

Lemma shl_mul x n : 0 <= n → x << n = x * 2 ^ n.
Proof. apply Z.shiftl_mul_pow2. Qed.
Lemma shr_div x n : 0 <= n → x >> n = x / 2 ^ n.
Proof. apply Z.shiftr_div_pow2. Qed.
Lemma and_mod x n : 0 <= n → x .& (2 ^ n - 1) = x mod 2 ^ n.
Proof. intros. rewrite <- Z.land_ones by done. by rewrite Z.ones_equiv, Z.sub_1_r. Qed.

Lemma and_pow2 x n : 0 <= n → x .& 2 ^ n = x / 2 ^ n mod 2 * 2 ^ n.
Proof.
  intros. rewrite <- shr_div, <- (Z.land_ones _ 1), <- shl_mul by lia.
  replace (2 ^ n) with (1 << n) by (rewrite Z.shiftl_1_l; done).
  apply Z.bits_inj'; intros i Hi.
  rewrite Z.land_spec, !Z.shiftl_spec, Z.land_spec by lia.
  destruct (decide (i < n)).
  - rewrite (Z.testbit_neg_r 1) by lia. by rewrite andb_false_r, (Z.testbit_neg_r (x >> n)) by lia.
  - rewrite Z.shiftr_spec by lia. by replace (i - n + n) with i by lia.
Qed.

(** [x | y] is [x + y] when [x] is a multiple of [2^n] and [y] is below it. *)
Lemma or_add n x y :
  0 <= n → x mod 2 ^ n = 0 → 0 <= y < 2 ^ n → x .| y = x + y.
Proof.
  intros Hn Hx Hy.
  enough (x .& y = 0) as E by (by rewrite Z.add_nocarry_lxor, Z.lxor_lor).
  apply Z.mod_divide in Hx as [q ->]; [|lia].
  rewrite <- Z.shiftl_mul_pow2 by done.
  apply Z.bits_inj'; intros i Hi. rewrite Z.land_spec, Z.bits_0.
  destruct (decide (i < n)); [by rewrite Z.shiftl_spec_low by lia|].
  rewrite <- (Z.mod_small y (2 ^ n)) by done.
  rewrite Z.mod_pow2_bits_high by lia. apply andb_false_r.
Qed.

Lemma or_add_1 x y : x mod 2 = 0 → 0 <= y < 2 → x .| y = x + y.
Proof. apply (or_add 1). lia. Qed.
Lemma or_add_2 x y : x mod 4 = 0 → 0 <= y < 4 → x .| y = x + y.
Proof. apply (or_add 2). lia. Qed.
Lemma or_add_4 x y : x mod 16 = 0 → 0 <= y < 16 → x .| y = x + y.
Proof. apply (or_add 4). lia. Qed.
Lemma or_add_5 x y : x mod 32 = 0 → 0 <= y < 32 → x .| y = x + y.
Proof. apply (or_add 5). lia. Qed.
Lemma or_add_6 x y : x mod 64 = 0 → 0 <= y < 64 → x .| y = x + y.
Proof. apply (or_add 6). lia. Qed.
Lemma or_add_7 x y : x mod 128 = 0 → 0 <= y < 128 → x .| y = x + y.
Proof. apply (or_add 7). lia. Qed.
Lemma or_add_8 x y : x mod 256 = 0 → 0 <= y < 256 → x .| y = x + y.
Proof. apply (or_add 8). lia. Qed.
Lemma or_add_16 x y : x mod 65536 = 0 → 0 <= y < 65536 → x .| y = x + y.
Proof. apply (or_add 16). lia. Qed.

Lemma or_nonneg x y : 0 <= x → 0 <= y → 0 <= x .| y.
Proof. intros. by apply Z.lor_nonneg. Qed.

Lemma or_u8 x y : is_u8 x → is_u8 y → is_u8 (x .| y).
Proof.
  intros Hx Hy. split; [apply or_nonneg; unfold_range; lia|].
  destruct (decide (x .| y = 0)) as [->|]; [lia|].
  apply (Z.log2_lt_pow2 (x .| y) 8).
  { assert (0 <= x .| y) by (apply or_nonneg; unfold_range; lia). lia. }
  rewrite Z.log2_lor by (unfold_range; lia).
  assert (∀ z, is_u8 z → Z.log2 z < 8) as L.
  { intros z Hz. destruct (decide (z = 0)) as [->|]; [done|].
    apply Z.log2_lt_pow2; unfold_range; lia. }
  apply Z.max_lub_lt; by apply L.
Qed.
#[export] Hint Resolve or_u8 : c_range.

(** Linear arithmetic over division and remainder by constants. *)
Ltac divlia := Z.div_mod_to_equations; lia.

(** Rewrites shifts and masks by literals into [*], [/] and [mod]. *)
Ltac shifts_to_arith :=
  repeat match goal with
  | |- context [Z.shiftl ?x (Zpos ?n)] =>
      rewrite (shl_mul x (Zpos n)) by lia;
      let e := eval compute in (2 ^ (Zpos n)) in change (2 ^ (Zpos n)) with e
  | |- context [Z.shiftr ?x (Zpos ?n)] =>
      rewrite (shr_div x (Zpos n)) by lia;
      let e := eval compute in (2 ^ (Zpos n)) in change (2 ^ (Zpos n)) with e
  | |- context [Z.land ?x (Zpos ?k)] =>
      let n := eval compute in (Z.log2_up (Zpos k + 1)) in
      let e := eval compute in (2 ^ n) in
      let k' := eval compute in (2 ^ n - 1) in
      constr_eq k' (Zpos k);
      replace (Z.land x (Zpos k)) with (x mod e) by (symmetry; apply (and_mod x n); lia)
  | |- context [Z.land ?x (Zpos ?k)] =>
      let n := eval compute in (Z.log2 (Zpos k)) in
      let k' := eval compute in (2 ^ n) in
      constr_eq k' (Zpos k);
      replace (Z.land x (Zpos k)) with (x / Zpos k mod 2 * Zpos k)
        by (symmetry; apply (and_pow2 x n); lia)
  end.

Ltac or_to_add :=
  repeat match goal with
  | |- context [Z.lor ?x ?y] =>
      first [ rewrite (or_add_1 x y) by divlia | rewrite (or_add_2 x y) by divlia
            | rewrite (or_add_4 x y) by divlia | rewrite (or_add_5 x y) by divlia
            | rewrite (or_add_6 x y) by divlia | rewrite (or_add_7 x y) by divlia
            | rewrite (or_add_8 x y) by divlia | rewrite (or_add_16 x y) by divlia ]
  end.

(** Decides equalities between packings of bounded fields. *)
Ltac bits := unfold_range; shifts_to_arith; or_to_add; divlia.

(** ** Multi-byte fields *)

Lemma be16_join x : is_u16 x → (u8 (x >> 8) << 8) .| u8 (x .& 255) = x.
Proof. intros. bits. Qed.

Lemma be24_join x :
  0 <= x < 16777216 →
  u32 ((u8 (x >> 16) << 16) .| (u8 ((x >> 8) .& 255) << 8) .| u8 (x .& 255)) = x.
Proof. intros. bits. Qed.

(** A little-endian [__u16] in memory. *)
Lemma le16_range a b : is_u8 a → is_u8 b → is_u16 (a .| (b << 8)).
Proof. intros. rewrite Z.lor_comm. bits. Qed.
Lemma le16_lo a b : is_u8 a → is_u8 b → u8 ((a .| (b << 8)) .& 255) = a.
Proof. intros. rewrite (Z.lor_comm a). bits. Qed.
Lemma le16_hi a b : is_u8 a → is_u8 b → u8 ((a .| (b << 8)) >> 8) = b.
Proof. intros. rewrite (Z.lor_comm a). bits. Qed.
Lemma be16_range a b : is_u8 a → is_u8 b → is_u16 ((a << 8) .| b).
Proof. intros. bits. Qed.
Lemma be16_lo a b : is_u8 a → is_u8 b → u8 (((a << 8) .| b) .& 255) = b.
Proof. intros. bits. Qed.
Lemma be16_hi a b : is_u8 a → is_u8 b → u8 (((a << 8) .| b) >> 8) = a.
Proof. intros. bits. Qed.
#[export] Hint Resolve le16_range be16_range : c_range.

(** Proves a range: by hypothesis, by the range of a wrapped value, or by
    arithmetic. *)
Ltac range := solve [assumption | auto with c_range | unfold_range; lia].

#[export] Hint Rewrite be16_join be24_join le16_lo le16_hi be16_lo be16_hi
  u8_id u16_id u32_id using range : c_arith.

(** ** Conjunctions and literals *)

Ltac and_inv := repeat match goal with H : _ ∧ _ |- _ => destruct H end.

Ltac or_inv :=
  repeat match goal with H : _ ∧ _ |- _ => destruct H | H : _ ∨ _ |- _ => destruct H end; subst.

Ltac forall_inv :=
  repeat match goal with
  | H : Forall _ (_ :: _) |- _ => apply Forall_cons in H as [? H]
  | H : Forall _ [] |- _ => clear H
  end.

Ltac is_lit_pos p :=
  lazymatch p with
  | xH => idtac
  | xO ?q => is_lit_pos q
  | xI ?q => is_lit_pos q
  end.

Ltac is_lit z :=
  lazymatch z with
  | Z0 => idtac
  | Zpos ?p => is_lit_pos p
  | Zneg ?p => is_lit_pos p
  end.

(** Uses the known values of conditions. *)
Ltac use_conds :=
  repeat match goal with
  | H : ?b = true |- context [?b] => rewrite H
  | H : ?b = false |- context [?b] => rewrite H
  end.

(** Opens a list of known length into its elements. *)
Ltac open_list l :=
  match goal with
  | H : length l = _ |- _ =>
      repeat (let x := fresh "x" in destruct l as [|x l]; cbn in H; try discriminate H);
      clear H
  end.

(** Computes the wrapped and added literals that a run leaves behind. *)
Ltac ground :=
  repeat match goal with
  | |- context [u8 ?z] =>
      is_lit z; let v := eval vm_compute in (u8 z) in change (u8 z) with v
  | |- context [u32 ?z] =>
      is_lit z; let v := eval vm_compute in (u32 z) in change (u32 z) with v
  | |- context [Z.add ?z ?y] =>
      is_lit z; is_lit y; let v := eval vm_compute in (Z.add z y) in change (Z.add z y) with v
  | |- context [Z.sub ?z ?y] =>
      is_lit z; is_lit y; let v := eval vm_compute in (Z.sub z y) in change (Z.sub z y) with v
  | |- context [Z.mul ?z ?y] =>
      is_lit z; is_lit y; let v := eval vm_compute in (Z.mul z y) in change (Z.mul z y) with v
  | |- context [Z.div ?z ?y] =>
      is_lit z; is_lit y; let v := eval vm_compute in (Z.div z y) in change (Z.div z y) with v
  | |- context [Z.to_nat ?z] =>
      is_lit z; let v := eval vm_compute in (Z.to_nat z) in change (Z.to_nat z) with v
  | |- context [Z.eqb ?z ?y] =>
      is_lit z; is_lit y; let v := eval vm_compute in (Z.eqb z y) in change (Z.eqb z y) with v
  | |- context [Z.ltb ?z ?y] =>
      is_lit z; is_lit y; let v := eval vm_compute in (Z.ltb z y) in change (Z.ltb z y) with v
  | |- context [truth ?z] =>
      is_lit z; let v := eval vm_compute in (truth z) in change (truth z) with v
  | |- context [Z.leb ?z ?y] =>
      is_lit z; is_lit y; let v := eval vm_compute in (Z.leb z y) in change (Z.leb z y) with v
  end.

(** ** Runs *)

(** [wp m Q s]: running [m] from [s] is defined and ends in a state in [Q]. *)
Definition wp {S A} (m : M S A) (Q : S → Prop) (s : S) : Prop :=
  match m s with
  | Some (_, s') => Q s'
  | None => False
  end.

Lemma wp_run {S A} (m : M S A) (Q : S → Prop) s :
  wp m Q s → ∃ s', run m s = Some s' ∧ Q s'.
Proof. unfold wp, run. destruct (m s) as [[a s']|]; [eauto|done]. Qed.

Lemma wp_bind {S A B} (m : M S A) (k : A → M S B) (Q : S → Prop) s :
  match m s with Some (a, s') => wp (k a) Q s' | None => False end → wp (m ≫= k) Q s.
Proof. unfold wp, mbind, M_bind. by destruct (m s) as [[a s']|]. Qed.
