(* ===== verification/CecConsts.v ===== *)
(** The message opcodes and operand values that [linux/cec.h] defines: each
    [#define] is an abbreviation of the same name, each operand is the list of
    its documented values, each feature the list of its opcodes. *)
From stdpp Require Import base list.
From Stdlib Require Import ZArith.
From S2P Require Import Prelude.

(** * Opcodes, by feature *)

(** One Touch Play *)
Abbreviation CEC_MSG_ACTIVE_SOURCE := 0x82 (only parsing).
Abbreviation CEC_MSG_IMAGE_VIEW_ON := 0x04 (only parsing).
Abbreviation CEC_MSG_TEXT_VIEW_ON := 0x0d (only parsing).

(** Routing Control *)
Abbreviation CEC_MSG_INACTIVE_SOURCE := 0x9d (only parsing).
Abbreviation CEC_MSG_REQUEST_ACTIVE_SOURCE := 0x85 (only parsing).
Abbreviation CEC_MSG_ROUTING_CHANGE := 0x80 (only parsing).
Abbreviation CEC_MSG_ROUTING_INFORMATION := 0x81 (only parsing).
Abbreviation CEC_MSG_SET_STREAM_PATH := 0x86 (only parsing).

(** Standby *)
Abbreviation CEC_MSG_STANDBY := 0x36 (only parsing).

(** One Touch Record *)
Abbreviation CEC_MSG_RECORD_OFF := 0x0b (only parsing).
Abbreviation CEC_MSG_RECORD_ON := 0x09 (only parsing).
Abbreviation CEC_MSG_RECORD_STATUS := 0x0a (only parsing).
Abbreviation CEC_MSG_RECORD_TV_SCREEN := 0x0f (only parsing).

(** Timer Programming *)
Abbreviation CEC_MSG_CLEAR_ANALOGUE_TIMER := 0x33 (only parsing).
Abbreviation CEC_MSG_CLEAR_DIGITAL_TIMER := 0x99 (only parsing).
Abbreviation CEC_MSG_CLEAR_EXT_TIMER := 0xa1 (only parsing).
Abbreviation CEC_MSG_SET_ANALOGUE_TIMER := 0x34 (only parsing).
Abbreviation CEC_MSG_SET_DIGITAL_TIMER := 0x97 (only parsing).
Abbreviation CEC_MSG_SET_EXT_TIMER := 0xa2 (only parsing).
Abbreviation CEC_MSG_SET_TIMER_PROGRAM_TITLE := 0x67 (only parsing).
Abbreviation CEC_MSG_TIMER_CLEARED_STATUS := 0x43 (only parsing).
Abbreviation CEC_MSG_TIMER_STATUS := 0x35 (only parsing).

(** System Information *)
Abbreviation CEC_MSG_CEC_VERSION := 0x9e (only parsing).
Abbreviation CEC_MSG_GET_CEC_VERSION := 0x9f (only parsing).
Abbreviation CEC_MSG_GIVE_PHYSICAL_ADDR := 0x83 (only parsing).
Abbreviation CEC_MSG_GET_MENU_LANGUAGE := 0x91 (only parsing).
Abbreviation CEC_MSG_REPORT_PHYSICAL_ADDR := 0x84 (only parsing).
Abbreviation CEC_MSG_SET_MENU_LANGUAGE := 0x32 (only parsing).
Abbreviation CEC_MSG_REPORT_FEATURES := 0xa6 (only parsing).
Abbreviation CEC_MSG_GIVE_FEATURES := 0xa5 (only parsing).

(** Deck Control *)
Abbreviation CEC_MSG_DECK_CONTROL := 0x42 (only parsing).
Abbreviation CEC_MSG_DECK_STATUS := 0x1b (only parsing).
Abbreviation CEC_MSG_GIVE_DECK_STATUS := 0x1a (only parsing).
Abbreviation CEC_MSG_PLAY := 0x41 (only parsing).

(** Tuner Control *)
Abbreviation CEC_MSG_GIVE_TUNER_DEVICE_STATUS := 0x08 (only parsing).
Abbreviation CEC_MSG_SELECT_ANALOGUE_SERVICE := 0x92 (only parsing).
Abbreviation CEC_MSG_SELECT_DIGITAL_SERVICE := 0x93 (only parsing).
Abbreviation CEC_MSG_TUNER_DEVICE_STATUS := 0x07 (only parsing).
Abbreviation CEC_MSG_TUNER_STEP_DECREMENT := 0x06 (only parsing).
Abbreviation CEC_MSG_TUNER_STEP_INCREMENT := 0x05 (only parsing).

(** Vendor Specific Commands *)
Abbreviation CEC_MSG_DEVICE_VENDOR_ID := 0x87 (only parsing).
Abbreviation CEC_MSG_GIVE_DEVICE_VENDOR_ID := 0x8c (only parsing).
Abbreviation CEC_MSG_VENDOR_COMMAND := 0x89 (only parsing).
Abbreviation CEC_MSG_VENDOR_COMMAND_WITH_ID := 0xa0 (only parsing).
Abbreviation CEC_MSG_VENDOR_REMOTE_BUTTON_DOWN := 0x8a (only parsing).
Abbreviation CEC_MSG_VENDOR_REMOTE_BUTTON_UP := 0x8b (only parsing).

(** OSD Display *)
Abbreviation CEC_MSG_SET_OSD_STRING := 0x64 (only parsing).

(** Device OSD Transfer *)
Abbreviation CEC_MSG_GIVE_OSD_NAME := 0x46 (only parsing).
Abbreviation CEC_MSG_SET_OSD_NAME := 0x47 (only parsing).

(** Device Menu Control *)
Abbreviation CEC_MSG_MENU_REQUEST := 0x8d (only parsing).
Abbreviation CEC_MSG_MENU_STATUS := 0x8e (only parsing).
Abbreviation CEC_MSG_USER_CONTROL_PRESSED := 0x44 (only parsing).
Abbreviation CEC_MSG_USER_CONTROL_RELEASED := 0x45 (only parsing).

(** Power Status *)
Abbreviation CEC_MSG_GIVE_DEVICE_POWER_STATUS := 0x8f (only parsing).
Abbreviation CEC_MSG_REPORT_POWER_STATUS := 0x90 (only parsing).

(** General Protocol *)
Abbreviation CEC_MSG_FEATURE_ABORT := 0x00 (only parsing).
Abbreviation CEC_MSG_ABORT := 0xff (only parsing).

(** System Audio Control *)
Abbreviation CEC_MSG_GIVE_AUDIO_STATUS := 0x71 (only parsing).
Abbreviation CEC_MSG_GIVE_SYSTEM_AUDIO_MODE_STATUS := 0x7d (only parsing).
Abbreviation CEC_MSG_REPORT_AUDIO_STATUS := 0x7a (only parsing).
Abbreviation CEC_MSG_REPORT_SHORT_AUDIO_DESCRIPTOR := 0xa3 (only parsing).
Abbreviation CEC_MSG_REQUEST_SHORT_AUDIO_DESCRIPTOR := 0xa4 (only parsing).
Abbreviation CEC_MSG_SET_SYSTEM_AUDIO_MODE := 0x72 (only parsing).
Abbreviation CEC_MSG_SYSTEM_AUDIO_MODE_REQUEST := 0x70 (only parsing).
Abbreviation CEC_MSG_SYSTEM_AUDIO_MODE_STATUS := 0x7e (only parsing).

(** Audio Rate Control *)
Abbreviation CEC_MSG_SET_AUDIO_RATE := 0x9a (only parsing).

(** Audio Return Channel Control *)
Abbreviation CEC_MSG_INITIATE_ARC := 0xc0 (only parsing).
Abbreviation CEC_MSG_REPORT_ARC_INITIATED := 0xc1 (only parsing).
Abbreviation CEC_MSG_REPORT_ARC_TERMINATED := 0xc2 (only parsing).
Abbreviation CEC_MSG_REQUEST_ARC_INITIATION := 0xc3 (only parsing).
Abbreviation CEC_MSG_REQUEST_ARC_TERMINATION := 0xc4 (only parsing).
Abbreviation CEC_MSG_TERMINATE_ARC := 0xc5 (only parsing).

(** Dynamic Audio Lipsync *)
Abbreviation CEC_MSG_REQUEST_CURRENT_LATENCY := 0xa7 (only parsing).
Abbreviation CEC_MSG_REPORT_CURRENT_LATENCY := 0xa8 (only parsing).

(** Capability Discovery and Control *)
Abbreviation CEC_MSG_CDC_MESSAGE := 0xf8 (only parsing).
Abbreviation CEC_MSG_CDC_HEC_INQUIRE_STATE := 0x00 (only parsing).
Abbreviation CEC_MSG_CDC_HEC_REPORT_STATE := 0x01 (only parsing).
Abbreviation CEC_MSG_CDC_HEC_SET_STATE_ADJACENT := 0x02 (only parsing).
Abbreviation CEC_MSG_CDC_HEC_SET_STATE := 0x03 (only parsing).
Abbreviation CEC_MSG_CDC_HEC_REQUEST_DEACTIVATION := 0x04 (only parsing).
Abbreviation CEC_MSG_CDC_HEC_NOTIFY_ALIVE := 0x05 (only parsing).
Abbreviation CEC_MSG_CDC_HEC_DISCOVER := 0x06 (only parsing).
Abbreviation CEC_MSG_CDC_HPD_SET_STATE := 0x10 (only parsing).
Abbreviation CEC_MSG_CDC_HPD_REPORT_STATE := 0x11 (only parsing).

(** * Operand values *)

Abbreviation CEC_OP_RECORD_SRC_OWN := 1 (only parsing).
Abbreviation CEC_OP_RECORD_SRC_DIGITAL := 2 (only parsing).
Abbreviation CEC_OP_RECORD_SRC_ANALOG := 3 (only parsing).
Abbreviation CEC_OP_RECORD_SRC_EXT_PLUG := 4 (only parsing).
Abbreviation CEC_OP_RECORD_SRC_EXT_PHYS_ADDR := 5 (only parsing).

Abbreviation CEC_OP_SERVICE_ID_METHOD_BY_DIG_ID := 0 (only parsing).
Abbreviation CEC_OP_SERVICE_ID_METHOD_BY_CHANNEL := 1 (only parsing).

Abbreviation CEC_OP_DIG_SERVICE_BCAST_SYSTEM_ARIB_GEN := 0x00 (only parsing).
Abbreviation CEC_OP_DIG_SERVICE_BCAST_SYSTEM_ATSC_GEN := 0x01 (only parsing).
Abbreviation CEC_OP_DIG_SERVICE_BCAST_SYSTEM_DVB_GEN := 0x02 (only parsing).
Abbreviation CEC_OP_DIG_SERVICE_BCAST_SYSTEM_ARIB_BS := 0x08 (only parsing).
Abbreviation CEC_OP_DIG_SERVICE_BCAST_SYSTEM_ARIB_CS := 0x09 (only parsing).
Abbreviation CEC_OP_DIG_SERVICE_BCAST_SYSTEM_ARIB_T := 0x0a (only parsing).
Abbreviation CEC_OP_DIG_SERVICE_BCAST_SYSTEM_ATSC_CABLE := 0x10 (only parsing).
Abbreviation CEC_OP_DIG_SERVICE_BCAST_SYSTEM_ATSC_SAT := 0x11 (only parsing).
Abbreviation CEC_OP_DIG_SERVICE_BCAST_SYSTEM_ATSC_T := 0x12 (only parsing).
Abbreviation CEC_OP_DIG_SERVICE_BCAST_SYSTEM_DVB_C := 0x18 (only parsing).
Abbreviation CEC_OP_DIG_SERVICE_BCAST_SYSTEM_DVB_S := 0x19 (only parsing).
Abbreviation CEC_OP_DIG_SERVICE_BCAST_SYSTEM_DVB_S2 := 0x1a (only parsing).
Abbreviation CEC_OP_DIG_SERVICE_BCAST_SYSTEM_DVB_T := 0x1b (only parsing).

Abbreviation CEC_OP_ANA_BCAST_TYPE_CABLE := 0 (only parsing).
Abbreviation CEC_OP_ANA_BCAST_TYPE_SATELLITE := 1 (only parsing).
Abbreviation CEC_OP_ANA_BCAST_TYPE_TERRESTRIAL := 2 (only parsing).

Abbreviation CEC_OP_BCAST_SYSTEM_PAL_BG := 0x00 (only parsing).
Abbreviation CEC_OP_BCAST_SYSTEM_SECAM_LQ := 0x01 (only parsing).
Abbreviation CEC_OP_BCAST_SYSTEM_PAL_M := 0x02 (only parsing).
Abbreviation CEC_OP_BCAST_SYSTEM_NTSC_M := 0x03 (only parsing).
Abbreviation CEC_OP_BCAST_SYSTEM_PAL_I := 0x04 (only parsing).
Abbreviation CEC_OP_BCAST_SYSTEM_SECAM_DK := 0x05 (only parsing).
Abbreviation CEC_OP_BCAST_SYSTEM_SECAM_BG := 0x06 (only parsing).
Abbreviation CEC_OP_BCAST_SYSTEM_SECAM_L := 0x07 (only parsing).
Abbreviation CEC_OP_BCAST_SYSTEM_PAL_DK := 0x08 (only parsing).
Abbreviation CEC_OP_BCAST_SYSTEM_OTHER := 0x1f (only parsing).

Abbreviation CEC_OP_CHANNEL_NUMBER_FMT_1_PART := 0x01 (only parsing).
Abbreviation CEC_OP_CHANNEL_NUMBER_FMT_2_PART := 0x02 (only parsing).

Abbreviation CEC_OP_RECORD_STATUS_CUR_SRC := 0x01 (only parsing).
Abbreviation CEC_OP_RECORD_STATUS_DIG_SERVICE := 0x02 (only parsing).
Abbreviation CEC_OP_RECORD_STATUS_ANA_SERVICE := 0x03 (only parsing).
Abbreviation CEC_OP_RECORD_STATUS_EXT_INPUT := 0x04 (only parsing).
Abbreviation CEC_OP_RECORD_STATUS_NO_DIG_SERVICE := 0x05 (only parsing).
Abbreviation CEC_OP_RECORD_STATUS_NO_ANA_SERVICE := 0x06 (only parsing).
Abbreviation CEC_OP_RECORD_STATUS_NO_SERVICE := 0x07 (only parsing).
Abbreviation CEC_OP_RECORD_STATUS_INVALID_EXT_PLUG := 0x09 (only parsing).
Abbreviation CEC_OP_RECORD_STATUS_INVALID_EXT_PHYS_ADDR := 0x0a (only parsing).
Abbreviation CEC_OP_RECORD_STATUS_UNSUP_CA := 0x0b (only parsing).
Abbreviation CEC_OP_RECORD_STATUS_NO_CA_ENTITLEMENTS := 0x0c (only parsing).
Abbreviation CEC_OP_RECORD_STATUS_CANT_COPY_SRC := 0x0d (only parsing).
Abbreviation CEC_OP_RECORD_STATUS_NO_MORE_COPIES := 0x0e (only parsing).
Abbreviation CEC_OP_RECORD_STATUS_NO_MEDIA := 0x10 (only parsing).
Abbreviation CEC_OP_RECORD_STATUS_PLAYING := 0x11 (only parsing).
Abbreviation CEC_OP_RECORD_STATUS_ALREADY_RECORDING := 0x12 (only parsing).
Abbreviation CEC_OP_RECORD_STATUS_MEDIA_PROT := 0x13 (only parsing).
Abbreviation CEC_OP_RECORD_STATUS_NO_SIGNAL := 0x14 (only parsing).
Abbreviation CEC_OP_RECORD_STATUS_MEDIA_PROBLEM := 0x15 (only parsing).
Abbreviation CEC_OP_RECORD_STATUS_NO_SPACE := 0x16 (only parsing).
Abbreviation CEC_OP_RECORD_STATUS_PARENTAL_LOCK := 0x17 (only parsing).
Abbreviation CEC_OP_RECORD_STATUS_TERMINATED_OK := 0x1a (only parsing).
Abbreviation CEC_OP_RECORD_STATUS_ALREADY_TERM := 0x1b (only parsing).
Abbreviation CEC_OP_RECORD_STATUS_OTHER := 0x1f (only parsing).

Abbreviation CEC_OP_REC_SEQ_SUNDAY := 0x01 (only parsing).
Abbreviation CEC_OP_REC_SEQ_MONDAY := 0x02 (only parsing).
Abbreviation CEC_OP_REC_SEQ_TUESDAY := 0x04 (only parsing).
Abbreviation CEC_OP_REC_SEQ_WEDNESDAY := 0x08 (only parsing).
Abbreviation CEC_OP_REC_SEQ_THURSDAY := 0x10 (only parsing).
Abbreviation CEC_OP_REC_SEQ_FRIDAY := 0x20 (only parsing).
Abbreviation CEC_OP_REC_SEQ_SATERDAY := 0x40 (only parsing).
Abbreviation CEC_OP_REC_SEQ_ONCE_ONLY := 0x00 (only parsing).

Abbreviation CEC_OP_EXT_SRC_PLUG := 0x04 (only parsing).
Abbreviation CEC_OP_EXT_SRC_PHYS_ADDR := 0x05 (only parsing).

Abbreviation CEC_OP_TIMER_CLR_STAT_RECORDING := 0x00 (only parsing).
Abbreviation CEC_OP_TIMER_CLR_STAT_NO_MATCHING := 0x01 (only parsing).
Abbreviation CEC_OP_TIMER_CLR_STAT_NO_INFO := 0x02 (only parsing).
Abbreviation CEC_OP_TIMER_CLR_STAT_CLEARED := 0x80 (only parsing).

Abbreviation CEC_OP_TIMER_OVERLAP_WARNING_NO_OVERLAP := 0 (only parsing).
Abbreviation CEC_OP_TIMER_OVERLAP_WARNING_OVERLAP := 1 (only parsing).

Abbreviation CEC_OP_MEDIA_INFO_UNPROT_MEDIA := 0 (only parsing).
Abbreviation CEC_OP_MEDIA_INFO_PROT_MEDIA := 1 (only parsing).
Abbreviation CEC_OP_MEDIA_INFO_NO_MEDIA := 2 (only parsing).

Abbreviation CEC_OP_PROG_IND_NOT_PROGRAMMED := 0 (only parsing).
Abbreviation CEC_OP_PROG_IND_PROGRAMMED := 1 (only parsing).

Abbreviation CEC_OP_PROG_INFO_ENOUGH_SPACE := 0x08 (only parsing).
Abbreviation CEC_OP_PROG_INFO_NOT_ENOUGH_SPACE := 0x09 (only parsing).
Abbreviation CEC_OP_PROG_INFO_MIGHT_NOT_BE_ENOUGH_SPACE := 0x0b (only parsing).
Abbreviation CEC_OP_PROG_INFO_NONE_AVAILABLE := 0x0a (only parsing).

Abbreviation CEC_OP_PROG_ERROR_NO_FREE_TIMER := 0x01 (only parsing).
Abbreviation CEC_OP_PROG_ERROR_DATE_OUT_OF_RANGE := 0x02 (only parsing).
Abbreviation CEC_OP_PROG_ERROR_REC_SEQ_ERROR := 0x03 (only parsing).
Abbreviation CEC_OP_PROG_ERROR_INV_EXT_PLUG := 0x04 (only parsing).
Abbreviation CEC_OP_PROG_ERROR_INV_EXT_PHYS_ADDR := 0x05 (only parsing).
Abbreviation CEC_OP_PROG_ERROR_CA_UNSUPP := 0x06 (only parsing).
Abbreviation CEC_OP_PROG_ERROR_INSUF_CA_ENTITLEMENTS := 0x07 (only parsing).
Abbreviation CEC_OP_PROG_ERROR_RESOLUTION_UNSUPP := 0x08 (only parsing).
Abbreviation CEC_OP_PROG_ERROR_PARENTAL_LOCK := 0x09 (only parsing).
Abbreviation CEC_OP_PROG_ERROR_CLOCK_FAILURE := 0x0a (only parsing).
Abbreviation CEC_OP_PROG_ERROR_DUPLICATE := 0x0e (only parsing).

Abbreviation CEC_OP_CEC_VERSION_1_3A := 4 (only parsing).
Abbreviation CEC_OP_CEC_VERSION_1_4 := 5 (only parsing).
Abbreviation CEC_OP_CEC_VERSION_2_0 := 6 (only parsing).

Abbreviation CEC_OP_PRIM_DEVTYPE_TV := 0 (only parsing).
Abbreviation CEC_OP_PRIM_DEVTYPE_RECORD := 1 (only parsing).
Abbreviation CEC_OP_PRIM_DEVTYPE_TUNER := 3 (only parsing).
Abbreviation CEC_OP_PRIM_DEVTYPE_PLAYBACK := 4 (only parsing).
Abbreviation CEC_OP_PRIM_DEVTYPE_AUDIOSYSTEM := 5 (only parsing).
Abbreviation CEC_OP_PRIM_DEVTYPE_SWITCH := 6 (only parsing).
Abbreviation CEC_OP_PRIM_DEVTYPE_PROCESSOR := 7 (only parsing).

Abbreviation CEC_OP_ALL_DEVTYPE_TV := 0x80 (only parsing).
Abbreviation CEC_OP_ALL_DEVTYPE_RECORD := 0x40 (only parsing).
Abbreviation CEC_OP_ALL_DEVTYPE_TUNER := 0x20 (only parsing).
Abbreviation CEC_OP_ALL_DEVTYPE_PLAYBACK := 0x10 (only parsing).
Abbreviation CEC_OP_ALL_DEVTYPE_AUDIOSYSTEM := 0x08 (only parsing).
Abbreviation CEC_OP_ALL_DEVTYPE_SWITCH := 0x04 (only parsing).
Abbreviation CEC_OP_FEAT_EXT := 0x80 (only parsing).

Abbreviation CEC_OP_FEAT_RC_TV_PROFILE_NONE := 0x00 (only parsing).
Abbreviation CEC_OP_FEAT_RC_TV_PROFILE_1 := 0x02 (only parsing).
Abbreviation CEC_OP_FEAT_RC_TV_PROFILE_2 := 0x06 (only parsing).
Abbreviation CEC_OP_FEAT_RC_TV_PROFILE_3 := 0x0a (only parsing).
Abbreviation CEC_OP_FEAT_RC_TV_PROFILE_4 := 0x0e (only parsing).
Abbreviation CEC_OP_FEAT_RC_SRC_HAS_DEV_ROOT_MENU := 0x50 (only parsing).
Abbreviation CEC_OP_FEAT_RC_SRC_HAS_DEV_SETUP_MENU := 0x48 (only parsing).
Abbreviation CEC_OP_FEAT_RC_SRC_HAS_CONTENTS_MENU := 0x44 (only parsing).
Abbreviation CEC_OP_FEAT_RC_SRC_HAS_MEDIA_TOP_MENU := 0x42 (only parsing).
Abbreviation CEC_OP_FEAT_RC_SRC_HAS_MEDIA_CONTEXT_MENU := 0x41 (only parsing).

Abbreviation CEC_OP_FEAT_DEV_HAS_RECORD_TV_SCREEN := 0x40 (only parsing).
Abbreviation CEC_OP_FEAT_DEV_HAS_SET_OSD_STRING := 0x20 (only parsing).
Abbreviation CEC_OP_FEAT_DEV_HAS_DECK_CONTROL := 0x10 (only parsing).
Abbreviation CEC_OP_FEAT_DEV_HAS_SET_AUDIO_RATE := 0x08 (only parsing).
Abbreviation CEC_OP_FEAT_DEV_SINK_HAS_ARC_TX := 0x04 (only parsing).
Abbreviation CEC_OP_FEAT_DEV_SOURCE_HAS_ARC_RX := 0x02 (only parsing).

Abbreviation CEC_OP_DECK_CTL_MODE_SKIP_FWD := 1 (only parsing).
Abbreviation CEC_OP_DECK_CTL_MODE_SKIP_REV := 2 (only parsing).
Abbreviation CEC_OP_DECK_CTL_MODE_STOP := 3 (only parsing).
Abbreviation CEC_OP_DECK_CTL_MODE_EJECT := 4 (only parsing).

Abbreviation CEC_OP_DECK_INFO_PLAY := 0x11 (only parsing).
Abbreviation CEC_OP_DECK_INFO_RECORD := 0x12 (only parsing).
Abbreviation CEC_OP_DECK_INFO_PLAY_REV := 0x13 (only parsing).
Abbreviation CEC_OP_DECK_INFO_STILL := 0x14 (only parsing).
Abbreviation CEC_OP_DECK_INFO_SLOW := 0x15 (only parsing).
Abbreviation CEC_OP_DECK_INFO_SLOW_REV := 0x16 (only parsing).
Abbreviation CEC_OP_DECK_INFO_FAST_FWD := 0x17 (only parsing).
Abbreviation CEC_OP_DECK_INFO_FAST_REV := 0x18 (only parsing).
Abbreviation CEC_OP_DECK_INFO_NO_MEDIA := 0x19 (only parsing).
Abbreviation CEC_OP_DECK_INFO_STOP := 0x1a (only parsing).
Abbreviation CEC_OP_DECK_INFO_SKIP_FWD := 0x1b (only parsing).
Abbreviation CEC_OP_DECK_INFO_SKIP_REV := 0x1c (only parsing).
Abbreviation CEC_OP_DECK_INFO_INDEX_SEARCH_FWD := 0x1d (only parsing).
Abbreviation CEC_OP_DECK_INFO_INDEX_SEARCH_REV := 0x1e (only parsing).
Abbreviation CEC_OP_DECK_INFO_OTHER := 0x1f (only parsing).

Abbreviation CEC_OP_STATUS_REQ_ON := 1 (only parsing).
Abbreviation CEC_OP_STATUS_REQ_OFF := 2 (only parsing).
Abbreviation CEC_OP_STATUS_REQ_ONCE := 3 (only parsing).

Abbreviation CEC_OP_PLAY_MODE_PLAY_FWD := 0x24 (only parsing).
Abbreviation CEC_OP_PLAY_MODE_PLAY_REV := 0x20 (only parsing).
Abbreviation CEC_OP_PLAY_MODE_PLAY_STILL := 0x25 (only parsing).
Abbreviation CEC_OP_PLAY_MODE_PLAY_FAST_FWD_MIN := 0x05 (only parsing).
Abbreviation CEC_OP_PLAY_MODE_PLAY_FAST_FWD_MED := 0x06 (only parsing).
Abbreviation CEC_OP_PLAY_MODE_PLAY_FAST_FWD_MAX := 0x07 (only parsing).
Abbreviation CEC_OP_PLAY_MODE_PLAY_FAST_REV_MIN := 0x09 (only parsing).
Abbreviation CEC_OP_PLAY_MODE_PLAY_FAST_REV_MED := 0x0a (only parsing).
Abbreviation CEC_OP_PLAY_MODE_PLAY_FAST_REV_MAX := 0x0b (only parsing).
Abbreviation CEC_OP_PLAY_MODE_PLAY_SLOW_FWD_MIN := 0x15 (only parsing).
Abbreviation CEC_OP_PLAY_MODE_PLAY_SLOW_FWD_MED := 0x16 (only parsing).
Abbreviation CEC_OP_PLAY_MODE_PLAY_SLOW_FWD_MAX := 0x17 (only parsing).
Abbreviation CEC_OP_PLAY_MODE_PLAY_SLOW_REV_MIN := 0x19 (only parsing).
Abbreviation CEC_OP_PLAY_MODE_PLAY_SLOW_REV_MED := 0x1a (only parsing).
Abbreviation CEC_OP_PLAY_MODE_PLAY_SLOW_REV_MAX := 0x1b (only parsing).

Abbreviation CEC_OP_REC_FLAG_USED := 0 (only parsing).
Abbreviation CEC_OP_REC_FLAG_NOT_USED := 1 (only parsing).

Abbreviation CEC_OP_TUNER_DISPLAY_INFO_DIGITAL := 0 (only parsing).
Abbreviation CEC_OP_TUNER_DISPLAY_INFO_NONE := 1 (only parsing).
Abbreviation CEC_OP_TUNER_DISPLAY_INFO_ANALOGUE := 2 (only parsing).

Abbreviation CEC_OP_DISP_CTL_DEFAULT := 0x00 (only parsing).
Abbreviation CEC_OP_DISP_CTL_UNTIL_CLEARED := 0x40 (only parsing).
Abbreviation CEC_OP_DISP_CTL_CLEAR := 0x80 (only parsing).

Abbreviation CEC_OP_MENU_REQUEST_ACTIVATE := 0x00 (only parsing).
Abbreviation CEC_OP_MENU_REQUEST_DEACTIVATE := 0x01 (only parsing).
Abbreviation CEC_OP_MENU_REQUEST_QUERY := 0x02 (only parsing).

Abbreviation CEC_OP_MENU_STATE_ACTIVATED := 0x00 (only parsing).
Abbreviation CEC_OP_MENU_STATE_DEACTIVATED := 0x01 (only parsing).

Abbreviation CEC_OP_UI_BCAST_TYPE_TOGGLE_ALL := 0x00 (only parsing).
Abbreviation CEC_OP_UI_BCAST_TYPE_TOGGLE_DIG_ANA := 0x01 (only parsing).
Abbreviation CEC_OP_UI_BCAST_TYPE_ANALOGUE := 0x10 (only parsing).
Abbreviation CEC_OP_UI_BCAST_TYPE_ANALOGUE_T := 0x20 (only parsing).
Abbreviation CEC_OP_UI_BCAST_TYPE_ANALOGUE_CABLE := 0x30 (only parsing).
Abbreviation CEC_OP_UI_BCAST_TYPE_ANALOGUE_SAT := 0x40 (only parsing).
Abbreviation CEC_OP_UI_BCAST_TYPE_DIGITAL := 0x50 (only parsing).
Abbreviation CEC_OP_UI_BCAST_TYPE_DIGITAL_T := 0x60 (only parsing).
Abbreviation CEC_OP_UI_BCAST_TYPE_DIGITAL_CABLE := 0x70 (only parsing).
Abbreviation CEC_OP_UI_BCAST_TYPE_DIGITAL_SAT := 0x80 (only parsing).
Abbreviation CEC_OP_UI_BCAST_TYPE_DIGITAL_COM_SAT := 0x90 (only parsing).
Abbreviation CEC_OP_UI_BCAST_TYPE_DIGITAL_COM_SAT2 := 0x91 (only parsing).
Abbreviation CEC_OP_UI_BCAST_TYPE_IP := 0xa0 (only parsing).

Abbreviation CEC_OP_UI_SND_PRES_CTL_DUAL_MONO := 0x10 (only parsing).
Abbreviation CEC_OP_UI_SND_PRES_CTL_KARAOKE := 0x20 (only parsing).
Abbreviation CEC_OP_UI_SND_PRES_CTL_DOWNMIX := 0x80 (only parsing).
Abbreviation CEC_OP_UI_SND_PRES_CTL_REVERB := 0x90 (only parsing).
Abbreviation CEC_OP_UI_SND_PRES_CTL_EQUALIZER := 0xa0 (only parsing).
Abbreviation CEC_OP_UI_SND_PRES_CTL_BASS_UP := 0xb1 (only parsing).
Abbreviation CEC_OP_UI_SND_PRES_CTL_BASS_NEUTRAL := 0xb2 (only parsing).
Abbreviation CEC_OP_UI_SND_PRES_CTL_BASS_DOWN := 0xb3 (only parsing).
Abbreviation CEC_OP_UI_SND_PRES_CTL_TREBLE_UP := 0xc1 (only parsing).
Abbreviation CEC_OP_UI_SND_PRES_CTL_TREBLE_NEUTRAL := 0xc2 (only parsing).
Abbreviation CEC_OP_UI_SND_PRES_CTL_TREBLE_DOWN := 0xc3 (only parsing).

Abbreviation CEC_OP_POWER_STATUS_ON := 0 (only parsing).
Abbreviation CEC_OP_POWER_STATUS_STANDBY := 1 (only parsing).
Abbreviation CEC_OP_POWER_STATUS_TO_ON := 2 (only parsing).
Abbreviation CEC_OP_POWER_STATUS_TO_STANDBY := 3 (only parsing).

Abbreviation CEC_OP_ABORT_UNRECOGNIZED_OP := 0 (only parsing).
Abbreviation CEC_OP_ABORT_INCORRECT_MODE := 1 (only parsing).
Abbreviation CEC_OP_ABORT_NO_SOURCE := 2 (only parsing).
Abbreviation CEC_OP_ABORT_INVALID_OP := 3 (only parsing).
Abbreviation CEC_OP_ABORT_REFUSED := 4 (only parsing).
Abbreviation CEC_OP_ABORT_UNDETERMINED := 5 (only parsing).

Abbreviation CEC_OP_AUD_MUTE_STATUS_OFF := 0 (only parsing).
Abbreviation CEC_OP_AUD_MUTE_STATUS_ON := 1 (only parsing).

Abbreviation CEC_OP_SYS_AUD_STATUS_OFF := 0 (only parsing).
Abbreviation CEC_OP_SYS_AUD_STATUS_ON := 1 (only parsing).

Abbreviation CEC_OP_AUD_FMT_ID_CEA861 := 0 (only parsing).
Abbreviation CEC_OP_AUD_FMT_ID_CEA861_CXT := 1 (only parsing).

Abbreviation CEC_OP_AUD_RATE_OFF := 0 (only parsing).
Abbreviation CEC_OP_AUD_RATE_WIDE_STD := 1 (only parsing).
Abbreviation CEC_OP_AUD_RATE_WIDE_FAST := 2 (only parsing).
Abbreviation CEC_OP_AUD_RATE_WIDE_SLOW := 3 (only parsing).
Abbreviation CEC_OP_AUD_RATE_NARROW_STD := 4 (only parsing).
Abbreviation CEC_OP_AUD_RATE_NARROW_FAST := 5 (only parsing).
Abbreviation CEC_OP_AUD_RATE_NARROW_SLOW := 6 (only parsing).

Abbreviation CEC_OP_LOW_LATENCY_MODE_OFF := 0 (only parsing).
Abbreviation CEC_OP_LOW_LATENCY_MODE_ON := 1 (only parsing).

Abbreviation CEC_OP_AUD_OUT_COMPENSATED_NA := 0 (only parsing).
Abbreviation CEC_OP_AUD_OUT_COMPENSATED_DELAY := 1 (only parsing).
Abbreviation CEC_OP_AUD_OUT_COMPENSATED_NO_DELAY := 2 (only parsing).
Abbreviation CEC_OP_AUD_OUT_COMPENSATED_PARTIAL_DELAY := 3 (only parsing).

Abbreviation CEC_OP_HEC_FUNC_STATE_NOT_SUPPORTED := 0 (only parsing).
Abbreviation CEC_OP_HEC_FUNC_STATE_INACTIVE := 1 (only parsing).
Abbreviation CEC_OP_HEC_FUNC_STATE_ACTIVE := 2 (only parsing).
Abbreviation CEC_OP_HEC_FUNC_STATE_ACTIVATION_FIELD := 3 (only parsing).

Abbreviation CEC_OP_HOST_FUNC_STATE_NOT_SUPPORTED := 0 (only parsing).
Abbreviation CEC_OP_HOST_FUNC_STATE_INACTIVE := 1 (only parsing).
Abbreviation CEC_OP_HOST_FUNC_STATE_ACTIVE := 2 (only parsing).

Abbreviation CEC_OP_ENC_FUNC_STATE_EXT_CON_NOT_SUPPORTED := 0 (only parsing).
Abbreviation CEC_OP_ENC_FUNC_STATE_EXT_CON_INACTIVE := 1 (only parsing).
Abbreviation CEC_OP_ENC_FUNC_STATE_EXT_CON_ACTIVE := 2 (only parsing).

Abbreviation CEC_OP_CDC_ERROR_CODE_NONE := 0 (only parsing).
Abbreviation CEC_OP_CDC_ERROR_CODE_CAP_UNSUPPORTED := 1 (only parsing).
Abbreviation CEC_OP_CDC_ERROR_CODE_WRONG_STATE := 2 (only parsing).
Abbreviation CEC_OP_CDC_ERROR_CODE_OTHER := 3 (only parsing).

Abbreviation CEC_OP_HEC_SUPPORT_NO := 0 (only parsing).
Abbreviation CEC_OP_HEC_SUPPORT_YES := 1 (only parsing).

Abbreviation CEC_OP_HEC_ACTIVATION_ON := 0 (only parsing).
Abbreviation CEC_OP_HEC_ACTIVATION_OFF := 1 (only parsing).

Abbreviation CEC_OP_HEC_SET_STATE_DEACTIVATE := 0 (only parsing).
Abbreviation CEC_OP_HEC_SET_STATE_ACTIVATE := 1 (only parsing).

Abbreviation CEC_OP_HPD_STATE_CP_EDID_DISABLE := 0 (only parsing).
Abbreviation CEC_OP_HPD_STATE_CP_EDID_ENABLE := 1 (only parsing).
Abbreviation CEC_OP_HPD_STATE_CP_EDID_DISABLE_ENABLE := 2 (only parsing).
Abbreviation CEC_OP_HPD_STATE_EDID_DISABLE := 3 (only parsing).
Abbreviation CEC_OP_HPD_STATE_EDID_ENABLE := 4 (only parsing).
Abbreviation CEC_OP_HPD_STATE_EDID_DISABLE_ENABLE := 5 (only parsing).

Abbreviation CEC_OP_HPD_ERROR_NONE := 0 (only parsing).
Abbreviation CEC_OP_HPD_ERROR_INITIATOR_NOT_CAPABLE := 1 (only parsing).
Abbreviation CEC_OP_HPD_ERROR_INITIATOR_WRONG_STATE := 2 (only parsing).
Abbreviation CEC_OP_HPD_ERROR_OTHER := 3 (only parsing).
Abbreviation CEC_OP_HPD_ERROR_NONE_NO_VIDEO := 4 (only parsing).

(** ** Tables *)

Definition opcodes_one_touch_play : list Z :=
  [CEC_MSG_ACTIVE_SOURCE; CEC_MSG_IMAGE_VIEW_ON; CEC_MSG_TEXT_VIEW_ON].
Definition opcodes_routing_control : list Z :=
  [CEC_MSG_INACTIVE_SOURCE; CEC_MSG_REQUEST_ACTIVE_SOURCE; CEC_MSG_ROUTING_CHANGE;
   CEC_MSG_ROUTING_INFORMATION; CEC_MSG_SET_STREAM_PATH].
Definition opcodes_standby : list Z :=
  [CEC_MSG_STANDBY].
Definition opcodes_one_touch_record : list Z :=
  [CEC_MSG_RECORD_OFF; CEC_MSG_RECORD_ON; CEC_MSG_RECORD_STATUS;
   CEC_MSG_RECORD_TV_SCREEN].
Definition opcodes_timer_programming : list Z :=
  [CEC_MSG_CLEAR_ANALOGUE_TIMER; CEC_MSG_CLEAR_DIGITAL_TIMER;
   CEC_MSG_CLEAR_EXT_TIMER; CEC_MSG_SET_ANALOGUE_TIMER; CEC_MSG_SET_DIGITAL_TIMER;
   CEC_MSG_SET_EXT_TIMER; CEC_MSG_SET_TIMER_PROGRAM_TITLE;
   CEC_MSG_TIMER_CLEARED_STATUS; CEC_MSG_TIMER_STATUS].
Definition opcodes_system_information : list Z :=
  [CEC_MSG_CEC_VERSION; CEC_MSG_GET_CEC_VERSION; CEC_MSG_GIVE_PHYSICAL_ADDR;
   CEC_MSG_GET_MENU_LANGUAGE; CEC_MSG_REPORT_PHYSICAL_ADDR;
   CEC_MSG_SET_MENU_LANGUAGE; CEC_MSG_REPORT_FEATURES; CEC_MSG_GIVE_FEATURES].
Definition opcodes_deck_control : list Z :=
  [CEC_MSG_DECK_CONTROL; CEC_MSG_DECK_STATUS; CEC_MSG_GIVE_DECK_STATUS;
   CEC_MSG_PLAY].
Definition opcodes_tuner_control : list Z :=
  [CEC_MSG_GIVE_TUNER_DEVICE_STATUS; CEC_MSG_SELECT_ANALOGUE_SERVICE;
   CEC_MSG_SELECT_DIGITAL_SERVICE; CEC_MSG_TUNER_DEVICE_STATUS;
   CEC_MSG_TUNER_STEP_DECREMENT; CEC_MSG_TUNER_STEP_INCREMENT].
Definition opcodes_vendor_specific_commands : list Z :=
  [CEC_MSG_DEVICE_VENDOR_ID; CEC_MSG_GIVE_DEVICE_VENDOR_ID; CEC_MSG_VENDOR_COMMAND;
   CEC_MSG_VENDOR_COMMAND_WITH_ID; CEC_MSG_VENDOR_REMOTE_BUTTON_DOWN;
   CEC_MSG_VENDOR_REMOTE_BUTTON_UP].
Definition opcodes_osd_display : list Z :=
  [CEC_MSG_SET_OSD_STRING].
Definition opcodes_device_osd_transfer : list Z :=
  [CEC_MSG_GIVE_OSD_NAME; CEC_MSG_SET_OSD_NAME].
Definition opcodes_device_menu_control : list Z :=
  [CEC_MSG_MENU_REQUEST; CEC_MSG_MENU_STATUS; CEC_MSG_USER_CONTROL_PRESSED;
   CEC_MSG_USER_CONTROL_RELEASED].
Definition opcodes_power_status : list Z :=
  [CEC_MSG_GIVE_DEVICE_POWER_STATUS; CEC_MSG_REPORT_POWER_STATUS].
Definition opcodes_general_protocol : list Z :=
  [CEC_MSG_FEATURE_ABORT; CEC_MSG_ABORT].
Definition opcodes_system_audio_control : list Z :=
  [CEC_MSG_GIVE_AUDIO_STATUS; CEC_MSG_GIVE_SYSTEM_AUDIO_MODE_STATUS;
   CEC_MSG_REPORT_AUDIO_STATUS; CEC_MSG_REPORT_SHORT_AUDIO_DESCRIPTOR;
   CEC_MSG_REQUEST_SHORT_AUDIO_DESCRIPTOR; CEC_MSG_SET_SYSTEM_AUDIO_MODE;
   CEC_MSG_SYSTEM_AUDIO_MODE_REQUEST; CEC_MSG_SYSTEM_AUDIO_MODE_STATUS].
Definition opcodes_audio_rate_control : list Z :=
  [CEC_MSG_SET_AUDIO_RATE].
Definition opcodes_audio_return_channel_control : list Z :=
  [CEC_MSG_INITIATE_ARC; CEC_MSG_REPORT_ARC_INITIATED;
   CEC_MSG_REPORT_ARC_TERMINATED; CEC_MSG_REQUEST_ARC_INITIATION;
   CEC_MSG_REQUEST_ARC_TERMINATION; CEC_MSG_TERMINATE_ARC].
Definition opcodes_dynamic_audio_lipsync : list Z :=
  [CEC_MSG_REQUEST_CURRENT_LATENCY; CEC_MSG_REPORT_CURRENT_LATENCY].
Definition opcodes_cdc : list Z :=
  [CEC_MSG_CDC_MESSAGE].
(** The sub-opcodes of [CEC_MSG_CDC_MESSAGE]. *)
Definition cdc_opcodes : list Z :=
  [CEC_MSG_CDC_HEC_INQUIRE_STATE; CEC_MSG_CDC_HEC_REPORT_STATE;
   CEC_MSG_CDC_HEC_SET_STATE_ADJACENT; CEC_MSG_CDC_HEC_SET_STATE;
   CEC_MSG_CDC_HEC_REQUEST_DEACTIVATION; CEC_MSG_CDC_HEC_NOTIFY_ALIVE;
   CEC_MSG_CDC_HEC_DISCOVER; CEC_MSG_CDC_HPD_SET_STATE;
   CEC_MSG_CDC_HPD_REPORT_STATE].

(** Record Source Type operand *)
Definition op_rec_src_type : list Z :=
  [CEC_OP_RECORD_SRC_OWN; CEC_OP_RECORD_SRC_DIGITAL; CEC_OP_RECORD_SRC_ANALOG;
   CEC_OP_RECORD_SRC_EXT_PLUG; CEC_OP_RECORD_SRC_EXT_PHYS_ADDR].
(** Service Identification Method operand *)
Definition op_service_id_method : list Z :=
  [CEC_OP_SERVICE_ID_METHOD_BY_DIG_ID; CEC_OP_SERVICE_ID_METHOD_BY_CHANNEL].
(** Digital Service Broadcast System operand *)
Definition op_dig_bcast_system : list Z :=
  [CEC_OP_DIG_SERVICE_BCAST_SYSTEM_ARIB_GEN;
   CEC_OP_DIG_SERVICE_BCAST_SYSTEM_ATSC_GEN;
   CEC_OP_DIG_SERVICE_BCAST_SYSTEM_DVB_GEN; CEC_OP_DIG_SERVICE_BCAST_SYSTEM_ARIB_BS;
   CEC_OP_DIG_SERVICE_BCAST_SYSTEM_ARIB_CS; CEC_OP_DIG_SERVICE_BCAST_SYSTEM_ARIB_T;
   CEC_OP_DIG_SERVICE_BCAST_SYSTEM_ATSC_CABLE;
   CEC_OP_DIG_SERVICE_BCAST_SYSTEM_ATSC_SAT; CEC_OP_DIG_SERVICE_BCAST_SYSTEM_ATSC_T;
   CEC_OP_DIG_SERVICE_BCAST_SYSTEM_DVB_C; CEC_OP_DIG_SERVICE_BCAST_SYSTEM_DVB_S;
   CEC_OP_DIG_SERVICE_BCAST_SYSTEM_DVB_S2; CEC_OP_DIG_SERVICE_BCAST_SYSTEM_DVB_T].
(** Analogue Broadcast Type operand *)
Definition op_ana_bcast_type : list Z :=
  [CEC_OP_ANA_BCAST_TYPE_CABLE; CEC_OP_ANA_BCAST_TYPE_SATELLITE;
   CEC_OP_ANA_BCAST_TYPE_TERRESTRIAL].
(** Broadcast System operand *)
Definition op_bcast_system : list Z :=
  [CEC_OP_BCAST_SYSTEM_PAL_BG; CEC_OP_BCAST_SYSTEM_SECAM_LQ;
   CEC_OP_BCAST_SYSTEM_PAL_M; CEC_OP_BCAST_SYSTEM_NTSC_M; CEC_OP_BCAST_SYSTEM_PAL_I;
   CEC_OP_BCAST_SYSTEM_SECAM_DK; CEC_OP_BCAST_SYSTEM_SECAM_BG;
   CEC_OP_BCAST_SYSTEM_SECAM_L; CEC_OP_BCAST_SYSTEM_PAL_DK;
   CEC_OP_BCAST_SYSTEM_OTHER].
(** Channel Number Format operand *)
Definition op_channel_number_fmt : list Z :=
  [CEC_OP_CHANNEL_NUMBER_FMT_1_PART; CEC_OP_CHANNEL_NUMBER_FMT_2_PART].
(** Record Status operand *)
Definition op_rec_status : list Z :=
  [CEC_OP_RECORD_STATUS_CUR_SRC; CEC_OP_RECORD_STATUS_DIG_SERVICE;
   CEC_OP_RECORD_STATUS_ANA_SERVICE; CEC_OP_RECORD_STATUS_EXT_INPUT;
   CEC_OP_RECORD_STATUS_NO_DIG_SERVICE; CEC_OP_RECORD_STATUS_NO_ANA_SERVICE;
   CEC_OP_RECORD_STATUS_NO_SERVICE; CEC_OP_RECORD_STATUS_INVALID_EXT_PLUG;
   CEC_OP_RECORD_STATUS_INVALID_EXT_PHYS_ADDR; CEC_OP_RECORD_STATUS_UNSUP_CA;
   CEC_OP_RECORD_STATUS_NO_CA_ENTITLEMENTS; CEC_OP_RECORD_STATUS_CANT_COPY_SRC;
   CEC_OP_RECORD_STATUS_NO_MORE_COPIES; CEC_OP_RECORD_STATUS_NO_MEDIA;
   CEC_OP_RECORD_STATUS_PLAYING; CEC_OP_RECORD_STATUS_ALREADY_RECORDING;
   CEC_OP_RECORD_STATUS_MEDIA_PROT; CEC_OP_RECORD_STATUS_NO_SIGNAL;
   CEC_OP_RECORD_STATUS_MEDIA_PROBLEM; CEC_OP_RECORD_STATUS_NO_SPACE;
   CEC_OP_RECORD_STATUS_PARENTAL_LOCK; CEC_OP_RECORD_STATUS_TERMINATED_OK;
   CEC_OP_RECORD_STATUS_ALREADY_TERM; CEC_OP_RECORD_STATUS_OTHER].
(** Recording Sequence operand *)
Definition op_recording_seq : list Z :=
  [CEC_OP_REC_SEQ_SUNDAY; CEC_OP_REC_SEQ_MONDAY; CEC_OP_REC_SEQ_TUESDAY;
   CEC_OP_REC_SEQ_WEDNESDAY; CEC_OP_REC_SEQ_THURSDAY; CEC_OP_REC_SEQ_FRIDAY;
   CEC_OP_REC_SEQ_SATERDAY; CEC_OP_REC_SEQ_ONCE_ONLY].
(** External Source Specifier operand *)
Definition op_ext_src_spec : list Z :=
  [CEC_OP_EXT_SRC_PLUG; CEC_OP_EXT_SRC_PHYS_ADDR].
(** Timer Cleared Status Data operand *)
Definition op_timer_cleared_status : list Z :=
  [CEC_OP_TIMER_CLR_STAT_RECORDING; CEC_OP_TIMER_CLR_STAT_NO_MATCHING;
   CEC_OP_TIMER_CLR_STAT_NO_INFO; CEC_OP_TIMER_CLR_STAT_CLEARED].
(** Timer Overlap Warning operand *)
Definition op_timer_overlap_warning : list Z :=
  [CEC_OP_TIMER_OVERLAP_WARNING_NO_OVERLAP; CEC_OP_TIMER_OVERLAP_WARNING_OVERLAP].
(** Media Info operand *)
Definition op_media_info : list Z :=
  [CEC_OP_MEDIA_INFO_UNPROT_MEDIA; CEC_OP_MEDIA_INFO_PROT_MEDIA;
   CEC_OP_MEDIA_INFO_NO_MEDIA].
(** Programmed Indicator operand *)
Definition op_prog_indicator : list Z :=
  [CEC_OP_PROG_IND_NOT_PROGRAMMED; CEC_OP_PROG_IND_PROGRAMMED].
(** Programmed Info operand *)
Definition op_prog_info : list Z :=
  [CEC_OP_PROG_INFO_ENOUGH_SPACE; CEC_OP_PROG_INFO_NOT_ENOUGH_SPACE;
   CEC_OP_PROG_INFO_MIGHT_NOT_BE_ENOUGH_SPACE; CEC_OP_PROG_INFO_NONE_AVAILABLE].
(** Not Programmed Error Info operand *)
Definition op_prog_error : list Z :=
  [CEC_OP_PROG_ERROR_NO_FREE_TIMER; CEC_OP_PROG_ERROR_DATE_OUT_OF_RANGE;
   CEC_OP_PROG_ERROR_REC_SEQ_ERROR; CEC_OP_PROG_ERROR_INV_EXT_PLUG;
   CEC_OP_PROG_ERROR_INV_EXT_PHYS_ADDR; CEC_OP_PROG_ERROR_CA_UNSUPP;
   CEC_OP_PROG_ERROR_INSUF_CA_ENTITLEMENTS; CEC_OP_PROG_ERROR_RESOLUTION_UNSUPP;
   CEC_OP_PROG_ERROR_PARENTAL_LOCK; CEC_OP_PROG_ERROR_CLOCK_FAILURE;
   CEC_OP_PROG_ERROR_DUPLICATE].
(** CEC Version operand *)
Definition op_cec_version : list Z :=
  [CEC_OP_CEC_VERSION_1_3A; CEC_OP_CEC_VERSION_1_4; CEC_OP_CEC_VERSION_2_0].
(** Primary Device Type operand *)
Definition op_prim_devtype : list Z :=
  [CEC_OP_PRIM_DEVTYPE_TV; CEC_OP_PRIM_DEVTYPE_RECORD; CEC_OP_PRIM_DEVTYPE_TUNER;
   CEC_OP_PRIM_DEVTYPE_PLAYBACK; CEC_OP_PRIM_DEVTYPE_AUDIOSYSTEM;
   CEC_OP_PRIM_DEVTYPE_SWITCH; CEC_OP_PRIM_DEVTYPE_PROCESSOR].
(** All Device Types operand *)
Definition op_all_device_types : list Z :=
  [CEC_OP_ALL_DEVTYPE_TV; CEC_OP_ALL_DEVTYPE_RECORD; CEC_OP_ALL_DEVTYPE_TUNER;
   CEC_OP_ALL_DEVTYPE_PLAYBACK; CEC_OP_ALL_DEVTYPE_AUDIOSYSTEM;
   CEC_OP_ALL_DEVTYPE_SWITCH].
(** RC Profile operand *)
Definition op_rc_profile : list Z :=
  [CEC_OP_FEAT_RC_TV_PROFILE_NONE; CEC_OP_FEAT_RC_TV_PROFILE_1;
   CEC_OP_FEAT_RC_TV_PROFILE_2; CEC_OP_FEAT_RC_TV_PROFILE_3;
   CEC_OP_FEAT_RC_TV_PROFILE_4; CEC_OP_FEAT_RC_SRC_HAS_DEV_ROOT_MENU;
   CEC_OP_FEAT_RC_SRC_HAS_DEV_SETUP_MENU; CEC_OP_FEAT_RC_SRC_HAS_CONTENTS_MENU;
   CEC_OP_FEAT_RC_SRC_HAS_MEDIA_TOP_MENU;
   CEC_OP_FEAT_RC_SRC_HAS_MEDIA_CONTEXT_MENU].
(** Device Feature operand *)
Definition op_dev_features : list Z :=
  [CEC_OP_FEAT_DEV_HAS_RECORD_TV_SCREEN; CEC_OP_FEAT_DEV_HAS_SET_OSD_STRING;
   CEC_OP_FEAT_DEV_HAS_DECK_CONTROL; CEC_OP_FEAT_DEV_HAS_SET_AUDIO_RATE;
   CEC_OP_FEAT_DEV_SINK_HAS_ARC_TX; CEC_OP_FEAT_DEV_SOURCE_HAS_ARC_RX].
(** Deck Control Mode operand *)
Definition op_deck_control_mode : list Z :=
  [CEC_OP_DECK_CTL_MODE_SKIP_FWD; CEC_OP_DECK_CTL_MODE_SKIP_REV;
   CEC_OP_DECK_CTL_MODE_STOP; CEC_OP_DECK_CTL_MODE_EJECT].
(** Deck Info operand *)
Definition op_deck_info : list Z :=
  [CEC_OP_DECK_INFO_PLAY; CEC_OP_DECK_INFO_RECORD; CEC_OP_DECK_INFO_PLAY_REV;
   CEC_OP_DECK_INFO_STILL; CEC_OP_DECK_INFO_SLOW; CEC_OP_DECK_INFO_SLOW_REV;
   CEC_OP_DECK_INFO_FAST_FWD; CEC_OP_DECK_INFO_FAST_REV; CEC_OP_DECK_INFO_NO_MEDIA;
   CEC_OP_DECK_INFO_STOP; CEC_OP_DECK_INFO_SKIP_FWD; CEC_OP_DECK_INFO_SKIP_REV;
   CEC_OP_DECK_INFO_INDEX_SEARCH_FWD; CEC_OP_DECK_INFO_INDEX_SEARCH_REV;
   CEC_OP_DECK_INFO_OTHER].
(** Status Request operand *)
Definition op_status_req : list Z :=
  [CEC_OP_STATUS_REQ_ON; CEC_OP_STATUS_REQ_OFF; CEC_OP_STATUS_REQ_ONCE].
(** Play Mode operand *)
Definition op_play_mode : list Z :=
  [CEC_OP_PLAY_MODE_PLAY_FWD; CEC_OP_PLAY_MODE_PLAY_REV;
   CEC_OP_PLAY_MODE_PLAY_STILL; CEC_OP_PLAY_MODE_PLAY_FAST_FWD_MIN;
   CEC_OP_PLAY_MODE_PLAY_FAST_FWD_MED; CEC_OP_PLAY_MODE_PLAY_FAST_FWD_MAX;
   CEC_OP_PLAY_MODE_PLAY_FAST_REV_MIN; CEC_OP_PLAY_MODE_PLAY_FAST_REV_MED;
   CEC_OP_PLAY_MODE_PLAY_FAST_REV_MAX; CEC_OP_PLAY_MODE_PLAY_SLOW_FWD_MIN;
   CEC_OP_PLAY_MODE_PLAY_SLOW_FWD_MED; CEC_OP_PLAY_MODE_PLAY_SLOW_FWD_MAX;
   CEC_OP_PLAY_MODE_PLAY_SLOW_REV_MIN; CEC_OP_PLAY_MODE_PLAY_SLOW_REV_MED;
   CEC_OP_PLAY_MODE_PLAY_SLOW_REV_MAX].
(** Recording Flag operand *)
Definition op_rec_flag : list Z :=
  [CEC_OP_REC_FLAG_USED; CEC_OP_REC_FLAG_NOT_USED].
(** Tuner Display Info operand *)
Definition op_tuner_display_info : list Z :=
  [CEC_OP_TUNER_DISPLAY_INFO_DIGITAL; CEC_OP_TUNER_DISPLAY_INFO_NONE;
   CEC_OP_TUNER_DISPLAY_INFO_ANALOGUE].
(** Display Control operand *)
Definition op_disp_ctl : list Z :=
  [CEC_OP_DISP_CTL_DEFAULT; CEC_OP_DISP_CTL_UNTIL_CLEARED; CEC_OP_DISP_CTL_CLEAR].
(** Menu Request Type operand *)
Definition op_menu_req : list Z :=
  [CEC_OP_MENU_REQUEST_ACTIVATE; CEC_OP_MENU_REQUEST_DEACTIVATE;
   CEC_OP_MENU_REQUEST_QUERY].
(** Menu State operand *)
Definition op_menu_state : list Z :=
  [CEC_OP_MENU_STATE_ACTIVATED; CEC_OP_MENU_STATE_DEACTIVATED].
(** UI Broadcast Type operand *)
Definition op_ui_bcast_type : list Z :=
  [CEC_OP_UI_BCAST_TYPE_TOGGLE_ALL; CEC_OP_UI_BCAST_TYPE_TOGGLE_DIG_ANA;
   CEC_OP_UI_BCAST_TYPE_ANALOGUE; CEC_OP_UI_BCAST_TYPE_ANALOGUE_T;
   CEC_OP_UI_BCAST_TYPE_ANALOGUE_CABLE; CEC_OP_UI_BCAST_TYPE_ANALOGUE_SAT;
   CEC_OP_UI_BCAST_TYPE_DIGITAL; CEC_OP_UI_BCAST_TYPE_DIGITAL_T;
   CEC_OP_UI_BCAST_TYPE_DIGITAL_CABLE; CEC_OP_UI_BCAST_TYPE_DIGITAL_SAT;
   CEC_OP_UI_BCAST_TYPE_DIGITAL_COM_SAT; CEC_OP_UI_BCAST_TYPE_DIGITAL_COM_SAT2;
   CEC_OP_UI_BCAST_TYPE_IP].
(** UI Sound Presentation Control operand *)
Definition op_ui_snd_pres_ctl : list Z :=
  [CEC_OP_UI_SND_PRES_CTL_DUAL_MONO; CEC_OP_UI_SND_PRES_CTL_KARAOKE;
   CEC_OP_UI_SND_PRES_CTL_DOWNMIX; CEC_OP_UI_SND_PRES_CTL_REVERB;
   CEC_OP_UI_SND_PRES_CTL_EQUALIZER; CEC_OP_UI_SND_PRES_CTL_BASS_UP;
   CEC_OP_UI_SND_PRES_CTL_BASS_NEUTRAL; CEC_OP_UI_SND_PRES_CTL_BASS_DOWN;
   CEC_OP_UI_SND_PRES_CTL_TREBLE_UP; CEC_OP_UI_SND_PRES_CTL_TREBLE_NEUTRAL;
   CEC_OP_UI_SND_PRES_CTL_TREBLE_DOWN].
(** Power Status operand *)
Definition op_pwr_state : list Z :=
  [CEC_OP_POWER_STATUS_ON; CEC_OP_POWER_STATUS_STANDBY; CEC_OP_POWER_STATUS_TO_ON;
   CEC_OP_POWER_STATUS_TO_STANDBY].
(** Abort Reason operand *)
Definition op_reason : list Z :=
  [CEC_OP_ABORT_UNRECOGNIZED_OP; CEC_OP_ABORT_INCORRECT_MODE;
   CEC_OP_ABORT_NO_SOURCE; CEC_OP_ABORT_INVALID_OP; CEC_OP_ABORT_REFUSED;
   CEC_OP_ABORT_UNDETERMINED].
(** Audio Mute Status operand *)
Definition op_aud_mute_status : list Z :=
  [CEC_OP_AUD_MUTE_STATUS_OFF; CEC_OP_AUD_MUTE_STATUS_ON].
(** System Audio Status operand *)
Definition op_sys_aud_status : list Z :=
  [CEC_OP_SYS_AUD_STATUS_OFF; CEC_OP_SYS_AUD_STATUS_ON].
(** Audio Format ID operand *)
Definition op_audio_format_id : list Z :=
  [CEC_OP_AUD_FMT_ID_CEA861; CEC_OP_AUD_FMT_ID_CEA861_CXT].
(** Audio Rate operand *)
Definition op_audio_rate : list Z :=
  [CEC_OP_AUD_RATE_OFF; CEC_OP_AUD_RATE_WIDE_STD; CEC_OP_AUD_RATE_WIDE_FAST;
   CEC_OP_AUD_RATE_WIDE_SLOW; CEC_OP_AUD_RATE_NARROW_STD;
   CEC_OP_AUD_RATE_NARROW_FAST; CEC_OP_AUD_RATE_NARROW_SLOW].
(** Low Latency Mode operand *)
Definition op_low_latency_mode : list Z :=
  [CEC_OP_LOW_LATENCY_MODE_OFF; CEC_OP_LOW_LATENCY_MODE_ON].
(** Audio Output Compensated operand *)
Definition op_audio_out_compensated : list Z :=
  [CEC_OP_AUD_OUT_COMPENSATED_NA; CEC_OP_AUD_OUT_COMPENSATED_DELAY;
   CEC_OP_AUD_OUT_COMPENSATED_NO_DELAY; CEC_OP_AUD_OUT_COMPENSATED_PARTIAL_DELAY].
(** HEC Functionality State operand *)
Definition op_hec_func_state : list Z :=
  [CEC_OP_HEC_FUNC_STATE_NOT_SUPPORTED; CEC_OP_HEC_FUNC_STATE_INACTIVE;
   CEC_OP_HEC_FUNC_STATE_ACTIVE; CEC_OP_HEC_FUNC_STATE_ACTIVATION_FIELD].
(** Host Functionality State operand *)
Definition op_host_func_state : list Z :=
  [CEC_OP_HOST_FUNC_STATE_NOT_SUPPORTED; CEC_OP_HOST_FUNC_STATE_INACTIVE;
   CEC_OP_HOST_FUNC_STATE_ACTIVE].
(** ENC Functionality State operand *)
Definition op_enc_func_state : list Z :=
  [CEC_OP_ENC_FUNC_STATE_EXT_CON_NOT_SUPPORTED;
   CEC_OP_ENC_FUNC_STATE_EXT_CON_INACTIVE; CEC_OP_ENC_FUNC_STATE_EXT_CON_ACTIVE].
(** CDC Error Code operand *)
Definition op_cdc_errcode : list Z :=
  [CEC_OP_CDC_ERROR_CODE_NONE; CEC_OP_CDC_ERROR_CODE_CAP_UNSUPPORTED;
   CEC_OP_CDC_ERROR_CODE_WRONG_STATE; CEC_OP_CDC_ERROR_CODE_OTHER].
(** HEC Support operand *)
Definition op_hec_support : list Z :=
  [CEC_OP_HEC_SUPPORT_NO; CEC_OP_HEC_SUPPORT_YES].
(** HEC Activation operand *)
Definition op_hec_activation : list Z :=
  [CEC_OP_HEC_ACTIVATION_ON; CEC_OP_HEC_ACTIVATION_OFF].
(** HEC Set State operand *)
Definition op_hec_set_state : list Z :=
  [CEC_OP_HEC_SET_STATE_DEACTIVATE; CEC_OP_HEC_SET_STATE_ACTIVATE].
(** HPD State operand *)
Definition op_hpd_state : list Z :=
  [CEC_OP_HPD_STATE_CP_EDID_DISABLE; CEC_OP_HPD_STATE_CP_EDID_ENABLE;
   CEC_OP_HPD_STATE_CP_EDID_DISABLE_ENABLE; CEC_OP_HPD_STATE_EDID_DISABLE;
   CEC_OP_HPD_STATE_EDID_ENABLE; CEC_OP_HPD_STATE_EDID_DISABLE_ENABLE].
(** HPD Error Code operand *)
Definition op_hpd_error : list Z :=
  [CEC_OP_HPD_ERROR_NONE; CEC_OP_HPD_ERROR_INITIATOR_NOT_CAPABLE;
   CEC_OP_HPD_ERROR_INITIATOR_WRONG_STATE; CEC_OP_HPD_ERROR_OTHER;
   CEC_OP_HPD_ERROR_NONE_NO_VIDEO].
