(* ===== verification/Cec.v ===== *)
(** The data model and the helpers of [linux/cec.h]: the CEC message structure
    with its addressing, status and reply helpers, and the logical-address
    structure with the predicates that classify a device. *)
From stdpp Require Import base numbers list.
From Stdlib Require Import ZArith Lia.
From S2P Require Import Prelude CecConsts.

(** * Constants *)

Abbreviation CEC_MAX_MSG_SIZE := 16%nat (only parsing).

Abbreviation CEC_TX_STATUS_OK := 0x01 (only parsing).
Abbreviation CEC_RX_STATUS_OK := 0x01 (only parsing).
Abbreviation CEC_RX_STATUS_FEATURE_ABORT := 0x04 (only parsing).

Abbreviation CEC_PHYS_ADDR_INVALID := 0xffff (only parsing).
Abbreviation CEC_MAX_LOG_ADDRS := 4%nat (only parsing).

Abbreviation CEC_LOG_ADDR_TV := 0 (only parsing).
Abbreviation CEC_LOG_ADDR_RECORD_1 := 1 (only parsing).
Abbreviation CEC_LOG_ADDR_RECORD_2 := 2 (only parsing).
Abbreviation CEC_LOG_ADDR_TUNER_1 := 3 (only parsing).
Abbreviation CEC_LOG_ADDR_PLAYBACK_1 := 4 (only parsing).
Abbreviation CEC_LOG_ADDR_AUDIOSYSTEM := 5 (only parsing).
Abbreviation CEC_LOG_ADDR_TUNER_2 := 6 (only parsing).
Abbreviation CEC_LOG_ADDR_TUNER_3 := 7 (only parsing).
Abbreviation CEC_LOG_ADDR_PLAYBACK_2 := 8 (only parsing).
Abbreviation CEC_LOG_ADDR_RECORD_3 := 9 (only parsing).
Abbreviation CEC_LOG_ADDR_TUNER_4 := 10 (only parsing).
Abbreviation CEC_LOG_ADDR_PLAYBACK_3 := 11 (only parsing).
Abbreviation CEC_LOG_ADDR_BACKUP_1 := 12 (only parsing).
Abbreviation CEC_LOG_ADDR_BACKUP_2 := 13 (only parsing).
Abbreviation CEC_LOG_ADDR_SPECIFIC := 14 (only parsing).
Abbreviation CEC_LOG_ADDR_UNREGISTERED := 15 (only parsing).

Abbreviation CEC_LOG_ADDRS_FL_CDC_ONLY := 0x04 (only parsing).

Definition CEC_LOG_ADDR_MASK_TV : Z := 1 << CEC_LOG_ADDR_TV.
Definition CEC_LOG_ADDR_MASK_RECORD : Z :=
  (1 << CEC_LOG_ADDR_RECORD_1) .| (1 << CEC_LOG_ADDR_RECORD_2) .|
  (1 << CEC_LOG_ADDR_RECORD_3).
Definition CEC_LOG_ADDR_MASK_TUNER : Z :=
  (1 << CEC_LOG_ADDR_TUNER_1) .| (1 << CEC_LOG_ADDR_TUNER_2) .|
  (1 << CEC_LOG_ADDR_TUNER_3) .| (1 << CEC_LOG_ADDR_TUNER_4).
Definition CEC_LOG_ADDR_MASK_PLAYBACK : Z :=
  (1 << CEC_LOG_ADDR_PLAYBACK_1) .| (1 << CEC_LOG_ADDR_PLAYBACK_2) .|
  (1 << CEC_LOG_ADDR_PLAYBACK_3).
Definition CEC_LOG_ADDR_MASK_AUDIOSYSTEM : Z := 1 << CEC_LOG_ADDR_AUDIOSYSTEM.
Definition CEC_LOG_ADDR_MASK_BACKUP : Z :=
  (1 << CEC_LOG_ADDR_BACKUP_1) .| (1 << CEC_LOG_ADDR_BACKUP_2).
Definition CEC_LOG_ADDR_MASK_SPECIFIC : Z := 1 << CEC_LOG_ADDR_SPECIFIC.
Definition CEC_LOG_ADDR_MASK_UNREGISTERED : Z := 1 << CEC_LOG_ADDR_UNREGISTERED.

(** * [struct cec_msg] *)

Record cec_msg := Cec_msg {
  cm_tx_ts : Z;
  cm_rx_ts : Z;
  cm_len : Z;
  cm_timeout : Z;
  cm_sequence : Z;
  cm_flags : Z;
  cm_msg : list Z;
  cm_reply : Z;
  cm_rx_status : Z;
  cm_tx_status : Z;
  cm_tx_arb_lost_cnt : Z;
  cm_tx_nack_cnt : Z;
  cm_tx_low_drive_cnt : Z;
  cm_tx_error_cnt : Z
}.

(** [upd m len timeout msg reply] is [m] with the four fields replaced that
    the functions of [cec.h] and [cec-funcs.h] assign. *)
Definition upd (m : cec_msg) (len timeout : Z) (msg : list Z) (reply : Z) : cec_msg :=
  Cec_msg (cm_tx_ts m) (cm_rx_ts m) len timeout (cm_sequence m) (cm_flags m)
    msg reply (cm_rx_status m) (cm_tx_status m) (cm_tx_arb_lost_cnt m)
    (cm_tx_nack_cnt m) (cm_tx_low_drive_cnt m) (cm_tx_error_cnt m).

(** ** Field accesses of C: [msg->msg[i]], [msg->len = n], ... *)

Definition get (i : nat) : R cec_msg Z := λ m, cm_msg m !! i.

Definition put (i : nat) (x : Z) : M cec_msg unit := λ m,
  if (i <? length (cm_msg m))%nat
  then Some (tt, upd m (cm_len m) (cm_timeout m) (<[i := u8 x]> (cm_msg m)) (cm_reply m))
  else None.

Definition set_len (n : Z) : M cec_msg unit :=
  modify (λ m, upd m (u32 n) (cm_timeout m) (cm_msg m) (cm_reply m)).

Definition set_reply (x : Z) : M cec_msg unit :=
  modify (λ m, upd m (cm_len m) (cm_timeout m) (cm_msg m) (u8 x)).

Definition set_timeout (x : Z) : M cec_msg unit :=
  modify (λ m, upd m (cm_len m) (u32 x) (cm_msg m) (cm_reply m)).

(** * Message helpers of [cec.h] *)

Definition cec_msg_initiator : R cec_msg Z :=
  b ← get 0; mret (u8 (b >> 4)).

Definition cec_msg_destination : R cec_msg Z :=
  b ← get 0; mret (u8 (b .& 0xf)).

Definition cec_msg_opcode : R cec_msg Z :=
  n ← asks cm_len; if 1 <? n then get 1 else mret (-1).

Definition cec_msg_is_broadcast : R cec_msg Z :=
  b ← get 0; mret (Z.b2z ((b .& 0xf) =? 0xf)).

Definition cec_msg_zero : cec_msg :=
  Cec_msg 0 0 0 0 0 0 (replicate CEC_MAX_MSG_SIZE 0) 0 0 0 0 0 0 0.

Definition cec_msg_init (initiator destination : Z) : M cec_msg unit :=
  modify (λ _, cec_msg_zero);;
  put 0 ((initiator << 4) .| destination);;
  set_len 1.

(** [msg] and [orig] are different objects, [orig] is read only. *)
Definition cec_msg_set_reply_to (orig : cec_msg) : M cec_msg unit :=
  d ← lift_opt (cec_msg_destination orig);
  i ← lift_opt (cec_msg_initiator orig);
  put 0 ((d << 4) .| i);;
  set_timeout 0;;
  set_reply 0.

(** [msg] and [orig] are the same pointer: the reads see the message itself. *)
Definition cec_msg_set_reply_to_self : M cec_msg unit :=
  m ← gets (λ m, m); cec_msg_set_reply_to m.

Definition cec_msg_status_is_ok (msg : cec_msg) : Z :=
  if truth (cm_tx_status msg) && negb (truth (cm_tx_status msg .& CEC_TX_STATUS_OK))
  then 0
  else if truth (cm_rx_status msg) && negb (truth (cm_rx_status msg .& CEC_RX_STATUS_OK))
  then 0
  else if negb (truth (cm_tx_status msg)) && negb (truth (cm_rx_status msg))
  then 0
  else Z.b2z (negb (truth (cm_rx_status msg .& CEC_RX_STATUS_FEATURE_ABORT))).

(** * Logical-address masks *)

Definition cec_has_tv (log_addr_mask : Z) : Z := log_addr_mask .& CEC_LOG_ADDR_MASK_TV.
Definition cec_has_record (log_addr_mask : Z) : Z := log_addr_mask .& CEC_LOG_ADDR_MASK_RECORD.
Definition cec_has_tuner (log_addr_mask : Z) : Z := log_addr_mask .& CEC_LOG_ADDR_MASK_TUNER.
Definition cec_has_playback (log_addr_mask : Z) : Z :=
  log_addr_mask .& CEC_LOG_ADDR_MASK_PLAYBACK.
Definition cec_has_audiosystem (log_addr_mask : Z) : Z :=
  log_addr_mask .& CEC_LOG_ADDR_MASK_AUDIOSYSTEM.
Definition cec_has_backup (log_addr_mask : Z) : Z := log_addr_mask .& CEC_LOG_ADDR_MASK_BACKUP.
Definition cec_has_specific (log_addr_mask : Z) : Z :=
  log_addr_mask .& CEC_LOG_ADDR_MASK_SPECIFIC.
Definition cec_is_unregistered (log_addr_mask : Z) : Z :=
  log_addr_mask .& CEC_LOG_ADDR_MASK_UNREGISTERED.
Definition cec_is_unconfigured (log_addr_mask : Z) : Z := Z.b2z (log_addr_mask =? 0).

(** * [struct cec_log_addrs] *)

Record cec_log_addrs := Cec_log_addrs {
  la_log_addr : list Z;
  la_log_addr_mask : Z;
  la_cec_version : Z;
  la_num_log_addrs : Z;
  la_vendor_id : Z;
  la_flags : Z;
  la_osd_name : list Z;
  la_primary_device_type : list Z;
  la_log_addr_type : list Z;
  la_all_device_types : list Z;
  la_features : list (list Z)
}.

Definition cec_is_2nd_tv : R cec_log_addrs Z :=
  n ← asks la_num_log_addrs;
  if negb (truth n) then mret 0 else
  a ← elem_at la_log_addr 0;
  if negb (CEC_LOG_ADDR_SPECIFIC <=? a) then mret 0 else
  t ← elem_at la_primary_device_type 0;
  mret (Z.b2z (t =? CEC_OP_PRIM_DEVTYPE_TV)).

Definition cec_is_processor : R cec_log_addrs Z :=
  n ← asks la_num_log_addrs;
  if negb (truth n) then mret 0 else
  a ← elem_at la_log_addr 0;
  if negb (CEC_LOG_ADDR_BACKUP_1 <=? a) then mret 0 else
  t ← elem_at la_primary_device_type 0;
  mret (Z.b2z (t =? CEC_OP_PRIM_DEVTYPE_PROCESSOR)).

Definition cec_is_switch : R cec_log_addrs Z :=
  n ← asks la_num_log_addrs;
  if negb (n =? 1) then mret 0 else
  a ← elem_at la_log_addr 0;
  if negb (a =? CEC_LOG_ADDR_UNREGISTERED) then mret 0 else
  t ← elem_at la_primary_device_type 0;
  if negb (t =? CEC_OP_PRIM_DEVTYPE_SWITCH) then mret 0 else
  f ← asks la_flags;
  mret (Z.b2z (negb (truth (f .& CEC_LOG_ADDRS_FL_CDC_ONLY)))).

Definition cec_is_cdc_only : R cec_log_addrs Z :=
  n ← asks la_num_log_addrs;
  if negb (n =? 1) then mret 0 else
  a ← elem_at la_log_addr 0;
  if negb (a =? CEC_LOG_ADDR_UNREGISTERED) then mret 0 else
  t ← elem_at la_primary_device_type 0;
  if negb (t =? CEC_OP_PRIM_DEVTYPE_SWITCH) then mret 0 else
  f ← asks la_flags;
  mret (Z.b2z (truth (f .& CEC_LOG_ADDRS_FL_CDC_ONLY))).
