(* ===== verification/CecFuncs.v ===== *)
(** The message constructors [cec_msg_*] and the operand parsers [cec_ops_*]
    of [linux/cec-funcs.h].

    A constructor is an update of the [struct cec_msg] its pointer points to; a
    parser reads the message and returns the values it stores through its output
    pointers (as a tuple, in the order of the parameters). Where an output is a
    structure or an array, the parser takes its previous contents and returns
    the contents after the stores. A [const __u8 **] output, which points into
    [msg->msg], is the offset it points to. *)
From stdpp Require Import base numbers list.
From Stdlib Require Import ZArith Lia.
From S2P Require Import Prelude CecConsts Cec.

(** * Library functions and objects of the parameters *)

(** [strlen] reads the buffer up to its first NUL. *)
Fixpoint strlen (buf : list Z) : option nat :=
  match buf with
  | [] => None
  | c :: buf' => if c =? 0 then Some O else S <$> strlen buf'
  end.

(** [memcpy(msg->msg + off, src, n)] *)
Definition memcpy_to (off : nat) (src : list Z) (n : nat) : M cec_msg unit := λ m,
  if (n <=? length src)%nat && (off + n <=? length (cm_msg m))%nat
  then Some (tt, upd m (cm_len m) (cm_timeout m)
         (take off (cm_msg m) ++ take n src ++ drop (off + n) (cm_msg m)) (cm_reply m))
  else None.

(** [memcpy(dst, msg->msg + off, n)], the contents of [dst] afterwards *)
Definition memcpy_from (dst : list Z) (off n : nat) : R cec_msg (list Z) := λ m,
  if (n <=? length dst)%nat && (off + n <=? length (cm_msg m))%nat
  then Some (take n (drop off (cm_msg m)) ++ drop n dst)
  else None.

(** [dst[i] = x] for a caller-supplied array *)
Definition store {S} (i : nat) (x : Z) (dst : list Z) : R S (list Z) := λ _,
  if (i <? length dst)%nat then Some (<[i := x]> dst) else None.

(** [msg->msg[i] |= x] *)
Definition or_put (i : nat) (x : Z) : M cec_msg unit :=
  b ← read (get i); put i (b .| x).

(** [msg->msg[msg->len++] = x] *)
Definition push (x : Z) : M cec_msg unit :=
  n ← gets cm_len; put (Z.to_nat n) x;; set_len (n + 1).

(** [(msg->msg[i] << 8) | msg->msg[i + 1]], stored in a [__u16] *)
Definition get_be16 (i : nat) : R cec_msg Z :=
  hi ← get i; lo ← get (S i); mret (u16 ((hi << 8) .| lo)).

(** [(msg->msg[i] << 16) | (msg->msg[i + 1] << 8) | msg->msg[i + 2]], stored in
    a [__u32] *)
Definition get_be24 (i : nat) : R cec_msg Z :=
  a ← get i; b ← get (S i); c ← get (S (S i));
  mret (u32 ((a << 16) .| (b << 8) .| c)).

(** [(msg->msg[i] >> 4) * 10 + (msg->msg[i] & 0xf)], stored in a [__u8] *)
Definition get_bcd (i : nat) : R cec_msg Z :=
  b ← get i; mret (u8 ((b >> 4) * 10 + (b .& 0xf))).

(** [((x / 10) << 4) | (x % 10)] *)
Definition bcd (x : Z) : Z := ((x / 10) << 4) .| (x mod 10).

(** ** Storage of unions

    A union is the bytes it occupies; its members are views of them at the
    offsets of the target ABI (armhf: little endian, [__u16] aligned to 2). *)

Definition ld8 (b : list Z) (o : nat) : Z := b !!! o.
Definition ld16 (b : list Z) (o : nat) : Z := (b !!! o) .| ((b !!! S o) << 8).
Definition st8 (o : nat) (x : Z) (b : list Z) : list Z := <[o := u8 x]> b.
Definition st16 (o : nat) (x : Z) (b : list Z) : list Z :=
  <[S o := u8 (x >> 8)]> (<[o := u8 (x .& 0xff)]> b).

(** [struct cec_op_digital_service_id]; [ds_u] is its union, 6 bytes. *)
Record cec_op_digital_service_id := Digital {
  ds_service_id_method : Z;
  ds_dig_bcast_system : Z;
  ds_u : list Z
}.

(** The members of the union: [struct cec_op_arib_data] and
    [cec_op_dvb_data], [cec_op_atsc_data], [cec_op_channel_data]. *)
Definition arib_transport_id (d : cec_op_digital_service_id) : Z := ld16 (ds_u d) 0.
Definition arib_service_id (d : cec_op_digital_service_id) : Z := ld16 (ds_u d) 2.
Definition arib_orig_network_id (d : cec_op_digital_service_id) : Z := ld16 (ds_u d) 4.
Definition atsc_transport_id (d : cec_op_digital_service_id) : Z := ld16 (ds_u d) 0.
Definition atsc_program_number (d : cec_op_digital_service_id) : Z := ld16 (ds_u d) 2.
Definition dvb_transport_id (d : cec_op_digital_service_id) : Z := ld16 (ds_u d) 0.
Definition dvb_service_id (d : cec_op_digital_service_id) : Z := ld16 (ds_u d) 2.
Definition dvb_orig_network_id (d : cec_op_digital_service_id) : Z := ld16 (ds_u d) 4.
Definition channel_number_fmt (u : list Z) : Z := ld8 u 0.
Definition channel_major (u : list Z) : Z := ld16 u 2.
Definition channel_minor (u : list Z) : Z := ld16 u 4.

(** [struct cec_op_record_src]; [rs_u] is its union, 8 bytes. *)
Record cec_op_record_src := Record_src {
  rs_type : Z;
  rs_u : list Z
}.

Definition rs_digital (r : cec_op_record_src) : cec_op_digital_service_id :=
  Digital (ld8 (rs_u r) 0) (ld8 (rs_u r) 1) (drop 2 (rs_u r)).
Definition rs_set_digital (d : cec_op_digital_service_id) (r : cec_op_record_src) :
  cec_op_record_src :=
  Record_src (rs_type r) (ds_service_id_method d :: ds_dig_bcast_system d :: ds_u d).

(** The views [analog] (here and in [cec_op_tuner_device_info]), [ext_plug]
    and [ext_phys_addr]. *)
Definition analog_ana_bcast_type (u : list Z) : Z := ld8 u 0.
Definition analog_ana_freq (u : list Z) : Z := ld16 u 2.
Definition analog_bcast_system (u : list Z) : Z := ld8 u 4.
Definition ext_plug_plug (u : list Z) : Z := ld8 u 0.
Definition ext_phys_addr_phys_addr (u : list Z) : Z := ld16 u 0.

(** * One Touch Play Feature *)

Definition cec_msg_active_source (phys_addr : Z) : M cec_msg unit :=
  set_len 4;;
  or_put 0 0xf;; (* broadcast *)
  put 1 CEC_MSG_ACTIVE_SOURCE;;
  put 2 (phys_addr >> 8);;
  put 3 (phys_addr .& 0xff).

Definition cec_ops_active_source : R cec_msg Z := get_be16 2.

Definition cec_msg_image_view_on : M cec_msg unit :=
  set_len 2;;
  put 1 CEC_MSG_IMAGE_VIEW_ON.

Definition cec_msg_text_view_on : M cec_msg unit :=
  set_len 2;;
  put 1 CEC_MSG_TEXT_VIEW_ON.

(** * Routing Control Feature *)

Definition cec_msg_inactive_source (phys_addr : Z) : M cec_msg unit :=
  set_len 4;;
  put 1 CEC_MSG_INACTIVE_SOURCE;;
  put 2 (phys_addr >> 8);;
  put 3 (phys_addr .& 0xff).

Definition cec_ops_inactive_source : R cec_msg Z := get_be16 2.

Definition cec_msg_request_active_source (reply : Z) : M cec_msg unit :=
  set_len 2;;
  or_put 0 0xf;; (* broadcast *)
  put 1 CEC_MSG_REQUEST_ACTIVE_SOURCE;;
  set_reply (c_cond reply CEC_MSG_ACTIVE_SOURCE 0).

Definition cec_msg_routing_information (phys_addr : Z) : M cec_msg unit :=
  set_len 4;;
  or_put 0 0xf;; (* broadcast *)
  put 1 CEC_MSG_ROUTING_INFORMATION;;
  put 2 (phys_addr >> 8);;
  put 3 (phys_addr .& 0xff).

Definition cec_ops_routing_information : R cec_msg Z := get_be16 2.

Definition cec_msg_routing_change (reply orig_phys_addr new_phys_addr : Z) : M cec_msg unit :=
  set_len 6;;
  or_put 0 0xf;; (* broadcast *)
  put 1 CEC_MSG_ROUTING_CHANGE;;
  put 2 (orig_phys_addr >> 8);;
  put 3 (orig_phys_addr .& 0xff);;
  put 4 (new_phys_addr >> 8);;
  put 5 (new_phys_addr .& 0xff);;
  set_reply (c_cond reply CEC_MSG_ROUTING_INFORMATION 0).

Definition cec_ops_routing_change : R cec_msg (Z * Z) :=
  orig_phys_addr ← get_be16 2;
  new_phys_addr ← get_be16 4;
  mret (orig_phys_addr, new_phys_addr).

Definition cec_msg_set_stream_path (phys_addr : Z) : M cec_msg unit :=
  set_len 4;;
  or_put 0 0xf;; (* broadcast *)
  put 1 CEC_MSG_SET_STREAM_PATH;;
  put 2 (phys_addr >> 8);;
  put 3 (phys_addr .& 0xff).

Definition cec_ops_set_stream_path : R cec_msg Z := get_be16 2.

(** * Standby Feature *)

Definition cec_msg_standby : M cec_msg unit :=
  set_len 2;;
  put 1 CEC_MSG_STANDBY.

(** * One Touch Record Feature *)

Definition cec_msg_record_off (reply : Z) : M cec_msg unit :=
  set_len 2;;
  put 1 CEC_MSG_RECORD_OFF;;
  set_reply (c_cond reply CEC_MSG_RECORD_STATUS 0).

(** The broadcast systems whose service is identified by ATSC data. *)
Definition is_atsc (dig_bcast_system : Z) : bool :=
  (dig_bcast_system =? CEC_OP_DIG_SERVICE_BCAST_SYSTEM_ATSC_GEN)
  || (dig_bcast_system =? CEC_OP_DIG_SERVICE_BCAST_SYSTEM_ATSC_CABLE)
  || (dig_bcast_system =? CEC_OP_DIG_SERVICE_BCAST_SYSTEM_ATSC_SAT)
  || (dig_bcast_system =? CEC_OP_DIG_SERVICE_BCAST_SYSTEM_ATSC_T).

(** [msg] points to [base] bytes into [msg->msg]. *)
Definition cec_set_digital_service_id (base : nat) (digital : cec_op_digital_service_id) :
  M cec_msg unit :=
  put base ((ds_service_id_method digital << 7) .| ds_dig_bcast_system digital);;
  if ds_service_id_method digital =? CEC_OP_SERVICE_ID_METHOD_BY_CHANNEL then
    put (base + 1) ((channel_number_fmt (ds_u digital) << 2) .|
                    (channel_major (ds_u digital) >> 8));;
    put (base + 2) (channel_major (ds_u digital) .& 0xff);;
    put (base + 3) (channel_minor (ds_u digital) >> 8);;
    put (base + 4) (channel_minor (ds_u digital) .& 0xff);;
    put (base + 5) 0;;
    put (base + 6) 0
  else if is_atsc (ds_dig_bcast_system digital) then
    put (base + 1) (atsc_transport_id digital >> 8);;
    put (base + 2) (atsc_transport_id digital .& 0xff);;
    put (base + 3) (atsc_program_number digital >> 8);;
    put (base + 4) (atsc_program_number digital .& 0xff);;
    put (base + 5) 0;;
    put (base + 6) 0
  else
    put (base + 1) (dvb_transport_id digital >> 8);;
    put (base + 2) (dvb_transport_id digital .& 0xff);;
    put (base + 3) (dvb_service_id digital >> 8);;
    put (base + 4) (dvb_service_id digital .& 0xff);;
    put (base + 5) (dvb_orig_network_id digital >> 8);;
    put (base + 6) (dvb_orig_network_id digital .& 0xff).

Definition cec_get_digital_service_id (base : nat) (digital : cec_op_digital_service_id) :
  R cec_msg cec_op_digital_service_id :=
  b0 ← get base;
  let service_id_method := u8 (b0 >> 7) in
  let dig_bcast_system := u8 (b0 .& 0x7f) in
  if service_id_method =? CEC_OP_SERVICE_ID_METHOD_BY_CHANNEL then
    b1 ← get (base + 1);
    b2 ← get (base + 2);
    b3 ← get (base + 3);
    b4 ← get (base + 4);
    mret (Digital service_id_method dig_bcast_system
      (st16 4 ((b3 << 8) .| b4)
        (st16 2 (((b1 .& 3) << 6) .| b2)
          (st8 0 (b1 >> 2) (ds_u digital)))))
  else
    transport_id ← get_be16 (base + 1);
    service_id ← get_be16 (base + 3);
    orig_network_id ← get_be16 (base + 5);
    mret (Digital service_id_method dig_bcast_system
      (st16 4 orig_network_id (st16 2 service_id (st16 0 transport_id (ds_u digital))))).

Definition cec_msg_record_on_own : M cec_msg unit :=
  set_len 3;;
  put 1 CEC_MSG_RECORD_ON;;
  put 2 CEC_OP_RECORD_SRC_OWN.

Definition cec_msg_record_on_digital (digital : cec_op_digital_service_id) : M cec_msg unit :=
  set_len 10;;
  put 1 CEC_MSG_RECORD_ON;;
  put 2 CEC_OP_RECORD_SRC_DIGITAL;;
  cec_set_digital_service_id 3 digital.

Definition cec_msg_record_on_analog (ana_bcast_type ana_freq bcast_system : Z) :
  M cec_msg unit :=
  set_len 7;;
  put 1 CEC_MSG_RECORD_ON;;
  put 2 CEC_OP_RECORD_SRC_ANALOG;;
  put 3 ana_bcast_type;;
  put 4 (ana_freq >> 8);;
  put 5 (ana_freq .& 0xff);;
  put 6 bcast_system.

Definition cec_msg_record_on_plug (plug : Z) : M cec_msg unit :=
  set_len 4;;
  put 1 CEC_MSG_RECORD_ON;;
  put 2 CEC_OP_RECORD_SRC_EXT_PLUG;;
  put 3 plug.

Definition cec_msg_record_on_phys_addr (phys_addr : Z) : M cec_msg unit :=
  set_len 5;;
  put 1 CEC_MSG_RECORD_ON;;
  put 2 CEC_OP_RECORD_SRC_EXT_PHYS_ADDR;;
  put 3 (phys_addr >> 8);;
  put 4 (phys_addr .& 0xff).

Definition cec_msg_record_on (reply : Z) (rec_src : cec_op_record_src) : M cec_msg unit :=
  (if rs_type rec_src =? CEC_OP_RECORD_SRC_OWN then cec_msg_record_on_own
   else if rs_type rec_src =? CEC_OP_RECORD_SRC_DIGITAL then
     cec_msg_record_on_digital (rs_digital rec_src)
   else if rs_type rec_src =? CEC_OP_RECORD_SRC_ANALOG then
     cec_msg_record_on_analog
       (analog_ana_bcast_type (rs_u rec_src))
       (analog_ana_freq (rs_u rec_src))
       (analog_bcast_system (rs_u rec_src))
   else if rs_type rec_src =? CEC_OP_RECORD_SRC_EXT_PLUG then
     cec_msg_record_on_plug (ext_plug_plug (rs_u rec_src))
   else if rs_type rec_src =? CEC_OP_RECORD_SRC_EXT_PHYS_ADDR then
     cec_msg_record_on_phys_addr (ext_phys_addr_phys_addr (rs_u rec_src))
   else mret tt);;
  set_reply (c_cond reply CEC_MSG_RECORD_STATUS 0).

Definition cec_ops_record_on (rec_src : cec_op_record_src) : R cec_msg cec_op_record_src :=
  type ← get 2;
  if type =? CEC_OP_RECORD_SRC_OWN then mret (Record_src type (rs_u rec_src))
  else if type =? CEC_OP_RECORD_SRC_DIGITAL then
    d ← cec_get_digital_service_id 3 (rs_digital rec_src);
    mret (rs_set_digital d (Record_src type (rs_u rec_src)))
  else if type =? CEC_OP_RECORD_SRC_ANALOG then
    ana_bcast_type ← get 3;
    ana_freq ← get_be16 4;
    bcast_system ← get 6;
    mret (Record_src type
      (st8 4 bcast_system (st16 2 ana_freq (st8 0 ana_bcast_type (rs_u rec_src)))))
  else if type =? CEC_OP_RECORD_SRC_EXT_PLUG then
    plug ← get 3;
    mret (Record_src type (st8 0 plug (rs_u rec_src)))
  else if type =? CEC_OP_RECORD_SRC_EXT_PHYS_ADDR then
    phys_addr ← get_be16 3;
    mret (Record_src type (st16 0 phys_addr (rs_u rec_src)))
  else mret (Record_src type (rs_u rec_src)).

Definition cec_msg_record_status (rec_status : Z) : M cec_msg unit :=
  set_len 3;;
  put 1 CEC_MSG_RECORD_STATUS;;
  put 2 rec_status.

Definition cec_ops_record_status : R cec_msg Z := get 2.

Definition cec_msg_record_tv_screen (reply : Z) : M cec_msg unit :=
  set_len 2;;
  put 1 CEC_MSG_RECORD_TV_SCREEN;;
  set_reply (c_cond reply CEC_MSG_RECORD_ON 0).

(** * Timer Programming Feature *)

Definition cec_msg_timer_status
    (timer_overlap_warning media_info prog_info prog_error duration_hr duration_min : Z) :
  M cec_msg unit :=
  set_len 3;;
  put 1 CEC_MSG_TIMER_STATUS;;
  put 2 ((timer_overlap_warning << 7) .|
         (media_info << 5) .|
         c_cond prog_info 0x10 0 .|
         c_cond prog_info prog_info prog_error);;
  when ((prog_info =? CEC_OP_PROG_INFO_NOT_ENOUGH_SPACE)
        || (prog_info =? CEC_OP_PROG_INFO_MIGHT_NOT_BE_ENOUGH_SPACE)
        || (prog_error =? CEC_OP_PROG_ERROR_DUPLICATE))
   (n ← gets cm_len;
    set_len (n + 2);;
    put 3 (bcd duration_hr);;
    put 4 (bcd duration_min)).

Definition cec_ops_timer_status : R cec_msg (Z * Z * Z * Z * Z * Z) :=
  b ← get 2;
  let timer_overlap_warning := u8 (b >> 7) in
  let media_info := u8 ((b >> 5) .& 3) in
  let prog_info := if truth (b .& 0x10) then u8 (b .& 0xf) else 0 in
  let prog_error := if truth (b .& 0x10) then 0 else u8 (b .& 0xf) in
  if (prog_info =? CEC_OP_PROG_INFO_NOT_ENOUGH_SPACE)
     || (prog_info =? CEC_OP_PROG_INFO_MIGHT_NOT_BE_ENOUGH_SPACE)
     || (prog_error =? CEC_OP_PROG_ERROR_DUPLICATE)
  then
    duration_hr ← get_bcd 3;
    duration_min ← get_bcd 4;
    mret (timer_overlap_warning, media_info, prog_info, prog_error,
          duration_hr, duration_min)
  else mret (timer_overlap_warning, media_info, prog_info, prog_error, 0, 0).

Definition cec_msg_timer_cleared_status (timer_cleared_status : Z) : M cec_msg unit :=
  set_len 3;;
  put 1 CEC_MSG_TIMER_CLEARED_STATUS;;
  put 2 timer_cleared_status.

Definition cec_ops_timer_cleared_status : R cec_msg Z := get 2.

(** When a timer starts, how long it runs and on which days: the operands in
    bytes 2 to 8 of all six timer messages. *)
Record timer := Timer {
  t_day : Z;
  t_month : Z;
  t_start_hr : Z;
  t_start_min : Z;
  t_duration_hr : Z;
  t_duration_min : Z;
  t_recording_seq : Z
}.

Definition put_timer (t : timer) : M cec_msg unit :=
  put 2 (t_day t);;
  put 3 (t_month t);;
  (* Hours and minutes are in BCD format *)
  put 4 (bcd (t_start_hr t));;
  put 5 (bcd (t_start_min t));;
  put 6 (bcd (t_duration_hr t));;
  put 7 (bcd (t_duration_min t));;
  put 8 (t_recording_seq t).

Definition get_timer : R cec_msg timer :=
  day ← get 2;
  month ← get 3;
  (* Hours and minutes are in BCD format *)
  start_hr ← get_bcd 4;
  start_min ← get_bcd 5;
  duration_hr ← get_bcd 6;
  duration_min ← get_bcd 7;
  recording_seq ← get 8;
  mret (Timer day month start_hr start_min duration_hr duration_min recording_seq).

Definition cec_msg_clear_analogue_timer
    (reply : Z) (t : timer) (ana_bcast_type ana_freq bcast_system : Z) : M cec_msg unit :=
  set_len 13;;
  put 1 CEC_MSG_CLEAR_ANALOGUE_TIMER;;
  put_timer t;;
  put 9 ana_bcast_type;;
  put 10 (ana_freq >> 8);;
  put 11 (ana_freq .& 0xff);;
  put 12 bcast_system;;
  set_reply (c_cond reply CEC_MSG_TIMER_CLEARED_STATUS 0).

Definition cec_ops_clear_analogue_timer : R cec_msg (timer * Z * Z * Z) :=
  t ← get_timer;
  ana_bcast_type ← get 9;
  ana_freq ← get_be16 10;
  bcast_system ← get 12;
  mret (t, ana_bcast_type, ana_freq, bcast_system).

Definition cec_msg_clear_digital_timer
    (reply : Z) (t : timer) (digital : cec_op_digital_service_id) : M cec_msg unit :=
  set_len 16;;
  set_reply (c_cond reply CEC_MSG_TIMER_CLEARED_STATUS 0);;
  put 1 CEC_MSG_CLEAR_DIGITAL_TIMER;;
  put_timer t;;
  cec_set_digital_service_id 9 digital.

Definition cec_ops_clear_digital_timer (digital : cec_op_digital_service_id) :
  R cec_msg (timer * cec_op_digital_service_id) :=
  t ← get_timer;
  d ← cec_get_digital_service_id 9 digital;
  mret (t, d).

Definition cec_msg_clear_ext_timer
    (reply : Z) (t : timer) (ext_src_spec plug phys_addr : Z) : M cec_msg unit :=
  set_len 13;;
  put 1 CEC_MSG_CLEAR_EXT_TIMER;;
  put_timer t;;
  put 9 ext_src_spec;;
  put 10 plug;;
  put 11 (phys_addr >> 8);;
  put 12 (phys_addr .& 0xff);;
  set_reply (c_cond reply CEC_MSG_TIMER_CLEARED_STATUS 0).

Definition cec_ops_clear_ext_timer : R cec_msg (timer * Z * Z * Z) :=
  t ← get_timer;
  ext_src_spec ← get 9;
  plug ← get 10;
  phys_addr ← get_be16 11;
  mret (t, ext_src_spec, plug, phys_addr).

Definition cec_msg_set_analogue_timer
    (reply : Z) (t : timer) (ana_bcast_type ana_freq bcast_system : Z) : M cec_msg unit :=
  set_len 13;;
  put 1 CEC_MSG_SET_ANALOGUE_TIMER;;
  put_timer t;;
  put 9 ana_bcast_type;;
  put 10 (ana_freq >> 8);;
  put 11 (ana_freq .& 0xff);;
  put 12 bcast_system;;
  set_reply (c_cond reply CEC_MSG_TIMER_STATUS 0).

Definition cec_ops_set_analogue_timer : R cec_msg (timer * Z * Z * Z) :=
  t ← get_timer;
  ana_bcast_type ← get 9;
  ana_freq ← get_be16 10;
  bcast_system ← get 12;
  mret (t, ana_bcast_type, ana_freq, bcast_system).

Definition cec_msg_set_digital_timer
    (reply : Z) (t : timer) (digital : cec_op_digital_service_id) : M cec_msg unit :=
  set_len 16;;
  set_reply (c_cond reply CEC_MSG_TIMER_STATUS 0);;
  put 1 CEC_MSG_SET_DIGITAL_TIMER;;
  put_timer t;;
  cec_set_digital_service_id 9 digital.

Definition cec_ops_set_digital_timer (digital : cec_op_digital_service_id) :
  R cec_msg (timer * cec_op_digital_service_id) :=
  t ← get_timer;
  d ← cec_get_digital_service_id 9 digital;
  mret (t, d).

Definition cec_msg_set_ext_timer
    (reply : Z) (t : timer) (ext_src_spec plug phys_addr : Z) : M cec_msg unit :=
  set_len 13;;
  put 1 CEC_MSG_SET_EXT_TIMER;;
  put_timer t;;
  put 9 ext_src_spec;;
  put 10 plug;;
  put 11 (phys_addr >> 8);;
  put 12 (phys_addr .& 0xff);;
  set_reply (c_cond reply CEC_MSG_TIMER_STATUS 0).

Definition cec_ops_set_ext_timer : R cec_msg (timer * Z * Z * Z) :=
  t ← get_timer;
  ext_src_spec ← get 9;
  plug ← get 10;
  phys_addr ← get_be16 11;
  mret (t, ext_src_spec, plug, phys_addr).

(** [if (n > max) n = max;] *)
Definition clamp (max n : Z) : Z := if max <? n then max else n.

Definition cec_msg_set_timer_program_title (prog_title : list Z) : M cec_msg unit :=
  n ← lift_opt (strlen prog_title);
  let len := clamp 14 (Z.of_nat n) in
  set_len (2 + len);;
  put 1 CEC_MSG_SET_TIMER_PROGRAM_TITLE;;
  memcpy_to 2 prog_title (Z.to_nat len).

Definition cec_ops_set_timer_program_title (prog_title : list Z) : R cec_msg (list Z) :=
  n ← asks cm_len;
  let len := clamp 14 (if 2 <? n then n - 2 else 0) in
  prog_title ← memcpy_from prog_title 2 (Z.to_nat len);
  store (Z.to_nat len) 0 prog_title.

(** * System Information Feature *)

Definition cec_msg_cec_version (cec_version : Z) : M cec_msg unit :=
  set_len 3;;
  put 1 CEC_MSG_CEC_VERSION;;
  put 2 cec_version.

Definition cec_ops_cec_version : R cec_msg Z := get 2.

Definition cec_msg_get_cec_version (reply : Z) : M cec_msg unit :=
  set_len 2;;
  put 1 CEC_MSG_GET_CEC_VERSION;;
  set_reply (c_cond reply CEC_MSG_CEC_VERSION 0).

Definition cec_msg_report_physical_addr (phys_addr prim_devtype : Z) : M cec_msg unit :=
  set_len 5;;
  or_put 0 0xf;; (* broadcast *)
  put 1 CEC_MSG_REPORT_PHYSICAL_ADDR;;
  put 2 (phys_addr >> 8);;
  put 3 (phys_addr .& 0xff);;
  put 4 prim_devtype.

Definition cec_ops_report_physical_addr : R cec_msg (Z * Z) :=
  phys_addr ← get_be16 2;
  prim_devtype ← get 4;
  mret (phys_addr, prim_devtype).

Definition cec_msg_give_physical_addr (reply : Z) : M cec_msg unit :=
  set_len 2;;
  put 1 CEC_MSG_GIVE_PHYSICAL_ADDR;;
  set_reply (c_cond reply CEC_MSG_REPORT_PHYSICAL_ADDR 0).

Definition cec_msg_set_menu_language (language : list Z) : M cec_msg unit :=
  set_len 5;;
  or_put 0 0xf;; (* broadcast *)
  put 1 CEC_MSG_SET_MENU_LANGUAGE;;
  memcpy_to 2 language 3.

Definition cec_ops_set_menu_language (language : list Z) : R cec_msg (list Z) :=
  language ← memcpy_from language 2 3;
  store 3 0 language.

Definition cec_msg_get_menu_language (reply : Z) : M cec_msg unit :=
  set_len 2;;
  put 1 CEC_MSG_GET_MENU_LANGUAGE;;
  set_reply (c_cond reply CEC_MSG_SET_MENU_LANGUAGE 0).

Definition cec_msg_report_features
    (cec_version all_device_types rc_profile dev_features : Z) : M cec_msg unit :=
  set_len 6;;
  or_put 0 0xf;; (* broadcast *)
  put 1 CEC_MSG_REPORT_FEATURES;;
  put 2 cec_version;;
  put 3 all_device_types;;
  put 4 rc_profile;;
  put 5 dev_features.

(** [while (p < &msg->msg[lim] && ( *p & CEC_OP_FEAT_EXT)) p++;] with at most
    [fuel] iterations; [lim - p] of them always suffice. *)
Fixpoint skip_ext (fuel p lim : nat) : R cec_msg nat :=
  match fuel with
  | O => mret p
  | S fuel' =>
      if (p <? lim)%nat then
        b ← get p;
        if truth (b .& CEC_OP_FEAT_EXT) then skip_ext fuel' (S p) lim else mret p
      else mret p
  end.

Definition cec_ops_report_features : R cec_msg (Z * Z * option nat * option nat) :=
  let p := 4%nat in
  cec_version ← get 2;
  all_device_types ← get 3;
  p ← skip_ext (14 - p) p 14;
  b ← get p;
  pd ← (if negb (truth (b .& CEC_OP_FEAT_EXT)) then
          p' ← skip_ext (15 - p) p 15;
          mret (p', Some (S p))
        else mret (p, None));
  let '(p, dev_features) := pd : nat * option nat in
  b ← get p;
  if truth (b .& CEC_OP_FEAT_EXT)
  then mret (cec_version, all_device_types, None, None)
  else mret (cec_version, all_device_types, Some 4%nat, dev_features).

Definition cec_msg_give_features (reply : Z) : M cec_msg unit :=
  set_len 2;;
  put 1 CEC_MSG_GIVE_FEATURES;;
  set_reply (c_cond reply CEC_MSG_REPORT_FEATURES 0).

(** * Deck Control Feature *)

Definition cec_msg_deck_control (deck_control_mode : Z) : M cec_msg unit :=
  set_len 3;;
  put 1 CEC_MSG_DECK_CONTROL;;
  put 2 deck_control_mode.

Definition cec_ops_deck_control : R cec_msg Z := get 2.

Definition cec_msg_deck_status (deck_info : Z) : M cec_msg unit :=
  set_len 3;;
  put 1 CEC_MSG_DECK_STATUS;;
  put 2 deck_info.

Definition cec_ops_deck_status : R cec_msg Z := get 2.

Definition cec_msg_give_deck_status (reply status_req : Z) : M cec_msg unit :=
  set_len 3;;
  put 1 CEC_MSG_GIVE_DECK_STATUS;;
  put 2 status_req;;
  set_reply (c_cond reply CEC_MSG_DECK_STATUS 0).

Definition cec_ops_give_deck_status : R cec_msg Z := get 2.

Definition cec_msg_play (play_mode : Z) : M cec_msg unit :=
  set_len 3;;
  put 1 CEC_MSG_PLAY;;
  put 2 play_mode.

Definition cec_ops_play : R cec_msg Z := get 2.

(** * Tuner Control Feature *)

(** [struct cec_op_tuner_device_info]; [ti_u] is its union, 8 bytes. *)
Record cec_op_tuner_device_info := Tuner_info {
  ti_rec_flag : Z;
  ti_tuner_display_info : Z;
  ti_is_analog : Z;
  ti_u : list Z
}.

Definition ti_digital (t : cec_op_tuner_device_info) : cec_op_digital_service_id :=
  Digital (ld8 (ti_u t) 0) (ld8 (ti_u t) 1) (drop 2 (ti_u t)).

Definition cec_msg_tuner_device_status_analog
    (rec_flag tuner_display_info ana_bcast_type ana_freq bcast_system : Z) : M cec_msg unit :=
  set_len 7;;
  put 1 CEC_MSG_TUNER_DEVICE_STATUS;;
  put 2 ((rec_flag << 7) .| tuner_display_info);;
  put 3 ana_bcast_type;;
  put 4 (ana_freq >> 8);;
  put 5 (ana_freq .& 0xff);;
  put 6 bcast_system.

Definition cec_msg_tuner_device_status_digital
    (rec_flag tuner_display_info : Z) (digital : cec_op_digital_service_id) :
  M cec_msg unit :=
  set_len 10;;
  put 1 CEC_MSG_TUNER_DEVICE_STATUS;;
  put 2 ((rec_flag << 7) .| tuner_display_info);;
  cec_set_digital_service_id 3 digital.

Definition cec_msg_tuner_device_status (tuner_dev_info : cec_op_tuner_device_info) :
  M cec_msg unit :=
  if truth (ti_is_analog tuner_dev_info) then
    cec_msg_tuner_device_status_analog
      (ti_rec_flag tuner_dev_info)
      (ti_tuner_display_info tuner_dev_info)
      (analog_ana_bcast_type (ti_u tuner_dev_info))
      (analog_ana_freq (ti_u tuner_dev_info))
      (analog_bcast_system (ti_u tuner_dev_info))
  else
    cec_msg_tuner_device_status_digital
      (ti_rec_flag tuner_dev_info)
      (ti_tuner_display_info tuner_dev_info)
      (ti_digital tuner_dev_info).

Definition cec_ops_tuner_device_status (tuner_dev_info : cec_op_tuner_device_info) :
  R cec_msg cec_op_tuner_device_info :=
  n ← asks cm_len;
  let is_analog := Z.b2z (n <? 10) in
  b ← get 2;
  let rec_flag := u8 (b >> 7) in
  let tuner_display_info := u8 (b .& 0x7f) in
  if truth is_analog then
    ana_bcast_type ← get 3;
    ana_freq ← get_be16 4;
    bcast_system ← get 6;
    mret (Tuner_info rec_flag tuner_display_info is_analog
      (st8 4 bcast_system (st16 2 ana_freq (st8 0 ana_bcast_type (ti_u tuner_dev_info)))))
  else
    d ← cec_get_digital_service_id 3 (ti_digital tuner_dev_info);
    mret (Tuner_info rec_flag tuner_display_info is_analog
      (ds_service_id_method d :: ds_dig_bcast_system d :: ds_u d)).

Definition cec_msg_give_tuner_device_status (reply status_req : Z) : M cec_msg unit :=
  set_len 3;;
  put 1 CEC_MSG_GIVE_TUNER_DEVICE_STATUS;;
  put 2 status_req;;
  set_reply (c_cond reply CEC_MSG_TUNER_DEVICE_STATUS 0).

Definition cec_ops_give_tuner_device_status : R cec_msg Z := get 2.

Definition cec_msg_select_analogue_service (ana_bcast_type ana_freq bcast_system : Z) :
  M cec_msg unit :=
  set_len 6;;
  put 1 CEC_MSG_SELECT_ANALOGUE_SERVICE;;
  put 2 ana_bcast_type;;
  put 3 (ana_freq >> 8);;
  put 4 (ana_freq .& 0xff);;
  put 5 bcast_system.

Definition cec_ops_select_analogue_service : R cec_msg (Z * Z * Z) :=
  ana_bcast_type ← get 2;
  ana_freq ← get_be16 3;
  bcast_system ← get 5;
  mret (ana_bcast_type, ana_freq, bcast_system).

Definition cec_msg_select_digital_service (digital : cec_op_digital_service_id) :
  M cec_msg unit :=
  set_len 9;;
  put 1 CEC_MSG_SELECT_DIGITAL_SERVICE;;
  cec_set_digital_service_id 2 digital.

Definition cec_ops_select_digital_service (digital : cec_op_digital_service_id) :
  R cec_msg cec_op_digital_service_id :=
  cec_get_digital_service_id 2 digital.

Definition cec_msg_tuner_step_decrement : M cec_msg unit :=
  set_len 2;;
  put 1 CEC_MSG_TUNER_STEP_DECREMENT.

Definition cec_msg_tuner_step_increment : M cec_msg unit :=
  set_len 2;;
  put 1 CEC_MSG_TUNER_STEP_INCREMENT.

(** * Vendor Specific Commands Feature *)

Definition cec_msg_device_vendor_id (vendor_id : Z) : M cec_msg unit :=
  set_len 5;;
  or_put 0 0xf;; (* broadcast *)
  put 1 CEC_MSG_DEVICE_VENDOR_ID;;
  put 2 (vendor_id >> 16);;
  put 3 ((vendor_id >> 8) .& 0xff);;
  put 4 (vendor_id .& 0xff).

Definition cec_ops_device_vendor_id : R cec_msg Z := get_be24 2.

Definition cec_msg_give_device_vendor_id (reply : Z) : M cec_msg unit :=
  set_len 2;;
  put 1 CEC_MSG_GIVE_DEVICE_VENDOR_ID;;
  set_reply (c_cond reply CEC_MSG_DEVICE_VENDOR_ID 0).

Definition cec_msg_vendor_command (size : Z) (vendor_cmd : list Z) : M cec_msg unit :=
  let size := clamp 14 size in
  set_len (2 + size);;
  put 1 CEC_MSG_VENDOR_COMMAND;;
  memcpy_to 2 vendor_cmd (Z.to_nat size).

(** [size], and the offset [vendor_cmd] points to *)
Definition cec_ops_vendor_command : R cec_msg (Z * nat) :=
  n ← asks cm_len;
  let size := u8 (u32 (n - 2)) in
  let size := clamp 14 size in
  mret (size, 2%nat).

Definition cec_msg_vendor_command_with_id (vendor_id size : Z) (vendor_cmd : list Z) :
  M cec_msg unit :=
  let size := clamp 11 size in
  set_len (5 + size);;
  put 1 CEC_MSG_VENDOR_COMMAND_WITH_ID;;
  put 2 (vendor_id >> 16);;
  put 3 ((vendor_id >> 8) .& 0xff);;
  put 4 (vendor_id .& 0xff);;
  memcpy_to 5 vendor_cmd (Z.to_nat size).

Definition cec_ops_vendor_command_with_id : R cec_msg (Z * Z * nat) :=
  n ← asks cm_len;
  let size := u8 (u32 (n - 5)) in
  let size := clamp 11 size in
  vendor_id ← get_be24 2;
  mret (vendor_id, size, 5%nat).

Definition cec_msg_vendor_remote_button_down (size : Z) (rc_code : list Z) : M cec_msg unit :=
  let size := clamp 14 size in
  set_len (2 + size);;
  put 1 CEC_MSG_VENDOR_REMOTE_BUTTON_DOWN;;
  memcpy_to 2 rc_code (Z.to_nat size).

Definition cec_ops_vendor_remote_button_down : R cec_msg (Z * nat) :=
  n ← asks cm_len;
  let size := u8 (u32 (n - 2)) in
  let size := clamp 14 size in
  mret (size, 2%nat).

Definition cec_msg_vendor_remote_button_up : M cec_msg unit :=
  set_len 2;;
  put 1 CEC_MSG_VENDOR_REMOTE_BUTTON_UP.

(** * OSD Display Feature *)

Definition cec_msg_set_osd_string (disp_ctl : Z) (osd : list Z) : M cec_msg unit :=
  n ← lift_opt (strlen osd);
  let len := clamp 13 (Z.of_nat n) in
  set_len (3 + len);;
  put 1 CEC_MSG_SET_OSD_STRING;;
  put 2 disp_ctl;;
  memcpy_to 3 osd (Z.to_nat len).

Definition cec_ops_set_osd_string (osd : list Z) : R cec_msg (Z * list Z) :=
  n ← asks cm_len;
  let len := if 3 <? n then n - 3 else 0 in
  disp_ctl ← get 2;
  let len := clamp 13 len in
  osd ← memcpy_from osd 3 (Z.to_nat len);
  osd ← store (Z.to_nat len) 0 osd;
  mret (disp_ctl, osd).

(** * Device OSD Transfer Feature *)

Definition cec_msg_set_osd_name (name : list Z) : M cec_msg unit :=
  n ← lift_opt (strlen name);
  let len := clamp 14 (Z.of_nat n) in
  set_len (2 + len);;
  put 1 CEC_MSG_SET_OSD_NAME;;
  memcpy_to 2 name (Z.to_nat len).

Definition cec_ops_set_osd_name (name : list Z) : R cec_msg (list Z) :=
  n ← asks cm_len;
  let len := clamp 14 (if 2 <? n then n - 2 else 0) in
  name ← memcpy_from name 2 (Z.to_nat len);
  store (Z.to_nat len) 0 name.

Definition cec_msg_give_osd_name (reply : Z) : M cec_msg unit :=
  set_len 2;;
  put 1 CEC_MSG_GIVE_OSD_NAME;;
  set_reply (c_cond reply CEC_MSG_SET_OSD_NAME 0).

(** * Device Menu Control Feature *)

Definition cec_msg_menu_status (menu_state : Z) : M cec_msg unit :=
  set_len 3;;
  put 1 CEC_MSG_MENU_STATUS;;
  put 2 menu_state.

Definition cec_ops_menu_status : R cec_msg Z := get 2.

Definition cec_msg_menu_request (reply menu_req : Z) : M cec_msg unit :=
  set_len 3;;
  put 1 CEC_MSG_MENU_REQUEST;;
  put 2 menu_req;;
  set_reply (c_cond reply CEC_MSG_MENU_STATUS 0).

Definition cec_ops_menu_request : R cec_msg Z := get 2.

(** [struct cec_op_ui_command]; [ui_u] is its union, 6 bytes. *)
Record cec_op_ui_command := Ui_command {
  ui_cmd : Z;
  ui_has_opt_arg : Z;
  ui_u : list Z
}.

(** The one-byte members of the union ([play_mode], [ui_broadcast_type], ...)
    share its first byte. *)
Definition ui_play_mode (u : list Z) : Z := ld8 u 0.

(** The commands whose optional operand is one byte. *)
Definition ui_one_byte (cmd : Z) : bool :=
  (cmd =? 0x56) || (cmd =? 0x57) || (cmd =? 0x60)
  || (cmd =? 0x68) || (cmd =? 0x69) || (cmd =? 0x6a).

Definition cec_msg_user_control_pressed (c : cec_op_ui_command) : M cec_msg unit :=
  set_len 3;;
  put 1 CEC_MSG_USER_CONTROL_PRESSED;;
  put 2 (ui_cmd c);;
  if negb (truth (ui_has_opt_arg c)) then mret tt
  else if ui_one_byte (ui_cmd c) then
    (* The optional operand is one byte for all these ui commands *)
    n ← gets cm_len;
    set_len (n + 1);;
    put 3 (ui_play_mode (ui_u c))
  else if ui_cmd c =? 0x67 then
    n ← gets cm_len;
    set_len (n + 4);;
    put 3 ((channel_number_fmt (ui_u c) << 2) .| (channel_major (ui_u c) >> 8));;
    put 4 (channel_major (ui_u c) .& 0xff);;
    put 5 (channel_minor (ui_u c) >> 8);;
    put 6 (channel_minor (ui_u c) .& 0xff)
  else mret tt.

Definition cec_ops_user_control_pressed (c : cec_op_ui_command) :
  R cec_msg cec_op_ui_command :=
  cmd ← get 2;
  n ← asks cm_len;
  if n =? 3 then mret (Ui_command cmd 0 (ui_u c))
  else if ui_one_byte cmd then
    (* The optional operand is one byte for all these ui commands *)
    b ← get 3;
    mret (Ui_command cmd 1 (st8 0 b (ui_u c)))
  else if cmd =? 0x67 then
    if n <? 7 then mret (Ui_command cmd 0 (ui_u c))
    else
      b3 ← get 3;
      b4 ← get 4;
      minor ← get_be16 5;
      mret (Ui_command cmd 1
        (st16 4 minor (st16 2 (((b3 .& 3) << 6) .| b4) (st8 0 (b3 >> 2) (ui_u c)))))
  else mret (Ui_command cmd 0 (ui_u c)).

Definition cec_msg_user_control_released : M cec_msg unit :=
  set_len 2;;
  put 1 CEC_MSG_USER_CONTROL_RELEASED.

(** * Power Status Feature *)

Definition cec_msg_report_power_status (pwr_state : Z) : M cec_msg unit :=
  set_len 3;;
  put 1 CEC_MSG_REPORT_POWER_STATUS;;
  put 2 pwr_state.

Definition cec_ops_report_power_status : R cec_msg Z := get 2.

Definition cec_msg_give_device_power_status (reply : Z) : M cec_msg unit :=
  set_len 2;;
  put 1 CEC_MSG_GIVE_DEVICE_POWER_STATUS;;
  set_reply (c_cond reply CEC_MSG_REPORT_POWER_STATUS 0).

(** * General Protocol Messages *)

Definition cec_msg_feature_abort (abort_msg reason : Z) : M cec_msg unit :=
  set_len 4;;
  put 1 CEC_MSG_FEATURE_ABORT;;
  put 2 abort_msg;;
  put 3 reason.

Definition cec_ops_feature_abort : R cec_msg (Z * Z) :=
  abort_msg ← get 2;
  reason ← get 3;
  mret (abort_msg, reason).

(** This changes the current message into a feature abort message *)
Definition cec_msg_reply_feature_abort (reason : Z) : M cec_msg unit :=
  cec_msg_set_reply_to_self;;
  set_len 4;;
  op ← read (get 1);
  put 2 op;;
  put 3 reason;;
  put 1 CEC_MSG_FEATURE_ABORT.

Definition cec_msg_abort : M cec_msg unit :=
  set_len 2;;
  put 1 CEC_MSG_ABORT.

(** * System Audio Control Feature *)

Definition cec_msg_report_audio_status (aud_mute_status aud_vol_status : Z) :
  M cec_msg unit :=
  set_len 3;;
  put 1 CEC_MSG_REPORT_AUDIO_STATUS;;
  put 2 ((aud_mute_status << 7) .| (aud_vol_status .& 0x7f)).

Definition cec_ops_report_audio_status : R cec_msg (Z * Z) :=
  b ← get 2;
  mret (u8 (b >> 7), u8 (b .& 0x7f)).

Definition cec_msg_give_audio_status (reply : Z) : M cec_msg unit :=
  set_len 2;;
  put 1 CEC_MSG_GIVE_AUDIO_STATUS;;
  set_reply (c_cond reply CEC_MSG_REPORT_AUDIO_STATUS 0).

Definition cec_msg_set_system_audio_mode (sys_aud_status : Z) : M cec_msg unit :=
  set_len 3;;
  put 1 CEC_MSG_SET_SYSTEM_AUDIO_MODE;;
  put 2 sys_aud_status.

Definition cec_ops_set_system_audio_mode : R cec_msg Z := get 2.

Definition cec_msg_system_audio_mode_request (reply phys_addr : Z) : M cec_msg unit :=
  set_len (if phys_addr =? 0xffff then 2 else 4);;
  put 1 CEC_MSG_SYSTEM_AUDIO_MODE_REQUEST;;
  put 2 (phys_addr >> 8);;
  put 3 (phys_addr .& 0xff);;
  set_reply (c_cond reply CEC_MSG_SET_SYSTEM_AUDIO_MODE 0).

Definition cec_ops_system_audio_mode_request : R cec_msg Z :=
  n ← asks cm_len;
  if n <? 4 then mret 0xffff else get_be16 2.

Definition cec_msg_system_audio_mode_status (sys_aud_status : Z) : M cec_msg unit :=
  set_len 3;;
  put 1 CEC_MSG_SYSTEM_AUDIO_MODE_STATUS;;
  put 2 sys_aud_status.

Definition cec_ops_system_audio_mode_status : R cec_msg Z := get 2.

Definition cec_msg_give_system_audio_mode_status (reply : Z) : M cec_msg unit :=
  set_len 2;;
  put 1 CEC_MSG_GIVE_SYSTEM_AUDIO_MODE_STATUS;;
  set_reply (c_cond reply CEC_MSG_SYSTEM_AUDIO_MODE_STATUS 0).

Definition cec_msg_report_short_audio_descriptor
    (num_descriptors : Z) (descriptors : list Z) : M cec_msg unit :=
  let num_descriptors := clamp 4 num_descriptors in
  set_len (2 + num_descriptors * 3);;
  put 1 CEC_MSG_REPORT_SHORT_AUDIO_DESCRIPTOR;;
  for_loop 0 (Z.to_nat num_descriptors) (λ i,
    d ← lift_opt (descriptors !! i);
    put (2 + i * 3) ((d >> 16) .& 0xff);;
    put (3 + i * 3) ((d >> 8) .& 0xff);;
    put (4 + i * 3) (d .& 0xff)).

Definition cec_ops_report_short_audio_descriptor (descriptors : list Z) :
  R cec_msg (Z * list Z) :=
  n ← asks cm_len;
  let num_descriptors := u8 (u32 (n - 2) / 3) in
  let num_descriptors := clamp 4 num_descriptors in
  descriptors ← for_fold 0 (Z.to_nat num_descriptors) (λ i descriptors,
    d ← get_be24 (2 + i * 3);
    store i d descriptors) descriptors;
  mret (num_descriptors, descriptors).

Definition cec_msg_request_short_audio_descriptor
    (reply num_descriptors : Z) (audio_format_id audio_format_code : list Z) :
  M cec_msg unit :=
  let num_descriptors := clamp 4 num_descriptors in
  set_len (2 + num_descriptors);;
  put 1 CEC_MSG_REQUEST_SHORT_AUDIO_DESCRIPTOR;;
  set_reply (c_cond reply CEC_MSG_REPORT_SHORT_AUDIO_DESCRIPTOR 0);;
  for_loop 0 (Z.to_nat num_descriptors) (λ i,
    id ← lift_opt (audio_format_id !! i);
    code ← lift_opt (audio_format_code !! i);
    put (2 + i) ((id << 6) .| (code .& 0x3f))).

Definition cec_ops_request_short_audio_descriptor
    (audio_format_id audio_format_code : list Z) : R cec_msg (Z * list Z * list Z) :=
  n ← asks cm_len;
  let num_descriptors := u8 (u32 (n - 2)) in
  let num_descriptors := clamp 4 num_descriptors in
  arrays ← for_fold 0 (Z.to_nat num_descriptors) (λ i arrays,
    b ← get (2 + i);
    ids ← store i (u8 (b >> 6)) arrays.1;
    codes ← store i (u8 (b .& 0x3f)) arrays.2;
    mret (ids, codes)) (audio_format_id, audio_format_code);
  mret (num_descriptors, arrays.1, arrays.2).

(** * Audio Rate Control Feature *)

Definition cec_msg_set_audio_rate (audio_rate : Z) : M cec_msg unit :=
  set_len 3;;
  put 1 CEC_MSG_SET_AUDIO_RATE;;
  put 2 audio_rate.

Definition cec_ops_set_audio_rate : R cec_msg Z := get 2.

(** * Audio Return Channel Control Feature *)

Definition cec_msg_report_arc_initiated : M cec_msg unit :=
  set_len 2;;
  put 1 CEC_MSG_REPORT_ARC_INITIATED.

Definition cec_msg_initiate_arc (reply : Z) : M cec_msg unit :=
  set_len 2;;
  put 1 CEC_MSG_INITIATE_ARC;;
  set_reply (c_cond reply CEC_MSG_REPORT_ARC_INITIATED 0).

Definition cec_msg_request_arc_initiation (reply : Z) : M cec_msg unit :=
  set_len 2;;
  put 1 CEC_MSG_REQUEST_ARC_INITIATION;;
  set_reply (c_cond reply CEC_MSG_INITIATE_ARC 0).

Definition cec_msg_report_arc_terminated : M cec_msg unit :=
  set_len 2;;
  put 1 CEC_MSG_REPORT_ARC_TERMINATED.

Definition cec_msg_terminate_arc (reply : Z) : M cec_msg unit :=
  set_len 2;;
  put 1 CEC_MSG_TERMINATE_ARC;;
  set_reply (c_cond reply CEC_MSG_REPORT_ARC_TERMINATED 0).

Definition cec_msg_request_arc_termination (reply : Z) : M cec_msg unit :=
  set_len 2;;
  put 1 CEC_MSG_REQUEST_ARC_TERMINATION;;
  set_reply (c_cond reply CEC_MSG_TERMINATE_ARC 0).

(** * Dynamic Audio Lipsync Feature *)

Definition cec_msg_report_current_latency
    (phys_addr video_latency low_latency_mode audio_out_compensated audio_out_delay : Z) :
  M cec_msg unit :=
  set_len 6;;
  or_put 0 0xf;; (* broadcast *)
  put 1 CEC_MSG_REPORT_CURRENT_LATENCY;;
  put 2 (phys_addr >> 8);;
  put 3 (phys_addr .& 0xff);;
  put 4 video_latency;;
  put 5 ((low_latency_mode << 2) .| audio_out_compensated);;
  when (audio_out_compensated =? 3) (push audio_out_delay).

Definition cec_ops_report_current_latency : R cec_msg (Z * Z * Z * Z * Z) :=
  phys_addr ← get_be16 2;
  video_latency ← get 4;
  b ← get 5;
  let low_latency_mode := u8 ((b >> 2) .& 1) in
  let audio_out_compensated := u8 (b .& 3) in
  n ← asks cm_len;
  if (audio_out_compensated =? 3) && (7 <=? n) then
    audio_out_delay ← get 6;
    mret (phys_addr, video_latency, low_latency_mode, audio_out_compensated,
          audio_out_delay)
  else mret (phys_addr, video_latency, low_latency_mode, audio_out_compensated, 0).

Definition cec_msg_request_current_latency (reply phys_addr : Z) : M cec_msg unit :=
  set_len 4;;
  or_put 0 0xf;; (* broadcast *)
  put 1 CEC_MSG_REQUEST_CURRENT_LATENCY;;
  put 2 (phys_addr >> 8);;
  put 3 (phys_addr .& 0xff);;
  set_reply (c_cond reply CEC_MSG_REPORT_CURRENT_LATENCY 0).

Definition cec_ops_request_current_latency : R cec_msg Z := get_be16 2.

(** * Capability Discovery and Control Feature

    [msg[2]] and [msg[3]] (phys_addr) are filled in by the CEC framework. *)

Definition cec_msg_cdc_hec_inquire_state (phys_addr1 phys_addr2 : Z) : M cec_msg unit :=
  set_len 9;;
  or_put 0 0xf;; (* broadcast *)
  put 1 CEC_MSG_CDC_MESSAGE;;
  put 4 CEC_MSG_CDC_HEC_INQUIRE_STATE;;
  put 5 (phys_addr1 >> 8);;
  put 6 (phys_addr1 .& 0xff);;
  put 7 (phys_addr2 >> 8);;
  put 8 (phys_addr2 .& 0xff).

Definition cec_ops_cdc_hec_inquire_state : R cec_msg (Z * Z * Z) :=
  phys_addr ← get_be16 2;
  phys_addr1 ← get_be16 5;
  phys_addr2 ← get_be16 7;
  mret (phys_addr, phys_addr1, phys_addr2).

Definition cec_msg_cdc_hec_report_state
    (target_phys_addr hec_func_state host_func_state enc_func_state cdc_errcode
     has_field hec_field : Z) : M cec_msg unit :=
  set_len (c_cond has_field 10 8);;
  or_put 0 0xf;; (* broadcast *)
  put 1 CEC_MSG_CDC_MESSAGE;;
  put 4 CEC_MSG_CDC_HEC_REPORT_STATE;;
  put 5 (target_phys_addr >> 8);;
  put 6 (target_phys_addr .& 0xff);;
  put 7 ((hec_func_state << 6) .| (host_func_state << 4) .| (enc_func_state << 2) .|
         cdc_errcode);;
  when (truth has_field)
   (put 8 (hec_field >> 8);;
    put 9 (hec_field .& 0xff)).

Definition cec_ops_cdc_hec_report_state : R cec_msg (Z * Z * Z * Z * Z * Z * Z * Z) :=
  phys_addr ← get_be16 2;
  target_phys_addr ← get_be16 5;
  b ← get 7;
  let hec_func_state := u8 (b >> 6) in
  let host_func_state := u8 ((b >> 4) .& 3) in
  let enc_func_state := u8 ((b >> 4) .& 3) in
  let cdc_errcode := u8 (b .& 3) in
  n ← asks cm_len;
  let has_field := Z.b2z (10 <=? n) in
  hec_field ← (if truth has_field then get_be16 8 else mret 0);
  mret (phys_addr, target_phys_addr, hec_func_state, host_func_state, enc_func_state,
        cdc_errcode, has_field, hec_field).

Definition cec_msg_cdc_hec_set_state
    (phys_addr1 phys_addr2 hec_set_state phys_addr3 phys_addr4 phys_addr5 : Z) :
  M cec_msg unit :=
  set_len 10;;
  or_put 0 0xf;; (* broadcast *)
  put 1 CEC_MSG_CDC_MESSAGE;;
  put 4 CEC_MSG_CDC_HEC_INQUIRE_STATE;;
  put 5 (phys_addr1 >> 8);;
  put 6 (phys_addr1 .& 0xff);;
  put 7 (phys_addr2 >> 8);;
  put 8 (phys_addr2 .& 0xff);;
  put 9 hec_set_state;;
  when (negb (phys_addr3 =? CEC_PHYS_ADDR_INVALID))
   (push (phys_addr3 >> 8);;
    push (phys_addr3 .& 0xff);;
    when (negb (phys_addr4 =? CEC_PHYS_ADDR_INVALID))
     (push (phys_addr4 >> 8);;
      push (phys_addr4 .& 0xff);;
      when (negb (phys_addr5 =? CEC_PHYS_ADDR_INVALID))
       (push (phys_addr5 >> 8);;
        push (phys_addr5 .& 0xff)))).

Definition cec_ops_cdc_hec_set_state : R cec_msg (Z * Z * Z * Z * Z * Z * Z) :=
  phys_addr ← get_be16 2;
  phys_addr1 ← get_be16 5;
  phys_addr2 ← get_be16 7;
  hec_set_state ← get 9;
  n ← asks cm_len;
  phys_addr3 ← (if 12 <=? n then get_be16 10 else mret CEC_PHYS_ADDR_INVALID);
  phys_addr4 ← (if 14 <=? n then get_be16 12 else mret CEC_PHYS_ADDR_INVALID);
  phys_addr5 ← (if 16 <=? n then get_be16 14 else mret CEC_PHYS_ADDR_INVALID);
  mret (phys_addr, phys_addr1, phys_addr2, hec_set_state, phys_addr3, phys_addr4,
        phys_addr5).

Definition cec_msg_cdc_hec_set_state_adjacent (phys_addr1 hec_set_state : Z) :
  M cec_msg unit :=
  set_len 8;;
  or_put 0 0xf;; (* broadcast *)
  put 1 CEC_MSG_CDC_MESSAGE;;
  put 4 CEC_MSG_CDC_HEC_SET_STATE_ADJACENT;;
  put 5 (phys_addr1 >> 8);;
  put 6 (phys_addr1 .& 0xff);;
  put 7 hec_set_state.

Definition cec_ops_cdc_hec_set_state_adjacent : R cec_msg (Z * Z * Z) :=
  phys_addr ← get_be16 2;
  phys_addr1 ← get_be16 5;
  hec_set_state ← get 7;
  mret (phys_addr, phys_addr1, hec_set_state).

Definition cec_msg_cdc_hec_request_deactivation (phys_addr1 phys_addr2 phys_addr3 : Z) :
  M cec_msg unit :=
  set_len 11;;
  or_put 0 0xf;; (* broadcast *)
  put 1 CEC_MSG_CDC_MESSAGE;;
  put 4 CEC_MSG_CDC_HEC_REQUEST_DEACTIVATION;;
  put 5 (phys_addr1 >> 8);;
  put 6 (phys_addr1 .& 0xff);;
  put 7 (phys_addr2 >> 8);;
  put 8 (phys_addr2 .& 0xff);;
  put 9 (phys_addr3 >> 8);;
  put 10 (phys_addr3 .& 0xff).

Definition cec_ops_cdc_hec_request_deactivation : R cec_msg (Z * Z * Z * Z) :=
  phys_addr ← get_be16 2;
  phys_addr1 ← get_be16 5;
  phys_addr2 ← get_be16 7;
  phys_addr3 ← get_be16 9;
  mret (phys_addr, phys_addr1, phys_addr2, phys_addr3).

Definition cec_msg_cdc_hec_notify_alive : M cec_msg unit :=
  set_len 5;;
  or_put 0 0xf;; (* broadcast *)
  put 1 CEC_MSG_CDC_MESSAGE;;
  put 4 CEC_MSG_CDC_HEC_NOTIFY_ALIVE.

Definition cec_ops_cdc_hec_notify_alive : R cec_msg Z := get_be16 2.

Definition cec_msg_cdc_hec_discover : M cec_msg unit :=
  set_len 5;;
  or_put 0 0xf;; (* broadcast *)
  put 1 CEC_MSG_CDC_MESSAGE;;
  put 4 CEC_MSG_CDC_HEC_DISCOVER.

Definition cec_ops_cdc_hec_discover : R cec_msg Z := get_be16 2.

Definition cec_msg_cdc_hpd_set_state (input_port hpd_state : Z) : M cec_msg unit :=
  set_len 6;;
  or_put 0 0xf;; (* broadcast *)
  put 1 CEC_MSG_CDC_MESSAGE;;
  put 4 CEC_MSG_CDC_HPD_SET_STATE;;
  put 5 ((input_port << 4) .| hpd_state).

Definition cec_ops_cdc_hpd_set_state : R cec_msg (Z * Z * Z) :=
  phys_addr ← get_be16 2;
  b ← get 5;
  mret (phys_addr, u8 (b >> 4), u8 (b .& 0xf)).

Definition cec_msg_cdc_hpd_report_state (hpd_state hpd_error : Z) : M cec_msg unit :=
  set_len 6;;
  or_put 0 0xf;; (* broadcast *)
  put 1 CEC_MSG_CDC_MESSAGE;;
  put 4 CEC_MSG_CDC_HPD_REPORT_STATE;;
  put 5 ((hpd_state << 4) .| hpd_error).

Definition cec_ops_cdc_hpd_report_state : R cec_msg (Z * Z * Z) :=
  phys_addr ← get_be16 2;
  b ← get 5;
  mret (phys_addr, u8 (b >> 4), u8 (b .& 0xf)).
