(* ===== verification/CecProtocol.v ===== *)
(** The CEC protocol as seen by a client of [linux/cec-funcs.h]: one constructor
    of [request] per message, [cec_send] which builds it with the constructor
    function of the header, [cec_recv] which parses a received message with the
    parser that belongs to its opcode, and the tables (opcode, length, addressing,
    expected reply, operand types and ranges) that specify each message. *)
From stdpp Require Import base numbers list.
From Stdlib Require Import ZArith Lia.
From S2P Require Import Prelude CecConsts Cec CecFuncs.

(** * Messages and their operands *)

Inductive request :=
  (* One Touch Play, Routing Control, Standby *)
  | Active_source (phys_addr : Z)
  | Image_view_on
  | Text_view_on
  | Inactive_source (phys_addr : Z)
  | Request_active_source
  | Routing_information (phys_addr : Z)
  | Routing_change (orig_phys_addr new_phys_addr : Z)
  | Set_stream_path (phys_addr : Z)
  | Standby
  (* One Touch Record *)
  | Record_off
  | Record_on (rec_src : cec_op_record_src)
  | Record_status (rec_status : Z)
  | Record_tv_screen
  (* Timer Programming *)
  | Timer_status (timer_overlap_warning media_info prog_info prog_error
                  duration_hr duration_min : Z)
  | Timer_cleared_status (timer_cleared_status : Z)
  | Clear_analogue_timer (t : timer) (ana_bcast_type ana_freq bcast_system : Z)
  | Clear_digital_timer (t : timer) (digital : cec_op_digital_service_id)
  | Clear_ext_timer (t : timer) (ext_src_spec plug phys_addr : Z)
  | Set_analogue_timer (t : timer) (ana_bcast_type ana_freq bcast_system : Z)
  | Set_digital_timer (t : timer) (digital : cec_op_digital_service_id)
  | Set_ext_timer (t : timer) (ext_src_spec plug phys_addr : Z)
  | Set_timer_program_title (prog_title : list Z)
  (* System Information *)
  | Cec_version (cec_version : Z)
  | Get_cec_version
  | Report_physical_addr (phys_addr prim_devtype : Z)
  | Give_physical_addr
  | Set_menu_language (language : list Z)
  | Get_menu_language
  | Report_features (cec_version all_device_types rc_profile dev_features : Z)
  | Give_features
  (* Deck Control *)
  | Deck_control (deck_control_mode : Z)
  | Deck_status (deck_info : Z)
  | Give_deck_status (status_req : Z)
  | Play (play_mode : Z)
  (* Tuner Control *)
  | Tuner_device_status (info : cec_op_tuner_device_info)
  | Give_tuner_device_status (status_req : Z)
  | Select_analogue_service (ana_bcast_type ana_freq bcast_system : Z)
  | Select_digital_service (digital : cec_op_digital_service_id)
  | Tuner_step_decrement
  | Tuner_step_increment
  (* Vendor Specific Commands *)
  | Device_vendor_id (vendor_id : Z)
  | Give_device_vendor_id
  | Vendor_command (size : Z) (vendor_cmd : list Z)
  | Vendor_command_with_id (vendor_id size : Z) (vendor_cmd : list Z)
  | Vendor_remote_button_down (size : Z) (rc_code : list Z)
  | Vendor_remote_button_up
  (* OSD Display, Device OSD Transfer *)
  | Set_osd_string (disp_ctl : Z) (osd : list Z)
  | Set_osd_name (name : list Z)
  | Give_osd_name
  (* Device Menu Control *)
  | Menu_status (menu_state : Z)
  | Menu_request (menu_req : Z)
  | User_control_pressed (c : cec_op_ui_command)
  | User_control_released
  (* Power Status, General Protocol Messages *)
  | Report_power_status (pwr_state : Z)
  | Give_device_power_status
  | Feature_abort (abort_msg reason : Z)
  | Abort
  (* System Audio Control *)
  | Report_audio_status (aud_mute_status aud_vol_status : Z)
  | Give_audio_status
  | Set_system_audio_mode (sys_aud_status : Z)
  | System_audio_mode_request (phys_addr : Z)
  | System_audio_mode_status (sys_aud_status : Z)
  | Give_system_audio_mode_status
  | Report_short_audio_descriptor (num_descriptors : Z) (descriptors : list Z)
  | Request_short_audio_descriptor (num_descriptors : Z)
      (audio_format_id audio_format_code : list Z)
  (* Audio Rate Control, Audio Return Channel Control *)
  | Set_audio_rate (audio_rate : Z)
  | Report_arc_initiated
  | Initiate_arc
  | Request_arc_initiation
  | Report_arc_terminated
  | Terminate_arc
  | Request_arc_termination
  (* Dynamic Audio Lipsync *)
  | Report_current_latency (phys_addr video_latency low_latency_mode
                            audio_out_compensated audio_out_delay : Z)
  | Request_current_latency (phys_addr : Z)
  (* Capability Discovery and Control *)
  | Cdc_hec_inquire_state (phys_addr1 phys_addr2 : Z)
  | Cdc_hec_report_state (target_phys_addr hec_func_state host_func_state enc_func_state
                          cdc_errcode has_field hec_field : Z)
  | Cdc_hec_set_state (phys_addr1 phys_addr2 hec_set_state
                       phys_addr3 phys_addr4 phys_addr5 : Z)
  | Cdc_hec_set_state_adjacent (phys_addr1 hec_set_state : Z)
  | Cdc_hec_request_deactivation (phys_addr1 phys_addr2 phys_addr3 : Z)
  | Cdc_hec_notify_alive
  | Cdc_hec_discover
  | Cdc_hpd_set_state (input_port hpd_state : Z)
  | Cdc_hpd_report_state (hpd_state hpd_error : Z).

(** * Building a message

    [reply] is the parameter of that name of the constructors that have it. *)

Definition cec_send (reply : Z) (r : request) : M cec_msg unit :=
  match r with
  | Active_source pa => cec_msg_active_source pa
  | Image_view_on => cec_msg_image_view_on
  | Text_view_on => cec_msg_text_view_on
  | Inactive_source pa => cec_msg_inactive_source pa
  | Request_active_source => cec_msg_request_active_source reply
  | Routing_information pa => cec_msg_routing_information pa
  | Routing_change o n => cec_msg_routing_change reply o n
  | Set_stream_path pa => cec_msg_set_stream_path pa
  | Standby => cec_msg_standby
  | Record_off => cec_msg_record_off reply
  | Record_on src => cec_msg_record_on reply src
  | Record_status s => cec_msg_record_status s
  | Record_tv_screen => cec_msg_record_tv_screen reply
  | Timer_status w i pi pe h m => cec_msg_timer_status w i pi pe h m
  | Timer_cleared_status s => cec_msg_timer_cleared_status s
  | Clear_analogue_timer t a f b => cec_msg_clear_analogue_timer reply t a f b
  | Clear_digital_timer t d => cec_msg_clear_digital_timer reply t d
  | Clear_ext_timer t e p pa => cec_msg_clear_ext_timer reply t e p pa
  | Set_analogue_timer t a f b => cec_msg_set_analogue_timer reply t a f b
  | Set_digital_timer t d => cec_msg_set_digital_timer reply t d
  | Set_ext_timer t e p pa => cec_msg_set_ext_timer reply t e p pa
  | Set_timer_program_title s => cec_msg_set_timer_program_title s
  | Cec_version v => cec_msg_cec_version v
  | Get_cec_version => cec_msg_get_cec_version reply
  | Report_physical_addr pa t => cec_msg_report_physical_addr pa t
  | Give_physical_addr => cec_msg_give_physical_addr reply
  | Set_menu_language l => cec_msg_set_menu_language l
  | Get_menu_language => cec_msg_get_menu_language reply
  | Report_features v a p d => cec_msg_report_features v a p d
  | Give_features => cec_msg_give_features reply
  | Deck_control x => cec_msg_deck_control x
  | Deck_status x => cec_msg_deck_status x
  | Give_deck_status x => cec_msg_give_deck_status reply x
  | Play x => cec_msg_play x
  | Tuner_device_status t => cec_msg_tuner_device_status t
  | Give_tuner_device_status x => cec_msg_give_tuner_device_status reply x
  | Select_analogue_service a f b => cec_msg_select_analogue_service a f b
  | Select_digital_service d => cec_msg_select_digital_service d
  | Tuner_step_decrement => cec_msg_tuner_step_decrement
  | Tuner_step_increment => cec_msg_tuner_step_increment
  | Device_vendor_id v => cec_msg_device_vendor_id v
  | Give_device_vendor_id => cec_msg_give_device_vendor_id reply
  | Vendor_command n c => cec_msg_vendor_command n c
  | Vendor_command_with_id v n c => cec_msg_vendor_command_with_id v n c
  | Vendor_remote_button_down n c => cec_msg_vendor_remote_button_down n c
  | Vendor_remote_button_up => cec_msg_vendor_remote_button_up
  | Set_osd_string d s => cec_msg_set_osd_string d s
  | Set_osd_name s => cec_msg_set_osd_name s
  | Give_osd_name => cec_msg_give_osd_name reply
  | Menu_status x => cec_msg_menu_status x
  | Menu_request x => cec_msg_menu_request reply x
  | User_control_pressed c => cec_msg_user_control_pressed c
  | User_control_released => cec_msg_user_control_released
  | Report_power_status x => cec_msg_report_power_status x
  | Give_device_power_status => cec_msg_give_device_power_status reply
  | Feature_abort a x => cec_msg_feature_abort a x
  | Abort => cec_msg_abort
  | Report_audio_status u v => cec_msg_report_audio_status u v
  | Give_audio_status => cec_msg_give_audio_status reply
  | Set_system_audio_mode x => cec_msg_set_system_audio_mode x
  | System_audio_mode_request pa => cec_msg_system_audio_mode_request reply pa
  | System_audio_mode_status x => cec_msg_system_audio_mode_status x
  | Give_system_audio_mode_status => cec_msg_give_system_audio_mode_status reply
  | Report_short_audio_descriptor n ds => cec_msg_report_short_audio_descriptor n ds
  | Request_short_audio_descriptor n ids codes =>
      cec_msg_request_short_audio_descriptor reply n ids codes
  | Set_audio_rate x => cec_msg_set_audio_rate x
  | Report_arc_initiated => cec_msg_report_arc_initiated
  | Initiate_arc => cec_msg_initiate_arc reply
  | Request_arc_initiation => cec_msg_request_arc_initiation reply
  | Report_arc_terminated => cec_msg_report_arc_terminated
  | Terminate_arc => cec_msg_terminate_arc reply
  | Request_arc_termination => cec_msg_request_arc_termination reply
  | Report_current_latency pa v l c d => cec_msg_report_current_latency pa v l c d
  | Request_current_latency pa => cec_msg_request_current_latency reply pa
  | Cdc_hec_inquire_state p1 p2 => cec_msg_cdc_hec_inquire_state p1 p2
  | Cdc_hec_report_state t h o e c f x => cec_msg_cdc_hec_report_state t h o e c f x
  | Cdc_hec_set_state p1 p2 s p3 p4 p5 => cec_msg_cdc_hec_set_state p1 p2 s p3 p4 p5
  | Cdc_hec_set_state_adjacent p1 s => cec_msg_cdc_hec_set_state_adjacent p1 s
  | Cdc_hec_request_deactivation p1 p2 p3 => cec_msg_cdc_hec_request_deactivation p1 p2 p3
  | Cdc_hec_notify_alive => cec_msg_cdc_hec_notify_alive
  | Cdc_hec_discover => cec_msg_cdc_hec_discover
  | Cdc_hpd_set_state p s => cec_msg_cdc_hpd_set_state p s
  | Cdc_hpd_report_state s e => cec_msg_cdc_hpd_report_state s e
  end.

(** * Parsing a message

    The outputs start zeroed; a character buffer has the size the header's
    callers need: 14 characters and a NUL, 3 and a NUL for a language. *)

Definition digital0 : cec_op_digital_service_id := Digital 0 0 (replicate 6 0).
Definition record_src0 : cec_op_record_src := Record_src 0 (replicate 8 0).
Definition tuner_info0 : cec_op_tuner_device_info := Tuner_info 0 0 0 (replicate 8 0).
Definition ui_command0 : cec_op_ui_command := Ui_command 0 0 (replicate 6 0).

(** The bytes a returned pointer into [msg->msg] designates. *)
Definition bytes_at (off : nat) (size : Z) : R cec_msg (list Z) :=
  asks (λ m, take (Z.to_nat size) (drop off (cm_msg m))).

Definition cec_parse_cdc (sub : Z) : R cec_msg (option request) :=
  match sub with
  | CEC_MSG_CDC_HEC_INQUIRE_STATE =>
      '(_, p1, p2) ← cec_ops_cdc_hec_inquire_state;
      mret (Some (Cdc_hec_inquire_state p1 p2))
  | CEC_MSG_CDC_HEC_REPORT_STATE =>
      '(_, t, h, o, e, c, f, x) ← cec_ops_cdc_hec_report_state;
      mret (Some (Cdc_hec_report_state t h o e c f x))
  | CEC_MSG_CDC_HEC_SET_STATE_ADJACENT =>
      '(_, p1, s) ← cec_ops_cdc_hec_set_state_adjacent;
      mret (Some (Cdc_hec_set_state_adjacent p1 s))
  | CEC_MSG_CDC_HEC_SET_STATE =>
      '(_, p1, p2, s, p3, p4, p5) ← cec_ops_cdc_hec_set_state;
      mret (Some (Cdc_hec_set_state p1 p2 s p3 p4 p5))
  | CEC_MSG_CDC_HEC_REQUEST_DEACTIVATION =>
      '(_, p1, p2, p3) ← cec_ops_cdc_hec_request_deactivation;
      mret (Some (Cdc_hec_request_deactivation p1 p2 p3))
  | CEC_MSG_CDC_HEC_NOTIFY_ALIVE =>
      _ ← cec_ops_cdc_hec_notify_alive; mret (Some Cdc_hec_notify_alive)
  | CEC_MSG_CDC_HEC_DISCOVER =>
      _ ← cec_ops_cdc_hec_discover; mret (Some Cdc_hec_discover)
  | CEC_MSG_CDC_HPD_SET_STATE =>
      '(_, p, s) ← cec_ops_cdc_hpd_set_state; mret (Some (Cdc_hpd_set_state p s))
  | CEC_MSG_CDC_HPD_REPORT_STATE =>
      '(_, s, e) ← cec_ops_cdc_hpd_report_state;
      mret (Some (Cdc_hpd_report_state s e))
  | _ => mret None
  end.

Definition cec_parse (op : Z) : R cec_msg (option request) :=
  match op with
  | CEC_MSG_ACTIVE_SOURCE => pa ← cec_ops_active_source; mret (Some (Active_source pa))
  | CEC_MSG_IMAGE_VIEW_ON => mret (Some Image_view_on)
  | CEC_MSG_TEXT_VIEW_ON => mret (Some Text_view_on)
  | CEC_MSG_INACTIVE_SOURCE => pa ← cec_ops_inactive_source; mret (Some (Inactive_source pa))
  | CEC_MSG_REQUEST_ACTIVE_SOURCE => mret (Some Request_active_source)
  | CEC_MSG_ROUTING_INFORMATION =>
      pa ← cec_ops_routing_information; mret (Some (Routing_information pa))
  | CEC_MSG_ROUTING_CHANGE =>
      '(o, n) ← cec_ops_routing_change; mret (Some (Routing_change o n))
  | CEC_MSG_SET_STREAM_PATH => pa ← cec_ops_set_stream_path; mret (Some (Set_stream_path pa))
  | CEC_MSG_STANDBY => mret (Some Standby)
  | CEC_MSG_RECORD_OFF => mret (Some Record_off)
  | CEC_MSG_RECORD_ON => s ← cec_ops_record_on record_src0; mret (Some (Record_on s))
  | CEC_MSG_RECORD_STATUS => s ← cec_ops_record_status; mret (Some (Record_status s))
  | CEC_MSG_RECORD_TV_SCREEN => mret (Some Record_tv_screen)
  | CEC_MSG_TIMER_STATUS =>
      '(w, i, pi, pe, h, m) ← cec_ops_timer_status; mret (Some (Timer_status w i pi pe h m))
  | CEC_MSG_TIMER_CLEARED_STATUS =>
      s ← cec_ops_timer_cleared_status; mret (Some (Timer_cleared_status s))
  | CEC_MSG_CLEAR_ANALOGUE_TIMER =>
      '(t, a, f, b) ← cec_ops_clear_analogue_timer; mret (Some (Clear_analogue_timer t a f b))
  | CEC_MSG_CLEAR_DIGITAL_TIMER =>
      '(t, d) ← cec_ops_clear_digital_timer digital0; mret (Some (Clear_digital_timer t d))
  | CEC_MSG_CLEAR_EXT_TIMER =>
      '(t, e, p, pa) ← cec_ops_clear_ext_timer; mret (Some (Clear_ext_timer t e p pa))
  | CEC_MSG_SET_ANALOGUE_TIMER =>
      '(t, a, f, b) ← cec_ops_set_analogue_timer; mret (Some (Set_analogue_timer t a f b))
  | CEC_MSG_SET_DIGITAL_TIMER =>
      '(t, d) ← cec_ops_set_digital_timer digital0; mret (Some (Set_digital_timer t d))
  | CEC_MSG_SET_EXT_TIMER =>
      '(t, e, p, pa) ← cec_ops_set_ext_timer; mret (Some (Set_ext_timer t e p pa))
  | CEC_MSG_SET_TIMER_PROGRAM_TITLE =>
      s ← cec_ops_set_timer_program_title (replicate 15 0);
      mret (Some (Set_timer_program_title s))
  | CEC_MSG_CEC_VERSION => v ← cec_ops_cec_version; mret (Some (Cec_version v))
  | CEC_MSG_GET_CEC_VERSION => mret (Some Get_cec_version)
  | CEC_MSG_REPORT_PHYSICAL_ADDR =>
      '(pa, t) ← cec_ops_report_physical_addr; mret (Some (Report_physical_addr pa t))
  | CEC_MSG_GIVE_PHYSICAL_ADDR => mret (Some Give_physical_addr)
  | CEC_MSG_SET_MENU_LANGUAGE =>
      l ← cec_ops_set_menu_language (replicate 4 0); mret (Some (Set_menu_language l))
  | CEC_MSG_GET_MENU_LANGUAGE => mret (Some Get_menu_language)
  | CEC_MSG_REPORT_FEATURES =>
      '(v, a, rc, dev) ← cec_ops_report_features;
      match rc, dev with
      | Some o1, Some o2 =>
          p ← get o1; d ← get o2; mret (Some (Report_features v a p d))
      | _, _ => mret None
      end
  | CEC_MSG_GIVE_FEATURES => mret (Some Give_features)
  | CEC_MSG_DECK_CONTROL => x ← cec_ops_deck_control; mret (Some (Deck_control x))
  | CEC_MSG_DECK_STATUS => x ← cec_ops_deck_status; mret (Some (Deck_status x))
  | CEC_MSG_GIVE_DECK_STATUS => x ← cec_ops_give_deck_status; mret (Some (Give_deck_status x))
  | CEC_MSG_PLAY => x ← cec_ops_play; mret (Some (Play x))
  | CEC_MSG_TUNER_DEVICE_STATUS =>
      t ← cec_ops_tuner_device_status tuner_info0; mret (Some (Tuner_device_status t))
  | CEC_MSG_GIVE_TUNER_DEVICE_STATUS =>
      x ← cec_ops_give_tuner_device_status; mret (Some (Give_tuner_device_status x))
  | CEC_MSG_SELECT_ANALOGUE_SERVICE =>
      '(a, f, b) ← cec_ops_select_analogue_service; mret (Some (Select_analogue_service a f b))
  | CEC_MSG_SELECT_DIGITAL_SERVICE =>
      d ← cec_ops_select_digital_service digital0; mret (Some (Select_digital_service d))
  | CEC_MSG_TUNER_STEP_DECREMENT => mret (Some Tuner_step_decrement)
  | CEC_MSG_TUNER_STEP_INCREMENT => mret (Some Tuner_step_increment)
  | CEC_MSG_DEVICE_VENDOR_ID =>
      v ← cec_ops_device_vendor_id; mret (Some (Device_vendor_id v))
  | CEC_MSG_GIVE_DEVICE_VENDOR_ID => mret (Some Give_device_vendor_id)
  | CEC_MSG_VENDOR_COMMAND =>
      '(n, o) ← cec_ops_vendor_command; c ← bytes_at o n; mret (Some (Vendor_command n c))
  | CEC_MSG_VENDOR_COMMAND_WITH_ID =>
      '(v, n, o) ← cec_ops_vendor_command_with_id; c ← bytes_at o n;
      mret (Some (Vendor_command_with_id v n c))
  | CEC_MSG_VENDOR_REMOTE_BUTTON_DOWN =>
      '(n, o) ← cec_ops_vendor_remote_button_down; c ← bytes_at o n;
      mret (Some (Vendor_remote_button_down n c))
  | CEC_MSG_VENDOR_REMOTE_BUTTON_UP => mret (Some Vendor_remote_button_up)
  | CEC_MSG_SET_OSD_STRING =>
      '(d, s) ← cec_ops_set_osd_string (replicate 14 0); mret (Some (Set_osd_string d s))
  | CEC_MSG_SET_OSD_NAME =>
      s ← cec_ops_set_osd_name (replicate 15 0); mret (Some (Set_osd_name s))
  | CEC_MSG_GIVE_OSD_NAME => mret (Some Give_osd_name)
  | CEC_MSG_MENU_STATUS => x ← cec_ops_menu_status; mret (Some (Menu_status x))
  | CEC_MSG_MENU_REQUEST => x ← cec_ops_menu_request; mret (Some (Menu_request x))
  | CEC_MSG_USER_CONTROL_PRESSED =>
      c ← cec_ops_user_control_pressed ui_command0; mret (Some (User_control_pressed c))
  | CEC_MSG_USER_CONTROL_RELEASED => mret (Some User_control_released)
  | CEC_MSG_REPORT_POWER_STATUS =>
      x ← cec_ops_report_power_status; mret (Some (Report_power_status x))
  | CEC_MSG_GIVE_DEVICE_POWER_STATUS => mret (Some Give_device_power_status)
  | CEC_MSG_FEATURE_ABORT =>
      '(a, x) ← cec_ops_feature_abort; mret (Some (Feature_abort a x))
  | CEC_MSG_ABORT => mret (Some Abort)
  | CEC_MSG_REPORT_AUDIO_STATUS =>
      '(u, v) ← cec_ops_report_audio_status; mret (Some (Report_audio_status u v))
  | CEC_MSG_GIVE_AUDIO_STATUS => mret (Some Give_audio_status)
  | CEC_MSG_SET_SYSTEM_AUDIO_MODE =>
      x ← cec_ops_set_system_audio_mode; mret (Some (Set_system_audio_mode x))
  | CEC_MSG_SYSTEM_AUDIO_MODE_REQUEST =>
      pa ← cec_ops_system_audio_mode_request; mret (Some (System_audio_mode_request pa))
  | CEC_MSG_SYSTEM_AUDIO_MODE_STATUS =>
      x ← cec_ops_system_audio_mode_status; mret (Some (System_audio_mode_status x))
  | CEC_MSG_GIVE_SYSTEM_AUDIO_MODE_STATUS => mret (Some Give_system_audio_mode_status)
  | CEC_MSG_REPORT_SHORT_AUDIO_DESCRIPTOR =>
      '(n, ds) ← cec_ops_report_short_audio_descriptor (replicate 4 0);
      mret (Some (Report_short_audio_descriptor n ds))
  | CEC_MSG_REQUEST_SHORT_AUDIO_DESCRIPTOR =>
      '(n, ids, codes) ←
        cec_ops_request_short_audio_descriptor (replicate 4 0) (replicate 4 0);
      mret (Some (Request_short_audio_descriptor n ids codes))
  | CEC_MSG_SET_AUDIO_RATE => x ← cec_ops_set_audio_rate; mret (Some (Set_audio_rate x))
  | CEC_MSG_REPORT_ARC_INITIATED => mret (Some Report_arc_initiated)
  | CEC_MSG_INITIATE_ARC => mret (Some Initiate_arc)
  | CEC_MSG_REQUEST_ARC_INITIATION => mret (Some Request_arc_initiation)
  | CEC_MSG_REPORT_ARC_TERMINATED => mret (Some Report_arc_terminated)
  | CEC_MSG_TERMINATE_ARC => mret (Some Terminate_arc)
  | CEC_MSG_REQUEST_ARC_TERMINATION => mret (Some Request_arc_termination)
  | CEC_MSG_REPORT_CURRENT_LATENCY =>
      '(pa, v, l, c, d) ← cec_ops_report_current_latency;
      mret (Some (Report_current_latency pa v l c d))
  | CEC_MSG_REQUEST_CURRENT_LATENCY =>
      pa ← cec_ops_request_current_latency; mret (Some (Request_current_latency pa))
  | CEC_MSG_CDC_MESSAGE => sub ← get 4; cec_parse_cdc sub
  | _ => mret None
  end.

(** [None] inside the result: a poll, or an opcode the header does not define. *)
Definition cec_recv : R cec_msg (option request) :=
  op ← cec_msg_opcode; cec_parse op.

(** * What each message is

    The opcode in [msg[1]]. *)
Definition req_opcode (r : request) : Z :=
  match r with
  | Active_source _ => CEC_MSG_ACTIVE_SOURCE
  | Image_view_on => CEC_MSG_IMAGE_VIEW_ON
  | Text_view_on => CEC_MSG_TEXT_VIEW_ON
  | Inactive_source _ => CEC_MSG_INACTIVE_SOURCE
  | Request_active_source => CEC_MSG_REQUEST_ACTIVE_SOURCE
  | Routing_information _ => CEC_MSG_ROUTING_INFORMATION
  | Routing_change _ _ => CEC_MSG_ROUTING_CHANGE
  | Set_stream_path _ => CEC_MSG_SET_STREAM_PATH
  | Standby => CEC_MSG_STANDBY
  | Record_off => CEC_MSG_RECORD_OFF
  | Record_on _ => CEC_MSG_RECORD_ON
  | Record_status _ => CEC_MSG_RECORD_STATUS
  | Record_tv_screen => CEC_MSG_RECORD_TV_SCREEN
  | Timer_status _ _ _ _ _ _ => CEC_MSG_TIMER_STATUS
  | Timer_cleared_status _ => CEC_MSG_TIMER_CLEARED_STATUS
  | Clear_analogue_timer _ _ _ _ => CEC_MSG_CLEAR_ANALOGUE_TIMER
  | Clear_digital_timer _ _ => CEC_MSG_CLEAR_DIGITAL_TIMER
  | Clear_ext_timer _ _ _ _ => CEC_MSG_CLEAR_EXT_TIMER
  | Set_analogue_timer _ _ _ _ => CEC_MSG_SET_ANALOGUE_TIMER
  | Set_digital_timer _ _ => CEC_MSG_SET_DIGITAL_TIMER
  | Set_ext_timer _ _ _ _ => CEC_MSG_SET_EXT_TIMER
  | Set_timer_program_title _ => CEC_MSG_SET_TIMER_PROGRAM_TITLE
  | Cec_version _ => CEC_MSG_CEC_VERSION
  | Get_cec_version => CEC_MSG_GET_CEC_VERSION
  | Report_physical_addr _ _ => CEC_MSG_REPORT_PHYSICAL_ADDR
  | Give_physical_addr => CEC_MSG_GIVE_PHYSICAL_ADDR
  | Set_menu_language _ => CEC_MSG_SET_MENU_LANGUAGE
  | Get_menu_language => CEC_MSG_GET_MENU_LANGUAGE
  | Report_features _ _ _ _ => CEC_MSG_REPORT_FEATURES
  | Give_features => CEC_MSG_GIVE_FEATURES
  | Deck_control _ => CEC_MSG_DECK_CONTROL
  | Deck_status _ => CEC_MSG_DECK_STATUS
  | Give_deck_status _ => CEC_MSG_GIVE_DECK_STATUS
  | Play _ => CEC_MSG_PLAY
  | Tuner_device_status _ => CEC_MSG_TUNER_DEVICE_STATUS
  | Give_tuner_device_status _ => CEC_MSG_GIVE_TUNER_DEVICE_STATUS
  | Select_analogue_service _ _ _ => CEC_MSG_SELECT_ANALOGUE_SERVICE
  | Select_digital_service _ => CEC_MSG_SELECT_DIGITAL_SERVICE
  | Tuner_step_decrement => CEC_MSG_TUNER_STEP_DECREMENT
  | Tuner_step_increment => CEC_MSG_TUNER_STEP_INCREMENT
  | Device_vendor_id _ => CEC_MSG_DEVICE_VENDOR_ID
  | Give_device_vendor_id => CEC_MSG_GIVE_DEVICE_VENDOR_ID
  | Vendor_command _ _ => CEC_MSG_VENDOR_COMMAND
  | Vendor_command_with_id _ _ _ => CEC_MSG_VENDOR_COMMAND_WITH_ID
  | Vendor_remote_button_down _ _ => CEC_MSG_VENDOR_REMOTE_BUTTON_DOWN
  | Vendor_remote_button_up => CEC_MSG_VENDOR_REMOTE_BUTTON_UP
  | Set_osd_string _ _ => CEC_MSG_SET_OSD_STRING
  | Set_osd_name _ => CEC_MSG_SET_OSD_NAME
  | Give_osd_name => CEC_MSG_GIVE_OSD_NAME
  | Menu_status _ => CEC_MSG_MENU_STATUS
  | Menu_request _ => CEC_MSG_MENU_REQUEST
  | User_control_pressed _ => CEC_MSG_USER_CONTROL_PRESSED
  | User_control_released => CEC_MSG_USER_CONTROL_RELEASED
  | Report_power_status _ => CEC_MSG_REPORT_POWER_STATUS
  | Give_device_power_status => CEC_MSG_GIVE_DEVICE_POWER_STATUS
  | Feature_abort _ _ => CEC_MSG_FEATURE_ABORT
  | Abort => CEC_MSG_ABORT
  | Report_audio_status _ _ => CEC_MSG_REPORT_AUDIO_STATUS
  | Give_audio_status => CEC_MSG_GIVE_AUDIO_STATUS
  | Set_system_audio_mode _ => CEC_MSG_SET_SYSTEM_AUDIO_MODE
  | System_audio_mode_request _ => CEC_MSG_SYSTEM_AUDIO_MODE_REQUEST
  | System_audio_mode_status _ => CEC_MSG_SYSTEM_AUDIO_MODE_STATUS
  | Give_system_audio_mode_status => CEC_MSG_GIVE_SYSTEM_AUDIO_MODE_STATUS
  | Report_short_audio_descriptor _ _ => CEC_MSG_REPORT_SHORT_AUDIO_DESCRIPTOR
  | Request_short_audio_descriptor _ _ _ => CEC_MSG_REQUEST_SHORT_AUDIO_DESCRIPTOR
  | Set_audio_rate _ => CEC_MSG_SET_AUDIO_RATE
  | Report_arc_initiated => CEC_MSG_REPORT_ARC_INITIATED
  | Initiate_arc => CEC_MSG_INITIATE_ARC
  | Request_arc_initiation => CEC_MSG_REQUEST_ARC_INITIATION
  | Report_arc_terminated => CEC_MSG_REPORT_ARC_TERMINATED
  | Terminate_arc => CEC_MSG_TERMINATE_ARC
  | Request_arc_termination => CEC_MSG_REQUEST_ARC_TERMINATION
  | Report_current_latency _ _ _ _ _ => CEC_MSG_REPORT_CURRENT_LATENCY
  | Request_current_latency _ => CEC_MSG_REQUEST_CURRENT_LATENCY
  | Cdc_hec_inquire_state _ _ | Cdc_hec_report_state _ _ _ _ _ _ _
  | Cdc_hec_set_state _ _ _ _ _ _ | Cdc_hec_set_state_adjacent _ _
  | Cdc_hec_request_deactivation _ _ _ | Cdc_hec_notify_alive | Cdc_hec_discover
  | Cdc_hpd_set_state _ _ | Cdc_hpd_report_state _ _ => CEC_MSG_CDC_MESSAGE
  end.

(** Messages the protocol only allows as broadcasts. *)
Definition req_broadcast (r : request) : bool :=
  match r with
  | Active_source _ | Request_active_source | Routing_information _ | Routing_change _ _
  | Set_stream_path _ | Report_physical_addr _ _ | Set_menu_language _
  | Report_features _ _ _ _ | Device_vendor_id _ | Report_current_latency _ _ _ _ _
  | Request_current_latency _ => true
  | _ => req_opcode r =? CEC_MSG_CDC_MESSAGE
  end.

(** The opcode of the answer that a request with a [reply] parameter waits for. *)
Definition req_reply (r : request) : option Z :=
  match r with
  | Request_active_source => Some CEC_MSG_ACTIVE_SOURCE
  | Routing_change _ _ => Some CEC_MSG_ROUTING_INFORMATION
  | Record_off | Record_on _ => Some CEC_MSG_RECORD_STATUS
  | Record_tv_screen => Some CEC_MSG_RECORD_ON
  | Clear_analogue_timer _ _ _ _ | Clear_digital_timer _ _ | Clear_ext_timer _ _ _ _ =>
      Some CEC_MSG_TIMER_CLEARED_STATUS
  | Set_analogue_timer _ _ _ _ | Set_digital_timer _ _ | Set_ext_timer _ _ _ _ =>
      Some CEC_MSG_TIMER_STATUS
  | Get_cec_version => Some CEC_MSG_CEC_VERSION
  | Give_physical_addr => Some CEC_MSG_REPORT_PHYSICAL_ADDR
  | Get_menu_language => Some CEC_MSG_SET_MENU_LANGUAGE
  | Give_features => Some CEC_MSG_REPORT_FEATURES
  | Give_deck_status _ => Some CEC_MSG_DECK_STATUS
  | Give_tuner_device_status _ => Some CEC_MSG_TUNER_DEVICE_STATUS
  | Give_device_vendor_id => Some CEC_MSG_DEVICE_VENDOR_ID
  | Give_osd_name => Some CEC_MSG_SET_OSD_NAME
  | Menu_request _ => Some CEC_MSG_MENU_STATUS
  | Give_device_power_status => Some CEC_MSG_REPORT_POWER_STATUS
  | Give_audio_status => Some CEC_MSG_REPORT_AUDIO_STATUS
  | System_audio_mode_request _ => Some CEC_MSG_SET_SYSTEM_AUDIO_MODE
  | Give_system_audio_mode_status => Some CEC_MSG_SYSTEM_AUDIO_MODE_STATUS
  | Request_short_audio_descriptor _ _ _ => Some CEC_MSG_REPORT_SHORT_AUDIO_DESCRIPTOR
  | Initiate_arc => Some CEC_MSG_REPORT_ARC_INITIATED
  | Request_arc_initiation => Some CEC_MSG_INITIATE_ARC
  | Terminate_arc => Some CEC_MSG_REPORT_ARC_TERMINATED
  | Request_arc_termination => Some CEC_MSG_TERMINATE_ARC
  | Request_current_latency _ => Some CEC_MSG_REPORT_CURRENT_LATENCY
  | _ => None
  end.

(** A [Record On] request with one of the five documented source types; any
    other type makes [cec_msg_record_on] leave the message as it is. *)
Definition req_known (r : request) : Prop :=
  match r with
  | Record_on s => 1 <= rs_type s <= 5
  | _ => True
  end.

(** ** Types of the operands

    The values and objects a well-typed C caller passes: integers in the range
    of their type, unions of their size, NUL-terminated strings, arrays with at
    least as many elements as the function reads. *)

Definition digital_typed (d : cec_op_digital_service_id) : Prop :=
  is_u8 (ds_service_id_method d) ∧ is_u8 (ds_dig_bcast_system d)
  ∧ length (ds_u d) = 6%nat ∧ Forall is_u8 (ds_u d).

Definition record_src_typed (s : cec_op_record_src) : Prop :=
  is_u8 (rs_type s) ∧ length (rs_u s) = 8%nat ∧ Forall is_u8 (rs_u s).

Definition tuner_info_typed (t : cec_op_tuner_device_info) : Prop :=
  is_u8 (ti_rec_flag t) ∧ is_u8 (ti_tuner_display_info t) ∧ is_u8 (ti_is_analog t)
  ∧ length (ti_u t) = 8%nat ∧ Forall is_u8 (ti_u t).

Definition ui_command_typed (c : cec_op_ui_command) : Prop :=
  is_u8 (ui_cmd c) ∧ is_u8 (ui_has_opt_arg c)
  ∧ length (ui_u c) = 6%nat ∧ Forall is_u8 (ui_u c).

Definition timer_typed (t : timer) : Prop :=
  is_u8 (t_day t) ∧ is_u8 (t_month t) ∧ is_u8 (t_start_hr t) ∧ is_u8 (t_start_min t)
  ∧ is_u8 (t_duration_hr t) ∧ is_u8 (t_duration_min t) ∧ is_u8 (t_recording_seq t).

Definition c_string (s : list Z) : Prop := Forall is_u8 s ∧ is_Some (strlen s).

Definition array_typed (P : Z → Prop) (n : Z) (l : list Z) : Prop :=
  (Z.to_nat n ≤ length l)%nat ∧ Forall P l.

Definition req_typed (r : request) : Prop :=
  match r with
  | Active_source a | Inactive_source a | Routing_information a | Set_stream_path a
  | System_audio_mode_request a | Request_current_latency a => is_u16 a
  | Routing_change a b | Cdc_hec_inquire_state a b => is_u16 a ∧ is_u16 b
  | Record_on s => record_src_typed s
  | Record_status x | Timer_cleared_status x | Cec_version x | Deck_control x
  | Deck_status x | Give_deck_status x | Play x | Give_tuner_device_status x
  | Menu_status x | Menu_request x | Report_power_status x | Set_system_audio_mode x
  | System_audio_mode_status x | Set_audio_rate x => is_u8 x
  | Timer_status a b c d e f =>
      is_u8 a ∧ is_u8 b ∧ is_u8 c ∧ is_u8 d ∧ is_u8 e ∧ is_u8 f
  | Clear_analogue_timer t a f b | Set_analogue_timer t a f b =>
      timer_typed t ∧ is_u8 a ∧ is_u16 f ∧ is_u8 b
  | Clear_digital_timer t d | Set_digital_timer t d => timer_typed t ∧ digital_typed d
  | Clear_ext_timer t e p a | Set_ext_timer t e p a =>
      timer_typed t ∧ is_u8 e ∧ is_u8 p ∧ is_u16 a
  | Set_timer_program_title s | Set_osd_name s => c_string s
  | Set_osd_string d s => is_u8 d ∧ c_string s
  | Report_physical_addr a t => is_u16 a ∧ is_u8 t
  | Set_menu_language l => array_typed is_u8 3 l
  | Report_features a b c d => is_u8 a ∧ is_u8 b ∧ is_u8 c ∧ is_u8 d
  | Tuner_device_status t => tuner_info_typed t
  | Select_analogue_service a f b => is_u8 a ∧ is_u16 f ∧ is_u8 b
  | Select_digital_service d => digital_typed d
  | Device_vendor_id v => is_u32 v
  | Vendor_command n c | Vendor_remote_button_down n c =>
      is_u8 n ∧ array_typed is_u8 (clamp 14 n) c
  | Vendor_command_with_id v n c => is_u32 v ∧ is_u8 n ∧ array_typed is_u8 (clamp 11 n) c
  | User_control_pressed c => ui_command_typed c
  | Feature_abort a b | Report_audio_status a b | Cdc_hpd_set_state a b
  | Cdc_hpd_report_state a b => is_u8 a ∧ is_u8 b
  | Report_short_audio_descriptor n ds => is_u8 n ∧ array_typed is_u32 (clamp 4 n) ds
  | Request_short_audio_descriptor n ids codes =>
      is_u8 n ∧ array_typed is_u8 (clamp 4 n) ids ∧ array_typed is_u8 (clamp 4 n) codes
  | Report_current_latency a v l c d =>
      is_u16 a ∧ is_u8 v ∧ is_u8 l ∧ is_u8 c ∧ is_u8 d
  | Cdc_hec_report_state t h o e c f x =>
      is_u16 t ∧ is_u8 h ∧ is_u8 o ∧ is_u8 e ∧ is_u8 c ∧ is_u8 f ∧ is_u16 x
  | Cdc_hec_set_state a b s c d e =>
      is_u16 a ∧ is_u16 b ∧ is_u8 s ∧ is_u16 c ∧ is_u16 d ∧ is_u16 e
  | Cdc_hec_set_state_adjacent a s => is_u16 a ∧ is_u8 s
  | Cdc_hec_request_deactivation a b c => is_u16 a ∧ is_u16 b ∧ is_u16 c
  | _ => True
  end.

(** ** Lengths *)

Definition str_len (s : list Z) : Z := Z.of_nat (default O (strlen s)).

Definition req_len (r : request) : Z :=
  match r with
  | Active_source _ | Inactive_source _ | Routing_information _ | Set_stream_path _
  | Feature_abort _ _ | Request_current_latency _ => 4
  | Routing_change _ _ | Report_features _ _ _ _ | Select_analogue_service _ _ _
  | Cdc_hpd_set_state _ _ | Cdc_hpd_report_state _ _ => 6
  | Record_on s =>
      if rs_type s =? CEC_OP_RECORD_SRC_OWN then 3
      else if rs_type s =? CEC_OP_RECORD_SRC_DIGITAL then 10
      else if rs_type s =? CEC_OP_RECORD_SRC_ANALOG then 7
      else if rs_type s =? CEC_OP_RECORD_SRC_EXT_PLUG then 4
      else 5
  | Record_status _ | Timer_cleared_status _ | Cec_version _ | Deck_control _
  | Deck_status _ | Give_deck_status _ | Play _ | Give_tuner_device_status _
  | Menu_status _ | Menu_request _ | Report_power_status _ | Report_audio_status _ _
  | Set_system_audio_mode _ | System_audio_mode_status _ | Set_audio_rate _ => 3
  | Timer_status _ _ pi pe _ _ =>
      if (pi =? CEC_OP_PROG_INFO_NOT_ENOUGH_SPACE)
         || (pi =? CEC_OP_PROG_INFO_MIGHT_NOT_BE_ENOUGH_SPACE)
         || (pe =? CEC_OP_PROG_ERROR_DUPLICATE) then 5 else 3
  | Clear_analogue_timer _ _ _ _ | Clear_ext_timer _ _ _ _
  | Set_analogue_timer _ _ _ _ | Set_ext_timer _ _ _ _ => 13
  | Clear_digital_timer _ _ | Set_digital_timer _ _ => 16
  | Set_timer_program_title s | Set_osd_name s => 2 + clamp 14 (str_len s)
  | Set_osd_string _ s => 3 + clamp 13 (str_len s)
  | Report_physical_addr _ _ | Set_menu_language _ | Device_vendor_id _
  | Cdc_hec_notify_alive | Cdc_hec_discover => 5
  | Tuner_device_status t => c_cond (ti_is_analog t) 7 10
  | Select_digital_service _ => 9
  | Vendor_command n _ | Vendor_remote_button_down n _ => 2 + clamp 14 n
  | Vendor_command_with_id _ n _ => 5 + clamp 11 n
  | User_control_pressed c =>
      if negb (truth (ui_has_opt_arg c)) then 3
      else if ui_one_byte (ui_cmd c) then 4
      else if ui_cmd c =? 0x67 then 7
      else 3
  | System_audio_mode_request a => if a =? 0xffff then 2 else 4
  | Report_short_audio_descriptor n _ => 2 + clamp 4 n * 3
  | Request_short_audio_descriptor n _ _ => 2 + clamp 4 n
  | Report_current_latency _ _ _ c _ => if c =? 3 then 7 else 6
  | Cdc_hec_inquire_state _ _ => 9
  | Cdc_hec_report_state _ _ _ _ _ f _ => c_cond f 10 8
  | Cdc_hec_set_state _ _ _ p3 p4 p5 =>
      if p3 =? CEC_PHYS_ADDR_INVALID then 10
      else if p4 =? CEC_PHYS_ADDR_INVALID then 12
      else if p5 =? CEC_PHYS_ADDR_INVALID then 14
      else 16
  | Cdc_hec_set_state_adjacent _ _ => 8
  | Cdc_hec_request_deactivation _ _ _ => 11
  | _ => 2
  end.

(** ** Operands that fit the wire format

    A field that the format packs into [k] bits is below [2^k], a BCD field is
    below 160, a variable-length operand fits, and the parts of a union or
    buffer that are not transmitted are zero. *)

Definition channel_canon (u : list Z) : Prop :=
  channel_number_fmt u < 64 ∧ u !!! 1%nat = 0 ∧ channel_major u < 1024.

Definition digital_canon (d : cec_op_digital_service_id) : Prop :=
  ds_dig_bcast_system d < 128
  ∧ ((ds_service_id_method d = 1 ∧ channel_canon (ds_u d))
     ∨ (ds_service_id_method d = 0
        ∧ (is_atsc (ds_dig_bcast_system d) = true → drop 4 (ds_u d) = [0; 0]))).

Definition analog_canon (u : list Z) : Prop :=
  u !!! 1%nat = 0 ∧ drop 5 u = [0; 0; 0].

Definition record_src_canon (s : cec_op_record_src) : Prop :=
  match rs_type s with
  | CEC_OP_RECORD_SRC_OWN => rs_u s = replicate 8 0
  | CEC_OP_RECORD_SRC_DIGITAL => digital_canon (rs_digital s)
  | CEC_OP_RECORD_SRC_ANALOG => analog_canon (rs_u s)
  | CEC_OP_RECORD_SRC_EXT_PLUG => drop 1 (rs_u s) = replicate 7 0
  | CEC_OP_RECORD_SRC_EXT_PHYS_ADDR => drop 2 (rs_u s) = replicate 6 0
  | _ => False
  end.

Definition tuner_info_canon (t : cec_op_tuner_device_info) : Prop :=
  ti_rec_flag t < 2 ∧ ti_tuner_display_info t < 128
  ∧ ((ti_is_analog t = 1 ∧ analog_canon (ti_u t))
     ∨ (ti_is_analog t = 0 ∧ digital_canon (ti_digital t))).

Definition ui_command_canon (c : cec_op_ui_command) : Prop :=
  (ui_has_opt_arg c = 0 ∧ ui_u c = replicate 6 0)
  ∨ (ui_has_opt_arg c = 1 ∧ ui_one_byte (ui_cmd c) = true ∧ drop 1 (ui_u c) = replicate 5 0)
  ∨ (ui_has_opt_arg c = 1 ∧ ui_cmd c = 0x67 ∧ channel_canon (ui_u c)).

Definition timer_canon (t : timer) : Prop :=
  t_start_hr t < 160 ∧ t_start_min t < 160
  ∧ t_duration_hr t < 160 ∧ t_duration_min t < 160.

(** A buffer of [n] bytes that holds a string and then zeros. *)
Definition string_canon (n : nat) (buf : list Z) : Prop :=
  ∃ s, buf = s ++ replicate (n - length s) 0 ∧ (length s < n)%nat
       ∧ Forall (λ c, c ≠ 0) s.

(** An array of 4 whose first [n] elements are below [b], the others zero. *)
Definition array4_canon (b n : Z) (l : list Z) : Prop :=
  n <= 4 ∧ length l = 4%nat ∧ Forall (λ x, x < b) (take (Z.to_nat n) l)
  ∧ drop (Z.to_nat n) l = replicate (4 - Z.to_nat n) 0.

Definition req_canon (r : request) : Prop :=
  match r with
  | Record_on s => record_src_canon s
  | Timer_status w i pi pe h m =>
      w < 2 ∧ i < 4 ∧ pi < 16 ∧ pe < 16 ∧ (pi = 0 ∨ pe = 0) ∧ h < 160 ∧ m < 160
      ∧ (pi = CEC_OP_PROG_INFO_NOT_ENOUGH_SPACE
         ∨ pi = CEC_OP_PROG_INFO_MIGHT_NOT_BE_ENOUGH_SPACE
         ∨ pe = CEC_OP_PROG_ERROR_DUPLICATE ∨ h = 0 ∧ m = 0)
  | Clear_analogue_timer t _ _ _ | Set_analogue_timer t _ _ _
  | Clear_ext_timer t _ _ _ | Set_ext_timer t _ _ _ => timer_canon t
  | Clear_digital_timer t d | Set_digital_timer t d => timer_canon t ∧ digital_canon d
  | Set_timer_program_title s | Set_osd_name s => string_canon 15 s
  | Set_osd_string _ s => string_canon 14 s
  | Set_menu_language l => length l = 4%nat ∧ l !! 3%nat = Some 0
  | Report_features _ _ p _ => p < 128
  | Tuner_device_status t => tuner_info_canon t
  | Select_digital_service d => digital_canon d
  | Device_vendor_id v => v < 16777216
  | Vendor_command n c | Vendor_remote_button_down n c => n <= 14 ∧ Z.of_nat (length c) = n
  | Vendor_command_with_id v n c =>
      v < 16777216 ∧ n <= 11 ∧ Z.of_nat (length c) = n
  | User_control_pressed c => ui_command_canon c
  | Report_audio_status u v => u < 2 ∧ v < 128
  | Report_short_audio_descriptor n ds => array4_canon 16777216 n ds
  | Request_short_audio_descriptor n ids codes =>
      array4_canon 4 n ids ∧ array4_canon 64 n codes
  | Report_current_latency _ _ l c d => l < 2 ∧ c < 4 ∧ (c = 3 ∨ d = 0)
  | Cdc_hec_report_state _ h o e c f x =>
      h < 4 ∧ o < 4 ∧ e < 4 ∧ c < 4 ∧ (f = 1 ∨ f = 0 ∧ x = 0)
  | Cdc_hpd_set_state a b | Cdc_hpd_report_state a b => a < 16 ∧ b < 16
  | _ => True
  end.

(** ** What the parsers make of a message that was sent

    Three things are not received as they were sent. The parsers shift the upper two bits
    of a channel's [major] number by 6 where the constructors put them at 8,
    [cec_ops_cdc_hec_report_state] returns [host_func_state] for [enc_func_state], and
    [Cdc_hec_set_state] is sent with the sub-opcode of [Cdc_hec_inquire_state]. *)

Definition channel_received (u : list Z) : list Z :=
  match u with
  | [f; pad; lo; hi; mlo; mhi] => [f; pad; (hi << 6) .| lo; 0; mlo; mhi]
  | _ => u
  end.

Definition digital_received (d : cec_op_digital_service_id) : cec_op_digital_service_id :=
  if ds_service_id_method d =? 1 then
    Digital (ds_service_id_method d) (ds_dig_bcast_system d) (channel_received (ds_u d))
  else d.

(** A digital service in the bytes of a union. *)
Definition digital_bytes_received (u : list Z) : list Z :=
  match u with
  | k :: s :: u' => if k =? 1 then k :: s :: channel_received u' else u
  | _ => u
  end.

Definition received (r : request) : request :=
  match r with
  | Record_on s =>
      if rs_type s =? CEC_OP_RECORD_SRC_DIGITAL
      then Record_on (Record_src (rs_type s) (digital_bytes_received (rs_u s))) else r
  | Clear_digital_timer t d => Clear_digital_timer t (digital_received d)
  | Set_digital_timer t d => Set_digital_timer t (digital_received d)
  | Tuner_device_status t =>
      if truth (ti_is_analog t) then r
      else Tuner_device_status (Tuner_info (ti_rec_flag t) (ti_tuner_display_info t) (ti_is_analog t)
                                  (digital_bytes_received (ti_u t)))
  | Select_digital_service d => Select_digital_service (digital_received d)
  | User_control_pressed c =>
      if truth (ui_has_opt_arg c) && (ui_cmd c =? 0x67)
      then User_control_pressed (Ui_command (ui_cmd c) (ui_has_opt_arg c) (channel_received (ui_u c))) else r
  | Cdc_hec_report_state t h o _ c f x => Cdc_hec_report_state t h o o c f x
  | Cdc_hec_set_state a b _ _ _ _ => Cdc_hec_inquire_state a b
  | _ => r
  end.

(** The messages that are received as they were sent. *)
Definition digital_intact (d : cec_op_digital_service_id) : Prop :=
  ds_service_id_method d = 1 → channel_major (ds_u d) < 256.

Definition req_intact (r : request) : Prop :=
  match r with
  | Record_on s => rs_type s = CEC_OP_RECORD_SRC_DIGITAL → digital_intact (rs_digital s)
  | Clear_digital_timer _ d | Set_digital_timer _ d | Select_digital_service d => digital_intact d
  | Tuner_device_status t => ti_is_analog t = 0 → digital_intact (ti_digital t)
  | User_control_pressed c =>
      ui_has_opt_arg c ≠ 0 → ui_cmd c = 0x67 → channel_major (ui_u c) < 256
  | Cdc_hec_report_state _ _ o e _ _ _ => e = o
  | Cdc_hec_set_state _ _ _ _ _ _ => False
  | _ => True
  end.
