(* ===== verification/CecAuto.v ===== *)
(** What a sent CEC message must look like ([sent]) and the symbolic execution
    of the message functions that the proofs about them share. *)
From stdpp Require Import base numbers list.
From Stdlib Require Import ZArith Lia.
From S2P Require Import Prelude CecConsts Cec CecFuncs CecProtocol.

(** * Well-formed messages *)

(** A value of type [struct cec_msg]: 16 payload bytes, fields in range. *)
Record cec_msg_wf (m : cec_msg) : Prop := {
  wf_length : length (cm_msg m) = CEC_MAX_MSG_SIZE;
  wf_bytes : Forall is_u8 (cm_msg m);
  wf_len : is_u32 (cm_len m);
  wf_reply : is_u8 (cm_reply m)
}.

(** [m'] differs from [m] at most in the fields the constructors assign. *)
Definition same_rest (m m' : cec_msg) : Prop :=
  m' = upd m (cm_len m') (cm_timeout m) (cm_msg m') (cm_reply m').

(** What holds of the message [m'] that [cec_send reply r] makes of [m]. *)
Record sent (reply : Z) (r : request) (m m' : cec_msg) : Prop := Sent {
  sent_wf : cec_msg_wf m';
  sent_rest : same_rest m m';
  sent_len : req_known r → cm_len m' = req_len r;
  sent_opcode : req_known r → cm_msg m' !! 1%nat = Some (req_opcode r);
  sent_first : cm_msg m' !! 0%nat =
    (λ b, if req_broadcast r then u8 (b .| 0xf) else b) <$> cm_msg m !! 0%nat;
  sent_reply : cm_reply m' =
    match req_reply r with Some o => c_cond reply o 0 | None => cm_reply m end;
  sent_recv : req_canon r → cec_recv m' = Some (Some (received r))
}.

(** * Symbolic execution

    The functions touch the message at constant offsets, so running one on 16
    symbolic bytes leaves 16 expressions; only integer operators stay. *)

Ltac symex :=
  lazy -[u8 u16 u32 Z.land Z.lor Z.shiftl Z.shiftr Z.add Z.mul Z.sub Z.div Z.modulo
         Z.eqb Z.ltb Z.leb truth c_cond bcd clamp Z.to_nat Z.of_nat
         is_u8 is_u16 is_u32 not Z.lt Z.le Z.opp cec_recv
         strlen memcpy_to memcpy_from for_loop for_fold is_atsc ui_one_byte].

Ltac symex_lit :=
  lazy -[u8 u16 Z.land Z.lor Z.shiftl Z.shiftr Z.eqb is_u8 is_u16 is_u32 not Z.lt Z.le cec_recv].

Ltac symex_recv :=
  lazy -[u8 u16 u32 Z.land Z.lor Z.shiftl Z.shiftr Z.add Z.mul Z.sub Z.div Z.modulo
         Z.eqb Z.ltb Z.leb truth c_cond bcd clamp Z.to_nat Z.of_nat
         is_u8 is_u16 is_u32 not Z.lt Z.le Z.opp
         memcpy_to memcpy_from for_loop for_fold is_atsc ui_one_byte].

Lemma list_16 {A} (l : list A) :
  length l = 16%nat →
  ∃ a0 a1 a2 a3 a4 a5 a6 a7 a8 a9 a10 a11 a12 a13 a14 a15,
    l = [a0; a1; a2; a3; a4; a5; a6; a7; a8; a9; a10; a11; a12; a13; a14; a15].
Proof.
  intros. do 16 (destruct l as [|? l]; [discriminate|]).
  destruct l; [|discriminate]. by repeat eexists.
Qed.

(** Opens a well-formed message into its fields and its 16 bytes. *)
Ltac open_msg m :=
  match goal with
  | H : cec_msg_wf m |- _ =>
      let H1 := fresh in let H2 := fresh in
      destruct H as [H1 H2 ? ?];
      let n := fresh "n" in let rep := fresh "rep" in let l := fresh "l" in
      let f1 := fresh "f" in let f2 := fresh "f" in let f3 := fresh "f" in
      let f4 := fresh "f" in let f5 := fresh "f" in let f6 := fresh "f" in
      let f7 := fresh "f" in let f8 := fresh "f" in let f9 := fresh "f" in
      let f10 := fresh "f" in let f11 := fresh "f" in
      destruct m as [f1 f2 n f3 f4 f5 l rep f6 f7 f8 f9 f10 f11]; cbn in *;
      apply list_16 in H1; destruct H1 as (?&?&?&?&?&?&?&?&?&?&?&?&?&?&?&?&->)
  end; forall_inv.

Lemma c_cond_u8 c o : is_u8 o → u8 (c_cond c o 0) = c_cond c o 0.
Proof. intros. apply u8_id. unfold c_cond. case_match; [done|]. unfold_range; lia. Qed.

Lemma c_cond_range c o : is_u8 o → is_u8 (c_cond c o 0).
Proof. intros. unfold c_cond. case_match; [done|]. unfold_range; lia. Qed.

#[export] Hint Rewrite c_cond_u8 using range : c_arith.
#[export] Hint Resolve c_cond_range : c_range.

(** The BCD encoding of an hour or a minute is exact below 160. *)
Lemma bcd_roundtrip x :
  0 <= x < 160 → u8 ((u8 (bcd x) >> 4) * 10 + (u8 (bcd x) .& 0xf)) = x.
Proof. intros. unfold bcd. bits. Qed.
#[export] Hint Rewrite bcd_roundtrip using range : c_arith.

(** Two fields in one byte, the upper one of one bit. *)
Lemma pack7_hi a b : 0 <= a < 2 → 0 <= b < 128 → u8 (u8 ((a << 7) .| b) >> 7) = a.
Proof. intros. bits. Qed.
Lemma pack7_lo a b : 0 <= a < 2 → 0 <= b < 128 → u8 (u8 ((a << 7) .| b) .& 127) = b.
Proof. intros. bits. Qed.

Lemma pack7_hi_wide a b : 0 <= a < 2 → 0 <= b < 128 → u8 (((a << 7) .| b) >> 7) = a.
Proof. intros. bits. Qed.
Lemma pack7_lo_wide a b : 0 <= a < 2 → 0 <= b < 128 → u8 (((a << 7) .| b) .& 127) = b.
Proof. intros. bits. Qed.

(** The latency byte and the HEC state byte. *)
Lemma latency_low l c : 0 <= l < 2 → 0 <= c < 4 → u8 ((u8 ((l << 2) .| c) >> 2) .& 1) = l.
Proof. intros. bits. Qed.
Lemma latency_comp l c : 0 <= l < 2 → 0 <= c < 4 → u8 (u8 ((l << 2) .| c) .& 3) = c.
Proof. intros. bits. Qed.

Lemma feat_ext_clear p : 0 <= p < 128 → p .& 128 = 0.
Proof. intros. bits. Qed.

(** A channel number as the parsers decode it: the upper bits of [major] come back two places lower. *)
Lemma channel_fmt_roundtrip f c d :
  0 <= f < 64 → is_u8 c → 0 <= d < 4 →
  u8 (u8 ((f << 2) .| ((c .| (d << 8)) >> 8)) >> 2) = f.
Proof. intros. rewrite (Z.lor_comm c). bits. Qed.
Lemma channel_major_received f c d :
  0 <= f < 64 → is_u8 c → 0 <= d < 4 →
  ((u8 ((f << 2) .| ((c .| (d << 8)) >> 8)) .& 3) << 6) .| c = (d << 6) .| c.
Proof. intros. rewrite (Z.lor_comm c). f_equal. bits. Qed.
Lemma channel_major_bytes c d :
  is_u8 c → 0 <= d < 4 → u8 (((d << 6) .| c) .& 255) = (d << 6) .| c ∧ u8 (((d << 6) .| c) >> 8) = 0.
Proof.
  intros. assert (is_u8 ((d << 6) .| c)) as H1 by (apply or_u8; [bits|done]).
  revert H1. generalize ((d << 6) .| c). intros z Hz. split; bits.
Qed.
Lemma channel_major_low c d : is_u8 c → 0 <= d < 4 → u8 (((d << 6) .| c) .& 255) = (d << 6) .| c.
Proof. intros. by apply channel_major_bytes. Qed.
Lemma channel_major_high c d : is_u8 c → 0 <= d < 4 → u8 (((d << 6) .| c) >> 8) = 0.
Proof. intros. by apply channel_major_bytes. Qed.

#[export] Hint Rewrite pack7_hi pack7_lo pack7_hi_wide pack7_lo_wide feat_ext_clear latency_low latency_comp
  channel_fmt_roundtrip channel_major_received channel_major_low channel_major_high using range : c_arith.

Lemma cec_recv_parse m op :
  1 < cm_len m → cm_msg m !! 1%nat = Some op → cec_recv m = cec_parse op m.
Proof.
  intros Hlen Hop. unfold cec_recv, cec_msg_opcode, get, mbind, R_bind, asks.
  apply Z.ltb_lt in Hlen as ->. by rewrite Hop.
Qed.

Ltac byte_list := repeat (apply Forall_cons; split); [range..|by apply Forall_nil].

Ltac recv_step := symex_recv; ground; autorewrite with c_arith; ground; use_conds.

Ltac recv_done :=
  erewrite cec_recv_parse; [|cbn; lia|reflexivity];
  do 5 (try recv_step; try reflexivity); symex_recv; try reflexivity.

(** Closes the goal that two messages have the same operands. *)
Ltac fields := repeat f_equal; try reflexivity; bits.

Ltac solve_sent_with tac :=
  apply Sent; cbn [cm_msg cm_len cm_reply];
  [ constructor; cbn; [reflexivity|byte_list|range|range]
  | reflexivity
  | intros _; first [reflexivity | cbn; unfold c_cond; use_conds; reflexivity | idtac]
  | intros _; reflexivity
  | reflexivity
  | try reflexivity
  | intros Hcanon; cbn in Hcanon; unfold timer_canon in Hcanon; cbn in Hcanon;
    and_inv; tac ].

Ltac solve_sent := solve_sent_with recv_done.

Ltac run_send := do 2 (symex; ground; use_conds); rewrite ?c_cond_u8 by range.

(** * Operands of variable length *)

Lemma strlen_length buf n : strlen buf = Some n → (n < length buf)%nat.
Proof.
  revert n. induction buf as [|c buf IH]; intros n; cbn; [done|].
  case_match; [intros [= <-]; lia|].
  intros (n' & H' & ->)%fmap_Some. apply IH in H'. lia.
Qed.

Lemma strlen_nul s r : Forall (λ c, c ≠ 0) s → strlen (s ++ 0 :: r) = Some (length s).
Proof.
  induction 1 as [|c s Hc%Z.eqb_neq _ IH]; cbn; [done|]. by rewrite Hc, IH.
Qed.

Lemma string_canon_strlen n buf :
  string_canon n buf → ∃ s, strlen buf = Some (length s) ∧ (length s < n)%nat
    ∧ buf = s ++ replicate (n - length s) 0.
Proof.
  intros (s & -> & Hn & Hs). exists s. split; [|done].
  replace (n - length s)%nat with (S (n - length s - 1)) by lia. by apply strlen_nul.
Qed.

Lemma clamp_range max n : 0 <= max → 0 <= n → 0 <= clamp max n <= max.
Proof. unfold clamp. case_match; lia. Qed.
Lemma clamp_id max n : n <= max → clamp max n = n.
Proof. unfold clamp. case_match; lia. Qed.

(** [n] bytes of [src] copied over the start of [l]. *)
Definition payload (n : nat) (src l : list Z) : list Z := take n src ++ drop n l.

Section payload.
Context (n : nat) (src l : list Z) (Hsrc : (n ≤ length src)%nat).

Lemma payload_length : (n ≤ length l)%nat → length (payload n src l) = length l.
Proof. intros. unfold payload. rewrite length_app, length_take, length_drop. lia. Qed.

Lemma payload_bytes : Forall is_u8 src → Forall is_u8 l → Forall is_u8 (payload n src l).
Proof. intros. apply Forall_app_2; auto using Forall_take, Forall_drop. Qed.

Lemma payload_read : take n (payload n src l) = take n src.
Proof. unfold payload. by rewrite take_app_length' by (rewrite length_take; lia). Qed.
End payload.

Lemma memcpy_to_run off n src m :
  length (cm_msg m) = 16%nat → (n ≤ length src)%nat → (off + n ≤ 16)%nat →
  memcpy_to off src n m =
    Some (tt, upd m (cm_len m) (cm_timeout m)
                (take off (cm_msg m) ++ payload n src (drop off (cm_msg m))) (cm_reply m)).
Proof.
  intros Hl Hn Hoff. unfold memcpy_to, payload. rewrite Hl, drop_drop.
  by rewrite (proj2 (Nat.leb_le _ _) Hn), (proj2 (Nat.leb_le _ _) Hoff).
Qed.

Lemma memcpy_from_run off n src l dst m :
  drop off (cm_msg m) = payload n src l → (n ≤ length src)%nat → (n ≤ length dst)%nat →
  (off + n ≤ length (cm_msg m))%nat →
  memcpy_from dst off n m = Some (take n src ++ drop n dst).
Proof.
  intros E Hs Hd Hoff. unfold memcpy_from. rewrite E, payload_read by done.
  by rewrite (proj2 (Nat.leb_le _ _) Hd), (proj2 (Nat.leb_le _ _) Hoff).
Qed.

Ltac symex_copy :=
  lazy -[u8 u16 u32 Z.land Z.lor Z.shiftl Z.shiftr Z.add Z.mul Z.sub is_u8 is_u16 is_u32
         not Z.lt Z.le clamp Z.to_nat Z.of_nat Z.ltb payload take strlen memcpy_from store replicate].

Ltac run_copy :=
  rewrite memcpy_to_run by (cbn; (reflexivity || lia)); rewrite ?u32_id by range;
  lazy -[u8 u16 u32 Z.land Z.lor Z.shiftl Z.shiftr Z.add Z.mul Z.sub is_u8 is_u16 is_u32
         not Z.lt Z.le clamp Z.to_nat Z.of_nat payload cec_recv strlen].

(** As [solve_sent_with] for a message that ends in a payload of [z] bytes. *)
Ltac solve_payload tac :=
  apply Sent; cbn [cm_msg cm_len cm_reply];
  [ constructor;
    [ cbn; rewrite payload_length; [reflexivity|lia|cbn; lia]
    | cbn; repeat (apply Forall_cons; split); [range..|apply payload_bytes; [done|byte_list]]
    | cbn; range
    | cbn; range ]
  | reflexivity
  | intros _; try reflexivity
  | intros _; reflexivity
  | reflexivity
  | reflexivity
  | intros Hcanon; cbn [req_canon] in Hcanon; and_inv;
    erewrite cec_recv_parse; [|cbn; lia|reflexivity]; tac ].

Lemma payload_size off max z :
  0 <= off <= 5 → 0 <= z <= max → max <= 14 → clamp max (u8 (u32 (off + z - off))) = z.
Proof.
  intros. rewrite Z.add_simpl_l, u32_id, u8_id by range. apply clamp_id. lia.
Qed.

Lemma payload_whole n src l : length src = n → take n (payload n src l) = src.
Proof. intros <-. rewrite payload_read by done. by rewrite take_ge. Qed.

Lemma string_clamp max s k :
  strlen s = Some k → 0 <= max →
  0 <= clamp max (Z.of_nat k) <= max
  ∧ (Z.to_nat (clamp max (Z.of_nat k)) ≤ length s)%nat.
Proof.
  intros Hk%strlen_length Hm. split; [apply clamp_range; lia|].
  unfold clamp. case_match; lia.
Qed.

Lemma string_size off max z :
  0 <= z <= max → clamp max (if off <? off + z then off + z - off else 0) = z.
Proof.
  intros. rewrite Z.add_simpl_l. destruct (Z.ltb_spec off (off + z)); rewrite clamp_id; lia.
Qed.

Lemma store_run {S} i x dst (s : S) :
  (i < length dst)%nat → store i x dst s = Some (<[i := x]> dst).
Proof. intros. unfold store. by rewrite (proj2 (Nat.ltb_lt _ _)). Qed.

(** What a parser writes into a zeroed buffer when the payload is a string. *)
Lemma string_store cap buf k :
  string_canon cap buf → strlen buf = Some k →
  (k < cap)%nat ∧ <[k := 0]> (take k buf ++ drop k (replicate cap 0)) = buf.
Proof.
  intros (s & Hs & Hlt & E)%string_canon_strlen Hk. rewrite Hk in Hs. injection Hs as ->.
  split; [done|]. rewrite E at 1. rewrite take_app_length, drop_replicate.
  rewrite insert_app_r_alt, Nat.sub_diag, insert_replicate by lia. done.
Qed.

Ltac recv_string k Hk :=
  rewrite string_size by lia;
  lazymatch goal with
  | H : string_canon _ _ |- _ =>
      let H1 := fresh in let H2 := fresh in
      destruct (string_store _ _ _ H Hk) as [H1 H2]; pose proof (strlen_length _ _ Hk);
      rewrite clamp_id, Nat2Z.id by lia;
      erewrite memcpy_from_run;
      [|reflexivity|lia|rewrite length_replicate; lia
       |cbn; rewrite payload_length; cbn; lia];
      rewrite store_run, H2 by (rewrite length_app, length_take, length_drop, length_replicate; lia)
  end.

Lemma clamp4_cases n :
  is_u8 n → clamp 4 n = 0 ∨ clamp 4 n = 1 ∨ clamp 4 n = 2 ∨ clamp 4 n = 3 ∨ clamp 4 n = 4.
Proof. intros. pose proof (clamp_range 4 n ltac:(done) ltac:(range)). lia. Qed.

(** Opens the elements a list is known to have. *)
Ltac open_prefix l :=
  repeat match goal with
  | H : (Z.to_nat ?z ≤ length l)%nat |- _ =>
      let k := eval compute in (Z.to_nat z) in change (Z.to_nat z) with k in H
  | H : (S _ ≤ length l)%nat |- _ =>
      let x := fresh "d" in destruct l as [|x l]; [exfalso; cbn in H; lia|];
      cbn [length] in H; apply le_S_n in H
  end.

Lemma be24_join_mask x :
  0 <= x < 16777216 →
  u32 ((u8 ((x >> 16) .& 255) << 16) .| (u8 ((x >> 8) .& 255) << 8) .| u8 (x .& 255)) = x.
Proof. intros. bits. Qed.
Lemma pack6_hi a b : 0 <= a < 4 → 0 <= b < 64 → u8 (u8 ((a << 6) .| (b .& 63)) >> 6) = a.
Proof. intros. bits. Qed.
Lemma pack6_lo a b : 0 <= a < 4 → 0 <= b < 64 → u8 (u8 ((a << 6) .| (b .& 63)) .& 63) = b.
Proof. intros. bits. Qed.
#[export] Hint Rewrite be24_join_mask pack6_hi pack6_lo using range : c_arith.

(** With [E : clamp 4 n = k], what [array4_canon] says of arrays of [n]. *)
Ltac array_inv E :=
  unfold array4_canon in *; and_inv;
  rewrite clamp_id in E by done; subst;
  repeat match goal with
  | H : context [Z.to_nat ?z] |- _ =>
      is_lit z; let k := eval compute in (Z.to_nat z) in change (Z.to_nat z) with k in H
  end; cbn in *;
  repeat match goal with H : drop 0 _ = _ |- _ => rewrite drop_0 in H end; forall_inv; simplify_eq.

Ltac ground_clamp :=
  repeat match goal with
  | |- context [clamp ?a ?b] =>
      is_lit a; is_lit b; let v := eval vm_compute in (clamp a b) in change (clamp a b) with v
  end; ground.

Ltac recv_array :=
  erewrite cec_recv_parse; [|cbn; lia|reflexivity];
  symex_recv; ground; ground_clamp; unfold for_fold; recv_step; symex_recv; try reflexivity.

(** * A concrete message *)

Lemma cec_msg_zero_wf : cec_msg_wf cec_msg_zero.
Proof. constructor; [reflexivity|apply Forall_replicate; range|cbn; range|cbn; range]. Qed.
