(* ===== verification/CecRecv.v ===== *)
(** Every parser of [linux/cec-funcs.h] is memory safe on every message, however
    short, long or malformed it is, and returns operands of their C types. *)
From stdpp Require Import base numbers list.
From Stdlib Require Import ZArith Lia.
From S2P Require Import Prelude CecConsts Cec CecFuncs CecProtocol CecAuto.

(** * Specifications of readers

    [rok p Q m]: [p] reads [m] without undefined behaviour and returns a value
    in [Q]. *)

Definition rok {A} (p : R cec_msg A) (Q : A → Prop) (m : cec_msg) : Prop :=
  match p m with
  | Some a => Q a
  | None => False
  end.

Create HintDb cec_rok.

Section rules.
Context (m : cec_msg) (Hwf : cec_msg_wf m).

Lemma rok_ret {A} (a : A) (Q : A → Prop) : Q a → rok (mret a) Q m.
Proof. done. Qed.

Lemma rok_bind {A B} (p : R cec_msg A) (k : A → R cec_msg B) P Q :
  rok p P m → (∀ a, P a → rok (k a) Q m) → rok (p ≫= k) Q m.
Proof. unfold rok, mbind, R_bind. destruct (p m); naive_solver. Qed.

Lemma rok_assoc {A B C} (p : R cec_msg A) (k : A → R cec_msg B) (k' : B → R cec_msg C) Q :
  rok ((p ≫= k) ≫= k') Q m → rok (p ≫= λ a, k a ≫= k') Q m.
Proof. unfold rok, mbind, R_bind. by destruct (p m). Qed.

Lemma rok_flat {A B C} (p : R cec_msg A) (k : A → R cec_msg B) (k' : B → R cec_msg C) Q :
  rok (p ≫= λ a, k a ≫= k') Q m → rok ((p ≫= k) ≫= k') Q m.
Proof. unfold rok, mbind, R_bind. by destruct (p m). Qed.

Lemma rok_ret_bind {A B} (a : A) (k : A → R cec_msg B) Q :
  rok (k a) Q m → rok (mret a ≫= k) Q m.
Proof. done. Qed.

Lemma rok_mono {A} (p : R cec_msg A) (P Q : A → Prop) :
  rok p P m → (∀ a, P a → Q a) → rok p Q m.
Proof. unfold rok. destruct (p m); naive_solver. Qed.

Lemma rok_get i : (i < 16)%nat → rok (get i) is_u8 m.
Proof.
  intros Hi. destruct Hwf as [Hl Hb _ _]. unfold rok, get.
  destruct (lookup_lt_is_Some_2 (cm_msg m) i) as [b Eb]; [by rewrite Hl|].
  rewrite Eb. by eapply Forall_lookup_1.
Qed.

Lemma rok_len : rok (asks cm_len) is_u32 m.
Proof. apply Hwf. Qed.

Lemma rok_be16 i : (S i < 16)%nat → rok (get_be16 i) is_u16 m.
Proof.
  intros. eapply rok_bind; [apply rok_get; lia|intros].
  eapply rok_bind; [apply rok_get; lia|intros]. apply u16_range.
Qed.

Lemma rok_be24 i : (S (S i) < 16)%nat → rok (get_be24 i) is_u32 m.
Proof.
  intros. do 3 (eapply rok_bind; [apply rok_get; lia|intros]). apply u32_range.
Qed.

Lemma rok_bcd i : (i < 16)%nat → rok (get_bcd i) is_u8 m.
Proof. intros. eapply rok_bind; [by apply rok_get|intros]. apply u8_range. Qed.

Lemma rok_memcpy_from dst off n :
  (n ≤ length dst)%nat → (off + n ≤ 16)%nat → Forall is_u8 dst →
  rok (memcpy_from dst off n) (λ l, length l = length dst ∧ Forall is_u8 l) m.
Proof.
  intros Hn Hoff Hd. destruct Hwf as [Hl Hb _ _]. unfold rok, memcpy_from.
  rewrite Hl, (proj2 (Nat.leb_le _ _) Hn), (proj2 (Nat.leb_le _ _) Hoff). cbn. split.
  - rewrite length_app, length_take, !length_drop, Hl. lia.
  - apply Forall_app_2; auto using Forall_take, Forall_drop.
Qed.

Lemma rok_store P i x dst :
  (i < length dst)%nat → P x → Forall P dst →
  rok (store i x dst)
    (λ l, length l = length dst ∧ Forall P l ∧ l !! i = Some x) m.
Proof.
  intros Hi Hx Hd. unfold rok. rewrite store_run by done. rewrite length_insert.
  split_and!; [done|by apply Forall_insert|by apply list_lookup_insert_eq].
Qed.

Lemma rok_for_fold {A} (body : nat → A → R cec_msg A) (P : A → Prop) n : ∀ i acc,
  P acc → (∀ j acc, (i ≤ j < i + n)%nat → P acc → rok (body j acc) P m) →
  rok (for_fold i n body acc) P m.
Proof.
  induction n as [|n IH]; intros i acc Ha Hb; [done|].
  eapply rok_bind; [apply Hb; [lia|done]|]. cbn. intros acc' Ha'.
  apply IH; [done|]. intros. apply Hb; [lia|done].
Qed.

Lemma rok_skip_ext fuel : ∀ p lim,
  (p ≤ lim)%nat → (lim ≤ 16)%nat →
  rok (skip_ext fuel p lim) (λ q, (p ≤ q ≤ lim)%nat) m.
Proof.
  induction fuel as [|fuel IH]; intros p lim Hp Hl; cbn [skip_ext];
    [by apply rok_ret|].
  destruct (Nat.ltb_spec p lim) as [Hlt|]; [|apply rok_ret; cbn beta; lia].
  eapply rok_bind; [apply rok_get; lia|intros b _].
  destruct (truth _); [|apply rok_ret; cbn beta; lia].
  eapply rok_mono; [apply IH; lia|]. cbn. lia.
Qed.
End rules.

#[export] Hint Resolve rok_get rok_len rok_be16 rok_be24 rok_bcd : cec_rok.

(** Runs a parser rule by rule; what stays are facts on the values returned. *)
Ltac rok_step :=
  lazymatch goal with
  | |- rok (mret _) _ _ => apply rok_ret
  | |- rok (mbind _ (mbind _ _)) _ _ => apply rok_flat; cbn beta
  | |- rok (mbind _ (mret _)) _ _ => apply rok_ret_bind; cbn beta iota
  | |- rok (mbind _ (if ?b then _ else _)) _ _ => destruct b eqn:?
  | |- rok (mbind _ _) _ _ =>
      eapply rok_bind; [solve [eauto with cec_rok lia]|intros ? ?; cbn beta]
  | |- rok (if ?b then _ else _) _ _ => destruct b eqn:?
  | |- rok (let '(_, _) := ?x in _) _ _ => destruct x; cbn in *; and_inv
  | |- rok _ _ _ => eapply rok_mono; [solve [eauto with cec_rok lia]|intros ? ?; cbn beta]
  end.

Ltac rok_run := repeat rok_step; rewrite ?andb_true_iff; split_and?; try done; try range.

(** * The structured operands *)

Lemma st8_bytes o x b : Forall is_u8 b → Forall is_u8 (st8 o x b).
Proof. intros. apply Forall_insert; auto with c_range. Qed.
Lemma st16_bytes o x b : Forall is_u8 b → Forall is_u8 (st16 o x b).
Proof. intros. repeat apply Forall_insert; auto with c_range. Qed.
Lemma st8_length o x b : length (st8 o x b) = length b.
Proof. apply length_insert. Qed.
Lemma st16_length o x b : length (st16 o x b) = length b.
Proof. unfold st16. by rewrite !length_insert. Qed.

#[export] Hint Resolve st8_bytes st16_bytes : cec_rok.

(** Eight bytes of a union that hold a digital service, and back. *)
Lemma digital_view u :
  length u = 8%nat → Forall is_u8 u → digital_typed (Digital (ld8 u 0) (ld8 u 1) (drop 2 u)).
Proof. intros Hl Hb. open_list u. forall_inv. unfold digital_typed, ld8; cbn; auto 10. Qed.

Lemma digital_length d :
  digital_typed d → S (S (length (ds_u d))) = 8%nat.
Proof. intros (_ & _ & Hl & _). by rewrite Hl. Qed.
Lemma digital_bytes d :
  digital_typed d → Forall is_u8 (ds_service_id_method d :: ds_dig_bcast_system d :: ds_u d).
Proof. intros (? & ? & _ & ?). auto. Qed.

#[export] Hint Resolve digital_view digital_length digital_bytes : cec_rok.

Ltac rok_fin :=
  cbn; repeat (rewrite st16_length || rewrite st8_length);
  split_and?; try done; eauto with c_range cec_rok.

Section operands.
Context (m : cec_msg) (Hwf : cec_msg_wf m).

Lemma rok_get_timer : rok get_timer timer_typed m.
Proof. unfold get_timer, timer_typed. rok_run. Qed.

Lemma rok_digital base d :
  (base + 6 < 16)%nat → digital_typed d →
  rok (cec_get_digital_service_id base d) digital_typed m.
Proof.
  intros Hb (_ & _ & Hl & Hu). unfold cec_get_digital_service_id, digital_typed.
  rok_run; rok_fin.
Qed.
#[local] Hint Resolve rok_digital : cec_rok.

Lemma rok_record_on s :
  record_src_typed s → rok (cec_ops_record_on s) record_src_typed m.
Proof.
  intros (_ & Hl & Hb). pose proof (digital_view _ Hl Hb) as Hd.
  unfold cec_ops_record_on, record_src_typed, rs_digital in *.
  rok_run; rok_fin.
Qed.

Lemma rok_tuner t :
  tuner_info_typed t → rok (cec_ops_tuner_device_status t) tuner_info_typed m.
Proof.
  intros (_ & _ & _ & Hl & Hb). pose proof (digital_view _ Hl Hb) as Hd.
  unfold cec_ops_tuner_device_status, tuner_info_typed, ti_digital in *.
  rok_run; rok_fin.
Qed.

Lemma rok_ui_command c :
  ui_command_typed c → rok (cec_ops_user_control_pressed c) ui_command_typed m.
Proof.
  intros (_ & _ & Hl & Hb). unfold cec_ops_user_control_pressed, ui_command_typed.
  rok_run; rok_fin.
Qed.

(** A buffer is a NUL-terminated string after the parser's stores. *)
Lemma strlen_Some i buf : buf !! i = Some 0 → is_Some (strlen buf).
Proof.
  revert i. induction buf as [|c buf IH]; intros i Hi; [done|]. cbn.
  destruct (Z.eqb_spec c 0); [done|]. destruct i as [|i]; [by injection Hi|].
  destruct (IH i Hi) as [k ->]. done.
Qed.

Lemma rok_string off max len cap :
  0 <= len → (off + Z.to_nat max ≤ 16)%nat → 0 <= max → (Z.to_nat max < cap)%nat →
  rok (s ← memcpy_from (replicate cap 0) off (Z.to_nat (clamp max len));
       store (Z.to_nat (clamp max len)) 0 s) c_string m.
Proof.
  intros Hlen Hoff Hmax Hcap. pose proof (clamp_range max len Hmax Hlen).
  eapply rok_bind.
  { apply rok_memcpy_from; [done|rewrite length_replicate; lia|lia|].
    apply Forall_replicate. range. }
  rewrite length_replicate. intros l [Hl Hb].
  eapply rok_mono; [apply (rok_store _ is_u8); [lia|range|done]|].
  intros l' (_ & Hb' & Hi). split; [done|]. by eapply strlen_Some.
Qed.

Lemma rok_set_osd_name : rok (cec_ops_set_osd_name (replicate 15 0)) c_string m.
Proof.
  unfold cec_ops_set_osd_name. rok_step. apply rok_string; [|lia..].
  case_match; [|lia]. unfold_range; lia.
Qed.

Lemma rok_set_timer_program_title :
  rok (cec_ops_set_timer_program_title (replicate 15 0)) c_string m.
Proof. exact rok_set_osd_name. Qed.

Lemma rok_set_osd_string :
  rok (cec_ops_set_osd_string (replicate 14 0)) (λ o, is_u8 o.1 ∧ c_string o.2) m.
Proof.
  unfold cec_ops_set_osd_string. do 2 rok_step.
  apply rok_assoc. eapply rok_bind; [apply rok_string; [|lia..]|].
  - case_match; [|lia]. unfold_range; lia.
  - intros s Hs. by apply rok_ret.
Qed.

Lemma rok_set_menu_language :
  rok (cec_ops_set_menu_language (replicate 4 0)) (array_typed is_u8 3) m.
Proof.
  unfold cec_ops_set_menu_language.
  eapply rok_bind; [apply rok_memcpy_from; [done|cbn; lia|lia|apply Forall_replicate; range]|].
  intros l [Hl Hb]. cbn in Hl.
  eapply rok_mono; [apply (rok_store _ is_u8); [lia|range|done]|].
  intros l' (Hl' & Hb' & _). split; [|done]. rewrite Hl', Hl. by vm_compute; lia.
Qed.

Lemma rok_report_features :
  rok cec_ops_report_features
    (λ '(v, a, rc, dev), is_u8 v ∧ is_u8 a ∧ (∀ o, rc = Some o → (o < 16)%nat)
                         ∧ (∀ o, dev = Some o → (o < 16)%nat)) m.
Proof.
  unfold cec_ops_report_features. do 2 rok_step.
  eapply rok_bind; [apply rok_skip_ext; [done|lia|lia]|]. cbn beta. intros p Hp.
  rok_step.
  eapply (rok_bind _ _ _ (λ pd, (pd.1 < 16)%nat ∧ ∀ o, pd.2 = Some o → (o < 16)%nat)).
  { destruct (negb _); [|apply rok_ret; cbn; split; [lia|done]].
    eapply rok_bind; [apply rok_skip_ext; [done|lia|lia]|]. cbn beta. intros q Hq.
    apply rok_ret. cbn. split; [lia|]. intros ? [= <-]. lia. }
  intros [q dev] [Hq Hdev]. cbn in Hq, Hdev.
  rok_step. destruct (truth _); apply rok_ret; split_and!; try done.
  intros ? [= <-]. lia.
Qed.
End operands.

#[export] Hint Resolve rok_get_timer rok_digital rok_record_on rok_tuner rok_ui_command
  rok_set_osd_name rok_set_timer_program_title rok_set_osd_string rok_set_menu_language
  rok_report_features : cec_rok.

(** * Arrays *)

Section arrays.
Context (m : cec_msg) (Hwf : cec_msg_wf m).

Lemma array4_typed P n l : n <= 4 → length l = 4%nat → Forall P l → array_typed P (clamp 4 n) l.
Proof. intros. split; [|done]. rewrite clamp_id by lia. lia. Qed.

Lemma rok_report_short_audio_descriptor :
  rok (cec_ops_report_short_audio_descriptor (replicate 4 0))
    (λ o, is_u8 o.1 ∧ array_typed is_u32 (clamp 4 o.1) o.2) m.
Proof.
  unfold cec_ops_report_short_audio_descriptor. rok_step.
  set (n := clamp 4 _). assert (0 <= n <= 4) as Hn.
  { apply clamp_range; [done|]. apply u8_range. }
  eapply (rok_bind _ _ _ (λ l, length l = 4%nat ∧ Forall is_u32 l)).
  { apply rok_for_fold; [split; [done|]; apply Forall_replicate; range|].
    intros j l Hj [Hl Hb]. eapply rok_bind; [apply rok_be24; [done|lia]|]. intros d Hd.
    eapply rok_mono; [apply (rok_store _ is_u32); [lia|done|done]|].
    intros l' (Hl' & Hb' & _). split; [congruence|done]. }
  intros l [Hl Hb]. apply rok_ret. cbn. split; [range|]. apply array4_typed; (done || lia).
Qed.

Lemma rok_request_short_audio_descriptor :
  rok (cec_ops_request_short_audio_descriptor (replicate 4 0) (replicate 4 0))
    (λ o, is_u8 o.1.1 ∧ array_typed is_u8 (clamp 4 o.1.1) o.1.2
          ∧ array_typed is_u8 (clamp 4 o.1.1) o.2) m.
Proof.
  unfold cec_ops_request_short_audio_descriptor. rok_step.
  set (n := clamp 4 _). assert (0 <= n <= 4) as Hn.
  { apply clamp_range; [done|]. apply u8_range. }
  eapply (rok_bind _ _ _ (λ a, (length a.1 = 4%nat ∧ Forall is_u8 a.1)
                               ∧ length a.2 = 4%nat ∧ Forall is_u8 a.2)).
  { apply rok_for_fold; [cbn; split; (split; [done|]; byte_list)|].
    intros j [ids codes] Hj [[Hl Hb] [Hl' Hb']]. cbn in *.
    eapply rok_bind; [apply rok_get; [done|lia]|]. intros b Hb0.
    eapply rok_bind; [apply (rok_store _ is_u8); [lia|apply u8_range|done]|].
    intros ids' (Hi & ? & _). cbn beta.
    eapply rok_bind; [apply (rok_store _ is_u8); [lia|apply u8_range|done]|].
    intros codes' (Hc & ? & _). apply rok_ret. cbn. split_and!; try done; congruence. }
  intros [ids codes] [[Hl Hb] [Hl' Hb']]. cbn [fst snd] in *. apply rok_ret. cbn [fst snd].
  split; [range|]. split; apply array4_typed; (done || lia).
Qed.

(** The pointer a parser returns designates [size] bytes inside the message. *)
Lemma bytes_at_typed off max size :
  0 <= size <= max → (off + Z.to_nat max ≤ 16)%nat →
  rok (bytes_at off size) (array_typed is_u8 (clamp max size)) m.
Proof.
  intros Hs Hoff. destruct Hwf as [Hl Hb _ _]. unfold rok, bytes_at, asks. split.
  - rewrite clamp_id by lia. rewrite length_take, length_drop, Hl. lia.
  - auto using Forall_take, Forall_drop.
Qed.
End arrays.

(** * Parsing any message *)

Definition opt_typed (o : option request) : Prop :=
  match o with
  | Some r => req_typed r
  | None => True
  end.

Section parse.
Context (m : cec_msg) (Hwf : cec_msg_wf m).

Ltac head_match :=
  repeat lazymatch goal with
  | |- rok (match ?z with _ => _ end) _ _ => is_var z; destruct z
  end; try by apply rok_ret.

Ltac rok_typed := rok_run; cbn; rok_fin.

Lemma rok_parse_cdc sub : rok (cec_parse_cdc sub) opt_typed m.
Proof.
  unfold cec_parse_cdc. head_match.
  all: match goal with |- rok (mbind _ ?p) _ _ => unfold p end.
  all: rok_typed.
Qed.

Lemma digital0_typed : digital_typed digital0.
Proof. repeat split; cbn; try done. byte_list. Qed.
Lemma record_src0_typed : record_src_typed record_src0.
Proof. repeat split; cbn; try done. byte_list. Qed.
Lemma tuner_info0_typed : tuner_info_typed tuner_info0.
Proof. repeat split; cbn; try done. byte_list. Qed.
Lemma ui_command0_typed : ui_command_typed ui_command0.
Proof. repeat split; cbn; try done. byte_list. Qed.
#[local] Hint Resolve digital0_typed record_src0_typed tuner_info0_typed
  ui_command0_typed : cec_rok.

Lemma rok_clear_digital_timer :
  rok (cec_ops_clear_digital_timer digital0) (λ o, timer_typed o.1 ∧ digital_typed o.2) m.
Proof. unfold cec_ops_clear_digital_timer. rok_run. Qed.

Lemma rok_set_digital_timer :
  rok (cec_ops_set_digital_timer digital0) (λ o, timer_typed o.1 ∧ digital_typed o.2) m.
Proof. exact rok_clear_digital_timer. Qed.

Lemma rok_select_digital_service :
  rok (cec_ops_select_digital_service digital0) digital_typed m.
Proof. unfold cec_ops_select_digital_service. rok_run. Qed.

Lemma clamp_u8 max x : is_u8 max → is_u8 (clamp max (u8 x)).
Proof.
  intros Hm. pose proof (clamp_range max (u8 x) ltac:(range) (proj1 (u8_range x))). range.
Qed.
#[local] Hint Resolve clamp_u8 : c_range.

Lemma bytes_at_u8 off max x :
  0 <= max → (off + Z.to_nat max ≤ 16)%nat →
  rok (bytes_at off (clamp max (u8 x)))
    (array_typed is_u8 (clamp max (clamp max (u8 x)))) m.
Proof.
  intros. apply bytes_at_typed; [done| |done]. apply clamp_range; [done|]. apply u8_range.
Qed.
#[local] Hint Extern 1 (rok (bytes_at _ _) _ _) =>
  apply bytes_at_u8; [done|vm_compute; lia] : cec_rok.

Lemma rok_parse_features :
  rok ('(v, a, rc, dev) ← cec_ops_report_features;
       match rc, dev with
       | Some o1, Some o2 =>
           p ← get o1; d ← get o2; mret (Some (Report_features v a p d))
       | _, _ => mret None
       end) opt_typed m.
Proof.
  eapply rok_bind; [by apply rok_report_features|].
  intros [[[v a] [o1|]] [o2|]] (? & ? & H1 & H2); try by apply rok_ret.
  specialize (H1 _ eq_refl). specialize (H2 _ eq_refl). rok_run.
Qed.

#[local] Hint Resolve rok_parse_cdc rok_report_short_audio_descriptor
  rok_request_short_audio_descriptor rok_clear_digital_timer rok_set_digital_timer
  rok_select_digital_service rok_parse_features : cec_rok.

(** Runs the parser of the opcode, unless it has a rule of its own. *)
Ltac ops_unfold :=
  lazymatch goal with
  | |- rok (mbind _ (?f _)) _ _ => idtac
  | |- rok (mbind _ (?f _ _)) _ _ => idtac
  | |- rok (mbind _ ?p) _ _ => unfold p
  end.

Lemma rok_parse op : rok (cec_parse op) opt_typed m.
Proof.
  unfold cec_parse. head_match; try solve [eauto with cec_rok]; try ops_unfold; rok_typed.
  all: case_match; range.
Qed.

Lemma rok_opcode : rok cec_msg_opcode (λ _, True) m.
Proof. unfold cec_msg_opcode. rok_run. Qed.
End parse.
