(* ===== verification/CecSend.v ===== *)
(** Every constructor of [linux/cec-funcs.h] meets its specification: it is
    memory safe, keeps the message well formed, sets length, opcode, address and
    expected reply as the protocol says, and what it encodes is decoded back. *)
From stdpp Require Import base numbers list.
From Stdlib Require Import ZArith Lia.
From S2P Require Import Prelude CecConsts Cec CecFuncs CecProtocol CecAuto.

Create HintDb cec_sent.

(** * Operands that fit *)

Lemma digital_canon_channel s b0 b1 b2 b3 b4 b5 :
  is_u8 b2 → is_u8 b3 →
  digital_canon (Digital 1 s [b0; b1; b2; b3; b4; b5]) →
  s < 128 ∧ b0 < 64 ∧ b1 = 0 ∧ b3 < 4.
Proof.
  intros ? ? [? [[_ (Hf & Hb & Hmaj)]|[[=] _]]]. cbn in *.
  repeat split; try done. unfold channel_major, ld16 in Hmaj. cbn in Hmaj.
  rewrite Z.lor_comm in Hmaj. revert Hmaj. bits.
Qed.

Lemma digital_canon_ids k s b0 b1 b2 b3 b4 b5 :
  (k =? 1) = false →
  digital_canon (Digital k s [b0; b1; b2; b3; b4; b5]) →
  s < 128 ∧ k = 0 ∧ (is_atsc s = true → b4 = 0 ∧ b5 = 0).
Proof.
  intros Hk%Z.eqb_neq [? [[? _]|[? Ha]]]; cbn in *; [done|].
  repeat split; [done..| |]; by apply Ha in H1 as [= -> ->].
Qed.

Lemma record_src_canon_known s : record_src_canon s → 1 <= rs_type s <= 5.
Proof.
  unfold record_src_canon. intros H. destruct (rs_type s) as [|p|]; try done.
  do 3 (destruct p as [p|p|]; try done; try lia).
Qed.

Ltac digital_inv :=
  match goal with
  | H : digital_canon (Digital 1 _ _) |- _ => apply digital_canon_channel in H; [|range..]
  | Hk : (?k =? 1) = false, H : digital_canon (Digital ?k _ _) |- _ =>
      apply (digital_canon_ids _ _ _ _ _ _ _ _ Hk) in H
  end; and_inv; subst;
  try match goal with
  | Ha : ?b = true, H : ?b = true → _ |- _ => specialize (H Ha); and_inv; subst
  end.

(** The three ways a digital service is encoded. *)
Ltac digital_cases k s :=
  destruct (Z.eqb_spec k 1) as [->|?Hk%Z.eqb_neq];
  [|destruct (is_atsc s) eqn:?Hat].

Lemma ui_command_canon_inv c o b0 b1 b2 b3 b4 b5 :
  is_u8 b2 → is_u8 b3 →
  ui_command_canon (Ui_command c o [b0; b1; b2; b3; b4; b5]) →
  (o = 0 ∧ b0 = 0 ∧ b1 = 0 ∧ b2 = 0 ∧ b3 = 0 ∧ b4 = 0 ∧ b5 = 0)
  ∨ (o = 1 ∧ ui_one_byte c = true ∧ b1 = 0 ∧ b2 = 0 ∧ b3 = 0 ∧ b4 = 0 ∧ b5 = 0)
  ∨ (o = 1 ∧ c = 0x67 ∧ b0 < 64 ∧ b1 = 0 ∧ b3 < 4).
Proof.
  intros ? ? [[? [=]]|[(? & ? & [=])|(? & ? & H)]]; cbn in *; subst; auto 10.
  assert (digital_canon (Digital 1 0 [b0; b1; b2; b3; b4; b5])) as Hd by (split; cbn; auto; lia).
  apply digital_canon_channel in Hd as (_ & ? & ? & ?); auto 10.
Qed.

Ltac ui_command_inv :=
  match goal with
  | H : ui_command_canon _ |- _ => apply ui_command_canon_inv in H; [|range..]
  end; or_inv.

(** The first byte of a timer status: which of [prog_info] and [prog_error] it
    carries is in bit 4. *)
Lemma timer_status_byte w i pi pe :
  0 <= w < 2 → 0 <= i < 4 → 0 <= pi < 16 → 0 <= pe < 16 →
  let b := u8 ((w << 7) .| (i << 5) .| c_cond pi 0x10 0 .| c_cond pi pi pe) in
  u8 (b >> 7) = w ∧ u8 ((b >> 5) .& 3) = i ∧ truth (b .& 0x10) = truth pi
  ∧ u8 (b .& 0xf) = c_cond pi pi pe.
Proof.
  intros. subst b. unfold c_cond. destruct (truth pi) eqn:Hp.
  - repeat split; try bits. replace (_ .& 16) with 16; [done|]. bits.
  - repeat split; try bits. replace (_ .& 16) with 0; [done|]. bits.
Qed.

Lemma prog_decode pi pe :
  pi = 0 ∨ pe = 0 →
  (if truth pi then c_cond pi pi pe else 0) = pi
  ∧ (if truth pi then 0 else c_cond pi pi pe) = pe.
Proof. intros []; subst; unfold c_cond, truth; [done|]. by destruct (Z.eqb_spec pi 0) as [->|]. Qed.

Lemma hec_state_byte h o e c :
  0 <= h < 4 → 0 <= o < 4 → 0 <= e < 4 → 0 <= c < 4 →
  let b := u8 ((h << 6) .| (o << 4) .| (e << 2) .| c) in
  u8 (b >> 6) = h ∧ u8 ((b >> 4) .& 3) = o ∧ u8 (b .& 3) = c.
Proof. intros. subst b. repeat split; bits. Qed.

(** * One message at a time

    First the messages whose operands are packed, optional or of variable
    length, then all of them. *)

Section special.
Context (reply : Z) (m : cec_msg) (Hwf : cec_msg_wf m).

Lemma sent_report_audio_status a v :
  is_u8 a → is_u8 v →
  wp (cec_send reply (Report_audio_status a v)) (sent reply (Report_audio_status a v) m) m.
Proof. intros. open_msg m. run_send. solve_sent. fields. Qed.

Lemma sent_cdc_hpd_set_state a b :
  is_u8 a → is_u8 b →
  wp (cec_send reply (Cdc_hpd_set_state a b)) (sent reply (Cdc_hpd_set_state a b) m) m.
Proof. intros. open_msg m. run_send. solve_sent. fields. Qed.

Lemma sent_cdc_hpd_report_state a b :
  is_u8 a → is_u8 b →
  wp (cec_send reply (Cdc_hpd_report_state a b)) (sent reply (Cdc_hpd_report_state a b) m) m.
Proof. intros. open_msg m. run_send. solve_sent. fields. Qed.

Lemma sent_system_audio_mode_request a :
  is_u16 a →
  wp (cec_send reply (System_audio_mode_request a))
     (sent reply (System_audio_mode_request a) m) m.
Proof.
  intros. open_msg m. destruct (Z.eqb_spec a 0xffff) as [->|Ha%Z.eqb_neq]; run_send; solve_sent.
Qed.

Lemma sent_report_features v a p d :
  is_u8 v → is_u8 a → is_u8 p → is_u8 d →
  wp (cec_send reply (Report_features v a p d)) (sent reply (Report_features v a p d) m) m.
Proof. intros. open_msg m. run_send. solve_sent. Qed.

Lemma sent_report_current_latency a v l c d :
  req_typed (Report_current_latency a v l c d) →
  wp (cec_send reply (Report_current_latency a v l c d))
     (sent reply (Report_current_latency a v l c d) m) m.
Proof.
  intros Ht. cbn in Ht. and_inv. open_msg m.
  destruct (Z.eqb_spec c 3) as [->|Hc%Z.eqb_neq]; run_send; solve_sent.
  by or_inv.
Qed.

Lemma sent_select_digital_service d :
  digital_typed d →
  wp (cec_send reply (Select_digital_service d)) (sent reply (Select_digital_service d) m) m.
Proof.
  intros (Hk & Hs & Hl & Hb). destruct d as [k s u]; cbn in *. open_list u. forall_inv.
  open_msg m. digital_cases k s; run_send; solve_sent_with ltac:(digital_inv; recv_done).
Qed.

Lemma sent_clear_digital_timer t d :
  timer_typed t → digital_typed d →
  wp (cec_send reply (Clear_digital_timer t d)) (sent reply (Clear_digital_timer t d) m) m.
Proof.
  intros Ht (Hk & Hs & Hl & Hb). destruct d as [k s u], t as [a b c e f g h]; cbn in *.
  unfold timer_typed in Ht; cbn in Ht; and_inv. open_list u. forall_inv.
  open_msg m. digital_cases k s; run_send; solve_sent_with ltac:(digital_inv; recv_done).
Qed.

Lemma sent_set_digital_timer t d :
  timer_typed t → digital_typed d →
  wp (cec_send reply (Set_digital_timer t d)) (sent reply (Set_digital_timer t d) m) m.
Proof.
  intros Ht (Hk & Hs & Hl & Hb). destruct d as [k s u], t as [a b c e f g h]; cbn in *.
  unfold timer_typed in Ht; cbn in Ht; and_inv. open_list u. forall_inv.
  open_msg m. digital_cases k s; run_send; solve_sent_with ltac:(digital_inv; recv_done).
Qed.

Lemma sent_tuner_device_status t :
  tuner_info_typed t →
  wp (cec_send reply (Tuner_device_status t)) (sent reply (Tuner_device_status t) m) m.
Proof.
  intros (Hr & Hd & Ha & Hl & Hb). destruct t as [r d a u]; cbn in *. open_list u. forall_inv.
  open_msg m. destruct (truth a) eqn:Hta.
  - run_send. solve_sent_with ltac:(unfold tuner_info_canon, analog_canon in Hcanon; cbn in Hcanon).
    or_inv; [simplify_eq; recv_done|done].
  - digital_cases x x0; run_send;
      solve_sent_with ltac:(unfold tuner_info_canon in Hcanon; cbn in Hcanon).
    all: or_inv; [done|unfold ti_digital in *; cbn in *; digital_inv; recv_done].
Qed.

Lemma sent_record_on_digital k s u :
  length u = 6%nat → is_u8 k → is_u8 s → Forall is_u8 u →
  wp (cec_send reply (Record_on (Record_src 2 (k :: s :: u))))
     (sent reply (Record_on (Record_src 2 (k :: s :: u))) m) m.
Proof.
  intros. open_list u. forall_inv. open_msg m.
  digital_cases k s; run_send; 
    solve_sent_with ltac:(unfold record_src_canon, rs_digital in Hcanon; cbn in Hcanon;
                          digital_inv; recv_done).
Qed.

Lemma sent_record_on s :
  record_src_typed s →
  wp (cec_send reply (Record_on s)) (sent reply (Record_on s) m) m.
Proof.
  intros (Ht & Hl & Hb). destruct s as [t u]; cbn in *.
  destruct (Z.eqb_spec t 2) as [->|Ht2%Z.eqb_neq].
  { do 2 (destruct u as [|? u]; [done|]). forall_inv.
    apply sent_record_on_digital; naive_solver. }
  open_list u. forall_inv. open_msg m.
  destruct (Z.eqb_spec t 1) as [->|Ht1%Z.eqb_neq];
  [|destruct (Z.eqb_spec t 3) as [->|Ht3%Z.eqb_neq];
  [|destruct (Z.eqb_spec t 4) as [->|Ht4%Z.eqb_neq];
  [|destruct (Z.eqb_spec t 5) as [->|Ht5%Z.eqb_neq]]]]; run_send.
  1-4: solve_sent_with ltac:(unfold record_src_canon, analog_canon in Hcanon; cbn in Hcanon;
         and_inv; simplify_eq; recv_done).
  assert (¬ 1 <= t <= 5) by (rewrite !Z.eqb_neq in *; lia).
  apply Sent; try done.
  - constructor; [done|byte_list|done|cbn; range].
  - by intros ?%record_src_canon_known.
Qed.

Lemma sent_user_control_pressed c :
  ui_command_typed c →
  wp (cec_send reply (User_control_pressed c)) (sent reply (User_control_pressed c) m) m.
Proof.
  intros (Hc & Ho & Hl & Hb). destruct c as [c o u]; cbn in *. open_list u. forall_inv.
  open_msg m. destruct (truth o) eqn:Hto;
    [destruct (ui_one_byte c) eqn:Hone; [|destruct (Z.eqb_spec c 0x67) as [->|H67%Z.eqb_neq]]|];
    run_send; solve_sent_with ltac:(ui_command_inv; try done; try congruence; recv_done).
  by destruct (c =? 103).
Qed.

Lemma sent_timer_status w i pi pe h mi :
  req_typed (Timer_status w i pi pe h mi) →
  wp (cec_send reply (Timer_status w i pi pe h mi))
     (sent reply (Timer_status w i pi pe h mi) m) m.
Proof.
  intros Ht. cbn in Ht. and_inv. open_msg m.
  destruct (pi =? 9) eqn:?; [|destruct (pi =? 11) eqn:?; [|destruct (pe =? 14) eqn:?]];
    run_send; solve_sent_with idtac.
  all: destruct (timer_status_byte w i pi pe) as (E1 & E2 & E3 & E4); try range.
  all: destruct (prog_decode pi pe) as [E5 E6]; [done|].
  all: erewrite cec_recv_parse; [|cbn; lia|reflexivity]; symex_recv.
  all: rewrite E1, E2, E3, E4, E5, E6; use_conds; do 2 recv_step; try done.
  by or_inv.
Qed.

Lemma sent_cdc_hec_report_state t h o e c f x :
  req_typed (Cdc_hec_report_state t h o e c f x) →
  wp (cec_send reply (Cdc_hec_report_state t h o e c f x))
     (sent reply (Cdc_hec_report_state t h o e c f x) m) m.
Proof.
  intros Ht. cbn in Ht. and_inv. open_msg m. unfold wp, cec_send.
  destruct (truth f) eqn:Hf; unfold cec_msg_cdc_hec_report_state, c_cond; use_conds; run_send.
  all: solve_sent_with ltac:(destruct (hec_state_byte h o e c) as (E1 & E2 & E3); try range;
    recv_done; rewrite E1, E2, E3; by or_inv).
Qed.


Lemma sent_cdc_hec_set_state a b s c d e :
  req_typed (Cdc_hec_set_state a b s c d e) →
  wp (cec_send reply (Cdc_hec_set_state a b s c d e))
     (sent reply (Cdc_hec_set_state a b s c d e) m) m.
Proof.
  intros Ht. cbn in Ht. and_inv. open_msg m.
  destruct (c =? 0xffff) eqn:?; destruct (d =? 0xffff) eqn:?; destruct (e =? 0xffff) eqn:?.
  all: unfold wp, cec_send, cec_msg_cdc_hec_set_state; use_conds; cbn [negb when].
  all: symex_lit; ground; solve_sent_with ltac:(recv_done).
Qed.

Lemma sent_vendor_command n c :
  req_typed (Vendor_command n c) →
  wp (cec_send reply (Vendor_command n c)) (sent reply (Vendor_command n c) m) m.
Proof.
  intros (Hn & Hc & Hb). pose proof (clamp_range 14 n ltac:(done) ltac:(range)).
  open_msg m. run_send. run_copy. ground.
  solve_payload ltac:(symex_copy; rewrite payload_size, clamp_id by lia).
  by erewrite payload_whole by lia.
Qed.

Lemma sent_vendor_remote_button_down n c :
  req_typed (Vendor_remote_button_down n c) →
  wp (cec_send reply (Vendor_remote_button_down n c))
     (sent reply (Vendor_remote_button_down n c) m) m.
Proof.
  intros (Hn & Hc & Hb). pose proof (clamp_range 14 n ltac:(done) ltac:(range)).
  open_msg m. run_send. run_copy. ground.
  solve_payload ltac:(symex_copy; rewrite payload_size, clamp_id by lia).
  by erewrite payload_whole by lia.
Qed.

Lemma sent_vendor_command_with_id v n c :
  req_typed (Vendor_command_with_id v n c) →
  wp (cec_send reply (Vendor_command_with_id v n c))
     (sent reply (Vendor_command_with_id v n c) m) m.
Proof.
  intros (Hv & Hn & Hc & Hb). pose proof (clamp_range 11 n ltac:(done) ltac:(range)).
  open_msg m. run_send. run_copy. ground.
  solve_payload ltac:(symex_copy; rewrite payload_size, clamp_id by lia).
  rewrite be24_join by range. by erewrite payload_whole by lia.
Qed.

Lemma sent_set_osd_name s :
  c_string s → wp (cec_send reply (Set_osd_name s)) (sent reply (Set_osd_name s) m) m.
Proof.
  intros [Hb [k Hk]]. destruct (string_clamp 14 _ _ Hk) as [Hc Hle]; [done|].
  open_msg m. symex. rewrite Hk. run_send. run_copy. ground.
  solve_payload ltac:(symex_copy; recv_string k Hk; reflexivity).
  cbn. unfold str_len. by rewrite Hk.
Qed.

Lemma sent_set_timer_program_title s :
  c_string s →
  wp (cec_send reply (Set_timer_program_title s)) (sent reply (Set_timer_program_title s) m) m.
Proof.
  intros [Hb [k Hk]]. destruct (string_clamp 14 _ _ Hk) as [Hc Hle]; [done|].
  open_msg m. symex. rewrite Hk. run_send. run_copy. ground.
  solve_payload ltac:(symex_copy; recv_string k Hk; reflexivity).
  cbn. unfold str_len. by rewrite Hk.
Qed.

Lemma sent_set_osd_string d s :
  is_u8 d → c_string s →
  wp (cec_send reply (Set_osd_string d s)) (sent reply (Set_osd_string d s) m) m.
Proof.
  intros Hd [Hb [k Hk]]. destruct (string_clamp 13 _ _ Hk) as [Hc Hle]; [done|].
  open_msg m. symex. rewrite Hk. run_send. run_copy. ground.
  solve_payload ltac:(symex_copy; recv_string k Hk).
  - cbn. unfold str_len. by rewrite Hk.
  - by rewrite u8_id.
Qed.

Lemma sent_set_menu_language l :
  array_typed is_u8 3 l →
  wp (cec_send reply (Set_menu_language l)) (sent reply (Set_menu_language l) m) m.
Proof.
  intros [Hl Hb]. open_msg m. do 3 (destruct l as [|? l]; [cbn in Hl; lia|]). forall_inv.
  run_send. unfold memcpy_to. run_send. solve_sent_with idtac.
  destruct l as [|a [|]]; cbn in *; simplify_eq. reflexivity.
Qed.

Lemma sent_report_short_audio_descriptor n ds :
  req_typed (Report_short_audio_descriptor n ds) →
  wp (cec_send reply (Report_short_audio_descriptor n ds))
     (sent reply (Report_short_audio_descriptor n ds) m) m.
Proof.
  intros (Hn & Hl & Hb). unfold wp, cec_send, cec_msg_report_short_audio_descriptor.
  destruct (clamp4_cases n) as [E|[E|[E|[E|E]]]]; [range|..]; rewrite E in *.
  all: open_prefix ds; forall_inv; open_msg m.
  all: run_send; unfold for_loop; run_send.
  all: solve_sent_with ltac:(array_inv E; recv_array); cbn; by rewrite E.
Qed.

Lemma sent_request_short_audio_descriptor n ids codes :
  req_typed (Request_short_audio_descriptor n ids codes) →
  wp (cec_send reply (Request_short_audio_descriptor n ids codes))
     (sent reply (Request_short_audio_descriptor n ids codes) m) m.
Proof.
  intros (Hn & [Hl Hb] & [Hl' Hb']).
  unfold wp, cec_send, cec_msg_request_short_audio_descriptor.
  destruct (clamp4_cases n) as [E|[E|[E|[E|E]]]]; [range|..]; rewrite E in *.
  all: open_prefix ids; open_prefix codes; forall_inv; open_msg m.
  all: run_send; unfold for_loop; run_send.
  all: solve_sent_with ltac:(array_inv E; recv_array); cbn; by rewrite E.
Qed.
End special.

(** * All messages *)

#[local] Hint Resolve sent_report_audio_status sent_cdc_hpd_set_state
  sent_cdc_hpd_report_state sent_system_audio_mode_request sent_report_features
  sent_report_current_latency sent_select_digital_service sent_clear_digital_timer
  sent_set_digital_timer sent_tuner_device_status sent_record_on
  sent_user_control_pressed sent_timer_status sent_cdc_hec_report_state
  sent_cdc_hec_set_state sent_vendor_command sent_vendor_remote_button_down
  sent_vendor_command_with_id sent_set_osd_name sent_set_timer_program_title
  sent_set_osd_string sent_set_menu_language sent_report_short_audio_descriptor
  sent_request_short_audio_descriptor : cec_sent.

Lemma cec_send_sent reply r m :
  cec_msg_wf m → req_typed r → wp (cec_send reply r) (sent reply r m) m.
Proof.
  intros Hwf Ht. destruct r.
  all: try (solve [auto with cec_sent | destruct Ht; and_inv; auto with cec_sent]).
  all: try destruct t as [? ? ? ? ? ? ?]; cbn [req_typed] in Ht; unfold timer_typed in Ht; cbn in Ht;
    and_inv; open_msg m; run_send; solve_sent.
Qed.
