(* ===== verification/CecTheory.v ===== *)
(** The properties of the CEC component: the message functions of
    [linux/cec-funcs.h] against the protocol tables of [CecProtocol], and the
    helpers of [linux/cec.h]. *)
From stdpp Require Import base numbers list.
From Stdlib Require Import ZArith Lia.
From S2P Require Import Prelude CecConsts Cec CecFuncs CecProtocol CecAuto CecSend CecRecv.

(** * Lengths and addresses *)

Lemma str_len_nonneg s : 0 <= str_len s.
Proof. unfold str_len. lia. Qed.

Lemma req_len_bounds r : req_typed r → 2 <= req_len r <= 16.
Proof.
  intros Ht. pose proof str_len_nonneg as Hs.
  destruct r; cbn in *; and_inv; unfold c_cond, clamp; repeat case_match; try lia.
  all: try (specialize (Hs prog_title)); try (specialize (Hs osd)); try (specialize (Hs name));
    unfold_range; try lia.
Qed.

Lemma broadcast_initiator b : is_u8 b → u8 (u8 (b .| 0xf) >> 4) = u8 (b >> 4).
Proof.
  intros. rewrite (u8_id (b .| 15)) by range. f_equal. rewrite Z.shiftr_lor.
  change (15 >> 4) with 0. apply Z.lor_0_r.
Qed.

Lemma broadcast_destination b : is_u8 b → u8 (u8 (b .| 0xf) .& 0xf) = 0xf.
Proof.
  intros. rewrite (u8_id (b .| 15)) by range. rewrite u8_id.
  - apply Z.bits_inj'. intros i _. rewrite Z.land_spec, Z.lor_spec.
    by destruct (Z.testbit b i), (Z.testbit 15 i).
  - bits.
Qed.

Lemma sent_addr reply r m m' :
  cec_msg_wf m → sent reply r m m' →
  cec_msg_initiator m' = cec_msg_initiator m
  ∧ (if req_broadcast r then cec_msg_destination m' = Some 0xf
     else cec_msg_destination m' = cec_msg_destination m).
Proof.
  intros [Hl Hb _ _] H. pose proof (sent_first _ _ _ _ H) as Hf.
  destruct (cm_msg m) as [|b l] eqn:E; [done|]. forall_inv. cbn in Hf.
  unfold cec_msg_initiator, cec_msg_destination, get, mbind, R_bind, mret, R_ret.
  rewrite Hf, E. cbn. destruct (req_broadcast r); [|done].
  by rewrite broadcast_initiator, broadcast_destination.
Qed.

(** * Sending and receiving *)

(** C3: Memory safety and frame of all message constructors. From any
    well-formed message and with well-typed arguments, a constructor performs
    no out-of-bounds access, leaves 16 bytes in range and changes nothing but
    [len], [msg] and [reply]. *)
Theorem cec_send_safe reply r m :
  cec_msg_wf m → req_typed r →
  ∃ m', run (cec_send reply r) m = Some m' ∧ cec_msg_wf m' ∧ same_rest m m'.
Proof.
  intros Hwf Ht. destruct (wp_run _ _ _ (cec_send_sent reply r m Hwf Ht)) as (m' & E & []).
  eauto.
Qed.

Lemma cec_send_safe_witness :
  ∃ m', run (cec_send 1 (Vendor_command 200 (replicate 20 7))) cec_msg_zero = Some m'
    ∧ cec_msg_wf m' ∧ same_rest cec_msg_zero m'.
Proof.
  apply (cec_send_safe 1 (Vendor_command 200 (replicate 20 7)) cec_msg_zero);
    [apply cec_msg_zero_wf|].
  split; [range|]. split; [vm_compute; lia|]. apply Forall_replicate; range.
Defined.

(** Length, opcode, addressing and expected reply of every message: the
    constructor sets the length of the protocol's table (2 to 16 bytes), the
    opcode, the broadcast destination of messages that must be broadcast while
    keeping the initiator and otherwise the whole address byte, and [reply] to
    the opcode of the answer exactly when one is wanted. *)
Theorem cec_send_header reply r m :
  cec_msg_wf m → req_typed r → req_known r →
  ∃ m', run (cec_send reply r) m = Some m'
    ∧ cm_len m' = req_len r ∧ 2 <= req_len r <= 16
    ∧ cec_msg_opcode m' = Some (req_opcode r)
    ∧ cec_msg_initiator m' = cec_msg_initiator m
    ∧ (if req_broadcast r then cec_msg_destination m' = Some 0xf
       else cec_msg_destination m' = cec_msg_destination m)
    ∧ cm_reply m' = match req_reply r with
                    | Some o => if truth reply then o else 0
                    | None => cm_reply m
                    end.
Proof.
  intros Hwf Ht Hk. destruct (wp_run _ _ _ (cec_send_sent reply r m Hwf Ht)) as (m' & E & H).
  exists m'. pose proof (req_len_bounds r Ht) as Hb. destruct (sent_addr _ _ _ _ Hwf H) as [Hi Hd].
  split_and!; [done|apply H; done|lia|lia| |done|done|apply H].
  unfold cec_msg_opcode, asks, mbind, R_bind, get. rewrite (sent_len _ _ _ _ H Hk).
  rewrite (proj2 (Z.ltb_lt _ _)) by lia. by apply H.
Qed.

Lemma cec_send_header_witness :
  ∃ m', run (cec_send 1 Request_active_source) cec_msg_zero = Some m'
    ∧ cm_len m' = 2 ∧ 2 <= 2 <= 16 ∧ cec_msg_opcode m' = Some 0x85
    ∧ cec_msg_initiator m' = Some 0 ∧ cec_msg_destination m' = Some 0xf
    ∧ cm_reply m' = 0x82.
Proof. exact (cec_send_header 1 Request_active_source cec_msg_zero cec_msg_zero_wf I I). Defined.

(** Which messages the parsers give back as they were sent. *)

Lemma le16_split lo hi n : is_u8 lo → is_u8 hi → 0 <= n <= 256 →
  (lo .| (hi << 8) < n * 256 ↔ hi < n).
Proof. intros. rewrite Z.lor_comm. unfold_range. shifts_to_arith. or_to_add. lia. Qed.

(** An operand is the same if the message is. *)
Ltac same_operand := split; [by intros [= ->]|let H := fresh in intros H; by rewrite H].

Lemma channel_received_intact u :
  length u = 6%nat → Forall is_u8 u → (channel_received u = u ↔ channel_major u < 256).
Proof.
  intros Hl Hb. open_list u. forall_inv. unfold channel_major, ld16. cbn.
  rewrite (le16_split _ _ 1) by range. split.
  - intros [= _ <-]. lia.
  - intros Hhi. assert (x2 = 0) as -> by range. done.
Qed.

Lemma digital_received_intact d : digital_typed d → (digital_received d = d ↔ digital_intact d).
Proof.
  intros (_ & _ & Hl & Hb). destruct d as [k s u]. unfold digital_received, digital_intact. cbn in *.
  destruct (Z.eqb_spec k 1) as [->|Hk]; [|tauto]. rewrite <- (channel_received_intact u Hl Hb). split.
  - by intros [= ->].
  - intros H. by rewrite H.
Qed.

Lemma digital_bytes_intact u :
  length u = 8%nat → Forall is_u8 u →
  (digital_bytes_received u = u ↔ digital_intact (Digital (ld8 u 0) (ld8 u 1) (drop 2 u))).
Proof.
  intros Hl Hb. do 2 (destruct u as [|? u]; [done|]). forall_inv. unfold digital_bytes_received, digital_intact, ld8. cbn in *.
  destruct (Z.eqb_spec z 1) as [->|Hk]; [|tauto]. rewrite drop_0, <- (channel_received_intact u) by (done || lia). split.
  - by intros [= ->].
  - intros H'. by rewrite H'.
Qed.

Lemma received_intact r : req_typed r → (received r = r ↔ req_intact r).
Proof.
  intros Ht. destruct r; cbn [received req_intact req_typed] in *; try tauto.
  - destruct rec_src as [t u], Ht as (_ & Hl & Hb). cbn in *. destruct (Z.eqb_spec t 2) as [->|]; [|tauto].
    rewrite <- (digital_bytes_intact u Hl Hb). same_operand.
  - rewrite <- digital_received_intact by apply Ht. same_operand.
  - rewrite <- digital_received_intact by apply Ht. same_operand.
  - destruct info as [f i a u], Ht as (_ & _ & Ha & Hl & Hb). cbn in *. unfold truth.
    destruct (Z.eqb_spec a 0) as [->|]; cbn; [|tauto].
    unfold ti_digital. cbn. rewrite <- (digital_bytes_intact u Hl Hb). same_operand.
  - rewrite <- digital_received_intact by done. same_operand.
  - destruct c as [c o u], Ht as (_ & _ & Hl & Hb). cbn in *. unfold truth.
    destruct (Z.eqb_spec o 0) as [->|], (Z.eqb_spec c 103) as [->|]; cbn; try tauto.
    rewrite <- (channel_received_intact u Hl Hb). same_operand.
  - split; [by intros [= ->]|]. by intros ->.
  - by split.
Qed.

(** C1: Round trip for all messages. A message built from operands that fit the wire format is parsed
    to [received r]: the same message with the same operands, except that a channel number comes
    back with the upper two bits of its ten-bit major number at the wrong place, a HEC state report
    with the host state as ENC state, and a HEC Set State as HEC Inquire State. So a message is received as
    it was sent exactly if its major number is below 256, its ENC state is its host
    state, or it is none of these ([req_intact]). *)
Theorem cec_send_recv reply r m :
  cec_msg_wf m → req_typed r → req_canon r →
  ∃ m', run (cec_send reply r) m = Some m' ∧ cec_recv m' = Some (Some (received r)) ∧ (received r = r ↔ req_intact r).
Proof.
  intros Hwf Ht Hc. destruct (wp_run _ _ _ (cec_send_sent reply r m Hwf Ht)) as (m' & E & H).
  exists m'. split; [done|]. split; [by apply H|by apply received_intact].
Qed.

Definition witness_timer : request :=
  Set_digital_timer (Timer 24 12 20 15 1 30 0x7f) (Digital 1 0x18 [2; 0; 200; 0; 1; 3]).

Lemma cec_send_recv_witness :
  ∃ m', run (cec_send 0 witness_timer) cec_msg_zero = Some m'
    ∧ cec_recv m' = Some (Some witness_timer) ∧ (witness_timer = witness_timer ↔ req_intact witness_timer).
Proof.
  apply (cec_send_recv 0 witness_timer cec_msg_zero); [apply cec_msg_zero_wf| |].
  - unfold req_typed, witness_timer, timer_typed, digital_typed; cbn. split_and!; try range; byte_list.
  - unfold req_canon, witness_timer, timer_canon, digital_canon, channel_canon. cbn.
    split_and!; try lia. left. split_and!; [done|lia|done|by vm_compute].
Defined.

(** C4: Parsing is memory safe on every message a peer can send, of any length
    field and any contents, and what it returns has the C types. *)
Theorem cec_recv_safe m :
  cec_msg_wf m → ∃ o, cec_recv m = Some o ∧ ∀ r, o = Some r → req_typed r.
Proof.
  intros Hwf. assert (rok cec_recv opt_typed m) as H.
  { unfold cec_recv. eapply rok_bind; [apply (rok_opcode _ Hwf)|]. intros. by apply rok_parse. }
  unfold rok in H. destruct (cec_recv m) as [o|]; [|done]. exists o. by destruct o; naive_solver.
Qed.

Lemma cec_recv_safe_witness :
  ∃ o, cec_recv (upd cec_msg_zero 4000000000 0 (replicate 16 0xff) 0) = Some o
    ∧ ∀ r, o = Some r → req_typed r.
Proof.
  apply (cec_recv_safe (upd cec_msg_zero 4000000000 0 (replicate 16 0xff) 0)).
  constructor; [reflexivity|apply Forall_replicate; range|cbn; range|cbn; range].
Defined.

(** * Where the parsers are narrower than the constructors *)

(** Ten bits of a channel's major number are sent, eight come back. *)
Lemma channel_major_back hi lo :
  0 <= hi < 4 → is_u8 lo →
  let b1 := ((hi << 6) .| lo) in is_u8 b1 ∧ (b1 = lo .| (hi << 8) ↔ hi = 0).
Proof.
  intros Hhi Hlo b1. assert (is_u8 b1) as Hb by (apply or_u8; [bits|done]).
  split; [done|]. split; [|intros ->; by rewrite Z.lor_comm].
  intros E. rewrite E, Z.lor_comm in Hb. revert Hb. bits.
Qed.

Lemma channel_major_byte f lo hi :
  0 <= f < 64 → is_u8 lo → 0 <= hi < 4 →
  u8 (u8 ((f << 2) .| ((lo .| (hi << 8)) >> 8)) >> 2) = f
  ∧ u8 ((f << 2) .| ((lo .| (hi << 8)) >> 8)) .& 3 = hi.
Proof. intros. rewrite (Z.lor_comm lo). split; bits. Qed.

Lemma le16_store x : is_u16 x → u8 (x .& 255) .| (u8 (x >> 8) << 8) = x.
Proof. intros. rewrite Z.lor_comm. bits. Qed.

(** What the parsers make of a channel that the constructors encoded in bytes
    [b1] to [b4]. *)
Lemma channel_back f lo hi mlo mhi :
  0 <= f < 64 → is_u8 lo → 0 <= hi < 4 → is_u8 mlo → is_u8 mhi →
  let major := lo .| (hi << 8) in
  let minor := mlo .| (mhi << 8) in
  let b1 := u8 ((f << 2) .| (major >> 8)) in
  let major' := ((b1 .& 3) << 6) .| u8 (major .& 255) in
  let minor' := (u8 (minor >> 8) << 8) .| u8 (minor .& 255) in
  u8 (b1 >> 2) = f
  ∧ (u8 (minor' .& 255) .| (u8 (minor' >> 8) << 8)) = minor
  ∧ (u8 (major' .& 255) .| (u8 (major' >> 8) << 8) = major ↔ major < 256)
  ∧ minor' = minor.
Proof.
  intros Hf Hlo Hhi Hmlo Hmhi major minor b1 major' minor'.
  destruct (channel_major_byte f lo hi) as [E1 E2]; [done..|].
  destruct (channel_major_back hi lo) as [Hr E3]; [done..|].
  assert (is_u16 minor) as Hminor by (unfold minor; range).
  assert (minor' = minor) as E4 by (by apply be16_join).
  assert (major' = (hi << 6) .| lo) as E5.
  { unfold major', b1, major. by rewrite le16_lo, E2 by range. }
  rewrite E4, E5. split_and!; [done|apply le16_store; range| |done].
  rewrite le16_store by (apply u8_u16; done). unfold major. rewrite E3.
  rewrite (le16_split lo hi 1) by range. lia.
Qed.

(** The parser of a digital service keeps the format and the minor number
    of a channel, but of the 10-bit major number that the constructor sends only
    numbers below 256 survive. *)
Theorem select_channel_major m d :
  cec_msg_wf m → digital_typed d → ds_service_id_method d = 1 →
  ds_dig_bcast_system d < 128 → channel_number_fmt (ds_u d) < 64 →
  channel_major (ds_u d) < 1024 →
  ∃ m' d', run (cec_msg_select_digital_service d) m = Some m'
    ∧ cec_ops_select_digital_service digital0 m' = Some d'
    ∧ channel_number_fmt (ds_u d') = channel_number_fmt (ds_u d)
    ∧ channel_minor (ds_u d') = channel_minor (ds_u d)
    ∧ (channel_major (ds_u d') = channel_major (ds_u d) ↔ channel_major (ds_u d) < 256).
Proof.
  intros Hwf (_ & Hs & Hl & Hb). destruct d as [k s u]; cbn in *. open_list u. forall_inv.
  intros -> Hs' Hf Hmaj. apply (le16_split _ _ 4) in Hmaj; [|range..]. cbn in Hf, Hmaj.
  destruct (channel_back x x1 x2 x3 x4) as (E1 & E2 & E3 & _); [range..|].
  open_msg m. eexists _, _. split; [by run_send|].
  split; [by symex_recv; rewrite pack7_hi by range; symex_recv|]. done.
Qed.

Lemma select_channel_major_witness :
  ∃ m' d', run (cec_msg_select_digital_service (Digital 1 3 [2; 0; 44; 1; 5; 0])) cec_msg_zero
      = Some m'
    ∧ cec_ops_select_digital_service digital0 m' = Some d'
    ∧ channel_number_fmt (ds_u d') = 2 ∧ channel_minor (ds_u d') = 5
    ∧ (channel_major (ds_u d') = 300 ↔ 300 < 256).
Proof.
  apply (select_channel_major cec_msg_zero (Digital 1 3 [2; 0; 44; 1; 5; 0]) cec_msg_zero_wf);
    [|reflexivity..].
  unfold digital_typed; cbn. split_and!; try range; byte_list.
Defined.

(** The same of the optional channel of a [User Control Pressed] message. *)
Theorem user_control_channel_major m u :
  cec_msg_wf m → length u = 6%nat → Forall is_u8 u →
  channel_number_fmt u < 64 → channel_major u < 1024 →
  ∃ m' c', run (cec_msg_user_control_pressed (Ui_command 0x67 1 u)) m = Some m'
    ∧ cec_ops_user_control_pressed ui_command0 m' = Some c'
    ∧ channel_number_fmt (ui_u c') = channel_number_fmt u
    ∧ channel_minor (ui_u c') = channel_minor u
    ∧ (channel_major (ui_u c') = channel_major u ↔ channel_major u < 256).
Proof.
  intros Hwf Hl Hb Hf Hmaj. open_list u. forall_inv.
  apply (le16_split _ _ 4) in Hmaj; [|range..]. cbn in Hf, Hmaj.
  destruct (channel_back x x1 x2 x3 x4) as (E1 & E2 & E3 & E4); [range..|].
  open_msg m. eexists _, _. split; [by run_send|].
  split.
  { symex_recv. ground. symex_recv. change (ui_one_byte 103) with false. ground. symex_recv.
    rewrite E4, u16_id by range. reflexivity. }
  rewrite E4 in E2. done.
Qed.

Lemma user_control_channel_major_witness :
  ∃ m' c', run (cec_msg_user_control_pressed (Ui_command 0x67 1 [2; 0; 44; 1; 5; 0])) cec_msg_zero
      = Some m'
    ∧ cec_ops_user_control_pressed ui_command0 m' = Some c'
    ∧ channel_number_fmt (ui_u c') = 2 ∧ channel_minor (ui_u c') = 5
    ∧ (channel_major (ui_u c') = 300 ↔ 300 < 256).
Proof.
  apply (user_control_channel_major cec_msg_zero [2; 0; 44; 1; 5; 0] cec_msg_zero_wf);
    [reflexivity|byte_list|reflexivity|reflexivity].
Defined.

(** A HEC state report is received with the host state in the place of the
    ENC state, whatever ENC state was sent. *)
Theorem hec_report_state_enc reply m t h o e c x :
  cec_msg_wf m → req_typed (Cdc_hec_report_state t h o e c 1 x) →
  h < 4 → o < 4 → e < 4 → c < 4 →
  ∃ m', run (cec_send reply (Cdc_hec_report_state t h o e c 1 x)) m = Some m'
    ∧ cec_recv m' = Some (Some (Cdc_hec_report_state t h o o c 1 x)).
Proof.
  intros Hwf Ht ? ? ? ?. cbn in Ht. and_inv. open_msg m. eexists.
  split; [by run_send; cbn [fmap option_fmap option_map]; change (c_cond 1 10 8) with 10; ground|].
  destruct (hec_state_byte h o e c) as (E1 & E2 & E3); [range..|].
  recv_done. by rewrite E1, E2, E3.
Qed.

Lemma hec_report_state_enc_witness :
  ∃ m', run (cec_send 0 (Cdc_hec_report_state 0x1000 1 2 0 3 1 0xbeef)) cec_msg_zero = Some m'
    ∧ cec_recv m' = Some (Some (Cdc_hec_report_state 0x1000 1 2 2 3 1 0xbeef)).
Proof.
  apply (hec_report_state_enc 0 cec_msg_zero 0x1000 1 2 0 3 0xbeef cec_msg_zero_wf);
    [|reflexivity..].
  unfold req_typed. split_and!; try lia; range.
Defined.

(** [cec_msg_cdc_hec_set_state] builds a message that a receiver takes for
    [HEC Inquire State] of the first two addresses. *)
Theorem hec_set_state_misread reply m a b s c d e :
  cec_msg_wf m → req_typed (Cdc_hec_set_state a b s c d e) →
  ∃ m', run (cec_send reply (Cdc_hec_set_state a b s c d e)) m = Some m'
    ∧ cec_recv m' = Some (Some (Cdc_hec_inquire_state a b)).
Proof.
  intros Hwf Ht. cbn in Ht. and_inv. open_msg m.
  unfold run, cec_send, cec_msg_cdc_hec_set_state.
  destruct (c =? 0xffff) eqn:?, (d =? 0xffff) eqn:?, (e =? 0xffff) eqn:?; use_conds;
    cbn [negb when]; (eexists; split; [symex_lit; reflexivity|]; recv_done).
Qed.

Lemma hec_set_state_misread_witness :
  ∃ m', run (cec_send 0 (Cdc_hec_set_state 0x1000 0x2000 1 0xffff 0xffff 0xffff)) cec_msg_zero
      = Some m'
    ∧ cec_recv m' = Some (Some (Cdc_hec_inquire_state 0x1000 0x2000)).
Proof.
  apply (hec_set_state_misread 0 cec_msg_zero 0x1000 0x2000 1 0xffff 0xffff 0xffff cec_msg_zero_wf).
  unfold req_typed. split_and!; try lia; range.
Defined.

(** A byte written in BCD is read back modulo 160, so exactly the values
    below 160 survive. *)
Theorem bcd_mod_160 m i x :
  cec_msg_wf m → (i < 16)%nat → is_u8 x →
  ∃ m', run (put i (bcd x)) m = Some m' ∧ get_bcd i m' = Some (x mod 160).
Proof.
  intros [Hl _ _ _] Hi Hx. unfold run, put. rewrite Hl, (proj2 (Nat.ltb_lt _ _) Hi).
  eexists. split; [reflexivity|].
  unfold get_bcd, mbind, R_bind, get. cbn [cm_msg upd snd].
  rewrite list_lookup_insert_eq by lia. unfold mret, R_ret. f_equal. unfold bcd. bits.
Qed.

Lemma bcd_mod_160_witness :
  ∃ m', run (put 4 (bcd 199)) cec_msg_zero = Some m' ∧ get_bcd 4 m' = Some 39.
Proof. apply (bcd_mod_160 cec_msg_zero 4 199 cec_msg_zero_wf); [lia|range]. Defined.
