(* ===== verification/CecHelpers.v ===== *)
(** The properties of the helpers of [linux/cec.h] (message set-up, replies,
    transmit status, logical-address masks, device classification) and of the
    [cec-funcs.h] functions that return a pointer or a size. *)
From stdpp Require Import base numbers list.
From Stdlib Require Import ZArith Lia.
From S2P Require Import Prelude CecConsts Cec CecFuncs CecProtocol CecAuto CecRecv.

(** * Setting up messages and replies *)

(** Initiator and destination of an address byte. *)
Lemma address_byte i d :
  0 <= i < 16 → 0 <= d < 16 →
  u8 (u8 ((i << 4) .| d) >> 4) = i ∧ u8 (u8 ((i << 4) .| d) .& 0xf) = d
  ∧ u8 ((i << 4) .| d) .& 0xf = d.
Proof. intros. split_and!; bits. Qed.

Lemma address_parts b : is_u8 b → 0 <= u8 (b >> 4) < 16 ∧ 0 <= u8 (b .& 0xf) < 16.
Proof. intros. split; bits. Qed.

(** [cec_msg_init] makes a poll message between the two addresses out of
    any memory: one byte long, everything else zero. *)
Theorem cec_msg_init_spec i d m :
  0 <= i < 16 → 0 <= d < 16 →
  ∃ m', run (cec_msg_init i d) m = Some m' ∧ cec_msg_wf m'
    ∧ m' = upd cec_msg_zero 1 0 (u8 ((i << 4) .| d) :: replicate 15 0) 0
    ∧ cec_msg_initiator m' = Some i ∧ cec_msg_destination m' = Some d
    ∧ cec_msg_opcode m' = Some (-1)
    ∧ cec_msg_is_broadcast m' = Some (Z.b2z (d =? CEC_LOG_ADDR_UNREGISTERED)).
Proof.
  intros Hi Hd. destruct (address_byte i d Hi Hd) as (E1 & E2 & E3).
  eexists. split; [symex; ground; reflexivity|]. split_and!.
  - constructor; cbn; [done|byte_list|range|range].
  - reflexivity.
  - symex_recv. by rewrite E1.
  - symex_recv. by rewrite E2.
  - reflexivity.
  - symex_recv. by rewrite E3.
Qed.

Lemma cec_msg_init_spec_witness :
  ∃ m', run (cec_msg_init 4 15) cec_msg_zero = Some m' ∧ cec_msg_wf m'
    ∧ m' = upd cec_msg_zero 1 0 (0x4f :: replicate 15 0) 0
    ∧ cec_msg_initiator m' = Some 4 ∧ cec_msg_destination m' = Some 15
    ∧ cec_msg_opcode m' = Some (-1) ∧ cec_msg_is_broadcast m' = Some 1.
Proof. apply (cec_msg_init_spec 4 15 cec_msg_zero); lia. Defined.

(** [cec_msg_set_reply_to] swaps the addresses of the original message into
    the reply and clears [timeout] and [reply]; length and operands stay. *)
Theorem cec_msg_set_reply_to_spec orig m :
  cec_msg_wf orig → cec_msg_wf m →
  ∃ m', run (cec_msg_set_reply_to orig) m = Some m' ∧ cec_msg_wf m'
    ∧ cec_msg_initiator m' = cec_msg_destination orig
    ∧ cec_msg_destination m' = cec_msg_initiator orig
    ∧ drop 1 (cm_msg m') = drop 1 (cm_msg m) ∧ cm_len m' = cm_len m
    ∧ cm_timeout m' = 0 ∧ cm_reply m' = 0.
Proof.
  intros Ho Hm. open_msg orig. open_msg m.
  match goal with H : is_u8 ?b |- context [cec_msg_set_reply_to (Cec_msg _ _ _ _ _ _ (?b :: _) _ _ _ _ _ _ _)] =>
    destruct (address_parts b H) as [Hi Hd]; destruct (address_byte _ _ Hd Hi) as (E1 & E2 & _)
  end.
  eexists. split; [symex; ground; reflexivity|]. split_and!; try reflexivity.
  - constructor; cbn; [done|byte_list|range|range].
  - symex_recv. by rewrite E1.
  - symex_recv. by rewrite E2.
Qed.

Lemma cec_msg_set_reply_to_spec_witness :
  let orig := upd cec_msg_zero 2 0 (0x4f :: replicate 15 0) 0 in
  ∃ m', run (cec_msg_set_reply_to orig) cec_msg_zero = Some m' ∧ cec_msg_wf m'
    ∧ cec_msg_initiator m' = Some 15 ∧ cec_msg_destination m' = Some 4
    ∧ drop 1 (cm_msg m') = replicate 15 0 ∧ cm_len m' = 0
    ∧ cm_timeout m' = 0 ∧ cm_reply m' = 0.
Proof.
  apply (cec_msg_set_reply_to_spec (upd cec_msg_zero 2 0 (0x4f :: replicate 15 0) 0) cec_msg_zero);
    [|apply cec_msg_zero_wf].
  constructor; cbn; [reflexivity|byte_list|range|range].
Defined.

(** With [msg] and [orig] the same object the addresses are still swapped,
    and doing it twice restores the whole message bytes. *)
Theorem cec_msg_set_reply_to_self_twice m :
  cec_msg_wf m →
  ∃ m1 m2, run cec_msg_set_reply_to_self m = Some m1
    ∧ cec_msg_initiator m1 = cec_msg_destination m
    ∧ cec_msg_destination m1 = cec_msg_initiator m
    ∧ run cec_msg_set_reply_to_self m1 = Some m2 ∧ cm_msg m2 = cm_msg m.
Proof.
  intros Hm. open_msg m. destruct (address_parts x) as [Hi Hd]; [done|].
  destruct (address_byte _ _ Hd Hi) as (E1 & E2 & _).
  eexists _, _. split; [symex; ground; reflexivity|].
  split; [symex_recv; by rewrite E1|]. split; [symex_recv; by rewrite E2|].
  split; [symex; ground; rewrite E1, E2; reflexivity|]. cbn. f_equal. bits.
Qed.

Lemma cec_msg_set_reply_to_self_twice_witness :
  ∃ m1 m2, run cec_msg_set_reply_to_self cec_msg_zero = Some m1
    ∧ cec_msg_initiator m1 = Some 0 ∧ cec_msg_destination m1 = Some 0
    ∧ run cec_msg_set_reply_to_self m1 = Some m2 ∧ cm_msg m2 = replicate 16 0.
Proof. exact (cec_msg_set_reply_to_self_twice cec_msg_zero cec_msg_zero_wf). Defined.

(** [cec_msg_reply_feature_abort] turns a received message in place into
    the answer [Feature Abort] with the received opcode and the given reason,
    sent back to its initiator. *)
Theorem reply_feature_abort_spec m op reason :
  cec_msg_wf m → cm_msg m !! 1%nat = Some op → is_u8 reason →
  ∃ m', run (cec_msg_reply_feature_abort reason) m = Some m'
    ∧ cec_recv m' = Some (Some (Feature_abort op reason))
    ∧ cec_msg_initiator m' = cec_msg_destination m
    ∧ cec_msg_destination m' = cec_msg_initiator m
    ∧ cm_len m' = 4 ∧ cm_timeout m' = 0 ∧ cm_reply m' = 0.
Proof.
  intros Hm Hop Hr. open_msg m. injection Hop as ->.
  destruct (address_parts x) as [Hi Hd]; [done|].
  destruct (address_byte _ _ Hd Hi) as (E1 & E2 & _).
  eexists. split; [symex; ground; reflexivity|]. split_and!; try reflexivity.
  - recv_done.
  - symex_recv. by rewrite E1.
  - symex_recv. by rewrite E2.
Qed.

Lemma reply_feature_abort_spec_witness :
  ∃ m', run (cec_msg_reply_feature_abort 4) cec_msg_zero = Some m'
    ∧ cec_recv m' = Some (Some (Feature_abort 0 4))
    ∧ cec_msg_initiator m' = Some 0 ∧ cec_msg_destination m' = Some 0
    ∧ cm_len m' = 4 ∧ cm_timeout m' = 0 ∧ cm_reply m' = 0.
Proof.
  apply (reply_feature_abort_spec cec_msg_zero 0 4 cec_msg_zero_wf); [reflexivity|range].
Defined.

(** * Transmit and receive status *)

Lemma truth_spec z : truth z = true ↔ z ≠ 0.
Proof. unfold truth. rewrite negb_true_iff. apply Z.eqb_neq. Qed.

Lemma truth_bit z n : 0 <= n → truth (z .& 2 ^ n) = Z.testbit z n.
Proof.
  intros Hn. apply eq_true_iff_eq. rewrite truth_spec, and_pow2 by done.
  rewrite Z.testbit_true by done.
  pose proof (Z.mod_pos_bound (z / 2 ^ n) 2 ltac:(lia)).
  assert (0 < 2 ^ n) by (apply Z.pow_pos_nonneg; lia). nia.
Qed.

(** A message was handled when each direction that has a status has its
    success bit, at least one direction has a status, and the answer is not a
    feature abort. *)
Theorem status_is_ok_spec m :
  cec_msg_status_is_ok m = 1 ↔
    (cm_tx_status m ≠ 0 → Z.testbit (cm_tx_status m) 0 = true)
    ∧ (cm_rx_status m ≠ 0 → Z.testbit (cm_rx_status m) 0 = true)
    ∧ (cm_tx_status m ≠ 0 ∨ cm_rx_status m ≠ 0)
    ∧ Z.testbit (cm_rx_status m) 2 = false.
Proof.
  unfold cec_msg_status_is_ok.
  rewrite (truth_bit _ 0), (truth_bit _ 0), (truth_bit _ 2) by lia.
  rewrite <- !truth_spec.
  destruct (truth (cm_tx_status m)), (truth (cm_rx_status m)),
    (Z.testbit (cm_tx_status m) 0), (Z.testbit (cm_rx_status m) 0),
    (Z.testbit (cm_rx_status m) 2); cbn; intuition congruence.
Qed.

(** * Logical addresses *)

Lemma and_add_disjoint x a b : a .& b = 0 → (x .& a) + (x .& b) = x .& (a .| b).
Proof.
  intros Hd. rewrite Z.land_lor_distr_r. symmetry.
  enough ((x .& a) .& (x .& b) = 0) as E by (by rewrite Z.add_nocarry_lxor, Z.lxor_lor).
  rewrite <- Z.land_assoc, (Z.land_comm a), <- Z.land_assoc, (Z.land_comm b a), Hd.
  by rewrite !Z.land_0_r.
Qed.

(** The kinds of device a logical-address mask can name. *)
Definition log_addr_kinds : list (Z → Z) :=
  [cec_has_tv; cec_has_record; cec_has_tuner; cec_has_playback; cec_has_audiosystem;
   cec_has_backup; cec_has_specific; cec_is_unregistered].

(** Every mask of 16 logical addresses is the disjoint union of the eight
    kinds of device, so no address is missed and none counted twice, and a mask
    names no kind exactly when it is unconfigured. *)
Theorem log_addr_kinds_partition mask :
  is_u16 mask →
  foldr (λ f z, f mask + z) 0 log_addr_kinds = mask
  ∧ (cec_is_unconfigured mask = 1 ↔ Forall (λ f, f mask = 0) log_addr_kinds).
Proof.
  intros Hm. assert (foldr (λ f z, f mask + z) 0 log_addr_kinds = mask) as Hs.
  { cbn. rewrite Z.add_0_r.
    unfold cec_has_tv, cec_has_record, cec_has_tuner, cec_has_playback, cec_has_audiosystem,
      cec_has_backup, cec_has_specific, cec_is_unregistered.
    rewrite !and_add_disjoint by reflexivity.
    match goal with |- _ .& ?k = _ => change k with 65535 end. bits. }
  split; [done|]. unfold cec_is_unconfigured.
  destruct (Z.eqb_spec mask 0) as [->|Hne]; cbn [Z.b2z].
  - split; [intros _|done]. repeat (apply Forall_cons; split; [reflexivity|]). constructor.
  - split; [done|]. intros Hf. destruct Hne. rewrite <- Hs at 1.
    clear -Hf. induction Hf as [|f l E _ IH]; cbn; [done|]. by rewrite E, IH.
Qed.

Lemma log_addr_kinds_partition_witness :
  foldr (λ f z, f 0x8021 + z) 0 log_addr_kinds = 0x8021
  ∧ (cec_is_unconfigured 0x8021 = 1 ↔ Forall (λ f, f 0x8021 = 0) log_addr_kinds).
Proof. apply (log_addr_kinds_partition 0x8021). range. Defined.

(** A single logical address is of exactly one kind. *)
Theorem log_addr_kind_unique a :
  0 <= a < 16 →
  length (filter (λ f : Z → Z, truth (f (1 << a)) = true) log_addr_kinds) = 1%nat.
Proof.
  intros Ha. assert (∃ k, (k < 16)%nat ∧ a = Z.of_nat k) as (k & Hk & ->).
  { exists (Z.to_nat a). lia. }
  do 16 (destruct k as [|k]; [reflexivity|]). lia.
Qed.

Lemma log_addr_kind_unique_witness :
  length (filter (λ f : Z → Z, truth (f (1 << 9)) = true) log_addr_kinds) = 1%nat.
Proof. apply (log_addr_kind_unique 9). lia. Defined.

(** * Kinds of special devices *)

(** A value of type [struct cec_log_addrs]. *)
Record cec_log_addrs_wf (las : cec_log_addrs) : Prop := {
  las_log_addr : length (la_log_addr las) = CEC_MAX_LOG_ADDRS;
  las_prim : length (la_primary_device_type las) = CEC_MAX_LOG_ADDRS
}.

Definition first_addr (las : cec_log_addrs) : Z := la_log_addr las !!! 0%nat.
Definition first_type (las : cec_log_addrs) : Z := la_primary_device_type las !!! 0%nat.

Ltac run_las := lazy -[truth Z.leb Z.eqb Z.b2z Z.land].

(** The four predicates on special devices never read outside the arrays,
    return 0 or 1, hold under the stated conditions and exclude one another. *)
Theorem special_devices las :
  cec_log_addrs_wf las →
  ∃ tv proc sw cdc,
    cec_is_2nd_tv las = Some (Z.b2z tv) ∧ cec_is_processor las = Some (Z.b2z proc)
    ∧ cec_is_switch las = Some (Z.b2z sw) ∧ cec_is_cdc_only las = Some (Z.b2z cdc)
    ∧ (tv = true ↔ la_num_log_addrs las ≠ 0 ∧ 14 <= first_addr las ∧ first_type las = 0)
    ∧ (proc = true ↔ la_num_log_addrs las ≠ 0 ∧ 12 <= first_addr las ∧ first_type las = 7)
    ∧ (sw = true ↔ la_num_log_addrs las = 1 ∧ first_addr las = 15 ∧ first_type las = 6
                   ∧ Z.testbit (la_flags las) 2 = false)
    ∧ (cdc = true ↔ la_num_log_addrs las = 1 ∧ first_addr las = 15 ∧ first_type las = 6
                    ∧ Z.testbit (la_flags las) 2 = true)
    ∧ Z.b2z tv + Z.b2z proc + Z.b2z sw + Z.b2z cdc <= 1.
Proof.
  intros [Hl Hp]. unfold first_addr, first_type.
  destruct las as [la ? ? n ? fl ? pt ? ? ?]; cbn in *.
  destruct la as [|a la]; [done|]. destruct pt as [|t pt]; [done|]. cbn [lookup_total].
  exists (truth n && (14 <=? a) && (t =? 0)), (truth n && (12 <=? a) && (t =? 7)),
    ((n =? 1) && (a =? 15) && (t =? 6) && negb (truth (fl .& 4))),
    ((n =? 1) && (a =? 15) && (t =? 6) && truth (fl .& 4)).
  split_and!.
  1-4: do 6 (run_las; try match goal with
    | |- context [if truth ?x then _ else _] => destruct (truth x) eqn:?
    | |- context [if Z.leb ?x ?y then _ else _] => destruct (Z.leb x y) eqn:?
    | |- context [if Z.eqb ?x ?y then _ else _] => destruct (Z.eqb x y) eqn:?
    end; use_conds); first [reflexivity | congruence].
  all: try rewrite (truth_bit _ 2) by lia.
  1-4: rewrite !andb_true_iff, ?negb_true_iff, ?truth_spec, ?Z.leb_le, ?Z.eqb_eq; tauto.
  destruct (Z.eqb_spec t 0), (Z.eqb_spec t 7), (Z.eqb_spec t 6); try lia;
    destruct (Z.testbit fl 2); rewrite ?andb_false_r, ?andb_true_r; cbn [negb Z.b2z];
    repeat match goal with |- context [Z.b2z ?b] => destruct b; cbn [Z.b2z] end; lia.
Qed.

Definition witness_las (addr ty : Z) : cec_log_addrs :=
  Cec_log_addrs [addr; 0xff; 0xff; 0xff] 0 5 1 0 0 [] [ty; 0; 0; 0] [] [] [].

(** An address that has not been claimed, 0xff, counts as "14 or 15". *)
Lemma special_devices_witness :
  ∃ tv proc sw cdc,
    cec_is_2nd_tv (witness_las 0xff 0) = Some (Z.b2z tv)
    ∧ cec_is_processor (witness_las 0xff 0) = Some (Z.b2z proc)
    ∧ cec_is_switch (witness_las 0xff 0) = Some (Z.b2z sw)
    ∧ cec_is_cdc_only (witness_las 0xff 0) = Some (Z.b2z cdc)
    ∧ (tv = true ↔ 1 ≠ 0 ∧ 14 <= 0xff ∧ 0 = 0)
    ∧ (proc = true ↔ 1 ≠ 0 ∧ 12 <= 0xff ∧ 0 = 7)
    ∧ (sw = true ↔ 1 = 1 ∧ 0xff = 15 ∧ 0 = 6 ∧ Z.testbit 0 2 = false)
    ∧ (cdc = true ↔ 1 = 1 ∧ 0xff = 15 ∧ 0 = 6 ∧ Z.testbit 0 2 = true)
    ∧ Z.b2z tv + Z.b2z proc + Z.b2z sw + Z.b2z cdc <= 1.
Proof. apply (special_devices (witness_las 0xff 0)). constructor; reflexivity. Defined.

(** * Pointers and sizes into the message *)

(** Byte [q] has the extension bit set. *)
Definition has_ext (m : cec_msg) (q : nat) : Prop :=
  ∃ b, cm_msg m !! q = Some b ∧ truth (b .& CEC_OP_FEAT_EXT) = true.

Lemma skip_ext_spec m fuel : ∀ p lim,
  cec_msg_wf m → (p ≤ lim)%nat → (lim ≤ 16)%nat → (lim - p ≤ fuel)%nat →
  ∃ q, skip_ext fuel p lim m = Some q ∧ (p ≤ q ≤ lim)%nat
    ∧ (∀ i, (p ≤ i < q)%nat → has_ext m i) ∧ ((q < lim)%nat → ¬ has_ext m q).
Proof.
  induction fuel as [|fuel IH]; intros p lim Hwf Hp Hl Hf; cbn [skip_ext].
  { exists p. split_and!; try done; lia. }
  destruct (Nat.ltb_spec p lim) as [Hlt|]; [|exists p; split_and!; try done; lia].
  destruct (lookup_lt_is_Some_2 (cm_msg m) p) as [b Eb]; [rewrite (wf_length _ Hwf); lia|].
  unfold mbind, R_bind, get. rewrite Eb.
  destruct (truth (b .& 128)) eqn:E.
  - destruct (IH (S p) lim Hwf) as (q & Eq & Hq & Hext & Hstop); [lia..|].
    exists q. split_and!; [done|lia|lia| |done]. intros i Hi.
    destruct (decide (i = p)) as [->|]; [by exists b|]. apply Hext. lia.
  - exists p. split_and!; [done|lia|lia|lia|]. intros _ (b' & Eb' & E'). congruence.
Qed.

(** [cec_ops_report_features] returns the RC profile at byte 4 and the device
    features right after its last byte, the first without an extension bit; it
    returns no pointer when bytes 4 to 14 are all extended. The bytes of the
    device features themselves are never looked at. *)
Theorem report_features_pointers m :
  cec_msg_wf m →
  ∃ v a, cm_msg m !! 2%nat = Some v ∧ cm_msg m !! 3%nat = Some a ∧
    ((∃ p, (4 ≤ p ≤ 14)%nat ∧ (∀ i, (4 ≤ i < p)%nat → has_ext m i) ∧ ¬ has_ext m p
         ∧ cec_ops_report_features m = Some (v, a, Some 4%nat, Some (S p)))
     ∨ ((∀ i, (4 ≤ i ≤ 14)%nat → has_ext m i)
         ∧ cec_ops_report_features m = Some (v, a, None, None))).
Proof.
  intros Hwf. pose proof (wf_length _ Hwf) as Hl.
  destruct (skip_ext_spec m (14 - 4) 4 14 Hwf) as (p & Ep & Hp & Hext & Hstop); [lia..|].
  destruct (lookup_lt_is_Some_2 (cm_msg m) 2) as [v Ev]; [lia|].
  destruct (lookup_lt_is_Some_2 (cm_msg m) 3) as [a Ea]; [lia|].
  destruct (lookup_lt_is_Some_2 (cm_msg m) p) as [b Eb]; [lia|].
  exists v, a. split_and!; [done..|].
  unfold cec_ops_report_features, mbind, R_bind, mret, R_ret, get.
  rewrite Ev, Ea, Ep, Eb. destruct (truth (b .& 128)) eqn:E; cbn [negb].
  - rewrite Eb, E. right. split; [|done]. intros i Hi.
    assert (p = 14%nat) as ->.
    { destruct (decide (p = 14%nat)); [done|]. destruct Hstop; [lia|]. by exists b. }
    destruct (decide (i = 14%nat)) as [->|]; [by exists b|]. apply Hext. lia.
  - left. exists p. split; [done|]. split; [done|].
    split; [intros (b' & Eb' & E'); congruence|].
    destruct (skip_ext_spec m (15 - p) p 15 Hwf) as (q & Eq & Hq & Hext' & _); [lia..|].
    rewrite Eq. assert (q = p) as ->; [|by rewrite Eb, E].
    destruct (decide (q = p)); [done|]. destruct (Hext' p) as (b' & Eb' & E'); [lia|congruence].
Qed.

Lemma report_features_pointers_witness :
  ∃ v a, cm_msg cec_msg_zero !! 2%nat = Some v ∧ cm_msg cec_msg_zero !! 3%nat = Some a ∧
    ((∃ p, (4 ≤ p ≤ 14)%nat ∧ (∀ i, (4 ≤ i < p)%nat → has_ext cec_msg_zero i)
         ∧ ¬ has_ext cec_msg_zero p
         ∧ cec_ops_report_features cec_msg_zero = Some (v, a, Some 4%nat, Some (S p)))
     ∨ ((∀ i, (4 ≤ i ≤ 14)%nat → has_ext cec_msg_zero i)
         ∧ cec_ops_report_features cec_msg_zero = Some (v, a, None, None))).
Proof. apply (report_features_pointers cec_msg_zero cec_msg_zero_wf). Defined.

(** The size a vendor command parser returns is the number of operand bytes;
    of a message too short to have an opcode the subtraction wraps and it
    returns the maximum instead. *)
Theorem vendor_command_size m :
  0 <= cm_len m <= 16 →
  cec_ops_vendor_command m = Some (if cm_len m <? 2 then 14 else cm_len m - 2, 2%nat)
  ∧ cec_ops_vendor_remote_button_down m = cec_ops_vendor_command m.
Proof.
  intros H. split; [|done].
  unfold cec_ops_vendor_command, mbind, R_bind, asks, mret, R_ret. do 2 f_equal.
  destruct (Z.ltb_spec (cm_len m) 2).
  - assert (cm_len m = 0 ∨ cm_len m = 1) as [-> | ->] by lia; reflexivity.
  - rewrite u32_id, u8_id by range. apply clamp_id. lia.
Qed.

Lemma vendor_command_size_witness :
  cec_ops_vendor_command (upd cec_msg_zero 1 0 (replicate 16 0) 0) = Some (14, 2%nat)
  ∧ cec_ops_vendor_remote_button_down (upd cec_msg_zero 1 0 (replicate 16 0) 0)
    = cec_ops_vendor_command (upd cec_msg_zero 1 0 (replicate 16 0) 0).
Proof. apply (vendor_command_size (upd cec_msg_zero 1 0 (replicate 16 0) 0)). cbn. lia. Defined.

(** * The operand tables *)

(** An operand of [w] bits and the values that [cec.h] lists for it. *)
Definition packed_operands : list (Z * list Z) :=
  [(1, op_service_id_method); (7, op_dig_bcast_system); (6, op_channel_number_fmt);
   (1, op_timer_overlap_warning); (2, op_media_info); (4, op_prog_info); (4, op_prog_error);
   (1, op_rec_flag); (7, op_tuner_display_info); (1, op_aud_mute_status);
   (2, op_audio_format_id); (1, op_low_latency_mode); (2, op_audio_out_compensated);
   (2, op_hec_func_state); (2, op_host_func_state); (2, op_enc_func_state);
   (2, op_cdc_errcode); (4, op_hpd_state); (4, op_hpd_error)].

(** The operands that fill a byte. *)
Definition byte_operands : list (list Z) :=
  [op_rec_src_type; op_ana_bcast_type; op_bcast_system; op_rec_status; op_recording_seq;
   op_ext_src_spec; op_timer_cleared_status; op_cec_version; op_prim_devtype;
   op_all_device_types; op_rc_profile; op_dev_features; op_deck_control_mode; op_deck_info;
   op_status_req; op_play_mode; op_disp_ctl; op_menu_req; op_menu_state; op_ui_bcast_type;
   op_ui_snd_pres_ctl; op_pwr_state; op_reason; op_sys_aud_status; op_audio_rate;
   op_hec_set_state; op_prog_indicator; op_hec_support; op_hec_activation].

(** Every operand value that the header lists fits the bits its message has
    for it, so the documented operands are among those that survive, and an RC
    profile value never sets the extension bit. *)
Theorem operand_tables_fit :
  Forall (λ wl, Forall (λ x, 0 <= x < 2 ^ wl.1) wl.2) packed_operands
  ∧ Forall (Forall is_u8) byte_operands
  ∧ Forall (λ x, x < CEC_OP_FEAT_EXT) op_rc_profile.
Proof. split_and!; apply (bool_decide_unpack _); vm_compute; exact I. Qed.

(** All opcodes, by feature. *)
Definition all_opcodes : list Z :=
  opcodes_one_touch_play ++ opcodes_routing_control ++ opcodes_standby
  ++ opcodes_one_touch_record ++ opcodes_timer_programming ++ opcodes_system_information
  ++ opcodes_deck_control ++ opcodes_tuner_control ++ opcodes_vendor_specific_commands
  ++ opcodes_osd_display ++ opcodes_device_osd_transfer ++ opcodes_device_menu_control
  ++ opcodes_power_status ++ opcodes_general_protocol ++ opcodes_system_audio_control
  ++ opcodes_audio_rate_control ++ opcodes_audio_return_channel_control
  ++ opcodes_dynamic_audio_lipsync ++ opcodes_cdc.

(** One message of each kind. *)
Definition sample_requests : list request :=
  [Active_source 0; Image_view_on; Text_view_on; Inactive_source 0; Request_active_source;
   Routing_information 0; Routing_change 0 0; Set_stream_path 0; Standby; Record_off;
   Record_on record_src0; Record_status 0; Record_tv_screen; Timer_status 0 0 0 0 0 0;
   Timer_cleared_status 0; Clear_analogue_timer (Timer 0 0 0 0 0 0 0) 0 0 0;
   Clear_digital_timer (Timer 0 0 0 0 0 0 0) digital0;
   Clear_ext_timer (Timer 0 0 0 0 0 0 0) 0 0 0;
   Set_analogue_timer (Timer 0 0 0 0 0 0 0) 0 0 0;
   Set_digital_timer (Timer 0 0 0 0 0 0 0) digital0;
   Set_ext_timer (Timer 0 0 0 0 0 0 0) 0 0 0; Set_timer_program_title []; Cec_version 0;
   Get_cec_version; Report_physical_addr 0 0; Give_physical_addr; Set_menu_language [];
   Get_menu_language; Report_features 0 0 0 0; Give_features; Deck_control 0;
   Deck_status 0; Give_deck_status 0; Play 0; Tuner_device_status tuner_info0;
   Give_tuner_device_status 0; Select_analogue_service 0 0 0;
   Select_digital_service digital0; Tuner_step_decrement; Tuner_step_increment;
   Device_vendor_id 0; Give_device_vendor_id; Vendor_command 0 [];
   Vendor_command_with_id 0 0 []; Vendor_remote_button_down 0 []; Vendor_remote_button_up;
   Set_osd_string 0 []; Set_osd_name []; Give_osd_name; Menu_status 0; Menu_request 0;
   User_control_pressed ui_command0; User_control_released; Report_power_status 0;
   Give_device_power_status; Feature_abort 0 0; Abort; Report_audio_status 0 0;
   Give_audio_status; Set_system_audio_mode 0; System_audio_mode_request 0;
   System_audio_mode_status 0; Give_system_audio_mode_status;
   Report_short_audio_descriptor 0 []; Request_short_audio_descriptor 0 [] [];
   Set_audio_rate 0; Report_arc_initiated; Initiate_arc; Request_arc_initiation;
   Report_arc_terminated; Terminate_arc; Request_arc_termination;
   Report_current_latency 0 0 0 0 0; Request_current_latency 0; Cdc_hec_inquire_state 0 0;
   Cdc_hec_report_state 0 0 0 0 0 0 0; Cdc_hec_set_state 0 0 0 0 0 0;
   Cdc_hec_set_state_adjacent 0 0; Cdc_hec_request_deactivation 0 0 0;
   Cdc_hec_notify_alive; Cdc_hec_discover; Cdc_hpd_set_state 0 0; Cdc_hpd_report_state 0 0].

(** The opcodes that [cec.h] defines are distinct bytes, the same holds of the
    sub-opcodes, and the messages of [cec-funcs.h] use exactly them. *)
Theorem opcodes_covered :
  NoDup all_opcodes ∧ Forall is_u8 all_opcodes ∧ NoDup cdc_opcodes ∧ Forall is_u8 cdc_opcodes
  ∧ (∀ r, req_opcode r ∈ all_opcodes) ∧ (∀ op, op ∈ all_opcodes → ∃ r, req_opcode r = op).
Proof.
  split_and!; try (apply (bool_decide_unpack _); vm_compute; exact I).
  - intros r. destruct r; apply (bool_decide_unpack _); vm_compute; exact I.
  - intros op Hop.
    assert (Forall (λ op, op ∈ req_opcode <$> sample_requests) all_opcodes) as H
      by (apply (bool_decide_unpack _); vm_compute; exact I).
    rewrite Forall_forall in H. apply H in Hop. apply list_elem_of_fmap in Hop as (r & -> & _).
    by exists r.
Qed.
