(* ===== verification/HeapLogic.v ===== *)
(** Memory with pointers and a separation logic for it. A cell of memory holds a
    pointer or is indeterminate; an access of a cell that is not allocated, a
    read of an indeterminate one and an access through a null pointer are
    undefined behaviour. Assertions on memory form a BI, so that Iris' proof
    mode works on them, and [hwp c Φ] is the weakest precondition of the
    program [c] of the monad [M mem]. *)
From stdpp Require Import base numbers list gmap.
From Stdlib Require Import ZArith Lia.
From iris.bi Require Import bi.
From iris.proofmode Require Import proofmode.
From S2P Require Import Prelude.

(** * Memory *)

Definition mem : Type := gmap Z (option Z).

Abbreviation NULL := 0 (only parsing).

(** [*p] *)
Definition ld (p : Z) : M mem Z := λ σ,
  match σ !! p with
  | Some (Some v) => Some (v, σ)
  | _ => None
  end.

(** [*p = v] *)
Definition st (p v : Z) : M mem unit := λ σ,
  match σ !! p with
  | Some _ => Some (tt, <[p := Some v]> σ)
  | None => None
  end.

(** [*p] and [*p = v] through a pointer that may be null. *)
Definition ldp (p : Z) : M mem Z := if p =? NULL then ub else ld p.
Definition stp (p v : Z) : M mem unit := if p =? NULL then ub else st p v.

(** [e->f] and [e->f = v] for a member at offset [off]; offsets count pointers. *)
Definition ldf (e off : Z) : M mem Z := if e =? NULL then ub else ld (e + off).
Definition stf (e off v : Z) : M mem unit := if e =? NULL then ub else st (e + off) v.

(** * Assertions *)

Record hprop := HProp { hholds :> mem → Prop }.

Section ofe.
Record hequiv (P Q : hprop) : Prop := { hequiv_at : ∀ σ, P σ ↔ Q σ }.
#[export] Instance hprop_equiv : Equiv hprop := hequiv.
#[export] Instance hprop_equivalence : Equivalence (≡@{hprop}).
Proof.
  split.
  - intros P. by split.
  - intros P Q [H]. split. intros σ. by rw H.
  - intros P Q R [H1] [H2]. split. intros σ. by rw H1.
Qed.
Canonical Structure hpropO := discreteO hprop.
End ofe.

Record hentails (P Q : hprop) : Prop := { hentails_at : ∀ σ, P σ → Q σ }.

Definition h_emp : hprop := HProp (λ σ, σ = ∅).
Definition h_pure (φ : Prop) : hprop := HProp (λ _, φ).
Definition h_and (P Q : hprop) : hprop := HProp (λ σ, P σ ∧ Q σ).
Definition h_or (P Q : hprop) : hprop := HProp (λ σ, P σ ∨ Q σ).
Definition h_impl (P Q : hprop) : hprop := HProp (λ σ, P σ → Q σ).
Definition h_forall (A : Type) (Φ : A → hprop) : hprop := HProp (λ σ, ∀ a, Φ a σ).
Definition h_exist (A : Type) (Φ : A → hprop) : hprop := HProp (λ σ, ∃ a, Φ a σ).
Definition h_sep (P Q : hprop) : hprop :=
  HProp (λ σ, ∃ σ1 σ2, σ = σ1 ∪ σ2 ∧ σ1 ##ₘ σ2 ∧ P σ1 ∧ Q σ2).
Definition h_wand (P Q : hprop) : hprop :=
  HProp (λ σ, ∀ σ', σ ##ₘ σ' → P σ' → Q (σ ∪ σ')).
Definition h_pers (P : hprop) : hprop := h_pure (hentails h_emp P).

Lemma hprop_mixin :
  BiMixin (PROP := hprop) hentails h_emp h_pure h_and h_or h_impl h_forall h_exist h_sep h_wand.
Proof.
  split.
  - split; [by intros P; split|]. intros P Q R [H1] [H2]. split. auto.
  - intros P Q. split.
    + intros [H]. split; split; intros σ; apply H.
    + intros [[H1] [H2]]. split. intros σ. split; auto.
  - intros n φ1 φ2 H. by split.
  - intros n P1 P2 [HP] Q1 Q2 [HQ]. split. intros σ. cbn. by rw HP HQ.
  - intros n P1 P2 [HP] Q1 Q2 [HQ]. split. intros σ. cbn. by rw HP HQ.
  - intros n P1 P2 [HP] Q1 Q2 [HQ]. split. intros σ. cbn. by rw HP HQ.
  - intros A n Φ1 Φ2 H. split. intros σ. cbn. split; intros Ha a; by apply (H a), Ha.
  - intros A n Φ1 Φ2 H. split. intros σ. cbn. split; intros [a Ha]; exists a; by apply (H a).
  - intros n P1 P2 [HP] Q1 Q2 [HQ]. split. intros σ. cbn.
    split; intros (σ1 & σ2 & ? & ? & ?%HP & ?%HQ); by exists σ1, σ2.
  - intros n P1 P2 [HP] Q1 Q2 [HQ]. split. intros σ. cbn.
    split; intros H σ' ? ?; apply HQ, H; auto; by apply HP.
  - intros φ P H. by split.
  - intros φ P H. split. intros σ Hφ. by apply (H Hφ).
  - intros P Q. split. by intros σ [].
  - intros P Q. split. by intros σ [].
  - intros P Q R [H1] [H2]. split. intros σ ?. split; auto.
  - intros P Q. split. intros σ ?. by left.
  - intros P Q. split. intros σ ?. by right.
  - intros P Q R [H1] [H2]. split. intros σ []; auto.
  - intros P Q R [H]. split. intros σ ? ?. by apply H.
  - intros P Q R [H]. split. intros σ []. by apply H.
  - intros A P Ψ H. split. intros σ ? a. by apply H.
  - intros A Ψ a. split. intros σ H. apply H.
  - intros A Ψ a. split. intros σ ?. by exists a.
  - intros A Φ Q H. split. intros σ [a ?]. by apply (H a).
  - intros P P' Q Q' [H1] [H2]. split.
    intros σ (σ1 & σ2 & ? & ? & ? & ?). exists σ1, σ2. auto.
  - intros P. split. intros σ ?. exists ∅, σ.
    rw map_empty_union. split_and!; [done|apply map_disjoint_empty_l|done|done].
  - intros P. split. intros σ (σ1 & σ2 & -> & ? & -> & ?). by rw map_empty_union.
  - intros P Q. split. intros σ (σ1 & σ2 & -> & ? & ? & ?). exists σ2, σ1.
    by rw map_union_comm.
  - intros P Q R. split.
    intros σ (σ12 & σ3 & -> & Hd & (σ1 & σ2 & -> & ? & ? & ?) & ?).
    apply map_disjoint_union_l in Hd as [? ?].
    exists σ1, (σ2 ∪ σ3). rw (assoc_L (∪)). split_and!; [done| |done|by exists σ2, σ3].
    by apply map_disjoint_union_r.
  - intros P Q R [H]. split. intros σ ? σ' ? ?. apply H. by exists σ, σ'.
  - intros P Q R [H]. split. intros σ (σ1 & σ2 & -> & ? & ? & ?). by apply H.
Qed.

Lemma hprop_pers_mixin :
  BiPersistentlyMixin (PROP := hprop) hentails h_emp h_and h_exist h_sep h_pers.
Proof.
  eapply bi_persistently_mixin_discrete, hprop_mixin; [done| |done].
  intros A Φ [H]. destruct (H ∅) as [a Ha]; [done|]. exists a. split. by intros σ ->.
Qed.

Lemma hprop_later_mixin :
  BiLaterMixin (PROP := hprop) hentails h_pure h_or h_impl h_forall h_exist h_sep h_pers (λ P, P).
Proof. eapply bi_later_mixin_id, hprop_mixin. done. Qed.

Canonical Structure hpropI : bi :=
  {| bi_ofe_mixin := ofe_mixin_of hprop; bi_bi_mixin := hprop_mixin;
     bi_bi_persistently_mixin := hprop_pers_mixin; bi_bi_later_mixin := hprop_later_mixin |}.

#[export] Instance hprop_pure_forall : BiPureForall hpropI.
Proof. intros A φ. split. by intros σ ?. Qed.

(** An allocated cell, and one that holds the pointer [v]. *)
Definition cell (p : Z) (o : option Z) : hpropI := HProp (λ σ, σ = {[ p := o ]}).

Notation "p ↦ v" := (cell p (Some v)) (at level 20, format "p  ↦  v") : bi_scope.
Notation "⌈ φ ⌉" := (<affine> ⌜φ⌝)%I (format "⌈ φ ⌉") : bi_scope.
Definition alloc (p : Z) : hpropI := ∃ o, cell p o.

Lemma cell_exclusive p o1 o2 : cell p o1 ∗ cell p o2 ⊢ False.
Proof.
  split. intros σ (σ1 & σ2 & -> & Hd & -> & ->).
  by apply map_disjoint_singleton_l in Hd; rw lookup_singleton_eq in Hd.
Qed.

Lemma cell_alloc p o : cell p o ⊢ alloc p.
Proof. iIntros "H". by iExists o. Qed.

(** * Weakest preconditions *)

(** [c] runs from every memory that contains the memory at hand, changes only
    that part, and ends in [Φ]. *)
Definition hwp {A} (c : M mem A) (Φ : A → hpropI) : hpropI :=
  HProp (λ σ, ∀ σf, σ ##ₘ σf →
    ∃ a σ', c (σ ∪ σf) = Some (a, σ' ∪ σf) ∧ σ' ##ₘ σf ∧ Φ a σ').

Section rules.
Context {A : Type}.
Implicit Types (Φ Ψ : A → hpropI) (P Q R : hpropI).

Lemma hwp_ret a Φ : Φ a ⊢ hwp (mret a) Φ.
Proof. split. intros σ H σf Hd. by exists a, σ. Qed.

Lemma hwp_bind {B} (c : M mem B) (k : B → M mem A) Φ :
  hwp c (λ b, hwp (k b) Φ) ⊢ hwp (c ≫= k) Φ.
Proof.
  split. intros σ H σf Hd. destruct (H σf Hd) as (b & σ1 & E1 & Hd1 & H1).
  destruct (H1 σf Hd1) as (a & σ2 & E2 & Hd2 & H2). exists a, σ2.
  by rw /mbind /M_bind E1.
Qed.

Lemma hwp_frame R c Φ : R ∗ hwp c Φ ⊢ hwp c (λ a, R ∗ Φ a).
Proof.
  split. intros σ (σ1 & σ2 & -> & Hd12 & HR & H) σf Hd.
  apply map_disjoint_union_l in Hd as [Hd1 Hd2].
  destruct (H (σ1 ∪ σf)) as (a & σ' & E & Hd' & H').
  { apply map_disjoint_union_r. split; [done|done]. }
  apply map_disjoint_union_r in Hd' as [Hd1' Hdf'].
  exists a, (σ1 ∪ σ'). split_and!.
  - rw (map_union_comm σ1 σ2) // -(assoc_L (∪)) E.
    by rw (assoc_L (∪)) (map_union_comm σ' σ1).
  - by apply map_disjoint_union_l.
  - by exists σ1, σ'.
Qed.

Lemma hwp_mono c Φ Ψ : (∀ a, Φ a ⊢ Ψ a) → hwp c Φ ⊢ hwp c Ψ.
Proof.
  intros HΦ. split. intros σ H σf Hd. destruct (H σf Hd) as (a & σ' & E & Hd' & H').
  exists a, σ'. split_and!; [done|done|]. by apply HΦ.
Qed.

Lemma hwp_wand c Φ Ψ : hwp c Φ -∗ (∀ a, Φ a -∗ Ψ a) -∗ hwp c Ψ.
Proof.
  iIntros "H HΨ". iApply (hwp_mono _ (λ a, (∀ a, Φ a -∗ Ψ a) ∗ Φ a)%I).
  - iIntros (a) "[HΨ H]". by iApply "HΨ".
  - iApply hwp_frame. iFrame "HΨ H".
Qed.
End rules.

Section memory.
Implicit Types (Φ : Z → hpropI) (Ψ : unit → hpropI).

Lemma hwp_ld p v Φ : p ↦ v ∗ (p ↦ v -∗ Φ v) ⊢ hwp (ld p) Φ.
Proof.
  split. intros σ (σ1 & σ2 & -> & Hd & -> & H) σf Hd'. exists v, ({[ p := Some v ]} ∪ σ2).
  split_and!.
  - rw /ld -(assoc_L (∪)) (lookup_union_Some_l _ _ p (Some v)) //. by rw lookup_singleton_eq.
  - done.
  - rw map_union_comm //. by apply H.
Qed.

Lemma hwp_st p o v Ψ : cell p o ∗ (p ↦ v -∗ Ψ tt) ⊢ hwp (st p v) Ψ.
Proof.
  split. intros σ (σ1 & σ2 & -> & Hd & -> & H) σf Hd'.
  exists tt, ({[ p := Some v ]} ∪ σ2).
  apply map_disjoint_singleton_l in Hd.
  apply map_disjoint_union_l in Hd' as [Hdf%map_disjoint_singleton_l Hd2].
  split_and!.
  - rw /st -(assoc_L (∪)) (lookup_union_Some_l _ _ p o); [|by rw lookup_singleton_eq].
    rw insert_union_l insert_singleton_eq. by rw (assoc_L (∪)).
  - apply map_disjoint_union_l. by split; [apply map_disjoint_singleton_l|].
  - rw map_union_comm; [|by apply map_disjoint_singleton_l].
    apply H; [by apply map_disjoint_singleton_r|done].
Qed.

Lemma hwp_ldp p v Φ : p ≠ NULL → p ↦ v -∗ (p ↦ v -∗ Φ v) -∗ hwp (ldp p) Φ.
Proof.
  iIntros (Hp) "H HΦ". rw /ldp (proj2 (Z.eqb_neq _ _) Hp). iApply hwp_ld. iFrame.
Qed.

Lemma hwp_stp p o v Ψ : p ≠ NULL → cell p o -∗ (p ↦ v -∗ Ψ tt) -∗ hwp (stp p v) Ψ.
Proof.
  iIntros (Hp) "H HΦ". rw /stp (proj2 (Z.eqb_neq _ _) Hp). iApply hwp_st. iFrame.
Qed.

Lemma hwp_ldf e off v Φ :
  e ≠ NULL → (e + off) ↦ v -∗ ((e + off) ↦ v -∗ Φ v) -∗ hwp (ldf e off) Φ.
Proof.
  iIntros (He) "H HΦ". rw /ldf (proj2 (Z.eqb_neq _ _) He). iApply hwp_ld. iFrame.
Qed.

Lemma hwp_stf e off o v Ψ :
  e ≠ NULL → cell (e + off) o -∗ ((e + off) ↦ v -∗ Ψ tt) -∗ hwp (stf e off v) Ψ.
Proof.
  iIntros (He) "H HΦ". rw /stf (proj2 (Z.eqb_neq _ _) He). iApply hwp_st. iFrame.
Qed.
End memory.

(** Steps of a program: a load from and a store to the cell of hypothesis [H]. *)
Ltac h_bind := first [iApply hwp_bind | idtac].
Ltac h_ld H :=
  h_bind; first [iApply (hwp_ldf with H); [lia|] | iApply (hwp_ldp with H); [lia|]]; iIntros H.
Ltac h_st H :=
  h_bind; first [iApply (hwp_stf with H); [lia|] | iApply (hwp_stp with H); [lia|]]; iIntros H.
Ltac h_ret := iApply hwp_ret.

(** A proof in the logic is a fact about runs: from a memory part of which
    satisfies the precondition, the program runs to the end, and the rest [σf] of
    the memory is as it was. *)
Lemma hwp_run {A} P (c : M mem A) Φ σ σf :
  (P ⊢ hwp c Φ) → P σ → σ ##ₘ σf →
  ∃ a σ', c (σ ∪ σf) = Some (a, σ' ∪ σf) ∧ σ' ##ₘ σf ∧ Φ a σ'.
Proof. intros [H] HP Hd. exact (H σ HP σf Hd). Qed.

(** Memory that is allocated and not initialised. *)
Definition blank (ps : list Z) : mem := list_to_map ((λ p, (p, None)) <$> ps).

Lemma blank_alloc ps : NoDup ps → ([∗ list] p ∈ ps, alloc p)%I (blank ps).
Proof.
  induction 1 as [|p ps Hp _ IH]; [done|]. exists {[ p := None ]}, (blank ps). split_and!.
  - by rw /blank /= insert_union_singleton_l.
  - apply map_disjoint_singleton_l, not_elem_of_list_to_map_1.
    by rw -list_fmap_compose list_fmap_id.
  - by exists None.
  - done.
Qed.
