(* ===== verification/Queue.v ===== *)
(** The macros of [sys/queue.h], one definition per macro, as programs on
    memory. A pointer is an address; the entry of an element, the macro parameter
    [field], is at offset [field] of the element and its members at consecutive
    offsets, as are the members of a head, so that [&(elm)->field.le_next] is
    [elm + field]. A traversal returns the elements the loop variable takes;
    loops take [fuel], the number of iterations they may make. *)
From stdpp Require Import base numbers list gmap.
From Stdlib Require Import ZArith Lia.
From S2P Require Import Prelude HeapLogic.

(** [if (p != NULL)] *)
Definition non_null (p : Z) : bool := negb (p =? NULL).

(** [for (; var != end; var = next(var))] *)
Fixpoint foreach_until (fuel : nat) (next : Z → M mem Z) (end_ var : Z) : M mem (list Z) :=
  if negb (var =? end_) then
    match fuel with
    | O => ub
    | S fuel' =>
        var' ← next var;
        l ← foreach_until fuel' next end_ var';
        mret (var :: l)
    end
  else mret [].

(** [for (; var; var = next(var))] *)
Definition foreach (fuel : nat) (next : Z → M mem Z) (var : Z) : M mem (list Z) :=
  foreach_until fuel next NULL var.

(** [while (curelm->next != elm) curelm = curelm->next;] *)
Fixpoint find_prev (fuel : nat) (next : Z → M mem Z) (curelm elm : Z) : M mem Z :=
  n ← next curelm;
  if negb (n =? elm) then
    match fuel with
    | O => ub
    | S fuel' => n ← next curelm; find_prev fuel' next n elm
    end
  else mret curelm.

Section macros.
Context (field : Z).

(** * Lists *)

Definition lh_first : Z := 0.
Definition le_next : Z := field.
Definition le_prev : Z := field + 1.

(** The members of a static initialiser, in order. *)
Definition LIST_HEAD_INITIALIZER (head : Z) : list Z := [NULL].

Definition LIST_INIT (head : Z) : M mem unit := stf head lh_first NULL.

Definition LIST_INSERT_AFTER (listelm elm : Z) : M mem unit :=
  n ← ldf listelm le_next;
  stf elm le_next n;;
  when (non_null n)
    (n' ← ldf listelm le_next;
     stf n' le_prev (elm + le_next));;
  stf listelm le_next elm;;
  stf elm le_prev (listelm + le_next).

Definition LIST_INSERT_BEFORE (listelm elm : Z) : M mem unit :=
  p ← ldf listelm le_prev;
  stf elm le_prev p;;
  stf elm le_next listelm;;
  p' ← ldf listelm le_prev;
  stp p' elm;;
  stf listelm le_prev (elm + le_next).

Definition LIST_INSERT_HEAD (head elm : Z) : M mem unit :=
  n ← ldf head lh_first;
  stf elm le_next n;;
  when (non_null n)
    (n' ← ldf head lh_first;
     stf n' le_prev (elm + le_next));;
  stf head lh_first elm;;
  stf elm le_prev (head + lh_first).

Definition LIST_REMOVE (elm : Z) : M mem unit :=
  n ← ldf elm le_next;
  when (non_null n)
    (n' ← ldf elm le_next;
     p ← ldf elm le_prev;
     stf n' le_prev p);;
  n ← ldf elm le_next;
  p ← ldf elm le_prev;
  stp p n.

Definition LIST_FIRST (head : Z) : M mem Z := ldf head lh_first.
Definition LIST_NEXT (elm : Z) : M mem Z := ldf elm le_next.
Definition LIST_EMPTY (head : Z) : M mem bool :=
  p ← ldf head lh_first; mret (p =? NULL).
Definition LIST_FOREACH (fuel : nat) (head : Z) : M mem (list Z) :=
  var ← ldf head lh_first; foreach fuel (λ var, ldf var le_next) var.

(** * Singly-linked lists *)

Definition slh_first : Z := 0.
Definition sle_next : Z := field.

Definition SLIST_HEAD_INITIALIZER (head : Z) : list Z := [NULL].

Definition SLIST_INIT (head : Z) : M mem unit := stf head slh_first NULL.

Definition SLIST_INSERT_AFTER (slistelm elm : Z) : M mem unit :=
  n ← ldf slistelm sle_next;
  stf elm sle_next n;;
  stf slistelm sle_next elm.

Definition SLIST_INSERT_HEAD (head elm : Z) : M mem unit :=
  n ← ldf head slh_first;
  stf elm sle_next n;;
  stf head slh_first elm.

Definition SLIST_REMOVE_HEAD (head : Z) : M mem unit :=
  e ← ldf head slh_first;
  n ← ldf e sle_next;
  stf head slh_first n.

Definition SLIST_REMOVE (fuel : nat) (head elm : Z) : M mem unit :=
  first ← ldf head slh_first;
  if first =? elm then SLIST_REMOVE_HEAD head
  else
    curelm ← ldf head slh_first;
    curelm ← find_prev fuel (λ e, ldf e sle_next) curelm elm;
    n ← ldf curelm sle_next;
    n' ← ldf n sle_next;
    stf curelm sle_next n'.

Definition SLIST_FIRST (head : Z) : M mem Z := ldf head slh_first.
Definition SLIST_NEXT (elm : Z) : M mem Z := ldf elm sle_next.
Definition SLIST_EMPTY (head : Z) : M mem bool :=
  p ← ldf head slh_first; mret (p =? NULL).
Definition SLIST_FOREACH (fuel : nat) (head : Z) : M mem (list Z) :=
  var ← ldf head slh_first; foreach fuel (λ var, ldf var sle_next) var.

(** * Singly-linked tail queues *)

Definition stqh_first : Z := 0.
Definition stqh_last : Z := 1.
Definition stqe_next : Z := field.

Definition STAILQ_HEAD_INITIALIZER (head : Z) : list Z := [NULL; head + stqh_first].

Definition STAILQ_INIT (head : Z) : M mem unit :=
  stf head stqh_first NULL;;
  stf head stqh_last (head + stqh_first).

Definition STAILQ_INSERT_HEAD (head elm : Z) : M mem unit :=
  n ← ldf head stqh_first;
  stf elm stqe_next n;;
  when (n =? NULL) (stf head stqh_last (elm + stqe_next));;
  stf head stqh_first elm.

Definition STAILQ_INSERT_TAIL (head elm : Z) : M mem unit :=
  stf elm stqe_next NULL;;
  p ← ldf head stqh_last;
  stp p elm;;
  stf head stqh_last (elm + stqe_next).

Definition STAILQ_INSERT_AFTER (head listelm elm : Z) : M mem unit :=
  n ← ldf listelm stqe_next;
  stf elm stqe_next n;;
  when (n =? NULL) (stf head stqh_last (elm + stqe_next));;
  stf listelm stqe_next elm.

Definition STAILQ_REMOVE_HEAD (head : Z) : M mem unit :=
  e ← ldf head stqh_first;
  n ← ldf e stqe_next;
  stf head stqh_first n;;
  when (n =? NULL) (stf head stqh_last (head + stqh_first)).

Definition STAILQ_REMOVE (fuel : nat) (head elm : Z) : M mem unit :=
  first ← ldf head stqh_first;
  if first =? elm then STAILQ_REMOVE_HEAD head
  else
    curelm ← ldf head stqh_first;
    curelm ← find_prev fuel (λ e, ldf e stqe_next) curelm elm;
    n ← ldf curelm stqe_next;
    n' ← ldf n stqe_next;
    stf curelm stqe_next n';;
    when (n' =? NULL) (stf head stqh_last (curelm + stqe_next)).

Definition STAILQ_EMPTY (head : Z) : M mem bool :=
  p ← ldf head stqh_first; mret (p =? NULL).

Definition STAILQ_CONCAT (head1 head2 : Z) : M mem unit :=
  b ← STAILQ_EMPTY head2;
  when (negb b)
    (f ← ldf head2 stqh_first;
     p ← ldf head1 stqh_last;
     stp p f;;
     p2 ← ldf head2 stqh_last;
     stf head1 stqh_last p2;;
     STAILQ_INIT head2).

Definition STAILQ_FIRST (head : Z) : M mem Z := ldf head stqh_first.
Definition STAILQ_NEXT (elm : Z) : M mem Z := ldf elm stqe_next.
Definition STAILQ_FOREACH (fuel : nat) (head : Z) : M mem (list Z) :=
  var ← ldf head stqh_first; foreach fuel (λ var, ldf var stqe_next) var.

(** * Simple queues *)

Definition sqh_first : Z := 0.
Definition sqh_last : Z := 1.
Definition sqe_next : Z := field.

Definition SIMPLEQ_HEAD_INITIALIZER (head : Z) : list Z := [NULL; head + sqh_first].

Definition SIMPLEQ_INIT (head : Z) : M mem unit :=
  stf head sqh_first NULL;;
  stf head sqh_last (head + sqh_first).

Definition SIMPLEQ_INSERT_HEAD (head elm : Z) : M mem unit :=
  n ← ldf head sqh_first;
  stf elm sqe_next n;;
  when (n =? NULL) (stf head sqh_last (elm + sqe_next));;
  stf head sqh_first elm.

Definition SIMPLEQ_INSERT_TAIL (head elm : Z) : M mem unit :=
  stf elm sqe_next NULL;;
  p ← ldf head sqh_last;
  stp p elm;;
  stf head sqh_last (elm + sqe_next).

Definition SIMPLEQ_INSERT_AFTER (head listelm elm : Z) : M mem unit :=
  n ← ldf listelm sqe_next;
  stf elm sqe_next n;;
  when (n =? NULL) (stf head sqh_last (elm + sqe_next));;
  stf listelm sqe_next elm.

Definition SIMPLEQ_REMOVE_HEAD (head : Z) : M mem unit :=
  e ← ldf head sqh_first;
  n ← ldf e sqe_next;
  stf head sqh_first n;;
  when (n =? NULL) (stf head sqh_last (head + sqh_first)).

Definition SIMPLEQ_REMOVE (fuel : nat) (head elm : Z) : M mem unit :=
  first ← ldf head sqh_first;
  if first =? elm then SIMPLEQ_REMOVE_HEAD head
  else
    curelm ← ldf head sqh_first;
    curelm ← find_prev fuel (λ e, ldf e sqe_next) curelm elm;
    n ← ldf curelm sqe_next;
    n' ← ldf n sqe_next;
    stf curelm sqe_next n';;
    when (n' =? NULL) (stf head sqh_last (curelm + sqe_next)).

Definition SIMPLEQ_FIRST (head : Z) : M mem Z := ldf head sqh_first.
Definition SIMPLEQ_NEXT (elm : Z) : M mem Z := ldf elm sqe_next.
Definition SIMPLEQ_EMPTY (head : Z) : M mem bool :=
  p ← ldf head sqh_first; mret (p =? NULL).
Definition SIMPLEQ_FOREACH (fuel : nat) (head : Z) : M mem (list Z) :=
  var ← ldf head sqh_first; foreach fuel (λ var, ldf var sqe_next) var.

(** * Tail queues *)

Definition tqh_first : Z := 0.
Definition tqh_last : Z := 1.
Definition tqe_next : Z := field.
Definition tqe_prev : Z := field + 1.

Definition TAILQ_HEAD_INITIALIZER (head : Z) : list Z := [NULL; head + tqh_first].

Definition TAILQ_INIT (head : Z) : M mem unit :=
  stf head tqh_first NULL;;
  stf head tqh_last (head + tqh_first).

Definition TAILQ_INSERT_HEAD (head elm : Z) : M mem unit :=
  n ← ldf head tqh_first;
  stf elm tqe_next n;;
  (if non_null n then
     n' ← ldf head tqh_first;
     stf n' tqe_prev (elm + tqe_next)
   else stf head tqh_last (elm + tqe_next));;
  stf head tqh_first elm;;
  stf elm tqe_prev (head + tqh_first).

Definition TAILQ_INSERT_TAIL (head elm : Z) : M mem unit :=
  stf elm tqe_next NULL;;
  p ← ldf head tqh_last;
  stf elm tqe_prev p;;
  p' ← ldf head tqh_last;
  stp p' elm;;
  stf head tqh_last (elm + tqe_next).

Definition TAILQ_INSERT_AFTER (head listelm elm : Z) : M mem unit :=
  n ← ldf listelm tqe_next;
  stf elm tqe_next n;;
  (if non_null n then
     n' ← ldf elm tqe_next;
     stf n' tqe_prev (elm + tqe_next)
   else stf head tqh_last (elm + tqe_next));;
  stf listelm tqe_next elm;;
  stf elm tqe_prev (listelm + tqe_next).

Definition TAILQ_INSERT_BEFORE (listelm elm : Z) : M mem unit :=
  p ← ldf listelm tqe_prev;
  stf elm tqe_prev p;;
  stf elm tqe_next listelm;;
  p' ← ldf listelm tqe_prev;
  stp p' elm;;
  stf listelm tqe_prev (elm + tqe_next).

Definition TAILQ_REMOVE (head elm : Z) : M mem unit :=
  n ← ldf elm tqe_next;
  (if non_null n then
     n' ← ldf elm tqe_next;
     p ← ldf elm tqe_prev;
     stf n' tqe_prev p
   else
     p ← ldf elm tqe_prev;
     stf head tqh_last p);;
  n ← ldf elm tqe_next;
  p ← ldf elm tqe_prev;
  stp p n.

Definition TAILQ_EMPTY (head : Z) : M mem bool :=
  p ← ldf head tqh_first; mret (p =? NULL).

Definition TAILQ_CONCAT (head1 head2 : Z) : M mem unit :=
  b ← TAILQ_EMPTY head2;
  when (negb b)
    (f ← ldf head2 tqh_first;
     p ← ldf head1 tqh_last;
     stp p f;;
     f' ← ldf head2 tqh_first;
     p' ← ldf head1 tqh_last;
     stf f' tqe_prev p';;
     p2 ← ldf head2 tqh_last;
     stf head1 tqh_last p2;;
     TAILQ_INIT head2).

(** [*(((struct headname * )p)->tqh_last)]: the address [p] of a next pointer
    read as the address of a head. *)
Definition tailq_deref_last (p : Z) : M mem Z :=
  q ← ldf p tqh_last; ldp q.

Definition TAILQ_FIRST (head : Z) : M mem Z := ldf head tqh_first.
Definition TAILQ_NEXT (elm : Z) : M mem Z := ldf elm tqe_next.
Definition TAILQ_LAST (head : Z) : M mem Z :=
  p ← ldf head tqh_last; tailq_deref_last p.
Definition TAILQ_PREV (elm : Z) : M mem Z :=
  p ← ldf elm tqe_prev; tailq_deref_last p.
Definition TAILQ_FOREACH (fuel : nat) (head : Z) : M mem (list Z) :=
  var ← ldf head tqh_first; foreach fuel (λ var, ldf var tqe_next) var.
Definition TAILQ_FOREACH_REVERSE (fuel : nat) (head : Z) : M mem (list Z) :=
  var ← (p ← ldf head tqh_last; tailq_deref_last p);
  foreach fuel (λ var, p ← ldf var tqe_prev; tailq_deref_last p) var.

(** * Circular queues *)

Definition cqh_first : Z := 0.
Definition cqh_last : Z := 1.
Definition cqe_next : Z := field.
Definition cqe_prev : Z := field + 1.

Definition CIRCLEQ_HEAD_INITIALIZER (head : Z) : list Z := [head; head].

Definition CIRCLEQ_INIT (head : Z) : M mem unit :=
  stf head cqh_first head;;
  stf head cqh_last head.

Definition CIRCLEQ_INSERT_AFTER (head listelm elm : Z) : M mem unit :=
  n ← ldf listelm cqe_next;
  stf elm cqe_next n;;
  stf elm cqe_prev listelm;;
  n ← ldf listelm cqe_next;
  (if n =? head then stf head cqh_last elm
   else n' ← ldf listelm cqe_next; stf n' cqe_prev elm);;
  stf listelm cqe_next elm.

Definition CIRCLEQ_INSERT_BEFORE (head listelm elm : Z) : M mem unit :=
  stf elm cqe_next listelm;;
  p ← ldf listelm cqe_prev;
  stf elm cqe_prev p;;
  p ← ldf listelm cqe_prev;
  (if p =? head then stf head cqh_first elm
   else p' ← ldf listelm cqe_prev; stf p' cqe_next elm);;
  stf listelm cqe_prev elm.

Definition CIRCLEQ_INSERT_HEAD (head elm : Z) : M mem unit :=
  f ← ldf head cqh_first;
  stf elm cqe_next f;;
  stf elm cqe_prev head;;
  l ← ldf head cqh_last;
  (if l =? head then stf head cqh_last elm
   else f ← ldf head cqh_first; stf f cqe_prev elm);;
  stf head cqh_first elm.

Definition CIRCLEQ_INSERT_TAIL (head elm : Z) : M mem unit :=
  stf elm cqe_next head;;
  l ← ldf head cqh_last;
  stf elm cqe_prev l;;
  f ← ldf head cqh_first;
  (if f =? head then stf head cqh_first elm
   else l ← ldf head cqh_last; stf l cqe_next elm);;
  stf head cqh_last elm.

Definition CIRCLEQ_REMOVE (head elm : Z) : M mem unit :=
  n ← ldf elm cqe_next;
  (if n =? head then
     p ← ldf elm cqe_prev;
     stf head cqh_last p
   else
     n' ← ldf elm cqe_next;
     p ← ldf elm cqe_prev;
     stf n' cqe_prev p);;
  p ← ldf elm cqe_prev;
  (if p =? head then
     n ← ldf elm cqe_next;
     stf head cqh_first n
   else
     p' ← ldf elm cqe_prev;
     n ← ldf elm cqe_next;
     stf p' cqe_next n).

Definition CIRCLEQ_FOREACH (fuel : nat) (head : Z) : M mem (list Z) :=
  var ← ldf head cqh_first; foreach_until fuel (λ var, ldf var cqe_next) head var.
Definition CIRCLEQ_FOREACH_REVERSE (fuel : nat) (head : Z) : M mem (list Z) :=
  var ← ldf head cqh_last; foreach_until fuel (λ var, ldf var cqe_prev) head var.

Definition CIRCLEQ_EMPTY (head : Z) : M mem bool :=
  p ← ldf head cqh_first; mret (p =? head).
Definition CIRCLEQ_FIRST (head : Z) : M mem Z := ldf head cqh_first.
Definition CIRCLEQ_LAST (head : Z) : M mem Z := ldf head cqh_last.
Definition CIRCLEQ_NEXT (elm : Z) : M mem Z := ldf elm cqe_next.
Definition CIRCLEQ_PREV (elm : Z) : M mem Z := ldf elm cqe_prev.

Definition CIRCLEQ_LOOP_NEXT (head elm : Z) : M mem Z :=
  n ← ldf elm cqe_next;
  if n =? head then ldf head cqh_first else ldf elm cqe_next.
Definition CIRCLEQ_LOOP_PREV (head elm : Z) : M mem Z :=
  p ← ldf elm cqe_prev;
  if p =? head then ldf head cqh_last else ldf elm cqe_prev.
End macros.
