(* ===== verification/QueueSeg.v ===== *)
(** Chains of elements in memory and traversals of them, shared by all the
    structures of [sys/queue.h]. *)
From stdpp Require Import base numbers list gmap.
From Stdlib Require Import ZArith Lia.
From iris.proofmode Require Import proofmode.
From S2P Require Import Prelude HeapLogic Queue.

(** * Doubly linked chains *)

Section dseg.
Context (field : Z) (Hfield : 0 <= field).

(** An element that is in no queue: its two members are allocated. *)
Definition dnode (e : Z) : hpropI :=
  ⌈0 < e⌉ ∗ alloc (e + field) ∗ alloc (e + (field + 1)).

(** Elements [l], doubly linked: [p] is the address of the next pointer that
    points to the first of them, [q] the address of the last next pointer,
    whose contents is not part of the assertion. *)
Fixpoint dseg (p : Z) (l : list Z) (q : Z) : hpropI :=
  match l with
  | [] => ⌈p = q⌉
  | e :: l' => ⌈0 < e⌉ ∗ p ↦ e ∗ (e + (field + 1)) ↦ p ∗ dseg (e + field) l' q
  end.

Lemma dseg_app p l1 l2 q : dseg p (l1 ++ l2) q ⊣⊢ ∃ r, dseg p l1 r ∗ dseg r l2 q.
Proof.
  revert p. induction l1 as [|e l1 IH]; intros p; cbn.
  - iSplit.
    + iIntros "H". iExists p. by iFrame.
    + iIntros "(%r & -> & H)". done.
  - iSplit.
    + iIntros "($ & $ & $ & H)". by iApply IH.
    + iIntros "(%r & ($ & $ & $ & H1) & H2)". iApply IH. iExists r. iFrame.
Qed.

Lemma dseg_pos p l q : 0 < p → dseg p l q ⊢ ⌜0 < q⌝.
Proof.
  iIntros (Hp). iInduction l as [|e l IH] forall (p Hp); cbn.
  - by iIntros (<-).
  - iIntros "(%He & _ & _ & H)". iApply ("IH" with "[] H"). iPureIntro. lia.
Qed.

Lemma dseg_all_pos p l q : dseg p l q ⊢ ⌜Forall (λ e, 0 < e) l⌝.
Proof.
  iIntros "H". iInduction l as [|e l IH] forall (p); cbn; [done|].
  iDestruct "H" as "(%He & _ & _ & H)". iDestruct ("IH" with "H") as %Hl. auto.
Qed.

(** The first element, or null, through the slot that points to it. *)
Lemma dseg_first p l q :
  dseg p l q ∗ q ↦ NULL ⊢
  p ↦ hd NULL l ∗ (p ↦ hd NULL l -∗ dseg p l q ∗ q ↦ NULL).
Proof.
  destruct l as [|e l]; cbn.
  - iIntros "[-> $]". iIntros "$". done.
  - iIntros "(($ & $ & $ & $) & $)". iIntros "$".
Qed.
End dseg.

(** * Singly linked chains *)

Section sseg.
Context (field : Z) (Hfield : 0 <= field).

Definition snode (e : Z) : hpropI := ⌈0 < e⌉ ∗ alloc (e + field).

Fixpoint sseg (p : Z) (l : list Z) (q : Z) : hpropI :=
  match l with
  | [] => ⌈p = q⌉
  | e :: l' => ⌈0 < e⌉ ∗ p ↦ e ∗ sseg (e + field) l' q
  end.

Lemma sseg_app p l1 l2 q : sseg p (l1 ++ l2) q ⊣⊢ ∃ r, sseg p l1 r ∗ sseg r l2 q.
Proof.
  revert p. induction l1 as [|e l1 IH]; intros p; cbn.
  - iSplit.
    + iIntros "H". iExists p. by iFrame.
    + iIntros "(%r & -> & H)". done.
  - iSplit.
    + iIntros "($ & $ & H)". by iApply IH.
    + iIntros "(%r & ($ & $ & H1) & H2)". iApply IH. iExists r. iFrame.
Qed.

Lemma sseg_pos p l q : 0 < p → sseg p l q ⊢ ⌜0 < q⌝.
Proof.
  iIntros (Hp). iInduction l as [|e l IH] forall (p Hp); cbn.
  - by iIntros (<-).
  - iIntros "(%He & _ & H)". iApply ("IH" with "[] H"). iPureIntro. lia.
Qed.

Lemma sseg_all_pos p l q : sseg p l q ⊢ ⌜Forall (λ e, 0 < e) l⌝.
Proof.
  iIntros "H". iInduction l as [|e l IH] forall (p); cbn; [done|].
  iDestruct "H" as "(%He & _ & H)". iDestruct ("IH" with "H") as %Hl. auto.
Qed.

Lemma sseg_first p l q :
  sseg p l q ∗ q ↦ NULL ⊢
  p ↦ hd NULL l ∗ (p ↦ hd NULL l -∗ sseg p l q ∗ q ↦ NULL).
Proof.
  destruct l as [|e l]; cbn.
  - iIntros "[-> $]". iIntros "$". done.
  - iIntros "(($ & $ & $) & $)". iIntros "$".
Qed.

(** The elements of a chain are distinct, because each owns its next pointer. *)
Lemma sseg_slot p l q o : sseg p l q ∗ cell q o ⊢ ∃ o', cell p o' ∗ True.
Proof.
  destruct l as [|e l]; cbn.
  - iIntros "[-> H]". iExists o. by iFrame.
  - iIntros "[(_ & H & _) _]". iExists (Some e). by iFrame.
Qed.

Lemma sseg_not_elem l q o e :
  sseg (e + field) l q ∗ cell q o ⊢ ⌜e ∉ l⌝.
Proof.
  iIntros "[Hs Hq]" (Hin). apply list_elem_of_split in Hin as (l1 & l2 & ->).
  iDestruct (sseg_app with "Hs") as (r) "(H1 & %He & Hr & H2)".
  iDestruct (sseg_slot with "[$H2 $Hq]") as (o2) "[H2 _]".
  iDestruct (sseg_slot with "[$H1 $Hr]") as (o1) "[H1 _]".
  iApply (cell_exclusive with "[$H1 $H2]").
Qed.

Lemma sseg_nodup p l q o : sseg p l q ∗ cell q o ⊢ ⌜NoDup l⌝.
Proof.
  iIntros "[Hs Hq]". iInduction l as [|e l IH] forall (p); cbn; [by iPureIntro; constructor|].
  iDestruct "Hs" as "(%He & Hp & Hs)".
  iAssert ⌜e ∉ l⌝%I as %Hnot; [by iApply (sseg_not_elem with "[$Hs $Hq]")|].
  iDestruct ("IH" with "Hs Hq") as %Hnd. iPureIntro. by constructor.
Qed.
End sseg.

(** * Traversals *)

Lemma hd_null_nil (l : list Z) :
  Forall (λ e, e ≠ NULL) l → (hd NULL l =? NULL) = bool_decide (l = []).
Proof. destruct 1 as [|e l He _]; [done|]. cbn. by apply Z.eqb_neq in He as ->. Qed.

Lemma exists_last_snoc (c : Z) (l : list Z) :
  ∃ l' y, c :: l = l' ++ [y] ∧ last (c :: l) = Some y.
Proof.
  destruct (exists_last (l := c :: l)) as (l' & y & E); [done|].
  exists l', y. by rw E last_snoc.
Qed.

Lemma last_rev_hd z (l : list Z) : default z (last (rev l)) = hd z l.
Proof. destruct l as [|x l]; [done|]. by rw /= last_snoc. Qed.

(** The loop [for (var = first; var != z; var = next(var))] over elements [l] that
    an assertion [Rep l] describes. *)
Section traversal.
Context (Rep : list Z → hpropI) (next : Z → M mem Z) (z : Z).
Context (Hne : ∀ l, Rep l ⊢ ⌜Forall (λ e, e ≠ z) l⌝).
Context (Hnext : ∀ l1 x l2,
  Rep (l1 ++ x :: l2) ⊢ hwp (next x) (λ v, ⌈v = hd z l2⌉ ∗ Rep (l1 ++ x :: l2))).

Lemma foreach_until_spec l1 l2 fuel :
  (length l2 ≤ fuel)%nat →
  Rep (l1 ++ l2) ⊢
  hwp (foreach_until fuel next z (hd z l2)) (λ vs, ⌈vs = l2⌉ ∗ Rep (l1 ++ l2)).
Proof using Type*.
  revert l1 fuel. induction l2 as [|x l2 IH]; intros l1 fuel Hf.
  - destruct fuel; cbn; rw Z.eqb_refl; iIntros "H"; h_ret; by iFrame.
  - destruct fuel as [|fuel]; [cbn in Hf; lia|]. iIntros "H".
    iDestruct (Hne with "H") as %Hl. apply Forall_app in Hl as [_ [Hx _]%Forall_cons].
    cbn. rw (proj2 (Z.eqb_neq x z) Hx). cbn.
    h_bind. iApply (hwp_wand with "[H]"); [by iApply Hnext|].
    iIntros (v) "[-> H]". h_bind. rw (cons_middle x l1 l2) (assoc_L (++)).
    iApply (hwp_wand with "[H]"); [iApply (IH with "H"); cbn in Hf; lia|].
    iIntros (vs) "[-> H]". h_ret. by iFrame.
Qed.

(** [while (next(curelm) != x) curelm = next(curelm);] finds the predecessor. *)
Context (Hnodup : ∀ l, Rep l ⊢ ⌜NoDup l⌝).

Lemma find_prev_spec l0 c l1 x l2 y fuel :
  (length l1 ≤ fuel)%nat → last (c :: l1) = Some y →
  Rep (l0 ++ (c :: l1) ++ x :: l2) ⊢
  hwp (find_prev fuel next c x) (λ v, ⌈v = y⌉ ∗ Rep (l0 ++ (c :: l1) ++ x :: l2)).
Proof using Type*.
  revert l0 c fuel. induction l1 as [|d l1 IH]; intros l0 c fuel Hf Hy.
  - injection Hy as ->. iIntros "H". cbn. destruct fuel; cbn;
      (h_bind; iApply (hwp_wand with "[H]"); [by iApply Hnext|];
       iIntros (v) "[-> H]"; cbn; rw Z.eqb_refl; h_ret; by iFrame).
  - destruct fuel as [|fuel]; [cbn in Hf; lia|]. iIntros "H".
    iDestruct (Hnodup with "H") as %Hnd.
    assert (d ≠ x) as Hdx.
    { intros ->. apply NoDup_app in Hnd as (_ & _ & Hnd). cbn in Hnd.
      apply NoDup_cons in Hnd as [_ [Hx _]%NoDup_cons]. set_solver. }
    cbn. h_bind. iApply (hwp_wand with "[H]"); [by iApply Hnext|].
    iIntros (v) "[-> H]". cbn. rw (proj2 (Z.eqb_neq d x) Hdx). cbn.
    h_bind. iApply (hwp_wand with "[H]"); [by iApply Hnext|].
    iIntros (v) "[-> H]". cbn.
    specialize (IH (l0 ++ [c]) d fuel). rw -!(assoc_L (++)) /= in IH.
    iApply (IH with "H"); [cbn in Hf; lia|done].
Qed.
End traversal.
