(* ===== verification/QueueTail.v ===== *)
(** Tail queues of [sys/queue.h]: the memory layout of a queue with a given list
    of elements, and what each [TAILQ] macro does to that list. *)
From stdpp Require Import base numbers list gmap.
From Stdlib Require Import ZArith Lia.
From iris.proofmode Require Import proofmode.
From S2P Require Import Prelude HeapLogic Queue QueueSeg.

Section tailq.
Context (field : Z) (Hfield : 0 <= field).
#[local] Abbreviation dnode := (dnode field).
#[local] Abbreviation dseg := (dseg field).

(** A tail queue with elements [l]. *)
Definition tailq (h : Z) (l : list Z) : hpropI :=
  ⌈0 < h⌉ ∗ ∃ q, dseg (h + 0) l q ∗ q ↦ NULL ∗ (h + 1) ↦ q.

Lemma TAILQ_INIT_spec h :
  0 < h → alloc (h + 0) ∗ alloc (h + 1) ⊢ hwp (TAILQ_INIT h) (λ _, tailq h []).
Proof.
  iIntros (Hh) "[[%o1 H1] [%o2 H2]]". rw /TAILQ_INIT. h_st "H1". h_st "H2".
  iSplit; [done|]. iExists (h + 0). by iFrame.
Qed.

Lemma TAILQ_INSERT_TAIL_spec h e l :
  tailq h l ∗ dnode e ⊢ hwp (TAILQ_INSERT_TAIL field h e) (λ _, tailq h (l ++ [e])).
Proof.
  iIntros "[(%Hh & %q & Hseg & Hq & Hlast) (%He & [%o1 Hn] & [%o2 Hp])]".
  iDestruct (dseg_pos with "Hseg") as %Hpos; [done|lia|].
  rw /TAILQ_INSERT_TAIL. h_st "Hn". h_ld "Hlast". h_st "Hp". h_ld "Hlast". h_st "Hq". h_st "Hlast".
  iSplit; [done|]. iExists (e + field). iFrame. iApply dseg_app. iExists q. iFrame. done.
Qed.

Lemma TAILQ_INSERT_HEAD_spec h e l :
  tailq h l ∗ dnode e ⊢ hwp (TAILQ_INSERT_HEAD field h e) (λ _, tailq h (e :: l)).
Proof.
  iIntros "[(%Hh & %q & Hseg & Hq & Hlast) (%He & [%o1 Hn] & [%o2 Hp])]".
  rw /TAILQ_INSERT_HEAD. destruct l as [|f l]; cbn [QueueSeg.dseg].
  - iDestruct "Hseg" as %<-. h_ld "Hq". h_st "Hn". cbn. h_st "Hlast". h_st "Hq". h_st "Hp".
    iSplit; [done|]. iExists (e + field). by iFrame.
  - iDestruct "Hseg" as "(%Hf & Hs & Hfp & Hseg)". h_ld "Hs". h_st "Hn".
    rw /non_null (proj2 (Z.eqb_neq f NULL)); [|lia]. cbn.
    h_bind. h_ld "Hs". h_st "Hfp". h_st "Hs". h_st "Hp".
    iSplit; [done|]. iExists q. iFrame. done.
Qed.

Lemma TAILQ_INSERT_AFTER_spec h x e l1 l2 :
  tailq h (l1 ++ x :: l2) ∗ dnode e ⊢
  hwp (TAILQ_INSERT_AFTER field h x e) (λ _, tailq h (l1 ++ x :: e :: l2)).
Proof.
  iIntros "[(%Hh & %q & Hseg & Hq & Hlast) (%He & [%o1 Hn] & [%o2 Hp])]".
  iDestruct (dseg_app with "Hseg") as (r) "(Hseg1 & %Hx & Hr & Hxp & Hseg)".
  rw /TAILQ_INSERT_AFTER. destruct l2 as [|f l2]; cbn [QueueSeg.dseg].
  - iDestruct "Hseg" as %<-. h_ld "Hq". h_st "Hn". cbn. h_st "Hlast". h_st "Hq". h_st "Hp".
    iSplit; [done|]. iExists (e + field). iFrame. iApply dseg_app. iExists r. by iFrame.
  - iDestruct "Hseg" as "(%Hf & Hs & Hfp & Hseg)". h_ld "Hs". h_st "Hn".
    rw /non_null (proj2 (Z.eqb_neq f NULL)); [|lia]. cbn.
    h_bind. h_ld "Hn". h_st "Hfp". h_st "Hs". h_st "Hp".
    iSplit; [done|]. iExists q. iFrame. iApply dseg_app. iExists r. by iFrame.
Qed.

Lemma TAILQ_INSERT_BEFORE_spec h x e l1 l2 :
  tailq h (l1 ++ x :: l2) ∗ dnode e ⊢
  hwp (TAILQ_INSERT_BEFORE field x e) (λ _, tailq h (l1 ++ e :: x :: l2)).
Proof.
  iIntros "[(%Hh & %q & Hseg & Hq & Hlast) (%He & [%o1 Hn] & [%o2 Hp])]".
  iDestruct (dseg_app with "Hseg") as (r) "(Hseg1 & %Hx & Hr & Hxp & Hseg)".
  iDestruct (dseg_pos with "Hseg1") as %Hr; [done|lia|].
  rw /TAILQ_INSERT_BEFORE.
  h_ld "Hxp". h_st "Hp". h_st "Hn". h_ld "Hxp". h_st "Hr". h_st "Hxp".
  iSplit; [done|]. iExists q. iFrame. iApply dseg_app. iExists r. by iFrame.
Qed.

Lemma TAILQ_REMOVE_spec h x l1 l2 :
  tailq h (l1 ++ x :: l2) ⊢
  hwp (TAILQ_REMOVE field h x) (λ _, tailq h (l1 ++ l2) ∗ dnode x).
Proof.
  iIntros "(%Hh & %q & Hseg & Hq & Hlast)".
  iDestruct (dseg_app with "Hseg") as (r) "(Hseg1 & %Hx & Hr & Hxp & Hseg)".
  iDestruct (dseg_pos with "Hseg1") as %Hr; [done|lia|].
  rw /TAILQ_REMOVE. destruct l2 as [|f l2]; cbn [QueueSeg.dseg].
  - iDestruct "Hseg" as %<-. h_ld "Hq". cbn. h_bind. h_ld "Hxp". h_st "Hlast".
    h_ld "Hq". h_ld "Hxp". h_st "Hr". rw app_nil_r.
    iSplitR "Hq Hxp"; [iSplit; [done|]; iExists r; iFrame|].
    iSplit; [done|]. iSplitL "Hq"; by iExists _.
  - iDestruct "Hseg" as "(%Hf & Hs & Hfp & Hseg)". h_ld "Hs".
    rw /non_null (proj2 (Z.eqb_neq f NULL)); [|lia]. cbn.
    h_bind. h_ld "Hs". h_ld "Hxp". h_st "Hfp". h_ld "Hs". h_ld "Hxp". h_st "Hr".
    iSplitR "Hs Hxp"; [iSplit; [done|]; iExists q; iFrame|].
    + iApply dseg_app. iExists r. by iFrame.
    + iSplit; [done|]. iSplitL "Hs"; by iExists _.
Qed.

Lemma TAILQ_CONCAT_spec h1 h2 l1 l2 :
  tailq h1 l1 ∗ tailq h2 l2 ⊢
  hwp (TAILQ_CONCAT field h1 h2) (λ _, tailq h1 (l1 ++ l2) ∗ tailq h2 []).
Proof.
  iIntros "[(%Hh1 & %q1 & Hseg1 & Hq1 & Hlast1) (%Hh2 & %q2 & Hseg2 & Hq2 & Hlast2)]".
  iDestruct (dseg_pos with "Hseg1") as %Hr; [done|lia|].
  rw /TAILQ_CONCAT /TAILQ_EMPTY. destruct l2 as [|f l2]; cbn [QueueSeg.dseg].
  - iDestruct "Hseg2" as %<-. h_bind. h_ld "Hq2". h_ret. cbn. h_ret. rw app_nil_r.
    iSplitL "Hseg1 Hq1 Hlast1"; (iSplit; [done|]); iExists _; by iFrame.
  - iDestruct "Hseg2" as "(%Hf & Hs & Hfp & Hseg2)". h_bind. h_ld "Hs". h_ret.
    rw (proj2 (Z.eqb_neq f NULL)); [|lia]. cbn.
    h_ld "Hs". h_ld "Hlast1". h_st "Hq1". h_ld "Hs". h_ld "Hlast1". h_st "Hfp".
    h_ld "Hlast2". h_st "Hlast1". rw /TAILQ_INIT. h_st "Hs". h_st "Hlast2".
    iSplitR "Hs Hlast2".
    + iSplit; [done|]. iExists q2. iFrame. iApply dseg_app. iExists q1. by iFrame.
    + iSplit; [done|]. iExists (h2 + 0). by iFrame.
Qed.

(** ** Access methods *)

Lemma TAILQ_FIRST_spec h l :
  tailq h l ⊢ hwp (TAILQ_FIRST h) (λ v, ⌈v = hd NULL l⌉ ∗ tailq h l).
Proof.
  iIntros "(%Hh & %q & Hseg & Hq & Hlast)".
  iDestruct (dseg_first with "[$Hseg $Hq]") as "[Hf Hback]".
  rw /TAILQ_FIRST. h_ld "Hf". iSplit; [done|]. iSplit; [done|].
  iExists q. iDestruct ("Hback" with "Hf") as "[$ $]". done.
Qed.

Lemma TAILQ_EMPTY_spec h l :
  tailq h l ⊢ hwp (TAILQ_EMPTY h) (λ b, ⌈b = bool_decide (l = [])⌉ ∗ tailq h l).
Proof.
  iIntros "(%Hh & %q & Hseg & Hq & Hlast)". iDestruct (dseg_all_pos with "Hseg") as %Hl.
  iDestruct (dseg_first with "[$Hseg $Hq]") as "[Hf Hback]".
  rw /TAILQ_EMPTY. h_ld "Hf". h_ret. iSplit.
  { iPureIntro. destruct l as [|e l]; [done|]. apply Forall_cons in Hl as [He _].
    cbn. rw (proj2 (Z.eqb_neq e NULL)); [done|lia]. }
  iSplit; [done|]. iExists q. iDestruct ("Hback" with "Hf") as "[$ $]". done.
Qed.

Lemma TAILQ_NEXT_spec h x l1 l2 :
  tailq h (l1 ++ x :: l2) ⊢
  hwp (TAILQ_NEXT field x) (λ v, ⌈v = hd NULL l2⌉ ∗ tailq h (l1 ++ x :: l2)).
Proof.
  iIntros "(%Hh & %q & Hseg & Hq & Hlast)".
  iDestruct (dseg_app with "Hseg") as (r) "(Hseg1 & %Hx & Hr & Hxp & Hseg)".
  iDestruct (dseg_first with "[$Hseg $Hq]") as "[Hf Hback]".
  rw /TAILQ_NEXT. h_ld "Hf". iSplit; [done|]. iSplit; [done|].
  iDestruct ("Hback" with "Hf") as "[Hseg Hq]". iExists q. iFrame.
  iApply dseg_app. iExists r. by iFrame.
Qed.

(** The queue around the slot [r] after its first elements [l1]. *)
Definition tailq_at (h : Z) (l1 l2 : list Z) (r : Z) : hpropI :=
  ⌈0 < h⌉ ∗ ∃ q, dseg (h + 0) l1 r ∗ dseg r l2 q ∗ q ↦ NULL ∗ (h + 1) ↦ q.

Lemma tailq_at_split h l1 l2 : tailq h (l1 ++ l2) ⊣⊢ ∃ r, tailq_at h l1 l2 r.
Proof.
  iSplit.
  - iIntros "(%Hh & %q & Hseg & Hq & Hlast)".
    iDestruct (dseg_app with "Hseg") as (r) "[H1 H2]". iExists r. iSplit; [done|].
    iExists q. iFrame.
  - iIntros "(%r & %Hh & %q & H1 & H2 & Hq & Hlast)". iSplit; [done|]. iExists q. iFrame.
    iApply dseg_app. iExists r. iFrame.
Qed.

(** A slot read as a head: its second word leads back to the slot before, which
    points to the last element of [l1]. *)
Lemma tailq_deref_last_spec h l1 l2 r :
  tailq_at h l1 l2 r ⊢
  hwp (tailq_deref_last r) (λ v, ⌈v = default NULL (last l1)⌉ ∗ tailq_at h l1 l2 r).
Proof.
  iIntros "(%Hh & %q & H1 & H2 & Hq & Hlast)". rw /tailq_deref_last /tqh_last.
  destruct l1 as [|x l1 _] using rev_ind.
  - iDestruct "H1" as %<-. iDestruct (dseg_pos with "H2") as %Hpos; [done|lia|].
    rw (_ : h + 1 = h + 0 + 1); [|lia]. h_ld "Hlast". h_ld "Hq".
    iSplit; [done|]. iSplit; [done|]. iExists q.
    rw (_ : h + 0 + 1 = h + 1); [|lia]. by iFrame.
  - iDestruct (dseg_app with "H1") as (s) "(H1 & %Hx & Hs & Hxp & <-)".
    iDestruct (dseg_pos with "H1") as %Hpos; [done|lia|].
    rw (_ : x + (field + 1) = x + field + 1); [|lia]. h_ld "Hxp". h_ld "Hs".
    rw last_snoc. iSplit; [done|]. iSplit; [done|]. iExists q. iFrame.
    iApply dseg_app. iExists s. iFrame. cbn. 
    rw (_ : x + (field + 1) = x + field + 1); [|lia]. by iFrame.
Qed.

Lemma TAILQ_LAST_spec h l :
  tailq h l ⊢ hwp (TAILQ_LAST h) (λ v, ⌈v = default NULL (last l)⌉ ∗ tailq h l).
Proof.
  rw -{1}(app_nil_r l) tailq_at_split. iIntros "(%r & %Hh & %q & H1 & <- & Hq & Hlast)".
  rw /TAILQ_LAST. h_ld "Hlast".
  iApply (hwp_wand with "[-]").
  - iApply (tailq_deref_last_spec h l [] r). iSplit; [done|]. iExists r. by iFrame.
  - iIntros (v) "[$ H]". rw -{2}(app_nil_r l) tailq_at_split. by iExists r.
Qed.

Lemma TAILQ_PREV_spec h x l1 l2 :
  tailq h (l1 ++ x :: l2) ⊢
  hwp (TAILQ_PREV field x) (λ v, ⌈v = default NULL (last l1)⌉ ∗ tailq h (l1 ++ x :: l2)).
Proof.
  rw {1}tailq_at_split. iIntros "(%r & %Hh & %q & H1 & (%Hx & Hr & Hxp & H2) & Hq & Hlast)".
  rw /TAILQ_PREV. h_ld "Hxp".
  iApply (hwp_wand with "[-]").
  - iApply (tailq_deref_last_spec h l1 (x :: l2) r). iSplit; [done|]. iExists q. by iFrame.
  - iIntros (v) "[$ H]". rw tailq_at_split. by iExists r.
Qed.

(** ** Traversals *)

Lemma tailq_nonnull h l : tailq h l ⊢ ⌜Forall (λ e, e ≠ NULL) l⌝.
Proof.
  iIntros "(_ & %q & H & _)". iDestruct (dseg_all_pos with "H") as %H.
  iPureIntro. eapply Forall_impl; [done|]. cbn. lia.
Qed.

Lemma TAILQ_FOREACH_spec h l fuel :
  (length l ≤ fuel)%nat →
  tailq h l ⊢ hwp (TAILQ_FOREACH field fuel h) (λ vs, ⌈vs = l⌉ ∗ tailq h l).
Proof.
  iIntros (Hf) "H". rw /TAILQ_FOREACH. h_bind.
  iApply (hwp_wand with "[H]"); [by iApply TAILQ_FIRST_spec|]. iIntros (v) "[-> H]".
  by iApply (foreach_until_spec (tailq h) _ NULL (tailq_nonnull h)
    (λ l1 x l2, TAILQ_NEXT_spec h x l1 l2) [] l with "H").
Qed.

(** The same queue seen from its end. *)
Lemma tailq_rev_nonnull h l : tailq h (rev l) ⊢ ⌜Forall (λ e, e ≠ NULL) l⌝.
Proof.
  iIntros "H". iDestruct (tailq_nonnull with "H") as %H%Forall_rev.
  by rw rev_involutive in H.
Qed.

Lemma TAILQ_PREV_rev_spec h l1 x l2 :
  tailq h (rev (l1 ++ x :: l2)) ⊢
  hwp (TAILQ_PREV field x) (λ v, ⌈v = hd NULL l2⌉ ∗ tailq h (rev (l1 ++ x :: l2))).
Proof.
  rw rev_app_distr /= -(assoc_L (++)) /= -(last_rev_hd NULL l2). apply TAILQ_PREV_spec.
Qed.

Lemma TAILQ_FOREACH_REVERSE_spec h l fuel :
  (length l ≤ fuel)%nat →
  tailq h l ⊢ hwp (TAILQ_FOREACH_REVERSE field fuel h) (λ vs, ⌈vs = rev l⌉ ∗ tailq h l).
Proof.
  iIntros (Hf) "H". rw /TAILQ_FOREACH_REVERSE. h_bind.
  iApply (hwp_wand with "[H]"); [by iApply TAILQ_LAST_spec|]. iIntros (v) "[-> H]".
  pose proof (foreach_until_spec (λ l, tailq h (rev l)) _ NULL (tailq_rev_nonnull h)
    (TAILQ_PREV_rev_spec h) [] (rev l) fuel) as Hs.
  rw /= rev_involutive -last_rev_hd rev_involutive length_rev in Hs.
  by iApply (Hs Hf).
Qed.
End tailq.
