(* ===== verification/QueueList.v ===== *)
(** Lists and singly-linked lists of [sys/queue.h]: what each [LIST] and [SLIST]
    macro does to the list of elements in memory. *)
From stdpp Require Import base numbers list gmap.
From Stdlib Require Import ZArith Lia.
From iris.proofmode Require Import proofmode.
From S2P Require Import Prelude HeapLogic Queue QueueSeg.

(** * Lists *)

Section dlist.
Context (field : Z) (Hfield : 0 <= field).
#[local] Abbreviation dnode := (dnode field).
#[local] Abbreviation dseg := (dseg field).

Definition dlist (h : Z) (l : list Z) : hpropI :=
  ⌈0 < h⌉ ∗ ∃ q, dseg (h + 0) l q ∗ q ↦ NULL.

Lemma LIST_INIT_spec h : 0 < h → alloc (h + 0) ⊢ hwp (LIST_INIT h) (λ _, dlist h []).
Proof.
  iIntros (Hh) "[%o H]". rw /LIST_INIT. h_st "H". iSplit; [done|]. iExists (h + 0). by iFrame.
Qed.

Lemma LIST_INSERT_HEAD_spec h e l :
  dlist h l ∗ dnode e ⊢ hwp (LIST_INSERT_HEAD field h e) (λ _, dlist h (e :: l)).
Proof.
  iIntros "[(%Hh & %q & Hseg & Hq) (%He & [%o1 Hn] & [%o2 Hp])]".
  rw /LIST_INSERT_HEAD. destruct l as [|f l]; cbn [QueueSeg.dseg].
  - iDestruct "Hseg" as %<-. h_ld "Hq". h_st "Hn". cbn. h_bind. h_ret. h_st "Hq". h_st "Hp".
    iSplit; [done|]. iExists (e + field). by iFrame.
  - iDestruct "Hseg" as "(%Hf & Hs & Hfp & Hseg)". h_ld "Hs". h_st "Hn".
    rw /non_null (proj2 (Z.eqb_neq f NULL)); [|lia]. cbn.
    h_bind. h_ld "Hs". h_st "Hfp". h_st "Hs". h_st "Hp".
    iSplit; [done|]. iExists q. iFrame. done.
Qed.

Lemma LIST_INSERT_AFTER_spec h x e l1 l2 :
  dlist h (l1 ++ x :: l2) ∗ dnode e ⊢
  hwp (LIST_INSERT_AFTER field x e) (λ _, dlist h (l1 ++ x :: e :: l2)).
Proof.
  iIntros "[(%Hh & %q & Hseg & Hq) (%He & [%o1 Hn] & [%o2 Hp])]".
  iDestruct (dseg_app with "Hseg") as (r) "(Hseg1 & %Hx & Hr & Hxp & Hseg)".
  rw /LIST_INSERT_AFTER. destruct l2 as [|f l2]; cbn [QueueSeg.dseg].
  - iDestruct "Hseg" as %<-. h_ld "Hq". h_st "Hn". cbn. h_bind. h_ret. h_st "Hq". h_st "Hp".
    iSplit; [done|]. iExists (e + field). iFrame. iApply dseg_app. iExists r. by iFrame.
  - iDestruct "Hseg" as "(%Hf & Hs & Hfp & Hseg)". h_ld "Hs". h_st "Hn".
    rw /non_null (proj2 (Z.eqb_neq f NULL)); [|lia]. cbn.
    h_bind. h_ld "Hs". h_st "Hfp". h_st "Hs". h_st "Hp".
    iSplit; [done|]. iExists q. iFrame. iApply dseg_app. iExists r. by iFrame.
Qed.

Lemma LIST_INSERT_BEFORE_spec h x e l1 l2 :
  dlist h (l1 ++ x :: l2) ∗ dnode e ⊢
  hwp (LIST_INSERT_BEFORE field x e) (λ _, dlist h (l1 ++ e :: x :: l2)).
Proof.
  iIntros "[(%Hh & %q & Hseg & Hq) (%He & [%o1 Hn] & [%o2 Hp])]".
  iDestruct (dseg_app with "Hseg") as (r) "(Hseg1 & %Hx & Hr & Hxp & Hseg)".
  iDestruct (dseg_pos with "Hseg1") as %Hr; [done|lia|].
  rw /LIST_INSERT_BEFORE.
  h_ld "Hxp". h_st "Hp". h_st "Hn". h_ld "Hxp". h_st "Hr". h_st "Hxp".
  iSplit; [done|]. iExists q. iFrame. iApply dseg_app. iExists r. by iFrame.
Qed.

Lemma LIST_REMOVE_spec h x l1 l2 :
  dlist h (l1 ++ x :: l2) ⊢ hwp (LIST_REMOVE field x) (λ _, dlist h (l1 ++ l2) ∗ dnode x).
Proof.
  iIntros "(%Hh & %q & Hseg & Hq)".
  iDestruct (dseg_app with "Hseg") as (r) "(Hseg1 & %Hx & Hr & Hxp & Hseg)".
  iDestruct (dseg_pos with "Hseg1") as %Hr; [done|lia|].
  rw /LIST_REMOVE. destruct l2 as [|f l2]; cbn [QueueSeg.dseg].
  - iDestruct "Hseg" as %<-. h_ld "Hq". cbn. h_bind. h_ret.
    h_ld "Hq". h_ld "Hxp". h_st "Hr". rw app_nil_r.
    iSplitR "Hq Hxp"; [iSplit; [done|]; iExists r; iFrame|].
    iSplit; [done|]. iSplitL "Hq"; by iExists _.
  - iDestruct "Hseg" as "(%Hf & Hs & Hfp & Hseg)". h_ld "Hs".
    rw /non_null (proj2 (Z.eqb_neq f NULL)); [|lia]. cbn.
    h_bind. h_ld "Hs". h_ld "Hxp". h_st "Hfp". h_ld "Hs". h_ld "Hxp". h_st "Hr".
    iSplitR "Hs Hxp"; [iSplit; [done|]; iExists q; iFrame|].
    + iApply dseg_app. iExists r. by iFrame.
    + iSplit; [done|]. iSplitL "Hs"; by iExists _.
Qed.

Lemma LIST_FIRST_spec h l :
  dlist h l ⊢ hwp (LIST_FIRST h) (λ v, ⌈v = hd NULL l⌉ ∗ dlist h l).
Proof.
  iIntros "(%Hh & %q & Hseg & Hq)".
  iDestruct (dseg_first with "[$Hseg $Hq]") as "[Hf Hback]".
  rw /LIST_FIRST. h_ld "Hf". iSplit; [done|]. iSplit; [done|].
  iExists q. by iApply "Hback".
Qed.

Lemma LIST_NEXT_spec h l1 x l2 :
  dlist h (l1 ++ x :: l2) ⊢
  hwp (LIST_NEXT field x) (λ v, ⌈v = hd NULL l2⌉ ∗ dlist h (l1 ++ x :: l2)).
Proof.
  iIntros "(%Hh & %q & Hseg & Hq)".
  iDestruct (dseg_app with "Hseg") as (r) "(Hseg1 & %Hx & Hr & Hxp & Hseg)".
  iDestruct (dseg_first with "[$Hseg $Hq]") as "[Hf Hback]".
  rw /LIST_NEXT. h_ld "Hf". iSplit; [done|]. iSplit; [done|].
  iDestruct ("Hback" with "Hf") as "[Hseg Hq]". iExists q. iFrame.
  iApply dseg_app. iExists r. by iFrame.
Qed.

Lemma dlist_nonnull h l : dlist h l ⊢ ⌜Forall (λ e, e ≠ NULL) l⌝.
Proof.
  iIntros "(_ & %q & H & _)". iDestruct (dseg_all_pos with "H") as %H.
  iPureIntro. eapply Forall_impl; [done|]. cbn. lia.
Qed.

Lemma LIST_EMPTY_spec h l :
  dlist h l ⊢ hwp (LIST_EMPTY h) (λ b, ⌈b = bool_decide (l = [])⌉ ∗ dlist h l).
Proof.
  iIntros "H". iDestruct (dlist_nonnull with "H") as %Hl.
  rw /LIST_EMPTY. h_bind. iApply (hwp_wand with "[H]"); [by iApply LIST_FIRST_spec|].
  iIntros (v) "[-> H]". h_ret. rw (hd_null_nil l Hl). by iFrame.
Qed.

Lemma LIST_FOREACH_spec h l fuel :
  (length l ≤ fuel)%nat →
  dlist h l ⊢ hwp (LIST_FOREACH field fuel h) (λ vs, ⌈vs = l⌉ ∗ dlist h l).
Proof.
  iIntros (Hf) "H". rw /LIST_FOREACH. h_bind.
  iApply (hwp_wand with "[H]"); [by iApply LIST_FIRST_spec|]. iIntros (v) "[-> H]".
  by iApply (foreach_until_spec (dlist h) _ NULL (dlist_nonnull h) (LIST_NEXT_spec h) [] l
    with "H").
Qed.
End dlist.

(** * Singly-linked lists *)

Section slist.
Context (field : Z) (Hfield : 0 <= field).
#[local] Abbreviation snode := (snode field).
#[local] Abbreviation sseg := (sseg field).

Definition slist (h : Z) (l : list Z) : hpropI :=
  ⌈0 < h⌉ ∗ ∃ q, sseg (h + 0) l q ∗ q ↦ NULL.

Lemma SLIST_INIT_spec h : 0 < h → alloc (h + 0) ⊢ hwp (SLIST_INIT h) (λ _, slist h []).
Proof.
  iIntros (Hh) "[%o H]". rw /SLIST_INIT. h_st "H". iSplit; [done|]. iExists (h + 0). by iFrame.
Qed.

Lemma SLIST_INSERT_HEAD_spec h e l :
  slist h l ∗ snode e ⊢ hwp (SLIST_INSERT_HEAD field h e) (λ _, slist h (e :: l)).
Proof.
  iIntros "[(%Hh & %q & Hseg & Hq) (%He & [%o Hn])]". rw /SLIST_INSERT_HEAD.
  destruct l as [|f l]; cbn [QueueSeg.sseg].
  - iDestruct "Hseg" as %<-. h_ld "Hq". h_st "Hn". h_st "Hq".
    iSplit; [done|]. iExists (e + field). by iFrame.
  - iDestruct "Hseg" as "(%Hf & Hs & Hseg)". h_ld "Hs". h_st "Hn". h_st "Hs".
    iSplit; [done|]. iExists q. by iFrame.
Qed.

Lemma SLIST_INSERT_AFTER_spec h x e l1 l2 :
  slist h (l1 ++ x :: l2) ∗ snode e ⊢
  hwp (SLIST_INSERT_AFTER field x e) (λ _, slist h (l1 ++ x :: e :: l2)).
Proof.
  iIntros "[(%Hh & %q & Hseg & Hq) (%He & [%o Hn])]". rw /SLIST_INSERT_AFTER.
  iDestruct (sseg_app with "Hseg") as (r) "(Hseg1 & %Hx & Hr & Hseg)".
  destruct l2 as [|f l2]; cbn [QueueSeg.sseg].
  - iDestruct "Hseg" as %<-. h_ld "Hq". h_st "Hn". h_st "Hq".
    iSplit; [done|]. iExists (e + field). iFrame. iApply sseg_app. iExists r. by iFrame.
  - iDestruct "Hseg" as "(%Hf & Hs & Hseg)". h_ld "Hs". h_st "Hn". h_st "Hs".
    iSplit; [done|]. iExists q. iFrame. iApply sseg_app. iExists r. by iFrame.
Qed.

Lemma SLIST_REMOVE_HEAD_spec h e l :
  slist h (e :: l) ⊢ hwp (SLIST_REMOVE_HEAD field h) (λ _, slist h l ∗ snode e).
Proof.
  iIntros "(%Hh & %q & (%He & Hs & Hseg) & Hq)". rw /SLIST_REMOVE_HEAD. h_ld "Hs".
  destruct l as [|f l]; cbn [QueueSeg.sseg].
  - iDestruct "Hseg" as %<-. h_ld "Hq". h_st "Hs". iSplitL "Hs"; iSplit; try done.
    + iExists (h + 0). by iFrame.
    + by iExists _.
  - iDestruct "Hseg" as "(%Hf & Hn & Hseg)". h_ld "Hn". h_st "Hs".
    iSplitR "Hn"; iSplit; try done; [iExists q; by iFrame|by iExists _].
Qed.

Lemma SLIST_FIRST_spec h l :
  slist h l ⊢ hwp (SLIST_FIRST h) (λ v, ⌈v = hd NULL l⌉ ∗ slist h l).
Proof.
  iIntros "(%Hh & %q & Hseg & Hq)".
  iDestruct (sseg_first with "[$Hseg $Hq]") as "[Hf Hback]".
  rw /SLIST_FIRST. h_ld "Hf". iSplit; [done|]. iSplit; [done|].
  iExists q. by iApply "Hback".
Qed.

Lemma SLIST_NEXT_spec h l1 x l2 :
  slist h (l1 ++ x :: l2) ⊢
  hwp (SLIST_NEXT field x) (λ v, ⌈v = hd NULL l2⌉ ∗ slist h (l1 ++ x :: l2)).
Proof.
  iIntros "(%Hh & %q & Hseg & Hq)".
  iDestruct (sseg_app with "Hseg") as (r) "(Hseg1 & %Hx & Hr & Hseg)".
  iDestruct (sseg_first with "[$Hseg $Hq]") as "[Hf Hback]".
  rw /SLIST_NEXT. h_ld "Hf". iSplit; [done|]. iSplit; [done|].
  iDestruct ("Hback" with "Hf") as "[Hseg Hq]". iExists q. iFrame.
  iApply sseg_app. iExists r. by iFrame.
Qed.

Lemma slist_nonnull h l : slist h l ⊢ ⌜Forall (λ e, e ≠ NULL) l⌝.
Proof.
  iIntros "(_ & %q & H & _)". iDestruct (sseg_all_pos with "H") as %H.
  iPureIntro. eapply Forall_impl; [done|]. cbn. lia.
Qed.

Lemma slist_nodup h l : slist h l ⊢ ⌜NoDup l⌝.
Proof. iIntros "(_ & %q & Hs & Hq)". iApply (sseg_nodup with "[$Hs $Hq]"). Qed.

Lemma SLIST_EMPTY_spec h l :
  slist h l ⊢ hwp (SLIST_EMPTY h) (λ b, ⌈b = bool_decide (l = [])⌉ ∗ slist h l).
Proof.
  iIntros "H". iDestruct (slist_nonnull with "H") as %Hl.
  rw /SLIST_EMPTY. h_bind. iApply (hwp_wand with "[H]"); [by iApply SLIST_FIRST_spec|].
  iIntros (v) "[-> H]". h_ret. rw (hd_null_nil l Hl). by iFrame.
Qed.

Lemma SLIST_FOREACH_spec h l fuel :
  (length l ≤ fuel)%nat →
  slist h l ⊢ hwp (SLIST_FOREACH field fuel h) (λ vs, ⌈vs = l⌉ ∗ slist h l).
Proof.
  iIntros (Hf) "H". rw /SLIST_FOREACH. h_bind.
  iApply (hwp_wand with "[H]"); [by iApply SLIST_FIRST_spec|]. iIntros (v) "[-> H]".
  by iApply (foreach_until_spec (slist h) _ NULL (slist_nonnull h) (SLIST_NEXT_spec h) [] l
    with "H").
Qed.

(** Unlinking the element after [y]. *)
Lemma SLIST_unlink_spec h y x l1 l2 :
  slist h (l1 ++ y :: x :: l2) ⊢
  hwp (n ← ldf y (sle_next field); n' ← ldf n (sle_next field); stf y (sle_next field) n')
      (λ _, slist h (l1 ++ y :: l2) ∗ snode x).
Proof.
  iIntros "(%Hh & %q & Hseg & Hq)".
  iDestruct (sseg_app with "Hseg") as (r) "(Hseg1 & %Hy & Hr & %Hx & Hyn & Hseg)".
  h_ld "Hyn". destruct l2 as [|f l2]; cbn [QueueSeg.sseg].
  - iDestruct "Hseg" as %<-. h_ld "Hq". h_st "Hyn".
    iSplitR "Hq"; iSplit; try done; [|by iExists _].
    iExists (y + field). iFrame. iApply sseg_app. iExists r. by iFrame.
  - iDestruct "Hseg" as "(%Hf & Hs & Hseg)". h_ld "Hs". h_st "Hyn".
    iSplitR "Hs"; iSplit; try done; [|by iExists _].
    iExists q. iFrame. iApply sseg_app. iExists r. by iFrame.
Qed.

Lemma SLIST_REMOVE_spec h x l1 l2 fuel :
  (length l1 ≤ fuel)%nat →
  slist h (l1 ++ x :: l2) ⊢
  hwp (SLIST_REMOVE field fuel h x) (λ _, slist h (l1 ++ l2) ∗ snode x).
Proof.
  iIntros (Hf) "H". rw /SLIST_REMOVE. iDestruct (slist_nodup with "H") as %Hnd.
  h_bind. iApply (hwp_wand with "[H]"); [by iApply SLIST_FIRST_spec|]. iIntros (v) "[-> H]".
  destruct l1 as [|c l1]; cbn.
  - rw Z.eqb_refl. by iApply SLIST_REMOVE_HEAD_spec.
  - assert (c ≠ x) as Hcx by (apply NoDup_cons in Hnd as [Hc _]; set_solver).
    rw (proj2 (Z.eqb_neq c x) Hcx).
    h_bind. iApply (hwp_wand with "[H]"); [by iApply SLIST_FIRST_spec|]. iIntros (v) "[-> H]".
    destruct (exists_last_snoc c l1) as (l1' & y & E & Hlast). cbn.
    h_bind. iApply (hwp_wand with "[H]").
    { iApply (find_prev_spec (slist h) _ NULL (slist_nonnull h) (SLIST_NEXT_spec h)
        (slist_nodup h) [] c l1 x l2 y with "H"); [cbn in Hf; lia|done]. }
    iIntros (v) "[-> H]". rw !app_comm_cons E -!(assoc_L (++)) /=.
    by iApply SLIST_unlink_spec.
Qed.
End slist.
