(* ===== verification/QueueSTail.v ===== *)
(** Singly-linked tail queues and simple queues of [sys/queue.h]. The two
    families have the same layout and the same macros up to [STAILQ_CONCAT], so
    that what is proved of one holds of the other. *)
From stdpp Require Import base numbers list gmap.
From Stdlib Require Import ZArith Lia.
From iris.proofmode Require Import proofmode.
From S2P Require Import Prelude HeapLogic Queue QueueSeg.

Section stailq.
Context (field : Z) (Hfield : 0 <= field).
#[local] Abbreviation snode := (snode field).
#[local] Abbreviation sseg := (sseg field).

(** A singly-linked tail queue with elements [l]. *)
Definition stailq (h : Z) (l : list Z) : hpropI :=
  ⌈0 < h⌉ ∗ ∃ q, sseg (h + 0) l q ∗ q ↦ NULL ∗ (h + 1) ↦ q.

Lemma STAILQ_INIT_spec h :
  0 < h → alloc (h + 0) ∗ alloc (h + 1) ⊢ hwp (STAILQ_INIT h) (λ _, stailq h []).
Proof.
  iIntros (Hh) "[[%o1 H1] [%o2 H2]]". rw /STAILQ_INIT. h_st "H1". h_st "H2".
  iSplit; [done|]. iExists (h + 0). by iFrame.
Qed.

Lemma STAILQ_INSERT_HEAD_spec h e l :
  stailq h l ∗ snode e ⊢ hwp (STAILQ_INSERT_HEAD field h e) (λ _, stailq h (e :: l)).
Proof.
  iIntros "[(%Hh & %q & Hseg & Hq & Hlast) (%He & [%o Hn])]".
  rw /STAILQ_INSERT_HEAD. destruct l as [|f l]; cbn [QueueSeg.sseg].
  - iDestruct "Hseg" as %<-. h_ld "Hq". h_st "Hn". cbn. h_st "Hlast". h_st "Hq".
    iSplit; [done|]. iExists (e + field). by iFrame.
  - iDestruct "Hseg" as "(%Hf & Hs & Hseg)". h_ld "Hs". h_st "Hn".
    rw (proj2 (Z.eqb_neq f NULL)); [|lia]. cbn. h_bind. h_ret. h_st "Hs".
    iSplit; [done|]. iExists q. by iFrame.
Qed.

Lemma STAILQ_INSERT_TAIL_spec h e l :
  stailq h l ∗ snode e ⊢ hwp (STAILQ_INSERT_TAIL field h e) (λ _, stailq h (l ++ [e])).
Proof.
  iIntros "[(%Hh & %q & Hseg & Hq & Hlast) (%He & [%o Hn])]".
  iDestruct (sseg_pos with "Hseg") as %Hpos; [done|lia|].
  rw /STAILQ_INSERT_TAIL. h_st "Hn". h_ld "Hlast". h_st "Hq". h_st "Hlast".
  iSplit; [done|]. iExists (e + field). iFrame. iApply sseg_app. iExists q. by iFrame.
Qed.

Lemma STAILQ_INSERT_AFTER_spec h x e l1 l2 :
  stailq h (l1 ++ x :: l2) ∗ snode e ⊢
  hwp (STAILQ_INSERT_AFTER field h x e) (λ _, stailq h (l1 ++ x :: e :: l2)).
Proof.
  iIntros "[(%Hh & %q & Hseg & Hq & Hlast) (%He & [%o Hn])]".
  iDestruct (sseg_app with "Hseg") as (r) "(Hseg1 & %Hx & Hr & Hseg)".
  rw /STAILQ_INSERT_AFTER. destruct l2 as [|f l2]; cbn [QueueSeg.sseg].
  - iDestruct "Hseg" as %<-. h_ld "Hq". h_st "Hn". cbn. h_st "Hlast". h_st "Hq".
    iSplit; [done|]. iExists (e + field). iFrame. iApply sseg_app. iExists r. by iFrame.
  - iDestruct "Hseg" as "(%Hf & Hs & Hseg)". h_ld "Hs". h_st "Hn".
    rw (proj2 (Z.eqb_neq f NULL)); [|lia]. cbn. h_bind. h_ret. h_st "Hs".
    iSplit; [done|]. iExists q. iFrame. iApply sseg_app. iExists r. by iFrame.
Qed.

Lemma STAILQ_REMOVE_HEAD_spec h x l :
  stailq h (x :: l) ⊢ hwp (STAILQ_REMOVE_HEAD field h) (λ _, stailq h l ∗ snode x).
Proof.
  iIntros "(%Hh & %q & (%Hx & Hr & Hseg) & Hq & Hlast)".
  rw /STAILQ_REMOVE_HEAD. h_ld "Hr". destruct l as [|f l]; cbn [QueueSeg.sseg].
  - iDestruct "Hseg" as %<-. h_ld "Hq". h_st "Hr". cbn. h_st "Hlast".
    iSplitR "Hq"; iSplit; try done; [|by iExists _]. iExists (h + 0). by iFrame.
  - iDestruct "Hseg" as "(%Hf & Hs & Hseg)". h_ld "Hs". h_st "Hr".
    rw (proj2 (Z.eqb_neq f NULL)); [|lia]. cbn. h_ret.
    iSplitR "Hs"; iSplit; try done; [|by iExists _]. iExists q. by iFrame.
Qed.

Lemma STAILQ_CONCAT_spec h1 h2 l1 l2 :
  stailq h1 l1 ∗ stailq h2 l2 ⊢
  hwp (STAILQ_CONCAT h1 h2) (λ _, stailq h1 (l1 ++ l2) ∗ stailq h2 []).
Proof.
  iIntros "[(%Hh1 & %q1 & Hseg1 & Hq1 & Hlast1) (%Hh2 & %q2 & Hseg2 & Hq2 & Hlast2)]".
  iDestruct (sseg_pos with "Hseg1") as %Hr; [done|lia|].
  rw /STAILQ_CONCAT /STAILQ_EMPTY. destruct l2 as [|f l2]; cbn [QueueSeg.sseg].
  - iDestruct "Hseg2" as %<-. h_bind. h_ld "Hq2". h_ret. cbn. h_ret. rw app_nil_r.
    iSplitL "Hseg1 Hq1 Hlast1"; (iSplit; [done|]); iExists _; by iFrame.
  - iDestruct "Hseg2" as "(%Hf & Hs & Hseg2)". h_bind. h_ld "Hs". h_ret.
    rw (proj2 (Z.eqb_neq f NULL)); [|lia]. cbn.
    h_ld "Hs". h_ld "Hlast1". h_st "Hq1". h_ld "Hlast2". h_st "Hlast1".
    rw /STAILQ_INIT. h_st "Hs". h_st "Hlast2".
    iSplitR "Hs Hlast2".
    + iSplit; [done|]. iExists q2. iFrame. iApply sseg_app. iExists q1. by iFrame.
    + iSplit; [done|]. iExists (h2 + 0). by iFrame.
Qed.

(** ** Access methods and traversal *)

Lemma STAILQ_FIRST_spec h l :
  stailq h l ⊢ hwp (STAILQ_FIRST h) (λ v, ⌈v = hd NULL l⌉ ∗ stailq h l).
Proof.
  iIntros "(%Hh & %q & Hseg & Hq & Hlast)".
  iDestruct (sseg_first with "[$Hseg $Hq]") as "[Hf Hback]".
  rw /STAILQ_FIRST. h_ld "Hf". iSplit; [done|]. iSplit; [done|].
  iExists q. iDestruct ("Hback" with "Hf") as "[$ $]". done.
Qed.

Lemma STAILQ_NEXT_spec h l1 x l2 :
  stailq h (l1 ++ x :: l2) ⊢
  hwp (STAILQ_NEXT field x) (λ v, ⌈v = hd NULL l2⌉ ∗ stailq h (l1 ++ x :: l2)).
Proof.
  iIntros "(%Hh & %q & Hseg & Hq & Hlast)".
  iDestruct (sseg_app with "Hseg") as (r) "(Hseg1 & %Hx & Hr & Hseg)".
  iDestruct (sseg_first with "[$Hseg $Hq]") as "[Hf Hback]".
  rw /STAILQ_NEXT. h_ld "Hf". iSplit; [done|]. iSplit; [done|].
  iDestruct ("Hback" with "Hf") as "[Hseg Hq]". iExists q. iFrame.
  iApply sseg_app. iExists r. by iFrame.
Qed.

Lemma stailq_nonnull h l : stailq h l ⊢ ⌜Forall (λ e, e ≠ NULL) l⌝.
Proof.
  iIntros "(_ & %q & H & _)". iDestruct (sseg_all_pos with "H") as %H.
  iPureIntro. eapply Forall_impl; [done|]. cbn. lia.
Qed.

Lemma stailq_nodup h l : stailq h l ⊢ ⌜NoDup l⌝.
Proof. iIntros "(_ & %q & Hs & Hq & _)". iApply (sseg_nodup with "[$Hs $Hq]"). Qed.

Lemma STAILQ_EMPTY_spec h l :
  stailq h l ⊢ hwp (STAILQ_EMPTY h) (λ b, ⌈b = bool_decide (l = [])⌉ ∗ stailq h l).
Proof.
  iIntros "H". iDestruct (stailq_nonnull with "H") as %Hl.
  rw /STAILQ_EMPTY. h_bind. iApply (hwp_wand with "[H]"); [by iApply STAILQ_FIRST_spec|].
  iIntros (v) "[-> H]". h_ret. rw (hd_null_nil l Hl). by iFrame.
Qed.

Lemma STAILQ_FOREACH_spec h l fuel :
  (length l ≤ fuel)%nat →
  stailq h l ⊢ hwp (STAILQ_FOREACH field fuel h) (λ vs, ⌈vs = l⌉ ∗ stailq h l).
Proof.
  iIntros (Hf) "H". rw /STAILQ_FOREACH. h_bind.
  iApply (hwp_wand with "[H]"); [by iApply STAILQ_FIRST_spec|]. iIntros (v) "[-> H]".
  by iApply (foreach_until_spec (stailq h) _ NULL (stailq_nonnull h) (STAILQ_NEXT_spec h) [] l
    with "H").
Qed.

(** ** Removal *)

(** Unlinking the element after [y], which may become the last one. *)
Lemma STAILQ_unlink_spec h y x l1 l2 :
  stailq h (l1 ++ y :: x :: l2) ⊢
  hwp (n ← ldf y (stqe_next field); n' ← ldf n (stqe_next field);
       stf y (stqe_next field) n';;
       when (n' =? NULL) (stf h stqh_last (y + stqe_next field)))
      (λ _, stailq h (l1 ++ y :: l2) ∗ snode x).
Proof.
  iIntros "(%Hh & %q & Hseg & Hq & Hlast)".
  iDestruct (sseg_app with "Hseg") as (r) "(Hseg1 & %Hy & Hr & %Hx & Hyn & Hseg)".
  h_ld "Hyn". destruct l2 as [|f l2]; cbn [QueueSeg.sseg].
  - iDestruct "Hseg" as %<-. h_ld "Hq". h_st "Hyn". cbn. h_st "Hlast".
    iSplitR "Hq"; iSplit; try done; [|by iExists _].
    iExists (y + field). iFrame. iApply sseg_app. iExists r. by iFrame.
  - iDestruct "Hseg" as "(%Hf & Hs & Hseg)". h_ld "Hs". h_st "Hyn".
    rw (proj2 (Z.eqb_neq f NULL)); [|lia]. cbn. h_ret.
    iSplitR "Hs"; iSplit; try done; [|by iExists _].
    iExists q. iFrame. iApply sseg_app. iExists r. by iFrame.
Qed.

Lemma STAILQ_REMOVE_spec h x l1 l2 fuel :
  (length l1 ≤ fuel)%nat →
  stailq h (l1 ++ x :: l2) ⊢
  hwp (STAILQ_REMOVE field fuel h x) (λ _, stailq h (l1 ++ l2) ∗ snode x).
Proof.
  iIntros (Hf) "H". rw /STAILQ_REMOVE. iDestruct (stailq_nodup with "H") as %Hnd.
  h_bind. iApply (hwp_wand with "[H]"); [by iApply STAILQ_FIRST_spec|]. iIntros (v) "[-> H]".
  destruct l1 as [|c l1]; cbn.
  - rw Z.eqb_refl. by iApply STAILQ_REMOVE_HEAD_spec.
  - assert (c ≠ x) as Hcx by (apply NoDup_cons in Hnd as [Hc _]; set_solver).
    rw (proj2 (Z.eqb_neq c x) Hcx).
    h_bind. iApply (hwp_wand with "[H]"); [by iApply STAILQ_FIRST_spec|]. iIntros (v) "[-> H]".
    destruct (exists_last_snoc c l1) as (l1' & y & E & Hlast). cbn.
    h_bind. iApply (hwp_wand with "[H]").
    { iApply (find_prev_spec (stailq h) _ NULL (stailq_nonnull h) (STAILQ_NEXT_spec h)
        (stailq_nodup h) [] c l1 x l2 y with "H"); [cbn in Hf; lia|done]. }
    iIntros (v) "[-> H]". rw !app_comm_cons E -!(assoc_L (++)) /=.
    by iApply STAILQ_unlink_spec.
Qed.
End stailq.
