(* ===== verification/QueueCircle.v ===== *)
(** Circular queues of [sys/queue.h]: the ends of the chain are the head itself,
    which the macros compare with where the other structures compare with
    null. *)
From stdpp Require Import base numbers list gmap.
From Stdlib Require Import ZArith Lia.
From iris.proofmode Require Import proofmode.
From S2P Require Import Prelude HeapLogic Queue QueueSeg.

(** The last element, or [h] when there is none. *)
Abbreviation last_or h l := (default h (last l)).

Lemma last_or_cons (h x : Z) l : last_or h (x :: l) = last_or x l.
Proof. rw last_cons. by destruct (last l). Qed.

Lemma last_or_app (h : Z) l1 l2 : last_or h (l1 ++ l2) = last_or (last_or h l1) l2.
Proof. rw last_app. by destruct (last l2). Qed.

Lemma hd_app_or (h : Z) l1 l2 : hd h (l1 ++ l2) = hd (hd h l2) l1.
Proof. by destruct l1. Qed.

Lemma last_or_neq (h : Z) l :
  Forall (λ e, e ≠ h) l → (last_or h l =? h) = bool_decide (l = []).
Proof.
  destruct l as [|x l _] using rev_ind; intros H; [by rw /= Z.eqb_refl|].
  apply Forall_app in H as [_ [Hx _]%Forall_cons]. rw last_snoc /=.
  apply Z.eqb_neq in Hx as ->. rw bool_decide_eq_false_2; [done|]. by destruct l.
Qed.

Lemma hd_neq (h : Z) l :
  Forall (λ e, e ≠ h) l → (hd h l =? h) = bool_decide (l = []).
Proof.
  destruct 1 as [|x l Hx _]; [by rw /= Z.eqb_refl|]. cbn. by apply Z.eqb_neq in Hx as ->.
Qed.

Section circleq.
Context (field : Z) (Hfield : 0 <= field).
#[local] Abbreviation dnode := (dnode field).

(** An element of a queue with head [h] between [p] and [n]. *)
Definition clink (h p e n : Z) : hpropI :=
  ⌈0 < e ∧ e ≠ h⌉ ∗ (e + field) ↦ n ∗ (e + (field + 1)) ↦ p.

(** Elements [l] of such a queue, [a] before the first and [b] after the last. *)
Fixpoint cseg (h a : Z) (l : list Z) (b : Z) : hpropI :=
  match l with
  | [] => emp
  | e :: l' => clink h a e (hd b l') ∗ cseg h e l' b
  end.

(** A circular queue with elements [l]. *)
Definition circleq (h : Z) (l : list Z) : hpropI :=
  ⌈0 < h⌉ ∗ (h + 0) ↦ hd h l ∗ (h + 1) ↦ last_or h l ∗ cseg h h l h.

Lemma cseg_app h a l1 l2 b :
  cseg h a (l1 ++ l2) b ⊣⊢ cseg h a l1 (hd b l2) ∗ cseg h (last_or a l1) l2 b.
Proof.
  revert a. induction l1 as [|e l1 IH]; intros a; [by rw /= left_id|].
  rw last_or_cons /= hd_app_or IH. by rw assoc.
Qed.

Lemma cseg_ne h a l b : cseg h a l b ⊢ ⌜Forall (λ e, 0 < e ∧ e ≠ h) l⌝.
Proof.
  iIntros "H". iInduction l as [|e l IH] forall (a); [done|].
  iDestruct "H" as "[[%He _] H]". iDestruct ("IH" with "H") as %Hl. auto.
Qed.

Lemma circleq_ne h l : circleq h l ⊢ ⌜Forall (λ e, e ≠ h) l⌝.
Proof.
  iIntros "(_ & _ & _ & H)". iDestruct (cseg_ne with "H") as %Hl. iPureIntro.
  eapply Forall_impl; [done|]. cbn. lia.
Qed.

(** The queue cut between [l1] and [l2], with [b] as the link forward across the
    cut and [a] as the link back. *)
Definition cut (h : Z) (l1 : list Z) (a b : Z) (l2 : list Z) : hpropI :=
  ⌈0 < h⌉ ∗ (h + 0) ↦ hd b l1 ∗ (h + 1) ↦ last_or a l2 ∗ cseg h h l1 b ∗ cseg h a l2 h.

Lemma circleq_cut h l1 l2 : circleq h (l1 ++ l2) ⊣⊢ cut h l1 (last_or h l1) (hd h l2) l2.
Proof. by rw /circleq /cut hd_app_or last_or_app cseg_app. Qed.

Lemma cut_snoc h l1 e a b l2 :
  cut h (l1 ++ [e]) a b l2 ⊣⊢ cut h l1 a e l2 ∗ clink h (last_or h l1) e b.
Proof.
  rw /cut hd_app_or cseg_app /=. iSplit; [iIntros "($ & $ & $ & [$ [$ _]] & $)"|].
  iIntros "[($ & $ & $ & $ & $) $]".
Qed.

Lemma cut_cons h l1 e a b l2 :
  cut h l1 a b (e :: l2) ⊣⊢ clink h a e (hd h l2) ∗ cut h l1 e b l2.
Proof.
  rw /cut last_or_cons /=. iSplit; [iIntros "($ & $ & $ & $ & [$ $])"|].
  iIntros "[$ ($ & $ & $ & $ & $)]".
Qed.

(** Where the two links are. *)
Definition next_slot (h : Z) (l1 : list Z) : Z :=
  match last l1 with Some y => y + field | None => h + 0 end.
Definition prev_slot (h : Z) (l2 : list Z) : Z :=
  match l2 with f :: _ => f + (field + 1) | [] => h + 1 end.

Lemma cut_next h l1 a b l2 :
  cut h l1 a b l2 ⊢
  next_slot h l1 ↦ b ∗ (∀ b', next_slot h l1 ↦ b' -∗ cut h l1 a b' l2).
Proof.
  rw /next_slot. destruct l1 as [|y l1 _] using rev_ind.
  - iIntros "($ & $ & $ & $ & $)" (b') "$".
  - rw last_snoc cut_snoc. iIntros "[H (%Hy & $ & Hp)]" (b') "Hn". rw cut_snoc. by iFrame.
Qed.

Lemma cut_prev h l1 a b l2 :
  cut h l1 a b l2 ⊢
  prev_slot h l2 ↦ a ∗ (∀ a', prev_slot h l2 ↦ a' -∗ cut h l1 a' b l2).
Proof.
  rw /prev_slot. destruct l2 as [|f l2].
  - rw /cut /=. iIntros "(%Hh & $ & $ & $ & _)" (a') "$". done.
  - rw cut_cons. iIntros "[(%Hf & Hn & $) H]" (a') "Hp". rw cut_cons. by iFrame.
Qed.

Lemma cut_ne h l1 a b l2 :
  cut h l1 a b l2 ⊢
  ⌜0 < h ∧ Forall (λ e, 0 < e ∧ e ≠ h) l1 ∧ Forall (λ e, 0 < e ∧ e ≠ h) l2⌝.
Proof.
  iIntros "(%Hh & _ & _ & H1 & H2)". iDestruct (cseg_ne with "H1") as %H1.
  by iDestruct (cseg_ne with "H2") as %H2.
Qed.

(** Setting the link back, in the head when nothing follows the cut. *)
Lemma set_prev_spec h l1 a b l2 v :
  cut h l1 a b l2 ⊢
  hwp (if hd h l2 =? h then stf h cqh_last v else stf (hd h l2) (cqe_prev field) v)
      (λ _, cut h l1 v b l2).
Proof.
  iIntros "H". iDestruct (cut_ne with "H") as %(Hh & _ & Hl2).
  iDestruct (cut_prev with "H") as "[Hp Hback]". destruct l2 as [|f l2]; cbn.
  - rw Z.eqb_refl. h_st "Hp". by iApply "Hback".
  - apply Forall_cons in Hl2 as [Hf _]. rw (proj2 (Z.eqb_neq f h)); [|lia].
    h_st "Hp". by iApply "Hback".
Qed.

(** Setting the link forward. *)
Lemma set_next_spec h l1 a b l2 v :
  cut h l1 a b l2 ⊢
  hwp (if last_or h l1 =? h then stf h cqh_first v else stf (last_or h l1) (cqe_next field) v)
      (λ _, cut h l1 a v l2).
Proof.
  iIntros "H". iDestruct (cut_ne with "H") as %(Hh & Hl1 & _).
  iDestruct (cut_next with "H") as "[Hn Hback]". rw /next_slot.
  destruct l1 as [|y l1 _] using rev_ind; [|rw last_snoc]; cbn.
  - rw Z.eqb_refl. h_st "Hn". by iApply "Hback".
  - apply Forall_app in Hl1 as [_ [Hy _]%Forall_cons]. rw (proj2 (Z.eqb_neq y h)); [|lia].
    h_st "Hn". by iApply "Hback".
Qed.

(** A member that is read again in one branch only. *)
Lemma hwp_reload {A} (c : bool) x off n (c1 : M mem A) (c2 : Z → M mem A) Φ :
  0 < x →
  (x + off) ↦ n ∗ ((x + off) ↦ n -∗ hwp (if c then c1 else c2 n) Φ) ⊢
  hwp (if c then c1 else (n' ← ldf x off; c2 n')) Φ.
Proof.
  iIntros (Hx) "[Hn H]". destruct c; [by iApply "H"|]. h_ld "Hn". by iApply "H".
Qed.

(** ** Access methods *)

Lemma CIRCLEQ_FIRST_spec h l :
  circleq h l ⊢ hwp (CIRCLEQ_FIRST h) (λ v, ⌈v = hd h l⌉ ∗ circleq h l).
Proof. iIntros "(%Hh & Hf & Hrest)". rw /CIRCLEQ_FIRST. h_ld "Hf". by iFrame. Qed.

Lemma CIRCLEQ_LAST_spec h l :
  circleq h l ⊢ hwp (CIRCLEQ_LAST h) (λ v, ⌈v = last_or h l⌉ ∗ circleq h l).
Proof. iIntros "(%Hh & Hf & Hl & Hrest)". rw /CIRCLEQ_LAST. h_ld "Hl". by iFrame. Qed.

Lemma CIRCLEQ_EMPTY_spec h l :
  circleq h l ⊢ hwp (CIRCLEQ_EMPTY h) (λ b, ⌈b = bool_decide (l = [])⌉ ∗ circleq h l).
Proof.
  iIntros "H". iDestruct (circleq_ne with "H") as %Hl. rw /CIRCLEQ_EMPTY. h_bind.
  iApply (hwp_wand with "[H]"); [by iApply CIRCLEQ_FIRST_spec|]. iIntros (v) "[-> H]".
  h_ret. rw (hd_neq h l Hl). by iFrame.
Qed.

Lemma CIRCLEQ_NEXT_spec h l1 x l2 :
  circleq h (l1 ++ x :: l2) ⊢
  hwp (CIRCLEQ_NEXT field x) (λ v, ⌈v = hd h l2⌉ ∗ circleq h (l1 ++ x :: l2)).
Proof.
  rw {1}circleq_cut /= cut_cons /=. iIntros "[(%Hx & Hxn & Hxp) Hc]".
  rw /CIRCLEQ_NEXT. h_ld "Hxn". rw circleq_cut /= cut_cons /=. by iFrame.
Qed.

Lemma CIRCLEQ_PREV_spec h l1 x l2 :
  circleq h (l1 ++ x :: l2) ⊢
  hwp (CIRCLEQ_PREV field x) (λ v, ⌈v = last_or h l1⌉ ∗ circleq h (l1 ++ x :: l2)).
Proof.
  rw {1}circleq_cut /= cut_cons /=. iIntros "[(%Hx & Hxn & Hxp) Hc]".
  rw /CIRCLEQ_PREV. h_ld "Hxp". rw circleq_cut /= cut_cons /=. by iFrame.
Qed.

(** The neighbours around the circle, which skip the head. *)
Lemma CIRCLEQ_LOOP_NEXT_spec h l1 x l2 :
  circleq h (l1 ++ x :: l2) ⊢
  hwp (CIRCLEQ_LOOP_NEXT field h x) (λ v, ⌈v = hd x (l2 ++ l1)⌉ ∗ circleq h (l1 ++ x :: l2)).
Proof.
  iIntros "H". iDestruct (circleq_ne with "H") as %[_ [_ Hl2]%Forall_cons]%Forall_app.
  rw /CIRCLEQ_LOOP_NEXT. h_bind.
  iApply (hwp_wand with "[H]"); [by iApply CIRCLEQ_NEXT_spec|]. iIntros (v) "[-> H]".
  rw hd_neq //. destruct l2 as [|f l2]; cbn.
  - iApply (hwp_wand with "[H]"); [by iApply CIRCLEQ_FIRST_spec|]. iIntros (v) "[-> $]".
    by rw hd_app_or.
  - iApply (hwp_wand with "[H]"); [by iApply CIRCLEQ_NEXT_spec|]. iIntros (v) "[-> $]". done.
Qed.

Lemma CIRCLEQ_LOOP_PREV_spec h l1 x l2 :
  circleq h (l1 ++ x :: l2) ⊢
  hwp (CIRCLEQ_LOOP_PREV field h x)
      (λ v, ⌈v = last_or x (l2 ++ l1)⌉ ∗ circleq h (l1 ++ x :: l2)).
Proof.
  iIntros "H". iDestruct (circleq_ne with "H") as %[Hl1 _]%Forall_app.
  rw /CIRCLEQ_LOOP_PREV. h_bind.
  iApply (hwp_wand with "[H]"); [by iApply CIRCLEQ_PREV_spec|]. iIntros (v) "[-> H]".
  rw last_or_neq //. destruct l1 as [|y l1 _] using rev_ind; cbn.
  - iApply (hwp_wand with "[H]"); [by iApply CIRCLEQ_LAST_spec|]. iIntros (v) "[-> $]".
    by rw last_or_cons app_nil_r.
  - rw bool_decide_eq_false_2; [|by destruct l1].
    iApply (hwp_wand with "[H]"); [by iApply CIRCLEQ_PREV_spec|]. iIntros (v) "[-> $]".
    by rw (assoc_L (++)) !last_snoc.
Qed.

(** ** Operations *)

Lemma CIRCLEQ_INIT_spec h :
  0 < h → alloc (h + 0) ∗ alloc (h + 1) ⊢ hwp (CIRCLEQ_INIT h) (λ _, circleq h []).
Proof.
  iIntros (Hh) "[[%o1 H1] [%o2 H2]]". rw /CIRCLEQ_INIT. h_st "H1". h_st "H2". by iFrame.
Qed.

Lemma CIRCLEQ_INSERT_AFTER_spec h x e l1 l2 :
  e ≠ h →
  circleq h (l1 ++ x :: l2) ∗ dnode e ⊢
  hwp (CIRCLEQ_INSERT_AFTER field h x e) (λ _, circleq h (l1 ++ x :: e :: l2)).
Proof.
  rw (cons_middle x) (cons_middle x l1 (e :: l2)) (cons_middle e) !(assoc_L (++)).
  rw circleq_cut last_snoc /= cut_snoc.
  iIntros (Heh) "[[Hc (%Hx & Hxn & Hxp)] (%He & [%o1 Hn] & [%o2 Hp])]".
  rw /CIRCLEQ_INSERT_AFTER. h_ld "Hxn". h_st "Hn". h_st "Hp". h_ld "Hxn".
  h_bind. iApply (hwp_reload with "[-]"); [lia|]. iFrame "Hxn". iIntros "Hxn".
  iApply (hwp_wand with "[Hc]"); [by iApply set_prev_spec|]. iIntros (_) "Hc".
  h_st "Hxn". rw circleq_cut last_snoc /= !cut_snoc last_snoc. by iFrame.
Qed.

Lemma CIRCLEQ_INSERT_BEFORE_spec h x e l1 l2 :
  e ≠ h →
  circleq h (l1 ++ x :: l2) ∗ dnode e ⊢
  hwp (CIRCLEQ_INSERT_BEFORE field h x e) (λ _, circleq h (l1 ++ e :: x :: l2)).
Proof.
  rw circleq_cut /= cut_cons /=.
  iIntros (Heh) "[[(%Hx & Hxn & Hxp) Hc] (%He & [%o1 Hn] & [%o2 Hp])]".
  rw /CIRCLEQ_INSERT_BEFORE. h_st "Hn". h_ld "Hxp". h_st "Hp". h_ld "Hxp".
  h_bind. iApply (hwp_reload with "[-]"); [lia|]. iFrame "Hxp". iIntros "Hxp".
  iApply (hwp_wand with "[Hc]"); [by iApply set_next_spec|]. iIntros (_) "Hc".
  h_st "Hxp". rw circleq_cut /= !cut_cons /=. by iFrame.
Qed.

Lemma CIRCLEQ_REMOVE_spec h x l1 l2 :
  circleq h (l1 ++ x :: l2) ⊢
  hwp (CIRCLEQ_REMOVE field h x) (λ _, circleq h (l1 ++ l2) ∗ ⌈x ≠ h⌉ ∗ dnode x).
Proof.
  rw circleq_cut /= cut_cons /=. iIntros "[(%Hx & Hxn & Hxp) Hc]".
  rw /CIRCLEQ_REMOVE. h_ld "Hxn". h_bind.
  iApply (hwp_wand _ (λ _, cut h l1 (last_or h l1) x l2 ∗ _ ∗ _)%I with "[-]").
  { pose proof (set_prev_spec h l1 x x l2 (last_or h l1)) as Hs.
    destruct (hd h l2 =? h); h_bind; [|h_ld "Hxn"]; h_ld "Hxp";
      (iApply (hwp_wand with "[Hc]"); [by iApply Hs|]);
      iIntros (_) "$"; iCombine "Hxn Hxp" as "H"; iExact "H". }
  iIntros (_) "(Hc & Hxn & Hxp)". h_ld "Hxp".
  iApply (hwp_wand _ (λ _, cut h l1 (last_or h l1) (hd h l2) l2 ∗ _ ∗ _)%I with "[-]").
  { pose proof (set_next_spec h l1 (last_or h l1) x l2 (hd h l2)) as Hs.
    destruct (last_or h l1 =? h); [|h_ld "Hxp"]; h_ld "Hxn";
      (iApply (hwp_wand with "[Hc]"); [by iApply Hs|]);
      iIntros (_) "$"; iCombine "Hxn Hxp" as "H"; iExact "H". }
  iIntros (_) "(Hc & Hxn & Hxp)". rw circleq_cut. iFrame.
  iPureIntro. destruct Hx as [Hx Hne]. done.
Qed.

Lemma CIRCLEQ_INSERT_HEAD_spec h e l :
  e ≠ h →
  circleq h l ∗ dnode e ⊢ hwp (CIRCLEQ_INSERT_HEAD field h e) (λ _, circleq h (e :: l)).
Proof.
  iIntros (Heh) "[H (%He & [%o1 Hn] & [%o2 Hp])]". iDestruct (circleq_ne with "H") as %Hl.
  rw /CIRCLEQ_INSERT_HEAD. h_bind.
  iApply (hwp_wand with "[H]"); [by iApply CIRCLEQ_FIRST_spec|]. iIntros (v) "[-> H]".
  h_st "Hn". h_st "Hp". h_bind.
  iApply (hwp_wand with "[H]"); [by iApply CIRCLEQ_LAST_spec|]. iIntros (v) "[-> H]".
  rw (last_or_neq h l Hl) -(hd_neq h l Hl). h_bind.
  iApply (hwp_wand _ (λ _, cut h [] e (hd h l) l) with "[H]").
  { pose proof (set_prev_spec h [] h (hd h l) l e) as Hs.
    destruct (hd h l =? h).
    - iApply Hs. by iApply (circleq_cut h [] l).
    - h_bind. iApply (hwp_wand with "[H]"); [by iApply CIRCLEQ_FIRST_spec|].
      iIntros (v) "[-> H]". iApply Hs. by iApply (circleq_cut h [] l). }
  iIntros (_) "Hc". iDestruct (cut_ne with "Hc") as %[Hh _].
  iDestruct (cut_next with "Hc") as "[Hf Hback]". h_st "Hf".
  iApply (circleq_cut h ([] ++ [e]) l). rw cut_snoc.
  iSplitL "Hf Hback"; [by iApply "Hback"|by iFrame].
Qed.

Lemma CIRCLEQ_INSERT_TAIL_spec h e l :
  e ≠ h →
  circleq h l ∗ dnode e ⊢ hwp (CIRCLEQ_INSERT_TAIL field h e) (λ _, circleq h (l ++ [e])).
Proof.
  iIntros (Heh) "[H (%He & [%o1 Hn] & [%o2 Hp])]". iDestruct (circleq_ne with "H") as %Hl.
  rw /CIRCLEQ_INSERT_TAIL. h_st "Hn". h_bind.
  iApply (hwp_wand with "[H]"); [by iApply CIRCLEQ_LAST_spec|]. iIntros (v) "[-> H]".
  h_st "Hp". h_bind.
  iApply (hwp_wand with "[H]"); [by iApply CIRCLEQ_FIRST_spec|]. iIntros (v) "[-> H]".
  rw (hd_neq h l Hl) -(last_or_neq h l Hl). h_bind.
  iApply (hwp_wand _ (λ _, cut h l (last_or h l) e []) with "[H]").
  { pose proof (set_next_spec h l (last_or h l) h [] e) as Hs.
    rw -{1}(app_nil_r l) circleq_cut /=. destruct (last_or h l =? h).
    - by iApply Hs.
    - h_bind. rw -(circleq_cut h l []) app_nil_r.
      iApply (hwp_wand with "[H]"); [by iApply CIRCLEQ_LAST_spec|].
      iIntros (v) "[-> H]". iApply Hs. rw -{1}(app_nil_r l). by rw circleq_cut. }
  iIntros (_) "Hc". iDestruct (cut_ne with "Hc") as %[Hh _].
  iDestruct (cut_prev with "Hc") as "[Hl Hback]". h_st "Hl".
  rw circleq_cut cut_cons /=.
  iSplitL "Hn Hp"; [by iFrame|by iApply "Hback"].
Qed.

(** ** Traversals *)

Lemma CIRCLEQ_FOREACH_spec h l fuel :
  (length l ≤ fuel)%nat →
  circleq h l ⊢ hwp (CIRCLEQ_FOREACH field fuel h) (λ vs, ⌈vs = l⌉ ∗ circleq h l).
Proof.
  iIntros (Hf) "H". rw /CIRCLEQ_FOREACH. h_bind.
  iApply (hwp_wand with "[H]"); [by iApply CIRCLEQ_FIRST_spec|]. iIntros (v) "[-> H]".
  by iApply (foreach_until_spec (circleq h) _ h (circleq_ne h) (CIRCLEQ_NEXT_spec h) [] l
    with "H").
Qed.

Lemma circleq_rev_ne h l : circleq h (rev l) ⊢ ⌜Forall (λ e, e ≠ h) l⌝.
Proof.
  iIntros "H". iDestruct (circleq_ne with "H") as %H%Forall_rev. by rw rev_involutive in H.
Qed.

Lemma CIRCLEQ_PREV_rev_spec h l1 x l2 :
  circleq h (rev (l1 ++ x :: l2)) ⊢
  hwp (CIRCLEQ_PREV field x) (λ v, ⌈v = hd h l2⌉ ∗ circleq h (rev (l1 ++ x :: l2))).
Proof.
  rw rev_app_distr /= -(assoc_L (++)) /= -(last_rev_hd h l2). apply CIRCLEQ_PREV_spec.
Qed.

Lemma CIRCLEQ_FOREACH_REVERSE_spec h l fuel :
  (length l ≤ fuel)%nat →
  circleq h l ⊢ hwp (CIRCLEQ_FOREACH_REVERSE field fuel h) (λ vs, ⌈vs = rev l⌉ ∗ circleq h l).
Proof.
  iIntros (Hf) "H". rw /CIRCLEQ_FOREACH_REVERSE. h_bind.
  iApply (hwp_wand with "[H]"); [by iApply CIRCLEQ_LAST_spec|]. iIntros (v) "[-> H]".
  pose proof (foreach_until_spec (λ l, circleq h (rev l)) _ h (circleq_rev_ne h)
    (CIRCLEQ_PREV_rev_spec h) [] (rev l) fuel) as Hs.
  rw /= rev_involutive -last_rev_hd rev_involutive length_rev in Hs.
  by iApply (Hs Hf).
Qed.
End circleq.

(** Around a circular queue the previous of the next element is the element
    itself, from every element, the last one included. *)
Theorem CIRCLEQ_loop_inverse field h l1 x l2 :
  circleq field h (l1 ++ x :: l2) ⊢
  hwp (y ← CIRCLEQ_LOOP_NEXT field h x; CIRCLEQ_LOOP_PREV field h y)
      (λ v, ⌈v = x⌉ ∗ circleq field h (l1 ++ x :: l2)).
Proof.
  iIntros "H". h_bind. iApply (hwp_wand with "[H]"); [by iApply CIRCLEQ_LOOP_NEXT_spec|].
  iIntros (y) "[-> H]". destruct l2 as [|f l2]; cbn.
  - destruct l1 as [|f l1]; cbn.
    + by iApply (CIRCLEQ_LOOP_PREV_spec field h [] x []).
    + pose proof (CIRCLEQ_LOOP_PREV_spec field h [] f (l1 ++ [x])) as Hp.
      rw app_nil_r last_snoc /= in Hp. by iApply Hp.
  - pose proof (CIRCLEQ_LOOP_PREV_spec field h (l1 ++ [x]) f l2) as Hp.
    rw (assoc_L (++)) last_snoc -(assoc_L (++)) /= in Hp. by iApply Hp.
Qed.
