(* ===== verification/QueueClient.v ===== *)
(** What the structures of [sys/queue.h] promise to a program that uses them: the
    operations of a queue as a class, the laws they satisfy as a class over it,
    and the simulation of a list by any queue that satisfies the laws, through
    any sequence of operations. *)
From stdpp Require Import base numbers list gmap.
From Stdlib Require Import ZArith Lia.
From iris.proofmode Require Import proofmode.
From S2P Require Import Prelude HeapLogic Queue QueueSeg.

(** * The specification *)

(** A queue as a list, together with the elements that are in no queue. *)
Definition state : Type := list Z * list Z.

Inductive cmd :=
  | Push_head (e : Z)
  | Push_tail (e : Z)
  | Insert_after (x e : Z)
  | Insert_before (x e : Z)
  | Remove (x : Z)
  | Pop
  | First
  | Last
  | Next (x : Z)
  | Prev (x : Z)
  | Walk
  | Walk_rev.

(** The elements before and after [x]. *)
Fixpoint split_at (x : Z) (l : list Z) : option (list Z * list Z) :=
  match l with
  | [] => None
  | y :: l' =>
      if y =? x then Some ([], l')
      else '(l1, l2) ← split_at x l'; Some (y :: l1, l2)
  end.

Lemma split_at_Some x l l1 l2 : split_at x l = Some (l1, l2) → l = l1 ++ x :: l2.
Proof.
  revert l1. induction l as [|y l IH]; cbn; [done|]. intros l1.
  destruct (Z.eqb_spec y x) as [->|_]; [by intros [= <- <-]|].
  destruct (split_at x l) as [[l1' l2']|]; cbn; [|done].
  intros [= <- <-]. by rw (IH l1').
Qed.

(** Taking an element that is in no queue. *)
Definition take_free (e : Z) (free : list Z) : option (list Z) :=
  '(f1, f2) ← split_at e free; Some (f1 ++ f2).

(** One operation: what it returns and the state it leaves. An operation on an
    element that is not where it should be has no meaning. *)
Definition step (s : state) (c : cmd) : option (list Z * state) :=
  let '(l, free) := s in
  match c with
  | Push_head e => free' ← take_free e free; Some ([], (e :: l, free'))
  | Push_tail e => free' ← take_free e free; Some ([], (l ++ [e], free'))
  | Insert_after x e =>
      '(l1, l2) ← split_at x l; free' ← take_free e free;
      Some ([], (l1 ++ x :: e :: l2, free'))
  | Insert_before x e =>
      '(l1, l2) ← split_at x l; free' ← take_free e free;
      Some ([], (l1 ++ e :: x :: l2, free'))
  | Remove x => '(l1, l2) ← split_at x l; Some ([], (l1 ++ l2, x :: free))
  | Pop => match l with [] => Some ([], s) | x :: l' => Some ([x], (l', x :: free)) end
  | First => Some (option_list (head l), s)
  | Last => Some (option_list (last l), s)
  | Next x => '(_, l2) ← split_at x l; Some (option_list (head l2), s)
  | Prev x => '(l1, _) ← split_at x l; Some (option_list (last l1), s)
  | Walk => Some (l, s)
  | Walk_rev => Some (rev l, s)
  end.

Fixpoint steps (s : state) (cs : list cmd) : option (list (list Z) * state) :=
  match cs with
  | [] => Some ([], s)
  | c :: cs' =>
      '(o, s1) ← step s c;
      '(os, s2) ← steps s1 cs';
      Some (o :: os, s2)
  end.

(** * The interface *)

(** The operations of a structure; [None] where it has no such macro. The value
    that marks the end of the elements and the addresses of the members of a head
    and of an entry come first. *)
Class QueueOps := {
  q_end : Z → Z;
  q_head_cells : Z → list Z;
  q_node_cells : Z → list Z;
  q_init : Z → M mem unit;
  q_empty : Z → M mem bool;
  q_insert_head : Z → Z → M mem unit;
  q_insert_tail : option (Z → Z → M mem unit);
  q_insert_after : Z → Z → Z → M mem unit;
  q_insert_before : option (Z → Z → Z → M mem unit);
  q_remove : nat → Z → Z → M mem unit;
  q_remove_head : Z → M mem unit;
  q_first : Z → M mem Z;
  q_last : option (Z → M mem Z);
  q_next : Z → M mem Z;
  q_prev : option (Z → M mem Z);
  q_foreach : nat → Z → M mem (list Z);
  q_foreach_reverse : option (nat → Z → M mem (list Z));
}.

(** An operation that may be missing satisfies its law when it is there. *)
Definition law {A} (op : option A) (P : A → Prop) : Prop :=
  match op with Some f => P f | None => True end.

(** [q_node h e] is an element in no queue, which may be put into the one with
    head [h], and [q_repr h l] is a queue with elements [l]. *)
Class QueueLaws (Q : QueueOps) := {
  q_node : Z → Z → hpropI;
  q_repr : Z → list Z → hpropI;
  q_node_intro : ∀ h e, 0 < e → e ≠ h → ([∗ list] p ∈ q_node_cells e, alloc p) ⊢ q_node h e;
  q_ne : ∀ h l, q_repr h l ⊢ ⌜Forall (λ e, e ≠ q_end h) l⌝;
  q_init_law : ∀ h, 0 < h →
    ([∗ list] p ∈ q_head_cells h, alloc p) ⊢ hwp (q_init h) (λ _, q_repr h []);
  q_empty_law : ∀ h l,
    q_repr h l ⊢ hwp (q_empty h) (λ b, ⌈b = bool_decide (l = [])⌉ ∗ q_repr h l);
  q_insert_head_law : ∀ h e l,
    q_repr h l ∗ q_node h e ⊢ hwp (q_insert_head h e) (λ _, q_repr h (e :: l));
  q_insert_tail_law : law q_insert_tail (λ op, ∀ h e l,
    q_repr h l ∗ q_node h e ⊢ hwp (op h e) (λ _, q_repr h (l ++ [e])));
  q_insert_after_law : ∀ h x e l1 l2,
    q_repr h (l1 ++ x :: l2) ∗ q_node h e ⊢
    hwp (q_insert_after h x e) (λ _, q_repr h (l1 ++ x :: e :: l2));
  q_insert_before_law : law q_insert_before (λ op, ∀ h x e l1 l2,
    q_repr h (l1 ++ x :: l2) ∗ q_node h e ⊢
    hwp (op h x e) (λ _, q_repr h (l1 ++ e :: x :: l2)));
  q_remove_law : ∀ fuel h x l1 l2, (length l1 ≤ fuel)%nat →
    q_repr h (l1 ++ x :: l2) ⊢
    hwp (q_remove fuel h x) (λ _, q_repr h (l1 ++ l2) ∗ q_node h x);
  q_remove_head_law : ∀ h x l,
    q_repr h (x :: l) ⊢ hwp (q_remove_head h) (λ _, q_repr h l ∗ q_node h x);
  q_first_law : ∀ h l,
    q_repr h l ⊢ hwp (q_first h) (λ v, ⌈v = hd (q_end h) l⌉ ∗ q_repr h l);
  q_last_law : law q_last (λ op, ∀ h l,
    q_repr h l ⊢ hwp (op h) (λ v, ⌈v = default (q_end h) (last l)⌉ ∗ q_repr h l));
  q_next_law : ∀ h l1 x l2,
    q_repr h (l1 ++ x :: l2) ⊢
    hwp (q_next x) (λ v, ⌈v = hd (q_end h) l2⌉ ∗ q_repr h (l1 ++ x :: l2));
  q_prev_law : law q_prev (λ op, ∀ h l1 x l2,
    q_repr h (l1 ++ x :: l2) ⊢
    hwp (op x) (λ v, ⌈v = default (q_end h) (last l1)⌉ ∗ q_repr h (l1 ++ x :: l2)));
  q_foreach_law : ∀ fuel h l, (length l ≤ fuel)%nat →
    q_repr h l ⊢ hwp (q_foreach fuel h) (λ vs, ⌈vs = l⌉ ∗ q_repr h l);
  q_foreach_reverse_law : law q_foreach_reverse (λ op, ∀ fuel h l, (length l ≤ fuel)%nat →
    q_repr h l ⊢ hwp (op fuel h) (λ vs, ⌈vs = rev l⌉ ∗ q_repr h l));
}.

(** * A program that uses a queue *)

Section client.
Context {Q : QueueOps}.

(** The result of an access method, nothing when it is the end mark. *)
Definition unmark (h v : Z) : list Z := if v =? q_end h then [] else [v].

Definition optional {A} (op : option A) (f : A → M mem (list Z)) : M mem (list Z) :=
  match op with Some o => f o | None => ub end.

Definition exec (fuel : nat) (h : Z) (c : cmd) : M mem (list Z) :=
  match c with
  | Push_head e => q_insert_head h e;; mret []
  | Push_tail e => optional q_insert_tail (λ op, op h e;; mret [])
  | Insert_after x e => q_insert_after h x e;; mret []
  | Insert_before x e => optional q_insert_before (λ op, op h x e;; mret [])
  | Remove x => q_remove fuel h x;; mret []
  | Pop =>
      b ← q_empty h;
      if (b : bool) then mret [] else x ← q_first h; q_remove_head h;; mret [x]
  | First => v ← q_first h; mret (unmark h v)
  | Last => optional q_last (λ op, v ← op h; mret (unmark h v))
  | Next x => v ← q_next x; mret (unmark h v)
  | Prev x => optional q_prev (λ op, v ← op x; mret (unmark h v))
  | Walk => q_foreach fuel h
  | Walk_rev => optional q_foreach_reverse (λ op, op fuel h)
  end.

Fixpoint execs (fuel : nat) (h : Z) (cs : list cmd) : M mem (list (list Z)) :=
  match cs with
  | [] => mret []
  | c :: cs' => o ← exec fuel h c; os ← execs fuel h cs'; mret (o :: os)
  end.

(** The program: a head is initialised and used. *)
Definition program (fuel : nat) (h : Z) (cs : list cmd) : M mem (list (list Z)) :=
  q_init h;; execs fuel h cs.

(** The memory of a head and elements, which are distinct objects. *)
Definition cells (h : Z) (nodes : list Z) : list Z :=
  q_head_cells h ++ (nodes ≫= q_node_cells).

Definition objects (h : Z) (nodes : list Z) : Prop :=
  0 < h ∧ Forall (λ e, 0 < e) nodes ∧ (h ∉ nodes) ∧ NoDup (cells h nodes).

#[export] Instance objects_dec h nodes : Decision (objects h nodes).
Proof. rw /objects. apply _. Defined.

(** Whether the structure has the macros that a command needs. *)
Definition supports (c : cmd) : bool :=
  match c with
  | Push_tail _ => bool_decide (is_Some q_insert_tail)
  | Insert_before _ _ => bool_decide (is_Some q_insert_before)
  | Last => bool_decide (is_Some q_last)
  | Prev _ => bool_decide (is_Some q_prev)
  | Walk_rev => bool_decide (is_Some q_foreach_reverse)
  | _ => true
  end.
End client.

(** * Simulation *)

Section simulation.
Context {Q : QueueOps} {L : QueueLaws Q}.

Definition free_nodes (h : Z) (free : list Z) : hpropI := [∗ list] e ∈ free, q_node h e.

Definition related (h : Z) (s : state) : hpropI := q_repr h s.1 ∗ free_nodes h s.2.

Lemma take_free_nodes h e free free' :
  take_free e free = Some free' → free_nodes h free ⊣⊢ q_node h e ∗ free_nodes h free'.
Proof.
  rw /take_free. destruct (split_at e free) as [[f1 f2]|] eqn:E; [|done].
  intros [= <-]. apply split_at_Some in E as ->. rw /free_nodes.
  by rw -Permutation_middle.
Qed.

Lemma unmark_hd h (l : list Z) :
  Forall (λ e, e ≠ q_end h) l → unmark h (hd (q_end h) l) = option_list (head l).
Proof.
  rw /unmark. destruct 1 as [|x l Hx _]; cbn; [by rw Z.eqb_refl|].
  by apply Z.eqb_neq in Hx as ->.
Qed.

Lemma unmark_last h (l : list Z) :
  Forall (λ e, e ≠ q_end h) l → unmark h (default (q_end h) (last l)) = option_list (last l).
Proof.
  rw /unmark. destruct l as [|x l _] using rev_ind; cbn; [by rw Z.eqb_refl|].
  intros [_ [Hx _]%Forall_cons]%Forall_app. rw last_snoc /=. by apply Z.eqb_neq in Hx as ->.
Qed.

(** Running an operation by its law, with the rest [R] of the state framed. *)
Lemma hwp_then {A B} P R (c : M mem A) Φ (k : A → M mem B) Ψ :
  (P ⊢ hwp c Φ) → (∀ a, Φ a ∗ R ⊢ hwp (k a) Ψ) → P ∗ R ⊢ hwp (a ← c; k a) Ψ.
Proof.
  intros Hc Hk. iIntros "[HP HR]". iApply hwp_bind.
  iApply (hwp_wand with "[HP]"); [by iApply Hc|]. iIntros (a) "Ha".
  iApply Hk. iFrame.
Qed.

Lemma hwp_read {A B} P R (c : M mem A) x (k : A → M mem B) Ψ :
  (P ⊢ hwp c (λ v, ⌈v = x⌉ ∗ P)) → (P ∗ R ⊢ hwp (k x) Ψ) → P ∗ R ⊢ hwp (a ← c; k a) Ψ.
Proof.
  intros Hc Hk. eapply hwp_then; [exact Hc|]. iIntros (a) "[[-> HP] HR]". iApply Hk. iFrame.
Qed.

Lemma hwp_ret_eq {A} P (x y : A) : x = y → P ⊢ hwp (mret x) (λ v, ⌈v = y⌉ ∗ P).
Proof. iIntros (->) "H". h_ret. by iFrame. Qed.

Lemma hwp_take h e free free' (c : M mem unit) P P' :
  take_free e free = Some free' →
  (P ∗ q_node h e ⊢ hwp c (λ _, P')) →
  P ∗ free_nodes h free ⊢
  hwp (c;; mret []) (λ o, ⌈o = [] :> list Z⌉ ∗ P' ∗ free_nodes h free').
Proof.
  intros E Hc. rw (take_free_nodes _ _ _ _ E) assoc. eapply hwp_then; [exact Hc|].
  intros []. by apply hwp_ret_eq.
Qed.

Lemma hwp_give h x free (c : M mem unit) P P' (o : list Z) :
  (P ⊢ hwp c (λ _, P' ∗ q_node h x)) →
  P ∗ free_nodes h free ⊢
  hwp (c;; mret o) (λ o', ⌈o' = o⌉ ∗ P' ∗ free_nodes h (x :: free)).
Proof.
  intros Hc. eapply hwp_then; [exact Hc|].
  iIntros ([]) "[[HP Hx] Hf]". h_ret. by iFrame.
Qed.

(** Of an operation that the structure has. *)
Lemma optional_spec {A} (op : option A) (P : A → Prop) f R Φ :
  bool_decide (is_Some op) = true → law op P → (∀ o, P o → R ⊢ hwp (f o) Φ) →
  R ⊢ hwp (optional op f) Φ.
Proof. rw bool_decide_eq_true. intros [o ->] HP HR. by apply HR. Qed.

Lemma hwp_framed {A} P R (c : M mem A) x :
  (P ⊢ hwp c (λ v, ⌈v = x⌉ ∗ P)) → P ∗ R ⊢ hwp c (λ v, ⌈v = x⌉ ∗ P ∗ R).
Proof.
  intros Hc. iIntros "[HP HR]". iApply (hwp_wand with "[HP]"); [by iApply Hc|].
  iIntros (v) "[$ $]". done.
Qed.

(** Returning a neighbour of the elements [l] of the queue. *)
Lemma hwp_unmark h l R v (o : list Z) :
  (Forall (λ e, e ≠ q_end h) l → unmark h v = o) →
  q_repr h l ∗ R ⊢ hwp (mret (unmark h v)) (λ o', ⌈o' = o⌉ ∗ q_repr h l ∗ R).
Proof.
  iIntros (Ho) "[H HR]". iDestruct (q_ne with "H") as %Hne.
  iApply (hwp_ret_eq (q_repr h l ∗ R) with "[$]"). by apply Ho.
Qed.

Lemma exec_pop fuel h l free o s' :
  step (l, free) Pop = Some (o, s') →
  q_repr h l ∗ free_nodes h free ⊢ hwp (exec fuel h Pop) (λ o', ⌈o' = o⌉ ∗ related h s').
Proof.
  intros Hstep. eapply hwp_read; [apply q_empty_law|]. destruct l as [|x l]; simplify_eq/=.
  - by apply hwp_ret_eq.
  - eapply hwp_read; [apply q_first_law|]. apply hwp_give, q_remove_head_law.
Qed.

Lemma exec_sim fuel h c s o s' :
  supports c = true → (length s.1 ≤ fuel)%nat → step s c = Some (o, s') →
  related h s ⊢ hwp (exec fuel h c) (λ o', ⌈o' = o⌉ ∗ related h s').
Proof.
  destruct s as [l free]. rw {1}/related /=. intros Hsup Hfuel Hstep.
  assert (Hlen : ∀ x l1 l2, split_at x l = Some (l1, l2) → (length l1 ≤ fuel)%nat).
  { intros x l1 l2 ->%split_at_Some. rw length_app in Hfuel. lia. }
  destruct c as [e|e|x e|x e|x| | | |x|x| |]; [..|by apply exec_pop| | | | | |];
    cbn in Hstep, Hsup |- *;
    try (destruct (split_at x l) as [[l1 l2]|] eqn:Es; [|done]; cbn in Hstep;
         specialize (Hlen _ _ _ Es); apply split_at_Some in Es as ->);
    try (destruct (take_free e free) as [free'|] eqn:E; [|done]); simplify_eq/=.
  - by eapply hwp_take, q_insert_head_law.
  - eapply optional_spec; [done|apply q_insert_tail_law|]. intros op Hop. by eapply hwp_take.
  - by eapply hwp_take, q_insert_after_law.
  - eapply optional_spec; [done|apply q_insert_before_law|]. intros op Hop. by eapply hwp_take.
  - by apply hwp_give, q_remove_law.
  - eapply hwp_read; [apply q_first_law|]. by apply hwp_unmark, unmark_hd.
  - eapply optional_spec; [done|apply q_last_law|]. intros op Hop.
    eapply hwp_read; [apply Hop|]. by apply hwp_unmark, unmark_last.
  - eapply hwp_read; [apply q_next_law|]. apply hwp_unmark.
    intros [_ [_ H]%Forall_cons]%Forall_app. by apply unmark_hd.
  - eapply optional_spec; [done|apply q_prev_law|]. intros op Hop.
    eapply hwp_read; [apply Hop|]. apply hwp_unmark. intros [H _]%Forall_app.
    by apply unmark_last.
  - apply hwp_framed, q_foreach_law. done.
  - eapply optional_spec; [done|apply q_foreach_reverse_law|]. intros op Hop.
    by apply hwp_framed, Hop.
Qed.

(** No element is lost. *)
Lemma step_length s c o s' :
  step s c = Some (o, s') →
  (length s'.1 + length s'.2 = length s.1 + length s.2)%nat.
Proof.
  destruct s as [l free].
  assert (∀ e f', take_free e free = Some f' → length free = S (length f')) as Hfree.
  { intros e f'. rw /take_free. destruct (split_at e free) as [[f1 f2]|] eqn:E; [|done].
    apply split_at_Some in E as ->. intros [= <-]. rw !length_app /=. lia. }
  destruct c as [e|e|x e|x e|x| | | |x|x| |]; cbn; intros Hstep;
    try (destruct (split_at x l) as [[l1 l2]|] eqn:Es; [|done]; cbn in Hstep;
         apply split_at_Some in Es as ->);
    try (destruct (take_free e free) as [free'|] eqn:E; [|done]; apply Hfree in E);
    try destruct l; simplify_eq/=; rw ?length_app /= ?length_app /=; lia.
Qed.

Lemma execs_sim fuel h cs s os s' :
  forallb supports cs = true → (length s.1 + length s.2 ≤ fuel)%nat →
  steps s cs = Some (os, s') →
  related h s ⊢ hwp (execs fuel h cs) (λ os', ⌈os' = os⌉ ∗ related h s').
Proof.
  revert s os. induction cs as [|c cs IH]; intros s os Hsup Hfuel Hsteps; simplify_eq/=.
  - by apply hwp_ret_eq.
  - apply andb_true_iff in Hsup as [Hc Hsup].
    destruct (step s c) as [[o s1]|] eqn:E1; [|done]. cbn in Hsteps.
    destruct (steps s1 cs) as [[os2 s2]|] eqn:E2; [|done]. simplify_eq/=.
    pose proof (step_length _ _ _ _ E1). rw -(right_id emp%I (∗)%I (related h s)).
    eapply hwp_then; [eapply exec_sim; [done|lia|done]|].
    iIntros (o') "[[-> H] _]". iApply hwp_bind.
    iApply (hwp_wand with "[H]"); [iApply (IH with "H"); [done|lia|done]|].
    iIntros (os') "[-> H]". h_ret. by iFrame.
Qed.

Lemma free_nodes_intro h nodes :
  Forall (λ e, 0 < e) nodes → h ∉ nodes →
  ([∗ list] p ∈ (nodes ≫= q_node_cells), alloc p) ⊢ free_nodes h nodes.
Proof.
  induction 1 as [|e nodes He _ IH]; intros Hh; [done|].
  rw /free_nodes /= big_sepL_app. apply not_elem_of_cons in Hh as [Hne Hh].
  iIntros "[He Hn]". iSplitL "He"; [by iApply q_node_intro|by iApply IH].
Qed.

Lemma program_spec fuel h nodes cs os s' :
  objects h nodes → forallb supports cs = true → (length nodes ≤ fuel)%nat →
  steps ([], nodes) cs = Some (os, s') →
  ([∗ list] p ∈ cells h nodes, alloc p) ⊢
  hwp (program fuel h cs) (λ os', ⌈os' = os⌉ ∗ related h s').
Proof.
  intros (Hh & Hpos & Hne & Hnd) Hsup Hfuel Hsteps.
  rw /program /cells big_sepL_app. eapply hwp_then; [by apply q_init_law|].
  iIntros ([]) "[Hq Hn]". iApply (execs_sim _ _ _ ([], nodes)); [done|done|done|].
  iFrame. by iApply free_nodes_intro.
Qed.

(** A program that initialises a queue and uses it, run on uninitialised memory
    for the head and the elements beside any other memory [σf]: it returns what
    the list returns and leaves the other memory alone. *)
Lemma program_correct fuel h nodes cs os s' σf :
  objects h nodes → blank (cells h nodes) ##ₘ σf →
  forallb supports cs = true → (length nodes ≤ fuel)%nat →
  steps ([], nodes) cs = Some (os, s') →
  ∃ σ', program fuel h cs (blank (cells h nodes) ∪ σf) = Some (os, σ' ∪ σf) ∧ σ' ##ₘ σf.
Proof.
  intros Ho Hd Hsup Hfuel Hsteps.
  destruct (hwp_run ([∗ list] p ∈ cells h nodes, alloc p) (program fuel h cs)
    (λ os', ⌈os' = os⌉ ∗ related h s')%I (blank (cells h nodes)) σf)
    as (os' & σ' & E & Hd' & (_ & _ & _ & _ & [_ ->] & _)).
  - by apply program_spec.
  - by apply blank_alloc, Ho.
  - done.
  - by exists σ'.
Qed.
End simulation.
