(* ===== verification/QueueTheory.v ===== *)
(** The structures of [sys/queue.h] as implementations of the queue interface, and
    what a program that uses their macros can rely on. *)
From stdpp Require Import base numbers list gmap.
From Stdlib Require Import ZArith Lia.
From iris.proofmode Require Import proofmode.
From S2P Require Import Prelude HeapLogic Queue QueueSeg QueueTail QueueList.
From S2P Require Import QueueSTail QueueCircle QueueClient.

(** * Implementations *)

Section ops.
Context (field : Z).

Definition single_cells (h : Z) : list Z := [h + 0].
Definition pair_cells (h : Z) : list Z := [h + 0; h + 1].
Definition snode_cells (e : Z) : list Z := [e + field].
Definition dnode_cells (e : Z) : list Z := [e + field; e + (field + 1)].

Definition LIST_ops : QueueOps := {|
  q_end _ := NULL;
  q_head_cells := single_cells;
  q_node_cells := dnode_cells;
  q_init := LIST_INIT;
  q_empty := LIST_EMPTY;
  q_insert_head := LIST_INSERT_HEAD field;
  q_insert_tail := None;
  q_insert_after _ := LIST_INSERT_AFTER field;
  q_insert_before := Some (λ _, LIST_INSERT_BEFORE field);
  q_remove _ _ := LIST_REMOVE field;
  q_remove_head h := x ← LIST_FIRST h; LIST_REMOVE field x;
  q_first := LIST_FIRST;
  q_last := None;
  q_next := LIST_NEXT field;
  q_prev := None;
  q_foreach := LIST_FOREACH field;
  q_foreach_reverse := None;
|}.

Definition SLIST_ops : QueueOps := {|
  q_end _ := NULL;
  q_head_cells := single_cells;
  q_node_cells := snode_cells;
  q_init := SLIST_INIT;
  q_empty := SLIST_EMPTY;
  q_insert_head := SLIST_INSERT_HEAD field;
  q_insert_tail := None;
  q_insert_after _ := SLIST_INSERT_AFTER field;
  q_insert_before := None;
  q_remove := SLIST_REMOVE field;
  q_remove_head := SLIST_REMOVE_HEAD field;
  q_first := SLIST_FIRST;
  q_last := None;
  q_next := SLIST_NEXT field;
  q_prev := None;
  q_foreach := SLIST_FOREACH field;
  q_foreach_reverse := None;
|}.

Definition STAILQ_ops : QueueOps := {|
  q_end _ := NULL;
  q_head_cells := pair_cells;
  q_node_cells := snode_cells;
  q_init := STAILQ_INIT;
  q_empty := STAILQ_EMPTY;
  q_insert_head := STAILQ_INSERT_HEAD field;
  q_insert_tail := Some (STAILQ_INSERT_TAIL field);
  q_insert_after := STAILQ_INSERT_AFTER field;
  q_insert_before := None;
  q_remove := STAILQ_REMOVE field;
  q_remove_head := STAILQ_REMOVE_HEAD field;
  q_first := STAILQ_FIRST;
  q_last := None;
  q_next := STAILQ_NEXT field;
  q_prev := None;
  q_foreach := STAILQ_FOREACH field;
  q_foreach_reverse := None;
|}.

Definition SIMPLEQ_ops : QueueOps := {|
  q_end _ := NULL;
  q_head_cells := pair_cells;
  q_node_cells := snode_cells;
  q_init := SIMPLEQ_INIT;
  q_empty := SIMPLEQ_EMPTY;
  q_insert_head := SIMPLEQ_INSERT_HEAD field;
  q_insert_tail := Some (SIMPLEQ_INSERT_TAIL field);
  q_insert_after := SIMPLEQ_INSERT_AFTER field;
  q_insert_before := None;
  q_remove := SIMPLEQ_REMOVE field;
  q_remove_head := SIMPLEQ_REMOVE_HEAD field;
  q_first := SIMPLEQ_FIRST;
  q_last := None;
  q_next := SIMPLEQ_NEXT field;
  q_prev := None;
  q_foreach := SIMPLEQ_FOREACH field;
  q_foreach_reverse := None;
|}.

Definition TAILQ_ops : QueueOps := {|
  q_end _ := NULL;
  q_head_cells := pair_cells;
  q_node_cells := dnode_cells;
  q_init := TAILQ_INIT;
  q_empty := TAILQ_EMPTY;
  q_insert_head := TAILQ_INSERT_HEAD field;
  q_insert_tail := Some (TAILQ_INSERT_TAIL field);
  q_insert_after := TAILQ_INSERT_AFTER field;
  q_insert_before := Some (λ _, TAILQ_INSERT_BEFORE field);
  q_remove _ := TAILQ_REMOVE field;
  q_remove_head h := x ← TAILQ_FIRST h; TAILQ_REMOVE field h x;
  q_first := TAILQ_FIRST;
  q_last := Some TAILQ_LAST;
  q_next := TAILQ_NEXT field;
  q_prev := Some (TAILQ_PREV field);
  q_foreach := TAILQ_FOREACH field;
  q_foreach_reverse := Some (TAILQ_FOREACH_REVERSE field);
|}.

Definition CIRCLEQ_ops : QueueOps := {|
  q_end h := h;
  q_head_cells := pair_cells;
  q_node_cells := dnode_cells;
  q_init := CIRCLEQ_INIT;
  q_empty := CIRCLEQ_EMPTY;
  q_insert_head := CIRCLEQ_INSERT_HEAD field;
  q_insert_tail := Some (CIRCLEQ_INSERT_TAIL field);
  q_insert_after := CIRCLEQ_INSERT_AFTER field;
  q_insert_before := Some (CIRCLEQ_INSERT_BEFORE field);
  q_remove _ := CIRCLEQ_REMOVE field;
  q_remove_head h := x ← CIRCLEQ_FIRST h; CIRCLEQ_REMOVE field h x;
  q_first := CIRCLEQ_FIRST;
  q_last := Some CIRCLEQ_LAST;
  q_next := CIRCLEQ_NEXT field;
  q_prev := Some (CIRCLEQ_PREV field);
  q_foreach := CIRCLEQ_FOREACH field;
  q_foreach_reverse := Some (CIRCLEQ_FOREACH_REVERSE field);
|}.
End ops.

(** Removing the first element of a structure without a macro for it. *)
Lemma remove_first_spec (P P' : hpropI) (first : M mem Z) x (remove : Z → M mem unit) :
  (P ⊢ hwp first (λ v, ⌈v = x⌉ ∗ P)) →
  (P ⊢ hwp (remove x) (λ _, P')) →
  P ⊢ hwp (x ← first; remove x) (λ _, P').
Proof.
  intros Hf Hr. iIntros "H". h_bind. iApply (hwp_wand with "[H]"); [by iApply Hf|].
  iIntros (v) "[-> H]". by iApply Hr.
Qed.

Section laws.
Context (field : Z) (Hfield : 0 <= field).

Lemma snode_intro e : 0 < e → ([∗ list] p ∈ snode_cells field e, alloc p) ⊢ snode field e.
Proof. iIntros (He) "[$ _]". done. Qed.

Lemma dnode_intro e : 0 < e → ([∗ list] p ∈ dnode_cells field e, alloc p) ⊢ dnode field e.
Proof. iIntros (He) "($ & $ & _)". done. Qed.

Lemma pair_intro h (Φ : hpropI) :
  (alloc (h + 0) ∗ alloc (h + 1) ⊢ Φ) → ([∗ list] p ∈ pair_cells h, alloc p) ⊢ Φ.
Proof. iIntros (H) "(H1 & H2 & _)". iApply H. iFrame. Qed.

#[export] Instance TAILQ_laws : QueueLaws (TAILQ_ops field).
Proof using Hfield.
  refine {| q_node _ := dnode field; q_repr := tailq field |}; cbn.
  - intros h e He _. by apply dnode_intro.
  - apply tailq_nonnull.
  - intros h Hh. by apply pair_intro, TAILQ_INIT_spec.
  - apply TAILQ_EMPTY_spec.
  - by apply TAILQ_INSERT_HEAD_spec.
  - by apply TAILQ_INSERT_TAIL_spec.
  - by apply TAILQ_INSERT_AFTER_spec.
  - by apply TAILQ_INSERT_BEFORE_spec.
  - intros fuel h x l1 l2 _. by apply TAILQ_REMOVE_spec.
  - intros h x l. eapply remove_first_spec; [apply TAILQ_FIRST_spec|].
    by apply (TAILQ_REMOVE_spec field Hfield h x []).
  - apply TAILQ_FIRST_spec.
  - by apply TAILQ_LAST_spec.
  - intros h l1 x l2. by apply TAILQ_NEXT_spec.
  - intros h l1 x l2. by apply TAILQ_PREV_spec.
  - intros fuel h l. by apply TAILQ_FOREACH_spec.
  - intros fuel h l. by apply TAILQ_FOREACH_REVERSE_spec.
Defined.

#[export] Instance CIRCLEQ_laws : QueueLaws (CIRCLEQ_ops field).
Proof using Hfield.
  refine {| q_node h e := ⌈e ≠ h⌉ ∗ dnode field e; q_repr := circleq field |}%I; cbn.
  - iIntros (h e He Hne) "H". iSplit; [done|]. by iApply dnode_intro.
  - apply circleq_ne.
  - intros h Hh. by apply pair_intro, CIRCLEQ_INIT_spec.
  - apply CIRCLEQ_EMPTY_spec.
  - iIntros (h e l) "(H & %Hne & He)". iApply CIRCLEQ_INSERT_HEAD_spec; [done..|iFrame].
  - iIntros (h e l) "(H & %Hne & He)". iApply CIRCLEQ_INSERT_TAIL_spec; [done..|iFrame].
  - iIntros (h x e l1 l2) "(H & %Hne & He)". iApply CIRCLEQ_INSERT_AFTER_spec; [done..|iFrame].
  - iIntros (h x e l1 l2) "(H & %Hne & He)". iApply CIRCLEQ_INSERT_BEFORE_spec; [done..|iFrame].
  - intros fuel h x l1 l2 _. by apply CIRCLEQ_REMOVE_spec.
  - intros h x l. eapply remove_first_spec; [apply CIRCLEQ_FIRST_spec|].
    by apply (CIRCLEQ_REMOVE_spec field h x []).
  - apply CIRCLEQ_FIRST_spec.
  - apply CIRCLEQ_LAST_spec.
  - by apply CIRCLEQ_NEXT_spec.
  - by apply CIRCLEQ_PREV_spec.
  - intros fuel h l. by apply CIRCLEQ_FOREACH_spec.
  - intros fuel h l. by apply CIRCLEQ_FOREACH_REVERSE_spec.
Qed.

#[export] Instance LIST_laws : QueueLaws (LIST_ops field).
Proof using Hfield.
  refine {| q_node _ := dnode field; q_repr := dlist field |}; cbn.
  - intros h e He _. by apply dnode_intro.
  - apply dlist_nonnull.
  - iIntros (h Hh) "[H _]". by iApply LIST_INIT_spec.
  - apply LIST_EMPTY_spec.
  - by apply LIST_INSERT_HEAD_spec.
  - done.
  - by apply LIST_INSERT_AFTER_spec.
  - by apply LIST_INSERT_BEFORE_spec.
  - intros fuel h x l1 l2 _. by apply LIST_REMOVE_spec.
  - intros h x l. eapply remove_first_spec; [apply LIST_FIRST_spec|].
    by apply (LIST_REMOVE_spec field Hfield h x []).
  - apply LIST_FIRST_spec.
  - done.
  - intros h l1 x l2. by apply LIST_NEXT_spec.
  - done.
  - intros fuel h l. by apply LIST_FOREACH_spec.
  - done.
Qed.

#[export] Instance SLIST_laws : QueueLaws (SLIST_ops field).
Proof using Hfield.
  refine {| q_node _ := snode field; q_repr := slist field |}; cbn.
  - intros h e He _. by apply snode_intro.
  - apply slist_nonnull.
  - iIntros (h Hh) "[H _]". by iApply SLIST_INIT_spec.
  - apply SLIST_EMPTY_spec.
  - by apply SLIST_INSERT_HEAD_spec.
  - done.
  - by apply SLIST_INSERT_AFTER_spec.
  - done.
  - intros fuel h x l1 l2. by apply SLIST_REMOVE_spec.
  - by apply SLIST_REMOVE_HEAD_spec.
  - apply SLIST_FIRST_spec.
  - done.
  - intros h l1 x l2. by apply SLIST_NEXT_spec.
  - done.
  - intros fuel h l. by apply SLIST_FOREACH_spec.
  - done.
Qed.

#[export] Instance STAILQ_laws : QueueLaws (STAILQ_ops field).
Proof using Hfield.
  refine {| q_node _ := snode field; q_repr := stailq field |}; cbn.
  - intros h e He _. by apply snode_intro.
  - apply stailq_nonnull.
  - intros h Hh. by apply pair_intro, STAILQ_INIT_spec.
  - apply STAILQ_EMPTY_spec.
  - by apply STAILQ_INSERT_HEAD_spec.
  - by apply STAILQ_INSERT_TAIL_spec.
  - by apply STAILQ_INSERT_AFTER_spec.
  - done.
  - intros fuel h x l1 l2. by apply STAILQ_REMOVE_spec.
  - by apply STAILQ_REMOVE_HEAD_spec.
  - apply STAILQ_FIRST_spec.
  - done.
  - intros h l1 x l2. by apply STAILQ_NEXT_spec.
  - done.
  - intros fuel h l. by apply STAILQ_FOREACH_spec.
  - done.
Defined.

(** Simple queues are singly-linked tail queues under another name. *)
Lemma SIMPLEQ_STAILQ_ops : SIMPLEQ_ops field = STAILQ_ops field.
Proof. reflexivity. Qed.

#[export] Instance SIMPLEQ_laws : QueueLaws (SIMPLEQ_ops field).
Proof using Hfield. rw SIMPLEQ_STAILQ_ops. apply STAILQ_laws. Qed.
End laws.

(** * What programs can rely on *)

(** Any program that initialises a queue and applies operations to it, on
    uninitialised memory for a head and elements beside any other memory [σf],
    runs without undefined behaviour, returns what the same operations on a list
    return, and leaves the other memory alone. [fuel] bounds the iterations of
    each loop; the number of elements is enough. *)
Definition simulates_list (Q : QueueOps) : Prop :=
  ∀ fuel h nodes cs os s' σf,
    objects h nodes → blank (cells h nodes) ##ₘ σf →
    forallb supports cs = true → (length nodes ≤ fuel)%nat →
    steps ([], nodes) cs = Some (os, s') →
    ∃ σ', program fuel h cs (blank (cells h nodes) ∪ σf) = Some (os, σ' ∪ σf) ∧ σ' ##ₘ σf.

(** C11: the doubly linked lists of [LIST_*] simulate a list under insertion at the
    head, before and after an element, removal of any element, access and
    traversal. *)
Theorem LIST_simulates_list field : 0 <= field → simulates_list (LIST_ops field).
Proof. intros Hf. exact (@program_correct _ (LIST_laws field Hf)). Qed.

(** The singly-linked lists of [SLIST_*] simulate a list; the search for the
    predecessor in [SLIST_REMOVE] finds it. *)
Theorem SLIST_simulates_list field : 0 <= field → simulates_list (SLIST_ops field).
Proof. intros Hf. exact (@program_correct _ (SLIST_laws field Hf)). Qed.

(** C10: the singly-linked tail queues of [STAILQ_*] simulate a list, insertion at
    the tail included after any removals. *)
Theorem STAILQ_simulates_list field : 0 <= field → simulates_list (STAILQ_ops field).
Proof. intros Hf. exact (@program_correct _ (STAILQ_laws field Hf)). Qed.

(** The simple queues of [SIMPLEQ_*] simulate a list. *)
Theorem SIMPLEQ_simulates_list field : 0 <= field → simulates_list (SIMPLEQ_ops field).
Proof. intros Hf. exact (@program_correct _ (SIMPLEQ_laws field Hf)). Qed.

(** C8: the tail queues of [TAILQ_*] simulate a list under every operation,
    access from the end and traversal in reverse included. *)
Theorem TAILQ_simulates_list field : 0 <= field → simulates_list (TAILQ_ops field).
Proof. intros Hf. exact (@program_correct _ (TAILQ_laws field Hf)). Qed.

(** C9: the circular queues of [CIRCLEQ_*] simulate a list under every
    operation. *)
Theorem CIRCLEQ_simulates_list field : 0 <= field → simulates_list (CIRCLEQ_ops field).
Proof. intros Hf. exact (@program_correct _ (CIRCLEQ_laws field Hf)). Qed.

(** ** Order of elements *)

Lemma take_free_head e free : take_free e (e :: free) = Some free.
Proof. by rw /take_free /= Z.eqb_refl. Qed.

Lemma steps_app s cs1 cs2 :
  steps s (cs1 ++ cs2) =
  '(os1, s1) ← steps s cs1; '(os2, s2) ← steps s1 cs2; Some (os1 ++ os2, s2).
Proof.
  revert s. induction cs1 as [|c cs1 IH]; intros s; cbn.
  - by destruct (steps s cs2) as [[]|].
  - destruct (step s c) as [[o s1]|]; cbn; [|done]. rw IH.
    destruct (steps s1 cs1) as [[os1 s2]|]; cbn; [|done].
    by destruct (steps s2 cs2) as [[]|].
Qed.

Lemma steps_push_tail l nodes free :
  steps (l, nodes ++ free) (Push_tail <$> nodes) =
  Some (replicate (length nodes) [], (l ++ nodes, free)).
Proof.
  revert l. induction nodes as [|e nodes IH]; intros l; cbn -[take_free]; [by rw app_nil_r|].
  by rw take_free_head /= IH -(assoc_L (++)).
Qed.

Lemma steps_push_head l nodes free :
  steps (l, nodes ++ free) (Push_head <$> nodes) =
  Some (replicate (length nodes) [], (rev nodes ++ l, free)).
Proof.
  revert l. induction nodes as [|e nodes IH]; intros l; cbn -[take_free]; [done|].
  by rw take_free_head /= IH -(assoc_L (++)).
Qed.

Lemma steps_pop l free :
  steps (l, free) (replicate (length l) Pop) =
  Some ((λ e, [e]) <$> l, ([], rev l ++ free)).
Proof.
  revert free. induction l as [|e l IH]; intros free; cbn; [done|].
  by rw IH /= -(assoc_L (++)).
Qed.

(** Filling a queue, then emptying it. *)
Definition fill_and_drain (push : Z → cmd) (nodes : list Z) : list cmd :=
  (push <$> nodes) ++ replicate (length nodes) Pop.

Lemma steps_fifo nodes :
  steps ([], nodes) (fill_and_drain Push_tail nodes) =
  Some (replicate (length nodes) [] ++ ((λ e, [e]) <$> nodes), ([], rev nodes)).
Proof.
  pose proof (steps_push_tail [] nodes []) as H. rw app_nil_r in H.
  by rw /fill_and_drain steps_app H /= steps_pop /= app_nil_r.
Qed.

Lemma steps_lifo nodes :
  steps ([], nodes) (fill_and_drain Push_head nodes) =
  Some (replicate (length nodes) [] ++ ((λ e, [e]) <$> rev nodes), ([], nodes)).
Proof.
  pose proof (steps_push_head [] nodes []) as H. rw !app_nil_r in H.
  rw /fill_and_drain steps_app H /= -{2}(length_rev nodes) steps_pop /=.
  by rw rev_involutive app_nil_r.
Qed.

Lemma supports_push_pop {Q : QueueOps} push nodes :
  (∀ e, supports (push e) = true) → forallb supports (fill_and_drain push nodes) = true.
Proof.
  intros Hp. rw /fill_and_drain forallb_app. apply andb_true_iff. split.
  - induction nodes as [|e nodes IH]; cbn; [done|]. by rw Hp IH.
  - by induction (length nodes).
Qed.

(** A program alone in memory. *)
Lemma program_alone {Q : QueueOps} {L : QueueLaws Q} fuel h nodes cs os s' :
  objects h nodes → forallb supports cs = true → (length nodes ≤ fuel)%nat →
  steps ([], nodes) cs = Some (os, s') →
  ∃ σ', program fuel h cs (blank (cells h nodes)) = Some (os, σ').
Proof.
  intros Ho Hs Hf Hst.
  destruct (program_correct fuel h nodes cs os s' ∅) as (σ' & E & _); [done|..|done|done|done|].
  - apply map_disjoint_empty_r.
  - rw !right_id_L in E. by exists σ'.
Qed.

(** Elements put in at the tail come out at the head in the order they went in,
    for each of the four structures that have a tail. *)
Theorem queues_fifo field Q h nodes :
  0 <= field →
  Q ∈ [STAILQ_ops field; SIMPLEQ_ops field; TAILQ_ops field; CIRCLEQ_ops field] →
  objects h nodes →
  ∃ σ', program (length nodes) h (fill_and_drain Push_tail nodes) (blank (cells h nodes)) =
    Some (replicate (length nodes) [] ++ ((λ e, [e]) <$> nodes), σ').
Proof.
  intros Hf HQ Ho. rw !elem_of_cons in HQ.
  destruct HQ as [->|[->|[->|[->|[]%not_elem_of_nil]]]];
    [pose proof (STAILQ_laws _ Hf)|pose proof (SIMPLEQ_laws _ Hf)
    |pose proof (TAILQ_laws _ Hf)|pose proof (CIRCLEQ_laws _ Hf)];
    (eapply program_alone; [done|by apply supports_push_pop|done|apply steps_fifo]).
Qed.

(** Elements put in at the head come out last in first out, for each of the six
    structures; singly-linked lists are meant for this use. *)
Theorem lists_lifo field Q h nodes :
  0 <= field →
  Q ∈ [LIST_ops field; SLIST_ops field; STAILQ_ops field; SIMPLEQ_ops field;
       TAILQ_ops field; CIRCLEQ_ops field] →
  objects h nodes →
  ∃ σ', program (length nodes) h (fill_and_drain Push_head nodes) (blank (cells h nodes)) =
    Some (replicate (length nodes) [] ++ ((λ e, [e]) <$> rev nodes), σ').
Proof.
  intros Hf HQ Ho. rw !elem_of_cons in HQ.
  destruct HQ as [->|[->|[->|[->|[->|[->|[]%not_elem_of_nil]]]]]];
    [pose proof (LIST_laws _ Hf)|pose proof (SLIST_laws _ Hf)
    |pose proof (STAILQ_laws _ Hf)|pose proof (SIMPLEQ_laws _ Hf)
    |pose proof (TAILQ_laws _ Hf)|pose proof (CIRCLEQ_laws _ Hf)];
    (eapply program_alone; [done|by apply supports_push_pop|done|apply steps_lifo]).
Qed.

(** ** Concatenation *)

(** Two queues are filled and the second is moved to the end of the first. *)
Definition concat_program {Q : QueueOps} (concat : Z → Z → M mem unit)
    (fuel : nat) (h1 h2 : Z) (l1 l2 : list Z) : M mem (list Z * list Z) :=
  program fuel h1 (Push_tail <$> l1);;
  program fuel h2 (Push_tail <$> l2);;
  concat h1 h2;;
  a ← q_foreach fuel h1;
  b ← q_foreach fuel h2;
  mret (a, b).

Section concat.
Context {Q : QueueOps} {L : QueueLaws Q} (concat : Z → Z → M mem unit).
Context (Hconcat : ∀ h1 h2 l1 l2,
  q_repr h1 l1 ∗ q_repr h2 l2 ⊢
  hwp (concat h1 h2) (λ _, q_repr h1 (l1 ++ l2) ∗ q_repr h2 [])).
Context (Htail : ∀ e, supports (Push_tail e) = true).

Lemma fill_spec fuel h l :
  objects h l → (length l ≤ fuel)%nat →
  ([∗ list] p ∈ cells h l, alloc p) ⊢ hwp (program fuel h (Push_tail <$> l)) (λ _, q_repr h l).
Proof using Htail.
  intros Ho Hf. pose proof (steps_push_tail [] l []) as Hs. rw app_nil_r in Hs.
  iIntros "H". iApply (hwp_wand with "[H]").
  - iApply (program_spec with "H"); [done| |done|done].
    clear -Htail. induction l as [|e l IH]; cbn -[supports]; [done|]. by rw Htail.
  - iIntros (os) "(_ & $ & _)".
Qed.

Lemma concat_correct fuel h1 h2 l1 l2 :
  objects h1 l1 → objects h2 l2 → NoDup (cells h1 l1 ++ cells h2 l2) →
  (length l1 + length l2 ≤ fuel)%nat →
  ∃ σ', concat_program concat fuel h1 h2 l1 l2 (blank (cells h1 l1 ++ cells h2 l2)) =
    Some ((l1 ++ l2, []), σ').
Proof using Hconcat Htail.
  intros Ho1 Ho2 Hnd Hf.
  destruct (hwp_run ([∗ list] p ∈ (cells h1 l1 ++ cells h2 l2), alloc p)
    (concat_program concat fuel h1 h2 l1 l2) (λ r, ⌈r = (l1 ++ l2, [])⌉ ∗ True)%I
    (blank (cells h1 l1 ++ cells h2 l2)) ∅)
    as (r & σ' & E & _ & (_ & _ & _ & _ & [_ ->] & _)).
  - rw big_sepL_app /concat_program. eapply hwp_then; [apply fill_spec; [done|lia]|].
    intros os1. rw comm. eapply hwp_then; [apply fill_spec; [done|lia]|].
    intros os2. rw comm -(right_id emp%I (∗)%I (q_repr h1 l1 ∗ q_repr h2 l2)%I).
    eapply hwp_then; [apply Hconcat|]. intros []. rw right_id.
    eapply hwp_read; [apply q_foreach_law; rw length_app; lia|]. rw comm.
    eapply hwp_read; [apply q_foreach_law; cbn; lia|].
    iIntros "H". h_ret. by iSplit.
  - by apply blank_alloc.
  - apply map_disjoint_empty_r.
  - rw !right_id_L in E. by exists σ'.
Qed.
End concat.

(** [TAILQ_CONCAT] moves the elements of the second queue to the end of the
    first, and the second is empty and usable afterwards. *)
Theorem TAILQ_CONCAT_appends field fuel h1 h2 l1 l2 :
  let Q := TAILQ_ops field in
  0 <= field → objects h1 l1 → objects h2 l2 → NoDup (cells h1 l1 ++ cells h2 l2) →
  (length l1 + length l2 ≤ fuel)%nat →
  ∃ σ', concat_program (TAILQ_CONCAT field) fuel h1 h2 l1 l2
      (blank (cells h1 l1 ++ cells h2 l2)) = Some ((l1 ++ l2, []), σ').
Proof.
  intros Q Hf. apply (concat_correct (L := TAILQ_laws field Hf)); [|done].
  by apply TAILQ_CONCAT_spec.
Qed.

(** [STAILQ_CONCAT] does the same for singly-linked tail queues. *)
Theorem STAILQ_CONCAT_appends field fuel h1 h2 l1 l2 :
  let Q := STAILQ_ops field in
  0 <= field → objects h1 l1 → objects h2 l2 → NoDup (cells h1 l1 ++ cells h2 l2) →
  (length l1 + length l2 ≤ fuel)%nat →
  ∃ σ', concat_program STAILQ_CONCAT fuel h1 h2 l1 l2
      (blank (cells h1 l1 ++ cells h2 l2)) = Some ((l1 ++ l2, []), σ').
Proof.
  intros Q Hf. apply (concat_correct (L := STAILQ_laws field Hf)); [|done].
  by apply STAILQ_CONCAT_spec.
Qed.

(** ** Static initialisers *)

(** A head with the given members. *)
Definition head_mem (h : Z) (vs : list Z) : mem :=
  list_to_map (imap (λ i v, (h + Z.of_nat i, Some v)) vs).

Lemma st_one h a : 0 < h → stf h 0 a (blank (single_cells h)) = Some (tt, head_mem h [a]).
Proof.
  intros Hh. rw /stf (proj2 (Z.eqb_neq h NULL)); [|lia].
  by rw /st /blank /head_mem /= lookup_insert_eq insert_insert_eq.
Qed.

Lemma st_two h a b :
  0 < h →
  (stf h 0 a;; stf h 1 b) (blank (pair_cells h)) = Some (tt, head_mem h [a; b]).
Proof.
  intros Hh. rw /mbind /M_bind /stf (proj2 (Z.eqb_neq h NULL)); [|lia].
  rw /st /blank /head_mem /= lookup_insert_eq lookup_insert_ne; [|lia].
  rw lookup_insert_ne; [|lia]. rw lookup_insert_eq. do 2 f_equal.
  apply map_eq. intros k. rw !lookup_insert. repeat case_decide; (done || lia).
Qed.

(** The [INIT] macro of each structure leaves a head as its static initialiser
    does. *)
Lemma head_initializers h :
  0 < h →
  LIST_INIT h (blank (single_cells h)) = Some (tt, head_mem h (LIST_HEAD_INITIALIZER h)) ∧
  SLIST_INIT h (blank (single_cells h)) = Some (tt, head_mem h (SLIST_HEAD_INITIALIZER h)) ∧
  STAILQ_INIT h (blank (pair_cells h)) = Some (tt, head_mem h (STAILQ_HEAD_INITIALIZER h)) ∧
  SIMPLEQ_INIT h (blank (pair_cells h)) = Some (tt, head_mem h (SIMPLEQ_HEAD_INITIALIZER h)) ∧
  TAILQ_INIT h (blank (pair_cells h)) = Some (tt, head_mem h (TAILQ_HEAD_INITIALIZER h)) ∧
  CIRCLEQ_INIT h (blank (pair_cells h)) = Some (tt, head_mem h (CIRCLEQ_HEAD_INITIALIZER h)).
Proof.
  intros Hh. split_and!; [exact (st_one _ _ Hh)..|exact (st_two _ _ _ Hh)|exact (st_two _ _ _ Hh)
    |exact (st_two _ _ _ Hh)|exact (st_two _ _ _ Hh)].
Qed.

(** ** Instances *)

Definition sample_list : list cmd :=
  [Push_head 10; Push_head 20; Insert_after 10 30; Walk; Remove 10; Walk; Next 20; Pop; First].

Definition sample_queue : list cmd :=
  [Push_tail 10; Push_tail 20; Remove 20; Push_tail 30; Insert_after 30 20; Push_tail 40; Walk].

Definition sample_deque : list cmd :=
  [Push_tail 10; Push_head 20; Insert_before 10 30; Last; Prev 10; Remove 10; Push_tail 40;
   Walk; Walk_rev].

Ltac run_sample := intros;
  first [lia | apply map_disjoint_empty_r | vm_compute; reflexivity
        | apply (bool_decide_unpack _); vm_compute; exact I].

Lemma LIST_simulates_list_witness :
  ∃ σ', program (Q := LIST_ops 1) 4 100 sample_list
      (blank (cells (Q := LIST_ops 1) 100 [10; 20; 30; 40]) ∪ ∅) =
    Some ([[]; []; []; [20; 10; 30]; []; [20; 30]; [30]; [20]; [30]], σ' ∪ ∅) ∧ σ' ##ₘ ∅.
Proof. eapply (LIST_simulates_list 1); run_sample. Defined.

Lemma SLIST_simulates_list_witness :
  ∃ σ', program (Q := SLIST_ops 1) 4 100 sample_list
      (blank (cells (Q := SLIST_ops 1) 100 [10; 20; 30; 40]) ∪ ∅) =
    Some ([[]; []; []; [20; 10; 30]; []; [20; 30]; [30]; [20]; [30]], σ' ∪ ∅) ∧ σ' ##ₘ ∅.
Proof. eapply (SLIST_simulates_list 1); run_sample. Defined.

Lemma STAILQ_simulates_list_witness :
  ∃ σ', program (Q := STAILQ_ops 1) 4 100 sample_queue
      (blank (cells (Q := STAILQ_ops 1) 100 [10; 20; 30; 40]) ∪ ∅) =
    Some ([[]; []; []; []; []; []; [10; 30; 20; 40]], σ' ∪ ∅) ∧ σ' ##ₘ ∅.
Proof. eapply (STAILQ_simulates_list 1); run_sample. Defined.

Lemma SIMPLEQ_simulates_list_witness :
  ∃ σ', program (Q := SIMPLEQ_ops 1) 4 100 sample_queue
      (blank (cells (Q := SIMPLEQ_ops 1) 100 [10; 20; 30; 40]) ∪ ∅) =
    Some ([[]; []; []; []; []; []; [10; 30; 20; 40]], σ' ∪ ∅) ∧ σ' ##ₘ ∅.
Proof. eapply (SIMPLEQ_simulates_list 1); run_sample. Defined.

Lemma TAILQ_simulates_list_witness :
  ∃ σ', program (Q := TAILQ_ops 1) 4 100 sample_deque
      (blank (cells (Q := TAILQ_ops 1) 100 [10; 20; 30; 40]) ∪ ∅) =
    Some ([[]; []; []; [10]; [30]; []; []; [20; 30; 40]; [40; 30; 20]], σ' ∪ ∅) ∧ σ' ##ₘ ∅.
Proof. eapply (TAILQ_simulates_list 1); run_sample. Defined.

Lemma CIRCLEQ_simulates_list_witness :
  ∃ σ', program (Q := CIRCLEQ_ops 1) 4 100 sample_deque
      (blank (cells (Q := CIRCLEQ_ops 1) 100 [10; 20; 30; 40]) ∪ ∅) =
    Some ([[]; []; []; [10]; [30]; []; []; [20; 30; 40]; [40; 30; 20]], σ' ∪ ∅) ∧ σ' ##ₘ ∅.
Proof. eapply (CIRCLEQ_simulates_list 1); run_sample. Defined.

Lemma queues_fifo_witness :
  ∃ σ', program (Q := TAILQ_ops 0) 3 100 (fill_and_drain Push_tail [10; 20; 30])
      (blank (cells (Q := TAILQ_ops 0) 100 [10; 20; 30])) =
    Some ([[]; []; []; [10]; [20]; [30]], σ').
Proof.
  apply (queues_fifo 0 (TAILQ_ops 0) 100 [10; 20; 30]); [lia| |run_sample].
  apply elem_of_cons. right. apply elem_of_cons. right. apply elem_of_cons. by left.
Defined.

Lemma lists_lifo_witness :
  ∃ σ', program (Q := SLIST_ops 0) 3 100 (fill_and_drain Push_head [10; 20; 30])
      (blank (cells (Q := SLIST_ops 0) 100 [10; 20; 30])) =
    Some ([[]; []; []; [30]; [20]; [10]], σ').
Proof.
  apply (lists_lifo 0 (SLIST_ops 0) 100 [10; 20; 30]); [lia| |run_sample].
  apply elem_of_cons. right. apply elem_of_cons. by left.
Defined.

Lemma TAILQ_CONCAT_appends_witness :
  let Q := TAILQ_ops 0 in
  ∃ σ', concat_program (TAILQ_CONCAT 0) 3 100 200 [10; 20] [30]
      (blank (cells 100 [10; 20] ++ cells 200 [30])) = Some (([10; 20; 30], []), σ').
Proof. apply (TAILQ_CONCAT_appends 0 3 100 200 [10; 20] [30]); run_sample. Defined.

Lemma STAILQ_CONCAT_appends_witness :
  let Q := STAILQ_ops 0 in
  ∃ σ', concat_program STAILQ_CONCAT 3 100 200 [10; 20] [30]
      (blank (cells 100 [10; 20] ++ cells 200 [30])) = Some (([10; 20; 30], []), σ').
Proof. apply (STAILQ_CONCAT_appends 0 3 100 200 [10; 20] [30]); run_sample. Defined.
