(* ===== verification/Swab.v ===== *)
(** Byte swapping: [linux/swab.h], the ARM routine of [asm/swab.h] that it uses,
    the conversions of [linux/byteorder/little_endian.h] built on it and the
    macros of [bits/byteswap.h]. The model is of the configuration of the tree, a
    little-endian ARM: [asm/swab.h] defines [__arch_swab32] and nothing else. *)
From stdpp Require Import base numbers list.
From Stdlib Require Import ZArith Lia.
From S2P Require Import Prelude.

Definition u64 (z : Z) : Z := z mod 18446744073709551616.
Definition is_u64 (z : Z) : Prop := 0 <= z < 18446744073709551616.

#[global] Instance is_u64_dec z : Decision (is_u64 z).
Proof. unfold is_u64. apply _. Defined.

Notation "x .^ y" := (Z.lxor x y) (at level 38, left associativity) : c_scope.

(** * Constants *)

Definition ___constant_swab16 (x : Z) : Z :=
  u16 (((u16 x .& 0x00ff) << 8) .|
       ((u16 x .& 0xff00) >> 8)).

Definition ___constant_swab32 (x : Z) : Z :=
  u32 (u32 ((u32 x .& 0x000000ff) << 24) .|
       u32 ((u32 x .& 0x0000ff00) << 8) .|
       ((u32 x .& 0x00ff0000) >> 8) .|
       ((u32 x .& 0xff000000) >> 24)).

Definition ___constant_swab64 (x : Z) : Z :=
  u64 (u64 ((u64 x .& 0x00000000000000ff) << 56) .|
       u64 ((u64 x .& 0x000000000000ff00) << 40) .|
       u64 ((u64 x .& 0x0000000000ff0000) << 24) .|
       u64 ((u64 x .& 0x00000000ff000000) << 8) .|
       ((u64 x .& 0x000000ff00000000) >> 8) .|
       ((u64 x .& 0x0000ff0000000000) >> 24) .|
       ((u64 x .& 0x00ff000000000000) >> 40) .|
       ((u64 x .& 0xff00000000000000) >> 56)).

Definition ___constant_swahw32 (x : Z) : Z :=
  u32 (u32 ((u32 x .& 0x0000ffff) << 16) .|
       ((u32 x .& 0xffff0000) >> 16)).

Definition ___constant_swahb32 (x : Z) : Z :=
  u32 (u32 ((u32 x .& 0x00ff00ff) << 8) .|
       ((u32 x .& 0xff00ff00) >> 8)).

(** * Functions *)

(** The second operand of an ARM instruction, rotated right. *)
Definition ror (x n : Z) : Z := u32 ((x >> n) .| (x << (32 - n))).

(** [~x] of a 32-bit constant *)
Definition not32 (x : Z) : Z := 0xffffffff .^ x.

(** [eor %0, %1, %1, ror #16], or the same in C when the compiler knows [x] or
    compiles for Thumb; [in_c] tells which. *)
Definition __arch_swab32 (in_c : bool) (x : Z) : Z :=
  let t :=
    if in_c then x .^ (u32 (x << 16) .| (x >> 16))
    else x .^ ror x 16 in
  let x := u32 (x << 24) .| (x >> 8) in
  let t := t .& not32 0x00FF0000 in
  x .^ (t >> 8).

(** What the compilation fixes: [__thumb__], [__STRICT_ANSI__] and, for each call,
    whether the compiler knows the argument to be constant
    ([__builtin_constant_p]). *)
Record config := Config {
  thumb : bool;
  strict_ansi : bool;
  constant_p : bool;
}.

Section swab.
Context (cfg : config).

Definition __fswab16 (val : Z) : Z := ___constant_swab16 val.

Definition __fswab32 (val : Z) : Z := __arch_swab32 (thumb cfg || constant_p cfg) val.

(** [__SWAB_64_THRU_32__] is defined unless the language is strict ISO C. *)
Definition __fswab64 (val : Z) : Z :=
  if negb (strict_ansi cfg) then
    let h := u32 (val >> 32) in
    let l := u32 (val .& ((1 << 32) - 1)) in
    u64 (__fswab32 l << 32) .| __fswab32 h
  else ___constant_swab64 val.

Definition __fswahw32 (val : Z) : Z := ___constant_swahw32 val.
Definition __fswahb32 (val : Z) : Z := ___constant_swahb32 val.

Definition __swab16 (x : Z) : Z :=
  if constant_p cfg then ___constant_swab16 x else __fswab16 (u16 x).
Definition __swab32 (x : Z) : Z :=
  if constant_p cfg then ___constant_swab32 x else __fswab32 (u32 x).
Definition __swab64 (x : Z) : Z :=
  if constant_p cfg then ___constant_swab64 x else __fswab64 (u64 x).
Definition __swahw32 (x : Z) : Z :=
  if constant_p cfg then ___constant_swahw32 x else __fswahw32 (u32 x).
Definition __swahb32 (x : Z) : Z :=
  if constant_p cfg then ___constant_swahb32 x else __fswahb32 (u32 x).

(** The object that a pointer points to is the state. *)
Definition __swab16p : R Z Z := asks __swab16.
Definition __swab32p : R Z Z := asks __swab32.
Definition __swab64p : R Z Z := asks __swab64.
Definition __swahw32p : R Z Z := asks __swahw32.
Definition __swahb32p : R Z Z := asks __swahb32.

(** [*p = v] *)
Definition assign (v : Z) : M Z unit := modify (λ _, v).

Definition __swab16s : M Z unit := v ← read __swab16p; assign v.
Definition __swab32s : M Z unit := v ← read __swab32p; assign v.
Definition __swab64s : M Z unit := v ← read __swab64p; assign v.
Definition __swahw32s : M Z unit := v ← read __swahw32p; assign v.
Definition __swahb32s : M Z unit := v ← read __swahb32p; assign v.
End swab.

(** * Conversions *)

Section conversions.
Context (cfg : config).

Definition __constant_htonl (x : Z) : Z := ___constant_swab32 x.
Definition __constant_ntohl (x : Z) : Z := ___constant_swab32 (u32 x).
Definition __constant_htons (x : Z) : Z := ___constant_swab16 x.
Definition __constant_ntohs (x : Z) : Z := ___constant_swab16 (u16 x).
Definition __constant_cpu_to_le64 (x : Z) : Z := u64 x.
Definition __constant_le64_to_cpu (x : Z) : Z := u64 x.
Definition __constant_cpu_to_le32 (x : Z) : Z := u32 x.
Definition __constant_le32_to_cpu (x : Z) : Z := u32 x.
Definition __constant_cpu_to_le16 (x : Z) : Z := u16 x.
Definition __constant_le16_to_cpu (x : Z) : Z := u16 x.
Definition __constant_cpu_to_be64 (x : Z) : Z := ___constant_swab64 x.
Definition __constant_be64_to_cpu (x : Z) : Z := ___constant_swab64 (u64 x).
Definition __constant_cpu_to_be32 (x : Z) : Z := ___constant_swab32 x.
Definition __constant_be32_to_cpu (x : Z) : Z := ___constant_swab32 (u32 x).
Definition __constant_cpu_to_be16 (x : Z) : Z := ___constant_swab16 x.
Definition __constant_be16_to_cpu (x : Z) : Z := ___constant_swab16 (u16 x).

Definition __cpu_to_le64 (x : Z) : Z := u64 x.
Definition __le64_to_cpu (x : Z) : Z := u64 x.
Definition __cpu_to_le32 (x : Z) : Z := u32 x.
Definition __le32_to_cpu (x : Z) : Z := u32 x.
Definition __cpu_to_le16 (x : Z) : Z := u16 x.
Definition __le16_to_cpu (x : Z) : Z := u16 x.
Definition __cpu_to_be64 (x : Z) : Z := __swab64 cfg x.
Definition __be64_to_cpu (x : Z) : Z := __swab64 cfg (u64 x).
Definition __cpu_to_be32 (x : Z) : Z := __swab32 cfg x.
Definition __be32_to_cpu (x : Z) : Z := __swab32 cfg (u32 x).
Definition __cpu_to_be16 (x : Z) : Z := __swab16 cfg x.
Definition __be16_to_cpu (x : Z) : Z := __swab16 cfg (u16 x).

Definition __cpu_to_le64p : R Z Z := asks id.
Definition __le64_to_cpup : R Z Z := asks id.
Definition __cpu_to_le32p : R Z Z := asks id.
Definition __le32_to_cpup : R Z Z := asks id.
Definition __cpu_to_le16p : R Z Z := asks id.
Definition __le16_to_cpup : R Z Z := asks id.
Definition __cpu_to_be64p : R Z Z := __swab64p cfg.
Definition __be64_to_cpup : R Z Z := __swab64p cfg.
Definition __cpu_to_be32p : R Z Z := __swab32p cfg.
Definition __be32_to_cpup : R Z Z := __swab32p cfg.
Definition __cpu_to_be16p : R Z Z := __swab16p cfg.
Definition __be16_to_cpup : R Z Z := __swab16p cfg.

Definition __cpu_to_le64s : M Z unit := mret tt.
Definition __le64_to_cpus : M Z unit := mret tt.
Definition __cpu_to_le32s : M Z unit := mret tt.
Definition __le32_to_cpus : M Z unit := mret tt.
Definition __cpu_to_le16s : M Z unit := mret tt.
Definition __le16_to_cpus : M Z unit := mret tt.
Definition __cpu_to_be64s : M Z unit := __swab64s cfg.
Definition __be64_to_cpus : M Z unit := __swab64s cfg.
Definition __cpu_to_be32s : M Z unit := __swab32s cfg.
Definition __be32_to_cpus : M Z unit := __swab32s cfg.
Definition __cpu_to_be16s : M Z unit := __swab16s cfg.
Definition __be16_to_cpus : M Z unit := __swab16s cfg.
End conversions.

(** * [bits/byteswap.h] *)

Definition __bswap_constant_16 (x : Z) : Z :=
  u16 (((x >> 8) .& 0xff) .| ((x .& 0xff) << 8)).

Definition __bswap_constant_32 (x : Z) : Z :=
  ((x .& 0xff000000) >> 24) .| ((x .& 0x00ff0000) >> 8)
  .| u32 ((x .& 0x0000ff00) << 8) .| u32 ((x .& 0x000000ff) << 24).

Definition __bswap_constant_64 (x : Z) : Z :=
  ((x .& 0xff00000000000000) >> 56)
  .| ((x .& 0x00ff000000000000) >> 40)
  .| ((x .& 0x0000ff0000000000) >> 24)
  .| ((x .& 0x000000ff00000000) >> 8)
  .| u64 ((x .& 0x00000000ff000000) << 8)
  .| u64 ((x .& 0x0000000000ff0000) << 24)
  .| u64 ((x .& 0x000000000000ff00) << 40)
  .| u64 ((x .& 0x00000000000000ff) << 56).
