(* ===== verification/SwabTheory.v ===== *)
(** Byte swapping is the reversal of the bytes of a value in memory, by every
    routine and in every configuration. *)
From stdpp Require Import base numbers list.
From Stdlib Require Import ZArith Lia.
From S2P Require Import Prelude Swab.

(** * Values and their bytes in memory *)

(** The [n] bytes of [x] in the memory of a little-endian machine. *)
Fixpoint to_bytes (n : nat) (x : Z) : list Z :=
  match n with
  | O => []
  | S n' => (x .& 255) :: to_bytes n' (x >> 8)
  end.

Fixpoint of_bytes (l : list Z) : Z :=
  match l with
  | [] => 0
  | b :: l' => b .| (of_bytes l' << 8)
  end.

(** The reference: the value whose bytes are those of [x] in reverse. *)
Definition bswap (n : nat) (x : Z) : Z := of_bytes (rev (to_bytes n x)).

Lemma and_255 x : x .& 255 = x mod 256.
Proof. apply (and_mod x 8). lia. Qed.

(** A byte below shifted bytes. *)
Lemma byte_below b y : is_u8 b → b .| (y << 8) = y * 256 + b.
Proof.
  intros Hb. rewrite Z.lor_comm, shl_mul by lia. change (2 ^ 8) with 256.
  apply or_add_8; [by apply Z.mod_mul|done].
Qed.

Lemma of_to_bytes n x : 0 <= x < 2 ^ (8 * Z.of_nat n) → of_bytes (to_bytes n x) = x.
Proof.
  revert x. induction n as [|n IH]; intros x Hx; cbn [to_bytes of_bytes]; [cbn in Hx; lia|].
  rewrite IH.
  - rewrite and_255, shr_div, byte_below by (unfold_range; divlia). divlia.
  - rewrite shr_div by lia. replace (8 * Z.of_nat (S n)) with (8 + 8 * Z.of_nat n) in Hx by lia.
    rewrite Z.pow_add_r in Hx by lia. change (2 ^ 8) with 256 in *. split.
    + apply Z.div_pos; lia.
    + apply Z.div_lt_upper_bound; lia.
Qed.

Lemma of_bytes_nonneg l : Forall is_u8 l → 0 <= of_bytes l.
Proof.
  induction 1 as [|b l Hb _ IH]; cbn; [lia|]. rewrite byte_below by done. unfold_range. lia.
Qed.

Lemma to_of_bytes l : Forall is_u8 l → to_bytes (length l) (of_bytes l) = l.
Proof.
  induction 1 as [|b l Hb Hl IH]; cbn; [done|]. apply of_bytes_nonneg in Hl.
  rewrite and_255, shr_div, byte_below by (done || lia).
  change (2 ^ 8) with 256. unfold_range. f_equal; [divlia|].
  by replace ((of_bytes l * 256 + b) / 256) with (of_bytes l) by divlia.
Qed.

Lemma to_bytes_u8 n x : Forall is_u8 (to_bytes n x).
Proof.
  revert x. induction n as [|n IH]; intros x; cbn; constructor; [|done].
  rewrite and_255. unfold_range. divlia.
Qed.

Lemma length_to_bytes n x : length (to_bytes n x) = n.
Proof. revert x. induction n as [|n IH]; intros x; cbn; [done|]. by rewrite IH. Qed.

(** The bytes of a swapped value. *)
Lemma bswap_bytes n x : to_bytes n (bswap n x) = rev (to_bytes n x).
Proof.
  unfold bswap. rewrite <- (length_to_bytes n x) at 1. rewrite <- length_rev.
  apply to_of_bytes, Forall_rev, to_bytes_u8.
Qed.

Lemma bswap_bswap n x : 0 <= x < 2 ^ (8 * Z.of_nat n) → bswap n (bswap n x) = x.
Proof.
  intros Hx. unfold bswap at 1. rewrite bswap_bytes, rev_involutive. by apply of_to_bytes.
Qed.

(** * Equality by bits *)

Create HintDb swab.

Lemma testbit_mod w x n : 0 <= n < w → Z.testbit (x mod 2 ^ w) n = Z.testbit x n.
Proof. intros. apply Z.mod_pow2_bits_low. lia. Qed.

Lemma testbit_mod_high w x n : 0 <= w <= n → Z.testbit (x mod 2 ^ w) n = false.
Proof. intros. by apply Z.mod_pow2_bits_high. Qed.

Lemma testbit_high w x n : 0 <= x < 2 ^ w → 0 <= w <= n → Z.testbit x n = false.
Proof. intros. rewrite <- (Z.mod_small x (2 ^ w)) by done. by apply testbit_mod_high. Qed.

Lemma of_bytes_range l : Forall is_u8 l → 0 <= of_bytes l < 2 ^ (8 * Z.of_nat (length l)).
Proof.
  induction 1 as [|b l Hb _ IH]; cbn [of_bytes length]; [cbn; lia|].
  rewrite byte_below by done.
  replace (8 * Z.of_nat (S (length l))) with (8 + 8 * Z.of_nat (length l)) by lia.
  rewrite Z.pow_add_r by lia. change (2 ^ 8) with 256. unfold_range. lia.
Qed.

Lemma bswap_range n x : 0 <= bswap n x < 2 ^ (8 * Z.of_nat n).
Proof.
  pose proof (of_bytes_range (rev (to_bytes n x))) as H. rewrite length_rev, length_to_bytes in H.
  apply H, Forall_rev, to_bytes_u8.
Qed.

Lemma swab_mod_range w x : 0 <= x mod 2 ^ Zpos w < 2 ^ Zpos w.
Proof. apply Z.mod_pos_bound. lia. Qed.

#[export] Hint Extern 1 (0 <= bswap 2 _ < _) => apply (bswap_range 2) : swab.
#[export] Hint Extern 1 (0 <= bswap 4 _ < _) => apply (bswap_range 4) : swab.
#[export] Hint Extern 1 (0 <= bswap 8 _ < _) => apply (bswap_range 8) : swab.
#[export] Hint Extern 1 (0 <= u16 _ < _) => apply (swab_mod_range 16) : swab.
#[export] Hint Extern 1 (0 <= u32 _ < _) => apply (swab_mod_range 32) : swab.
#[export] Hint Extern 1 (0 <= u64 _ < _) => apply (swab_mod_range 64) : swab.
#[export] Hint Extern 1 (0 < _) => lia : swab.

(** A bit index below a bound, case by case. *)
Ltac bit_index n :=
  destruct n as [|n|n];
  [ | repeat (try (exfalso; lia); destruct n as [n|n|]) | exfalso; lia];
  try (exfalso; lia).

Ltac index_eval :=
  repeat match goal with
  | |- context [Z.testbit ?a (?k + ?j)] =>
      is_lit k; is_lit j; let v := eval vm_compute in (k + j) in change (k + j) with v
  | |- context [Z.testbit ?a (?k - ?j)] =>
      is_lit k; is_lit j; let v := eval vm_compute in (k - j) in change (k - j) with v
  | |- context [Z.testbit ?a ?k] =>
      is_lit a; is_lit k;
      let v := eval vm_compute in (Z.testbit a k) in change (Z.testbit a k) with v
  | |- context [Z.testbit ?a (Zneg ?k)] => rewrite (Z.testbit_neg_r a (Zneg k)) by lia
  end.

Ltac bit_eval :=
  repeat (index_eval; first
    [ rewrite Z.lor_spec | rewrite Z.lxor_spec | rewrite Z.land_spec
    | rewrite Z.shiftl_spec by lia | rewrite Z.shiftr_spec by lia
    | rewrite (testbit_mod 16) by lia | rewrite (testbit_mod_high 16) by lia
    | rewrite (testbit_mod 32) by lia | rewrite (testbit_mod_high 32) by lia
    | rewrite (testbit_mod 64) by lia | rewrite (testbit_mod_high 64) by lia ]); index_eval.

(** Equality of two rearrangements of the bits of [x], a value of [w] bits. *)
Ltac powers :=
  unfold u16, u32, u64, bswap;
  change 65536 with (2 ^ 16); change 4294967296 with (2 ^ 32);
  change 18446744073709551616 with (2 ^ 64).

Ltac bit_bools w x :=
  bit_eval;
  repeat match goal with
  | |- context [Z.testbit x ?k] => rewrite (testbit_high w x k) by (done || lia)
  end;
  repeat match goal with |- context [Z.testbit x ?k] => destruct (Z.testbit x k) end;
  reflexivity.

Ltac by_bits w x :=
  let n := fresh "n" in let Hn := fresh "Hn" in
  apply Z.bits_inj'; intros n Hn; destruct (decide (n < w));
  [ powers; cbn [to_bytes of_bytes rev app]; bit_index n; bit_bools w x
  | first [ by rewrite !(testbit_high w) by (auto with swab || lia) | powers; bit_bools w x ] ].


Lemma u64_id z : is_u64 z → u64 z = z.
Proof. apply Z.mod_small. Qed.
Lemma mask_byte x k : 0 <= k → x .& (255 << k) = ((x >> k) .& 255) << k.
Proof.
  intros Hk. apply Z.bits_inj'. intros n Hn. rewrite Z.land_spec, !Z.shiftl_spec, Z.land_spec by done.
  destruct (decide (n < k)).
  - by rewrite !(Z.testbit_neg_r _ (n - k)), andb_false_r by lia.
  - rewrite Z.shiftr_spec by lia. by replace (n - k + k) with n by lia.
Qed.
Lemma byte_range x : is_u8 (x .& 255).
Proof. rewrite and_255. unfold_range. divlia. Qed.


(** Moving one byte: every term of a swap is a byte shifted to its new place. *)
Lemma move_left x k j : 0 <= k → 0 <= j → (x .& (255 << k)) << j = ((x >> k) .& 255) * 2 ^ (k + j).
Proof. intros. rewrite mask_byte, Z.shiftl_shiftl, shl_mul by lia. done. Qed.

Lemma move_right x k j : 0 <= j <= k → (x .& (255 << k)) >> j = ((x >> k) .& 255) * 2 ^ (k - j).
Proof.
  intros. rewrite mask_byte by lia. rewrite Z.shiftr_shiftl_l by lia. rewrite shl_mul by lia. done.
Qed.

Ltac lit_pow e := let v := eval vm_compute in e in change e with v.

Ltac move_bytes x :=
  repeat match goal with
  | |- context [(x .& ?m) << ?j] =>
      let k := eval vm_compute in (Z.log2 m - 7) in
      replace ((x .& m) << j) with (((x >> k) .& 255) * 2 ^ (k + j))
        by (symmetry; apply (move_left x k j); lia);
      lit_pow (2 ^ (k + j))
  | |- context [(x .& ?m) >> ?j] =>
      let k := eval vm_compute in (Z.log2 m - 7) in
      replace ((x .& m) >> j) with (((x >> k) .& 255) * 2 ^ (k - j))
        by (symmetry; apply (move_right x k j); lia);
      lit_pow (2 ^ (k - j))
  end.


Ltac name_byte e b :=
  let H := fresh "H" b in
  pose proof (byte_range e) as H; set (b := e .& 255) in *; clearbody b;
  unfold is_u8 in H.

(** The bytes of [x] become variables. *)
Ltac name_bytes x :=
  repeat match goal with
  | |- context [(x >> ?k) .& 255] => let b := fresh "b" in name_byte (x >> k) b
  | |- context [x .& 255] => let b := fresh "b" in name_byte x b
  end.

Ltac small :=
  repeat match goal with
  | |- context [u16 ?z] => rewrite (u16_id z) by (unfold is_u16; lia)
  | |- context [u32 ?z] => rewrite (u32_id z) by (unfold is_u32; lia)
  | |- context [u64 ?z] => rewrite (u64_id z) by (unfold is_u64; lia)
  end.

Lemma or_add_pow n p x y :
  0 <= n → p = 2 ^ n → x mod p = 0 → 0 <= y < p → x .| y = x + y.
Proof. intros Hn ->. by apply or_add. Qed.

Ltac or_disjoint :=
  repeat match goal with
  | |- context [?a .| (?b * ?m)] =>
      let n := eval vm_compute in (Z.log2 m) in
      rewrite (Z.lor_comm a (b * m)), (or_add_pow n m (b * m) a)
        by first [reflexivity | lia | divlia]
  | |- context [?a .| (?b * ?m)] =>
      let n := eval vm_compute in (Z.log2 m + 8) in
      let p := eval vm_compute in (2 ^ n) in
      rewrite (or_add_pow n p a (b * m)) 
        by first [reflexivity | lia | divlia]
  end.

Ltac by_bytes x :=
  cbn [to_bytes of_bytes rev app];
  rewrite ?(u16_id x), ?(u32_id x), ?(u64_id x) by done;
  rewrite ?Z.shiftr_shiftr by lia;
  rewrite ?(byte_below (_ .& 255)) by apply byte_range;
  move_bytes x; ground; rewrite ?Z.shiftr_0_r; name_bytes x;
  small; or_disjoint; small; lia.


(** * The routines *)

Lemma constant_swab16_bswap x : is_u16 x → ___constant_swab16 x = bswap 2 x.
Proof. intros Hx. unfold ___constant_swab16, bswap. by_bytes x. Qed.

Lemma constant_swab32_bswap x : is_u32 x → ___constant_swab32 x = bswap 4 x.
Proof. intros Hx. unfold ___constant_swab32, bswap. by_bytes x. Qed.

Lemma constant_swab64_bswap x : is_u64 x → ___constant_swab64 x = bswap 8 x.
Proof. intros Hx. unfold ___constant_swab64, bswap. by_bytes x. Qed.

Lemma bswap_constant_16_bswap x : is_u16 x → __bswap_constant_16 x = bswap 2 x.
Proof. intros Hx. unfold __bswap_constant_16. by_bits 16 x. Qed.

Lemma bswap_constant_32_bswap x : is_u32 x → __bswap_constant_32 x = bswap 4 x.
Proof. intros Hx. unfold __bswap_constant_32, bswap. by_bytes x. Qed.

Lemma bswap_constant_64_bswap x : is_u64 x → __bswap_constant_64 x = bswap 8 x.
Proof. intros Hx. unfold __bswap_constant_64, bswap. by_bytes x. Qed.

Lemma arch_swab32_constant in_c x : is_u32 x → __arch_swab32 in_c x = ___constant_swab32 x.
Proof.
  intros Hx. unfold ___constant_swab32, __arch_swab32, ror, not32.
  change (32 - 16) with 16. change (0xffffffff .^ 0x00FF0000) with 0xFF00FFFF.
  destruct in_c; by_bits 32 x.
Qed.

(** The bytes of a value in two parts. *)
Lemma to_bytes_app n m x :
  to_bytes (n + m) x = to_bytes n x ++ to_bytes m (x >> (8 * Z.of_nat n)).
Proof.
  revert x. induction n as [|n IH]; intros x.
  - change (8 * Z.of_nat 0) with 0. by rewrite Z.shiftr_0_r.
  - cbn [to_bytes Nat.add app]. rewrite IH, Z.shiftr_shiftr by lia.
    by replace (8 + 8 * Z.of_nat n) with (8 * Z.of_nat (S n)) by lia.
Qed.

Lemma of_bytes_app l1 l2 :
  of_bytes (l1 ++ l2) = of_bytes l1 .| (of_bytes l2 << (8 * Z.of_nat (length l1))).
Proof.
  induction l1 as [|b l1 IH].
  - cbn -[Z.shiftl]. by rewrite Z.shiftl_0_r.
  - cbn [of_bytes app length]. rewrite IH, Z.shiftl_lor, Z.shiftl_shiftl, Z.lor_assoc by lia.
    by replace (8 * Z.of_nat (length l1) + 8) with (8 * Z.of_nat (S (length l1))) by lia.
Qed.

Lemma byte_mod w x k : 0 <= k → k + 8 <= w → ((x mod 2 ^ w) >> k) .& 255 = (x >> k) .& 255.
Proof.
  intros Hk Hw. apply Z.bits_inj'. intros n Hn. rewrite !Z.land_spec, !Z.shiftr_spec by done.
  destruct (decide (n < 8)).
  - by rewrite testbit_mod by lia.
  - by rewrite (testbit_high 8 255), !andb_false_r by lia.
Qed.

Lemma to_bytes_4_u32 x : to_bytes 4 (u32 x) = to_bytes 4 x.
Proof.
  change (u32 x) with (x mod 2 ^ 32). cbn [to_bytes].
  rewrite <- (Z.shiftr_0_r x) at 5. rewrite <- (Z.shiftr_0_r (x mod 2 ^ 32)) at 1.
  by rewrite !Z.shiftr_shiftr, !byte_mod by lia.
Qed.

Lemma bswap_8_halves x :
  bswap 8 x = (bswap 4 (u32 x) << 32) .| bswap 4 (u32 (x >> 32)).
Proof.
  unfold bswap. rewrite !to_bytes_4_u32. rewrite (to_bytes_app 4 4), rev_app_distr, of_bytes_app.
  rewrite length_rev, length_to_bytes. apply Z.lor_comm.
Qed.

Lemma fswab32_bswap cfg x : is_u32 x → __fswab32 cfg x = bswap 4 x.
Proof. intros Hx. unfold __fswab32. by rewrite arch_swab32_constant, constant_swab32_bswap. Qed.

Lemma fswab64_bswap cfg x : is_u64 x → __fswab64 cfg x = bswap 8 x.
Proof.
  intros Hx. unfold __fswab64. destruct (strict_ansi cfg); cbn [negb]; [by apply constant_swab64_bswap|].
  rewrite !fswab32_bswap by apply u32_range. change ((1 << 32) - 1) with (2 ^ 32 - 1).
  rewrite and_mod by lia. change (x mod 2 ^ 32) with (u32 x).
  rewrite (u32_id (u32 x)) by apply u32_range. rewrite bswap_8_halves. f_equal.
  apply u64_id. pose proof (bswap_range 4 (u32 x)) as H. rewrite shl_mul by lia.
  change (2 ^ (8 * Z.of_nat 4)) with 4294967296 in H. unfold is_u64. lia.
Qed.

Lemma swab16_bswap cfg x : is_u16 x → __swab16 cfg x = bswap 2 x.
Proof.
  intros Hx. unfold __swab16, __fswab16. rewrite u16_id by done.
  destruct (constant_p cfg); by apply constant_swab16_bswap.
Qed.

Lemma swab32_bswap cfg x : is_u32 x → __swab32 cfg x = bswap 4 x.
Proof.
  intros Hx. unfold __swab32. rewrite u32_id by done.
  destruct (constant_p cfg); [by apply constant_swab32_bswap|by apply fswab32_bswap].
Qed.

Lemma swab64_bswap cfg x : is_u64 x → __swab64 cfg x = bswap 8 x.
Proof.
  intros Hx. unfold __swab64. rewrite u64_id by done.
  destruct (constant_p cfg); [by apply constant_swab64_bswap|by apply fswab64_bswap].
Qed.

Lemma bswap_u16 x : is_u16 (bswap 2 x).
Proof. apply (bswap_range 2). Qed.
Lemma bswap_u32 x : is_u32 (bswap 4 x).
Proof. apply (bswap_range 4). Qed.
Lemma bswap_u64 x : is_u64 (bswap 8 x).
Proof. apply (bswap_range 8). Qed.

(** ** Half words *)

Lemma swahw32_constant cfg x : is_u32 x → __swahw32 cfg x = ___constant_swahw32 x.
Proof. intros Hx. unfold __swahw32, __fswahw32. rewrite u32_id by done. by destruct constant_p. Qed.

Lemma swahb32_constant cfg x : is_u32 x → __swahb32 cfg x = ___constant_swahb32 x.
Proof. intros Hx. unfold __swahb32, __fswahb32. rewrite u32_id by done. by destruct constant_p. Qed.

(** Swapping the bytes of both half words and then the half words swaps all bytes. *)
Lemma swahw_swahb x :
  is_u32 x → ___constant_swahw32 (___constant_swahb32 x) = ___constant_swab32 x.
Proof.
  intros Hx. unfold ___constant_swahw32, ___constant_swahb32, ___constant_swab32. by_bits 32 x.
Qed.

Lemma swahw_swahw x : is_u32 x → ___constant_swahw32 (___constant_swahw32 x) = x.
Proof. intros Hx. unfold ___constant_swahw32. by_bits 32 x. Qed.

Lemma swahb_swahb x : is_u32 x → ___constant_swahb32 (___constant_swahb32 x) = x.
Proof. intros Hx. unfold ___constant_swahb32. by_bits 32 x. Qed.

(** * Properties *)

(** In every configuration [__swab16], [__swab32] and [__swab64] reverse the
    bytes of their argument in memory. *)
Theorem swab_reverses_bytes cfg :
  (∀ x, is_u16 x → to_bytes 2 (__swab16 cfg x) = rev (to_bytes 2 x)) ∧
  (∀ x, is_u32 x → to_bytes 4 (__swab32 cfg x) = rev (to_bytes 4 x)) ∧
  (∀ x, is_u64 x → to_bytes 8 (__swab64 cfg x) = rev (to_bytes 8 x)).
Proof.
  split_and!; intros x Hx;
    [rewrite swab16_bswap by done|rewrite swab32_bswap by done|rewrite swab64_bswap by done];
    apply bswap_bytes.
Qed.

(** C40: the ARM routine, which rotates and exclusive-ors, computes the same as the
    masks and shifts, whether its first step is in C or in assembly, and a 64-bit
    swap by two 32-bit ones the same as the masks and shifts on 64 bits; both are
    the reference [bswap]. *)
Theorem optimised_swabs cfg in_c :
  (∀ x, is_u32 x →
    __arch_swab32 in_c x = ___constant_swab32 x ∧ __arch_swab32 in_c x = bswap 4 x) ∧
  (∀ x, is_u64 x →
    __fswab64 cfg x = ___constant_swab64 x ∧ __fswab64 cfg x = bswap 8 x).
Proof.
  split; intros x Hx.
  - by rewrite arch_swab32_constant, constant_swab32_bswap.
  - by rewrite fswab64_bswap, constant_swab64_bswap.
Qed.

(** Each of the five in-place swaps stores the value that the swap by value
    returns, the reversed bytes for the whole swaps, and applied twice restores the
    value. *)
Theorem swabs_in_place_restore cfg :
  (∀ x, is_u16 x → run (__swab16s cfg) x = Some (bswap 2 x) ∧
    run (__swab16s cfg;; __swab16s cfg) x = Some x) ∧
  (∀ x, is_u32 x → run (__swab32s cfg) x = Some (bswap 4 x) ∧
    run (__swab32s cfg;; __swab32s cfg) x = Some x) ∧
  (∀ x, is_u64 x → run (__swab64s cfg) x = Some (bswap 8 x) ∧
    run (__swab64s cfg;; __swab64s cfg) x = Some x) ∧
  (∀ x, is_u32 x → run (__swahw32s cfg) x = Some (__swahw32 cfg x) ∧
    run (__swahw32s cfg;; __swahw32s cfg) x = Some x) ∧
  (∀ x, is_u32 x → run (__swahb32s cfg) x = Some (__swahb32 cfg x) ∧
    run (__swahb32s cfg;; __swahb32s cfg) x = Some x).
Proof.
  split_and!; intros x Hx.
  - change (Some (__swab16 cfg x) = Some (bswap 2 x) ∧
      Some (__swab16 cfg (__swab16 cfg x)) = Some x).
    rewrite !swab16_bswap by (done || apply bswap_u16).
    by rewrite bswap_bswap.
  - change (Some (__swab32 cfg x) = Some (bswap 4 x) ∧
      Some (__swab32 cfg (__swab32 cfg x)) = Some x).
    rewrite !swab32_bswap by (done || apply bswap_u32).
    by rewrite bswap_bswap.
  - change (Some (__swab64 cfg x) = Some (bswap 8 x) ∧
      Some (__swab64 cfg (__swab64 cfg x)) = Some x).
    rewrite !swab64_bswap by (done || apply bswap_u64).
    by rewrite bswap_bswap.
  - split; [done|]. change (Some (__swahw32 cfg (__swahw32 cfg x)) = Some x).
    rewrite (swahw32_constant cfg x), swahw32_constant by (done || apply u32_range).
    by rewrite swahw_swahw.
  - split; [done|]. change (Some (__swahb32 cfg (__swahb32 cfg x)) = Some x).
    rewrite (swahb32_constant cfg x), swahb32_constant by (done || apply u32_range).
    by rewrite swahb_swahb.
Qed.

(** Swapping the bytes within the half words of a 32-bit value and then the
    half words themselves swaps its four bytes; the values given in the comments
    are the values computed. *)
Theorem half_word_swabs cfg :
  (∀ x, is_u32 x → __swahw32 cfg (__swahb32 cfg x) = __swab32 cfg x) ∧
  __swahw32 cfg 0x12340000 = 0x00001234 ∧
  __swahb32 cfg 0x12345678 = 0x34127856.
Proof.
  split_and!; [|by destruct cfg as [[] [] []]..]. intros x Hx.
  rewrite swahb32_constant, swahw32_constant by (done || apply u32_range).
  by rewrite swahw_swahb, swab32_bswap, constant_swab32_bswap.
Qed.

(** A value converted to big endian has its most significant byte first in
    memory, one converted to little endian its least significant byte, and
    converting back restores the value. *)
Theorem byte_order_conversions cfg x :
  is_u32 x →
  to_bytes 4 (__cpu_to_be32 cfg x) =
    [x >> 24; (x >> 16) .& 255; (x >> 8) .& 255; x .& 255] ∧
  to_bytes 4 (__cpu_to_le32 x) =
    [x .& 255; (x >> 8) .& 255; (x >> 16) .& 255; x >> 24] ∧
  __be32_to_cpu cfg (__cpu_to_be32 cfg x) = x ∧
  __le32_to_cpu (__cpu_to_le32 x) = x.
Proof.
  intros Hx. unfold __cpu_to_be32, __cpu_to_le32, __be32_to_cpu, __le32_to_cpu.
  rewrite (u32_id x), (u32_id x) by done.
  assert ((x >> 24) .& 255 = x >> 24) as Htop.
  { rewrite and_255, shr_div by lia. change (2 ^ 24) with 16777216. unfold_range. divlia. }
  rewrite (swab32_bswap cfg x), bswap_bytes by done. split_and!; [..|done].
  - cbn [to_bytes rev app]. rewrite !Z.shiftr_shiftr by lia. ground. by rewrite Htop.
  - cbn [to_bytes rev app]. rewrite !Z.shiftr_shiftr by lia. ground. by rewrite Htop.
  - rewrite u32_id, swab32_bswap by apply bswap_u32. by apply bswap_bswap.
Qed.

Lemma byte_order_conversions_witness :
  to_bytes 4 (__cpu_to_be32 (Config false false false) 0x01020384) = [1; 2; 3; 0x84] ∧
  __be32_to_cpu (Config false false false) (__cpu_to_be32 (Config false false false) 0x01020384)
    = 0x01020384.
Proof.
  destruct (byte_order_conversions (Config false false false) 0x01020384) as (H & _ & H' & _).
  - by apply (bool_decide_unpack _); vm_compute.
  - split; [exact H|exact H'].
Defined.
