(* ===== verification/Tipc.v ===== *)
(** The TLV (type, length, value) and message functions of [linux/tipc_config.h].
    A message is an object of bytes, a pointer into it an offset; the object lies at a
    multiple of four. An access outside the object or of an integer at an offset that
    is no multiple of its size is undefined behaviour. Values in a message are in
    network byte order. *)
From stdpp Require Import base numbers list.
From Stdlib Require Import ZArith Lia.
From S2P Require Import Prelude Swab.

(** * Memory *)

Abbreviation bytes := (list Z).

Definition load8 (p : nat) : R bytes Z := λ b, b !! p.
Definition store8 (p : nat) (v : Z) : M bytes unit := λ b,
  if decide (p < length b)%nat then Some (tt, <[p := v]> b) else None.

Definition aligned (k p : nat) : Prop := (p mod k = 0)%nat.

#[global] Instance aligned_dec k p : Decision (aligned k p).
Proof. unfold aligned. apply _. Defined.

(** A little-endian machine. *)
Definition load16 (p : nat) : R bytes Z :=
  if decide (aligned 2 p) then b0 ← load8 p; b1 ← load8 (p + 1); mret (b0 .| (b1 << 8))
  else λ _, None.
Definition store16 (p : nat) (v : Z) : M bytes unit :=
  if decide (aligned 2 p) then store8 p (v .& 255);; store8 (p + 1) (v >> 8)
  else λ _, None.
Definition store32 (p : nat) (v : Z) : M bytes unit :=
  if decide (aligned 4 p) then store16 p (v .& 65535);; store16 (p + 2) (v >> 16)
  else λ _, None.

(** [memcpy(p, src, n)], where [src] is the bytes of the object from the pointer
    on. *)
Definition memcpy (p : nat) (src : bytes) (n : nat) : M bytes unit := λ b,
  if decide (n ≤ length src ∧ p + n ≤ length b)%nat
  then Some (tt, take p b ++ take n src ++ drop (p + n) b) else None.

(** [ntohs], [htons] and [htonl] of [netinet/in.h] on a little-endian machine. *)
Definition ntohs (x : Z) : Z := __bswap_constant_16 x.
Definition htons (x : Z) : Z := __bswap_constant_16 x.
Definition htonl (x : Z) : Z := __bswap_constant_32 x.

(** * TLVs *)

Definition sizeof_tlv_desc : Z := 4.
Definition tlv_len_off : nat := 0.
Definition tlv_type_off : nat := 2.

Definition TLV_ALIGNTO : Z := 4.
Definition TLV_ALIGN (datalen : Z) : Z :=
  (datalen + (TLV_ALIGNTO - 1)) .& Z.lnot (TLV_ALIGNTO - 1).
Definition TLV_LENGTH (datalen : Z) : Z := sizeof_tlv_desc + datalen.
Definition TLV_SPACE (datalen : Z) : Z := TLV_ALIGN (TLV_LENGTH datalen).
Definition TLV_DATA (tlv : nat) : nat := (tlv + Z.to_nat (TLV_LENGTH 0))%nat.

Definition TLV_OK (tlv : nat) (space : Z) : R bytes bool :=
  if TLV_SPACE 0 <=? space then
    len ← load16 (tlv + tlv_len_off); mret (ntohs len <=? space)
  else mret false.

Definition TLV_CHECK (tlv : nat) (space exp_type : Z) : R bytes bool :=
  ok ← TLV_OK tlv space;
  if (ok : bool) then
    type ← load16 (tlv + tlv_type_off); mret (ntohs type =? exp_type)
  else mret false.

Definition TLV_GET_LEN (tlv : nat) : R bytes Z :=
  len ← load16 (tlv + tlv_len_off); mret (ntohs len).

Definition TLV_SET_LEN (tlv : nat) (len : Z) : M bytes unit :=
  store16 (tlv + tlv_len_off) (htons len).

Definition TLV_CHECK_TYPE (tlv : nat) (type : Z) : R bytes bool :=
  t ← load16 (tlv + tlv_type_off); mret (ntohs t =? type).

Definition TLV_SET_TYPE (tlv : nat) (type : Z) : M bytes unit :=
  store16 (tlv + tlv_type_off) (htons type).

(** [data] is a null pointer or the bytes it points to. *)
Definition TLV_SET (tlv : nat) (type : Z) (data : option bytes) (len : Z) : M bytes Z :=
  let tlv_len := TLV_LENGTH len in
  store16 (tlv + tlv_type_off) (htons type);;
  store16 (tlv + tlv_len_off) (htons (u16 tlv_len));;
  (if truth len then
     match data with
     | Some d => memcpy (TLV_DATA tlv) d (Z.to_nat tlv_len)
     | None => mret tt
     end
   else mret tt);;
  mret (TLV_SPACE len).

(** * Lists of TLVs *)

Record tlv_list_desc := Tlv_list {
  tlv_ptr : nat;
  tlv_space : Z;
}.

Definition TLV_LIST_INIT (data : nat) (space : Z) : tlv_list_desc := Tlv_list data space.
Definition TLV_LIST_EMPTY (list : tlv_list_desc) : bool := tlv_space list =? 0.
(** [TLV_CHECK] takes the space as a [__u16]. *)
Definition TLV_LIST_CHECK (list : tlv_list_desc) (exp_type : Z) : R bytes bool :=
  TLV_CHECK (tlv_ptr list) (u16 (tlv_space list)) exp_type.
Definition TLV_LIST_DATA (list : tlv_list_desc) : nat := TLV_DATA (tlv_ptr list).
Definition TLV_LIST_STEP (list : tlv_list_desc) : R bytes tlv_list_desc :=
  len ← load16 (tlv_ptr list + tlv_len_off);
  let space := u16 (TLV_ALIGN (ntohs len)) in
  mret (Tlv_list (tlv_ptr list + Z.to_nat space) (u32 (tlv_space list - space))).

(** * Configuration messages *)

Definition sizeof_tipc_cfg_msg_hdr : Z := 16.
Definition tcm_len_off : nat := 0.
Definition tcm_type_off : nat := 4.
Definition tcm_flags_off : nat := 6.

Definition TCM_ALIGN (datalen : Z) : Z := (datalen + 3) .& Z.lnot 3.
Definition TCM_LENGTH (datalen : Z) : Z := sizeof_tipc_cfg_msg_hdr + datalen.
Definition TCM_SPACE (datalen : Z) : Z := TCM_ALIGN (TCM_LENGTH datalen).
Definition TCM_DATA (tcm_hdr : nat) : nat := (tcm_hdr + Z.to_nat (TCM_LENGTH 0))%nat.

Definition TCM_SET (msg : nat) (cmd flags : Z) (data : option bytes) (data_len : Z) : M bytes Z :=
  let msg_len := TCM_LENGTH data_len in
  store32 (msg + tcm_len_off) (htonl msg_len);;
  store16 (msg + tcm_type_off) (htons cmd);;
  store16 (msg + tcm_flags_off) (htons flags);;
  (if truth data_len then
     match data with
     | Some d => memcpy (TCM_DATA msg) d (Z.to_nat data_len)
     | None => mret tt
     end
   else mret tt);;
  mret (TCM_SPACE data_len).

(** * The copy of a value *)

(** [TLV_SET] given a value of exactly [len] bytes reads past its end: it copies
    as many bytes as the TLV is long, descriptor included. *)
Theorem TLV_SET_overread tlv type data msg :
  0 < Z.of_nat (length data) → TLV_SET tlv type (Some data) (Z.of_nat (length data)) msg = None.
Proof.
  intros Hd. unfold TLV_SET, mbind, M_bind.
  destruct (store16 (tlv + tlv_type_off) (htons type) msg) as [[[] m1]|]; [|done].
  destruct (store16 (tlv + tlv_len_off) _ m1) as [[[] m2]|]; [|done].
  replace (truth (Z.of_nat (length data))) with true by (unfold truth; lia).
  unfold memcpy. rewrite decide_False; [done|]. intros [H _].
  unfold TLV_LENGTH, sizeof_tlv_desc in H. lia.
Qed.

Lemma TLV_SET_overread_witness :
  TLV_SET 0 3 (Some [65; 66]) 2 (replicate 100 0) = None.
Proof. apply (TLV_SET_overread 0 3 [65; 66] (replicate 100 0)). cbn. lia. Defined.
