(* ===== verification/TipcTheory.v ===== *)
(** Building and reading TIPC messages. *)
From stdpp Require Import base numbers list.
From Stdlib Require Import ZArith Lia.
From S2P Require Import Prelude Swab SwabTheory Tipc.

(** * Memory *)

Lemma load8_at pre a post : load8 (length pre) (pre ++ a :: post) = Some a.
Proof. unfold load8. by apply list_lookup_middle. Qed.

(** Four times a number is aligned, and so are the places in steps of two behind it. *)
Lemma aligned_half p : aligned 4 p → aligned 2 p.
Proof. unfold aligned. rewrite !Nat.Lcm0.mod_divide. intros [k ->]. exists (2 * k)%nat. lia. Qed.

Lemma aligned_add k p n : (k ≠ 0)%nat → aligned k p → aligned k n → aligned k (p + n).
Proof. unfold aligned. intros Hk Hp Hn. by rewrite Nat.Div0.add_mod, Hp, Hn, Nat.Div0.mod_0_l. Qed.

Lemma load16_at pre a b post :
  aligned 2 (length pre) → load16 (length pre) (pre ++ a :: b :: post) = Some (a .| (b << 8)).
Proof.
  intros Hal. unfold load16. rewrite decide_True by done. unfold mbind, R_bind. rewrite load8_at.
  rewrite (cons_middle a pre), (assoc_L (++)).
  replace (length pre + 1)%nat with (length (pre ++ [a])) by (by rewrite length_app).
  by rewrite load8_at.
Qed.

Lemma store8_at pre a post v : store8 (length pre) v (pre ++ a :: post) = Some (tt, pre ++ v :: post).
Proof.
  unfold store8. rewrite decide_True by (rewrite length_app; cbn; lia).
  replace (length pre) with (length pre + 0)%nat by lia. by rewrite insert_app_r.
Qed.

Lemma store16_at pre a b post v :
  aligned 2 (length pre) →
  store16 (length pre) v (pre ++ a :: b :: post) =
  Some (tt, pre ++ (v .& 255) :: (v >> 8) :: post).
Proof.
  intros Hal. unfold store16. rewrite decide_True by done. unfold mbind, M_bind. rewrite store8_at.
  rewrite (cons_middle (v .& 255) pre (b :: post)), (assoc_L (++)).
  replace (length pre + 1)%nat with (length (pre ++ [v .& 255])) by (by rewrite length_app).
  rewrite store8_at.
  by rewrite <- (assoc_L (++)).
Qed.

Lemma memcpy_at pre old post src n :
  length old = n → (n ≤ length src)%nat →
  memcpy (length pre) src n (pre ++ old ++ post) = Some (tt, pre ++ take n src ++ post).
Proof.
  intros <- Hn. unfold memcpy. rewrite decide_True by (rewrite !length_app; lia).
  rewrite take_app_length. do 4 f_equal.
  by rewrite (assoc_L (++)), <- length_app, drop_app_length.
Qed.

(** * Network byte order *)

Definition be16 (x : Z) : bytes := [u8 (x >> 8); u8 (x .& 255)].
Definition be32 (x : Z) : bytes := rev (to_bytes 4 x).

Lemma swap16_arith x : is_u16 x → __bswap_constant_16 x = x mod 256 * 256 + x / 256.
Proof.
  intros Hx. unfold __bswap_constant_16. rewrite !and_255, shr_div, shl_mul, Z.lor_comm by lia.
  change (2 ^ 8) with 256. unfold_range. rewrite or_add_8 by divlia. divlia.
Qed.

Lemma swap16_range x : is_u16 (__bswap_constant_16 x).
Proof. apply u16_range. Qed.

Lemma ntohs_be16 x : is_u16 x → ntohs (u8 (x >> 8) .| (u8 (x .& 255) << 8)) = x.
Proof.
  intros Hx. unfold ntohs. rewrite swap16_arith by (apply le16_range; apply u8_range).
  rewrite Z.lor_comm. bits.
Qed.

Lemma htons_low x : is_u16 x → htons x .& 255 = u8 (x >> 8).
Proof.
  intros Hx. unfold htons. rewrite swap16_arith, and_255, shr_div by (done || lia).
  change (2 ^ 8) with 256. unfold_range. divlia.
Qed.

Lemma htons_high x : is_u16 x → htons x >> 8 = u8 (x .& 255).
Proof.
  intros Hx. unfold htons. rewrite swap16_arith, and_255, shr_div by (done || lia).
  change (2 ^ 8) with 256. unfold_range. divlia.
Qed.

(** Reading and writing a field in network byte order. *)
Lemma load_be16 pre x post :
  aligned 2 (length pre) → is_u16 x → ntohs <$> load16 (length pre) (pre ++ be16 x ++ post) = Some x.
Proof. intros Hal Hx. cbn [be16 app]. rewrite load16_at by done. cbn. by rewrite ntohs_be16. Qed.

Lemma store_be16 pre old post x :
  aligned 2 (length pre) → is_u16 x → length old = 2%nat →
  store16 (length pre) (htons x) (pre ++ old ++ post) = Some (tt, pre ++ be16 x ++ post).
Proof.
  intros Hal Hx Hold. open_list old. cbn [app]. rewrite store16_at by done.
  by rewrite htons_low, htons_high.
Qed.

(** * Alignment *)

Lemma and_lnot_3 x : x .& Z.lnot 3 = x / 4 * 4.
Proof.
  change (Z.lnot 3) with (Z.lnot (Z.ones 2)). rewrite <- Z.ldiff_land, Z.ldiff_ones_r by lia.
  by rewrite shl_mul, shr_div by lia.
Qed.

Lemma TLV_ALIGN_arith x : TLV_ALIGN x = (x + 3) / 4 * 4.
Proof. apply and_lnot_3. Qed.

(** * Encoding *)

Abbreviation zlen v := (Z.of_nat (length v)).

(** A TLV as it lies in a message: descriptor, value and padding. *)
Definition pad (v : bytes) : nat := Z.to_nat (TLV_SPACE (zlen v) - TLV_LENGTH (zlen v)).

Definition encode_tlv (item : Z * bytes) : bytes :=
  let '(type, v) := item in
  be16 (TLV_LENGTH (zlen v)) ++ be16 type ++ v ++ replicate (pad v) 0.

Definition encode (items : list (Z * bytes)) : bytes := items ≫= encode_tlv.

(** A type, and a value short enough for the length of the TLV with its padding
    to be a [__u16]. *)
Definition item_ok (item : Z * bytes) : Prop :=
  is_u16 item.1 ∧ TLV_SPACE (zlen item.2) < 65536.

#[global] Instance item_ok_dec item : Decision (item_ok item).
Proof. unfold item_ok. apply _. Defined.

Lemma length_encode_tlv type v : zlen (encode_tlv (type, v)) = TLV_SPACE (zlen v).
Proof.
  cbn [encode_tlv]. rewrite !length_app, length_replicate. cbn [be16 length]. unfold pad, TLV_SPACE.
  rewrite TLV_ALIGN_arith. unfold TLV_LENGTH, sizeof_tlv_desc. divlia.
Qed.

Lemma TLV_SPACE_bounds n :
  0 <= n → TLV_LENGTH n <= TLV_SPACE n < TLV_LENGTH n + 4 ∧ TLV_SPACE n mod 4 = 0.
Proof.
  intros Hn. unfold TLV_SPACE. rewrite TLV_ALIGN_arith.
  unfold TLV_LENGTH, sizeof_tlv_desc. divlia.
Qed.

(** * Reading a list *)

(** The [n] bytes at [p]. *)
Definition slice (p n : nat) : R bytes bytes := λ b,
  if decide (p + n ≤ length b)%nat then Some (take n (drop p b)) else None.

(** A program that reads a list of TLVs of the expected types and returns their
    values, or nothing when a check fails or something is left. *)
Fixpoint tlv_parse (exp : list Z) (ls : tlv_list_desc) : R bytes (option (list bytes)) :=
  match exp with
  | [] => mret (if TLV_LIST_EMPTY ls then Some [] else None)
  | type :: exp' =>
      ok ← TLV_LIST_CHECK ls type;
      if (ok : bool) then
        n ← TLV_GET_LEN (tlv_ptr ls);
        v ← slice (TLV_LIST_DATA ls) (Z.to_nat (n - TLV_LENGTH 0));
        ls' ← TLV_LIST_STEP ls;
        vs ← tlv_parse exp' ls';
        mret (cons v <$> vs)
      else mret None
  end.

(** A reader followed by another. *)
Lemma R_bind_Some {S A B} (m : R S A) (k : A → R S B) s a :
  m s = Some a → (m ≫= k) s = k a s.
Proof. intros E. unfold mbind, R_bind. by rewrite E. Qed.

Section at_tlv.
Context (pre post : bytes) (type : Z) (v : bytes).
Context (Hok : item_ok (type, v)) (Hal : aligned 4 (length pre)).
#[local] Abbreviation msg := (pre ++ encode_tlv (type, v) ++ post).
#[local] Abbreviation here := (length pre).

Lemma TLV_LENGTH_u16 : is_u16 (TLV_LENGTH (zlen v)).
Proof using Hok.
  destruct Hok as [_ Hs]. cbn in Hs. pose proof (TLV_SPACE_bounds (zlen v)) as H.
  unfold TLV_LENGTH, sizeof_tlv_desc in *. unfold is_u16. lia.
Qed.

Lemma load_len : ntohs <$> load16 (here + tlv_len_off) msg = Some (TLV_LENGTH (zlen v)).
Proof using Hok Hal.
  unfold tlv_len_off. rewrite Nat.add_0_r. cbn [encode_tlv]. rewrite <- (assoc_L (++)).
  apply load_be16, TLV_LENGTH_u16. by apply aligned_half.
Qed.

Lemma load_type : ntohs <$> load16 (here + tlv_type_off) msg = Some type.
Proof using Hok Hal.
  replace (here + tlv_type_off)%nat with (length (pre ++ be16 (TLV_LENGTH (zlen v))))
    by (unfold tlv_type_off; rewrite length_app; done).
  cbn [encode_tlv]. rewrite <- !(assoc_L (++)), (assoc_L (++) pre). apply load_be16, Hok.
  rewrite length_app. apply aligned_add; [done|by apply aligned_half|done].
Qed.

Lemma TLV_GET_LEN_at : TLV_GET_LEN here msg = Some (TLV_LENGTH (zlen v)).
Proof using Hok Hal.
  pose proof load_len as H. unfold TLV_GET_LEN.
  destruct (load16 (here + tlv_len_off) msg) as [len|] eqn:E; [|done].
  rewrite (R_bind_Some _ _ _ _ E). exact H.
Qed.

Lemma TLV_CHECK_at space :
  TLV_SPACE (zlen v) <= space → TLV_CHECK here space type msg = Some true.
Proof using Hok Hal.
  intros Hs. pose proof load_len as Hl. pose proof load_type as Ht.
  pose proof (TLV_SPACE_bounds (zlen v)) as Hb.
  destruct (load16 (here + tlv_len_off) msg) as [len|] eqn:El; [|done]. injection Hl as Hl.
  destruct (load16 (here + tlv_type_off) msg) as [t|] eqn:Et; [|done]. injection Ht as Ht.
  unfold TLV_CHECK. rewrite (R_bind_Some _ _ _ true).
  - rewrite (R_bind_Some _ _ _ _ Et), Ht, Z.eqb_refl. done.
  - unfold TLV_OK. replace (TLV_SPACE 0 <=? space) with true.
    + rewrite (R_bind_Some _ _ _ _ El), Hl. unfold mret, R_ret. f_equal. lia.
    + symmetry. apply Z.leb_le. change (TLV_SPACE 0) with 4.
      unfold TLV_LENGTH, sizeof_tlv_desc in Hb. lia.
Qed.

Lemma slice_at :
  slice (TLV_DATA here) (Z.to_nat (TLV_LENGTH (zlen v) - TLV_LENGTH 0)) msg = Some v.
Proof.
  unfold slice. replace (Z.to_nat (TLV_LENGTH (zlen v) - TLV_LENGTH 0)) with (length v)
    by (unfold TLV_LENGTH; lia).
  replace (TLV_DATA here) with (length (pre ++ be16 (TLV_LENGTH (zlen v)) ++ be16 type))
    by (rewrite !length_app; done).
  set (hdr := pre ++ be16 (TLV_LENGTH (zlen v)) ++ be16 type).
  replace msg with (hdr ++ v ++ replicate (pad v) 0 ++ post)
    by (unfold hdr; cbn [encode_tlv]; by rewrite <- !(assoc_L (++))).
  rewrite decide_True by (rewrite !length_app; lia).
  by rewrite drop_app_length, take_app_length.
Qed.

Lemma TLV_LIST_STEP_at space :
  is_u32 space → TLV_SPACE (zlen v) <= space →
  TLV_LIST_STEP (Tlv_list here space) msg =
  Some (Tlv_list (length (pre ++ encode_tlv (type, v))) (space - TLV_SPACE (zlen v))).
Proof using Hok Hal.
  intros Hu Hs. pose proof load_len as Hl.
  destruct (load16 (here + tlv_len_off) msg) as [len|] eqn:El; [|done]. injection Hl as Hl.
  unfold TLV_LIST_STEP. cbn [tlv_ptr tlv_space]. rewrite (R_bind_Some _ _ _ _ El), Hl.
  fold (TLV_SPACE (zlen v)). pose proof (TLV_SPACE_bounds (zlen v)) as Hb.
  destruct Hok as [_ Hsp]. cbn in Hsp. unfold TLV_LENGTH, sizeof_tlv_desc in Hb.
  rewrite u16_id by (unfold is_u16; lia). unfold mret, R_ret. do 2 f_equal.
  - rewrite length_app. pose proof (length_encode_tlv type v). lia.
  - apply u32_id. unfold is_u32 in *. lia.
Qed.
End at_tlv.

(** C39: reading a list of TLVs with [TLV_LIST_INIT], [TLV_LIST_CHECK],
    [TLV_LIST_DATA], [TLV_LIST_STEP] and [TLV_LIST_EMPTY] gives back the values
    that were encoded, in order, with nothing left, wherever in the message the list
    begins at a multiple of four, as descriptors must, if it is shorter than 64 KiB. *)
Theorem tlv_parse_encode items pre post :
  aligned 4 (length pre) → Forall item_ok items → zlen (encode items) < 65536 →
  tlv_parse (items.*1) (TLV_LIST_INIT (length pre) (zlen (encode items)))
    (pre ++ encode items ++ post) = Some (Some (items.*2)).
Proof.
  revert pre. induction items as [|[type v] items IH]; intros pre Hal Hok Hlen; [done|].
  apply Forall_cons in Hok as [Hi Hok]. cbn [fmap list_fmap fst snd].
  change (encode ((type, v) :: items)) with (encode_tlv (type, v) ++ encode items) in *.
  rewrite <- (assoc_L (++)). rewrite length_app in Hlen |- *.
  pose proof (length_encode_tlv type v) as Hl.
  cbn [tlv_parse]. unfold TLV_LIST_CHECK, TLV_LIST_DATA, TLV_LIST_INIT in *. cbn [tlv_ptr tlv_space] in *.
  rewrite (R_bind_Some _ _ _ true).
  2: { rewrite u16_id by (unfold is_u16; lia). apply TLV_CHECK_at; [done|done|lia]. }
  rewrite (R_bind_Some _ _ _ _ (TLV_GET_LEN_at _ _ _ _ Hi Hal)).
  rewrite (R_bind_Some _ _ _ _ (slice_at _ _ _ _)).
  erewrite R_bind_Some; [|apply TLV_LIST_STEP_at; [done|done|unfold is_u32; lia|lia]].
  rewrite (assoc_L (++)). rewrite (R_bind_Some _ _ _ (Some (items.*2))); [done|].
  assert (aligned 4 (length (pre ++ encode_tlv (type, v)))) as Hal'.
  { rewrite length_app. apply aligned_add; [done|done|]. unfold aligned.
    pose proof (TLV_SPACE_bounds (zlen v) ltac:(lia)) as [_ Hm]. rewrite <- Hl in Hm.
    apply Nat2Z.inj. by rewrite Nat2Z.inj_mod. }
  rewrite <- (IH (pre ++ encode_tlv (type, v)) Hal' Hok) by lia. do 2 f_equal. lia.
Qed.

Lemma tlv_parse_encode_witness :
  tlv_parse [2; 17; 3] (TLV_LIST_INIT 4 (zlen (encode [(2, [1; 2; 3; 4]); (17, []); (3, [65])])))
    ([9; 9; 9; 9] ++ encode [(2, [1; 2; 3; 4]); (17, []); (3, [65])] ++ [7]) =
  Some (Some [[1; 2; 3; 4]; []; [65]]).
Proof.
  apply (tlv_parse_encode [(2, [1; 2; 3; 4]); (17, []); (3, [65])] [9; 9; 9; 9] [7]).
  - done.
  - apply (bool_decide_unpack _). by vm_compute.
  - by vm_compute.
Defined.

(** * TLVs that a reader does not get past *)

(** A TLV whose length field is zero passes the check, and stepping over it
    leaves the list as it is, as it does for a length of 65533 or more, whose
    aligned value does not fit its variable: a loop that steps until the list is
    empty does not end. *)
Theorem TLV_LIST_STEP_stuck pre post len type space :
  aligned 4 (length pre) → is_u16 type → 4 <= space < 65536 → len = 0 ∨ 65533 <= len <= space →
  TLV_LIST_CHECK (Tlv_list (length pre) space) type (pre ++ be16 len ++ be16 type ++ post)
    = Some true ∧
  TLV_LIST_STEP (Tlv_list (length pre) space) (pre ++ be16 len ++ be16 type ++ post)
    = Some (Tlv_list (length pre) space).
Proof.
  intros Hal%aligned_half Ht Hs Hlen. set (msg := pre ++ be16 len ++ be16 type ++ post).
  assert (ntohs <$> load16 (length pre + tlv_len_off) msg = Some len) as Hl.
  { unfold tlv_len_off. rewrite Nat.add_0_r. apply load_be16; [done|]. unfold is_u16. lia. }
  assert (ntohs <$> load16 (length pre + tlv_type_off) msg = Some type) as Hty.
  { replace (length pre + tlv_type_off)%nat with (length (pre ++ be16 len))
      by (unfold tlv_type_off; rewrite length_app; done).
    unfold msg. rewrite (assoc_L (++) pre). apply load_be16; [|done]. rewrite length_app. by apply aligned_add. }
  destruct (load16 (length pre + tlv_len_off) msg) as [l|] eqn:El; [|done]. injection Hl as Hl.
  destruct (load16 (length pre + tlv_type_off) msg) as [t|] eqn:Et; [|done]. injection Hty as Hty.
  unfold TLV_LIST_CHECK, TLV_CHECK, TLV_LIST_STEP. cbn [tlv_ptr tlv_space]. split.
  - rewrite u16_id by (unfold is_u16; lia). rewrite (R_bind_Some _ _ _ true).
    + by rewrite (R_bind_Some _ _ _ _ Et), Hty, Z.eqb_refl.
    + unfold TLV_OK. rewrite (proj2 (Z.leb_le (TLV_SPACE 0) space)) by (change (TLV_SPACE 0) with 4; lia).
      rewrite (R_bind_Some _ _ _ _ El), Hl. unfold mret, R_ret. f_equal. lia.
  - rewrite (R_bind_Some _ _ _ _ El), Hl, TLV_ALIGN_arith.
    replace (u16 ((len + 3) / 4 * 4)) with 0 by (unfold u16; divlia).
    unfold mret, R_ret. do 2 f_equal; [lia|]. rewrite Z.sub_0_r. apply u32_id. unfold is_u32. lia.
Qed.

Lemma TLV_LIST_STEP_stuck_witness :
  TLV_LIST_CHECK (Tlv_list 4 8) 3 ([1; 1; 1; 1] ++ be16 0 ++ be16 3 ++ [0; 0; 0; 0]) = Some true ∧
  TLV_LIST_STEP (Tlv_list 4 8) ([1; 1; 1; 1] ++ be16 0 ++ be16 3 ++ [0; 0; 0; 0]) =
    Some (Tlv_list 4 8).
Proof. apply (TLV_LIST_STEP_stuck [1; 1; 1; 1] [0; 0; 0; 0] 0 3 8); [done|unfold is_u16; lia..]. Defined.

(** * Writing *)

Lemma M_bind_Some {S A B} (m : M S A) (k : A → M S B) s a s' :
  m s = Some (a, s') → (m ≫= k) s = k a s'.
Proof. intros E. unfold mbind, M_bind. by rewrite E. Qed.

(** The stores with the split of the object that they act on. *)
Lemma store_be16_in pre old post x p b :
  aligned 2 p → p = length pre → b = pre ++ old ++ post → is_u16 x → length old = 2%nat →
  store16 p (htons x) b = Some (tt, pre ++ be16 x ++ post).
Proof. intros Hal -> ->. by apply store_be16. Qed.

Lemma memcpy_in pre old post src n p b :
  p = length pre → b = pre ++ old ++ post → length old = n → length src = n →
  memcpy p src n b = Some (tt, pre ++ src ++ post).
Proof.
  intros -> -> Ho Hs. rewrite memcpy_at by (done || lia). by rewrite take_ge by lia.
Qed.

Ltac split_object := by rewrite <- ?(assoc_L (++)).
Ltac at_aligned := apply aligned_add; [done|by auto using aligned_half|done].
Ltac at_offset := rewrite ?length_app; cbn; try done; lia.

(** [TLV_SET] given a value with four more bytes after it writes the descriptor
    and the value, and then those four bytes over what follows the TLV. *)
Theorem TLV_SET_clobbers pre old next post type data extra :
  aligned 4 (length pre) → is_u16 type → 0 < zlen data → TLV_LENGTH (zlen data) < 65536 →
  length old = (4 + length data)%nat → length next = 4%nat → length extra = 4%nat →
  TLV_SET (length pre) type (Some (data ++ extra)) (zlen data) (pre ++ old ++ next ++ post) =
  Some (TLV_SPACE (zlen data),
        pre ++ be16 (TLV_LENGTH (zlen data)) ++ be16 type ++ data ++ extra ++ post).
Proof.
  intros Hal Ht Hd Hlen Hold Hnext Hextra.
  destruct old as [|z [|z0 [|z1 [|z2 old]]]]; try done. injection Hold as Hold.
  assert (is_u16 (TLV_LENGTH (zlen data))) as Hu.
  { unfold is_u16, TLV_LENGTH, sizeof_tlv_desc in *. lia. }
  unfold TLV_SET. rewrite (u16_id _ Hu).
  erewrite M_bind_Some by (apply (store_be16_in (pre ++ [z; z0]) [z1; z2] (old ++ next ++ post));
    [at_aligned|unfold tlv_type_off; at_offset|split_object|done|done]).
  erewrite M_bind_Some by (apply (store_be16_in pre [z; z0] (be16 type ++ old ++ next ++ post));
    [at_aligned|unfold tlv_len_off; at_offset|split_object|done|done]).
  replace (truth (zlen data)) with true by (unfold truth; lia).
  erewrite M_bind_Some by (apply (memcpy_in
      (pre ++ be16 (TLV_LENGTH (zlen data)) ++ be16 type) (old ++ next) post);
    [at_offset|split_object|..];
    rewrite length_app; unfold TLV_LENGTH, sizeof_tlv_desc; lia).
  unfold mret, M_ret. by rewrite <- !(assoc_L (++)).
Qed.

Lemma TLV_SET_clobbers_witness :
  TLV_SET 4 3 (Some ([65; 66; 67; 68] ++ [90; 91; 92; 93])) 4
    ([9; 9; 9; 9] ++ replicate 8 0 ++ [1; 2; 3; 4] ++ [5]) =
  Some (8, [9; 9; 9; 9] ++ be16 8 ++ be16 3 ++ [65; 66; 67; 68] ++ [90; 91; 92; 93] ++ [5]).
Proof.
  apply (TLV_SET_clobbers [9; 9; 9; 9] (replicate 8 0) [1; 2; 3; 4] [5] 3 [65; 66; 67; 68] [90; 91; 92; 93]);
    first [done | by unfold is_u16; cbn; lia].
Defined.

(** ** Messages *)

Lemma to_bytes_halves v :
  is_u32 v →
  to_bytes 4 v = [(v .& 65535) .& 255; (v .& 65535) >> 8; (v >> 16) .& 255; (v >> 16) >> 8].
Proof.
  intros Hv. cbn [to_bytes]. rewrite !Z.shiftr_shiftr, !and_255 by lia. ground.
  replace (v .& 65535) with (v mod 65536) by (symmetry; by apply (and_mod v 16)).
  rewrite !shr_div by lia. change (2 ^ 8) with 256. change (2 ^ 16) with 65536.
  change (2 ^ 24) with 16777216. unfold_range.
  apply (f_equal4 (λ a b c d, [a; b; c; d])); divlia.
Qed.

Lemma store_be32_in pre old post x p b :
  aligned 4 p → p = length pre → b = pre ++ old ++ post → is_u32 x → length old = 4%nat →
  store32 p (htonl x) b = Some (tt, pre ++ be32 x ++ post).
Proof.
  intros Hal -> -> Hx Hold. open_list old. unfold store32, htonl. rewrite decide_True by done.
  rewrite bswap_constant_32_bswap by done. erewrite M_bind_Some by (by apply store16_at, aligned_half).
  set (v := bswap 4 x). replace (length pre + 2)%nat with
    (length (pre ++ [(v .& 65535) .& 255; (v .& 65535) >> 8])) by at_offset.
  match goal with |- store16 _ _ (_ ++ ?a :: ?b :: ?c :: ?d :: _) = _ =>
    replace (pre ++ a :: b :: c :: d :: post) with ((pre ++ [a; b]) ++ c :: d :: post) by split_object
  end.
  rewrite store16_at by (rewrite length_app; at_aligned). unfold be32. rewrite <- bswap_bytes, to_bytes_halves by apply bswap_u32.
  by rewrite <- !(assoc_L (++)).
Qed.

(** [TCM_SET] writes the header of a configuration message in network byte
    order and the payload after it, touches nothing else, and returns the space
    of the message, a multiple of four. *)
Theorem TCM_SET_spec pre l t f reserved old post cmd flags data :
  aligned 4 (length pre) → is_u16 cmd → is_u16 flags → 0 < zlen data < 65536 →
  length l = 4%nat → length t = 2%nat → length f = 2%nat → length reserved = 8%nat →
  length old = length data →
  TCM_SET (length pre) cmd flags (Some data) (zlen data)
    (pre ++ l ++ t ++ f ++ reserved ++ old ++ post) =
  Some (TCM_SPACE (zlen data),
        pre ++ be32 (16 + zlen data) ++ be16 cmd ++ be16 flags ++ reserved ++ data ++ post) ∧
  TCM_SPACE (zlen data) mod 4 = 0.
Proof.
  intros Hal Hc Hf Hd Hl1 Hl2 Hl3 Hl4 Hl5. split.
  - unfold TCM_SET, TCM_LENGTH, sizeof_tipc_cfg_msg_hdr.
    erewrite M_bind_Some by (eapply (store_be32_in pre l);
      [unfold tcm_len_off; by rewrite Nat.add_0_r|unfold tcm_len_off; at_offset|done|unfold is_u32; lia|done]).
    erewrite M_bind_Some by (eapply (store_be16_in (pre ++ be32 (16 + zlen data)) t);
      [at_aligned|unfold tcm_type_off; at_offset|split_object|done|done]).
    erewrite M_bind_Some by
      (eapply (store_be16_in ((pre ++ be32 (16 + zlen data)) ++ be16 cmd) f);
      [at_aligned|unfold tcm_flags_off; at_offset|split_object|done|done]).
    replace (truth (zlen data)) with true by (unfold truth; lia).
    erewrite M_bind_Some by (apply (memcpy_in
        (((pre ++ be32 (16 + zlen data)) ++ be16 cmd) ++ be16 flags ++ reserved) old post);
      [unfold TCM_DATA, TCM_LENGTH, sizeof_tipc_cfg_msg_hdr; at_offset|split_object|lia|lia]).
    unfold mret, M_ret. by rewrite <- !(assoc_L (++)).
  - unfold TCM_SPACE, TCM_ALIGN. rewrite and_lnot_3. divlia.
Qed.

Lemma TCM_SET_spec_witness :
  TCM_SET 4 0x4003 1 (Some [10; 20]) 2 ([9; 9; 9; 9] ++ replicate 18 0 ++ [7]) =
  Some (20, [9; 9; 9; 9; 0; 0; 0; 18; 0x40; 3; 0; 1; 0; 0; 0; 0; 0; 0; 0; 0; 10; 20; 7]).
Proof.
  apply (TCM_SET_spec [9; 9; 9; 9] (replicate 4 0) (replicate 2 0) (replicate 2 0) (replicate 8 0)
    (replicate 2 0) [7] 0x4003 1 [10; 20]); first [done | by unfold is_u16; cbn; lia].
Defined.
