(* ===== verification/Ioctl.v ===== *)
(** The encoding of ioctl numbers ([asm-generic/ioctl.h]), the size of the structs
    that they carry, and the ioctls of [linux/cec.h]. *)
From stdpp Require Import base numbers list.
From Stdlib Require Import ZArith Lia.
From S2P Require Import Prelude.

(** * Encoding *)

Definition _IOC_NRBITS : Z := 8.
Definition _IOC_TYPEBITS : Z := 8.
Definition _IOC_SIZEBITS : Z := 14.
Definition _IOC_DIRBITS : Z := 2.

Definition _IOC_NRMASK : Z := (1 << _IOC_NRBITS) - 1.
Definition _IOC_TYPEMASK : Z := (1 << _IOC_TYPEBITS) - 1.
Definition _IOC_SIZEMASK : Z := (1 << _IOC_SIZEBITS) - 1.
Definition _IOC_DIRMASK : Z := (1 << _IOC_DIRBITS) - 1.

Definition _IOC_NRSHIFT : Z := 0.
Definition _IOC_TYPESHIFT : Z := _IOC_NRSHIFT + _IOC_NRBITS.
Definition _IOC_SIZESHIFT : Z := _IOC_TYPESHIFT + _IOC_TYPEBITS.
Definition _IOC_DIRSHIFT : Z := _IOC_SIZESHIFT + _IOC_SIZEBITS.

Definition _IOC_NONE : Z := 0.
Definition _IOC_WRITE : Z := 1.
Definition _IOC_READ : Z := 2.

Definition _IOC (dir type nr size : Z) : Z :=
  u32 (u32 (dir << _IOC_DIRSHIFT) .|
       (type << _IOC_TYPESHIFT) .|
       (nr << _IOC_NRSHIFT) .|
       u32 (size << _IOC_SIZESHIFT)).

Definition _IO (type nr : Z) : Z := _IOC _IOC_NONE type nr 0.
Definition _IOR (type nr size : Z) : Z := _IOC _IOC_READ type nr size.
Definition _IOW (type nr size : Z) : Z := _IOC _IOC_WRITE type nr size.
Definition _IOWR (type nr size : Z) : Z := _IOC (_IOC_READ .| _IOC_WRITE) type nr size.

Definition _IOC_DIR (nr : Z) : Z := (nr >> _IOC_DIRSHIFT) .& _IOC_DIRMASK.
Definition _IOC_TYPE (nr : Z) : Z := (nr >> _IOC_TYPESHIFT) .& _IOC_TYPEMASK.
Definition _IOC_NR (nr : Z) : Z := (nr >> _IOC_NRSHIFT) .& _IOC_NRMASK.
Definition _IOC_SIZE (nr : Z) : Z := (nr >> _IOC_SIZESHIFT) .& _IOC_SIZEMASK.

Definition IOC_IN : Z := u32 (_IOC_WRITE << _IOC_DIRSHIFT).
Definition IOC_OUT : Z := u32 (_IOC_READ << _IOC_DIRSHIFT).
Definition IOC_INOUT : Z := u32 ((_IOC_WRITE .| _IOC_READ) << _IOC_DIRSHIFT).
Definition IOCSIZE_MASK : Z := _IOC_SIZEMASK << _IOC_SIZESHIFT.
Definition IOCSIZE_SHIFT : Z := _IOC_SIZESHIFT.

(** * The size of a type

    Under the ARM procedure call standard a scalar is aligned to its size, a
    member lies at the next multiple of its alignment, and the size of a struct
    is a multiple of its alignment. *)

Inductive ctype :=
  | Scalar (size : Z)
  | Array (n : Z) (t : ctype)
  | Struct (members : list ctype)
  | Union (members : list ctype).

Definition align_up (off a : Z) : Z := (off + a - 1) / a * a.

Fixpoint alignof (t : ctype) : Z :=
  match t with
  | Scalar size => size
  | Array _ t => alignof t
  | Struct ts | Union ts => foldr (λ t a, Z.max (alignof t) a) 1 ts
  end.

Fixpoint sizeof (t : ctype) : Z :=
  match t with
  | Scalar size => size
  | Array n t => n * sizeof t
  | Struct ts =>
      align_up (foldl (λ off t, align_up off (alignof t) + sizeof t) 0 ts) (alignof (Struct ts))
  | Union ts =>
      align_up (foldr (λ t s, Z.max (sizeof t) s) 0 ts) (alignof (Union ts))
  end.

Definition t_char : ctype := Scalar 1.
Definition t_u8 : ctype := Scalar 1.
Definition t_u16 : ctype := Scalar 2.
Definition t_u32 : ctype := Scalar 4.
Definition t_u64 : ctype := Scalar 8.

(** * The ioctls of [linux/cec.h] *)

Definition CEC_MAX_MSG_SIZE : Z := 16.
Definition CEC_MAX_LOG_ADDRS : Z := 4.

Definition struct_cec_msg : ctype := Struct [
  t_u64; (* tx_ts *)
  t_u64; (* rx_ts *)
  t_u32; (* len *)
  t_u32; (* timeout *)
  t_u32; (* sequence *)
  t_u32; (* flags *)
  Array CEC_MAX_MSG_SIZE t_u8; (* msg *)
  t_u8; (* reply *)
  t_u8; (* rx_status *)
  t_u8; (* tx_status *)
  t_u8; (* tx_arb_lost_cnt *)
  t_u8; (* tx_nack_cnt *)
  t_u8; (* tx_low_drive_cnt *)
  t_u8  (* tx_error_cnt *)
].

Definition struct_cec_caps : ctype := Struct [
  Array 32 t_char; (* driver *)
  Array 32 t_char; (* name *)
  t_u32; (* available_log_addrs *)
  t_u32; (* capabilities *)
  t_u32  (* version *)
].

Definition struct_cec_log_addrs : ctype := Struct [
  Array CEC_MAX_LOG_ADDRS t_u8; (* log_addr *)
  t_u16; (* log_addr_mask *)
  t_u8; (* cec_version *)
  t_u8; (* num_log_addrs *)
  t_u32; (* vendor_id *)
  t_u32; (* flags *)
  Array 15 t_char; (* osd_name *)
  Array CEC_MAX_LOG_ADDRS t_u8; (* primary_device_type *)
  Array CEC_MAX_LOG_ADDRS t_u8; (* log_addr_type *)
  Array CEC_MAX_LOG_ADDRS t_u8; (* all_device_types *)
  Array CEC_MAX_LOG_ADDRS (Array 12 t_u8) (* features *)
].

Definition struct_cec_event_state_change : ctype := Struct [
  t_u16; (* phys_addr *)
  t_u16  (* log_addr_mask *)
].

Definition struct_cec_event_lost_msgs : ctype := Struct [t_u32 (* lost_msgs *)].

Definition struct_cec_event : ctype := Struct [
  t_u64; (* ts *)
  t_u32; (* event *)
  t_u32; (* flags *)
  Union [struct_cec_event_state_change; struct_cec_event_lost_msgs; Array 16 t_u32 (* raw *)]
].

(** ['a'] *)
Definition CEC_IOC_TYPE : Z := 97.

Definition CEC_ADAP_G_CAPS : Z := _IOWR CEC_IOC_TYPE 0 (sizeof struct_cec_caps).
Definition CEC_ADAP_G_PHYS_ADDR : Z := _IOR CEC_IOC_TYPE 1 (sizeof t_u16).
Definition CEC_ADAP_S_PHYS_ADDR : Z := _IOW CEC_IOC_TYPE 2 (sizeof t_u16).
Definition CEC_ADAP_G_LOG_ADDRS : Z := _IOR CEC_IOC_TYPE 3 (sizeof struct_cec_log_addrs).
Definition CEC_ADAP_S_LOG_ADDRS : Z := _IOWR CEC_IOC_TYPE 4 (sizeof struct_cec_log_addrs).
Definition CEC_TRANSMIT : Z := _IOWR CEC_IOC_TYPE 5 (sizeof struct_cec_msg).
Definition CEC_RECEIVE : Z := _IOWR CEC_IOC_TYPE 6 (sizeof struct_cec_msg).
Definition CEC_DQEVENT : Z := _IOWR CEC_IOC_TYPE 7 (sizeof struct_cec_event).
Definition CEC_G_MODE : Z := _IOR CEC_IOC_TYPE 8 (sizeof t_u32).
Definition CEC_S_MODE : Z := _IOW CEC_IOC_TYPE 9 (sizeof t_u32).

(** * Theorems *)

Definition ioc_fields (dir type nr size : Z) : Prop :=
  0 <= dir < 4 ∧ 0 <= type < 256 ∧ 0 <= nr < 256 ∧ 0 <= size < 16384.

Lemma _IOC_arith dir type nr size :
  ioc_fields dir type nr size →
  _IOC dir type nr size = dir * 1073741824 + size * 65536 + type * 256 + nr.
Proof.
  intros (Hd & Ht & Hn & Hs). unfold _IOC.
  change _IOC_DIRSHIFT with 30. change _IOC_TYPESHIFT with 8. change _IOC_NRSHIFT with 0.
  change _IOC_SIZESHIFT with 16.
  rewrite Z.shiftl_0_r, !shl_mul by lia.
  change (2 ^ 30) with 1073741824. change (2 ^ 16) with 65536. change (2 ^ 8) with 256.
  rewrite (u32_id (dir * _)), (u32_id (size * _)) by (unfold is_u32; lia).
  rewrite <- !Z.lor_assoc, (Z.lor_comm (nr)), !Z.lor_assoc, <- (Z.lor_assoc _ _ (size * _)).
  rewrite (Z.lor_comm (type * 256)), Z.lor_assoc.
  rewrite (or_add 30 (dir * _)) by (change (2 ^ 30) with 1073741824; divlia || lia).
  rewrite (or_add 16 (_ + _)) by (change (2 ^ 16) with 65536; divlia || lia).
  rewrite or_add_8 by divlia. apply u32_id. unfold is_u32. lia.
Qed.

(** The four fields of an ioctl number are recovered from it, for all fields in
    the ranges that the encoding leaves them; in particular numbers made of
    different fields are different. *)
Theorem ioc_roundtrip dir type nr size :
  ioc_fields dir type nr size →
  let n := _IOC dir type nr size in
  _IOC_DIR n = dir ∧ _IOC_TYPE n = type ∧ _IOC_NR n = nr ∧ _IOC_SIZE n = size ∧ is_u32 n.
Proof.
  intros H n. unfold n. rewrite _IOC_arith by done. destruct H as (Hd & Ht & Hn & Hs).
  unfold _IOC_DIR, _IOC_TYPE, _IOC_NR, _IOC_SIZE.
  change _IOC_DIRSHIFT with 30. change _IOC_TYPESHIFT with 8. change _IOC_NRSHIFT with 0.
  change _IOC_SIZESHIFT with 16. change _IOC_DIRMASK with 3. change _IOC_TYPEMASK with 255.
  change _IOC_NRMASK with 255. change _IOC_SIZEMASK with 16383.
  rewrite Z.shiftr_0_r. split_and!; bits.
Qed.

Lemma ioc_roundtrip_witness :
  _IOC_SIZE (_IOC 3 97 5 56) = 56 ∧ _IOC_DIR (_IOC 3 97 5 56) = 3.
Proof.
  destruct (ioc_roundtrip 3 97 5 56) as (Hd & _ & _ & Hs & _).
  - unfold ioc_fields. lia.
  - done.
Defined.

Definition cec_ioctls : list Z := [
  CEC_ADAP_G_CAPS; CEC_ADAP_G_PHYS_ADDR; CEC_ADAP_S_PHYS_ADDR; CEC_ADAP_G_LOG_ADDRS;
  CEC_ADAP_S_LOG_ADDRS; CEC_TRANSMIT; CEC_RECEIVE; CEC_DQEVENT; CEC_G_MODE; CEC_S_MODE].

(** The ten ioctls of a CEC device are numbered 0 to 9 under the type ['a'], no
    two have the same number, their arguments fit the size field, and
    transmitting, receiving and dequeueing events both read and write their
    argument. *)
Theorem cec_ioctls_numbers :
  _IOC_NR <$> cec_ioctls = seqZ 0 10 ∧
  Forall (λ n, _IOC_TYPE n = CEC_IOC_TYPE) cec_ioctls ∧
  NoDup cec_ioctls ∧
  _IOC_SIZE <$> cec_ioctls = [76; 2; 2; 92; 92; 56; 56; 80; 4; 4] ∧
  Forall (λ n, n .& IOC_INOUT = IOC_INOUT) [CEC_TRANSMIT; CEC_RECEIVE; CEC_DQEVENT].
Proof. apply (bool_decide_unpack _). by vm_compute. Qed.
