(* ===== verification/DvTimings.v ===== *)
(** The digital video timings of [linux/v4l2-dv-timings.h], with the struct, the
    flags and the frame size macros of [linux/videodev2.h]. Each timing macro is an
    entry of a table under its name: standard, active size, scan, rate in
    hundredths of a hertz, and whether it has reduced blanking. *)
From stdpp Require Import base numbers list.
From Stdlib Require Import ZArith Lia.
From S2P Require Import Prelude.

(** * [linux/videodev2.h] *)

Record v4l2_bt_timings := Bt {
  width : Z;
  height : Z;
  interlaced : Z;
  polarities : Z;
  pixelclock : Z;
  hfrontporch : Z;
  hsync : Z;
  hbackporch : Z;
  vfrontporch : Z;
  vsync : Z;
  vbackporch : Z;
  il_vfrontporch : Z;
  il_vsync : Z;
  il_vbackporch : Z;
  standards : Z;
  flags : Z;
  picture_aspect : Z * Z;
  cea861_vic : Z;
  hdmi_vic : Z;
}.

Definition V4L2_DV_PROGRESSIVE : Z := 0.
Definition V4L2_DV_INTERLACED : Z := 1.

Definition V4L2_DV_VSYNC_POS_POL : Z := 1.
Definition V4L2_DV_HSYNC_POS_POL : Z := 2.

Definition V4L2_DV_BT_STD_CEA861 : Z := 1 << 0.
Definition V4L2_DV_BT_STD_DMT : Z := 1 << 1.
Definition V4L2_DV_BT_STD_CVT : Z := 1 << 2.
Definition V4L2_DV_BT_STD_GTF : Z := 1 << 3.
Definition V4L2_DV_BT_STD_SDI : Z := 1 << 4.

Definition V4L2_DV_FL_REDUCED_BLANKING : Z := 1 << 0.
Definition V4L2_DV_FL_CAN_REDUCE_FPS : Z := 1 << 1.
Definition V4L2_DV_FL_REDUCED_FPS : Z := 1 << 2.
Definition V4L2_DV_FL_HALF_LINE : Z := 1 << 3.
Definition V4L2_DV_FL_IS_CE_VIDEO : Z := 1 << 4.
Definition V4L2_DV_FL_FIRST_FIELD_EXTRA_LINE : Z := 1 << 5.
Definition V4L2_DV_FL_HAS_PICTURE_ASPECT : Z := 1 << 6.
Definition V4L2_DV_FL_HAS_CEA861_VIC : Z := 1 << 7.
Definition V4L2_DV_FL_HAS_HDMI_VIC : Z := 1 << 8.

Definition V4L2_DV_BT_BLANKING_WIDTH (bt : v4l2_bt_timings) : Z :=
  u32 (hfrontporch bt + hsync bt + hbackporch bt).
Definition V4L2_DV_BT_FRAME_WIDTH (bt : v4l2_bt_timings) : Z :=
  u32 (width bt + V4L2_DV_BT_BLANKING_WIDTH bt).
Definition V4L2_DV_BT_BLANKING_HEIGHT (bt : v4l2_bt_timings) : Z :=
  u32 (vfrontporch bt + vsync bt + vbackporch bt +
       il_vfrontporch bt + il_vsync bt + il_vbackporch bt).
Definition V4L2_DV_BT_FRAME_HEIGHT (bt : v4l2_bt_timings) : Z :=
  u32 (height bt + V4L2_DV_BT_BLANKING_HEIGHT bt).

(** * The table *)

Inductive standard := CEA | DMT | SDI.

(** The name of a macro: [V4L2_DV_BT_CEA_720X480I59_94] is
    [Mode CEA 720 480 V4L2_DV_INTERLACED 5994 false], and a name that ends in [_RB] has
    [true] as its last part. *)
Record mode := Mode {
  m_standard : standard;
  m_width : Z;
  m_height : Z;
  m_scan : Z;
  m_rate : Z;
  m_reduced : bool;
}.

#[global] Instance standard_eq_dec : EqDecision standard.
Proof. solve_decision. Defined.
#[global] Instance mode_eq_dec : EqDecision mode.
Proof. solve_decision. Defined.

(** [V4L2_DV_BT_CEA_640X480P59_94] to [V4L2_DV_BT_CEA_1920X1080P50] *)
Definition timings_cea_1 : list (mode * v4l2_bt_timings) := [
  (Mode CEA 640 480 V4L2_DV_PROGRESSIVE 5994 false,
     Bt 640 480 0 0 25175000 16 96 48 10 2 33 0 0 0
     (V4L2_DV_BT_STD_DMT .| V4L2_DV_BT_STD_CEA861) V4L2_DV_FL_HAS_CEA861_VIC (0, 0) 1 0);
  (Mode CEA 720 480 V4L2_DV_INTERLACED 5994 false,
     Bt 720 480 1 0 13500000 19 62 57 4 3 15 4 3 16 V4L2_DV_BT_STD_CEA861
     (V4L2_DV_FL_HALF_LINE .| V4L2_DV_FL_IS_CE_VIDEO .| V4L2_DV_FL_HAS_PICTURE_ASPECT .| V4L2_DV_FL_HAS_CEA861_VIC)
     (4, 3) 6 0);
  (Mode CEA 720 480 V4L2_DV_PROGRESSIVE 5994 false,
     Bt 720 480 0 0 27000000 16 62 60 9 6 30 0 0 0 V4L2_DV_BT_STD_CEA861
     (V4L2_DV_FL_IS_CE_VIDEO .| V4L2_DV_FL_HAS_PICTURE_ASPECT .| V4L2_DV_FL_HAS_CEA861_VIC)
     (4, 3) 2 0);
  (Mode CEA 720 576 V4L2_DV_INTERLACED 5000 false,
     Bt 720 576 1 0 13500000 12 63 69 2 3 19 2 3 20 V4L2_DV_BT_STD_CEA861
     (V4L2_DV_FL_HALF_LINE .| V4L2_DV_FL_IS_CE_VIDEO .| V4L2_DV_FL_HAS_PICTURE_ASPECT .| V4L2_DV_FL_HAS_CEA861_VIC)
     (4, 3) 21 0);
  (Mode CEA 720 576 V4L2_DV_PROGRESSIVE 5000 false,
     Bt 720 576 0 0 27000000 12 64 68 5 5 39 0 0 0 V4L2_DV_BT_STD_CEA861
     (V4L2_DV_FL_IS_CE_VIDEO .| V4L2_DV_FL_HAS_PICTURE_ASPECT .| V4L2_DV_FL_HAS_CEA861_VIC)
     (4, 3) 17 0);
  (Mode CEA 1280 720 V4L2_DV_PROGRESSIVE 2400 false,
     Bt 1280 720 0 (V4L2_DV_HSYNC_POS_POL .| V4L2_DV_VSYNC_POS_POL) 59400000 1760 40 220 5 5
     20 0 0 0 (V4L2_DV_BT_STD_DMT .| V4L2_DV_BT_STD_CEA861)
     (V4L2_DV_FL_CAN_REDUCE_FPS .| V4L2_DV_FL_HAS_CEA861_VIC) (0, 0) 60 0);
  (Mode CEA 1280 720 V4L2_DV_PROGRESSIVE 2500 false,
     Bt 1280 720 0 (V4L2_DV_HSYNC_POS_POL .| V4L2_DV_VSYNC_POS_POL) 74250000 2420 40 220 5 5
     20 0 0 0 V4L2_DV_BT_STD_CEA861 (V4L2_DV_FL_IS_CE_VIDEO .| V4L2_DV_FL_HAS_CEA861_VIC)
     (0, 0) 61 0);
  (Mode CEA 1280 720 V4L2_DV_PROGRESSIVE 3000 false,
     Bt 1280 720 0 (V4L2_DV_HSYNC_POS_POL .| V4L2_DV_VSYNC_POS_POL) 74250000 1760 40 220 5 5
     20 0 0 0 V4L2_DV_BT_STD_CEA861
     (V4L2_DV_FL_CAN_REDUCE_FPS .| V4L2_DV_FL_IS_CE_VIDEO .| V4L2_DV_FL_HAS_CEA861_VIC)
     (0, 0) 62 0);
  (Mode CEA 1280 720 V4L2_DV_PROGRESSIVE 5000 false,
     Bt 1280 720 0 (V4L2_DV_HSYNC_POS_POL .| V4L2_DV_VSYNC_POS_POL) 74250000 440 40 220 5 5
     20 0 0 0 V4L2_DV_BT_STD_CEA861 (V4L2_DV_FL_IS_CE_VIDEO .| V4L2_DV_FL_HAS_CEA861_VIC)
     (0, 0) 19 0);
  (Mode CEA 1280 720 V4L2_DV_PROGRESSIVE 6000 false,
     Bt 1280 720 0 (V4L2_DV_HSYNC_POS_POL .| V4L2_DV_VSYNC_POS_POL) 74250000 110 40 220 5 5
     20 0 0 0 V4L2_DV_BT_STD_CEA861
     (V4L2_DV_FL_CAN_REDUCE_FPS .| V4L2_DV_FL_IS_CE_VIDEO .| V4L2_DV_FL_HAS_CEA861_VIC)
     (0, 0) 4 0);
  (Mode CEA 1920 1080 V4L2_DV_PROGRESSIVE 2400 false,
     Bt 1920 1080 0 (V4L2_DV_HSYNC_POS_POL .| V4L2_DV_VSYNC_POS_POL) 74250000 638 44 148 4 5
     36 0 0 0 V4L2_DV_BT_STD_CEA861
     (V4L2_DV_FL_CAN_REDUCE_FPS .| V4L2_DV_FL_IS_CE_VIDEO .| V4L2_DV_FL_HAS_CEA861_VIC)
     (0, 0) 32 0);
  (Mode CEA 1920 1080 V4L2_DV_PROGRESSIVE 2500 false,
     Bt 1920 1080 0 (V4L2_DV_HSYNC_POS_POL .| V4L2_DV_VSYNC_POS_POL) 74250000 528 44 148 4 5
     36 0 0 0 V4L2_DV_BT_STD_CEA861 (V4L2_DV_FL_IS_CE_VIDEO .| V4L2_DV_FL_HAS_CEA861_VIC)
     (0, 0) 33 0);
  (Mode CEA 1920 1080 V4L2_DV_PROGRESSIVE 3000 false,
     Bt 1920 1080 0 (V4L2_DV_HSYNC_POS_POL .| V4L2_DV_VSYNC_POS_POL) 74250000 88 44 148 4 5
     36 0 0 0 V4L2_DV_BT_STD_CEA861
     (V4L2_DV_FL_CAN_REDUCE_FPS .| V4L2_DV_FL_IS_CE_VIDEO .| V4L2_DV_FL_HAS_CEA861_VIC)
     (0, 0) 34 0);
  (Mode CEA 1920 1080 V4L2_DV_INTERLACED 5000 false,
     Bt 1920 1080 1 (V4L2_DV_HSYNC_POS_POL .| V4L2_DV_VSYNC_POS_POL) 74250000 528 44 148 2 5
     15 2 5 16 V4L2_DV_BT_STD_CEA861
     (V4L2_DV_FL_HALF_LINE .| V4L2_DV_FL_IS_CE_VIDEO .| V4L2_DV_FL_HAS_CEA861_VIC) (0, 0) 20
     0);
  (Mode CEA 1920 1080 V4L2_DV_PROGRESSIVE 5000 false,
     Bt 1920 1080 0 (V4L2_DV_HSYNC_POS_POL .| V4L2_DV_VSYNC_POS_POL) 148500000 528 44 148 4 5
     36 0 0 0 V4L2_DV_BT_STD_CEA861 (V4L2_DV_FL_IS_CE_VIDEO .| V4L2_DV_FL_HAS_CEA861_VIC)
     (0, 0) 31 0)
].

(** [V4L2_DV_BT_CEA_1920X1080I60] to [V4L2_DV_BT_CEA_4096X2160P60] *)
Definition timings_cea_2 : list (mode * v4l2_bt_timings) := [
  (Mode CEA 1920 1080 V4L2_DV_INTERLACED 6000 false,
     Bt 1920 1080 1 (V4L2_DV_HSYNC_POS_POL .| V4L2_DV_VSYNC_POS_POL) 74250000 88 44 148 2 5
     15 2 5 16 V4L2_DV_BT_STD_CEA861
     (V4L2_DV_FL_CAN_REDUCE_FPS .| V4L2_DV_FL_HALF_LINE .| V4L2_DV_FL_IS_CE_VIDEO .| V4L2_DV_FL_HAS_CEA861_VIC)
     (0, 0) 5 0);
  (Mode CEA 1920 1080 V4L2_DV_PROGRESSIVE 6000 false,
     Bt 1920 1080 0 (V4L2_DV_HSYNC_POS_POL .| V4L2_DV_VSYNC_POS_POL) 148500000 88 44 148 4 5
     36 0 0 0 (V4L2_DV_BT_STD_DMT .| V4L2_DV_BT_STD_CEA861)
     (V4L2_DV_FL_CAN_REDUCE_FPS .| V4L2_DV_FL_IS_CE_VIDEO .| V4L2_DV_FL_HAS_CEA861_VIC)
     (0, 0) 16 0);
  (Mode CEA 3840 2160 V4L2_DV_PROGRESSIVE 2400 false,
     Bt 3840 2160 0 (V4L2_DV_HSYNC_POS_POL .| V4L2_DV_VSYNC_POS_POL) 297000000 1276 88 296 8
     10 72 0 0 0 V4L2_DV_BT_STD_CEA861
     (V4L2_DV_FL_CAN_REDUCE_FPS .| V4L2_DV_FL_IS_CE_VIDEO .| V4L2_DV_FL_HAS_CEA861_VIC .| V4L2_DV_FL_HAS_HDMI_VIC)
     (0, 0) 93 3);
  (Mode CEA 3840 2160 V4L2_DV_PROGRESSIVE 2500 false,
     Bt 3840 2160 0 (V4L2_DV_HSYNC_POS_POL .| V4L2_DV_VSYNC_POS_POL) 297000000 1056 88 296 8
     10 72 0 0 0 V4L2_DV_BT_STD_CEA861
     (V4L2_DV_FL_IS_CE_VIDEO .| V4L2_DV_FL_HAS_CEA861_VIC .| V4L2_DV_FL_HAS_HDMI_VIC) (0, 0)
     94 2);
  (Mode CEA 3840 2160 V4L2_DV_PROGRESSIVE 3000 false,
     Bt 3840 2160 0 (V4L2_DV_HSYNC_POS_POL .| V4L2_DV_VSYNC_POS_POL) 297000000 176 88 296 8
     10 72 0 0 0 V4L2_DV_BT_STD_CEA861
     (V4L2_DV_FL_CAN_REDUCE_FPS .| V4L2_DV_FL_IS_CE_VIDEO .| V4L2_DV_FL_HAS_CEA861_VIC .| V4L2_DV_FL_HAS_HDMI_VIC)
     (0, 0) 95 1);
  (Mode CEA 3840 2160 V4L2_DV_PROGRESSIVE 5000 false,
     Bt 3840 2160 0 (V4L2_DV_HSYNC_POS_POL .| V4L2_DV_VSYNC_POS_POL) 594000000 1056 88 296 8
     10 72 0 0 0 V4L2_DV_BT_STD_CEA861 (V4L2_DV_FL_IS_CE_VIDEO .| V4L2_DV_FL_HAS_CEA861_VIC)
     (0, 0) 96 0);
  (Mode CEA 3840 2160 V4L2_DV_PROGRESSIVE 6000 false,
     Bt 3840 2160 0 (V4L2_DV_HSYNC_POS_POL .| V4L2_DV_VSYNC_POS_POL) 594000000 176 88 296 8
     10 72 0 0 0 V4L2_DV_BT_STD_CEA861
     (V4L2_DV_FL_CAN_REDUCE_FPS .| V4L2_DV_FL_IS_CE_VIDEO .| V4L2_DV_FL_HAS_CEA861_VIC)
     (0, 0) 97 0);
  (Mode CEA 4096 2160 V4L2_DV_PROGRESSIVE 2400 false,
     Bt 4096 2160 0 (V4L2_DV_HSYNC_POS_POL .| V4L2_DV_VSYNC_POS_POL) 297000000 1020 88 296 8
     10 72 0 0 0 V4L2_DV_BT_STD_CEA861
     (V4L2_DV_FL_CAN_REDUCE_FPS .| V4L2_DV_FL_IS_CE_VIDEO .| V4L2_DV_FL_HAS_CEA861_VIC .| V4L2_DV_FL_HAS_HDMI_VIC)
     (0, 0) 98 4);
  (Mode CEA 4096 2160 V4L2_DV_PROGRESSIVE 2500 false,
     Bt 4096 2160 0 (V4L2_DV_HSYNC_POS_POL .| V4L2_DV_VSYNC_POS_POL) 297000000 968 88 128 8
     10 72 0 0 0 V4L2_DV_BT_STD_CEA861 (V4L2_DV_FL_IS_CE_VIDEO .| V4L2_DV_FL_HAS_CEA861_VIC)
     (0, 0) 99 0);
  (Mode CEA 4096 2160 V4L2_DV_PROGRESSIVE 3000 false,
     Bt 4096 2160 0 (V4L2_DV_HSYNC_POS_POL .| V4L2_DV_VSYNC_POS_POL) 297000000 88 88 128 8 10
     72 0 0 0 V4L2_DV_BT_STD_CEA861
     (V4L2_DV_FL_CAN_REDUCE_FPS .| V4L2_DV_FL_IS_CE_VIDEO .| V4L2_DV_FL_HAS_CEA861_VIC)
     (0, 0) 100 0);
  (Mode CEA 4096 2160 V4L2_DV_PROGRESSIVE 5000 false,
     Bt 4096 2160 0 (V4L2_DV_HSYNC_POS_POL .| V4L2_DV_VSYNC_POS_POL) 594000000 968 88 128 8
     10 72 0 0 0 V4L2_DV_BT_STD_CEA861 (V4L2_DV_FL_IS_CE_VIDEO .| V4L2_DV_FL_HAS_CEA861_VIC)
     (0, 0) 101 0);
  (Mode CEA 4096 2160 V4L2_DV_PROGRESSIVE 6000 false,
     Bt 4096 2160 0 (V4L2_DV_HSYNC_POS_POL .| V4L2_DV_VSYNC_POS_POL) 594000000 88 88 128 8 10
     72 0 0 0 V4L2_DV_BT_STD_CEA861
     (V4L2_DV_FL_CAN_REDUCE_FPS .| V4L2_DV_FL_IS_CE_VIDEO .| V4L2_DV_FL_HAS_CEA861_VIC)
     (0, 0) 102 0)
].

(** [V4L2_DV_BT_DMT_640X350P85] to [V4L2_DV_BT_DMT_1024X768P120_RB] *)
Definition timings_dmt_1 : list (mode * v4l2_bt_timings) := [
  (Mode DMT 640 350 V4L2_DV_PROGRESSIVE 8500 false,
     Bt 640 350 0 V4L2_DV_HSYNC_POS_POL 31500000 32 64 96 32 3 60 0 0 0 V4L2_DV_BT_STD_DMT 0
     (0, 0) 0 0);
  (Mode DMT 640 400 V4L2_DV_PROGRESSIVE 8500 false,
     Bt 640 400 0 V4L2_DV_VSYNC_POS_POL 31500000 32 64 96 1 3 41 0 0 0 V4L2_DV_BT_STD_DMT 0
     (0, 0) 0 0);
  (Mode DMT 720 400 V4L2_DV_PROGRESSIVE 8500 false,
     Bt 720 400 0 V4L2_DV_VSYNC_POS_POL 35500000 36 72 108 1 3 42 0 0 0 V4L2_DV_BT_STD_DMT 0
     (0, 0) 0 0);
  (Mode DMT 640 480 V4L2_DV_PROGRESSIVE 7200 false,
     Bt 640 480 0 0 31500000 24 40 128 9 3 28 0 0 0 V4L2_DV_BT_STD_DMT 0 (0, 0) 0 0);
  (Mode DMT 640 480 V4L2_DV_PROGRESSIVE 7500 false,
     Bt 640 480 0 0 31500000 16 64 120 1 3 16 0 0 0 V4L2_DV_BT_STD_DMT 0 (0, 0) 0 0);
  (Mode DMT 640 480 V4L2_DV_PROGRESSIVE 8500 false,
     Bt 640 480 0 0 36000000 56 56 80 1 3 25 0 0 0 V4L2_DV_BT_STD_DMT 0 (0, 0) 0 0);
  (Mode DMT 800 600 V4L2_DV_PROGRESSIVE 5600 false,
     Bt 800 600 0 (V4L2_DV_HSYNC_POS_POL .| V4L2_DV_VSYNC_POS_POL) 36000000 24 72 128 1 2 22
     0 0 0 V4L2_DV_BT_STD_DMT 0 (0, 0) 0 0);
  (Mode DMT 800 600 V4L2_DV_PROGRESSIVE 6000 false,
     Bt 800 600 0 (V4L2_DV_HSYNC_POS_POL .| V4L2_DV_VSYNC_POS_POL) 40000000 40 128 88 1 4 23
     0 0 0 V4L2_DV_BT_STD_DMT 0 (0, 0) 0 0);
  (Mode DMT 800 600 V4L2_DV_PROGRESSIVE 7200 false,
     Bt 800 600 0 (V4L2_DV_HSYNC_POS_POL .| V4L2_DV_VSYNC_POS_POL) 50000000 56 120 64 37 6 23
     0 0 0 V4L2_DV_BT_STD_DMT 0 (0, 0) 0 0);
  (Mode DMT 800 600 V4L2_DV_PROGRESSIVE 7500 false,
     Bt 800 600 0 (V4L2_DV_HSYNC_POS_POL .| V4L2_DV_VSYNC_POS_POL) 49500000 16 80 160 1 3 21
     0 0 0 V4L2_DV_BT_STD_DMT 0 (0, 0) 0 0);
  (Mode DMT 800 600 V4L2_DV_PROGRESSIVE 8500 false,
     Bt 800 600 0 (V4L2_DV_HSYNC_POS_POL .| V4L2_DV_VSYNC_POS_POL) 56250000 32 64 152 1 3 27
     0 0 0 V4L2_DV_BT_STD_DMT 0 (0, 0) 0 0);
  (Mode DMT 800 600 V4L2_DV_PROGRESSIVE 12000 true,
     Bt 800 600 0 V4L2_DV_HSYNC_POS_POL 73250000 48 32 80 3 4 29 0 0 0
     (V4L2_DV_BT_STD_DMT .| V4L2_DV_BT_STD_CVT) V4L2_DV_FL_REDUCED_BLANKING (0, 0) 0 0);
  (Mode DMT 848 480 V4L2_DV_PROGRESSIVE 6000 false,
     Bt 848 480 0 (V4L2_DV_HSYNC_POS_POL .| V4L2_DV_VSYNC_POS_POL) 33750000 16 112 112 6 8 23
     0 0 0 V4L2_DV_BT_STD_DMT 0 (0, 0) 0 0);
  (Mode DMT 1024 768 V4L2_DV_INTERLACED 4300 false,
     Bt 1024 768 1 (V4L2_DV_HSYNC_POS_POL .| V4L2_DV_VSYNC_POS_POL) 44900000 8 176 56 0 4 20
     0 4 21 V4L2_DV_BT_STD_DMT 0 (0, 0) 0 0);
  (Mode DMT 1024 768 V4L2_DV_PROGRESSIVE 6000 false,
     Bt 1024 768 0 0 65000000 24 136 160 3 6 29 0 0 0 V4L2_DV_BT_STD_DMT 0 (0, 0) 0 0);
  (Mode DMT 1024 768 V4L2_DV_PROGRESSIVE 7000 false,
     Bt 1024 768 0 0 75000000 24 136 144 3 6 29 0 0 0 V4L2_DV_BT_STD_DMT 0 (0, 0) 0 0);
  (Mode DMT 1024 768 V4L2_DV_PROGRESSIVE 7500 false,
     Bt 1024 768 0 (V4L2_DV_HSYNC_POS_POL .| V4L2_DV_VSYNC_POS_POL) 78750000 16 96 176 1 3 28
     0 0 0 V4L2_DV_BT_STD_DMT 0 (0, 0) 0 0);
  (Mode DMT 1024 768 V4L2_DV_PROGRESSIVE 8500 false,
     Bt 1024 768 0 (V4L2_DV_HSYNC_POS_POL .| V4L2_DV_VSYNC_POS_POL) 94500000 48 96 208 1 3 36
     0 0 0 V4L2_DV_BT_STD_DMT 0 (0, 0) 0 0);
  (Mode DMT 1024 768 V4L2_DV_PROGRESSIVE 12000 true,
     Bt 1024 768 0 V4L2_DV_HSYNC_POS_POL 115500000 48 32 80 3 4 38 0 0 0
     (V4L2_DV_BT_STD_DMT .| V4L2_DV_BT_STD_CVT) V4L2_DV_FL_REDUCED_BLANKING (0, 0) 0 0)
].

(** [V4L2_DV_BT_DMT_1152X864P75] to [V4L2_DV_BT_DMT_1360X768P60] *)
Definition timings_dmt_2 : list (mode * v4l2_bt_timings) := [
  (Mode DMT 1152 864 V4L2_DV_PROGRESSIVE 7500 false,
     Bt 1152 864 0 (V4L2_DV_HSYNC_POS_POL .| V4L2_DV_VSYNC_POS_POL) 108000000 64 128 256 1 3
     32 0 0 0 V4L2_DV_BT_STD_DMT 0 (0, 0) 0 0);
  (Mode DMT 1280 768 V4L2_DV_PROGRESSIVE 6000 true,
     Bt 1280 768 0 V4L2_DV_HSYNC_POS_POL 68250000 48 32 80 3 7 12 0 0 0
     (V4L2_DV_BT_STD_DMT .| V4L2_DV_BT_STD_CVT) V4L2_DV_FL_REDUCED_BLANKING (0, 0) 0 0);
  (Mode DMT 1280 768 V4L2_DV_PROGRESSIVE 6000 false,
     Bt 1280 768 0 V4L2_DV_VSYNC_POS_POL 79500000 64 128 192 3 7 20 0 0 0
     (V4L2_DV_BT_STD_DMT .| V4L2_DV_BT_STD_CVT) 0 (0, 0) 0 0);
  (Mode DMT 1280 768 V4L2_DV_PROGRESSIVE 7500 false,
     Bt 1280 768 0 V4L2_DV_VSYNC_POS_POL 102250000 80 128 208 3 7 27 0 0 0
     (V4L2_DV_BT_STD_DMT .| V4L2_DV_BT_STD_CVT) 0 (0, 0) 0 0);
  (Mode DMT 1280 768 V4L2_DV_PROGRESSIVE 8500 false,
     Bt 1280 768 0 V4L2_DV_VSYNC_POS_POL 117500000 80 136 216 3 7 31 0 0 0
     (V4L2_DV_BT_STD_DMT .| V4L2_DV_BT_STD_CVT) 0 (0, 0) 0 0);
  (Mode DMT 1280 768 V4L2_DV_PROGRESSIVE 12000 true,
     Bt 1280 768 0 V4L2_DV_HSYNC_POS_POL 140250000 48 32 80 3 7 35 0 0 0
     (V4L2_DV_BT_STD_DMT .| V4L2_DV_BT_STD_CVT) V4L2_DV_FL_REDUCED_BLANKING (0, 0) 0 0);
  (Mode DMT 1280 800 V4L2_DV_PROGRESSIVE 6000 true,
     Bt 1280 800 0 V4L2_DV_HSYNC_POS_POL 71000000 48 32 80 3 6 14 0 0 0
     (V4L2_DV_BT_STD_DMT .| V4L2_DV_BT_STD_CVT) V4L2_DV_FL_REDUCED_BLANKING (0, 0) 0 0);
  (Mode DMT 1280 800 V4L2_DV_PROGRESSIVE 6000 false,
     Bt 1280 800 0 V4L2_DV_VSYNC_POS_POL 83500000 72 128 200 3 6 22 0 0 0
     (V4L2_DV_BT_STD_DMT .| V4L2_DV_BT_STD_CVT) 0 (0, 0) 0 0);
  (Mode DMT 1280 800 V4L2_DV_PROGRESSIVE 7500 false,
     Bt 1280 800 0 V4L2_DV_VSYNC_POS_POL 106500000 80 128 208 3 6 29 0 0 0
     (V4L2_DV_BT_STD_DMT .| V4L2_DV_BT_STD_CVT) 0 (0, 0) 0 0);
  (Mode DMT 1280 800 V4L2_DV_PROGRESSIVE 8500 false,
     Bt 1280 800 0 V4L2_DV_VSYNC_POS_POL 122500000 80 136 216 3 6 34 0 0 0
     (V4L2_DV_BT_STD_DMT .| V4L2_DV_BT_STD_CVT) 0 (0, 0) 0 0);
  (Mode DMT 1280 800 V4L2_DV_PROGRESSIVE 12000 true,
     Bt 1280 800 0 V4L2_DV_HSYNC_POS_POL 146250000 48 32 80 3 6 38 0 0 0
     (V4L2_DV_BT_STD_DMT .| V4L2_DV_BT_STD_CVT) V4L2_DV_FL_REDUCED_BLANKING (0, 0) 0 0);
  (Mode DMT 1280 960 V4L2_DV_PROGRESSIVE 6000 false,
     Bt 1280 960 0 (V4L2_DV_HSYNC_POS_POL .| V4L2_DV_VSYNC_POS_POL) 108000000 96 112 312 1 3
     36 0 0 0 V4L2_DV_BT_STD_DMT 0 (0, 0) 0 0);
  (Mode DMT 1280 960 V4L2_DV_PROGRESSIVE 8500 false,
     Bt 1280 960 0 (V4L2_DV_HSYNC_POS_POL .| V4L2_DV_VSYNC_POS_POL) 148500000 64 160 224 1 3
     47 0 0 0 V4L2_DV_BT_STD_DMT 0 (0, 0) 0 0);
  (Mode DMT 1280 960 V4L2_DV_PROGRESSIVE 12000 true,
     Bt 1280 960 0 V4L2_DV_HSYNC_POS_POL 175500000 48 32 80 3 4 50 0 0 0
     (V4L2_DV_BT_STD_DMT .| V4L2_DV_BT_STD_CVT) V4L2_DV_FL_REDUCED_BLANKING (0, 0) 0 0);
  (Mode DMT 1280 1024 V4L2_DV_PROGRESSIVE 6000 false,
     Bt 1280 1024 0 (V4L2_DV_HSYNC_POS_POL .| V4L2_DV_VSYNC_POS_POL) 108000000 48 112 248 1 3
     38 0 0 0 V4L2_DV_BT_STD_DMT 0 (0, 0) 0 0);
  (Mode DMT 1280 1024 V4L2_DV_PROGRESSIVE 7500 false,
     Bt 1280 1024 0 (V4L2_DV_HSYNC_POS_POL .| V4L2_DV_VSYNC_POS_POL) 135000000 16 144 248 1 3
     38 0 0 0 V4L2_DV_BT_STD_DMT 0 (0, 0) 0 0);
  (Mode DMT 1280 1024 V4L2_DV_PROGRESSIVE 8500 false,
     Bt 1280 1024 0 (V4L2_DV_HSYNC_POS_POL .| V4L2_DV_VSYNC_POS_POL) 157500000 64 160 224 1 3
     44 0 0 0 V4L2_DV_BT_STD_DMT 0 (0, 0) 0 0);
  (Mode DMT 1280 1024 V4L2_DV_PROGRESSIVE 12000 true,
     Bt 1280 1024 0 V4L2_DV_HSYNC_POS_POL 187250000 48 32 80 3 7 50 0 0 0
     (V4L2_DV_BT_STD_DMT .| V4L2_DV_BT_STD_CVT) V4L2_DV_FL_REDUCED_BLANKING (0, 0) 0 0);
  (Mode DMT 1360 768 V4L2_DV_PROGRESSIVE 6000 false,
     Bt 1360 768 0 (V4L2_DV_HSYNC_POS_POL .| V4L2_DV_VSYNC_POS_POL) 85500000 64 112 256 3 6
     18 0 0 0 V4L2_DV_BT_STD_DMT 0 (0, 0) 0 0)
].

(** [V4L2_DV_BT_DMT_1360X768P120_RB] to [V4L2_DV_BT_DMT_1600X1200P85] *)
Definition timings_dmt_3 : list (mode * v4l2_bt_timings) := [
  (Mode DMT 1360 768 V4L2_DV_PROGRESSIVE 12000 true,
     Bt 1360 768 0 V4L2_DV_HSYNC_POS_POL 148250000 48 32 80 3 5 37 0 0 0
     (V4L2_DV_BT_STD_DMT .| V4L2_DV_BT_STD_CVT) V4L2_DV_FL_REDUCED_BLANKING (0, 0) 0 0);
  (Mode DMT 1366 768 V4L2_DV_PROGRESSIVE 6000 false,
     Bt 1366 768 0 (V4L2_DV_HSYNC_POS_POL .| V4L2_DV_VSYNC_POS_POL) 85500000 70 143 213 3 3
     24 0 0 0 V4L2_DV_BT_STD_DMT 0 (0, 0) 0 0);
  (Mode DMT 1366 768 V4L2_DV_PROGRESSIVE 6000 true,
     Bt 1366 768 0 (V4L2_DV_HSYNC_POS_POL .| V4L2_DV_VSYNC_POS_POL) 72000000 14 56 64 1 3 28
     0 0 0 V4L2_DV_BT_STD_DMT V4L2_DV_FL_REDUCED_BLANKING (0, 0) 0 0);
  (Mode DMT 1400 1050 V4L2_DV_PROGRESSIVE 6000 true,
     Bt 1400 1050 0 V4L2_DV_HSYNC_POS_POL 101000000 48 32 80 3 4 23 0 0 0
     (V4L2_DV_BT_STD_DMT .| V4L2_DV_BT_STD_CVT) V4L2_DV_FL_REDUCED_BLANKING (0, 0) 0 0);
  (Mode DMT 1400 1050 V4L2_DV_PROGRESSIVE 6000 false,
     Bt 1400 1050 0 V4L2_DV_VSYNC_POS_POL 121750000 88 144 232 3 4 32 0 0 0
     (V4L2_DV_BT_STD_DMT .| V4L2_DV_BT_STD_CVT) 0 (0, 0) 0 0);
  (Mode DMT 1400 1050 V4L2_DV_PROGRESSIVE 7500 false,
     Bt 1400 1050 0 V4L2_DV_VSYNC_POS_POL 156000000 104 144 248 3 4 42 0 0 0
     (V4L2_DV_BT_STD_DMT .| V4L2_DV_BT_STD_CVT) 0 (0, 0) 0 0);
  (Mode DMT 1400 1050 V4L2_DV_PROGRESSIVE 8500 false,
     Bt 1400 1050 0 V4L2_DV_VSYNC_POS_POL 179500000 104 152 256 3 4 48 0 0 0
     (V4L2_DV_BT_STD_DMT .| V4L2_DV_BT_STD_CVT) 0 (0, 0) 0 0);
  (Mode DMT 1400 1050 V4L2_DV_PROGRESSIVE 12000 true,
     Bt 1400 1050 0 V4L2_DV_HSYNC_POS_POL 208000000 48 32 80 3 4 55 0 0 0
     (V4L2_DV_BT_STD_DMT .| V4L2_DV_BT_STD_CVT) V4L2_DV_FL_REDUCED_BLANKING (0, 0) 0 0);
  (Mode DMT 1440 900 V4L2_DV_PROGRESSIVE 6000 true,
     Bt 1440 900 0 V4L2_DV_HSYNC_POS_POL 88750000 48 32 80 3 6 17 0 0 0
     (V4L2_DV_BT_STD_DMT .| V4L2_DV_BT_STD_CVT) V4L2_DV_FL_REDUCED_BLANKING (0, 0) 0 0);
  (Mode DMT 1440 900 V4L2_DV_PROGRESSIVE 6000 false,
     Bt 1440 900 0 V4L2_DV_VSYNC_POS_POL 106500000 80 152 232 3 6 25 0 0 0
     (V4L2_DV_BT_STD_DMT .| V4L2_DV_BT_STD_CVT) 0 (0, 0) 0 0);
  (Mode DMT 1440 900 V4L2_DV_PROGRESSIVE 7500 false,
     Bt 1440 900 0 V4L2_DV_VSYNC_POS_POL 136750000 96 152 248 3 6 33 0 0 0
     (V4L2_DV_BT_STD_DMT .| V4L2_DV_BT_STD_CVT) 0 (0, 0) 0 0);
  (Mode DMT 1440 900 V4L2_DV_PROGRESSIVE 8500 false,
     Bt 1440 900 0 V4L2_DV_VSYNC_POS_POL 157000000 104 152 256 3 6 39 0 0 0
     (V4L2_DV_BT_STD_DMT .| V4L2_DV_BT_STD_CVT) 0 (0, 0) 0 0);
  (Mode DMT 1440 900 V4L2_DV_PROGRESSIVE 12000 true,
     Bt 1440 900 0 V4L2_DV_HSYNC_POS_POL 182750000 48 32 80 3 6 44 0 0 0
     (V4L2_DV_BT_STD_DMT .| V4L2_DV_BT_STD_CVT) V4L2_DV_FL_REDUCED_BLANKING (0, 0) 0 0);
  (Mode DMT 1600 900 V4L2_DV_PROGRESSIVE 6000 true,
     Bt 1600 900 0 (V4L2_DV_HSYNC_POS_POL .| V4L2_DV_VSYNC_POS_POL) 108000000 24 80 96 1 3 96
     0 0 0 V4L2_DV_BT_STD_DMT V4L2_DV_FL_REDUCED_BLANKING (0, 0) 0 0);
  (Mode DMT 1600 1200 V4L2_DV_PROGRESSIVE 6000 false,
     Bt 1600 1200 0 (V4L2_DV_HSYNC_POS_POL .| V4L2_DV_VSYNC_POS_POL) 162000000 64 192 304 1 3
     46 0 0 0 V4L2_DV_BT_STD_DMT 0 (0, 0) 0 0);
  (Mode DMT 1600 1200 V4L2_DV_PROGRESSIVE 6500 false,
     Bt 1600 1200 0 (V4L2_DV_HSYNC_POS_POL .| V4L2_DV_VSYNC_POS_POL) 175500000 64 192 304 1 3
     46 0 0 0 V4L2_DV_BT_STD_DMT 0 (0, 0) 0 0);
  (Mode DMT 1600 1200 V4L2_DV_PROGRESSIVE 7000 false,
     Bt 1600 1200 0 (V4L2_DV_HSYNC_POS_POL .| V4L2_DV_VSYNC_POS_POL) 189000000 64 192 304 1 3
     46 0 0 0 V4L2_DV_BT_STD_DMT 0 (0, 0) 0 0);
  (Mode DMT 1600 1200 V4L2_DV_PROGRESSIVE 7500 false,
     Bt 1600 1200 0 (V4L2_DV_HSYNC_POS_POL .| V4L2_DV_VSYNC_POS_POL) 202500000 64 192 304 1 3
     46 0 0 0 V4L2_DV_BT_STD_DMT 0 (0, 0) 0 0);
  (Mode DMT 1600 1200 V4L2_DV_PROGRESSIVE 8500 false,
     Bt 1600 1200 0 (V4L2_DV_HSYNC_POS_POL .| V4L2_DV_VSYNC_POS_POL) 229500000 64 192 304 1 3
     46 0 0 0 V4L2_DV_BT_STD_DMT 0 (0, 0) 0 0)
].

(** [V4L2_DV_BT_DMT_1600X1200P120_RB] to [V4L2_DV_BT_DMT_1920X1440P75] *)
Definition timings_dmt_4 : list (mode * v4l2_bt_timings) := [
  (Mode DMT 1600 1200 V4L2_DV_PROGRESSIVE 12000 true,
     Bt 1600 1200 0 V4L2_DV_HSYNC_POS_POL 268250000 48 32 80 3 4 64 0 0 0
     (V4L2_DV_BT_STD_DMT .| V4L2_DV_BT_STD_CVT) V4L2_DV_FL_REDUCED_BLANKING (0, 0) 0 0);
  (Mode DMT 1680 1050 V4L2_DV_PROGRESSIVE 6000 true,
     Bt 1680 1050 0 V4L2_DV_HSYNC_POS_POL 119000000 48 32 80 3 6 21 0 0 0
     (V4L2_DV_BT_STD_DMT .| V4L2_DV_BT_STD_CVT) V4L2_DV_FL_REDUCED_BLANKING (0, 0) 0 0);
  (Mode DMT 1680 1050 V4L2_DV_PROGRESSIVE 6000 false,
     Bt 1680 1050 0 V4L2_DV_VSYNC_POS_POL 146250000 104 176 280 3 6 30 0 0 0
     (V4L2_DV_BT_STD_DMT .| V4L2_DV_BT_STD_CVT) 0 (0, 0) 0 0);
  (Mode DMT 1680 1050 V4L2_DV_PROGRESSIVE 7500 false,
     Bt 1680 1050 0 V4L2_DV_VSYNC_POS_POL 187000000 120 176 296 3 6 40 0 0 0
     (V4L2_DV_BT_STD_DMT .| V4L2_DV_BT_STD_CVT) 0 (0, 0) 0 0);
  (Mode DMT 1680 1050 V4L2_DV_PROGRESSIVE 8500 false,
     Bt 1680 1050 0 V4L2_DV_VSYNC_POS_POL 214750000 128 176 304 3 6 46 0 0 0
     (V4L2_DV_BT_STD_DMT .| V4L2_DV_BT_STD_CVT) 0 (0, 0) 0 0);
  (Mode DMT 1680 1050 V4L2_DV_PROGRESSIVE 12000 true,
     Bt 1680 1050 0 V4L2_DV_HSYNC_POS_POL 245500000 48 32 80 3 6 53 0 0 0
     (V4L2_DV_BT_STD_DMT .| V4L2_DV_BT_STD_CVT) V4L2_DV_FL_REDUCED_BLANKING (0, 0) 0 0);
  (Mode DMT 1792 1344 V4L2_DV_PROGRESSIVE 6000 false,
     Bt 1792 1344 0 V4L2_DV_VSYNC_POS_POL 204750000 128 200 328 1 3 46 0 0 0
     V4L2_DV_BT_STD_DMT 0 (0, 0) 0 0);
  (Mode DMT 1792 1344 V4L2_DV_PROGRESSIVE 7500 false,
     Bt 1792 1344 0 V4L2_DV_VSYNC_POS_POL 261000000 96 216 352 1 3 69 0 0 0
     V4L2_DV_BT_STD_DMT 0 (0, 0) 0 0);
  (Mode DMT 1792 1344 V4L2_DV_PROGRESSIVE 12000 true,
     Bt 1792 1344 0 V4L2_DV_HSYNC_POS_POL 333250000 48 32 80 3 4 72 0 0 0
     (V4L2_DV_BT_STD_DMT .| V4L2_DV_BT_STD_CVT) V4L2_DV_FL_REDUCED_BLANKING (0, 0) 0 0);
  (Mode DMT 1856 1392 V4L2_DV_PROGRESSIVE 6000 false,
     Bt 1856 1392 0 V4L2_DV_VSYNC_POS_POL 218250000 96 224 352 1 3 43 0 0 0
     V4L2_DV_BT_STD_DMT 0 (0, 0) 0 0);
  (Mode DMT 1856 1392 V4L2_DV_PROGRESSIVE 7500 false,
     Bt 1856 1392 0 V4L2_DV_VSYNC_POS_POL 288000000 128 224 352 1 3 104 0 0 0
     V4L2_DV_BT_STD_DMT 0 (0, 0) 0 0);
  (Mode DMT 1856 1392 V4L2_DV_PROGRESSIVE 12000 true,
     Bt 1856 1392 0 V4L2_DV_HSYNC_POS_POL 356500000 48 32 80 3 4 75 0 0 0
     (V4L2_DV_BT_STD_DMT .| V4L2_DV_BT_STD_CVT) V4L2_DV_FL_REDUCED_BLANKING (0, 0) 0 0);
  (Mode DMT 1920 1200 V4L2_DV_PROGRESSIVE 6000 true,
     Bt 1920 1200 0 V4L2_DV_HSYNC_POS_POL 154000000 48 32 80 3 6 26 0 0 0
     (V4L2_DV_BT_STD_DMT .| V4L2_DV_BT_STD_CVT) V4L2_DV_FL_REDUCED_BLANKING (0, 0) 0 0);
  (Mode DMT 1920 1200 V4L2_DV_PROGRESSIVE 6000 false,
     Bt 1920 1200 0 V4L2_DV_VSYNC_POS_POL 193250000 136 200 336 3 6 36 0 0 0
     (V4L2_DV_BT_STD_DMT .| V4L2_DV_BT_STD_CVT) 0 (0, 0) 0 0);
  (Mode DMT 1920 1200 V4L2_DV_PROGRESSIVE 7500 false,
     Bt 1920 1200 0 V4L2_DV_VSYNC_POS_POL 245250000 136 208 344 3 6 46 0 0 0
     (V4L2_DV_BT_STD_DMT .| V4L2_DV_BT_STD_CVT) 0 (0, 0) 0 0);
  (Mode DMT 1920 1200 V4L2_DV_PROGRESSIVE 8500 false,
     Bt 1920 1200 0 V4L2_DV_VSYNC_POS_POL 281250000 144 208 352 3 6 53 0 0 0
     (V4L2_DV_BT_STD_DMT .| V4L2_DV_BT_STD_CVT) 0 (0, 0) 0 0);
  (Mode DMT 1920 1200 V4L2_DV_PROGRESSIVE 12000 true,
     Bt 1920 1200 0 V4L2_DV_HSYNC_POS_POL 317000000 48 32 80 3 6 62 0 0 0
     (V4L2_DV_BT_STD_DMT .| V4L2_DV_BT_STD_CVT) V4L2_DV_FL_REDUCED_BLANKING (0, 0) 0 0);
  (Mode DMT 1920 1440 V4L2_DV_PROGRESSIVE 6000 false,
     Bt 1920 1440 0 V4L2_DV_VSYNC_POS_POL 234000000 128 208 344 1 3 56 0 0 0
     V4L2_DV_BT_STD_DMT 0 (0, 0) 0 0);
  (Mode DMT 1920 1440 V4L2_DV_PROGRESSIVE 7500 false,
     Bt 1920 1440 0 V4L2_DV_VSYNC_POS_POL 297000000 144 224 352 1 3 56 0 0 0
     V4L2_DV_BT_STD_DMT 0 (0, 0) 0 0)
].

(** [V4L2_DV_BT_DMT_1920X1440P120_RB] to [V4L2_DV_BT_DMT_4096X2160P59_94_RB] *)
Definition timings_dmt_5 : list (mode * v4l2_bt_timings) := [
  (Mode DMT 1920 1440 V4L2_DV_PROGRESSIVE 12000 true,
     Bt 1920 1440 0 V4L2_DV_HSYNC_POS_POL 380500000 48 32 80 3 4 78 0 0 0
     (V4L2_DV_BT_STD_DMT .| V4L2_DV_BT_STD_CVT) V4L2_DV_FL_REDUCED_BLANKING (0, 0) 0 0);
  (Mode DMT 2048 1152 V4L2_DV_PROGRESSIVE 6000 true,
     Bt 2048 1152 0 (V4L2_DV_HSYNC_POS_POL .| V4L2_DV_VSYNC_POS_POL) 162000000 26 80 96 1 3
     44 0 0 0 V4L2_DV_BT_STD_DMT V4L2_DV_FL_REDUCED_BLANKING (0, 0) 0 0);
  (Mode DMT 2560 1600 V4L2_DV_PROGRESSIVE 6000 true,
     Bt 2560 1600 0 V4L2_DV_HSYNC_POS_POL 268500000 48 32 80 3 6 37 0 0 0
     (V4L2_DV_BT_STD_DMT .| V4L2_DV_BT_STD_CVT) V4L2_DV_FL_REDUCED_BLANKING (0, 0) 0 0);
  (Mode DMT 2560 1600 V4L2_DV_PROGRESSIVE 6000 false,
     Bt 2560 1600 0 V4L2_DV_VSYNC_POS_POL 348500000 192 280 472 3 6 49 0 0 0
     (V4L2_DV_BT_STD_DMT .| V4L2_DV_BT_STD_CVT) 0 (0, 0) 0 0);
  (Mode DMT 2560 1600 V4L2_DV_PROGRESSIVE 7500 false,
     Bt 2560 1600 0 V4L2_DV_VSYNC_POS_POL 443250000 208 280 488 3 6 63 0 0 0
     (V4L2_DV_BT_STD_DMT .| V4L2_DV_BT_STD_CVT) 0 (0, 0) 0 0);
  (Mode DMT 2560 1600 V4L2_DV_PROGRESSIVE 8500 false,
     Bt 2560 1600 0 V4L2_DV_VSYNC_POS_POL 505250000 208 280 488 3 6 73 0 0 0
     (V4L2_DV_BT_STD_DMT .| V4L2_DV_BT_STD_CVT) 0 (0, 0) 0 0);
  (Mode DMT 2560 1600 V4L2_DV_PROGRESSIVE 12000 true,
     Bt 2560 1600 0 V4L2_DV_HSYNC_POS_POL 552750000 48 32 80 3 6 85 0 0 0
     (V4L2_DV_BT_STD_DMT .| V4L2_DV_BT_STD_CVT) V4L2_DV_FL_REDUCED_BLANKING (0, 0) 0 0);
  (Mode DMT 4096 2160 V4L2_DV_PROGRESSIVE 6000 true,
     Bt 4096 2160 0 V4L2_DV_HSYNC_POS_POL 556744000 8 32 40 48 8 6 0 0 0
     (V4L2_DV_BT_STD_DMT .| V4L2_DV_BT_STD_CVT) V4L2_DV_FL_REDUCED_BLANKING (0, 0) 0 0);
  (Mode DMT 4096 2160 V4L2_DV_PROGRESSIVE 5994 true,
     Bt 4096 2160 0 V4L2_DV_HSYNC_POS_POL 556188000 8 32 40 48 8 6 0 0 0
     (V4L2_DV_BT_STD_DMT .| V4L2_DV_BT_STD_CVT) V4L2_DV_FL_REDUCED_BLANKING (0, 0) 0 0)
].

(** [V4L2_DV_BT_SDI_720X487I60] *)
Definition timings_sdi_1 : list (mode * v4l2_bt_timings) := [
  (Mode SDI 720 487 V4L2_DV_INTERLACED 6000 false,
     Bt 720 487 1 V4L2_DV_HSYNC_POS_POL 13500000 16 121 0 0 19 0 0 19 0 V4L2_DV_BT_STD_SDI
     V4L2_DV_FL_FIRST_FIELD_EXTRA_LINE (0, 0) 0 0)
].

Definition timings : list (mode * v4l2_bt_timings) :=
  timings_cea_1 ++ timings_cea_2 ++ timings_dmt_1 ++ timings_dmt_2 ++ timings_dmt_3 ++ timings_dmt_4 ++ timings_dmt_5 ++ timings_sdi_1.

(** * Theorems *)

Definition has (x flag : Z) : bool := truth (x .& flag).

(** The rate of frames, and the rate of fields of an interlaced timing, against
    [rate] hundredths of a hertz, to within [1.2%]. *)
Definition rate_close (bt : v4l2_bt_timings) (fields rate : Z) : bool :=
  let total := V4L2_DV_BT_FRAME_WIDTH bt * V4L2_DV_BT_FRAME_HEIGHT bt in
  Z.abs (100 * fields * pixelclock bt - rate * total) * 1000 <=? 12 * (rate * total).

(** VESA names its only interlaced mode after the rate of its frames. *)
Definition named_by_frames (m : mode) : bool :=
  bool_decide (m_standard m = DMT) && (m_scan m =? V4L2_DV_INTERLACED).

Definition name_matches (e : mode * v4l2_bt_timings) : bool :=
  let '(m, bt) := e in
  (width bt =? m_width m) && (height bt =? m_height m) && (interlaced bt =? m_scan m) &&
  rate_close bt (if (m_scan m =? V4L2_DV_INTERLACED) && negb (named_by_frames m) then 2 else 1) (m_rate m) &&
  has (standards bt)
    match m_standard m with CEA => V4L2_DV_BT_STD_CEA861 | DMT => V4L2_DV_BT_STD_DMT | SDI => V4L2_DV_BT_STD_SDI end &&
  Bool.eqb (has (flags bt) V4L2_DV_FL_REDUCED_BLANKING) (m_reduced m).

(** Every timing has the active size, the scan, the standard and the blanking
    that its name says, and its pixel clock over the size of its whole frame is
    the rate that its name says, to within 1.2 percent. *)
Theorem timings_match_names : Forall (λ e, name_matches e = true) timings.
Proof. apply (bool_decide_unpack _). by vm_compute. Qed.

(** What the comments on the flags say, apart from [V4L2_DV_FL_IS_CE_VIDEO]: an
    identification code or an aspect ratio is there when its flag says so, formats
    of CEA-861 are those with a code, those of them with a rate that is a multiple
    of six can be slowed down, progressive timings have no second field and the
    two fields of a half-line timing differ by one line. *)
Definition flags_consistent (e : mode * v4l2_bt_timings) : bool :=
  let '(m, bt) := e in
  let fl := flags bt in
  let cea := has (standards bt) V4L2_DV_BT_STD_CEA861 in
  Bool.eqb (has fl V4L2_DV_FL_HAS_CEA861_VIC) (truth (cea861_vic bt)) &&
  Bool.eqb cea (truth (cea861_vic bt)) &&
  Bool.eqb (has fl V4L2_DV_FL_HAS_HDMI_VIC) (truth (hdmi_vic bt)) &&
  Bool.eqb (has fl V4L2_DV_FL_HAS_PICTURE_ASPECT) (truth (picture_aspect bt).1) &&
  Bool.eqb (has fl V4L2_DV_FL_CAN_REDUCE_FPS) (cea && (m_rate m mod 600 =? 0)) &&
  negb (has fl V4L2_DV_FL_REDUCED_FPS) &&
  implb (interlaced bt =? V4L2_DV_PROGRESSIVE)
    ((il_vfrontporch bt =? 0) && (il_vsync bt =? 0) && (il_vbackporch bt =? 0)) &&
  implb (has fl V4L2_DV_FL_HALF_LINE)
    ((interlaced bt =? V4L2_DV_INTERLACED) &&
     (il_vfrontporch bt + il_vsync bt + il_vbackporch bt =?
      vfrontporch bt + vsync bt + vbackporch bt + 1)).

(** The flags of every timing are consistent with its other members as the
    comments in [videodev2.h] describe them, and no two timings share an
    identification code. *)
Theorem timings_flags_consistent :
  Forall (λ e, flags_consistent e = true) timings ∧
  NoDup (filter (λ v, v ≠ 0) ((λ e, cea861_vic e.2) <$> timings)).
Proof. apply (bool_decide_unpack _). by vm_compute. Qed.

(** The comment on [V4L2_DV_FL_IS_CE_VIDEO]: all formats of CEA-861 except 640x480. *)
Definition ce_video_documented (bt : v4l2_bt_timings) : bool :=
  has (standards bt) V4L2_DV_BT_STD_CEA861 && negb ((width bt =? 640) && (height bt =? 480)).

(** The flag for consumer electronics video is set as its comment says, with
    one exception: [V4L2_DV_BT_CEA_1280X720P24] is a format of CEA-861 without
    it. *)
Theorem ce_video_exception :
  (filter (λ e, has (flags e.2) V4L2_DV_FL_IS_CE_VIDEO ≠ ce_video_documented e.2) timings).*1 =
  [Mode CEA 1280 720 V4L2_DV_PROGRESSIVE 2400 false].
Proof. by vm_compute. Qed.
