(* ===== verification/StlArray.v ===== *)
(** * Arrays of the C++ library's algorithms

    The algorithms of [bits/stl_heap.h], [bits/stl_algo.h] and
    [bits/stl_algobase.h] work on a range [first, last) of an array through random
    access iterators. The array is the list of its cells; a cell is [None] when its
    object has been moved from ([std::move]) and not assigned since. Iterators are
    positions in the array. Leaving the array is undefined, and so is comparing an
    object that has been moved from: its value is unspecified.

    Here are the accesses, the function objects of [bits/predefined_ops.h], loops,
    the weakest precondition with a result, and rearrangements of a range. *)
From stdpp Require Import base numbers list sorting.
From Stdlib Require Import ZArith Lia.
From S2P Require Import Prelude.

Create HintDb stl.

(** * Cells by position *)

Definition nthZ {B} (l : list B) (i : Z) : option B :=
  if i <? 0 then None else l !! Z.to_nat i.

Definition updZ {B} (l : list B) (i : Z) (v : B) : list B := <[Z.to_nat i := v]> l.

Definition zlen {B} (l : list B) : Z := Z.of_nat (length l).

Lemma nthZ_Some {B} (l : list B) i v : nthZ l i = Some v → 0 <= i < zlen l.
Proof.
  unfold nthZ, zlen. destruct (Z.ltb_spec i 0); [done|].
  intros ?%lookup_lt_Some. lia.
Qed.

Lemma nthZ_is_Some {B} (l : list B) i : 0 <= i < zlen l → ∃ v, nthZ l i = Some v.
Proof.
  unfold nthZ, zlen. intros. destruct (Z.ltb_spec i 0); [lia|].
  apply lookup_lt_is_Some. lia.
Qed.

Lemma zlen_updZ {B} (l : list B) i v : zlen (updZ l i v) = zlen l.
Proof. unfold zlen, updZ. by rewrite length_insert. Qed.

Lemma nthZ_updZ_eq {B} (l : list B) i v : 0 <= i < zlen l → nthZ (updZ l i v) i = Some v.
Proof.
  unfold nthZ, updZ, zlen. intros. destruct (Z.ltb_spec i 0); [lia|].
  apply list_lookup_insert_eq. lia.
Qed.

Lemma nthZ_updZ_ne {B} (l : list B) i j v : 0 <= i → i ≠ j → nthZ (updZ l i v) j = nthZ l j.
Proof.
  unfold nthZ, updZ. intros. destruct (Z.ltb_spec j 0); [done|].
  apply list_lookup_insert_ne. lia.
Qed.

(** Exchanging the content of a cell with a value in hand. *)
Lemma updZ_exchange {B} (l : list B) i a b : nthZ l i = Some a → a :: updZ l i b ≡ₚ b :: l.
Proof.
  unfold nthZ, updZ. destruct (Z.ltb_spec i 0); [done|]. intros E.
  rewrite <- (take_drop_middle l (Z.to_nat i) a E) at 2.
  rewrite insert_take_drop by (by apply lookup_lt_Some in E).
  rewrite <- !Permutation_middle. constructor.
Qed.

Lemma updZ_restore {B} (l : list B) i v w : nthZ l i = Some v → updZ (updZ l i w) i v = l.
Proof.
  unfold nthZ, updZ. destruct (Z.ltb_spec i 0); [done|]. intros E.
  rewrite list_insert_insert_eq. by apply list_insert_id.
Qed.

Lemma updZ_updZ {B} (l : list B) i v w : updZ (updZ l i w) i v = updZ l i v.
Proof. apply list_insert_insert_eq. Qed.

Lemma updZ_comm {B} (l : list B) i j v w :
  0 <= i → 0 <= j → i ≠ j → updZ (updZ l i v) j w = updZ (updZ l j w) i v.
Proof. intros. unfold updZ. rewrite list_insert_insert_ne by lia. done. Qed.

(** * Accesses *)

Section Access.
Context {A : Type}.
Local Abbreviation arr := (list (option A)).

(** [*i] as a value, [std::move( *i)] and [*i = v]. *)
Definition deref (i : Z) : M arr (option A) := λ l,
  v ← nthZ l i; Some (v, l).
Definition move_from (i : Z) : M arr (option A) := λ l,
  v ← nthZ l i; Some (v, updZ l i None).
Definition assign (i : Z) (v : option A) : M arr unit := λ l,
  _ ← nthZ l i; Some (tt, updZ l i v).

(** [std::swap] on two cells, and [std::iter_swap]. *)
Definition swap (a b : Z) : M arr unit :=
  tmp ← move_from a;
  v ← move_from b;
  assign a v;;
  assign b tmp.
Definition iter_swap (a b : Z) : M arr unit := swap a b.

(** A comparison of two objects with the user's [comp]. *)
Variable comp : A → A → bool.

Definition compare (x y : option A) : M arr bool :=
  match x, y with
  | Some a, Some b => mret (comp a b)
  | _, _ => ub
  end.

Definition _Iter_comp_iter (i j : Z) : M arr bool :=
  x ← deref i; y ← deref j; compare x y.
Definition _Iter_comp_val (i : Z) (v : option A) : M arr bool :=
  x ← deref i; compare x v.
Definition _Val_comp_iter (v : option A) (i : Z) : M arr bool :=
  x ← deref i; compare v x.
End Access.

(** * Loops

    [while body x] repeats [body] on the local variables [x] until it leaves the
    loop ([inr]). It is given one iteration more than the array has cells; a loop
    that would run longer is undefined here. *)

Fixpoint iterate {S X Y} (fuel : nat) (body : X → M S (X + Y)) (x : X) : M S Y :=
  match fuel with
  | O => ub
  | Datatypes.S n =>
      r ← body x;
      match r with
      | inl x' => iterate n body x'
      | inr y => mret y
      end
  end.

Definition while {B X Y} (body : X → M (list B) (X + Y)) (x : X) : M (list B) Y :=
  λ l, iterate (Datatypes.S (length l)) body x l.

(** Division of signed integers, which truncates. *)
Definition cdiv (x y : Z) : Z := Z.quot x y.

Lemma cdiv_div x y : 0 <= x → 0 < y → cdiv x y = x / y.
Proof. intros. unfold cdiv. by apply Z.quot_div_nonneg. Qed.

Lemma and_1 x : x .& 1 = x mod 2.
Proof. apply (and_mod x 1). lia. Qed.

(** * Weakest precondition with a result *)

Definition wpr {S A} (m : M S A) (Q : A → S → Prop) (s : S) : Prop :=
  match m s with
  | Some (a, s') => Q a s'
  | None => False
  end.

Section Wpr.
Context {S : Type}.
Implicit Types s : S.

Lemma wpr_ret {A} (a : A) (Q : A → S → Prop) s : Q a s → wpr (mret a) Q s.
Proof. done. Qed.

Lemma wpr_bind {A B} (m : M S A) (k : A → M S B) (Q : B → S → Prop) s :
  wpr m (λ a s', wpr (k a) Q s') s → wpr (m ≫= k) Q s.
Proof. unfold wpr, mbind, M_bind. by destruct (m s) as [[a s']|]. Qed.

Lemma wpr_mono {A} (m : M S A) (P Q : A → S → Prop) s :
  wpr m P s → (∀ a s', P a s' → Q a s') → wpr m Q s.
Proof. unfold wpr. destruct (m s) as [[a s']|]; eauto. Qed.

Lemma wpr_run {A} (m : M S A) (Q : A → S → Prop) s :
  wpr m Q s → ∃ a s', m s = Some (a, s') ∧ Q a s'.
Proof. unfold wpr. destruct (m s) as [[a s']|]; [eauto|done]. Qed.

(** A loop whose body keeps [I] and decreases [size] ends in [Q]. *)
Lemma wpr_iterate {X Y} (I : X → S → Prop) (size : X → Z) (body : X → M S (X + Y))
    (Q : Y → S → Prop) fuel x s :
  (∀ x s, I x s → 0 <= size x ∧
    wpr (body x) (λ r s', match r with
                          | inl x' => I x' s' ∧ size x' < size x
                          | inr y => Q y s'
                          end) s) →
  I x s → size x < Z.of_nat fuel → wpr (iterate fuel body x) Q s.
Proof.
  intros Hbody. revert x s. induction fuel as [|fuel IH]; intros x s Hx Hf.
  { destruct (Hbody x s Hx). lia. }
  apply wpr_bind. destruct (Hbody x s Hx) as [H0 Hb].
  eapply wpr_mono; [exact Hb|]. intros [x'|y] s'; cbn; [|by apply wpr_ret].
  intros [Hx' ?]. apply IH; [done|lia].
Qed.
End Wpr.

Lemma wpr_bind_bind {S A B C} (m : M S A) (k : A → M S B) (k' : B → M S C) Q s :
  wpr ((m ≫= k) ≫= k') Q s ↔ wpr (m ≫= λ a, k a ≫= k') Q s.
Proof. unfold wpr, mbind, M_bind. by destruct (m s) as [[]|]. Qed.

Lemma wpr_while {B X Y} (I : X → list B → Prop) (size : X → Z)
    (body : X → M (list B) (X + Y)) (Q : Y → list B → Prop) x l :
  (∀ x l, I x l → 0 <= size x ∧
    wpr (body x) (λ r l', match r with
                          | inl x' => I x' l' ∧ size x' < size x
                          | inr y => Q y l'
                          end) l) →
  I x l → size x <= zlen l → wpr (while body x) Q l.
Proof.
  intros Hb Hx Hs. unfold while, wpr. apply (wpr_iterate I size); [done..|].
  unfold zlen in Hs. lia.
Qed.

(** * Cells that hold a value *)

Section Cells.
Context {A : Type}.
Local Abbreviation arr := (list (option A)).
Implicit Types l : arr.

(** Cell [i] holds [a]. *)
Definition holds l (i : Z) (a : A) : Prop := nthZ l i = Some (Some a).

(** Every cell of the range holds a value. *)
Definition full l (lo hi : Z) : Prop := ∀ i, lo <= i < hi → ∃ a, holds l i a.

Lemma holds_range l i a : holds l i a → 0 <= i < zlen l.
Proof. apply nthZ_Some. Qed.

Lemma holds_fun l i a b : holds l i a → holds l i b → a = b.
Proof. unfold holds. congruence. Qed.

Lemma holds_updZ l i v j a :
  0 <= i → holds (updZ l i v) j a → (j = i ∧ v = Some a) ∨ (j ≠ i ∧ holds l j a).
Proof.
  intros Hi. unfold holds. destruct (decide (i = j)) as [<-|].
  - intros E. assert (0 <= i < zlen l).
    { rewrite <- (zlen_updZ l i v). by eapply nthZ_Some. }
    rewrite nthZ_updZ_eq in E by done. left. naive_solver.
  - rewrite nthZ_updZ_ne by done. right. naive_solver.
Qed.

Lemma holds_updZ_eq l i a : 0 <= i < zlen l → holds (updZ l i (Some a)) i a.
Proof. apply nthZ_updZ_eq. Qed.

Lemma holds_updZ_ne l i v j a : 0 <= i → i ≠ j → holds l j a → holds (updZ l i v) j a.
Proof. intros. unfold holds. by rewrite nthZ_updZ_ne. Qed.

Lemma full_sub l lo hi lo' hi' : full l lo hi → lo <= lo' → hi' <= hi → full l lo' hi'.
Proof. intros H ?? i ?. apply H. lia. Qed.

(** ** Rules *)

Lemma wpr_deref l i v (Q : option A → arr → Prop) :
  nthZ l i = Some v → Q v l → wpr (deref i) Q l.
Proof. unfold wpr, deref. by intros ->. Qed.

Lemma wpr_move_from l i v (Q : option A → arr → Prop) :
  nthZ l i = Some v → Q v (updZ l i None) → wpr (move_from i) Q l.
Proof. unfold wpr, move_from. by intros ->. Qed.

Lemma wpr_assign l i v (Q : unit → arr → Prop) :
  0 <= i < zlen l → Q tt (updZ l i v) → wpr (assign i v) Q l.
Proof. intros [w E]%nthZ_is_Some. unfold wpr, assign. by rewrite E. Qed.

Lemma wpr_compare (comp : A → A → bool) l a b (Q : bool → arr → Prop) :
  Q (comp a b) l → wpr (compare comp (Some a) (Some b)) Q l.
Proof. done. Qed.

Lemma wpr_iter_iter (comp : A → A → bool) l i j a b (Q : bool → arr → Prop) :
  holds l i a → holds l j b → Q (comp a b) l → wpr (_Iter_comp_iter comp i j) Q l.
Proof.
  intros Hi Hj HQ. apply wpr_bind, (wpr_deref _ _ _ _ Hi), wpr_bind, (wpr_deref _ _ _ _ Hj).
  by apply wpr_compare.
Qed.

Lemma wpr_iter_val (comp : A → A → bool) l i a b (Q : bool → arr → Prop) :
  holds l i a → Q (comp a b) l → wpr (_Iter_comp_val comp i (Some b)) Q l.
Proof. intros Hi HQ. apply wpr_bind, (wpr_deref _ _ _ _ Hi). by apply wpr_compare. Qed.

Lemma wpr_val_iter (comp : A → A → bool) l i a b (Q : bool → arr → Prop) :
  holds l i b → Q (comp a b) l → wpr (_Val_comp_iter comp (Some a) i) Q l.
Proof. intros Hi HQ. apply wpr_bind, (wpr_deref _ _ _ _ Hi). by apply wpr_compare. Qed.

Lemma wpr_iter_swap l i j a b (Q : unit → arr → Prop) :
  i ≠ j → holds l i a → holds l j b → Q tt (updZ (updZ l i (Some b)) j (Some a)) →
  wpr (iter_swap i j) Q l.
Proof.
  intros ? Ha Hb HQ. pose proof (holds_range _ _ _ Ha). pose proof (holds_range _ _ _ Hb).
  apply wpr_bind, (wpr_move_from _ _ _ _ Ha), wpr_bind, (wpr_move_from _ _ (Some b)).
  { apply holds_updZ_ne; [lia..|done]. }
  apply wpr_bind, wpr_assign; [by rewrite !zlen_updZ|].
  apply wpr_assign; [by rewrite !zlen_updZ|].
  by rewrite (updZ_comm (updZ l i None)), !updZ_updZ by lia.
Qed.

(** Swapping an object with itself leaves it as it was. *)
Lemma wpr_iter_swap_self l i a (Q : unit → arr → Prop) :
  holds l i a → Q tt l → wpr (iter_swap i i) Q l.
Proof.
  intros Ha HQ. pose proof (holds_range _ _ _ Ha).
  apply wpr_bind, (wpr_move_from _ _ _ _ Ha), wpr_bind, (wpr_move_from _ _ None).
  { by apply nthZ_updZ_eq. }
  apply wpr_bind, wpr_assign; [by rewrite !zlen_updZ|].
  apply wpr_assign; [by rewrite !zlen_updZ|].
  rewrite !updZ_updZ. by rewrite <- (updZ_restore l i (Some a) None), updZ_updZ in HQ.
Qed.

(** * Rearrangements

    [rearranged lo hi l l']: [l'] has the cells of [l] in another order, and
    only those from [lo] to [hi] have changed. *)

Definition rearranged (lo hi : Z) l l' : Prop :=
  l' ≡ₚ l ∧ ∀ i, ¬ (lo <= i < hi) → nthZ l' i = nthZ l i.

Lemma rearranged_refl lo hi l : rearranged lo hi l l.
Proof. done. Qed.

Lemma rearranged_trans lo hi l1 l2 l3 :
  rearranged lo hi l1 l2 → rearranged lo hi l2 l3 → rearranged lo hi l1 l3.
Proof.
  intros [H1 E1] [H2 E2]. split; [by rewrite H2|].
  intros i Hi. by rewrite E2, E1.
Qed.

Lemma rearranged_sym lo hi l l' : rearranged lo hi l l' → rearranged lo hi l' l.
Proof. intros [H E]. split; [by symmetry|]. intros i Hi. by rewrite E. Qed.

Lemma rearranged_widen lo hi lo' hi' l l' :
  rearranged lo hi l l' → lo' <= lo → hi <= hi' → rearranged lo' hi' l l'.
Proof. intros [H E] ??. split; [done|]. intros i Hi. apply E. lia. Qed.

Lemma rearranged_length lo hi l l' : rearranged lo hi l l' → zlen l' = zlen l.
Proof. intros [H _]. unfold zlen. by rewrite H. Qed.

Lemma rearranged_outside lo hi l l' i a :
  rearranged lo hi l l' → ¬ (lo <= i < hi) → holds l i a ↔ holds l' i a.
Proof. intros [_ E] Hi. unfold holds. by rewrite E. Qed.

(** The cells of a range as a list. *)
Definition range (lo hi : Z) l : arr := take (Z.to_nat (hi - lo)) (drop (Z.to_nat lo) l).

Lemma range_split lo hi l :
  0 <= lo <= hi → hi <= zlen l →
  l = take (Z.to_nat lo) l ++ range lo hi l ++ drop (Z.to_nat hi) l.
Proof.
  intros. unfold range. rewrite <- (take_drop (Z.to_nat lo) l) at 1. f_equal.
  rewrite <- (take_drop (Z.to_nat (hi - lo)) (drop (Z.to_nat lo) l)) at 1. f_equal.
  rewrite drop_drop. f_equal. lia.
Qed.

Lemma range_elem lo hi l v :
  0 <= lo <= hi → hi <= zlen l →
  v ∈ range lo hi l ↔ ∃ i, lo <= i < hi ∧ nthZ l i = Some v.
Proof.
  intros Hlo Hhi. unfold range, zlen in *. rewrite list_elem_of_lookup. split.
  - intros [k E]. apply lookup_take_Some in E as [E ?]. rewrite lookup_drop in E.
    exists (lo + Z.of_nat k). split; [lia|]. unfold nthZ.
    destruct (Z.ltb_spec (lo + Z.of_nat k) 0); [lia|]. rewrite <- E. f_equal. lia.
  - intros (i & Hi & E). exists (Z.to_nat (i - lo)). apply lookup_take_Some.
    split; [|lia]. rewrite lookup_drop. unfold nthZ in E.
    destruct (Z.ltb_spec i 0); [done|]. rewrite <- E. f_equal. lia.
Qed.

Lemma rearranged_frame lo hi l l' :
  0 <= lo <= hi → rearranged lo hi l l' →
  take (Z.to_nat lo) l' = take (Z.to_nat lo) l ∧ drop (Z.to_nat hi) l' = drop (Z.to_nat hi) l.
Proof.
  intros Hlo [_ E].
  assert (∀ i : nat, ¬ (lo <= Z.of_nat i < hi) → l' !! i = l !! i) as E'.
  { intros i Hi. specialize (E (Z.of_nat i) Hi). unfold nthZ in E.
    destruct (Z.ltb_spec (Z.of_nat i) 0); [lia|]. by rewrite Nat2Z.id in E. }
  split; apply list_eq; intros i.
  - destruct (decide (i < Z.to_nat lo)%nat).
    + rewrite !lookup_take_lt by done. apply E'. lia.
    + by rewrite !lookup_take_ge by lia.
  - rewrite !lookup_drop. apply E'. lia.
Qed.

Lemma rearranged_split lo hi l l' :
  0 <= lo <= hi → hi <= zlen l → rearranged lo hi l l' →
  l' = take (Z.to_nat lo) l ++ range lo hi l' ++ drop (Z.to_nat hi) l.
Proof.
  intros ?? Hr. pose proof (rearranged_length _ _ _ _ Hr).
  destruct (rearranged_frame lo hi l l') as [<- <-]; [done..|].
  apply range_split; lia.
Qed.

Lemma rearranged_range lo hi l l' :
  0 <= lo <= hi → hi <= zlen l → rearranged lo hi l l' → range lo hi l' ≡ₚ range lo hi l.
Proof.
  intros Hlo Hhi Hr.
  apply (Permutation_app_inv_r (drop (Z.to_nat hi) l)), (Permutation_app_inv_l (take (Z.to_nat lo) l)).
  rewrite <- range_split, <- rearranged_split by done. apply Hr.
Qed.

(** What holds of all values of a range holds of them after a rearrangement. *)
Lemma rearranged_values lo hi l l' (P : option A → Prop) :
  0 <= lo → rearranged lo hi l l' →
  (∀ i v, lo <= i < hi → nthZ l i = Some v → P v) →
  ∀ i v, lo <= i < hi → nthZ l' i = Some v → P v.
Proof.
  intros Hlo Hr HP i v Hi E.
  pose proof (rearranged_length _ _ _ _ Hr) as Hlen.
  pose proof (nthZ_Some _ _ _ E) as Hi'.
  set (hi' := Z.min hi (zlen l)).
  assert (rearranged lo hi' l l') as Hr'.
  { destruct Hr as [Hp Eo]. split; [done|]. intros k Hk.
    destruct (decide (lo <= k < hi)); [|by apply Eo].
    assert (∀ l'' : arr, zlen l'' = zlen l → nthZ l'' k = None) as En.
    { intros l'' Hl''. destruct (nthZ l'' k) eqn:E'; [|done]. apply nthZ_Some in E'. lia. }
    by rewrite !En. }
  assert (v ∈ range lo hi' l') as Hin.
  { apply range_elem; [lia..|]. exists i. split; [lia|done]. }
  rewrite (rearranged_range lo hi' l l') in Hin by (done || lia).
  apply range_elem in Hin as (k & Hk & Ek); [|lia..]. apply (HP k); [lia|done].
Qed.

Lemma rearranged_holds lo hi l l' (P : A → Prop) :
  0 <= lo → rearranged lo hi l l' →
  (∀ i a, lo <= i < hi → holds l i a → P a) → ∀ i a, lo <= i < hi → holds l' i a → P a.
Proof.
  intros ? Hr HP i a Hi Ha.
  refine (rearranged_values lo hi l l' (λ v, ∀ a, v = Some a → P a) _ Hr _ i _ Hi Ha a eq_refl);
    [done|].
  intros i' v Hi' E a' ->. by apply (HP i').
Qed.

Lemma rearranged_full lo hi l l' :
  0 <= lo → hi <= zlen l → rearranged lo hi l l' → full l lo hi → full l' lo hi.
Proof.
  intros Hlo Hhi Hr Hf i Hi. pose proof (rearranged_length _ _ _ _ Hr) as Hlen.
  destruct (nthZ_is_Some l' i) as [v Ev]; [lia|].
  assert (is_Some v) as [a ->]; [|by exists a].
  eapply (rearranged_values lo hi l l' is_Some); eauto.
  intros j w Hj E. destruct (Hf j Hj) as [b Hb]. unfold holds in Hb.
  rewrite E in Hb. naive_solver.
Qed.

Lemma full_zlen l lo hi : full l lo hi → lo < hi → hi <= zlen l.
Proof. intros H ?. destruct (H (hi - 1)) as [a Ha%holds_range]; lia. Qed.

Lemma rearranged_swap lo hi l i j a b :
  0 <= lo → lo <= i < hi → lo <= j < hi → nthZ l i = Some a → nthZ l j = Some b →
  rearranged lo hi l (updZ (updZ l i b) j a).
Proof.
  intros ??? Ei Ej. split.
  - destruct (decide (i = j)) as [->|].
    { assert (a = b) as -> by congruence. by rewrite updZ_restore. }
    apply (Permutation_cons_inv (a := b)).
    rewrite updZ_exchange by (by rewrite nthZ_updZ_ne by lia).
    by apply updZ_exchange.
  - intros k Hk. by rewrite !nthZ_updZ_ne by lia.
Qed.

(** ** Values in hand

    [in_hand v l0 l]: the cells of [l0] are those of [l] and the value [v]
    that a local variable holds, with an object that has been moved from in its
    place. *)
Definition in_hand (v : option A) l0 l : Prop := v :: l ≡ₚ None :: l0.

Lemma in_hand_take l i v : nthZ l i = Some v → in_hand v l (updZ l i None).
Proof. intros. by apply updZ_exchange. Qed.

Lemma in_hand_put v l0 l i : nthZ l i = Some None → in_hand v l0 l → updZ l i v ≡ₚ l0.
Proof.
  unfold in_hand. intros Ei H. apply (Permutation_cons_inv (a := None)).
  by rewrite (updZ_exchange l i None v Ei).
Qed.

Lemma in_hand_move v l0 l i j w :
  nthZ l i = Some None → nthZ l j = Some w → i ≠ j → 0 <= j → in_hand v l0 l →
  in_hand v l0 (updZ (updZ l j None) i w).
Proof.
  unfold in_hand. intros Ei Ej ?? <-. constructor.
  apply (Permutation_cons_inv (a := None)).
  rewrite (updZ_exchange (updZ l j None) i None w) by (by rewrite nthZ_updZ_ne).
  by apply updZ_exchange.
Qed.

(** ** Arrays given by their values *)

Lemma nthZ_app_mid (pre post : arr) (xs : list A) i v :
  nthZ (pre ++ (Some <$> xs) ++ post) i = Some v →
  zlen pre <= i < zlen pre + zlen xs → ∃ a, v = Some a ∧ xs !! Z.to_nat (i - zlen pre) = Some a.
Proof.
  unfold nthZ, zlen. intros E ?. destruct (Z.ltb_spec i 0); [done|].
  rewrite lookup_app_r, lookup_app_l, list_lookup_fmap in E
    by (rewrite ?length_fmap; lia).
  replace (Z.to_nat i - length pre)%nat with (Z.to_nat (i - Z.of_nat (length pre))) in E by lia.
  destruct (xs !! _) eqn:Ex; naive_solver.
Qed.

Lemma holds_app_mid (pre post : arr) (xs : list A) (k : nat) a :
  holds (pre ++ (Some <$> xs) ++ post) (zlen pre + Z.of_nat k) a ↔
  xs !! k = Some a ∨ (length xs <= k)%nat ∧ post !! (k - length xs)%nat = Some (Some a).
Proof.
  unfold holds, nthZ, zlen. destruct (Z.ltb_spec (Z.of_nat (length pre) + Z.of_nat k) 0); [lia|].
  rewrite lookup_app_r by lia.
  replace (Z.to_nat (Z.of_nat (length pre) + Z.of_nat k) - length pre)%nat with k by lia.
  destruct (decide (k < length xs)%nat).
  - rewrite lookup_app_l, list_lookup_fmap by (rewrite length_fmap; lia).
    destruct (lookup_lt_is_Some_2 xs k) as [b Eb]; [done|]. rewrite Eb. naive_solver lia.
  - rewrite lookup_app_r, length_fmap by (rewrite length_fmap; lia).
    rewrite (lookup_ge_None_2 xs) by lia. naive_solver lia.
Qed.

Lemma full_app_mid (pre post : arr) (xs : list A) :
  full (pre ++ (Some <$> xs) ++ post) (zlen pre) (zlen pre + zlen xs).
Proof.
  intros i Hi. destruct (lookup_lt_is_Some_2 xs (Z.to_nat (i - zlen pre))) as [a Ha].
  { unfold zlen in *. lia. }
  exists a. replace i with (zlen pre + Z.of_nat (Z.to_nat (i - zlen pre))) by lia.
  apply holds_app_mid. by left.
Qed.

Lemma zlen_app_mid (pre post : arr) (xs : list A) :
  zlen (pre ++ (Some <$> xs) ++ post) = zlen pre + zlen xs + zlen post.
Proof. unfold zlen. rewrite !length_app, length_fmap. lia. Qed.

(** A rearrangement of the values in the middle of an array is another list of
    the same values. *)
Lemma rearranged_app_mid (pre post : arr) (xs : list A) l' :
  rearranged (zlen pre) (zlen pre + zlen xs) (pre ++ (Some <$> xs) ++ post) l' →
  ∃ ys, l' = pre ++ (Some <$> ys) ++ post ∧ ys ≡ₚ xs.
Proof.
  intros Hr. set (l := pre ++ (Some <$> xs) ++ post) in *.
  set (lo := zlen pre) in *. set (hi := lo + zlen xs) in *.
  assert (0 <= lo <= hi) by (unfold hi, lo, zlen; lia).
  assert (hi <= zlen l) by (unfold l; rewrite zlen_app_mid; unfold hi, lo, zlen; lia).
  assert (range lo hi l = Some <$> xs) as Er.
  { unfold range, l, hi, lo, zlen. rewrite Nat2Z.id, drop_app_length.
    replace (Z.to_nat _) with (length (Some <$> xs)) by (rewrite length_fmap; lia).
    apply take_app_length. }
  pose proof (rearranged_range lo hi l l' ltac:(lia) ltac:(lia) Hr) as Hp.
  rewrite Er in Hp. apply Permutation_map_inv in Hp as (ys & Ey & Hy).
  exists ys. split; [|done]. rewrite (rearranged_split lo hi l l'), Ey by (done || lia).
  f_equal; [by unfold l, lo, zlen; rewrite Nat2Z.id, take_app_length|]. f_equal.
  unfold l, hi, lo, zlen. rewrite app_assoc, drop_app_ge by (rewrite length_app, length_fmap; lia).
  rewrite length_app, length_fmap.
  replace (_ - _)%nat with O by lia. done.
Qed.

(** The run of a function that rearranges the middle of an array. *)
Lemma run_app_mid {B} (m : M arr B) (P : arr → Prop) (pre post : arr) (xs : list A) :
  wpr m (λ _ l', rearranged (zlen pre) (zlen pre + zlen xs) (pre ++ (Some <$> xs) ++ post) l' ∧
                 P l') (pre ++ (Some <$> xs) ++ post) →
  ∃ ys, run m (pre ++ (Some <$> xs) ++ post) = Some (pre ++ (Some <$> ys) ++ post) ∧
        ys ≡ₚ xs ∧ P (pre ++ (Some <$> ys) ++ post).
Proof.
  intros (b & l' & Em & Hr & HP)%wpr_run.
  destruct (rearranged_app_mid _ _ _ _ Hr) as (ys & -> & Hp).
  exists ys. split_and!; [by unfold run; rewrite Em|done|done].
Qed.

Lemma zlen_perm (xs ys : list A) : ys ≡ₚ xs → zlen ys = zlen xs.
Proof. unfold zlen. by intros ->. Qed.
End Cells.

#[export] Hint Resolve rearranged_refl : stl.

(** * Comparisons

    The requirement of the library on a comparison function: a strict weak
    order, that is, a strict order whose incomparability is transitive. *)

Class StrictWeakOrder {A} (comp : A → A → bool) : Prop := {
  swo_irreflexive a : comp a a = false;
  swo_transitive a b c : comp a b = true → comp b c = true → comp a c = true;
  swo_incomparable a b c :
    comp a b = false → comp b a = false → comp b c = false → comp c b = false →
    comp a c = false ∧ comp c a = false;
}.

Section Order.
Context {A : Type} (comp : A → A → bool) `{!StrictWeakOrder comp}.

(** [a] does not come after [b]. *)
Definition le (a b : A) : Prop := comp b a = false.

Lemma comp_le a b : comp a b = true → le a b.
Proof.
  unfold le. intros H. destruct (comp b a) eqn:E; [|done].
  rewrite <- (swo_irreflexive a). symmetry. by apply (swo_transitive a b a).
Qed.

Lemma not_comp_le a b : comp a b = false → le b a.
Proof. done. Qed.

#[export] Instance le_reflexive : Reflexive le.
Proof. intros a. apply swo_irreflexive. Qed.

#[export] Instance le_transitive : Transitive le.
Proof.
  intros a b c Hab Hbc. unfold le in *. destruct (comp c a) eqn:E; [|done].
  destruct (comp a b) eqn:E1.
  - pose proof (swo_transitive c a b E E1). congruence.
  - destruct (comp b c) eqn:E2.
    + pose proof (swo_transitive b c a E2 E). congruence.
    + destruct (swo_incomparable a b c); [done..|congruence].
Qed.

Lemma le_total a b : le a b ∨ le b a.
Proof. destruct (comp a b) eqn:E; [left; by apply comp_le|by right]. Qed.

(** The cells of a range are in order. *)
Definition sorted_range (l : list (option A)) (lo hi : Z) : Prop :=
  ∀ i j a b, lo <= i <= j → j < hi → holds l i a → holds l j b → le a b.

Lemma sorted_range_sub l lo hi lo' hi' :
  sorted_range l lo hi → lo <= lo' → hi' <= hi → sorted_range l lo' hi'.
Proof. intros H ?? i j a b ??. apply H; lia. Qed.

Lemma StronglySorted_lookup (ys : list A) :
  (∀ (i j : nat) a b, (i <= j)%nat → ys !! i = Some a → ys !! j = Some b → le a b) ↔
  StronglySorted le ys.
Proof.
  split.
  - induction ys as [|y ys IH]; intros H; constructor.
    + apply IH. intros i j a b ???. by apply (H (S i) (S j)); [lia|..].
    + apply Forall_forall. intros x [j Hj]%list_elem_of_lookup.
      by apply (H 0%nat (S j)); [lia|..].
  - induction 1 as [|y ys Hs IH Hy]; intros i j a b ? Hi Hj; [done|].
    destruct i as [|i], j as [|j]; cbn in Hi, Hj; simplify_eq; [done|..|lia|].
    + by apply (Forall_lookup_1 _ _ _ _ Hy Hj).
    + by apply (IH i j); [lia|..].
Qed.

Lemma sorted_app_mid (pre post : list (option A)) (ys : list A) :
  sorted_range (pre ++ (Some <$> ys) ++ post) (zlen pre) (zlen pre + zlen ys) ↔
  StronglySorted le ys.
Proof.
  rewrite <- StronglySorted_lookup. split.
  - intros H i j a b ? Hi Hj. pose proof (lookup_lt_Some _ _ _ Hj).
    apply (H (zlen pre + Z.of_nat i) (zlen pre + Z.of_nat j)); [lia|unfold zlen; lia|..];
      apply holds_app_mid; by left.
  - intros H i j a b ? Hj Ha Hb.
    destruct (nthZ_app_mid _ _ _ _ _ Ha) as (a' & [= <-] & Ea); [lia|].
    destruct (nthZ_app_mid _ _ _ _ _ Hb) as (b' & [= <-] & Eb); [lia|].
    eapply H; [|exact Ea|exact Eb]. lia.
Qed.
End Order.

#[export] Hint Resolve comp_le not_comp_le : stl.

(** Case analysis of the values of updated cells. *)
Ltac cell_inv :=
  repeat match goal with
  | H : holds (updZ _ _ _) _ _ |- _ =>
      apply holds_updZ in H as [[? ?]|[? H]]; try lia; try done
  | H : Some _ = Some _ |- _ => first [injection H as -> | injection H as <-]
  | H : None = Some _ |- _ => discriminate H
  end; try done.

#[export] Instance Z_ltb_order : StrictWeakOrder Z.ltb.
Proof.
  split.
  - intros a. apply Z.ltb_irrefl.
  - intros a b c. rewrite !Z.ltb_lt. lia.
  - intros a b c. rewrite !Z.ltb_ge. lia.
Qed.
