(* ===== verification/StlHeap.v ===== *)
(** * Heaps of the C++ library, [bits/stl_heap.h] and [std::priority_queue]

    A heap over a range has at index [i] a value that does not come before those
    at [2i+1] and [2i+2]. The functions move values through a hole: the object
    that has been moved from, whose index they track. The theorems: each function
    keeps or makes the heap, rearranges only its range, never compares an object
    that has been moved from and ends; [std::sort_heap] sorts; and a priority
    queue ([bits/stl_queue.h]) gives its elements in order. *)
From stdpp Require Import base numbers list sorting.
From Stdlib Require Import ZArith Lia.
From S2P Require Import Prelude StlArray.

Section Code.
Context {A : Type}.
Local Abbreviation arr := (list (option A)).
Variable comp : A → A → bool.

Definition __is_heap_until (first n : Z) : M arr Z :=
  while (λ '(parent, child),
    if child <? n then
      b ← _Iter_comp_iter comp (first + parent) (first + child);
      if b : bool then mret (inr child)
      else mret (inl (if (child .& 1) =? 0 then parent + 1 else parent, child + 1))
    else mret (inr n)) (0, 1).

Definition is_heap_until (first last : Z) : M arr Z :=
  n ← __is_heap_until first (last - first);
  mret (first + n).

Definition is_heap (first last : Z) : M arr bool :=
  let dist := last - first in
  n ← __is_heap_until first dist;
  mret (n =? dist).

Definition __push_heap (first holeIndex topIndex : Z) (value : option A) : M arr unit :=
  holeIndex ← while (λ '(holeIndex, parent),
    if topIndex <? holeIndex then
      b ← _Iter_comp_val comp (first + parent) value;
      if b : bool then
        v ← move_from (first + parent);
        assign (first + holeIndex) v;;
        mret (inl (parent, cdiv (parent - 1) 2))
      else mret (inr holeIndex)
    else mret (inr holeIndex)) (holeIndex, cdiv (holeIndex - 1) 2);
  assign (first + holeIndex) value.

Definition push_heap (first last : Z) : M arr unit :=
  value ← move_from (last - 1);
  __push_heap first ((last - first) - 1) 0 value.

Definition __adjust_heap (first holeIndex len : Z) (value : option A) : M arr unit :=
  let topIndex := holeIndex in
  '(holeIndex, secondChild) ← while (λ '(holeIndex, secondChild),
    if secondChild <? cdiv (len - 1) 2 then
      let secondChild := 2 * (secondChild + 1) in
      b ← _Iter_comp_iter comp (first + secondChild) (first + (secondChild - 1));
      let secondChild := if b : bool then secondChild - 1 else secondChild in
      v ← move_from (first + secondChild);
      assign (first + holeIndex) v;;
      mret (inl (secondChild, secondChild))
    else mret (inr (holeIndex, secondChild))) (holeIndex, holeIndex);
  holeIndex ←
    (if ((len .& 1) =? 0) && (secondChild =? cdiv (len - 2) 2) then
       let secondChild := 2 * (secondChild + 1) in
       v ← move_from (first + (secondChild - 1));
       assign (first + holeIndex) v;;
       mret (secondChild - 1)
     else mret holeIndex);
  __push_heap first holeIndex topIndex value.

Definition __pop_heap (first last result : Z) : M arr unit :=
  value ← move_from result;
  v ← move_from first;
  assign result v;;
  __adjust_heap first 0 (last - first) value.

Definition pop_heap (first last : Z) : M arr unit :=
  if 1 <? last - first then __pop_heap first (last - 1) (last - 1) else mret tt.

Definition __make_heap (first last : Z) : M arr unit :=
  if last - first <? 2 then mret tt
  else
    let len := last - first in
    while (λ parent,
      value ← move_from (first + parent);
      __adjust_heap first parent len value;;
      if parent =? 0 then mret (inr tt) else mret (inl (parent - 1)))
      (cdiv (len - 2) 2).

Definition make_heap (first last : Z) : M arr unit := __make_heap first last.

Definition __sort_heap (first last : Z) : M arr unit :=
  while (λ last,
    if 1 <? last - first then
      __pop_heap first (last - 1) (last - 1);;
      mret (inl (last - 1))
    else mret (inr tt)) last.

Definition sort_heap (first last : Z) : M arr unit := __sort_heap first last.

(** ** [std::priority_queue] over a vector *)

Definition push_back (x : A) : M arr unit := modify (λ c, c ++ [Some x]).
Definition pop_back : M arr unit := λ c,
  match c with
  | [] => None
  | _ => Some (tt, removelast c)
  end.

Definition push (x : A) : M arr unit :=
  push_back x;;
  size ← gets zlen;
  push_heap 0 size.

Definition top : M arr (option A) := deref 0.

Definition pop : M arr unit :=
  size ← gets zlen;
  pop_heap 0 size;;
  pop_back.

Definition empty : M arr bool := gets (λ c, zlen c =? 0).

Definition priority_queue (s : list A) : option arr :=
  run (make_heap 0 (zlen s)) (Some <$> s).
End Code.

(** * Heap order *)

(** The index of the parent. *)
Definition up (i : Z) : Z := (i - 1) / 2.

(** [below t i]: going up from [i] one comes to [t]. *)
Inductive below (t : Z) : Z → Prop :=
  | below_here : below t t
  | below_up i : 0 < i → below t (up i) → below t i.
#[export] Hint Constructors below : stl.

Lemma below_le t i : 0 <= t → below t i → t <= i.
Proof. intros Ht. induction 1 as [|i Hi _ IH]; [lia|]. unfold up in IH. divlia. Qed.

Lemma below_above t i : below t i → i ≠ t → 0 < i ∧ below t (up i).
Proof. by inversion 1. Qed.

Section Heap.
Context {A : Type} (comp : A → A → bool) `{!StrictWeakOrder comp}.
Local Abbreviation arr := (list (option A)).
Local Notation "a ⊑ b" := (le comp a b) (at level 70).
Variable first : Z.
Implicit Types l : arr.

(** The values at [i] and at its parent, where both are there, are in order. *)
Definition ordered l (i : Z) : Prop :=
  ∀ c p, holds l (first + i) c → holds l (first + up i) p → c ⊑ p.

(** Every index whose parent is [t] or later is in order with it. *)
Definition heap_from (t len : Z) l : Prop := ∀ i, 0 < i < len → t <= up i → ordered l i.

Definition heap (len : Z) l : Prop := heap_from 0 len l.

(** The heap with a hole at [h] below [t]: the hole's children are in order with its
    parent. *)
Record holed (t h len : Z) l : Prop := {
  holed_below : below t h;
  holed_cell : nthZ l (first + h) = Some None;
  holed_full : ∀ i, 0 <= i < len → i ≠ h → ∃ a, holds l (first + i) a;
  holed_heap : heap_from t len l;
  holed_skip i c p : 0 < i < len → up i = h → h ≠ t →
    holds l (first + i) c → holds l (first + up h) p → c ⊑ p;
}.

(** The array with value [v] in hand, to be put back, compared with the array [l0]
    that has it in its place. *)
Definition carried (v : A) (len : Z) l0 l : Prop :=
  in_hand (Some v) l0 l ∧ ∀ j, ¬ (first <= j < first + len) → nthZ l j = nthZ l0 j.

Lemma carried_zlen v len l0 l : carried v len l0 l → zlen l = zlen l0.
Proof.
  intros [H _]. unfold in_hand, zlen in *. apply Permutation_length in H. cbn in H. lia.
Qed.

Lemma carried_put v len l0 l h :
  0 <= first → 0 <= h < len → nthZ l (first + h) = Some None → carried v len l0 l →
  rearranged first (first + len) l0 (updZ l (first + h) (Some v)).
Proof.
  intros ?? E [Hh Ho]. split; [by apply in_hand_put|].
  intros i Hi. rewrite nthZ_updZ_ne by lia. by apply Ho.
Qed.

Lemma carried_move v len l0 l i j a :
  0 <= first → 0 <= i < len → 0 <= j < len → i ≠ j → nthZ l (first + i) = Some None →
  holds l (first + j) a → carried v len l0 l →
  carried v len l0 (updZ (updZ l (first + j) None) (first + i) (Some a)).
Proof.
  intros ???? Ei Ej [Hh Ho]. split.
  - apply in_hand_move; [done|done|lia|lia|done].
  - intros k Hk. rewrite !nthZ_updZ_ne by lia. by apply Ho.
Qed.

(** ** Sifting up *)

(** Moving the hole to its parent. *)
Lemma holed_up t h len l p :
  0 <= first → 0 <= t → t < h < len → holed t h len l → holds l (first + up h) p →
  holed t (up h) len (updZ (updZ l (first + up h) None) (first + h) (Some p)).
Proof.
  intros ??? [Hb Hc Hf Hh Hs] Hp. pose proof (holds_range _ _ _ Hp).
  pose proof (nthZ_Some _ _ _ Hc). assert (0 <= up h < h) by (unfold up; divlia).
  destruct (below_above t h Hb) as [_ Hb']; [lia|].
  pose proof (below_le t _ ltac:(lia) Hb').
  assert (∀ i a, i ≠ h → i ≠ up h →
    holds (updZ (updZ l (first + up h) None) (first + h) (Some p)) (first + i) a →
    holds l (first + i) a) as Hold.
  { intros i a ?? Ha. cell_inv. }
  split; [done|..].
  - rewrite nthZ_updZ_ne, nthZ_updZ_eq by lia. done.
  - intros i Hi Hne. destruct (decide (i = h)) as [->|].
    { exists p. apply holds_updZ_eq. rewrite zlen_updZ. lia. }
    destruct (Hf i) as [a Ha]; [lia|done|]. exists a.
    by repeat (apply holds_updZ_ne; [lia..|]).
  - intros i Hi Hui c q Hic Hiq. assert (i ≠ up h) as Hne.
    { intros ->. cell_inv. }
    destruct (decide (up i = up h)) as [E|]; [rewrite E in Hiq; cell_inv|].
    destruct (decide (i = h)) as [->|]; [done|].
    destruct (decide (up i = h)) as [E|].
    + rewrite E in Hiq. cell_inv. apply (Hs i c q); auto; lia.
    + apply (Hh i); auto.
  - intros i c q Hi Hui Hne Hic Hiq.
    destruct (below_above t (up h) Hb' Hne) as [? Hb2].
    pose proof (below_le t _ ltac:(lia) Hb2). assert (up (up h) < up h) by (unfold up in *; divlia).
    assert (q' : p ⊑ q).
    { apply (Hh (up h)); [lia|lia|done|]. apply Hold; [lia..|done]. }
    destruct (decide (i = h)) as [->|].
    + cell_inv. 
    + etrans; [|exact q']. apply (Hh i); [lia|lia|apply Hold; [lia| |done]|by rewrite Hui].
      intros ->. lia.
Qed.
(** Putting the value into a hole that is in order with it. *)
Lemma holed_fill t h len l v :
  0 <= first → 0 <= t → 0 <= h < len → holed t h len l →
  (∀ i c, 0 < i < len → up i = h → holds l (first + i) c → c ⊑ v) →
  (t < h → ∀ p, holds l (first + up h) p → v ⊑ p) →
  heap_from t len (updZ l (first + h) (Some v)).
Proof.
  intros ??? [Hb Hc Hf Hh Hs] Hch Hp i Hi Hui c p Hic Hip.
  assert (0 <= up i < i) by (unfold up; divlia).
  destruct (decide (i = h)) as [->|].
  - cell_inv. apply Hp; [|done]. pose proof (below_le t _ ltac:(lia) Hb). lia.
  - destruct (decide (up i = h)) as [E|].
    + rewrite E in Hip. cell_inv. by apply (Hch i).
    + cell_inv. by apply (Hh i).
Qed.

Lemma __push_heap_spec t h len l0 l v :
  0 <= first → 0 <= t → 0 <= h < len → holed t h len l → carried v len l0 l →
  (∀ i c, 0 < i < len → up i = h → holds l (first + i) c → c ⊑ v) →
  wpr (__push_heap comp first h t (Some v))
    (λ _ l', rearranged first (first + len) l0 l' ∧ heap_from t len l') l.
Proof.
  intros ??? Hh Hc Hv. apply wpr_bind.
  apply (wpr_while (λ '(h, parent) l,
    0 <= h < len ∧ (0 < h → parent = up h) ∧ holed t h len l ∧ carried v len l0 l ∧
    (∀ i c, 0 < i < len → up i = h → holds l (first + i) c → c ⊑ v)) fst).
  - clear h l H1 Hh Hc Hv. intros [h parent] l (? & Hpar & Hh & Hc & Hv). cbn. split; [lia|].
    assert (∀ h', h' = h → (t < h → ∀ p, holds l (first + up h) p → v ⊑ p) →
      wpr (assign (first + h') (Some v))
        (λ _ l', rearranged first (first + len) l0 l' ∧ heap_from t len l') l) as Hput.
    { intros ? -> Hp. pose proof (nthZ_Some _ _ _ (holed_cell _ _ _ _ Hh)).
      apply wpr_assign; [done|]. split; [by apply carried_put, Hc; [..|apply Hh]|].
      by apply holed_fill. }
    destruct (Z.ltb_spec t h); [|apply wpr_ret, Hput; [done|lia]].
    rewrite Hpar by lia. assert (0 <= up h < h) by (unfold up; divlia).
    destruct (holed_full _ _ _ _ Hh (up h)) as [p Hp]; [lia..|].
    pose proof (nthZ_Some _ _ _ (holed_cell _ _ _ _ Hh)).
    apply wpr_bind, (wpr_iter_val _ _ _ _ _ _ Hp). destruct (comp p v) eqn:E.
    + apply wpr_bind, (wpr_move_from _ _ _ _ Hp), wpr_bind, wpr_assign; [by rewrite zlen_updZ|].
      apply wpr_ret. cbn. split; [|lia]. split_and!; [lia..| | | |].
      * intros. rewrite cdiv_div by lia. done.
      * apply holed_up; [lia..|done|done].
      * apply carried_move; [lia..|apply Hh|done|done].
      * intros i c ? Hui Hic. destruct (decide (i = h)) as [->|].
        { cell_inv. by apply comp_le. }
        assert (i ≠ up h) by (intros ->; unfold up in *; divlia). cell_inv.
        trans p; [|by apply comp_le]. apply (holed_heap _ _ _ _ Hh i); [lia| |done|by rewrite Hui].
        destruct (below_above t h) as [_ Hb]; [apply Hh|lia|].
        apply below_le in Hb; lia.
    + apply wpr_ret, Hput; [done|]. intros _ q Hq. rewrite (holds_fun _ _ _ _ Hq Hp). done.
  - split_and!; [lia..| |done|done|done]. intros. by rewrite cdiv_div by lia.
  - pose proof (nthZ_Some _ _ _ (holed_cell _ _ _ _ Hh)). cbn. lia.
Qed.
(** ** Sifting down *)

(** Moving the hole to the child that comes last. *)
Lemma holed_down t h s len l a :
  0 <= first → 0 <= t → 0 < s < len → up s = h → holed t h len l → holds l (first + s) a →
  (∀ i c, 0 < i < len → up i = h → holds l (first + i) c → c ⊑ a) →
  holed t s len (updZ (updZ l (first + s) None) (first + h) (Some a)).
Proof.
  intros ??? Hs [Hb Hc Hf Hh Hk] Ha Hch. pose proof (below_le t _ ltac:(lia) Hb).
  pose proof (holds_range _ _ _ Ha). assert (0 <= h < s) by (unfold up in Hs; divlia).
  split.
  - rewrite <- Hs in Hb. apply below_up; [lia|done].
  - rewrite nthZ_updZ_ne, nthZ_updZ_eq by lia. done.
  - intros i Hi Hne. destruct (decide (i = h)) as [->|].
    { exists a. apply holds_updZ_eq. rewrite zlen_updZ. lia. }
    destruct (Hf i) as [b Hb']; [lia|done|]. exists b.
    by repeat (apply holds_updZ_ne; [lia..|]).
  - intros i Hi Hui c p Hic Hip. assert (0 <= up i < i) by (unfold up; divlia).
    destruct (decide (i = h)) as [->|].
    { cell_inv. apply (Hk s); [lia|done|lia|done|done]. }
    destruct (decide (up i = h)) as [E|]; cell_inv; [by apply (Hch i)|].
    by apply (Hh i).
  - intros i c p Hi Hui Hne Hic Hip. assert (s < i) by (unfold up in Hui; divlia).
    rewrite Hs in Hip. cell_inv. apply (Hh i); [lia|lia|done|by rewrite Hui].
Qed.

Lemma children i h : 0 < i → up i = h → i = 2 * h + 1 ∨ i = 2 * h + 2.
Proof. unfold up. intros. divlia. Qed.

(** One step of the loop: the hole moves to the later of its two children. *)
Lemma sift_down_step t h s s' len l0 l v (b : bool) :
  0 <= first → 0 <= t → 0 <= h → s = 2 * (h + 1) → s < len →
  holed t h len l → carried v len l0 l →
  (∀ x y, holds l (first + s) x → holds l (first + (s - 1)) y → comp x y = b) →
  s' = (if b then s - 1 else s) →
  wpr (v ← move_from (first + s'); assign (first + h) v)
    (λ _ l', holed t s' len l' ∧ carried v len l0 l') l.
Proof.
  intros ???-> ? Hh Hc Hb ->. assert (up (2 * (h + 1)) = h ∧ up (2 * (h + 1) - 1) = h) as [E1 E2].
  { unfold up. split; divlia. }
  destruct (holed_full _ _ _ _ Hh (2 * (h + 1))) as [x Hx]; [lia..|].
  destruct (holed_full _ _ _ _ Hh (2 * (h + 1) - 1)) as [y Hy]; [lia..|].
  pose proof (nthZ_Some _ _ _ (holed_cell _ _ _ _ Hh)).
  set (s' := if b then _ else _). assert (∃ a, holds l (first + s') a ∧ x ⊑ a ∧ y ⊑ a) as (a & Ha & Hxa & Hya).
  { specialize (Hb x y Hx Hy). destruct b; [exists y|exists x]; subst s'; split_and!;
      done || by apply comp_le. }
  assert (up s' = h ∧ h < s' < len) as [? ?] by (subst s'; destruct b; lia).
  apply wpr_bind, (wpr_move_from _ _ _ _ Ha), wpr_assign; [by rewrite zlen_updZ|]. split.
  - apply holed_down; [lia..|done|done|done|]. intros i c ? Hui Hic.
    destruct (children i h) as [->| ->]; [lia|done|..].
    + replace (2 * h + 1) with (2 * (h + 1) - 1) in Hic by lia.
      by rewrite (holds_fun _ _ _ _ Hic Hy).
    + replace (2 * h + 2) with (2 * (h + 1)) in Hic by lia.
      by rewrite (holds_fun _ _ _ _ Hic Hx).
  - apply carried_move; [lia..|apply Hh|done|done].
Qed.
(** The last step: with an even number of indices the hole may have one child. *)
Lemma single_child_step t h len l0 l v :
  0 <= first → 0 <= t → 0 <= h → 2 * (h + 1) = len → holed t h len l → carried v len l0 l →
  wpr (v ← move_from (first + (2 * (h + 1) - 1)); assign (first + h) v)
    (λ _ l', holed t (2 * (h + 1) - 1) len l' ∧ carried v len l0 l') l.
Proof.
  intros ???? Hh Hc. assert (up (2 * (h + 1) - 1) = h) by (unfold up; divlia).
  destruct (holed_full _ _ _ _ Hh (2 * (h + 1) - 1)) as [y Hy]; [lia..|].
  pose proof (nthZ_Some _ _ _ (holed_cell _ _ _ _ Hh)).
  apply wpr_bind, (wpr_move_from _ _ _ _ Hy), wpr_assign; [by rewrite zlen_updZ|]. split.
  - apply holed_down; [lia..|done|done|done|]. intros i c ? Hui Hic.
    destruct (children i h) as [->| ->]; [lia|done|..|lia].
    replace (2 * h + 1) with (2 * (h + 1) - 1) in Hic by lia.
    by rewrite (holds_fun _ _ _ _ Hic Hy).
  - apply carried_move; [lia..|apply Hh|done|done].
Qed.

Lemma __adjust_heap_spec t len l v :
  0 <= first → 0 <= t < len → nthZ l (first + t) = Some None →
  (∀ i, 0 <= i < len → i ≠ t → ∃ a, holds l (first + i) a) → heap_from (t + 1) len l →
  wpr (__adjust_heap comp first t len (Some v))
    (λ _ l', rearranged first (first + len) (updZ l (first + t) (Some v)) l' ∧
             heap_from t len l') l.
Proof.
  intros ?? Hc Hf Hh. set (l0 := updZ l (first + t) (Some v)).
  pose proof (nthZ_Some _ _ _ Hc). apply wpr_bind.
  apply (wpr_while (λ '(h, s) l, s = h ∧ 0 <= h < len ∧ holed t h len l ∧ carried v len l0 l)
    (λ x, len - fst x)).
  - clear Hc Hf Hh. intros [h s] l1 (-> & ? & Hh & Hca). cbn. split; [lia|].
    rewrite (cdiv_div (len - 1)) by lia.
    destruct (Z.ltb_spec h ((len - 1) / 2)).
    + destruct (holed_full _ _ _ _ Hh (2 * (h + 1))) as [x Hx]; [divlia..|].
      destruct (holed_full _ _ _ _ Hh (2 * (h + 1) - 1)) as [y Hy]; [divlia..|].
      apply wpr_bind, (wpr_iter_iter _ _ _ _ _ _ _ Hx Hy).
      apply wpr_bind_bind, wpr_bind. eapply wpr_mono.
      { apply (sift_down_step t h (2 * (h + 1)) _ len l0 l1 v (comp x y)); [lia|lia|lia|done|divlia|done|done| |done].
        intros x' y' Hx' Hy'. by rewrite (holds_fun _ _ _ _ Hx' Hx), (holds_fun _ _ _ _ Hy' Hy). }
      intros _ l2 [Hh2 Hc2]. apply wpr_ret. cbn.
      destruct (comp x y); split_and!; try done; divlia.
    + apply wpr_ret, wpr_bind. rewrite and_1.
      destruct (Z.eqb_spec (len mod 2) 0); cbn [andb].
      * rewrite (cdiv_div (len - 2)) by divlia. destruct (Z.eqb_spec h ((len - 2) / 2)).
        -- apply wpr_bind_bind, wpr_bind. eapply wpr_mono.
           { apply (single_child_step t h len l0 l1 v); [lia..|divlia|done|done]. }
           intros _ l2 [Hh2 Hc2]. apply wpr_ret. apply __push_heap_spec; [lia..|divlia|done|done|].
           intros i c ? Hui. destruct (children i _ ltac:(lia) Hui); divlia.
        -- apply wpr_ret. apply __push_heap_spec; [lia..|done|done|].
           intros i c ? Hui. destruct (children i _ ltac:(lia) Hui); divlia.
      * apply wpr_ret. apply __push_heap_spec; [lia..|done|done|].
        intros i c ? Hui. destruct (children i _ ltac:(lia) Hui); divlia.
  - split_and!; [done|lia..| |].
    + split; [apply below_here|done|done| |by intros].
      intros i Hi Hui c p Hic Hip. destruct (decide (up i = t)) as [E|].
      { rewrite E in Hip. unfold holds in Hip. congruence. }
      apply (Hh i); [lia|lia|done|done].
    + split; [unfold in_hand; symmetry; by apply updZ_exchange|].
      intros j Hj. unfold l0. rewrite nthZ_updZ_ne by lia. done.
  - cbn. assert (len <= t + 1 ∨ t + 1 < len) as [?|?] by lia; [lia|].
    destruct (Hf (len - 1)) as [a Ha%holds_range]; lia.
Qed.
(** ** The functions on whole heaps *)

Lemma heap_top len l i a top :
  heap len l → full l first (first + len) → 0 <= i < len →
  holds l (first + i) a → holds l first top → a ⊑ top.
Proof.
  intros Hh Hf [H0 H1] Ha Ht. revert a H1 Ha. pattern i. apply Zlt_0_ind; [|done]. clear i H0.
  intros i IH ? a ? Ha. destruct (decide (i = 0)) as [->|].
  { rewrite Z.add_0_r in Ha. by rewrite (holds_fun _ _ _ _ Ha Ht). }
  assert (0 <= up i < i) by (unfold up; divlia).
  destruct (Hf (first + up i)) as [p Hp]; [lia|].
  trans p; [by apply (Hh i); [lia..| |]|]. apply (IH (up i)); [lia|lia|done].
Qed.

Lemma heap_max len l i a top :
  heap len l → full l first (first + len) → first <= i < first + len →
  holds l i a → holds l first top → a ⊑ top.
Proof.
  intros Hh Hf Hi Ha Ht. apply (heap_top len l (i - first)); [done|done|lia| |done].
  by replace (first + (i - first)) with i by lia.
Qed.

Lemma heap_from_None t len l i : 0 <= i → heap_from t len l → heap_from t len (updZ l i None).
Proof. intros ? Hh k Hk Hu c p Hc Hp. cell_inv. by apply (Hh k). Qed.

Lemma __make_heap_spec last l :
  0 <= first → full l first last →
  wpr (__make_heap comp first last)
    (λ _ l', rearranged first last l l' ∧ heap (last - first) l') l.
Proof.
  intros ? Hf. unfold __make_heap. destruct (Z.ltb_spec (last - first) 2).
  { apply wpr_ret. split; [done|]. intros i ?. lia. }
  pose proof (full_zlen _ _ _ Hf ltac:(lia)).
  set (len := last - first) in *. rewrite cdiv_div by lia.
  apply (wpr_while (λ p l1, 0 <= p < len ∧ rearranged first last l l1 ∧ heap_from (p + 1) len l1)
    (λ p, p)).
  - intros p l1 (? & Hr & Hh). split; [lia|].
    assert (full l1 first last) as Hf1 by (by apply (rearranged_full _ _ l)).
    destruct (Hf1 (first + p)) as [v Hv]; [lia|]. pose proof (holds_range _ _ _ Hv).
    apply wpr_bind, (wpr_move_from _ _ _ _ Hv), wpr_bind. eapply wpr_mono.
    { apply (__adjust_heap_spec p len _ v); [lia..| | |by apply heap_from_None; [lia|]].
      - apply nthZ_updZ_eq. lia.
      - intros i ??. destruct (Hf1 (first + i)) as [a Ha]; [lia|]. exists a.
        apply holds_updZ_ne; [lia..|done]. }
    intros _ l2 [Hr2 Hh2]. rewrite updZ_restore in Hr2 by done.
    replace (first + len) with last in Hr2 by lia.
    destruct (Z.eqb_spec p 0) as [->|].
    + apply wpr_ret. split; [by eapply rearranged_trans|done].
    + apply wpr_ret. split_and!; [lia..|by eapply rearranged_trans| |lia].
      by replace (p - 1 + 1) with p by lia.
  - split_and!; [divlia..|done|]. intros i ? Hu. unfold up in Hu. divlia.
  - assert ((len - 2) / 2 < len) by divlia. lia.
Qed.

Lemma __pop_heap_spec last r l x top :
  0 <= first < last → ¬ (first <= r < last) → full l first last → holds l r x →
  holds l first top → heap (last - first) l →
  wpr (__pop_heap comp first last r)
    (λ _ l', rearranged first last (updZ (updZ l r (Some top)) first (Some x)) l' ∧
             heap (last - first) l') l.
Proof.
  intros ?? Hf Hx Ht Hh. pose proof (holds_range _ _ _ Hx). pose proof (holds_range _ _ _ Ht).
  apply wpr_bind, (wpr_move_from _ _ _ _ Hx), wpr_bind, (wpr_move_from _ _ (Some top)).
  { apply holds_updZ_ne; [lia..|done]. }
  apply wpr_bind, wpr_assign; [by rewrite !zlen_updZ|]. eapply wpr_mono.
  { apply (__adjust_heap_spec 0 (last - first)); [lia..| | |].
    - rewrite Z.add_0_r, nthZ_updZ_ne, nthZ_updZ_eq by (rewrite ?zlen_updZ; lia). done.
    - intros i ??. destruct (Hf (first + i)) as [a Ha]; [lia|]. exists a.
      by repeat (apply holds_updZ_ne; [lia..|]).
    - intros i Hi Hu c p Hc Hp. assert (0 <= up i) by lia.
      assert (up i < i) by (unfold up; divlia). cell_inv. apply (Hh i); [lia|lia|done|done]. }
  intros _ l' [Hr Hh']. split; [|done]. rewrite Z.add_0_r in Hr.
  replace (first + (last - first)) with last in Hr by lia.
  rewrite (updZ_comm (updZ l r None)), updZ_updZ, updZ_updZ in Hr by lia. done.
Qed.
(** Taking the top out to the cell after the heap. *)
Lemma pop_last_spec last l top :
  0 <= first → first + 1 < last → full l first last → holds l first top →
  heap (last - first) l →
  wpr (__pop_heap comp first (last - 1) (last - 1))
    (λ _ l', rearranged first last l l' ∧ heap (last - 1 - first) l' ∧ holds l' (last - 1) top) l.
Proof.
  intros ?? Hf Ht Hh. destruct (Hf (last - 1)) as [x Hx]; [lia|].
  pose proof (holds_range _ _ _ Hx). eapply wpr_mono.
  { apply (__pop_heap_spec (last - 1) (last - 1) l x top); [lia..| |done|done|].
    - apply (full_sub _ _ _ _ _ Hf); lia.
    - intros i ?. apply Hh. lia. }
  intros _ l' [Hr Hh']. split_and!; [|done|].
  - eapply rearranged_trans; [|eapply rearranged_widen; [exact Hr|lia..]].
    apply rearranged_swap; [lia..|done|done].
  - apply (rearranged_outside _ _ _ _ _ _ Hr); [lia|].
    apply holds_updZ_ne; [lia..|]. apply holds_updZ_eq. lia.
Qed.

Lemma __sort_heap_spec last l :
  0 <= first → full l first last → heap (last - first) l →
  wpr (__sort_heap comp first last)
    (λ _ l', rearranged first last l l' ∧ sorted_range comp l' first last) l.
Proof.
  intros ? Hf Hh. destruct (Z.le_gt_cases last first).
  { unfold __sort_heap, while, wpr. cbn. destruct (Z.ltb_spec 1 (last - first)); [lia|].
    split; [done|]. intros i j a b ??. lia. }
  pose proof (full_zlen _ _ _ Hf ltac:(lia)).
  apply (wpr_while (λ k l1, first < k <= last ∧ rearranged first last l l1 ∧
    heap (k - first) l1 ∧
    ∀ i j a b, first <= i <= j → k <= j < last → holds l1 i a → holds l1 j b → a ⊑ b)
    (λ k, k - first)).
  - clear Hh. intros k l1 (? & Hr & Hh & Hs). split; [lia|].
    assert (full l1 first last) as Hf1 by (by apply (rearranged_full _ _ l)).
    destruct (Z.ltb_spec 1 (k - first)).
    + destruct (Hf1 first) as [top Ht]; [lia|]. apply wpr_bind. eapply wpr_mono.
      { apply (pop_last_spec k l1 top); [lia..| |done|done].
        apply (full_sub _ _ _ _ _ Hf1); lia. }
      intros _ l2 (Hr2 & Hh2 & Ht2). apply wpr_ret. split_and!; [lia..| |done| |lia].
      { eapply rearranged_trans; [done|]. eapply rearranged_widen; [done|lia..]. }
      assert (∀ i a, first <= i < k → holds l2 i a → ∀ j b, k <= j < last → holds l1 j b → a ⊑ b) as Hup.
      { apply (rearranged_holds first k l1 l2 (λ a, ∀ j b, _ → _ → a ⊑ b)); [lia|done|].
        intros i a ? Ha j b ? Hb.
        apply (Hs i j); [lia|lia|done|done]. }
      assert (∀ i a, first <= i < k → holds l2 i a → a ⊑ top) as Htop.
      { apply (rearranged_holds first k l1 l2 (λ a, a ⊑ top)); [lia|done|]. intros i a ? Ha.
        apply (heap_max (k - first) l1 i); [done|apply (full_sub _ _ _ _ _ Hf1); lia|lia|done|done]. }
      intros i j a b ?? Ha Hb. destruct (decide (j = k - 1)) as [->|].
      { rewrite (holds_fun _ _ _ _ Hb Ht2). apply (Htop i); [lia|done]. }
      apply (rearranged_outside _ _ _ _ _ _ Hr2) in Hb; [|lia].
      destruct (decide (i < k)); [apply (Hup i a ltac:(lia) Ha j); [lia|done]|].
      apply (rearranged_outside _ _ _ _ _ _ Hr2) in Ha; [|lia].
      apply (Hs i j); [lia|lia|done|done].
    + apply wpr_ret. split; [done|]. intros i j a b ?? Ha Hb.
      assert (k = first + 1) as -> by lia. destruct (decide (j = first)) as [->|].
      { assert (i = first) as -> by lia. by rewrite (holds_fun _ _ _ _ Ha Hb). }
      apply (Hs i j); [lia|lia|done|done].
  - split_and!; [lia..|done|done|lia].
  - lia.
Qed.

Lemma push_heap_spec_heap last l :
  0 <= first → first < last → full l first last → heap (last - 1 - first) l →
  wpr (push_heap comp first last)
    (λ _ l', rearranged first last l l' ∧ heap (last - first) l') l.
Proof.
  intros ?? Hf Hh. destruct (Hf (last - 1)) as [v Hv]; [lia|].
  pose proof (holds_range _ _ _ Hv).
  apply wpr_bind, (wpr_move_from _ _ _ _ Hv). set (h := last - first - 1).
  assert (last - 1 = first + h) as E by lia. rewrite E in *.
  eapply wpr_mono; [apply (__push_heap_spec 0 h (last - first) l); [lia..| | |]|].
  - split.
    + assert (0 <= h) as Hp by lia. revert Hp. generalize h. apply Zlt_0_ind.
      intros i IH ?. destruct (decide (i = 0)) as [->|]; [apply below_here|].
      apply below_up; [lia|]. apply IH. unfold up. divlia.
    + apply nthZ_updZ_eq. lia.
    + intros i ??. destruct (Hf (first + i)) as [a Ha]; [lia|]. exists a.
      apply holds_updZ_ne; [lia..|done].
    + intros i Hi Hu c p Hc Hp. cell_inv. apply (Hh i); [lia|lia|done|done].
    + intros i c p Hi Hu. pose proof (children i h ltac:(lia) Hu). lia.
  - split; [by apply in_hand_take|]. intros j Hj. rewrite nthZ_updZ_ne by lia. done.
  - intros i c Hi Hu. pose proof (children i h ltac:(lia) Hu). lia.
  - intros ? l'. cbn. by replace (first + (last - first)) with last by lia.
Qed.
(** ** Testing a heap *)

Lemma __is_heap_until_spec len l :
  0 <= first → 0 <= len → full l first (first + len) →
  wpr (__is_heap_until comp first len)
    (λ n l', l' = l ∧ n <= len ∧ heap n l ∧ (n < len → ¬ heap (n + 1) l)) l.
Proof.
  intros ?? Hf. apply (wpr_while (λ '(p, c) l1, l1 = l ∧ 1 <= c ∧ (c <= len ∨ c = 1) ∧ p = up c ∧ heap c l)
    (λ x, len + 1 - snd x)).
  - intros [p c] ? (-> & ? & ? & -> & Hh). cbn. split; [lia|].
    destruct (Z.ltb_spec c len).
    + assert (0 <= up c < c) by (unfold up; divlia).
      destruct (Hf (first + up c)) as [x Hx]; [lia|]. destruct (Hf (first + c)) as [y Hy]; [lia|].
      apply wpr_bind, (wpr_iter_iter _ _ _ _ _ _ _ Hx Hy). destruct (comp x y) eqn:E.
      * apply wpr_ret. split_and!; [done|lia|done|]. intros _ Hn.
        specialize (Hn c ltac:(lia) ltac:(lia) y x Hy Hx). unfold le in Hn. congruence.
      * apply wpr_ret. rewrite and_1. split; [|cbn; lia]. split_and!; [done|lia|lia| |].
        -- unfold up. destruct (Z.eqb_spec (c mod 2) 0); divlia.
        -- intros i ??. destruct (decide (i = c)) as [->|]; [|apply Hh; lia].
           intros y' x' Hy' Hx'. rewrite (holds_fun _ _ _ _ Hy' Hy), (holds_fun _ _ _ _ Hx' Hx). done.
    + apply wpr_ret. split_and!; [done|lia| |lia]. intros i ?. apply Hh. lia.
  - split_and!; [done|lia|lia|done|]. intros i ?. lia.
  - cbn. destruct (decide (len = 0)) as [->|]; [unfold zlen; lia|].
    pose proof (full_zlen _ _ _ Hf). lia.
Qed.

Lemma is_heap_spec last l :
  0 <= first <= last → full l first last →
  wpr (is_heap comp first last) (λ b l', l' = l ∧ (b = true ↔ heap (last - first) l)) l.
Proof.
  intros ? Hf. apply wpr_bind. eapply wpr_mono.
  { apply (__is_heap_until_spec (last - first) l); [lia..|].
    by replace (first + (last - first)) with last by lia. }
  intros n ? (-> & ? & Hh & Hn). apply wpr_ret. split; [done|]. rewrite Z.eqb_eq.
  split; [by intros <-|]. intros Hl. destruct (decide (n = last - first)) as [|]; [done|].
  exfalso. apply Hn; [lia|]. intros i ?. apply Hl. lia.
Qed.
End Heap.

(** * The functions of the library *)

Section Library.
Context {A : Type} (comp : A → A → bool) `{!StrictWeakOrder comp}.
Local Abbreviation arr := (list (option A)).
Local Notation "a ⊑ b" := (le comp a b) (at level 70).
Implicit Types pre post : arr.

Lemma heap_perm first len (l : arr) n : n = len → heap comp first len l → heap comp first n l.
Proof. by intros ->. Qed.

(** [std::make_heap] permutes the range into a heap, and [std::is_heap]
    recognises it. *)
Lemma make_heap_run pre (xs : list A) post :
  ∃ ys, run (make_heap comp (zlen pre) (zlen pre + zlen xs)) (pre ++ (Some <$> xs) ++ post) =
          Some (pre ++ (Some <$> ys) ++ post) ∧
        ys ≡ₚ xs ∧ heap comp (zlen pre) (zlen ys) (pre ++ (Some <$> ys) ++ post).
Proof.
  destruct (run_app_mid (make_heap comp (zlen pre) (zlen pre + zlen xs)) _ pre post xs
    (__make_heap_spec comp (zlen pre) (zlen pre + zlen xs) _ ltac:(unfold zlen; lia)
      (full_app_mid pre post xs))) as (ys & E & Hp & Hh).
  exists ys. split_and!; [done|done|]. eapply heap_perm; [|exact Hh].
  rewrite (zlen_perm xs ys) by done. lia.
Qed.

(** [std::make_heap] followed by [std::sort_heap] permutes the values of the
    range into ascending order and leaves the rest of the array alone. *)
Theorem heap_sort_sorts pre (xs : list A) post :
  let first := zlen pre in
  let last := zlen pre + zlen xs in
  ∃ ys, run (make_heap comp first last;; sort_heap comp first last)
          (pre ++ (Some <$> xs) ++ post) = Some (pre ++ (Some <$> ys) ++ post) ∧
        ys ≡ₚ xs ∧ StronglySorted (le comp) ys.
Proof.
  intros first last. assert (wpr (make_heap comp first last;; sort_heap comp first last)
    (λ _ l', rearranged first last (pre ++ (Some <$> xs) ++ post) l' ∧
             sorted_range comp l' first last) (pre ++ (Some <$> xs) ++ post)) as Hw.
  { assert (0 <= first ∧ first <= last ∧ last <= zlen (pre ++ (Some <$> xs) ++ post)) as (? & ? & ?).
    { rewrite zlen_app_mid. unfold first, last, zlen. lia. }
    pose proof (full_app_mid pre post xs) as Hf.
    apply wpr_bind. eapply wpr_mono; [by apply __make_heap_spec|]. intros _ l1 [Hr Hh].
    eapply wpr_mono; [apply (__sort_heap_spec comp first last l1); [done| |done]|].
    { by apply (rearranged_full _ _ (pre ++ (Some <$> xs) ++ post)). }
    intros _ l2 [Hr2 Hs]. split; [by eapply rearranged_trans|done]. }
  destruct (run_app_mid _ _ _ _ _ Hw) as (ys & E & Hp & Hs).
  exists ys. split_and!; [done|done|]. apply (sorted_app_mid comp pre post).
  by rewrite (zlen_perm xs ys).
Qed.

(** [std::is_heap] tells whether a range is a heap, without changing it, and
    it says so of what [std::make_heap] made of any values. *)
Theorem is_heap_decides pre (xs : list A) post :
  let last := zlen pre + zlen xs in
  (∃ b, is_heap comp (zlen pre) last (pre ++ (Some <$> xs) ++ post) =
          Some (b, pre ++ (Some <$> xs) ++ post) ∧
        (b = true ↔ heap comp (zlen pre) (zlen xs) (pre ++ (Some <$> xs) ++ post))) ∧
  ∃ ys, (make_heap comp (zlen pre) last;; is_heap comp (zlen pre) last)
          (pre ++ (Some <$> xs) ++ post) = Some (true, pre ++ (Some <$> ys) ++ post) ∧ ys ≡ₚ xs.
Proof.
  intros last.
  assert (∀ zs, zs ≡ₚ xs → ∃ b, is_heap comp (zlen pre) last (pre ++ (Some <$> zs) ++ post) =
    Some (b, pre ++ (Some <$> zs) ++ post) ∧
    (b = true ↔ heap comp (zlen pre) (zlen zs) (pre ++ (Some <$> zs) ++ post))) as Hd.
  { intros zs Hz. unfold last. rewrite <- (zlen_perm xs zs) by done.
    destruct (wpr_run _ _ _ (is_heap_spec comp (zlen pre) (zlen pre + zlen zs)
      (pre ++ (Some <$> zs) ++ post) ltac:(unfold zlen; lia) (full_app_mid pre post zs)))
      as (b & l' & E & -> & Hb).
    exists b. split; [done|]. rewrite Hb. by replace (zlen pre + zlen zs - zlen pre) with (zlen zs) by lia. }
  split; [by apply Hd|]. destruct (make_heap_run pre xs post) as (ys & E & Hp & Hh).
  exists ys. split; [|done]. destruct (Hd ys Hp) as (b & Eb & Hb).
  unfold run in E. unfold mbind, M_bind. fold last in E.
  destruct (make_heap _ _ _ _) as [[[] l']|]; [|done].
  injection E as ->. rewrite Eb. do 2 f_equal. by apply Hb.
Qed.

(** ** The priority queue

    What a client sees: a collection to which values are added and from which
    a value that no other comes after is taken. *)

Inductive cmd :=
  | Push (x : A)
  | Pop
  | Top
  | Empty.

Inductive result :=
  | Done
  | Value (a : A)
  | Flag (b : bool).

(** The commands in terms of the class; [Pop] reads the top before it removes it. *)
Definition exec (c : cmd) : M arr result :=
  match c with
  | Push x => push comp x;; mret Done
  | Pop => v ← top; pop comp;; match v with Some a => mret (Value a) | None => ub end
  | Top => v ← top; match v with Some a => mret (Value a) | None => ub end
  | Empty => b ← empty; mret (Flag b)
  end.

Inductive spec_step : list A → cmd → result → list A → Prop :=
  | spec_push xs x : spec_step xs (Push x) Done (x :: xs)
  | spec_pop xs a ys : xs ≡ₚ a :: ys → Forall (λ b, b ⊑ a) xs → spec_step xs Pop (Value a) ys
  | spec_top xs a : a ∈ xs → Forall (λ b, b ⊑ a) xs → spec_step xs Top (Value a) xs
  | spec_empty xs : spec_step xs Empty (Flag (bool_decide (xs = []))) xs.

(** A value is taken only from a queue that has one. *)
Definition enabled (xs : list A) (c : cmd) : Prop :=
  match c with Pop | Top => xs ≠ [] | _ => True end.

(** The heap that implements the collection. *)
Definition implements (l : arr) (xs : list A) : Prop :=
  ∃ ys, l = Some <$> ys ∧ ys ≡ₚ xs ∧ heap comp 0 (zlen ys) l.

Lemma zlen_fmap (ys : list A) : zlen (Some <$> ys) = zlen ys.
Proof. unfold zlen. by rewrite length_fmap. Qed.

Lemma full_fmap (ys : list A) : full (Some <$> ys) 0 (zlen ys).
Proof. pose proof (full_app_mid [] [] ys) as H. rewrite app_nil_r in H. exact H. Qed.

Lemma rearranged_fmap (ys : list A) l' :
  rearranged 0 (zlen ys) (Some <$> ys) l' → ∃ zs, l' = Some <$> zs ∧ zs ≡ₚ ys.
Proof.
  intros H. destruct (rearranged_app_mid [] [] ys l') as (zs & E & Hp).
  { by rewrite app_nil_r. }
  rewrite app_nil_r in E. by exists zs.
Qed.

Lemma push_implements l xs x :
  implements l xs → wpr (push comp x) (λ _ l', implements l' (x :: xs)) l.
Proof.
  intros (ys & -> & Hp & Hh). apply wpr_bind. cbn. apply wpr_bind. cbn.
  replace ((Some <$> ys) ++ [Some x]) with (Some <$> ys ++ [x]) by (by rewrite fmap_app).
  assert (zlen (ys ++ [x]) = zlen ys + 1) as El by (unfold zlen; rewrite length_app; cbn; lia).
  rewrite zlen_fmap. eapply wpr_mono.
  { apply (push_heap_spec_heap comp 0 (zlen (ys ++ [x]))); [lia|unfold zlen in *; lia|apply full_fmap|].
    rewrite El. replace (zlen ys + 1 - 1 - 0) with (zlen ys) by lia.
    intros i Hi Hu c p Hc Hp'. assert (0 <= up i < i) by (unfold up; divlia).
    apply (Hh i); [lia|lia|..].
    - rewrite fmap_app in Hc. unfold holds, nthZ in *. destruct (Z.ltb_spec (0 + i) 0); [lia|].
      rewrite lookup_app_l in Hc; [done|]. rewrite length_fmap. unfold zlen in *. lia.
    - rewrite fmap_app in Hp'. unfold holds, nthZ in *. destruct (Z.ltb_spec (0 + up i) 0); [lia|].
      rewrite lookup_app_l in Hp'; [done|]. rewrite length_fmap. unfold zlen in *. lia. }
  intros _ l' [Hr Hh']. destruct (rearranged_fmap _ _ Hr) as (zs & -> & Hz).
  exists zs. split_and!; [done| |].
  - rewrite Hz, Hp. by rewrite Permutation_app_comm.
  - eapply heap_perm; [|exact Hh']. rewrite (zlen_perm _ _ Hz). lia.
Qed.

Lemma implements_top l xs :
  implements l xs → xs ≠ [] →
  ∃ a ys, l = Some <$> a :: ys ∧ xs ≡ₚ a :: ys ∧ Forall (λ b, b ⊑ a) (a :: ys) ∧
          heap comp 0 (zlen (a :: ys)) l.
Proof.
  intros (ys & -> & Hp & Hh) Hne. destruct ys as [|a ys].
  { by apply Permutation_nil_l in Hp. }
  exists a, ys. split_and!; [done|done| |done].
  apply Forall_forall. intros b [i Hi]%list_elem_of_lookup.
  pose proof (lookup_lt_Some _ _ _ Hi).
  apply (heap_top comp 0 (zlen (a :: ys)) (Some <$> a :: ys) (Z.of_nat i)); [done|apply full_fmap| | |done].
  - unfold zlen. lia.
  - unfold holds, nthZ. destruct (Z.ltb_spec (0 + Z.of_nat i) 0); [lia|].
    rewrite Z.add_0_l, Nat2Z.id, list_lookup_fmap, Hi. done.
Qed.

Lemma pop_back_last (zs : list A) a (Q : unit → arr → Prop) :
  Q tt (Some <$> zs) → wpr (pop_back (A := A)) Q (Some <$> zs ++ [a]).
Proof.
  intros HQ. unfold wpr, pop_back. rewrite fmap_app. cbn.
  destruct ((Some <$> zs) ++ [Some a]) eqn:E; [by destruct zs|].
  by rewrite <- E, removelast_last.
Qed.

Lemma pop_implements a ys :
  heap comp 0 (zlen (a :: ys)) (Some <$> a :: ys) →
  wpr (pop comp) (λ _ l', implements l' ys) (Some <$> a :: ys).
Proof.
  intros Hh. apply wpr_bind. cbn -[fmap pop_back]. rewrite zlen_fmap. apply wpr_bind.
  unfold pop_heap. destruct (Z.ltb_spec 1 (zlen (a :: ys) - 0)).
  - eapply wpr_mono.
    { apply (pop_last_spec comp 0 (zlen (a :: ys)) (Some <$> a :: ys) a); [lia..|apply full_fmap|done|].
      by rewrite Z.sub_0_r. }
    intros _ l' (Hr & Hh' & Ha). destruct (rearranged_fmap _ _ Hr) as (zs & -> & Hz).
    pose proof (zlen_perm _ _ Hz) as El.
    destruct (List.exists_last (l := zs)) as (zs' & z & ->).
    { intros ->. by apply Permutation_nil_l in Hz. }
    assert (zlen (zs' ++ [z]) = zlen zs' + 1) as El' by (unfold zlen; rewrite length_app; cbn; lia).
    assert (z = a) as ->.
    { rewrite <- El, El' in Ha. unfold holds, nthZ in Ha.
      destruct (Z.ltb_spec (zlen zs' + 1 - 1) 0); [done|].
      replace (Z.to_nat (zlen zs' + 1 - 1)) with (length zs') in Ha by (unfold zlen; lia).
      rewrite list_lookup_fmap, list_lookup_middle in Ha by done. cbn in Ha. congruence. }
    apply pop_back_last. exists zs'. split_and!; [done| |].
    + rewrite (Permutation_app_comm zs') in Hz. by apply Permutation_cons_inv in Hz.
    + intros i Hi Hu c p Hc Hp. assert (0 <= up i < i) by (unfold up; divlia).
      apply (Hh' i); [lia|lia|..]; rewrite fmap_app; unfold holds, nthZ in *.
      * destruct (Z.ltb_spec (0 + i) 0); [lia|]. rewrite lookup_app_l; [done|by apply lookup_lt_Some in Hc].
      * destruct (Z.ltb_spec (0 + up i) 0); [lia|]. rewrite lookup_app_l; [done|by apply lookup_lt_Some in Hp].
  - destruct ys; [|unfold zlen in *; cbn in *; lia]. apply wpr_ret.
    apply (pop_back_last [] a). exists []. split_and!; [done..|]. intros i ?. unfold zlen in *. cbn in *. lia.
Qed.

(** Every command that is enabled does what the collection does. *)
Lemma exec_implements l xs c :
  implements l xs → enabled xs c →
  wpr (exec c) (λ r l', ∃ xs', spec_step xs c r xs' ∧ implements l' xs') l.
Proof.
  intros Hi He. destruct c as [x| | |]; cbn [exec].
  - apply wpr_bind. eapply wpr_mono; [by apply (push_implements l xs x)|].
    intros ? l' Hi'. apply wpr_ret. exists (x :: xs). split; [constructor|done].
  - destruct (implements_top l xs Hi He) as (a & ys & -> & Hp & Ha & Hh).
    apply wpr_bind, (wpr_deref _ _ (Some a)); [done|]. apply wpr_bind.
    eapply wpr_mono; [by apply pop_implements|]. intros ? l' Hi'. apply wpr_ret.
    exists ys. split; [|done]. constructor; [done|by rewrite Hp].
  - destruct (implements_top l xs Hi He) as (a & ys & -> & Hp & Ha & Hh).
    apply wpr_bind, (wpr_deref _ _ (Some a)); [done|]. apply wpr_ret.
    exists xs. split; [|done]. constructor; [rewrite Hp; by left|by rewrite Hp].
  - exists xs. split; [|done]. destruct Hi as (ys & -> & Hp & _). rewrite zlen_fmap.
    replace (zlen ys =? 0) with (bool_decide (xs = [])); [constructor|].
    rewrite (zlen_perm _ _ Hp). unfold zlen. destruct xs; [done|]. cbn [length]. by rewrite bool_decide_false.
Qed.

(** Sequences of commands. *)
Fixpoint execs (cs : list cmd) : M arr (list result) :=
  match cs with
  | [] => mret []
  | c :: cs => r ← exec c; rs ← execs cs; mret (r :: rs)
  end.

Inductive spec_steps : list A → list cmd → list result → list A → Prop :=
  | steps_nil xs : spec_steps xs [] [] xs
  | steps_cons xs c r xs' cs rs ys :
      spec_step xs c r xs' → spec_steps xs' cs rs ys → spec_steps xs (c :: cs) (r :: rs) ys.

(** The commands take no more values than there are. *)
Fixpoint within (n : nat) (cs : list cmd) : bool :=
  match cs, n with
  | [], _ => true
  | Push _ :: cs, _ => within (S n) cs
  | Pop :: cs, S n => within n cs
  | Top :: cs, S n => within (S n) cs
  | Empty :: cs, _ => within n cs
  | _, _ => false
  end.

Lemma within_step xs c cs r xs' :
  within (length xs) (c :: cs) → spec_step xs c r xs' → within (length xs') cs.
Proof.
  intros Hw Hs. destruct Hs as [xs x|xs a ys Hp _|xs a _ _|xs]; cbn in *.
  - done.
  - apply Permutation_length in Hp. cbn in Hp. by rewrite Hp in Hw.
  - by destruct (length xs).
  - by destruct (length xs).
Qed.

Lemma within_enabled xs c cs : within (length xs) (c :: cs) → enabled xs c.
Proof. by destruct c, xs. Qed.

(** C17: a priority queue made from the values [s] refines a collection of values from
    which the one that comes last in the order is taken: any sequence of commands
    that takes no more values than there are is defined, and its results are those of
    a run of the collection from [s]. *)
Theorem priority_queue_refines (s : list A) (cs : list cmd) :
  within (length s) cs = true →
  ∃ c0 rs c1 ys, priority_queue comp s = Some c0 ∧ execs cs c0 = Some (rs, c1) ∧
    spec_steps s cs rs ys ∧ implements c1 ys.
Proof.
  intros Hw. destruct (make_heap_run [] s []) as (ys & E & Hp & Hh).
  rewrite !app_nil_r in E. rewrite app_nil_r in Hh. exists (Some <$> ys).
  assert (implements (Some <$> ys) s) as Hi by (by exists ys).
  enough (∀ l, implements l s → wpr (execs cs) (λ rs l', ∃ ys, spec_steps s cs rs ys ∧ implements l' ys) l) as He.
  { destruct (wpr_run _ _ _ (He _ Hi)) as (rs & c1 & E1 & zs & Hz & Hi1). exists rs, c1, zs.
    split_and!; [exact E|done|done|done]. }
  clear E Hp Hh Hi ys. revert s Hw. induction cs as [|c cs IH]; intros s Hw l Hi.
  { apply wpr_ret. exists s. by split; [constructor|]. }
  apply wpr_bind. eapply wpr_mono.
  { apply exec_implements; [done|]. eapply within_enabled. by rewrite Hw. }
  intros r l1 (xs' & Hs & Hi1). apply wpr_bind. eapply wpr_mono.
  { apply (IH xs'); [|done]. apply Is_true_true, (within_step s c cs r xs'); [by rewrite Hw|done]. }
  intros rs l2 (ys & Hss & Hi2). apply wpr_ret. exists ys. split; [by econstructor|done].
Qed.
End Library.

(** * Witnesses *)

Lemma heap_sort_sorts_witness :
  run (make_heap Z.ltb 1 6;; sort_heap Z.ltb 1 6) (Some <$> [9; 3; 1; 4; 1; 5; 0]) =
    Some (Some <$> [9; 1; 1; 3; 4; 5; 0]) ∧
  ∃ ys, run (make_heap Z.ltb 1 6;; sort_heap Z.ltb 1 6) (Some <$> [9; 3; 1; 4; 1; 5; 0]) =
    Some ([Some 9] ++ (Some <$> ys) ++ [Some 0]) ∧ ys ≡ₚ [3; 1; 4; 1; 5] ∧
    StronglySorted (le Z.ltb) ys.
Proof. split; [by vm_compute|]. exact (heap_sort_sorts Z.ltb [Some 9] [3; 1; 4; 1; 5] [Some 0]). Defined.

Lemma is_heap_decides_witness :
  ∃ ys, (make_heap Z.ltb 0 5;; is_heap Z.ltb 0 5) (Some <$> [3; 1; 4; 1; 5]) =
    Some (true, Some <$> ys) ∧ ys ≡ₚ [3; 1; 4; 1; 5].
Proof.
  destruct (is_heap_decides Z.ltb [] [3; 1; 4; 1; 5] []) as [_ (ys & E & Hp)].
  rewrite !app_nil_r in E. exists ys. split; [exact E|exact Hp].
Defined.

Lemma priority_queue_refines_witness :
  ∃ c0 rs c1 ys, priority_queue Z.ltb [3; 8] = Some c0 ∧
    execs Z.ltb [Push 5; Pop; Top; Pop; Empty] c0 = Some (rs, c1) ∧
    spec_steps Z.ltb [3; 8] [Push 5; Pop; Top; Pop; Empty] rs ys ∧ implements Z.ltb c1 ys.
Proof. apply (priority_queue_refines Z.ltb). vm_compute. reflexivity. Defined.
