(* ===== verification/StlSort.v ===== *)
(** * Sorting and selection of the C++ library, [bits/stl_algo.h]

    [std::sort] partitions the range around medians of three until the parts have at
    most sixteen elements ([__introsort_loop]), falling back to heap sort after
    [2 * lg n] levels, and sorts what is left by insertion. Most of its loops have
    no bounds check of their own: they rely on an element that stops them. The
    theorems: for every strict weak order the loops stay in the range, no object
    that has been moved from is compared, the functions end, and the range is
    sorted ([std::sort], [std::partial_sort]) or split around its [nth] element
    ([std::nth_element]). *)
From stdpp Require Import base numbers list sorting.
From Stdlib Require Import ZArith Lia.
From S2P Require Import Prelude StlArray StlHeap.

Section Code.
Context {A : Type}.
Local Abbreviation arr := (list (option A)).
Variable comp : A → A → bool.

(** Swaps the median value of [*a], [*b] and [*c] to [*result]. *)
Definition __move_median_to_first (result a b c : Z) : M arr unit :=
  ab ← _Iter_comp_iter comp a b;
  if ab : bool then
    bc ← _Iter_comp_iter comp b c;
    if bc : bool then iter_swap result b
    else
      ac ← _Iter_comp_iter comp a c;
      if ac : bool then iter_swap result c
      else iter_swap result a
  else
    ac ← _Iter_comp_iter comp a c;
    if ac : bool then iter_swap result a
    else
      bc ← _Iter_comp_iter comp b c;
      if bc : bool then iter_swap result c
      else iter_swap result b.

(** [_GLIBCXX_MOVE_BACKWARD3]: the loop counts [n] down from [last - first]. *)
Definition move_backward (first last result : Z) : M arr Z :=
  while (λ '(n, last, result),
    if 0 <? n then
      v ← move_from (last - 1);
      assign (result - 1) v;;
      mret (inl (n - 1, last - 1, result - 1))
    else mret (inr result)) (last - first, last, result).

Definition __unguarded_linear_insert (last : Z) : M arr unit :=
  val ← move_from last;
  let next := last - 1 in
  last ← while (λ '(last, next),
    b ← _Val_comp_iter comp val next;
    if b : bool then
      v ← move_from next;
      assign last v;;
      mret (inl (next, next - 1))
    else mret (inr last)) (last, next);
  assign last val.

Definition __insertion_sort (first last : Z) : M arr unit :=
  if first =? last then mret tt
  else
    while (λ i,
      if i =? last then mret (inr tt)
      else
        b ← _Iter_comp_iter comp i first;
        (if b : bool then
           val ← move_from i;
           move_backward first i (i + 1);;
           assign first val
         else __unguarded_linear_insert i);;
        mret (inl (i + 1))) (first + 1).

Definition __unguarded_insertion_sort (first last : Z) : M arr unit :=
  while (λ i,
    if i =? last then mret (inr tt)
    else
      __unguarded_linear_insert i;;
      mret (inl (i + 1))) first.

Definition _S_threshold : Z := 16.

Definition __final_insertion_sort (first last : Z) : M arr unit :=
  if _S_threshold <? last - first then
    __insertion_sort first (first + _S_threshold);;
    __unguarded_insertion_sort (first + _S_threshold) last
  else __insertion_sort first last.

Definition __unguarded_partition (first last pivot : Z) : M arr Z :=
  while (λ '(first, last),
    first ← while (λ first,
      b ← _Iter_comp_iter comp first pivot;
      mret (if b : bool then inl (first + 1) else inr first)) first;
    last ← while (λ last,
      b ← _Iter_comp_iter comp pivot last;
      mret (if b : bool then inl (last - 1) else inr last)) (last - 1);
    if negb (first <? last) then mret (inr first)
    else
      iter_swap first last;;
      mret (inl (first + 1, last))) (first, last).

Definition __unguarded_partition_pivot (first last : Z) : M arr Z :=
  let mid := first + cdiv (last - first) 2 in
  __move_median_to_first first (first + 1) mid (last - 1);;
  __unguarded_partition (first + 1) last first.

Definition __heap_select (first middle last : Z) : M arr unit :=
  __make_heap comp first middle;;
  while (λ i,
    if i <? last then
      b ← _Iter_comp_iter comp i first;
      (if b : bool then __pop_heap comp first middle i else mret tt);;
      mret (inl (i + 1))
    else mret (inr tt)) middle.

Definition __partial_sort (first middle last : Z) : M arr unit :=
  __heap_select first middle last;;
  __sort_heap comp first middle.

Definition partial_sort (first middle last : Z) : M arr unit :=
  __partial_sort first middle last.

(** Each iteration of the loop and each recursive call uses up one of
    [depth_limit], on which the function recurses: the second call is the next
    iteration, with [last = cut]. *)
Fixpoint __introsort_loop (depth_limit : nat) (first last : Z) : M arr unit :=
  if _S_threshold <? last - first then
    match depth_limit with
    | O => __partial_sort first last last
    | S depth_limit =>
        cut ← __unguarded_partition_pivot first last;
        __introsort_loop depth_limit cut last;;
        __introsort_loop depth_limit first cut
    end
  else mret tt.

(** The number of leading zeros of a positive [int]. *)
Definition __builtin_clz (n : Z) : Z := 31 - Z.log2 n.
Definition __lg (n : Z) : Z := 4 * 8 - 1 - __builtin_clz n.

Definition __sort (first last : Z) : M arr unit :=
  if first =? last then mret tt
  else
    __introsort_loop (Z.to_nat (__lg (last - first) * 2)) first last;;
    __final_insertion_sort first last.

Definition sort (first last : Z) : M arr unit := __sort first last.

(** As in [__introsort_loop], the recursion is the loop. *)
Fixpoint __introselect (depth_limit : nat) (first nth last : Z) : M arr unit :=
  if 3 <? last - first then
    match depth_limit with
    | O =>
        __heap_select first (nth + 1) last;;
        iter_swap first nth
    | S depth_limit =>
        cut ← __unguarded_partition_pivot first last;
        if cut <=? nth then __introselect depth_limit cut nth last
        else __introselect depth_limit first nth cut
    end
  else __insertion_sort first last.

Definition nth_element (first nth last : Z) : M arr unit :=
  if (first =? last) || (nth =? last) then mret tt
  else __introselect (Z.to_nat (__lg (last - first) * 2)) first nth last.
End Code.

Section Sort.
Context {A : Type} (comp : A → A → bool) `{!StrictWeakOrder comp}.
Local Abbreviation arr := (list (option A)).
Local Notation "a ⊑ b" := (le comp a b) (at level 70).
Implicit Types l : arr.

(** * Insertion

    The array in the course of an insertion: the value [v] is in hand, cell [k] is
    free, and the values after it in the range do not come before [v]. *)
Record inserting (lo hi k : Z) (v : A) l0 l : Prop := {
  ins_hand : in_hand (Some v) l0 l;
  ins_frame j : ¬ (lo <= j < hi) → nthZ l j = nthZ l0 j;
  ins_cell : nthZ l k = Some None;
  ins_full i : lo <= i < hi → i ≠ k → ∃ a, holds l i a;
  ins_sorted : sorted_range comp l lo hi;
  ins_after i b : k < i < hi → holds l i b → v ⊑ b;
}.

Lemma inserting_start lo k v l :
  0 <= lo <= k → full l lo k → sorted_range comp l lo k → holds l k v →
  inserting lo (k + 1) k v l (updZ l k None).
Proof.
  intros ? Hf Hs Hv. pose proof (holds_range _ _ _ Hv). split.
  - by apply in_hand_take.
  - intros j ?. by rewrite nthZ_updZ_ne by lia.
  - apply nthZ_updZ_eq. lia.
  - intros i ??. destruct (Hf i) as [a Ha]; [lia|]. exists a. apply holds_updZ_ne; [lia..|done].
  - intros i j a b ?? Ha Hb. cell_inv. apply (Hs i j); [lia|lia|done|done].
  - intros i b ?. lia.
Qed.

(** The value before the free cell moves into it. *)
Lemma inserting_step lo hi k v l0 l a :
  0 <= lo → lo < k < hi → inserting lo hi k v l0 l → holds l (k - 1) a → v ⊑ a →
  inserting lo hi (k - 1) v l0 (updZ (updZ l (k - 1) None) k (Some a)).
Proof.
  intros ?? [Hh Hfr Hc Hf Hs Ha] Hk Hv. pose proof (nthZ_Some _ _ _ Hc). split.
  - apply in_hand_move; [done|done|lia|lia|done].
  - intros j ?. rewrite !nthZ_updZ_ne by lia. by apply Hfr.
  - rewrite nthZ_updZ_ne, nthZ_updZ_eq by lia. done.
  - intros i ??. destruct (decide (i = k)) as [->|].
    { exists a. apply holds_updZ_eq. rewrite zlen_updZ. lia. }
    destruct (Hf i) as [b Hb]; [lia|lia|]. exists b. by repeat (apply holds_updZ_ne; [lia..|]).
  - intros i j x y ?? Hx Hy. cell_inv.
    + apply (Hs i (k - 1)); [lia|lia|done|done].
    + apply (Hs (k - 1) j); [lia|lia|done|done].
    + apply (Hs i j); [lia|lia|done|done].
  - intros i b ? Hb. cell_inv. apply (Ha i); [lia|done].
Qed.

Lemma inserting_end lo hi k v l0 l :
  0 <= lo → lo <= k < hi → inserting lo hi k v l0 l →
  (∀ i b, lo <= i < k → holds l i b → b ⊑ v) →
  rearranged lo hi l0 (updZ l k (Some v)) ∧ sorted_range comp (updZ l k (Some v)) lo hi.
Proof.
  intros ?? [Hh Hfr Hc Hf Hs Ha] Hb. split.
  - split; [by apply in_hand_put|]. intros j ?. rewrite nthZ_updZ_ne by lia. by apply Hfr.
  - intros i j x y ?? Hx Hy. cell_inv.
    + apply (Hb i); [lia|done].
    + apply (Ha j); [lia|done].
    + apply (Hs i j); [lia|lia|done|done].
Qed.

(** The first value [s] of the range stops the loop. *)
Lemma __unguarded_linear_insert_spec lo k l s v :
  0 <= lo < k → full l lo k → sorted_range comp l lo k →
  holds l lo s → holds l k v → s ⊑ v →
  wpr (__unguarded_linear_insert comp k)
    (λ _ l', rearranged lo (k + 1) l l' ∧ sorted_range comp l' lo (k + 1) ∧ holds l' lo s) l.
Proof.
  intros ? Hf Hs Hlo Hk Hv. pose proof (holds_range _ _ _ Hk).
  apply wpr_bind, (wpr_move_from _ _ _ _ Hk), wpr_bind.
  apply (wpr_while (λ '(j, n) l1, lo < j <= k ∧ n = j - 1 ∧ inserting lo (k + 1) j v l l1 ∧
    holds l1 lo s) fst).
  - intros [j n] l1 (? & -> & Hi & Hs1). cbn. split; [lia|].
    destruct (ins_full _ _ _ _ _ _ Hi (j - 1)) as [a Ha]; [lia..|].
    pose proof (nthZ_Some _ _ _ (ins_cell _ _ _ _ _ _ Hi)).
    apply wpr_bind, (wpr_val_iter _ _ _ _ _ _ Ha). destruct (comp v a) eqn:E.
    + apply wpr_bind, (wpr_move_from _ _ _ _ Ha), wpr_bind, wpr_assign; [by rewrite zlen_updZ|].
      apply wpr_ret. assert (j - 1 ≠ lo) as Hne.
      { intros Ej. rewrite Ej in Ha. rewrite (holds_fun _ _ _ _ Ha Hs1) in E.
        unfold le in Hv. congruence. }
      split_and!; [lia..|done| | |cbn; lia].
      * apply inserting_step; [lia..|done|done|by apply comp_le].
      * by repeat (apply holds_updZ_ne; [lia..|]).
    + apply wpr_ret, wpr_assign; [done|].
      destruct (inserting_end lo (k + 1) j v l l1) as [??]; [lia..|done| |].
      * intros i b ? Hb. trans a; [|done].
        apply (ins_sorted _ _ _ _ _ _ Hi i (j - 1)); [lia|lia|done|done].
      * split_and!; [done..|]. apply holds_updZ_ne; [lia..|done].
  - split_and!; [lia..|done| |apply holds_updZ_ne; [lia..|done]].
    apply inserting_start; [lia|done|done|done].
  - cbn. rewrite zlen_updZ. lia.
Qed.
(** A value that comes before all others goes to the front. *)
Lemma move_backward_spec lo k v l0 l :
  0 <= lo <= k → inserting lo (k + 1) k v l0 l →
  (∀ i b, lo <= i < k → holds l i b → v ⊑ b) →
  wpr (move_backward lo k (k + 1)) (λ _ l', inserting lo (k + 1) lo v l0 l') l.
Proof.
  intros ? Hi Hb. pose proof (nthZ_Some _ _ _ (ins_cell _ _ _ _ _ _ Hi)).
  apply (wpr_while (λ '(n, j, r) l1, lo <= j <= k ∧ n = j - lo ∧ r = j + 1 ∧
    inserting lo (k + 1) j v l0 l1 ∧ ∀ i b, lo <= i < j → holds l1 i b → v ⊑ b)
    (λ x, fst (fst x))).
  - clear Hi Hb H0. intros [[n j] r] l1 (? & -> & -> & Hi & Hb). cbn. split; [lia|].
    destruct (Z.ltb_spec 0 (j - lo)).
    + destruct (ins_full _ _ _ _ _ _ Hi (j - 1)) as [a Ha]; [lia..|].
      pose proof (nthZ_Some _ _ _ (ins_cell _ _ _ _ _ _ Hi)).
      replace (j + 1 - 1) with j by lia.
      apply wpr_bind, (wpr_move_from _ _ _ _ Ha), wpr_bind, wpr_assign; [by rewrite zlen_updZ|].
      apply wpr_ret. split; [|cbn; lia]. split_and!; [lia..| |].
      * apply inserting_step; [lia..|done|done|]. apply (Hb (j - 1)); [lia|done].
      * intros i b ? Hib. cell_inv. apply (Hb i); [lia|done].
    + apply wpr_ret. by replace lo with j at 2 by lia.
  - split_and!; [lia..|done|done].
  - cbn. lia.
Qed.

Lemma __insertion_sort_spec lo hi l :
  0 <= lo <= hi → full l lo hi →
  wpr (__insertion_sort comp lo hi)
    (λ _ l', rearranged lo hi l l' ∧ sorted_range comp l' lo hi) l.
Proof.
  intros ? Hf. unfold __insertion_sort. destruct (Z.eqb_spec lo hi).
  { apply wpr_ret. split; [done|]. intros i j a b ?. lia. }
  pose proof (full_zlen _ _ _ Hf ltac:(lia)).
  apply (wpr_while (λ i l1, lo < i <= hi ∧ rearranged lo hi l l1 ∧ sorted_range comp l1 lo i)
    (λ i, hi - i)).
  - intros i l1 (? & Hr & Hs). split; [lia|].
    assert (full l1 lo hi) as Hf1 by (by apply (rearranged_full _ _ l); [lia|..]).
    destruct (Z.eqb_spec i hi) as [->|]; [by apply wpr_ret|].
    destruct (Hf1 lo) as [s Hlo]; [lia|]. destruct (Hf1 i) as [v Hv]; [lia|].
    pose proof (holds_range _ _ _ Hlo).
    apply wpr_bind, (wpr_iter_iter _ _ _ _ _ _ _ Hv Hlo), wpr_bind.
    apply (wpr_mono _ (λ _ l2, rearranged lo (i + 1) l1 l2 ∧ sorted_range comp l2 lo (i + 1))).
    + destruct (comp v s) eqn:E.
      * assert (inserting lo (i + 1) i v l1 (updZ l1 i None)) as Hi.
        { apply inserting_start; [lia| |done|done]. apply (full_sub _ _ _ _ _ Hf1); lia. }
        apply wpr_bind, (wpr_move_from _ _ _ _ Hv), wpr_bind. eapply wpr_mono.
        { apply (move_backward_spec lo i v l1); [lia|done|]. intros j b ? Hb.
          trans s; [by apply comp_le|]. cell_inv. apply (Hs lo j); [lia|lia|done|done]. }
        intros ? l2 Hi2. pose proof (nthZ_Some _ _ _ (ins_cell _ _ _ _ _ _ Hi2)).
        apply wpr_assign; [lia|]. apply inserting_end; [lia..|done|lia].
      * eapply wpr_mono.
        { apply (__unguarded_linear_insert_spec lo i l1 s v); [lia| |done|done|done|done].
          apply (full_sub _ _ _ _ _ Hf1); lia. }
        by intros _ l2 (? & ? & _).
    + intros _ l2 [Hr2 Hs2]. apply wpr_ret. split_and!; [lia..| |done|lia].
      eapply rearranged_trans; [done|]. apply (rearranged_widen _ _ _ _ _ _ Hr2); lia.
  - split_and!; [lia..|done|]. intros i j a b ?? Ha Hb. assert (i = j) as <- by lia.
    by rewrite (holds_fun _ _ _ _ Ha Hb).
  - lia.
Qed.

(** The values from [k] on do not come before the first one, which stops every insertion. *)
Lemma __unguarded_insertion_sort_spec lo k hi l s :
  0 <= lo < k → k <= hi → full l lo hi → sorted_range comp l lo k → holds l lo s →
  (∀ i b, k <= i < hi → holds l i b → s ⊑ b) →
  wpr (__unguarded_insertion_sort comp k hi)
    (λ _ l', rearranged lo hi l l' ∧ sorted_range comp l' lo hi) l.
Proof.
  intros ?? Hf Hs Hlo Hb. pose proof (full_zlen _ _ _ Hf ltac:(lia)).
  apply (wpr_while (λ i l1, k <= i <= hi ∧ rearranged lo hi l l1 ∧ sorted_range comp l1 lo i ∧
    holds l1 lo s ∧ ∀ j b, i <= j < hi → holds l1 j b → s ⊑ b) (λ i, hi - i)).
  - clear Hs Hlo Hb. intros i l1 (? & Hr & Hs & Hlo & Hb). split; [lia|].
    assert (full l1 lo hi) as Hf1 by (by apply (rearranged_full _ _ l); [lia|..]).
    destruct (Z.eqb_spec i hi) as [->|]; [by apply wpr_ret|].
    destruct (Hf1 i) as [v Hv]; [lia|]. apply wpr_bind. eapply wpr_mono.
    { apply (__unguarded_linear_insert_spec lo i l1 s v); [lia| |done|done|done|].
      - apply (full_sub _ _ _ _ _ Hf1); lia.
      - apply (Hb i); [lia|done]. }
    intros _ l2 (Hr2 & Hs2 & Hlo2). apply wpr_ret. split_and!; [lia..| |done|done| |lia].
    + eapply rearranged_trans; [done|]. apply (rearranged_widen _ _ _ _ _ _ Hr2); lia.
    + intros j b ? Hj. apply (rearranged_outside _ _ _ _ _ _ Hr2) in Hj; [|lia].
      apply (Hb j); [lia|done].
  - split_and!; [lia..|done|done|done|done].
  - lia.
Qed.
(** * Partition *)

(** The values of [lo, mid) do not come after [p], those of [mid, hi) not before. *)
Definition split_by (p : A) (lo mid hi : Z) l : Prop :=
  (∀ i b, lo <= i < mid → holds l i b → b ⊑ p) ∧
  (∀ j b, mid <= j < hi → holds l j b → p ⊑ b).

Lemma scan_forward_spec lo hi q p l w b :
  full l lo hi → holds l q p → lo <= w < hi → holds l w b → p ⊑ b → 0 <= lo →
  wpr (while (λ first, c ← _Iter_comp_iter comp first q;
                       mret (if c : bool then inl (first + 1) else inr first)) lo)
    (λ f l', l' = l ∧ lo <= f <= w ∧ (∀ i x, lo <= i < f → holds l i x → x ⊑ p) ∧
             ∃ x, holds l f x ∧ p ⊑ x) l.
Proof.
  intros Hf Hq ? Hw Hb ?. pose proof (holds_range _ _ _ Hw).
  apply (wpr_while (λ f l', l' = l ∧ lo <= f <= w ∧ (∀ i x, lo <= i < f → holds l i x → x ⊑ p))
    (λ f, w - f)).
  - intros f ? (-> & ? & Hlt). split; [lia|]. destruct (Hf f) as [x Hx]; [lia|].
    apply wpr_bind, (wpr_iter_iter _ _ _ _ _ _ _ Hx Hq), wpr_ret. destruct (comp x p) eqn:E.
    + assert (f ≠ w). { intros ->. rewrite (holds_fun _ _ _ _ Hx Hw) in E. unfold le in Hb. congruence. }
      split_and!; [done|lia..| |lia]. intros i y ? Hy. destruct (decide (i = f)) as [->|].
      * rewrite (holds_fun _ _ _ _ Hy Hx). by apply comp_le.
      * apply (Hlt i); [lia|done].
    + split_and!; [done|lia..|done|]. by exists x.
  - split_and!; [done|lia..|]. intros. lia.
  - lia.
Qed.

Lemma scan_backward_spec lo hi q p l w b :
  full l lo hi → holds l q p → lo <= w < hi → holds l w b → b ⊑ p → 0 <= lo →
  wpr (while (λ last, c ← _Iter_comp_iter comp q last;
                      mret (if c : bool then inl (last - 1) else inr last)) (hi - 1))
    (λ k l', l' = l ∧ w <= k < hi ∧ (∀ i x, k < i < hi → holds l i x → p ⊑ x) ∧
             ∃ x, holds l k x ∧ x ⊑ p) l.
Proof.
  intros Hf Hq ? Hw Hb ?. pose proof (full_zlen _ _ _ Hf ltac:(lia)).
  apply (wpr_while (λ k l', l' = l ∧ w <= k < hi ∧ (∀ i x, k < i < hi → holds l i x → p ⊑ x))
    (λ k, k - w)).
  - intros k ? (-> & ? & Hgt). split; [lia|]. destruct (Hf k) as [x Hx]; [lia|].
    apply wpr_bind, (wpr_iter_iter _ _ _ _ _ _ _ Hq Hx), wpr_ret. destruct (comp p x) eqn:E.
    + assert (k ≠ w). { intros ->. rewrite (holds_fun _ _ _ _ Hx Hw) in E. unfold le in Hb. congruence. }
      split_and!; [done|lia..| |lia]. intros i y ? Hy. destruct (decide (i = k)) as [->|].
      * rewrite (holds_fun _ _ _ _ Hy Hx). by apply comp_le.
      * apply (Hgt i); [lia|done].
    + split_and!; [done|lia..|done|]. by exists x.
  - split_and!; [done|lia..|]. intros. lia.
  - lia.
Qed.

(** A value on each side of the pivot stops the two scans. *)
Lemma __unguarded_partition_spec lo hi q p l :
  0 <= lo → ¬ (lo <= q < hi) → full l lo hi → holds l q p →
  (∃ i b, lo <= i < hi ∧ holds l i b ∧ p ⊑ b) → (∃ j b, lo <= j < hi ∧ holds l j b ∧ b ⊑ p) →
  wpr (__unguarded_partition comp lo hi q)
    (λ cut l', lo <= cut <= hi ∧ rearranged lo hi l l' ∧ split_by p lo cut hi l') l.
Proof.
  intros ?? Hf Hq Hi Hj. assert (lo < hi) by (destruct Hi as (? & ? & ? & _); lia).
  pose proof (full_zlen _ _ _ Hf ltac:(lia)).
  apply (wpr_while (λ '(f, k) l1, lo <= f <= k ∧ k <= hi ∧ rearranged lo hi l l1 ∧
    (∀ i b, lo <= i < f → holds l1 i b → b ⊑ p) ∧ (∀ j b, k <= j < hi → holds l1 j b → p ⊑ b) ∧
    (∃ i b, f <= i < hi ∧ holds l1 i b ∧ p ⊑ b) ∧ (∃ j b, lo <= j < k ∧ holds l1 j b ∧ b ⊑ p))
    (λ x, snd x - fst x)).
  - clear Hi Hj. intros [f k] l1 (? & ? & Hr & Hl & Hu & (w & b & ? & Hw & Hb) & (w' & b' & ? & Hw' & Hb')).
    cbn. split; [lia|].
    assert (full l1 lo hi) as Hf1 by (by apply (rearranged_full _ _ l)).
    assert (holds l1 q p) as Hq1 by (by apply (rearranged_outside _ _ _ _ _ _ Hr)).
    apply wpr_bind. eapply wpr_mono.
    { apply (scan_forward_spec f hi q p l1 w b); [apply (full_sub _ _ _ _ _ Hf1); lia|done|lia|done|done|lia]. }
    intros f1 ? (-> & ? & Hl1 & x & Hx & Hpx). apply wpr_bind. eapply wpr_mono.
    { apply (scan_backward_spec lo k q p l1 w' b'); [apply (full_sub _ _ _ _ _ Hf1); lia|done|lia|done|done|lia]. }
    intros k1 ? (-> & ? & Hu1 & y & Hy & Hyp).
    assert (∀ i b, lo <= i < f1 → holds l1 i b → b ⊑ p) as Hlow.
    { intros i c ? Hc. destruct (decide (i < f)); [apply (Hl i)|apply (Hl1 i)]; done || lia. }
    assert (∀ j b, k1 < j < hi → holds l1 j b → p ⊑ b) as Hup.
    { intros j c ? Hc. destruct (decide (j < k)); [apply (Hu1 j)|apply (Hu j)]; done || lia. }
    destruct (Z.ltb_spec f1 k1); cbn [negb].
    + assert (f1 ≠ k1) as Hne by lia. apply wpr_bind, (wpr_iter_swap _ _ _ _ _ _ Hne Hx Hy), wpr_ret.
      pose proof (holds_range _ _ _ Hx). pose proof (holds_range _ _ _ Hy).
      split; [|cbn; lia]. split_and!; [lia..| | | | |].
      * eapply rearranged_trans; [done|]. apply rearranged_swap; [lia..|done|done].
      * intros i c ? Hc. cell_inv. apply (Hlow i); [lia|done].
      * intros j c ? Hc. cell_inv. apply (Hup j); [lia|done].
      * exists k1, x. split; [lia|]. split; [|done]. apply holds_updZ_eq. by rewrite zlen_updZ.
      * exists f1, y. split; [lia|]. split; [|done].
        apply holds_updZ_ne; [lia..|]. by apply holds_updZ_eq.
    + apply wpr_ret. split_and!; [lia..|done|]. split; [done|]. intros j c ? Hc.
      destruct (decide (j = f1)) as [->|]; [by rewrite (holds_fun _ _ _ _ Hc Hx)|].
      apply (Hup j); [lia|done].
  - split_and!; [lia..|done| | |done|done]; intros; lia.
  - cbn. lia.
Qed.

(** * The median as pivot *)

Lemma pivot_swap_spec lo hi r m i j l p u v :
  0 <= lo → lo <= r < hi → lo <= m < hi → lo <= i < hi → lo <= j < hi →
  r ≠ m → i ≠ r → i ≠ m → j ≠ r → j ≠ m → full l lo hi →
  holds l m p → holds l i u → holds l j v →
  wpr (iter_swap r m) (λ _ l', rearranged lo hi l l' ∧ holds l' r p ∧ holds l' i u ∧ holds l' j v) l.
Proof.
  intros ????? Hne ???? Hf Hm Hi Hj. destruct (Hf r) as [p0 Hr]; [lia|].
  pose proof (holds_range _ _ _ Hr).
  apply (wpr_iter_swap _ _ _ _ _ _ Hne Hr Hm). split_and!.
  - apply rearranged_swap; [lia..|done|done].
  - apply holds_updZ_ne; [lia..|]. by apply holds_updZ_eq.
  - by repeat (apply holds_updZ_ne; [lia..|]).
  - by repeat (apply holds_updZ_ne; [lia..|]).
Qed.

(** After the move there is a value on each side of the pivot. *)
Lemma __move_median_to_first_spec lo hi r a b c l :
  0 <= lo → lo <= r < a → a < b < c → c < hi → full l lo hi →
  wpr (__move_median_to_first comp r a b c)
    (λ _ l', rearranged lo hi l l' ∧ ∃ p, holds l' r p ∧
      (∃ i x, a <= i <= c ∧ holds l' i x ∧ p ⊑ x) ∧
      (∃ j y, a <= j <= c ∧ holds l' j y ∧ y ⊑ p)) l.
Proof.
  intros ???? Hf. destruct (Hf a) as [x Ha]; [lia|]. destruct (Hf b) as [y Hb]; [lia|].
  destruct (Hf c) as [z Hc]; [lia|].
  assert (∀ m i j p u v, (m = a ∨ m = b ∨ m = c) → a <= i <= c → a <= j <= c → i ≠ m → j ≠ m →
    holds l m p → holds l i u → holds l j v → p ⊑ u → v ⊑ p →
    wpr (iter_swap r m) (λ _ l', rearranged lo hi l l' ∧ ∃ p, holds l' r p ∧
      (∃ i x, a <= i <= c ∧ holds l' i x ∧ p ⊑ x) ∧
      (∃ j y, a <= j <= c ∧ holds l' j y ∧ y ⊑ p)) l) as Hswap.
  { intros m i j p u v Hm ???? Hp Hu Hv ??. assert (a <= m <= c) by lia. clear Hm.
    eapply wpr_mono; [apply (pivot_swap_spec lo hi r m i j l p u v); done || lia|].
    intros _ l' (? & ? & ? & ?). split; [done|]. exists p.
    split_and!; [done|by exists i, u|by exists j, v]. }
  apply wpr_bind, (wpr_iter_iter _ _ _ _ _ _ _ Ha Hb). destruct (comp x y) eqn:Exy.
  - apply wpr_bind, (wpr_iter_iter _ _ _ _ _ _ _ Hb Hc). destruct (comp y z) eqn:Eyz.
    { apply (Hswap b c a y z x); done || lia || by apply comp_le. }
    apply wpr_bind, (wpr_iter_iter _ _ _ _ _ _ _ Ha Hc). destruct (comp x z) eqn:Exz.
    + apply (Hswap c b a z y x); done || lia || by apply comp_le.
    + apply (Hswap a b c x y z); done || lia || by apply comp_le.
  - apply wpr_bind, (wpr_iter_iter _ _ _ _ _ _ _ Ha Hc). destruct (comp x z) eqn:Exz.
    { apply (Hswap a c b x z y); done || lia || by apply comp_le. }
    apply wpr_bind, (wpr_iter_iter _ _ _ _ _ _ _ Hb Hc). destruct (comp y z) eqn:Eyz.
    + apply (Hswap c a b z x y); done || lia || by apply comp_le.
    + apply (Hswap b a c y x z); done || lia || by apply comp_le.
Qed.

(** All values of [lo, cut) do not come after those of [cut, hi). *)
Definition split_at (lo cut hi : Z) l : Prop :=
  ∀ i j a b, lo <= i < cut → cut <= j < hi → holds l i a → holds l j b → a ⊑ b.

Lemma __unguarded_partition_pivot_spec lo hi l :
  0 <= lo → lo + 3 < hi → full l lo hi →
  wpr (__unguarded_partition_pivot comp lo hi)
    (λ cut l', lo < cut <= hi ∧ rearranged lo hi l l' ∧ split_at lo cut hi l') l.
Proof.
  intros ?? Hf. pose proof (full_zlen _ _ _ Hf ltac:(lia)).
  unfold __unguarded_partition_pivot. rewrite cdiv_div by lia.
  apply wpr_bind. eapply wpr_mono.
  { apply (__move_median_to_first_spec lo hi lo (lo + 1) _ (hi - 1) l); [lia..|divlia|lia|done]. }
  intros _ l1 (Hr & p & Hp & (i & x & ? & Hi & Hx) & (j & y & ? & Hj & Hy)).
  assert (full l1 lo hi) as Hf1 by (by apply (rearranged_full _ _ l)).
  eapply wpr_mono.
  { apply (__unguarded_partition_spec (lo + 1) hi lo p l1); [lia..| |done| |].
    - apply (full_sub _ _ _ _ _ Hf1); lia.
    - exists i, x. split_and!; [lia..|done|done].
    - exists j, y. split_and!; [lia..|done|done]. }
  intros cut l2 (? & Hr2 & Hl & Hu). split_and!; [lia..| |].
  - eapply rearranged_trans; [done|]. apply (rearranged_widen _ _ _ _ _ _ Hr2); lia.
  - intros i' j' a b ?? Ha Hb. trans p; [|apply (Hu j'); [lia|done]].
    destruct (decide (i' = lo)) as [->|]; [|apply (Hl i'); [lia|done]].
    apply (rearranged_outside _ _ _ _ _ _ Hr2) in Ha; [|lia].
    by rewrite (holds_fun _ _ _ _ Ha Hp).
Qed.
(** * Heap selection *)

Lemma adjust_empty lo v l : __adjust_heap comp lo 0 0 v l = assign lo v l.
Proof. rewrite <- (Z.add_0_r lo) at 2. done. Qed.

(** A heap of no elements takes the value into its first cell. *)
Lemma pop_empty_spec lo r l x t :
  0 <= lo → r ≠ lo → holds l r x → holds l lo t →
  wpr (__pop_heap comp lo lo r) (λ _ l', l' = updZ (updZ l r (Some t)) lo (Some x)) l.
Proof.
  intros ?? Hx Ht. pose proof (holds_range _ _ _ Hx). pose proof (holds_range _ _ _ Ht).
  apply wpr_bind, (wpr_move_from _ _ _ _ Hx), wpr_bind, (wpr_move_from _ _ (Some t)).
  { apply holds_updZ_ne; [lia..|done]. }
  apply wpr_bind, wpr_assign; [by rewrite !zlen_updZ|]. rewrite Z.sub_diag.
  unfold wpr. rewrite adjust_empty. fold (wpr (assign lo (Some x))
    (λ _ l', l' = updZ (updZ l r (Some t)) lo (Some x))
    (updZ (updZ (updZ l r None) lo None) r (Some t))).
  apply wpr_assign; [by rewrite !zlen_updZ|].
  by rewrite (updZ_comm (updZ l r None)), !updZ_updZ by lia.
Qed.

(** One step: the value at [i] goes into the heap if it comes before the top. *)
Lemma heap_select_step lo mid i l x top :
  0 <= lo < mid → mid <= i → full l lo mid → holds l lo top → holds l i x → comp x top = true →
  heap comp lo (mid - lo) l → split_at lo mid i l →
  wpr (__pop_heap comp lo mid i)
    (λ _ l', rearranged lo (i + 1) l l' ∧ heap comp lo (mid - lo) l' ∧ split_at lo mid (i + 1) l') l.
Proof.
  intros ?? Hf Ht Hx E Hh Hs. pose proof (holds_range _ _ _ Hx). eapply wpr_mono.
  { apply (__pop_heap_spec comp lo mid i l x top); [lia..|done|done|done|done]. }
  intros _ l' [Hr Hh']. split_and!; [|done|].
  - eapply rearranged_trans; [|apply (rearranged_widen _ _ _ _ _ _ Hr); lia].
    apply rearranged_swap; [lia..|done|done].
  - assert (∀ k a, lo <= k < mid → holds l' k a → a ⊑ top) as Hle.
    { apply (rearranged_holds lo mid _ _ (λ a, a ⊑ top) ltac:(lia) Hr). intros k a ? Ha. cell_inv.
      - by apply comp_le.
      - apply (heap_max comp lo (mid - lo) l k); [done| |lia|done|done].
        by replace (lo + (mid - lo)) with mid by lia. }
    intros k j a b ?? Ha Hb. trans top; [by apply (Hle k)|].
    apply (rearranged_outside _ _ _ _ _ _ Hr) in Hb; [|lia]. cell_inv.
    apply (Hs lo j); [lia|lia|done|done].
Qed.

Lemma heap_select_rest lo mid last l :
  0 <= lo < mid → mid <= last → full l lo last → heap comp lo (mid - lo) l →
  wpr (while (λ i,
    if i <? last then
      b ← _Iter_comp_iter comp i lo;
      (if b : bool then __pop_heap comp lo mid i else mret tt);;
      mret (inl (i + 1))
    else mret (inr tt)) mid)
    (λ _ l', rearranged lo last l l' ∧ heap comp lo (mid - lo) l' ∧ split_at lo mid last l') l.
Proof.
  intros ?? Hf Hh. pose proof (full_zlen _ _ _ Hf ltac:(lia)).
  apply (wpr_while (λ i l1, mid <= i <= last ∧ rearranged lo last l l1 ∧
    heap comp lo (mid - lo) l1 ∧ split_at lo mid i l1) (λ i, last - i)).
  - clear Hh. intros i l1 (? & Hr & Hh & Hs). split; [lia|].
    assert (full l1 lo last) as Hf1 by (by apply (rearranged_full _ _ l); [lia|..]).
    destruct (Z.ltb_spec i last); [|by apply wpr_ret; replace last with i by lia; replace last with i in Hr by lia].
    destruct (Hf1 lo) as [top Ht]; [lia|]. destruct (Hf1 i) as [x Hx]; [lia|].
    assert (full l1 lo mid) as Hfm by (apply (full_sub _ _ _ _ _ Hf1); lia).
    apply wpr_bind, (wpr_iter_iter _ _ _ _ _ _ _ Hx Ht), wpr_bind.
    apply (wpr_mono _ (λ _ l2, rearranged lo (i + 1) l1 l2 ∧ heap comp lo (mid - lo) l2 ∧
      split_at lo mid (i + 1) l2)).
    + destruct (comp x top) eqn:E; [apply (heap_select_step _ _ _ _ x top); done || lia|].
      apply wpr_ret. split_and!; [done|done|]. intros k j a b ?? Ha Hb.
      destruct (decide (j = i)) as [->|]; [|apply (Hs k j); [lia|lia|done|done]].
      rewrite (holds_fun _ _ _ _ Hb Hx). trans top; [|done].
      apply (heap_max comp lo (mid - lo) l1 k); [done| |lia|done|done].
      by replace (lo + (mid - lo)) with mid by lia.
    + intros _ l2 (Hr2 & Hh2 & Hs2). apply wpr_ret. split_and!; [lia..| |done|done|lia].
      eapply rearranged_trans; [done|]. apply (rearranged_widen _ _ _ _ _ _ Hr2); lia.
  - split_and!; [lia..|done|done|]. intros k j a b ??. lia.
  - lia.
Qed.

Lemma heap_select_none lo last l :
  0 <= lo <= last → full l lo last →
  wpr (__heap_select comp lo lo last) (λ _ l', rearranged lo last l l') l.
Proof.
  intros ? Hf. unfold __heap_select, __make_heap. rewrite Z.sub_diag. cbn [Z.ltb Z.compare].
  apply wpr_bind, wpr_ret.
  apply (wpr_while (λ i l1, lo <= i <= last ∧ rearranged lo last l l1) (λ i, last - i)).
  - intros i l1 [? Hr]. split; [lia|].
    destruct (Z.ltb_spec i last); [|by apply wpr_ret].
    pose proof (full_zlen _ _ _ Hf ltac:(lia)).
    assert (full l1 lo last) as Hf1 by (by apply (rearranged_full _ _ l); [lia|..]).
    destruct (Hf1 lo) as [t Ht]; [lia|]. destruct (Hf1 i) as [x Hx]; [lia|].
    apply wpr_bind, (wpr_iter_iter _ _ _ _ _ _ _ Hx Ht), wpr_bind.
    apply (wpr_mono _ (λ _ l2, rearranged lo last l1 l2)).
    + destruct (comp x t) eqn:E; [|by apply wpr_ret]. assert (i ≠ lo).
      { intros ->. rewrite (holds_fun _ _ _ _ Hx Ht), swo_irreflexive in E. done. }
      eapply wpr_mono; [apply (pop_empty_spec lo i l1 x t); [lia|done..]|].
      intros ? ? ->. apply rearranged_swap; [lia..|done|done].
    + intros ? l2 Hr2. apply wpr_ret. split_and!; [lia..| |lia]. by eapply rearranged_trans.
  - split; [lia|done].
  - destruct (decide (lo = last)) as [->|]; [rewrite Z.sub_diag; unfold zlen; lia|].
    pose proof (full_zlen _ _ _ Hf ltac:(lia)). lia.
Qed.

Lemma __heap_select_spec lo mid last l :
  0 <= lo < mid → mid <= last → full l lo last →
  wpr (__heap_select comp lo mid last)
    (λ _ l', rearranged lo last l l' ∧ heap comp lo (mid - lo) l' ∧ split_at lo mid last l') l.
Proof.
  intros ?? Hf. pose proof (full_zlen _ _ _ Hf ltac:(lia)). apply wpr_bind. eapply wpr_mono.
  { apply (__make_heap_spec comp lo mid l); [lia|]. apply (full_sub _ _ _ _ _ Hf); lia. }
  intros _ l1 [Hr Hh]. assert (rearranged lo last l l1) as Hr' by (apply (rearranged_widen _ _ _ _ _ _ Hr); lia).
  eapply wpr_mono.
  { apply (heap_select_rest lo mid last l1); [lia..| |done]. apply (rearranged_full _ _ l); [lia|lia|done|done]. }
  intros _ l2 (? & ? & ?). split_and!; [|done|done]. by eapply rearranged_trans.
Qed.
(** * Sorting *)

(** A split stays one when each side is rearranged. *)
Lemma split_at_left lo cut hi l l' :
  0 <= lo → split_at lo cut hi l → rearranged lo cut l l' → split_at lo cut hi l'.
Proof.
  intros ? Hs Hr i j a b Hi Hj Ha Hb.
  apply (rearranged_outside _ _ _ _ _ _ Hr) in Hb; [|lia]. revert i a Hi Ha.
  apply (rearranged_holds lo cut l l' (λ a, a ⊑ b) ltac:(lia) Hr).
  intros i a ? Ha. by apply (Hs i j).
Qed.

Lemma split_at_right lo cut hi l l' :
  0 <= lo → lo <= cut → split_at lo cut hi l → rearranged cut hi l l' → split_at lo cut hi l'.
Proof.
  intros ?? Hs Hr i j a b Hi Hj Ha Hb.
  apply (rearranged_outside _ _ _ _ _ _ Hr) in Ha; [|lia]. revert j b Hj Hb.
  apply (rearranged_holds cut hi l l' (λ b, a ⊑ b) ltac:(lia) Hr).
  intros j b ? Hb. by apply (Hs i j).
Qed.

Lemma __partial_sort_spec lo mid last l :
  0 <= lo <= mid → mid <= last → full l lo last →
  wpr (__partial_sort comp lo mid last)
    (λ _ l', rearranged lo last l l' ∧ sorted_range comp l' lo mid ∧ split_at lo mid last l') l.
Proof.
  intros ?? Hf. apply wpr_bind. destruct (decide (lo = mid)) as [<-|].
  - eapply wpr_mono; [apply (heap_select_none lo last l); [lia|done]|].
    intros [] l1 Hr. eapply wpr_mono.
    { apply (__sort_heap_spec comp lo lo l1); [lia| |]; intros i ?; lia. }
    intros _ l2 [Hr2 Hs]. split_and!; [|done|intros i j a b ?; lia].
    eapply rearranged_trans; [done|]. apply (rearranged_widen _ _ _ _ _ _ Hr2); lia.
  - pose proof (full_zlen _ _ _ Hf ltac:(lia)). eapply wpr_mono.
    { apply (__heap_select_spec lo mid last l); [lia..|done]. }
    intros _ l1 (Hr & Hh & Hs). assert (full l1 lo mid) as Hf1.
    { apply (full_sub l1 lo last); [|lia..]. apply (rearranged_full _ _ l); [lia|lia|done|done]. }
    eapply wpr_mono; [apply (__sort_heap_spec comp lo mid l1); [lia|done|done]|].
    intros _ l2 [Hr2 Hs2]. split_and!; [|done|apply (split_at_left _ _ _ l1); [lia|done|done]].
    eapply rearranged_trans; [done|]. apply (rearranged_widen _ _ _ _ _ _ Hr2); lia.
Qed.

(** What the loop leaves to the insertion sort: from the sixteenth place on, no
    value comes before the first one. *)
Lemma __introsort_loop_spec d lo hi l :
  0 <= lo <= hi → full l lo hi →
  wpr (__introsort_loop comp d lo hi)
    (λ _ l', rearranged lo hi l l' ∧
      ∀ j a b, lo + _S_threshold <= j < hi → holds l' lo a → holds l' j b → a ⊑ b) l.
Proof.
  unfold _S_threshold. revert lo hi l. induction d as [|d IH]; intros lo hi l ? Hf; cbn;
    (destruct (Z.ltb_spec _S_threshold (hi - lo)) as [Hn|]; unfold _S_threshold in *;
     [|apply wpr_ret; split; [done|]; intros; lia]);
    pose proof (full_zlen _ _ _ Hf ltac:(lia)).
  - eapply wpr_mono; [apply (__partial_sort_spec lo hi hi l); [lia..|done]|].
    intros _ l' (Hr & Hs & _). split; [done|]. intros j a b ? Ha Hb.
    apply (Hs lo j); [lia|lia|done|done].
  - apply wpr_bind. eapply wpr_mono.
    { apply (__unguarded_partition_pivot_spec lo hi l); [lia..|done]. }
    intros cut l1 (? & Hr1 & Hs1). assert (full l1 lo hi) as Hf1 by (by apply (rearranged_full _ _ l); [lia|..]).
    apply wpr_bind. eapply wpr_mono.
    { apply (IH cut hi l1); [lia|]. apply (full_sub _ _ _ _ _ Hf1); lia. }
    intros _ l2 [Hr2 _]. assert (rearranged lo hi l1 l2) as Hr2' by (apply (rearranged_widen _ _ _ _ _ _ Hr2); lia).
    assert (full l2 lo hi) as Hf2.
    { apply (rearranged_full _ _ l1); [lia| |done|done]. rewrite (rearranged_length _ _ _ _ Hr1). lia. }
    apply (split_at_right _ _ _ _ l2) in Hs1; [|lia|lia|done].
    eapply wpr_mono; [apply (IH lo cut l2); [lia|apply (full_sub _ _ _ _ _ Hf2); lia]|].
    intros _ l3 [Hr3 Hl]. apply (split_at_left _ _ _ _ l3) in Hs1; [|lia|done]. split.
    + do 2 (eapply rearranged_trans; [done|]). apply (rearranged_widen _ _ _ _ _ _ Hr3); lia.
    + intros j a b ? Ha Hb. destruct (decide (j < cut)); [apply (Hl j); [lia|done|done]|].
      apply (Hs1 lo j); [lia|lia|done|done].
Qed.

Lemma __final_insertion_sort_spec lo hi l :
  0 <= lo <= hi → full l lo hi →
  (∀ j a b, lo + _S_threshold <= j < hi → holds l lo a → holds l j b → a ⊑ b) →
  wpr (__final_insertion_sort comp lo hi)
    (λ _ l', rearranged lo hi l l' ∧ sorted_range comp l' lo hi) l.
Proof.
  intros ? Hf Hl. unfold __final_insertion_sort.
  destruct (Z.ltb_spec _S_threshold (hi - lo)); [|by apply __insertion_sort_spec].
  unfold _S_threshold in *. pose proof (full_zlen _ _ _ Hf ltac:(lia)). apply wpr_bind. eapply wpr_mono.
  { apply (__insertion_sort_spec lo (lo + 16) l); [lia|]. apply (full_sub _ _ _ _ _ Hf); lia. }
  intros _ l1 [Hr Hs]. assert (rearranged lo hi l l1) as Hr' by (apply (rearranged_widen _ _ _ _ _ _ Hr); lia).
  assert (full l1 lo hi) as Hf1 by (by apply (rearranged_full _ _ l); [lia|..]).
  destruct (Hf1 lo) as [s Hlo]; [lia|]. destruct (Hf lo) as [a Ha]; [lia|].
  assert (s ⊑ a) as Hsa.
  { refine (rearranged_holds lo (lo + 16) l1 l (λ a, s ⊑ a) _ (rearranged_sym _ _ _ _ Hr) _ lo a _ Ha); [lia| |lia].
    intros i b ? Hb. apply (Hs lo i); [lia|lia|done|done]. }
  eapply wpr_mono.
  { apply (__unguarded_insertion_sort_spec lo (lo + 16) hi l1 s); [lia..|done|done|done|].
    intros i b ? Hb. trans a; [done|].
    apply (rearranged_outside _ _ _ _ _ _ Hr) in Hb; [|lia]. apply (Hl i); [lia|done|done]. }
  intros _ l2 [Hr2 Hs2]. split; [by eapply rearranged_trans|done].
Qed.

Lemma __sort_spec lo hi l :
  0 <= lo <= hi → full l lo hi →
  wpr (__sort comp lo hi) (λ _ l', rearranged lo hi l l' ∧ sorted_range comp l' lo hi) l.
Proof.
  intros ? Hf. unfold __sort. destruct (Z.eqb_spec lo hi) as [->|].
  { apply wpr_ret. split; [done|]. intros i j a b ??. lia. }
  pose proof (full_zlen _ _ _ Hf ltac:(lia)). apply wpr_bind. eapply wpr_mono.
  { by apply (__introsort_loop_spec _ lo hi l). }
  intros _ l1 [Hr Hl]. eapply wpr_mono.
  { apply (__final_insertion_sort_spec lo hi l1); [done| |done]. by apply (rearranged_full _ _ l); [lia|..]. }
  intros _ l2 [Hr2 Hs]. split; [by eapply rearranged_trans|done].
Qed.

(** * Selection *)

(** The value at [n] is in its place. *)
Definition selected (lo n hi : Z) l : Prop :=
  ∀ i j a b, lo <= i <= n → n <= j < hi → holds l i a → holds l j b → a ⊑ b.

Lemma selected_last lo n hi l :
  0 <= lo <= n → n < hi → full l lo hi →
  wpr (__heap_select comp lo (n + 1) hi;; iter_swap lo n)
    (λ _ l', rearranged lo hi l l' ∧ selected lo n hi l') l.
Proof.
  intros ?? Hf. pose proof (full_zlen _ _ _ Hf ltac:(lia)). apply wpr_bind. eapply wpr_mono.
  { apply (__heap_select_spec lo (n + 1) hi l); [lia..|done]. }
  intros _ l1 (Hr & Hh & Hs). assert (full l1 lo hi) as Hf1 by (by apply (rearranged_full _ _ l); [lia|..]).
  destruct (Hf1 lo) as [t Ht]; [lia|]. destruct (Hf1 n) as [x Hx]; [lia|].
  assert (∀ i a, lo <= i <= n → holds l1 i a → a ⊑ t) as Hmax.
  { intros i a ? Ha. apply (heap_max comp lo (n + 1 - lo) l1 i); [done| |lia|done|done].
    apply (full_sub _ _ _ _ _ Hf1); lia. }
  assert (∀ l', rearranged lo hi l1 l' → holds l' n t → (∀ i a, lo <= i < n → holds l' i a → a ⊑ t) →
    (∀ j b, n < j < hi → holds l' j b → holds l1 j b) → selected lo n hi l') as Hsel.
  { intros l' Hr' Hn Hb Ha i j a b ?? Hi Hj. trans t.
    - destruct (decide (i = n)) as [->|]; [by rewrite (holds_fun _ _ _ _ Hi Hn)|apply (Hb i); [lia|done]].
    - destruct (decide (j = n)) as [->|]; [by rewrite (holds_fun _ _ _ _ Hj Hn)|].
      apply (Hs lo j); [lia|lia|done|apply (Ha j); [lia|done]]. }
  destruct (decide (lo = n)) as [->|Hne].
  - apply (wpr_iter_swap_self _ _ _ _ Ht). split; [done|].
    apply Hsel; [done|done|intros; lia|done].
  - apply (wpr_iter_swap _ _ _ _ _ _ Hne Ht Hx).
    pose proof (holds_range _ _ _ Ht). pose proof (holds_range _ _ _ Hx).
    assert (rearranged lo hi l1 (updZ (updZ l1 lo (Some x)) n (Some t))) as Hr2
      by (apply rearranged_swap; [lia..|done|done]).
    split; [by eapply rearranged_trans|]. apply Hsel; [done| | |].
    + apply holds_updZ_eq. by rewrite zlen_updZ.
    + intros i a ? Ha. cell_inv; [apply (Hmax n); [lia|done]|apply (Hmax i); [lia|done]].
    + intros j b ? Hb. cell_inv.
Qed.

Lemma __introselect_spec d lo n hi l :
  0 <= lo <= n → n < hi → full l lo hi →
  wpr (__introselect comp d lo n hi) (λ _ l', rearranged lo hi l l' ∧ selected lo n hi l') l.
Proof.
  revert lo hi l. induction d as [|d IH]; intros lo hi l ?? Hf; cbn;
    (destruct (Z.ltb_spec 3 (hi - lo));
     [|eapply wpr_mono; [by apply (__insertion_sort_spec lo hi l); [lia|]|];
       intros _ l' [Hr Hs]; split; [done|]; intros i j a b ??; apply Hs; lia]);
    pose proof (full_zlen _ _ _ Hf ltac:(lia)).
  - by apply selected_last.
  - apply wpr_bind. eapply wpr_mono.
    { apply (__unguarded_partition_pivot_spec lo hi l); [lia..|done]. }
    intros cut l1 (? & Hr1 & Hs1). assert (full l1 lo hi) as Hf1 by (by apply (rearranged_full _ _ l); [lia|..]).
    destruct (Z.leb_spec cut n); (eapply wpr_mono; [apply IH; [lia|lia|apply (full_sub _ _ _ _ _ Hf1); lia]|]);
      intros _ l2 [Hr2 Hs2]; (split; [eapply rearranged_trans; [done|]; apply (rearranged_widen _ _ _ _ _ _ Hr2); lia|]).
    + apply (split_at_right _ _ _ _ l2) in Hs1; [|lia|lia|done]. intros i j a b ?? Ha Hb.
      destruct (decide (i < cut)); [apply (Hs1 i j)|apply (Hs2 i j)]; done || lia.
    + apply (split_at_left _ _ _ _ l2) in Hs1; [|lia|done]. intros i j a b ?? Ha Hb.
      destruct (decide (j < cut)); [apply (Hs2 i j)|apply (Hs1 i j)]; done || lia.
Qed.

(** * The functions of the library *)

Implicit Types pre post : arr.

(** C16: [std::sort], for any comparison that is a strict weak order and any range
    of an array, ends without leaving the range or comparing an object that has been
    moved from; the values of the range are permuted into ascending order and
    the rest of the array is untouched. *)
Theorem sort_sorts pre (xs : list A) post :
  ∃ ys, run (sort comp (zlen pre) (zlen pre + zlen xs)) (pre ++ (Some <$> xs) ++ post) =
          Some (pre ++ (Some <$> ys) ++ post) ∧
        ys ≡ₚ xs ∧ StronglySorted (le comp) ys.
Proof.
  destruct (run_app_mid (sort comp (zlen pre) (zlen pre + zlen xs)) _ pre post xs
    (__sort_spec (zlen pre) (zlen pre + zlen xs) _ ltac:(unfold zlen; lia)
      (full_app_mid pre post xs))) as (ys & E & Hp & Hs).
  exists ys. split_and!; [done|done|]. apply (sorted_app_mid comp pre post).
  by rewrite (zlen_perm xs ys).
Qed.

(** [std::partial_sort] puts the [middle - first] first values of the order
    into the front of the range, sorted, and leaves the others, none of which comes
    before them, behind; also when the front is empty. *)
Theorem partial_sort_sorts pre (xs : list A) post (k : nat) :
  (k <= length xs)%nat →
  ∃ ys zs,
    run (partial_sort comp (zlen pre) (zlen pre + Z.of_nat k) (zlen pre + zlen xs))
      (pre ++ (Some <$> xs) ++ post) = Some (pre ++ (Some <$> ys ++ zs) ++ post) ∧
    ys ++ zs ≡ₚ xs ∧ length ys = k ∧ StronglySorted (le comp) ys ∧
    ∀ y z, y ∈ ys → z ∈ zs → y ⊑ z.
Proof.
  intros Hk. destruct (run_app_mid (partial_sort comp (zlen pre) (zlen pre + Z.of_nat k)
      (zlen pre + zlen xs)) _ pre post xs
    (__partial_sort_spec (zlen pre) (zlen pre + Z.of_nat k) (zlen pre + zlen xs) _
      ltac:(unfold zlen; lia) ltac:(unfold zlen; lia)
      (full_app_mid pre post xs))) as (ys & E & Hp & Hs & Hsplit).
  pose proof (Permutation_length Hp) as Hlen.
  assert (length (take k ys) = k) as Hl by (rewrite length_take; lia).
  exists (take k ys), (drop k ys). rewrite take_drop. split_and!; [done|done|done| |].
  - rewrite <- (take_drop k ys), fmap_app, <- app_assoc in Hs.
    apply (sorted_app_mid comp pre ((Some <$> drop k ys) ++ post)).
    replace (zlen (take k ys)) with (Z.of_nat k) by (unfold zlen; lia). done.
  - intros y z [i Hi]%list_elem_of_lookup [j Hj]%list_elem_of_lookup.
    pose proof (lookup_lt_Some _ _ _ Hj) as Hj'. rewrite length_drop in Hj'.
    apply lookup_take_Some in Hi as [Hi ?]. rewrite lookup_drop in Hj.
    apply (Hsplit (zlen pre + Z.of_nat i) (zlen pre + Z.of_nat (k + j))); [lia|unfold zlen; lia|..];
      apply holds_app_mid; by left.
Qed.

(** C21: [std::nth_element] puts the value that sorting would put at [nth] there,
    with no value after it in order before it and none before it in order after it. *)
Theorem nth_element_selects pre (xs : list A) post (n : nat) :
  (n < length xs)%nat →
  ∃ ys y zs,
    run (nth_element comp (zlen pre) (zlen pre + Z.of_nat n) (zlen pre + zlen xs))
      (pre ++ (Some <$> xs) ++ post) = Some (pre ++ (Some <$> ys ++ y :: zs) ++ post) ∧
    ys ++ y :: zs ≡ₚ xs ∧ length ys = n ∧
    Forall (λ a, a ⊑ y) ys ∧ Forall (λ b, y ⊑ b) zs.
Proof.
  intros Hn. assert (wpr (nth_element comp (zlen pre) (zlen pre + Z.of_nat n) (zlen pre + zlen xs))
    (λ _ l', rearranged (zlen pre) (zlen pre + zlen xs) (pre ++ (Some <$> xs) ++ post) l' ∧
      selected (zlen pre) (zlen pre + Z.of_nat n) (zlen pre + zlen xs) l')
    (pre ++ (Some <$> xs) ++ post)) as Hw.
  { unfold nth_element. rewrite (proj2 (Z.eqb_neq _ _)), (proj2 (Z.eqb_neq (_ + Z.of_nat n) _))
      by (unfold zlen; lia).
    apply __introselect_spec; [unfold zlen; lia..|apply full_app_mid]. }
  destruct (run_app_mid _ _ _ _ _ Hw) as (ys & E & Hp & Hs).
  pose proof (Permutation_length Hp) as Hlen.
  destruct (lookup_lt_is_Some_2 ys n) as [y Ey]; [lia|].
  pose proof (take_drop_middle ys n y Ey) as Ed.
  exists (take n ys), y, (drop (S n) ys). rewrite Ed.
  assert (holds (pre ++ (Some <$> ys) ++ post) (zlen pre + Z.of_nat n) y) as Hy
    by (apply holds_app_mid; by left).
  split_and!; [done|done|rewrite length_take; lia|..]; apply Forall_forall;
    intros a [i Hi]%list_elem_of_lookup.
  - apply lookup_take_Some in Hi as [Hi ?].
    apply (Hs (zlen pre + Z.of_nat i) (zlen pre + Z.of_nat n)); [lia|unfold zlen; lia| |done].
    apply holds_app_mid. by left.
  - rewrite lookup_drop in Hi. pose proof (lookup_lt_Some _ _ _ Hi).
    apply (Hs (zlen pre + Z.of_nat n) (zlen pre + Z.of_nat (S n + i))); [lia|unfold zlen; lia|done|].
    apply holds_app_mid. by left.
Qed.
End Sort.

(** * Integers *)

Lemma le_Z_ltb a b : le Z.ltb a b ↔ a <= b.
Proof. unfold le. apply Z.ltb_ge. Qed.

Lemma sorted_Z_ltb ys : StronglySorted (le Z.ltb) ys → StronglySorted Z.le ys.
Proof.
  induction 1 as [|y ys _ IH Hy]; constructor; [done|].
  eapply Forall_impl; [exact Hy|]. intros b. by rewrite le_Z_ltb.
Qed.

(** On integers compared by [<] the result of [std::sort] is that of a merge sort
    of the values. *)
Theorem sort_is_merge_sort (pre post : list (option Z)) (xs : list Z) :
  run (sort Z.ltb (zlen pre) (zlen pre + zlen xs)) (pre ++ (Some <$> xs) ++ post) =
  Some (pre ++ (Some <$> merge_sort Z.le xs) ++ post).
Proof.
  destruct (run_app_mid (sort Z.ltb (zlen pre) (zlen pre + zlen xs)) _ pre post xs
    (__sort_spec Z.ltb (zlen pre) (zlen pre + zlen xs) _ ltac:(unfold zlen; lia)
      (full_app_mid pre post xs))) as (ys & -> & Hp & Hs).
  do 4 f_equal. clear -Hp Hs. apply (StronglySorted_unique Z.le); [|apply StronglySorted_merge_sort; apply _|].
  - rewrite <- (zlen_perm xs ys) in Hs by done. apply sorted_app_mid in Hs; [|apply _].
    by apply sorted_Z_ltb.
  - by rewrite (merge_sort_Permutation Z.le).
Qed.

(** * Witnesses *)

Definition sample : list Z :=
  [5; 17; 2; 9; 9; 30; 1; 12; 8; 25; 3; 14; 0; 21; 6; 11; 19; 4; 28; 7; 13].

Lemma sort_sorts_witness :
  run (sort Z.ltb 1 22) ([Some 99] ++ (Some <$> sample) ++ [Some (-1)]) =
    Some (Some <$> [99; 0; 1; 2; 3; 4; 5; 6; 7; 8; 9; 9; 11; 12; 13; 14; 17; 19; 21; 25; 28; 30; -1]) ∧
  ∃ ys, run (sort Z.ltb 1 22) ([Some 99] ++ (Some <$> sample) ++ [Some (-1)]) =
          Some ([Some 99] ++ (Some <$> ys) ++ [Some (-1)]) ∧
        ys ≡ₚ sample ∧ StronglySorted (le Z.ltb) ys.
Proof. split; [by vm_compute|]. exact (sort_sorts Z.ltb [Some 99] sample [Some (-1)]). Defined.

Lemma partial_sort_sorts_witness :
  ∃ ys zs, run (partial_sort Z.ltb 0 3 21) (Some <$> sample) = Some (Some <$> ys ++ zs) ∧
    length ys = 3%nat ∧ StronglySorted (le Z.ltb) ys.
Proof.
  destruct (partial_sort_sorts Z.ltb [] sample [] 3) as (ys & zs & E & _ & Hl & Hs & _).
  { apply le_S_n. vm_compute. lia. }
  rewrite !app_nil_r in E. exists ys, zs. split_and!; [exact E|exact Hl|exact Hs].
Defined.

Lemma nth_element_selects_witness :
  ∃ ys y zs, run (nth_element Z.ltb 0 10 21) (Some <$> sample) = Some (Some <$> ys ++ y :: zs) ∧
    length ys = 10%nat ∧ Forall (λ a, le Z.ltb a y) ys.
Proof.
  destruct (nth_element_selects Z.ltb [] sample [] 10) as (ys & y & zs & E & _ & Hl & Hs & _).
  { vm_compute. lia. }
  rewrite !app_nil_r in E. exists ys, y, zs. split_and!; [exact E|exact Hl|exact Hs].
Defined.
