(* ===== verification/StlSearch.v ===== *)
(** * Binary searches of the C++ library

    [std::lower_bound] ([bits/stl_algobase.h]), [std::upper_bound],
    [std::equal_range] and [std::binary_search] ([bits/stl_algo.h]). The range has to
    be partitioned by the comparison with the value, as a sorted range is. The
    theorems: the searches find the point of the partition, [equal_range] is
    the pair of the two bounds that its comment says it is, and what
    [std::sort] sorted is found by [binary_search]. *)
From stdpp Require Import base numbers list sorting.
From Stdlib Require Import ZArith Lia.
From S2P Require Import Prelude StlArray StlHeap StlSort.

Section Code.
Context {A : Type}.
Local Abbreviation arr := (list (option A)).
Variable comp : A → A → bool.

Definition __lower_bound (first last : Z) (val : A) : M arr Z :=
  while (λ '(first, len),
    if 0 <? len then
      let half := len >> 1 in
      let middle := first + half in
      b ← _Iter_comp_val comp middle (Some val);
      mret (if b : bool then inl (middle + 1, len - half - 1) else inl (first, half))
    else mret (inr first)) (first, last - first).

Definition lower_bound (first last : Z) (val : A) : M arr Z := __lower_bound first last val.

Definition __upper_bound (first last : Z) (val : A) : M arr Z :=
  while (λ '(first, len),
    if 0 <? len then
      let half := len >> 1 in
      let middle := first + half in
      b ← _Val_comp_iter comp (Some val) middle;
      mret (if b : bool then inl (first, half) else inl (middle + 1, len - half - 1))
    else mret (inr first)) (first, last - first).

Definition upper_bound (first last : Z) (val : A) : M arr Z := __upper_bound first last val.

Definition __equal_range (first last : Z) (val : A) : M arr (Z * Z) :=
  while (λ '(first, len),
    if 0 <? len then
      let half := len >> 1 in
      let middle := first + half in
      b ← _Iter_comp_val comp middle (Some val);
      if b : bool then mret (inl (middle + 1, len - half - 1))
      else
        b ← _Val_comp_iter comp (Some val) middle;
        if b : bool then mret (inl (first, half))
        else
          left ← __lower_bound first middle val;
          right ← __upper_bound (middle + 1) (first + len) val;
          mret (inr (left, right))
    else mret (inr (first, first))) (first, last - first).

Definition equal_range (first last : Z) (val : A) : M arr (Z * Z) :=
  __equal_range first last val.

Definition binary_search (first last : Z) (val : A) : M arr bool :=
  i ← __lower_bound first last val;
  if i =? last then mret false
  else
    b ← _Val_comp_iter comp (Some val) i;
    mret (negb b).
End Code.

Section Search.
Context {A : Type}.
Local Abbreviation arr := (list (option A)).
Implicit Types l : arr.
Implicit Types P : A → bool.

(** The values that satisfy [P] come first. *)
Definition partitioned P (lo hi : Z) l : Prop :=
  ∀ i j a b, lo <= i <= j → j < hi → holds l i a → holds l j b → P b = true → P a = true.

(** [k] is the point of the partition. *)
Definition cut_point P (lo k hi : Z) l : Prop :=
  lo <= k <= hi ∧ (∀ i a, lo <= i < k → holds l i a → P a = true) ∧
  (∀ j b, k <= j < hi → holds l j b → P b = false).

Lemma cut_point_unique P lo k k' hi l :
  full l lo hi → cut_point P lo k hi l → cut_point P lo k' hi l → k = k'.
Proof.
  intros Hf (? & Hl & Hu) (? & Hl' & Hu'). destruct (Z.lt_total k k') as [?|[?|?]]; [|done|].
  - destruct (Hf k) as [a Ha]; [lia|]. specialize (Hl' k a ltac:(lia) Ha).
    rewrite (Hu k a) in Hl'; [done|lia|done].
  - destruct (Hf k') as [a Ha]; [lia|]. specialize (Hl k' a ltac:(lia) Ha).
    rewrite (Hu' k' a) in Hl; [done|lia|done].
Qed.

(** The interval that a bisection has left, and how it shrinks. *)
Definition bisecting P (lo hi first len : Z) l : Prop :=
  lo <= first ∧ 0 <= len ∧ first + len <= hi ∧
  (∀ i a, lo <= i < first → holds l i a → P a = true) ∧
  (∀ j b, first + len <= j < hi → holds l j b → P b = false).

Lemma bisecting_right P lo hi first len m l a :
  partitioned P lo hi l → bisecting P lo hi first len l → first <= m < first + len →
  holds l m a → P a = true → bisecting P lo hi (m + 1) (first + len - m - 1) l.
Proof.
  intros Hp (? & ? & ? & Hl & Hu) ? Ha HP. split_and!; [lia..| |].
  - intros i b ? Hb. apply (Hp i m b a); [lia|lia|done|done|done].
  - intros j b ? Hb. apply (Hu j); [lia|done].
Qed.

Lemma bisecting_left P lo hi first len m l a :
  partitioned P lo hi l → bisecting P lo hi first len l → first <= m < first + len →
  holds l m a → P a = false → bisecting P lo hi first (m - first) l.
Proof.
  intros Hp (? & ? & ? & Hl & Hu) ? Ha HP. split_and!; [lia..|done|].
  intros j b ? Hb. destruct (P b) eqn:E; [|done].
  rewrite <- HP. symmetry. apply (Hp m j a b); [lia|lia|done|done|done].
Qed.

Lemma bisecting_start P lo hi l : lo <= hi → bisecting P lo hi lo (hi - lo) l.
Proof. intros. split_and!; [lia..|intros; lia|intros; lia]. Qed.

Lemma bisecting_end P lo hi first l : bisecting P lo hi first 0 l → cut_point P lo first hi l.
Proof.
  intros (? & ? & ? & Hl & Hu). split_and!; [lia..|done|].
  intros j b ? Hb. apply (Hu j); [lia|done].
Qed.

Lemma half_range len : 0 < len → 0 <= len >> 1 < len.
Proof. intros. rewrite Z.shiftr_div_pow2 by lia. change (2 ^ 1) with 2. divlia. Qed.

Variable comp : A → A → bool.

Definition below_val (val a : A) : bool := comp a val.
Definition not_above (val a : A) : bool := negb (comp val a).

Lemma size_within l lo hi : 0 <= lo <= hi → full l lo hi → hi - lo <= zlen l.
Proof.
  intros ? Hf. destruct (decide (lo = hi)) as [->|]; [unfold zlen; lia|].
  pose proof (full_zlen _ _ _ Hf ltac:(lia)). lia.
Qed.

Lemma __lower_bound_spec lo hi val l :
  0 <= lo <= hi → full l lo hi → partitioned (below_val val) lo hi l →
  wpr (__lower_bound comp lo hi val) (λ k l', l' = l ∧ cut_point (below_val val) lo k hi l) l.
Proof.
  intros ? Hf Hp. apply (wpr_while (λ '(f, n) l', l' = l ∧ bisecting (below_val val) lo hi f n l) snd).
  - intros [f n] ? [-> Hb]. pose proof Hb as (? & ? & ? & _). cbn. split; [lia|].
    destruct (Z.ltb_spec 0 n).
    + pose proof (half_range n ltac:(lia)). destruct (Hf (f + (n >> 1))) as [a Ha]; [lia|].
      apply wpr_bind, (wpr_iter_val _ _ _ _ _ _ Ha), wpr_ret. destruct (comp a val) eqn:E.
      * split; [|cbn; lia]. split; [done|]. replace (n - (n >> 1) - 1) with (f + n - (f + (n >> 1)) - 1) by lia.
        by apply (bisecting_right _ _ _ f n _ _ a); [|done|lia|..].
      * split; [|cbn; lia]. split; [done|]. replace (n >> 1) with (f + (n >> 1) - f) by lia.
        by apply (bisecting_left _ _ _ f n _ _ a); [|done|lia|..].
    + apply wpr_ret. split; [done|]. apply bisecting_end. by replace 0 with n by lia.
  - split; [done|]. apply bisecting_start. lia.
  - by apply size_within.
Qed.

Lemma __upper_bound_spec lo hi val l :
  0 <= lo <= hi → full l lo hi → partitioned (not_above val) lo hi l →
  wpr (__upper_bound comp lo hi val) (λ k l', l' = l ∧ cut_point (not_above val) lo k hi l) l.
Proof.
  intros ? Hf Hp. apply (wpr_while (λ '(f, n) l', l' = l ∧ bisecting (not_above val) lo hi f n l) snd).
  - intros [f n] ? [-> Hb]. pose proof Hb as (? & ? & ? & _). cbn. split; [lia|].
    destruct (Z.ltb_spec 0 n).
    + pose proof (half_range n ltac:(lia)). destruct (Hf (f + (n >> 1))) as [a Ha]; [lia|].
      apply wpr_bind, (wpr_val_iter _ _ _ _ _ _ Ha), wpr_ret. destruct (comp val a) eqn:E.
      * split; [|cbn; lia]. split; [done|]. replace (n >> 1) with (f + (n >> 1) - f) by lia.
        apply (bisecting_left _ _ _ f n _ _ a); [done|done|lia|done|]. unfold not_above. by rewrite E.
      * split; [|cbn; lia]. split; [done|]. replace (n - (n >> 1) - 1) with (f + n - (f + (n >> 1)) - 1) by lia.
        apply (bisecting_right _ _ _ f n _ _ a); [done|done|lia|done|]. unfold not_above. by rewrite E.
    + apply wpr_ret. split; [done|]. apply bisecting_end. by replace 0 with n by lia.
  - split; [done|]. apply bisecting_start. lia.
  - by apply size_within.
Qed.

Lemma partitioned_sub P lo hi lo' hi' l :
  lo <= lo' → hi' <= hi → partitioned P lo hi l → partitioned P lo' hi' l.
Proof. intros ?? Hp i j a b ??. apply Hp; lia. Qed.

(** A bound found in the part that a bisection has left is the bound of the whole. *)
Lemma cut_point_widen P lo lo' hi hi' k l :
  lo <= lo' → hi' <= hi → cut_point P lo' k hi' l →
  (∀ i a, lo <= i < lo' → holds l i a → P a = true) →
  (∀ j b, hi' <= j < hi → holds l j b → P b = false) → cut_point P lo k hi l.
Proof.
  intros ?? (? & Hl & Hu) Hl' Hu'. split_and!; [lia..| |].
  - intros i a ? Ha. destruct (decide (i < lo')); [apply (Hl' i)|apply (Hl i)]; done || lia.
  - intros j b ? Hb. destruct (decide (j < hi')); [apply (Hu j)|apply (Hu' j)]; done || lia.
Qed.

Lemma __equal_range_spec lo hi val l :
  0 <= lo <= hi → full l lo hi → partitioned (below_val val) lo hi l →
  partitioned (not_above val) lo hi l →
  (∀ a, comp a val = true → comp val a = false) →
  wpr (__equal_range comp lo hi val)
    (λ p l', l' = l ∧ cut_point (below_val val) lo (fst p) hi l ∧
             cut_point (not_above val) lo (snd p) hi l) l.
Proof.
  intros ? Hf Hp Hq Has. apply (wpr_while (λ '(f, n) l', l' = l ∧
    bisecting (below_val val) lo hi f n l ∧ bisecting (not_above val) lo hi f n l) snd).
  - intros [f n] ? (-> & Hb & Hc). pose proof Hb as (? & ? & ? & Hbl & Hbu).
    pose proof Hc as (_ & _ & _ & Hcl & Hcu). cbn. split; [lia|].
    destruct (Z.ltb_spec 0 n); [|apply wpr_ret; split_and!; [done|..]; apply bisecting_end;
      by replace 0 with n by lia].
    pose proof (half_range n ltac:(lia)). set (m := f + (n >> 1)).
    destruct (Hf m) as [a Ha]; [lia|].
    apply wpr_bind, (wpr_iter_val _ _ _ _ _ _ Ha). destruct (comp a val) eqn:E.
    { apply wpr_ret. split; [|cbn; lia]. replace (n - (n >> 1) - 1) with (f + n - m - 1) by lia.
      split_and!; [done|by apply (bisecting_right _ _ _ f n _ _ a); [|done|lia|..]|].
      apply (bisecting_right _ _ _ f n _ _ a); [done|done|lia|done|].
      unfold not_above. by rewrite (Has a E). }
    apply wpr_bind, (wpr_val_iter _ _ _ _ _ _ Ha). destruct (comp val a) eqn:E'.
    { apply wpr_ret. split; [|cbn; lia]. replace (n >> 1) with (m - f) by lia.
      split_and!; [done|by apply (bisecting_left _ _ _ f n _ _ a); [|done|lia|..]|].
      apply (bisecting_left _ _ _ f n _ _ a); [done|done|lia|done|]. unfold not_above. by rewrite E'. }
    apply wpr_bind. eapply wpr_mono.
    { apply (__lower_bound_spec f m val l); [lia|apply (full_sub _ _ _ _ _ Hf); lia|].
      apply (partitioned_sub _ lo hi); [lia|lia|done]. }
    intros k ? [-> Hk]. apply wpr_bind. eapply wpr_mono.
    { apply (__upper_bound_spec (m + 1) (f + n) val l); [lia|apply (full_sub _ _ _ _ _ Hf); lia|].
      apply (partitioned_sub _ lo hi); [lia|lia|done]. }
    intros k' ? [-> Hk']. apply wpr_ret. split_and!; [done|..]; cbn.
    + destruct (bisecting_left _ _ _ f n m l a Hp Hb) as (_ & _ & _ & _ & Hu); [lia|done|done|].
      apply (cut_point_widen _ lo f hi m); [lia|lia|done|done|].
      intros j b ?. apply Hu. lia.
    + destruct (bisecting_right _ _ _ f n m l a Hq Hc) as (_ & _ & _ & Hl & _);
        [lia|done|unfold not_above; by rewrite E'|].
      by apply (cut_point_widen _ lo (m + 1) hi (f + n)); [lia|lia|..].
  - split_and!; [done|..]; apply bisecting_start; lia.
  - by apply size_within.
Qed.
End Search.

(** * Sorted ranges *)

Section Sorted.
Context {A : Type} (comp : A → A → bool) `{!StrictWeakOrder comp}.
Local Abbreviation arr := (list (option A)).
Local Notation "a ⊑ b" := (le comp a b) (at level 70).
Implicit Types l pre post : arr.

Lemma comp_asym a b : comp a b = true → comp b a = false.
Proof. intros H. by apply (comp_le comp). Qed.

Lemma le_comp_trans a b c : a ⊑ b → comp b c = true → comp a c = true.
Proof.
  intros H E. destruct (comp a c) eqn:E'; [done|].
  assert (c ⊑ b) as H' by (etrans; [exact E'|exact H]). unfold le in H'. congruence.
Qed.

Lemma sorted_below val lo hi l :
  sorted_range comp l lo hi → partitioned (below_val comp val) lo hi l.
Proof.
  intros Hs i j a b ?? Ha Hb E. apply (le_comp_trans a b); [|done].
  by apply (Hs i j).
Qed.

Lemma sorted_not_above val lo hi l :
  sorted_range comp l lo hi → partitioned (not_above comp val) lo hi l.
Proof.
  intros Hs i j a b ?? Ha Hb. unfold not_above. rewrite !negb_true_iff. intros E.
  change (a ⊑ val). trans b; [|done]. by apply (Hs i j).
Qed.

(** The cut point in the middle of an array, as a position in the list of values. *)
Lemma cut_point_list P pre (xs : list A) post k :
  cut_point P (zlen pre) k (zlen pre + zlen xs) (pre ++ (Some <$> xs) ++ post) →
  ∃ n, k = zlen pre + Z.of_nat n ∧ (n <= length xs)%nat ∧
    Forall (λ a, P a = true) (take n xs) ∧ Forall (λ b, P b = false) (drop n xs).
Proof.
  intros (? & Hl & Hu). exists (Z.to_nat (k - zlen pre)). unfold zlen in *.
  split_and!; [lia|lia|..]; apply Forall_forall; intros a [i Hi]%list_elem_of_lookup.
  - apply lookup_take_Some in Hi as [Hi ?].
    apply (Hl (zlen pre + Z.of_nat i)); [unfold zlen; lia|]. apply holds_app_mid. by left.
  - rewrite lookup_drop in Hi. pose proof (lookup_lt_Some _ _ _ Hi).
    apply (Hu (zlen pre + Z.of_nat (Z.to_nat (k - Z.of_nat (length pre)) + i))); [unfold zlen; lia|].
    apply holds_app_mid. by left.
Qed.

Local Abbreviation array pre xs post := (pre ++ (Some <$> xs) ++ post).

Lemma array_range pre (xs : list A) : 0 <= zlen pre <= zlen pre + zlen xs.
Proof. unfold zlen. lia. Qed.

Lemma lower_bound_run pre xs post val :
  StronglySorted (le comp) xs →
  ∃ k, lower_bound comp (zlen pre) (zlen pre + zlen xs) val (array pre xs post) =
         Some (k, array pre xs post) ∧
       cut_point (below_val comp val) (zlen pre) k (zlen pre + zlen xs) (array pre xs post).
Proof.
  intros Hs. apply (sorted_app_mid comp pre post) in Hs.
  destruct (wpr_run _ _ _ (__lower_bound_spec comp _ _ val _ (array_range pre xs)
    (full_app_mid pre post xs) (sorted_below val _ _ _ Hs))) as (k & l' & E & -> & Hk).
  by exists k.
Qed.

Lemma upper_bound_run pre xs post val :
  StronglySorted (le comp) xs →
  ∃ k, upper_bound comp (zlen pre) (zlen pre + zlen xs) val (array pre xs post) =
         Some (k, array pre xs post) ∧
       cut_point (not_above comp val) (zlen pre) k (zlen pre + zlen xs) (array pre xs post).
Proof.
  intros Hs. apply (sorted_app_mid comp pre post) in Hs.
  destruct (wpr_run _ _ _ (__upper_bound_spec comp _ _ val _ (array_range pre xs)
    (full_app_mid pre post xs) (sorted_not_above val _ _ _ Hs))) as (k & l' & E & -> & Hk).
  by exists k.
Qed.

(** In a sorted range [std::lower_bound] returns the first position whose value
    does not come before [val] and [std::upper_bound] the first whose value comes
    after it; both leave the array alone. *)
Theorem bounds_find pre xs post val :
  StronglySorted (le comp) xs →
  ∃ m n, lower_bound comp (zlen pre) (zlen pre + zlen xs) val (array pre xs post) =
           Some (zlen pre + Z.of_nat m, array pre xs post) ∧
         upper_bound comp (zlen pre) (zlen pre + zlen xs) val (array pre xs post) =
           Some (zlen pre + Z.of_nat n, array pre xs post) ∧
         (m <= n <= length xs)%nat ∧
         Forall (λ a, comp a val = true) (take m xs) ∧
         Forall (λ a, comp a val = false) (drop m xs) ∧
         Forall (λ a, comp val a = false) (take n xs) ∧
         Forall (λ a, comp val a = true) (drop n xs).
Proof.
  intros Hs. destruct (lower_bound_run pre xs post val Hs) as (i & Ei & Hi).
  destruct (upper_bound_run pre xs post val Hs) as (j & Ej & Hj).
  apply cut_point_list in Hi as (m & -> & ? & Hm & Hm').
  apply cut_point_list in Hj as (n & -> & ? & Hn & Hn').
  exists m, n. rewrite Ei, Ej.
  assert (m <= n)%nat.
  { destruct (decide (m <= n)%nat) as [|Hlt]; [done|]. exfalso.
    destruct (lookup_lt_is_Some_2 xs n) as [a Ha]; [lia|].
    assert (comp a val = true) as E.
    { apply (Forall_lookup_1 _ _ n a Hm). apply lookup_take_Some. split; [done|lia]. }
    assert (not_above comp val a = false) as E'.
    { apply (Forall_lookup_1 _ _ 0%nat a Hn'). by rewrite lookup_drop, Nat.add_0_r. }
    unfold not_above in E'. by rewrite (comp_asym _ _ E) in E'. }
  split_and!; [done|done|lia|lia|done|done|..]; eapply Forall_impl; try done;
    unfold not_above; intros a; cbn; by destruct (comp val a).
Qed.

(** [std::equal_range] returns the pair of the two bounds, as its comment says,
    although it does not call those functions on the whole range. *)
Theorem equal_range_is_bounds pre xs post val :
  StronglySorted (le comp) xs →
  let first := zlen pre in
  let last := zlen pre + zlen xs in
  let l := array pre xs post in
  equal_range comp first last val l =
  (i ← lower_bound comp first last val; j ← upper_bound comp first last val; mret (i, j)) l.
Proof.
  intros Hs first last l. destruct (lower_bound_run pre xs post val Hs) as (i & Ei & Hi).
  destruct (upper_bound_run pre xs post val Hs) as (j & Ej & Hj).
  subst first last l. unfold mbind, M_bind. rewrite Ei, Ej.
  apply (sorted_app_mid comp pre post) in Hs. pose proof (full_app_mid pre post xs) as Hf.
  destruct (wpr_run _ _ _ (__equal_range_spec comp _ _ val _ (array_range pre xs) Hf
    (sorted_below val _ _ _ Hs) (sorted_not_above val _ _ _ Hs) (λ a, comp_asym a val)))
    as ([i' j'] & l' & E & -> & Hi' & Hj').
  rewrite (cut_point_unique _ _ _ _ _ _ Hf Hi Hi'), (cut_point_unique _ _ _ _ _ _ Hf Hj Hj').
  exact E.
Qed.

Lemma binary_search_run pre xs post val :
  StronglySorted (le comp) xs →
  ∃ b, binary_search comp (zlen pre) (zlen pre + zlen xs) val (array pre xs post) =
         Some (b, array pre xs post) ∧
       (b = true ↔ ∃ x, x ∈ xs ∧ comp x val = false ∧ comp val x = false).
Proof.
  intros Hs. destruct (lower_bound_run pre xs post val Hs) as (k & Ek & Hk).
  unfold lower_bound in Ek. unfold binary_search. unfold mbind at 1, M_bind at 1. rewrite Ek.
  apply cut_point_list in Hk as (n & -> & ? & Hn & Hn').
  assert (∀ i x, xs !! i = Some x → comp x val = false → (n <= i)%nat) as Hge.
  { intros i x Hi E. destruct (decide (n <= i)%nat); [done|]. exfalso.
    assert (below_val comp val x = true) as E'; [|unfold below_val in E'; congruence].
    apply (Forall_lookup_1 _ _ i x Hn). apply lookup_take_Some. split; [done|lia]. }
  destruct (Z.eqb_spec (zlen pre + Z.of_nat n) (zlen pre + zlen xs)).
  - exists false. split; [done|]. split; [done|]. intros (x & [i Hi]%list_elem_of_lookup & E & _).
    specialize (Hge i x Hi E). apply lookup_lt_Some in Hi. unfold zlen in *. lia.
  - destruct (lookup_lt_is_Some_2 xs n) as [a Ha]; [unfold zlen in *; lia|].
    assert (holds (array pre xs post) (zlen pre + Z.of_nat n) a) as Hh by (apply holds_app_mid; by left).
    destruct (wpr_run _ _ _ (wpr_val_iter comp _ _ val a (λ b l, b = comp val a ∧ l = array pre xs post)
      Hh ltac:(done))) as (b & l' & E & -> & ->).
    exists (negb (comp val a)). unfold mbind, M_bind. rewrite E. split; [done|].
    rewrite negb_true_iff. split.
    + intros Ev. exists a. split_and!; [by eapply list_elem_of_lookup_2| |done].
      apply (Forall_lookup_1 _ _ 0%nat a Hn'). by rewrite lookup_drop, Nat.add_0_r.
    + intros (x & [i Hi]%list_elem_of_lookup & E1 & E2). specialize (Hge i x Hi E1).
      apply StronglySorted_lookup with (i := n) (j := i) (a := a) (b := x) in Hs; [|done..].
      change (a ⊑ val). by trans x.
Qed.

(** C22: after [std::sort] a [std::binary_search] of the range tells whether a value
    equivalent to [val] was among those sorted. *)
Theorem sort_then_search pre xs post val :
  let first := zlen pre in
  let last := zlen pre + zlen xs in
  ∃ b ys, (sort comp first last;; binary_search comp first last val) (array pre xs post) =
            Some (b, array pre ys post) ∧ ys ≡ₚ xs ∧
          (b = true ↔ ∃ x, x ∈ xs ∧ comp x val = false ∧ comp val x = false).
Proof.
  intros first last. destruct (run_app_mid (sort comp first last) _ pre post xs
    (__sort_spec comp _ _ _ (array_range pre xs) (full_app_mid pre post xs))) as (ys & E & Hp & Hs).
  subst first last. rewrite <- (zlen_perm xs ys) in * by done.
  apply sorted_app_mid in Hs; [|done].
  destruct (binary_search_run pre ys post val Hs) as (b & Eb & Hb).
  exists b, ys. split_and!; [|done|by rewrite Hb; setoid_rewrite Hp].
  unfold run in E. unfold mbind, M_bind.
  destruct (sort _ _ _ _) as [[[] l']|]; [|done]. injection E as ->. by rewrite Eb.
Qed.
End Sorted.

(** * Witnesses *)

Lemma sorted_values : StronglySorted (le Z.ltb) [1; 3; 3; 3; 7].
Proof. repeat constructor. Qed.

Lemma bounds_find_witness :
  lower_bound Z.ltb 1 6 3 (Some <$> [9; 1; 3; 3; 3; 7; 0]) = Some (2, Some <$> [9; 1; 3; 3; 3; 7; 0]) ∧
  upper_bound Z.ltb 1 6 3 (Some <$> [9; 1; 3; 3; 3; 7; 0]) = Some (5, Some <$> [9; 1; 3; 3; 3; 7; 0]) ∧
  ∃ m n, lower_bound Z.ltb 1 6 3 ([Some 9] ++ (Some <$> [1; 3; 3; 3; 7]) ++ [Some 0]) =
    Some (1 + Z.of_nat m, [Some 9] ++ (Some <$> [1; 3; 3; 3; 7]) ++ [Some 0]) ∧ (m <= n)%nat.
Proof.
  split_and!; [by vm_compute..|].
  destruct (bounds_find Z.ltb [Some 9] [1; 3; 3; 3; 7] [Some 0] 3 sorted_values)
    as (m & n & E & _ & [H _] & _). exists m, n. split; [exact E|exact H].
Defined.

Lemma equal_range_is_bounds_witness :
  equal_range Z.ltb 1 6 3 ([Some 9] ++ (Some <$> [1; 3; 3; 3; 7]) ++ [Some 0]) =
  (i ← lower_bound Z.ltb 1 6 3; j ← upper_bound Z.ltb 1 6 3; mret (i, j))
    ([Some 9] ++ (Some <$> [1; 3; 3; 3; 7]) ++ [Some 0]).
Proof. exact (equal_range_is_bounds Z.ltb [Some 9] [1; 3; 3; 3; 7] [Some 0] 3 sorted_values). Defined.

Lemma sort_then_search_witness :
  ∃ b ys, (sort Z.ltb 0 5;; binary_search Z.ltb 0 5 4) ([] ++ (Some <$> [3; 1; 4; 1; 5]) ++ []) =
    Some (b, [] ++ (Some <$> ys) ++ []) ∧ ys ≡ₚ [3; 1; 4; 1; 5].
Proof.
  destruct (sort_then_search Z.ltb [] [3; 1; 4; 1; 5] [] 4) as (b & ys & E & Hp & _).
  exists b, ys. split; [exact E|exact Hp].
Defined.
