(* ===== verification/Random.v ===== *)
(** * Random numbers of the C++ library, [bits/random.h] and [bits/random.tcc]

    The modular multiplication of [__detail::_Mod], which avoids overflow with
    Schrage's algorithm where it can, the linear congruential engine and the Mersenne
    twister. Unsigned integers have [w] bits and wrap around; [uint_fast32_t] has 32
    bits on the phone.

    The theorems: each variant of [_Mod] computes [(a * x + c) mod m]; the minimal
    standard engines never leave their range; the twister's block update is its
    recurrence, [discard] is as many calls, and the engines' 10000th numbers are
    those that the C++ standard demands. *)
From stdpp Require Import base numbers list.
From Stdlib Require Import ZArith Zpow_facts Lia.
From S2P Require Import Prelude StlArray.

(** Wrapping around of unsigned integers of [w] bits. *)
Definition wrap (w z : Z) : Z := z mod 2 ^ w.

(** [std::__lg] of an integer of at least 32 bits. *)
Definition lg (n : Z) : Z := Z.log2 n.

(** * [__detail::_Mod] *)

Section Mod.
Variables w m a c : Z.

(** The digits of the type. Of 128 digits there is [unsigned __int128] where the
    compiler has it, and the template does not compile where it has not. *)
Definition _Select_uint_least_t (s : Z) : Z :=
  if s <=? 32 then 32 else if s <=? 64 then 64 else 128.

Definition big_enough : bool :=
  ((m .& wrap w (m - 1)) =? 0) || (wrap w (m - 1) <=? (wrap w (-1) - c) / a).
Definition schrage_ok : bool := m mod a <? m / a.

Definition calc_wide (x : Z) : Z :=
  let w2 := _Select_uint_least_t (lg a + lg m + 2) in
  wrap w (wrap w2 (wrap w2 (a * x) + c) mod m).

Definition calc_schrage (x : Z) : Z :=
  let x :=
    if a =? 1 then x mod m
    else
      let q := m / a in
      let r := m mod a in
      let t1 := wrap w (a * (x mod q)) in
      let t2 := wrap w (r * (x / q)) in
      if t2 <=? t1 then wrap w (t1 - t2) else wrap w (wrap w (m - t2) + t1) in
  if negb (c =? 0) then
    let d := wrap w (m - x) in
    if c <? d then wrap w (x + c) else wrap w (c - d)
  else x.

Definition calc_overflow (x : Z) : Z :=
  let res := wrap w (wrap w (a * x) + c) in
  if negb (m =? 0) then res mod m else res.

Definition __mod (x : Z) : Z :=
  if big_enough then calc_overflow x
  else if schrage_ok then calc_schrage x
  else calc_wide x.
End Mod.

(** * [linear_congruential_engine] *)

Record lcg_params := { lcg_w : Z; lcg_a : Z; lcg_c : Z; lcg_m : Z }.

Definition lcg_mod (p : lcg_params) : Z → Z := __mod (lcg_w p) (lcg_m p) (lcg_a p) (lcg_c p).

Definition lcg_seed (p : lcg_params) (s : Z) : Z :=
  let mod_m := __mod (lcg_w p) (lcg_m p) 1 0 in
  if (mod_m (lcg_c p) =? 0) && (mod_m s =? 0) then 1 else mod_m s.

Definition lcg_min (p : lcg_params) : Z := if lcg_c p =? 0 then 1 else 0.
Definition lcg_max (p : lcg_params) : Z := wrap (lcg_w p) (lcg_m p - 1).

(** [operator()]: the state is [_M_x]. *)
Definition lcg_next (p : lcg_params) : M Z Z := λ x,
  let x := lcg_mod p x in Some (x, x).

Fixpoint lcg_discard (p : lcg_params) (z : nat) : M Z unit :=
  match z with
  | O => mret tt
  | S z => lcg_next p;; lcg_discard p z
  end.

Definition minstd_rand0 : lcg_params :=
  {| lcg_w := 32; lcg_a := 16807; lcg_c := 0; lcg_m := 2147483647 |}.
Definition minstd_rand : lcg_params :=
  {| lcg_w := 32; lcg_a := 48271; lcg_c := 0; lcg_m := 2147483647 |}.

(** * [mersenne_twister_engine] *)

Record mt_params := {
  mt_W : Z; (* the digits of [_UIntType] *)
  mt_w : Z; mt_n : nat; mt_m : nat; mt_r : Z; mt_a : Z; mt_u : Z; mt_d : Z; mt_s : Z;
  mt_b : Z; mt_t : Z; mt_c : Z; mt_l : Z; mt_f : Z;
}.

Record mt_state := { _M_x : list Z; _M_p : nat }.

Section Twister.
Variable p : mt_params.
Local Abbreviation W := (mt_W p).
Local Abbreviation n := (mt_n p).

Definition _Shift (w : Z) : Z := if w <? W then wrap W (1 << w) else 0.

Definition mt_max : Z := wrap W (_Shift (mt_w p) - 1).

(** An element of the array [_M_x]. *)
Definition x_at (x : list Z) (k : nat) : option Z := x !! k.

Fixpoint mt_seed_loop (i fuel : nat) (x : list Z) : option (list Z) :=
  match fuel with
  | O => Some x
  | S fuel =>
      v ← x_at x (i - 1);
      let v := Z.lxor v (v >> (mt_w p - 2)) in
      let v := wrap W (v * mt_f p) in
      let v := wrap W (v + __mod W (Z.of_nat n) 1 0 (Z.of_nat i)) in
      mt_seed_loop (S i) fuel (x ++ [__mod W (_Shift (mt_w p)) 1 0 v])
  end.

(** [seed]: the array is filled from its first element on. *)
Definition mt_seed (sd : Z) : option mt_state :=
  x ← mt_seed_loop 1 (n - 1) [__mod W (_Shift (mt_w p)) 1 0 sd];
  Some {| _M_x := x; _M_p := n |}.

Definition upper_mask : Z := wrap W (Z.lnot 0 << mt_r p).
Definition lower_mask : Z := wrap W (Z.lnot upper_mask).

(** The right-hand side of the assignments of [_M_gen_rand] to [_M_x[k]], from the
    elements [_M_x[k]], [_M_x[k + 1]] and [_M_x[k + m]]. *)
Definition twist (xk xk1 xkm : Z) : Z :=
  let y := (xk .& upper_mask) .| (xk1 .& lower_mask) in
  Z.lxor (Z.lxor xkm (y >> 1)) (if truth (y .& 1) then mt_a p else 0).

Definition gen_step (k k1 km : nat) (x : list Z) : option (list Z) :=
  xk ← x_at x k;
  xk1 ← x_at x k1;
  xkm ← x_at x km;
  Some (<[k := twist xk xk1 xkm]> x).

(** [for (k = i; k < i + count; ++k)] with [_M_x[k + shift]] read. *)
Fixpoint gen_loop (i count : nat) (km : nat → nat) (x : list Z) : option (list Z) :=
  match count with
  | O => Some x
  | S count =>
      x ← gen_step i (i + 1) (km i) x;
      gen_loop (S i) count km x
  end.

Definition _M_gen_rand (x : list Z) : option (list Z) :=
  x ← gen_loop 0 (n - mt_m p) (λ k, k + mt_m p)%nat x;
  x ← gen_loop (n - mt_m p) (n - 1 - (n - mt_m p)) (λ k, k - (n - mt_m p))%nat x;
  gen_step (n - 1) 0 (mt_m p - 1) x.

Definition temper (z : Z) : Z :=
  let z := Z.lxor z ((z >> mt_u p) .& mt_d p) in
  let z := Z.lxor z (wrap W (z << mt_s p) .& mt_b p) in
  let z := Z.lxor z (wrap W (z << mt_t p) .& mt_c p) in
  Z.lxor z (z >> mt_l p).

Definition mt_next : M mt_state Z := λ s,
  s ← (if (n <=? _M_p s)%nat then
         x ← _M_gen_rand (_M_x s); Some {| _M_x := x; _M_p := 0 |}
       else Some s);
  z ← x_at (_M_x s) (_M_p s);
  Some (temper z, {| _M_x := _M_x s; _M_p := S (_M_p s) |}).

Fixpoint mt_discard_loop (fuel : nat) (z : nat) : M mt_state unit := λ s,
  match fuel with
  | O => None
  | S fuel =>
      if (n - _M_p s <? z)%nat then
        x ← _M_gen_rand (_M_x s);
        mt_discard_loop fuel (z - (n - _M_p s)) {| _M_x := x; _M_p := 0 |}
      else Some (tt, {| _M_x := _M_x s; _M_p := _M_p s + z |})
  end.

(** The loop runs at most [z] times and once for what is left of the block. *)
Definition mt_discard (z : nat) : M mt_state unit := mt_discard_loop (S (S z)) z.
End Twister.

Definition mt19937 : mt_params :=
  {| mt_W := 32; mt_w := 32; mt_n := 624; mt_m := 397; mt_r := 31; mt_a := 0x9908b0df;
     mt_u := 11; mt_d := 0xffffffff; mt_s := 7; mt_b := 0x9d2c5680; mt_t := 15;
     mt_c := 0xefc60000; mt_l := 18; mt_f := 1812433253 |}.
Definition mt19937_64 : mt_params :=
  {| mt_W := 64; mt_w := 64; mt_n := 312; mt_m := 156; mt_r := 31; mt_a := 0xb5026f5aa96619e9;
     mt_u := 29; mt_d := 0x5555555555555555; mt_s := 17; mt_b := 0x71d67fffeda60000; mt_t := 37;
     mt_c := 0xfff7eee000000000; mt_l := 43; mt_f := 6364136223846793005 |}.

(** * Modular multiplication *)

Lemma wrap_small w z : 0 <= z < 2 ^ w → wrap w z = z.
Proof. apply Z.mod_small. Qed.

Lemma wrap_range w z : 0 <= w → 0 <= wrap w z < 2 ^ w.
Proof. intros. apply Z.mod_pos_bound. lia. Qed.

(** A residue does not change when the number loses a multiple of the modulus. *)
Lemma mod_unique_sum x y q m : 0 <= y < m → x = m * q + y → x mod m = y.
Proof. intros ? ->. rewrite Z.mul_comm, Z.add_comm, Z_mod_plus_full. by apply Z.mod_small. Qed.

Section ModSpec.
Variables w m a c : Z.
Hypothesis Hw : 0 < w.
Hypothesis Ha : 0 < a.
Hypothesis Hc : 0 <= c.

(** Adding [c] to a residue without leaving the range. *)
Lemma add_residue x :
  0 <= x < m → c < m → m < 2 ^ w →
  (if negb (c =? 0) then
     let d := wrap w (m - x) in
     if c <? d then wrap w (x + c) else wrap w (c - d)
   else x) = (x + c) mod m.
Proof.
  intros ???. destruct (Z.eqb_spec c 0) as [->|]; cbn [negb].
  { rewrite Z.add_0_r. by rewrite Z.mod_small. }
  rewrite (wrap_small w (m - x)) by lia. cbv zeta. destruct (Z.ltb_spec c (m - x)).
  - rewrite wrap_small by lia. by rewrite Z.mod_small by lia.
  - rewrite wrap_small by lia. symmetry. apply (mod_unique_sum _ _ 1); lia.
Qed.

(** Schrage: with [q = m / a] and [r = m mod a < q], both products are below [m],
    and their difference is [a * x] modulo [m]. *)
Lemma schrage_bounds x :
  0 <= x < m → m mod a < m / a →
  0 <= a * (x mod (m / a)) < m ∧ 0 <= m mod a * (x / (m / a)) < m ∧
  a * x = m * (x / (m / a)) + (a * (x mod (m / a)) - m mod a * (x / (m / a))).
Proof.
  intros ? Hr. set (q := m / a) in *. set (r := m mod a) in *.
  assert (0 <= r < a) by (apply Z.mod_pos_bound; lia).
  assert (m = a * q + r) as Em by (apply Z.div_mod; lia).
  assert (0 <= x mod q < q) by (apply Z.mod_pos_bound; lia).
  assert (x = q * (x / q) + x mod q) as Ex by (apply Z.div_mod; lia).
  assert (0 <= x / q) by (apply Z.div_pos; lia).
  assert (x / q <= a).
  { apply Z.lt_succ_r. apply Z.div_lt_upper_bound; [lia|]. nia. }
  split_and!; nia.
Qed.

Lemma calc_schrage_spec x :
  0 <= x < m → c < m → m < 2 ^ w → m mod a < m / a →
  calc_schrage w m a c x = (a * x + c) mod m.
Proof.
  intros ??? Hr. unfold calc_schrage.
  set (y := if a =? 1 then _ else _). assert (y = (a * x) mod m) as ->.
  { unfold y. destruct (Z.eqb_spec a 1) as [E|]; [by rewrite E, Z.mul_1_l|].
    destruct (schrage_bounds x) as (B1 & B2 & E); [lia|done|]. cbv zeta.
    rewrite (wrap_small w (a * _)), (wrap_small w (m mod a * _)) by lia.
    set (t1 := a * (x mod (m / a))) in *. set (t2 := m mod a * (x / (m / a))) in *.
    symmetry. destruct (Z.leb_spec t2 t1).
    - rewrite wrap_small by lia. eapply mod_unique_sum; [lia|exact E].
    - rewrite (wrap_small w (m - t2)) by lia. rewrite wrap_small by lia.
      apply (mod_unique_sum _ _ (x / (m / a) - 1)); lia. }
  assert (0 <= (a * x) mod m < m) by (apply Z.mod_pos_bound; lia).
  rewrite add_residue by lia. apply Z.add_mod_idemp_l. lia.
Qed.

Lemma calc_wide_spec x :
  0 <= x < m → a < m → c < m → m < 2 ^ w → lg a + lg m + 2 <= 128 →
  calc_wide w m a c x = (a * x + c) mod m.
Proof.
  intros ????. unfold calc_wide. set (w2 := _Select_uint_least_t _). intros Hs.
  assert (lg a + lg m + 2 <= w2) as Hw2.
  { unfold w2, _Select_uint_least_t. repeat case_match; lia. }
  pose proof (Z.log2_nonneg a). pose proof (Z.log2_nonneg m). fold (lg a) (lg m) in *.
  assert (a < 2 ^ (lg a + 1)) by (apply Z.log2_spec; lia).
  assert (m < 2 ^ (lg m + 1)) by (apply Z.log2_spec; lia).
  assert (2 ^ (lg a + 1) * 2 ^ (lg m + 1) <= 2 ^ w2).
  { rewrite <- Z.pow_add_r by lia. apply Z.pow_le_mono_r; lia. }
  assert (0 <= a * x /\ a * x + c < 2 ^ w2) by nia.
  rewrite (wrap_small w2 (a * x)), (wrap_small w2) by lia.
  apply wrap_small. assert (0 <= (a * x + c) mod m < m) by (apply Z.mod_pos_bound; lia). lia.
Qed.

(** [m & (m - 1)] is zero for a power of two only. *)
Lemma and_pred_pow2 : 0 < m → m .& (m - 1) = 0 → m = 2 ^ Z.log2 m.
Proof.
  intros ? E. set (k := Z.log2 m). assert (2 ^ k <= m < 2 ^ (k + 1)) as [? ?] by (by apply Z.log2_spec).
  assert (0 <= k) by apply Z.log2_nonneg.
  destruct (Z.eq_dec m (2 ^ k)) as [|Hne]; [done|]. exfalso.
  assert (Z.testbit (m .& (m - 1)) k = true) as Hb; [|by rewrite E, Z.bits_0 in Hb].
  rewrite Z.land_spec. apply andb_true_intro. split.
  - by apply Z.bit_log2.
  - replace k with (Z.log2 (m - 1)); [apply Z.bit_log2; lia|].
    apply Z.log2_unique; [lia|]. rewrite <- Z.add_1_r. lia.
Qed.

Lemma mod_pow2_wrap x k : 0 <= k <= w → wrap w x mod 2 ^ k = x mod 2 ^ k.
Proof.
  intros. unfold wrap. apply Z.bits_inj'. intros i Hi.
  destruct (decide (i < k)).
  - rewrite !Z.mod_pow2_bits_low by lia. done.
  - rewrite !Z.mod_pow2_bits_high by lia. done.
Qed.

Lemma wrap_add_l x y : wrap w (wrap w x + y) = wrap w (x + y).
Proof. unfold wrap. apply Z.add_mod_idemp_l. lia. Qed.

Lemma calc_overflow_spec x :
  big_enough w m a c = true → 0 < m < 2 ^ w → 0 <= x < m ∨ a = 1 ∧ c = 0 ∧ 0 <= x < 2 ^ w →
  c < 2 ^ w → calc_overflow w m a c x = (a * x + c) mod m.
Proof.
  intros Hb ? Hx ?. unfold calc_overflow. destruct (Z.eqb_spec m 0); [lia|]. cbn [negb].
  rewrite wrap_add_l. apply orb_true_iff in Hb as [Hb|Hb].
  - apply Z.eqb_eq in Hb. rewrite wrap_small in Hb by lia.
    rewrite (and_pred_pow2 ltac:(lia) Hb). apply mod_pow2_wrap.
    pose proof (Z.log2_nonneg m). split; [done|].
    enough (Z.log2 m < w) by lia. apply Z.log2_lt_pow2; lia.
  - apply Z.leb_le in Hb. rewrite (wrap_small w (m - 1)) in Hb by lia.
    assert (wrap w (-1) = 2 ^ w - 1) as E1.
    { unfold wrap. apply (mod_unique_sum _ _ (-1)); lia. }
    rewrite E1 in Hb. assert (a * (m - 1) <= 2 ^ w - 1 - c).
    { trans (a * ((2 ^ w - 1 - c) / a)); [nia|]. apply Z.mul_div_le. lia. }
    rewrite wrap_small; [done|]. destruct Hx as [Hx|(-> & -> & ?)]; nia.
Qed.
End ModSpec.

(** The number types are wide enough for the products that are not avoided. *)
Definition wide_enough (w m a c : Z) : bool :=
  big_enough w m a c || schrage_ok m a || (lg a + lg m + 2 <=? 128).

(** The static assertions of [linear_congruential_engine] and [_Mod]. *)
Definition lcg_valid (p : lcg_params) : Prop :=
  0 < lcg_w p ∧ 0 < lcg_a p < lcg_m p ∧ 0 <= lcg_c p < lcg_m p ∧ lcg_m p < 2 ^ lcg_w p ∧
  wide_enough (lcg_w p) (lcg_m p) (lcg_a p) (lcg_c p) = true.

Lemma mod_correct w m a c x :
  0 < w → 0 < a < m → 0 <= c < m → m < 2 ^ w → wide_enough w m a c = true → 0 <= x < m →
  __mod w m a c x = (a * x + c) mod m.
Proof.
  unfold wide_enough, __mod, schrage_ok. intros ???? Hw ?. destruct (big_enough w m a c) eqn:E.
  - apply calc_overflow_spec; (done || lia || by left).
  - destruct (Z.ltb_spec (m mod a) (m / a)).
    + apply calc_schrage_spec; lia.
    + apply calc_wide_spec; [lia..|]. by apply Z.leb_le.
Qed.

(** A call of a linear congruential engine gives [(a * x + c) mod m] for its state
    [x], whichever variant of [_Mod] the template parameters select, and the number is
    the new state and between zero and [max()]. *)
Theorem lcg_next_spec p x :
  lcg_valid p → 0 <= x < lcg_m p →
  ∃ y, lcg_next p x = Some (y, y) ∧ y = (lcg_a p * x + lcg_c p) mod lcg_m p ∧ 0 <= y <= lcg_max p.
Proof.
  intros (? & ? & ? & ? & ?) Hx. eexists. split; [done|]. unfold lcg_mod.
  rewrite mod_correct by (done || lia). split; [done|].
  unfold lcg_max. rewrite wrap_small by lia.
  pose proof (Z.mod_pos_bound (lcg_a p * x + lcg_c p) (lcg_m p) ltac:(lia)). lia.
Qed.

(** One engine for each variant: 64 bits and a product of 128 bits, Schrage's
    algorithm, and arithmetic that may overflow modulo a power of two. *)
Lemma lcg_next_spec_witness :
  let wide := {| lcg_w := 64; lcg_a := 2 ^ 62; lcg_c := 5; lcg_m := 2 ^ 63 - 25 |} in
  let knuth := {| lcg_w := 64; lcg_a := 6364136223846793005; lcg_c := 1442695040888963407;
                  lcg_m := 2 ^ 63 |} in
  (∃ y, lcg_next wide 12345678901234 = Some (y, y) ∧ 0 <= y <= lcg_max wide) ∧
  (∃ y, lcg_next minstd_rand 2147483646 = Some (y, y) ∧ y = 2147435376) ∧
  (∃ y, lcg_next knuth 9223372036854775807 = Some (y, y) ∧ 0 <= y <= lcg_max knuth).
Proof.
  intros wide knuth. split; [|split].
  - destruct (lcg_next_spec wide 12345678901234) as (y & E & _ & R);
      [unfold lcg_valid; cbn; repeat split; done|done|]. exists y. exact (conj E R).
  - destruct (lcg_next_spec minstd_rand 2147483646) as (y & E & R & _);
      [unfold lcg_valid; cbn; repeat split; done|done|]. exists y. exact (conj E R).
  - destruct (lcg_next_spec knuth 9223372036854775807) as (y & E & _ & R);
      [unfold lcg_valid; cbn; repeat split; done|done|]. exists y. exact (conj E R).
Defined.

(** * The minimal standard engines *)

Lemma mod_m_spec m x : 0 < m < 2 ^ 32 → 0 <= x < 2 ^ 32 → __mod 32 m 1 0 x = x mod m.
Proof.
  intros. unfold __mod. assert (big_enough 32 m 1 0 = true) as E.
  { unfold big_enough. apply orb_true_iff. right. rewrite wrap_small by lia.
    change (wrap 32 (-1)) with (2 ^ 32 - 1). rewrite Z.div_1_r. apply Z.leb_le. lia. }
  rewrite E, calc_overflow_spec by (done || lia || (right; lia)).
  by rewrite Z.mul_1_l, Z.add_0_r.
Qed.

Section Minstd.
Variable p : lcg_params.
Hypothesis Hp : p = minstd_rand0 ∨ p = minstd_rand.
Local Abbreviation a := (lcg_a p).
Local Abbreviation m := (lcg_m p).

Lemma minstd_mod x : 0 <= x < m → lcg_mod p x = (a * x) mod m.
Proof.
  intros Hx. unfold lcg_mod. destruct Hp as [-> | ->]; cbn in *;
    rewrite mod_correct by (lia || by vm_compute); by rewrite Z.add_0_r.
Qed.

(** Multiplying by a unit of the field never gives zero. *)
Lemma minstd_nonzero x : 0 < x < m → 0 < (a * x) mod m < m.
Proof.
  intros Hx. assert (0 < m) by lia.
  pose proof (Z.mod_pos_bound (a * x) m ltac:(lia)).
  enough ((a * x) mod m ≠ 0) by lia. intros E. apply Z.mod_divide in E; [|lia].
  apply Z.gauss in E; [|destruct Hp as [-> | ->]; reflexivity].
  apply Z.divide_pos_le in E; lia.
Qed.

Lemma minstd_seed s : 0 <= s < 2 ^ 32 → 0 < lcg_seed p s < m.
Proof.
  intros. assert (lcg_w p = 32 ∧ lcg_c p = 0 ∧ m = 2147483647) as (Ew & Ec & Em)
    by (destruct Hp as [-> | ->]; done).
  unfold lcg_seed. rewrite Ew, Ec, Em, !mod_m_spec by lia. rewrite Z.mod_0_l by lia. cbn [andb Z.eqb].
  pose proof (Z.mod_pos_bound s 2147483647 ltac:(lia)).
  destruct (Z.eqb_spec (s mod 2147483647) 0); lia.
Qed.

Lemma minstd_discard k x :
  0 < x < m → ∃ y, run (lcg_discard p k) x = Some y ∧ 0 < y < m ∧ y = (a ^ Z.of_nat k * x) mod m.
Proof.
  revert x. induction k as [|k IH]; intros x Hx.
  { exists x. split_and!; [done|lia..|]. cbn. rewrite Z.mul_1_l. symmetry. apply Z.mod_small. lia. }
  destruct (IH ((a * x) mod m)) as (y & E & ? & Ey); [by apply minstd_nonzero|].
  exists y. split_and!; [|lia..|].
  - unfold run, mbind, M_bind in *. cbn. unfold mbind, M_bind. cbn.
    by rewrite minstd_mod by lia.
  - rewrite Ey, Nat2Z.inj_succ, Z.pow_succ_r by lia.
    rewrite Z.mul_mod_idemp_r by lia. f_equal. ring.
Qed.
End Minstd.

(** The minimal standard engines, from any seed, give the numbers
    [a ^ k * x0 mod m] of the generator's definition, without overflow, and all of them
    are in the range from [min()] to [max()]: the state never becomes zero. *)
Theorem minstd_sequence p s (k : nat) :
  p = minstd_rand0 ∨ p = minstd_rand → 0 <= s < 2 ^ 32 →
  ∃ x, run (lcg_discard p k) (lcg_seed p s) = Some x ∧
    x = (lcg_a p ^ Z.of_nat k * lcg_seed p s) mod lcg_m p ∧
    lcg_min p <= x <= lcg_max p.
Proof.
  intros Hp Hs. destruct (minstd_discard p Hp k (lcg_seed p s)) as (x & E & ? & Ex).
  { by apply minstd_seed. }
  exists x. split_and!; [done|done|..]; destruct Hp as [-> | ->]; change (lcg_max _) with 2147483646;
    change (lcg_min _) with 1; cbn in *; lia.
Qed.

Lemma minstd_sequence_witness :
  ∃ x, run (lcg_discard minstd_rand0 10000) (lcg_seed minstd_rand0 1) = Some x ∧ x = 1043618065.
Proof.
  destruct (minstd_sequence minstd_rand0 1 10000) as (x & E & Ex & _); [by left|lia|].
  exists x. split; [exact E|]. rewrite Ex.
  change (lcg_seed minstd_rand0 1) with 1. rewrite Z.mul_1_r.
  rewrite <- Zpow_mod_correct by (cbn; lia). vm_compute. reflexivity.
Defined.

(** * The Mersenne twister

    The generator's definition: a sequence whose element [n + k] is the twist of
    elements [k], [k + 1] and [k + m]. [extend p k xs] appends the next [k] elements. *)

Fixpoint extend (p : mt_params) (k : nat) (xs : list Z) : option (list Z) :=
  match k with
  | O => Some xs
  | S k =>
      let i := (length xs - mt_n p)%nat in
      x0 ← xs !! i;
      x1 ← xs !! (i + 1)%nat;
      xm ← xs !! (i + mt_m p)%nat;
      extend p k (xs ++ [twist p x0 x1 xm])
  end.

Section Recurrence.
Variable p : mt_params.
Local Abbreviation n := (mt_n p).
Local Abbreviation m := (mt_m p).
Hypothesis Hm : (1 <= m < n)%nat.
Variable x : list Z.
Hypothesis Hx : length x = n.
Implicit Types ys : list Z.

(** The array after [length ys] assignments of the block update. *)
Local Abbreviation block ys := (ys ++ drop (length ys) x).

Lemma extend_app k k' xs xs' : extend p k xs = Some xs' → extend p (k + k') xs = extend p k' xs'.
Proof.
  revert xs. induction k as [|k IH]; intros xs E; [by injection E as ->|]. cbn in *.
  destruct (xs !! (length xs - n)%nat); [|done]. cbn in *.
  destruct (xs !! (length xs - n + 1)%nat); [|done]. cbn in *.
  destruct (xs !! (length xs - n + m)%nat); [|done]. cbn in *. by apply IH.
Qed.

Lemma block_old ys j : (length ys <= j)%nat → block ys !! j = (x ++ ys) !! j ∨ (n <= j)%nat.
Proof.
  intros. destruct (decide (j < n)%nat); [left|right; lia].
  rewrite lookup_app_r, lookup_drop, lookup_app_l by lia. f_equal. lia.
Qed.

Lemma block_new ys j : (j < length ys)%nat → block ys !! j = (x ++ ys) !! (n + j)%nat.
Proof. intros. rewrite lookup_app_l, lookup_app_r by lia. f_equal. lia. Qed.

(** One assignment appends one element to the sequence. *)
Lemma gen_step_extends ys k1 km :
  (length ys < n)%nat → length (block ys) = n →
  block ys !! k1 = (x ++ ys) !! (length ys + 1)%nat →
  block ys !! km = (x ++ ys) !! (length ys + m)%nat →
  ∃ y, gen_step p (length ys) k1 km (block ys) = Some (block (ys ++ [y])) ∧
       extend p 1 (x ++ ys) = Some (x ++ ys ++ [y]).
Proof.
  intros Hk Hl E1 Em. set (k := length ys) in *.
  destruct (block_old ys k) as [E0|]; [done| |lia]. fold k in E0.
  assert (∀ j, (j < n + k)%nat → is_Some ((x ++ ys) !! j)) as Hs.
  { intros j ?. apply lookup_lt_is_Some. rewrite length_app. lia. }
  destruct (Hs k) as [a Ea]; [lia|]. destruct (Hs (k + 1)%nat) as [b Eb]; [lia|].
  destruct (Hs (k + m)%nat) as [c Ec]; [lia|].
  exists (twist p a b c). split.
  - unfold gen_step, x_at. rewrite E0, E1, Em, Ea, Eb, Ec. cbn. f_equal.
    rewrite length_app. cbn. replace (length ys + 1)%nat with (S k) by lia.
    rewrite insert_app_r_alt by lia. rewrite Nat.sub_diag, <- app_assoc. f_equal.
    destruct (drop k x) as [|z r] eqn:Ed.
    { apply (f_equal length) in Ed. rewrite length_drop in Ed. cbn in Ed. lia. }
    cbn. f_equal. replace (S k) with (k + 1)%nat by lia. by rewrite <- drop_drop, Ed.
  - cbn. rewrite length_app. replace (length x + length ys - n)%nat with k by lia.
    rewrite Ea. cbn. rewrite Eb. cbn. rewrite Ec. cbn. by rewrite <- app_assoc.
Qed.

Lemma block_length ys : (length ys <= n)%nat → length (block ys) = n.
Proof. intros. rewrite length_app, length_drop. lia. Qed.

(** A loop of assignments that reads the right elements. *)
Lemma gen_loop_extends count km ys :
  (length ys + count < n)%nat →
  (∀ zs, (length zs < length ys + count)%nat → (length ys <= length zs)%nat →
    block zs !! km (length zs) = (x ++ zs) !! (length zs + m)%nat) →
  ∃ zs, gen_loop p (length ys) count km (block ys) = Some (block (ys ++ zs)) ∧
        length zs = count ∧ extend p count (x ++ ys) = Some (x ++ ys ++ zs).
Proof.
  revert ys. induction count as [|count IH]; intros ys Hc Hkm.
  { exists []. rewrite app_nil_r. split_and!; done. }
  destruct (gen_step_extends ys (length ys + 1) (km (length ys))) as (y & E & Ex);
    [lia|apply block_length; lia| |apply Hkm; lia|].
  { destruct (block_old ys (length ys + 1)); [lia|done|lia]. }
  destruct (IH (ys ++ [y])) as (zs & E' & Hl & Ex').
  { rewrite length_app. cbn. lia. }
  { intros zs ??. apply Hkm; rewrite length_app in *; cbn in *; lia. }
  assert ((ys ++ [y]) ++ zs = ys ++ y :: zs) as Ea by (by rewrite <- app_assoc).
  rewrite Ea in E', Ex'. exists (y :: zs). split_and!; [|cbn; by rewrite Hl|].
  - cbn [gen_loop]. rewrite E. cbn [mbind option_bind].
    by replace (S (length ys)) with (length (ys ++ [y])) by (rewrite length_app; cbn; lia).
  - change (S count) with (1 + count)%nat. by rewrite (extend_app 1 count _ _ Ex).
Qed.

Lemma gen_rand_extends :
  ∃ ys, _M_gen_rand p x = Some ys ∧ length ys = n ∧ extend p n x = Some (x ++ ys).
Proof.
  destruct (gen_loop_extends (n - m) (λ k, k + m)%nat []) as (ys & E1 & Hl1 & X1); cbn.
  { lia. }
  { intros zs ??. destruct (block_old zs (length zs + m)); [lia|done|lia]. }
  cbn in E1, X1. rewrite app_nil_r in X1.
  destruct (gen_loop_extends (n - 1 - (n - m)) (λ k, k - (n - m))%nat ys) as (zs & E2 & Hl2 & X2).
  { lia. }
  { intros zs ??. rewrite block_new by lia. f_equal. lia. }
  destruct (gen_step_extends (ys ++ zs) 0 (m - 1)) as (z & E3 & X3).
  { rewrite length_app. lia. }
  { apply block_length. rewrite length_app. lia. }
  { rewrite block_new by (rewrite length_app; lia). f_equal. rewrite length_app. lia. }
  { rewrite block_new by (rewrite length_app; lia). f_equal. rewrite length_app. lia. }
  exists ((ys ++ zs) ++ [z]). rewrite length_app, length_app, Hl1, Hl2. split_and!.
  - assert (length (ys ++ zs) = n - 1)%nat as Hl by (rewrite length_app; lia).
    unfold _M_gen_rand. rewrite drop_0 in E1. rewrite E1. cbn [mbind option_bind].
    rewrite Hl1 in E2 |- *. rewrite E2. cbn [mbind option_bind]. rewrite Hl in E3 |- *. rewrite E3.
    rewrite drop_ge by (rewrite !length_app; cbn; lia). by rewrite app_nil_r.
  - cbn. lia.
  - replace n with ((n - m) + ((n - 1 - (n - m)) + 1))%nat by lia.
    rewrite (extend_app _ _ _ _ X1), (extend_app _ _ _ _ X2). by rewrite X3.
Qed.
End Recurrence.

(** [k] calls of [operator()]. *)
Fixpoint mt_calls (p : mt_params) (k : nat) : M mt_state (list Z) :=
  match k with
  | O => mret []
  | S k => z ← mt_next p; zs ← mt_calls p k; mret (z :: zs)
  end.

Section Calls.
Variable p : mt_params.
Local Abbreviation n := (mt_n p).
Local Abbreviation m := (mt_m p).
Hypothesis Hm : (1 <= m < n)%nat.

Lemma extend_total k xs :
  (n <= length xs)%nat → ∃ ys, length ys = k ∧ extend p k xs = Some (xs ++ ys).
Proof.
  revert xs. induction k as [|k IH]; intros xs Hl; [exists []; by rewrite app_nil_r|]. cbn.
  assert (∀ j, (j < length xs)%nat → is_Some (xs !! j)) as Hs by (intros; by apply lookup_lt_is_Some).
  destruct (Hs (length xs - n)%nat) as [a ->]; [lia|]. cbn.
  destruct (Hs (length xs - n + 1)%nat) as [b ->]; [lia|]. cbn.
  destruct (Hs (length xs - n + m)%nat) as [c ->]; [lia|]. cbn.
  destruct (IH (xs ++ [twist p a b c])) as (ys & Hy & E); [rewrite length_app; cbn; lia|].
  exists (twist p a b c :: ys). split; [cbn; lia|]. by rewrite E, <- app_assoc.
Qed.

(** Only the last [n] elements matter. *)
Lemma extend_suffix k a b b' :
  (n <= length b)%nat → extend p k b = Some b' → extend p k (a ++ b) = Some (a ++ b').
Proof.
  revert b. induction k as [|k IH]; intros b Hl E; [by injection E as ->|]. cbn in *.
  rewrite length_app. replace (length a + length b - n)%nat with (length a + (length b - n))%nat by lia.
  assert (∀ j, (a ++ b) !! (length a + j)%nat = b !! j) as Hj.
  { intros j. rewrite lookup_app_r by lia. f_equal. lia. }
  rewrite <- !Nat.add_assoc, !Hj.
  destruct (b !! (length b - n)%nat); [|done]. cbn in *.
  destruct (b !! (length b - n + 1)%nat); [|done]. cbn in *.
  destruct (b !! (length b - n + m)%nat); [|done]. cbn in *.
  rewrite <- app_assoc. apply IH; [rewrite length_app; lia|done].
Qed.

Lemma extend_length k xs xs' : extend p k xs = Some xs' → length xs' = (length xs + k)%nat.
Proof.
  revert xs. induction k as [|k IH]; intros xs E; [injection E as ->; lia|]. cbn in E.
  destruct (xs !! (length xs - n)%nat); [|done]. cbn in E.
  destruct (xs !! (length xs - n + 1)%nat); [|done]. cbn in E.
  destruct (xs !! (length xs - n + m)%nat); [|done]. cbn in E.
  apply IH in E. rewrite length_app in E. cbn in E. lia.
Qed.

(** Calls within a block. *)
Lemma calls_within x q k :
  length x = n → (q + k <= n)%nat →
  mt_calls p k {| _M_x := x; _M_p := q |} =
  Some (temper p <$> take k (drop q x), {| _M_x := x; _M_p := q + k |}).
Proof.
  intros Hx. revert q. induction k as [|k IH]; intros q Hq; cbn.
  { by rewrite Nat.add_0_r. }
  unfold mbind at 1, M_bind at 1, mt_next. cbn.
  destruct (Nat.leb_spec n q); [lia|]. cbn.
  destruct (lookup_lt_is_Some_2 x q) as [v Ev]; [lia|]. unfold x_at. rewrite Ev. cbn.
  unfold mbind, M_bind. rewrite IH by lia. cbn. rewrite (drop_S _ _ _ Ev). cbn.
  by replace (S (q + k)) with (q + S k)%nat by lia.
Qed.

(** A call at the end of a block is a call at the start of the next one. *)
Lemma calls_reload x y k :
  _M_gen_rand p x = Some y →
  mt_calls p (S k) {| _M_x := x; _M_p := n |} = mt_calls p (S k) {| _M_x := y; _M_p := 0 |}.
Proof.
  intros E. cbn [mt_calls]. unfold mbind, M_bind.
  assert (mt_next p {| _M_x := x; _M_p := n |} = mt_next p {| _M_x := y; _M_p := 0 |}) as ->; [|done].
  unfold mt_next. cbn [_M_x _M_p]. rewrite Nat.leb_refl, E.
  destruct (Nat.leb_spec n 0); [lia|done].
Qed.

Lemma calls_app k k' s :
  mt_calls p (k + k') s =
  (zs ← mt_calls p k; zs' ← mt_calls p k'; mret (zs ++ zs')) s.
Proof.
  revert s. induction k as [|k IH]; intros s; cbn.
  { unfold mbind, M_bind. cbn. by destruct (mt_calls p k' s) as [[]|]. }
  unfold mbind, M_bind in *. destruct (mt_next p s) as [[z s1]|]; [|done].
  rewrite IH. destruct (mt_calls p k s1) as [[zs s2]|]; [|done].
  unfold mret, M_ret. by destruct (mt_calls p k' s2) as [[]|].
Qed.

Lemma calls_spec k x :
  length x = n →
  ∃ ys s', extend p k x = Some (x ++ ys) ∧ length ys = k ∧
    mt_calls p k {| _M_x := x; _M_p := n |} = Some (temper p <$> ys, s').
Proof.
  revert x. induction k as [k IH] using lt_wf_ind; intros x Hx.
  destruct k as [|k]; [exists [], {| _M_x := x; _M_p := n |}; by rewrite app_nil_r|].
  destruct (gen_rand_extends p Hm x Hx) as (b & E & Hb & Xb).
  rewrite (calls_reload x b k E). destruct (decide (S k <= n)%nat) as [|Hk].
  - destruct (extend_total (S k) x) as (ys & Hy & Xy); [lia|]. exists ys.
    rewrite calls_within by (done || lia). exists {| _M_x := b; _M_p := S k |}.
    split_and!; [done|done|]. rewrite drop_0. do 3 f_equal.
    destruct (extend_total (n - S k) (x ++ ys)) as (zs & _ & Xz); [rewrite length_app; lia|].
    rewrite <- (extend_app p (S k) (n - S k) _ _ Xy) in Xz.
    replace (S k + (n - S k))%nat with n in Xz by lia. rewrite Xb in Xz. injection Xz as Xz.
    rewrite <- app_assoc in Xz. apply app_inv_head in Xz as ->. by rewrite take_app_length'.
  - destruct (IH (S k - n)%nat ltac:(lia) b Hb) as (zs & s' & Xz & Hz & Ez).
    exists (b ++ zs), s'. split_and!.
    + replace (S k) with (n + (S k - n))%nat by lia. rewrite (extend_app p n _ _ _ Xb).
      by rewrite (extend_suffix _ x b _ ltac:(lia) Xz).
    + rewrite length_app. lia.
    + replace (S k) with (n + (S k - n))%nat at 1 by lia. rewrite calls_app.
      unfold mbind, M_bind. rewrite calls_within by (done || lia). cbn. rewrite Ez. cbn.
      by rewrite drop_0, take_ge, fmap_app by lia.
Qed.

Lemma seed_loop_total fuel i xs :
  length xs = i → (1 <= i)%nat →
  ∃ ys, mt_seed_loop p i fuel xs = Some ys ∧ length ys = (i + fuel)%nat.
Proof.
  revert i xs. induction fuel as [|fuel IH]; intros i xs Hl Hi; cbn.
  { exists xs. split; [done|lia]. }
  destruct (lookup_lt_is_Some_2 xs (i - 1)) as [v Ev]; [lia|]. unfold x_at. rewrite Ev. cbn.
  destruct (IH (S i) (xs ++ [__mod (mt_W p) (_Shift p (mt_w p)) 1 0
    (wrap (mt_W p) (wrap (mt_W p) (Z.lxor v (v >> (mt_w p - 2)) * mt_f p) +
      __mod (mt_W p) (Z.of_nat n) 1 0 (Z.of_nat i)))])) as (ys & E & Hy).
  { rewrite length_app. cbn. lia. }
  { lia. }
  exists ys. split; [exact E|lia].
Qed.

Lemma seed_total sd : ∃ x, mt_seed p sd = Some {| _M_x := x; _M_p := n |} ∧ length x = n.
Proof.
  destruct (seed_loop_total (n - 1) 1 [__mod (mt_W p) (_Shift p (mt_w p)) 1 0 sd]) as (x & E & Hx);
    [done..|].
  exists x. unfold mt_seed. rewrite E. cbn. split; [done|lia].
Qed.

Lemma discard_spec fuel z x q :
  length x = n → (q <= n)%nat → (z + (if decide (q = n) then 1 else 0) < fuel)%nat →
  mt_discard_loop p fuel z {| _M_x := x; _M_p := q |} =
  (λ r, (tt, snd r)) <$> mt_calls p z {| _M_x := x; _M_p := q |}.
Proof.
  revert z x q. induction fuel as [|fuel IH]; intros z x q Hx Hq Hf; [lia|].
  cbn [mt_discard_loop _M_x _M_p]. destruct (Nat.ltb_spec (n - q) z).
  - destruct (gen_rand_extends p Hm x Hx) as (y & E & Hy & _). rewrite E. cbn [mbind option_bind].
    rewrite IH; [|done|lia|destruct (decide (0 = n)%nat); [lia|case_decide; lia]].
    destruct (z - (n - q))%nat as [|k] eqn:Ek; [lia|].
    replace z with ((n - q) + S k)%nat by lia. rewrite calls_app. unfold mbind, M_bind.
    rewrite (calls_within x q (n - q)) by (done || lia). replace (q + (n - q))%nat with n by lia.
    rewrite (calls_reload x y k E). unfold mret, M_ret.
    by destruct (mt_calls p (S k) _) as [[]|].
  - by rewrite calls_within by (done || lia).
Qed.
End Calls.

(** C37: a Mersenne twister gives the numbers of its definition: from any seed, the results
    of [k] calls are the tempered elements after the first [n] of the sequence that
    starts with the seeded array and goes on by the twister's recurrence. The block
    update in place, in three loops, computes the same elements. *)
Theorem mt_numbers p sd (k : nat) :
  (1 <= mt_m p < mt_n p)%nat →
  ∃ x ys s', mt_seed p sd = Some {| _M_x := x; _M_p := mt_n p |} ∧ length x = mt_n p ∧
    extend p k x = Some (x ++ ys) ∧ length ys = k ∧
    mt_calls p k {| _M_x := x; _M_p := mt_n p |} = Some (temper p <$> ys, s').
Proof.
  intros Hm. destruct (seed_total p Hm sd) as (x & E & Hx).
  destruct (calls_spec p Hm k x Hx) as (ys & s' & ? & ? & ?). by exists x, ys, s'.
Qed.

(** [discard], which skips whole blocks, leaves a Mersenne twister as so many
    calls would. *)
Theorem mt_discard_calls p x q (z : nat) :
  (1 <= mt_m p < mt_n p)%nat → length x = mt_n p → (q <= mt_n p)%nat →
  run (mt_discard p z) {| _M_x := x; _M_p := q |} = run (mt_calls p z) {| _M_x := x; _M_p := q |}.
Proof.
  intros Hm Hx Hq. unfold run, mt_discard.
  rewrite discard_spec; [|done|done|done|case_decide; lia].
  by destruct (mt_calls p z _) as [[]|].
Qed.

(** The 10000th number of a default-constructed [mt19937], which the C++ standard
    gives as 4123659995. *)
Lemma mt_numbers_witness :
  (∃ x ys s', mt_seed mt19937 5489 = Some {| _M_x := x; _M_p := 624 |} ∧ length x = 624%nat ∧
    extend mt19937 700 x = Some (x ++ ys) ∧ length ys = 700%nat ∧
    mt_calls mt19937 700 {| _M_x := x; _M_p := 624 |} = Some (temper mt19937 <$> ys, s')) ∧
  (s ← mt_seed mt19937 5489; '(_, s) ← mt_discard mt19937 9999 s; '(z, _) ← mt_next mt19937 s; Some z)
    = Some 4123659995.
Proof. split; [apply (mt_numbers mt19937 5489 700); cbn; lia|]. vm_compute. reflexivity. Defined.

Lemma mt_discard_calls_witness :
  let p := {| mt_W := 32; mt_w := 32; mt_n := 4; mt_m := 2; mt_r := 31; mt_a := 0x9908b0df;
     mt_u := 11; mt_d := 0xffffffff; mt_s := 7; mt_b := 0x9d2c5680; mt_t := 15;
     mt_c := 0xefc60000; mt_l := 18; mt_f := 1812433253 |} in
  run (mt_discard p 10) {| _M_x := [1; 2; 3; 4]; _M_p := 3 |} =
  run (mt_calls p 10) {| _M_x := [1; 2; 3; 4]; _M_p := 3 |}.
Proof. intros p. apply (mt_discard_calls p); [cbn; lia|reflexivity|cbn; lia]. Defined.
