(* ===== verification/UniformInt.v ===== *)
(** * [std::uniform_int_distribution], [bits/uniform_int_dist.h]

    The distribution over [a, b] for [int] with a generator of 32-bit numbers from
    [min] to [max]. The generator is the sequence of the numbers that it gives, on
    which the code has no influence; a call that needs more numbers than there are
    in the sequence is undefined. Numbers that would make some values more likely
    than others are rejected and drawn again.

    The theorems: whatever a call returns is in the range, every value of the
    range is returned for some sequence, and a call that scales down returns
    each of them for exactly as many numbers; [__generate] is so many calls, except
    that it forgets to add [a] where it scales up. *)
From stdpp Require Import base numbers list.
From Stdlib Require Import ZArith Lia.
From S2P Require Import Prelude StlArray.

(** Conversion to [int]. *)
Definition s32 (z : Z) : Z :=
  let z := u32 z in if z <? 2147483648 then z else z - 4294967296.

Definition is_s32 (z : Z) : Prop := -2147483648 <= z < 2147483648.

Section Code.
Variables urngmin urngmax : Z.

(** [__urng()]. *)
Definition urng : M (list Z) Z := λ tape,
  match tape with
  | [] => None
  | x :: tape => Some (x, tape)
  end.

Definition urngrange : Z := u32 (urngmax - urngmin).

(** [__uctype(__urng()) - __urngmin]. *)
Definition draw : M (list Z) Z :=
  x ← urng;
  mret (u32 (x - urngmin)).

(** The loop of a call that scales down: numbers from [past] on are rejected. *)
Definition downscale (urange : Z) : M (list Z) Z :=
  let uerange := u32 (urange + 1) in
  let scaling := urngrange / uerange in
  let past := u32 (uerange * scaling) in
  ret ← while (λ _ : unit,
    ret ← draw;
    mret (if past <=? ret then inl tt else inr ret)) tt;
  mret (ret / scaling).

(** The loop of a call that scales up: [rest] gives the high part; sums that are too
    large or wrap around are rejected. *)
Definition upscale (rest : M (list Z) Z) (urange : Z) : M (list Z) Z :=
  while (λ _ : unit,
    let uerngrange := u32 (urngrange + 1) in
    high ← rest;
    let tmp := u32 (uerngrange * u32 high) in
    low ← draw;
    let ret := u32 (tmp + low) in
    mret (if (urange <? ret) || (ret <? tmp) then inl tt else inr ret)) tt.

(** [operator()(urng, param_type(a, b))]. A call for the high part is for a range
    at most half as large, so [depth] nested calls are enough for [2^depth] values. *)
Fixpoint call (depth : nat) (a b : Z) : M (list Z) Z :=
  match depth with
  | O => ub
  | S depth =>
      let urange := u32 (u32 b - u32 a) in
      ret ← (if urange <? urngrange then downscale urange
             else if urngrange <? urange then
               upscale (call depth 0 (s32 (urange / u32 (urngrange + 1)))) urange
             else draw);
      mret (s32 (u32 (ret + u32 a)))
  end.

Definition operator_call (a b : Z) : M (list Z) Z := call 33 a b.

Definition _Power_of_2 (x : Z) : bool := (u32 (x - 1) .& x) =? 0.

(** [__generate_impl] for [count] places, as the values written. *)
Fixpoint fill (count : nat) (one : M (list Z) Z) : M (list Z) (list Z) :=
  match count with
  | O => mret []
  | S count => v ← one; vs ← fill count one; mret (v :: vs)
  end.

Definition __generate_impl (count : nat) (a b : Z) : M (list Z) (list Z) :=
  let urange := u32 (u32 b - u32 a) in
  if urange <? urngrange then
    if _Power_of_2 (u32 (urngrange + 1)) && _Power_of_2 (u32 (urange + 1)) then
      fill count (ret ← draw; mret (s32 (u32 ((ret .& urange) + u32 a))))
    else
      fill count (ret ← downscale urange; mret (s32 (u32 (ret + u32 a))))
  else if urngrange <? urange then
    fill count
      (ret ← upscale (operator_call 0 (s32 (urange / u32 (urngrange + 1)))) urange;
       mret (s32 ret))
  else fill count (ret ← draw; mret (s32 (u32 (ret + u32 a)))).
End Code.

(** * Conversions *)

Lemma s32_id z : is_s32 z → s32 (u32 z) = z.
Proof. unfold is_s32, s32, u32. intros. rewrite Z.mod_mod by lia. case_match; divlia. Qed.

Lemma s32_add r a : s32 (u32 (r + u32 a)) = s32 (u32 (r + a)).
Proof. f_equal. unfold u32. by rewrite Z.add_mod_idemp_r by lia. Qed.

Lemma urange_sub a b : is_s32 a → is_s32 b → a <= b → u32 (u32 b - u32 a) = b - a.
Proof.
  unfold is_s32, u32. intros. rewrite Zminus_mod_idemp_l, Zminus_mod_idemp_r. apply Z.mod_small. lia.
Qed.

(** * Partial correctness of loops *)

Lemma iterate_result {S X Y} (I : S → Prop) (Q : Y → S → Prop) (body : X → M S (X + Y)) fuel x s y s' :
  (∀ x s r s', I s → body x s = Some (r, s') →
    match r with inl _ => I s' | inr y => Q y s' end) →
  I s → iterate fuel body x s = Some (y, s') → Q y s'.
Proof.
  intros Hb. revert x s. induction fuel as [|fuel IH]; intros x s Hs; [done|].
  cbn. unfold mbind, M_bind. destruct (body x s) as [[r s1]|] eqn:E; [|done].
  specialize (Hb x s r s1 Hs E). destruct r as [x'|y']; [by apply IH|].
  intros [= <- <-]. done.
Qed.

Lemma while_result {B X Y} (I : list B → Prop) (Q : Y → list B → Prop)
    (body : X → M (list B) (X + Y)) x l y l' :
  (∀ x l r l', I l → body x l = Some (r, l') →
    match r with inl _ => I l' | inr y => Q y l' end) →
  I l → while body x l = Some (y, l') → Q y l'.
Proof. intros Hb Hl. by apply (iterate_result I Q). Qed.

(** A loop that leaves at once. *)
Lemma while_once {B X Y} (body : X → M (list B) (X + Y)) x l y l' :
  body x l = Some (inr y, l') → while body x l = Some (y, l').
Proof. intros E. unfold while. cbn. unfold mbind, M_bind. by rewrite E. Qed.

Section Spec.
Variables urngmin urngmax : Z.
Hypothesis Hmin : 0 <= urngmin < urngmax.
Hypothesis Hmax : urngmax < 4294967296.
Local Abbreviation R := (urngmax - urngmin).

(** Numbers that the generator can give. *)
Definition valid (tape : list Z) : Prop := Forall (λ x, urngmin <= x <= urngmax) tape.

Lemma urngrange_eq : urngrange urngmin urngmax = R.
Proof. unfold urngrange. apply u32_id. unfold_range. lia. Qed.

Lemma draw_eq x tape : urngmin <= x <= urngmax → draw urngmin (x :: tape) = Some (x - urngmin, tape).
Proof.
  intros. unfold draw, mbind, M_bind, mret, M_ret. cbn. by rewrite u32_id by (unfold_range; lia).
Qed.

Lemma draw_valid tape d tape' :
  valid tape → draw urngmin tape = Some (d, tape') → 0 <= d <= R ∧ valid tape'.
Proof.
  intros Hv E. destruct tape as [|x tape]; [done|]. apply Forall_cons in Hv as [Hx Hv].
  rewrite draw_eq in E by done. injection E as <- <-. split; [lia|done].
Qed.

(** ** Scaling down *)

Section Down.
Variable r : Z.
Hypothesis Hr : 0 <= r < R.
Local Abbreviation scaling := (R / (r + 1)).

Lemma scaling_pos : 1 <= scaling ∧ (r + 1) * scaling <= R.
Proof.
  split.
  - apply Z.div_le_lower_bound; lia.
  - apply Z.mul_div_le. lia.
Qed.

Lemma downscale_eq x tape :
  urngmin <= x <= urngmax → x - urngmin < (r + 1) * scaling →
  downscale urngmin urngmax r (x :: tape) = Some ((x - urngmin) / scaling, tape).
Proof.
  intros Hx Hp. pose proof scaling_pos. unfold downscale. rewrite urngrange_eq.
  rewrite (u32_id (r + 1)), (u32_id ((r + 1) * _)) by (unfold_range; lia).
  unfold mbind, M_bind. erewrite while_once; [done|].
  unfold mbind, M_bind. rewrite draw_eq by done. unfold mret, M_ret.
  by destruct (Z.leb_spec ((r + 1) * scaling) (x - urngmin)); [lia|].
Qed.

Lemma downscale_result tape v tape' :
  valid tape → downscale urngmin urngmax r tape = Some (v, tape') → 0 <= v <= r ∧ valid tape'.
Proof.
  intros Hv. pose proof scaling_pos. unfold downscale. rewrite urngrange_eq.
  rewrite (u32_id (r + 1)), (u32_id ((r + 1) * _)) by (unfold_range; lia).
  unfold mbind at 1, M_bind at 1. destruct (while _ _ _) as [[d t]|] eqn:E; [|done].
  apply (while_result valid (λ d t, 0 <= d < (r + 1) * scaling ∧ valid t)) in E; [|clear E|done].
  - intros [= <- <-]. destruct E as [Hd Ht]. split; [|done]. split; [apply Z.div_pos; lia|].
    apply Z.lt_succ_r, Z.div_lt_upper_bound; lia.
  - intros _ l [] l' Hl E; unfold mbind, M_bind in E;
      destruct (draw urngmin l) as [[d1 t1]|] eqn:Ed; try done; apply draw_valid in Ed as [? ?]; try done;
      unfold mret, M_ret in E; destruct (Z.leb_spec ((r + 1) * scaling) d1); simplify_eq; [done|].
    split; [lia|done].
Qed.

Lemma downscale_reject x tape :
  urngmin <= x <= urngmax → (r + 1) * scaling <= x - urngmin →
  downscale urngmin urngmax r (x :: tape) = downscale urngmin urngmax r tape.
Proof.
  intros Hx Hp. pose proof scaling_pos. unfold downscale. rewrite urngrange_eq.
  rewrite (u32_id (r + 1)), (u32_id ((r + 1) * _)) by (unfold_range; lia).
  unfold mbind at 1 3, M_bind at 1 3. unfold while at 1. cbn [iterate length].
  unfold mbind at 1, M_bind at 1. unfold mbind at 1, M_bind at 1. rewrite draw_eq by done.
  unfold mret at 1, M_ret at 1. destruct (Z.leb_spec ((r + 1) * scaling) (x - urngmin)); [|lia].
  done.
Qed.
End Down.

(** ** Scaling up *)

Section Up.
Variable r : Z.
Hypothesis Hr : R < r < 4294967296.
Variable rest : M (list Z) Z.

Lemma upscale_eq high low tape tape' :
  rest tape = Some (high, urngmin + low :: tape') → 0 <= high → 0 <= low <= R →
  (R + 1) * high + low <= r →
  upscale urngmin urngmax rest r tape = Some ((R + 1) * high + low, tape').
Proof.
  intros Eh ???. unfold upscale. rewrite urngrange_eq. apply while_once.
  unfold mbind, M_bind. rewrite Eh, draw_eq by lia. unfold mret, M_ret.
  rewrite (u32_id (R + 1)) by (unfold_range; lia).
  rewrite (u32_id high) by (unfold_range; nia).
  rewrite (u32_id (_ * high)) by (unfold_range; nia).
  replace (urngmin + low - urngmin) with low by lia.
  rewrite u32_id by (unfold_range; nia).
  destruct (Z.ltb_spec r ((R + 1) * high + low)); [lia|].
  destruct (Z.ltb_spec ((R + 1) * high + low) ((R + 1) * high)); [lia|done].
Qed.

Lemma upscale_result tape v tape' :
  (∀ t h t', valid t → rest t = Some (h, t') → valid t') →
  valid tape → upscale urngmin urngmax rest r tape = Some (v, tape') → 0 <= v <= r ∧ valid tape'.
Proof.
  intros Hrest Hv. unfold upscale. rewrite urngrange_eq.
  apply (while_result valid (λ v t, 0 <= v <= r ∧ valid t)); [|done].
  intros _ l res l' Hl E. unfold mbind, M_bind in E.
  destruct (rest l) as [[h t1]|] eqn:Eh; [|done]. specialize (Hrest _ _ _ Hl Eh).
  destruct (draw urngmin t1) as [[d t2]|] eqn:Ed; [|done]. apply draw_valid in Ed as [_ ?]; [|done].
  unfold mret, M_ret in E. set (ret := u32 (_ + d)) in E.
  assert (is_u32 ret) as Hret by apply u32_range. unfold is_u32 in Hret.
  destruct (Z.ltb_spec r ret); cbn [orb] in E; [by simplify_eq|].
  destruct (ret <? _); simplify_eq; [done|]. split; [lia|done].
Qed.
End Up.

(** ** Calls *)

Lemma high_range r : R < r < 4294967296 → 0 <= r / (R + 1) <= r / 2 ∧ is_s32 (r / (R + 1)).
Proof.
  intros. assert (0 <= r / (R + 1)) by (apply Z.div_pos; lia).
  assert (r / (R + 1) <= r / 2) by (apply Z.div_le_compat_l; lia).
  split; [lia|]. unfold is_s32. divlia.
Qed.

Lemma high_param r : R < r < 4294967296 → s32 (r / u32 (R + 1)) = r / (R + 1).
Proof.
  intros Hr. destruct (high_range r Hr). rewrite (u32_id (R + 1)) by (unfold_range; lia).
  rewrite <- (u32_id (r / (R + 1))) at 1 by (unfold_range; unfold is_s32 in *; lia). by apply s32_id.
Qed.

(** The offset that a call adds to [a]. *)
Definition offset (rest : M (list Z) Z) (r : Z) : M (list Z) Z :=
  if r <? R then downscale urngmin urngmax r
  else if R <? r then upscale urngmin urngmax rest r
  else draw urngmin.

Lemma call_offset depth a b tape :
  is_s32 a → is_s32 b → a <= b →
  call urngmin urngmax (S depth) a b tape =
  match offset (call urngmin urngmax depth 0 ((b - a) / (R + 1))) (b - a) tape with
  | Some (d, tape') => Some (s32 (u32 (d + a)), tape')
  | None => None
  end.
Proof.
  intros Ha Hb ?. cbn [call]. rewrite urange_sub, urngrange_eq by done.
  unfold mbind, M_bind, offset. destruct (Z.ltb_spec (b - a) R).
  { by destruct (downscale _ _ _ _) as [[]|]; [rewrite s32_add|]. }
  destruct (Z.ltb_spec R (b - a)).
  - rewrite high_param by (unfold is_s32 in *; lia).
    by destruct (upscale _ _ _ _ _) as [[]|]; [rewrite s32_add|].
  - by destruct (draw _ _) as [[]|]; [rewrite s32_add|].
Qed.

Lemma offset_result rest r tape d tape' :
  0 <= r < 4294967296 → (∀ t h t', valid t → rest t = Some (h, t') → valid t') → valid tape →
  offset rest r tape = Some (d, tape') → 0 <= d <= r ∧ valid tape'.
Proof.
  intros ? Hrest Hv. unfold offset. destruct (Z.ltb_spec r R); [by apply downscale_result; [lia|]|].
  destruct (Z.ltb_spec R r); [by apply upscale_result|].
  intros E. apply draw_valid in E as [? ?]; [|done]. split; [lia|done].
Qed.

Lemma call_result depth a b tape v tape' :
  is_s32 a → is_s32 b → a <= b → valid tape → call urngmin urngmax depth a b tape = Some (v, tape') →
  a <= v <= b ∧ valid tape'.
Proof.
  revert a b tape v tape'. induction depth as [|depth IH]; intros a b tape v tape' Ha Hb ? Hv; [done|].
  pose proof Ha as Ha'. pose proof Hb as Hb'. unfold is_s32 in Ha', Hb'.
  rewrite call_offset by done. destruct (offset _ _ _) as [[d t]|] eqn:E; [|done]. intros [= <- <-].
  apply offset_result in E as [? ?]; [|lia| |done].
  - rewrite s32_id by (unfold is_s32; lia). split; [lia|done].
  - intros t1 h t2 Ht E1. destruct (decide (R < b - a)) as [Hlt|].
    + destruct (high_range (b - a)) as [? ?]; [lia|].
      apply IH in E1 as [_ ?]; [done|unfold is_s32; lia|done|lia|done].
    + assert ((b - a) / (R + 1) = 0) as E0 by (apply Z.div_small; lia). rewrite E0 in E1.
      apply IH in E1 as [_ ?]; [done|unfold is_s32; lia..|done].
Qed.

Lemma call_reaches depth a b v :
  is_s32 a → is_s32 b → a <= v <= b → b - a < 2 ^ Z.of_nat depth →
  ∃ tape, valid tape ∧
    ∀ rest, call urngmin urngmax (S depth) a b (tape ++ rest) = Some (v, rest).
Proof.
  revert a b v. induction depth as [depth IH] using lt_wf_ind. intros a b v Ha Hb Hv Hd.
  pose proof Ha as Ha'. pose proof Hb as Hb'. unfold is_s32 in Ha', Hb'.
  enough (∃ tape, valid tape ∧ ∀ rest,
    offset (call urngmin urngmax depth 0 ((b - a) / (R + 1))) (b - a) (tape ++ rest) = Some (v - a, rest))
    as (tape & Ht & E).
  { exists tape. split; [done|]. intros rest. rewrite call_offset by (done || lia).
    rewrite E, s32_id by (unfold is_s32; lia). do 2 f_equal. lia. }
  unfold offset. destruct (Z.ltb_spec (b - a) R); [|destruct (Z.ltb_spec R (b - a))].
  - destruct (scaling_pos (b - a)) as [? ?]; [lia|].
    exists [urngmin + (v - a) * (R / (b - a + 1))]. split; [repeat constructor; nia|].
    intros rest. cbn [app]. rewrite downscale_eq; [|lia|nia|nia].
    do 2 f_equal. rewrite Z.add_simpl_l. apply Z.div_mul. lia.
  - destruct depth as [|depth]; [cbn in Hd; lia|]. destruct (high_range (b - a)) as [? ?]; [lia|].
    assert (v - a = (R + 1) * ((v - a) / (R + 1)) + (v - a) mod (R + 1)) as Ev by (apply Z.div_mod; lia).
    assert (0 <= (v - a) mod (R + 1) < R + 1) by (apply Z.mod_pos_bound; lia).
    destruct (IH depth ltac:(lia) 0 ((b - a) / (R + 1)) ((v - a) / (R + 1))) as (tape & Ht & E).
    { unfold is_s32. lia. }
    { done. }
    { split; [apply Z.div_pos; lia|apply Z.div_le_mono; lia]. }
    { rewrite Nat2Z.inj_succ, Z.pow_succ_r in Hd by lia. divlia. }
    exists (tape ++ [urngmin + (v - a) mod (R + 1)]). split.
    { apply Forall_app. split; [done|]. repeat constructor; lia. }
    intros rest. rewrite <- app_assoc. cbn [app].
    rewrite (upscale_eq (b - a) ltac:(lia) _ _ _ _ _ (E _)) by (lia || apply Z.div_pos; lia).
    by rewrite <- Ev.
  - exists [urngmin + (v - a)]. split; [repeat constructor; lia|]. intros rest. cbn [app].
    rewrite draw_eq by lia. do 2 f_equal. lia.
Qed.

(** ** The number of nested calls *)

Lemma iterate_ext {S X Y} (body body' : X → M S (X + Y)) fuel x s :
  (∀ x s, body x s = body' x s) → iterate fuel body x s = iterate fuel body' x s.
Proof.
  intros H. revert x s. induction fuel as [|fuel IH]; intros x s; [done|]. cbn.
  unfold mbind, M_bind. rewrite H. destruct (body' x s) as [[[x'|y] s']|]; [apply IH|done|done].
Qed.

Lemma offset_ext rest rest' r tape :
  (∀ t, rest t = rest' t) → offset rest r tape = offset rest' r tape.
Proof.
  intros H. unfold offset. destruct (r <? R); [done|]. destruct (R <? r); [|done].
  apply iterate_ext. intros _ t. unfold mbind, M_bind. by rewrite H.
Qed.

Lemma call_depth d d' a b tape :
  is_s32 a → is_s32 b → a <= b → b - a < 2 ^ Z.of_nat d → b - a < 2 ^ Z.of_nat d' →
  call urngmin urngmax (S d) a b tape = call urngmin urngmax (S d') a b tape.
Proof.
  revert d' a b tape. induction d as [|d IH]; intros d' a b tape Ha Hb ? Hd Hd';
    rewrite !call_offset by done; unfold is_s32 in Ha, Hb.
  - unfold offset. destruct (Z.ltb_spec (b - a) R); [done|]. cbn in Hd. lia.
  - destruct (decide (R < b - a)) as [Hlt|].
    + destruct (high_range (b - a)) as [? ?]; [lia|]. erewrite offset_ext; [done|]. intros t.
      destruct d' as [|d']; [cbn in Hd'; lia|].
      rewrite Nat2Z.inj_succ, Z.pow_succ_r in Hd, Hd' by lia.
      apply IH; [unfold is_s32; lia|done|lia|divlia|divlia].
    + unfold offset. destruct (Z.ltb_spec R (b - a)); [lia|done].
Qed.
End Spec.

Lemma fill_ext count (one one' : M (list Z) Z) tape :
  (∀ t, one t = one' t) → fill count one tape = fill count one' tape.
Proof.
  intros H. revert tape. induction count as [|count IH]; intros tape; [done|]. cbn.
  unfold mbind, M_bind. rewrite H. destruct (one' tape) as [[v t]|]; [|done]. by rewrite IH.
Qed.

Lemma s32_sub z a : s32 (s32 z - a) = s32 (z - a).
Proof.
  unfold s32 at 1 3. replace (u32 (s32 z - a)) with (u32 (z - a)); [done|].
  unfold s32, u32. case_match; rewrite ?Zminus_mod_idemp_l; [done|].
  replace (z mod 4294967296 - 4294967296 - a) with (z mod 4294967296 - a + (-1) * 4294967296) by lia.
  rewrite Z_mod_plus_full. by rewrite Zminus_mod_idemp_l.
Qed.

Lemma s32_u32 z : s32 (u32 z) = s32 z.
Proof. unfold s32, u32. by rewrite Z.mod_mod by lia. Qed.

(** * The distribution *)

Section Library.
Variables urngmin urngmax a b : Z.
Hypothesis Hmin : 0 <= urngmin < urngmax.
Hypothesis Hmax : urngmax < 4294967296.
Hypothesis Ha : is_s32 a.
Hypothesis Hb : is_s32 b.
Hypothesis Hab : a <= b.

(** C38: whatever numbers the generator gives, a value that the distribution returns is
    in its range, and every value of the range is returned for some of them: calls
    nest deep enough for every range of [int], and no rejection excludes a value. *)
Theorem uniform_in_range :
  (∀ tape v rest, valid urngmin urngmax tape →
    operator_call urngmin urngmax a b tape = Some (v, rest) → a <= v <= b) ∧
  (∀ v, a <= v <= b → ∃ tape, valid urngmin urngmax tape ∧
    ∀ rest, operator_call urngmin urngmax a b (tape ++ rest) = Some (v, rest)).
Proof.
  split.
  - intros tape v rest Hv E. by destruct (call_result _ _ Hmin Hmax _ _ _ _ _ _ Ha Hb Hab Hv E).
  - intros v Hv. apply (call_reaches _ _ Hmin Hmax 32 a b v Ha Hb Hv). unfold is_s32 in *. cbn. lia.
Qed.

(** Where the generator has more numbers than the range has values, each value is
    returned at once for exactly [scaling] consecutive numbers of the generator, so
    all are equally likely; the numbers left over are rejected. *)
Theorem downscale_uniform x v rest :
  b - a < urngmax - urngmin → urngmin <= x <= urngmax →
  let scaling := (urngmax - urngmin) / (b - a + 1) in
  1 <= scaling ∧
  (a <= v <= b ∧ (v - a) * scaling <= x - urngmin < (v - a + 1) * scaling →
   operator_call urngmin urngmax a b (x :: rest) = Some (v, rest)) ∧
  ((b - a + 1) * scaling <= x - urngmin →
   operator_call urngmin urngmax a b (x :: rest) = operator_call urngmin urngmax a b rest).
Proof.
  intros Hlt Hx scaling. destruct (scaling_pos urngmin urngmax (b - a)) as [? ?]; [lia|].
  split; [done|]. unfold operator_call. rewrite !call_offset by done. unfold offset.
  destruct (Z.ltb_spec (b - a) (urngmax - urngmin)); [|lia]. split.
  - intros [? ?]. rewrite downscale_eq; [|done|done|lia|done|fold scaling; nia]. fold scaling.
    replace ((x - urngmin) / scaling) with (v - a).
    + rewrite s32_id by (unfold is_s32 in *; lia). do 2 f_equal. lia.
    + apply (Z.div_unique _ _ _ (x - urngmin - (v - a) * scaling)); lia.
  - intros Hr. rewrite (downscale_reject _ _ Hmin Hmax (b - a)); [done|lia|done|done].
Qed.

(** [__generate] fills a range with what so many calls return, except that where
    it scales up it does not add [a]: the values written are those of the calls less
    [a]. *)
Theorem generate_calls count tape :
  let pow2 := _Power_of_2 (u32 (urngrange urngmin urngmax + 1)) && _Power_of_2 (u32 (b - a + 1)) in
  (b - a = urngmax - urngmin ∨ b - a < urngmax - urngmin ∧ pow2 = false →
   __generate_impl urngmin urngmax count a b tape =
   fill count (operator_call urngmin urngmax a b) tape) ∧
  (urngmax - urngmin < b - a →
   __generate_impl urngmin urngmax count a b tape =
   fill count (v ← operator_call urngmin urngmax a b; mret (s32 (v - a))) tape).
Proof.
  intros pow2. unfold __generate_impl. rewrite urange_sub by done. fold pow2.
  rewrite urngrange_eq by done. split.
  - intros Hc. destruct (Z.ltb_spec (b - a) (urngmax - urngmin)).
    + destruct Hc as [|[_ ->]]; [lia|]. apply fill_ext. intros t. unfold operator_call.
      rewrite call_offset by done. unfold offset.
      destruct (Z.ltb_spec (b - a) (urngmax - urngmin)); [|lia].
      unfold mbind, M_bind. by destruct (downscale _ _ _ _) as [[]|]; [rewrite s32_add|].
    + destruct (Z.ltb_spec (urngmax - urngmin) (b - a)); [lia|]. apply fill_ext. intros t.
      unfold operator_call. rewrite call_offset by done. unfold offset.
      destruct (Z.ltb_spec (b - a) (urngmax - urngmin)); [lia|].
      destruct (Z.ltb_spec (urngmax - urngmin) (b - a)); [lia|].
      unfold mbind, M_bind. by destruct (draw _ _) as [[]|]; [rewrite s32_add|].
  - intros Hlt. destruct (Z.ltb_spec (b - a) (urngmax - urngmin)); [lia|].
    destruct (Z.ltb_spec (urngmax - urngmin) (b - a)); [|lia].
    pose proof Ha as Ha'. pose proof Hb as Hb'. unfold is_s32 in Ha', Hb'.
    destruct (high_range urngmin urngmax Hmin (b - a)) as [? ?]; [lia|].
    rewrite high_param by (done || lia). apply fill_ext. intros t.
    unfold mbind, M_bind, operator_call at 2. rewrite call_offset by done.
    erewrite (offset_ext _ _ (call urngmin urngmax 32 0 _)); [|intros t'].
    2: { apply (call_depth _ _ Hmin Hmax 31 32); [unfold is_s32; lia|done|lia|cbn; divlia|cbn; divlia]. }
    unfold offset. destruct (Z.ltb_spec (b - a) (urngmax - urngmin)); [lia|].
    destruct (Z.ltb_spec (urngmax - urngmin) (b - a)); [|lia]. unfold operator_call.
    destruct (upscale _ _ _ _ _) as [[d t']|]; [|done]. unfold mret, M_ret. do 2 f_equal.
    rewrite s32_u32, s32_sub. f_equal. lia.
Qed.
End Library.

(** * Witnesses *)

Lemma uniform_in_range_witness :
  operator_call 0 1 10 13 [1; 0] = Some (12, []) ∧
  ∃ tape, valid 0 1 tape ∧ ∀ rest, operator_call 0 1 10 13 (tape ++ rest) = Some (11, rest).
Proof.
  split; [by vm_compute|].
  apply (uniform_in_range 0 1 10 13); unfold is_s32; lia.
Defined.

Lemma downscale_uniform_witness :
  operator_call 0 9 1 3 [7; 4] = Some (3, [4]) ∧
  operator_call 0 9 1 3 [9; 4] = operator_call 0 9 1 3 [4].
Proof.
  split; [by vm_compute|].
  destruct (downscale_uniform 0 9 1 3) with (x := 9) (v := 1) (rest := [4]) as (_ & _ & H);
    [unfold is_s32; lia..|]. apply H. by vm_compute.
Defined.

Lemma generate_calls_witness :
  __generate_impl 0 1 2 10 13 [1; 0; 1; 1] = Some ([2; 3], []) ∧
  fill 2 (operator_call 0 1 10 13) [1; 0; 1; 1] = Some ([12; 13], []) ∧
  __generate_impl 0 1 2 10 13 [1; 0; 1; 1] =
    fill 2 (v ← operator_call 0 1 10 13; mret (s32 (v - 10))) [1; 0; 1; 1].
Proof.
  split_and!; [by vm_compute..|]. apply (generate_calls 0 1 10 13); unfold is_s32; lia.
Defined.
