(* ===== verification/Shell.v ===== *)
(** * The POSIX shell, as the scripts of the tree use it

    A command is a function on the state of the shell that gives an exit status, or
    ends the script with one. The programs that a script runs are not part of the
    tree: what they and the file system do is the class [System], whose only law is
    that a word without wildcards is left alone by pathname expansion. Everything
    that the shell itself does is defined: parameters, variables and their expansion
    with field splitting, [set -e], redirections, pipes, subshells, functions, [trap].

    A signal is one of HUP, INT and TERM that comes to the shell which waits for the program
    that it runs. If there is no trap for it, the shell ends, and as in Debian's [/bin/sh]
    the action that is set for its end is not run. Other signals are not considered, nor
    ones that come to the shell while it does not wait for a program. Programs are functions: each ends.

    The trace is the list of programs run, each with its directory, its environment,
    its arguments and its status, so that a theorem on the trace says what a script
    does to the system in whatever way the programs behave. *)
From stdpp Require Import base strings list.
From Stdlib Require Import Ascii Lia.
From S2P Require Import Prelude.

(** * Words *)

(** The characters of the default [IFS]. *)
Definition is_ifs (c : ascii) : bool :=
  match c with
  | "009" | "010" | " " => true
  | _ => false
  end%char.

(** Field splitting: the fields are delimited by any number of [IFS] characters. The
    result is the field that has begun, if any, and the fields after it. *)
Fixpoint fields_of (s : string) : option string * list string :=
  match s with
  | EmptyString => (None, [])
  | String c s =>
      let '(cur, rest) := fields_of s in
      if is_ifs c then (None, option_list cur ++ rest)
      else (Some (String c (default "" cur)), rest)
  end.

Definition fields (s : string) : list string :=
  let '(cur, rest) := fields_of s in option_list cur ++ rest.

Fixpoint forall_chars (p : ascii → bool) (s : string) : bool :=
  match s with
  | EmptyString => true
  | String c s => p c && forall_chars p s
  end.

(** The characters that make a word a pattern. *)
Definition is_wild (c : ascii) : bool :=
  match c with
  | "*" | "?" | "[" => true
  | _ => false
  end%char.

Definition literal (s : string) : bool := forall_chars (negb ∘ is_wild) s.

(** A word that an unquoted expansion leaves as it is. *)
Definition plain (s : string) : bool :=
  negb (String.eqb s "") && forall_chars (λ c, negb (is_ifs c) && negb (is_wild c)) s.

(** Command substitution removes newlines at the end. *)
Fixpoint strip_newlines (s : string) : string :=
  match s with
  | EmptyString => EmptyString
  | String c s =>
      match strip_newlines s with
      | EmptyString => if Ascii.eqb c "010"%char then EmptyString else String c EmptyString
      | s => String c s
      end
  end.

(** A path relative to a directory. *)
Definition resolve (dir path : string) : string :=
  match path with
  | String "/" _ => path
  | _ => dir +:+ "/" +:+ path
  end.

(** The character that quotes. *)
Definition dquote : string := String "034"%char "".

(** The value of a decimal numeral. *)
Fixpoint decimal (acc : Z) (s : string) : option Z :=
  match s with
  | EmptyString => Some acc
  | String c s =>
      let d := Z.of_N (Ascii.N_of_ascii c) - 48 in
      if (0 <=? d) && (d <=? 9) then decimal (acc * 10 + d) s else None
  end.

(** The value of a variable, empty where it is not set. *)
Fixpoint value_of (x : string) (l : list (string * string)) : string :=
  match l with
  | [] => ""
  | (y, v) :: l => if String.eqb x y then v else value_of x l
  end.

(** * What is outside of the shell *)

(** A program that is run: the directory, the variables assigned for it, its
    arguments, the first of which names it, and its standard input. *)
Record call := Call {
  c_dir : string;
  c_env : list (string * string);
  c_argv : list string;
  c_input : string;
}.

(** The signals that are considered: those that a user or the system sends to end a script. *)
Inductive signal := HUP | INT | TERM.

Definition signal_number (s : signal) : Z :=
  match s with HUP => 1 | INT => 2 | TERM => 15 end.

Class System (W : Type) := {
  spawn : call → W → Z * string * W;       (* exit status, output *)
  is_directory : string → W → bool;
  is_regular : string → W → bool;
  chdir : string → W → Z;                  (* the status of [cd] *)
  open_output : bool → string → W → option W;  (* append?; truncates if not *)
  emit : string → string → W → W;          (* write to the end of a file *)
  glob : string → string → W → list string;    (* the directory, the word *)
  glob_literal dir s w : literal s = true → glob dir s w = [s];
  shift_exits : bool;      (* whether [shift] without parameters ends a script *)
  interrupted : W → option signal;  (* what came to the shell while the last program ran *)
}.

(** * The shell *)

Record shell (W : Type) := Shell {
  params : list string;
  vars : list (string * string);    (* the last assignment first *)
  cwd : string;
  errexit : bool;
  exit_trap : option string;
  sig_trap : option string;
  input : string;
  out : string;
  err : string;
  trace : list (call * Z);
  sys : W;
}.
Arguments Shell {W}.
Arguments params {W}. Arguments vars {W}. Arguments cwd {W}. Arguments errexit {W}.
Arguments exit_trap {W}. Arguments sig_trap {W}. Arguments input {W}.
Arguments out {W}. Arguments err {W}. Arguments trace {W}. Arguments sys {W}.

(** [inr n]: the script ends with status [n]. *)
Definition sh (W A : Type) : Type := shell W → (A + Z) * shell W.

#[global] Instance sh_ret W : MRet (sh W) := λ A a σ, (inl a, σ).
#[global] Instance sh_bind W : MBind (sh W) := λ A B k m σ,
  match m σ with
  | (inl a, σ') => k a σ'
  | (inr n, σ') => (inr n, σ')
  end.

Section Commands.
Context {W : Type} `{System W}.
Local Abbreviation cmd := (sh W Z).

Definition get {A} (f : shell W → A) : sh W A := λ σ, (inl (f σ), σ).

Definition set_params (l : list string) (σ : shell W) : shell W :=
  Shell l (vars σ) (cwd σ) (errexit σ) (exit_trap σ) (sig_trap σ) (input σ) (out σ) (err σ)
    (trace σ) (sys σ).
Definition set_vars (v : list (string * string)) (σ : shell W) : shell W :=
  Shell (params σ) v (cwd σ) (errexit σ) (exit_trap σ) (sig_trap σ) (input σ) (out σ) (err σ)
    (trace σ) (sys σ).
Definition set_cwd (d : string) (σ : shell W) : shell W :=
  Shell (params σ) (vars σ) d (errexit σ) (exit_trap σ) (sig_trap σ) (input σ) (out σ) (err σ)
    (trace σ) (sys σ).
Definition set_errexit (b : bool) (σ : shell W) : shell W :=
  Shell (params σ) (vars σ) (cwd σ) b (exit_trap σ) (sig_trap σ) (input σ) (out σ) (err σ)
    (trace σ) (sys σ).
Definition set_traps (e s : option string) (σ : shell W) : shell W :=
  Shell (params σ) (vars σ) (cwd σ) (errexit σ) e s (input σ) (out σ) (err σ) (trace σ) (sys σ).
Definition set_input (i : string) (σ : shell W) : shell W :=
  Shell (params σ) (vars σ) (cwd σ) (errexit σ) (exit_trap σ) (sig_trap σ) i (out σ) (err σ)
    (trace σ) (sys σ).
Definition set_out (o : string) (σ : shell W) : shell W :=
  Shell (params σ) (vars σ) (cwd σ) (errexit σ) (exit_trap σ) (sig_trap σ) (input σ) o (err σ)
    (trace σ) (sys σ).
Definition set_err (e : string) (σ : shell W) : shell W :=
  Shell (params σ) (vars σ) (cwd σ) (errexit σ) (exit_trap σ) (sig_trap σ) (input σ) (out σ) e
    (trace σ) (sys σ).
Definition set_sys (w : W) (σ : shell W) : shell W :=
  Shell (params σ) (vars σ) (cwd σ) (errexit σ) (exit_trap σ) (sig_trap σ) (input σ) (out σ)
    (err σ) (trace σ) w.
Definition log (c : call) (st : Z) (σ : shell W) : shell W :=
  Shell (params σ) (vars σ) (cwd σ) (errexit σ) (exit_trap σ) (sig_trap σ) (input σ) (out σ)
    (err σ) (trace σ ++ [(c, st)]) (sys σ).

(** ** Control *)

Definition ok : cmd := mret 0.
Definition exit {A} (n : Z) : sh W A := λ σ, (inr n, σ).

(** [c; d]: under [set -e] a failure of [c] ends the script. *)
Definition seq (c d : cmd) : cmd :=
  st ← c;
  e ← get errexit;
  if e && negb (st =? 0) then exit st else d.

Definition or_else (c d : cmd) : cmd := st ← c; if st =? 0 then mret 0 else d.
Definition and_then (c d : cmd) : cmd := st ← c; if st =? 0 then d else mret st.
Definition if_else (c d e : cmd) : cmd := st ← c; if st =? 0 then d else e.
Definition if_then (c d : cmd) : cmd := if_else c d ok.

(** [[ ... ]] with the value of its condition. *)
Definition test (b : bool) : cmd := mret (if b then 0 else 1).

Definition set_e : cmd := λ σ, (inl 0, set_errexit true σ).

(** ** Variables and parameters *)

Definition assign (x v : string) : cmd := λ σ, (inl 0, set_vars ((x, v) :: vars σ) σ).
Definition var (x : string) : sh W string := get (λ σ, value_of x (vars σ)).

(** [$1], [$2], ..., counted from zero. *)
Definition arg (i : nat) : sh W string := get (λ σ, default "" (params σ !! i)).

Definition shift : cmd := λ σ,
  match params σ with
  | [] => if shift_exits then (inr 1, σ) else (inl 1, σ)
  | _ :: l => (inl 0, set_params l σ)
  end.

(** ["$@"] in an assignment: the parameters, with blanks between them. *)
Definition all_args : sh W string := get (λ σ, String.concat " " (params σ)).

(** An expansion without quotes: its fields, with their wildcards expanded. *)
Definition expand (s : string) : sh W (list string) :=
  get (λ σ, fields s ≫= λ f, glob (cwd σ) f (sys σ)).
Definition expand_args : sh W (list string) :=
  get (λ σ, (params σ ≫= fields) ≫= λ f, glob (cwd σ) f (sys σ)).

(** [for x in words; do body; done]. *)
Fixpoint for_in (x : string) (words : list string) (body : cmd) : cmd :=
  match words with
  | [] => ok
  | [v] => seq (assign x v) body
  | v :: words => seq (seq (assign x v) body) (for_in x words body)
  end.

(** ** Output *)

Definition newline : string := String "010"%char "".

Definition echo (words : list string) : cmd := λ σ,
  (inl 0, set_out (out σ +:+ String.concat " " words +:+ newline) σ).
Definition echo_err (words : list string) : cmd := λ σ,
  (inl 0, set_err (err σ +:+ String.concat " " words +:+ newline) σ).

(** ** Programs *)

(** A trap's action, which is a simple command: [exit n] or a program. *)
Definition exec_raw (env : list (string * string)) (argv : list string) : cmd := λ σ,
  let c := Call (cwd σ) env argv (input σ) in
  let '(st, o, w) := spawn c (sys σ) in
  (inl st, log c st (set_out (out σ +:+ o) (set_sys w σ))).

Definition action (s : string) : cmd :=
  match fields s with
  | ["exit"; n] => exit (default 2 (decimal 0 n))
  | argv => exec_raw [] argv
  end.

(** The end of the shell by a signal, which does not run the action of the trap for the end. *)
Definition killed {A} (s : signal) : sh W A := λ σ,
  (inr (128 + signal_number s), set_traps None None σ).

(** [trap s INT TERM] does not concern the other signal. *)
Definition trapped (s : signal) (t : option string) : option string :=
  match s with HUP => None | INT | TERM => t end.

(** A program in the foreground. A signal that came while it ran is handled when it
    has ended: by the action of the trap for it, or else by the end of the shell. *)
Definition exec_env (env : list (string * string)) (argv : list string) : cmd :=
  match argv with
  | [] => ok
  | _ =>
      st ← exec_raw env argv;
      t ← get sig_trap;
      i ← get (λ σ, interrupted (sys σ));
      match i with
      | None => mret st
      | Some s =>
          match trapped s t with
          | Some a => action a;; mret st
          | None => killed s
          end
      end
  end.

Definition exec : list string → cmd := exec_env [].

Definition cd (d : string) : cmd := λ σ,
  let st := chdir (resolve (cwd σ) d) (sys σ) in
  if st =? 0 then (inl 0, set_cwd (resolve (cwd σ) d) σ) else (inl st, σ).

(** ** Subshells *)

(** [( c )]: what [c] changes in the shell is undone, and [exit] only leaves it. *)
Definition leave (σ σ' : shell W) : shell W :=
  Shell (params σ) (vars σ) (cwd σ) (errexit σ) (exit_trap σ) (sig_trap σ) (input σ)
    (out σ') (err σ') (trace σ') (sys σ').
Definition status_of (r : Z + Z) : Z := match r with inl st => st | inr st => st end.
Definition subshell (c : cmd) : cmd := λ σ,
  let '(r, σ') := c (set_traps None None σ) in (inl (status_of r), leave σ σ').

(** The traps of a script that ends. *)
Definition finish (c : cmd) : cmd := λ σ,
  let '(r, σ1) := c σ in
  match exit_trap σ1 with
  | None => (inl (status_of r), σ1)
  | Some s => (inl (status_of r), snd (action s (set_traps None (sig_trap σ1) σ1)))
  end.

(** A script run as a program, with the variables that are exported to it. *)
Definition start (env : list (string * string)) (argv : list string) (σ : shell W) : shell W :=
  set_errexit false (set_vars env (set_params argv σ)).
Definition script (env : list (string * string)) (argv : list string) (c : cmd) : cmd :=
  subshell (λ σ : shell W, finish c (start env argv σ)).

(** A function of the script. *)
Definition call_function (args : list string) (c : cmd) : cmd := λ σ,
  let '(r, σ') := c (set_params args σ) in (r, set_params (params σ) σ').

(** [trap s EXIT] and [trap s INT TERM]. *)
Definition trap_exit (s : string) : cmd := λ σ, (inl 0, set_traps (Some s) (sig_trap σ) σ).
Definition trap_signals (s : string) : cmd := λ σ, (inl 0, set_traps (exit_trap σ) (Some s) σ).

(** Standard output of a command as a value, in a subshell. *)
Definition capture (c : cmd) : sh W string := λ σ,
  match subshell c (set_out "" σ) with
  | (inl _, σ') => (inl (out σ'), set_out (out σ) σ')
  | (inr n, σ') => (inr n, set_out (out σ) σ')
  end.

(** [c > file] and [c >> file]: a file that cannot be opened keeps [c] from running. *)
Definition redirect (append : bool) (file : string) (c : cmd) : cmd := λ σ,
  let path := resolve (cwd σ) file in
  match open_output append path (sys σ) with
  | None => (inl 1, σ)
  | Some w =>
      let '(r, σ') := c (set_out "" (set_sys w σ)) in
      (r, set_out (out σ) (set_sys (emit path (out σ') (sys σ')) σ'))
  end.

(** [c > /dev/null]. *)
Definition silent (c : cmd) : cmd := λ σ,
  let '(r, σ') := c σ in (r, set_out (out σ) σ').

(** [c] with the text [s] as its standard input. *)
Definition with_input (s : string) (c : cmd) : cmd := λ σ,
  let '(r, σ') := c (set_input s σ) in (r, set_input (input σ) σ').

(** [c | d]. *)
Definition pipe (c d : cmd) : cmd :=
  o ← capture c;
  subshell (λ σ : shell W, d (set_input o σ)).
End Commands.

(** * Notation *)

Declare Scope sh_scope.
Delimit Scope sh_scope with sh.
Notation "c ;; d" := (seq c d) (at level 100, d at level 200, right associativity) : sh_scope.
Notation "c ||| d" := (or_else c d) : sh_scope.
Notation "c &&& d" := (and_then c d) : sh_scope.

(** * Words *)

Lemma plain_fields_of s :
  forall_chars (λ c, negb (is_ifs c) && negb (is_wild c)) s = true →
  fields_of s = (if String.eqb s "" then None else Some s, []).
Proof.
  induction s as [|c s IH]; [done|]. cbn. intros [[Hc _]%andb_prop Hs]%andb_prop.
  rewrite IH by done. destruct (is_ifs c); [done|].
  destruct s; done.
Qed.

Lemma plain_fields s : plain s = true → fields s = [s].
Proof.
  unfold plain, fields. intros [Hne Hs]%andb_prop. rewrite plain_fields_of by done.
  by destruct (String.eqb s "").
Qed.

Lemma plain_literal s : plain s = true → literal s = true.
Proof.
  unfold plain, literal. intros [_ Hs]%andb_prop. induction s as [|c s IH]; [done|].
  cbn in *. apply andb_prop in Hs as [[_ Hc]%andb_prop Hs]. by rewrite Hc, IH.
Qed.

(** A blank separates fields. *)
Lemma fields_blank s t : fields (s +:+ String " " t) = fields s ++ fields t.
Proof.
  assert (fields_of (s +:+ String " " t) = ((fields_of s).1, (fields_of s).2 ++ fields t)) as E.
  { induction s as [|c s IH].
    { change ("" +:+ String " " t) with (String " " t). cbn. unfold fields. by destruct (fields_of t). }
    change ((String c s) +:+ String " " t) with (String c (s +:+ String " " t)).
    cbn [fields_of]. rewrite IH. destruct (fields_of s) as [cur rest]. cbn.
    by destruct (is_ifs c); cbn; rewrite ?app_assoc. }
  unfold fields at 1 2. rewrite E. destruct (fields_of s) as [cur rest]. cbn. by rewrite app_assoc.
Qed.

Lemma concat_fields l :
  Forall (λ s, plain s = true) l → fields (String.concat " " l) = l.
Proof.
  induction 1 as [|s l Hs Hl IH]; [done|]. destruct l as [|t l]; [by apply plain_fields|].
  change (String.concat " " (s :: t :: l)) with (s +:+ String " " (String.concat " " (t :: l))).
  by rewrite fields_blank, plain_fields, IH.
Qed.

(** Unquoted parameters that are plain are passed on as they are. *)
Lemma expand_plain {W} `{System W} l dir w :
  Forall (λ s, plain s = true) l → ((l ≫= fields) ≫= λ f, glob dir f w) = l.
Proof.
  induction 1 as [|s l Hs _ IH]; [done|]. cbn. rewrite plain_fields by done. cbn.
  rewrite glob_literal by by apply plain_literal. cbn. by f_equal.
Qed.

Lemma expand_args_plain {W} `{System W} (σ : shell W) :
  Forall (λ s, plain s = true) (params σ) → expand_args σ = (inl (params σ), σ).
Proof. intros. unfold expand_args, get. by rewrite expand_plain. Qed.

(** * Commands that do not depend on a variable *)

Section Independence.
Context {W : Type} `{System W}.
Variable X : string.

(** The states agree but for the variable [X]. *)
Definition agree (σ1 σ2 : shell W) : Prop :=
  (∀ x, x ≠ X → value_of x (vars σ1) = value_of x (vars σ2)) ∧
  set_vars [] σ1 = set_vars [] σ2.

Class Ignores {A} (c : sh W A) : Prop :=
  ignores σ1 σ2 : agree σ1 σ2 → (c σ1).1 = (c σ2).1 ∧ agree (c σ1).2 (c σ2).2.

Lemma agree_inv σ1 σ2 :
  agree σ1 σ2 → ∃ v, σ2 = set_vars v σ1 ∧
    ∀ x, x ≠ X → value_of x (vars σ1) = value_of x v.
Proof.
  intros [Hv E]. exists (vars σ2). split; [|done]. destruct σ1, σ2. cbn in *.
  injection E as -> -> -> -> -> -> -> -> -> ->. done.
Qed.

#[global] Instance ignores_ret A (a : A) : Ignores (mret a).
Proof. by intros ?? ?. Qed.

#[global] Instance ignores_bind A B (m : sh W A) (k : A → sh W B) :
  Ignores m → (∀ a, Ignores (k a)) → Ignores (m ≫= k).
Proof.
  intros Hm Hk σ1 σ2 Hσ. destruct (Hm σ1 σ2 Hσ) as [E Ha].
  unfold mbind, sh_bind. destruct (m σ1) as [r1 σ1'], (m σ2) as [r2 σ2']. cbn in *.
  subst r2. destruct r1 as [a|n]; [by apply Hk|done].
Qed.

#[global] Instance ignores_exit A n : Ignores (exit (A := A) n).
Proof. by intros ?? ?. Qed.

#[global] Instance ignores_killed A s : Ignores (killed (A := A) s).
Proof. intros σ1 σ2 Hσ. pose proof (agree_inv _ _ Hσ) as (v & -> & Hv). by split; [|split]. Qed.

#[global] Instance ignores_if A (b : bool) (c d : sh W A) :
  Ignores c → Ignores d → Ignores (if b then c else d).
Proof. by destruct b. Qed.

(** A part of the state that is not the variables. *)
Lemma ignores_get A (f : shell W → A) :
  (∀ v σ, f (set_vars v σ) = f σ) → Ignores (get f).
Proof.
  intros Hf σ1 σ2 Hσ. pose proof (agree_inv _ _ Hσ) as (v & -> & _). cbn. by rewrite Hf.
Qed.

#[global] Instance ignores_var x : x ≠ X → Ignores (var x).
Proof. intros Hx σ1 σ2 [Hv E]. cbn. by rewrite Hv. Qed.

(** A change of the state that neither uses nor changes the variables. *)
Lemma ignores_step A (c : sh W A) :
  (∀ v σ, c (set_vars v σ) = ((c σ).1, set_vars v (c σ).2) ∧ vars (c σ).2 = vars σ) → Ignores c.
Proof.
  intros Hc σ1 σ2 Hσ. pose proof (agree_inv _ _ Hσ) as (v & -> & Hv).
  destruct (Hc v σ1) as [-> Ev]. cbn. split; [done|]. split; cbn; [by rewrite Ev|done].
Qed.

#[global] Instance ignores_seq c d : Ignores c → Ignores d → Ignores (seq c d).
Proof.
  intros. apply ignores_bind; [done|]. intros st.
  apply ignores_bind; [by apply ignores_get|]. intros e. apply _.
Qed.
#[global] Instance ignores_or_else c d : Ignores c → Ignores d → Ignores (or_else c d).
Proof. unfold or_else. apply _. Qed.
#[global] Instance ignores_and_then c d : Ignores c → Ignores d → Ignores (and_then c d).
Proof. unfold and_then. apply _. Qed.
#[global] Instance ignores_if_else c d e :
  Ignores c → Ignores d → Ignores e → Ignores (if_else c d e).
Proof. unfold if_else. apply _. Qed.
#[global] Instance ignores_if_then c d : Ignores c → Ignores d → Ignores (if_then c d).
Proof. unfold if_then. apply _. Qed.
#[global] Instance ignores_test b : Ignores (test b).
Proof. unfold test. apply _. Qed.

#[global] Instance ignores_set_e : Ignores set_e.
Proof. by apply ignores_step. Qed.
#[global] Instance ignores_assign x v : Ignores (assign x v).
Proof.
  intros σ1 σ2 [Hv E]. cbn. split; [done|]. split; [|done]. cbn. intros y Hy.
  destruct (String.eqb y x); [done|by apply Hv].
Qed.
#[global] Instance ignores_arg i : Ignores (arg i).
Proof. by apply ignores_get. Qed.
#[global] Instance ignores_all_args : Ignores all_args.
Proof. by apply ignores_get. Qed.
#[global] Instance ignores_expand s : Ignores (expand s).
Proof. by apply ignores_get. Qed.
#[global] Instance ignores_expand_args : Ignores expand_args.
Proof. by apply ignores_get. Qed.
#[global] Instance ignores_shift : Ignores shift.
Proof.
  apply ignores_step. intros v σ. unfold shift. cbn.
  destruct (params σ), shift_exits; done.
Qed.
#[global] Instance ignores_echo l : Ignores (echo l).
Proof. by apply ignores_step. Qed.
#[global] Instance ignores_cd d : Ignores (cd d).
Proof. apply ignores_step. intros v σ. unfold cd. cbn. by case_match. Qed.
#[global] Instance ignores_exec_raw env argv : Ignores (exec_raw env argv).
Proof.
  apply ignores_step. intros v σ. unfold exec_raw. cbn. by destruct (spawn _ _) as [[??] ?].
Qed.
#[global] Instance ignores_action s : Ignores (action s).
Proof. unfold action. repeat case_match; apply _. Qed.
#[global] Instance ignores_exec_env env argv : Ignores (exec_env env argv).
Proof.
  unfold exec_env. destruct argv; [apply _|]. apply ignores_bind; [apply _|]. intros st.
  apply ignores_bind; [by apply ignores_get|]. intros t.
  apply ignores_bind; [by apply ignores_get|]. intros [g|]; [destruct (trapped g t)|]; apply _.
Qed.
#[global] Instance ignores_exec argv : Ignores (exec argv).
Proof. apply ignores_exec_env. Qed.
#[global] Instance ignores_for_in x l body : Ignores body → Ignores (for_in x l body).
Proof.
  intros. induction l as [|v l IH]; [apply _|]. cbn [for_in]. destruct l; apply _.
Qed.

(** Scripts that end alike but for the variable are the same program. *)
Lemma script_agree env1 env2 l1 l2 c1 c2 σ :
  (let σ1 := start env1 l1 (set_traps None None σ) in
   let σ2 := start env2 l2 (set_traps None None σ) in
   (c1 σ1).1 = (c2 σ2).1 ∧ agree (c1 σ1).2 (c2 σ2).2) →
  script env1 l1 c1 σ = script env2 l2 c2 σ.
Proof.
  cbv zeta. unfold script, subshell, finish. intros [E Ha].
  destruct (c1 _) as [r1 τ1], (c2 _) as [r2 τ2]. cbn in *. subst r2.
  pose proof (agree_inv _ _ Ha) as (u & -> & _). cbn.
  destruct (exit_trap τ1) as [s|]; [|done].
  assert (Ignores (action s)) as Hs by apply _.
  assert (agree (set_traps None (sig_trap τ1) τ1) (set_traps None (sig_trap τ1) (set_vars u τ1))) as Hτ.
  { destruct Ha as [Hv _]. split; [exact Hv|done]. }
  destruct (Hs _ _ Hτ) as [_ Hb]. pose proof (agree_inv _ _ Hb) as (u' & -> & _). done.
Qed.
End Independence.

(** Goes through a command; what remains are programs and the like. *)
Ltac ignores :=
  repeat lazymatch goal with
  | |- Ignores _ (seq _ _) => apply ignores_seq
  | |- Ignores _ (or_else _ _) => apply ignores_or_else
  | |- Ignores _ (if_else _ _ _) => apply ignores_if_else
  | |- Ignores _ (if_then _ _) => apply ignores_if_then
  | |- Ignores _ (for_in _ _ _) => apply ignores_for_in
  | |- Ignores _ (_ ≫= _) => apply ignores_bind; [|intros ?]
  | |- Ignores _ (var _) => apply ignores_var; done
  | |- Ignores _ (get _) => apply ignores_get; done
  | |- Ignores _ _ => apply _
  end.

(** * Symbolic execution *)

Section Wp.
Context {W : Type} `{System W}.

Definition shwp {A} (c : sh W A) (Q : A + Z → shell W → Prop) (σ : shell W) : Prop :=
  Q (c σ).1 (c σ).2.

Lemma shwp_mono {A} (c : sh W A) (P Q : A + Z → shell W → Prop) σ :
  shwp c P σ → (∀ r σ', P r σ' → Q r σ') → shwp c Q σ.
Proof. unfold shwp. auto. Qed.

Lemma shwp_ret {A} (a : A) Q σ : Q (inl a) σ → shwp (mret a) Q σ.
Proof. done. Qed.

Lemma shwp_bind {A B} (m : sh W A) (k : A → sh W B) Q σ :
  shwp m (λ r σ', match r with inl a => shwp (k a) Q σ' | inr n => Q (inr n) σ' end) σ →
  shwp (m ≫= k) Q σ.
Proof. unfold shwp, mbind, sh_bind. by destruct (m σ) as [[?|?] ?]. Qed.

Lemma shwp_get {A} (f : shell W → A) Q σ : Q (inl (f σ)) σ → shwp (get f) Q σ.
Proof. done. Qed.

Lemma shwp_exit {A} n (Q : A + Z → shell W → Prop) σ : Q (inr n) σ → shwp (exit n) Q σ.
Proof. done. Qed.

Lemma shwp_seq c d Q σ :
  shwp c (λ r σ', match r with
    | inl st => if errexit σ' && negb (st =? 0) then Q (inr st) σ' else shwp d Q σ'
    | inr n => Q (inr n) σ'
    end) σ →
  shwp (seq c d) Q σ.
Proof.
  intros Hc. apply shwp_bind. unfold shwp in *. destruct (c σ) as [[st|n] σ']; [|done].
  cbn in *. unfold mbind, sh_bind. cbn. by destruct (errexit σ' && negb (st =? 0)).
Qed.

Lemma shwp_assign x v Q σ :
  Q (inl 0) (set_vars ((x, v) :: vars σ) σ) → shwp (assign x v) Q σ.
Proof. done. Qed.

Lemma shwp_test (b : bool) Q σ : Q (inl (if b then 0 else 1)) σ → shwp (test b) Q σ.
Proof. done. Qed.

Lemma shwp_cd d Q σ :
  (chdir (resolve (cwd σ) d) (sys σ) = 0 → Q (inl 0) (set_cwd (resolve (cwd σ) d) σ)) →
  (∀ st, chdir (resolve (cwd σ) d) (sys σ) = st → st ≠ 0 → Q (inl st) σ) →
  shwp (cd d) Q σ.
Proof.
  intros H0 H1. unfold shwp, cd. destruct (Z.eqb_spec (chdir (resolve (cwd σ) d) (sys σ)) 0); cbn; eauto.
Qed.

(** A program in a shell without traps for signals. *)
Lemma shwp_exec_signals env a argv Q σ :
  sig_trap σ = None →
  (∀ st o w, spawn (Call (cwd σ) env (a :: argv) (input σ)) (sys σ) = (st, o, w) →
    let τ := log (Call (cwd σ) env (a :: argv) (input σ)) st (set_out (out σ +:+ o) (set_sys w σ)) in
    match interrupted w with
    | None => Q (inl st) τ
    | Some s => Q (inr (128 + signal_number s)) (set_traps None None τ)
    end) →
  shwp (exec_env env (a :: argv)) Q σ.
Proof.
  intros Ht HQ. unfold shwp, exec_env, mbind, sh_bind, exec_raw. cbn.
  destruct (spawn _ _) as [[st o] w] eqn:E. specialize (HQ _ _ _ eq_refl). cbn in *. rewrite Ht.
  destruct (interrupted w) as [s|]; [|done]. by assert (trapped s None = None) as -> by by destruct s.
Qed.

(** What a shell that is to end with the status of its last program ends with. *)
Definition ended (st : Z) (w : W) : Z :=
  match interrupted w with None => st | Some s => 128 + signal_number s end.

Lemma ended_zero st w : ended st w = 0 ↔ st = 0 ∧ interrupted w = None.
Proof.
  unfold ended. destruct (interrupted w) as [s|]; [split; [by destruct s|by intros [_ ?] ]|].
  split; [done|by intros [? _] ].
Qed.

(** The same if no signals come. *)
Class Quiet : Prop := quiet w : interrupted w = None.

Lemma shwp_exec_env `{!Quiet} env a argv Q σ :
  sig_trap σ = None →
  (∀ st o w, spawn (Call (cwd σ) env (a :: argv) (input σ)) (sys σ) = (st, o, w) →
    Q (inl st) (log (Call (cwd σ) env (a :: argv) (input σ)) st
      (set_out (out σ +:+ o) (set_sys w σ)))) →
  shwp (exec_env env (a :: argv)) Q σ.
Proof.
  intros Ht HQ. apply shwp_exec_signals; [done|]. intros st o w E τ. rewrite quiet. by apply HQ.
Qed.

Lemma shwp_if_else c d e Q σ :
  shwp c (λ r σ', match r with
    | inl st => if st =? 0 then shwp d Q σ' else shwp e Q σ'
    | inr n => Q (inr n) σ' end) σ →
  shwp (if_else c d e) Q σ.
Proof.
  intros Hc. apply shwp_bind. unfold shwp in *. destruct (c σ) as [[st|n] σ']; [|done].
  cbn in *. by destruct (st =? 0).
Qed.

Lemma shwp_or_else c d Q σ :
  shwp c (λ r σ', match r with
    | inl st => if st =? 0 then Q (inl 0) σ' else shwp d Q σ'
    | inr n => Q (inr n) σ' end) σ →
  shwp (or_else c d) Q σ.
Proof.
  intros Hc. apply shwp_bind. unfold shwp in *. destruct (c σ) as [[st|n] σ']; [|done].
  cbn in *. by destruct (st =? 0).
Qed.

Lemma shwp_and_then c d Q σ :
  shwp c (λ r σ', match r with
    | inl st => if st =? 0 then shwp d Q σ' else Q (inl st) σ'
    | inr n => Q (inr n) σ' end) σ →
  shwp (and_then c d) Q σ.
Proof.
  intros Hc. apply shwp_bind. unfold shwp in *. destruct (c σ) as [[st|n] σ']; [|done].
  cbn in *. by destruct (st =? 0).
Qed.

Lemma shwp_echo l Q σ :
  Q (inl 0) (set_out (out σ +:+ String.concat " " l +:+ newline) σ) → shwp (echo l) Q σ.
Proof. done. Qed.

Lemma shwp_set_e Q σ : Q (inl 0) (set_errexit true σ) → shwp set_e Q σ.
Proof. done. Qed.

Lemma shwp_expand s Q σ :
  Q (inl (fields s ≫= λ f, glob (cwd σ) f (sys σ))) σ → shwp (expand s) Q σ.
Proof. done. Qed.

Lemma shwp_expand_plain s Q σ : plain s = true → Q (inl [s]) σ → shwp (expand s) Q σ.
Proof.
  intros Hs HQ. apply shwp_expand. rewrite plain_fields by done. cbn.
  by rewrite glob_literal by by apply plain_literal.
Qed.

Lemma shwp_expand_fields s l Q σ :
  fields s = l → Forall (λ s, plain s = true) l → Q (inl l) σ → shwp (expand s) Q σ.
Proof.
  intros Hs Hl HQ. apply shwp_expand. rewrite Hs. clear Hs.
  assert ((l ≫= λ f, glob (cwd σ) f (sys σ)) = l) as ->; [|done].
  clear HQ. induction Hl as [|f l Hf _ IH]; [done|]. cbn.
  rewrite glob_literal by by apply plain_literal. cbn. by f_equal.
Qed.

Lemma shwp_expand_args Q σ :
  Forall (λ s, plain s = true) (params σ) → Q (inl (params σ)) σ → shwp expand_args Q σ.
Proof. intros. unfold shwp. by rewrite expand_args_plain. Qed.

Lemma shwp_shift Q σ :
  match params σ with
  | [] => if shift_exits then Q (inr 1) σ else Q (inl 1) σ
  | _ :: l => Q (inl 0) (set_params l σ)
  end →
  shwp shift Q σ.
Proof. unfold shwp, shift. by destruct (params σ), shift_exits. Qed.

Lemma shwp_echo_err l Q σ :
  Q (inl 0) (set_err (err σ +:+ String.concat " " l +:+ newline) σ) → shwp (echo_err l) Q σ.
Proof. done. Qed.

Lemma shwp_silent c Q σ :
  shwp c (λ r τ, Q r (set_out (out σ) τ)) σ → shwp (silent c) Q σ.
Proof. unfold shwp, silent. by destruct (c σ). Qed.

Lemma shwp_call_function args c Q σ :
  shwp c (λ r τ, Q r (set_params (params σ) τ)) (set_params args σ) → shwp (call_function args c) Q σ.
Proof. unfold shwp, call_function. by destruct (c _). Qed.

(** A loop, by an invariant on the words that are done and the last status. *)
Lemma shwp_for_in_inv (I : list string → Z → shell W → Prop) x l body Q σ :
  I [] 0 σ →
  (∀ xs st τ, I xs st τ → errexit τ = false) →
  (∀ xs v ys st τ, l = xs ++ v :: ys → I xs st τ →
    shwp body (λ r τ', ∃ st', r = inl st' ∧ I (xs ++ [v]) st' τ') (set_vars ((x, v) :: vars τ) τ)) →
  (∀ st τ, I l st τ → Q (inl st) τ) →
  shwp (for_in x l body) Q σ.
Proof.
  intros H0 He Hb HQ.
  assert (∀ ys xs st τ, l = xs ++ ys → I xs st τ → (ys = [] → st = 0) →
    shwp (for_in x ys body) Q τ) as Hgen; [|by eapply (Hgen l [] 0)].
  intros ys. induction ys as [|v ys IH]; intros xs st τ El HI Hst.
  { rewrite app_nil_r in El. subst xs. rewrite Hst in HI by done. by apply HQ. }
  specialize (Hb xs v ys st τ El HI). pose proof (He _ _ _ HI) as Ee.
  assert (∀ d, (∀ st' τ', I (xs ++ [v]) st' τ' → shwp d Q τ') →
    shwp (seq (seq (assign x v) body) d) Q τ) as Hseq.
  { intros d Hd. apply shwp_seq, shwp_seq, shwp_assign. rewrite andb_false_r.
    eapply shwp_mono; [exact Hb|]. intros r τ' (st' & -> & HI').
    rewrite (He _ _ _ HI'). by apply (Hd st'). }
  destruct ys as [|v' ys].
  - apply shwp_seq, shwp_assign. rewrite andb_false_r. eapply shwp_mono; [exact Hb|].
    intros r τ' (st' & -> & HI'). subst l. by apply HQ.
  - apply Hseq. intros st' τ' HI'. eapply IH; [|exact HI'|done]. by rewrite El, <- app_assoc.
Qed.

(** The commands that a body may end in, one after the other. *)
Lemma shwp_for_in x l body Q σ :
  match l with
  | [] => Q (inl 0) σ
  | [v] => shwp (seq (assign x v) body) Q σ
  | v :: l => shwp (seq (seq (assign x v) body) (for_in x l body)) Q σ
  end →
  shwp (for_in x l body) Q σ.
Proof. by destruct l as [|? []]. Qed.

Lemma not_exit s a l (τ : shell W) :
  fields s = a :: l → a ≠ "exit" → action s τ = exec_raw [] (fields s) τ.
Proof.
  intros Es Ha. unfold action. rewrite Es.
  repeat (case_match; try done).
Qed.

(** A script without a trap for its end. *)
Lemma script_wp env argv c (Q : Z → shell W → Prop) σ :
  shwp c (λ r τ, exit_trap τ = None ∧ Q (status_of r) τ) (start env argv (set_traps None None σ)) →
  ∃ st τ, script env argv c σ = (inl st, leave σ τ) ∧ Q st τ.
Proof.
  unfold shwp, script, subshell, finish. destruct (c _) as [r τ]. cbn. intros [-> HQ].
  by exists (status_of r), τ.
Qed.

Lemma seq_ok (c d : sh W Z) σ σ' : c σ = (inl 0, σ') → seq c d σ = d σ'.
Proof. unfold seq, mbind, sh_bind, get. intros ->. by rewrite andb_false_r. Qed.

Lemma seq_assoc (a b c : sh W Z) σ : seq (seq a b) c σ = seq a (seq b c) σ.
Proof.
  unfold seq, mbind, sh_bind, get. destruct (a σ) as [[st|n] σ']; [|done].
  by destruct (errexit σ' && negb (st =? 0)).
Qed.

(** A script that ends with a trap, whose action is a program, or without one. *)
Lemma script_trap_wp env argv c (Q : Z → shell W → Prop) σ :
  shwp c (λ r τ,
    match exit_trap τ with
    | None => Q (status_of r) τ
    | Some s =>
        head (fields s) ≠ Some "exit" ∧
        ∀ st o w, spawn (Call (cwd τ) [] (fields s) (input τ)) (sys τ) = (st, o, w) →
          Q (status_of r) (log (Call (cwd τ) [] (fields s) (input τ)) st
            (set_out (out τ +:+ o) (set_sys w (set_traps None (sig_trap τ) τ))))
    end) (start env argv (set_traps None None σ)) →
  ∃ st τ, script env argv c σ = (inl st, leave σ τ) ∧ Q st τ.
Proof.
  unfold shwp, script, subshell, finish. destruct (c _) as [r τ]. cbn.
  destruct (exit_trap τ) as [s|]; [|by eauto]. intros [Hs HQ].
  exists (status_of r). eexists. split; [done|].
  assert (∀ τ', action s τ' = exec_raw [] (fields s) τ') as ->.
  { intros τ'. destruct (fields s) as [|a l] eqn:Es; [unfold action; by rewrite Es|].
    rewrite <- Es. apply (not_exit s a l); [done|]. intros ->. done. }
  unfold exec_raw. cbn. destruct (spawn _ _) as [[st o] w] eqn:E. cbn. by apply HQ.
Qed.

(** A program in a shell that ends with status 2 on INT and TERM. *)
Lemma shwp_exec_trap env a argv n Q σ :
  sig_trap σ = Some n → action n = exit 2 →
  (∀ st o w, spawn (Call (cwd σ) env (a :: argv) (input σ)) (sys σ) = (st, o, w) →
    let τ := log (Call (cwd σ) env (a :: argv) (input σ)) st (set_out (out σ +:+ o) (set_sys w σ)) in
    match interrupted w with
    | None => Q (inl st) τ
    | Some HUP => Q (inr 129) (set_traps None None τ)
    | Some _ => Q (inr 2) τ
    end) →
  shwp (exec_env env (a :: argv)) Q σ.
Proof.
  intros Ht Ha HQ. unfold shwp, exec_env, mbind, sh_bind, exec_raw. cbn.
  destruct (spawn _ _) as [[st o] w] eqn:E. specialize (HQ _ _ _ eq_refl). cbn in *. rewrite Ht.
  destruct (interrupted w) as [[]|]; cbn; [done| | |done]; unfold mbind, sh_bind; by rewrite Ha.
Qed.

Lemma shwp_capture c Q σ :
  shwp c (λ _ τ, Q (inl (out τ)) (set_out (out σ) (leave (set_out "" σ) τ)))
    (set_traps None None (set_out "" σ)) →
  shwp (capture c) Q σ.
Proof. unfold shwp, capture, subshell. by destruct (c _). Qed.

Lemma shwp_subshell c Q σ :
  shwp c (λ r τ, Q (inl (status_of r)) (leave σ τ)) (set_traps None None σ) →
  shwp (subshell c) Q σ.
Proof. unfold shwp, subshell. by destruct (c _). Qed.

Lemma shwp_pipe c d Q σ :
  shwp (capture c) (λ r τ, match r with
    | inl o => shwp d (λ r τ', Q (inl (status_of r)) (leave τ τ')) (set_input o (set_traps None None τ))
    | inr n => Q (inr n) τ end) σ →
  shwp (pipe c d) Q σ.
Proof.
  intros Hc. apply shwp_bind. eapply shwp_mono; [exact Hc|]. intros [o|n] τ Hd; [|done].
  apply shwp_subshell. exact Hd.
Qed.

Lemma shwp_redirect append file c Q σ :
  (open_output append (resolve (cwd σ) file) (sys σ) = None → Q (inl 1) σ) →
  (∀ w, open_output append (resolve (cwd σ) file) (sys σ) = Some w →
    shwp c (λ r τ, Q r (set_out (out σ) (set_sys (emit (resolve (cwd σ) file) (out τ) (sys τ)) τ)))
      (set_out "" (set_sys w σ))) →
  shwp (redirect append file c) Q σ.
Proof.
  unfold shwp, redirect. intros Hn Hs. destruct (open_output _ _ _) as [w|]; [|by apply Hn].
  specialize (Hs w eq_refl). by destruct (c _).
Qed.

Lemma shwp_with_input s c Q σ :
  shwp c (λ r τ, Q r (set_input (input σ) τ)) (set_input s σ) → shwp (with_input s c) Q σ.
Proof. unfold shwp, with_input. by destruct (c _). Qed.

(** A script as a command. *)
Lemma shwp_script env argv c (P : Z → shell W → Prop) Q σ :
  (∃ st τ, script env argv c σ = (inl st, leave σ τ) ∧ P st τ) →
  (∀ st τ, P st τ → Q (inl st) (leave σ τ)) →
  shwp (script env argv c) Q σ.
Proof. intros (st & τ & E & HP) HQ. unfold shwp. rewrite E. by apply HQ. Qed.

Lemma shwp_use {A} (c : sh W A) Q σ r σ' : shwp c Q σ → c σ = (r, σ') → Q r σ'.
Proof. unfold shwp. by intros HQ E; rewrite E in HQ. Qed.
End Wp.

#[global] Arguments set_params {W} l !σ /.
#[global] Arguments set_vars {W} v !σ /.
#[global] Arguments set_cwd {W} d !σ /.
#[global] Arguments set_errexit {W} b !σ /.
#[global] Arguments set_traps {W} e s !σ /.
#[global] Arguments set_input {W} i !σ /.
#[global] Arguments set_out {W} o !σ /.
#[global] Arguments set_err {W} e !σ /.
#[global] Arguments set_sys {W} w !σ /.
#[global] Arguments log {W} c st !σ /.
#[global] Arguments start {W} env argv !σ /.
#[global] Arguments get : simpl never.
#[global] Arguments exec_env : simpl never.
#[global] Arguments exec_raw : simpl never.
#[global] Arguments exec : simpl never.
#[global] Arguments cd : simpl never.
#[global] Arguments seq : simpl never.
#[global] Arguments or_else : simpl never.
#[global] Arguments and_then : simpl never.
#[global] Arguments if_else : simpl never.
#[global] Arguments if_then : simpl never.
#[global] Arguments test : simpl never.
#[global] Arguments set_e : simpl never.
#[global] Arguments assign : simpl never.
#[global] Arguments var : simpl never.
#[global] Arguments arg : simpl never.
#[global] Arguments all_args : simpl never.
#[global] Arguments expand : simpl never.
#[global] Arguments expand_args : simpl never.
#[global] Arguments shift : simpl never.
#[global] Arguments echo : simpl never.
#[global] Arguments echo_err : simpl never.
#[global] Arguments silent : simpl never.
#[global] Arguments call_function : simpl never.
#[global] Arguments capture : simpl never.
#[global] Arguments subshell : simpl never.
#[global] Arguments pipe : simpl never.
#[global] Arguments with_input : simpl never.
#[global] Arguments redirect : simpl never.
#[global] Arguments leave {W} !σ !σ' /.
#[global] Arguments for_in : simpl never.
#[global] Arguments exit : simpl never.
#[global] Arguments ok : simpl never.

Ltac sh_cbn :=
  cbn; try change (0 =? 0) with true; try change (1 =? 0) with false; cbn.

(** One step of symbolic execution; the state is a constructor application. *)
Ltac sh_step :=
  lazymatch goal with
  | |- shwp (seq _ _) _ _ => apply shwp_seq
  | |- shwp (or_else _ _) _ _ => apply shwp_or_else
  | |- shwp (and_then _ _) _ _ => apply shwp_and_then
  | |- shwp (if_else _ _ _) _ _ => apply shwp_if_else
  | |- shwp (if_then _ _) _ _ => apply shwp_if_else
  | |- shwp (_ ≫= _) _ _ => apply shwp_bind
  | |- shwp (mret _) _ _ => apply shwp_ret; sh_cbn
  | |- shwp ok _ _ => apply shwp_ret; sh_cbn
  | |- shwp (var _) _ _ => apply shwp_get; sh_cbn
  | |- shwp (arg _) _ _ => apply shwp_get; sh_cbn
  | |- shwp all_args _ _ => apply shwp_get; sh_cbn
  | |- shwp (get _) _ _ => apply shwp_get; sh_cbn
  | |- shwp (expand _) _ _ => apply shwp_expand_plain; [reflexivity|sh_cbn]
  | |- shwp (exit _) _ _ => apply shwp_exit; sh_cbn
  | |- shwp (test _) _ _ => apply shwp_test; sh_cbn
  | |- shwp (assign _ _) _ _ => apply shwp_assign; sh_cbn
  | |- shwp (echo _) _ _ => apply shwp_echo; sh_cbn
  | |- shwp set_e _ _ => apply shwp_set_e; sh_cbn
  | |- shwp (echo_err _) _ _ => apply shwp_echo_err; sh_cbn
  | |- shwp (silent _) _ _ => apply shwp_silent
  | |- shwp (call_function _ _) _ _ => apply shwp_call_function; sh_cbn
  | |- shwp shift _ _ => apply shwp_shift; sh_cbn
  | |- shwp (for_in _ _ _) _ _ => apply shwp_for_in; sh_cbn
  | |- shwp (cd _) _ _ => apply shwp_cd; sh_cbn; [intros ?|intros ? ? ?]
  | |- shwp (exec (_ :: _)) _ _ => apply shwp_exec_env; [reflexivity|intros ???; sh_cbn; intros ?]
  | |- shwp (exec_env _ (_ :: _)) _ _ =>
      apply shwp_exec_env; [reflexivity|intros ???; sh_cbn; intros ?]
  end.

(** * A system for examples

    Its programs only give the status that is set for them, zero by default, except
    that [mkdir] makes a directory. *)

Record machine := Machine {
  m_dirs : list string;
  m_files : list (string * string);
  m_status : list (list string * Z);
}.

Definition status_for (argv : list string) (l : list (list string * Z)) : Z :=
  match list_find (λ p, p.1 = argv) l with
  | Some (_, (_, st)) => st
  | None => 0
  end.

Definition m_spawn (c : call) (m : machine) : Z * string * machine :=
  (status_for (c_argv c) (m_status m), "",
   match c_argv c with
   | ["mkdir"; d] => Machine (resolve (c_dir c) d :: m_dirs m) (m_files m) (m_status m)
   | _ => m
   end).

Definition m_glob (dir s : string) (m : machine) : list string :=
  if literal s then [s]
  else match m_files m with
       | [] => [s]
       | l => fst <$> l
       end.

#[global, refine] Instance machine_system : System machine := {
  spawn := m_spawn;
  is_directory d m := bool_decide (d ∈ m_dirs m);
  is_regular f m := bool_decide (f ∈ fst <$> m_files m);
  chdir d m := if bool_decide (d ∈ m_dirs m) then 0 else 1;
  open_output append f m := Some m;
  emit f s m := Machine (m_dirs m) ((f, s) :: m_files m) (m_status m);
  glob := m_glob;
  shift_exits := true;
  interrupted _ := None;
}.
Proof. intros dir s w Hs. unfold m_glob. by rewrite Hs. Defined.

#[global] Instance machine_quiet : Quiet (W := machine).
Proof. by intros w. Qed.

(** A shell on such a system. *)
Definition example (args : list string) (m : machine) : shell machine :=
  Shell args [] "/" false None None "" "" "" [] m.
