(* ===== verification/ShellRuns.v ===== *)
(** * What programs a command may run

    The class [Runs P] of the commands all of whose programs, those of the traps they
    set included, satisfy the predicate [P] on their arguments. The instances follow
    the structure of commands. *)
From stdpp Require Import base strings list.
From Stdlib Require Import Lia.
From S2P Require Import Prelude Shell.

Section Runs.
Context {W : Type} `{System W}.
Variable P : list string → Prop.
Implicit Types σ τ : shell W.

(** The action of a trap is [exit] or one of the programs. *)
Definition trap_ok (o : option string) : Prop :=
  match o with
  | Some s => P (fields s) ∨ ∃ n, fields s = ["exit"; n]
  | None => True
  end.
Definition traps_ok σ : Prop := trap_ok (exit_trap σ) ∧ trap_ok (sig_trap σ).

(** The trace grows by such programs from [σ] to [τ]. *)
Definition grows σ τ : Prop :=
  ∃ tr, trace τ = trace σ ++ tr ∧ Forall (λ e, P (c_argv e.1)) tr.

Class Runs {A} (c : sh W A) : Prop :=
  runs σ : traps_ok σ → traps_ok (c σ).2 ∧ grows σ (c σ).2.

Lemma grows_refl σ : grows σ σ.
Proof. exists []. by rewrite app_nil_r. Qed.

Lemma grows_eq σ τ : trace τ = trace σ → grows σ τ.
Proof. intros E. exists []. by rewrite app_nil_r. Qed.

Lemma grows_trans σ τ υ : grows σ τ → grows τ υ → grows σ υ.
Proof.
  intros (t1 & E1 & H1) (t2 & E2 & H2). exists (t1 ++ t2).
  rewrite E2, E1, <- app_assoc. split; [done|]. by apply Forall_app.
Qed.

(** Commands that run nothing and keep the traps. *)
Lemma runs_quiet A (c : sh W A) :
  (∀ σ, trace (c σ).2 = trace σ ∧ exit_trap (c σ).2 = exit_trap σ ∧ sig_trap (c σ).2 = sig_trap σ) →
  Runs c.
Proof.
  intros Hc σ Hσ. destruct (Hc σ) as (? & E1 & E2). unfold traps_ok in *. rewrite E1, E2.
  split; [done|by apply grows_eq].
Qed.

#[global] Instance runs_ret A (a : A) : Runs (mret a).
Proof. by apply runs_quiet. Qed.

#[global] Instance runs_bind A B (m : sh W A) (k : A → sh W B) :
  Runs m → (∀ a, Runs (k a)) → Runs (m ≫= k).
Proof.
  intros Hm Hk σ Hσ. destruct (Hm σ Hσ) as [Ht Hg]. unfold mbind, sh_bind.
  destruct (m σ) as [[a|n] τ]; [|done]. cbn in *.
  destruct (Hk a τ Ht) as [? ?]. split; [done|]. by eapply grows_trans.
Qed.

#[global] Instance runs_exit A n : Runs (exit (A := A) n).
Proof. by apply runs_quiet. Qed.
#[global] Instance runs_killed A s : Runs (killed (A := A) s).
Proof. intros σ Hσ. split; [done|by apply grows_eq]. Qed.
#[global] Instance runs_if A (b : bool) (c d : sh W A) : Runs c → Runs d → Runs (if b then c else d).
Proof. by destruct b. Qed.
#[global] Instance runs_get A (f : shell W → A) : Runs (get f).
Proof. by apply runs_quiet. Qed.
#[global] Instance runs_var x : Runs (var x).
Proof. by apply runs_quiet. Qed.
#[global] Instance runs_arg i : Runs (arg i).
Proof. by apply runs_quiet. Qed.
#[global] Instance runs_all_args : Runs all_args.
Proof. by apply runs_quiet. Qed.
#[global] Instance runs_expand s : Runs (expand s).
Proof. by apply runs_quiet. Qed.
#[global] Instance runs_expand_args : Runs expand_args.
Proof. by apply runs_quiet. Qed.
#[global] Instance runs_ok : Runs ok.
Proof. by apply runs_quiet. Qed.
#[global] Instance runs_test b : Runs (test b).
Proof. by apply runs_quiet. Qed.
#[global] Instance runs_assign x v : Runs (assign x v).
Proof. by apply runs_quiet. Qed.
#[global] Instance runs_echo l : Runs (echo l).
Proof. by apply runs_quiet. Qed.
#[global] Instance runs_echo_err l : Runs (echo_err l).
Proof. by apply runs_quiet. Qed.
#[global] Instance runs_cd d : Runs (cd d).
Proof. apply runs_quiet. intros σ. unfold cd. by case_match. Qed.

#[global] Instance runs_seq c d : Runs c → Runs d → Runs (seq c d).
Proof. unfold seq. apply _. Qed.
#[global] Instance runs_or_else c d : Runs c → Runs d → Runs (or_else c d).
Proof. unfold or_else. apply _. Qed.
#[global] Instance runs_and_then c d : Runs c → Runs d → Runs (and_then c d).
Proof. unfold and_then. apply _. Qed.
#[global] Instance runs_if_else c d e : Runs c → Runs d → Runs e → Runs (if_else c d e).
Proof. unfold if_else. apply _. Qed.
#[global] Instance runs_if_then c d : Runs c → Runs d → Runs (if_then c d).
Proof. unfold if_then. apply _. Qed.
#[global] Instance runs_for_in x l body : Runs body → Runs (for_in x l body).
Proof. intros. induction l as [|v l IH]; [apply _|]. destruct l; unfold for_in; apply _. Qed.

Lemma runs_exec_raw env argv : P argv → Runs (exec_raw env argv).
Proof.
  intros HP σ Hσ. unfold exec_raw. destruct (spawn _ _) as [[st o] w]. cbn.
  split; [by destruct σ|]. eexists. split; [by destruct σ|]. by repeat constructor.
Qed.

Lemma runs_action s : trap_ok (Some s) → Runs (action s).
Proof.
  intros [Hs|[n Hs]]; unfold action.
  - repeat case_match; try apply _; by apply runs_exec_raw.
  - rewrite Hs. apply _.
Qed.

Lemma runs_exec_env env argv : P argv → Runs (exec_env env argv).
Proof.
  intros HP. unfold exec_env. destruct argv as [|a argv]; [apply _|].
  apply runs_bind; [by apply runs_exec_raw|]. intros st σ Hσ.
  unfold mbind, sh_bind, get. cbn. destruct (interrupted _) as [g|]; [|split; [done|apply grows_refl]].
  destruct (trapped g (sig_trap σ)) as [s|] eqn:Es; [|by apply runs].
  assert (sig_trap σ = Some s) as Es' by by destruct g.
  assert (Runs (action s)) as Ha by (apply runs_action; rewrite <- Es'; apply Hσ).
  change (let c := action s;; mret st in traps_ok (c σ).2 ∧ grows σ (c σ).2). cbv zeta.
  by apply runs.
Qed.

Lemma runs_exec argv : P argv → Runs (exec argv).
Proof. apply runs_exec_env. Qed.

Lemma grows_subshell c σ : Runs c → grows σ (subshell c σ).2.
Proof.
  intros Hc. unfold subshell.
  destruct (Hc (set_traps None None σ)) as [_ (tr & E & Htr)]; [by destruct σ|].
  destruct (c _) as [r τ]. cbn in *. exists tr. split; [|done]. by destruct σ, τ.
Qed.

#[global] Instance runs_subshell c : Runs c → Runs (subshell c).
Proof.
  intros Hc σ Hσ. split; [|by apply grows_subshell].
  unfold subshell. destruct (c _) as [r τ]. exact Hσ.
Qed.

#[global] Instance runs_call_function args c : Runs c → Runs (call_function args c).
Proof.
  intros Hc σ Hσ. unfold call_function. destruct (Hc (set_params args σ)) as [Ht (tr & E & Htr)].
  { by destruct σ. }
  destruct (c _) as [r τ]. cbn in *. split; [by destruct τ|]. exists tr. by destruct σ, τ.
Qed.

#[global] Instance runs_silent c : Runs c → Runs (silent c).
Proof.
  intros Hc σ Hσ. unfold silent. destruct (Hc σ Hσ) as [Ht (tr & E & Htr)].
  destruct (c σ) as [r τ]. cbn in *. split; [by destruct τ|]. exists tr. by destruct τ.
Qed.

#[global] Instance runs_with_input s c : Runs c → Runs (with_input s c).
Proof.
  intros Hc σ Hσ. unfold with_input. destruct (Hc (set_input s σ)) as [Ht (tr & E & Htr)].
  { by destruct σ. }
  destruct (c _) as [r τ]. cbn in *. split; [by destruct τ|]. exists tr. by destruct σ, τ.
Qed.

#[global] Instance runs_capture c : Runs c → Runs (capture c).
Proof.
  intros Hc σ Hσ. unfold capture.
  destruct (runs_subshell c Hc (set_out "" σ)) as [Ht (tr & E & Htr)]; [by destruct σ|].
  destruct (subshell c _) as [[st|n] τ]; cbn in *; (split; [by destruct τ|]; exists tr; by destruct σ, τ).
Qed.

#[global] Instance runs_redirect append file c : Runs c → Runs (redirect append file c).
Proof.
  intros Hc σ Hσ. unfold redirect. destruct (open_output _ _ _) as [w|]; [|split; [done|apply grows_refl]].
  destruct (Hc (set_out "" (set_sys w σ))) as [Ht (tr & E & Htr)]; [by destruct σ|].
  destruct (c _) as [r τ]. cbn in *. split; [by destruct τ|]. exists tr. by destruct σ, τ.
Qed.

#[global] Instance runs_pipe c d : Runs c → Runs d → Runs (pipe c d).
Proof.
  intros Hc Hd. apply runs_bind; [apply _|]. intros o. apply runs_subshell. intros σ Hσ.
  destruct (Hd (set_input o σ)) as [Ht (tr & E & Htr)]; [by destruct σ|].
  split; [done|]. exists tr. by destruct σ.
Qed.

Lemma runs_trap_exit s : P (fields s) → Runs (trap_exit s).
Proof.
  intros Hs σ [_ Hσ]. split; [|by apply grows_eq; destruct σ]. destruct σ. split; [by left|done].
Qed.

Lemma runs_trap_signals s n : fields s = ["exit"; n] → Runs (trap_signals s).
Proof.
  intros Hs σ [Hσ _]. split; [|by apply grows_eq; destruct σ]. destruct σ. split; [done|right; by exists n].
Qed.

#[global] Instance runs_script env argv c : Runs c → Runs (script env argv c).
Proof.
  intros Hc. apply runs_subshell. intros σ Hσ. unfold finish.
  destruct (Hc (start env argv σ)) as [Ht (tr & E & Htr)]; [by destruct σ|].
  destruct (c _) as [r τ]. cbn in Ht, E.
  assert (grows σ τ) as Hg by (exists tr; by destruct σ). clear E Htr.
  destruct (exit_trap τ) as [s|] eqn:Es; cbn; [|done].
  assert (Runs (action s)) as Ha by (apply runs_action; rewrite <- Es; apply Ht).
  destruct (Ha (set_traps None (sig_trap τ) τ)) as [Ht' Hg'].
  { destruct Ht. by destruct τ. }
  split; [exact Ht'|]. eapply grows_trans; [exact Hg|].
  destruct Hg' as (t' & E' & ?). exists t'. by destruct τ.
Qed.
(** A script whose parameters decide what it does. *)
Lemma runs_script_eq env argv c c' :
  (∀ σ, params σ = argv → c σ = c' σ) → Runs c' → Runs (script env argv c).
Proof.
  intros E Hc'. assert (∀ σ, script env argv c σ = script env argv c' σ) as Es.
  { intros σ. unfold script, subshell, finish. rewrite E; [done|by destruct σ]. }
  intros σ Hσ. rewrite Es. by apply (runs_script env argv c').
Qed.

(** A script by symbolic execution. *)
Lemma runs_script_wp env argv c :
  (∀ σ, shwp c (λ _ τ, exit_trap τ = None ∧ grows σ τ) (start env argv (set_traps None None σ))) →
  Runs (script env argv c).
Proof.
  intros Hc σ Hσ. destruct (script_wp env argv c (λ _ τ, grows σ τ) σ (Hc σ)) as (st & τ & E & Hg).
  rewrite E. cbn. split; [by destruct σ, τ|]. destruct Hg as (tr & ? & ?). exists tr. by destruct σ, τ.
Qed.
End Runs.

(** Goes through a command; what remains are the programs. *)
Ltac runs :=
  repeat lazymatch goal with
  | |- Runs _ (_ ≫= _) => apply runs_bind; [|intros ?]
  | |- Runs _ (seq _ _) => apply runs_seq
  | |- Runs _ (or_else _ _) => apply runs_or_else
  | |- Runs _ (and_then _ _) => apply runs_and_then
  | |- Runs _ (if_else _ _ _) => apply runs_if_else
  | |- Runs _ (if_then _ _) => apply runs_if_then
  | |- Runs _ (for_in _ _ _) => apply runs_for_in
  | |- Runs _ (subshell _) => apply runs_subshell
  | |- Runs _ (script _ _ _) => apply runs_script
  | |- Runs _ (capture _) => apply runs_capture
  | |- Runs _ (redirect _ _ _) => apply runs_redirect
  | |- Runs _ (silent _) => apply runs_silent
  | |- Runs _ (with_input _ _) => apply runs_with_input
  | |- Runs _ (call_function _ _) => apply runs_call_function
  | |- Runs _ (pipe _ _) => apply runs_pipe
  | |- Runs _ (if _ then _ else _) => apply runs_if
  | |- Runs _ (exec _) => apply runs_exec
  | |- Runs _ _ => apply _
  end.
