(* ===== verification/DeviceScripts.v ===== *)
(** * The scripts that install Debian on the phone, [on-device-scripts/]

    [run-in-debian.sh], [bootstrap-debian.sh], which calls it, [unpack-debian.sh] and
    [install-bootimage.sh], command by command in the shell of [Shell]. The theorems
    say which programs they run on any system and for any parameters: the mounts and the
    command inside, the ways in which unpacking ends and what it never touches, that
    the option [-d] has no effect and that files on the partition are not noticed. *)
From stdpp Require Import base strings list.
From Stdlib Require Import Ascii Lia.
From S2P Require Import Prelude Shell.

Section Scripts.
Context {W : Type} `{System W}.
Local Abbreviation cmd := (sh W Z).
Local Open Scope sh_scope.

(** The options of [run-in-debian.sh] and [unpack-debian.sh]. *)
Definition parse_options : cmd :=
  if_then (a ← arg 0; test (String.eqb a "-d"))
    (shift;;
     (a ← arg 0; assign "DEBIAN" a);;
     shift);;
  if_then (a ← arg 0; test (String.eqb a "-p"))
    (shift;;
     (a ← arg 0; assign "DEVICE" a);;
     shift).

(** [run-in-debian.sh] in its directory. *)
Definition in_debian : cmd :=
  (dev ← var "DEVICE"; dir ← var "DEBIANDIR"; exec ["busybox"; "mount"; dev; dir]);;
  or_else
    (dir ← var "DEBIANDIR";
     exec ["busybox"; "mount"; "-t"; "devtmpfs"; "devtmpfs"; dir +:+ "/dev"])
    (dir ← var "DEBIANDIR"; exec ["mount"; "-o"; "bind"; "/dev"; dir +:+ "/dev"]);;
  for_in "i" ["dev/pts"; "proc"; "sys"; "data"; "system"; "sdcard"]
    (i ← var "i"; dir ← var "DEBIANDIR"; from ← expand ("/" +:+ i);
     exec (["busybox"; "mount"; "-o"; "bind"] ++ from ++ [dir +:+ "/" +:+ i]));;
  if_else (l ← get params; test (Nat.ltb 0 (length l)))
    (a ← all_args; assign "cmd" a)
    (assign "cmd" "/bin/bash");;
  (path ← var "PATH"; dir ← var "DEBIANDIR"; c ← var "cmd";
   exec_env
     [("TERM", "xterm"); ("SHELL", "/bin/bash"); ("HOME", "/root");
      ("PATH", "/usr/local/sbin:/usr/local/bin:/usr/sbin:/usr/bin:" +:+ path)]
     ["chroot"; dir; "/bin/sh"; "-c"; c]).

Definition run_in_debian : cmd :=
  assign "DEBIANDIR" "debian";;
  assign "DEVICE" "/dev/block/mmcblk1p2";;
  parse_options;;
  cd "/data";;
  in_debian.

Definition second_stage : string :=
  "debootstrap/debootstrap --second-stage; cd /var/cache && dpkg -i *.deb && rm -f *.deb && adduser --gecos "
  +:+ dquote +:+ "Bananian User" +:+ dquote +:+
  " --disabled-password user && adduser user sudo && (echo user:bananian | chpasswd user)".

(** [/data/run-in-debian.sh $@ '...'], with the variables [env] exported. *)
Definition bootstrap_debian (env : list (string * string)) : cmd :=
  l ← expand_args; script env (l ++ [second_stage]) run_in_debian.

Definition install_bootimage : cmd :=
  exec ["dd"; "if=/data/boot.img"; "of=/dev/block/bootdevice/by-name/recovery"; "bs=2048"].

(** [unpack-debian.sh] in its directory. *)
Definition unpack_in_data : cmd :=
  if_then (dir ← var "DEBIANDIR"; here ← get cwd; w ← get sys;
           test (is_directory (resolve here dir) w))
    (echo ["WARNING! A debian directory has been found! Please "; "unmount/delete it."];;
     exit 1);;
  (dir ← var "DEBIANDIR"; exec ["mkdir"; dir]);;
  or_else (dev ← var "DEVICE"; dir ← var "DEBIANDIR"; exec ["busybox"; "mount"; dev; dir]) ok;;
  (dir ← var "DEBIANDIR"; cd dir);;
  assign "allfiles" "*";;
  if_then (a ← var "allfiles"; test (negb (String.eqb ("x" +:+ a) "x*")))
    (echo ["Debian partition not empty! Please delete all files manually."];;
     exit 1);;
  exec ["tar"; "xvf"; "../debroot.tar"].

Definition unpack_debian : cmd :=
  set_e;;
  assign "DEBIANDIR" "debian";;
  assign "DEVICE" "/dev/block/mmcblk1p2";;
  parse_options;;
  cd "/data";;
  unpack_in_data.
End Scripts.

(** * The options *)

(** What an option [o] that sets the variable [x] makes of the parameters. *)
Definition take_option (o x : string) (args : list string) :
    option (list (string * string) * list string) :=
  match args with
  | a :: rest =>
      if String.eqb a o then
        match rest with
        | v :: rest => Some ([(x, v)], rest)
        | [] => None
        end
      else Some ([], args)
  | [] => Some ([], [])
  end.

(** The variables that the options set and the parameters that are left; [None] where
    the value of an option is missing. *)
Definition options (args : list string) : option (list (string * string) * list string) :=
  '(d, rest) ← take_option "-d" "DEBIAN" args;
  '(p, rest) ← take_option "-p" "DEVICE" rest;
  Some (p ++ d, rest).

Section Theory.
Context {W : Type} `{System W}.
Implicit Types σ : shell W.

Lemma shwp_option o x vs rest Q σ :
  take_option o x (params σ) = Some (vs, rest) → String.eqb "" o = false →
  Q (inl 0) (set_params rest (set_vars (vs ++ vars σ) σ)) →
  shwp (if_then (a ← arg 0; test (String.eqb a o))
    (seq shift (seq (a ← arg 0; assign x a) shift))) Q σ.
Proof.
  intros Ho Hne HQ. destruct σ as [ps vs0 ?????????]. cbn in *. repeat sh_step.
  destruct ps as [|a ps]; cbn in *.
  { rewrite Hne. cbn. sh_step. injection Ho as <- <-. exact HQ. }
  destruct (String.eqb a o); cbn; [|sh_step; injection Ho as <- <-; exact HQ].
  destruct ps as [|v ps]; [done|]. injection Ho as <- <-. cbn in HQ.
  repeat (sh_step; rewrite ?andb_false_r). exact HQ.
Qed.

Lemma shwp_parse_options vs rest Q σ :
  options (params σ) = Some (vs, rest) →
  Q (inl 0) (set_params rest (set_vars (vs ++ vars σ) σ)) →
  shwp parse_options Q σ.
Proof.
  unfold options. destruct (take_option "-d" _ _) as [[d r1]|] eqn:Ed; [|done]. cbn.
  destruct (take_option "-p" _ _) as [[p r2]|] eqn:Ep; [|done]. cbn.
  intros [= <- <-] HQ. unfold parse_options. sh_step. eapply shwp_option; [done..|].
  cbn. rewrite andb_false_r. eapply shwp_option; [by destruct σ|done|].
  destruct σ. cbn in *. by rewrite <- app_assoc in HQ.
Qed.

(** An option without its value makes [shift] fail, which ends a script under [set -e]. *)
Lemma shwp_option_missing o x Q σ :
  take_option o x (params σ) = None →
  (∀ r τ, r = inl 1 ∨ r = inr 1 → exit_trap τ = exit_trap σ → trace τ = trace σ →
    errexit τ = errexit σ → Q r τ) →
  shwp (if_then (a ← arg 0; test (String.eqb a o))
    (seq shift (seq (a ← arg 0; assign x a) shift))) Q σ.
Proof.
  intros Ho HQ. destruct σ as [ps vs0 ?????????]. cbn in *. repeat sh_step.
  destruct ps as [|a ps]; cbn in *; [done|]. destruct (String.eqb a o); [|done].
  destruct ps as [|v ps]; [|done]. sh_cbn. repeat (sh_step; rewrite ?andb_false_r).
  destruct shift_exits; apply HQ; auto.
Qed.

Lemma shwp_parse_options_missing Q σ :
  options (params σ) = None → errexit σ = true →
  (∀ r τ, r = inl 1 ∨ r = inr 1 → exit_trap τ = exit_trap σ → trace τ = trace σ →
    errexit τ = errexit σ → Q r τ) →
  shwp parse_options Q σ.
Proof.
  unfold options. intros Ho He HQ. unfold parse_options. sh_step.
  destruct (take_option "-d" _ _) as [[d r1]|] eqn:Ed; cbn in Ho.
  - eapply shwp_option; [done..|]. sh_cbn. rewrite andb_false_r.
    apply shwp_option_missing; [|by destruct σ]. destruct σ. cbn.
    by destruct (take_option "-p" _ r1) as [[]|].
  - apply shwp_option_missing; [done|]. intros r τ Hr ?? Ee. rewrite Ee, He.
    destruct Hr as [-> | ->]; apply HQ; auto.
Qed.

(** * [run-in-debian.sh] *)

(** The command that runs inside, from the parameters left by the options. *)
Definition inner_command (rest : list string) : string :=
  match rest with
  | [] => "/bin/bash"
  | _ => String.concat " " rest
  end.

Definition device (vs : list (string * string)) : string :=
  value_of "DEVICE" (vs ++ [("DEVICE", "/dev/block/mmcblk1p2")]).

(** The directory the scripts work in. *)
Definition data_dir (here : string) (w : W) : string :=
  if chdir "/data" w =? 0 then "/data" else here.

Lemma options_vars args vs rest :
  options args = Some (vs, rest) →
  ∃ d p, vs = p ++ d ∧ (d = [] ∨ ∃ v, d = [("DEBIAN", v)]) ∧ (p = [] ∨ ∃ v, p = [("DEVICE", v)]).
Proof.
  assert (∀ o x l vs r, take_option o x l = Some (vs, r) → vs = [] ∨ ∃ v, vs = [(x, v)]) as Ht.
  { unfold take_option. intros. repeat (case_match; simplify_eq/=); eauto. }
  unfold options. destruct (take_option "-d" _ _) as [[d r1]|] eqn:Ed; [|done]. cbn.
  destruct (take_option "-p" _ _) as [[p r2]|] eqn:Ep; [|done]. cbn. intros [= <- <-]. eauto 10.
Qed.

Lemma options_value args vs rest x l :
  options args = Some (vs, rest) → x ≠ "DEBIAN" → x ≠ "DEVICE" → value_of x (vs ++ l) = value_of x l.
Proof.
  intros (d & p & -> & Hd & Hp)%options_vars Hx%String.eqb_neq Hy%String.eqb_neq.
  destruct Hd as [->|[? ->]], Hp as [->|[? ->]]; cbn; by rewrite ?Hx, ?Hy.
Qed.

Lemma options_device args vs rest l :
  options args = Some (vs, rest) →
  value_of "DEVICE" (vs ++ ("DEVICE", "/dev/block/mmcblk1p2") :: l) = device vs.
Proof.
  intros (d & p & -> & Hd & Hp)%options_vars. unfold device.
  by destruct Hd as [->|[? ->]], Hp as [->|[? ->]].
Qed.

(** In the following no signal comes. *)
Section Quietly.
Context {Hq : Quiet (W := W)}.

Definition debian_calls (here inp path dev c : string) (fallback : bool) : list call :=
  let run argv := Call here [] argv inp in
  [run ["busybox"; "mount"; dev; "debian"];
   run ["busybox"; "mount"; "-t"; "devtmpfs"; "devtmpfs"; "debian/dev"]] ++
  (if fallback then [run ["mount"; "-o"; "bind"; "/dev"; "debian/dev"]] else []) ++
  ((λ i, run ["busybox"; "mount"; "-o"; "bind"; "/" +:+ i; "debian/" +:+ i]) <$>
     ["dev/pts"; "proc"; "sys"; "data"; "system"; "sdcard"]) ++
  [Call here
     [("TERM", "xterm"); ("SHELL", "/bin/bash"); ("HOME", "/root");
      ("PATH", "/usr/local/sbin:/usr/local/bin:/usr/sbin:/usr/bin:" +:+ path)]
     ["chroot"; "debian"; "/bin/sh"; "-c"; c] inp].

(** The mounts and the [chroot] from a state in which the variables are set. *)
Lemma in_debian_wp v rest here inp o er tr w (Q : Z + Z → shell W → Prop) :
  value_of "DEBIANDIR" v = "debian" →
  (∀ sts (fallback : bool) st v' o' w',
    length sts = (if fallback then 10 else 9)%nat →
    (fallback = false ↔ sts !! 1%nat = Some 0) → last sts = Some st →
    Q (inl st) (Shell rest v' here false None None inp o' er
      (tr ++ zip (debian_calls here inp (value_of "PATH" v) (value_of "DEVICE" v) (inner_command rest)
        fallback) sts) w')) →
  shwp in_debian Q (Shell rest v here false None None inp o er tr w).
Proof.
  intros Hd HQ. unfold in_debian. repeat (sh_step; rewrite ?Hd).
  destruct (Z.eqb_spec st0 0) as [->|Hst]; repeat (sh_step; rewrite ?Hd);
    destruct rest as [|r rest]; cbn; repeat (sh_step; rewrite ?Hd); rewrite <- !app_assoc.
  1-2: by apply (HQ [_; _; _; _; _; _; _; _; _] false).
  all: apply (HQ [_; _; _; _; _; _; _; _; _; _] true); [done| |done]; cbn; split; congruence.
Qed.

(** The programs that [run-in-debian.sh] runs from the state [σ], with the statuses
    [sts], the last of which is that of the script. *)
Definition ran_in_debian (σ : shell W) (path dev c : string) (st : Z) (tr : list (call * Z)) : Prop :=
  ∃ sts (fallback : bool),
    tr = trace σ ++ zip (debian_calls (data_dir (cwd σ) (sys σ)) (input σ) path dev c fallback) sts ∧
    length sts = (if fallback then 10 else 9)%nat ∧
    (fallback = false ↔ sts !! 1%nat = Some 0) ∧ last sts = Some st.

Lemma run_in_debian_wp env args vs rest σ :
  options args = Some (vs, rest) →
  shwp run_in_debian (λ r τ, exit_trap τ = None ∧
    ran_in_debian σ (value_of "PATH" env) (device vs) (inner_command rest) (status_of r) (trace τ))
    (start env args (set_traps None None σ)).
Proof.
  intros Ho. destruct σ as [ps vs0 here ee et st inp o er tr w]. unfold run_in_debian.
  cbn. do 5 sh_step. eapply shwp_parse_options; [exact Ho|]. cbn.
  set (v := vs ++ _). set (Q := λ r τ, _ ∧ _).
  assert (∀ d, d = data_dir here w → shwp in_debian Q (Shell rest v d false None None inp o er tr w)) as Hin.
  { intros d ->. apply in_debian_wp; [unfold v; by erewrite options_value by done|].
    intros sts fb st' v' o' w' ? ? ?. split; [done|]. exists sts, fb.
    unfold v. erewrite options_device, options_value by done. eauto. }
  sh_step. apply shwp_cd; cbn; [intros E|intros ? E Hne]; apply Hin;
    unfold data_dir; destruct (Z.eqb_spec (chdir "/data" w) 0); congruence.
Qed.

(** [run-in-debian.sh] mounts the device and the six directories of the running
    system, with [/dev] from a bind mount exactly when mounting a [devtmpfs] fails, and
    then runs the command that its parameters make up, or a shell, inside; its status
    is that of the command, whatever happened to the mounts. *)
Theorem run_in_debian_runs env args vs rest σ :
  options args = Some (vs, rest) →
  ∃ st τ, script env args run_in_debian σ = (inl st, leave σ τ) ∧
    ran_in_debian σ (value_of "PATH" env) (device vs) (inner_command rest) st (trace τ).
Proof. intros Ho. apply script_wp. by apply run_in_debian_wp. Qed.

(** * [bootstrap-debian.sh] *)

Lemma take_option_app o x l vs r t :
  take_option o x l = Some (vs, r) → String.eqb t o = false →
  take_option o x (l ++ [t]) = Some (vs, r ++ [t]).
Proof. unfold take_option. intros. by repeat (case_match; simplify_eq/=). Qed.

Lemma options_app l vs r t :
  options l = Some (vs, r) → String.eqb t "-d" = false → String.eqb t "-p" = false →
  options (l ++ [t]) = Some (vs, r ++ [t]).
Proof.
  unfold options. destruct (take_option "-d" _ l) as [[d r1]|] eqn:Ed; [|done]. cbn.
  destruct (take_option "-p" _ r1) as [[p r2]|] eqn:Ep; [|done]. cbn. intros [= <- <-] Hd Hp.
  by rewrite (take_option_app _ _ _ _ _ _ Ed Hd); cbn; rewrite (take_option_app _ _ _ _ _ _ Ep Hp).
Qed.

(** [bootstrap-debian.sh] with plain parameters mounts the device that they choose
    and runs the second stage inside, the text of which is the last word of the command;
    its status is that of the second stage. *)
Theorem bootstrap_in_chroot env vs rest σ :
  Forall (λ s, plain s = true) (params σ) → options (params σ) = Some (vs, rest) →
  ∃ st τ, bootstrap_debian env σ = (inl st, leave σ τ) ∧
    ran_in_debian σ (value_of "PATH" env) (device vs)
      (String.concat " " (rest ++ [second_stage])) st (trace τ).
Proof.
  intros Hpl Ho. unfold bootstrap_debian, mbind, sh_bind. rewrite expand_args_plain by done.
  destruct (script_wp env (params σ ++ [second_stage]) run_in_debian
    (λ st τ, ran_in_debian σ (value_of "PATH" env) (device vs) (inner_command (rest ++ [second_stage]))
      st (trace τ)) σ) as (st & τ & E & HQ).
  { apply run_in_debian_wp. by apply options_app. }
  exists st, τ. split; [done|]. by destruct rest.
Qed.

End Quietly.

(** * The option [-d] *)

Lemma ignores_in_debian : Ignores "DEBIAN" (in_debian (W := W)).
Proof. unfold in_debian. ignores. Qed.

Lemma option_run o x vs rest σ :
  take_option o x (params σ) = Some (vs, rest) → String.eqb "" o = false →
  if_then (a ← arg 0; test (String.eqb a o)) (seq shift (seq (a ← arg 0; assign x a) shift)) σ =
  (inl 0, set_params rest (set_vars (vs ++ vars σ) σ)).
Proof.
  intros Ht Ho. set (σ' := set_params _ _).
  by apply injective_projections; [apply (shwp_option o x vs rest (λ r _, r = inl 0) σ Ht Ho)
    |apply (shwp_option o x vs rest (λ _ τ, τ = σ') σ Ht Ho)].
Qed.

(** After the options nothing depends on the variable that [-d] sets. *)
Lemma option_d_agree x args (k : sh W Z) σ :
  Ignores "DEBIAN" k → head args ≠ Some "-d" →
  let c := seq parse_options k in
  let σ1 := set_params ("-d" :: x :: args) σ in
  let σ2 := set_params args σ in
  (c σ1).1 = (c σ2).1 ∧ agree "DEBIAN" (c σ1).2 (c σ2).2.
Proof.
  intros Hk Hh c σ1 σ2. unfold c, parse_options. rewrite !seq_assoc.
  rewrite (seq_ok _ _ σ1 _ (option_run "-d" "DEBIAN" [("DEBIAN", x)] args σ1 eq_refl eq_refl)).
  rewrite (seq_ok _ _ σ2 (set_params args (set_vars ([] ++ vars σ2) σ2))).
  2: { apply option_run; [|done]. unfold σ2. destruct σ, args as [|a args]; [done|]. cbn in *.
       destruct (String.eqb_spec a "-d"); [congruence|done]. }
  assert (Ignores "DEBIAN" (seq (if_then (a ← arg 0; test (String.eqb a "-p"))
    (seq shift (seq (a ← arg 0; assign "DEVICE" a) shift))) k)) as Hi by ignores.
  apply Hi. split; [|by destruct σ]. intros y Hy%String.eqb_neq. destruct σ. cbn. by rewrite Hy.
Qed.

Lemma ignores_unpack : Ignores "DEBIAN" (unpack_in_data (W := W)).
Proof. unfold unpack_in_data. ignores. Qed.

(** The option [-d] of [run-in-debian.sh] and [unpack-debian.sh] has no effect: with
    or without it the scripts run the same programs with the same result, in the
    directory [debian]. *)
Theorem option_d_ignored env x args σ :
  head args ≠ Some "-d" →
  script env ("-d" :: x :: args) run_in_debian σ = script env args run_in_debian σ ∧
  script env ("-d" :: x :: args) unpack_debian σ = script env args unpack_debian σ.
Proof.
  intros Hh. split; apply (script_agree "DEBIAN"); cbv zeta.
  - unfold run_in_debian. rewrite !(seq_ok (assign _ _) _ _ _ eq_refl).
    apply (option_d_agree x args (seq (cd "/data") in_debian)); [|done].
    pose proof ignores_in_debian. ignores.
  - unfold unpack_debian. rewrite !(seq_ok set_e _ _ _ eq_refl), !(seq_ok (assign _ _) _ _ _ eq_refl).
    apply (option_d_agree x args (seq (cd "/data") unpack_in_data)); [|done].
    pose proof ignores_unpack. ignores.
Qed.

(** * [unpack-debian.sh] *)

Definition mkdir_call (inp : string) : call := Call "/data" [] ["mkdir"; "debian"] inp.
Definition mount_call (inp dev : string) : call := Call "/data" [] ["busybox"; "mount"; dev; "debian"] inp.
Definition tar_call (inp : string) : call := Call "/data/debian" [] ["tar"; "xvf"; "../debroot.tar"] inp.

(** The ways in which the script ends, with the programs it runs and its status. *)
Inductive unpack_run (inp dev : string) (w : W) : list (call * Z) → Z → Prop :=
  | no_data st :
      chdir "/data" w = st → st ≠ 0 → unpack_run inp dev w [] st
  | directory_found :
      chdir "/data" w = 0 → is_directory "/data/debian" w = true → unpack_run inp dev w [] 1
  | mkdir_failed st o w1 :
      chdir "/data" w = 0 → is_directory "/data/debian" w = false →
      spawn (mkdir_call inp) w = (st, o, w1) → ended st w1 ≠ 0 →
      unpack_run inp dev w [(mkdir_call inp, st)] (ended st w1)
  | mount_killed o w1 m o' w2 s :
      chdir "/data" w = 0 → is_directory "/data/debian" w = false →
      spawn (mkdir_call inp) w = (0, o, w1) → interrupted w1 = None →
      spawn (mount_call inp dev) w1 = (m, o', w2) → interrupted w2 = Some s →
      unpack_run inp dev w [(mkdir_call inp, 0); (mount_call inp dev, m)] (128 + signal_number s)
  | not_entered o w1 m o' w2 st :
      chdir "/data" w = 0 → is_directory "/data/debian" w = false →
      spawn (mkdir_call inp) w = (0, o, w1) → interrupted w1 = None →
      spawn (mount_call inp dev) w1 = (m, o', w2) → interrupted w2 = None →
      chdir "/data/debian" w2 = st → st ≠ 0 →
      unpack_run inp dev w [(mkdir_call inp, 0); (mount_call inp dev, m)] st
  | unpacked o w1 m o' w2 st o'' w3 :
      chdir "/data" w = 0 → is_directory "/data/debian" w = false →
      spawn (mkdir_call inp) w = (0, o, w1) → interrupted w1 = None →
      spawn (mount_call inp dev) w1 = (m, o', w2) → interrupted w2 = None →
      chdir "/data/debian" w2 = 0 → spawn (tar_call inp) w2 = (st, o'', w3) →
      unpack_run inp dev w [(mkdir_call inp, 0); (mount_call inp dev, m); (tar_call inp, st)] (ended st w3).

Lemma unpack_in_data_wp v rest inp o er tr w (Q : Z + Z → shell W → Prop) :
  value_of "DEBIANDIR" v = "debian" → chdir "/data" w = 0 →
  (∀ r τ tr', exit_trap τ = None → trace τ = tr ++ tr' →
    unpack_run inp (value_of "DEVICE" v) w tr' (status_of r) → Q r τ) →
  shwp unpack_in_data Q (Shell rest v "/data" true None None inp o er tr w).
Proof.
  intros Hd Hdata HQ. unfold unpack_in_data. repeat (sh_step; rewrite ?Hd).
  change ("/data" +:+ "/" +:+ "debian") with "/data/debian".
  destruct (is_directory "/data/debian" w) eqn:Edir; sh_cbn; repeat (sh_step; rewrite ?Hd).
  { apply (HQ _ _ []); [done|by rewrite app_nil_r|by apply directory_found]. }
  apply shwp_exec_signals; [done|]. intros st o1 w1 Emk. cbn in Emk. sh_cbn.
  assert (ended st w1 ≠ 0 → unpack_run inp (value_of "DEVICE" v) w [(mkdir_call inp, st)] (ended st w1)) as Hfail
    by (intros; by eapply mkdir_failed).
  destruct (interrupted w1) as [s1|] eqn:E1.
  { eapply HQ; [done..|]. unfold ended in Hfail. rewrite E1 in Hfail. apply Hfail. by destruct s1. }
  unfold ended in Hfail. rewrite E1 in Hfail. destruct (Z.eqb_spec st 0) as [->|Hst]; sh_cbn.
  2: { eapply HQ; [done..|]. by apply Hfail. }
  repeat (sh_step; rewrite ?Hd). apply shwp_exec_signals; [done|]. intros m o2 w2 Emo. cbn in Emo. sh_cbn.
  rewrite <- app_assoc. destruct (interrupted w2) as [s2|] eqn:E2.
  { eapply HQ; [done..|]. by eapply mount_killed. }
  destruct (m =? 0); sh_cbn; repeat (sh_step; rewrite ?Hd).
  all: change ("x" +:+ "*" =? "x*")%string with true in *; sh_cbn; repeat sh_step.
  2,4: match goal with Hne : ?n ≠ 0 |- context [negb (?n =? 0)] => apply Z.eqb_neq in Hne as E; rewrite E; cbn end;
    eapply HQ; [done..|by eapply not_entered].
  all: apply shwp_exec_signals; [done|]; intros st o3 w3 Etar; cbn in Etar; sh_cbn; rewrite <- app_assoc.
  all: assert (unpack_run inp (value_of "DEVICE" v) w
    [(mkdir_call inp, 0); (mount_call inp (value_of "DEVICE" v), m); (tar_call inp, st)] (ended st w3)) as Hend
    by by eapply unpacked.
  all: unfold ended in Hend; destruct (interrupted w3); by eapply HQ.
Qed.

Lemma unpack_debian_wp env args vs rest σ :
  options args = Some (vs, rest) →
  shwp unpack_debian (λ r τ, exit_trap τ = None ∧
    ∃ tr, trace τ = trace σ ++ tr ∧ unpack_run (input σ) (device vs) (sys σ) tr (status_of r))
    (start env args (set_traps None None σ)).
Proof.
  intros Ho. destruct σ as [ps vs0 here ee et st inp o er tr w]. unfold unpack_debian. cbn.
  do 7 sh_step. eapply shwp_parse_options; [exact Ho|]. sh_cbn. sh_step. apply shwp_cd; sh_cbn.
  - intros E. apply unpack_in_data_wp; [by erewrite options_value by done|done|].
    erewrite options_device by done. eauto.
  - intros st' E Hne. apply Z.eqb_neq in Hne as E'. rewrite E'. cbn.
    split; [done|]. exists []. split; [by rewrite app_nil_r|by apply no_data].
Qed.

Lemma unpack_debian_missing env args σ :
  options args = None →
  shwp unpack_debian (λ r τ, exit_trap τ = None ∧ status_of r = 1 ∧ trace τ = trace σ)
    (start env args (set_traps None None σ)).
Proof.
  intros Ho. destruct σ as [ps vs0 here ee et st inp o er tr w]. unfold unpack_debian. cbn.
  do 7 sh_step. apply shwp_parse_options_missing; [done|done|]. cbn.
  intros r τ Hr Ht Etr Ee. rewrite Ee. destruct Hr as [-> | ->]; sh_cbn; done.
Qed.

(** C13: [unpack-debian.sh] ends without running a program where the value of an option
    is missing, and in one of six ways otherwise, one of which is a signal during the mount;
    a signal during another program is a failure of it. It unpacks the archive only into the
    directory [/data/debian] that it has just made, with the chosen device mounted or,
    where mounting failed, not; a directory that was there before is not touched. *)
Theorem unpack_debian_runs env args σ :
  ∃ st τ, script env args unpack_debian σ = (inl st, leave σ τ) ∧
    match options args with
    | Some (vs, rest) =>
        ∃ tr, trace τ = trace σ ++ tr ∧ unpack_run (input σ) (device vs) (sys σ) tr st
    | None => st = 1 ∧ trace τ = trace σ
    end.
Proof.
  destruct (options args) as [[vs rest]|] eqn:Ho; apply (script_wp _ _ _ (λ st τ, _)).
  - by eapply unpack_debian_wp.
  - by apply unpack_debian_missing.
Qed.

(** The test for a partition that is not empty never succeeds: where the directory
    can be made and entered the archive is unpacked, also if mounting the device failed
    and if there are files that the pattern [*] matches. *)
Theorem unpack_unchecked env args vs rest σ o w1 m o' w2 :
  options args = Some (vs, rest) →
  chdir "/data" (sys σ) = 0 → is_directory "/data/debian" (sys σ) = false →
  spawn (mkdir_call (input σ)) (sys σ) = (0, o, w1) →
  spawn (mount_call (input σ) (device vs)) w1 = (m, o', w2) →
  chdir "/data/debian" w2 = 0 → interrupted w1 = None → interrupted w2 = None →
  glob "/data/debian" "*" w2 ≠ ["*"] →
  ∃ n st τ, script env args unpack_debian σ = (inl n, leave σ τ) ∧
    trace τ = trace σ ++ [(mkdir_call (input σ), 0); (mount_call (input σ) (device vs), m);
      (tar_call (input σ), st)].
Proof.
  intros Ho Hd Hdir Hmk Hmo Hcd Hi1 Hi2 _.
  destruct (script_wp env args unpack_debian (λ st τ, ∃ tr, trace τ = trace σ ++ tr ∧
    unpack_run (input σ) (device vs) (sys σ) tr st) σ) as (n & τ & E & tr & Etr & Hrun).
  { by eapply unpack_debian_wp. }
  exists n. assert (∃ st, tr = [(mkdir_call (input σ), 0); (mount_call (input σ) (device vs), m);
    (tar_call (input σ), st)]) as [st ->]; [|by exists st, τ].
  inversion Hrun; simplify_eq;
    repeat match goal with E1 : spawn ?c ?w = _, E2 : spawn ?c ?w = _ |- _ => rewrite E1 in E2; simplify_eq end; eauto; try congruence.
  match goal with Hn : ended 0 _ ≠ 0 |- _ => by destruct Hn; apply ended_zero end.
Qed.
End Theory.

(** * Examples *)

Definition phone (files : list (string * string)) (st : list (list string * Z)) : machine :=
  Machine ["/"; "/data"] files st.

Lemma run_in_debian_runs_witness :
  let σ := example [] (phone [] []) in
  ∃ st τ, script [("PATH", "/bin")] ["-p"; "/dev/sda1"; "ls"; "-l"] run_in_debian σ = (inl st, leave σ τ) ∧
    ran_in_debian σ "/bin" "/dev/sda1" "ls -l" st (trace τ).
Proof.
  exact (run_in_debian_runs [("PATH", "/bin")] ["-p"; "/dev/sda1"; "ls"; "-l"]
    [("DEVICE", "/dev/sda1")] ["ls"; "-l"] (example [] (phone [] [])) eq_refl).
Defined.

Lemma bootstrap_in_chroot_witness :
  let σ := example ["-p"; "/dev/sda1"] (phone [] []) in
  ∃ st τ, bootstrap_debian [] σ = (inl st, leave σ τ) ∧
    ran_in_debian σ "" "/dev/sda1" second_stage st (trace τ).
Proof.
  apply (bootstrap_in_chroot [] [("DEVICE", "/dev/sda1")] []
    (example ["-p"; "/dev/sda1"] (phone [] []))); [repeat constructor|reflexivity].
Defined.

Lemma option_d_ignored_witness :
  let σ := example [] (phone [] []) in
  script [] ["-d"; "buster"; "-p"; "/dev/sda1"] run_in_debian σ =
    script [] ["-p"; "/dev/sda1"] run_in_debian σ ∧
  script [] ["-d"; "buster"; "-p"; "/dev/sda1"] unpack_debian σ =
    script [] ["-p"; "/dev/sda1"] unpack_debian σ.
Proof.
  apply (option_d_ignored [] "buster" ["-p"; "/dev/sda1"] (example [] (phone [] []))).
  discriminate.
Defined.

(** A partition with a file, which is moreover not mounted. *)
Lemma unpack_unchecked_witness :
  let σ := example [] (phone [("/data/debian/precious", "")]
    [(["busybox"; "mount"; "/dev/block/mmcblk1p2"; "debian"], 32)]) in
  ∃ n st τ, script [] [] unpack_debian σ = (inl n, leave σ τ) ∧
    trace τ = [(mkdir_call "", 0); (mount_call "" "/dev/block/mmcblk1p2", 32); (tar_call "", st)].
Proof.
  eapply (unpack_unchecked [] [] [] [] (example [] (phone [("/data/debian/precious", "")]
    [(["busybox"; "mount"; "/dev/block/mmcblk1p2"; "debian"], 32)])));
    [reflexivity..|]. intros E. vm_compute in E. discriminate E.
Defined.
