(* ===== verification/BuildScripts.v ===== *)
(** * The scripts of the build, [scripts/] and [ramdisk/init]

    [check], with each of its functions, [pack-initrd], [qemubootstrap] and the [init]
    of the initial ramdisk, command by command in the shell of [Shell]. The theorems
    say which programs each of them runs, in which order and with which status, on any
    system: the downloads of [check packages], the archive that [pack-initrd] writes,
    that [qemubootstrap] unmounts what it mounted also after INT or TERM, and that [init]
    always hands over to the real init. *)
From stdpp Require Import base strings list.
From Stdlib Require Import Ascii Lia.
From S2P Require Import Prelude Shell.

Section Scripts.
Context {W : Type} `{System W}.
Local Abbreviation cmd := (sh W Z).
Local Open Scope sh_scope.

(** ** [scripts/check] *)

Definition missing : cmd :=
  (p ← arg 0; echo_err ["Missing program " +:+ p +:+ "."]);;
  if_then (p ← arg 1; test (negb (String.eqb p "")))
    (p ← arg 1; echo_err ["Please install " +:+ p +:+ "."]);;
  exit 1.

Definition deps : cmd :=
  or_else (exec ["which"; "sed"]) (call_function ["sed"] missing);;
  or_else (exec ["which"; "abootimg"]) (call_function ["abootimg"] missing);;
  or_else (exec ["which"; "tar"]) (call_function ["tar"] missing);;
  or_else (exec ["which"; "debootstrap"]) (call_function ["debootstrap"] missing).

Definition gcc : cmd :=
  assign "gcc" "arm-linux-gnueabihf-gcc";;
  redirect false "test-gcc.c" (with_input ("int main() {}" +:+ newline) (exec ["cat"]));;
  if_then (g ← var "gcc"; w ← expand g; silent (exec (w ++ ["test-gcc.c"; "-o"; "/dev/null"])))
    (exec ["rm"; "test-gcc.c"];;
     exit 0);;
  exec ["rm"; "test-gcc.c"];;
  (g ← var "gcc"; echo ["Could not find a compiler " +:+ g +:+ "."]);;
  exit 1.

Definition root : cmd :=
  if_then (id ← capture (exec ["id"; "-u"]); test (negb (String.eqb ("x" +:+ strip_newlines id) "x0")))
    (echo ["You are not running as root."];;
     exit 1).

Definition package_url (pkg version arch : string) : string :=
  "https://affenull2345.gitlab.io/bananian/packages-latest/" +:+ pkg +:+ "_" +:+ version +:+ "_" +:+
  arch +:+ ".deb".

(** The packages to download, in [PREBUILT]. *)
Definition choose_prebuilt : cmd :=
  if_else (silent (exec ["which"; "debuild"]))
    ((l ← expand_args;
      for_in "pkg" l
        (if_then (p ← var "pkg"; here ← get cwd; w ← get sys;
                  test (negb (is_directory (resolve here p) w)))
           (l ← var "PREBUILT"; p ← var "pkg"; assign "PREBUILT" (l +:+ " " +:+ p))));;
     if_then (l ← var "PREBUILT"; test (String.eqb l "")) (exit 0);;
     echo ["The following packages will be downloaded as binaries:"];;
     (l ← var "PREBUILT"; w ← expand l; echo w))
    (echo ["Program debuild is missing. Packages will be downloaded"; "as binaries from the Internet."];;
     (l ← all_args; assign "PREBUILT" l)).

(** The body of the loop over them. *)
Definition download : cmd :=
  (p ← var "pkg";
   if String.eqb p "device-startup" then assign "arch" "all" else assign "arch" "armhf");;
  (p ← var "pkg"; v ← var "VERSION"; a ← var "arch"; assign "PACKAGE_URL" (package_url p v a));;
  (u ← var "PACKAGE_URL"; exec ["wget"; "-c"; u]).

Definition packages : cmd :=
  choose_prebuilt;;
  or_else (exec ["which"; "wget"]) (call_function ["wget"] missing);;
  (l ← var "PREBUILT"; w ← expand l; for_in "pkg" w download).

(** [$@]: the name of a function or a program, and its arguments. *)
Definition check : cmd :=
  words ← expand_args;
  match words with
  | [] => ok
  | f :: args =>
      if String.eqb f "missing" then call_function args missing
      else if String.eqb f "deps" then call_function args deps
      else if String.eqb f "gcc" then call_function args gcc
      else if String.eqb f "root" then call_function args root
      else if String.eqb f "packages" then call_function args packages
      else exec words
  end.

(** ** [scripts/pack-initrd] *)

(** [cd $2]: without a word the directory [HOME], and words after the first are
    ignored. *)
Definition cd_words (l : list string) : cmd :=
  match l with
  | [] => h ← var "HOME"; cd h
  | d :: _ => cd d
  end.

Definition archive : cmd :=
  pipe (pipe (pipe
    (exec ["find"; "."])
    (exec ["grep"; "-vF"; ".gitignore"]))
    (exec ["cpio"; "-R"; "0:0"; "-o"; "-H"; "newc"]))
    (exec ["gzip"]).

Definition pack_initrd : cmd :=
  file ← arg 0;
  redirect false file (subshell (
    (d ← arg 1; w ← expand d; cd_words w);;
    archive)).

(** ** [scripts/qemubootstrap] *)

Definition second_stage_qemu : string :=
  "debootstrap/debootstrap --second-stage; cd /var/cache && dpkg -i *.deb && rm -f *.deb && adduser --gecos "
  +:+ dquote +:+ "Bananian User" +:+ dquote +:+ " user && adduser user sudo".

Definition in_debroot : cmd :=
  exec ["mount"; "-o"; "bind"; "/dev"; "debroot/dev"];;
  exec ["mount"; "-o"; "bind"; "/proc"; "debroot/proc"];;
  exec ["mount"; "-o"; "bind"; "/sys"; "debroot/sys"];;
  exec ["chroot"; "debroot"; "/bin/sh"; "-c"; second_stage_qemu].

(** [$0] is the variable [0]; the variables [env] are exported to [check], which is in
    the directory of the script. *)
Definition qemubootstrap (env : list (string * string)) : cmd :=
  or_else (exec ["which"; "qemu-arm-static"])
    (z ← var "0"; w ← expand z; capture (exec ("dirname" :: w)) ≫= λ _,
     script env ["missing"; "qemu-arm-static"; "qemu-user-static"] check);;
  trap_exit "umount debroot/dev debroot/proc debroot/sys";;
  trap_signals "exit 2";;
  in_debroot.

(** ** [ramdisk/init] *)

Definition bananian_log : string := "/data/bananian.log".

Definition init : cmd :=
  assign "PATH" "/sbin";;
  exec ["mount"; "-t"; "sysfs"; "sysfs"; "/sys"];;
  exec ["mount"; "-t"; "devtmpfs"; "devtmpfs"; "/dev"];;
  exec ["mount"; "-t"; "ext4"; "/dev/mmcblk0p32"; "/data"];;
  redirect true bananian_log (exec ["mount"; "-t"; "ext4"; "/dev/mmcblk1p2"; "/root"]);;
  redirect true bananian_log (exec ["mount"; "-t"; "devtmpfs"; "devtmpfs"; "/root/dev"]);;
  redirect true bananian_log (exec ["mount"; "-t"; "sysfs"; "sysfs"; "/root/sys"]);;
  redirect true bananian_log (exec ["mount"; "-t"; "procfs"; "procfs"; "/root/proc"]);;
  redirect true bananian_log (echo ["Mounted root"]);;
  (l ← expand_args; exec (["run-init"; "/root"; "/sbin/init"] ++ l)).
End Scripts.

Section Theory.
Context {W : Type} `{System W}.
Implicit Types σ τ : shell W.

(** * [check packages] *)

Definition arch_of (p : string) : string :=
  if String.eqb p "device-startup" then "all" else "armhf".

Definition which_call (here inp p : string) : call := Call here [] ["which"; p] inp.
Definition wget_call (here inp version p : string) : call :=
  Call here [] ["wget"; "-c"; package_url p version (arch_of p)] inp.

(** The packages that cannot be built: all of them without [debuild], and those
    without a directory otherwise. *)
Definition needed (here : string) (args : list string) (st : Z) (w : W) : list string :=
  if st =? 0 then filter (λ p, is_directory (resolve here p) w = false) args else args.

(** The ways in which it ends, with the programs it runs and its status. *)
Inductive packages_run (here inp version : string) (args : list string) (w : W) :
    list (call * Z) → Z → Prop :=
  | nothing_needed o w0 :
      spawn (which_call here inp "debuild") w = (0, o, w0) → needed here args 0 w0 = [] →
      packages_run here inp version args w [(which_call here inp "debuild", 0)] 0
  | no_wget st o w0 st1 o1 w1 :
      spawn (which_call here inp "debuild") w = (st, o, w0) →
      (st = 0 → needed here args st w0 ≠ []) →
      spawn (which_call here inp "wget") w0 = (st1, o1, w1) → st1 ≠ 0 →
      packages_run here inp version args w
        [(which_call here inp "debuild", st); (which_call here inp "wget", st1)] 1
  | downloaded st o w0 o1 w1 sts :
      spawn (which_call here inp "debuild") w = (st, o, w0) →
      (st = 0 → needed here args st w0 ≠ []) →
      spawn (which_call here inp "wget") w0 = (0, o1, w1) →
      length sts = length (needed here args st w0) →
      packages_run here inp version args w
        ([(which_call here inp "debuild", st); (which_call here inp "wget", 0)] ++
         zip (wget_call here inp version <$> needed here args st w0) sts)
        (default 0 (last sts)).

(** In the following no signal comes. *)
Section Downloads.
Context {Hq : Quiet (W := W)}.

(** The loop that collects the packages without a directory. *)
Lemma shwp_collect args v ps here inp o er tr w (Q : Z + Z → shell W → Prop) :
  Forall (λ s, plain s = true) args →
  (∀ st v',
    fields (value_of "PREBUILT" v') = fields (value_of "PREBUILT" v) ++ needed here args 0 w →
    (needed here args 0 w = [] → value_of "PREBUILT" v' = value_of "PREBUILT" v) →
    value_of "VERSION" v' = value_of "VERSION" v →
    Q (inl st) (Shell ps v' here false None None inp o er tr w)) →
  shwp (for_in "pkg" args
    (if_then (p ← var "pkg"; here ← get cwd; w ← get sys; test (negb (is_directory (resolve here p) w)))
      (l ← var "PREBUILT"; p ← var "pkg"; assign "PREBUILT" (l +:+ " " +:+ p)))) Q
    (Shell ps v here false None None inp o er tr w).
Proof.
  intros Hpl HQ.
  apply (shwp_for_in_inv (λ xs st τ, ∃ v', τ = Shell ps v' here false None None inp o er tr w ∧
    fields (value_of "PREBUILT" v') = fields (value_of "PREBUILT" v) ++ needed here xs 0 w ∧
    (needed here xs 0 w = [] → value_of "PREBUILT" v' = value_of "PREBUILT" v) ∧
    value_of "VERSION" v' = value_of "VERSION" v)).
  - exists v. split_and!; [done|by rewrite app_nil_r|done..].
  - by intros xs st τ (v' & -> & _).
  - intros xs p ys st τ -> (v' & -> & Ef & Hn & Ev). repeat sh_step.
    assert (plain p = true) as Hp by (rewrite Forall_app, Forall_cons in Hpl; tauto).
    unfold needed in *. cbn [Z.eqb] in *. rewrite filter_app, filter_cons, filter_nil.
    destruct (is_directory (resolve here p) w) eqn:Ed; sh_cbn; repeat sh_step.
    + eexists. split; [done|]. eexists. split; [done|]. cbn. rewrite app_nil_r. eauto.
    + eexists. split; [done|]. eexists. split; [done|]. cbn.
      change (?s +:+ " " +:+ ?t) with (s +:+ String " " t). rewrite fields_blank, Ef, (plain_fields p) by done.
      rewrite <- app_assoc. split_and!; [done| |done]. by intros [_ ?]%app_nil.
  - intros st τ (v' & -> & ? & ? & ?). by apply HQ.
Qed.

(** The loop that downloads them. *)
Lemma shwp_downloads l v ps here inp o er tr w (Q : Z + Z → shell W → Prop) :
  (∀ sts v' o' w', length sts = length l →
    Q (inl (default 0 (last sts))) (Shell ps v' here false None None inp o' er
      (tr ++ zip (wget_call here inp (value_of "VERSION" v) <$> l) sts) w')) →
  shwp (for_in "pkg" l download) Q (Shell ps v here false None None inp o er tr w).
Proof.
  intros HQ.
  apply (shwp_for_in_inv (λ xs st τ, ∃ sts v' o' w',
    τ = Shell ps v' here false None None inp o' er
      (tr ++ zip (wget_call here inp (value_of "VERSION" v) <$> xs) sts) w' ∧
    length sts = length xs ∧ st = default 0 (last sts) ∧ value_of "VERSION" v' = value_of "VERSION" v)).
  - exists [], v, o, w. split_and!; [by rewrite app_nil_r|done..].
  - by intros xs st τ (sts & v' & o' & w' & -> & _).
  - intros xs p ys st τ -> (sts & v' & o' & w' & -> & Hlen & -> & Ev). unfold download.
    do 3 sh_step.
    assert (∀ R, R (inl 0) (Shell ps (("arch", arch_of p) :: ("pkg", p) :: v') here false None None inp o' er
      (tr ++ zip (wget_call here inp (value_of "VERSION" v) <$> xs) sts) w') →
      shwp (if String.eqb p "device-startup" then assign "arch" "all" else assign "arch" "armhf") R
        (Shell ps (("pkg", p) :: v') here false None None inp o' er
      (tr ++ zip (wget_call here inp (value_of "VERSION" v) <$> xs) sts) w')) as Harch.
    { intros R HR. unfold arch_of in HR. by destruct (String.eqb p "device-startup"). }
    apply Harch. sh_cbn. repeat sh_step. eexists. split; [done|].
    exists (sts ++ [st]). do 3 eexists. split_and!.
    + f_equal. rewrite <- app_assoc. f_equal.
      rewrite fmap_app, zip_with_app by (by rewrite length_fmap). cbn. by rewrite Ev.
    + rewrite !length_app. cbn. lia.
    + by rewrite last_snoc.
    + done.
  - intros st τ (sts & v' & o' & w' & -> & ? & -> & ?). by apply HQ.
Qed.

(** From the choice of the packages on. *)
Lemma shwp_fetch l v ps here inp o er tr w (Q : Z + Z → shell W → Prop) :
  fields (value_of "PREBUILT" v) = l → Forall (λ s, plain s = true) l →
  (∀ st1 o1 w1, spawn (which_call here inp "wget") w = (st1, o1, w1) →
    (∀ τ, st1 ≠ 0 → exit_trap τ = None → trace τ = tr ++ [(which_call here inp "wget", st1)] →
      Q (inr 1) τ) ∧
    (∀ sts τ, st1 = 0 → length sts = length l → exit_trap τ = None →
      trace τ = tr ++ (which_call here inp "wget", 0) ::
        zip (wget_call here inp (value_of "VERSION" v) <$> l) sts →
      Q (inl (default 0 (last sts))) τ)) →
  shwp (seq (or_else (exec ["which"; "wget"]) (call_function ["wget"] missing))
    (l ← var "PREBUILT"; w ← expand l; for_in "pkg" w download)) Q
    (Shell ps v here false None None inp o er tr w).
Proof.
  intros Hf Hl HQ. do 3 sh_step. destruct (HQ _ _ _ H0) as [Hno Hyes].
  destruct (Z.eqb_spec st 0) as [->|Hst]; sh_cbn.
  - do 3 sh_step. eapply shwp_expand_fields; [exact Hf|done|]. sh_cbn.
    apply shwp_downloads. intros sts v' o' w' Hlen. apply Hyes; [done..|]. cbn. by rewrite <- app_assoc.
  - unfold missing. repeat sh_step. by apply Hno.
Qed.

Lemma needed_plain here args st (w : W) :
  Forall (λ s, plain s = true) args → Forall (λ s, plain s = true) (needed here args st w).
Proof.
  rewrite !Forall_forall. unfold needed. intros Hp s. case_match; [|apply Hp].
  rewrite list_elem_of_filter. intros [_ ?]. by apply Hp.
Qed.

Lemma packages_wp args v here inp o er tr w (Q : Z + Z → shell W → Prop) :
  Forall (λ s, plain s = true) args → value_of "PREBUILT" v = "" →
  (∀ r τ tr', exit_trap τ = None → trace τ = tr ++ tr' →
    packages_run here inp (value_of "VERSION" v) args w tr' (status_of r) → Q r τ) →
  shwp packages Q (Shell args v here false None None inp o er tr w).
Proof.
  intros Hpl Hpre HQ. unfold packages, choose_prebuilt. do 4 sh_step.
  destruct (Z.eqb_spec st 0) as [->|Hst]; sh_cbn.
  - do 2 sh_step. apply shwp_expand_args; [done|]. sh_cbn.
    apply shwp_collect; [done|]. intros st v' Ef Hn Ev. rewrite Hpre in *. cbn in Ef.
    change (filter _ args) with (needed here args 0 w0) in Ef. sh_cbn. repeat sh_step.
    destruct (String.eqb_spec (value_of "PREBUILT" v') "") as [E0|Hne]; sh_cbn; repeat sh_step.
    + apply (HQ _ _ [(which_call here inp "debuild", 0)]); [done..|].
      eapply nothing_needed; [done|]. by rewrite <- Ef, E0.
    + eapply shwp_expand_fields; [exact Ef|by apply needed_plain|]. sh_cbn. sh_step.
      eapply shwp_fetch; [exact Ef|by apply needed_plain|]. rewrite Ev. intros st1 o1 w1 E1. split.
      * intros τ Hst1 ? Etr. eapply HQ; [done|by rewrite Etr, <- app_assoc|]. by eapply no_wget; eauto.
      * intros sts τ -> Hlen ? Etr. eapply HQ; [done|by rewrite Etr, <- app_assoc|].
        by eapply (downloaded _ _ _ _ _ 0); eauto.
  - do 5 sh_step. apply Z.eqb_neq in Hst as Eq.
    assert (needed here args st w0 = args) as En by (unfold needed; by rewrite Eq).
    eapply shwp_fetch; [by apply concat_fields|done|]. cbn. intros st1 o1 w1 E1. split.
    + intros τ Hst1 ? Etr. eapply HQ; [done|by rewrite Etr, <- app_assoc|]. by eapply no_wget; eauto.
    + intros sts τ -> Hlen ? Etr. eapply HQ; [done|by rewrite Etr, <- app_assoc|].
      rewrite <- En at 2. eapply downloaded; eauto. by rewrite En.
Qed.

(** [check packages] downloads, with [wget], each package that has no directory of
    its own to be built in, or every one where [debuild] is missing, in their order,
    for the right architecture and version; its status is that of the last download,
    so that the failure of another one is not noticed. *)
Theorem packages_downloads env args σ :
  Forall (λ s, plain s = true) args → value_of "PREBUILT" env = "" →
  ∃ st τ, script env ("packages" :: args) check σ = (inl st, leave σ τ) ∧
    ∃ tr, trace τ = trace σ ++ tr ∧
      packages_run (cwd σ) (input σ) (value_of "VERSION" env) args (sys σ) tr st.
Proof.
  intros Hpl Hpre. apply (script_wp _ _ _ (λ st τ, ∃ tr, trace τ = trace σ ++ tr ∧
    packages_run (cwd σ) (input σ) (value_of "VERSION" env) args (sys σ) tr st)).
  destruct σ as [ps vs0 here ee et st inp o er tr w]. unfold check. cbn. sh_step.
  apply shwp_expand_args; [by constructor|]. sh_cbn. sh_step.
  apply packages_wp; [done..|]. intros r τ tr' Ht Etr Hrun. destruct τ. cbn in *. eauto.
Qed.

End Downloads.

(** * [qemubootstrap] *)

Definition qemu_programs : list (list string) :=
  [["mount"; "-o"; "bind"; "/dev"; "debroot/dev"];
   ["mount"; "-o"; "bind"; "/proc"; "debroot/proc"];
   ["mount"; "-o"; "bind"; "/sys"; "debroot/sys"];
   ["chroot"; "debroot"; "/bin/sh"; "-c"; second_stage_qemu]].
Definition umount_call (here inp : string) : call :=
  Call here [] ["umount"; "debroot/dev"; "debroot/proc"; "debroot/sys"] inp.

(** The programs run before the traps are set; [zero] is the name of the script. *)
Inductive qemu_searched (here inp zero : string) (w : W) : list (call * Z) → W → Prop :=
  | qemu_found o w' :
      spawn (which_call here inp "qemu-arm-static") w = (0, o, w') → interrupted w' = None →
      qemu_searched here inp zero w [(which_call here inp "qemu-arm-static", 0)] w'
  | qemu_missing st o w1 d o' w' :
      let dirname := Call here [] ("dirname" :: (fields zero ≫= λ f, glob here f w1)) inp in
      spawn (which_call here inp "qemu-arm-static") w = (st, o, w1) → interrupted w1 = None → st ≠ 0 →
      spawn dirname w1 = (d, o', w') →
      qemu_searched here inp zero w [(which_call here inp "qemu-arm-static", st); (dirname, d)] w'.

(** Programs that are run one after the other, whatever their statuses, until a signal comes,
    with the status of the last, or the signal. *)
Inductive ran_all (here inp : string) : list (list string) → W → list (call * Z) → Z + signal → Prop :=
  | ran_last argv w st o w' :
      spawn (Call here [] argv inp) w = (st, o, w') → interrupted w' = None →
      ran_all here inp [argv] w [(Call here [] argv inp, st)] (inl st)
  | ran_next argv rest w st o w' tr e :
      spawn (Call here [] argv inp) w = (st, o, w') → interrupted w' = None →
      ran_all here inp rest w' tr e →
      ran_all here inp (argv :: rest) w ((Call here [] argv inp, st) :: tr) e
  | ran_signal argv rest w st o w' s :
      spawn (Call here [] argv inp) w = (st, o, w') → interrupted w' = Some s →
      ran_all here inp (argv :: rest) w [(Call here [] argv inp, st)] (inr s).

(** The states in which a shell with these traps ends. *)
Definition trapped_end (t : string) (here inp : string) (e : Z + signal) (r : Z + Z) (τ : shell W) : Prop :=
  cwd τ = here ∧ input τ = inp ∧
  match e with
  | inl st => status_of r = st ∧ exit_trap τ = Some t
  | inr HUP => status_of r = 129 ∧ exit_trap τ = None
  | inr _ => status_of r = 2 ∧ exit_trap τ = Some t
  end.

Lemma trapped_last v ps here inp o er tr w t a argv (Q : Z + Z → shell W → Prop) :
  (∀ tr' e r τ, ran_all here inp [a :: argv] w tr' e → trace τ = tr ++ tr' → trapped_end t here inp e r τ → Q r τ) →
  shwp (exec (a :: argv)) Q (Shell ps v here false (Some t) (Some "exit 2") inp o er tr w).
Proof.
  intros HQ. eapply shwp_exec_trap; [done..|]. intros st o' w' E. cbn in E. cbn.
  destruct (interrupted w') as [[]|] eqn:Ei; (eapply HQ; [by econstructor|done|done]).
Qed.

Lemma trapped_next v ps here inp o er tr w t a argv rest c (Q : Z + Z → shell W → Prop) :
  (∀ tr' e r τ, ran_all here inp ((a :: argv) :: rest) w tr' e → trace τ = tr ++ tr' →
    trapped_end t here inp e r τ → Q r τ) →
  (∀ o tr w (Q : Z + Z → shell W → Prop),
    (∀ tr' e r τ, ran_all here inp rest w tr' e → trace τ = tr ++ tr' → trapped_end t here inp e r τ → Q r τ) →
    shwp c Q (Shell ps v here false (Some t) (Some "exit 2") inp o er tr w)) →
  shwp (seq (exec (a :: argv)) c) Q (Shell ps v here false (Some t) (Some "exit 2") inp o er tr w).
Proof.
  intros HQ Hc. apply shwp_seq. eapply shwp_exec_trap; [done..|]. intros st o' w' E. cbn in E. cbn.
  destruct (interrupted w') as [[]|] eqn:Ei; try (eapply HQ; [by econstructor|done|done]).
  apply Hc. intros tr' e r τ Hran Etr He. eapply HQ; [by eapply ran_next| |exact He]. by rewrite Etr, <- app_assoc.
Qed.

Lemma in_debroot_wp v ps here inp o er tr w t (Q : Z + Z → shell W → Prop) :
  (∀ tr' e r τ, ran_all here inp qemu_programs w tr' e → trace τ = tr ++ tr' → trapped_end t here inp e r τ → Q r τ) →
  shwp in_debroot Q (Shell ps v here false (Some t) (Some "exit 2") inp o er tr w).
Proof.
  intros HQ. unfold in_debroot. do 3 (eapply trapped_next; [done|]; clear; intros o tr w Q HQ).
  by apply trapped_last.
Qed.

(** The report of [check] on the missing program runs no program. *)
Lemma check_missing_run env l (σ : shell W) :
  Forall (λ s, plain s = true) l →
  ∃ st τ, script env ("missing" :: l) check σ = (inl st, leave σ τ) ∧
    st = 1 ∧ trace τ = trace σ ∧ sys τ = sys σ ∧ out τ = out σ.
Proof.
  intros Hl. apply (script_wp _ _ _ (λ st τ, st = 1 ∧ trace τ = trace σ ∧ sys τ = sys σ ∧ out τ = out σ)).
  destruct σ as [ps vs0 here ee et st inp o er tr w]. unfold check. cbn. sh_step.
  apply shwp_expand_args; [by constructor|]. sh_cbn. sh_step. unfold missing. repeat sh_step.
  match goal with |- context [negb ?b] => destruct b end; sh_cbn; by repeat sh_step.
Qed.

(** How the script may end. *)
Inductive qemu_run (here inp zero : string) (w : W) : list (call * Z) → Z → Prop :=
  | killed_early st o w' s :
      spawn (which_call here inp "qemu-arm-static") w = (st, o, w') → interrupted w' = Some s →
      qemu_run here inp zero w [(which_call here inp "qemu-arm-static", st)] (128 + signal_number s)
  | unmounted pre w1 tr e u st :
      qemu_searched here inp zero w pre w1 → ran_all here inp qemu_programs w1 tr e →
      match e with inl n => st = n | inr s => s ≠ HUP ∧ st = 2 end →
      qemu_run here inp zero w (pre ++ tr ++ [(umount_call here inp, u)]) st
  | hung_up pre w1 tr :
      qemu_searched here inp zero w pre w1 → ran_all here inp qemu_programs w1 tr (inr HUP) →
      qemu_run here inp zero w (pre ++ tr) 129.

(** C15: [qemubootstrap] ends by unmounting what it mounted into [debroot], whether
    the second stage fails or INT or TERM comes during any of its programs, and its
    status is that of the second stage, or 2 after such a signal. The exceptions are a signal
    before the traps are set, when nothing has been mounted, and HUP, for which there is no
    trap, so that the mounts stay. That [qemu-arm-static] is missing is
    reported but does not keep it from going on. *)
Theorem qemu_unmounts env env' args σ :
  ∃ st τ, script env args (qemubootstrap env') σ = (inl st, leave σ τ) ∧
    ∃ tr, trace τ = trace σ ++ tr ∧ qemu_run (cwd σ) (input σ) (value_of "0" env) (sys σ) tr st.
Proof.
  apply (script_trap_wp _ _ _ (λ st τ, ∃ tr, trace τ = trace σ ++ tr ∧ qemu_run (cwd σ) (input σ) (value_of "0" env) (sys σ) tr st)).
  destruct σ as [ps vs0 here ee et st inp o er tr w]. unfold qemubootstrap. cbn.
  match goal with |- shwp _ ?Q0 _ => set (Q := Q0) end.
  assert (∀ pre v o er w', qemu_searched here inp (value_of "0" env) w pre w' →
    shwp (seq (trap_exit "umount debroot/dev debroot/proc debroot/sys")
      (seq (trap_signals "exit 2") in_debroot)) Q
      (Shell args v here false None None inp o er (tr ++ pre) w')) as Hin.
  { intros pre v o' er' w' Hpre. sh_step. red. cbn. sh_step. red. cbn. apply in_debroot_wp.
    intros tr' e r τ Hran Etr (Ec & Ei & He). unfold Q. destruct τ. cbn in *. subst.
    destruct e as [n|[]], He as [Er ->]; cbn.
    2: { exists (pre ++ tr'). rewrite <- app_assoc, Er. split; [done|]. by eapply hung_up. }
    all: split; [done|]; intros u o1 w1 _; exists (pre ++ tr' ++ [(umount_call here inp, u)]);
      rewrite <- !app_assoc, Er; split; [done|]; by eapply unmounted. }
  sh_step. sh_step. apply shwp_exec_signals; [done|]. intros st' o1 w1 E1. cbn in E1. sh_cbn.
  destruct (interrupted w1) as [s|] eqn:Ei; sh_cbn.
  { unfold Q. cbn. eexists. split; [done|]. by eapply killed_early. }
  destruct (Z.eqb_spec st' 0) as [->|Hst]; sh_cbn; [apply Hin; by eapply qemu_found|].
  do 2 sh_step. apply shwp_bind, shwp_expand. sh_cbn. sh_step. apply shwp_capture. cbn.
  apply shwp_exec_signals; [done|]. intros d o2 w2 E2. cbn in E2. sh_cbn.
  destruct (interrupted w2); sh_cbn.
  all: eapply shwp_script; [apply check_missing_run; repeat constructor|].
  all: intros n τ (_ & Etr & Es & Eo); destruct τ; cbn in *; subst.
  all: rewrite <- app_assoc; apply Hin; by eapply qemu_missing.
Qed.

(** * [pack-initrd] *)

Section Quietly.
Context {Hq : Quiet (W := W)}.

(** The directory that is packed. *)
Definition packed_dir (here dir : string) (w : W) : string :=
  if chdir (resolve here dir) w =? 0 then resolve here dir else here.

Lemma archive_wp v ps d inp er tr w (Q : Z + Z → shell W → Prop) :
  (let run argv i := Call d [] argv i in
   ∀ s1 o1 w1 s2 o2 w2 s3 o3 w3 s4 o4 w4 tr4,
    spawn (run ["find"; "."] inp) w = (s1, o1, w1) →
    spawn (run ["grep"; "-vF"; ".gitignore"] o1) w1 = (s2, o2, w2) →
    spawn (run ["cpio"; "-R"; "0:0"; "-o"; "-H"; "newc"] o2) w2 = (s3, o3, w3) →
    spawn (run ["gzip"] o3) w3 = (s4, o4, w4) →
    Q (inl s4) (Shell ps v d false None None inp o4 er tr4 w4)) →
  shwp archive Q (Shell ps v d false None None inp "" er tr w).
Proof.
  cbv zeta. intros HQ. unfold archive. do 3 (apply shwp_pipe, shwp_capture; cbn).
  repeat sh_step. eapply HQ; done.
Qed.

(** [pack-initrd] writes to its first argument what [gzip] makes of the archive
    that [cpio] makes of the names that [grep] leaves of those that [find] prints in
    the directory, or in the current one where the directory cannot be entered; it runs
    nothing where the file cannot be written, and its status is that of [gzip]. *)
Theorem pack_initrd_archive env file dir σ :
  plain dir = true →
  ∃ st τ, script env [file; dir] pack_initrd σ = (inl st, leave σ τ) ∧
    match open_output false (resolve (cwd σ) file) (sys σ) with
    | None => st = 1 ∧ trace τ = trace σ ∧ sys τ = sys σ
    | Some w =>
        let run argv i := Call (packed_dir (cwd σ) dir w) [] argv i in
        ∃ s1 o1 w1 s2 o2 w2 s3 o3 w3 o4 w4,
          spawn (run ["find"; "."] (input σ)) w = (s1, o1, w1) ∧
          spawn (run ["grep"; "-vF"; ".gitignore"] o1) w1 = (s2, o2, w2) ∧
          spawn (run ["cpio"; "-R"; "0:0"; "-o"; "-H"; "newc"] o2) w2 = (s3, o3, w3) ∧
          spawn (run ["gzip"] o3) w3 = (st, o4, w4) ∧
          sys τ = emit (resolve (cwd σ) file) o4 w4
    end.
Proof.
  intros Hd. apply (script_wp _ _ _ (λ st τ, _)).
  destruct σ as [ps vs0 here ee et st inp o er tr w]. unfold pack_initrd. cbn. do 2 sh_step.
  apply shwp_redirect; cbn.
  { intros ->. done. }
  intros w0 ->. apply shwp_subshell. cbn. do 4 sh_step. apply shwp_expand_plain; [done|]. cbn.
  set (Q := λ r σ', exit_trap _ = None ∧ _).
  assert (∀ d, d = packed_dir here dir w0 →
    shwp archive Q (Shell [file; dir] env d false None None inp "" er tr w0)) as Hin.
  { intros d ->. apply archive_wp. intros. unfold Q. cbn. split; [done|]. by do 11 eexists. }
  apply shwp_cd; cbn; [intros E|intros st' E Hne]; apply Hin;
    unfold packed_dir; destruct (Z.eqb_spec (chdir (resolve here dir) w0) 0); congruence.
Qed.

(** * [init] of the initial ramdisk *)

Definition early_mounts : list (list string) :=
  [["mount"; "-t"; "sysfs"; "sysfs"; "/sys"];
   ["mount"; "-t"; "devtmpfs"; "devtmpfs"; "/dev"];
   ["mount"; "-t"; "ext4"; "/dev/mmcblk0p32"; "/data"]].
Definition root_mounts : list (list string) :=
  [["mount"; "-t"; "ext4"; "/dev/mmcblk1p2"; "/root"];
   ["mount"; "-t"; "devtmpfs"; "devtmpfs"; "/root/dev"];
   ["mount"; "-t"; "sysfs"; "sysfs"; "/root/sys"];
   ["mount"; "-t"; "procfs"; "procfs"; "/root/proc"]].

(** A program whose output goes to the log is run if the log can be opened. *)
Lemma shwp_logged a argv ps v here inp o er tr w (Q : Z + Z → shell W → Prop) :
  (open_output true (resolve here bananian_log) w = None →
    Q (inl 1) (Shell ps v here false None None inp o er tr w)) →
  (∀ st w', Q (inl st) (Shell ps v here false None None inp o er
    (tr ++ [(Call here [] (a :: argv) inp, st)]) w')) →
  shwp (redirect true bananian_log (exec (a :: argv))) Q
    (Shell ps v here false None None inp o er tr w).
Proof. intros Hn Hs. apply shwp_redirect; cbn -[resolve]; [done|]. intros w' _. sh_step. apply Hs. Qed.

Lemma shwp_logged_all ms k ps v here inp o er tr w (Q : Z + Z → shell W → Prop) :
  let run argv := Call here [] argv inp in
  Forall (λ m, m ≠ []) ms →
  (∀ tr' w', tr'.*1 `sublist_of` (run <$> ms) →
    ((∀ w, open_output true (resolve here bananian_log) w ≠ None) → tr'.*1 = run <$> ms) →
    shwp k Q (Shell ps v here false None None inp o er (tr ++ tr') w')) →
  shwp (foldr (λ m k, seq (redirect true bananian_log (exec m)) k) k ms) Q
    (Shell ps v here false None None inp o er tr w).
Proof.
  intros run Hms. revert tr w. induction Hms as [|m ms Hm _ IH]; intros tr w Hk.
  { specialize (Hk [] w). rewrite app_nil_r in Hk. by apply Hk. }
  destruct m as [|a argv]; [done|]. cbn [foldr]. sh_step. apply shwp_logged; cbn.
  - intros Hno. apply IH. intros tr' w' Hsub Hall. apply Hk; [by apply sublist_cons|].
    intros Hopen. by destruct (Hopen w).
  - intros st w0. apply IH. intros tr' w' Hsub Hall. rewrite <- app_assoc. apply Hk; cbn.
    + by apply sublist_skip.
    + intros Hopen. by rewrite Hall.
Qed.

(** [init] runs the first three mounts, then those for the root file system in their
    order, each unless the log cannot be opened for it, and always ends by handing over
    to [run-init] with the arguments of the kernel; no failure keeps it from that. *)
Theorem init_hands_over env args σ :
  Forall (λ s, plain s = true) args →
  let run argv := Call (cwd σ) [] argv (input σ) in
  ∃ st τ, script env args init σ = (inl st, leave σ τ) ∧
    ∃ sts tr, trace τ = trace σ ++ zip (run <$> early_mounts) sts ++ tr ++
        [(run (["run-init"; "/root"; "/sbin/init"] ++ args), st)] ∧
      length sts = 3%nat ∧ tr.*1 `sublist_of` (run <$> root_mounts) ∧
      ((∀ w, open_output true (resolve (cwd σ) bananian_log) w ≠ None) → tr.*1 = run <$> root_mounts).
Proof.
  intros Hpl run. apply (script_wp _ _ _ (λ st τ, ∃ sts tr, _)).
  destruct σ as [ps vs0 here ee et st inp o er tr w]. unfold init. cbn -[early_mounts root_mounts zip].
  do 8 (sh_step; cbn -[early_mounts root_mounts zip]). set (Q := λ r τ, exit_trap _ = None ∧ _).
  match goal with |- shwp (seq _ (seq _ (seq _ (seq _ ?rest)))) _ ?σ =>
    change (shwp (foldr (λ m k, seq (redirect true bananian_log (exec m)) k) rest root_mounts) Q σ) end.
  apply shwp_logged_all; [by repeat constructor|]. intros tr' w' Hsub Hall. sh_step.
  assert (∀ w'', shwp (l ← expand_args; exec (["run-init"; "/root"; "/sbin/init"] ++ l)) Q
    (Shell args (("PATH", "/sbin") :: env) here false None None inp (((o +:+ o0) +:+ o1) +:+ o2) er
      ((((tr ++ [(run ["mount"; "-t"; "sysfs"; "sysfs"; "/sys"], st0)]) ++
        [(run ["mount"; "-t"; "devtmpfs"; "devtmpfs"; "/dev"], st1)]) ++
        [(run ["mount"; "-t"; "ext4"; "/dev/mmcblk0p32"; "/data"], st2)]) ++ tr') w'')) as Hlast.
  { intros w''. sh_step. apply shwp_expand_args; [done|]. cbn. sh_step. split; [done|].
    exists [st0; st1; st2], tr'. by rewrite <- !app_assoc. }
  apply shwp_redirect; cbn; [intros _; apply Hlast|]. intros w'' _. sh_step. apply Hlast.
Qed.
End Quietly.
End Theory.

(** * Examples *)

(** A build machine with the directory of one package. *)
Definition builder (st : list (list string * Z)) : machine := Machine ["/"; "//bananui-base"] [] st.

Lemma packages_downloads_witness :
  let σ := example [] (builder []) in
  ∃ st τ, script [("VERSION", "0.1")] ["packages"; "bananui-base"; "device-startup"] check σ =
      (inl st, leave σ τ) ∧
    ∃ tr, trace τ = tr ∧
      packages_run "/" "" "0.1" ["bananui-base"; "device-startup"] (builder []) tr st.
Proof.
  apply (packages_downloads [("VERSION", "0.1")] ["bananui-base"; "device-startup"]
    (example [] (builder []))); [repeat constructor|reflexivity].
Defined.

Lemma pack_initrd_archive_witness :
  let σ := example [] (Machine ["/"; "//ramdisk"] [] [(["gzip"], 3)]) in
  ∃ τ, script [] ["initrd.img"; "ramdisk"] pack_initrd σ = (inl 3, leave σ τ) ∧
    m_files (sys τ) = [("//initrd.img", "")].
Proof.
  destruct (pack_initrd_archive [] "initrd.img" "ramdisk"
    (example [] (Machine ["/"; "//ramdisk"] [] [(["gzip"], 3)])) eq_refl)
    as (st & τ & E & s1 & o1 & w1 & s2 & o2 & w2 & s3 & o3 & w3 & o4 & w4 & E1 & E2 & E3 & E4 & Es).
  vm_compute in E1. injection E1 as <- <- <-. vm_compute in E2. injection E2 as <- <- <-.
  vm_compute in E3. injection E3 as <- <- <-. vm_compute in E4. injection E4 as <- <- <-.
  exists τ. split; [exact E|]. rewrite Es. reflexivity.
Defined.

Lemma init_hands_over_witness :
  let σ := example [] (Machine ["/"] [] []) in
  let run argv := Call "/" [] argv "" in
  ∃ st τ, script [] ["quiet"] init σ = (inl st, leave σ τ) ∧
    ∃ sts tr, trace τ = zip (run <$> early_mounts) sts ++ tr ++
        [(run ["run-init"; "/root"; "/sbin/init"; "quiet"], st)] ∧
      length sts = 3%nat ∧ tr.*1 `sublist_of` (run <$> root_mounts) ∧
      ((∀ w : machine, open_output true (resolve "/" bananian_log) w ≠ None) → tr.*1 = run <$> root_mounts).
Proof.
  apply (init_hands_over [] ["quiet"] (example [] (Machine ["/"] [] []))). repeat constructor.
Defined.
