(* ===== verification/Makefile.v ===== *)
(** * The makefile of the installer, [Makefile]

    The rules of the makefile, with their recipes as commands of [Shell], and the part
    of GNU make that they use: explicit and pattern rules, double-colon rules, the
    comparison of modification times, and that a failing line ends everything. The
    built-in rules of make, for which the tree has no files, are left out.

    The recursion of make over the prerequisites has a depth as fuel, which is enough for
    every target ([make_enough]), and the programs of the recipes are functions, so that
    nothing is said of programs that do not end. The values of [MIRROR], [EXTRA_PACKAGES] and
    [VERSION] are taken to have no characters that mean something to the shell but blanks.

    The theorems: the phone is not touched before the checks and all recipes of the build
    have succeeded or were not needed, and how far the installation goes then; and where a
    second run of make fails for no reason. *)
From stdpp Require Import base strings list.
From Stdlib Require Import Ascii Lia.
From S2P Require Import Prelude Shell ShellRuns BuildScripts.

(** The modification time of a file, [None] where there is none. *)
Class FileTimes (W : Type) := { mtime : string → W → option Z }.

(** The variables of the makefile that the user or the environment sets. *)
Record config := {
  USE_QEMU : string;
  VERSION : string;
  EXTRA_PACKAGES : string;
  MIRROR : string;
  environment : list (string * string);
}.

Section Makefile.
Context {W : Type} `{System W} `{FileTimes W}.
Local Abbreviation cmd := (sh W Z).
Local Open Scope sh_scope.

Record rule := Rule {
  prereqs : list string;
  always : bool;          (* a double-colon rule without prerequisites *)
  recipe : list cmd;
}.

Variable cfg : config.

(** ** Variables *)

Definition use_qemu : bool := String.eqb (USE_QEMU cfg) "1".
Definition OUTPUTS : list string := ["initrd.img"; "boot.img"; "debroot"; "debroot.tar"].
Definition DEFAULT_PACKAGES : string :=
  "openssh-server,vim,wpasupplicant,man-db,busybox,sudo," +:+ EXTRA_PACKAGES cfg.
Definition bananui_deb : string := "bananui-base_" +:+ VERSION cfg +:+ "_armhf.deb".
Definition startup_deb : string := "device-startup_" +:+ VERSION cfg +:+ "_all.deb".
Definition DEBS : list string := [bananui_deb; startup_deb].

(** [VERSION] is exported. *)
Definition exported : list (string * string) := ("VERSION", VERSION cfg) :: environment cfg.

(** ** Recipes *)

Definition debuild_in (dir : string) : cmd :=
  subshell (cd dir;; exec ["debuild"; "--no-lintian"; "-us"; "-uc"; "-aarmhf"]).

Definition check_recipe : list cmd :=
  [script exported ["packages"; "bananui-base"; "device-startup"] check;
   script exported ["root"] check;
   script exported ["deps"] check;
   script exported ["gcc"] check].

Definition bananui_recipe : list cmd :=
  [redirect false "bananui-base/.version" (echo [VERSION cfg]);
   debuild_in "bananui-base"].

Definition initrd_recipe : list cmd :=
  [exec ["rm"; "-f"; "initrd.img"];
   script exported ["initrd.img"; "ramdisk"] pack_initrd].

Definition bootimg_recipe : list cmd :=
  [exec ["abootimg"; "--create"; "boot.img"; "-f"; "bootimg.cfg"; "-k"; "zImage"; "-r"; "initrd.img"]].

Definition debroot_recipe : list cmd :=
  [exec ["rm"; "-rf"; "debroot"];
   or_else
     (exec (["debootstrap"] ++ fields ("--include=" +:+ DEFAULT_PACKAGES) ++
        ["--arch"; "armhf"; "--foreign"; "buster"; "debroot/"] ++ fields (MIRROR cfg)))
     (exec ["rm"; "-rf"; "debroot"])].

Definition wpa_conf : string := "debroot/etc/wpa_supplicant.conf".

Definition wpa_template : cmd :=
  and_then (and_then (and_then (and_then
    (here ← get cwd; w ← get sys; test (negb (is_regular (resolve here wpa_conf) w)))
    (redirect true wpa_conf (echo ["network={"])))
    (redirect true wpa_conf (echo ["    ssid=" +:+ dquote +:+ "SSID" +:+ dquote])))
    (redirect true wpa_conf (echo ["    psk=" +:+ dquote +:+ "PSK" +:+ dquote])))
    (redirect true wpa_conf (echo ["}"])).

Definition copy_files_recipe : list cmd :=
  [wpa_template;
   exec ["editor"; wpa_conf];
   exec ["mkdir"; "-p"; "debroot/lib/modules/"];
   exec ["rm"; "-rf"; "debroot/lib/modules/3.10.49-bananian+"];
   exec ["cp"; "-rf"; "modules"; "debroot/lib/modules/3.10.49-bananian+"];
   exec (["cp"; "-f"] ++ DEBS ++ ["debroot/var/cache"])].

Definition debroot_tar_recipe : list cmd :=
  [exec ["rm"; "-f"; "debroot.tar"];
   subshell (cd "debroot";;
     (l ← expand "*"; exec (["tar"; "cvf"; "../debroot.tar"; "--exclude=.gitignore"] ++ l)));
   echo ["Now you can execute the commands from README.md."]].

Definition install_recipe : list cmd :=
  [exec ["adb"; "wait-for-device"];
   exec ["adb"; "push"; "debroot.tar"; "/data"];
   exec ["adb"; "push"; "boot.img"; "/data"];
   (l ← expand "on-device-scripts/*.sh"; exec (["adb"; "push"] ++ l ++ ["/data"]));
   exec ["adb"; "shell"; "/data/install-bootimage.sh"];
   exec ["adb"; "shell"; "/data/unpack-debian.sh"]] ++
  (if use_qemu then [] else [exec ["adb"; "shell"; "/data/bootstrap-debian.sh"]]) ++
  [exec ["adb"; "shell"; "rm"; "/data/install-bootimage.sh"; "/data/unpack-debian.sh";
         "/data/bootstrap-debian.sh"]].

Definition clean_recipe : list cmd :=
  [(l ← expand "*.deb"; exec (["rm"; "-rf"] ++ l ++ OUTPUTS))].

(** ** Rules *)

(** The explicit rule of a target. *)
Definition explicit (t : string) : option rule :=
  if String.eqb t "all" then Some (Rule ("check" :: OUTPUTS) false [])
  else if String.eqb t "getversion" then Some (Rule [] false [echo [VERSION cfg]])
  else if String.eqb t "check" then Some (Rule [] true check_recipe)
  else if String.eqb t bananui_deb then Some (Rule ["bananui-base"] false bananui_recipe)
  else if String.eqb t startup_deb then
    Some (Rule ["device-startup"] false [debuild_in "device-startup"])
  else if String.eqb t "initrd.img" then Some (Rule ["ramdisk"] false initrd_recipe)
  else if String.eqb t "boot.img" then
    Some (Rule ["initrd.img"; "zImage"; "bootimg.cfg"] false bootimg_recipe)
  else if String.eqb t "debroot" then Some (Rule [] false debroot_recipe)
  else if String.eqb t "copy-files" then Some (Rule (DEBS ++ ["modules"]) false copy_files_recipe)
  else if String.eqb t "qemu-install" && use_qemu then
    Some (Rule ["debroot"; "copy-files"] false [script exported [] (qemubootstrap exported)])
  else if String.eqb t "debroot.tar" then
    Some (Rule (["debroot"; "copy-files"] ++ if use_qemu then ["qemu-install"] else [])
      false debroot_tar_recipe)
  else if String.eqb t "install-to-device" then Some (Rule ["all"] false install_recipe)
  else if String.eqb t "clean" then Some (Rule [] false clean_recipe)
  else None.

Definition exists_file (t : string) (w : W) : bool :=
  match mtime t w with Some _ => true | None => false end.

(** What the makefile mentions without having a rule for it. *)
Definition mentioned (t : string) : bool :=
  bool_decide (is_Some (explicit t)) ||
  bool_decide (t ∈ ["bananui-base"; "device-startup"; "ramdisk"; "zImage"; "bootimg.cfg"; "modules"]).

(** [package-%: %], which applies to a file that exists or is mentioned. *)
Definition pattern (t : string) (w : W) : option rule :=
  match t with
  | String "p" (String "a" (String "c" (String "k" (String "a" (String "g" (String "e" (String "-" p))))))) =>
      if exists_file p w || mentioned p then Some (Rule [p] false [debuild_in p]) else None
  | _ => None
  end%char.

Definition rule_for (t : string) (w : W) : option rule :=
  match explicit t with
  | Some r => Some r
  | None => pattern t w
  end.

(** ** Make *)

(** [Updated b]: the target is up to date, and [b] says whether it was remade. *)
Inductive outcome := Updated (changed : bool) | Failed (st : Z) | OutOfFuel.

(** The targets that have been considered, and the shell that runs the recipes. *)
Definition making : Type := list (string * bool) * shell W.

Fixpoint considered (t : string) (l : list (string * bool)) : option bool :=
  match l with
  | [] => None
  | (t', b) :: l => if String.eqb t t' then Some b else considered t l
  end.

(** Each line is run by a shell of its own. *)
Fixpoint run_recipe (l : list cmd) (σ : shell W) : Z * shell W :=
  match l with
  | [] => (0, σ)
  | c :: l =>
      match subshell c σ with
      | (inl st, σ') => if st =? 0 then run_recipe l σ' else (st, σ')
      | (inr st, σ') => (st, σ')
      end
  end.

Fixpoint update_all (upd : string → making → outcome * making) (ps : list string) (b : bool)
    (m : making) : outcome * making :=
  match ps with
  | [] => (Updated b, m)
  | p :: ps =>
      match upd p m with
      | (Updated b', m') => update_all upd ps (b || b') m'
      | r => r
      end
  end.

(** Whether a prerequisite is newer than the target. *)
Definition newer (t p : string) (w : W) : bool :=
  match mtime t w, mtime p w with
  | Some a, Some b => a <? b
  | _, _ => false
  end.

Fixpoint update (fuel : nat) (t : string) (m : making) : outcome * making :=
  match considered t m.1 with
  | Some b => (Updated b, m)
  | None =>
      match fuel with
      | O => (OutOfFuel, m)
      | S fuel =>
          match rule_for t (sys m.2) with
          | None =>
              if exists_file t (sys m.2) then (Updated false, ((t, false) :: m.1, m.2))
              else (Failed 2, m)
          | Some r =>
              match update_all (update fuel) (prereqs r) false m with
              | (Updated b, (done, σ)) =>
                  if always r || negb (exists_file t (sys σ)) || b ||
                     existsb (λ p, newer t p (sys σ)) (prereqs r)
                  then
                    match run_recipe (recipe r) σ with
                    | (0, σ) => (Updated true, ((t, true) :: done, σ))
                    | (_, σ) => (Failed 2, (done, σ))
                    end
                  else (Updated false, ((t, false) :: done, σ))
              | r => r
              end
          end
      end
  end.

(** The longest chain of prerequisites has eight targets, and the pattern rule makes the
    name of a target shorter. *)
Definition make (t : string) (σ : shell W) : outcome * making :=
  update (8 + String.length t) t ([], σ).
End Makefile.

Section Theory.
Context {W : Type} `{System W} `{FileTimes W}.
Variable cfg : config.
Implicit Types (σ τ : shell W) (m : making (W := W)).

(** * Make ends *)

(** Every prerequisite of a target has a smaller rank. *)
Definition rank (t : string) : nat :=
  (if bool_decide (t ∈ ["bananui-base"; "device-startup"; "ramdisk"; "zImage"; "bootimg.cfg"; "modules"])
  then 1
  else if String.eqb t "install-to-device" then 7
  else if String.eqb t "all" then 6
  else if String.eqb t "debroot.tar" then 5
  else if String.eqb t "qemu-install" then 4
  else if String.eqb t "copy-files" then 3
  else if String.eqb t "boot.img" then 3
  else match t with
       | String "p" (String "a" (String "c" (String "k" (String "a" (String "g" (String "e" (String "-" p))))))) =>
           8 + String.length t
       | _ => 2
       end%char)%nat.

Lemma rank_pos t : (1 <= rank t)%nat.
Proof. unfold rank. repeat case_match; lia. Qed.

Lemma rank_le t : (rank t <= 8 + String.length t)%nat.
Proof. unfold rank. repeat case_match; lia. Qed.

Lemma rank_bananui : rank (bananui_deb cfg) = 2%nat.
Proof. reflexivity. Qed.
Lemma rank_startup : rank (startup_deb cfg) = 2%nat.
Proof. reflexivity. Qed.

Lemma explicit_rank t r :
  explicit cfg t = Some r → Forall (λ p, rank p < rank t)%nat (prereqs r).
Proof.
  assert (∀ l n, forallb (λ p, Nat.ltb (rank p) n) l = true → Forall (λ p, rank p < n)%nat l) as Hall.
  { intros l n. induction l as [|p l IH]; cbn; [done|]. intros [?%Nat.ltb_lt ?]%andb_prop. auto. }
  unfold explicit, OUTPUTS, DEBS. intros E.
  repeat match type of E with
  | (if String.eqb t ?s then _ else _) = _ =>
      destruct (String.eqb_spec t s) as [->|]; [injection E as <-; apply Hall|]
  | (if _ && use_qemu cfg then _ else _) = _ =>
      destruct (String.eqb_spec t "qemu-install") as [->|], (use_qemu cfg); cbn [andb] in E;
        [injection E as <-; apply Hall|..]
  end; cbn [prereqs forallb app]; rewrite ?rank_bananui, ?rank_startup; try reflexivity; try done.
Qed.

Lemma pattern_rank t (w : W) r :
  pattern cfg t w = Some r → Forall (λ p, rank p < rank t)%nat (prereqs r).
Proof.
  unfold pattern. intros E. repeat (case_match; try discriminate E). injection E as <-. cbn [prereqs].
  constructor; [|done].
  match goal with |- (rank ?p < rank ?t)%nat =>
    change (rank t) with (8 + String.length t)%nat; pose proof (rank_le p); cbn; lia end.
Qed.

Lemma rule_rank t (w : W) r :
  rule_for cfg t w = Some r → Forall (λ p, rank p < rank t)%nat (prereqs r).
Proof.
  unfold rule_for. destruct (explicit cfg t) eqn:E; [|apply pattern_rank].
  intros [= <-]. by apply explicit_rank.
Qed.

Lemma update_enough fuel t m : (rank t <= fuel)%nat → (update cfg fuel t m).1 ≠ OutOfFuel.
Proof.
  revert t m. induction fuel as [|fuel IH]; intros t m Hr.
  { pose proof (rank_pos t). lia. }
  cbn [update]. destruct (considered t m.1); [done|].
  destruct (rule_for cfg t (sys m.2)) as [r|] eqn:Er; [|by case_match].
  apply rule_rank in Er.
  assert (∀ b m, (update_all (update cfg fuel) (prereqs r) b m).1 ≠ OutOfFuel) as Hall.
  { induction Er as [|p ps Hp _ IHp]; intros b m'; [done|]. cbn [update_all].
    pose proof (IH p m' ltac:(lia)) as Hu. destruct (update cfg fuel p m') as [[b'|st|] m'']; [apply IHp|done..]. }
  specialize (Hall false m). destruct (update_all _ _ _ _) as [[b|st|] [done' σ']]; [|done..].
  repeat case_match; done.
Qed.

(** The depth that [update] is given is enough for every target: there is no cycle among the rules. *)
Lemma make_enough t σ : (make cfg t σ).1 ≠ OutOfFuel.
Proof. apply update_enough, rank_le. Qed.

(** * A second run *)

Lemma run_recipe_fails c l σ st τ :
  c (set_traps None None σ) = (inl st, τ) → st ≠ 0 → run_recipe (c :: l) σ = (st, leave σ τ).
Proof.
  intros E Hst. cbn [run_recipe]. unfold subshell. rewrite E. cbn [status_of].
  by apply Z.eqb_neq in Hst as ->.
Qed.

(** The first line of [copy-files] fails if the file is already there. *)
Lemma wpa_template_fails σ :
  is_regular (resolve (cwd σ) wpa_conf) (sys σ) = true → wpa_template σ = (inl 1, σ).
Proof.
  intros Hw. unfold wpa_template, and_then, get, test, mbind, sh_bind. cbn -[resolve wpa_conf].
  by rewrite Hw.
Qed.

Lemma copy_files_fails σ :
  is_regular (resolve (cwd σ) wpa_conf) (sys σ) = true →
  ∃ τ, run_recipe (copy_files_recipe cfg) σ = (1, τ) ∧ trace τ = trace σ ∧ sys τ = sys σ.
Proof.
  intros Hw. exists (leave σ (set_traps None None σ)). split; [|by destruct σ].
  unfold copy_files_recipe. apply run_recipe_fails; [|done]. apply wpa_template_fails. by destruct σ.
Qed.

Lemma update_leaf fuel t m :
  considered t m.1 = None → rule_for cfg t (sys m.2) = None → exists_file t (sys m.2) = true →
  update cfg (S fuel) t m = (Updated false, ((t, false) :: m.1, m.2)).
Proof. intros E1 E2 E3. cbn [update]. by rewrite E1, E2, E3. Qed.

Lemma update_rule fuel t m r :
  considered t m.1 = None → rule_for cfg t (sys m.2) = Some r →
  update cfg (S fuel) t m =
  match update_all (update cfg fuel) (prereqs r) false m with
  | (Updated b, (done, σ)) =>
      if always r || negb (exists_file t (sys σ)) || b || existsb (λ p, newer t p (sys σ)) (prereqs r)
      then
        match run_recipe (recipe r) σ with
        | (0, σ) => (Updated true, ((t, true) :: done, σ))
        | (_, σ) => (Failed 2, (done, σ))
        end
      else (Updated false, ((t, false) :: done, σ))
  | r => r
  end.
Proof. intros E1 E2. cbn [update]. by rewrite E1, E2. Qed.

Lemma update_current fuel t m r l σ :
  considered t m.1 = None → rule_for cfg t (sys m.2) = Some r → always r = false →
  update_all (update cfg fuel) (prereqs r) false m = (Updated false, (l, σ)) →
  exists_file t (sys σ) = true → existsb (λ p, newer t p (sys σ)) (prereqs r) = false →
  update cfg (S fuel) t m = (Updated false, ((t, false) :: l, σ)).
Proof. intros E1 E2 E3 E4 E5 E6. erewrite update_rule by done. by rewrite E4, E3, E5, E6. Qed.

Lemma update_recipe_failed fuel t m r b l σ st τ :
  considered t m.1 = None → rule_for cfg t (sys m.2) = Some r →
  update_all (update cfg fuel) (prereqs r) false m = (Updated b, (l, σ)) →
  exists_file t (sys σ) = false → run_recipe (recipe r) σ = (st, τ) → st ≠ 0 →
  update cfg (S fuel) t m = (Failed 2, (l, τ)).
Proof.
  intros E1 E2 E3 E4 E5 Hst. erewrite update_rule by done. rewrite E3, E4, E5, orb_true_r. by destruct st.
Qed.

Lemma update_prereq_failed fuel t m r st m' :
  considered t m.1 = None → rule_for cfg t (sys m.2) = Some r →
  update_all (update cfg fuel) (prereqs r) false m = (Failed st, m') →
  update cfg (S fuel) t m = (Failed st, m').
Proof. intros E1 E2 E3. cbn [update]. by rewrite E1, E2, E3. Qed.

(** The files after a first run: everything is up to date, and as [copy-files] is not a
    file its recipe is run each time. *)
Definition built (w : W) : Prop :=
  exists_file "debroot" w = true ∧ exists_file "modules" w = true ∧ exists_file "copy-files" w = false ∧
  exists_file "bananui-base" w = true ∧ exists_file "device-startup" w = true ∧
  exists_file (bananui_deb cfg) w = true ∧ newer (bananui_deb cfg) "bananui-base" w = false ∧
  exists_file (startup_deb cfg) w = true ∧ newer (startup_deb cfg) "device-startup" w = false.

Lemma bananui_explicit : explicit cfg (bananui_deb cfg) = Some (Rule (W := W) ["bananui-base"] false (bananui_recipe cfg)).
Proof.
  unfold explicit. change (String.eqb (bananui_deb cfg) "all") with false.
  change (String.eqb (bananui_deb cfg) "getversion") with false.
  change (String.eqb (bananui_deb cfg) "check") with false. by rewrite String.eqb_refl.
Qed.

Lemma startup_explicit :
  explicit cfg (startup_deb cfg) = Some (Rule (W := W) ["device-startup"] false [debuild_in "device-startup"]).
Proof.
  unfold explicit. change (String.eqb (startup_deb cfg) "all") with false.
  change (String.eqb (startup_deb cfg) "getversion") with false.
  change (String.eqb (startup_deb cfg) "check") with false.
  change (String.eqb (startup_deb cfg) (bananui_deb cfg)) with false. by rewrite String.eqb_refl.
Qed.

Lemma bananui_rule (w : W) :
  rule_for cfg (bananui_deb cfg) w = Some (Rule ["bananui-base"] false (bananui_recipe cfg)).
Proof. unfold rule_for. by rewrite bananui_explicit. Qed.

Lemma startup_rule (w : W) :
  rule_for cfg (startup_deb cfg) w = Some (Rule ["device-startup"] false [debuild_in "device-startup"]).
Proof. unfold rule_for. by rewrite startup_explicit. Qed.

(** A package with its directory. *)
Lemma update_deb fuel deb dir l rc σ :
  rule_for cfg deb (sys σ) = Some (Rule [dir] false rc) → rule_for cfg dir (sys σ) = None →
  considered deb l = None → considered dir l = None →
  exists_file deb (sys σ) = true → exists_file dir (sys σ) = true → newer deb dir (sys σ) = false →
  update cfg (S (S fuel)) deb (l, σ) = (Updated false, ((deb, false) :: (dir, false) :: l, σ)).
Proof.
  intros Hr Hd H1 H2 H3 H4 H5. eapply update_current; [done|exact Hr|done| |done|cbn; by rewrite H5].
  cbn [prereqs update_all]. by rewrite update_leaf by done.
Qed.

Lemma update_debs fuel l σ :
  built (sys σ) → considered (bananui_deb cfg) l = None → considered (startup_deb cfg) l = None →
  considered "bananui-base" l = None → considered "device-startup" l = None → considered "modules" l = None →
  ∃ l', update_all (update cfg (S (S fuel))) (DEBS cfg ++ ["modules"]) false (l, σ) =
    (Updated false, (l', σ)).
Proof.
  intros (Hd & Hm & Hc & Hb & Hs & Hbd & Hbn & Hsd & Hsn) H1 H2 H3 H4 H5. eexists.
  unfold DEBS. cbn [app update_all].
  erewrite (update_deb fuel (bananui_deb cfg) "bananui-base"); [|apply bananui_rule|reflexivity|done..].
  erewrite (update_deb fuel (startup_deb cfg) "device-startup"); [|apply startup_rule|reflexivity|done..].
  rewrite update_leaf; [reflexivity|exact H5|reflexivity|exact Hm].
Qed.

(** C14: make fails on every run after one that succeeded: with all files up to date the
    recipe of [copy-files] is run again, because no file of that name exists, and its
    first line fails because [wpa_supplicant.conf] exists, before anything is copied or
    packed. *)
Theorem second_make_fails σ :
  built (sys σ) → is_regular (resolve (cwd σ) wpa_conf) (sys σ) = true →
  (make cfg "debroot.tar" σ).1 = Failed 2 ∧
  trace (make cfg "debroot.tar" σ).2.2 = trace σ ∧ sys (make cfg "debroot.tar" σ).2.2 = sys σ.
Proof.
  intros Hb Hw. destruct (copy_files_fails σ Hw) as (τ & Erun & Et & Es).
  assert (∃ l, make cfg "debroot.tar" σ = (Failed 2, (l, τ))) as [l ->]; [|done].
  unfold make. change (8 + String.length "debroot.tar")%nat with 19%nat.
  pose proof Hb as (Hd & _ & Hc & _).
  assert (∃ l, update_all (update cfg 18) (["debroot"; "copy-files"] ++
    if use_qemu cfg then ["qemu-install"] else []) false ([], σ) = (Failed 2, (l, τ))) as [l E].
  { cbn [app update_all].
    rewrite (update_current 17 "debroot" _ (Rule [] false (debroot_recipe cfg)) [] σ) by done. cbn [orb].
    destruct (update_debs 15 [("debroot", false)] σ) as [l' El]; [done..|]. exists l'.
    by erewrite (update_recipe_failed 17 "copy-files" _
      (Rule (DEBS cfg ++ ["modules"]) false (copy_files_recipe cfg))). }
  exists l. eapply update_prereq_failed; [done|reflexivity|exact E].
Qed.

(** * What make runs *)

Definition not_adb (argv : list string) : Prop := head argv ≠ Some "adb".

Ltac no_adb := runs; try done.

Lemma check_dispatch f args σ :
  Forall (λ s, plain s = true) (f :: args) → params σ = f :: args →
  check σ = (if String.eqb f "missing" then call_function args missing
      else if String.eqb f "deps" then call_function args deps
      else if String.eqb f "gcc" then call_function args gcc
      else if String.eqb f "root" then call_function args root
      else if String.eqb f "packages" then call_function args packages
      else exec (f :: args)) σ.
Proof.
  intros Hpl Ep. unfold check, mbind, sh_bind. rewrite expand_args_plain by by rewrite Ep.
  by rewrite Ep.
Qed.

Lemma check_runs env f args c :
  Forall (λ s, plain s = true) (f :: args) →
  (if String.eqb f "missing" then call_function args missing
      else if String.eqb f "deps" then call_function args deps
      else if String.eqb f "gcc" then call_function args gcc
      else if String.eqb f "root" then call_function args root
      else if String.eqb f "packages" then call_function args packages
      else exec (f :: args)) = call_function args c →
  Runs not_adb c → Runs not_adb (script env (f :: args) (check (W := W))).
Proof.
  intros Hpl E Hc. apply (runs_script_eq _ _ _ _ (call_function args c)); [|apply _].
  intros σ Ep. by rewrite (check_dispatch f args), E by done.
Qed.

Lemma missing_runs : Runs not_adb (missing (W := W)).
Proof. unfold missing. no_adb. Qed.

Lemma packages_runs env l :
  Forall (λ s, plain s = true) l → Runs not_adb (script env ("packages" :: l) (check (W := W))).
Proof.
  intros Hl. pose proof missing_runs. eapply check_runs; [by constructor|reflexivity|].
  unfold packages, choose_prebuilt, download. no_adb.
Qed.

Lemma root_runs env : Runs not_adb (script env ["root"] (check (W := W))).
Proof. eapply check_runs; [by repeat constructor|reflexivity|]. unfold root. no_adb. Qed.

Lemma deps_runs env : Runs not_adb (script env ["deps"] (check (W := W))).
Proof.
  pose proof missing_runs. eapply check_runs; [by repeat constructor|reflexivity|]. unfold deps. no_adb.
Qed.

Lemma check_missing_runs env l :
  Forall (λ s, plain s = true) l → Runs not_adb (script env ("missing" :: l) (check (W := W))).
Proof. intros Hl. eapply check_runs; [by constructor|reflexivity|]. apply missing_runs. Qed.

(** A program that ends, or is ended. *)
Ltac sh_program := apply shwp_exec_signals; [reflexivity|]; intros ???; sh_cbn; intros _; case_match; sh_cbn.

(** After the file is written, or not. *)
Lemma gcc_runs env : Runs not_adb (script env ["gcc"] (check (W := W))).
Proof.
  apply runs_script_wp. intros [ps vs0 here ee et st inp o er tr w]. cbn. unfold check. sh_step.
  apply shwp_expand_args; [by repeat constructor|]. cbn. sh_step. unfold gcc. do 3 sh_step.
  match goal with |- shwp _ ?Q _ => set (Q0 := Q) end.
  assert (∀ r o tr' w', Forall (λ e, not_adb (c_argv e.1)) tr' →
    Q0 (inl r) (Shell [] (("gcc", "arm-linux-gnueabihf-gcc") :: env) here false None None inp o er
      (tr ++ tr') w')) as HQ.
  { intros r o' tr' w' Htr. unfold Q0. cbn. do 3 sh_step. repeat (sh_step || sh_program).
    all: try (destruct (_ =? 0); repeat (sh_step || sh_program)); (split; [done|]); eexists; (split; [by rewrite <- !app_assoc|]);
      rewrite ?Forall_app; by repeat constructor. }
  apply shwp_redirect; cbn -[Q0].
  - intros _. specialize (HQ 1 o [] w). rewrite app_nil_r in HQ. by apply HQ.
  - intros w' _. apply shwp_with_input. cbn -[Q0]. sh_program; [|by apply HQ; repeat constructor].
    unfold Q0. cbn. split; [done|]. eexists. split; [done|]. by repeat constructor.
Qed.

Lemma check_recipe_runs : Forall (Runs not_adb) (check_recipe (W := W) cfg).
Proof.
  unfold check_recipe. rewrite !Forall_cons. split_and!;
    [apply packages_runs; by repeat constructor|apply root_runs|apply deps_runs|apply gcc_runs|done].
Qed.

Lemma initrd_recipe_runs : Forall (Runs not_adb) (initrd_recipe (W := W) cfg).
Proof.
  unfold initrd_recipe, pack_initrd, archive. rewrite !Forall_cons.
  split_and!; [by apply runs_exec| |done]. no_adb. unfold cd_words. case_match; no_adb.
Qed.

Lemma qemu_runs env env' l : Runs not_adb (script env l (qemubootstrap (W := W) env')).
Proof.
  assert (Runs not_adb (script env' ["missing"; "qemu-arm-static"; "qemu-user-static"] (check (W := W))))
    by (apply check_missing_runs; by repeat constructor).
  apply runs_script. unfold qemubootstrap, in_debroot.
  repeat apply runs_seq; try by (apply runs_exec).
  - apply runs_or_else; [by apply runs_exec|]. do 2 (apply runs_bind; [apply _|intros ?]).
    apply runs_bind; [by apply runs_capture, runs_exec|]. by intros.
  - by apply runs_trap_exit.
  - by eapply runs_trap_signals.
Qed.

(** No recipe but that of [install-to-device] runs [adb]. *)
Lemma explicit_runs t r :
  explicit cfg t = Some r → t ≠ "install-to-device" → Forall (Runs not_adb) (recipe (W := W) r).
Proof.
  assert (∀ dir, Runs not_adb (debuild_in (W := W) dir)) as Hd by (intros; unfold debuild_in; no_adb).
  unfold explicit. intros E Hne.
  repeat match type of E with
  | (if String.eqb t ?s then _ else _) = _ =>
      destruct (String.eqb_spec t s) as [?|]; [injection E as <-; cbn [recipe]|]
  | (if _ && use_qemu cfg then _ else _) = _ =>
      destruct (String.eqb_spec t "qemu-install") as [?|], (use_qemu cfg); cbn match beta delta [andb] in E;
        [injection E as <-; cbn [recipe]|..]
  end; try done.
  all: unfold bananui_recipe, bootimg_recipe, debroot_recipe, copy_files_recipe, wpa_template,
    debroot_tar_recipe, clean_recipe; rewrite ?Forall_cons; split_and?; try done; try apply Hd.
  all: try apply check_recipe_runs; try apply initrd_recipe_runs; try apply qemu_runs; no_adb.
Qed.

Lemma run_recipe_grows l σ : Forall (Runs not_adb) l → grows not_adb σ (run_recipe l σ).2.
Proof.
  intros Hl. revert σ. induction Hl as [|c l Hc _ IH]; intros σ; [apply grows_refl|]. cbn [run_recipe].
  pose proof (grows_subshell not_adb c σ Hc) as Hg. destruct (subshell c σ) as [[st|st] τ]; [|done].
  cbn in Hg. destruct (st =? 0); [|done]. by eapply grows_trans.
Qed.

Lemma rank_explicit t (w : W) r :
  (rank t <= 6)%nat → rule_for cfg t w = Some r → explicit cfg t = Some r ∧ t ≠ "install-to-device".
Proof.
  intros Hr Er. split; [|intros ->; change (7 <= 6)%nat in Hr; lia]. unfold rule_for in Er.
  destruct (explicit cfg t) as [r'|]; [done|]. exfalso. unfold pattern in Er.
  repeat (case_match; try discriminate Er).
  match type of Hr with (rank ?t <= _)%nat => change (rank t) with (8 + String.length t)%nat in Hr end. lia.
Qed.

Lemma update_grows fuel t m :
  (rank t <= 6)%nat → grows not_adb m.2 (update cfg fuel t m).2.2.
Proof.
  revert t m. induction fuel as [|fuel IH]; intros t m Hr; cbn [update].
  { destruct (considered t m.1); apply grows_refl. }
  destruct (considered t m.1); [apply grows_refl|].
  destruct (rule_for cfg t (sys m.2)) as [r|] eqn:Er; [|case_match; apply grows_refl].
  pose proof (rule_rank _ _ _ Er) as Hps.
  destruct (rank_explicit _ _ _ Hr Er) as [Ee Hne]. pose proof (explicit_runs _ _ Ee Hne) as Hrec.
  assert (∀ b m', grows not_adb m'.2 (update_all (update cfg fuel) (prereqs r) b m').2.2) as Hall.
  { induction Hps as [|p ps Hp _ IHp]; intros b m'; cbn [update_all]; [apply grows_refl|].
    pose proof (IH p m' ltac:(lia)) as Hu. destruct (update cfg fuel p m') as [[b'|st|] m'']; [|done..].
    eapply grows_trans; [exact Hu|apply IHp]. }
  specialize (Hall false m). destruct (update_all _ _ _ _) as [[b|st|] [l σ]]; [|done..]. cbn in Hall.
  case_match; [|done]. pose proof (run_recipe_grows _ σ Hrec) as Hg.
  destruct (run_recipe (recipe r) σ) as [[] τ]; by eapply grows_trans.
Qed.

(** More fuel changes nothing. *)
Lemma update_mono f f' t m :
  (rank t <= f)%nat → (f <= f')%nat → update cfg f' t m = update cfg f t m.
Proof.
  revert f' t m. induction f as [|f IH]; intros f' t m Hr Hf.
  { pose proof (rank_pos t). lia. }
  destruct f' as [|f']; [lia|]. cbn [update]. destruct (considered t m.1); [done|].
  destruct (rule_for cfg t (sys m.2)) as [r|] eqn:Er; [|done]. apply rule_rank in Er.
  assert (∀ b m', update_all (update cfg f') (prereqs r) b m' = update_all (update cfg f) (prereqs r) b m')
    as ->; [|done].
  induction Er as [|p ps Hp _ IHp]; intros b m'; cbn [update_all]; [done|].
  rewrite (IH f' p m') by lia. destruct (update cfg f p m') as [[] ?]; [apply IHp|done..].
Qed.

(** * What has been made *)

(** One target of a plan: a file that the tree has, or a target with its rule. *)
Inductive item := Source (f : string) | Target (t : string) (r : rule (W := W)).

(** The targets of a plan are considered in their order. A source has to exist; a target is
    kept if it exists, is not older than its prerequisites and none of them has been made; else
    it is made: all the lines of its recipe have been run and ended with status 0. *)
Inductive carried_out : list item → list (string * bool) → shell W → list (string * bool) → shell W → Prop :=
  | carried_out_nil l σ : carried_out [] l σ l σ
  | source_there f pl l σ l' σ' :
      exists_file f (sys σ) = true → carried_out pl ((f, false) :: l) σ l' σ' →
      carried_out (Source f :: pl) l σ l' σ'
  | target_kept t ps rc pl l σ l' σ' :
      exists_file t (sys σ) = true →
      Forall (λ p, considered p l = Some false ∧ newer t p (sys σ) = false) ps →
      carried_out pl ((t, false) :: l) σ l' σ' →
      carried_out (Target t (Rule ps false rc) :: pl) l σ l' σ'
  | target_made t r pl l σ σ1 l' σ' :
      run_recipe (recipe r) σ = (0, σ1) → carried_out pl ((t, true) :: l) σ1 l' σ' →
      carried_out (Target t r :: pl) l σ l' σ'.

Lemma carried_out_app pl pl' l σ l1 σ1 l2 σ2 :
  carried_out pl l σ l1 σ1 → carried_out pl' l1 σ1 l2 σ2 → carried_out (pl ++ pl') l σ l2 σ2.
Proof. induction 1; intros Hrest; [done|..]; econstructor; eauto. Qed.

(** The plan for a target, without the targets that have been [seen]. *)
Definition seen_in (t : string) (seen : list string) : bool := existsb (String.eqb t) seen.

Fixpoint plan_all (plan : string → list string → list item * list string) (ps seen : list string) :
    list item * list string :=
  match ps with
  | [] => ([], seen)
  | p :: ps => let '(pl, seen) := plan p seen in let '(pl', seen) := plan_all plan ps seen in (pl ++ pl', seen)
  end.

Fixpoint plan_for (fuel : nat) (t : string) (seen : list string) : list item * list string :=
  if seen_in t seen then ([], seen) else
  match fuel with
  | O => ([], seen)
  | S fuel =>
      match explicit cfg t with
      | None => ([Source t], t :: seen)
      | Some r =>
          let '(pl, seen) := plan_all (plan_for fuel) (prereqs r) seen in (pl ++ [Target t r], t :: seen)
      end
  end.

Lemma considered_seen t (l : list (string * bool)) :
  seen_in t l.*1 = match considered t l with Some _ => true | None => false end.
Proof. induction l as [|[t' b] l IH]; [done|]. cbn. by destruct (String.eqb t t'). Qed.

(** What has been considered is not considered again. *)
Definition keeps (l l' : list (string * bool)) : Prop :=
  ∀ p b, considered p l = Some b → considered p l' = Some b.

Lemma keeps_cons t b l l' : considered t l = None → keeps l l' → keeps l ((t, b) :: l').
Proof. intros Ht Hk p c Hp. cbn. destruct (String.eqb_spec p t) as [->|]; [congruence|by apply Hk]. Qed.

(** What an update that succeeds has done. *)
Definition did (fuel : nat) (t : string) : Prop :=
  ∀ l σ b l' σ', update cfg fuel t (l, σ) = (Updated b, (l', σ')) →
    carried_out (plan_for fuel t l.*1).1 l σ l' σ' ∧ (plan_for fuel t l.*1).2 = l'.*1 ∧
    keeps l l' ∧ considered t l' = Some b.

Lemma update_all_plan fuel ps : Forall (did fuel) ps → ∀ b l σ b' l' σ',
  update_all (update cfg fuel) ps b (l, σ) = (Updated b', (l', σ')) →
  carried_out (plan_all (plan_for fuel) ps l.*1).1 l σ l' σ' ∧ (plan_all (plan_for fuel) ps l.*1).2 = l'.*1 ∧
  keeps l l' ∧ (b' = false → Forall (λ p, considered p l' = Some false) ps).
Proof.
  induction 1 as [|p ps Hp _ IH]; intros b l σ b' l' σ'; cbn [update_all plan_all].
  { intros [= <- <- <-]. split_and!; [apply carried_out_nil|done|by intros ?|constructor]. }
  destruct (update cfg fuel p (l, σ)) as [[c|st|] [l1 σ1]] eqn:E; [|done..]. intros E2.
  destruct (Hp _ _ _ _ _ E) as (Hc1 & Hs1 & Hk1 & Hb1). destruct (plan_for fuel p l.*1) as [pl seen]. cbn in *. subst seen.
  destruct (IH _ _ _ _ _ _ E2) as (Hc2 & Hs2 & Hk2 & Hb2). destruct (plan_all _ _ l1.*1) as [pl' seen]. cbn in *.
  split_and!; [by eapply carried_out_app|done|intros q d Hq; by apply Hk2, Hk1|].
  intros ->. constructor; [|by apply Hb2]. apply Hk2. rewrite Hb1. f_equal.
  enough (∀ ps b m b' m', update_all (update cfg fuel) ps b m = (Updated b', m') → b' = false → b = false) as Hmono.
  { apply Hmono in E2; [|done]. by destruct b, c. }
  clear. induction ps as [|p ps IH]; intros b m b' m'; cbn [update_all]; [by intros [= <- <-]|].
  destruct (update cfg fuel p m) as [[c|st|] m1]; [|done..]. intros E ->. apply IH in E; [|done]. by destruct b.
Qed.

(** A target whose prerequisites have been dealt with. *)
Lemma target_plan t r b l0 l σ b' l' σ' :
  considered t l0 = None → keeps l0 l → (b = false → Forall (λ p, considered p l = Some false) (prereqs r)) →
  (if always r || negb (exists_file t (sys σ)) || b || existsb (λ p, newer t p (sys σ)) (prereqs r)
   then match run_recipe (recipe r) σ with
        | (0, σ) => (Updated true, ((t, true) :: l, σ))
        | (_, σ) => (Failed 2, (l, σ))
        end
   else (Updated false, ((t, false) :: l, σ))) = (Updated b', (l', σ')) →
  carried_out [Target t r] l σ l' σ' ∧ l'.*1 = t :: l.*1 ∧ keeps l0 l' ∧ considered t l' = Some b'.
Proof.
  intros Ht Hk Hps E. assert (∀ c, considered t ((t, c) :: l) = Some c) as Hc by (intros; cbn; by rewrite String.eqb_refl).
  destruct (_ || _) eqn:En.
  - destruct (run_recipe (recipe r) σ) as [[] τ] eqn:Er; try done. injection E as <- <- <-.
    split_and!; [eapply target_made; [done|apply carried_out_nil]|done|by apply keeps_cons|done].
  - injection E as <- <- <-. split_and!; [|done|by apply keeps_cons|done].
    apply orb_false_iff in En as [[[Ha Hx]%orb_false_iff Hb]%orb_false_iff Hn]. destruct r as [ps a rc]. cbn in *. subst a.
    apply target_kept; [by apply negb_false_iff in Hx| |apply carried_out_nil]. apply Forall_forall. intros p Hp.
    split; [by eapply Forall_forall in Hp; [|apply Hps]|].
    apply not_true_iff_false. intros Hq. apply not_true_iff_false in Hn. apply Hn, existsb_exists.
    exists p. split; [by apply list_elem_of_In|done].
Qed.

Lemma update_plan fuel t : (rank t <= 6)%nat → did fuel t.
Proof.
  revert t. induction fuel as [|fuel IH]; intros t Hr l σ b l' σ'; cbn [update plan_for fst snd];
    rewrite considered_seen; destruct (considered t l) as [c|] eqn:Ec.
  1,3: intros [= <- <- <-]; split_and!; [apply carried_out_nil|done|by intros ??|done].
  { done. }
  destruct (rule_for cfg t (sys σ)) as [r|] eqn:Er.
  - destruct (rank_explicit _ _ _ Hr Er) as [-> _]. apply rule_rank in Er.
    destruct (update_all _ _ _ _) as [[c|st|] [l1 σ1]] eqn:Ea; [|done..].
    edestruct (update_all_plan fuel (prereqs r)) as (Hc & Hs & Hk & Hb); [|exact Ea|].
    { eapply Forall_impl; [exact Er|]. intros p Hp. apply IH. cbn in Hp. lia. }
    destruct (plan_all _ _ _) as [pl seen]. cbn in *. subst seen. intros E.
    destruct (target_plan t r c l l1 σ1 b l' σ') as (Ht & -> & Hk' & Hb'); [done..|].
    split_and!; [by eapply carried_out_app|done..].
  - assert (explicit cfg t = None) as -> by (unfold rule_for in Er; by destruct (explicit cfg t)).
    destruct (exists_file t (sys σ)) eqn:Ex; [|done]. intros [= <- <- <-].
    split_and!; [by apply source_there; [|apply carried_out_nil]|done|by apply keeps_cons; [|intros ?]|cbn; by rewrite String.eqb_refl].
Qed.

(** * Installing *)

(** What [make all] goes through: the checks, and then each target after its prerequisites. *)
Definition build_plan : list item :=
  [Target "check" (Rule [] true
     [script (exported cfg) ["packages"; "bananui-base"; "device-startup"] check;
      script (exported cfg) ["root"] check; script (exported cfg) ["deps"] check;
      script (exported cfg) ["gcc"] check]);
   Source "ramdisk";
   Target "initrd.img" (Rule ["ramdisk"] false
     [exec ["rm"; "-f"; "initrd.img"]; script (exported cfg) ["initrd.img"; "ramdisk"] pack_initrd]);
   Source "zImage"; Source "bootimg.cfg";
   Target "boot.img" (Rule ["initrd.img"; "zImage"; "bootimg.cfg"] false
     [exec ["abootimg"; "--create"; "boot.img"; "-f"; "bootimg.cfg"; "-k"; "zImage"; "-r"; "initrd.img"]]);
   Target "debroot" (Rule [] false
     [exec ["rm"; "-rf"; "debroot"];
      or_else
        (exec (["debootstrap"] ++ fields ("--include=" +:+ DEFAULT_PACKAGES cfg) ++
           ["--arch"; "armhf"; "--foreign"; "buster"; "debroot/"] ++ fields (MIRROR cfg)))
        (exec ["rm"; "-rf"; "debroot"])]);
   Source "bananui-base";
   Target (bananui_deb cfg) (Rule ["bananui-base"] false
     [redirect false "bananui-base/.version" (echo [VERSION cfg]); debuild_in "bananui-base"]);
   Source "device-startup";
   Target (startup_deb cfg) (Rule ["device-startup"] false [debuild_in "device-startup"]);
   Source "modules";
   Target "copy-files" (Rule [bananui_deb cfg; startup_deb cfg; "modules"] false
     [wpa_template; exec ["editor"; "debroot/etc/wpa_supplicant.conf"]; exec ["mkdir"; "-p"; "debroot/lib/modules/"];
      exec ["rm"; "-rf"; "debroot/lib/modules/3.10.49-bananian+"];
      exec ["cp"; "-rf"; "modules"; "debroot/lib/modules/3.10.49-bananian+"];
      exec ["cp"; "-f"; bananui_deb cfg; startup_deb cfg; "debroot/var/cache"]])] ++
  (if use_qemu cfg then
     [Target "qemu-install" (Rule ["debroot"; "copy-files"] false
        [script (exported cfg) [] (qemubootstrap (exported cfg))])]
   else []) ++
  [Target "debroot.tar" (Rule (["debroot"; "copy-files"] ++ if use_qemu cfg then ["qemu-install"] else []) false
     [exec ["rm"; "-f"; "debroot.tar"];
      subshell (seq (cd "debroot")
        (l ← expand "*"; exec (["tar"; "cvf"; "../debroot.tar"; "--exclude=.gitignore"] ++ l)));
      echo ["Now you can execute the commands from README.md."]]);
   Target "all" (Rule ["check"; "initrd.img"; "boot.img"; "debroot"; "debroot.tar"] false [])].

Lemma plan_seen fuel t seen : seen_in t seen = true → plan_for fuel t seen = ([], seen).
Proof. intros E. by destruct fuel; cbn [plan_for]; rewrite E. Qed.
Lemma plan_source fuel t seen :
  seen_in t seen = false → explicit (W := W) cfg t = None → plan_for (S fuel) t seen = ([Source t], t :: seen).
Proof. intros E1 E2. cbn [plan_for]. by rewrite E1, E2. Qed.
Lemma plan_target fuel t seen r pl seen' :
  seen_in t seen = false → explicit cfg t = Some r → plan_all (plan_for fuel) (prereqs r) seen = (pl, seen') →
  plan_for (S fuel) t seen = (pl ++ [Target t r], t :: seen').
Proof. intros E1 E2 E3. cbn [plan_for]. by rewrite E1, E2, E3. Qed.
Lemma plan_cons plan p ps seen pl seen1 pl' seen2 :
  plan p seen = (pl, seen1) → plan_all plan ps seen1 = (pl', seen2) → plan_all plan (p :: ps) seen = (pl ++ pl', seen2).
Proof. intros E1 E2. cbn [plan_all]. by rewrite E1, E2. Qed.

Lemma qemu_explicit : use_qemu cfg = true →
  explicit cfg "qemu-install" = Some (Rule (W := W) ["debroot"; "copy-files"] false
    [script (exported cfg) [] (qemubootstrap (exported cfg))]).
Proof. intros Eq. unfold explicit. rewrite Eq. reflexivity. Qed.

(** Finds the plan for a target. *)
Ltac plan Eq :=
  repeat match goal with
  | |- plan_all _ [] _ = _ => reflexivity
  | |- plan_all _ (_ :: _) _ = _ => eapply plan_cons
  | |- plan_for _ _ _ = _ => apply plan_seen; reflexivity
  | |- plan_for _ _ _ = _ => apply plan_source; reflexivity
  | |- plan_for _ (bananui_deb _) _ = _ => eapply plan_target; [reflexivity|apply bananui_explicit|cbn [prereqs]]
  | |- plan_for _ (startup_deb _) _ = _ => eapply plan_target; [reflexivity|apply startup_explicit|cbn [prereqs]]
  | |- plan_for _ "qemu-install" _ = _ => eapply plan_target; [reflexivity|by apply qemu_explicit|cbn [prereqs]]
  | |- plan_for _ _ _ = _ =>
      eapply plan_target; [reflexivity|reflexivity|unfold DEBS, OUTPUTS; cbn [prereqs app]; rewrite ?Eq; cbn [app]]
  end.

Lemma all_plan : (plan_for 11 "all" []).1 = build_plan.
Proof.
  assert (∃ pl seen, plan_for 11 "all" [] = (pl, seen) ∧ pl = build_plan) as (pl & seen & -> & ->); [|done].
  unfold build_plan. destruct (use_qemu cfg) eqn:Eq; do 2 eexists; (split; [plan Eq|]); cbn [app]; rewrite ?Eq; reflexivity.
Qed.

Lemma all_carried_out σ b l τ : make cfg "all" σ = (Updated b, (l, τ)) → carried_out build_plan [] σ l τ.
Proof.
  rewrite <- all_plan. intros E. assert (rank "all" <= 6)%nat as Hr by (change (rank "all") with 6%nat; lia).
  by destruct (update_plan 11 "all" Hr _ _ _ _ _ E).
Qed.

(** Recipes do not change the directory or the input of make. *)
Lemma run_recipe_place l σ : cwd (run_recipe l σ).2 = cwd σ ∧ input (run_recipe l σ).2 = input σ.
Proof.
  revert σ. induction l as [|c l IH]; intros σ; [done|]. cbn [run_recipe]. unfold subshell.
  destruct (c _) as [r τ]. destruct (_ =? 0); [|done]. by destruct (IH (leave σ τ)) as [-> ->].
Qed.

Lemma carried_out_place pl l σ l' τ : carried_out pl l σ l' τ → cwd τ = cwd σ ∧ input τ = input σ.
Proof.
  induction 1 as [| | |t r pl l σ σ1 l' σ' Hr _ IH]; [done..|]. pose proof (run_recipe_place (recipe r) σ) as Hp.
  rewrite Hr in Hp. cbn in Hp. destruct Hp, IH. split; congruence.
Qed.

Lemma update_failed fuel t m st m' : update cfg fuel t m = (Failed st, m') → st = 2.
Proof.
  revert t m. induction fuel as [|fuel IH]; intros t m; cbn [update]; (destruct (considered t m.1); [done|]); [done|].
  destruct (rule_for cfg t (sys m.2)) as [r|]; [|by case_match; intros [= <- <-] ].
  assert (∀ ps b m, update_all (update cfg fuel) ps b m = (Failed st, m') → st = 2) as Hall.
  { intros ps. induction ps as [|p ps IHp]; intros b m1; cbn [update_all]; [done|].
    destruct (update cfg fuel p m1) as [[c|st1|] m2] eqn:E; [apply IHp|intros [= -> ->]; by eapply IH|done]. }
  destruct (update_all _ _ _ _) as [[b|st1|] [l τ]] eqn:E; [|intros [= <- <-]; by eapply Hall|done].
  case_match; [|done]. by destruct (run_recipe _ _) as [[] ?]; intros [= <-].
Qed.

(** Lines that are one program each, whose arguments may depend on the files, up to the first
    that fails or is ended by a signal. *)
Inductive stops_at_failure (here inp : string) : list (W → list string) → W → list (call * Z) → Z → Prop :=
  | all_done w : stops_at_failure here inp [] w [] 0
  | line_failed f l w st o w' :
      spawn (Call here [] (f w) inp) w = (st, o, w') → ended st w' ≠ 0 →
      stops_at_failure here inp (f :: l) w [(Call here [] (f w) inp, st)] (ended st w')
  | line_done f l w o w' tr n :
      spawn (Call here [] (f w) inp) w = (0, o, w') → interrupted w' = None →
      stops_at_failure here inp l w' tr n →
      stops_at_failure here inp (f :: l) w ((Call here [] (f w) inp, 0) :: tr) n.

(** A line that runs one program. *)
Definition one_program (here : string) (c : sh W Z) (f : W → list string) : Prop :=
  ∀ σ st o w, cwd σ = here → spawn (Call here [] (f (sys σ)) (input σ)) (sys σ) = (st, o, w) →
    ∃ τ, subshell c σ = (inl (ended st w), leave σ τ) ∧
      trace τ = trace σ ++ [(Call here [] (f (sys σ)) (input σ), st)] ∧ sys τ = w.

Lemma recipe_stops here l fs σ :
  Forall2 (one_program here) l fs → cwd σ = here →
  ∃ tr n τ, run_recipe l σ = (n, τ) ∧ trace τ = trace σ ++ tr ∧ stops_at_failure here (input σ) fs (sys σ) tr n.
Proof.
  intros Hl. revert σ. induction Hl as [|c f l fs Hc _ IH]; intros σ Hσ.
  { exists [], 0, σ. by rewrite app_nil_r; repeat constructor. }
  cbn [run_recipe]. destruct (spawn (Call here [] (f (sys σ)) (input σ)) (sys σ)) as [[st o] w] eqn:E.
  destruct (Hc σ st o w Hσ E) as (τ & -> & Et & Ew). destruct (Z.eqb_spec (ended st w) 0) as [Hz|Hst].
  - destruct (IH (leave σ τ)) as (tr & n & υ & Er & Et' & Hs); [done|]. apply ended_zero in Hz as [-> Hi].
    eexists (_ :: tr), n, υ. split; [done|]. split; [|eapply line_done; [exact E|done|]; by rewrite <- Ew].
    rewrite Et'. change (trace (leave σ τ)) with (trace τ). by rewrite Et, <- app_assoc.
  - do 3 eexists. split; [done|]. split; [exact Et|]. by eapply line_failed.
Qed.

Lemma one_exec here a argv : one_program here (exec (a :: argv)) (λ _, a :: argv).
Proof.
  intros σ st o w <- E. unfold subshell, exec.
  pose proof (shwp_exec_signals [] a argv (λ r τ, status_of r = ended st w ∧
    trace τ = trace σ ++ [(Call (cwd σ) [] (a :: argv) (input σ), st)] ∧ sys τ = w) (set_traps None None σ)) as Hwp.
  destruct Hwp as (Er & Et & Ew); [by destruct σ| |].
  { destruct σ. intros st' o' w'. cbn in *. rewrite E. intros [= <- <- <-]. unfold ended. by destruct (interrupted w). }
  destruct (exec_env _ _ _) as [r τ]. cbn in *. exists τ. by rewrite Er.
Qed.

Lemma one_expand here s (f : list string → list string) :
  fields s = [s] → (∀ l, f l ≠ []) →
  one_program here (l ← expand s; exec (f l)) (λ w, f (glob here s w)).
Proof.
  intros Hs Hf σ st o w <- E. set (l := glob (cwd σ) s (sys σ)) in *.
  assert (subshell (l ← expand s; exec (f l)) σ = subshell (exec (f l)) σ) as ->.
  { destruct σ. unfold subshell, mbind, sh_bind, expand, get. cbn. rewrite Hs. cbn. by rewrite app_nil_r. }
  destruct (f l) as [|a argv] eqn:Ef; [by destruct (Hf l)|]. by apply (one_exec (cwd σ) a argv σ st o w).
Qed.

(** What is done to the phone, in this order. *)
Definition phone_steps (here : string) : list (W → list string) :=
  [(λ _, ["adb"; "wait-for-device"]); (λ _, ["adb"; "push"; "debroot.tar"; "/data"]);
   (λ _, ["adb"; "push"; "boot.img"; "/data"]);
   (λ w, ["adb"; "push"] ++ glob here "on-device-scripts/*.sh" w ++ ["/data"]);
   (λ _, ["adb"; "shell"; "/data/install-bootimage.sh"]); (λ _, ["adb"; "shell"; "/data/unpack-debian.sh"])] ++
  (if use_qemu cfg then [] else [λ _, ["adb"; "shell"; "/data/bootstrap-debian.sh"]]) ++
  [λ _, ["adb"; "shell"; "rm"; "/data/install-bootimage.sh"; "/data/unpack-debian.sh";
         "/data/bootstrap-debian.sh"]].

Lemma install_steps here : Forall2 (one_program here) (install_recipe cfg) (phone_steps here).
Proof.
  unfold install_recipe, phone_steps.
  apply Forall2_app; [|apply Forall2_app; [destruct (use_qemu cfg)|]];
    repeat (apply Forall2_cons; split); try apply Forall2_nil; try done; try apply one_exec.
  by apply (one_expand here "on-device-scripts/*.sh" (λ l, ["adb"; "push"] ++ l ++ ["/data"])).
Qed.

(** C12: [make install-to-device] does not touch the phone unless the plan of the build has been
    carried out in the same run: the four checks have ended with status 0, then for each
    target in turn all lines of its recipe have, or it is there and neither older than its
    prerequisites nor one of these made anew. Then it does the steps of the
    installation in their order, with the scripts of the tree, up to the first that fails, and succeeds
    if none does. Where it does not touch the phone it fails, or a file with the name of the
    target exists. (For [debroot] a status of 0 does not mean that [debootstrap] succeeded, see
    [debroot_failure_hidden].) *)
Theorem phone_after_build σ :
  ∃ o l τ tr1 tr2, make cfg "install-to-device" σ = (o, (l, τ)) ∧
    trace τ = trace σ ++ tr1 ++ tr2 ∧ Forall (λ e, not_adb (c_argv e.1)) tr1 ∧
    (tr2 = [] ∧ (o = Failed 2 ∨ o = Updated false ∧ exists_file "install-to-device" (sys τ) = true) ∨
     ∃ l1 σ1 n, carried_out build_plan [] σ l1 σ1 ∧ trace σ1 = trace σ ++ tr1 ∧
       stops_at_failure (cwd σ) (input σ) (phone_steps (cwd σ)) (sys σ1) tr2 n ∧
       o = if n =? 0 then Updated true else Failed 2).
Proof.
  unfold make. change (8 + String.length "install-to-device")%nat with 25%nat.
  assert (∃ r, rule_for cfg "install-to-device" (sys σ) = Some r ∧ prereqs r = ["all"] ∧
    always r = false ∧ recipe r = install_recipe cfg) as (r & Er & Ep & Ea & Ec).
  { eexists. split; [reflexivity|done]. }
  rewrite (update_rule 24 "install-to-device" ([], σ) r eq_refl Er), Ep. cbn [update_all].
  rewrite (update_mono 11 24 "all") by (change (rank "all") with 6%nat; lia).
  change (update cfg 11 "all" ([], σ)) with (make cfg "all" σ).
  assert (grows not_adb σ (make cfg "all" σ).2.2) as (tr1 & E1 & H1).
  { apply (update_grows _ "all" ([], σ)). change (rank "all") with 6%nat. lia. }
  destruct (make cfg "all" σ) as [[b|st|] [l τ]] eqn:Em; cbn in E1.
  2: { apply update_failed in Em as ->. exists (Failed 2), l, τ, tr1, []. rewrite app_nil_r. auto 10. }
  2: { pose proof (make_enough "all" σ) as Hf. by rewrite Em in Hf. }
  pose proof (all_carried_out _ _ _ _ Em) as Hall. destruct (carried_out_place _ _ _ _ _ Hall) as [Hh Hi].
  case_match eqn:Eb.
  2: { exists (Updated false), (("install-to-device", false) :: l), τ, tr1, []. rewrite app_nil_r. split_and!; [done..|].
       left. split; [done|right]. rewrite Ea in Eb. cbn [orb] in Eb. by apply orb_false_iff in Eb as [[Ex%negb_false_iff _]%orb_false_iff _]. }
  rewrite Ec. destruct (recipe_stops _ _ _ τ (install_steps (cwd σ)) Hh) as (tr2 & n & υ & -> & E2 & Hst2).
  exists (if n =? 0 then Updated true else Failed 2), (if n =? 0 then ("install-to-device", true) :: l else l), υ, tr1, tr2.
  split; [by destruct n|]. rewrite E2, E1, <- app_assoc. split_and!; [done..|].
  right. exists l, τ, n. rewrite Hi in Hst2. done.
Qed.

(** A failure of [debootstrap] is hidden by the removal of what it left: the recipe of
    [debroot] fails only if that fails. *)
Lemma debroot_failure_hidden {Hq : Quiet (W := W)} σ :
  (∀ w dir i, (spawn (Call dir [] ["rm"; "-rf"; "debroot"] i) w).1.1 = 0) →
  (run_recipe (debroot_recipe cfg) σ).1 = 0.
Proof.
  intros Hrm. set (P := λ (r : Z + Z) (_ : shell W), status_of r = 0).
  assert (∀ υ, sig_trap υ = None → shwp (exec ["rm"; "-rf"; "debroot"]) P υ) as Hex.
  { intros υ Hυ. apply shwp_exec_env; [done|]. intros st o w E. red. cbn.
    specialize (Hrm (sys υ) (cwd υ) (input υ)). by rewrite E in Hrm. }
  assert (∀ c υ, shwp c P (set_traps None None υ) → ∃ τ, subshell c υ = (inl 0, τ)) as Hsub.
  { unfold shwp, P, subshell. intros c υ. destruct (c _) as [r τ]. cbn. intros ->. eauto. }
  unfold debroot_recipe. cbn [run_recipe].
  destruct (Hsub (exec ["rm"; "-rf"; "debroot"]) σ) as [τ ->]; [apply Hex; by destruct σ|].
  change (0 =? 0) with true. cbv iota. edestruct Hsub as [υ ->]; [|done].
  apply shwp_or_else, shwp_exec_env; [by destruct τ|]. intros st o w _.
  destruct (st =? 0); [done|]. apply Hex. by destruct τ.
Qed.
End Theory.

(** * Examples *)

#[global] Instance machine_times : FileTimes machine :=
  {| mtime t m := if bool_decide (t ∈ fst <$> m_files m) then Some 0 else None |}.

Definition release : config :=
  {| USE_QEMU := "0"; VERSION := "0.1"; EXTRA_PACKAGES := ""; MIRROR := ""; environment := [] |}.

(** The files that a first run leaves. *)
Definition after_make : machine :=
  Machine ["/"] ((λ f, (f, "")) <$>
    ["debroot"; "modules"; "bananui-base"; "device-startup"; "bananui-base_0.1_armhf.deb";
     "device-startup_0.1_all.deb"; "//debroot/etc/wpa_supplicant.conf"]) [].

Lemma second_make_fails_witness :
  (make release "debroot.tar" (example [] after_make)).1 = Failed 2.
Proof.
  apply (second_make_fails release (example [] after_make)); [|vm_compute; reflexivity].
  unfold built. repeat split.
Defined.
