(* ===== verification/WordSets.v ===== *)
(** * Sets of descriptors and of processors, [bits/select.h] and [bits/cpu-set.h]

    An [fd_set] and a [cpu_set_t] are arrays of 32 words of 32 bits. The memory holds
    such objects under pointers, since the operations on two sets may be given the same
    object twice. A word is its bit pattern, also where its type is signed.

    The class [BitSet] has the four operations that both kinds of set have, and
    [BitSetLaws] what each does to the bits; the refinement of finite sets of numbers,
    over any sequence of operations, is proved from the laws. *)
From stdpp Require Import base numbers list gmap fin_sets.
From Stdlib Require Import ZArith Lia.
From S2P Require Import Prelude.

(** * Memory *)

Abbreviation mem := (gmap nat (list Z)).

Definition load (p : nat) (i : Z) : M mem Z := λ m,
  l ← m !! p;
  if 0 <=? i then (λ w, (w, m)) <$> l !! Z.to_nat i else None.

Definition store (p : nat) (i w : Z) : M mem unit := λ m,
  l ← m !! p;
  if (0 <=? i) && (i <? Z.of_nat (length l)) then Some (tt, <[p := <[Z.to_nat i := w]> l]> m) else None.

(** * [fd_set] *)

Definition __NFDBITS : Z := 8 * 4.
Definition FD_SETSIZE : Z := 1024.
Definition __FD_ELT (d : Z) : Z := Z.quot d __NFDBITS.

(** A shift by a negative number is undefined. *)
Definition __FD_MASK (d : Z) : M mem Z :=
  let n := Z.rem d __NFDBITS in
  if 0 <=? n then mret (u32 (1 << n)) else ub.

Definition FD_ZERO (s : nat) : M mem unit :=
  for_loop 0 (Z.to_nat (FD_SETSIZE / __NFDBITS)) (λ i, store s (Z.of_nat i) 0).

Definition FD_SET (d : Z) (s : nat) : M mem unit :=
  mask ← __FD_MASK d;
  w ← load s (__FD_ELT d);
  store s (__FD_ELT d) (u32 (w .| mask)).

Definition FD_CLR (d : Z) (s : nat) : M mem unit :=
  mask ← __FD_MASK d;
  w ← load s (__FD_ELT d);
  store s (__FD_ELT d) (u32 (w .& Z.lnot mask)).

Definition FD_ISSET (d : Z) (s : nat) : M mem bool :=
  mask ← __FD_MASK d;
  w ← load s (__FD_ELT d);
  mret (negb ((w .& mask) =? 0)).

(** * [cpu_set_t] *)

Definition __NCPUBITS : Z := 8 * 4.
Definition CPU_SETSIZE : Z := 1024.
Definition sizeof_cpu_set_t : Z := CPU_SETSIZE / 8.
Definition __CPUELT (cpu : Z) : Z := cpu / __NCPUBITS.
Definition __CPUMASK (cpu : Z) : Z := u32 (1 << (cpu mod __NCPUBITS)).

(** [memset] of the first [n] bytes of the words to zero. *)
Fixpoint zero_bytes (n : Z) (l : list Z) : list Z :=
  match l with
  | [] => []
  | w :: l =>
      if n <=? 0 then w :: l
      else if 4 <=? n then 0 :: zero_bytes (n - 4) l
      else ((w >> (8 * n)) << (8 * n)) :: l
  end.

(** [memcmp] of the first [n] bytes, for equality. *)
Fixpoint equal_bytes (n : Z) (l1 l2 : list Z) : bool :=
  match l1, l2 with
  | w1 :: l1, w2 :: l2 =>
      if n <=? 0 then true
      else if 4 <=? n then (w1 =? w2) && equal_bytes (n - 4) l1 l2
      else w1 mod 2 ^ (8 * n) =? w2 mod 2 ^ (8 * n)
  | _, _ => true
  end.

Definition in_object (size : Z) (l : list Z) : bool := size <=? 4 * Z.of_nat (length l).

Definition CPU_ZERO_S (setsize : Z) (s : nat) : M mem unit := λ m,
  l ← m !! s;
  if in_object setsize l then Some (tt, <[s := zero_bytes setsize l]> m) else None.

Definition CPU_SET_S (cpu setsize : Z) (s : nat) : M mem Z :=
  let cpu := u32 cpu in
  if cpu / 8 <? setsize then
    w ← load s (__CPUELT cpu);
    let w := u32 (w .| __CPUMASK cpu) in
    store s (__CPUELT cpu) w;; mret w
  else mret 0.

Definition CPU_CLR_S (cpu setsize : Z) (s : nat) : M mem Z :=
  let cpu := u32 cpu in
  if cpu / 8 <? setsize then
    w ← load s (__CPUELT cpu);
    let w := u32 (w .& Z.lnot (__CPUMASK cpu)) in
    store s (__CPUELT cpu) w;; mret w
  else mret 0.

Definition CPU_ISSET_S (cpu setsize : Z) (s : nat) : M mem bool :=
  let cpu := u32 cpu in
  if cpu / 8 <? setsize then
    w ← load s (__CPUELT cpu);
    mret (negb ((w .& __CPUMASK cpu) =? 0))
  else mret false.

Definition CPU_EQUAL_S (setsize : Z) (s1 s2 : nat) : M mem bool := λ m,
  l1 ← m !! s1; l2 ← m !! s2;
  if in_object setsize l1 && in_object setsize l2 then Some (equal_bytes setsize l1 l2, m) else None.

Definition CPU_OP_S (setsize : Z) (op : Z → Z → Z) (dest s1 s2 : nat) : M mem nat :=
  for_loop 0 (Z.to_nat (setsize / 4)) (λ i,
    a ← load s1 (Z.of_nat i);
    b ← load s2 (Z.of_nat i);
    store dest (Z.of_nat i) (u32 (op a b)));;
  mret dest.

Definition CPU_ALLOC_SIZE (count : Z) : Z :=
  u32 (u32 (u32 (count + __NCPUBITS) - 1) / __NCPUBITS * 4).

Definition CPU_SET (cpu : Z) : nat → M mem Z := CPU_SET_S cpu sizeof_cpu_set_t.
Definition CPU_CLR (cpu : Z) : nat → M mem Z := CPU_CLR_S cpu sizeof_cpu_set_t.
Definition CPU_ISSET (cpu : Z) : nat → M mem bool := CPU_ISSET_S cpu sizeof_cpu_set_t.
Definition CPU_ZERO : nat → M mem unit := CPU_ZERO_S sizeof_cpu_set_t.
Definition CPU_EQUAL : nat → nat → M mem bool := CPU_EQUAL_S sizeof_cpu_set_t.
Definition CPU_AND : nat → nat → nat → M mem nat := CPU_OP_S sizeof_cpu_set_t Z.land.
Definition CPU_OR : nat → nat → nat → M mem nat := CPU_OP_S sizeof_cpu_set_t Z.lor.
Definition CPU_XOR : nat → nat → nat → M mem nat := CPU_OP_S sizeof_cpu_set_t Z.lxor.

(** * The set that an object holds *)

Definition bit (l : list Z) (n : Z) : bool :=
  match l !! Z.to_nat (n / 32) with
  | Some w => Z.testbit w (n mod 32)
  | None => false
  end.

Definition wf (l : list Z) : Prop := length l = 32%nat ∧ Forall is_u32 l.

Definition set_of (l : list Z) : gset Z := list_to_set (filter (λ n, bit l n = true) (seqZ 0 1024)).

Lemma elem_of_set_of l n : n ∈ set_of l ↔ 0 <= n < 1024 ∧ bit l n = true.
Proof.
  unfold set_of. rewrite elem_of_list_to_set, list_elem_of_filter, elem_of_seqZ. intuition lia.
Qed.

Lemma set_of_unique l (X : gset Z) :
  (∀ n, n ∈ X ↔ 0 <= n < 1024 ∧ bit l n = true) → set_of l = X.
Proof. intros HX. apply set_eq. intros n. by rewrite elem_of_set_of, HX. Qed.

(** ** Words *)

Lemma pow2_u32 n : 0 <= n < 32 → u32 (1 << n) = 2 ^ n.
Proof.
  intros. rewrite Z.shiftl_1_l. apply u32_id. unfold is_u32.
  pose proof (Z.pow_pos_nonneg 2 n). change 4294967296 with (2 ^ 32).
  split; [lia|]. apply Z.pow_lt_mono_r; lia.
Qed.

Lemma u32_testbit w j : 0 <= j < 32 → Z.testbit (u32 w) j = Z.testbit w j.
Proof. intros. apply (Z.mod_pow2_bits_low w 32). lia. Qed.

Lemma u32_testbit_high w j : is_u32 w → 32 <= j → Z.testbit w j = false.
Proof. intros Hw Hj. rewrite <-(u32_id w Hw). apply (Z.mod_pow2_bits_high w 32). lia. Qed.

Lemma set_bit_testbit w n j :
  0 <= n < 32 → 0 <= j < 32 →
  Z.testbit (u32 (w .| u32 (1 << n))) j = Z.testbit w j || (j =? n).
Proof.
  intros. rewrite u32_testbit, pow2_u32, Z.lor_spec by lia. by rewrite Z.pow2_bits_eqb, Z.eqb_sym by lia.
Qed.

Lemma clear_bit_testbit w n j :
  0 <= n < 32 → 0 <= j < 32 →
  Z.testbit (u32 (w .& Z.lnot (u32 (1 << n)))) j = Z.testbit w j && negb (j =? n).
Proof.
  intros. rewrite u32_testbit, pow2_u32, Z.land_spec, Z.lnot_spec by lia.
  by rewrite Z.pow2_bits_eqb, Z.eqb_sym by lia.
Qed.

Lemma test_bit_nonzero w n :
  0 <= n < 32 → negb ((w .& u32 (1 << n)) =? 0) = Z.testbit w n.
Proof.
  intros. rewrite pow2_u32 by lia.
  assert ((w .& 2 ^ n) = if Z.testbit w n then 2 ^ n else 0) as ->.
  { apply Z.bits_inj'. intros j Hj. rewrite Z.land_spec, Z.pow2_bits_eqb by lia.
    destruct (Z.eqb_spec n j) as [<-|Hne].
    - rewrite andb_true_r. destruct (Z.testbit w n) eqn:E; [by rewrite Z.pow2_bits_true by lia|by rewrite Z.bits_0].
    - rewrite andb_false_r. destruct (Z.testbit w n); [by rewrite Z.pow2_bits_false by lia|by rewrite Z.bits_0]. }
  pose proof (Z.pow_pos_nonneg 2 n). destruct (Z.testbit w n); [|done].
  destruct (Z.eqb_spec (2 ^ n) 0); [lia|done].
Qed.

(** ** Updating one word *)

Lemma lookup_word l n : wf l → 0 <= n < 1024 → ∃ w, l !! Z.to_nat (n / 32) = Some w ∧ is_u32 w.
Proof.
  intros [Hlen Hall] Hn. assert (Z.to_nat (n / 32) < length l)%nat as Hlt.
  { rewrite Hlen. assert (n / 32 < 32) by (apply Z.div_lt_upper_bound; lia).
    assert (0 <= n / 32) by (apply Z.div_pos; lia). lia. }
  apply lookup_lt_is_Some in Hlt as [w Hw]. exists w. split; [done|].
  by eapply Forall_lookup_1.
Qed.

Lemma wf_insert l k w : wf l → is_u32 w → wf (<[k := w]> l).
Proof. intros [Hlen Hall] Hw. split; [by rewrite length_insert|by apply Forall_insert]. Qed.

Lemma bit_insert l n w k :
  wf l → 0 <= n < 1024 → 0 <= k < 1024 →
  bit (<[Z.to_nat (n / 32) := w]> l) k =
  if k / 32 =? n / 32 then Z.testbit w (k mod 32) else bit l k.
Proof.
  intros Hl Hn Hk. unfold bit. destruct (lookup_word l n Hl Hn) as (w0 & Hw0 & _).
  pose proof (Z.div_pos n 32). pose proof (Z.div_pos k 32).
  destruct (Z.eqb_spec (k / 32) (n / 32)) as [->|Hne].
  - rewrite list_lookup_insert_eq; [done|]. by eapply lookup_lt_Some.
  - rewrite list_lookup_insert_ne; [done|]. intros E. apply Hne. lia.
Qed.

(** What becomes of the set when the word of the element [n] is changed at that bit. *)
Lemma set_of_insert l n w w' b (X : gset Z) :
  wf l → 0 <= n < 1024 → l !! Z.to_nat (n / 32) = Some w →
  (∀ j, 0 <= j < 32 → Z.testbit w' j = if j =? n mod 32 then b else Z.testbit w j) →
  (∀ k, k ∈ X ↔ if k =? n then b = true else k ∈ set_of l) →
  set_of (<[Z.to_nat (n / 32) := w']> l) = X.
Proof.
  intros Hl Hn Hw Hw' HX. apply set_of_unique. intros k. rewrite HX.
  pose proof (Z.div_mod k 32). pose proof (Z.div_mod n 32). pose proof (Z.mod_pos_bound k 32).
  destruct (decide (0 <= k < 1024)) as [Hk|Hk].
  2: { destruct (Z.eqb_spec k n); [lia|]. rewrite elem_of_set_of. tauto. }
  rewrite bit_insert by done. destruct (Z.eqb_spec (k / 32) (n / 32)) as [E|E].
  - rewrite Hw' by lia.
    destruct (Z.eqb_spec (k mod 32) (n mod 32)), (Z.eqb_spec k n); try lia; [tauto|].
    rewrite elem_of_set_of. unfold bit. rewrite E, Hw. done.
  - destruct (Z.eqb_spec k n) as [->|]; [done|]. by rewrite elem_of_set_of.
Qed.

(** ** One operation on one element *)

Lemma load_word (m : mem) p i l w :
  m !! p = Some l → l !! Z.to_nat i = Some w → 0 <= i → load p i m = Some (w, m).
Proof.
  intros Hp Hw Hi. unfold load. rewrite Hp. cbn. destruct (Z.leb_spec 0 i); [|lia]. by rewrite Hw.
Qed.

Lemma store_word (m : mem) p i l w w' :
  m !! p = Some l → l !! Z.to_nat i = Some w → 0 <= i →
  store p i w' m = Some (tt, <[p := <[Z.to_nat i := w']> l]> m).
Proof.
  intros Hp Hw Hi. unfold store. rewrite Hp. cbn. apply lookup_lt_Some in Hw.
  destruct (Z.leb_spec 0 i), (Z.ltb_spec i (Z.of_nat (length l))); (done || lia).
Qed.

Lemma set_of_set l n w :
  wf l → 0 <= n < 1024 → l !! Z.to_nat (n / 32) = Some w →
  let l' := <[Z.to_nat (n / 32) := u32 (w .| u32 (1 << (n mod 32)))]> l in
  wf l' ∧ set_of l' = {[n]} ∪ set_of l.
Proof.
  intros Hl Hn Hw. pose proof (Z.mod_pos_bound n 32). split; [apply wf_insert; auto with c_range|].
  apply set_of_insert with w true; [done..| |].
  - intros j Hj. rewrite set_bit_testbit by lia. by destruct (j =? n mod 32), (Z.testbit w j).
  - intros k. rewrite elem_of_union, elem_of_singleton. destruct (Z.eqb_spec k n); tauto.
Qed.

Lemma set_of_clear l n w :
  wf l → 0 <= n < 1024 → l !! Z.to_nat (n / 32) = Some w →
  let l' := <[Z.to_nat (n / 32) := u32 (w .& Z.lnot (u32 (1 << (n mod 32))))]> l in
  wf l' ∧ set_of l' = set_of l ∖ {[n]}.
Proof.
  intros Hl Hn Hw. pose proof (Z.mod_pos_bound n 32). split; [apply wf_insert; auto with c_range|].
  apply set_of_insert with w false; [done..| |].
  - intros j Hj. rewrite clear_bit_testbit by lia. by destruct (j =? n mod 32), (Z.testbit w j).
  - intros k. rewrite elem_of_difference, elem_of_singleton.
    destruct (Z.eqb_spec k n); [split; [tauto|done]|tauto].
Qed.

Lemma set_of_test l n w :
  0 <= n < 1024 → l !! Z.to_nat (n / 32) = Some w →
  negb ((w .& u32 (1 << (n mod 32))) =? 0) = bool_decide (n ∈ set_of l).
Proof.
  intros Hn Hw. pose proof (Z.mod_pos_bound n 32). rewrite test_bit_nonzero by lia.
  symmetry. destruct (Z.testbit w (n mod 32)) eqn:E.
  - apply bool_decide_eq_true_2, elem_of_set_of. unfold bit. by rewrite Hw.
  - apply bool_decide_eq_false_2. rewrite elem_of_set_of. unfold bit. rewrite Hw, E. intros [_ ?]. done.
Qed.

Lemma wf_empty : wf (replicate 32 0).
Proof. split; [done|]. apply Forall_replicate. unfold is_u32. lia. Qed.

Lemma set_of_empty : set_of (replicate 32 0) = ∅.
Proof.
  apply set_of_unique. intros n. split; [set_solver|]. intros [_ Hb]. exfalso. unfold bit in Hb.
  destruct (replicate 32 0 !! _) as [w|] eqn:E; [|done].
  apply lookup_replicate in E as [-> _]. by rewrite Z.bits_0 in Hb.
Qed.

(** * The interface of the two kinds of set *)

Class BitSet := {
  bs_zero : nat → M mem unit;
  bs_set : Z → nat → M mem unit;
  bs_clear : Z → nat → M mem unit;
  bs_isset : Z → nat → M mem bool
}.

(** Each operation changes its object only, and that as a set of numbers below 1024. *)
Class BitSetLaws (B : BitSet) : Prop := {
  bs_zero_law (m : mem) s l :
    m !! s = Some l → wf l →
    bs_zero s m = Some (tt, <[s := replicate 32 0]> m);
  bs_set_law (m : mem) s l n :
    m !! s = Some l → wf l → 0 <= n < 1024 →
    ∃ l', bs_set n s m = Some (tt, <[s := l']> m) ∧ wf l' ∧ set_of l' = {[n]} ∪ set_of l;
  bs_clear_law (m : mem) s l n :
    m !! s = Some l → wf l → 0 <= n < 1024 →
    ∃ l', bs_clear n s m = Some (tt, <[s := l']> m) ∧ wf l' ∧ set_of l' = set_of l ∖ {[n]};
  bs_isset_law (m : mem) s l n :
    m !! s = Some l → wf l → 0 <= n < 1024 →
    bs_isset n s m = Some (bool_decide (n ∈ set_of l), m)
}.

(** ** Loops over the words *)

Lemma bind_run {A B} (c : M mem A) (k : A → M mem B) m a m' :
  c m = Some (a, m') → (c ≫= k) m = k a m'.
Proof. intros H. unfold mbind, M_bind. by rewrite H. Qed.

(** A loop whose body replaces the word [i] of [d] by [f i], given the words from [i] on
    as they were before the loop. *)
Lemma fill_loop (body : nat → M mem unit) (f : nat → Z) d (m : mem) l0 :
  (∀ i l, (i < 32)%nat → length l = 32%nat → drop i l = drop i l0 →
     body i (<[d := l]> m) = Some (tt, <[d := <[i := f i]> l]> m)) →
  ∀ k i l, (i + k = 32)%nat → length l = 32%nat → drop i l = drop i l0 →
    for_loop i k body (<[d := l]> m) = Some (tt, <[d := take i l ++ (f <$> seq i k)]> m).
Proof.
  intros Hbody. induction k as [|k IH]; intros i l Hik Hlen Hdrop; cbn [for_loop].
  - cbn. rewrite app_nil_r, take_ge by lia. done.
  - rewrite (bind_run _ _ _ _ _ (Hbody i l ltac:(lia) Hlen Hdrop)), IH.
    + do 3 f_equal. rewrite (take_S_r _ i (f i)) by (rewrite list_lookup_insert_eq; [done|lia]).
      rewrite take_insert_ge by lia. by rewrite <-app_assoc.
    + lia.
    + by rewrite length_insert.
    + rewrite drop_insert_lt by lia.
      apply (f_equal (drop 1)) in Hdrop. rewrite !drop_drop, Nat.add_1_r in Hdrop. done.
Qed.

Lemma store_inserted (m : mem) p i l w :
  (i < length l)%nat → store p (Z.of_nat i) w (<[p := l]> m) = Some (tt, <[p := <[i := w]> l]> m).
Proof.
  intros Hi. destruct (lookup_lt_is_Some_2 l i Hi) as [w0 Hw0].
  rewrite (store_word _ p _ l w0); rewrite ?Nat2Z.id; [|apply lookup_insert_eq|done|lia].
  by rewrite insert_insert_eq.
Qed.

(** The whole loop, from the first word on. *)
Lemma fill_object (body : nat → M mem unit) (f : nat → Z) d (m : mem) l0 :
  m !! d = Some l0 → length l0 = 32%nat →
  (∀ i l, (i < 32)%nat → length l = 32%nat → drop i l = drop i l0 →
     body i (<[d := l]> m) = Some (tt, <[d := <[i := f i]> l]> m)) →
  for_loop 0 32 body m = Some (tt, <[d := f <$> seq 0 32]> m).
Proof.
  intros Hd Hlen Hbody. pose proof (fill_loop body f d m l0 Hbody 32 0 l0 eq_refl Hlen eq_refl) as H.
  by rewrite insert_id in H.
Qed.

(** ** The two instances *)

#[export] Instance fd_set_ops : BitSet := {
  bs_zero := FD_ZERO;
  bs_set := FD_SET;
  bs_clear := FD_CLR;
  bs_isset := FD_ISSET
}.

#[export] Instance cpu_set_ops : BitSet := {
  bs_zero := CPU_ZERO;
  bs_set cpu s := CPU_SET cpu s;; mret tt;
  bs_clear cpu s := CPU_CLR cpu s;; mret tt;
  bs_isset := CPU_ISSET
}.

Lemma FD_ZERO_empties (m : mem) s l :
  m !! s = Some l → wf l → FD_ZERO s m = Some (tt, <[s := replicate 32 0]> m).
Proof.
  intros Hs [Hlen _]. apply (fill_object _ (λ _, 0) s m l Hs Hlen).
  intros i l' Hi Hl' _. apply store_inserted. lia.
Qed.

Lemma fd_word d (m : mem) s l :
  m !! s = Some l → wf l → 0 <= d < 1024 →
  ∃ w, l !! Z.to_nat (d / 32) = Some w ∧ load s (__FD_ELT d) m = Some (w, m) ∧
    (∀ w', store s (__FD_ELT d) w' m = Some (tt, <[s := <[Z.to_nat (d / 32) := w']> l]> m)) ∧
    __FD_MASK d m = Some (u32 (1 << (d mod 32)), m).
Proof.
  intros Hs Hl Hd. destruct (lookup_word l d Hl Hd) as (w & Hw & _). exists w.
  pose proof (Z.div_pos d 32). pose proof (Z.mod_pos_bound d 32).
  unfold __FD_ELT, __FD_MASK, __NFDBITS. change (8 * 4) with 32.
  rewrite Z.quot_div_nonneg, Z.rem_mod_nonneg by lia. destruct (Z.leb_spec 0 (d mod 32)); [|lia].
  split_and!; [done|apply (load_word m s _ l); (done || lia)| |done].
  intros w'. apply (store_word m s _ l w); (done || lia).
Qed.

#[export] Instance fd_set_laws : BitSetLaws fd_set_ops.
Proof.
  constructor; cbn [bs_zero bs_set bs_clear bs_isset fd_set_ops].
  - apply FD_ZERO_empties.
  - intros m s l n Hs Hl Hn. destruct (fd_word n m s l Hs Hl Hn) as (w & Hw & Hload & Hstore & Hmask).
    eexists. split; [|by apply set_of_set].
    unfold FD_SET. rewrite (bind_run _ _ _ _ _ Hmask), (bind_run _ _ _ _ _ Hload). apply Hstore.
  - intros m s l n Hs Hl Hn. destruct (fd_word n m s l Hs Hl Hn) as (w & Hw & Hload & Hstore & Hmask).
    eexists. split; [|by apply set_of_clear].
    unfold FD_CLR. rewrite (bind_run _ _ _ _ _ Hmask), (bind_run _ _ _ _ _ Hload). apply Hstore.
  - intros m s l n Hs Hl Hn. destruct (fd_word n m s l Hs Hl Hn) as (w & Hw & Hload & Hstore & Hmask).
    unfold FD_ISSET. rewrite (bind_run _ _ _ _ _ Hmask), (bind_run _ _ _ _ _ Hload). by rewrite (set_of_test l).
Qed.

Lemma zero_bytes_all l : zero_bytes (4 * Z.of_nat (length l)) l = replicate (length l) 0.
Proof.
  induction l as [|w l IH]; [done|]. cbn [zero_bytes length replicate].
  destruct (Z.leb_spec (4 * Z.of_nat (S (length l))) 0); [lia|].
  destruct (Z.leb_spec 4 (4 * Z.of_nat (S (length l)))); [|lia].
  f_equal. rewrite <-IH. f_equal. lia.
Qed.

Lemma cpu_word cpu (m : mem) s l :
  m !! s = Some l → wf l → 0 <= cpu < 1024 →
  ∃ w, l !! Z.to_nat (cpu / 32) = Some w ∧ load s (__CPUELT cpu) m = Some (w, m) ∧
    (∀ w', store s (__CPUELT cpu) w' m = Some (tt, <[s := <[Z.to_nat (cpu / 32) := w']> l]> m)) ∧
    u32 cpu = cpu ∧ (cpu / 8 <? sizeof_cpu_set_t) = true.
Proof.
  intros Hs Hl Hd. destruct (lookup_word l cpu Hl Hd) as (w & Hw & _). exists w.
  pose proof (Z.div_pos cpu 32). unfold __CPUELT, __NCPUBITS. change (8 * 4) with 32.
  split_and!; [done|apply (load_word m s _ l); (done || lia)| | |].
  - intros w'. apply (store_word m s _ l w); (done || lia).
  - apply u32_id. unfold is_u32. lia.
  - apply Z.ltb_lt, Z.div_lt_upper_bound; [lia|]. change sizeof_cpu_set_t with 128. lia.
Qed.

#[export] Instance cpu_set_laws : BitSetLaws cpu_set_ops.
Proof.
  constructor; cbn [bs_zero bs_set bs_clear bs_isset cpu_set_ops].
  - intros m s l Hs [Hlen _]. unfold CPU_ZERO, CPU_ZERO_S, in_object. rewrite Hs. cbn -[zero_bytes].
    rewrite Hlen. cbn -[zero_bytes]. pose proof (zero_bytes_all l) as Hz. rewrite Hlen in Hz.
    change sizeof_cpu_set_t with (4 * Z.of_nat 32). by rewrite Hz.
  - intros m s l n Hs Hl Hn. destruct (cpu_word n m s l Hs Hl Hn) as (w & Hw & Hload & Hstore & Hu & Hlt).
    eexists. split; [|by apply set_of_set].
    unfold CPU_SET, CPU_SET_S. rewrite Hu, Hlt. unfold mbind, M_bind. by rewrite Hload, Hstore.
  - intros m s l n Hs Hl Hn. destruct (cpu_word n m s l Hs Hl Hn) as (w & Hw & Hload & Hstore & Hu & Hlt).
    eexists. split; [|by apply set_of_clear].
    unfold CPU_CLR, CPU_CLR_S. rewrite Hu, Hlt. unfold mbind, M_bind. by rewrite Hload, Hstore.
  - intros m s l n Hs Hl Hn. destruct (cpu_word n m s l Hs Hl Hn) as (w & Hw & Hload & Hstore & Hu & Hlt).
    unfold CPU_ISSET, CPU_ISSET_S. rewrite Hu, Hlt, (bind_run _ _ _ _ _ Hload). by rewrite <-(set_of_test l n w Hn Hw).
Qed.

(** * Any sequence of operations, on any number of sets *)

Inductive set_op : Type :=
  | OpZero (s : nat)
  | OpSet (n : Z) (s : nat)
  | OpClear (n : Z) (s : nat)
  | OpIsset (n : Z) (s : nat).

Definition op_object (o : set_op) : nat :=
  match o with OpZero s | OpSet _ s | OpClear _ s | OpIsset _ s => s end.

Definition op_in_range (o : set_op) : bool :=
  match o with
  | OpZero _ => true
  | OpSet n _ | OpClear n _ | OpIsset n _ => (0 <=? n) && (n <? 1024)
  end.

(** The program on the words: the answers of its tests. *)
Definition run_op `{BitSet} (o : set_op) : M mem (list bool) :=
  match o with
  | OpZero s => bs_zero s;; mret []
  | OpSet n s => bs_set n s;; mret []
  | OpClear n s => bs_clear n s;; mret []
  | OpIsset n s => b ← bs_isset n s; mret [b]
  end.

Fixpoint run_ops `{BitSet} (os : list set_op) : M mem (list bool) :=
  match os with
  | [] => mret []
  | o :: os => r ← run_op o; rs ← run_ops os; mret (r ++ rs)
  end.

(** The same program on finite sets of numbers. *)
Definition spec_op (o : set_op) (X : gset Z) : list bool * gset Z :=
  match o with
  | OpZero _ => ([], ∅)
  | OpSet n _ => ([], {[n]} ∪ X)
  | OpClear n _ => ([], X ∖ {[n]})
  | OpIsset n _ => ([bool_decide (n ∈ X)], X)
  end.

Fixpoint spec_ops (os : list set_op) (G : gmap nat (gset Z)) : list bool * gmap nat (gset Z) :=
  match os with
  | [] => ([], G)
  | o :: os =>
      let '(r, X) := spec_op o (G !!! op_object o) in
      let '(rs, G) := spec_ops os (<[op_object o := X]> G) in
      (r ++ rs, G)
  end.

(** The objects of the memory, as sets. *)
Definition sets_of (m : mem) : gmap nat (gset Z) := set_of <$> m.

Definition wf_mem (m : mem) : Prop := map_Forall (λ _ l, wf l) m.

Section refinement.

Context {B : BitSet} {HB : BitSetLaws B}.

Lemma run_op_refines (m : mem) o l :
  m !! op_object o = Some l → wf l → op_in_range o = true →
  ∃ l', run_op o m = Some ((spec_op o (set_of l)).1, <[op_object o := l']> m) ∧
    wf l' ∧ set_of l' = (spec_op o (set_of l)).2.
Proof.
  intros Hs Hl Hr.
  destruct o as [s|n s|n s|n s]; cbn in Hs, Hr |- *;
    try (apply andb_true_iff in Hr as [?%Z.leb_le ?%Z.ltb_lt]).
  - exists (replicate 32 0). rewrite (bind_run _ _ _ _ _ (bs_zero_law m s l Hs Hl)).
    split_and!; [done|apply wf_empty|apply set_of_empty].
  - destruct (bs_set_law m s l n Hs Hl) as (l' & Hrun & ?); [done|]. exists l'.
    by rewrite (bind_run _ _ _ _ _ Hrun).
  - destruct (bs_clear_law m s l n Hs Hl) as (l' & Hrun & ?); [done|]. exists l'.
    by rewrite (bind_run _ _ _ _ _ Hrun).
  - exists l. rewrite (bind_run _ _ _ _ _ (bs_isset_law m s l n Hs Hl ltac:(done))).
    by rewrite insert_id.
Qed.

Lemma run_ops_refines os : ∀ m : mem,
  wf_mem m →
  Forall (λ o, is_Some (m !! op_object o) ∧ op_in_range o = true) os →
  ∃ m', run_ops os m = Some ((spec_ops os (sets_of m)).1, m') ∧
    wf_mem m' ∧ sets_of m' = (spec_ops os (sets_of m)).2.
Proof.
  induction os as [|o os IH]; intros m Hm Hos; [by exists m|].
  apply Forall_cons in Hos as [[[l Hl] Hr] Hos].
  destruct (run_op_refines m o l Hl (Hm _ _ Hl) Hr) as (l' & Hrun & Hl' & Hset).
  destruct (IH (<[op_object o := l']> m)) as (m' & Hrest & Hm' & Hsets).
  { by apply map_Forall_insert_2. }
  { eapply Forall_impl; [exact Hos|]. intros o' [Ho' ?]. split; [|done].
    apply lookup_insert_is_Some'. by right. }
  assert (sets_of m !!! op_object o = set_of l) as Hget.
  { unfold sets_of. apply lookup_total_correct. by rewrite lookup_fmap, Hl. }
  exists m'. cbn [run_ops spec_ops]. rewrite Hget, (bind_run _ _ _ _ _ Hrun), (bind_run _ _ _ _ _ Hrest).
  assert (sets_of (<[op_object o := l']> m) = <[op_object o := (spec_op o (set_of l)).2]> (sets_of m))
    as Hins by (unfold sets_of; by rewrite fmap_insert, Hset).
  clear Hrest. rewrite Hins in Hsets |- *. destruct (spec_op o (set_of l)) as [r X]. cbn in Hsets |- *.
  by destruct (spec_ops os _) as [rs G].
Qed.

End refinement.

(** * The operations on two sets *)

Lemma set_of_zip (op : Z → Z → Z) (bop : bool → bool → bool) l1 l2 n :
  wf l1 → wf l2 → 0 <= n < 1024 →
  (∀ a b j, 0 <= j → Z.testbit (op a b) j = bop (Z.testbit a j) (Z.testbit b j)) →
  bit ((λ i, u32 (op (l1 !!! i) (l2 !!! i))) <$> seq 0 32) n = bop (bit l1 n) (bit l2 n).
Proof.
  intros Hl1 Hl2 Hn Hop. unfold bit.
  destruct (lookup_word l1 n Hl1 Hn) as (w1 & Hw1 & _), (lookup_word l2 n Hl2 Hn) as (w2 & Hw2 & _).
  pose proof (lookup_lt_Some _ _ _ Hw1) as Hlt. rewrite (proj1 Hl1) in Hlt.
  pose proof (Z.mod_pos_bound n 32).
  rewrite list_lookup_fmap, lookup_seq_lt, Hw1, Hw2 by done. cbn [fmap option_fmap option_map].
  rewrite Nat.add_0_l, (list_lookup_total_correct _ _ _ Hw1), (list_lookup_total_correct _ _ _ Hw2).
  rewrite u32_testbit by lia. apply Hop. lia.
Qed.

Lemma wf_words f : wf ((λ i : nat, u32 (f i)) <$> seq 0 32).
Proof.
  split; [by rewrite length_fmap, length_seq|]. apply Forall_fmap, Forall_true.
  intros i. apply u32_range.
Qed.

(** A word of an operand as the loop finds it, also where the operand is the destination. *)
Lemma load_operand (m : mem) d s i l ls ld :
  m !! s = Some ls → m !! d = Some ld → (i < length ls)%nat → drop i l = drop i ld →
  load s (Z.of_nat i) (<[d := l]> m) = Some (ls !!! i, <[d := l]> m).
Proof.
  intros Hs Hd Hi Hdrop. destruct (lookup_lt_is_Some_2 ls i Hi) as [w Hw].
  rewrite (list_lookup_total_correct _ _ _ Hw).
  destruct (decide (s = d)) as [->|Hne].
  - apply load_word with l; rewrite ?Nat2Z.id; [apply lookup_insert_eq| |lia].
    simplify_eq. pose proof (lookup_drop l i 0) as E. rewrite Hdrop, lookup_drop, Nat.add_0_r in E. congruence.
  - apply load_word with ls; rewrite ?Nat2Z.id; [by rewrite lookup_insert_ne|done|lia].
Qed.

Lemma CPU_OP_run (op : Z → Z → Z) (m : mem) d s1 s2 ld l1 l2 :
  m !! d = Some ld → m !! s1 = Some l1 → m !! s2 = Some l2 → wf ld → wf l1 → wf l2 →
  CPU_OP_S sizeof_cpu_set_t op d s1 s2 m =
  Some (d, <[d := (λ i, u32 (op (l1 !!! i) (l2 !!! i))) <$> seq 0 32]> m).
Proof.
  intros Hd H1 H2 [Hld _] [Hl1 _] [Hl2 _]. unfold CPU_OP_S.
  change (Z.to_nat (sizeof_cpu_set_t / 4)) with 32%nat.
  erewrite bind_run; [done|]. apply (fill_object _ _ d m ld Hd Hld). intros i l Hi Hl Hdrop.
  erewrite bind_run by (apply (load_operand m d s1 i l l1 ld); (done || lia)).
  erewrite bind_run by (apply (load_operand m d s2 i l l2 ld); (done || lia)).
  apply store_inserted. lia.
Qed.

Lemma equal_bytes_all l1 l2 :
  length l1 = length l2 → equal_bytes (4 * Z.of_nat (length l1)) l1 l2 = bool_decide (l1 = l2).
Proof.
  revert l2. induction l1 as [|w1 l1 IH]; intros [|w2 l2] Hlen; try done.
  cbn [equal_bytes length].
  destruct (Z.leb_spec (4 * Z.of_nat (S (length l1))) 0); [lia|].
  destruct (Z.leb_spec 4 (4 * Z.of_nat (S (length l1)))); [|lia].
  replace (4 * Z.of_nat (S (length l1)) - 4) with (4 * Z.of_nat (length l1)) by lia.
  rewrite IH by (by injection Hlen). destruct (Z.eqb_spec w1 w2) as [->|Hne]; cbn.
  - apply bool_decide_ext. split; congruence.
  - symmetry. apply bool_decide_eq_false. congruence.
Qed.

(** The words are determined by the set. *)
Lemma set_of_inj l1 l2 : wf l1 → wf l2 → set_of l1 = set_of l2 → l1 = l2.
Proof.
  intros [Hlen1 Hu1] [Hlen2 Hu2] Heq. apply list_eq_same_length with 32%nat; [done..|].
  intros i w1 w2 Hi Hw1 Hw2. apply Z.bits_inj'. intros j Hj.
  pose proof (Forall_lookup_1 _ _ _ _ Hu1 Hw1). pose proof (Forall_lookup_1 _ _ _ _ Hu2 Hw2).
  destruct (decide (j < 32)) as [Hlt|Hge].
  - assert (0 <= 32 * Z.of_nat i + j < 1024) as Hn by lia.
    assert ((32 * Z.of_nat i + j) / 32 = Z.of_nat i) as Hq by (symmetry; apply Z.div_unique with j; lia).
    assert ((32 * Z.of_nat i + j) mod 32 = j) as Hr by (symmetry; apply Z.mod_unique with (Z.of_nat i); lia).
    pose proof (elem_of_set_of l1 (32 * Z.of_nat i + j)) as E1.
    rewrite Heq, elem_of_set_of in E1. unfold bit in E1. rewrite Hq, Hr, Nat2Z.id, Hw1, Hw2 in E1.
    apply eq_true_iff_eq. tauto.
  - by rewrite !u32_testbit_high by (done || lia).
Qed.

(** * Numbers outside the sets *)

Lemma FD_MASK_run d m mask m' :
  __FD_MASK d m = Some (mask, m') → m' = m ∧ 0 <= Z.rem d 32.
Proof.
  unfold __FD_MASK, __NFDBITS. change (8 * 4) with 32.
  destruct (Z.leb_spec 0 (Z.rem d 32)); [|done]. cbn. intros [= _ <-]. done.
Qed.

Lemma fd_load_outside d (m : mem) s l mask m' :
  m !! s = Some l → wf l → ¬ 0 <= d < 1024 →
  __FD_MASK d m = Some (mask, m') → load s (__FD_ELT d) m' = None.
Proof.
  intros Hs [Hlen _] Hd [-> Hrem]%FD_MASK_run. unfold load. rewrite Hs. cbn.
  unfold __FD_ELT, __NFDBITS. change (8 * 4) with 32.
  pose proof (Z.quot_rem d 32). destruct (decide (d < 0)).
  - destruct (Z.leb_spec 0 (Z.quot d 32)); [lia|done].
  - pose proof (Z.rem_bound_pos d 32). destruct (Z.leb_spec 0 (Z.quot d 32)); [|done].
    rewrite (lookup_ge_None_2 l); [done|lia].
Qed.

Lemma fd_outside {A} d (m : mem) s l (k : Z → Z → M mem A) :
  m !! s = Some l → wf l → ¬ 0 <= d < 1024 →
  (mask ← __FD_MASK d; w ← load s (__FD_ELT d); k mask w) m = None.
Proof.
  intros Hs Hl Hd. unfold mbind, M_bind. destruct (__FD_MASK d m) as [[mask m']|] eqn:E; [|done].
  by rewrite (fd_load_outside d m s l mask m').
Qed.

Lemma cpu_outside cpu :
  -2147483648 <= cpu < 2147483648 → ¬ 0 <= cpu < 1024 → (u32 cpu / 8 <? sizeof_cpu_set_t) = false.
Proof.
  intros Hc Hn. apply Z.ltb_ge. change sizeof_cpu_set_t with 128. apply Z.div_le_lower_bound; [lia|].
  unfold u32. destruct (decide (0 <= cpu)).
  - rewrite Z.mod_small by lia. lia.
  - rewrite <-(Z.mod_unique cpu 4294967296 (-1) (cpu + 4294967296)); lia.
Qed.

(** * Properties *)

(** C33: whatever the words of the objects hold before, a program of any number of
    operations zeroing, adding to, removing from and testing any number of [fd_set]s gives
    the answers that finite sets of numbers below 1024 give, and leaves the objects holding
    those sets; the same program on [cpu_set_t]s does too. *)
Theorem word_sets_refine os (m : mem) :
  wf_mem m →
  Forall (λ o, is_Some (m !! op_object o) ∧ op_in_range o = true) os →
  (∃ m', run_ops (H := fd_set_ops) os m = Some ((spec_ops os (sets_of m)).1, m') ∧
     wf_mem m' ∧ sets_of m' = (spec_ops os (sets_of m)).2) ∧
  (∃ m', run_ops (H := cpu_set_ops) os m = Some ((spec_ops os (sets_of m)).1, m') ∧
     wf_mem m' ∧ sets_of m' = (spec_ops os (sets_of m)).2).
Proof. intros Hm Hos. split; by apply (run_ops_refines os m). Qed.

(** Two objects, one of them with every bit set. *)
Definition two_sets : mem := {[ 1%nat := replicate 32 4294967295; 2%nat := replicate 32 0 ]}.

Lemma two_sets_wf : wf_mem two_sets.
Proof. apply (bool_decide_unpack (wf_mem two_sets)). vm_compute. exact I. Qed.

Lemma word_sets_refine_witness :
  ∃ m', run_ops (H := fd_set_ops)
    [OpClear 1023 1; OpIsset 1023 1; OpIsset 31 1; OpSet 32 2; OpIsset 32 2; OpZero 1; OpIsset 31 1]
    two_sets = Some ([false; true; true; false], m').
Proof.
  destruct (word_sets_refine
    [OpClear 1023 1; OpIsset 1023 1; OpIsset 31 1; OpSet 32 2; OpIsset 32 2; OpZero 1; OpIsset 31 1]
    two_sets) as [(m' & Hrun & _) _].
  - exact two_sets_wf.
  - repeat constructor; by eexists.
  - exists m'. rewrite Hrun. vm_compute. reflexivity.
Defined.

(** [CPU_AND], [CPU_OR] and [CPU_XOR] store the intersection, the union and the symmetric
    difference of the operands, also where the destination is one of the operands or both,
    and return the destination; [CPU_EQUAL] tells whether two objects hold the same set. *)
Theorem cpu_set_algebra (m : mem) d s1 s2 ld l1 l2 :
  m !! d = Some ld → m !! s1 = Some l1 → m !! s2 = Some l2 → wf ld → wf l1 → wf l2 →
  let stores op X := ∃ l, op d s1 s2 m = Some (d, <[d := l]> m) ∧ wf l ∧ set_of l = X in
  stores CPU_AND (set_of l1 ∩ set_of l2) ∧
  stores CPU_OR (set_of l1 ∪ set_of l2) ∧
  stores CPU_XOR (set_of l1 ∖ set_of l2 ∪ set_of l2 ∖ set_of l1) ∧
  CPU_EQUAL s1 s2 m = Some (bool_decide (set_of l1 = set_of l2), m).
Proof.
  intros Hd H1 H2 Hld Hl1 Hl2 stores.
  assert (∀ op bop X,
    (∀ a b j, 0 <= j → Z.testbit (op a b) j = bop (Z.testbit a j) (Z.testbit b j)) →
    (∀ n, n ∈ X ↔ 0 <= n < 1024 ∧ bop (bit l1 n) (bit l2 n) = true) →
    stores (CPU_OP_S sizeof_cpu_set_t op) X) as Hop.
  { intros op bop X Hbits HX. eexists. split_and!; [by apply (CPU_OP_run op m d s1 s2 ld l1 l2)|apply wf_words|].
    apply set_of_unique. intros n. rewrite HX. split; intros [Hn Hb]; (split; [done|]);
      by rewrite (set_of_zip op bop) in * by done. }
  split_and!.
  - apply (Hop _ andb); [intros; apply Z.land_spec|].
    intros n. rewrite elem_of_intersection, !elem_of_set_of, andb_true_iff. tauto.
  - apply (Hop _ orb); [intros; apply Z.lor_spec|].
    intros n. rewrite elem_of_union, !elem_of_set_of, orb_true_iff. tauto.
  - apply (Hop _ xorb); [intros; apply Z.lxor_spec|]. intros n.
    rewrite elem_of_union, !elem_of_difference, !elem_of_set_of. destruct (bit l1 n), (bit l2 n); cbn; intuition done.
  - unfold CPU_EQUAL, CPU_EQUAL_S, in_object. rewrite H1, H2. cbn [mbind option_bind].
    rewrite (proj1 Hl1), (proj1 Hl2). cbn -[equal_bytes].
    pose proof (equal_bytes_all l1 l2) as E. rewrite (proj1 Hl1), (proj1 Hl2) in E.
    change sizeof_cpu_set_t with (4 * Z.of_nat 32). rewrite E by done. do 2 f_equal.
    apply bool_decide_ext. split; [by intros ->|by apply set_of_inj].
Qed.

Lemma cpu_set_algebra_witness :
  CPU_EQUAL 1 2 two_sets = Some (false, two_sets) ∧
  ∃ l, CPU_XOR 1 1 1 two_sets = Some (1%nat, <[1%nat := l]> two_sets) ∧ set_of l = ∅.
Proof.
  destruct (cpu_set_algebra two_sets 1 1 2 (replicate 32 4294967295) (replicate 32 4294967295)
    (replicate 32 0)) as (_ & _ & _ & E);
    [reflexivity..|apply (two_sets_wf 1%nat); reflexivity|apply (two_sets_wf 1%nat); reflexivity|apply wf_empty|].
  destruct (cpu_set_algebra two_sets 1 1 1 (replicate 32 4294967295) (replicate 32 4294967295)
    (replicate 32 4294967295)) as (_ & _ & (l & Hrun & _ & Hset) & _);
    [reflexivity..|apply (two_sets_wf 1%nat); reflexivity| | |]; try (apply (two_sets_wf 1%nat); reflexivity).
  split.
  - rewrite E, bool_decide_eq_false_2; [reflexivity|]. rewrite set_of_empty. intros Hempty.
    apply (not_elem_of_empty (C := gset Z) 0). rewrite <-Hempty. apply elem_of_set_of.
    split; [lia|reflexivity].
  - exists l. split; [exact Hrun|]. rewrite Hset. generalize (set_of (replicate 32 4294967295)). intros X. clear. set_solver.
Defined.

(** For a number outside 0 to 1023, negative ones included, [FD_SET], [FD_CLR] and
    [FD_ISSET] are undefined, and [CPU_SET], [CPU_CLR] and [CPU_ISSET] leave the memory as it
    is and return 0. *)
Theorem numbers_outside (m : mem) s l n :
  m !! s = Some l → wf l → -2147483648 <= n < 2147483648 → ¬ 0 <= n < 1024 →
  FD_SET n s m = None ∧ FD_CLR n s m = None ∧ FD_ISSET n s m = None ∧
  CPU_SET n s m = Some (0, m) ∧ CPU_CLR n s m = Some (0, m) ∧ CPU_ISSET n s m = Some (false, m).
Proof.
  intros Hs Hl Hint Hn. pose proof (cpu_outside n Hint Hn) as Hc.
  unfold CPU_SET, CPU_CLR, CPU_ISSET, CPU_SET_S, CPU_CLR_S, CPU_ISSET_S. rewrite Hc.
  split_and!; try done; by apply fd_outside with l.
Qed.

Lemma numbers_outside_witness :
  FD_SET 1024 1 two_sets = None ∧ CPU_SET (-1) 1 two_sets = Some (0, two_sets).
Proof.
  assert (wf (replicate 32 4294967295)) as Hl by (apply (two_sets_wf 1%nat); reflexivity).
  destruct (numbers_outside two_sets 1 (replicate 32 4294967295) 1024) as (H1 & _);
    [reflexivity|exact Hl|lia|lia|].
  destruct (numbers_outside two_sets 1 (replicate 32 4294967295) (-1)) as (_ & _ & _ & H2 & _);
    [reflexivity|exact Hl|lia|lia|].
  exact (conj H1 H2).
Defined.
