(* ===== verification/TimeVal.v ===== *)
(** * Time values, the macros of [sys/time.h]

    The memory holds the [struct timeval]s under pointers, since the result of an addition
    may be stored into one of its operands. [time_t] and [suseconds_t] are the [long] of a
    32-bit machine, and an overflow is undefined. *)
From stdpp Require Import base numbers list gmap.
From Stdlib Require Import ZArith Lia.
From S2P Require Import Prelude.

Definition is_long (z : Z) : Prop := -2147483648 <= z < 2147483648.

#[global] Instance is_long_dec z : Decision (is_long z).
Proof. unfold is_long. apply _. Defined.

Record timeval := Timeval { tv_sec : Z; tv_usec : Z }.
Record timespec := Timespec { ts_sec : Z; tv_nsec : Z }.

Abbreviation times := (gmap nat timeval).

Definition read (p : nat) : M times timeval := λ m, (λ t, (t, m)) <$> m !! p.
Definition set_tv_sec (p : nat) (v : Z) : M times unit := λ m,
  t ← m !! p; Some (tt, <[p := Timeval v (tv_usec t)]> m).
Definition set_tv_usec (p : nat) (v : Z) : M times unit := λ m,
  t ← m !! p; Some (tt, <[p := Timeval (tv_sec t) v]> m).

(** The value of a signed expression, if the type holds it. *)
Definition long {S} (z : Z) : M S Z := if decide (is_long z) then mret z else ub.

Definition timerisset (tvp : nat) : M times bool :=
  t ← read tvp; mret (truth (tv_sec t) || truth (tv_usec t)).

Definition timerclear (tvp : nat) : M times unit := set_tv_usec tvp 0;; set_tv_sec tvp 0.

Definition timercmp (a b : nat) (CMP : Z → Z → bool) : M times bool :=
  ta ← read a; tb ← read b;
  if tv_sec ta =? tv_sec tb then mret (CMP (tv_usec ta) (tv_usec tb))
  else mret (CMP (tv_sec ta) (tv_sec tb)).

Definition timeradd (a b result : nat) : M times unit :=
  ta ← read a; tb ← read b;
  s ← long (tv_sec ta + tv_sec tb); set_tv_sec result s;;
  ta ← read a; tb ← read b;
  u ← long (tv_usec ta + tv_usec tb); set_tv_usec result u;;
  r ← read result;
  if 1000000 <=? tv_usec r then
    s ← long (tv_sec r + 1); set_tv_sec result s;;
    r ← read result;
    u ← long (tv_usec r - 1000000); set_tv_usec result u
  else mret tt.

Definition timersub (a b result : nat) : M times unit :=
  ta ← read a; tb ← read b;
  s ← long (tv_sec ta - tv_sec tb); set_tv_sec result s;;
  ta ← read a; tb ← read b;
  u ← long (tv_usec ta - tv_usec tb); set_tv_usec result u;;
  r ← read result;
  if tv_usec r <? 0 then
    s ← long (tv_sec r - 1); set_tv_sec result s;;
    r ← read result;
    u ← long (tv_usec r + 1000000); set_tv_usec result u
  else mret tt.

Definition TIMEVAL_TO_TIMESPEC (tv : timeval) : option timespec :=
  let n := tv_usec tv * 1000 in
  if decide (is_long n) then Some (Timespec (tv_sec tv) n) else None.

Definition TIMESPEC_TO_TIMEVAL (ts : timespec) : timeval :=
  Timeval (ts_sec ts) (Z.quot (tv_nsec ts) 1000).

(** * Theory *)

(** A normal value, and the microseconds that it stands for. *)
Definition normal (t : timeval) : Prop := is_long (tv_sec t) ∧ 0 <= tv_usec t < 1000000.
Definition total (t : timeval) : Z := tv_sec t * 1000000 + tv_usec t.
Definition of_total (z : Z) : timeval := Timeval (z / 1000000) (z mod 1000000).

Lemma of_total_eq z s u : z = s * 1000000 + u → 0 <= u < 1000000 → of_total z = Timeval s u.
Proof.
  intros Hz Hu. unfold of_total. f_equal; symmetry.
  - apply Z.div_unique with u; lia.
  - apply Z.mod_unique with s; lia.
Qed.

Lemma total_of_total z : total (of_total z) = z.
Proof. unfold total, of_total. cbn. pose proof (Z.div_mod z 1000000). lia. Qed.

Lemma of_total_total t : 0 <= tv_usec t < 1000000 → of_total (total t) = t.
Proof. intros Ht. destruct t as [s u]. by apply of_total_eq. Qed.

Lemma long_true {S A} z (k : Z → M S A) s : is_long z → (long z ≫= k) s = k z s.
Proof. intros Hz. unfold long. by rewrite decide_True. Qed.

Lemma long_false {S A} z (k : Z → M S A) s : ¬ is_long z → (long z ≫= k) s = None.
Proof. intros Hz. unfold long. by rewrite decide_False. Qed.

Lemma read_bind {A} p t (k : timeval → M times A) m :
  m !! p = Some t → (read p ≫= k) m = k t m.
Proof. intros Hp. unfold mbind, M_bind, read. by rewrite Hp. Qed.

Lemma set_tv_sec_bind {A} p t v (k : unit → M times A) m :
  m !! p = Some t → (set_tv_sec p v ≫= k) m = k tt (<[p := Timeval v (tv_usec t)]> m).
Proof. intros Hp. unfold mbind, M_bind, set_tv_sec. by rewrite Hp. Qed.

Lemma set_tv_usec_bind {A} p t v (k : unit → M times A) m :
  m !! p = Some t → (set_tv_usec p v ≫= k) m = k tt (<[p := Timeval (tv_sec t) v]> m).
Proof. intros Hp. unfold mbind, M_bind, set_tv_usec. by rewrite Hp. Qed.

(** The microseconds of an operand are those from before the seconds of the result are
    stored, also where the result is the operand. *)
Lemma read_usec {A} (m : times) p r t tr s (k : Z → M times A) :
  m !! p = Some t → m !! r = Some tr →
  (t' ← read p; k (tv_usec t')) (<[r := Timeval s (tv_usec tr)]> m) =
  k (tv_usec t) (<[r := Timeval s (tv_usec tr)]> m).
Proof.
  intros Hp Hr. destruct (decide (p = r)) as [->|Hne].
  - rewrite (read_bind r (Timeval s (tv_usec tr))) by apply lookup_insert_eq.
    by replace tr with t by congruence.
  - rewrite (read_bind p t); [done|]. by rewrite lookup_insert_ne.
Qed.

(** The two assignments that [timeradd] and [timersub] begin with. *)
Lemma two_fields {A} (op : Z → Z → Z) (m : times) a b r ta tb tr (k : unit → M times A) :
  m !! a = Some ta → m !! b = Some tb → m !! r = Some tr →
  is_long (op (tv_usec ta) (tv_usec tb)) →
  (ta ← read a; tb ← read b;
   s ← long (op (tv_sec ta) (tv_sec tb)); set_tv_sec r s;;
   ta ← read a; tb ← read b;
   u ← long (op (tv_usec ta) (tv_usec tb)); set_tv_usec r u ≫= k) m =
  if decide (is_long (op (tv_sec ta) (tv_sec tb))) then
    k tt (<[r := Timeval (op (tv_sec ta) (tv_sec tb)) (op (tv_usec ta) (tv_usec tb))]> m)
  else None.
Proof.
  intros Ha Hb Hr Hu. rewrite (read_bind a ta), (read_bind b tb) by done.
  destruct (decide (is_long (op (tv_sec ta) (tv_sec tb)))) as [Hs|Hs]; [|by apply long_false].
  rewrite long_true, (set_tv_sec_bind r tr) by done.
  rewrite (read_usec m a r ta tr _ (λ ua, tb ← read b; u ← long (op ua (tv_usec tb)); set_tv_usec r u ≫= k)) by done.
  rewrite (read_usec m b r tb tr _ (λ ub, u ← long (op (tv_usec ta) ub); set_tv_usec r u ≫= k)) by done.
  rewrite long_true, (set_tv_usec_bind r (Timeval (op (tv_sec ta) (tv_sec tb)) (tv_usec tr)))
    by (done || apply lookup_insert_eq).
  by rewrite insert_insert_eq.
Qed.

(** The carry. *)
Lemma carry (m : times) r s u s' (g : Z → Z) :
  is_long (g u) →
  (z ← long s'; set_tv_sec r z;; t ← read r; z ← long (g (tv_usec t)); set_tv_usec r z)
    (<[r := Timeval s u]> m) =
  if decide (is_long s') then Some (tt, <[r := Timeval s' (g u)]> m) else None.
Proof.
  intros Hu'. destruct (decide (is_long s')) as [Hs|Hs]; [|by apply long_false].
  rewrite long_true, (set_tv_sec_bind r (Timeval s u)) by (done || apply lookup_insert_eq).
  cbn [tv_usec]. rewrite insert_insert_eq, (read_bind r (Timeval s' u)) by apply lookup_insert_eq.
  cbn [tv_usec]. rewrite long_true by done.
  unfold set_tv_usec. rewrite lookup_insert_eq. cbn. by rewrite insert_insert_eq.
Qed.

(** * Properties *)

(** C35: [timeradd] of normal values, also with the result stored into an operand, stores the
    normal value of the sum of the times, and is undefined exactly if the sum of the seconds
    or the seconds of the result are outside the type. *)
Theorem timeradd_adds (m : times) a b r ta tb tr :
  m !! a = Some ta → m !! b = Some tb → m !! r = Some tr → normal ta → normal tb →
  timeradd a b r m =
  if decide (is_long (tv_sec ta + tv_sec tb) ∧ is_long ((total ta + total tb) / 1000000)) then
    Some (tt, <[r := of_total (total ta + total tb)]> m)
  else None.
Proof.
  intros Ha Hb Hr [_ Hta] [_ Htb]. unfold timeradd.
  rewrite (two_fields Z.add m a b r ta tb tr) by (done || unfold is_long; lia).
  destruct (decide (is_long (tv_sec ta + tv_sec tb))) as [Hs|Hs]; [|by rewrite decide_False by tauto].
  rewrite (read_bind r _ _ _ (lookup_insert_eq _ _ _)). cbn [tv_sec tv_usec].
  destruct (Z.leb_spec 1000000 (tv_usec ta + tv_usec tb)) as [Hc|Hc].
  - rewrite (carry _ r _ _ _ (λ u, u - 1000000)) by (unfold is_long; lia).
    pose proof (of_total_eq (total ta + total tb) (tv_sec ta + tv_sec tb + 1)
      (tv_usec ta + tv_usec tb - 1000000) ltac:(unfold total; lia) ltac:(lia)) as E.
    rewrite E. injection E as -> _. apply decide_ext. tauto.
  - pose proof (of_total_eq (total ta + total tb) (tv_sec ta + tv_sec tb)
      (tv_usec ta + tv_usec tb) ltac:(unfold total; lia) ltac:(lia)) as E.
    rewrite E. injection E as -> _. by rewrite decide_True.
Qed.

Definition two_times : times := {[ 1%nat := Timeval 1 900000; 2%nat := Timeval 2 200000 ]}.

Lemma timeradd_adds_witness :
  timeradd 1 2 1 two_times = Some (tt, <[1%nat := Timeval 4 100000]> two_times).
Proof.
  rewrite (timeradd_adds two_times 1 2 1 (Timeval 1 900000) (Timeval 2 200000) (Timeval 1 900000));
    [reflexivity..|unfold normal, is_long; cbn; lia|unfold normal, is_long; cbn; lia].
Defined.

(** [timersub] of normal values stores the normal value of the difference,
    and is undefined exactly if the difference of the seconds or the seconds of the result
    are outside the type. *)
Theorem timersub_subtracts (m : times) a b r ta tb tr :
  m !! a = Some ta → m !! b = Some tb → m !! r = Some tr → normal ta → normal tb →
  timersub a b r m =
  if decide (is_long (tv_sec ta - tv_sec tb) ∧ is_long ((total ta - total tb) / 1000000)) then
    Some (tt, <[r := of_total (total ta - total tb)]> m)
  else None.
Proof.
  intros Ha Hb Hr [_ Hta] [_ Htb]. unfold timersub.
  rewrite (two_fields Z.sub m a b r ta tb tr) by (done || unfold is_long; lia).
  destruct (decide (is_long (tv_sec ta - tv_sec tb))) as [Hs|Hs]; [|by rewrite decide_False by tauto].
  rewrite (read_bind r _ _ _ (lookup_insert_eq _ _ _)). cbn [tv_sec tv_usec].
  destruct (Z.ltb_spec (tv_usec ta - tv_usec tb) 0) as [Hc|Hc].
  - rewrite (carry _ r _ _ _ (λ u, u + 1000000)) by (unfold is_long; lia).
    pose proof (of_total_eq (total ta - total tb) (tv_sec ta - tv_sec tb - 1)
      (tv_usec ta - tv_usec tb + 1000000) ltac:(unfold total; lia) ltac:(lia)) as E.
    rewrite E. injection E as -> _. apply decide_ext. tauto.
  - pose proof (of_total_eq (total ta - total tb) (tv_sec ta - tv_sec tb)
      (tv_usec ta - tv_usec tb) ltac:(unfold total; lia) ltac:(lia)) as E.
    rewrite E. injection E as -> _. by rewrite decide_True.
Qed.

Lemma timersub_subtracts_witness :
  timersub 2 1 2 two_times = Some (tt, <[2%nat := Timeval 0 300000]> two_times).
Proof.
  rewrite (timersub_subtracts two_times 2 1 2 (Timeval 2 200000) (Timeval 1 900000) (Timeval 2 200000));
    [reflexivity..|unfold normal, is_long; cbn; lia|unfold normal, is_long; cbn; lia].
Defined.

(** [timercmp] of normal values compares the times, for each of the six comparison
    operators of C, [<=] and [>=] included. *)
Theorem timercmp_compares (m : times) a b ta tb CMP :
  m !! a = Some ta → m !! b = Some tb → normal ta → normal tb →
  CMP ∈ [Z.ltb; Z.leb; Z.gtb; Z.geb; Z.eqb; λ x y, negb (x =? y)] →
  timercmp a b CMP m = Some (CMP (total ta) (total tb), m).
Proof.
  intros Ha Hb [_ Hta] [_ Htb] HCMP. unfold timercmp.
  rewrite (read_bind a ta), (read_bind b tb) by done.
  enough ((if tv_sec ta =? tv_sec tb then CMP (tv_usec ta) (tv_usec tb) else CMP (tv_sec ta) (tv_sec tb)) =
    CMP (total ta) (total tb)) as <- by (by destruct (tv_sec ta =? tv_sec tb)).
  unfold total. rewrite !elem_of_cons, elem_of_nil in HCMP.
  destruct (Z.eqb_spec (tv_sec ta) (tv_sec tb)), HCMP as [->|[->|[->|[->|[->|[->|[]]]]]]];
    apply eq_true_iff_eq;
    rewrite ?negb_true_iff, ?Z.eqb_neq, ?Z.ltb_lt, ?Z.leb_le, ?Z.gtb_lt, ?Z.geb_le, ?Z.eqb_eq; lia.
Qed.

Lemma timercmp_compares_witness : timercmp 1 2 Z.leb two_times = Some (true, two_times).
Proof.
  rewrite (timercmp_compares two_times 1 2 (Timeval 1 900000) (Timeval 2 200000));
    [reflexivity|reflexivity|reflexivity| | |].
  1,2: unfold normal, is_long; cbn; lia.
  right. left.
Defined.

(** Clearing and testing, and the conversions to and from nanoseconds. *)
Lemma timerclear_clears (m : times) p t :
  m !! p = Some t → timerclear p m = Some (tt, <[p := of_total 0]> m).
Proof.
  intros Hp. unfold timerclear. rewrite (set_tv_usec_bind p t) by done.
  unfold set_tv_sec. rewrite lookup_insert_eq. cbn. by rewrite insert_insert_eq.
Qed.

Lemma timerisset_nonzero (m : times) p t :
  m !! p = Some t → normal t → timerisset p m = Some (negb (total t =? 0), m).
Proof.
  intros Hp [_ Ht]. unfold timerisset. rewrite (read_bind p t) by done. unfold total, truth, mret, M_ret.
  do 2 f_equal. destruct (Z.eqb_spec (tv_sec t) 0), (Z.eqb_spec (tv_usec t) 0),
    (Z.eqb_spec (tv_sec t * 1000000 + tv_usec t) 0); cbn; (done || lia).
Qed.

Lemma timespec_roundtrip t :
  normal t → TIMESPEC_TO_TIMEVAL <$> TIMEVAL_TO_TIMESPEC t = Some t.
Proof.
  intros [_ Ht]. destruct t as [s u]. unfold TIMEVAL_TO_TIMESPEC. cbn in Ht |- *.
  rewrite decide_True by (unfold is_long; lia). cbn. unfold TIMESPEC_TO_TIMEVAL. cbn.
  by rewrite Z.quot_mul.
Qed.
