(* ===== verification/VirtioRing.v ===== *)
(** * Virtio rings, [linux/virtio_ring.h]

    Addresses and [unsigned long] are those of a 32-bit machine. A ring is laid out by
    [vring_init] in memory of the size that [vring_size] tells; [vring_need_event] decides
    whether the other side is notified. *)
From stdpp Require Import base numbers list.
From Stdlib Require Import ZArith Lia.
From S2P Require Import Prelude.

(** * The layout *)

Definition sizeof_vring_desc : Z := 16.
Definition sizeof_virtio16 : Z := 2.
Definition sizeof_vring_used_elem : Z := 8.
(** The offset of [ring] in [struct vring_avail] and in [struct vring_used]. *)
Definition ring_off : Z := 4.

Record vring := Vring { num : Z; desc : Z; avail : Z; used : Z }.

Definition avail_ring (vr : vring) (i : Z) : Z := u32 (avail vr + ring_off + u32 (i * sizeof_virtio16)).
Definition used_ring (vr : vring) (i : Z) : Z := u32 (used vr + ring_off + u32 (i * sizeof_vring_used_elem)).

(** The addresses of the two event indices. *)
Definition vring_used_event (vr : vring) : Z := avail_ring vr (num vr).
Definition vring_avail_event (vr : vring) : Z := used_ring vr (num vr).

Definition vring_init (n p align : Z) : vring :=
  let av := u32 (p + u32 (n * sizeof_vring_desc)) in
  let vr := Vring n p av 0 in
  Vring n p av
    (u32 (u32 (u32 (avail_ring vr n + sizeof_virtio16) + align) - 1) .& u32 (Z.lnot (u32 (align - 1)))).

Definition vring_size (n align : Z) : Z :=
  let first := u32 (u32 (sizeof_vring_desc * n) + u32 (sizeof_virtio16 * u32 (3 + n))) in
  let aligned := u32 (u32 (first + align) - 1) .& u32 (Z.lnot (u32 (align - 1))) in
  u32 (u32 (aligned + sizeof_virtio16 * 3) + u32 (sizeof_vring_used_elem * n)).

(** * Events *)

Definition vring_need_event (event_idx new_idx old : Z) : bool :=
  u16 (new_idx - event_idx - 1) <? u16 (new_idx - old).

(** * Theory of the layout *)

Lemma u32_add_l x y : u32 (u32 x + y) = u32 (x + y).
Proof. unfold u32. by rewrite Zplus_mod_idemp_l. Qed.

Lemma u32_add_r x y : u32 (x + u32 y) = u32 (x + y).
Proof. unfold u32. by rewrite Zplus_mod_idemp_r. Qed.

Lemma u32_sub_l x y : u32 (u32 x - y) = u32 (x - y).
Proof. unfold u32. by rewrite Zminus_mod_idemp_l. Qed.

Lemma u32_mul_r x y : u32 (x * u32 y) = u32 (x * y).
Proof. unfold u32. by rewrite Zmult_mod_idemp_r. Qed.

(** The expression that both functions align with. *)
Lemma mask_align k x :
  0 <= k < 32 → is_u32 x →
  x .& u32 (Z.lnot (u32 (2 ^ k - 1))) = x / 2 ^ k * 2 ^ k.
Proof.
  intros Hk Hx. pose proof (Z.pow_pos_nonneg 2 k).
  assert (2 ^ k < 4294967296) by (change 4294967296 with (2 ^ 32); apply Z.pow_lt_mono_r; lia).
  rewrite (u32_id (2 ^ k - 1)) by (unfold is_u32; lia).
  rewrite <-Z.shiftl_mul_pow2, <-Z.shiftr_div_pow2 by lia. rewrite <-Z.ldiff_ones_r by lia.
  rewrite Z.ones_equiv. apply Z.bits_inj'. intros j Hj.
  rewrite Z.land_spec, Z.ldiff_spec. destruct (decide (j < 32)).
  - unfold u32. rewrite (Z.mod_pow2_bits_low _ 32) by lia. by rewrite Z.lnot_spec, Z.sub_1_r by lia.
  - rewrite <-(u32_id x Hx). unfold u32. by rewrite (Z.mod_pow2_bits_high x 32) by lia.
Qed.

Lemma align_bounds a x : 0 < a → x <= (x + a - 1) / a * a < x + a.
Proof.
  intros Ha. pose proof (Z.div_mod (x + a - 1) a). pose proof (Z.mod_pos_bound (x + a - 1) a). nia.
Qed.

Lemma align_shift a p x : 0 < a → p mod a = 0 → (p + x) / a * a = p + x / a * a.
Proof.
  intros Ha Hp. pose proof (Z.div_mod p a). rewrite Hp in *.
  replace p with (p / a * a) at 1 by lia. rewrite Z.add_comm, Z.div_add by lia. nia.
Qed.

(** Where the used ring begins, from the start of the memory, and where it ends. *)
Definition used_off (k n : Z) : Z := (18 * n + 6 + 2 ^ k - 1) / 2 ^ k * 2 ^ k.
Definition ring_end (k n : Z) : Z := used_off k n + 6 + 8 * n.

Section layout.

Context (k n p : Z) (Hk : 0 <= k < 32) (Hn : 0 <= n) (Hp : 0 <= p) (Hal : p mod 2 ^ k = 0).
Context (Hfit : p + ring_end k n < 4294967296).

Lemma pow_pos : 0 < 2 ^ k.
Proof. apply Z.pow_pos_nonneg; lia. Qed.

Lemma used_off_bounds : 18 * n + 6 <= used_off k n < 18 * n + 6 + 2 ^ k.
Proof. apply align_bounds, pow_pos. Qed.

(** The sum before the alignment does not wrap either. *)
Lemma before_mask : p + (18 * n + 6 + 2 ^ k - 1) < 4294967296.
Proof.
  pose proof pow_pos. unfold ring_end in Hfit. unfold used_off in Hfit.
  pose proof (align_bounds (2 ^ k) (18 * n + 6) pow_pos).
  pose proof (Z.div_mod p (2 ^ k)) as Hdp. rewrite Hal in Hdp.
  pose proof (Z.div_mod (18 * n + 6 + 2 ^ k - 1) (2 ^ k)).
  pose proof (Z.mod_pos_bound (18 * n + 6 + 2 ^ k - 1) (2 ^ k)).
  set (q := (18 * n + 6 + 2 ^ k - 1) / 2 ^ k) in *.
  assert (4294967296 = 2 ^ (32 - k) * 2 ^ k) as E.
  { rewrite <-Z.pow_add_r by lia. by replace (32 - k + k) with 32 by lia. }
  assert (p / 2 ^ k + q < 2 ^ (32 - k)) by nia. nia.
Qed.

Lemma avail_run : avail (vring_init n p (2 ^ k)) = p + 16 * n.
Proof.
  pose proof used_off_bounds. unfold ring_end in Hfit. unfold vring_init, sizeof_vring_desc. cbn.
  rewrite u32_add_r, u32_id; [lia|unfold is_u32; lia].
Qed.

Lemma used_run : used (vring_init n p (2 ^ k)) = p + used_off k n.
Proof.
  pose proof before_mask. pose proof pow_pos. unfold vring_init, avail_ring, ring_off, sizeof_vring_desc, sizeof_virtio16.
  cbn [used avail]. rewrite mask_align by (done || apply u32_range).
  rewrite !u32_add_r, !u32_add_l, !u32_sub_l.
  rewrite (u32_id (p + n * 16)), (u32_id (_ + n * 2)), u32_id by (unfold is_u32; lia).
  unfold used_off. rewrite <-align_shift by (done || apply pow_pos). do 2 f_equal. lia.
Qed.

Lemma size_run : vring_size n (2 ^ k) = ring_end k n.
Proof.
  pose proof before_mask. pose proof pow_pos. pose proof used_off_bounds. unfold ring_end in Hfit |- *.
  unfold vring_size, sizeof_vring_desc, sizeof_virtio16, sizeof_vring_used_elem. cbv zeta.
  rewrite mask_align by (done || apply u32_range).
  rewrite !u32_mul_r, !u32_add_r, !u32_add_l, !u32_sub_l.
  rewrite (u32_id (16 * n)), (u32_id (_ - 1)) by (unfold is_u32; lia).
  replace (16 * n + 2 * (3 + n) + 2 ^ k - 1) with (18 * n + 6 + 2 ^ k - 1) by lia.
  fold (used_off k n). rewrite u32_id; [lia|unfold is_u32; lia].
Qed.

End layout.

(** * Theory of the events *)

Lemma need_event_offset e new old :
  vring_need_event e new old = (u16 (e - old) <? u16 (new - old)).
Proof.
  unfold vring_need_event, u16.
  pose proof (Z.mod_pos_bound (e - old) 65536). pose proof (Z.mod_pos_bound (new - old) 65536).
  pose proof (Z.div_mod (e - old) 65536). pose proof (Z.div_mod (new - old) 65536).
  set (x := (e - old) mod 65536) in *. set (d := (new - old) mod 65536) in *.
  assert ((new - e - 1) mod 65536 = if x <? d then d - x - 1 else d - x - 1 + 65536) as ->.
  { symmetry. destruct (Z.ltb_spec x d).
    - apply Z.mod_unique with ((new - old) / 65536 - (e - old) / 65536); lia.
    - apply Z.mod_unique with ((new - old) / 65536 - (e - old) / 65536 - 1); lia. }
  destruct (Z.ltb_spec x d); [apply Z.ltb_lt|apply Z.ltb_ge]; lia.
Qed.

(** * Properties *)

(** A ring of [n] entries laid out by [vring_init] in aligned memory that does not wrap
    around has the descriptors, the available ring with its event index, and the aligned used
    ring with its event index one after the other, without overlap, and ends exactly where
    [vring_size] says. *)
Theorem vring_layout k n p :
  0 <= k < 32 → 0 <= n → 0 <= p → p mod 2 ^ k = 0 → p + ring_end k n < 4294967296 →
  let vr := vring_init n p (2 ^ k) in
  num vr = n ∧ desc vr = p ∧
  avail vr = desc vr + sizeof_vring_desc * n ∧
  vring_used_event vr = avail vr + ring_off + sizeof_virtio16 * n ∧
  vring_used_event vr + sizeof_virtio16 <= used vr < vring_used_event vr + sizeof_virtio16 + 2 ^ k ∧
  used vr mod 2 ^ k = 0 ∧
  vring_avail_event vr = used vr + ring_off + sizeof_vring_used_elem * n ∧
  vring_avail_event vr + sizeof_virtio16 = p + vring_size n (2 ^ k).
Proof.
  intros Hk Hn Hp Hal Hfit vr.
  pose proof (used_off_bounds k n Hk) as Hoff. pose proof (pow_pos k Hk) as Hpos.
  pose proof (avail_run k n p Hk Hn Hp Hfit) as Hav. pose proof (used_run k n p Hk Hn Hp Hal Hfit) as Hus.
  rewrite (size_run k n p Hk Hn Hp Hal Hfit). unfold ring_end in *. fold vr in Hav, Hus.
  assert (vring_used_event vr = p + 16 * n + 4 + 2 * n) as ->.
  { unfold vring_used_event, avail_ring. rewrite Hav. unfold ring_off, sizeof_virtio16. cbn [num vr vring_init].
    rewrite u32_add_r, u32_id; [lia|unfold is_u32; lia]. }
  assert (vring_avail_event vr = p + used_off k n + 4 + 8 * n) as ->.
  { unfold vring_avail_event, used_ring. rewrite Hus. unfold ring_off, sizeof_vring_used_elem. cbn [num vr vring_init].
    rewrite u32_add_r, u32_id; [lia|unfold is_u32; lia]. }
  rewrite Hav, Hus. unfold sizeof_vring_desc, sizeof_virtio16, sizeof_vring_used_elem, ring_off.
  cbn [num desc vr vring_init]. split_and!; try lia.
  rewrite Z.add_mod, Hal by lia. unfold used_off. by rewrite Z.mod_mul by lia.
Qed.

Lemma vring_layout_witness :
  vring_avail_event (vring_init 256 0x10000 4096) + sizeof_virtio16 = 0x10000 + vring_size 256 4096 ∧
  vring_size 256 4096 = 10246.
Proof.
  destruct (vring_layout 12 256 0x10000) as (_ & _ & _ & _ & _ & _ & _ & E);
    [lia|lia|lia|reflexivity|vm_compute; reflexivity|].
  split; [exact E|reflexivity].
Defined.

(** C34: after the index went from [old] to [new], wrapping around at 65536, the other side
    is notified exactly if the index passed the one that it asked for: one of the entries
    added has it. So a batch is announced exactly if one of its entries alone would be. *)
Theorem need_event_passed e new old :
  is_u16 e → is_u16 new → is_u16 old →
  (vring_need_event e new old = true ↔ ∃ i, 0 <= i < u16 (new - old) ∧ u16 (old + i) = e) ∧
  (vring_need_event e new old = true ↔
   ∃ i, 0 <= i < u16 (new - old) ∧ vring_need_event e (u16 (old + i + 1)) (u16 (old + i)) = true).
Proof.
  intros He Hnew Hold.
  assert (∀ i, 0 <= i < 65536 → u16 (old + i) = e ↔ i = u16 (e - old)) as Heq.
  { intros i Hi. unfold u16, is_u16 in *. split; [intros <-|intros ->].
    - rewrite Zminus_mod_idemp_l. replace (old + i - old) with i by lia. by rewrite Z.mod_small.
    - rewrite Zplus_mod_idemp_r. replace (old + (e - old)) with e by lia. by rewrite Z.mod_small. }
  pose proof (u16_range (e - old)) as Hx. pose proof (u16_range (new - old)) as Hd. unfold is_u16 in Hx, Hd.
  assert (vring_need_event e new old = true ↔ ∃ i, 0 <= i < u16 (new - old) ∧ u16 (old + i) = e) as H1.
  { rewrite need_event_offset, Z.ltb_lt. split.
    - intros Hlt. exists (u16 (e - old)). split; [lia|]. apply Heq; [lia|done].
    - intros (i & Hi & E). apply Heq in E; lia. }
  split; [done|]. rewrite H1. apply exist_proper. intros i. apply and_iff_compat_l.
  rewrite need_event_offset, Z.ltb_lt.
  assert (u16 (u16 (old + i + 1) - u16 (old + i)) = 1) as ->.
  { unfold u16. rewrite <-Zminus_mod. by replace (old + i + 1 - (old + i)) with 1 by lia. }
  pose proof (u16_range (e - u16 (old + i))) as Hr. unfold is_u16 in Hr, He. split.
  - intros ->. by rewrite Z.sub_diag.
  - intros Hlt. pose proof (u16_range (old + i)) as Hi'. unfold is_u16 in Hi'.
    assert (u16 (e - u16 (old + i)) = 0) as Hz by lia. unfold u16 in Hz at 1.
    apply Z.mod_divide in Hz as [q Hq]; lia.
Qed.

Lemma need_event_passed_witness :
  vring_need_event 65535 1 65534 = true ∧ vring_need_event 2 1 65534 = false.
Proof.
  split.
  - apply (need_event_passed 65535 1 65534); unfold is_u16; [lia|lia|lia|].
    exists 1. split; [vm_compute; split; [discriminate|reflexivity]|reflexivity].
  - apply not_true_is_false. intros H.
    apply (need_event_passed 2 1 65534) in H as (i & Hi & Hu); [|unfold is_u16; lia..].
    change (u16 (1 - 65534)) with 3 in Hi.
    assert (i = 0 ∨ i = 1 ∨ i = 2) as [-> | [-> | ->] ] by lia; discriminate Hu.
Defined.
