(* ===== verification/Netlink.v ===== *)
(** * Netlink messages and attributes, the macros of [linux/netlink.h] and [linux/rtnetlink.h]

    A buffer is an object of bytes at a multiple of four and a pointer into it an offset; a
    read outside the object or of an integer that is not aligned is undefined. The length that the macros count down is a variable of the caller, so its
    type is a parameter ([int] or an unsigned type of 32 bits). Offsets are numbers without
    bound: that [NLMSG_NEXT] forms a pointer up to three bytes behind the buffer is not an
    error of the model, an access through it is.

    The class [Messages] has the macros that messages and attributes share; [MessageLaws]
    what they promise to a loop that walks over a buffer. *)
From stdpp Require Import base numbers list.
From Stdlib Require Import ZArith Lia.
From S2P Require Import Prelude Tipc TipcTheory.

Inductive int_type := Int | Unsigned.

(** The value that a variable of the type has after an assignment of [z]. *)
Definition convert (ty : int_type) (z : Z) : Z :=
  match ty with
  | Int => (z + 2147483648) mod 4294967296 - 2147483648
  | Unsigned => u32 z
  end.

Definition load32 (p : nat) : R bytes Z :=
  if decide (aligned 4 p) then lo ← load16 p; hi ← load16 (p + 2); mret (lo .| (hi << 16))
  else λ _, None.

(** * Messages *)

Definition sizeof_nlmsghdr : Z := 16.
Definition nlmsg_len (nlh : nat) : R bytes Z := load32 nlh.

Definition NLMSG_ALIGNTO : Z := 4.
Definition NLMSG_ALIGN (len : Z) : Z :=
  u32 (u32 (len + NLMSG_ALIGNTO) - 1) .& u32 (Z.lnot (NLMSG_ALIGNTO - 1)).
Definition NLMSG_HDRLEN : Z := NLMSG_ALIGN sizeof_nlmsghdr.
Definition NLMSG_LENGTH (len : Z) : Z := len + NLMSG_HDRLEN.
Definition NLMSG_SPACE (len : Z) : Z := NLMSG_ALIGN (NLMSG_LENGTH len).
Definition NLMSG_DATA (nlh : nat) : nat := (nlh + Z.to_nat (NLMSG_LENGTH 0))%nat.

(** The new pointer, and the new value of [len]. *)
Definition NLMSG_NEXT (ty : int_type) (nlh : nat) (len : Z) : R bytes (nat * Z) :=
  n ← nlmsg_len nlh;
  mret ((nlh + Z.to_nat (NLMSG_ALIGN n))%nat, convert ty (len - NLMSG_ALIGN n)).

(** The length of the message is unsigned, so [len] is converted in the last comparison. *)
Definition NLMSG_OK (nlh : nat) (len : Z) : R bytes bool :=
  if sizeof_nlmsghdr <=? len then
    n ← nlmsg_len nlh;
    mret ((sizeof_nlmsghdr <=? n) && (n <=? u32 len))
  else mret false.

Definition NLMSG_PAYLOAD (nlh : nat) (len : Z) : R bytes Z :=
  n ← nlmsg_len nlh; mret (u32 (n - NLMSG_SPACE len)).

(** * Attributes *)

Definition sizeof_rtattr : Z := 4.
Definition rta_len (rta : nat) : R bytes Z := load16 rta.

Definition RTA_ALIGNTO : Z := 4.
Definition RTA_ALIGN (len : Z) : Z :=
  u32 (u32 (len + RTA_ALIGNTO) - 1) .& u32 (Z.lnot (RTA_ALIGNTO - 1)).
Definition RTA_LENGTH (len : Z) : Z := u32 (RTA_ALIGN sizeof_rtattr + len).
Definition RTA_SPACE (len : Z) : Z := RTA_ALIGN (RTA_LENGTH len).
Definition RTA_DATA (rta : nat) : nat := (rta + Z.to_nat (RTA_LENGTH 0))%nat.

(** The length of the attribute is promoted to [int]. *)
Definition RTA_OK (rta : nat) (len : Z) : R bytes bool :=
  if sizeof_rtattr <=? len then
    n ← rta_len rta; mret ((sizeof_rtattr <=? n) && (n <=? len))
  else mret false.

Definition RTA_NEXT (ty : int_type) (rta : nat) (attrlen : Z) : R bytes (nat * Z) :=
  n ← rta_len rta;
  mret ((rta + Z.to_nat (RTA_ALIGN n))%nat, convert ty (attrlen - RTA_ALIGN n)).

Definition RTA_PAYLOAD (rta : nat) : R bytes Z :=
  n ← rta_len rta; mret (u32 (n - RTA_LENGTH 0)).

(** * Next hops *)

Definition sizeof_rtnexthop : Z := 8.
Definition rtnh_len (rtnh : nat) : R bytes Z := load16 rtnh.

Definition RTNH_ALIGNTO : Z := 4.
Definition RTNH_ALIGN (len : Z) : Z := (len + RTNH_ALIGNTO - 1) .& Z.lnot (RTNH_ALIGNTO - 1).
Definition RTNH_OK (rtnh : nat) (len : Z) : R bytes bool :=
  n ← rtnh_len rtnh; mret ((sizeof_rtnexthop <=? n) && (n <=? len)).
Definition RTNH_NEXT (rtnh : nat) : R bytes nat :=
  n ← rtnh_len rtnh; mret (rtnh + Z.to_nat (RTNH_ALIGN n))%nat.
Definition RTNH_LENGTH (len : Z) : Z := u32 (RTNH_ALIGN sizeof_rtnexthop + len).
Definition RTNH_SPACE (len : Z) : Z := RTNH_ALIGN (RTNH_LENGTH len).
Definition RTNH_DATA (rtnh : nat) : nat := (rtnh + Z.to_nat (RTNH_LENGTH 0))%nat.

(** * Walking over a buffer *)

Class Messages := {
  header : nat;
  message_len : nat → R bytes Z;
  message_ok : nat → Z → R bytes bool;
  message_next : int_type → nat → Z → R bytes (nat * Z);
  message_data : nat → nat;
  message_payload : nat → R bytes Z
}.

(** The loop that the macros are for; it returns the payloads, or nothing if the fuel does
    not suffice. *)
Fixpoint walk `{Messages} (ty : int_type) (fuel : nat) (p : nat) (len : Z) : R bytes (option (list bytes)) :=
  match fuel with
  | O => mret None
  | S fuel =>
      ok ← message_ok p len;
      if (ok : bool) then
        n ← message_payload p;
        v ← slice (message_data p) (Z.to_nat n);
        '(p, len) ← message_next ty p len;
        vs ← walk ty fuel p len;
        mret (cons v <$> vs)
      else mret (Some [])
  end.

Definition align4 (n : Z) : Z := (n + 3) / 4 * 4.

Class MessageLaws (B : Messages) : Prop := {
  header_pos : (4 <= header)%nat;
  len_reads b p :
    aligned 4 p → Forall is_u8 b → (p + header <= length b)%nat → ∃ n, message_len p b = Some n ∧ 0 <= n;
  len_local pre h post :
    aligned 4 (length pre) → length h = header → message_len (length pre) (pre ++ h ++ post) = message_len 0 h;
  len_outside b p : (length b <= p)%nat → message_len p b = None;
  ok_short b p len : len < Z.of_nat header → message_ok p len b = Some false;
  ok_reads b p len :
    Z.of_nat header <= len < 4294967296 →
    message_ok p len b =
    (λ n, (Z.of_nat header <=? n) && (n <=? len)) <$> message_len p b;
  next_reads ty b p len n :
    message_len p b = Some n → 0 <= n < 4294967292 →
    message_next ty p len b = Some ((p + Z.to_nat (align4 n))%nat, convert ty (len - align4 n));
  data_reads p : message_data p = (p + header)%nat;
  payload_reads b p n :
    message_len p b = Some n → Z.of_nat header <= n < 4294967296 →
    message_payload p b = Some (n - Z.of_nat header)
}.

Lemma align4_bounds n : n <= align4 n < n + 4.
Proof. unfold align4. divlia. Qed.

Lemma align4_aligned p n : 0 <= n → aligned 4 p → aligned 4 (p + Z.to_nat (align4 n)).
Proof.
  intros Hn Hp. apply aligned_add; [done|done|]. apply Nat2Z.inj. pose proof (align4_bounds n).
  rewrite Nat2Z.inj_mod, Z2Nat.id by lia. apply Z.mod_mul. lia.
Qed.

Lemma convert_id ty z : 0 <= z < 2147483648 → convert ty z = z.
Proof. intros Hz. destruct ty; unfold convert, u32; [rewrite Z.mod_small|rewrite Z.mod_small]; lia. Qed.

Lemma convert_int z : -2147483648 <= z < 2147483648 → convert Int z = z.
Proof. intros Hz. unfold convert. rewrite Z.mod_small; lia. Qed.

Section walk.

Context {B : Messages} {HB : MessageLaws B}.

(** The pieces of one turn of the loop, at a message that fits. *)
Lemma walk_message ty fuel b p len n :
  message_len p b = Some n → Z.of_nat header <= n <= len → len < 2147483648 →
  Z.of_nat p + n <= Z.of_nat (length b) →
  walk ty (S fuel) p len b =
  fmap (M := option) (cons (take (Z.to_nat n - header) (drop (p + header) b))) <$>
    walk ty fuel (p + Z.to_nat (align4 n)) (convert ty (len - align4 n)) b.
Proof using HB.
  intros Hn Hh Hlen Hb. pose proof header_pos. cbn [walk].
  assert (message_ok p len b = Some true) as Hok.
  { rewrite ok_reads, Hn by lia. cbn.
    by rewrite (proj2 (Z.leb_le _ _)), (proj2 (Z.leb_le _ _)) by lia. }
  rewrite (R_bind_Some _ _ _ _ Hok), (R_bind_Some _ _ _ _ (payload_reads b p n Hn ltac:(lia))).
  rewrite data_reads. replace (Z.to_nat (n - Z.of_nat header)) with (Z.to_nat n - header)%nat by lia.
  rewrite (R_bind_Some _ _ _ (take (Z.to_nat n - header) (drop (p + header) b))).
  2: { unfold slice. rewrite decide_True; [done|lia]. }
  rewrite (R_bind_Some _ _ _ _ (next_reads ty b p len n Hn ltac:(lia))).
  unfold mbind, R_bind. by destruct (walk ty fuel _ _ b) as [[vs|]|].
Qed.

Lemma walk_done ty fuel b p len : len < Z.of_nat header → walk ty (S fuel) p len b = Some (Some []).
Proof using HB. intros Hlen. cbn [walk]. by rewrite (R_bind_Some _ _ _ _ (ok_short b p len Hlen)). Qed.

(** The bytes of the messages with these payloads. *)
Definition walked (vs : list bytes) : Z := foldr (λ v s, Z.of_nat header + Z.of_nat (length v) + s) 0 vs.

Lemma walk_any b : Forall is_u8 b → Z.of_nat (length b) < 2147483648 →
  ∀ fuel p len, aligned 4 p → Z.of_nat p + len = Z.of_nat (length b) → -4 < len < Z.of_nat fuel →
  ∃ vs, walk Int (S fuel) p len b = Some (Some vs) ∧ walked vs <= Z.max 0 len.
Proof using HB.
  intros Hb Hlong. pose proof header_pos as Hh.
  induction fuel as [|fuel IH]; intros p len Hal Hp Hlen.
  { exists []. rewrite walk_done by lia. cbn. split; [done|lia]. }
  destruct (decide (len < Z.of_nat header)) as [Hs|Hs].
  { exists []. rewrite walk_done by lia. cbn. split; [done|lia]. }
  destruct (len_reads b p Hal Hb) as (n & Hn & Hpos); [lia|].
  destruct (decide (Z.of_nat header <= n <= len)) as [Hfit|Hfit].
  - rewrite (walk_message Int (S fuel) b p len n) by (done || lia).
    pose proof (align4_bounds n). rewrite convert_int by lia.
    destruct (IH (p + Z.to_nat (align4 n))%nat (len - align4 n)) as (vs & -> & Hvs); [by apply align4_aligned|lia|lia|].
    eexists. split; [done|]. cbn [walked foldr]. fold (walked vs).
    rewrite length_take, length_drop. lia.
  - exists []. cbn [walk]. rewrite (R_bind_Some _ _ _ false); [split; [done|cbn; lia]|].
    rewrite ok_reads, Hn by lia. cbn. f_equal. apply andb_false_iff. rewrite !Z.leb_gt. lia.
Qed.

(** ** A buffer of messages *)

Definition frame (item : bytes * bytes) : bytes :=
  let '(h, v) := item in
  h ++ v ++ replicate (Z.to_nat (align4 (Z.of_nat (header + length v))) - (header + length v)) 0.

Definition frames (items : list (bytes * bytes)) : bytes := items ≫= frame.

(** A header that tells the length of the message. *)
Definition frame_ok (item : bytes * bytes) : Prop :=
  length item.1 = header ∧ message_len 0 item.1 = Some (Z.of_nat (header + length item.2)).

Lemma length_frame h v :
  frame_ok (h, v) → Z.of_nat (length (frame (h, v))) = align4 (Z.of_nat (header + length v)).
Proof.
  intros [Hh _]. cbn in Hh. pose proof (align4_bounds (Z.of_nat (header + length v))).
  cbn [frame]. rewrite !length_app, length_replicate. lia.
Qed.

Lemma walk_frames ty items : ∀ fuel pre post,
  aligned 4 (length pre) → Forall frame_ok items → Z.of_nat (length (frames items)) < 2147483648 → (length items <= fuel)%nat →
  walk ty (S fuel) (length pre) (Z.of_nat (length (frames items))) (pre ++ frames items ++ post) =
  Some (Some (items.*2)).
Proof using HB.
  pose proof header_pos as Hpos.
  induction items as [|[h v] items IH]; intros fuel pre post Hpre Hok Hlen Hf.
  { apply walk_done. cbn. lia. }
  apply Forall_cons in Hok as [Hi Hok]. destruct fuel as [|fuel]; [cbn in Hf; lia|].
  change (frames ((h, v) :: items)) with (frame (h, v) ++ frames items) in *.
  pose proof (length_frame h v Hi) as Hl. rewrite length_app in Hlen |- *.
  destruct Hi as [Hh Hm]. cbn in Hh, Hm. set (n := Z.of_nat (header + length v)) in *.
  pose proof (align4_bounds n) as Hal.
  rewrite (walk_message ty (S fuel) _ _ _ n).
  - replace (convert _ _) with (Z.of_nat (length (frames items))) by (rewrite convert_id; lia).
    rewrite <-(assoc_L (++)), (assoc_L (++) pre). 
    replace (length pre + Z.to_nat (align4 n))%nat with (length (pre ++ frame (h, v))) by (rewrite length_app; lia).
    rewrite IH; [|rewrite length_app; replace (length (frame (h, v))) with (Z.to_nat (align4 n)) by lia;
      apply align4_aligned; [lia|done]|done|lia|cbn in Hf; lia]. cbn. do 3 f_equal.
    rewrite <-(assoc_L (++) pre). rewrite drop_app_ge by lia. cbn [frame].
    replace (length pre + header - length pre)%nat with (length h) by lia.
    rewrite <-!(assoc_L (++)), drop_app_length.
    replace (Z.to_nat n - header)%nat with (length v) by lia. by rewrite take_app_length.
  - cbn [frame]. rewrite <-!(assoc_L (++)). by rewrite len_local.
  - lia.
  - lia.
  - rewrite !length_app. lia.
Qed.

(** ** An unsigned length *)

Lemma walk_unsigned fuel h v :
  frame_ok (h, v) → Z.of_nat (header + length v) < 2147483648 →
  Z.of_nat (header + length v) mod 4 ≠ 0 → (header < 1000)%nat →
  walk Unsigned (S (S fuel)) 0 (Z.of_nat (header + length v)) (h ++ v) = None.
Proof using HB.
  intros [Hh Hm] Hlen Hmod Hsmall. cbn in Hh, Hm. pose proof header_pos as Hpos.
  set (n := Z.of_nat (header + length v)) in *. pose proof (align4_bounds n) as Hal.
  assert (n < align4 n) by (unfold align4 in *; divlia).
  rewrite (walk_message Unsigned (S fuel) (h ++ v) 0 n n).
  2: { rewrite <-Hm. exact (len_local [] h v eq_refl Hh). }
  2,3: lia.
  2: rewrite length_app; lia.
  assert (convert Unsigned (n - align4 n) = n - align4 n + 4294967296) as ->.
  { symmetry. apply Z.mod_unique with (-1); lia. }
  cbn [walk]. unfold mbind at 1, R_bind at 1. rewrite ok_reads by lia.
  rewrite len_outside; [done|]. rewrite length_app. lia.
Qed.

End walk.

(** * The two instances *)

#[export] Instance netlink : Messages := {
  header := Z.to_nat sizeof_nlmsghdr;
  message_len := nlmsg_len;
  message_ok := NLMSG_OK;
  message_next := NLMSG_NEXT;
  message_data := NLMSG_DATA;
  message_payload nlh := NLMSG_PAYLOAD nlh 0
}.

#[export] Instance rtattr : Messages := {
  header := Z.to_nat sizeof_rtattr;
  message_len := rta_len;
  message_ok := RTA_OK;
  message_next := RTA_NEXT;
  message_data := RTA_DATA;
  message_payload := RTA_PAYLOAD
}.

Lemma load8_reads b p : Forall is_u8 b → (p < length b)%nat → ∃ x, load8 p b = Some x ∧ is_u8 x.
Proof.
  intros Hb Hp. destruct (lookup_lt_is_Some_2 b p Hp) as [x Hx]. exists x. split; [done|].
  by eapply Forall_lookup_1.
Qed.

Lemma load16_reads b p : aligned 2 p → Forall is_u8 b → (p + 2 <= length b)%nat → ∃ x, load16 p b = Some x ∧ is_u16 x.
Proof.
  intros Hal Hb Hp. destruct (load8_reads b p Hb) as (x & Hx & ?); [lia|].
  destruct (load8_reads b (p + 1) Hb) as (y & Hy & ?); [lia|]. exists (x .| (y << 8)).
  unfold load16. rewrite decide_True by done. rewrite (R_bind_Some _ _ _ _ Hx), (R_bind_Some _ _ _ _ Hy). split; [done|].
  by apply le16_range.
Qed.

Lemma load8_local pre h post i :
  (i < length h)%nat → load8 (length pre + i) (pre ++ h ++ post) = load8 i h.
Proof.
  intros Hi. unfold load8. rewrite lookup_app_r by lia.
  replace (length pre + i - length pre)%nat with i by lia. by rewrite lookup_app_l.
Qed.

Lemma load16_local pre h post i :
  aligned 2 (length pre) → (i + 2 <= length h)%nat → load16 (length pre + i) (pre ++ h ++ post) = load16 i h.
Proof.
  intros Hal Hi. unfold load16. destruct (decide (aligned 2 i)) as [Hd|Hd].
  2: { rewrite decide_False; [done|]. intros Hs. apply Hd. unfold aligned in *.
       by rewrite Nat.Div0.add_mod, Hal, Nat.add_0_l, Nat.Div0.mod_mod in Hs. }
  rewrite decide_True by (by apply aligned_add). unfold mbind, R_bind.
  rewrite <-Nat.add_assoc, !load8_local by lia. done.
Qed.

Lemma load16_outside b p : (length b <= p)%nat → load16 p b = None.
Proof. intros Hp. unfold load16. destruct (decide _); [|done]. unfold mbind, R_bind, load8. by rewrite lookup_ge_None_2. Qed.

Lemma ALIGN_arith n : 0 <= n < 4294967292 → u32 (u32 (n + 4) - 1) .& u32 (Z.lnot (4 - 1)) = align4 n.
Proof.
  intros Hn. rewrite (u32_id (n + 4)), (u32_id (n + 4 - 1)) by (unfold is_u32; lia).
  replace (n + 4 - 1) with (n + 3) by lia.
  transitivity (u32 ((n + 3) .& Z.lnot 3)).
  { unfold u32. rewrite <-!(Z.land_ones _ 32) by lia. rewrite Z.land_assoc.
    rewrite (Z.land_ones (_ .& _) 32), (Z.land_ones (_ .& Z.lnot (4 - 1)) 32) by lia. done. }
  rewrite and_lnot_3. fold (align4 n). pose proof (align4_bounds n).
  apply u32_id. unfold is_u32, align4 in *. divlia.
Qed.

#[export] Instance netlink_laws : MessageLaws netlink.
Proof.
  constructor; cbn [header message_len message_ok message_next message_data message_payload netlink];
    change (Z.to_nat sizeof_nlmsghdr) with 16%nat.
  - lia.
  - intros b p Hal Hb Hp. pose proof (aligned_half p Hal) as Hal2.
    destruct (load16_reads b p Hal2 Hb) as (x & Hx & ?); [lia|].
    destruct (load16_reads b (p + 2)) as (y & Hy & ?); [by apply aligned_add|done|lia|]. exists (x .| (y << 16)).
    unfold nlmsg_len, load32. rewrite decide_True by done. rewrite (R_bind_Some _ _ _ _ Hx), (R_bind_Some _ _ _ _ Hy).
    split; [done|]. unfold is_u16 in *. apply Z.lor_nonneg. rewrite Z.shiftl_nonneg. lia.
  - intros pre h post Hal Hh. unfold nlmsg_len, load32. rewrite !decide_True by done. unfold mbind, R_bind.
    rewrite <-(Nat.add_0_r (length pre)) at 1. by rewrite !load16_local by (by apply aligned_half || lia).
  - intros b p Hp. unfold nlmsg_len, load32. destruct (decide _); [|done]. unfold mbind, R_bind. by rewrite load16_outside.
  - intros b p len Hlen. unfold NLMSG_OK, sizeof_nlmsghdr. by rewrite (proj2 (Z.leb_gt _ _)) by lia.
  - intros b p len Hlen. unfold NLMSG_OK, sizeof_nlmsghdr. rewrite (proj2 (Z.leb_le _ _)) by lia.
    rewrite (u32_id len) by (unfold is_u32; lia). unfold mbind, R_bind. by destruct (nlmsg_len p b).
  - intros ty b p len n Hn Hr. unfold NLMSG_NEXT. rewrite (R_bind_Some _ _ _ _ Hn).
    unfold NLMSG_ALIGN, NLMSG_ALIGNTO. by rewrite ALIGN_arith.
  - done.
  - intros b p n Hn Hr. unfold NLMSG_PAYLOAD. rewrite (R_bind_Some _ _ _ _ Hn).
    change (NLMSG_SPACE 0) with 16. by rewrite u32_id by (unfold is_u32; lia).
Qed.

#[export] Instance rtattr_laws : MessageLaws rtattr.
Proof.
  constructor; cbn [header message_len message_ok message_next message_data message_payload rtattr];
    change (Z.to_nat sizeof_rtattr) with 4%nat.
  - lia.
  - intros b p Hal Hb Hp. destruct (load16_reads b p (aligned_half p Hal) Hb) as (x & Hx & Hr); [lia|].
    exists x. unfold is_u16 in Hr. split; [done|lia].
  - intros pre h post Hal Hh. unfold rta_len.
    rewrite <-(Nat.add_0_r (length pre)) at 1. by rewrite load16_local by (by apply aligned_half || lia).
  - intros b p Hp. by apply load16_outside.
  - intros b p len Hlen. unfold RTA_OK, sizeof_rtattr. by rewrite (proj2 (Z.leb_gt _ _)) by lia.
  - intros b p len Hlen. unfold RTA_OK, sizeof_rtattr. rewrite (proj2 (Z.leb_le _ _)) by lia.
    unfold mbind, R_bind. by destruct (rta_len p b).
  - intros ty b p len n Hn Hr. unfold RTA_NEXT. rewrite (R_bind_Some _ _ _ _ Hn).
    unfold RTA_ALIGN, RTA_ALIGNTO. by rewrite ALIGN_arith.
  - done.
  - intros b p n Hn Hr. unfold RTA_PAYLOAD. rewrite (R_bind_Some _ _ _ _ Hn).
    change (RTA_LENGTH 0) with 4. by rewrite u32_id by (unfold is_u32; lia).
Qed.

(** * Properties *)

(** C32: whatever bytes a buffer holds, the loop over its messages with [NLMSG_OK],
    [NLMSG_DATA], [NLMSG_PAYLOAD] and [NLMSG_NEXT], with its length in an [int], ends without
    a read outside the buffer or at an address that is not aligned, and the messages that it finds fit into the buffer together;
    the loop over attributes with the [RTA] macros does too. *)
Theorem walk_safe b fuel :
  Forall is_u8 b → Z.of_nat (length b) < 2147483648 → (length b < fuel)%nat →
  (∃ vs, walk (H := netlink) Int (S fuel) 0 (Z.of_nat (length b)) b = Some (Some vs) ∧
     walked (B := netlink) vs <= Z.of_nat (length b)) ∧
  (∃ vs, walk (H := rtattr) Int (S fuel) 0 (Z.of_nat (length b)) b = Some (Some vs) ∧
     walked (B := rtattr) vs <= Z.of_nat (length b)).
Proof.
  intros Hb Hlen Hf. split.
  - destruct (walk_any (B := netlink) b Hb Hlen fuel 0 (Z.of_nat (length b))) as (vs & Hrun & ?); [done|lia..|].
    exists vs. split; [done|lia].
  - destruct (walk_any (B := rtattr) b Hb Hlen fuel 0 (Z.of_nat (length b))) as (vs & Hrun & ?); [done|lia..|].
    exists vs. split; [done|lia].
Qed.

Lemma walk_safe_witness :
  ∃ vs, walk (H := rtattr) Int 9 0 7 [7; 0; 1; 0; 65; 66; 67] = Some (Some vs) ∧
    walked (B := rtattr) vs <= 7.
Proof.
  apply (walk_safe [7; 0; 1; 0; 65; 66; 67] 8); [|reflexivity|cbn; lia].
  repeat constructor; unfold is_u8; lia.
Defined.

(** A buffer of messages, each of a header that tells its length, a payload and the
    padding to a multiple of four, is read back by the loop: it returns the payloads in
    order, whether the length is an [int] or unsigned; the same holds for attributes. *)
Theorem walk_reads_frames ty items fuel pre post :
  aligned 4 (length pre) → (length items <= fuel)%nat →
  (Forall (frame_ok (B := netlink)) items →
   Z.of_nat (length (frames (B := netlink) items)) < 2147483648 →
   walk (H := netlink) ty (S fuel) (length pre) (Z.of_nat (length (frames (B := netlink) items)))
     (pre ++ frames (B := netlink) items ++ post) = Some (Some (items.*2))) ∧
  (Forall (frame_ok (B := rtattr)) items →
   Z.of_nat (length (frames (B := rtattr) items)) < 2147483648 →
   walk (H := rtattr) ty (S fuel) (length pre) (Z.of_nat (length (frames (B := rtattr) items)))
     (pre ++ frames (B := rtattr) items ++ post) = Some (Some (items.*2))).
Proof. intros Hal Hf. split; intros Hok Hlen; by apply walk_frames. Qed.

Lemma walk_reads_frames_witness :
  walk (H := rtattr) Int 3 4 16 ([9; 9; 9; 9] ++ [7; 0; 1; 0; 65; 66; 67; 0; 8; 0; 2; 0; 1; 2; 3; 4] ++ []) =
    Some (Some [[65; 66; 67]; [1; 2; 3; 4]]).
Proof.
  apply (walk_reads_frames Int [([7; 0; 1; 0], [65; 66; 67]); ([8; 0; 2; 0], [1; 2; 3; 4])] 2 [9; 9; 9; 9] []);
    [done|cbn; lia| |reflexivity].
  repeat constructor.
Defined.

(** With its length in an unsigned variable the loop reads past the end of a buffer
    whose last message is not a multiple of four bytes long: the length wraps around, and
    [NLMSG_OK] and [RTA_OK] read the header of a message behind the buffer. *)
Theorem unsigned_length_overreads fuel h v :
  Z.of_nat (length (h ++ v)) < 2147483648 → Z.of_nat (length (h ++ v)) mod 4 ≠ 0 →
  (frame_ok (B := netlink) (h, v) →
   walk (H := netlink) Unsigned (S (S fuel)) 0 (Z.of_nat (length (h ++ v))) (h ++ v) = None) ∧
  (frame_ok (B := rtattr) (h, v) →
   walk (H := rtattr) Unsigned (S (S fuel)) 0 (Z.of_nat (length (h ++ v))) (h ++ v) = None).
Proof.
  intros Hlen Hmod. split; intros Hok; pose proof (proj1 Hok) as Hh; cbn [fst] in Hh;
    rewrite length_app, Hh in Hlen, Hmod |- *;
    (apply walk_unsigned; [done..|apply Nat.ltb_lt; reflexivity]).
Qed.

Lemma unsigned_length_overreads_witness :
  walk (H := rtattr) Unsigned 2 0 7 [7; 0; 1; 0; 65; 66; 67] = None.
Proof.
  apply (unsigned_length_overreads 0 [7; 0; 1; 0] [65; 66; 67]); [reflexivity|discriminate|].
  repeat constructor.
Defined.

(** [RTNH_OK] reads the header of a next hop also where no room is left, unlike the others. *)
Lemma RTNH_OK_reads_behind b : RTNH_OK (length b) 0 b = None ∧ RTA_OK (length b) 0 b = Some false.
Proof. unfold RTNH_OK, rtnh_len, mbind, R_bind. by rewrite load16_outside. Qed.
