(* ===== verification/Cmsg.v ===== *)
(** * Ancillary data of a socket message, [bits/socket.h]

    The control buffer of a [msghdr] lies at an address of a 32-bit machine, and pointers
    are addresses that wrap around; a read outside the buffer or at an address that is no
    multiple of four is undefined. *)
From stdpp Require Import base numbers list.
From Stdlib Require Import ZArith Lia Sorted.
From S2P Require Import Prelude Tipc TipcTheory Netlink.

Record msghdr := Msghdr { msg_control : Z; msg_controllen : Z }.

Definition sizeof_cmsghdr : Z := 12.

(** The buffer is the object at [msg_control]. *)
Definition cmsg_len (mhdr : msghdr) (cmsg : Z) : R bytes Z :=
  if (msg_control mhdr <=? cmsg) && (cmsg mod 4 =? 0) then load32 (Z.to_nat (cmsg - msg_control mhdr)) else λ _, None.

Definition CMSG_ALIGN (len : Z) : Z := u32 (u32 (len + 4) - 1) .& u32 (Z.lnot (4 - 1)).
Definition CMSG_SPACE (len : Z) : Z := u32 (CMSG_ALIGN len + CMSG_ALIGN sizeof_cmsghdr).
Definition CMSG_LEN (len : Z) : Z := u32 (CMSG_ALIGN sizeof_cmsghdr + len).
Definition CMSG_DATA (cmsg : Z) : Z := u32 (cmsg + sizeof_cmsghdr).

Definition CMSG_FIRSTHDR (mhdr : msghdr) : Z :=
  if sizeof_cmsghdr <=? msg_controllen mhdr then msg_control mhdr else 0.

Definition __cmsg_nxthdr (mhdr : msghdr) (cmsg : Z) : R bytes Z :=
  n ← cmsg_len mhdr cmsg;
  if n <? sizeof_cmsghdr then mret 0
  else
    let cmsg := u32 (cmsg + CMSG_ALIGN n) in
    let limit := u32 (msg_control mhdr + msg_controllen mhdr) in
    if limit <? u32 (cmsg + sizeof_cmsghdr) then mret 0
    else
      n ← cmsg_len mhdr cmsg;
      if limit <? u32 (cmsg + CMSG_ALIGN n) then mret 0 else mret cmsg.

(** The loop over the headers, [for (c = CMSG_FIRSTHDR (m); c != NULL; c = CMSG_NXTHDR (m, c))];
    it returns their addresses, or nothing if the fuel does not suffice. *)
Fixpoint cmsg_walk (mhdr : msghdr) (fuel : nat) (cmsg : Z) : R bytes (option (list Z)) :=
  if cmsg =? 0 then mret (Some [])
  else
    match fuel with
    | O => mret None
    | S fuel =>
        next ← __cmsg_nxthdr mhdr cmsg;
        l ← cmsg_walk mhdr fuel next;
        mret (cons cmsg <$> l)
    end.

(** * Theory *)

Section buffer.

Context (mhdr : msghdr) (b : bytes) (Hb : Forall is_u8 b) (Hctl : 0 < msg_control mhdr).
Context (Hal : msg_control mhdr mod 4 = 0).
Context (Hlen : msg_controllen mhdr = Z.of_nat (length b)).
Context (Hfit : msg_control mhdr + Z.of_nat (length b) + sizeof_cmsghdr + 4 <= 4294967296).

Abbreviation limit := (msg_control mhdr + Z.of_nat (length b)).

(** A header inside the buffer, aligned as it has to be. *)
Definition header_in (cmsg : Z) : Prop :=
  msg_control mhdr <= cmsg ∧ cmsg + sizeof_cmsghdr <= limit ∧ cmsg mod 4 = 0.

Lemma cmsg_len_in cmsg : header_in cmsg → ∃ n, cmsg_len mhdr cmsg b = Some n ∧ 0 <= n.
Proof using Hb Hal.
  unfold header_in, sizeof_cmsghdr. intros (Hlo & Hhi & Hmod). unfold cmsg_len.
  rewrite (proj2 (Z.leb_le _ _)), (proj2 (Z.eqb_eq _ _)) by done. cbn [andb].
  assert (aligned 4 (Z.to_nat (cmsg - msg_control mhdr))) as Hoff.
  { apply Nat2Z.inj. rewrite Nat2Z.inj_mod, Z2Nat.id by lia. change (Z.of_nat 4) with 4.
    by rewrite Zminus_mod, Hmod, Hal. }
  unfold load32. rewrite decide_True by done. pose proof (aligned_half _ Hoff).
  destruct (load16_reads b (Z.to_nat (cmsg - msg_control mhdr))) as (x & Hx & ?); [done|done|lia|].
  destruct (load16_reads b (Z.to_nat (cmsg - msg_control mhdr) + 2)) as (y & Hy & ?); [by apply aligned_add|done|lia|].
  rewrite (R_bind_Some _ _ _ _ Hx), (R_bind_Some _ _ _ _ Hy). eexists. split; [done|].
  unfold is_u16 in *. apply Z.lor_nonneg. rewrite Z.shiftl_nonneg. lia.
Qed.

(** The headers that the loop comes to. *)
Inductive reached : Z → Prop :=
  | reached_first : CMSG_FIRSTHDR mhdr ≠ 0 → reached (CMSG_FIRSTHDR mhdr)
  | reached_next cmsg next : reached cmsg → __cmsg_nxthdr mhdr cmsg b = Some next → next ≠ 0 → reached next.

(** A header whose length does not take the address of the next one around. *)
Definition no_wrap (cmsg : Z) : Prop :=
  ∃ n, cmsg_len mhdr cmsg b = Some n ∧ cmsg + align4 n + sizeof_cmsghdr < 4294967296.

Lemma nxthdr_forward cmsg :
  header_in cmsg → no_wrap cmsg →
  ∃ r, __cmsg_nxthdr mhdr cmsg b = Some r ∧ (r = 0 ∨ (cmsg + sizeof_cmsghdr <= r ∧ header_in r)).
Proof using Hb Hctl Hal Hlen Hfit.
  intros Hin (n & Hn & Hend). pose proof (align4_bounds n).
  destruct (cmsg_len_in cmsg Hin) as (? & Hn' & Hpos). rewrite Hn in Hn'. injection Hn' as <-.
  unfold header_in, sizeof_cmsghdr in *. unfold __cmsg_nxthdr, sizeof_cmsghdr. rewrite (R_bind_Some _ _ _ _ Hn), Hlen.
  destruct (Z.ltb_spec n 12); [by eauto|]. cbv zeta.
  assert (CMSG_ALIGN n = align4 n) as -> by (apply ALIGN_arith; lia).
  rewrite (u32_id (cmsg + align4 n)), (u32_id limit), (u32_id (_ + 12)) by (unfold is_u32; lia).
  destruct (Z.ltb_spec limit (cmsg + align4 n + 12)); [by eauto|].
  assert ((cmsg + align4 n) mod 4 = 0) as Hnext.
  { unfold align4. rewrite Z.mod_add by lia. apply Hin. }
  destruct (cmsg_len_in (cmsg + align4 n)) as (n' & Hn'' & _).
  { unfold header_in, sizeof_cmsghdr. lia. }
  rewrite (R_bind_Some _ _ _ _ Hn''). destruct (limit <? _); [by eauto|].
  eexists. split; [done|]. right. lia.
Qed.

(** A length of nearly the size of the address space is aligned to 0. *)
Lemma nxthdr_stays cmsg n :
  header_in cmsg → cmsg_len mhdr cmsg b = Some n → 4294967293 <= n < 4294967296 →
  __cmsg_nxthdr mhdr cmsg b = Some cmsg.
Proof using Hctl Hlen Hfit.
  unfold header_in, sizeof_cmsghdr in *. intros (Hlo & Hhi & _) Hn Hr.
  unfold __cmsg_nxthdr, sizeof_cmsghdr. rewrite (R_bind_Some _ _ _ _ Hn), Hlen.
  rewrite (proj2 (Z.ltb_ge _ _)) by lia. cbv zeta.
  assert (CMSG_ALIGN n = 0) as HA.
  { assert (n = 4294967293 ∨ n = 4294967294 ∨ n = 4294967295) as Hc by lia.
    by destruct Hc as [-> | [-> | ->] ]. }
  rewrite HA, Z.add_0_r, (u32_id cmsg), (u32_id limit), (u32_id (cmsg + 12)) by (unfold is_u32; lia).
  rewrite (proj2 (Z.ltb_ge _ _)) by lia. rewrite (R_bind_Some _ _ _ _ Hn), HA, Z.add_0_r.
  rewrite (u32_id cmsg), (proj2 (Z.ltb_ge _ _)) by (unfold is_u32; lia). done.
Qed.

Lemma walk_forward :
  (∀ cmsg, reached cmsg → no_wrap cmsg) →
  ∀ fuel cmsg, reached cmsg → header_in cmsg → limit - cmsg < 12 * Z.of_nat fuel →
  ∃ l, cmsg_walk mhdr fuel cmsg b = Some (Some (cmsg :: l)) ∧
    Forall header_in (cmsg :: l) ∧ StronglySorted (λ x y, x + sizeof_cmsghdr <= y) (cmsg :: l).
Proof using Hb Hctl Hal Hlen Hfit.
  intros Hwrap. induction fuel as [|fuel IH]; intros cmsg Hre Hin Hf.
  { destruct Hin as (_ & Hin & _). unfold sizeof_cmsghdr in Hin. lia. }
  destruct (nxthdr_forward cmsg Hin (Hwrap _ Hre)) as (r & Hr & Hc). cbn [cmsg_walk].
  assert (cmsg ≠ 0) by (destruct Hin; lia). rewrite (proj2 (Z.eqb_neq _ _)) by done.
  rewrite (R_bind_Some _ _ _ _ Hr). destruct Hc as [->|[Hlt Hr']].
  - exists []. rewrite (R_bind_Some _ _ _ (Some [])) by (by destruct fuel).
    split_and!; [done|by apply Forall_singleton|by repeat constructor].
  - unfold sizeof_cmsghdr in Hlt. destruct (IH r) as (l & Hl & Hall & Hsort);
      [eapply reached_next; [exact Hre|exact Hr|destruct Hr'; lia]|done|lia|].
    exists (r :: l). rewrite (R_bind_Some _ _ _ _ Hl). split_and!; [done|by constructor|].
    constructor; [done|]. apply StronglySorted_inv in Hsort as [_ Hsort].
    unfold sizeof_cmsghdr in *. constructor; [done|]. eapply Forall_impl; [exact Hsort|]. cbn. lia.
Qed.

End buffer.

(** * Properties *)

(** C36: for an aligned control buffer of any contents in which no header that the loop comes to has a
    length so large that the address behind it wraps around, the loop over the headers ends
    without a read outside the buffer; the headers that it finds lie in the buffer, aligned, one
    behind the other. (For the lengths that are excluded [cmsg_walk_loops].) *)
Theorem cmsg_walk_safe mhdr b :
  Forall is_u8 b → 0 < msg_control mhdr → msg_control mhdr mod 4 = 0 →
  msg_controllen mhdr = Z.of_nat (length b) →
  msg_control mhdr + Z.of_nat (length b) + sizeof_cmsghdr + 4 <= 4294967296 →
  (∀ cmsg, reached mhdr b cmsg → no_wrap mhdr b cmsg) →
  ∃ l, cmsg_walk mhdr (S (length b)) (CMSG_FIRSTHDR mhdr) b = Some (Some l) ∧
    Forall (header_in mhdr b) l ∧ StronglySorted (λ x y, x + sizeof_cmsghdr <= y) l.
Proof.
  intros Hb Hctl Hal Hlen Hfit Hwrap. pose proof (reached_first mhdr b) as Hfirst. unfold CMSG_FIRSTHDR in *.
  rewrite Hlen in *. destruct (Z.leb_spec sizeof_cmsghdr (Z.of_nat (length b))) as [Hle|Hgt].
  - destruct (walk_forward mhdr b Hb Hctl Hal Hlen Hfit Hwrap (S (length b)) (msg_control mhdr)) as (l & Hl);
      [apply Hfirst; lia|unfold header_in; lia|lia|]. by eexists.
  - exists []. split_and!; [done|constructor|constructor].
Qed.

(** A header and its data, an [int] of -1, which is no length. *)
Definition example_control : bytes := [16; 0; 0; 0; 1; 0; 0; 0; 1; 0; 0; 0; 255; 255; 255; 255].

Lemma cmsg_walk_safe_witness :
  ∃ l, cmsg_walk (Msghdr 4096 16) 17 (CMSG_FIRSTHDR (Msghdr 4096 16)) example_control = Some (Some l) ∧
    Forall (header_in (Msghdr 4096 16) example_control) l ∧
    StronglySorted (λ x y, x + sizeof_cmsghdr <= y) l.
Proof.
  apply (cmsg_walk_safe (Msghdr 4096 16) example_control);
    [repeat constructor; unfold is_u8; lia|reflexivity|reflexivity|reflexivity|vm_compute; discriminate|].
  intros c Hc. assert (c = 4096) as ->; [|by eexists].
  induction Hc as [|c n _ IH Hn Hne]; [done|]. rewrite IH in Hn. vm_compute in Hn. congruence.
Defined.

(** A header whose length is one of the three largest makes the loop run forever:
    [CMSG_ALIGN] wraps around to 0, and [CMSG_NXTHDR] returns the header itself. *)
Theorem cmsg_walk_loops mhdr b n fuel :
  0 < msg_control mhdr → msg_control mhdr mod 4 = 0 → msg_controllen mhdr = Z.of_nat (length b) →
  msg_control mhdr + Z.of_nat (length b) + sizeof_cmsghdr + 4 <= 4294967296 →
  sizeof_cmsghdr <= Z.of_nat (length b) →
  cmsg_len mhdr (msg_control mhdr) b = Some n → 4294967293 <= n < 4294967296 →
  cmsg_walk mhdr fuel (CMSG_FIRSTHDR mhdr) b = Some None.
Proof.
  intros Hctl Hal Hlen Hfit Hle Hn Hr. unfold CMSG_FIRSTHDR. rewrite Hlen, (proj2 (Z.leb_le _ _)) by done.
  induction fuel as [|fuel IH]; cbn [cmsg_walk]; rewrite (proj2 (Z.eqb_neq _ _)) by lia; [done|].
  rewrite (R_bind_Some _ _ _ (msg_control mhdr)).
  - by rewrite (R_bind_Some _ _ _ _ IH).
  - apply nxthdr_stays with n; (done || unfold header_in; lia).
Qed.

Lemma cmsg_walk_loops_witness :
  cmsg_walk (Msghdr 4096 12) 1000 (CMSG_FIRSTHDR (Msghdr 4096 12))
    [255; 255; 255; 255; 1; 0; 0; 0; 1; 0; 0; 0] = Some None.
Proof.
  apply (cmsg_walk_loops (Msghdr 4096 12) [255; 255; 255; 255; 1; 0; 0; 0; 1; 0; 0; 0] 4294967295 1000);
    [reflexivity|reflexivity|reflexivity|vm_compute; discriminate|vm_compute; discriminate|reflexivity|lia].
Defined.
