(* ===== verification/StdString.v ===== *)
(** * Strings of the C++ library, [bits/basic_string.h] and [bits/basic_string.tcc]

    [std::basic_string<char>] with the standard allocator, in the new ABI: an object has a
    pointer to its characters, their number, and a union of a local buffer of sixteen
    characters and the capacity of an allocated buffer. [size_type] has 32 bits.

    The state holds the string objects and the blocks of memory, allocated by strings or
    belonging to the caller. A pointer is a buffer (the local one of an object, or a block)
    and an offset. A character is a number below 256, and a cell without one has not been
    written yet: cells are copied as they are, and only reading a character of
    one is undefined. Undefined are also an access outside a buffer, a copy between
    overlapping ranges, and giving back a block that is not there or of another size.

    Operations throw: a result is a value or an exception. Whether there is memory for a
    block is up to the class [Allocator]. *)
From stdpp Require Import base numbers list gmap.
From Stdlib Require Import ZArith Lia.
From S2P Require Import Prelude.

(** * State *)

Abbreviation cell := (option Z).

Inductive buffer := Local (o : nat) | Block (b : nat).

#[global] Instance buffer_eq_dec : EqDecision buffer.
Proof. solve_decision. Defined.

(** A pointer into a buffer. *)
Abbreviation ptr := (buffer * Z)%type.

(** The union of [_M_local_buf] and [_M_allocated_capacity]. *)
Inductive local_or_capacity :=
  | _M_local_buf (l : list cell)
  | _M_allocated_capacity (n : Z).

Record basic_string := String {
  _M_p : ptr;
  _M_string_length : Z;
  _M_union : local_or_capacity
}.

Record state := State {
  strings : gmap nat basic_string;
  blocks : gmap nat (list cell)
}.

Inductive exception := length_error | out_of_range | bad_alloc | logic_error.

(** * Commands *)

Definition Exc (A : Type) : Type := state → option ((A + exception) * state).

#[global] Instance Exc_ret : MRet Exc := λ A a st, Some (inl a, st).
#[global] Instance Exc_bind : MBind Exc := λ A B k c st,
  match c st with
  | Some (inl a, st') => k a st'
  | Some (inr e, st') => Some (inr e, st')
  | None => None
  end.

Definition undefined {A} : Exc A := λ _, None.
Definition throw {A} (e : exception) : Exc A := λ st, Some (inr e, st).
Definition catch {A} (c : Exc A) (h : exception → Exc A) : Exc A := λ st,
  match c st with
  | Some (inr e, st') => h e st'
  | r => r
  end.

Definition this_string (o : nat) : Exc basic_string := λ st,
  (λ s, (inl s, st)) <$> strings st !! o.
Definition set_string (o : nat) (s : basic_string) : Exc unit := λ st,
  Some (inl tt, State (<[o := s]> (strings st)) (blocks st)).

Definition remove_string (o : nat) : Exc unit := λ st,
  Some (inl tt, State (delete o (strings st)) (blocks st)).

(** * Memory *)

(** The bytes of a capacity are not characters that anyone has written. *)
Definition local_cells (s : basic_string) : list cell :=
  match _M_union s with
  | _M_local_buf l => l
  | _M_allocated_capacity _ => replicate 16 None
  end.

Definition cells (st : state) (b : buffer) : option (list cell) :=
  match b with
  | Local o => local_cells <$> strings st !! o
  | Block b => blocks st !! b
  end.

Definition set_cells (b : buffer) (l : list cell) : Exc unit := λ st,
  match b with
  | Local o =>
      s ← strings st !! o;
      Some (inl tt, State (<[o := String (_M_p s) (_M_string_length s) (_M_local_buf l)]> (strings st)) (blocks st))
  | Block b => Some (inl tt, State (strings st) (<[b := l]> (blocks st)))
  end.

Definition in_buffer (off n : Z) (l : list cell) : bool :=
  (0 <=? off) && (0 <=? n) && (off + n <=? Z.of_nat (length l)).

Definition read_cells (p : ptr) (n : Z) : Exc (list cell) := λ st,
  l ← cells st p.1;
  if in_buffer p.2 n l then Some (inl (take (Z.to_nat n) (drop (Z.to_nat p.2) l)), st) else None.

Definition splice (off : nat) (new l : list cell) : list cell :=
  take off l ++ new ++ drop (off + length new) l.

Definition write_cells (p : ptr) (new : list cell) : Exc unit := λ st,
  l ← cells st p.1;
  if in_buffer p.2 (Z.of_nat (length new)) l then
    set_cells p.1 (splice (Z.to_nat p.2) new l) st
  else None.

Definition read_char (p : ptr) : Exc Z :=
  l ← read_cells p 1;
  match l with
  | [Some c] => mret c
  | _ => undefined
  end.

Definition offset (p : ptr) (n : Z) : ptr := (p.1, p.2 + n).

Definition memmove (d s : ptr) (n : Z) : Exc unit := l ← read_cells s n; write_cells d l.

Definition overlap (d s : ptr) (n : Z) : bool :=
  bool_decide (d.1 = s.1) && (d.2 <? s.2 + n) && (s.2 <? d.2 + n).

Definition memcpy (d s : ptr) (n : Z) : Exc unit :=
  if overlap d s n then undefined else memmove d s n.

(** What [operator new] does is not part of the library: it may refuse. *)
Class Allocator := { refuses : gmap nat (list cell) → Z → bool }.

(** * [char_traits<char>], [bits/char_traits.h] *)

Definition traits_assign (d : ptr) (c : Z) : Exc unit := write_cells d [Some c].

Definition traits_copy (d s : ptr) (n : Z) : Exc unit := if n =? 0 then mret tt else memcpy d s n.
Definition traits_move (d s : ptr) (n : Z) : Exc unit := if n =? 0 then mret tt else memmove d s n.
Definition traits_assign_n (d : ptr) (n a : Z) : Exc unit :=
  if n =? 0 then mret tt else write_cells d (replicate (Z.to_nat n) (Some a)).

(** [memchr], character by character. *)
Fixpoint traits_find_loop (n : nat) (s : ptr) (a : Z) : Exc (option ptr) :=
  match n with
  | O => mret None
  | S n => c ← read_char s; if c =? a then mret (Some s) else traits_find_loop n (offset s 1) a
  end.

Definition traits_find (s : ptr) (n a : Z) : Exc (option ptr) := traits_find_loop (Z.to_nat n) s a.

(** [memcmp], of whose result only the sign is known. *)
Fixpoint traits_compare_loop (n : nat) (s1 s2 : ptr) : Exc Z :=
  match n with
  | O => mret 0
  | S n =>
      a ← read_char s1; b ← read_char s2;
      if a =? b then traits_compare_loop n (offset s1 1) (offset s2 1)
      else mret (if a <? b then -1 else 1)
  end.

(** It is not called for no characters, and both its arrays have all [n]. *)
Definition traits_compare (s1 s2 : ptr) (n : Z) : Exc Z :=
  if n =? 0 then mret 0
  else _ ← read_cells s1 n; _ ← read_cells s2 n; traits_compare_loop (Z.to_nat n) s1 s2.

(** [strlen]; a string ends inside its buffer. *)
Fixpoint traits_length_loop (fuel : nat) (s : ptr) : Exc Z :=
  match fuel with
  | O => undefined
  | S fuel => c ← read_char s; if c =? 0 then mret 0 else n ← traits_length_loop fuel (offset s 1); mret (u32 (n + 1))
  end.

Definition traits_length (s : ptr) : Exc Z := λ st,
  l ← cells st s.1; traits_length_loop (S (length l)) s st.

(** * The class *)

Section basic_string.
Context `{Allocator}.

Definition npos : Z := 4294967295.
Definition _S_local_capacity : Z := 15.
Definition max_size : Z := (npos - 1) / 2.

(** [new_allocator::allocate] and [deallocate]. *)
Definition allocate (n : Z) : Exc ptr := λ st,
  if (npos <? n) || refuses (blocks st) n then Some (inr bad_alloc, st)
  else
    let b := fresh (dom (blocks st)) in
    Some (inl (Block b, 0), State (strings st) (<[b := replicate (Z.to_nat n) None]> (blocks st))).

Definition deallocate (p : ptr) (n : Z) : Exc unit := λ st,
  match p with
  | (Block b, 0) =>
      l ← blocks st !! b;
      if Z.of_nat (length l) =? n then Some (inl tt, State (strings st) (delete b (blocks st))) else None
  | _ => None
  end.

(** ** Members *)

Definition _M_data (this : nat) : Exc ptr := s ← this_string this; mret (_M_p s).
Definition _M_set_data (this : nat) (p : ptr) : Exc unit :=
  s ← this_string this; set_string this (String p (_M_string_length s) (_M_union s)).
Definition _M_length (this : nat) (n : Z) : Exc unit :=
  s ← this_string this; set_string this (String (_M_p s) n (_M_union s)).
Definition _M_capacity (this : nat) (n : Z) : Exc unit :=
  s ← this_string this; set_string this (String (_M_p s) (_M_string_length s) (_M_allocated_capacity n)).
Definition _M_local_data (this : nat) : ptr := (Local this, 0).
(** Reading the capacity where the union holds the local buffer is undefined. *)
Definition allocated_capacity (this : nat) : Exc Z :=
  s ← this_string this;
  match _M_union s with
  | _M_allocated_capacity n => mret n
  | _M_local_buf _ => undefined
  end.

Definition size (this : nat) : Exc Z := s ← this_string this; mret (_M_string_length s).

Definition _M_set_length (this : nat) (n : Z) : Exc unit :=
  _M_length this n;;
  p ← _M_data this;
  traits_assign (offset p n) 0.

Definition _M_is_local (this : nat) : Exc bool :=
  p ← _M_data this; mret (bool_decide (p = _M_local_data this)).

Definition capacity (this : nat) : Exc Z :=
  l ← _M_is_local this;
  if (l : bool) then mret _S_local_capacity else allocated_capacity this.

Definition _M_destroy (this : nat) (n : Z) : Exc unit :=
  p ← _M_data this; deallocate p (u32 (n + 1)).

Definition _M_dispose (this : nat) : Exc unit :=
  l ← _M_is_local this;
  if (l : bool) then mret tt else (n ← allocated_capacity this; _M_destroy this n).

(** The pointer, and the new value of [__capacity]. *)
Definition _M_create (capacity old_capacity : Z) : Exc (ptr * Z) :=
  if max_size <? capacity then throw length_error
  else
    let capacity :=
      if (old_capacity <? capacity) && (capacity <? u32 (2 * old_capacity)) then
        let capacity := u32 (2 * old_capacity) in
        if max_size <? capacity then max_size else capacity
      else capacity in
    p ← allocate (u32 (capacity + 1)); mret (p, capacity).

Definition _M_check (this : nat) (pos : Z) : Exc Z :=
  n ← size this; if n <? pos then throw out_of_range else mret pos.

Definition _M_check_length (this : nat) (n1 n2 : Z) : Exc unit :=
  n ← size this;
  if u32 (max_size - u32 (n - n1)) <? n2 then throw length_error else mret tt.

Definition _M_limit (this : nat) (pos off : Z) : Exc Z :=
  n ← size this;
  mret (if off <? u32 (n - pos) then off else u32 (n - pos)).

(** Buffers lie apart in memory, so a pointer into another one is below or above. *)
Definition _M_disjunct (this : nat) (s : ptr) : Exc bool :=
  p ← _M_data this; n ← size this;
  mret (if bool_decide (s.1 = p.1) then (s.2 <? p.2) || (p.2 + n <? s.2) else true).

Definition _S_copy (d s : ptr) (n : Z) : Exc unit :=
  if n =? 1 then (c ← read_char s; traits_assign d c) else traits_copy d s n.
Definition _S_move (d s : ptr) (n : Z) : Exc unit :=
  if n =? 1 then (c ← read_char s; traits_assign d c) else traits_move d s n.
Definition _S_assign (d : ptr) (n c : Z) : Exc unit :=
  if n =? 1 then traits_assign d c else traits_assign_n d n c.

Definition _S_compare (n1 n2 : Z) : Z :=
  let d := u32 (n1 - n2) in
  if 2147483648 <=? d then d - 4294967296 else d.

(** ** Changing the contents *)

(** [s] is a null pointer where the new characters are written later. *)
Definition _M_mutate (this : nat) (pos len1 : Z) (s : option ptr) (len2 : Z) : Exc unit :=
  n ← size this;
  let how_much := u32 (u32 (n - pos) - len1) in
  old ← capacity this;
  '(r, new_capacity) ← _M_create (u32 (u32 (n + len2) - len1)) old;
  p ← _M_data this;
  (if truth pos then _S_copy r p pos else mret tt);;
  match s with
  | Some s => if truth len2 then _S_copy (offset r pos) s len2 else mret tt
  | None => mret tt
  end;;
  (if truth how_much then
     p ← _M_data this;
     _S_copy (offset (offset r pos) len2) (offset (offset p pos) len1) how_much
   else mret tt);;
  _M_dispose this;;
  _M_set_data this r;;
  _M_capacity this new_capacity.

Definition _M_erase (this : nat) (pos n : Z) : Exc unit :=
  len ← size this;
  let how_much := u32 (u32 (len - pos) - n) in
  (if truth how_much && truth n then
     p ← _M_data this; _S_move (offset p pos) (offset (offset p pos) n) how_much
   else mret tt);;
  _M_set_length this (u32 (len - n)).

Definition _M_append (this : nat) (s : ptr) (n : Z) : Exc unit :=
  old ← size this;
  let len := u32 (n + old) in
  cap ← capacity this;
  (if len <=? cap then
     if truth n then p ← _M_data this; _S_copy (offset p old) s n else mret tt
   else _M_mutate this old 0 (Some s) n);;
  _M_set_length this len.

Definition _M_replace_aux (this : nat) (pos1 n1 n2 c : Z) : Exc unit :=
  _M_check_length this n1 n2;;
  old_size ← size this;
  let new_size := u32 (u32 (old_size + n2) - n1) in
  cap ← capacity this;
  (if new_size <=? cap then
     d ← _M_data this;
     let p := offset d pos1 in
     let how_much := u32 (u32 (old_size - pos1) - n1) in
     if truth how_much && negb (n1 =? n2) then _S_move (offset p n2) (offset p n1) how_much else mret tt
   else _M_mutate this pos1 n1 None n2);;
  (if truth n2 then d ← _M_data this; _S_assign (offset d pos1) n2 c else mret tt);;
  _M_set_length this new_size.

(** Replacing by characters of the string itself, in place. Here [s] and [p] are pointers
    into the same buffer. *)
Definition _M_replace_in_place (p s : ptr) (len1 len2 how_much : Z) : Exc unit :=
  (if truth len2 && (len2 <=? len1) then _S_move p s len2 else mret tt);;
  (if truth how_much && negb (len1 =? len2) then _S_move (offset p len2) (offset p len1) how_much
   else mret tt);;
  (if len1 <? len2 then
     if s.2 + len2 <=? p.2 + len1 then _S_move p s len2
     else if p.2 + len1 <=? s.2 then _S_copy p (offset (offset s len2) (- len1)) len2
     else
       let nleft := p.2 + len1 - s.2 in
       _S_move p s nleft;;
       _S_copy (offset p nleft) (offset p len2) (u32 (len2 - nleft))
   else mret tt).

Definition _M_replace (this : nat) (pos len1 : Z) (s : ptr) (len2 : Z) : Exc unit :=
  _M_check_length this len1 len2;;
  old_size ← size this;
  let new_size := u32 (u32 (old_size + len2) - len1) in
  cap ← capacity this;
  (if new_size <=? cap then
     d ← _M_data this;
     let p := offset d pos in
     let how_much := u32 (u32 (old_size - pos) - len1) in
     apart ← _M_disjunct this s;
     if (apart : bool) then
       (if truth how_much && negb (len1 =? len2) then _S_move (offset p len2) (offset p len1) how_much
        else mret tt);;
       (if truth len2 then _S_copy p s len2 else mret tt)
     else _M_replace_in_place p s len1 len2 how_much
   else _M_mutate this pos len1 (Some s) len2);;
  _M_set_length this new_size.

Definition _M_assign (this str : nat) : Exc unit :=
  if (this =? str)%nat then mret tt
  else
    rsize ← size str;
    cap ← capacity this;
    (if cap <? rsize then
       '(tmp, new_capacity) ← _M_create rsize cap;
       _M_dispose this;;
       _M_set_data this tmp;;
       _M_capacity this new_capacity
     else mret tt);;
    (if truth rsize then d ← _M_data this; p ← _M_data str; _S_copy d p rsize else mret tt);;
    _M_set_length this rsize.

Definition reserve (this : nat) (res : Z) : Exc unit :=
  n ← size this;
  let res := if res <? n then n else res in
  cap ← capacity this;
  if res =? cap then mret tt
  else if (cap <? res) || (_S_local_capacity <? res) then
    '(tmp, res) ← _M_create res cap;
    p ← _M_data this;
    _S_copy tmp p (u32 (n + 1));;
    _M_dispose this;;
    _M_set_data this tmp;;
    _M_capacity this res
  else
    l ← _M_is_local this;
    if (l : bool) then mret tt
    else
      p ← _M_data this;
      _S_copy (_M_local_data this) p (u32 (n + 1));;
      _M_destroy this cap;;
      _M_set_data this (_M_local_data this).

(** ** Construction and destruction *)

(** The object before the body of its constructor; an object whose constructor throws does
    not come into being. *)
Definition construct (this : nat) (body : Exc unit) : Exc unit := λ st,
  match strings st !! this with
  | Some _ => None
  | None =>
      let s := String (_M_local_data this) 0 (_M_local_buf (replicate 16 None)) in
      match body (State (<[this := s]> (strings st)) (blocks st)) with
      | Some (inr e, st') => Some (inr e, State (delete this (strings st')) (blocks st'))
      | r => r
      end
  end.

(** From the [n] characters at a pointer, which may be null. *)
Definition _M_construct (this : nat) (beg : option ptr) (n : Z) : Exc unit :=
  match beg with
  | None => if truth n then throw logic_error else mret tt
  | Some _ => mret tt
  end;;
  (if _S_local_capacity <? n then
     '(p, cap) ← _M_create n 0; _M_set_data this p;; _M_capacity this cap
   else mret tt);;
  match beg with
  | None => mret tt
  | Some s => p ← _M_data this; _S_copy p s n
  end;;
  _M_set_length this n.

Definition _M_construct_fill (this : nat) (n c : Z) : Exc unit :=
  (if _S_local_capacity <? n then
     '(p, cap) ← _M_create n 0; _M_set_data this p;; _M_capacity this cap
   else mret tt);;
  (if truth n then p ← _M_data this; _S_assign p n c else mret tt);;
  _M_set_length this n.

(** From an input iterator, of which the characters are not counted before. *)
Fixpoint _M_construct_local (this : nat) (input : list Z) (len : Z) : Exc (list Z * Z) :=
  match input with
  | c :: input' =>
      if len <? _S_local_capacity then
        p ← _M_data this; traits_assign (offset p len) c;;
        _M_construct_local this input' (len + 1)
      else mret (input, len)
  | [] => mret ([], len)
  end.

Fixpoint _M_construct_more (this : nat) (input : list Z) (len cap : Z) : Exc Z :=
  match input with
  | [] => mret len
  | c :: input =>
      cap ←
        (if len =? cap then
           '(another, cap) ← _M_create (u32 (len + 1)) len;
           p ← _M_data this;
           _S_copy another p len;;
           _M_dispose this;;
           _M_set_data this another;;
           _M_capacity this cap;;
           mret cap
         else mret cap);
      p ← _M_data this; traits_assign (offset p len) c;;
      _M_construct_more this input (u32 (len + 1)) cap
  end.

Definition _M_construct_input (this : nat) (input : list Z) : Exc unit :=
  '(rest, len) ← _M_construct_local this input 0;
  len ← catch (_M_construct_more this rest len _S_local_capacity)
    (λ e, _M_dispose this;; throw e);
  _M_set_length this len.

Definition new_empty (this : nat) : Exc unit := construct this (_M_set_length this 0).

Definition new_copy (this str : nat) : Exc unit :=
  construct this (p ← _M_data str; n ← size str; _M_construct this (Some p) n).

Definition new_sub (this str : nat) (pos n : Z) : Exc unit :=
  construct this
    (p ← _M_data str; pos ← _M_check str pos; n ← _M_limit str pos n;
     _M_construct this (Some (offset p pos)) n).

Definition new_ptr_n (this : nat) (s : option ptr) (n : Z) : Exc unit :=
  construct this (_M_construct this s n).

Definition new_ptr (this : nat) (s : option ptr) : Exc unit :=
  construct this
    match s with
    | Some p => n ← traits_length p; _M_construct this s n
    | None => _M_construct this None npos
    end.

Definition new_fill (this : nat) (n c : Z) : Exc unit := construct this (_M_construct_fill this n c).

Definition new_input (this : nat) (input : list Z) : Exc unit := construct this (_M_construct_input this input).

Definition new_move (this str : nat) : Exc unit :=
  construct this
    (l ← _M_is_local str;
     (if (l : bool) then traits_copy (Local this, 0) (Local str, 0) (_S_local_capacity + 1)
      else
        p ← _M_data str; _M_set_data this p;;
        n ← allocated_capacity str; _M_capacity this n);;
     n ← size str;
     _M_length this n;;
     _M_set_data str (_M_local_data str);;
     _M_set_length str 0).

(** The destructor. *)
Definition destroy (this : nat) : Exc unit :=
  _M_dispose this;; remove_string this.

(** ** Access *)

Definition clear (this : nat) : Exc unit := _M_set_length this 0.
Definition is_empty (this : nat) : Exc bool := n ← size this; mret (n =? 0).
(** [operator[]], which also gives the terminating null character. *)
Definition subscript (this : nat) (pos : Z) : Exc Z := p ← _M_data this; read_char (offset p pos).
Definition at_pos (this : nat) (n : Z) : Exc Z :=
  len ← size this;
  if len <=? n then throw out_of_range else (p ← _M_data this; read_char (offset p n)).
Definition front (this : nat) : Exc Z := subscript this 0.
Definition back (this : nat) : Exc Z := n ← size this; subscript this (u32 (n - 1)).

(** ** Appending *)

Definition append_str (this str : nat) : Exc unit :=
  p ← _M_data str; n ← size str; _M_append this p n.
Definition append_sub (this str : nat) (pos n : Z) : Exc unit :=
  p ← _M_data str; pos ← _M_check str pos; n ← _M_limit str pos n;
  _M_append this (offset p pos) n.
Definition append_ptr_n (this : nat) (s : ptr) (n : Z) : Exc unit :=
  _M_check_length this 0 n;; _M_append this s n.
Definition append_ptr (this : nat) (s : ptr) : Exc unit :=
  n ← traits_length s; _M_check_length this 0 n;; _M_append this s n.
Definition append_fill (this : nat) (n c : Z) : Exc unit :=
  len ← size this; _M_replace_aux this len 0 n c.
Definition push_back (this : nat) (c : Z) : Exc unit :=
  n ← size this;
  cap ← capacity this;
  (if cap <? u32 (n + 1) then _M_mutate this n 0 None 1 else mret tt);;
  p ← _M_data this;
  traits_assign (offset p n) c;;
  _M_set_length this (u32 (n + 1)).

Definition resize (this : nat) (n c : Z) : Exc unit :=
  len ← size this;
  if len <? n then append_fill this (u32 (n - len)) c
  else if n <? len then _M_set_length this n
  else mret tt.

Definition shrink_to_fit (this : nat) : Exc unit :=
  cap ← capacity this; n ← size this;
  if n <? cap then catch (reserve this 0) (λ _, mret tt) else mret tt.

(** ** Replacing, inserting, assigning *)

Definition replace_ptr_n (this : nat) (pos n1 : Z) (s : ptr) (n2 : Z) : Exc unit :=
  pos ← _M_check this pos; n1 ← _M_limit this pos n1; _M_replace this pos n1 s n2.
Definition replace_ptr (this : nat) (pos n1 : Z) (s : ptr) : Exc unit :=
  n2 ← traits_length s; replace_ptr_n this pos n1 s n2.
Definition replace_str (this : nat) (pos n : Z) (str : nat) : Exc unit :=
  p ← _M_data str; len ← size str; replace_ptr_n this pos n p len.
Definition replace_sub (this : nat) (pos1 n1 : Z) (str : nat) (pos2 n2 : Z) : Exc unit :=
  p ← _M_data str; pos2 ← _M_check str pos2; n2 ← _M_limit str pos2 n2;
  replace_ptr_n this pos1 n1 (offset p pos2) n2.
Definition replace_fill (this : nat) (pos n1 n2 c : Z) : Exc unit :=
  pos ← _M_check this pos; n1 ← _M_limit this pos n1; _M_replace_aux this pos n1 n2 c.

Definition insert_str (this : nat) (pos : Z) (str : nat) : Exc unit :=
  p ← _M_data str; len ← size str; replace_ptr_n this pos 0 p len.
Definition insert_sub (this : nat) (pos1 : Z) (str : nat) (pos2 n : Z) : Exc unit :=
  p ← _M_data str; pos2 ← _M_check str pos2; n ← _M_limit str pos2 n;
  replace_ptr_n this pos1 0 (offset p pos2) n.
Definition insert_ptr_n (this : nat) (pos : Z) (s : ptr) (n : Z) : Exc unit :=
  replace_ptr_n this pos 0 s n.
Definition insert_ptr (this : nat) (pos : Z) (s : ptr) : Exc unit :=
  n ← traits_length s; replace_ptr_n this pos 0 s n.
Definition insert_fill (this : nat) (pos n c : Z) : Exc unit :=
  pos ← _M_check this pos; _M_replace_aux this pos 0 n c.

Definition assign_str (this str : nat) : Exc unit := _M_assign this str.
Definition assign_sub (this str : nat) (pos n : Z) : Exc unit :=
  len ← size this; p ← _M_data str; pos ← _M_check str pos; n ← _M_limit str pos n;
  _M_replace this 0 len (offset p pos) n.
Definition assign_ptr_n (this : nat) (s : ptr) (n : Z) : Exc unit :=
  len ← size this; _M_replace this 0 len s n.
Definition assign_ptr (this : nat) (s : ptr) : Exc unit :=
  len ← size this; n ← traits_length s; _M_replace this 0 len s n.
Definition assign_fill (this : nat) (n c : Z) : Exc unit :=
  len ← size this; _M_replace_aux this 0 len n c.

(** [operator=] from an rvalue; the allocators are always equal. *)
Definition assign_move (this str : nat) : Exc unit :=
  l ← _M_is_local str;
  (if (l : bool) then
     n ← size str;
     (if truth n then d ← _M_data this; p ← _M_data str; _S_copy d p n else mret tt);;
     n ← size str; _M_set_length this n
   else
     mine ← _M_is_local this;
     kept ← (if (mine : bool) then mret None
             else (d ← _M_data this; n ← allocated_capacity this; mret (Some (d, n))));
     p ← _M_data str; _M_set_data this p;;
     n ← size str; _M_length this n;;
     cap ← allocated_capacity str; _M_capacity this cap;;
     match kept with
     | Some (d, n) => _M_set_data str d;; _M_capacity str n
     | None => _M_set_data str (_M_local_data str)
     end);;
  clear str.

(** ** Erasing *)

Definition erase (this : nat) (pos n : Z) : Exc unit :=
  pos ← _M_check this pos;
  if n =? npos then _M_set_length this pos
  else if n =? 0 then mret tt
  else n ← _M_limit this pos n; _M_erase this pos n.
(** [erase(iterator, iterator)], given as offsets. *)
Definition erase_range (this : nat) (first last : Z) : Exc unit :=
  n ← size this;
  if last =? n then _M_set_length this first else _M_erase this first (last - first).
Definition pop_back (this : nat) : Exc unit := n ← size this; _M_erase this (u32 (n - 1)) 1.

(** ** Exchanging *)

Definition swap (this s : nat) : Exc unit :=
  if (this =? s)%nat then mret tt
  else
    mine ← _M_is_local this;
    its ← _M_is_local s;
    len ← size this;
    s_len ← size s;
    let exchange_lengths :=
      (tmp_length ← size this; n ← size s; _M_length this n;; _M_length s tmp_length) in
    if (mine : bool) then
      if (its : bool) then
        if truth len && truth s_len then
          (tmp_data ← read_cells (Local s, 0) (_S_local_capacity + 1);
           traits_copy (Local s, 0) (Local this, 0) (_S_local_capacity + 1);;
           write_cells (Local this, 0) tmp_data);;
          exchange_lengths
        else if truth s_len then
          traits_copy (Local this, 0) (Local s, 0) (_S_local_capacity + 1);;
          n ← size s; _M_length this n;; _M_set_length s 0
        else if truth len then
          traits_copy (Local s, 0) (Local this, 0) (_S_local_capacity + 1);;
          n ← size this; _M_length s n;; _M_set_length this 0
        else exchange_lengths
      else
        tmp_capacity ← allocated_capacity s;
        traits_copy (Local s, 0) (Local this, 0) (_S_local_capacity + 1);;
        p ← _M_data s; _M_set_data this p;;
        _M_set_data s (_M_local_data s);;
        _M_capacity this tmp_capacity;;
        exchange_lengths
    else
      tmp_capacity ← allocated_capacity this;
      (if (its : bool) then
         traits_copy (Local this, 0) (Local s, 0) (_S_local_capacity + 1);;
         p ← _M_data this; _M_set_data s p;;
         _M_set_data this (_M_local_data this)
       else
         tmp_ptr ← _M_data this;
         p ← _M_data s; _M_set_data this p;;
         _M_set_data s tmp_ptr;;
         n ← allocated_capacity s; _M_capacity this n);;
      _M_capacity s tmp_capacity;;
      exchange_lengths.

(** ** Searching *)

(** The loops of the searches run at most once for each character. *)
Fixpoint find_loop (fuel : nat) (data last first s : ptr) (len n elem0 : Z) : Exc Z :=
  match fuel with
  | O => undefined
  | S fuel =>
      if n <=? len then
        r ← traits_find first (u32 (u32 (len - n) + 1)) elem0;
        match r with
        | None => mret npos
        | Some first =>
            c ← traits_compare first s n;
            if c =? 0 then mret (first.2 - data.2)
            else
              let first := offset first 1 in
              find_loop fuel data last first s (last.2 - first.2) n elem0
        end
      else mret npos
  end.

Definition find_ptr (this : nat) (s : ptr) (pos n : Z) : Exc Z :=
  len ← size this;
  if n =? 0 then mret (if pos <=? len then pos else npos)
  else if len <=? pos then mret npos
  else
    elem0 ← read_char s;
    data ← _M_data this;
    find_loop (S (Z.to_nat len)) data (offset data len) (offset data pos) s (u32 (len - pos)) n elem0.

Definition find_char (this : nat) (c pos : Z) : Exc Z :=
  len ← size this;
  if pos <? len then
    data ← _M_data this;
    r ← traits_find (offset data pos) (u32 (len - pos)) c;
    mret (match r with Some p => p.2 - data.2 | None => npos end)
  else mret npos.

(** [do ... while (pos-- > 0)] *)
Fixpoint rfind_loop (pos : nat) (data s : ptr) (n : Z) : Exc Z :=
  c ← traits_compare (offset data (Z.of_nat pos)) s n;
  if c =? 0 then mret (Z.of_nat pos)
  else match pos with
       | O => mret npos
       | S pos => rfind_loop pos data s n
       end.

Definition rfind_ptr (this : nat) (s : ptr) (pos n : Z) : Exc Z :=
  len ← size this;
  if n <=? len then
    data ← _M_data this;
    rfind_loop (Z.to_nat (Z.min (u32 (len - n)) pos)) data s n
  else mret npos.

(** The searches for a character that passes a test, from [pos] up or down: the test is
    whether it is, or is not, one of the characters at a pointer, or a given character. *)
Fixpoint first_loop (fuel : nat) (this : nat) (test : Z → Exc bool) (pos : Z) : Exc Z :=
  match fuel with
  | O => undefined
  | S fuel =>
      n ← size this;
      if pos <? n then
        data ← _M_data this; c ← read_char (offset data pos);
        found ← test c;
        if (found : bool) then mret pos else first_loop fuel this test (u32 (pos + 1))
      else mret npos
  end.

Fixpoint last_loop (pos : nat) (this : nat) (test : Z → Exc bool) : Exc Z :=
  data ← _M_data this; c ← read_char (offset data (Z.of_nat pos));
  found ← test c;
  if (found : bool) then mret (Z.of_nat pos)
  else match pos with
       | O => mret npos
       | S pos => last_loop pos this test
       end.

Definition one_of (s : ptr) (n : Z) (c : Z) : Exc bool :=
  r ← traits_find s n c; mret (bool_decide (is_Some r)).
Definition none_of (s : ptr) (n : Z) (c : Z) : Exc bool :=
  r ← traits_find s n c; mret (negb (bool_decide (is_Some r))).

Definition last_search (this : nat) (test : Z → Exc bool) (pos : Z) : Exc Z :=
  n ← size this;
  if truth n then
    let top := if pos <? u32 (n - 1) then pos else u32 (n - 1) in
    last_loop (Z.to_nat top) this test
  else mret npos.

Definition first_search (this : nat) (test : Z → Exc bool) (pos : Z) : Exc Z :=
  n ← size this; first_loop (S (Z.to_nat n)) this test pos.

Definition rfind_char (this : nat) (c pos : Z) : Exc Z := last_search this (λ x, mret (x =? c)) pos.
Definition find_first_of (this : nat) (s : ptr) (pos n : Z) : Exc Z :=
  if truth n then first_search this (one_of s n) pos else mret npos.
Definition find_last_of (this : nat) (s : ptr) (pos n : Z) : Exc Z :=
  if truth n then last_search this (one_of s n) pos else mret npos.
Definition find_first_not_of (this : nat) (s : ptr) (pos n : Z) : Exc Z := first_search this (none_of s n) pos.
Definition find_first_not_of_char (this : nat) (c pos : Z) : Exc Z :=
  first_search this (λ x, mret (negb (x =? c))) pos.
Definition find_last_not_of (this : nat) (s : ptr) (pos n : Z) : Exc Z := last_search this (none_of s n) pos.
Definition find_last_not_of_char (this : nat) (c pos : Z) : Exc Z :=
  last_search this (λ x, mret (negb (x =? c))) pos.

(** ** Copying out and comparing *)

Definition copy (this : nat) (s : ptr) (n pos : Z) : Exc Z :=
  pos ← _M_check this pos;
  n ← _M_limit this pos n;
  (if truth n then p ← _M_data this; _S_copy s (offset p pos) n else mret tt);;
  mret n.

Definition compare_ranges (p1 : ptr) (n1 : Z) (p2 : ptr) (n2 : Z) : Exc Z :=
  r ← traits_compare p1 p2 (Z.min n1 n2);
  mret (if r =? 0 then _S_compare n1 n2 else r).

Definition compare_str (this str : nat) : Exc Z :=
  n ← size this; osize ← size str; p ← _M_data this; q ← _M_data str;
  compare_ranges p n q osize.
Definition compare_sub_str (this : nat) (pos n : Z) (str : nat) : Exc Z :=
  pos ← _M_check this pos; n ← _M_limit this pos n; osize ← size str;
  p ← _M_data this; q ← _M_data str; compare_ranges (offset p pos) n q osize.
Definition compare_sub_sub (this : nat) (pos1 n1 : Z) (str : nat) (pos2 n2 : Z) : Exc Z :=
  pos1 ← _M_check this pos1; pos2 ← _M_check str pos2;
  n1 ← _M_limit this pos1 n1; n2 ← _M_limit str pos2 n2;
  p ← _M_data this; q ← _M_data str; compare_ranges (offset p pos1) n1 (offset q pos2) n2.
Definition compare_ptr (this : nat) (s : ptr) : Exc Z :=
  n ← size this; osize ← traits_length s; p ← _M_data this; compare_ranges p n s osize.
Definition compare_sub_ptr (this : nat) (pos n1 : Z) (s : ptr) : Exc Z :=
  pos ← _M_check this pos; n1 ← _M_limit this pos n1; osize ← traits_length s;
  p ← _M_data this; compare_ranges (offset p pos) n1 s osize.
Definition compare_sub_ptr_n (this : nat) (pos n1 : Z) (s : ptr) (n2 : Z) : Exc Z :=
  pos ← _M_check this pos; n1 ← _M_limit this pos n1;
  p ← _M_data this; compare_ranges (offset p pos) n1 s n2.

End basic_string.
