(* ===== verification/StdStringView.v ===== *)
(** * String objects in memory: views, primitive steps and their effect

    A view of a string object is what the functions of the class see of it: the buffer it
    uses, the cells of the buffer and the length. Here is what each primitive of [StdString]
    does in a state in which an object has a view; the functions then become functions on
    lists of cells. *)
From stdpp Require Import base numbers list gmap.
From Stdlib Require Import ZArith Lia.
From S2P Require Import Prelude StdString.

(** * Steps *)

Lemma bind_ok {A B} (c : Exc A) (k : A → Exc B) st a st' :
  c st = Some (inl a, st') → (c ≫= k) st = k a st'.
Proof. intros H. unfold mbind, Exc_bind. by rewrite H. Qed.

Lemma bind_throws {A B} (c : Exc A) (k : A → Exc B) st e st' :
  c st = Some (inr e, st') → (c ≫= k) st = Some (inr e, st').
Proof. intros H. unfold mbind, Exc_bind. by rewrite H. Qed.

Lemma bind_ret {A B} (a : A) (k : A → Exc B) st : (mret a ≫= k) st = k a st.
Proof. done. Qed.

(** * Views *)

(** The block and the capacity, for a string that is not local. *)
Record view := View {
  v_block : option (nat * Z);
  v_cells : list cell;
  v_len : Z
}.

Definition v_buffer (o : nat) (V : view) : buffer :=
  match v_block V with Some (b, _) => Block b | None => Local o end.

Definition v_cap (V : view) : Z :=
  match v_block V with Some (_, n) => n | None => _S_local_capacity end.

Definition v_object (o : nat) (V : view) : basic_string :=
  String (v_buffer o V, 0) (v_len V)
    match v_block V with
    | Some (_, n) => _M_allocated_capacity n
    | None => _M_local_buf (v_cells V)
    end.

(** The object has the view. *)
Definition has (st : state) (o : nat) (V : view) : Prop :=
  strings st !! o = Some (v_object o V) ∧
  Z.of_nat (length (v_cells V)) = v_cap V + 1 ∧
  (∀ b n, v_block V = Some (b, n) → blocks st !! b = Some (v_cells V)).

(** The state with another view of the object. *)
Definition put (st : state) (o : nat) (V : view) : state :=
  State (<[o := v_object o V]> (strings st))
    match v_block V with
    | Some (b, _) => <[b := v_cells V]> (blocks st)
    | None => blocks st
    end.

Definition with_cells (V : view) (l : list cell) : view := View (v_block V) l (v_len V).
Definition with_len (V : view) (n : Z) : view := View (v_block V) (v_cells V) n.

Lemma has_put st o V : Z.of_nat (length (v_cells V)) = v_cap V + 1 → has (put st o V) o V.
Proof.
  intros Hl. split_and!; [apply lookup_insert_eq|done|].
  intros b n Hb. unfold put. rewrite Hb. apply lookup_insert_eq.
Qed.

Lemma put_put st o V1 V2 : v_block V1 = v_block V2 → put (put st o V1) o V2 = put st o V2.
Proof.
  intros Hb. unfold put. cbn. rewrite Hb. destruct (v_block V2) as [ [b n]|]; by rewrite !insert_insert_eq.
Qed.

Lemma put_same st o V : has st o V → put st o V = st.
Proof.
  intros (Hs & _ & Hb). destruct st as [ss bs]. unfold put. cbn in *. rewrite insert_id by done.
  destruct (v_block V) as [ [b n]|]; [|done]. by rewrite insert_id by (by eapply Hb).
Qed.

Lemma cells_view st o V : has st o V → cells st (v_buffer o V) = Some (v_cells V).
Proof.
  intros (Hs & _ & Hb). unfold v_buffer. destruct (v_block V) as [ [b n]|] eqn:E; cbn.
  - by eapply Hb.
  - rewrite Hs. cbn. unfold local_cells, v_object. by rewrite E.
Qed.

Lemma put_cells_other st o V p :
  p ≠ v_buffer o V → p ≠ Local o → cells (put st o V) p = cells st p.
Proof.
  intros Hp Ho. unfold put. destruct p as [o'|b]; cbn.
  - by rewrite lookup_insert_ne by congruence.
  - unfold v_buffer in Hp. destruct (v_block V) as [ [b' n]|]; [|done].
    by rewrite lookup_insert_ne by congruence.
Qed.

(** * Primitives *)

Section primitives.
Context `{Allocator} (st : state) (o : nat) (V : view).
Context (HV : has st o V).

Lemma this_string_run : this_string o st = Some (inl (v_object o V), st).
Proof using HV. unfold this_string. by rewrite (proj1 HV). Qed.

Lemma data_run : _M_data o st = Some (inl (v_buffer o V, 0), st).
Proof using HV. unfold _M_data. by rewrite (bind_ok _ _ _ _ _ this_string_run). Qed.

Lemma string_size_run : size o st = Some (inl (v_len V), st).
Proof using HV. unfold size. by rewrite (bind_ok _ _ _ _ _ this_string_run). Qed.

Lemma is_local_run : _M_is_local o st = Some (inl (bool_decide (v_block V = None)), st).
Proof using HV.
  unfold _M_is_local. rewrite (bind_ok _ _ _ _ _ data_run). unfold _M_local_data, v_buffer.
  destruct (v_block V) as [ [b n]|]; cbn; by repeat case_bool_decide.
Qed.

Lemma capacity_run : capacity o st = Some (inl (v_cap V), st).
Proof using HV.
  unfold capacity, v_cap. rewrite (bind_ok _ _ _ _ _ is_local_run).
  destruct (v_block V) as [ [b n]|] eqn:E; [|done]. cbn. unfold allocated_capacity.
  rewrite (bind_ok _ _ _ _ _ this_string_run). unfold v_object. by rewrite E.
Qed.

Lemma allocated_run b n : v_block V = Some (b, n) → allocated_capacity o st = Some (inl n, st).
Proof using HV.
  intros E. unfold allocated_capacity. rewrite (bind_ok _ _ _ _ _ this_string_run). unfold v_object. by rewrite E.
Qed.

Lemma length_run n : _M_length o n st = Some (inl tt, put st o (with_len V n)).
Proof using HV.
  unfold _M_length. rewrite (bind_ok _ _ _ _ _ this_string_run). unfold set_string, put. cbn.
  destruct (v_block V) as [ [b m]|] eqn:E; unfold v_object; cbn; rewrite ?E; [|done].
  by rewrite (insert_id (blocks st)) by (eapply (proj2 (proj2 HV)); done).
Qed.

(** ** Reading and writing the buffer *)

Lemma read_run off n :
  (off + n <= length (v_cells V))%nat →
  read_cells (v_buffer o V, Z.of_nat off) (Z.of_nat n) st = Some (inl (take n (drop off (v_cells V))), st).
Proof using HV.
  intros Hn. unfold read_cells. cbn [fst snd]. rewrite (cells_view _ _ _ HV). cbn. unfold in_buffer.
  destruct (Z.leb_spec 0 (Z.of_nat off)), (Z.leb_spec 0 (Z.of_nat n)),
    (Z.leb_spec (Z.of_nat off + Z.of_nat n) (Z.of_nat (length (v_cells V)))); try lia.
  cbn. by rewrite !Nat2Z.id.
Qed.

Lemma write_run off new :
  (off + length new <= length (v_cells V))%nat →
  write_cells (v_buffer o V, Z.of_nat off) new st =
  Some (inl tt, put st o (with_cells V (splice off new (v_cells V)))).
Proof using HV.
  intros Hn. unfold write_cells. cbn [fst snd]. rewrite (cells_view _ _ _ HV). cbn. unfold in_buffer.
  destruct (Z.leb_spec 0 (Z.of_nat off)), (Z.leb_spec 0 (Z.of_nat (length new))),
    (Z.leb_spec (Z.of_nat off + Z.of_nat (length new)) (Z.of_nat (length (v_cells V)))); try lia.
  cbn. rewrite Nat2Z.id. unfold v_buffer, put, set_cells.
  destruct (v_block V) as [ [b m]|] eqn:E; cbn; unfold v_object, v_buffer; cbn; rewrite ?E.
  - do 3 f_equal. symmetry. apply insert_id. rewrite (proj1 HV). unfold v_object, v_buffer. by rewrite E.
  - rewrite (proj1 HV). cbn. unfold v_buffer. by rewrite E.
Qed.

End primitives.

(** * Copying into the buffer *)

(** The characters at a pointer. *)
Definition reads (st : state) (p : ptr) (l : list Z) : Prop :=
  read_cells p (Z.of_nat (length l)) st = Some (inl (Some <$> l), st).

Definition good (V : view) : Prop := Z.of_nat (length (v_cells V)) = v_cap V + 1.

Lemma length_splice off new l :
  (off + length new <= length l)%nat → length (splice off new l) = length l.
Proof. intros H. unfold splice. rewrite !length_app, length_take, length_drop. lia. Qed.

Lemma good_cells V l : good V → length l = length (v_cells V) → good (with_cells V l).
Proof. intros HV Hl. unfold good, with_cells, v_cap in *. cbn. by rewrite Hl. Qed.

Lemma splice_nil off l : splice off [] l = l.
Proof. unfold splice. cbn. rewrite Nat.add_0_r. apply take_drop. Qed.

Lemma lookup_splice off new l i :
  (off + length new <= length l)%nat →
  splice off new l !! i =
  if decide (i < off)%nat then l !! i
  else if decide (i < off + length new)%nat then new !! (i - off)%nat else l !! i.
Proof.
  intros H. unfold splice. destruct (decide (i < off)%nat) as [Hi|Hi].
  - rewrite lookup_app_l by (rewrite length_take; lia). by rewrite lookup_take_lt.
  - rewrite lookup_app_r by (rewrite length_take; lia). rewrite length_take, Nat.min_l by lia.
    destruct (decide (i < off + length new)%nat) as [Hi'|Hi'].
    + by rewrite lookup_app_l by lia.
    + rewrite lookup_app_r, lookup_drop by lia. f_equal. lia.
Qed.

Section copying.
Context (st : state) (o : nat) (V : view).
Context (HV : good V).
#[local] Abbreviation here off := (v_buffer o V, Z.of_nat off).

Lemma has_here : has (put st o V) o V.
Proof using HV. by apply has_put. Qed.

Lemma put_write off new :
  (off + length new <= length (v_cells V))%nat →
  write_cells (here off) new (put st o V) =
  Some (inl tt, put st o (with_cells V (splice off new (v_cells V)))).
Proof using HV.
  intros Hn. rewrite (write_run _ _ _ has_here) by done. by rewrite put_put.
Qed.

Lemma read_char_run p c : reads (put st o V) p [c] → read_char p (put st o V) = Some (inl c, put st o V).
Proof. intros Hp. unfold read_char. by rewrite (bind_ok _ _ _ _ _ Hp). Qed.

Lemma put_memmove off p l :
  reads (put st o V) p l → (off + length l <= length (v_cells V))%nat →
  memmove (here off) p (Z.of_nat (length l)) (put st o V) =
  Some (inl tt, put st o (with_cells V (splice off (Some <$> l) (v_cells V)))).
Proof using HV.
  intros Hp Hl. unfold memmove. rewrite (bind_ok _ _ _ _ _ Hp). apply put_write. by rewrite length_fmap.
Qed.

Lemma put_one off p l :
  reads (put st o V) p l → (off + length l <= length (v_cells V))%nat → Z.of_nat (length l) = 1 →
  (c ← read_char p; traits_assign (here off) c) (put st o V) =
  Some (inl tt, put st o (with_cells V (splice off (Some <$> l) (v_cells V)))).
Proof using HV.
  intros Hp Hl E. destruct l as [|c [|c' l] ]; cbn in E; try lia.
  rewrite (bind_ok _ _ _ _ _ (read_char_run p c Hp)). by apply put_write.
Qed.

Lemma put_nothing off : put st o V = put st o (with_cells V (splice off [] (v_cells V))).
Proof. by rewrite splice_nil; destruct V. Qed.

Lemma put_move off p l :
  reads (put st o V) p l → (off + length l <= length (v_cells V))%nat →
  _S_move (here off) p (Z.of_nat (length l)) (put st o V) =
  Some (inl tt, put st o (with_cells V (splice off (Some <$> l) (v_cells V)))).
Proof using HV.
  intros Hp Hl. unfold _S_move, traits_move. destruct (Z.eqb_spec (Z.of_nat (length l)) 1); [by apply put_one|].
  destruct (Z.eqb_spec (Z.of_nat (length l)) 0); [|by apply put_memmove].
  destruct l; [|done]. cbn. by rewrite <-put_nothing.
Qed.

Lemma put_copy off p l :
  reads (put st o V) p l → (off + length l <= length (v_cells V))%nat →
  p.1 ≠ v_buffer o V ∨ Z.of_nat (off + length l) <= p.2 ∨ p.2 + Z.of_nat (length l) <= Z.of_nat off →
  _S_copy (here off) p (Z.of_nat (length l)) (put st o V) =
  Some (inl tt, put st o (with_cells V (splice off (Some <$> l) (v_cells V)))).
Proof using HV.
  intros Hp Hl Hov. unfold _S_copy, traits_copy. destruct (Z.eqb_spec (Z.of_nat (length l)) 1); [by apply put_one|].
  destruct (Z.eqb_spec (Z.of_nat (length l)) 0).
  { destruct l; [|done]. cbn. by rewrite <-put_nothing. }
  unfold memcpy, overlap. cbn [fst snd]. case_bool_decide as E; cbn.
  - destruct (Z.ltb_spec (Z.of_nat off) (p.2 + Z.of_nat (length l))),
      (Z.ltb_spec p.2 (Z.of_nat off + Z.of_nat (length l))); cbn; try by apply put_memmove.
    destruct Hov as [Hov|Hov]; [congruence|lia].
  - by apply put_memmove.
Qed.

Lemma put_assign off n c :
  (off + n <= length (v_cells V))%nat →
  _S_assign (here off) (Z.of_nat n) c (put st o V) =
  Some (inl tt, put st o (with_cells V (splice off (replicate n (Some c)) (v_cells V)))).
Proof using HV.
  intros Hl. unfold _S_assign, traits_assign_n, traits_assign.
  destruct (Z.eqb_spec (Z.of_nat n) 1).
  { replace n with 1%nat by lia. apply put_write. cbn. lia. }
  destruct (Z.eqb_spec (Z.of_nat n) 0).
  { replace n with 0%nat by lia. by rewrite <-put_nothing. }
  rewrite Nat2Z.id. apply put_write. by rewrite length_replicate.
Qed.

Lemma put_set_length n :
  (n < length (v_cells V))%nat →
  _M_set_length o (Z.of_nat n) (put st o V) =
  Some (inl tt, put st o (View (v_block V) (splice n [Some 0] (v_cells V)) (Z.of_nat n))).
Proof using HV.
  intros Hn. unfold _M_set_length. rewrite (bind_ok _ _ _ _ _ (length_run _ _ _ has_here _)), put_put by done.
  assert (has (put st o (with_len V (Z.of_nat n))) o (with_len V (Z.of_nat n))) as H1 by (by apply has_put).
  rewrite (bind_ok _ _ _ _ _ (data_run _ _ _ H1)). unfold offset, traits_assign. cbn [fst snd].
  rewrite Z.add_0_l, (write_run _ _ _ H1) by (cbn; lia). by rewrite put_put.
Qed.

(** Reading from the buffer itself, and from elsewhere. *)
Lemma reads_own off l :
  (off + length l <= length (v_cells V))%nat →
  take (length l) (drop off (v_cells V)) = Some <$> l → reads (put st o V) (here off) l.
Proof using HV. intros Hl E. unfold reads. rewrite (read_run _ _ _ has_here) by done. by rewrite E. Qed.

End copying.

Lemma reads_cells st st' p l :
  cells st' p.1 = cells st p.1 → reads st p l → reads st' p l.
Proof.
  unfold reads, read_cells. intros E. rewrite E. destruct (cells st p.1) as [cs|]; cbn; [|done].
  destruct (in_buffer _ _ _); [|done]. intros [= Hl]. by rewrite Hl.
Qed.
