(* ===== verification/StdStringInPlace.v ===== *)
(** * Replacing characters of a string inside its buffer

    The contents of a string are a list of characters; the first cells of its buffer hold
    them. Here the functions that work in the buffer are proved to do what they mean on
    lists, also [_M_replace] when the new characters are some of the string itself. *)
From stdpp Require Import base numbers list gmap.
From Stdlib Require Import ZArith Lia.
From S2P Require Import Prelude StdString StdStringView.

(** * Contents *)

Definition agrees (cs : list cell) (l : list Z) : Prop :=
  ∀ i, (i < length l)%nat → cs !! i = Some (l !! i).

(** The list with [n1] characters from [pos] on replaced. *)
Definition replaced (l : list Z) (pos n1 : nat) (new : list Z) : list Z :=
  take pos l ++ new ++ drop (pos + n1) l.

(** The [n] characters from [pos] on. *)
Definition sub (l : list Z) (pos n : nat) : list Z := take n (drop pos l).

Lemma length_sub l pos n : (pos + n <= length l)%nat → length (sub l pos n) = n.
Proof. intros H. unfold sub. rewrite length_take, length_drop. lia. Qed.

Lemma lookup_sub l pos n i : (i < n)%nat → sub l pos n !! i = l !! (pos + i)%nat.
Proof. intros Hi. unfold sub. by rewrite lookup_take_lt, lookup_drop. Qed.

Lemma length_replaced l pos n1 new :
  (pos + n1 <= length l)%nat → length (replaced l pos n1 new) = (length l - n1 + length new)%nat.
Proof. intros H. unfold replaced. rewrite !length_app, length_take, length_drop. lia. Qed.

Lemma lookup_replaced l pos n1 new i :
  (pos + n1 <= length l)%nat →
  replaced l pos n1 new !! i =
  if decide (i < pos)%nat then l !! i
  else if decide (i < pos + length new)%nat then new !! (i - pos)%nat
  else l !! (i - length new + n1)%nat.
Proof.
  intros H. unfold replaced. destruct (decide (i < pos)%nat).
  - rewrite lookup_app_l by (rewrite length_take; lia). by rewrite lookup_take_lt.
  - rewrite lookup_app_r by (rewrite length_take; lia). rewrite length_take, Nat.min_l by lia.
    destruct (decide (i < pos + length new)%nat).
    + by rewrite lookup_app_l by lia.
    + rewrite lookup_app_r, lookup_drop by lia. f_equal. lia.
Qed.

Lemma lookup_some (l : list Z) i : (i < length l)%nat → (Some <$> l : list cell) !! i = Some (l !! i).
Proof. intros Hi. rewrite list_lookup_fmap. destruct (lookup_lt_is_Some_2 l i Hi) as [c ->]. done. Qed.

(** Reading what is at known places of the buffer. *)
Lemma reads_at st o V off l :
  good V → (off + length l <= length (v_cells V))%nat →
  (∀ i, (i < length l)%nat → v_cells V !! (off + i)%nat = Some (l !! i)) →
  reads (put st o V) (v_buffer o V, Z.of_nat off) l.
Proof.
  intros HV Hl Hi. apply reads_own; [done..|]. apply list_eq. intros i.
  destruct (decide (i < length l)%nat) as [Hlt|Hge].
  - rewrite lookup_take_lt, lookup_drop, lookup_some by done. by apply Hi.
  - rewrite !lookup_ge_None_2; [done|rewrite length_fmap; lia|rewrite length_take; lia].
Qed.

(** Lengths without conditions, for arithmetic. *)
Lemma len_splice off (new l : list cell) :
  length (splice off new l) = (Nat.min off (length l) + length new + (length l - (off + length new)))%nat.
Proof. unfold splice. rewrite !length_app, length_take, length_drop. lia. Qed.

Lemma len_sub l pos n : length (sub l pos n) = Nat.min n (length l - pos)%nat.
Proof. unfold sub. by rewrite length_take, length_drop. Qed.

Lemma len_replaced l pos n1 new :
  length (replaced l pos n1 new) = (Nat.min pos (length l) + length new + (length l - (pos + n1)))%nat.
Proof. unfold replaced. rewrite !length_app, length_take, length_drop. lia. Qed.

(** Solve goals on lengths, and on single cells after splices. *)
Ltac cell_lengths :=
  rewrite ?len_splice, ?len_replaced, ?length_fmap, ?length_replicate, ?len_sub, ?length_drop, ?length_app in *.
Ltac cell_solve :=
  repeat first
    [ rewrite lookup_splice by (cell_lengths; cbn; lia)
    | rewrite lookup_replaced by lia
    | rewrite lookup_drop ];
  cell_lengths;
  repeat case_decide; try lia;
  rewrite ?lookup_some by (cell_lengths; lia);
  rewrite ?lookup_sub by lia; rewrite ?lookup_drop;
  try (match goal with H : agrees ?cs ?l |- ?cs !! _ = _ => rewrite H by lia end);
  repeat (f_equal; try lia).

(** * Strings that hold a list *)

Record shows (V : view) (l : list Z) : Prop := {
  sh_good : good V;
  sh_agrees : agrees (v_cells V) l;
  sh_len : v_len V = Z.of_nat (length l);
  sh_fits : Z.of_nat (length l) <= v_cap V;
  sh_cap : _S_local_capacity <= v_cap V <= max_size;
  sh_null : v_cells V !! length l = Some (Some 0)
}.

Lemma shows_length V l : shows V l → (length l < length (v_cells V))%nat.
Proof. intros HV. pose proof (sh_good _ _ HV). pose proof (sh_fits _ _ HV). unfold good in *. lia. Qed.

Lemma finish st o V l :
  good V → agrees (v_cells V) l → Z.of_nat (length l) <= v_cap V → _S_local_capacity <= v_cap V <= max_size →
  ∃ V', _M_set_length o (Z.of_nat (length l)) (put st o V) = Some (inl tt, put st o V') ∧
    shows V' l ∧ v_block V' = v_block V.
Proof.
  intros HV Hl Hfit Hcap. unfold good in HV. eexists. split; [apply put_set_length; [done|lia]|].
  split; [|done]. constructor; cbn; try done.
  - unfold good, v_cap in *. cbn. rewrite length_splice by (cbn; lia). done.
  - intros i Hi. rewrite lookup_splice by (cbn; lia). rewrite decide_True by done. by apply Hl.
  - rewrite lookup_splice by (cbn; lia). rewrite decide_False, decide_True by (cbn; lia).
    by rewrite Nat.sub_diag.
Qed.

Lemma moved_tail st o V l pos n1 n2 :
  good V → (∀ i, (pos + n1 <= i < length l)%nat → v_cells V !! i = Some (l !! i)) →
  (pos + n1 <= length l)%nat → (length l - n1 + n2 <= length (v_cells V))%nat →
  (length l <= length (v_cells V))%nat →
  ∃ cs, (if truth (Z.of_nat (length l - pos - n1)) && negb (Z.of_nat n1 =? Z.of_nat n2) then
      _S_move (offset (v_buffer o V, Z.of_nat pos) (Z.of_nat n2)) (offset (v_buffer o V, Z.of_nat pos) (Z.of_nat n1))
        (Z.of_nat (length l - pos - n1))
    else mret tt) (put st o V) = Some (inl tt, put st o (with_cells V cs)) ∧
    length cs = length (v_cells V) ∧
    (∀ i, (i < length l - pos - n1)%nat → cs !! (pos + n2 + i)%nat = Some (l !! (pos + n1 + i)%nat)) ∧
    (∀ i, (i < pos + n2)%nat → cs !! i = v_cells V !! i).
Proof.
  intros HV Hl Hpos Hcap Hlen. unfold truth.
  destruct (Z.eqb_spec (Z.of_nat (length l - pos - n1)) 0) as [E|E]; cbn.
  { exists (v_cells V). split_and!; [by destruct V|done| |done]. intros; lia. }
  destruct (Z.eqb_spec (Z.of_nat n1) (Z.of_nat n2)) as [E'|E']; cbn.
  { exists (v_cells V). split_and!; [by destruct V|done| |done].
    intros i Hi. rewrite Hl by lia. do 2 f_equal. lia. }
  unfold offset. cbn [fst snd]. rewrite <-!Nat2Z.inj_add.
  pose proof (put_move st o V HV (pos + n2) (v_buffer o V, Z.of_nat (pos + n1)) (drop (pos + n1) l)) as Hm.
  rewrite length_drop, <-Nat.sub_add_distr in *. rewrite Hm.
  - eexists. split; [done|]. split; [apply length_splice; cell_lengths; lia|].
    split; intros i Hi; cell_solve.
  - apply reads_at; [done|cell_lengths; lia|]. intros i Hi. cell_lengths. rewrite Hl by lia. by rewrite lookup_drop.
  - lia.
Qed.

Section in_place.
Context (st : state) (o : nat) (V : view) (l : list Z).
Context (HV : good V) (Hl : agrees (v_cells V) l).
#[local] Abbreviation here off := (v_buffer o V, Z.of_nat off).

(** The new characters, in the place that is ready for them. *)
Lemma put_new (cs : list cell) pos n1 new :
  (pos + n1 <= length l)%nat → (length l - n1 + length new <= length (v_cells V))%nat →
  length cs = length (v_cells V) →
  (∀ i, (i < length l - pos - n1)%nat → cs !! (pos + length new + i)%nat = Some (l !! (pos + n1 + i)%nat)) →
  (∀ i, (i < pos)%nat → cs !! i = v_cells V !! i) →
  agrees (splice pos (Some <$> new) cs) (replaced l pos n1 new).
Proof using Hl.
  intros Hpos Hcap Hlen Htail Hpre i Hi. rewrite length_replaced in Hi by lia.
  rewrite lookup_splice by (cell_lengths; lia). rewrite lookup_replaced by lia. cell_lengths.
  destruct (decide (i < pos)%nat); [rewrite Hpre, Hl by lia; done|].
  destruct (decide (i < pos + length new)%nat); [by rewrite lookup_some by lia|].
  replace i with (pos + length new + (i - pos - length new))%nat at 1 by lia.
  rewrite Htail by lia. do 2 f_equal. lia.
Qed.

(** ** Characters of the string itself *)

Lemma in_place_shorter pos n1 off n2 :
  (pos + n1 <= length l)%nat → (off + n2 <= length l)%nat → (n2 <= n1)%nat →
  (length l < length (v_cells V))%nat →
  ∃ cs, _M_replace_in_place (here pos) (here off) (Z.of_nat n1) (Z.of_nat n2)
      (Z.of_nat (length l - pos - n1)) (put st o V) = Some (inl tt, put st o (with_cells V cs)) ∧
    length cs = length (v_cells V) ∧ agrees cs (replaced l pos n1 (sub l off n2)).
Proof using HV Hl.
  intros Hpos Hoff Hn Hlen. unfold _M_replace_in_place.
  set (cs1 := splice pos (Some <$> sub l off n2) (v_cells V)).
  assert (length cs1 = length (v_cells V)) as Hcs1 by (apply length_splice; cell_lengths; lia).
  rewrite (bind_ok _ _ _ tt (put st o (with_cells V cs1))).
  2: { unfold truth. destruct (Z.eqb_spec (Z.of_nat n2) 0); cbn.
       - subst cs1. replace n2 with 0%nat by lia. unfold sub. cbn. rewrite splice_nil. by destruct V.
       - rewrite (proj2 (Z.leb_le _ _)) by lia.
         pose proof (put_move st o V HV pos (here off) (sub l off n2)) as Hm. rewrite length_sub in Hm by done.
         apply Hm; [|lia]. apply reads_at; [done|cell_lengths; lia|]. intros i Hi. cell_solve. }
  destruct (moved_tail st o (with_cells V cs1) l pos n1 n2) as (cs & Hrun & Hlcs & Htail & Hpre);
    [by apply good_cells| |lia|cbn; lia|cbn; lia|].
  { intros i Hi. cbn. subst cs1. cell_solve. }
  rewrite (bind_ok _ _ _ _ _ Hrun). rewrite (proj2 (Z.ltb_ge _ _)) by lia.
  exists cs. split_and!; [done|cbn in Hlcs; lia|].
  intros i Hi. rewrite length_replaced, length_sub in Hi by lia. rewrite lookup_replaced, length_sub by lia.
  destruct (decide (i < pos)%nat); [rewrite Hpre by lia; cbn; subst cs1; cell_solve|].
  destruct (decide (i < pos + n2)%nat); [rewrite Hpre by lia; cbn; subst cs1; cell_solve|].
  replace i with (pos + n2 + (i - pos - n2))%nat at 1 by lia. rewrite Htail by lia. do 2 f_equal. lia.
Qed.

Lemma splice_splice pos (a b cs : list cell) :
  (pos + length a + length b <= length cs)%nat →
  splice (pos + length a) b (splice pos a cs) = splice pos (a ++ b) cs.
Proof.
  intros Hlen. apply list_eq. intros i. rewrite !lookup_splice;
    rewrite ?length_splice, ?length_app by lia; try lia.
  repeat case_decide; try lia; try done.
  - by rewrite lookup_app_l by lia.
  - rewrite lookup_app_r by lia. f_equal. lia.
Qed.

Lemma sub_app off m n : sub l off (m + n) = sub l off m ++ sub l (off + m) n.
Proof. unfold sub. rewrite <-drop_drop. symmetry. apply take_take_drop. Qed.

Lemma in_place_longer pos n1 off n2 :
  (pos + n1 <= length l)%nat → (off + n2 <= length l)%nat → (n1 < n2)%nat →
  (length l - n1 + n2 < length (v_cells V))%nat → Z.of_nat n2 < 4294967296 →
  ∃ cs, _M_replace_in_place (here pos) (here off) (Z.of_nat n1) (Z.of_nat n2)
      (Z.of_nat (length l - pos - n1)) (put st o V) = Some (inl tt, put st o (with_cells V cs)) ∧
    length cs = length (v_cells V) ∧ agrees cs (replaced l pos n1 (sub l off n2)).
Proof using HV Hl.
  intros Hpos Hoff Hn Hlen Hu. unfold _M_replace_in_place.
  rewrite (proj2 (Z.leb_gt (Z.of_nat n2) (Z.of_nat n1))), andb_false_r, bind_ret by lia.
  destruct (moved_tail st o V l pos n1 n2) as (cs & Hrun & Hlcs & Htail & Hpre);
    [done|intros i Hi; apply Hl; lia|lia..|].
  rewrite (bind_ok _ _ _ _ _ Hrun). rewrite (proj2 (Z.ltb_lt _ _)) by lia. cbn [fst snd].
  exists (splice pos (Some <$> sub l off n2) cs).
  pose proof (good_cells V cs HV Hlcs) as Hg. pose proof (length_sub l off n2 Hoff) as Hls.
  split_and!; [|rewrite length_splice; cell_lengths; lia|].
  2: { apply put_new; rewrite ?Hls; try lia; [done|]. intros i Hi. apply Hpre. lia. }
  destruct (Z.leb_spec (Z.of_nat off + Z.of_nat n2) (Z.of_nat pos + Z.of_nat n1)).
  { pose proof (put_move st o (with_cells V cs) Hg pos (here off) (sub l off n2)) as Hm. rewrite Hls in Hm.
    apply Hm; [|cbn; lia]. apply (reads_at st o (with_cells V cs)); [done|cbn; lia|].
    intros i Hi. cbn. rewrite Hpre, Hl by lia. by rewrite lookup_sub by lia. }
  destruct (Z.leb_spec (Z.of_nat pos + Z.of_nat n1) (Z.of_nat off)).
  { pose proof (put_copy st o (with_cells V cs) Hg pos (here (off + n2 - n1)) (sub l off n2)) as Hm. rewrite Hls in Hm.
    unfold offset. cbn [fst snd]. replace (Z.of_nat off + Z.of_nat n2 + - Z.of_nat n1) with (Z.of_nat (off + n2 - n1)) by lia.
    apply Hm; [|cbn; lia|right; left; cbn; lia]. apply (reads_at st o (with_cells V cs)); [done|cbn; lia|].
    intros i Hi. cbn. replace (off + n2 - n1 + i)%nat with (pos + n2 + (off + i - pos - n1))%nat by lia.
    rewrite Htail by lia. rewrite lookup_sub by lia. do 2 f_equal. lia. }
  set (nleft := (pos + n1 - off)%nat).
  assert (Z.of_nat pos + Z.of_nat n1 - Z.of_nat off = Z.of_nat nleft) as -> by lia.
  replace (u32 (Z.of_nat n2 - Z.of_nat nleft)) with (Z.of_nat (n2 - nleft))
    by (rewrite u32_id; unfold is_u32; lia).
  pose proof (length_sub l off nleft ltac:(lia)) as Hl1. pose proof (length_sub l (pos + n1) (n2 - nleft) ltac:(lia)) as Hl2.
  pose proof (put_move st o (with_cells V cs) Hg pos (here off) (sub l off nleft)) as Hm. rewrite Hl1 in Hm.
  rewrite (bind_ok _ _ _ _ _ (Hm ltac:(apply (reads_at st o (with_cells V cs)); [done|cbn; lia|];
    intros i Hi; cbn; rewrite Hpre, Hl by lia; by rewrite lookup_sub by lia) ltac:(cbn; lia))). clear Hm.
  set (cs1 := splice pos (Some <$> sub l off nleft) cs).
  assert (length cs1 = length (v_cells V)) as Hlcs1 by (unfold cs1; rewrite length_splice; cell_lengths; lia).
  pose proof (put_copy st o (with_cells V cs1) (good_cells V cs1 HV Hlcs1) (pos + nleft) (here (pos + n2))
    (sub l (pos + n1) (n2 - nleft))) as Hm. rewrite Hl2 in Hm.
  unfold offset. cbn [fst snd]. rewrite <-!Nat2Z.inj_add. etransitivity; [apply Hm|].
  - apply (reads_at st o (with_cells V cs1)); [by apply good_cells|cbn; lia|]. intros i Hi. cbn. unfold cs1.
    rewrite lookup_splice by (cell_lengths; lia). cell_lengths. rewrite !decide_False by lia.
    rewrite Htail by lia. by rewrite lookup_sub by lia.
  - cbn. lia.
  - right. left. cbn. lia.
  - cbn [with_cells v_cells]. unfold cs1.
    pose proof (splice_splice pos (Some <$> sub l off nleft) (Some <$> sub l (pos + n1) (n2 - nleft)) cs) as E.
    rewrite !length_fmap, Hl1 in E. rewrite E by lia. rewrite <-fmap_app.
    replace n2 with (nleft + (n2 - nleft))%nat at 2 by lia. rewrite sub_app.
    by replace (off + nleft)%nat with (pos + n1)%nat by lia.
Qed.

End in_place.

(** * An example *)

(** A local string of two characters. *)
Definition hi : view := View None (Some 104 :: Some 105 :: Some 0 :: replicate 13 None) 2.
Definition hi_state : state := State {[ 0%nat := v_object 0 hi ]} ∅.

Lemma hi_has : has hi_state 0 hi.
Proof. split_and!; [reflexivity|reflexivity|]. by intros b n. Qed.

Lemma hi_shows : shows hi [104; 105].
Proof. constructor; try done. by intros [|[|i] ] Hi; cbn in Hi; try lia. Qed.
