(* ===== verification/StdStringOps.v ===== *)
(** * What the operations of a string do

    Each operation on a string object that holds a list makes it hold another list, or throws
    and leaves everything as it was. The new buffer, where there is one, is a block that was
    free before, and the old one is given back. *)
From stdpp Require Import base numbers list gmap.
From Stdlib Require Import ZArith Lia.
From S2P Require Import Prelude StdString StdStringView StdStringInPlace.

(** * Blocks *)

Definition with_block (st : state) (b : nat) (cs : list cell) : state :=
  State (strings st) (<[b := cs]> (blocks st)).

(** The state without the block of the view. *)
Definition release (st : state) (V : view) : state :=
  State (strings st) match v_block V with Some (b, _) => delete b (blocks st) | None => blocks st end.

Lemma with_block_twice st b cs cs' : with_block (with_block st b cs) b cs' = with_block st b cs'.
Proof. unfold with_block. cbn. by rewrite insert_insert_eq. Qed.

Lemma has_with_block st o V b cs : has st o V → blocks st !! b = None → has (with_block st b cs) o V.
Proof.
  intros (Hs & Hl & Hb) Hfree. split_and!; [done|done|]. intros b' n E. cbn.
  rewrite lookup_insert_ne; [by eapply Hb|]. intros <-. specialize (Hb _ _ E). congruence.
Qed.

Lemma reads_with_block st p l b cs :
  reads st p l → p.1 ≠ Block b → reads (with_block st b cs) p l.
Proof.
  intros Hp Hne. apply (reads_cells st); [|done]. destruct p as [ [o'|b'] off]; cbn in *; [done|].
  by rewrite lookup_insert_ne by congruence.
Qed.

Lemma write_block st b cs off new :
  (off + length new <= length cs)%nat →
  write_cells (Block b, Z.of_nat off) new (with_block st b cs) =
  Some (inl tt, with_block st b (splice off new cs)).
Proof.
  intros Hn. unfold write_cells. cbn [fst snd cells with_block blocks]. rewrite lookup_insert_eq. cbn. unfold in_buffer.
  destruct (Z.leb_spec 0 (Z.of_nat off)), (Z.leb_spec 0 (Z.of_nat (length new))),
    (Z.leb_spec (Z.of_nat off + Z.of_nat (length new)) (Z.of_nat (length cs))); try lia.
  cbn. rewrite Nat2Z.id. unfold with_block. cbn. by rewrite insert_insert_eq.
Qed.

Lemma copy_block st b cs off p l :
  reads (with_block st b cs) p l → p.1 ≠ Block b → (off + length l <= length cs)%nat →
  _S_copy (Block b, Z.of_nat off) p (Z.of_nat (length l)) (with_block st b cs) =
  Some (inl tt, with_block st b (splice off (Some <$> l) cs)).
Proof.
  intros Hp Hne Hl. unfold _S_copy, traits_copy, memcpy, overlap.
  destruct (Z.eqb_spec (Z.of_nat (length l)) 1).
  { destruct l as [|c [|c' l] ]; cbn in *; try lia. unfold read_char.
    rewrite (bind_ok (read_cells p 1 ≫= _) _ _ c (with_block st b cs)) by (by rewrite (bind_ok _ _ _ _ _ Hp)).
    by apply write_block. }
  destruct (Z.eqb_spec (Z.of_nat (length l)) 0).
  { destruct l; [|done]. cbn. by rewrite splice_nil. }
  cbn [fst snd]. rewrite bool_decide_eq_false_2 by congruence. cbn. unfold memmove.
  rewrite (bind_ok _ _ _ _ _ Hp). apply write_block. by rewrite length_fmap.
Qed.

(** [if (n) _S_copy(...)] *)
Lemma copy_block_if st b cs off p l :
  reads (with_block st b cs) p l → p.1 ≠ Block b → (off + length l <= length cs)%nat →
  (if truth (Z.of_nat (length l)) then
     _S_copy (Block b, Z.of_nat off) p (Z.of_nat (length l))
   else mret tt) (with_block st b cs) =
  Some (inl tt, with_block st b (splice off (Some <$> l) cs)).
Proof.
  intros Hp Hne Hl. unfold truth. destruct (Z.eqb_spec (Z.of_nat (length l)) 0) as [E|E]; cbn.
  - destruct l; [|done]. by rewrite splice_nil.
  - by apply copy_block.
Qed.

(** * Growing *)

Definition grown (cap old : Z) : Z :=
  if (old <? cap) && (cap <? 2 * old) then Z.min (2 * old) max_size else cap.

Lemma max_size_eq : max_size = 2147483647.
Proof. reflexivity. Qed.

Lemma grown_bounds cap old : cap <= max_size → cap <= grown cap old <= max_size.
Proof.
  intros H. unfold grown. destruct (Z.ltb_spec old cap), (Z.ltb_spec cap (2 * old)); cbn; lia.
Qed.

(** The sizes that the functions compute, without wrap-around. *)
Lemma u32_tail len pos n1 :
  (pos + n1 <= len)%nat → Z.of_nat len <= max_size →
  u32 (u32 (Z.of_nat len - Z.of_nat pos) - Z.of_nat n1) = Z.of_nat (len - pos - n1).
Proof.
  rewrite max_size_eq. intros Hpos Hlen. rewrite (u32_id (Z.of_nat len - _)), u32_id; unfold is_u32; lia.
Qed.

Lemma u32_new len n1 n2 :
  (n1 <= len)%nat → Z.of_nat len <= max_size → Z.of_nat n2 <= max_size →
  u32 (u32 (Z.of_nat len + Z.of_nat n2) - Z.of_nat n1) = Z.of_nat (len - n1 + n2).
Proof.
  rewrite max_size_eq. intros Hpos Hlen Hn. rewrite (u32_id (Z.of_nat len + _)), u32_id; unfold is_u32; lia.
Qed.

Section operations.
Context `{Allocator}.

Definition fresh_block (st : state) : nat := fresh (dom (blocks st)).

Lemma fresh_block_free st : blocks st !! fresh_block st = None.
Proof. apply (not_elem_of_dom (D := gset nat)). exact (is_fresh (C := gset nat) (dom (blocks st))). Qed.

Lemma create_run st cap old :
  0 <= cap → 0 <= old <= max_size →
  _M_create cap old st =
  if max_size <? cap then Some (inr length_error, st)
  else if refuses (blocks st) (grown cap old + 1) then Some (inr bad_alloc, st)
  else Some (inl ((Block (fresh_block st), 0), grown cap old),
         with_block st (fresh_block st) (replicate (Z.to_nat (grown cap old + 1)) None)).
Proof.
  intros Hcap Hold. pose proof max_size_eq as Hmax. unfold _M_create.
  destruct (Z.ltb_spec max_size cap); [done|]. cbv zeta.
  assert ((if (old <? cap) && (cap <? u32 (2 * old))
     then if max_size <? u32 (2 * old) then max_size else u32 (2 * old) else cap) = grown cap old) as ->.
  { unfold grown. rewrite u32_id by (unfold is_u32; lia).
    destruct ((old <? cap) && _); [|done]. destruct (Z.ltb_spec max_size (2 * old)); lia. }
  pose proof (grown_bounds cap old). rewrite (u32_id (grown cap old + 1)) by (unfold is_u32; lia).
  unfold allocate, mbind, Exc_bind. rewrite (proj2 (Z.ltb_ge _ _)) by (unfold npos; lia). cbn [orb].
  by destruct (refuses _ _).
Qed.

(** ** Giving the buffer back *)

Lemma dispose_run st o V :
  has st o V → 0 <= v_cap V <= max_size → _M_dispose o st = Some (inl tt, release st V).
Proof.
  intros HV Hcap. pose proof max_size_eq. unfold _M_dispose. rewrite (bind_ok _ _ _ _ _ (is_local_run _ _ _ HV)).
  unfold release. destruct (v_block V) as [ [b n]|] eqn:E; cbn; [|by destruct st].
  rewrite (bind_ok _ _ _ _ _ (allocated_run _ _ _ HV b n E)). unfold _M_destroy.
  rewrite (bind_ok _ _ _ _ _ (data_run _ _ _ HV)). unfold v_buffer. rewrite E. cbn.
  destruct HV as (_ & Hl & Hb). unfold v_cap in *. rewrite E in *. rewrite (Hb _ _ eq_refl). cbn.
  rewrite u32_id by (unfold is_u32; lia). by rewrite Hl, Z.eqb_refl.
Qed.

(** The end of every change of the buffer. *)
Lemma adopt_run st o V b n cs :
  has st o V → 0 <= v_cap V <= max_size → blocks st !! b = None →
  (_M_dispose o;; _M_set_data o (Block b, 0);; _M_capacity o n) (with_block st b cs) =
  Some (inl tt, put (release st V) o (View (Some (b, n)) cs (v_len V))).
Proof.
  intros HV Hcap Hb. pose proof (has_with_block st o V b cs HV Hb) as HV'.
  rewrite (bind_ok _ _ _ _ _ (dispose_run _ o V HV' Hcap)).
  unfold _M_set_data, _M_capacity, set_string, this_string, mbind, Exc_bind. cbn.
  rewrite (proj1 HV). cbn. rewrite lookup_insert_eq. cbn. unfold put, release, v_object, v_buffer. cbn.
  rewrite insert_insert_eq. do 3 f_equal.
  destruct (v_block V) as [ [b' m]|] eqn:E; [|done]. cbn.
  apply delete_insert_ne. intros ->. pose proof (proj2 (proj2 HV) _ _ E). congruence.
Qed.

(** ** A new buffer *)

Lemma has_reads st o V l off n :
  has st o V → agrees (v_cells V) l → (off + n <= length l)%nat → (length l <= length (v_cells V))%nat →
  reads st (v_buffer o V, Z.of_nat off) (sub l off n).
Proof.
  intros HV Hl Hn Hlen. rewrite <-(put_same st o V HV). apply reads_at; [apply HV|cell_lengths; lia|].
  intros i Hi. cell_lengths. rewrite Hl by lia. by rewrite lookup_sub by lia.
Qed.

Lemma buffer_not_free st o V b : has st o V → blocks st !! b = None → v_buffer o V ≠ Block b.
Proof.
  intros HV Hb E. unfold v_buffer in E. destruct (v_block V) as [ [b' n]|] eqn:E'; [|done].
  pose proof (proj2 (proj2 HV) _ _ E'). congruence.
Qed.

Lemma reads_not_free st p l b : reads st p l → blocks st !! b = None → p.1 ≠ Block b.
Proof. intros Hp Hb E. unfold reads, read_cells in Hp. rewrite E in Hp. cbn in Hp. by rewrite Hb in Hp. Qed.

(** The characters before and after the new ones, and the new ones if they are there. *)
Definition filled (s : option ptr) (cs : list cell) (l : list Z) (pos n1 : nat) (new : list Z) : Prop :=
  agrees match s with Some _ => cs | None => splice pos (Some <$> new) cs end (replaced l pos n1 new).

Lemma filled_intro (s : option ptr) cs0 l pos n1 new :
  (pos + n1 <= length l)%nat → (length l - n1 + length new < length cs0)%nat →
  let cs1 := splice 0 (Some <$> sub l 0 pos) cs0 in
  let cs2 := match s with Some _ => splice pos (Some <$> new) cs1 | None => cs1 end in
  filled s (splice (pos + length new) (Some <$> sub l (pos + n1) (length l - pos - n1)) cs2) l pos n1 new.
Proof.
  intros Hpos Hlen cs1 cs2 i Hi. rewrite length_replaced in Hi by done.
  assert (length cs1 = length cs0) as Hl1 by (apply length_splice; cell_lengths; lia).
  assert (length cs2 = length cs0) as Hl2.
  { unfold cs2. destruct s; [|done]. rewrite length_splice; cell_lengths; lia. }
  pose proof (length_sub l (pos + n1) (length l - pos - n1) ltac:(lia)) as Hl3.
  rewrite lookup_replaced by done. unfold filled, cs2, cs1. destruct s; cell_solve.
Qed.

Lemma mutate_run st o V l pos n1 (s : option ptr) new :
  has st o V → shows V l → (pos + n1 <= length l)%nat → Z.of_nat (length new) <= max_size →
  match s with Some p => reads st p new | None => True end →
  let len := Z.of_nat (length l - n1 + length new) in
  let g := grown len (v_cap V) in
  _M_mutate o (Z.of_nat pos) (Z.of_nat n1) s (Z.of_nat (length new)) st =
    Some (inr (if max_size <? len then length_error else bad_alloc), st) ∨
  (len <= max_size ∧ ∃ cs,
    _M_mutate o (Z.of_nat pos) (Z.of_nat n1) s (Z.of_nat (length new)) st =
      Some (inl tt, put (release st V) o (View (Some (fresh_block st, g)) cs (v_len V))) ∧
    Z.of_nat (length cs) = g + 1 ∧ filled s cs l pos n1 new).
Proof.
  intros HV Hsh Hpos Hnew Hs len g. pose proof max_size_eq as Hmax. destruct Hsh as [Hg Hag Hlen Hfit Hcap Hnull].
  assert (len = Z.of_nat (length l - n1 + length new)) as Elen by done.
  unfold good in Hg. set (b := fresh_block st). pose proof (fresh_block_free st) as Hb. fold b in Hb.
  unfold _M_mutate. rewrite (bind_ok _ _ _ _ _ (string_size_run _ _ _ HV)), (bind_ok _ _ _ _ _ (capacity_run _ _ _ HV)), Hlen.
  rewrite u32_tail, u32_new by lia. fold len.
  pose proof (create_run st len (v_cap V) ltac:(lia) ltac:(unfold _S_local_capacity in Hcap; lia)) as Hcr.
  destruct (Z.ltb_spec max_size len) as [Hlt|Hle]; [left; by rewrite (bind_throws _ _ _ _ _ Hcr)|].
  fold b g in Hcr. destruct (refuses _ _); [left; by rewrite (bind_throws _ _ _ _ _ Hcr)|].
  right. split; [done|]. pose proof (grown_bounds len (v_cap V) Hle) as Hgr. fold g in Hgr.
  rewrite (bind_ok _ _ _ _ _ Hcr). set (cs0 := replicate (Z.to_nat (g + 1)) None).
  assert (Z.of_nat (length cs0) = g + 1) as Hl0 by (unfold cs0; rewrite length_replicate; lia).
  pose proof (λ cs, has_with_block st o V b cs HV Hb) as HVb.
  pose proof (buffer_not_free st o V b HV Hb) as Hne.
  assert (∀ cs off n, (off + n <= length l)%nat →
    reads (with_block st b cs) (v_buffer o V, Z.of_nat off) (sub l off n)) as Hread.
  { intros cs off n Hn. apply reads_with_block; [|done]. apply has_reads; (done || lia). }
  rewrite (bind_ok _ _ _ _ _ (data_run _ _ _ (HVb cs0))).
  pose proof (copy_block_if st b cs0 0 (v_buffer o V, 0) (sub l 0 pos) (Hread _ 0%nat pos ltac:(lia)) Hne) as H1.
  rewrite length_sub in H1 by lia. rewrite (bind_ok _ _ _ _ _ (H1 ltac:(lia))). clear H1.
  set (cs1 := splice 0 (Some <$> sub l 0 pos) cs0).
  assert (length cs1 = length cs0) as Hl1 by (unfold cs1; cell_lengths; lia).
  set (cs2 := match s with Some _ => splice pos (Some <$> new) cs1 | None => cs1 end).
  assert (length cs2 = length cs0) as Hl2 by (unfold cs2; destruct s; cell_lengths; lia).
  rewrite (bind_ok _ _ _ tt (with_block st b cs2)).
  2: { unfold cs2. destruct s as [p|]; [|done]. apply copy_block_if; [| |lia].
       - apply reads_with_block; [done|]. eapply reads_not_free; done.
       - eapply reads_not_free; done. }
  pose proof (copy_block_if st b cs2 (pos + length new) (v_buffer o V, Z.of_nat (pos + n1))
    (sub l (pos + n1) (length l - pos - n1)) (Hread cs2 (pos + n1)%nat (length l - pos - n1)%nat ltac:(lia)) Hne) as H3.
  rewrite length_sub in H3 by lia. specialize (H3 ltac:(lia)).
  rewrite (bind_ok _ _ _ tt (with_block st b (splice (pos + length new)
    (Some <$> sub l (pos + n1) (length l - pos - n1)) cs2))).
  2: { unfold truth in *. destruct (Z.eqb_spec (Z.of_nat (length l - pos - n1)) 0); [done|].
       cbn [negb] in H3 |- *. rewrite (bind_ok _ _ _ _ _ (data_run _ _ _ (HVb cs2))).
       unfold offset. cbn [fst snd]. rewrite Z.add_0_l, <-!Nat2Z.inj_add. exact H3. }
  rewrite <-Hlen. eexists. split; [apply adopt_run; [done|unfold _S_local_capacity in Hcap; lia|done]|].
  split; [cell_lengths; lia|].
  apply filled_intro; lia.
Qed.

(** ** Outcomes *)

(** The buffer of the new view is free once the old one is given back. *)
Definition updates (st : state) (o : nat) (V V' : view) (st' : state) : Prop :=
  st' = put (release st V) o V' ∧ ∀ b n, v_block V' = Some (b, n) → blocks (release st V) !! b = None.

Definition yields (st : state) (o : nat) (V : view) (l : list Z) (r : option ((unit + exception) * state)) : Prop :=
  ∃ V' st', r = Some (inl tt, st') ∧ updates st o V V' st' ∧ shows V' l.

(** An operation that may need a new buffer. *)
Definition outcome (st : state) (o : nat) (V : view) (l : list Z) (r : option ((unit + exception) * state)) : Prop :=
  (Z.of_nat (length l) <= max_size ∧ yields st o V l r) ∨
  r = Some (inr (if max_size <? Z.of_nat (length l) then length_error else bad_alloc), st).

Lemma updates_in_place st o V V' : v_block V' = v_block V → updates st o V V' (put st o V').
Proof.
  intros E. unfold updates, put, release. cbn. rewrite E. destruct (v_block V) as [ [b n]|]; split; try done.
  - by rewrite insert_delete_eq.
  - intros b' n' [= <- <-]. apply lookup_delete_eq.
Qed.

Lemma updates_fresh st o V V' b n :
  has st o V → v_block V' = Some (b, n) → blocks st !! b = None →
  updates st o V V' (put (release st V) o V').
Proof.
  intros HV E Hb. split; [done|]. intros b' n'. rewrite E. intros [= <- <-]. cbn.
  destruct (v_block V) as [ [b0 n0]|]; [|done].
  destruct (decide (b = b0)) as [->|Hne]; [apply lookup_delete_eq|by rewrite lookup_delete_ne].
Qed.

Lemma put_cells_apart st o V V' p :
  has st o V → v_block V' = v_block V → p ≠ v_buffer o V → cells (put st o V') p = cells st p.
Proof.
  intros HV E Hp. unfold v_buffer in Hp. destruct p as [o'|b]; cbn.
  - destruct (decide (o' = o)) as [->|Hne]; [|by rewrite lookup_insert_ne].
    rewrite lookup_insert_eq, (proj1 HV). cbn. unfold local_cells, v_object. rewrite E.
    by destruct (v_block V) as [ [b n]|].
  - rewrite E. destruct (v_block V) as [ [b' n]|]; [|done]. by rewrite lookup_insert_ne by congruence.
Qed.

(** Where new characters may come from: another buffer, or the contents themselves. *)
Definition source (st : state) (o : nat) (V : view) (l : list Z) (p : ptr) (new : list Z) : Prop :=
  (p.1 ≠ v_buffer o V ∧ reads st p new) ∨
  (∃ off, p = (v_buffer o V, Z.of_nat off) ∧ (off + length new <= length l)%nat ∧ new = sub l off (length new)).

Lemma source_reads st o V l p new : has st o V → shows V l → source st o V l p new → reads st p new.
Proof.
  intros HV Hsh [ [_ ?]|(off & -> & Hoff & E)]; [done|].
  pose proof (shows_length _ _ Hsh). rewrite E. apply has_reads; [done|apply Hsh|done|lia].
Qed.

(** The end of an operation that got a new buffer. *)
Lemma finish_fresh st o V b n cs l :
  has st o V → blocks st !! b = None → Z.of_nat (length cs) = n + 1 → agrees cs l →
  Z.of_nat (length l) <= n → _S_local_capacity <= n <= max_size →
  yields st o V l (_M_set_length o (Z.of_nat (length l)) (put (release st V) o (View (Some (b, n)) cs (v_len V)))).
Proof.
  intros HV Hb Hcs Hag Hfit Hcap.
  destruct (finish (release st V) o (View (Some (b, n)) cs (v_len V)) l) as (V' & Hrun & Hsh & Hblk);
    [done..|]. exists V', (put (release st V) o V'). split_and!; [done| |done].
  by apply updates_fresh with b n.
Qed.

Lemma finish_in_place st o V cs l l' :
  shows V l → length cs = length (v_cells V) → agrees cs l' → Z.of_nat (length l') <= v_cap V →
  yields st o V l' (_M_set_length o (Z.of_nat (length l')) (put st o (with_cells V cs))).
Proof.
  intros Hsh Hcs Hag Hfit.
  destruct (finish st o (with_cells V cs) l') as (V' & Hrun & Hsh' & Hblk); [|done|done|apply Hsh|].
  { apply good_cells; [apply Hsh|done]. }
  exists V', (put st o V'). split_and!; [done| |done]. by apply updates_in_place.
Qed.

Lemma grown_local len old : _S_local_capacity <= old → old < len → _S_local_capacity <= grown len old ∨ max_size < len.
Proof. intros H1 H2. pose proof max_size_eq. pose proof (grown_bounds len old). lia. Qed.

(** ** Erasing and shortening *)

Section at_object.
Context (st : state) (o : nat) (V : view) (l : list Z).
Context (HV : has st o V) (Hsh : shows V l).

Lemma sizes : Z.of_nat (length l) <= v_cap V ∧ 15 <= v_cap V <= 2147483647 ∧
  Z.of_nat (length (v_cells V)) = v_cap V + 1.
Proof using Hsh.
  destruct Hsh as [Hg _ _ Hfit Hcap _]. rewrite max_size_eq in Hcap. unfold _S_local_capacity in Hcap. done.
Qed.

Lemma set_length_run n :
  (n <= length l)%nat → yields st o V (take n l) (_M_set_length o (Z.of_nat n) st).
Proof using HV Hsh.
  intros Hn. pose proof sizes. pose proof (finish_in_place st o V (v_cells V) l (take n l) Hsh eq_refl) as Hf.
  rewrite length_take, Nat.min_l in Hf by done.
  assert (with_cells V (v_cells V) = V) as E by (by destruct V). rewrite E, (put_same st o V HV) in Hf.
  apply Hf; [|lia]. intros i Hi. rewrite length_take in Hi. rewrite lookup_take_lt by lia. apply Hsh. lia.
Qed.

Lemma erase_run pos n :
  (pos + n <= length l)%nat → yields st o V (replaced l pos n []) (_M_erase o (Z.of_nat pos) (Z.of_nat n) st).
Proof using HV Hsh.
  intros Hn. pose proof sizes. unfold _M_erase. rewrite (bind_ok _ _ _ _ _ (string_size_run _ _ _ HV)), (sh_len _ _ Hsh).
  rewrite u32_tail by (rewrite ?max_size_eq; lia).
  replace (u32 (Z.of_nat (length l) - Z.of_nat n)) with (Z.of_nat (length (replaced l pos n [])))
    by (rewrite u32_id; cell_lengths; cbn; unfold is_u32; lia).
  destruct (moved_tail st o V l pos n 0) as (cs & Hrun & Hlcs & Htail & Hpre);
    [apply Hsh|intros i Hi; apply Hsh; lia|lia..|].
  rewrite (bind_ok _ _ _ tt (put st o (with_cells V cs))).
  - apply (finish_in_place st o V cs l); [done|done| |cell_lengths; cbn; lia].
    intros i Hi. cell_lengths. cbn in Hi. rewrite lookup_replaced by lia. cbn [length]. rewrite Nat.add_0_r.
    destruct (decide (i < pos)%nat); [rewrite Hpre by lia; apply Hsh; lia|].
    replace i with (pos + 0 + (i - pos))%nat at 1 by lia. rewrite Htail by lia. do 2 f_equal. lia.
  - rewrite (put_same st o V HV) in Hrun. revert Hrun. unfold truth. change (Z.of_nat 0) with 0.
    destruct (Z.eqb_spec (Z.of_nat (length l - pos - n)) 0); cbn [negb andb]; [done|].
    destruct (Z.eqb_spec (Z.of_nat n) 0); cbn [negb andb]; [done|].
    rewrite (bind_ok _ _ _ _ _ (data_run _ _ _ HV)). unfold offset. cbn [fst snd]. by rewrite Z.add_0_l, Z.add_0_r.
Qed.

(** ** Replacing *)

Lemma check_length_run n1 n2 :
  (n1 <= length l)%nat → 0 <= n2 →
  _M_check_length o (Z.of_nat n1) n2 st =
  Some ((if max_size <? Z.of_nat (length l - n1) + n2 then inr length_error else inl tt), st).
Proof using HV Hsh.
  intros Hn1 Hn2. pose proof sizes. unfold _M_check_length. rewrite (bind_ok _ _ _ _ _ (string_size_run _ _ _ HV)), (sh_len _ _ Hsh).
  rewrite max_size_eq, (u32_id (Z.of_nat (length l) - _)), u32_id by (unfold is_u32; lia).
  destruct (Z.ltb_spec (2147483647 - (Z.of_nat (length l) - Z.of_nat n1)) n2),
    (Z.ltb_spec 2147483647 (Z.of_nat (length l - n1) + n2)); (done || lia).
Qed.

(** Where the buffer is too small. *)
Lemma mutate_then (s : option ptr) pos n1 new (k : Exc unit) :
  (pos + n1 <= length l)%nat → Z.of_nat (length new) <= max_size →
  match s with Some p => reads st p new | None => True end →
  v_cap V < Z.of_nat (length l - n1 + length new) →
  (∀ b n cs, blocks st !! b = None → Z.of_nat (length cs) = n + 1 → filled s cs l pos n1 new →
     Z.of_nat (length l - n1 + length new) <= n → _S_local_capacity <= n <= max_size →
     yields st o V (replaced l pos n1 new) (k (put (release st V) o (View (Some (b, n)) cs (v_len V))))) →
  outcome st o V (replaced l pos n1 new)
    ((_M_mutate o (Z.of_nat pos) (Z.of_nat n1) s (Z.of_nat (length new));; k) st).
Proof using HV Hsh.
  intros Hpos Hnew Hs Hcap Hk. pose proof sizes. unfold outcome. rewrite length_replaced by done.
  destruct (mutate_run st o V l pos n1 s new HV Hsh Hpos Hnew Hs) as [Hrun|(Hle & cs & Hrun & Hlcs & Hfill)].
  - right. by rewrite (bind_throws _ _ _ _ _ Hrun).
  - left. split; [done|]. rewrite (bind_ok _ _ _ _ _ Hrun). apply Hk; try done.
    + apply fresh_block_free.
    + by apply grown_bounds.
    + pose proof (grown_bounds _ (v_cap V) Hle). unfold _S_local_capacity. lia.
Qed.

Lemma disjunct_run p new :
  source st o V l p new →
  _M_disjunct o p st = Some (inl (bool_decide (p.1 ≠ v_buffer o V)), st).
Proof using HV Hsh.
  intros Hsrc. unfold _M_disjunct. rewrite (bind_ok _ _ _ _ _ (data_run _ _ _ HV)), (bind_ok _ _ _ _ _ (string_size_run _ _ _ HV)).
  cbn [fst snd]. rewrite (sh_len _ _ Hsh). destruct Hsrc as [ [Hne _]|(off & -> & Hoff & _)]; cbn [fst snd].
  - by rewrite bool_decide_eq_false_2, bool_decide_eq_true_2 by done.
  - rewrite bool_decide_eq_true_2, bool_decide_eq_false_2 by (done || tauto).
    rewrite (proj2 (Z.ltb_ge (Z.of_nat off) 0)), (proj2 (Z.ltb_ge _ _)) by lia. done.
Qed.

(** New characters from elsewhere, in the buffer. *)
Lemma replace_apart pos n1 p new :
  (pos + n1 <= length l)%nat → p.1 ≠ v_buffer o V → reads st p new →
  Z.of_nat (length l - n1 + length new) <= v_cap V →
  ∃ cs, ((if truth (Z.of_nat (length l - pos - n1)) && negb (Z.of_nat n1 =? Z.of_nat (length new)) then
            _S_move (offset (v_buffer o V, Z.of_nat pos) (Z.of_nat (length new)))
              (offset (v_buffer o V, Z.of_nat pos) (Z.of_nat n1)) (Z.of_nat (length l - pos - n1))
          else mret tt);;
         if truth (Z.of_nat (length new)) then _S_copy (v_buffer o V, Z.of_nat pos) p (Z.of_nat (length new))
         else mret tt) st = Some (inl tt, put st o (with_cells V cs)) ∧
    length cs = length (v_cells V) ∧ agrees cs (replaced l pos n1 new).
Proof using HV Hsh.
  intros Hpos Hne Hp Hcap. pose proof sizes.
  destruct (moved_tail st o V l pos n1 (length new)) as (cs & Hrun & Hlcs & Htail & Hpre);
    [apply Hsh|intros i Hi; apply Hsh; lia|lia..|].
  rewrite (put_same st o V HV) in Hrun. rewrite (bind_ok _ _ _ _ _ Hrun).
  exists (splice pos (Some <$> new) cs). split_and!; [|cell_lengths; lia|].
  - unfold truth. destruct (Z.eqb_spec (Z.of_nat (length new)) 0); cbn [negb].
    { destruct new; [|done]. by rewrite splice_nil. }
    apply (put_copy st o (with_cells V cs)); [apply good_cells; [apply Hsh|done]| |cbn; lia|by left].
    eapply reads_cells; [|exact Hp]. by apply put_cells_apart with V.
  - apply (put_new V l); [apply Hsh|done|lia|done|done|]. intros i Hi. apply Hpre. lia.
Qed.

(** Characters of the string itself, in the buffer. *)
Lemma replace_own pos n1 off n2 :
  (pos + n1 <= length l)%nat → (off + n2 <= length l)%nat → Z.of_nat (length l - n1 + n2) <= v_cap V →
  ∃ cs, _M_replace_in_place (v_buffer o V, Z.of_nat pos) (v_buffer o V, Z.of_nat off) (Z.of_nat n1) (Z.of_nat n2)
      (Z.of_nat (length l - pos - n1)) st = Some (inl tt, put st o (with_cells V cs)) ∧
    length cs = length (v_cells V) ∧ agrees cs (replaced l pos n1 (sub l off n2)).
Proof using HV Hsh.
  intros Hpos Hoff Hcap. pose proof sizes.
  pose proof (put_same st o V HV) as E. destruct (decide (n2 <= n1)%nat).
  - destruct (in_place_shorter st o V l (sh_good _ _ Hsh) (sh_agrees _ _ Hsh) pos n1 off n2) as (cs & Hrun & ?);
      [lia..|]. rewrite E in Hrun. by exists cs.
  - destruct (in_place_longer st o V l (sh_good _ _ Hsh) (sh_agrees _ _ Hsh) pos n1 off n2) as (cs & Hrun & ?);
      [lia..|]. rewrite E in Hrun. by exists cs.
Qed.

Lemma replace_run pos n1 p new :
  (pos + n1 <= length l)%nat → source st o V l p new → Z.of_nat (length new) < 4294967296 →
  outcome st o V (replaced l pos n1 new)
    (_M_replace o (Z.of_nat pos) (Z.of_nat n1) p (Z.of_nat (length new)) st).
Proof using HV Hsh.
  intros Hpos Hsrc Hnew. pose proof sizes as (Hs1 & Hs2 & Hs3). pose proof max_size_eq as Hmax. unfold _M_replace.
  pose proof (check_length_run n1 (Z.of_nat (length new)) ltac:(lia) ltac:(lia)) as Hchk.
  rewrite <-Nat2Z.inj_add, <-(length_replaced l pos) in Hchk by done.
  destruct (Z.ltb_spec max_size (Z.of_nat (length (replaced l pos n1 new)))) as [Hlt|Hle].
  { right. rewrite (bind_throws _ _ _ _ _ Hchk). by rewrite (proj2 (Z.ltb_lt _ _)). }
  rewrite length_replaced in Hle by done.
  rewrite (bind_ok _ _ _ _ _ Hchk), (bind_ok _ _ _ _ _ (string_size_run _ _ _ HV)), (sh_len _ _ Hsh).
  rewrite (bind_ok _ _ _ _ _ (capacity_run _ _ _ HV)), u32_new, u32_tail by lia.
  pose proof (length_replaced l pos n1 new Hpos) as Hlr.
  destruct (Z.leb_spec (Z.of_nat (length l - n1 + length new)) (v_cap V)) as [Hin|Hout].
  2: { rewrite <-Hlr. apply (mutate_then (Some p)); [done|lia|by eapply source_reads|done|].
       intros b n cs Hb Hcs Hfill Hn Hcap. apply finish_fresh; [done..| |done]. lia. }
  left. split; [lia|].
  assert (∃ cs, (d ← _M_data o; apart ← _M_disjunct o p;
     if (apart : bool) then
       (if truth (Z.of_nat (length l - pos - n1)) && negb (Z.of_nat n1 =? Z.of_nat (length new)) then
          _S_move (offset (offset d (Z.of_nat pos)) (Z.of_nat (length new)))
            (offset (offset d (Z.of_nat pos)) (Z.of_nat n1)) (Z.of_nat (length l - pos - n1))
        else mret tt);;
       (if truth (Z.of_nat (length new)) then _S_copy (offset d (Z.of_nat pos)) p (Z.of_nat (length new)) else mret tt)
     else _M_replace_in_place (offset d (Z.of_nat pos)) p (Z.of_nat n1) (Z.of_nat (length new))
       (Z.of_nat (length l - pos - n1))) st = Some (inl tt, put st o (with_cells V cs)) ∧
    length cs = length (v_cells V) ∧ agrees cs (replaced l pos n1 new)) as (cs & Hrun & Hlcs & Hag).
  { rewrite (bind_ok _ _ _ _ _ (data_run _ _ _ HV)), (bind_ok _ _ _ _ _ (disjunct_run p new Hsrc)).
    destruct Hsrc as [ [Hne Hp]|(off & -> & Hoff & E)].
    - rewrite bool_decide_eq_true_2 by done. by apply replace_apart.
    - rewrite bool_decide_eq_false_2 by (cbn; tauto).
      destruct (replace_own pos n1 off (length new)) as (cs & Hrun & Hlcs & Hag); [done..|].
      rewrite <-E in Hag. by exists cs. }
  rewrite (bind_ok _ _ _ _ _ Hrun), <-Hlr. apply (finish_in_place st o V cs l); [done..|]. lia.
Qed.

(** ** Filling *)

Lemma fill_then st' V' pos n c :
  good V' → (pos + n <= length (v_cells V'))%nat →
  (if truth (Z.of_nat n) then d ← _M_data o; _S_assign (offset d (Z.of_nat pos)) (Z.of_nat n) c else mret tt)
    (put st' o V') =
  Some (inl tt, put st' o (with_cells V' (splice pos (Some <$> replicate n c) (v_cells V')))).
Proof.
  intros HV' Hn. rewrite fmap_replicate. unfold truth. destruct (Z.eqb_spec (Z.of_nat n) 0); cbn [negb].
  - replace n with 0%nat by lia. cbn. rewrite splice_nil. by destruct V'.
  - rewrite (bind_ok _ _ _ _ _ (data_run _ _ _ (has_put st' o V' HV'))). unfold offset. cbn [fst snd].
    rewrite Z.add_0_l. by apply put_assign.
Qed.

Lemma replace_aux_run pos n1 n2 c :
  (pos + n1 <= length l)%nat → Z.of_nat n2 < 4294967296 →
  outcome st o V (replaced l pos n1 (replicate n2 c))
    (_M_replace_aux o (Z.of_nat pos) (Z.of_nat n1) (Z.of_nat n2) c st).
Proof using HV Hsh.
  intros Hpos Hnew. pose proof sizes as (Hs1 & Hs2 & Hs3). pose proof max_size_eq as Hmax. unfold _M_replace_aux.
  pose proof (length_replaced l pos n1 (replicate n2 c) Hpos) as Hlr. rewrite length_replicate in Hlr.
  pose proof (check_length_run n1 (Z.of_nat n2) ltac:(lia) ltac:(lia)) as Hchk.
  rewrite <-Nat2Z.inj_add, <-Hlr in Hchk.
  destruct (Z.ltb_spec max_size (Z.of_nat (length (replaced l pos n1 (replicate n2 c))))) as [Hlt|Hle].
  { right. rewrite (bind_throws _ _ _ _ _ Hchk). by rewrite (proj2 (Z.ltb_lt _ _)). }
  rewrite (bind_ok _ _ _ _ _ Hchk), (bind_ok _ _ _ _ _ (string_size_run _ _ _ HV)), (sh_len _ _ Hsh).
  rewrite (bind_ok _ _ _ _ _ (capacity_run _ _ _ HV)), u32_new, u32_tail by lia. rewrite <-Hlr.
  destruct (Z.leb_spec (Z.of_nat (length (replaced l pos n1 (replicate n2 c)))) (v_cap V)) as [Hin|Hout].
  2: { pose proof (mutate_then None pos n1 (replicate n2 c)) as Hm. rewrite length_replicate in Hm.
       apply Hm; [done|lia|done|lia|]. intros b n cs Hb Hcs Hfill Hn Hcap.
       rewrite (bind_ok _ _ _ _ _ (fill_then (release st V) (View (Some (b, n)) cs (v_len V)) pos n2 c Hcs ltac:(cbn; lia))).
       unfold with_cells. cbn [v_block v_len v_cells].
       apply finish_fresh; [done|done|cell_lengths; lia|done|lia|done]. }
  left. split; [lia|]. destruct (moved_tail st o V l pos n1 n2) as (cs & Hrun & Hlcs & Htail & Hpre);
    [apply Hsh|intros i Hi; apply Hsh; lia|lia..|]. rewrite (put_same st o V HV) in Hrun.
  rewrite (bind_ok _ _ _ tt (put st o (with_cells V cs))).
  2: { rewrite (bind_ok _ _ _ _ _ (data_run _ _ _ HV)). exact Hrun. }
  rewrite (bind_ok _ _ _ _ _ (fill_then st (with_cells V cs) pos n2 c (good_cells V cs (sh_good _ _ Hsh) Hlcs) ltac:(cbn; lia))).
  apply (finish_in_place st o V _ l); [done|cbn; cell_lengths; lia| |done].
  apply (put_new V l); [apply Hsh|done|rewrite length_replicate; lia|done|by rewrite length_replicate|].
  intros i Hi. apply Hpre. lia.
Qed.

(** ** Appending *)

Lemma replaced_end new : replaced l (length l) 0 new = l ++ new.
Proof. unfold replaced. rewrite Nat.add_0_r, drop_all, firstn_all. by rewrite app_nil_r. Qed.

Lemma append_run p new :
  source st o V l p new → Z.of_nat (length new) <= max_size →
  outcome st o V (l ++ new) (_M_append o p (Z.of_nat (length new)) st).
Proof using HV Hsh.
  intros Hsrc Hnew. pose proof sizes as (Hs1 & Hs2 & Hs3). pose proof max_size_eq as Hmax. unfold _M_append.
  rewrite (bind_ok _ _ _ _ _ (string_size_run _ _ _ HV)), (sh_len _ _ Hsh), (bind_ok _ _ _ _ _ (capacity_run _ _ _ HV)).
  replace (u32 (Z.of_nat (length new) + Z.of_nat (length l))) with (Z.of_nat (length (l ++ new)))
    by (rewrite u32_id, length_app; unfold is_u32; lia).
  destruct (Z.leb_spec (Z.of_nat (length (l ++ new))) (v_cap V)) as [Hin|Hout]; rewrite length_app in *.
  2: { rewrite <-replaced_end, <-length_app, <-replaced_end. change 0 with (Z.of_nat 0).
       apply (mutate_then (Some p)); [lia|lia|by eapply source_reads|lia|].
       intros b n cs Hb Hcs Hfill Hn Hcap. apply finish_fresh; try done. rewrite length_replaced; lia. }
  left. split; [rewrite length_app; lia|].
  rewrite (bind_ok _ _ _ tt (put st o (with_cells V (splice (length l) (Some <$> new) (v_cells V))))).
  - rewrite <-length_app. apply (finish_in_place st o V _ l); [done|cell_lengths; lia| |rewrite length_app; lia].
    rewrite <-replaced_end. apply (put_new V l); [apply Hsh|lia|lia|done|intros; lia|done].
  - unfold truth. destruct (Z.eqb_spec (Z.of_nat (length new)) 0); cbn [negb].
    { destruct new; [|done]. rewrite splice_nil. assert (with_cells V (v_cells V) = V) as -> by (by destruct V).
      by rewrite (put_same st o V HV). }
    rewrite (bind_ok _ _ _ _ _ (data_run _ _ _ HV)). unfold offset. cbn [fst snd]. rewrite Z.add_0_l.
    rewrite <-(put_same st o V HV) at 1. apply put_copy; [apply Hsh| |lia|].
    + rewrite (put_same st o V HV). by eapply source_reads.
    + destruct Hsrc as [ [? _]|(off & -> & Hoff & _)]; [by left|right; right; cbn; lia].
Qed.

Lemma push_back_run c : outcome st o V (l ++ [c]) (push_back o c st).
Proof using HV Hsh.
  pose proof sizes as (Hs1 & Hs2 & Hs3). pose proof max_size_eq as Hmax. unfold push_back.
  rewrite (bind_ok _ _ _ _ _ (string_size_run _ _ _ HV)), (sh_len _ _ Hsh), (bind_ok _ _ _ _ _ (capacity_run _ _ _ HV)).
  replace (u32 (Z.of_nat (length l) + 1)) with (Z.of_nat (length (l ++ [c])))
    by (rewrite u32_id, length_app; unfold is_u32; cbn; lia).
  assert (∀ st' V', good V' → (length l < length (v_cells V'))%nat →
    (p ← _M_data o; traits_assign (offset p (Z.of_nat (length l))) c;; _M_set_length o (Z.of_nat (length (l ++ [c]))))
      (put st' o V') =
    _M_set_length o (Z.of_nat (length (l ++ [c])))
      (put st' o (with_cells V' (splice (length l) (Some <$> [c]) (v_cells V'))))) as Hput.
  { intros st' V' HV' Hlen. rewrite (bind_ok _ _ _ _ _ (data_run _ _ _ (has_put st' o V' HV'))).
    unfold offset. cbn [fst snd]. rewrite Z.add_0_l. erewrite bind_ok; [done|]. apply put_write; [done|cbn; lia]. }
  pose proof (length_app l [c]) as Hla. cbn [length] in Hla.
  destruct (Z.ltb_spec (v_cap V) (Z.of_nat (length (l ++ [c])))) as [Hout|Hin].
  - rewrite <-(replaced_end [c]) at 1. change 0 with (Z.of_nat 0). change 1 with (Z.of_nat (length [c])).
    apply (mutate_then None); [lia|cbn; lia|done|cbn; lia|].
    intros b n cs Hb Hcs Hfill Hn Hcap. rewrite Hput by (cbn; lia || done). rewrite replaced_end.
    unfold with_cells. cbn [v_block v_len v_cells]. cbn [length] in Hn.
    apply finish_fresh; try done; [cell_lengths; cbn; lia| |lia].
    by rewrite <-replaced_end.
  - left. split; [lia|]. pose proof (Hput st V (sh_good _ _ Hsh) ltac:(lia)) as Hp.
    rewrite (put_same st o V HV) in Hp. rewrite bind_ret, Hp.
    apply (finish_in_place st o V _ l); [done|cell_lengths; cbn; lia| |lia].
    rewrite <-replaced_end. apply (put_new V l); [apply Hsh|lia|cbn; lia|done|intros; lia|done].
Qed.

End at_object.

(** ** Other objects *)

Lemma has_other st o V V' st' str W :
  has st str W → str ≠ o → v_buffer str W ≠ v_buffer o V → updates st o V V' st' → has st' str W.
Proof.
  intros (Hs & Hl & Hb) Hne Hbuf [-> Hfree]. split_and!; [cbn; by rewrite lookup_insert_ne|done|].
  intros b n E. assert (blocks (release st V) !! b = Some (v_cells W)) as Hb'.
  { unfold release, v_buffer in *. cbn. rewrite E in Hbuf. destruct (v_block V) as [ [b' n']|]; [|by eapply Hb].
    rewrite lookup_delete_ne by congruence. by eapply Hb. }
  unfold put. cbn. destruct (v_block V') as [ [b' n']|] eqn:E'; [|done].
  rewrite lookup_insert_ne; [done|]. intros ->. specialize (Hfree _ _ eq_refl). congruence.
Qed.

(** All characters of an object. *)
Lemma has_reads_all st str W l : has st str W → shows W l → reads st (v_buffer str W, 0) l.
Proof.
  intros HW Hsh. pose proof (has_reads st str W l 0 (length l) HW (sh_agrees _ _ Hsh) ltac:(lia)) as Hr.
  unfold sub in Hr. cbn in Hr. rewrite firstn_all in Hr. apply Hr. pose proof (shows_length _ _ Hsh). lia.
Qed.

Lemma overwritten cs (l : list Z) : (length l <= length cs)%nat → agrees (splice 0 (Some <$> l) cs) l.
Proof.
  intros Hl i Hi. rewrite lookup_splice by (cell_lengths; lia). cell_lengths.
  rewrite decide_False, decide_True, lookup_some by lia. by rewrite Nat.sub_0_r.
Qed.

(** The assignment, once the buffer is large enough. *)
Lemma assign_copy st o V str W l :
  good V → o ≠ str → has (put st o V) str W → shows W l → v_buffer str W ≠ v_buffer o V →
  Z.of_nat (length l) <= v_cap V →
  (if truth (Z.of_nat (length l)) then d ← _M_data o; p ← _M_data str; _S_copy d p (Z.of_nat (length l)) else mret tt)
    (put st o V) =
  Some (inl tt, put st o (with_cells V (splice 0 (Some <$> l) (v_cells V)))).
Proof.
  intros HV Hne HW Hsh Hbuf Hcap. unfold truth. destruct (Z.eqb_spec (Z.of_nat (length l)) 0); cbn [negb].
  { destruct l; [|done]. rewrite splice_nil. by destruct V. }
  rewrite (bind_ok _ _ _ _ _ (data_run _ _ _ (has_put st o V HV))), (bind_ok _ _ _ _ _ (data_run _ _ _ HW)).
  unfold good in HV. apply (put_copy st o V HV 0); [by apply has_reads_all|lia|by left].
Qed.

Lemma assign_run st o V l str W l' :
  has st o V → shows V l → o ≠ str → has st str W → shows W l' → v_buffer str W ≠ v_buffer o V →
  outcome st o V l' (_M_assign o str st).
Proof.
  intros HV Hsh Hne HW HshW Hbuf. pose proof (sizes V l Hsh) as (Hs1 & Hs2 & Hs3). pose proof max_size_eq as Hmax.
  unfold _M_assign. rewrite (proj2 (Nat.eqb_neq _ _)) by done.
  rewrite (bind_ok _ _ _ _ _ (string_size_run _ _ _ HW)), (sh_len _ _ HshW), (bind_ok _ _ _ _ _ (capacity_run _ _ _ HV)).
  assert (Z.of_nat (length l') <= max_size) as Hl' by (pose proof (sh_fits _ _ HshW); pose proof (sh_cap _ _ HshW); lia).
  destruct (Z.ltb_spec (v_cap V) (Z.of_nat (length l'))) as [Hout|Hin].
  - pose proof (create_run st (Z.of_nat (length l')) (v_cap V) ltac:(lia) ltac:(lia)) as Hcr.
    unfold outcome. rewrite (proj2 (Z.ltb_ge _ _)) in * by lia.
    destruct (refuses _ _); [right|left; split; [done|]].
    { rewrite (bind_throws (_ ≫= _) _ st bad_alloc st); [done|]. by rewrite (bind_throws _ _ _ _ _ Hcr). }
    set (g := grown (Z.of_nat (length l')) (v_cap V)) in *. pose proof (grown_bounds (Z.of_nat (length l')) (v_cap V) Hl') as Hgr.
    fold g in Hgr. set (b := fresh_block st) in *. set (cs0 := replicate (Z.to_nat (g + 1)) None) in *.
    pose proof (fresh_block_free st) as Hb. fold b in Hb. set (V1 := View (Some (b, g)) cs0 (v_len V)).
    assert (Z.of_nat (length cs0) = g + 1) as Hl0 by (unfold cs0; rewrite length_replicate; lia).
    rewrite (bind_ok _ _ _ tt (put (release st V) o V1)).
    2: { rewrite (bind_ok _ _ _ _ _ Hcr). apply adopt_run; [done|lia|done]. }
    assert (has (put (release st V) o V1) str W) as HW'.
    { apply (has_other st o V V1); [done..|]. by apply updates_fresh with b g. }
    pose proof (buffer_not_free st str W b HW Hb : v_buffer str W ≠ v_buffer o V1) as Hb1.
    rewrite (bind_ok _ _ _ _ _ (assign_copy (release st V) o V1 str W l' Hl0 Hne HW' HshW Hb1 ltac:(cbn; lia))).
    unfold V1, with_cells. cbn [v_block v_len v_cells].
    apply finish_fresh; [done|done|cell_lengths; lia|apply overwritten; lia|lia|unfold _S_local_capacity; lia].
  - left. split; [done|]. rewrite bind_ret.
    pose proof (assign_copy st o V str W l' (sh_good _ _ Hsh) Hne) as Hc. rewrite (put_same st o V HV) in Hc.
    rewrite (bind_ok _ _ _ _ _ (Hc HW HshW Hbuf Hin)).
    apply (finish_in_place st o V _ l); [done|cell_lengths; lia|apply overwritten; lia|done].
Qed.

End operations.
