(* ===== verification/StdStringLife.v ===== *)
(** * Construction, destruction, reserving, moving and exchanging strings *)
From stdpp Require Import base numbers list gmap.
From Stdlib Require Import ZArith Lia.
From S2P Require Import Prelude StdString StdStringView StdStringInPlace StdStringOps.

Section life.
Context `{Allocator}.

(** * Writing into a local buffer *)

Lemma copy_generic st d p l :
  reads st p l → p.1 ≠ d.1 → l ≠ [] → _S_copy d p (Z.of_nat (length l)) st = write_cells d (Some <$> l) st.
Proof.
  intros Hp Hne Hl. unfold _S_copy, traits_copy, memcpy, overlap.
  destruct (Z.eqb_spec (Z.of_nat (length l)) 1).
  { destruct l as [|c [|c' l] ]; cbn in *; try lia. unfold read_char.
    by rewrite (bind_ok (read_cells p 1 ≫= _) _ _ c st) by (by rewrite (bind_ok _ _ _ _ _ Hp)). }
  destruct (Z.eqb_spec (Z.of_nat (length l)) 0); [by destruct l|].
  rewrite bool_decide_eq_false_2 by congruence. cbn. unfold memmove. by rewrite (bind_ok _ _ _ _ _ Hp).
Qed.

Lemma write_local st o s off new :
  strings st !! o = Some s → (off + length new <= length (local_cells s))%nat →
  write_cells (Local o, Z.of_nat off) new st =
  Some (inl tt, State (<[o := String (_M_p s) (_M_string_length s)
    (_M_local_buf (splice off new (local_cells s)))]> (strings st)) (blocks st)).
Proof.
  intros Hs Hn. unfold write_cells. cbn. rewrite Hs. cbn. unfold in_buffer.
  destruct (Z.leb_spec 0 (Z.of_nat off)), (Z.leb_spec 0 (Z.of_nat (length new))),
    (Z.leb_spec (Z.of_nat off + Z.of_nat (length new)) (Z.of_nat (length (local_cells s)))); try lia.
  cbn. by rewrite Nat2Z.id.
Qed.

(** * Reserving *)

(** The contents with the terminating null character. *)
Lemma has_reads_null st o V l : has st o V → shows V l → reads st (v_buffer o V, 0) (l ++ [0]).
Proof.
  intros HV Hsh. pose proof (shows_length _ _ Hsh). rewrite <-(put_same st o V HV).
  apply (reads_at st o V 0); [apply Hsh|rewrite length_app; cbn; lia|]. intros i Hi. rewrite length_app in Hi. cbn in *.
  destruct (decide (i < length l)%nat).
  - rewrite lookup_app_l by done. by apply Hsh.
  - replace i with (length l) by lia. rewrite (sh_null _ _ Hsh), lookup_app_r, Nat.sub_diag by lia. done.
Qed.

Lemma shows_copied V l cs :
  shows V l → (length l < length cs)%nat → ∀ blk,
  Z.of_nat (length cs) = v_cap (View blk cs (v_len V)) + 1 →
  _S_local_capacity <= v_cap (View blk cs (v_len V)) <= max_size →
  shows (View blk (splice 0 (Some <$> (l ++ [0])) cs) (v_len V)) l.
Proof.
  intros Hsh Hlen blk Hg Hcap. assert (length (l ++ [0]) = S (length l)) as Hl by (rewrite length_app; cbn; lia).
  assert (∀ i, (i < S (length l))%nat → splice 0 (Some <$> (l ++ [0])) cs !! i = Some ((l ++ [0]) !! i)) as Hlk.
  { intros i Hi. apply overwritten; lia. }
  constructor; cbn [v_cells v_len].
  - unfold good. cbn [v_cells]. unfold v_cap in *. cbn [v_block] in *. rewrite <-Hg. cell_lengths. cbn. lia.
  - intros i Hi. rewrite Hlk by lia. by rewrite lookup_app_l.
  - apply Hsh.
  - unfold v_cap in *. cbn [v_block] in *. lia.
  - done.
  - rewrite Hlk by lia. by rewrite lookup_app_r, Nat.sub_diag by lia.
Qed.

(** Back into the object itself. *)
Lemma to_local_run st o V l b n :
  has st o V → shows V l → v_block V = Some (b, n) → (length l <= 15)%nat →
  (p ← _M_data o;
   _S_copy (_M_local_data o) p (u32 (Z.of_nat (length l) + 1));;
   _M_destroy o n;; _M_set_data o (_M_local_data o)) st =
  Some (inl tt, put (release st V) o (View None (splice 0 (Some <$> (l ++ [0])) (replicate 16 None)) (v_len V))).
Proof.
  intros HV Hsh E Hl. pose proof (sizes V l Hsh) as (Hs1 & Hs2 & Hs3). pose proof max_size_eq.
  assert (length (l ++ [0]) = S (length l)) as Hla by (rewrite length_app; cbn; lia).
  rewrite (bind_ok _ _ _ _ _ (data_run _ _ _ HV)).
  replace (u32 (Z.of_nat (length l) + 1)) with (Z.of_nat (length (l ++ [0]))) by (rewrite u32_id; unfold is_u32; lia).
  assert (v_buffer o V = Block b) as Hbuf by (unfold v_buffer; by rewrite E).
  assert (local_cells (v_object o V) = replicate 16 None) as Hlc by (unfold local_cells, v_object; by rewrite E).
  pose proof (write_local st o (v_object o V) 0 (Some <$> (l ++ [0])) (proj1 HV)) as Hw.
  rewrite Hlc, length_fmap, length_replicate in Hw. specialize (Hw ltac:(lia)).
  rewrite (bind_ok _ _ _ _ _ (eq_trans (copy_generic st (Local o, 0) (v_buffer o V, 0) (l ++ [0])
    (has_reads_null st o V l HV Hsh) ltac:(by rewrite Hbuf) ltac:(by destruct l)) Hw)).
  unfold _M_destroy, _M_set_data, _M_data, this_string, set_string, mbind, Exc_bind. cbn.
  rewrite lookup_insert_eq. cbn. rewrite Hbuf. cbn. rewrite (proj2 (proj2 HV) _ _ E). cbn.
  unfold v_cap in *. rewrite E in *. rewrite u32_id by (unfold is_u32; lia). rewrite Hs3, Z.eqb_refl. cbn.
  rewrite lookup_insert_eq. cbn. unfold put, release. cbn. rewrite E, insert_insert_eq. done.
Qed.

Lemma reserve_run st o V l n :
  has st o V → shows V l → 0 <= n < 4294967296 →
  (n <= max_size ∧ yields st o V l (reserve o n st)) ∨
  reserve o n st = Some (inr (if max_size <? n then length_error else bad_alloc), st).
Proof.
  intros HV Hsh Hn. pose proof (sizes V l Hsh) as (Hs1 & Hs2 & Hs3). pose proof max_size_eq as Hmax.
  assert (length (l ++ [0]) = S (length l)) as Hla by (rewrite length_app; cbn; lia).
  unfold reserve. rewrite (bind_ok _ _ _ _ _ (string_size_run _ _ _ HV)), (sh_len _ _ Hsh), (bind_ok _ _ _ _ _ (capacity_run _ _ _ HV)).
  set (m := if n <? Z.of_nat (length l) then Z.of_nat (length l) else n).
  assert (Z.of_nat (length l) <= m ∧ (max_size <? m) = (max_size <? n) ∧ 0 <= m < 4294967296 ∧ n <= m) as (Hm & Hmn & Hm' & Hnm).
  { unfold m. destruct (Z.ltb_spec n (Z.of_nat (length l))); [|split_and!; done || lia].
    split_and!; [lia| |lia..]. by rewrite !(proj2 (Z.ltb_ge _ _)) by lia. }
  assert (yields st o V l (Some (inl tt, st))) as Hsame.
  { exists V, st. split; [done|]. split; [|done]. rewrite <-(put_same st o V HV) at 2. by apply updates_in_place. }
  destruct (Z.eqb_spec m (v_cap V)); [left; split; [lia|done]|].
  destruct ((v_cap V <? m) || (_S_local_capacity <? m)) eqn:Hgrow.
  - pose proof (create_run st m (v_cap V) ltac:(lia) ltac:(lia)) as Hcr. rewrite Hmn in Hcr.
    destruct (Z.ltb_spec max_size n); [right; by rewrite (bind_throws _ _ _ _ _ Hcr)|].
    destruct (refuses _ _); [right; by rewrite (bind_throws _ _ _ _ _ Hcr)|].
    left. split; [lia|]. apply Z.ltb_ge in Hmn. set (b := fresh_block st) in *. set (g := grown m (v_cap V)) in *.
    pose proof (grown_bounds m (v_cap V) Hmn) as Hgr. fold g in Hgr. pose proof (fresh_block_free st) as Hb. fold b in Hb.
    set (cs0 := replicate (Z.to_nat (g + 1)) None) in *.
    assert (Z.of_nat (length cs0) = g + 1) as Hl0 by (unfold cs0; rewrite length_replicate; lia).
    rewrite (bind_ok _ _ _ _ _ Hcr), (bind_ok _ _ _ _ _ (data_run _ _ _ (has_with_block st o V b cs0 HV Hb))).
    replace (u32 (Z.of_nat (length l) + 1)) with (Z.of_nat (length (l ++ [0]))) by (rewrite u32_id; unfold is_u32; lia).
    pose proof (buffer_not_free st o V b HV Hb) as Hne.
    rewrite (bind_ok _ _ _ _ _ (copy_block st b cs0 0 (v_buffer o V, 0) (l ++ [0])
      (reads_with_block _ _ _ _ _ (has_reads_null st o V l HV Hsh) Hne) Hne ltac:(lia))).
    rewrite (adopt_run st o V b g _ HV) by (done || lia). eexists _, _. split; [done|].
    split; [by apply updates_fresh with b g|]. apply shows_copied; [done|lia|done|cbn].
    unfold _S_local_capacity in *. destruct (Z.ltb_spec (v_cap V) m), (Z.ltb_spec 15 m); cbn in Hgrow; try done; lia.
  - left. apply orb_false_iff in Hgrow as [Hc1%Z.ltb_ge Hc2%Z.ltb_ge]. unfold _S_local_capacity in Hc2. split; [lia|].
    rewrite (bind_ok _ _ _ _ _ (is_local_run _ _ _ HV)). case_bool_decide as E; [done|].
    destruct (v_block V) as [ [b k]|] eqn:E'; [|done]. assert (v_cap V = k) as -> by (unfold v_cap; by rewrite E').
    rewrite (to_local_run st o V l b k) by (done || lia). eexists _, _. split; [done|]. split.
    + split; [done|]. cbn. done.
    + apply shows_copied; [done|rewrite length_replicate; lia|done|done].
Qed.

Lemma shrink_run st o V l : has st o V → shows V l → yields st o V l (shrink_to_fit o st).
Proof.
  intros HV Hsh. unfold shrink_to_fit. rewrite (bind_ok _ _ _ _ _ (capacity_run _ _ _ HV)), (bind_ok _ _ _ _ _ (string_size_run _ _ _ HV)).
  assert (yields st o V l (Some (inl tt, st))) as Hsame.
  { exists V, st. split; [done|]. split; [|done]. rewrite <-(put_same st o V HV) at 2. by apply updates_in_place. }
  destruct (v_len V <? v_cap V); [|done]. unfold catch.
  destruct (reserve_run st o V l 0 HV Hsh ltac:(lia)) as [ [_ Hy]| ->]; [|done].
  destruct Hy as (V' & st' & -> & Hy). by exists V', st'.
Qed.

(** * Construction *)

(** A member of an object under construction, before the body of the constructor. *)
Definition blank : view := View None (replicate 16 None) 0.

Lemma put_over st o V W : v_block V = None → put (put st o V) o W = put st o W.
Proof. intros E. unfold put. rewrite E. cbn. by rewrite insert_insert_eq. Qed.

(** The object is there, with a buffer of its own. *)
Definition born (st : state) (o : nat) (l : list Z) (r : option ((unit + exception) * state)) : Prop :=
  ∃ V, r = Some (inl tt, put st o V) ∧ shows V l ∧ ∀ b n, v_block V = Some (b, n) → blocks st !! b = None.

Definition failure (l : list Z) (e : exception) : Prop :=
  e = bad_alloc ∨ (e = length_error ∧ max_size < Z.of_nat (length l)).

Definition birth (st : state) (o : nat) (l : list Z) (r : option ((unit + exception) * state)) : Prop :=
  (Z.of_nat (length l) <= max_size ∧ born st o l r) ∨ ∃ e, r = Some (inr e, st) ∧ failure l e.

(** The body of a constructor, where an exception leaves nothing but the object. *)
Definition building (st : state) (o : nat) (l : list Z) (r : option ((unit + exception) * state)) : Prop :=
  (Z.of_nat (length l) <= max_size ∧ born st o l r) ∨
  ∃ e st', r = Some (inr e, st') ∧ failure l e ∧ delete o (strings st') = strings st ∧ blocks st' = blocks st.

Lemma construct_run st o l body :
  strings st !! o = None → building st o l (body (put st o blank)) → birth st o l (construct o body st).
Proof.
  intros Ho [ [Hl (V & Hrun & HV)]|(e & st' & Hrun & He & Hs & Hb)]; unfold construct; rewrite Ho;
    change (State (<[o := _]> _) _) with (put st o blank); rewrite Hrun; [left|right].
  - split; [done|]. by exists V.
  - exists e. split; [|done]. rewrite Hs, Hb. by destruct st.
Qed.

Lemma put_blank_deleted st o V : strings st !! o = None → delete o (strings (put st o V)) = strings st.
Proof. intros Ho. cbn. by rewrite delete_insert_id. Qed.

(** The buffer of a new object. *)
Lemma room_run st o n :
  0 <= n < 4294967296 →
  let r := (if _S_local_capacity <? n then
     '(p, cap) ← _M_create n 0; _M_set_data o p;; _M_capacity o cap
   else mret tt) (put st o blank) in
  r = Some (inr (if max_size <? n then length_error else bad_alloc), put st o blank) ∨
  (n <= max_size ∧ ∃ V, r = Some (inl tt, put st o V) ∧ good V ∧ n <= v_cap V ∧ _S_local_capacity <= v_cap V <= max_size ∧
     ∀ b k, v_block V = Some (b, k) → blocks st !! b = None).
Proof.
  intros Hn r. subst r. pose proof max_size_eq as Hmax. unfold _S_local_capacity. destruct (Z.ltb_spec 15 n).
  - pose proof (create_run (put st o blank) n 0 ltac:(lia) ltac:(lia)) as Hcr.
    destruct (Z.ltb_spec max_size n); [left; by rewrite (bind_throws _ _ _ _ _ Hcr)|].
    destruct (refuses _ _); [left; by rewrite (bind_throws _ _ _ _ _ Hcr)|right].
    rewrite (bind_ok _ _ _ _ _ Hcr). pose proof (grown_bounds n 0 ltac:(lia)). split; [lia|].
    exists (View (Some (fresh_block st, grown n 0)) (replicate (Z.to_nat (grown n 0 + 1)) None) 0). split_and!.
    + unfold _M_set_data, _M_capacity, set_string, this_string, mbind, Exc_bind. cbn.
      rewrite lookup_insert_eq. cbn. rewrite lookup_insert_eq. cbn. unfold put. cbn. by rewrite !insert_insert_eq.
    + unfold good. cbn. rewrite length_replicate. lia.
    + cbn. lia.
    + cbn. lia.
    + cbn. lia.
    + intros b k [= <- <-]. apply fresh_block_free.
  - right. split; [lia|]. exists blank. split_and!; [done|done|cbn; unfold _S_local_capacity; lia|done|done|done].
Qed.

Lemma born_finish st o V l :
  good V → agrees (v_cells V) l → Z.of_nat (length l) <= v_cap V → _S_local_capacity <= v_cap V <= max_size →
  (∀ b k, v_block V = Some (b, k) → blocks st !! b = None) →
  building st o l (_M_set_length o (Z.of_nat (length l)) (put st o V)).
Proof.
  intros HV Hag Hfit Hcap Hb. left. split; [lia|].
  destruct (finish st o V l HV Hag Hfit Hcap) as (V' & Hrun & Hsh & E). exists V'. rewrite E. done.
Qed.

Lemma agrees_nil cs : agrees cs [].
Proof. intros i Hi. cbn in Hi. lia. Qed.

Lemma room_failure st o l e :
  strings st !! o = None → e = (if max_size <? Z.of_nat (length l) then length_error else bad_alloc) →
  building st o l (Some (inr e, put st o blank)).
Proof.
  intros Ho ->. right. eexists _, _. split; [done|]. split; [|by rewrite put_blank_deleted].
  unfold failure. destruct (Z.ltb_spec max_size (Z.of_nat (length l))); auto.
Qed.

Lemma new_empty_run st o : strings st !! o = None → born st o [] (new_empty o st).
Proof.
  intros Ho. destruct (finish st o blank []) as (V & Hrun & Hsh & E); [done|apply agrees_nil|done|done|].
  exists V. split; [|by rewrite E]. unfold new_empty, construct. rewrite Ho.
  change (State (<[o := _]> _) _) with (put st o blank). change (Z.of_nat (length (@nil Z))) with 0 in Hrun. by rewrite Hrun.
Qed.

(** From characters in memory. *)
Lemma construct_ptr_run st o p l :
  strings st !! o = None → reads st p l → Z.of_nat (length l) < 4294967296 →
  building st o l (_M_construct o (Some p) (Z.of_nat (length l)) (put st o blank)).
Proof.
  intros Ho Hp Hl. unfold _M_construct. rewrite bind_ret.
  destruct (room_run st o (Z.of_nat (length l)) ltac:(lia)) as [Hr|(Hmax & V & Hr & HV & Hfit & Hcap & Hb)].
  { rewrite (bind_throws _ _ _ _ _ Hr). by apply room_failure. }
  rewrite (bind_ok _ _ _ _ _ Hr).
  assert (p.1 ≠ Local o) as Hne.
  { intros E. unfold reads, read_cells in Hp. rewrite E in Hp. cbn in Hp. by rewrite Ho in Hp. }
  assert (p.1 ≠ v_buffer o V) as Hne'.
  { unfold v_buffer. destruct (v_block V) as [ [b k]|]; [|done]. apply (reads_not_free st p l); [done|]. by eapply Hb. }
  assert (reads (put st o V) p l) as Hp' by (apply (reads_cells st); [by apply put_cells_other|done]).
  unfold good in HV.
  rewrite (bind_ok _ _ _ tt (put st o (with_cells V (splice 0 (Some <$> l) (v_cells V))))).
  2: { rewrite (bind_ok _ _ _ _ _ (data_run _ _ _ (has_put st o V HV))).
       apply (put_copy st o V HV 0 p l); [done|lia|by left]. }
  apply born_finish; try done; [|cbn; apply overwritten; lia].
  apply good_cells; [done|]. rewrite length_splice; cell_lengths; lia.
Qed.

Lemma construct_null_run st o n :
  0 < n → _M_construct o None n (put st o blank) = Some (inr logic_error, put st o blank).
Proof. intros Hn. unfold _M_construct, truth. by rewrite (proj2 (Z.eqb_neq n 0)) by lia. Qed.

Lemma construct_fill_run st o n c :
  strings st !! o = None → Z.of_nat n < 4294967296 →
  building st o (replicate n c) (_M_construct_fill o (Z.of_nat n) c (put st o blank)).
Proof.
  intros Ho Hn. unfold _M_construct_fill.
  destruct (room_run st o (Z.of_nat n) ltac:(lia)) as [Hr|(Hmax & V & Hr & HV & Hfit & Hcap & Hb)].
  { rewrite (bind_throws _ _ _ _ _ Hr). apply room_failure; [done|]. by rewrite length_replicate. }
  rewrite (bind_ok _ _ _ _ _ Hr). unfold good in HV. pose proof (fill_then o st V 0 n c HV ltac:(lia)) as Hf.
  assert (∀ d : ptr, offset d (Z.of_nat 0) = d) as Hoff by (intros [? ?]; unfold offset; cbn; by rewrite Z.add_0_r).
  rewrite (bind_ok _ _ _ tt (put st o (with_cells V (splice 0 (Some <$> replicate n c) (v_cells V))))).
  2: { rewrite <-Hf. destruct (truth _); [|done]. unfold mbind, Exc_bind. destruct (_M_data o _) as [ [ [d|e] st']|]; [|done..].
       by rewrite Hoff. }
  rewrite <-(length_replicate n c) at 2. apply born_finish; try done.
  - apply good_cells; [done|]. rewrite length_splice; cell_lengths; rewrite ?length_replicate; lia.
  - cbn. apply overwritten. rewrite length_replicate. lia.
  - rewrite length_replicate. cbn. done.
Qed.

(** ** From an input iterator *)

Lemma agrees_snoc cs l c :
  agrees cs l → (length l < length cs)%nat → agrees (splice (length l) [Some c] cs) (l ++ [c]).
Proof.
  intros Hl Hlen i Hi. rewrite length_app in Hi. cbn in Hi. rewrite lookup_splice by (cbn; lia).
  destruct (decide (i < length l)%nat).
  - rewrite lookup_app_l by done. by apply Hl.
  - rewrite decide_True by (cbn; lia). replace i with (length l) by lia.
    rewrite Nat.sub_diag, lookup_app_r, Nat.sub_diag by lia. done.
Qed.

(** What is known of the object while its characters arrive. *)
Record filling (st : state) (V : view) (l : list Z) : Prop := {
  fi_good : good V;
  fi_agrees : agrees (v_cells V) l;
  fi_fits : Z.of_nat (length l) <= v_cap V;
  fi_cap : _S_local_capacity <= v_cap V <= max_size;
  fi_free : ∀ b n, v_block V = Some (b, n) → blocks st !! b = None
}.

(** One more character, where there is room. *)
Lemma filling_snoc {A} st o V l c (k : Exc A) :
  filling st V l → Z.of_nat (length l) < v_cap V →
  ∃ V', (p ← _M_data o; traits_assign (offset p (Z.of_nat (length l))) c;; k) (put st o V) = k (put st o V') ∧
    filling st V' (l ++ [c]) ∧ v_block V' = v_block V.
Proof.
  intros [Hg Hag Hfit Hcap Hfree] Hlt. unfold good in Hg. pose proof (has_put st o V Hg) as HV.
  exists (with_cells V (splice (length l) [Some c] (v_cells V))). split_and!; [|constructor|done].
  - rewrite (bind_ok _ _ _ _ _ (data_run _ _ _ HV)). unfold traits_assign, offset. cbn [fst snd]. rewrite Z.add_0_l.
    rewrite (bind_ok _ _ _ tt _ (write_run _ _ _ HV (length l) [Some c] ltac:(cbn; lia))). by rewrite put_put.
  - apply good_cells; [done|]. apply length_splice. cbn. lia.
  - cbn. apply agrees_snoc; [done|lia].
  - rewrite length_app. unfold v_cap in *. cbn in *. lia.
  - done.
  - done.
Qed.

Lemma construct_local_run st o input : ∀ V l,
  filling st V l → v_block V = None →
  ∃ V' l' rest, _M_construct_local o input (Z.of_nat (length l)) (put st o V) =
      Some (inl (rest, Z.of_nat (length l')), put st o V') ∧
    filling st V' l' ∧ v_block V' = None ∧ l' ++ rest = l ++ input.
Proof.
  induction input as [|c input IH]; intros V l Hf Hb; cbn [_M_construct_local]; [by exists V, l, []|].
  destruct (Z.ltb_spec (Z.of_nat (length l)) _S_local_capacity).
  - destruct (filling_snoc st o V l c (_M_construct_local o input (Z.of_nat (length l) + 1)) Hf) as (V1 & -> & Hf1 & E1).
    { by rewrite (eq_refl : v_cap V = match v_block V with Some (_, n) => n | None => _ end), Hb. }
    replace (Z.of_nat (length l) + 1) with (Z.of_nat (length (l ++ [c]))) by (rewrite length_app; cbn; lia).
    destruct (IH V1 (l ++ [c]) Hf1) as (V' & l' & rest & -> & Hf' & E' & Happ); [congruence|].
    exists V', l', rest. split_and!; [done..|]. by rewrite Happ, <-app_assoc.
  - by exists V, l, (c :: input).
Qed.

Lemma put_released st o V W :
  (∀ b n, v_block V = Some (b, n) → blocks st !! b = None) → put (release (put st o V) V) o W = put st o W.
Proof.
  intros Hb. unfold put, release. cbn. rewrite insert_insert_eq.
  destruct (v_block V) as [ [b n]|]; [|done]. by rewrite delete_insert_id by (by eapply Hb).
Qed.

Lemma put_free st o V b : blocks (put st o V) !! b = None → blocks st !! b = None.
Proof.
  unfold put. destruct (v_block V) as [ [b' n]|]; cbn; [|done]. by intros [? ?]%lookup_insert_None.
Qed.

(** A larger buffer for the characters so far. *)
Lemma filling_grow st o V l :
  filling st V l → Z.of_nat (length l) = v_cap V →
  let r := ('(another, cap) ← _M_create (u32 (Z.of_nat (length l) + 1)) (Z.of_nat (length l));
           p ← _M_data o; _S_copy another p (Z.of_nat (length l));;
           _M_dispose o;; _M_set_data o another;; _M_capacity o cap;; mret cap) (put st o V) in
  r = Some (inr (if max_size <? Z.of_nat (length l) + 1 then length_error else bad_alloc), put st o V) ∨
  ∃ V', r = Some (inl (v_cap V'), put st o V') ∧ filling st V' l ∧ Z.of_nat (length l) < v_cap V'.
Proof.
  intros [Hg Hag Hfit Hcap Hfree] Hfull r. subst r. pose proof max_size_eq as Hmax. unfold good in Hg.
  pose proof (has_put st o V Hg) as HV. unfold _S_local_capacity in Hcap.
  rewrite u32_id by (unfold is_u32; lia).
  pose proof (create_run (put st o V) (Z.of_nat (length l) + 1) (Z.of_nat (length l)) ltac:(lia) ltac:(lia)) as Hcr.
  destruct (Z.ltb_spec max_size (Z.of_nat (length l) + 1)); [left; by rewrite (bind_throws _ _ _ _ _ Hcr)|].
  destruct (refuses _ _); [left; by rewrite (bind_throws _ _ _ _ _ Hcr)|right].
  pose proof (fresh_block_free (put st o V)) as Hb. set (b := fresh_block (put st o V)) in *.
  pose proof (grown_bounds (Z.of_nat (length l) + 1) (Z.of_nat (length l)) ltac:(lia)) as Hgr.
  set (g := grown _ _) in *. set (cs0 := replicate _ None) in Hcr.
  assert (Z.of_nat (length cs0) = g + 1) as Hl0 by (unfold cs0; rewrite length_replicate; lia).
  pose proof (buffer_not_free _ o V b HV Hb) as Hne.
  assert (reads (put st o V) (v_buffer o V, 0) l) as Hr.
  { apply (reads_at st o V 0); [done|lia|]. intros i Hi. by apply Hag. }
  rewrite (bind_ok _ _ _ _ _ Hcr), (bind_ok _ _ _ _ _ (data_run _ _ _ (has_with_block _ o V b cs0 HV Hb))).
  rewrite (bind_ok _ _ _ _ _ (copy_block _ b cs0 0 (v_buffer o V, 0) l (reads_with_block _ _ _ _ _ Hr Hne) Hne ltac:(lia))).
  pose proof (adopt_run (put st o V) o V b g (splice 0 (Some <$> l) cs0) HV ltac:(lia) Hb) as Ha.
  rewrite put_released in Ha by done.
  exists (View (Some (b, g)) (splice 0 (Some <$> l) cs0) (v_len V)). split_and!.
  - revert Ha. unfold mbind, Exc_bind. destruct (_M_dispose o _) as [ [ [?|?] s1]|]; [|done..].
    destruct (_M_set_data o _ s1) as [ [ [?|?] s2]|]; [|done..]. by intros ->.
  - constructor; cbn; [unfold good; cbn; cell_lengths; lia|apply overwritten; lia|lia|unfold _S_local_capacity; lia|].
    intros b' n' [= <- <-]. by apply (put_free st o V).
  - cbn. lia.
Qed.

Lemma construct_more_run st o input : ∀ V l,
  filling st V l →
  let r := _M_construct_more o input (Z.of_nat (length l)) (v_cap V) (put st o V) in
  ∃ V' l', filling st V' l' ∧
    ((r = Some (inl (Z.of_nat (length (l ++ input))), put st o V') ∧ l' = l ++ input) ∨
     ∃ e, r = Some (inr e, put st o V') ∧ failure (l ++ input) e).
Proof.
  pose proof max_size_eq as Hmax. induction input as [|c input IH]; intros V l Hf r; subst r; cbn [_M_construct_more].
  { exists V, l. rewrite app_nil_r. auto. }
  assert (∀ V1, filling st V1 l → Z.of_nat (length l) < v_cap V1 → ∃ V' l', filling st V' l' ∧
    let r := (p ← _M_data o; traits_assign (offset p (Z.of_nat (length l))) c;;
      _M_construct_more o input (u32 (Z.of_nat (length l) + 1)) (v_cap V1)) (put st o V1) in
    ((r = Some (inl (Z.of_nat (length (l ++ c :: input))), put st o V') ∧ l' = l ++ c :: input) ∨
     ∃ e, r = Some (inr e, put st o V') ∧ failure (l ++ c :: input) e)) as Hstep.
  { intros V1 Hf1 Hlt. pose proof (fi_cap _ _ _ Hf1) as Hcap.
    destruct (filling_snoc st o V1 l c (_M_construct_more o input (u32 (Z.of_nat (length l) + 1)) (v_cap V1)) Hf1 Hlt) as (V2 & -> & Hf2 & E2).
    replace (u32 (Z.of_nat (length l) + 1)) with (Z.of_nat (length (l ++ [c])))
      by (rewrite u32_id, length_app; unfold is_u32; cbn; lia).
    replace (v_cap V1) with (v_cap V2) by (unfold v_cap; by rewrite E2).
    replace (l ++ c :: input) with ((l ++ [c]) ++ input) by (by rewrite <-app_assoc). by apply IH. }
  destruct (Z.eqb_spec (Z.of_nat (length l)) (v_cap V)) as [Hfull|Hroom].
  - destruct (filling_grow st o V l Hf Hfull) as [Hg|(V1 & Hg & Hf1 & Hlt)].
    + exists V, l. split; [done|right]. eexists. split; [by rewrite (bind_throws _ _ _ _ _ Hg)|]. unfold failure.
      destruct (Z.ltb_spec max_size (Z.of_nat (length l) + 1)); [right|by left]. split; [done|].
      rewrite length_app. cbn. lia.
    + rewrite (bind_ok _ _ _ _ _ Hg). by apply Hstep.
  - rewrite bind_ret. apply Hstep; [done|]. pose proof (fi_fits _ _ _ Hf). lia.
Qed.

Lemma new_input_run st o input : strings st !! o = None → birth st o input (new_input o input st).
Proof.
  intros Ho. apply construct_run; [done|]. unfold _M_construct_input.
  assert (filling st blank []) as Hf0 by (constructor; try done; apply agrees_nil).
  destruct (construct_local_run st o input blank [] Hf0 eq_refl) as (V1 & l1 & rest & Hr1 & Hf1 & E1 & Happ).
  cbn in Happ. rewrite (bind_ok _ _ _ _ _ Hr1).
  destruct (construct_more_run st o rest V1 l1 Hf1) as (V' & l' & [Hg Hag Hfit Hcap Hfree] & Hcase).
  assert (v_cap V1 = _S_local_capacity) as Hc by (unfold v_cap; by rewrite E1).
  rewrite Hc, Happ in Hcase. unfold _S_local_capacity in Hcap. pose proof max_size_eq. destruct Hcase as [ [Hr ->]|(e & Hr & He)].
  - rewrite (bind_ok _ _ _ (Z.of_nat (length input)) (put st o V')) by (unfold catch; by rewrite Hr).
    by apply born_finish.
  - right. exists e, (release (put st o V') V'). split_and!; [|done| |].
    + rewrite (bind_throws _ _ _ e (release (put st o V') V')); [done|]. unfold catch. rewrite Hr.
      by rewrite (bind_ok _ _ _ _ _ (dispose_run _ o V' (has_put st o V' Hg) ltac:(lia))).
    + cbn. by rewrite delete_insert_id.
    + unfold release, put. cbn. destruct (v_block V') as [ [b n]|]; [|done]. by rewrite delete_insert_id by (by eapply Hfree).
Qed.

End life.
