(* ===== verification/StdStringMove.v ===== *)
(** * Destruction, moving and exchanging strings *)
From stdpp Require Import base numbers list gmap.
From Stdlib Require Import ZArith Lia.
From S2P Require Import Prelude StdString StdStringView StdStringInPlace StdStringOps StdStringLife.

Section move.
Context `{Allocator}.

(** * Destruction *)

Lemma destroy_run st o V l :
  has st o V → shows V l →
  destroy o st = Some (inl tt, State (delete o (strings st)) (blocks (release st V))).
Proof.
  intros HV Hsh. pose proof (sizes V l Hsh). unfold destroy.
  by rewrite (bind_ok _ _ _ _ _ (dispose_run st o V HV ltac:(rewrite max_size_eq; lia))).
Qed.

(** * Two objects *)

Lemma local_length V l o : shows V l → length (local_cells (v_object o V)) = 16%nat.
Proof.
  intros Hsh. unfold local_cells, v_object. pose proof (sh_good _ _ Hsh) as Hg. unfold good, v_cap in Hg. cbn.
  destruct (v_block V) as [ [b n]|]; [done|]. unfold _S_local_capacity in Hg. lia.
Qed.

(** All sixteen characters of a local buffer. *)
Lemma read_local_run st s y :
  strings st !! s = Some y → length (local_cells y) = 16%nat →
  read_cells (Local s, 0) (_S_local_capacity + 1) st = Some (inl (local_cells y), st).
Proof.
  intros Hs Hy. unfold read_cells. cbn [fst snd cells]. rewrite Hs. cbn. unfold in_buffer. rewrite Hy. cbn.
  rewrite drop_0, firstn_all2; [done|unfold _S_local_capacity; lia].
Qed.

Lemma write_local_run st d x l :
  strings st !! d = Some x → length (local_cells x) = 16%nat → length l = 16%nat →
  write_cells (Local d, 0) l st =
  Some (inl tt, State (<[d := String (_M_p x) (_M_string_length x) (_M_local_buf l)]> (strings st)) (blocks st)).
Proof.
  intros Hd Hx Hl. pose proof (write_local st d x 0 l Hd ltac:(lia)) as Hw. unfold splice in Hw. cbn [take app] in Hw.
  by rewrite drop_ge, app_nil_r in Hw by lia.
Qed.

Lemma copy_local_run st d s x y :
  strings st !! d = Some x → strings st !! s = Some y → d ≠ s →
  length (local_cells x) = 16%nat → length (local_cells y) = 16%nat →
  traits_copy (Local d, 0) (Local s, 0) (_S_local_capacity + 1) st =
  Some (inl tt, State (<[d := String (_M_p x) (_M_string_length x) (_M_local_buf (local_cells y))]> (strings st)) (blocks st)).
Proof.
  intros Hd Hs Hne Hx Hy. unfold traits_copy, memcpy, overlap. cbn [fst snd].
  rewrite bool_decide_eq_false_2 by congruence. change (_S_local_capacity + 1 =? 0) with false. cbn [andb]. unfold memmove.
  rewrite (bind_ok _ _ _ _ _ (read_local_run st s y Hs Hy)). by apply write_local_run.
Qed.

(** * Steps on the objects of a state *)

Section steps.
Context (ss : gmap nat basic_string) (bs : gmap nat (list cell)) (o : nat) (x : basic_string).
Context (Hx : ss !! o = Some x).

Lemma set_data_step p :
  _M_set_data o p (State ss bs) = Some (inl tt, State (<[o := String p (_M_string_length x) (_M_union x)]> ss) bs).
Proof using Hx. unfold _M_set_data, this_string, set_string, mbind, Exc_bind. cbn. by rewrite Hx. Qed.

Lemma length_step n :
  _M_length o n (State ss bs) = Some (inl tt, State (<[o := String (_M_p x) n (_M_union x)]> ss) bs).
Proof using Hx. unfold _M_length, this_string, set_string, mbind, Exc_bind. cbn. by rewrite Hx. Qed.

Lemma capacity_step n :
  _M_capacity o n (State ss bs) =
  Some (inl tt, State (<[o := String (_M_p x) (_M_string_length x) (_M_allocated_capacity n)]> ss) bs).
Proof using Hx. unfold _M_capacity, this_string, set_string, mbind, Exc_bind. cbn. by rewrite Hx. Qed.

Lemma data_step : _M_data o (State ss bs) = Some (inl (_M_p x), State ss bs).
Proof using Hx. unfold _M_data, this_string, mbind, Exc_bind. cbn. by rewrite Hx. Qed.

Lemma size_step : size o (State ss bs) = Some (inl (_M_string_length x), State ss bs).
Proof using Hx. unfold size, this_string, mbind, Exc_bind. cbn. by rewrite Hx. Qed.

Lemma is_local_step : _M_is_local o (State ss bs) = Some (inl (bool_decide (_M_p x = (Local o, 0))), State ss bs).
Proof using Hx. unfold _M_is_local. by rewrite (bind_ok _ _ _ _ _ data_step). Qed.

Lemma allocated_step n :
  _M_union x = _M_allocated_capacity n → allocated_capacity o (State ss bs) = Some (inl n, State ss bs).
Proof using Hx. intros E. unfold allocated_capacity, this_string, mbind, Exc_bind. cbn. rewrite Hx. cbn. by rewrite E. Qed.

(** Shortening a local string to nothing. *)
Definition emptied (l : list cell) : list cell := splice 0 [Some 0] l.

Lemma set_length_step :
  _M_p x = (Local o, 0) → length (local_cells x) = 16%nat →
  _M_set_length o 0 (State ss bs) =
  Some (inl tt, State (<[o := String (Local o, 0) 0 (_M_local_buf (emptied (local_cells x)))]> ss) bs).
Proof using Hx.
  intros Hp Hl. unfold _M_set_length. rewrite (bind_ok _ _ _ _ _ (length_step 0)).
  set (x' := String (_M_p x) 0 (_M_union x)). unfold _M_data, this_string, mbind, Exc_bind. cbn.
  rewrite lookup_insert_eq. cbn. rewrite Hp. unfold traits_assign, offset. cbn [fst snd Z.add].
  rewrite (write_local (State (<[o := x']> ss) bs) o x' 0 [Some 0]); [|apply lookup_insert_eq|].
  - cbn. rewrite insert_insert_eq, Hp. done.
  - change (local_cells x') with (local_cells x). rewrite Hl. cbn. lia.
Qed.

Lemma set_length_block_step b cs :
  _M_p x = (Block b, 0) → bs !! b = Some cs → (0 < length cs)%nat →
  _M_set_length o 0 (State ss bs) =
  Some (inl tt, State (<[o := String (Block b, 0) 0 (_M_union x)]> ss) (<[b := splice 0 [Some 0] cs]> bs)).
Proof using Hx.
  intros Hp Hb Hl. unfold _M_set_length. rewrite (bind_ok _ _ _ _ _ (length_step 0)).
  unfold _M_data, this_string, mbind, Exc_bind. cbn. rewrite lookup_insert_eq. cbn. rewrite Hp.
  pose proof (write_block (State (<[o := String (Block b, 0) 0 (_M_union x)]> ss) bs) b cs 0 [Some 0] ltac:(cbn; lia)) as Hw.
  unfold with_block in Hw. cbn [strings blocks] in Hw. by rewrite (insert_id bs) in Hw.
Qed.

End steps.

End move.

Lemma bind_assoc {A B C} (c : Exc A) (k : A → Exc B) (k' : B → Exc C) st :
  ((c ≫= k) ≫= k') st = (c ≫= λ a, k a ≫= k') st.
Proof. unfold mbind, Exc_bind. by destruct (c st) as [ [ [a|e] st']|]. Qed.

(** Looks an object up after the changes so far. *)
Ltac look :=
  cbn [strings blocks];
  repeat first [ rewrite lookup_insert_eq | rewrite lookup_insert_ne by congruence ];
  (reflexivity || eassumption).

Ltac obj_lemma :=
  first
    [ eapply set_data_step; look | eapply length_step; look | eapply capacity_step; look
    | eapply data_step; look | eapply size_step; look | eapply is_local_step; look
    | eapply allocated_step; [look|reflexivity]
    | eapply copy_local_run; [look|look|congruence|first [assumption|reflexivity]..]
    | eapply read_local_run; [look|first [assumption|reflexivity] ]
    | eapply write_local_run; [look|first [assumption|reflexivity]..]
    | eapply set_length_step; [look|reflexivity|first [assumption|reflexivity] ] ].

(** One step of a function on objects. *)
Ltac obj_step :=
  cbn [_M_p _M_string_length _M_union]; rewrite ?bind_assoc, ?bind_ret; cbv beta iota; rewrite ?bind_assoc;
  first [ erewrite bind_ok; [|obj_lemma] | etransitivity; [obj_lemma|] ]; cbv beta iota.

(** The objects after all changes. *)
Ltac same_objects o s :=
  do 3 f_equal; apply map_eq; intros i;
  destruct (decide (i = o)) as [->|]; [|destruct (decide (i = s)) as [->|] ];
  cbn [strings blocks]; repeat first [ rewrite lookup_insert_eq | rewrite lookup_insert_ne by congruence ]; try reflexivity.

Section exchange.
Context `{Allocator}.

(** Another view for each of two objects. *)
Definition put2 (st : state) (o : nat) (V : view) (s : nat) (W : view) : state := put (put st s W) o V.

(** The same blocks with the same cells. *)
Lemma put2_exchanged ss bs o V s W x y :
  (∀ b n, v_block V = Some (b, n) → bs !! b = Some (v_cells V)) →
  (∀ b n, v_block W = Some (b, n) → bs !! b = Some (v_cells W)) →
  o ≠ s → x = v_object o W → y = v_object s V →
  State (<[s := y]> (<[o := x]> ss)) bs = put2 (State ss bs) o W s V.
Proof.
  intros HV HW Hne -> ->. unfold put2, put. cbn. rewrite insert_insert_ne by done. f_equal.
  destruct (v_block V) as [ [b n]|]; destruct (v_block W) as [ [b' n']|];
    rewrite ?(insert_id bs); try done; (by eapply HV) || (by eapply HW) || idtac.
Qed.

Local Ltac start_two EV EW :=
  match goal with
  | HV : has (State ?ss ?bs) ?o ?V, HW : has (State ?ss ?bs) ?s ?W, Hne : ?o ≠ ?s |- _ =>
      destruct HV as (Ho & _ & HbV), HW as (Hs & _ & HbW); cbn [strings blocks] in *;
      try rewrite <-(put2_exchanged ss bs o V s W _ _ HbV HbW Hne eq_refl eq_refl);
      destruct (v_block V) as [ [b n]|] eqn:E; try congruence; destruct (v_block W) as [ [b' n']|] eqn:E'; try congruence;
      unfold v_object, v_buffer in *; rewrite E, E' in *; cbn [strings blocks] in *;
      unfold swap; rewrite (proj2 (Nat.eqb_neq _ _)) by done; do 4 obj_step
  end.

Section two.
Context (ss : gmap nat basic_string) (bs : gmap nat (list cell)) (o s : nat) (V W : view).
Context (HV : has (State ss bs) o V) (HW : has (State ss bs) s W) (Hne : o ≠ s).
Context (HcV : length (local_cells (v_object o V)) = 16%nat) (HcW : length (local_cells (v_object s W)) = 16%nat).

Lemma swap_blocks :
  v_block V ≠ None → v_block W ≠ None →
  swap o s (State ss bs) = Some (inl tt, put2 (State ss bs) o W s V).
Proof using HV HW Hne HcV HcW.
  intros EV EW. start_two EV EW. rewrite !bool_decide_eq_false_2 by congruence. cbv beta iota.
  repeat obj_step. same_objects o s.
Qed.

Lemma swap_from_local :
  v_block V = None → v_block W ≠ None →
  swap o s (State ss bs) = Some (inl tt, put2 (State ss bs) o W s V).
Proof using HV HW Hne HcV HcW.
  intros EV EW. start_two EV EW.
  rewrite bool_decide_eq_true_2, bool_decide_eq_false_2 by congruence. cbv beta iota.
  repeat obj_step. same_objects o s.
Qed.

Lemma swap_to_local :
  v_block V ≠ None → v_block W = None →
  swap o s (State ss bs) = Some (inl tt, put2 (State ss bs) o W s V).
Proof using HV HW Hne HcV HcW.
  intros EV EW. start_two EV EW.
  rewrite bool_decide_eq_false_2, bool_decide_eq_true_2 by congruence. cbv beta iota.
  repeat obj_step. same_objects o s.
Qed.

Lemma swap_locals :
  v_block V = None → v_block W = None → v_len V ≠ 0 → v_len W ≠ 0 →
  swap o s (State ss bs) = Some (inl tt, put2 (State ss bs) o W s V).
Proof using HV HW Hne HcV HcW.
  intros EV EW HlV HlW. start_two EV EW. rewrite !bool_decide_eq_true_2 by congruence. cbv beta iota.
  cbn [_M_string_length] in *. unfold truth. rewrite !(proj2 (Z.eqb_neq _ 0)) by done. cbn [negb andb].
  repeat obj_step. same_objects o s.
Qed.

(** Where one of two local strings is empty, only the other one's characters are copied. *)
Definition empty_local (V : view) : view := View None (emptied (v_cells V)) 0.

Lemma swap_local_empty :
  v_block V = None → v_block W = None → v_len V = 0 → v_len W ≠ 0 →
  swap o s (State ss bs) = Some (inl tt, put2 (State ss bs) o W s (empty_local W)).
Proof using HV HW Hne HcV HcW.
  intros EV EW HlV HlW. start_two EV EW. rewrite !bool_decide_eq_true_2 by congruence. cbv beta iota.
  cbn [_M_string_length] in *. unfold truth. rewrite HlV, (proj2 (Z.eqb_neq (v_len W) 0)) by done. cbn [negb andb Z.eqb].
  repeat obj_step. unfold put2, put, v_object, v_buffer. cbn. rewrite E'. same_objects o s.
Qed.

Lemma swap_local_to_empty :
  v_block V = None → v_block W = None → v_len V ≠ 0 → v_len W = 0 →
  swap o s (State ss bs) = Some (inl tt, put2 (State ss bs) o (empty_local V) s V).
Proof using HV HW Hne HcV HcW.
  intros EV EW HlV HlW. start_two EV EW. rewrite !bool_decide_eq_true_2 by congruence. cbv beta iota.
  cbn [_M_string_length] in *. unfold truth. rewrite HlW, (proj2 (Z.eqb_neq (v_len V) 0)) by done. cbn [negb andb Z.eqb].
  repeat obj_step. unfold put2, put, v_object, v_buffer. cbn. rewrite E. same_objects o s.
Qed.

Lemma swap_empties :
  v_block V = None → v_block W = None → v_len V = 0 → v_len W = 0 →
  swap o s (State ss bs) = Some (inl tt, put2 (State ss bs) o V s W).
Proof using HV HW Hne HcV HcW.
  intros EV EW HlV HlW. start_two EV EW. rewrite !bool_decide_eq_true_2 by congruence. cbv beta iota.
  cbn [_M_string_length] in *. unfold truth. rewrite HlV, HlW. cbn [negb andb Z.eqb].
  repeat obj_step. unfold put2, put, v_object, v_buffer. cbn. rewrite E, E', HlV, HlW. same_objects o s; congruence.
Qed.

End two.

Lemma shows_emptied V l : shows V l → v_block V = None → shows (empty_local V) [].
Proof.
  intros Hsh E. pose proof (sizes V l Hsh) as (_ & _ & Hl). unfold v_cap, _S_local_capacity in Hl. rewrite E in Hl.
  constructor; cbn [v_len length empty_local].
  - unfold good, empty_local, emptied, v_cap, _S_local_capacity. cbn [v_cells v_block]. rewrite length_splice; cbn; lia.
  - apply agrees_nil.
  - done.
  - done.
  - done.
  - cbn. unfold emptied. rewrite lookup_splice by (cbn; lia). done.
Qed.

Lemma shows_zero V l : shows V l → v_len V = 0 → l = [].
Proof. intros Hsh E. rewrite (sh_len _ _ Hsh) in E. by destruct l. Qed.

(** The strings after the exchange, each with the other one's block. *)
Lemma swap_run st o V l s W l' :
  has st o V → shows V l → has st s W → shows W l' → o ≠ s →
  ∃ V' W', swap o s st = Some (inl tt, put2 st o V' s W') ∧
    shows V' l' ∧ shows W' l ∧ v_block V' = v_block W ∧ v_block W' = v_block V.
Proof.
  intros HV HshV HW HshW Hne. destruct st as [ss bs].
  pose proof (local_length V l o HshV) as HcV. pose proof (local_length W l' s HshW) as HcW.
  destruct (v_block V) as [bV|] eqn:EV, (v_block W) as [bW|] eqn:EW.
  1-3: exists W, V; split_and!; [|done..]; 
    first [apply swap_blocks; (assumption || congruence)|apply swap_to_local; (assumption || congruence)
      |apply swap_from_local; (assumption || congruence)].
  destruct (decide (v_len V = 0)) as [E|E], (decide (v_len W = 0)) as [E'|E'].
  - pose proof (shows_zero _ _ HshV E) as ->. pose proof (shows_zero _ _ HshW E') as ->.
    exists V, W. split_and!; [by apply swap_empties|done..].
  - pose proof (shows_zero _ _ HshV E) as ->. exists W, (empty_local W).
    split_and!; [by apply (swap_local_empty ss bs o s V W)|done|by apply (shows_emptied W l')|done..].
  - pose proof (shows_zero _ _ HshW E') as ->. exists (empty_local V), V.
    split_and!; [by apply (swap_local_to_empty ss bs o s V W)|by apply (shows_emptied V l)|done..].
  - exists W, V. split_and!; [by apply swap_locals|done..].
Qed.

(** * Moving *)

Lemma blocks_insert_id (bs : gmap nat (list cell)) V :
  (∀ b n, v_block V = Some (b, n) → bs !! b = Some (v_cells V)) →
  match v_block V with Some (b, _) => <[b := v_cells V]> bs | None => bs end = bs.
Proof. intros Hb. destruct (v_block V) as [ [b n]|]; [|done]. by rewrite insert_id by (by eapply Hb). Qed.

(** What remains of a string whose buffer another one has taken. *)
Definition left_local : view := View None (emptied (replicate 16 None)) 0.

Lemma shows_left : shows left_local [].
Proof. constructor; try done. apply agrees_nil. Qed.

Lemma construct_ok ss bs o body st' :
  ss !! o = None → body (State (<[o := v_object o blank]> ss) bs) = Some (inl tt, st') →
  construct o body (State ss bs) = Some (inl tt, st').
Proof.
  intros Ho Hr. unfold construct. cbn [strings blocks]. rewrite Ho.
  change (String (_M_local_data o) 0 _) with (v_object o blank). by rewrite Hr.
Qed.

Lemma new_move_run st o str W l :
  strings st !! o = None → has st str W → shows W l →
  ∃ V' W', new_move o str st = Some (inl tt, put2 st o V' str W') ∧
    shows V' l ∧ shows W' [] ∧ v_block V' = v_block W ∧ v_block W' = None.
Proof.
  intros Ho HW Hsh. destruct st as [ss bs]. pose proof (local_length W l str Hsh) as Hl.
  destruct HW as (Hs & _ & HbW). cbn [strings blocks] in *. pose proof (blocks_insert_id bs W HbW) as Hid.
  assert (o ≠ str) as Hne by congruence. pose proof (eq_refl : length (local_cells (v_object o blank)) = 16%nat) as Hl0.
  destruct (v_block W) as [ [b n]|] eqn:E; [exists W, left_local|exists W, (empty_local W)];
    (split_and!; [apply construct_ok; [done|]|done|first [apply shows_left|by apply (shows_emptied W l)]|done..]);
    unfold put2, put; cbn [strings blocks v_block left_local empty_local]; rewrite E, ?Hid;
    unfold v_object, v_buffer in *; rewrite E in *; obj_step; cbn [_M_p];
    [rewrite bool_decide_eq_false_2 by congruence|rewrite bool_decide_eq_true_2 by congruence]; cbv beta iota;
    cbn [v_block blank left_local empty_local] in *; repeat obj_step; same_objects o str.
Qed.

(** ** Move assignment *)

Lemma put_comm st o V s W :
  o ≠ s → (∀ b n b' n', v_block V = Some (b, n) → v_block W = Some (b', n') → b ≠ b') →
  put (put st o V) s W = put2 st o V s W.
Proof.
  intros Hne Hb. unfold put2, put. cbn. rewrite insert_insert_ne by done. f_equal.
  destruct (v_block V) as [ [b n]|]; destruct (v_block W) as [ [b' n']|]; try done.
  rewrite insert_insert_ne; [done|]. intros ->. by eapply Hb.
Qed.

(** From a local string the characters are copied. *)
Lemma assign_move_local st o V l str W l' :
  has st o V → shows V l → has st str W → shows W l' → o ≠ str → v_block W = None →
  ∃ V', assign_move o str st = Some (inl tt, put2 st o V' str (empty_local W)) ∧
    shows V' l' ∧ v_block V' = v_block V.
Proof.
  intros HV Hsh HW HshW Hne E. pose proof (sizes V l Hsh) as (Hs1 & Hs2 & Hs3). pose proof (sizes W l' HshW) as (Hw1 & Hw2 & Hw3).
  assert (v_cap W = 15) as HcW by (unfold v_cap; by rewrite E). pose proof max_size_eq.
  assert (v_buffer str W ≠ v_buffer o V) as Hbuf.
  { unfold v_buffer. rewrite E. destruct (v_block V) as [ [? ?]|]; congruence. }
  unfold assign_move. rewrite (bind_ok _ _ _ _ _ (is_local_run _ _ _ HW)), bool_decide_eq_true_2 by done. cbv beta iota.
  rewrite !bind_assoc, (bind_ok _ _ _ _ _ (string_size_run _ _ _ HW)), (sh_len _ _ HshW).
  pose proof (assign_copy st o V str W l' (sh_good _ _ Hsh) Hne) as Hc. rewrite (put_same st o V HV) in Hc.
  rewrite bind_assoc, (bind_ok _ _ _ _ _ (Hc HW HshW Hbuf ltac:(lia))).
  set (V1 := with_cells V _).
  assert (has (put st o V1) str W) as HW1 by (by apply (has_other st o V V1 _ str W HW); [..|apply updates_in_place]).
  rewrite bind_assoc, (bind_ok _ _ _ _ _ (string_size_run _ _ _ HW1)), (sh_len _ _ HshW).
  destruct (finish st o V1 l') as (V' & Hf & Hsh' & E').
  { apply good_cells; [apply Hsh|]. apply length_splice. cell_lengths. lia. }
  { apply overwritten. lia. }
  { unfold V1, v_cap in *. cbn in *. lia. }
  { apply Hsh. }
  rewrite (bind_ok _ _ _ _ _ Hf). exists V'. split; [|done].
  assert (has (put st o V') str W) as HW2 by (by apply (has_other st o V V' _ str W HW); [..|apply updates_in_place]).
  unfold clear. rewrite <-(put_same _ str W HW2), (put_set_length _ str W (proj1 (proj2 HW)) 0) by lia.
  rewrite E. change (View None _ _) with (empty_local W). by rewrite put_comm.
Qed.

(** From an allocated one its buffer is taken, and it gets the other one's. *)
Definition handed_over (V : view) : view :=
  match v_block V with
  | Some _ => View (v_block V) (splice 0 [Some 0] (v_cells V)) 0
  | None => left_local
  end.

Lemma shows_handed V l : shows V l → shows (handed_over V) [].
Proof.
  intros Hsh. pose proof (sizes V l Hsh) as (Hs1 & Hs2 & Hs3). unfold handed_over.
  destruct (v_block V) as [ [b n]|] eqn:E; [|apply shows_left]. unfold v_cap in Hs2, Hs3. rewrite E in Hs2, Hs3.
  constructor; cbn [v_len length v_cells]; unfold good, v_cap; cbn [v_block v_cells].
  - rewrite length_splice; [done|cbn; lia].
  - apply agrees_nil.
  - done.
  - cbn; lia.
  - rewrite max_size_eq. unfold _S_local_capacity. lia.
  - rewrite lookup_splice by (cbn; lia). done.
Qed.

Lemma assign_move_block st o V l str W :
  has st o V → shows V l → has st str W → o ≠ str → v_block W ≠ None →
  (∀ b n b' n', v_block W = Some (b, n) → v_block V = Some (b', n') → b ≠ b') →
  assign_move o str st = Some (inl tt, put2 st o W str (handed_over V)).
Proof.
  intros HV Hsh HW Hne EW Hbs. destruct st as [ss bs]. pose proof (local_length V l o Hsh) as Hl.
  pose proof (sizes V l Hsh) as (_ & Hs2 & Hs3).
  destruct HV as (Ho & _ & HbV), HW as (Hs & _ & HbW). cbn [strings blocks] in *.
  pose proof (blocks_insert_id bs W HbW) as HidW. unfold handed_over.
  destruct (v_block W) as [ [b n]|] eqn:E; [|done]. unfold v_object, v_buffer in Ho, Hs. rewrite E in Hs.
  unfold assign_move, clear. obj_step. cbn [_M_p]. rewrite bool_decide_eq_false_2 by congruence. cbv beta iota.
  destruct (v_block V) as [ [b' n']|] eqn:E'; obj_step; cbn [_M_p].
  - rewrite bool_decide_eq_false_2 by congruence. cbv beta iota. unfold v_cap in Hs2, Hs3. rewrite E' in Hs2, Hs3.
    do 10 obj_step. etransitivity.
    { eapply set_length_block_step; [look|reflexivity|by eapply HbV|lia]. }
    unfold put2, put, v_object, v_buffer. cbn. rewrite E, (insert_insert_ne bs b b') by (exact (Hbs _ _ _ _ eq_refl eq_refl)). rewrite HidW.
    same_objects o str.
  - rewrite bool_decide_eq_true_2 by congruence. cbv beta iota. repeat obj_step.
    unfold put2, put, v_object, v_buffer. cbn. rewrite E, HidW. same_objects o str.
Qed.

(** The string takes the characters, and the other one is empty; between them they have the
    same blocks as before. *)
Lemma assign_move_run st o V l str W l' :
  has st o V → shows V l → has st str W → shows W l' → o ≠ str →
  (∀ b n b' n', v_block W = Some (b, n) → v_block V = Some (b', n') → b ≠ b') →
  ∃ V' W', assign_move o str st = Some (inl tt, put2 st o V' str W') ∧ shows V' l' ∧ shows W' [] ∧
    ((v_block V' = v_block V ∧ v_block W' = v_block W) ∨ (v_block V' = v_block W ∧ v_block W' = v_block V)).
Proof.
  intros HV Hsh HW HshW Hne Hbs. destruct (v_block W) as [p|] eqn:E.
  - exists W, (handed_over V). split_and!; [|done|by eapply shows_handed|right].
    + apply (assign_move_block st o V l); rewrite ?E; done.
    + unfold handed_over. destruct (v_block V) eqn:E'; rewrite ?E; done.
  - destruct (assign_move_local st o V l str W l') as (V' & Hr & Hsh' & E'); [done..|].
    exists V', (empty_local W). split_and!; [done|done|by apply (shows_emptied W l')|left]. done.
Qed.

End exchange.
