(* ===== verification/StdStringMemory.v ===== *)
(** * The memory of a program with strings: every block has one owner

    A program has strings and arrays of its own. Each block of memory is one of the arrays or
    the buffer of exactly one string. Objects come and go, and every change of
    [StdStringOps], [StdStringLife] and [StdStringMove] is made of that. *)
From stdpp Require Import base numbers list gmap.
From Stdlib Require Import ZArith Lia.
From S2P Require Import Prelude StdString StdStringView StdStringInPlace StdStringOps StdStringLife StdStringMove.

(** The views of all objects, and the arrays of the program. *)
Record store (st : state) (A : gmap nat (list cell)) (Vs : gmap nat view) : Prop := {
  st_objects : ∀ o, strings st !! o = v_object o <$> Vs !! o;
  st_blocks : ∀ o V b n, Vs !! o = Some V → v_block V = Some (b, n) → blocks st !! b = Some (v_cells V);
  st_unique : ∀ o V o' V' b n n',
    Vs !! o = Some V → Vs !! o' = Some V' → v_block V = Some (b, n) → v_block V' = Some (b, n') → o = o';
  st_arrays : ∀ b cs, A !! b = Some cs → blocks st !! b = Some cs;
  st_apart : ∀ b cs o V n, A !! b = Some cs → Vs !! o = Some V → v_block V ≠ Some (b, n);
  st_no_leak : ∀ b cs, blocks st !! b = Some cs →
    A !! b = Some cs ∨ ∃ o V n, Vs !! o = Some V ∧ v_block V = Some (b, n)
}.

Lemma store_has st A Vs o V : store st A Vs → Vs !! o = Some V → good V → has st o V.
Proof.
  intros Hst HV Hg. split_and!; [by rewrite (st_objects _ _ _ Hst), HV|done|]. intros b n. by eapply st_blocks.
Qed.

Lemma store_absent st A Vs o : store st A Vs → Vs !! o = None → strings st !! o = None.
Proof. intros Hst Ho. by rewrite (st_objects _ _ _ Hst), Ho. Qed.

(** Nothing is left once all objects are gone. *)
Lemma store_empty st A : store st A ∅ → st = State ∅ A.
Proof.
  intros [Hs _ _ Ha _ Hn]. destruct st as [ss bs]. cbn in *. f_equal; apply map_eq; intros i.
  - by rewrite Hs, !lookup_empty.
  - destruct (bs !! i) as [cs|] eqn:E.
    + destruct (Hn _ _ E) as [?|(o & V & n & HV & _)]; [done|]. by rewrite lookup_empty in HV.
    + destruct (A !! i) as [cs|] eqn:E'; [|done]. by rewrite (Ha _ _ E') in E.
Qed.

Lemma store_init A : store (State ∅ A) A ∅.
Proof. split; try done; auto. Qed.

(** An object comes into being, with a block that nobody has. *)
Lemma store_born st A Vs o V :
  store st A Vs → Vs !! o = None → (∀ b n, v_block V = Some (b, n) → blocks st !! b = None) →
  store (put st o V) A (<[o := V]> Vs).
Proof.
  intros [Hs Hb Hu Ha Hap Hn] Ho Hfree.
  assert (∀ b cs, blocks st !! b = Some cs → blocks (put st o V) !! b = Some cs) as Hkeep.
  { intros b cs E. unfold put. destruct (v_block V) as [ [b' n]|] eqn:E'; [|done]. cbn.
    rewrite lookup_insert_ne; [done|]. intros ->. rewrite (Hfree _ _ eq_refl) in E. done. }
  split.
  - intros o'. cbn. destruct (decide (o' = o)) as [->|]; [by rewrite !lookup_insert_eq|by rewrite !lookup_insert_ne].
  - intros o' V' b n [ [<- <-]|[_ HV'] ]%lookup_insert_Some E; [|by eapply Hkeep, Hb].
    unfold put. rewrite E. apply lookup_insert_eq.
  - intros o1 V1 o2 V2 b n n' [ [<- <-]|[_ H1] ]%lookup_insert_Some [ [<- <-]|[_ H2] ]%lookup_insert_Some E1 E2;
      [done|exfalso..|by eapply Hu].
    + pose proof (Hb _ _ _ _ H2 E2). rewrite (Hfree _ _ E1) in *. done.
    + pose proof (Hb _ _ _ _ H1 E1). rewrite (Hfree _ _ E2) in *. done.
  - intros b cs E. by apply Hkeep, Ha.
  - intros b cs o' V' n E [ [<- <-]|[_ HV'] ]%lookup_insert_Some E'; [|by eapply Hap].
    pose proof (Ha _ _ E). rewrite (Hfree _ _ E') in *. done.
  - intros b cs E. unfold put in E. destruct (v_block V) as [ [b' n]|] eqn:E'; cbn in E.
    + apply lookup_insert_Some in E as [ [<- _]|[_ E] ].
      { right. exists o, V, n. by rewrite lookup_insert_eq. }
      destruct (Hn _ _ E) as [?|(o' & V' & n' & HV' & ?)]; [by left|right]. exists o', V', n'.
      rewrite lookup_insert_ne by congruence. done.
    + destruct (Hn _ _ E) as [?|(o' & V' & n' & HV' & ?)]; [by left|right]. exists o', V', n'.
      rewrite lookup_insert_ne by congruence. done.
Qed.

(** The state without an object and its block. *)
Definition gone (st : state) (o : nat) (V : view) : state := State (delete o (strings st)) (blocks (release st V)).

Lemma release_lookup st V b cs :
  blocks (release st V) !! b = Some cs ↔ blocks st !! b = Some cs ∧ ∀ n, v_block V ≠ Some (b, n).
Proof.
  unfold release. destruct (v_block V) as [ [b' n]|]; cbn.
  2: { split; [intros ?; split; [done|congruence]|by intros [? _] ]. }
  rewrite lookup_delete_Some. split.
  - intros [Hne ?]. split; [done|]. congruence.
  - intros [? Hne]. split; [|done]. intros ->. by eapply Hne.
Qed.

Lemma store_gone st A Vs o V : store st A Vs → Vs !! o = Some V → store (gone st o V) A (delete o Vs).
Proof.
  intros [Hs Hb Hu Ha Hap Hn] Ho. split.
  - intros o'. cbn. destruct (decide (o' = o)) as [->|]; [by rewrite !lookup_delete_eq|by rewrite !lookup_delete_ne].
  - intros o' V' b n [Hne HV']%lookup_delete_Some E. apply release_lookup. split; [by eapply Hb|].
    intros n' E'. apply Hne. by eapply (Hu o V o' V').
  - intros o1 V1 o2 V2 b n n' [_ H1]%lookup_delete_Some [_ H2]%lookup_delete_Some. by eapply Hu.
  - intros b cs E. apply release_lookup. split; [by apply Ha|]. intros n. by eapply Hap.
  - intros b cs o' V' n E [_ HV']%lookup_delete_Some. by eapply Hap.
  - intros b cs [E Hno]%release_lookup. destruct (Hn _ _ E) as [?|(o' & V' & n' & HV' & E')]; [by left|right].
    exists o', V', n'. split; [|done]. rewrite lookup_delete_ne; [done|]. intros ->. simplify_eq. by eapply Hno.
Qed.

Lemma put_gone st o V V' : put (release st V) o V' = put (gone st o V) o V'.
Proof. unfold put, gone. cbn. by rewrite insert_delete_eq. Qed.

Lemma store_updates st A Vs o V V' st' :
  store st A Vs → Vs !! o = Some V → updates st o V V' st' → store st' A (<[o := V']> Vs).
Proof.
  intros Hst HV [-> Hfree]. rewrite put_gone, <-insert_delete_eq. apply store_born; [by apply store_gone|apply lookup_delete_eq|done].
Qed.

(** Two objects with the blocks that they had between them. *)
Definition same_blocks (V W V' W' : view) : Prop :=
  (v_block V' = v_block V ∧ v_block W' = v_block W) ∨ (v_block V' = v_block W ∧ v_block W' = v_block V).

Lemma put2_gone st o V V' s W W' :
  o ≠ s → same_blocks V W V' W' → put2 st o V' s W' = put2 (gone (gone st o V) s W) o V' s W'.
Proof.
  intros Hne Hbs. unfold put2, put, gone, release. cbn. f_equal.
  - rewrite insert_delete_eq, !(insert_insert_ne _ o s), insert_delete_eq by done. done.
  - destruct Hbs as [ [-> ->]|[-> ->] ]; destruct (v_block V) as [ [b n]|]; destruct (v_block W) as [ [b' n']|]; try done;
      apply map_eq; intros i; rewrite !lookup_insert; repeat case_decide; try done;
      rewrite ?lookup_delete_ne by congruence; done.
Qed.

Lemma store_put2 st A Vs o V V' s W W' :
  store st A Vs → Vs !! o = Some V → Vs !! s = Some W → o ≠ s → same_blocks V W V' W' →
  store (put2 st o V' s W') A (<[o := V']> (<[s := W']> Vs)).
Proof.
  intros Hst HV HW Hne Hbs. rewrite (put2_gone st o V V' s W W') by done.
  assert (store (gone (gone st o V) s W) A (delete s (delete o Vs))) as Hg.
  { apply store_gone; [by apply store_gone|]. by rewrite lookup_delete_ne. }
  assert (∀ U b n, v_block U = v_block V ∨ v_block U = v_block W → v_block U = Some (b, n) →
    blocks (gone (gone st o V) s W) !! b = None) as Hfree.
  { intros U b n HU E. apply eq_None_not_Some. intros [cs [ [Hcs HnV]%release_lookup HnW]%release_lookup].
    destruct HU as [HU|HU]; rewrite HU in E; [by eapply HnV|by eapply HnW]. }
  assert (<[o := V']> (<[s := W']> Vs) = <[o := V']> (<[s := W']> (delete s (delete o Vs)))) as ->.
  { rewrite insert_delete_eq, !(insert_insert_ne _ o s), insert_delete_eq by done. done. }
  apply store_born; [apply store_born; [done|by rewrite lookup_delete_eq|]| |].
  - intros b n. apply Hfree. destruct Hbs as [ [_ ?]|[_ ?] ]; auto.
  - rewrite lookup_insert_ne, lookup_delete_ne, lookup_delete_eq by done. done.
  - intros b n E. unfold put. destruct (v_block W') as [ [b' n']|] eqn:E'; cbn.
    + rewrite lookup_insert_ne; [apply (Hfree V' b n); destruct Hbs as [ [? _]|[? _] ]; auto|].
      intros <-. apply Hne. destruct Hbs as [ [E1 E2]|[E1 E2] ]; rewrite E in E1; rewrite E' in E2.
      * by eapply (st_unique _ _ _ Hst o V s W).
      * symmetry. by eapply (st_unique _ _ _ Hst s W o V).
    + apply (Hfree V' b n); [destruct Hbs as [ [? _]|[? _] ]; auto|done].
Qed.

(** An object takes the block of another one. *)
Lemma store_moved st A Vs o V' s W W' :
  store st A Vs → Vs !! o = None → Vs !! s = Some W → v_block V' = v_block W → v_block W' = None →
  store (put2 st o V' s W') A (<[o := V']> (<[s := W']> Vs)).
Proof.
  intros Hst Ho HW EV EW. assert (o ≠ s) as Hne by congruence.
  assert (put2 st o V' s W' = put2 (gone st s W) o V' s W') as ->.
  { unfold put2, put, gone, release. cbn. rewrite insert_delete_eq. rewrite EV, EW.
    destruct (v_block W) as [ [b n]|]; [|done]. by rewrite insert_delete_eq. }
  rewrite <-(insert_delete_eq Vs s W'). apply store_born; [apply store_born|..].
  - by apply store_gone.
  - apply lookup_delete_eq.
  - by rewrite EW.
  - by rewrite lookup_insert_ne, lookup_delete_ne.
  - intros b n E. unfold put. rewrite EW. cbn. apply eq_None_not_Some. intros [cs [Hcs Hno]%release_lookup].
    apply (Hno n). congruence.
Qed.
