(* ===== verification/StdStringSpec.v ===== *)
(** * What strings promise: programs with strings and their meaning on lists

    A program constructs, changes and destroys strings and passes pointers into its own
    arrays and into the characters of strings, also of the string that is being changed. An
    operand is what the overloads of a member function accept. The meaning of
    an operation is a function on a world of lists of characters; it is not defined where the
    program does what it must not, for instance with an object that is not there. It is not
    defined either for two uses that the library gets wrong: a range of characters that
    includes the null character behind a string, and the move of a string to itself; their
    behaviour is shown apart. The overloads with iterators, views and initializer lists are not
    among the operations. *)
From stdpp Require Import base numbers list gmap.
From Stdlib Require Import ZArith Lia.
From S2P Require Import Prelude StdString StdStringInPlace.

(** * Operations *)

(** A pointer to characters. *)
Inductive place := In_string (s : nat) (off : Z) | In_array (b : nat) (off : Z).

(** [n] characters, or those before a null character. *)
Inductive text := Range (p : place) (n : Z) | CStr (p : place).

Inductive operand :=
  | Whole (s : nat)
  | Part (s : nat) (pos n : Z)
  | Chars (t : text)
  | Fill (n c : Z).

Inductive op :=
  | New (o : nat) | New_from (o : nat) (x : operand) | New_null (o : nat) (n : Z)
  | New_input (o : nat) (input : list Z) | New_move (o s : nat) | Destroy (o : nat)
  | Append (o : nat) (x : operand) | Push_back (o : nat) (c : Z)
  | Assign (o : nat) (x : operand) | Assign_move (o s : nat)
  | Insert (o : nat) (pos : Z) (x : operand) | Replace (o : nat) (pos n : Z) (x : operand)
  | Erase (o : nat) (pos n : Z) | Erase_range (o : nat) (first last : Z) | Pop_back (o : nat)
  | Resize (o : nat) (n c : Z) | Clear (o : nat) | Reserve (o : nat) (n : Z) | Shrink_to_fit (o : nat)
  | Swap (o s : nat)
  | Size (o : nat) | Subscript (o : nat) (pos : Z) | At (o : nat) (pos : Z)
  | Copy (o b : nat) (off n pos : Z).

Inductive program :=
  | Done
  | Do (i : op) (k : option Z + exception → program).

(** * Running them *)

Section run.
Context `{Allocator}.

Definition place_ptr (p : place) : Exc ptr :=
  match p with
  | In_string s off => d ← _M_data s; mret (offset d off)
  | In_array b off => mret (Block b, off)
  end.

Definition run_new (o : nat) (x : operand) : Exc unit :=
  match x with
  | Whole s => new_copy o s
  | Part s pos n => new_sub o s pos n
  | Chars (Range p n) => p ← place_ptr p; new_ptr_n o (Some p) n
  | Chars (CStr p) => p ← place_ptr p; new_ptr o (Some p)
  | Fill n c => new_fill o n c
  end.

Definition run_append (o : nat) (x : operand) : Exc unit :=
  match x with
  | Whole s => append_str o s
  | Part s pos n => append_sub o s pos n
  | Chars (Range p n) => p ← place_ptr p; append_ptr_n o p n
  | Chars (CStr p) => p ← place_ptr p; append_ptr o p
  | Fill n c => append_fill o n c
  end.

Definition run_assign (o : nat) (x : operand) : Exc unit :=
  match x with
  | Whole s => assign_str o s
  | Part s pos n => assign_sub o s pos n
  | Chars (Range p n) => p ← place_ptr p; assign_ptr_n o p n
  | Chars (CStr p) => p ← place_ptr p; assign_ptr o p
  | Fill n c => assign_fill o n c
  end.

Definition run_insert (o : nat) (pos : Z) (x : operand) : Exc unit :=
  match x with
  | Whole s => insert_str o pos s
  | Part s pos2 n => insert_sub o pos s pos2 n
  | Chars (Range p n) => p ← place_ptr p; insert_ptr_n o pos p n
  | Chars (CStr p) => p ← place_ptr p; insert_ptr o pos p
  | Fill n c => insert_fill o pos n c
  end.

Definition run_replace (o : nat) (pos n : Z) (x : operand) : Exc unit :=
  match x with
  | Whole s => replace_str o pos n s
  | Part s pos2 n2 => replace_sub o pos n s pos2 n2
  | Chars (Range p n2) => p ← place_ptr p; replace_ptr_n o pos n p n2
  | Chars (CStr p) => p ← place_ptr p; replace_ptr o pos n p
  | Fill n2 c => replace_fill o pos n n2 c
  end.

(** An answer is a number, or none. *)
Definition command (c : Exc unit) : Exc (option Z) := c;; mret None.
Definition answer (c : Exc Z) : Exc (option Z) := z ← c; mret (Some z).

Definition run_op (i : op) : Exc (option Z) :=
  match i with
  | New o => command (new_empty o)
  | New_from o x => command (run_new o x)
  | New_null o n => command (new_ptr_n o None n)
  | New_input o input => command (new_input o input)
  | New_move o s => command (new_move o s)
  | Destroy o => command (destroy o)
  | Append o x => command (run_append o x)
  | Push_back o c => command (push_back o c)
  | Assign o x => command (run_assign o x)
  | Assign_move o s => command (assign_move o s)
  | Insert o pos x => command (run_insert o pos x)
  | Replace o pos n x => command (run_replace o pos n x)
  | Erase o pos n => command (erase o pos n)
  | Erase_range o first last => command (erase_range o first last)
  | Pop_back o => command (pop_back o)
  | Resize o n c => command (resize o n c)
  | Clear o => command (clear o)
  | Reserve o n => command (reserve o n)
  | Shrink_to_fit o => command (shrink_to_fit o)
  | Swap o s => command (swap o s)
  | Size o => answer (size o)
  | Subscript o pos => answer (subscript o pos)
  | At o pos => answer (at_pos o pos)
  | Copy o b off n pos => answer (copy o (Block b, off) n pos)
  end.

(** A program goes on as the result of the operation, or its exception, tells it. *)
Fixpoint run_program (P : program) (st : state) : option (list (option Z + exception) * state) :=
  match P with
  | Done => Some ([], st)
  | Do i k =>
      '(r, st) ← run_op i st;
      '(rs, st) ← run_program (k r) st;
      Some (r :: rs, st)
  end.

End run.

(** * Their meaning *)

Record world := World { w_strings : gmap nat (list Z); w_arrays : gmap nat (list cell) }.

Definition is_size (n : Z) : bool := (0 <=? n) && (n <? 4294967296).

(** The cells from a place on. *)
Definition place_cells (w : world) (p : place) : option (list cell) :=
  match p with
  | In_string s off =>
      l ← w_strings w !! s;
      if (0 <=? off) && (off <=? Z.of_nat (length l)) then Some (Some <$> drop (Z.to_nat off) l) else None
  | In_array b off =>
      cs ← w_arrays w !! b;
      if (0 <=? off) && (off <=? Z.of_nat (length cs)) then Some (drop (Z.to_nat off) cs) else None
  end.

Fixpoint until_null (cs : list cell) : option (list Z) :=
  match cs with
  | Some c :: cs => if c =? 0 then Some [] else l ← until_null cs; Some (c :: l)
  | _ => None
  end.

Definition text_chars (w : world) (t : text) : option (list Z) :=
  match t with
  | Range p n =>
      cs ← place_cells w p;
      if is_size n && (n <=? Z.of_nat (length cs)) then mapM id (take (Z.to_nat n) cs) else None
  | CStr p =>
      cs ← place_cells w p;
      l ← until_null (match p with In_string _ _ => cs ++ [Some 0] | In_array _ _ => cs end);
      if is_size (Z.of_nat (length l)) then Some l else None
  end.

(** At most [n] characters from [pos] on. *)
Definition limit (l : list Z) (pos n : Z) : nat := Z.to_nat (Z.min n (Z.of_nat (length l) - pos)).

Definition operand_chars (w : world) (x : operand) : option (list Z + exception) :=
  match x with
  | Whole s => inl <$> w_strings w !! s
  | Part s pos n =>
      l ← w_strings w !! s;
      if is_size pos && is_size n then
        Some (if Z.of_nat (length l) <? pos then inr out_of_range
              else inl (sub l (Z.to_nat pos) (limit l pos n)))
      else None
  | Chars t => inl <$> text_chars w t
  | Fill n c => if is_size n then Some (inl (replicate (Z.to_nat n) c)) else None
  end.

Abbreviation result := ((option Z + exception) * world)%type.

Definition set_contents (w : world) (o : nat) (l : list Z) : world := World (<[o := l]> (w_strings w)) (w_arrays w).

(** The contents become [l], if that is not too long. *)
Definition become (w : world) (o : nat) (l : list Z) : result :=
  if max_size <? Z.of_nat (length l) then (inr length_error, w) else (inl None, set_contents w o l).

Definition becomes (w : world) (o : nat) (r : list Z + exception) : result :=
  match r with inl l => become w o l | inr e => (inr e, w) end.

Definition create (w : world) (o : nat) (r : list Z + exception) : option result :=
  match w_strings w !! o with Some _ => None | None => Some (becomes w o r) end.

Definition replaced_at (l : list Z) (pos n : Z) (x : list Z + exception) : list Z + exception :=
  match x with
  | inr e => inr e
  | inl new =>
      if Z.of_nat (length l) <? pos then inr out_of_range
      else inl (replaced l (Z.to_nat pos) (limit l pos n) new)
  end.

Definition appended (l : list Z) (x : list Z + exception) : list Z + exception :=
  match x with inl new => inl (l ++ new) | inr e => inr e end.

Definition spec_op (w : world) (i : op) : option result :=
  match i with
  | New o => create w o (inl [])
  | New_from o x => r ← operand_chars w x; create w o r
  | New_null o n => if is_size n && negb (n =? 0) then create w o (inr logic_error) else None
  | New_input o input => create w o (inl input)
  | New_move o s =>
      l ← w_strings w !! s;
      match w_strings w !! o with
      | Some _ => None
      | None => Some (inl None, set_contents (set_contents w s []) o l)
      end
  | Destroy o => _ ← w_strings w !! o; Some (inl None, World (delete o (w_strings w)) (w_arrays w))
  | Append o x => l ← w_strings w !! o; r ← operand_chars w x; Some (becomes w o (appended l r))
  | Push_back o c => l ← w_strings w !! o; Some (become w o (l ++ [c]))
  | Assign o x => _ ← w_strings w !! o; r ← operand_chars w x; Some (becomes w o r)
  | Assign_move o s =>
      _ ← w_strings w !! o; l ← w_strings w !! s;
      if (o =? s)%nat then None else Some (inl None, set_contents (set_contents w s []) o l)
  | Insert o pos x =>
      l ← w_strings w !! o; r ← operand_chars w x;
      if is_size pos then Some (becomes w o (replaced_at l pos 0 r)) else None
  | Replace o pos n x =>
      l ← w_strings w !! o; r ← operand_chars w x;
      if is_size pos && is_size n then Some (becomes w o (replaced_at l pos n r)) else None
  | Erase o pos n =>
      l ← w_strings w !! o;
      if is_size pos && is_size n then Some (becomes w o (replaced_at l pos n (inl []))) else None
  | Erase_range o first last =>
      l ← w_strings w !! o;
      if (0 <=? first) && (first <=? last) && (last <=? Z.of_nat (length l)) then
        Some (becomes w o (replaced_at l first (last - first) (inl [])))
      else None
  | Pop_back o =>
      l ← w_strings w !! o;
      match l with [] => None | _ => Some (become w o (removelast l)) end
  | Resize o n c =>
      l ← w_strings w !! o;
      if is_size n then Some (become w o (take (Z.to_nat n) l ++ replicate (Z.to_nat n - length l) c)) else None
  | Clear o => _ ← w_strings w !! o; Some (become w o [])
  | Reserve o n =>
      _ ← w_strings w !! o;
      if is_size n then Some (if max_size <? n then (inr length_error, w) else (inl None, w)) else None
  | Shrink_to_fit o => _ ← w_strings w !! o; Some (inl None, w)
  | Swap o s =>
      l ← w_strings w !! o; l' ← w_strings w !! s;
      Some (inl None, set_contents (set_contents w s l) o l')
  | Size o => l ← w_strings w !! o; Some (inl (Some (Z.of_nat (length l))), w)
  | Subscript o pos =>
      l ← w_strings w !! o;
      if (0 <=? pos) && (pos <=? Z.of_nat (length l)) then Some (inl (Some (nth (Z.to_nat pos) l 0)), w) else None
  | At o pos =>
      l ← w_strings w !! o;
      if is_size pos then
        Some (if Z.of_nat (length l) <=? pos then (inr out_of_range, w)
              else (inl (Some (nth (Z.to_nat pos) l 0)), w))
      else None
  | Copy o b off n pos =>
      l ← w_strings w !! o; cs ← w_arrays w !! b;
      if is_size pos && is_size n then
        if Z.of_nat (length l) <? pos then Some (inr out_of_range, w)
        else
          let new := sub l (Z.to_nat pos) (limit l pos n) in
          if (0 <=? off) && (off + Z.of_nat (length new) <=? Z.of_nat (length cs)) then
            Some (inl (Some (Z.of_nat (length new))),
                  World (w_strings w) (<[b := splice (Z.to_nat off) (Some <$> new) cs]> (w_arrays w)))
          else None
      else None
  end.

(** The operations that ask for memory. *)
Definition may_allocate (i : op) : bool :=
  match i with
  | New_from _ _ | New_input _ _ | Append _ _ | Push_back _ _ | Assign _ _ | Insert _ _ _ | Replace _ _ _ _
  | Resize _ _ _ | Reserve _ _ => true
  | _ => false
  end.

(** What a program may see: every operation has its meaning, or it fails for want of memory
    and changes nothing. *)
Inductive allowed : world → program → list (option Z + exception) → world → Prop :=
  | allowed_done w : allowed w Done [] w
  | allowed_do w i k r w1 rs w' :
      spec_op w i = Some (r, w1) → allowed w1 (k r) rs w' → allowed w (Do i k) (r :: rs) w'
  | allowed_refused w i k rs w' :
      may_allocate i = true → allowed w (k (inr bad_alloc)) rs w' →
      allowed w (Do i k) (inr bad_alloc :: rs) w'.

(** The program does nothing that it must not, whether or not there is memory. *)
Fixpoint defined (w : world) (P : program) : Prop :=
  match P with
  | Done => True
  | Do i k => ∃ r w1, spec_op w i = Some (r, w1) ∧ defined w1 (k r) ∧ (may_allocate i = true → defined w (k (inr bad_alloc)))
  end.
