(* ===== verification/StdStringClient.v ===== *)
(** * Strings keep their promise

    Every operation of [StdStringSpec] does in memory what it means on lists. The proofs
    follow the overloads: each finds its characters, and hands them to one of the functions
    of [StdStringOps]. *)
From stdpp Require Import base numbers list gmap.
From Stdlib Require Import ZArith Lia.
From S2P Require Import Prelude StdString StdStringView StdStringInPlace StdStringOps StdStringLife StdStringMove.
From S2P Require Import StdStringMemory StdStringSpec.

(** * Null-terminated characters *)

Lemma until_null_cells cs l :
  until_null cs = Some l → ∃ rest, cs = (Some <$> l) ++ Some 0 :: rest ∧ Forall (λ c, c ≠ 0) l.
Proof.
  revert l. induction cs as [|[c|] cs IH]; intros l; cbn; [done| |done].
  destruct (Z.eqb_spec c 0) as [->|Hc]; [intros [= <-]; by exists cs|].
  destruct (until_null cs) as [l'|]; cbn; [|done]. intros [= <-].
  destruct (IH l' eq_refl) as (rest & -> & Hl'). exists rest. by split; [|constructor].
Qed.

Lemma read_char_cells st b off cs c :
  cells st b = Some cs → cs !! off = Some (Some c) → read_char (b, Z.of_nat off) st = Some (inl c, st).
Proof.
  intros Hcs Hc. pose proof (lookup_lt_Some _ _ _ Hc). unfold read_char.
  rewrite (bind_ok _ _ _ [Some c] st); [done|]. unfold read_cells. cbn [fst snd]. rewrite Hcs. cbn. unfold in_buffer.
  destruct (Z.leb_spec 0 (Z.of_nat off)), (Z.leb_spec (Z.of_nat off + 1) (Z.of_nat (length cs))); try lia.
  cbn. rewrite Nat2Z.id. by rewrite (drop_S _ _ _ Hc).
Qed.

Lemma length_loop_run st b cs l : ∀ fuel off rest,
  cells st b = Some cs → drop off cs = (Some <$> l) ++ Some 0 :: rest → Forall (λ c, c ≠ 0) l →
  (length l < fuel)%nat → Z.of_nat (length l) < 4294967296 →
  traits_length_loop fuel (b, Z.of_nat off) st = Some (inl (Z.of_nat (length l)), st).
Proof.
  induction l as [|c l IH]; intros [|fuel] off rest Hcs Hd Hl Hf Hlen; cbn in Hf; try lia; cbn [traits_length_loop].
  - assert (cs !! off = Some (Some 0)) as Hc by (rewrite <-(Nat.add_0_r off), <-lookup_drop, Hd; done).
    by rewrite (bind_ok _ _ _ _ _ (read_char_cells _ _ _ _ _ Hcs Hc)).
  - assert (cs !! off = Some (Some c)) as Hc by (rewrite <-(Nat.add_0_r off), <-lookup_drop, Hd; done).
    rewrite (bind_ok _ _ _ _ _ (read_char_cells _ _ _ _ _ Hcs Hc)). apply Forall_cons in Hl as [Hc0 Hl].
    rewrite (proj2 (Z.eqb_neq _ _)) by done. unfold offset. cbn [fst snd].
    replace (Z.of_nat off + 1) with (Z.of_nat (S off)) by lia. cbn [length] in Hlen.
    rewrite (bind_ok _ _ _ _ _ (IH fuel (S off) rest Hcs
      ltac:(rewrite (drop_S _ _ _ Hc) in Hd; by injection Hd) Hl ltac:(lia) ltac:(lia))).
    unfold mret, Exc_ret. rewrite u32_id by (unfold is_u32; lia). do 3 f_equal. cbn [length]. lia.
Qed.

Lemma strlen_run st b off cs l :
  cells st b = Some cs → until_null (drop off cs) = Some l → Z.of_nat (length l) < 4294967296 →
  traits_length (b, Z.of_nat off) st = Some (inl (Z.of_nat (length l)), st).
Proof.
  intros Hcs Hl Hlen. destruct (until_null_cells _ _ Hl) as (rest & Hd & Hnz). unfold traits_length. cbn [fst]. rewrite Hcs.
  change (traits_length_loop (S (length cs)) (b, Z.of_nat off) st = Some (inl (Z.of_nat (length l)), st)).
  apply (length_loop_run st b cs l _ off rest); try done.
  pose proof (f_equal length Hd) as He. rewrite length_drop, length_app, length_fmap in He. cbn in He. lia.
Qed.

(** A string with its null character, inside its buffer. *)
Lemma shows_cells V l : shows V l → ∃ rest, v_cells V = (Some <$> l) ++ Some 0 :: rest.
Proof.
  intros Hsh. pose proof (shows_length _ _ Hsh). exists (drop (S (length l)) (v_cells V)).
  rewrite <-(drop_S _ _ _ (sh_null _ _ Hsh)). rewrite <-(take_drop (length l) (v_cells V)) at 1. f_equal.
  apply list_eq. intros i. destruct (decide (i < length l)%nat).
  - rewrite lookup_take_lt, lookup_some by done. by apply Hsh.
  - rewrite !lookup_ge_None_2; [done|rewrite length_fmap; lia|rewrite length_take; lia].
Qed.

Lemma until_null_more cs l rest : until_null cs = Some l → until_null (cs ++ rest) = Some l.
Proof.
  revert l. induction cs as [|[c|] cs IH]; intros l; cbn; [done| |done].
  destruct (c =? 0); [done|]. destruct (until_null cs) as [l'|]; cbn; [|done]. by rewrite (IH l' eq_refl).
Qed.

Lemma mapM_id_some (cs : list cell) l : mapM id cs = Some l → cs = Some <$> l.
Proof. intros E. apply mapM_Some in E. induction E as [|? ? ? ? Hx]; cbn in *; [done|]. by f_equal. Qed.

Lemma shows_unique V l l' : shows V l → shows V l' → l = l'.
Proof.
  intros H1 H2. assert (length l = length l') as Hl by (pose proof (sh_len _ _ H1); pose proof (sh_len _ _ H2); lia).
  apply list_eq. intros i. destruct (decide (i < length l)%nat) as [Hi|].
  - pose proof (sh_agrees _ _ H1 i Hi). pose proof (sh_agrees _ _ H2 i ltac:(lia)). congruence.
  - rewrite !lookup_ge_None_2 by lia. done.
Qed.

(** * The state of a program *)

Definition inv (st : state) (w : world) : Prop :=
  ∃ Vs, store st (w_arrays w) Vs ∧ map_Forall2 (λ _, shows) Vs (w_strings w).

Section client.
Context `{Allocator}.

(** A result has its meaning, or there was no memory. An exception leaves the state as it was. *)
Definition simulates (may : bool) (st : state) (r : option ((option Z + exception) * state)) (s : result) : Prop :=
  (∃ st', r = Some (s.1, st') ∧ inv st' s.2 ∧ ∀ e, s.1 = inr e → st' = st) ∨
  (may = true ∧ r = Some (inr bad_alloc, st)).

Section operation.
Context (st : state) (w : world) (Vs : gmap nat view).
Context (Hst : store st (w_arrays w) Vs) (HVs : map_Forall2 (λ _, shows) Vs (w_strings w)).

Lemma inv_here : inv st w.
Proof using Hst HVs. by exists Vs. Qed.

Lemma view_of o l : w_strings w !! o = Some l → ∃ V, Vs !! o = Some V ∧ shows V l ∧ has st o V.
Proof using Hst HVs.
  intros Ho. specialize (HVs o). rewrite Ho in HVs. inversion HVs as [V ? Hsh E|]. exists V.
  split_and!; [done..|]. by apply (store_has _ _ _ _ _ Hst); [|apply Hsh].
Qed.

Lemma absent o : w_strings w !! o = None → Vs !! o = None ∧ strings st !! o = None.
Proof using Hst HVs.
  intros Ho. specialize (HVs o). rewrite Ho in HVs. inversion HVs as [|E]. split; [done|]. by apply (store_absent _ _ _ _ Hst).
Qed.

Lemma buffers_apart o V s W : Vs !! o = Some V → Vs !! s = Some W → o ≠ s → v_buffer s W ≠ v_buffer o V.
Proof using Hst.
  intros HV HW Hne E. unfold v_buffer in E. destruct (v_block V) as [ [b n]|] eqn:EV, (v_block W) as [ [b' n']|] eqn:EW;
    simplify_eq. apply Hne. by eapply (st_unique _ _ _ Hst o V s W).
Qed.

(** ** From what a function does to what the program sees *)

Lemma sim_throw may (c : Exc unit) e : c st = Some (inr e, st) → simulates may st (command c st) (inr e, w).
Proof using Hst HVs. intros Hc. left. exists st. unfold command. rewrite (bind_throws _ _ _ _ _ Hc). split_and!; [done|apply inv_here|done]. Qed.

Lemma inv_changed o V l V' l' st' :
  Vs !! o = Some V → shows V l → updates st o V V' st' → shows V' l' → inv st' (set_contents w o l').
Proof using Hst HVs.
  intros HV Hsh Hup Hsh'. exists (<[o := V']> Vs). split; [by eapply store_updates|by apply map_Forall2_insert_2].
Qed.

Lemma sim_yields may o V l l' (c : Exc unit) :
  Vs !! o = Some V → shows V l → yields st o V l' (c st) → simulates may st (command c st) (become w o l').
Proof using Hst HVs.
  intros HV Hsh (V' & st' & Hc & Hup & Hsh'). left. exists st'. unfold become.
  pose proof (sizes V' l' Hsh') as (Hs1 & Hs2 & _). rewrite (proj2 (Z.ltb_ge _ _)) by (rewrite max_size_eq; lia).
  unfold command. rewrite (bind_ok _ _ _ _ _ Hc). split_and!; [done| |done]. by eapply inv_changed.
Qed.

Lemma sim_outcome o V l l' (c : Exc unit) :
  Vs !! o = Some V → shows V l → outcome st o V l' (c st) → simulates true st (command c st) (become w o l').
Proof using Hst HVs.
  intros HV Hsh [ [Hlen Hy]|Hc]; [by eapply sim_yields|]. unfold become.
  destruct (max_size <? Z.of_nat (length l')); [by apply sim_throw|]. right. split; [done|].
  unfold command. by rewrite (bind_throws _ _ _ _ _ Hc).
Qed.

Lemma sim_birth may o l (c : Exc unit) :
  w_strings w !! o = None → birth st o l (c st) → (may = false → Z.of_nat (length l) <= max_size ∧ born st o l (c st)) →
  simulates may st (command c st) (become w o l).
Proof using Hst HVs.
  intros Ho Hb Hmay. assert (born st o l (c st) → Z.of_nat (length l) <= max_size →
    simulates may st (command c st) (become w o l)) as Hborn.
  { intros (V & Hc & Hsh & Hfree) Hlen. left. exists (put st o V). unfold become. rewrite (proj2 (Z.ltb_ge _ _)) by lia.
    unfold command. rewrite (bind_ok _ _ _ _ _ Hc). split_and!; [done| |done]. exists (<[o := V]> Vs). cbn.
    split; [apply store_born; [done|by apply absent|done]|by apply map_Forall2_insert_2]. }
  destruct may; [|destruct (Hmay eq_refl); by apply Hborn].
  destruct Hb as [ [Hlen Hb]|(e & Hc & [->|[-> Hlen] ])]; [by apply Hborn|right|].
  - split; [done|]. unfold command. by rewrite (bind_throws _ _ _ _ _ Hc).
  - unfold become. rewrite (proj2 (Z.ltb_lt _ _)) by lia. by apply sim_throw.
Qed.

(** ** Where the characters of an operand are *)

Definition points (p : ptr) (new : list Z) : Prop :=
  (∃ s W l off, Vs !! s = Some W ∧ shows W l ∧ p = (v_buffer s W, Z.of_nat off) ∧
     (off + length new <= length l)%nat ∧ new = sub l off (length new)) ∨
  (∃ b cs, w_arrays w !! b = Some cs ∧ p.1 = Block b ∧ reads st p new).

Lemma points_source o V l p new : Vs !! o = Some V → shows V l → points p new → source st o V l p new.
Proof using Hst.
  intros HV Hsh [(s & W & l' & off & HW & HshW & -> & Hoff & Hnew)|(b & cs & Hcs & Hp & Hr)].
  - destruct (decide (o = s)) as [<-|Hne].
    + right. simplify_eq. assert (l' = l) as -> by (by eapply shows_unique). by exists off.
    + left. split; [by apply buffers_apart|]. pose proof (shows_length _ _ HshW). rewrite Hnew.
      apply has_reads; [|apply HshW|done|lia]. by apply (store_has _ _ _ _ _ Hst); [|apply HshW].
  - left. split; [|done]. rewrite Hp. unfold v_buffer. destruct (v_block V) as [ [b' n]|] eqn:E; [|done].
    intros [= <-]. by eapply (st_apart _ _ _ Hst).
Qed.

Lemma points_reads p new : points p new → reads st p new.
Proof using Hst.
  intros [(s & W & l' & off & HW & HshW & -> & Hoff & Hnew)|(b & cs & Hcs & Hp & Hr)]; [|done].
  pose proof (shows_length _ _ HshW). rewrite Hnew.
  apply has_reads; [|apply HshW|done|lia]. by apply (store_has _ _ _ _ _ Hst); [|apply HshW].
Qed.

Lemma sub_all (l : list Z) : sub l 0 (length l) = l.
Proof. unfold sub. by rewrite drop_0, firstn_all. Qed.

Lemma points_whole s W l : Vs !! s = Some W → shows W l → points (v_buffer s W, 0) l.
Proof. intros HW Hsh. left. exists s, W, l, 0%nat. split_and!; [done..|]. by rewrite sub_all. Qed.

Lemma limit_bounds (l : list Z) pos n :
  0 <= pos <= Z.of_nat (length l) → 0 <= n → (Z.to_nat pos + limit l pos n <= length l)%nat.
Proof. intros Hpos Hn. unfold limit. lia. Qed.

Lemma points_part s W l pos n :
  Vs !! s = Some W → shows W l → 0 <= pos <= Z.of_nat (length l) → 0 <= n →
  points (v_buffer s W, pos) (sub l (Z.to_nat pos) (limit l pos n)).
Proof.
  intros HW Hsh Hpos Hn. pose proof (limit_bounds l pos n Hpos Hn). left. exists s, W, l, (Z.to_nat pos).
  rewrite Z2Nat.id, length_sub by lia. done.
Qed.

(** The place that a text is at, and its length. *)
Definition text_place (t : text) : place := match t with Range p _ | CStr p => p end.

Definition measured (t : text) (p : ptr) (new : list Z) : Prop :=
  match t with
  | Range _ n => n = Z.of_nat (length new)
  | CStr _ => ∀ st1, cells st1 p.1 = cells st p.1 → traits_length p st1 = Some (inl (Z.of_nat (length new)), st1)
  end.

(** The buffer that a place is in, from there on; a string goes on with its null character. *)
Lemma place_points pl cs :
  place_cells w pl = Some cs →
  ∃ b off full rest, place_ptr pl st = Some (inl (b, Z.of_nat off), st) ∧ cells st b = Some full ∧
    drop off full = cs ++ rest ∧ match pl with In_string _ _ => ∃ r, rest = Some 0 :: r | In_array _ _ => rest = [] end ∧
    ∀ new r, cs = (Some <$> new) ++ r → points (b, Z.of_nat off) new.
Proof using Hst HVs.
  destruct pl as [s off|b off]; cbn [place_cells].
  - destruct (w_strings w !! s) as [l|] eqn:El; cbn; [|done]. destruct (view_of s l El) as (W & HW & Hsh & Hhas).
    destruct (Z.leb_spec 0 off), (Z.leb_spec off (Z.of_nat (length l))); cbn; try done. intros [= <-].
    destruct (shows_cells W l Hsh) as (rest & Hcells).
    exists (v_buffer s W), (Z.to_nat off), (v_cells W), (Some 0 :: rest). rewrite Z2Nat.id by done. split_and!.
    + by rewrite (bind_ok _ _ _ _ _ (data_run _ _ _ Hhas)).
    + by apply cells_view.
    + rewrite Hcells, drop_app_le, fmap_drop by (rewrite length_fmap; lia). done.
    + by eexists.
    + intros new r Hnew. pose proof (f_equal length Hnew) as Hlen. rewrite length_app, !length_fmap, length_drop in Hlen.
      left. exists s, W, l, (Z.to_nat off). rewrite Z2Nat.id by done. split_and!; [done..|lia|].
      apply (inj (fmap Some)). unfold sub. by rewrite fmap_take, Hnew, take_app_length' by (by rewrite length_fmap).
  - destruct (w_arrays w !! b) as [full|] eqn:Eb; cbn; [|done].
    destruct (Z.leb_spec 0 off), (Z.leb_spec off (Z.of_nat (length full))); cbn; try done. intros [= <-].
    pose proof (st_arrays _ _ _ Hst _ _ Eb) as Hb.
    exists (Block b), (Z.to_nat off), full, []. rewrite Z2Nat.id, app_nil_r by done. split_and!; [done..|].
    intros new r Hnew. right. exists b, full. split_and!; [done..|]. unfold reads, read_cells. cbn [fst snd cells]. rewrite Hb. cbn.
    pose proof (f_equal length Hnew) as Hlen. rewrite length_app, length_fmap, length_drop in Hlen. unfold in_buffer.
    rewrite !(proj2 (Z.leb_le _ _)) by lia. cbn. by rewrite Nat2Z.id, Hnew, take_app_length' by (by rewrite length_fmap).
Qed.

Lemma prefix_before {A} (xs ys : list A) x y rest : xs ++ [x] = ys ++ y :: rest → ∃ r, xs = ys ++ r.
Proof.
  intros E. exists (drop (length ys) xs). pose proof (f_equal length E) as Hl. rewrite !length_app in Hl. cbn in Hl.
  rewrite <-(take_drop (length ys) xs) at 1. f_equal.
  rewrite <-(take_app_le xs [x]) by lia. by rewrite E, take_app_length.
Qed.

Lemma text_points t new :
  text_chars w t = Some new →
  ∃ p, place_ptr (text_place t) st = Some (inl p, st) ∧ points p new ∧ measured t p new ∧
    Z.of_nat (length new) < 4294967296.
Proof using Hst HVs.
  destruct t as [pl n|pl]; cbn [text_chars text_place measured];
    (destruct (place_cells w pl) as [cs|] eqn:Ecs; cbn; [|done]);
    destruct (place_points pl cs Ecs) as (b & off & full & rest & Hptr & Hfull & Hd & Hrest & Hpts).
  - unfold is_size. destruct (Z.leb_spec 0 n), (Z.ltb_spec n 4294967296), (Z.leb_spec n (Z.of_nat (length cs))); cbn; try done.
    intros Ht%mapM_id_some. pose proof (f_equal length Ht) as Hlen. rewrite length_fmap, length_take in Hlen.
    exists (b, Z.of_nat off). split_and!; [done| |lia|lia]. apply (Hpts _ (drop (Z.to_nat n) cs)). by rewrite <-Ht, take_drop.
  - destruct (until_null _) as [l|] eqn:El; cbn; [|done]. unfold is_size. rewrite (proj2 (Z.leb_le _ _)) by lia.
    destruct (Z.ltb_spec (Z.of_nat (length l)) 4294967296); cbn; [|done]. intros [= <-].
    exists (b, Z.of_nat off). split_and!; [done| | |done].
    + destruct (until_null_cells _ _ El) as (r & Hr & _). destruct pl; [|by eapply Hpts].
      destruct (prefix_before _ _ _ _ _ Hr) as (r' & Hr'). by eapply Hpts.
    + intros st1 Hst1. cbn [fst] in Hst1. apply (strlen_run _ _ _ full); [by rewrite Hst1| |done]. rewrite Hd. destruct pl; [|subst rest; by rewrite app_nil_r].
      destruct Hrest as (r & ->). rewrite (app_assoc cs [Some 0] r : cs ++ Some 0 :: r = _). by apply until_null_more.
Qed.

(** ** The checks of positions *)

Lemma check_run st1 o V l pos :
  has st1 o V → shows V l →
  _M_check o pos st1 = Some ((if Z.of_nat (length l) <? pos then inr out_of_range else inl pos), st1).
Proof.
  intros HV Hsh. unfold _M_check. rewrite (bind_ok _ _ _ _ _ (string_size_run _ _ _ HV)), (sh_len _ _ Hsh). by destruct (_ <? _).
Qed.

Lemma limit_run st1 o V l pos n :
  has st1 o V → shows V l → 0 <= pos <= Z.of_nat (length l) → 0 <= n →
  _M_limit o pos n st1 = Some (inl (Z.of_nat (limit l pos n)), st1).
Proof.
  intros HV Hsh Hpos Hn. pose proof (sizes V l Hsh). unfold _M_limit, limit.
  rewrite (bind_ok _ _ _ _ _ (string_size_run _ _ _ HV)), (sh_len _ _ Hsh), u32_id by (unfold is_u32; lia).
  unfold mret, Exc_ret. do 3 f_equal. destruct (Z.ltb_spec n (Z.of_nat (length l) - pos)); lia.
Qed.

Lemma is_size_spec n : is_size n = true ↔ 0 <= n < 4294967296.
Proof. unfold is_size. rewrite andb_true_iff, Z.leb_le, Z.ltb_lt. done. Qed.

(** Finding the characters of an operand, before the function that takes them. *)
Lemma operand_part s pos n r :
  operand_chars w (Part s pos n) = Some r →
  ∃ W l, Vs !! s = Some W ∧ shows W l ∧ has st s W ∧ 0 <= pos < 4294967296 ∧ 0 <= n < 4294967296 ∧
    r = if Z.of_nat (length l) <? pos then inr out_of_range else inl (sub l (Z.to_nat pos) (limit l pos n)).
Proof using Hst HVs.
  cbn. destruct (w_strings w !! s) as [l|] eqn:El; cbn; [|done]. destruct (view_of s l El) as (W & HW & Hsh & Hhas).
  destruct (is_size pos) eqn:E1, (is_size n) eqn:E2; cbn; try done. intros [= <-].
  apply is_size_spec in E1, E2. by exists W, l.
Qed.

(** A state where all strings are as they are here. *)
Definition same_strings (st1 : state) : Prop := ∀ s W, Vs !! s = Some W → has st s W → has st1 s W.

Lemma same_strings_here : same_strings st.
Proof. by intros s W. Qed.

(** A function that takes a part of a string. *)
Lemma part_then {B} st1 s pos n r (k : ptr → Z → Exc B) :
  same_strings st1 → operand_chars w (Part s pos n) = Some r →
  let c := (p ← _M_data s; pos ← _M_check s pos; n ← _M_limit s pos n; k (offset p pos) n) in
  match r with
  | inr e => c st1 = Some (inr e, st1)
  | inl new => ∃ p, points p new ∧ Z.of_nat (length new) <= max_size ∧ c st1 = k p (Z.of_nat (length new)) st1
  end.
Proof using Hst HVs.
  intros Hst1 (W & l & HW & Hsh & Hhas%(Hst1 _ _ HW) & Hpos & Hn & ->)%operand_part c. subst c. pose proof (sizes W l Hsh) as (? & ? & _).
  pose proof (check_run st1 s W l pos Hhas Hsh) as Hchk. rewrite (bind_ok _ _ _ _ _ (data_run _ _ _ Hhas)).
  destruct (Z.ltb_spec (Z.of_nat (length l)) pos); [by rewrite (bind_throws _ _ _ _ _ Hchk)|].
  pose proof (limit_bounds l pos n ltac:(lia) ltac:(lia)). rewrite length_sub by done.
  exists (v_buffer s W, pos). split_and!; [apply points_part; lia || done|rewrite max_size_eq; lia|].
  by rewrite (bind_ok _ _ _ _ _ Hchk), (bind_ok _ _ _ _ _ (limit_run st1 s W l pos n Hhas Hsh ltac:(lia) ltac:(lia))).
Qed.

(** A function that takes a whole string. *)
Lemma whole_then {B} st1 s r (k : ptr → Z → Exc B) :
  same_strings st1 → operand_chars w (Whole s) = Some r →
  ∃ p new, r = inl new ∧ points p new ∧ Z.of_nat (length new) <= max_size ∧
    (p ← _M_data s; n ← size s; k p n) st1 = k p (Z.of_nat (length new)) st1.
Proof using Hst HVs.
  intros Hst1. cbn. destruct (w_strings w !! s) as [l|] eqn:El; cbn; [|done]. destruct (view_of s l El) as (W & HW & Hsh & Hhas%(Hst1 _ _ HW)).
  intros [= <-]. pose proof (sizes W l Hsh) as (? & ? & _). exists (v_buffer s W, 0), l.
  split_and!; [done|by apply points_whole|rewrite max_size_eq; lia|].
  by rewrite (bind_ok _ _ _ _ _ (data_run _ _ _ Hhas)), (bind_ok _ _ _ _ _ (string_size_run _ _ _ Hhas)), (sh_len _ _ Hsh).
Qed.

(** A function that takes a pointer, and perhaps the number of characters. *)
Lemma text_then t r (k : text → ptr → Exc unit) :
  operand_chars w (Chars t) = Some r →
  ∃ p new, r = inl new ∧ points p new ∧ measured t p new ∧ Z.of_nat (length new) < 4294967296 ∧
    (p ← place_ptr (text_place t); k t p) st = k t p st.
Proof using Hst HVs.
  cbn. destruct (text_chars w t) as [new|] eqn:Et; cbn; [|done]. intros [= <-].
  destruct (text_points t new Et) as (p & Hp & Hpts & Hm & Hlen). exists p, new. split_and!; [done..|].
  by rewrite (bind_ok _ _ _ _ _ Hp).
Qed.

(** ** Appending *)

Lemma sim_append o l x r :
  w_strings w !! o = Some l → operand_chars w x = Some r →
  simulates true st (command (run_append o x) st) (becomes w o (appended l r)).
Proof using Hst HVs.
  intros Ho Hx. destruct (view_of o l Ho) as (V & HV & Hsh & Hhas). pose proof (sizes V l Hsh) as (Hs1 & Hs2 & _).
  pose proof max_size_eq as Hmax.
  assert (∀ p new (c : Exc unit), points p new → Z.of_nat (length new) <= max_size →
    c st = _M_append o p (Z.of_nat (length new)) st → simulates true st (command c st) (become w o (l ++ new))) as Happ.
  { intros p new c Hp Hlen Hc. apply (sim_outcome o V l); [done..|]. rewrite Hc.
    apply append_run; [done..|by apply points_source|done]. }
  assert (∀ p new (c : Exc unit), points p new → Z.of_nat (length new) < 4294967296 →
    c st = append_ptr_n o p (Z.of_nat (length new)) st → simulates true st (command c st) (become w o (l ++ new))) as Happ'.
  { intros p new c Hp Hlen Hc. pose proof (check_length_run st o V l Hhas Hsh 0 (Z.of_nat (length new)) ltac:(lia) ltac:(lia)) as Hchk.
    unfold append_ptr_n in Hc. rewrite Nat.sub_0_r in Hchk.
    destruct (Z.ltb_spec max_size (Z.of_nat (length l) + Z.of_nat (length new))).
    - unfold become. rewrite length_app, (proj2 (Z.ltb_lt _ _)) by lia. apply (sim_throw true c length_error).
      by rewrite Hc, (bind_throws _ _ _ _ _ Hchk).
    - apply (Happ p); [done|lia|]. by rewrite Hc, (bind_ok _ _ _ _ _ Hchk). }
  destruct x as [s|s pos n|t|n c]; cbn [run_append].
  - destruct (whole_then st s r (_M_append o) same_strings_here Hx) as (p & new & -> & Hp & Hlen & Hc). by eapply Happ.
  - pose proof (part_then st s pos n r (_M_append o) same_strings_here Hx) as Hpart. destruct r as [new|e]; [|by apply sim_throw].
    destruct Hpart as (p & Hp & Hlen & Hc). by eapply Happ.
  - destruct (text_then t r (λ t p, match t with Range _ n => append_ptr_n o p n | CStr _ => append_ptr o p end) Hx)
      as (p & new & -> & Hp & Hm & Hlen & Hc).
    apply (Happ' p); [done..|]. destruct t as [pl n|pl]; cbn [measured text_place] in *; rewrite Hc; [by subst n|].
    unfold append_ptr. by rewrite (bind_ok _ _ _ _ _ (Hm st eq_refl)).
  - cbn in Hx. destruct (is_size n) eqn:En; [|done]. injection Hx as <-. apply is_size_spec in En.
    apply (sim_outcome o V l); [done..|]. unfold append_fill.
    rewrite (bind_ok _ _ _ _ _ (string_size_run _ _ _ Hhas)), (sh_len _ _ Hsh).
    pose proof (replace_aux_run st o V l Hhas Hsh (length l) 0 (Z.to_nat n) c ltac:(lia) ltac:(lia)) as Hr.
    by rewrite replaced_end, Z2Nat.id in Hr by lia.
Qed.

(** ** Replacing and inserting *)

Section replacing.
Context (o : nat) (V : view) (l : list Z) (HV : Vs !! o = Some V) (Hsh : shows V l) (Hhas : has st o V).

Lemma sim_out_of_range pos n x (c : Exc unit) :
  c st = (pos ← _M_check o pos; n ← _M_limit o pos n; x pos n) st → Z.of_nat (length l) < pos →
  simulates true st (command c st) (inr out_of_range, w).
Proof using Hst HVs Hsh Hhas.
  intros Hc Hpos. apply sim_throw. rewrite Hc. pose proof (check_run st o V l pos Hhas Hsh) as Hchk.
  rewrite (proj2 (Z.ltb_lt _ _)) in Hchk by done. by rewrite (bind_throws _ _ _ _ _ Hchk).
Qed.

(** Past the checks. *)
Lemma checked pos n (x : Z → Z → Exc unit) :
  0 <= pos <= Z.of_nat (length l) → 0 <= n →
  (pos ← _M_check o pos; n ← _M_limit o pos n; x pos n) st = x (Z.of_nat (Z.to_nat pos)) (Z.of_nat (limit l pos n)) st.
Proof using Hsh Hhas.
  intros Hpos Hn. pose proof (check_run st o V l pos Hhas Hsh) as Hchk. rewrite (proj2 (Z.ltb_ge _ _)) in Hchk by lia.
  rewrite (bind_ok _ _ _ _ _ Hchk), (bind_ok _ _ _ _ _ (limit_run st o V l pos n Hhas Hsh ltac:(lia) ltac:(lia))).
  by rewrite Z2Nat.id by lia.
Qed.

Lemma sim_replace_ptr pos n p new (c : Exc unit) :
  0 <= pos → 0 <= n → points p new → Z.of_nat (length new) < 4294967296 →
  c st = replace_ptr_n o pos n p (Z.of_nat (length new)) st →
  simulates true st (command c st) (becomes w o (replaced_at l pos n (inl new))).
Proof using Hst HVs HV Hsh Hhas.
  intros Hpos Hn Hp Hlen Hc. unfold replaced_at. destruct (Z.ltb_spec (Z.of_nat (length l)) pos).
  { by apply (sim_out_of_range pos n (λ pos n, _M_replace o pos n p (Z.of_nat (length new)))). }
  apply (sim_outcome o V l); [done..|]. rewrite Hc. unfold replace_ptr_n. rewrite checked by lia.
  apply replace_run; [done..|apply limit_bounds; lia|by apply points_source|done].
Qed.

Lemma sim_replace_fill pos n n2 ch (c : Exc unit) :
  0 <= pos → 0 <= n → 0 <= n2 < 4294967296 → c st = replace_fill o pos n n2 ch st →
  simulates true st (command c st) (becomes w o (replaced_at l pos n (inl (replicate (Z.to_nat n2) ch)))).
Proof using Hst HVs HV Hsh Hhas.
  intros Hpos Hn Hn2 Hc. unfold replaced_at. destruct (Z.ltb_spec (Z.of_nat (length l)) pos).
  { by apply (sim_out_of_range pos n (λ pos n, _M_replace_aux o pos n n2 ch)). }
  apply (sim_outcome o V l); [done..|]. rewrite Hc. unfold replace_fill. rewrite checked by lia.
  rewrite <-(Z2Nat.id n2) at 2 by lia. apply replace_aux_run; [done..|apply limit_bounds; lia|lia].
Qed.

Lemma sim_replace pos n x r :
  operand_chars w x = Some r → 0 <= pos → 0 <= n →
  simulates true st (command (run_replace o pos n x) st) (becomes w o (replaced_at l pos n r)).
Proof using Hst HVs HV Hsh Hhas.
  intros Hx Hpos Hn. pose proof max_size_eq as Hmax. destruct x as [s|s pos2 n2|t|n2 c]; cbn [run_replace].
  - destruct (whole_then st s r (replace_ptr_n o pos n) same_strings_here Hx) as (p & new & -> & Hp & Hlen & Hc).
    apply (sim_replace_ptr pos n p); [done..|lia|done].
  - pose proof (part_then st s pos2 n2 r (replace_ptr_n o pos n) same_strings_here Hx) as Hpart. destruct r as [new|e]; [|by apply sim_throw].
    destruct Hpart as (p & Hp & Hlen & Hc). apply (sim_replace_ptr pos n p); [done..|lia|done].
  - destruct (text_then t r (λ t p, match t with Range _ n2 => replace_ptr_n o pos n p n2 | CStr _ => replace_ptr o pos n p end) Hx)
      as (p & new & -> & Hp & Hm & Hlen & Hc).
    apply (sim_replace_ptr pos n p); [done..|]. destruct t as [pl n'|pl]; cbn [measured text_place] in *; rewrite Hc; [by subst n'|].
    unfold replace_ptr. by rewrite (bind_ok _ _ _ _ _ (Hm st eq_refl)).
  - cbn in Hx. destruct (is_size n2) eqn:En; [|done]. injection Hx as <-. apply is_size_spec in En. by apply sim_replace_fill.
Qed.

Lemma sim_insert pos x r :
  operand_chars w x = Some r → 0 <= pos →
  simulates true st (command (run_insert o pos x) st) (becomes w o (replaced_at l pos 0 r)).
Proof using Hst HVs HV Hsh Hhas.
  intros Hx Hpos. pose proof (sim_replace pos 0 x r Hx Hpos ltac:(lia)) as Hr.
  destruct x as [s|s pos2 n2|[pl n2|pl]|n2 c]; cbn [run_replace run_insert] in *; [done..|].
  cbn in Hx. destruct (is_size n2) eqn:En; [|done]. injection Hx as <-. apply is_size_spec in En.
  apply sim_replace_fill; [done|lia|done|]. unfold insert_fill, replace_fill.
  pose proof (check_run st o V l pos Hhas Hsh) as Hchk. destruct (Z.ltb_spec (Z.of_nat (length l)) pos).
  - by rewrite !(bind_throws _ _ _ _ _ Hchk).
  - rewrite !(bind_ok _ _ _ _ _ Hchk), (bind_ok _ _ _ _ _ (limit_run st o V l pos 0 Hhas Hsh ltac:(lia) ltac:(lia))).
    unfold limit. by rewrite Z.min_l by lia.
Qed.

(** ** Assigning *)

Lemma replaced_all new : replaced l 0 (length l) new = new.
Proof. unfold replaced. cbn. by rewrite drop_all, app_nil_r. Qed.

Lemma sim_assign_ptr p new (c : Exc unit) :
  points p new → Z.of_nat (length new) < 4294967296 →
  c st = _M_replace o 0 (Z.of_nat (length l)) p (Z.of_nat (length new)) st →
  simulates true st (command c st) (become w o new).
Proof using Hst HVs HV Hsh Hhas.
  intros Hp Hlen Hc. apply (sim_outcome o V l); [done..|]. rewrite Hc, <-(replaced_all new) at 1.
  apply (replace_run st o V l Hhas Hsh 0); [lia|by apply points_source|done].
Qed.

Lemma sim_assign x r :
  operand_chars w x = Some r → simulates true st (command (run_assign o x) st) (becomes w o r).
Proof using Hst HVs HV Hsh Hhas.
  intros Hx. pose proof max_size_eq as Hmax. pose proof (string_size_run _ _ _ Hhas) as Hsize. rewrite (sh_len _ _ Hsh) in Hsize.
  destruct x as [s|s pos2 n2|t|n2 c]; cbn [run_assign].
  - cbn in Hx. destruct (w_strings w !! s) as [l'|] eqn:El; cbn in Hx; [|done]. injection Hx as <-.
    destruct (view_of s l' El) as (W & HW & HshW & HhasW). unfold assign_str. destruct (decide (o = s)) as [<-|Hne].
    + simplify_eq. rewrite (shows_unique _ _ _ HshW Hsh). apply (sim_yields true o V l); [done..|].
      unfold _M_assign. rewrite Nat.eqb_refl. exists V, st. split; [done|]. split; [|done].
      rewrite <-(put_same st o V Hhas) at 2. by apply updates_in_place.
    + apply (sim_outcome o V l); [done..|]. apply (assign_run st o V l s W); try done. by apply buffers_apart.
  - pose proof (part_then st s pos2 n2 r (_M_replace o 0 (Z.of_nat (length l))) same_strings_here Hx) as Hpart.
    assert (assign_sub o s pos2 n2 st = (p ← _M_data s; pos ← _M_check s pos2; n ← _M_limit s pos n2;
      _M_replace o 0 (Z.of_nat (length l)) (offset p pos) n) st) as Ha.
    { unfold assign_sub. by rewrite (bind_ok _ _ _ _ _ Hsize). }
    destruct r as [new|e]; [|apply sim_throw; congruence].
    destruct Hpart as (p & Hp & Hlen & Hc). apply (sim_assign_ptr p); [done|lia|congruence].
  - destruct (text_then t r (λ t p, match t with Range _ n2 => assign_ptr_n o p n2 | CStr _ => assign_ptr o p end) Hx)
      as (p & new & -> & Hp & Hm & Hlen & Hc).
    apply (sim_assign_ptr p); [done..|]. destruct t as [pl n'|pl]; cbn [measured text_place] in *; rewrite Hc.
    + unfold assign_ptr_n. subst n'. by rewrite (bind_ok _ _ _ _ _ Hsize).
    + unfold assign_ptr. by rewrite (bind_ok _ _ _ _ _ Hsize), (bind_ok _ _ _ _ _ (Hm st eq_refl)).
  - cbn in Hx. destruct (is_size n2) eqn:En; [|done]. injection Hx as <-. apply is_size_spec in En.
    apply (sim_outcome o V l); [done..|]. unfold assign_fill. rewrite (bind_ok _ _ _ _ _ Hsize).
    pose proof (replace_aux_run st o V l Hhas Hsh 0 (length l) (Z.to_nat n2) c ltac:(lia) ltac:(lia)) as Hr.
    by rewrite replaced_all, Z2Nat.id in Hr by lia.
Qed.

(** ** Erasing and resizing *)

Lemma sim_unchanged may (c : Exc unit) : c st = Some (inl tt, st) → simulates may st (command c st) (become w o l).
Proof using Hst HVs HV Hsh Hhas.
  intros Hc. apply (sim_yields may o V l); [done..|]. exists V, st. split; [done|]. split; [|done].
  rewrite <-(put_same st o V Hhas) at 2. by apply updates_in_place.
Qed.

Lemma sim_erase pos n :
  0 <= pos < 4294967296 → 0 <= n < 4294967296 →
  simulates false st (command (erase o pos n) st) (becomes w o (replaced_at l pos n (inl []))).
Proof using Hst HVs HV Hsh Hhas.
  intros Hpos Hn. pose proof (sizes V l Hsh) as (Hs1 & Hs2 & _). pose proof (check_run st o V l pos Hhas Hsh) as Hchk.
  unfold replaced_at. destruct (Z.ltb_spec (Z.of_nat (length l)) pos).
  { apply sim_throw. unfold erase. by rewrite (bind_throws _ _ _ _ _ Hchk). }
  cbn [becomes]. pose proof (limit_bounds l pos n ltac:(lia) ltac:(lia)) as Hlim.
  destruct (Z.eqb_spec n npos) as [->|Hnp]; [|destruct (Z.eqb_spec n 0) as [->|Hn0] ].
  - apply (sim_yields false o V l); [done..|]. unfold erase. rewrite (bind_ok _ _ _ _ _ Hchk). cbn [Z.eqb npos].
    pose proof (set_length_run st o V l Hhas Hsh (Z.to_nat pos) ltac:(lia)) as Hy. rewrite Z2Nat.id in Hy by lia.
    assert (replaced l (Z.to_nat pos) (limit l pos npos) [] = take (Z.to_nat pos) l) as ->; [|done].
    unfold replaced, limit, npos. rewrite drop_ge by lia. by rewrite app_nil_r.
  - assert (replaced l (Z.to_nat pos) (limit l pos 0) [] = l) as ->.
    { unfold replaced, limit. rewrite Z.min_l by lia. cbn. by rewrite Nat.add_0_r, take_drop. }
    apply sim_unchanged. unfold erase. by rewrite (bind_ok _ _ _ _ _ Hchk).
  - apply (sim_yields false o V l); [done..|]. unfold erase. rewrite (bind_ok _ _ _ _ _ Hchk).
    rewrite !(proj2 (Z.eqb_neq _ _)) by done.
    rewrite (bind_ok _ _ _ _ _ (limit_run st o V l pos n Hhas Hsh ltac:(lia) ltac:(lia))).
    pose proof (erase_run st o V l Hhas Hsh (Z.to_nat pos) (limit l pos n) Hlim) as Hy. by rewrite Z2Nat.id in Hy by lia.
Qed.

Lemma sim_erase_range first last :
  0 <= first <= last → last <= Z.of_nat (length l) →
  simulates false st (command (erase_range o first last) st) (becomes w o (replaced_at l first (last - first) (inl []))).
Proof using Hst HVs HV Hsh Hhas.
  intros Hf Hl. unfold replaced_at. rewrite (proj2 (Z.ltb_ge _ _)) by lia. cbn [becomes].
  assert (limit l first (last - first) = Z.to_nat (last - first)) as -> by (unfold limit; lia).
  apply (sim_yields false o V l); [done..|]. unfold erase_range.
  rewrite (bind_ok _ _ _ _ _ (string_size_run _ _ _ Hhas)), (sh_len _ _ Hsh). destruct (Z.eqb_spec last (Z.of_nat (length l))) as [->|Hne].
  - pose proof (set_length_run st o V l Hhas Hsh (Z.to_nat first) ltac:(lia)) as Hy. rewrite Z2Nat.id in Hy by lia.
    assert (replaced l (Z.to_nat first) (Z.to_nat (Z.of_nat (length l) - first)) [] = take (Z.to_nat first) l) as ->; [|done].
    unfold replaced. rewrite drop_ge by lia. by rewrite app_nil_r.
  - pose proof (erase_run st o V l Hhas Hsh (Z.to_nat first) (Z.to_nat (last - first)) ltac:(lia)) as Hy.
    by rewrite !Z2Nat.id in Hy by lia.
Qed.

Lemma sim_pop_back : l ≠ [] → simulates false st (command (pop_back o) st) (become w o (removelast l)).
Proof using Hst HVs HV Hsh Hhas.
  intros Hne. pose proof (sizes V l Hsh) as (Hs1 & Hs2 & _). assert (0 < length l)%nat as Hl by (destruct l; cbn; [done|lia]).
  apply (sim_yields false o V l); [done..|]. unfold pop_back.
  rewrite (bind_ok _ _ _ _ _ (string_size_run _ _ _ Hhas)), (sh_len _ _ Hsh), u32_id by (unfold is_u32; lia).
  pose proof (erase_run st o V l Hhas Hsh (length l - 1) 1 ltac:(lia)) as Hy. rewrite Nat2Z.inj_sub in Hy by lia.
  assert (replaced l (length l - 1) 1 [] = removelast l) as <-; [|done].
  unfold replaced. rewrite drop_ge by lia. cbn. rewrite app_nil_r. rewrite removelast_firstn_len. by rewrite Nat.sub_1_r.
Qed.

Lemma sim_resize n c :
  0 <= n < 4294967296 →
  simulates true st (command (resize o n c) st)
    (become w o (take (Z.to_nat n) l ++ replicate (Z.to_nat n - length l) c)).
Proof using Hst HVs HV Hsh Hhas.
  intros Hn. pose proof (sizes V l Hsh) as (Hs1 & Hs2 & _). pose proof (string_size_run _ _ _ Hhas) as Hsize. rewrite (sh_len _ _ Hsh) in Hsize.
  unfold resize. destruct (Z.ltb_spec (Z.of_nat (length l)) n) as [Hlt|Hge].
  - rewrite take_ge by lia. apply (sim_outcome o V l); [done..|].
    rewrite (bind_ok _ _ _ _ _ Hsize), (proj2 (Z.ltb_lt _ _)), u32_id by (unfold is_u32; lia). unfold append_fill.
    rewrite (bind_ok _ _ _ _ _ Hsize).
    pose proof (replace_aux_run st o V l Hhas Hsh (length l) 0 (Z.to_nat n - length l) c ltac:(lia) ltac:(lia)) as Hr.
    rewrite replaced_end in Hr. by replace (Z.of_nat (Z.to_nat n - length l)) with (n - Z.of_nat (length l)) in Hr by lia.
  - replace (Z.to_nat n - length l)%nat with 0%nat by lia. cbn [replicate]. rewrite app_nil_r.
    destruct (Z.ltb_spec n (Z.of_nat (length l))).
    + apply (sim_yields true o V l); [done..|]. rewrite (bind_ok _ _ _ _ _ Hsize), (proj2 (Z.ltb_ge _ _)), (proj2 (Z.ltb_lt _ _)) by lia.
      pose proof (set_length_run st o V l Hhas Hsh (Z.to_nat n) ltac:(lia)) as Hy. by rewrite Z2Nat.id in Hy by lia.
    + rewrite take_ge by lia. apply sim_unchanged. by rewrite (bind_ok _ _ _ _ _ Hsize), !(proj2 (Z.ltb_ge _ _)) by lia.
Qed.

End replacing.

(** ** Coming and going *)

(** The arguments of a constructor are evaluated where its object has no value yet. *)
Lemma points_blank o p new : w_strings w !! o = None → points p new → reads st p new ∧ strings st !! o = None.
Proof using Hst HVs. intros Ho Hp. split; [by apply points_reads|by apply absent]. Qed.

Lemma has_blank o s W : w_strings w !! o = None → has st s W → o ≠ s → has (put st o blank) s W.
Proof.
  intros Ho (Hs & Hl & Hb) Hne. split_and!; [cbn; by rewrite lookup_insert_ne|done|done].
Qed.

Lemma sim_new_ptr o p new (c : Exc unit) :
  w_strings w !! o = None → points p new → Z.of_nat (length new) < 4294967296 →
  c (put st o blank) = _M_construct o (Some p) (Z.of_nat (length new)) (put st o blank) →
  simulates true st (command (construct o c) st) (become w o new).
Proof using Hst HVs.
  intros Ho Hp Hlen Hc. destruct (points_blank o p new Ho Hp) as [Hr Ho']. apply sim_birth; [done| |done].
  apply construct_run; [done|]. rewrite Hc. by apply construct_ptr_run.
Qed.

Lemma construct_throws o e (c : Exc unit) :
  w_strings w !! o = None → c (put st o blank) = Some (inr e, put st o blank) → construct o c st = Some (inr e, st).
Proof using Hst HVs.
  intros Ho Hc. destruct (absent o Ho) as [_ Ho']. unfold construct. rewrite Ho'.
  change (State (<[o := _]> _) _) with (put st o blank). rewrite Hc. cbn. rewrite delete_insert_id by done. by destruct st.
Qed.

(** ** Taking over and exchanging *)

Lemma sim_put2 may o V l s W l' (c : Exc unit) V' W' m m' :
  Vs !! o = Some V → shows V l → Vs !! s = Some W → shows W l' → o ≠ s → same_blocks V W V' W' →
  shows V' m → shows W' m' → c st = Some (inl tt, put2 st o V' s W') →
  simulates may st (command c st) (inl None, set_contents (set_contents w s m') o m).
Proof using Hst HVs.
  intros HV Hsh HW HshW Hne Hbs Hsh' HshW' Hc. left. exists (put2 st o V' s W'). unfold command.
  rewrite (bind_ok _ _ _ _ _ Hc). split_and!; [done| |done]. exists (<[o := V']> (<[s := W']> Vs)).
  split; [by eapply store_put2|]. by do 2 (apply map_Forall2_insert_2; [done|]).
Qed.

Lemma blocks_apart o V s W : Vs !! o = Some V → Vs !! s = Some W → o ≠ s →
  ∀ b n b' n', v_block W = Some (b, n) → v_block V = Some (b', n') → b ≠ b'.
Proof using Hst. intros HV HW Hne b n b' n' E E' ->. apply Hne. by eapply (st_unique _ _ _ Hst o V s W). Qed.

Lemma become_fits o V l : shows V l → become w o l = (inl None, set_contents w o l).
Proof.
  intros Hsh. pose proof (sizes V l Hsh) as (? & ? & _). unfold become. by rewrite (proj2 (Z.ltb_ge _ _)) by (rewrite max_size_eq; lia).
Qed.

Lemma sim_new_move o s l :
  w_strings w !! o = None → w_strings w !! s = Some l →
  simulates false st (command (new_move o s) st) (inl None, set_contents (set_contents w s []) o l).
Proof using Hst HVs.
  intros Ho Hs. destruct (absent o Ho) as [Ho1 Ho2]. destruct (view_of s l Hs) as (W & HW & Hsh & Hhas).
  destruct (new_move_run st o s W l Ho2 Hhas Hsh) as (V' & W' & Hc & HshV & HshW & EV & EW).
  left. exists (put2 st o V' s W'). unfold command. rewrite (bind_ok _ _ _ _ _ Hc). split_and!; [done| |done].
  exists (<[o := V']> (<[s := W']> Vs)). split; [by eapply store_moved|]. by do 2 (apply map_Forall2_insert_2; [done|]).
Qed.

Lemma sim_assign_move o l s l' :
  w_strings w !! o = Some l → w_strings w !! s = Some l' → o ≠ s →
  simulates false st (command (assign_move o s) st) (inl None, set_contents (set_contents w s []) o l').
Proof using Hst HVs.
  intros Ho Hs Hne. destruct (view_of o l Ho) as (V & HV & HshV & HhasV). destruct (view_of s l' Hs) as (W & HW & HshW & HhasW).
  destruct (assign_move_run st o V l s W l') as (V' & W' & Hc & HshV' & HshW' & Hbs); try done.
  { by apply (blocks_apart o V s W). }
  by eapply sim_put2.
Qed.

Lemma sim_swap o l s l' :
  w_strings w !! o = Some l → w_strings w !! s = Some l' →
  simulates false st (command (swap o s) st) (inl None, set_contents (set_contents w s l) o l').
Proof using Hst HVs.
  intros Ho Hs. destruct (decide (o = s)) as [<-|Hne].
  - simplify_eq. assert (set_contents (set_contents w o l) o l = w) as ->.
    { unfold set_contents. cbn. rewrite insert_insert_eq, insert_id by done. by destruct w. }
    left. exists st. unfold command, swap. rewrite Nat.eqb_refl. split_and!; [done| |done]. by exists Vs.
  - destruct (view_of o l Ho) as (V & HV & HshV & HhasV). destruct (view_of s l' Hs) as (W & HW & HshW & HhasW).
    destruct (swap_run st o V l s W l') as (V' & W' & Hc & HshV' & HshW' & E1 & E2); try done.
    eapply (sim_put2 false o V l s W l'); try done. by right.
Qed.

Lemma sim_destroy o l :
  w_strings w !! o = Some l →
  simulates false st (command (destroy o) st) (inl None, World (delete o (w_strings w)) (w_arrays w)).
Proof using Hst HVs.
  intros Ho. destruct (view_of o l Ho) as (V & HV & HshV & HhasV). left. exists (gone st o V). unfold command.
  rewrite (bind_ok _ _ _ _ _ (destroy_run st o V l HhasV HshV)). split_and!; [done| |done].
  exists (delete o Vs). split; [by apply store_gone|by apply map_Forall2_delete].
Qed.

Lemma blank_same o : w_strings w !! o = None → same_strings (put st o blank).
Proof using HVs Hst.
  intros Ho s W HW Hhas. apply has_blank; [done..|]. intros <-. pose proof (proj1 (absent o Ho)). congruence.
Qed.

Lemma sim_new_from o x r :
  w_strings w !! o = None → operand_chars w x = Some r →
  simulates true st (command (run_new o x) st) (becomes w o r).
Proof using Hst HVs.
  intros Ho Hx. pose proof max_size_eq as Hmax. pose proof (blank_same o Ho) as Hbl. destruct x as [s|s pos n|t|n c]; cbn [run_new].
  - destruct (whole_then _ s r (λ p n, _M_construct o (Some p) n) Hbl Hx) as (p & new & -> & Hp & Hlen & Hc).
    by apply (sim_new_ptr o p); [..|lia|].
  - pose proof (part_then _ s pos n r (λ p n, _M_construct o (Some p) n) Hbl Hx) as Hpart. destruct r as [new|e].
    + destruct Hpart as (p & Hp & Hlen & Hc). by apply (sim_new_ptr o p); [..|lia|].
    + apply sim_throw. by apply construct_throws.
  - destruct (text_then t r (λ t p, match t with Range _ n => new_ptr_n o (Some p) n | CStr _ => new_ptr o (Some p) end) Hx)
      as (p & new & -> & Hp & Hm & Hlen & Hc).
    assert (cells (put st o blank) p.1 = cells st p.1) as Hcells.
    { destruct (points_blank o p new Ho Hp) as [Hr Ho']. assert (p.1 ≠ Local o); [|by apply put_cells_other].
      intros E. unfold reads, read_cells in Hr. rewrite E in Hr. cbn in Hr. by rewrite Ho' in Hr. }
    destruct t as [pl n|pl]; cbn [measured text_place] in *; unfold command; unfold mbind at 1, Exc_bind at 1; rewrite Hc.
    + subst n. by apply (sim_new_ptr o p new (_M_construct o (Some p) (Z.of_nat (length new)))).
    + apply (sim_new_ptr o p new (n ← traits_length p; _M_construct o (Some p) n)); [done..|].
      by rewrite (bind_ok _ _ _ _ _ (Hm _ Hcells)).
  - cbn in Hx. destruct (is_size n) eqn:En; [|done]. injection Hx as <-. apply is_size_spec in En.
    apply sim_birth; [done| |done]. apply construct_run; [by apply absent|].
    pose proof (construct_fill_run st o (Z.to_nat n) c ltac:(by apply absent) ltac:(lia)) as Hr. by rewrite Z2Nat.id in Hr by lia.
Qed.

(** ** Looking *)

Lemma sim_answer (c : Exc Z) z : c st = Some (inl z, st) → simulates false st (answer c st) (inl (Some z), w).
Proof using Hst HVs. intros Hc. left. exists st. unfold answer. rewrite (bind_ok _ _ _ _ _ Hc). split_and!; [done|apply inv_here|done]. Qed.

Lemma nth_cell V l i : shows V l → (i <= length l)%nat → v_cells V !! i = Some (Some (nth i l 0)).
Proof.
  intros Hsh Hi. destruct (decide (i = length l)) as [->|].
  - by rewrite (sh_null _ _ Hsh), nth_overflow.
  - rewrite (sh_agrees _ _ Hsh) by lia. destruct (lookup_lt_is_Some_2 l i ltac:(lia)) as [c Hc].
    by rewrite Hc, (nth_lookup_Some _ _ _ _ Hc).
Qed.

Lemma char_run o V l pos :
  has st o V → shows V l → 0 <= pos <= Z.of_nat (length l) →
  (p ← _M_data o; read_char (offset p pos)) st = Some (inl (nth (Z.to_nat pos) l 0), st).
Proof.
  intros HV Hsh Hpos. rewrite (bind_ok _ _ _ _ _ (data_run _ _ _ HV)). unfold offset. cbn [fst snd].
  rewrite Z.add_0_l, <-(Z2Nat.id pos) at 1 by lia. apply (read_char_cells _ _ _ (v_cells V)); [by apply cells_view|].
  apply nth_cell; [done|lia].
Qed.

Lemma sim_at o l pos :
  w_strings w !! o = Some l → 0 <= pos →
  simulates false st (answer (at_pos o pos) st)
    (if Z.of_nat (length l) <=? pos then (inr out_of_range, w) else (inl (Some (nth (Z.to_nat pos) l 0)), w)).
Proof using Hst HVs.
  intros Ho Hpos. destruct (view_of o l Ho) as (V & HV & Hsh & Hhas). pose proof (string_size_run _ _ _ Hhas) as Hsize.
  rewrite (sh_len _ _ Hsh) in Hsize. destruct (Z.leb_spec (Z.of_nat (length l)) pos) as [Hle|Hgt].
  - left. exists st. split_and!; [|apply inv_here|done]. unfold answer, at_pos. rewrite (bind_throws _ _ _ out_of_range st); [done|].
    by rewrite (bind_ok _ _ _ _ _ Hsize), (proj2 (Z.leb_le _ _)).
  - apply sim_answer. unfold at_pos. rewrite (bind_ok _ _ _ _ _ Hsize), (proj2 (Z.leb_gt _ _)) by done.
    apply (char_run o V); [done..|lia].
Qed.

(** Copying out into an array. *)
Lemma store_array b cs cs' :
  w_arrays w !! b = Some cs → store (with_block st b cs') (<[b := cs']> (w_arrays w)) Vs.
Proof using Hst.
  intros Hcs. destruct Hst as [Hs Hb Hu Ha Hap Hn]. split; cbn; [done| |done|..].
  - intros o V b' n HV E. rewrite lookup_insert_ne; [by eapply Hb|]. intros <-. by eapply Hap.
  - intros b' cs0 [ [<- <-]|[Hne E] ]%lookup_insert_Some; [apply lookup_insert_eq|]. rewrite lookup_insert_ne by done. by apply Ha.
  - intros b' cs0 o V n [ [<- <-]|[Hne E] ]%lookup_insert_Some; by eapply Hap.
  - intros b' cs0 [ [<- <-]|[Hne E] ]%lookup_insert_Some; [left; apply lookup_insert_eq|].
    rewrite lookup_insert_ne by done. by apply Hn.
Qed.

Lemma sim_copy o b off n pos l cs :
  w_strings w !! o = Some l → w_arrays w !! b = Some cs → 0 <= pos <= Z.of_nat (length l) → 0 <= n →
  let new := sub l (Z.to_nat pos) (limit l pos n) in
  0 <= off → off + Z.of_nat (length new) <= Z.of_nat (length cs) →
  simulates false st (answer (copy o (Block b, off) n pos) st)
    (inl (Some (Z.of_nat (length new))),
     World (w_strings w) (<[b := splice (Z.to_nat off) (Some <$> new) cs]> (w_arrays w))).
Proof using Hst HVs.
  intros Ho Hcs Hpos Hn new Hoff Hfit. destruct (view_of o l Ho) as (V & HV & Hsh & Hhas).
  pose proof (limit_bounds l pos n Hpos Hn) as Hlim. pose proof (length_sub l (Z.to_nat pos) (limit l pos n) Hlim) as Hlen.
  fold new in Hlen. pose proof (check_run st o V l pos Hhas Hsh) as Hchk. rewrite (proj2 (Z.ltb_ge _ _)) in Hchk by lia.
  assert (reads st (v_buffer o V, pos) new) as Hr by (apply points_reads, points_part; done).
  pose proof (st_arrays _ _ _ Hst _ _ Hcs) as Hb. assert (with_block st b cs = st) as Hwb.
  { unfold with_block. rewrite insert_id by done. by destruct st. }
  assert (v_buffer o V ≠ Block b) as Hne.
  { unfold v_buffer. destruct (v_block V) as [ [b' m]|] eqn:E; [|done]. intros [= ->]. by eapply (st_apart _ _ _ Hst). }
  pose proof (copy_block_if st b cs (Z.to_nat off) (v_buffer o V, pos) new) as Hcp.
  rewrite Hwb, Z2Nat.id in Hcp by done. specialize (Hcp Hr Hne ltac:(lia)).
  left. exists (with_block st b (splice (Z.to_nat off) (Some <$> new) cs)).
  split_and!; [|by exists Vs; split; [eapply store_array|]|done]. unfold answer, copy. rewrite !bind_assoc, (bind_ok _ _ _ _ _ Hchk).
  rewrite !bind_assoc, (bind_ok _ _ _ _ _ (limit_run st o V l pos n Hhas Hsh ltac:(lia) ltac:(lia))), !bind_assoc, <-Hlen.
  rewrite (bind_ok _ _ _ tt (with_block st b (splice (Z.to_nat off) (Some <$> new) cs))); [done|].
  destruct (truth _); [|done]. by rewrite (bind_ok _ _ _ _ _ (data_run _ _ _ Hhas)).
Qed.

End operation.
End client.
