(* ===== verification/StdStringTheory.v ===== *)
(** * Properties of strings *)
From stdpp Require Import base numbers list gmap.
From Stdlib Require Import ZArith Lia.
From S2P Require Import Prelude StdString StdStringView StdStringInPlace StdStringOps StdStringLife StdStringMove.
From S2P Require Import StdStringMemory StdStringSpec StdStringClient.

Section theory.
Context `{Allocator}.

(** Takes the meaning of an operation apart. *)
Local Ltac meaning :=
  repeat match goal with
  | E : (_ ≫= _) = Some _ |- _ => let l := fresh "l" in let Hl := fresh "Hl" in apply bind_Some in E as (l & Hl & E)
  | E : (if ?b then _ else None) = Some _ |- _ => destruct b eqn:?; [|discriminate E]
  | E : _ && _ = true |- _ => apply andb_true_iff in E as [? ?]
  | E : is_size _ = true |- _ => apply is_size_spec in E
  | E : (_ <=? _) = true |- _ => apply Z.leb_le in E
  end.

Lemma become_same w o l V : w_strings w !! o = Some l → shows V l → become w o l = (inl None, w).
Proof.
  intros Ho Hsh. rewrite (become_fits w o V l Hsh). unfold set_contents. rewrite insert_id by done. by destruct w.
Qed.

(** Every operation does what it means. *)
Lemma op_simulates st w i s : inv st w → spec_op w i = Some s → simulates (may_allocate i) st (run_op i st) s.
Proof.
  intros (Vs & Hst & HVs) E.
  assert (∀ w' o r, create w' o r = Some s → w_strings w' !! o = None ∧ s = becomes w' o r) as Hcreate.
  { intros w' o r. unfold create. destruct (w_strings w' !! o); [done|]. by intros [= <-]. }
  pose proof (view_of st w Vs Hst HVs) as Hview.
  destruct i; cbn [spec_op run_op may_allocate] in *; meaning; try (injection E as <-);
    try (apply Hcreate in E as [Ho ->]);
    try match goal with Ho : w_strings w !! ?o = Some ?l |- _ => destruct (Hview o l Ho) as (V & HV & Hsh & Hhas) end.
  - pose proof (new_empty_run st o (proj2 (absent st w Vs Hst HVs o Ho))) as Hb.
    by apply (sim_birth st w Vs Hst HVs false o []); [|left|intros _].
  - by apply (sim_new_from st w Vs).
  - apply (sim_throw st w Vs Hst HVs). apply (construct_throws st w Vs Hst HVs); [done|]. apply construct_null_run.
    match goal with E : negb (_ =? 0) = true |- _ => apply negb_true_iff, Z.eqb_neq in E end. lia.
  - apply (sim_birth st w Vs Hst HVs true); [done|apply new_input_run; by apply (absent st w Vs)|done].
  - destruct (w_strings w !! o) eqn:Ho; [done|]. injection E as <-. by apply (sim_new_move st w Vs).
  - by eapply (sim_destroy st w Vs).
  - by apply (sim_append st w Vs).
  - apply (sim_outcome st w Vs Hst HVs o V l); [done..|]. by apply push_back_run.
  - by apply (sim_assign st w Vs Hst HVs o V l).
  - destruct (Nat.eqb_spec o s0) as [|Hne]; [done|]. injection E as <-. by eapply (sim_assign_move st w Vs).
  - apply (sim_insert st w Vs Hst HVs o V); done || lia.
  - apply (sim_replace st w Vs Hst HVs o V); done || lia.
  - apply (sim_erase st w Vs Hst HVs o V); done || lia.
  - apply (sim_erase_range st w Vs Hst HVs o V); done || lia.
  - destruct l as [|c l]; [done|]. injection E as <-. by apply (sim_pop_back st w Vs Hst HVs o V (c :: l)).
  - by apply (sim_resize st w Vs Hst HVs o V).
  - apply (sim_yields st w Vs Hst HVs false o V l); [done..|]. by apply (set_length_run st o V l Hhas Hsh 0); lia.
  - destruct (reserve_run st o V l n Hhas Hsh) as [Hy|Hc]; [done|..].
    + destruct Hy as (Hn & Hy). rewrite (proj2 (Z.ltb_ge _ _)), <-(become_same w o l V) by done.
      by apply (sim_yields st w Vs Hst HVs true o V l).
    + destruct (max_size <? n); [by apply (sim_throw st w Vs)|right]. split; [done|]. unfold command. by rewrite (bind_throws _ _ _ _ _ Hc).
  - rewrite <-(become_same w o l V) by done. apply (sim_yields st w Vs Hst HVs false o V l); [done..|by apply shrink_run].
  - by apply (sim_swap st w Vs).
  - apply (sim_answer st w Vs Hst HVs). rewrite (string_size_run _ _ _ Hhas), (sh_len _ _ Hsh). done.
  - apply (sim_answer st w Vs Hst HVs). by apply (char_run st o V).
  - apply (sim_at st w Vs); done || lia.
  - destruct (Z.ltb_spec (Z.of_nat (length l)) pos).
    + injection E as <-. left. exists st. split_and!; [|by exists Vs|done].
      pose proof (check_run st o V l pos Hhas Hsh) as Hchk. rewrite (proj2 (Z.ltb_lt _ _)) in Hchk by done.
      unfold answer, copy. by rewrite !bind_assoc, (bind_throws _ _ _ _ _ Hchk).
    + meaning. injection E as <-. apply (sim_copy st w Vs); done || lia.
Qed.

(** No operation means that there is no memory. *)
Lemma operand_not_refused w x : operand_chars w x ≠ Some (inr bad_alloc).
Proof.
  destruct x as [s|s pos n|t|n c]; cbn; intros E; meaning; try done.
  - destruct (w_strings w !! s); done.
  - destruct (_ <? _); done.
  - destruct (text_chars w t); done.
Qed.

Lemma becomes_not_refused w o r : r ≠ inr bad_alloc → (becomes w o r).1 ≠ inr bad_alloc.
Proof. destruct r as [l|e]; cbn; [intros _; unfold become; by destruct (_ <? _)|]. congruence. Qed.

Lemma replaced_not_refused l pos n r : r ≠ inr bad_alloc → replaced_at l pos n r ≠ inr bad_alloc.
Proof. destruct r as [new|e]; cbn; [by destruct (_ <? _)|]. congruence. Qed.

Lemma spec_not_refused w i s : spec_op w i = Some s → s.1 ≠ inr bad_alloc.
Proof.
  intros E. assert (∀ w' o r, create w' o r = Some s → s = becomes w' o r) as Hcreate.
  { intros w' o r. unfold create. destruct (w_strings w' !! o); [done|]. by intros [= <-]. }
  destruct i; cbn [spec_op] in E; meaning; try (apply Hcreate in E); try (injection E as <-); subst; cbn;
    try (apply becomes_not_refused); try (apply replaced_not_refused); try done;
    try (by intros ->; by eapply operand_not_refused); try (unfold become; by destruct (_ <? _)).
  - destruct (w_strings w !! o); [done|]. by injection E as <-.
  - destruct l0 as [new|e]; cbn; [done|]. intros [= ->]. by eapply operand_not_refused.
  - destruct (_ =? _)%nat; [done|]. by injection E as <-.
  - destruct l; [done|]. injection E as <-. unfold become. by destruct (_ <? _).
  - by destruct (_ <=? _).
  - destruct (_ <? _); [by injection E as <-|]. meaning. by injection E as <-.
Qed.

(** What throws means no change. *)
Lemma become_throws w o l e w' : become w o l = (inr e, w') → w' = w.
Proof. unfold become. destruct (_ <? _); congruence. Qed.

Lemma becomes_throws w o r e w' : becomes w o r = (inr e, w') → w' = w.
Proof. destruct r as [l|e']; cbn; [apply become_throws|congruence]. Qed.

Lemma spec_throws w i e w' : spec_op w i = Some (inr e, w') → w' = w.
Proof.
  intros E. assert (∀ o r, create w o r = Some (inr e, w') → w' = w) as Hcreate.
  { intros o r. unfold create. destruct (w_strings w !! o); [done|]. intros [= E']. by eapply becomes_throws. }
  destruct i; cbn [spec_op] in E; meaning; try exact (Hcreate _ _ E); try (injection E as E); subst;
    try exact (becomes_throws _ _ _ _ _ E); try exact (become_throws _ _ _ _ _ E); try done.
  - by destruct (w_strings w !! o).
  - by destruct (_ =? _)%nat.
  - destruct l as [|c l]; [done|]. injection E as E. exact (become_throws _ _ _ _ _ E).
  - destruct (_ <? _); by simplify_eq.
  - destruct (_ <=? _); by simplify_eq.
  - destruct (_ <? _); [by simplify_eq|]. by meaning.
Qed.

(** * Programs *)

(** The characters of a string in memory, and the null character behind them. *)
Definition c_str (o : nat) : Exc (list cell) := p ← _M_data o; n ← size o; read_cells p (n + 1).

Lemma inv_c_str st w o l :
  inv st w → w_strings w !! o = Some l → c_str o st = Some (inl (Some <$> (l ++ [0])), st).
Proof.
  intros (Vs & Hst & HVs) Ho. destruct (view_of st w Vs Hst HVs o l Ho) as (V & HV & Hsh & Hhas).
  unfold c_str. rewrite (bind_ok _ _ _ _ _ (data_run _ _ _ Hhas)), (bind_ok _ _ _ _ _ (string_size_run _ _ _ Hhas)), (sh_len _ _ Hsh).
  pose proof (has_reads_null st o V l Hhas Hsh) as Hr. unfold reads in Hr. rewrite length_app in Hr. cbn [length] in Hr.
  by replace (Z.of_nat (length l + 1)) with (Z.of_nat (length l) + 1) in Hr by lia.
Qed.

Lemma inv_dom st w : inv st w → dom (strings st) = dom (w_strings w).
Proof.
  intros (Vs & Hst & HVs). apply set_eq. intros o. rewrite !elem_of_dom, (st_objects _ _ _ Hst).
  specialize (HVs o). inversion HVs as [V l Hsh E1 E2|E1 E2]; cbn; split; intros [? ?]; (done || by eexists).
Qed.

Lemma inv_init A : inv (State ∅ A) (World ∅ A).
Proof. exists ∅. split; [apply store_init|apply map_Forall2_empty]. Qed.

Lemma program_simulates P : ∀ st w,
  inv st w → defined w P →
  ∃ rs st' w', run_program P st = Some (rs, st') ∧ allowed w P rs w' ∧ inv st' w'.
Proof.
  induction P as [|i k IH]; intros st w Hinv Hdef; cbn in *.
  - exists [], st, w. split_and!; [done|constructor|done].
  - destruct Hdef as (r & w1 & Hspec & Hdef1 & Hdef2).
    destruct (op_simulates st w i _ Hinv Hspec) as [(st1 & Hrun & Hinv1 & _)|[Hmay Hrun] ]; cbn [fst snd] in *; rewrite Hrun; cbn.
    + destruct (IH r st1 w1 Hinv1 Hdef1) as (rs & st' & w' & -> & Hall & Hinv'). exists (r :: rs), st', w'.
      split_and!; [done|by eapply allowed_do|done].
    + destruct (IH _ st w Hinv (Hdef2 Hmay)) as (rs & st' & w' & -> & Hall & Hinv').
      exists (inr bad_alloc :: rs), st', w'. split_and!; [done|by apply allowed_refused|done].
Qed.

(** C2: Strings are lists of characters, for the programs whose operations all have a
    meaning on lists ([defined]). Such a program, with whatever memory there is, runs without undefined
    behaviour; it sees what the operations mean on lists, or that an operation failed for want
    of memory and changed nothing; and in the end each string has its characters in memory
    with a null character behind them. The operands are strings, parts of strings, pointers
    with a length, C strings and repeated characters; pointers may point into the string that
    is changed. Without a meaning are: the use of an object that is not there, positions
    behind the end where they are not checked, ranges that are not all characters of one
    string or array, in particular those that include the null character behind a string
    ([insert_own_null] shows what such a range does), and the move of a string to itself
    ([move_to_itself]). *)
Theorem strings_are_lists A P :
  defined (World ∅ A) P →
  ∃ rs st w, run_program P (State ∅ A) = Some (rs, st) ∧ allowed (World ∅ A) P rs w ∧
    dom (strings st) = dom (w_strings w) ∧
    ∀ o l, w_strings w !! o = Some l → c_str o st = Some (inl (Some <$> (l ++ [0])), st).
Proof.
  intros Hdef. destruct (program_simulates P _ _ (inv_init A) Hdef) as (rs & st & w & Hrun & Hall & Hinv).
  exists rs, st, w. split_and!; [done..| |by intros; eapply inv_c_str]. by apply inv_dom.
Qed.

(** * States *)

(** The characters among the arguments of an operation. *)
Definition operand_given (x : operand) : list Z := match x with Fill _ c => [c] | _ => [] end.

Definition op_chars (i : op) : list Z :=
  match i with
  | New_from _ x | Append _ x | Assign _ x | Insert _ _ x | Replace _ _ _ x => operand_given x
  | New_input _ input => input
  | Push_back _ c | Resize _ _ c => [c]
  | _ => []
  end.

Definition byte (c : Z) : Prop := 0 <= c < 256.

Definition bytes_ok (w : world) : Prop :=
  (∀ o l, w_strings w !! o = Some l → Forall byte l) ∧
  (∀ b cs c, w_arrays w !! b = Some cs → Some c ∈ cs → byte c).

Lemma place_bytes w p cs c : bytes_ok w → place_cells w p = Some cs → Some c ∈ cs → byte c.
Proof.
  intros [Hs Ha] E Hc. destruct p as [s off|b off]; cbn in E; meaning; injection E as <-.
  - apply list_elem_of_fmap in Hc as (c' & [= <-] & Hc). eapply Forall_forall; [by eapply Hs|]. by apply (subseteq_drop _ _) in Hc.
  - eapply Ha; [done|]. by apply (subseteq_drop _ _) in Hc.
Qed.

Lemma cells_bytes (cs rest : list cell) l : cs = (Some <$> l) ++ rest → (∀ c, Some c ∈ cs → byte c) → Forall byte l.
Proof. intros -> Hcs. apply Forall_forall. intros c Hc. apply Hcs, elem_of_app. left. by apply list_elem_of_fmap_2. Qed.

Lemma text_bytes w t l : bytes_ok w → text_chars w t = Some l → Forall byte l.
Proof.
  intros Hw E. destruct t as [p n|p]; cbn in E; meaning.
  - apply mapM_id_some in E. apply (cells_bytes l0 (drop (Z.to_nat n) l0)); [by rewrite <-E, take_drop|].
    intros c. by eapply place_bytes.
  - injection E as <-. destruct (until_null_cells _ _ Hl0) as (rest & Hr & _). eapply cells_bytes; [done|].
    intros c Hc. destruct p; [|by eapply place_bytes].
    apply elem_of_app in Hc as [Hc|Hc]; [by eapply place_bytes|]. apply list_elem_of_singleton in Hc as [= ->]. done.
Qed.

Lemma operand_bytes w x l :
  bytes_ok w → Forall byte (operand_given x) → operand_chars w x = Some (inl l) → Forall byte l.
Proof.
  intros Hw Hx E. destruct x as [s|s pos n|t|n c]; cbn in E, Hx.
  - destruct (w_strings w !! s) as [l'|] eqn:Es; [|done]. injection E as <-. by eapply (proj1 Hw).
  - meaning. destruct (_ <? _); [done|]. injection E as <-. apply Forall_take, Forall_drop. by eapply (proj1 Hw).
  - destruct (text_chars w t) as [l'|] eqn:Et; [|done]. injection E as <-. by eapply text_bytes.
  - meaning. injection E as <-. apply Forall_replicate. by inversion Hx.
Qed.

Lemma set_bytes w o l : bytes_ok w → Forall byte l → bytes_ok (set_contents w o l).
Proof. intros [Hs Ha] Hl. split; [|done]. cbn. intros o' l' [ [<- <-]|[_ ?] ]%lookup_insert_Some; [done|by eapply Hs]. Qed.

Lemma become_bytes w o l : bytes_ok w → Forall byte l → bytes_ok (become w o l).2.
Proof. intros Hw Hl. unfold become. destruct (_ <? _); [done|by apply set_bytes]. Qed.

Lemma becomes_bytes w o r : bytes_ok w → (∀ l, r = inl l → Forall byte l) → bytes_ok (becomes w o r).2.
Proof. intros Hw Hr. destruct r as [l|e]; [apply become_bytes; [done|by apply Hr]|done]. Qed.

Lemma replaced_bytes l pos n r l' :
  Forall byte l → (∀ new, r = inl new → Forall byte new) → replaced_at l pos n r = inl l' → Forall byte l'.
Proof.
  intros Hl Hr E. destruct r as [new|e]; cbn in E; [|done]. destruct (_ <? _); [done|]. injection E as <-.
  unfold replaced. apply Forall_app. split; [by apply Forall_take|]. apply Forall_app. split; [by apply Hr|by apply Forall_drop].
Qed.

Lemma spec_bytes w i r w' : spec_op w i = Some (r, w') → bytes_ok w → Forall byte (op_chars i) → bytes_ok w'.
Proof.
  intros E Hw Hi. change w' with (r, w').2. revert E. generalize (r, w'). clear r w'. intros s E.
  assert (∀ w' o r, create w' o r = Some s → s = becomes w' o r) as Hcreate.
  { intros w' o r. unfold create. destruct (w_strings w' !! o); [done|]. by intros [= <-]. }
  pose proof (proj1 Hw) as Hs.
  assert (∀ x r l, Forall byte (operand_given x) → operand_chars w x = Some r → r = inl l → Forall byte l) as Hop.
  { intros x r l Hx Hr ->. by eapply operand_bytes. }
  destruct i; cbn [spec_op op_chars] in *; meaning; try (apply Hcreate in E); try (injection E as <-); subst; cbn [snd]; try done.
  - by apply become_bytes; [|constructor].
  - apply becomes_bytes; [done|]. intros l' ->. by eapply Hop.
  - by apply become_bytes.
  - destruct (w_strings w !! o); [done|]. injection E as <-. cbn [snd].
    apply set_bytes; [|by eapply Hs]. by apply set_bytes; [|constructor].
  - split; [|apply Hw]. cbn. intros o' l' [_ ?]%lookup_delete_Some. by eapply Hs.
  - apply becomes_bytes; [done|]. intros l'. destruct l0 as [new|e]; cbn; [|done]. intros [= <-].
    apply Forall_app. split; [by eapply Hs|by eapply Hop].
  - apply become_bytes; [done|]. apply Forall_app. split; [by eapply Hs|done].
  - apply becomes_bytes; [done|]. intros l' ->. by eapply Hop.
  - destruct (_ =? _)%nat; [done|]. injection E as <-. apply set_bytes; [|by eapply Hs]. by apply set_bytes; [|constructor].
  - apply becomes_bytes; [done|]. intros l'. apply replaced_bytes; [by eapply Hs|]. intros new ->. by eapply Hop.
  - apply becomes_bytes; [done|]. intros l'. apply replaced_bytes; [by eapply Hs|]. intros new ->. by eapply Hop.
  - apply becomes_bytes; [done|]. intros l'. apply (replaced_bytes l pos n (inl [])); [by eapply Hs|]. by intros new [= <-].
  - apply becomes_bytes; [done|]. intros l'. apply (replaced_bytes l first (last0 - first) (inl [])); [by eapply Hs|]. by intros new [= <-].
  - destruct l as [|c l]; [done|]. injection E as <-. apply become_bytes; [done|].
    change (match l with [] => [] | _ :: _ => c :: removelast l end) with (removelast (c :: l)).
    rewrite removelast_firstn_len. apply Forall_take. by eapply Hs.
  - apply become_bytes; [done|]. apply Forall_app. split; [apply Forall_take; by eapply Hs|].
    apply Forall_replicate. by inversion Hi.
  - by apply become_bytes; [|constructor].
  - by destruct (_ <? _).
  - apply set_bytes; [apply set_bytes|]; [done|by eapply Hs..].
  - by destruct (_ <=? _).
  - destruct (_ <? _); [by injection E as <-|]. meaning. injection E as <-. cbn [snd]. split; [done|]. cbn.
    intros b' cs c [ [<- <-]|[_ ?] ]%lookup_insert_Some Hc; [|by eapply (proj2 Hw)].
    apply elem_of_app in Hc as [Hc|[Hc|Hc]%elem_of_app].
    + apply subseteq_take in Hc. by eapply (proj2 Hw).
    + apply list_elem_of_fmap in Hc as (c' & [= <-] & Hc). apply subseteq_take, subseteq_drop in Hc.
      eapply Forall_forall; [by eapply Hs|done].
    + apply subseteq_drop in Hc. by eapply (proj2 Hw).
Qed.

(** The states between the operations of a program. *)
Inductive reachable : state → world → Prop :=
  | reachable_init A :
      (∀ b cs c, A !! b = Some cs → Some c ∈ cs → byte c) → reachable (State ∅ A) (World ∅ A)
  | reachable_step st w i r w1 st' :
      reachable st w → spec_op w i = Some (r, w1) → Forall byte (op_chars i) →
      run_op i st = Some (r, st') → reachable st' w1
  | reachable_refused st w i r w1 st' :
      reachable st w → spec_op w i = Some (r, w1) →
      run_op i st = Some (inr bad_alloc, st') → reachable st' w.

Lemma reachable_inv st w : reachable st w → inv st w ∧ bytes_ok w.
Proof.
  induction 1 as [A HA|st w i r w1 st' _ [Hinv Hb] Hspec Hi Hrun|st w i r w1 st' _ [Hinv Hb] Hspec Hrun].
  - split; [apply inv_init|]. split; [|done]. intros o l E. cbn in E. by rewrite lookup_empty in E.
  - split; [|by eapply spec_bytes]. pose proof (spec_not_refused _ _ _ Hspec) as Hnr.
    destruct (op_simulates st w i _ Hinv Hspec) as [(st1 & Hrun1 & Hinv1 & _)|[_ Hrun1] ]; cbn [fst snd] in *; simplify_eq; done.
  - split; [|done]. destruct (op_simulates st w i _ Hinv Hspec) as [(st1 & Hrun1 & Hinv1 & He)|[_ Hrun1] ]; cbn [fst snd] in *; simplify_eq; [|done].
    by destruct (spec_not_refused _ _ _ Hspec).
Qed.

(** The block that a string uses. *)
Definition uses (st : state) (o b : nat) : Prop := ∃ s, strings st !! o = Some s ∧ (_M_p s).1 = Block b.

Lemma uses_view st A Vs o b : store st A Vs → uses st o b ↔ ∃ V n, Vs !! o = Some V ∧ v_block V = Some (b, n).
Proof.
  intros Hst. unfold uses. rewrite (st_objects _ _ _ Hst). split.
  - intros (s & E & Hp). destruct (Vs !! o) as [V|]; cbn in E; [|done]. injection E as <-. cbn in Hp. unfold v_buffer in Hp.
    destruct (v_block V) as [ [b' n]|] eqn:E'; [|done]. injection Hp as ->. by exists V, n.
  - intros (V & n & -> & E). exists (v_object o V). split; [done|]. unfold v_object, v_buffer. cbn. by rewrite E.
Qed.

(** C5: Strings own their memory. In every state that a program can reach, each block of memory
    is one of the program's arrays, as it left it, or the buffer of exactly one string; no two
    strings share a buffer, none uses an array, and no block is lost. Once all strings are
    destroyed, only the arrays are there. *)
Theorem strings_own_memory st w :
  reachable st w →
  (∀ b, is_Some (blocks st !! b) ↔ b ∈ dom (w_arrays w) ∨ ∃ o, uses st o b) ∧
  (∀ o o' b, uses st o b → uses st o' b → o = o') ∧
  (∀ o b, uses st o b → w_arrays w !! b = None) ∧
  (∀ b cs, w_arrays w !! b = Some cs → blocks st !! b = Some cs) ∧
  (w_strings w = ∅ → st = State ∅ (w_arrays w)).
Proof.
  intros [(Vs & Hst & HVs) _]%reachable_inv. pose proof (λ o b, uses_view st _ Vs o b Hst) as Hu. split_and!.
  - intros b. rewrite elem_of_dom. split.
    + intros [cs Hb]. destruct (st_no_leak _ _ _ Hst b cs Hb) as [?|(o & V & n & HV & E)]; [left; by eexists|right].
      exists o. apply Hu. by exists V, n.
    + intros [ [cs Hcs]|[o (V & n & HV & E)%Hu] ]; eexists; [by eapply st_arrays|by eapply st_blocks].
  - intros o o' b (V & n & HV & E)%Hu (V' & n' & HV' & E')%Hu. by eapply (st_unique _ _ _ Hst o V o' V').
  - intros o b (V & n & HV & E)%Hu. destruct (w_arrays w !! b) as [cs|] eqn:Ecs; [|done]. by destruct (st_apart _ _ _ Hst b cs o V n).
  - apply (st_arrays _ _ _ Hst).
  - intros E. rewrite E in HVs. apply map_Forall2_empty_inv_r in HVs as ->. by apply store_empty.
Qed.

(** What the members of an object and the cells of its buffer may be. *)
Definition well_typed (st : state) (o : nat) (s : basic_string) : Prop :=
  ∃ b cs, _M_p s = (b, 0) ∧ cells st b = Some cs ∧
    match _M_union s with
    | _M_local_buf _ => b = Local o ∧ length cs = 16%nat
    | _M_allocated_capacity n =>
        (∃ k, b = Block k) ∧ _S_local_capacity <= n <= max_size ∧ Z.of_nat (length cs) = n + 1
    end ∧
    0 <= _M_string_length s < Z.of_nat (length cs) ∧
    (∀ i, (i < Z.to_nat (_M_string_length s))%nat → ∃ c, cs !! i = Some (Some c) ∧ byte c) ∧
    cs !! Z.to_nat (_M_string_length s) = Some (Some 0).

(** C6: Every string is well-formed in every state that a program can reach: it points to its own
    local buffer of sixteen characters, and then the union holds that, or to a block of one
    character more than its capacity, which is then in the union and between 15 and
    [max_size]; the length is below the size of the buffer, the characters before it are
    bytes that have been written, and the character at it is null. *)
Theorem strings_well_typed st w o s : reachable st w → strings st !! o = Some s → well_typed st o s.
Proof.
  intros [Hinv [Hbytes _] ]%reachable_inv Hs. assert (is_Some (w_strings w !! o)) as [l Ho].
  { apply elem_of_dom. rewrite <-(inv_dom _ _ Hinv). by apply elem_of_dom. }
  destruct Hinv as (Vs & Hst & HVs). destruct (view_of st w Vs Hst HVs o l Ho) as (V & HV & Hsh & Hhas).
  rewrite (proj1 Hhas) in Hs. injection Hs as <-. pose proof (sizes V l Hsh) as (Hs1 & Hs2 & Hs3).
  exists (v_buffer o V), (v_cells V). cbn [v_object _M_p _M_string_length _M_union]. rewrite (sh_len _ _ Hsh), Nat2Z.id.
  split_and!; [done|by apply cells_view| |lia|lia| |apply Hsh].
  - unfold v_buffer, v_cap in *. destruct (v_block V) as [ [b n]|].
    + split_and!; [by eexists|unfold _S_local_capacity; lia|rewrite max_size_eq; lia|done].
    + unfold _S_local_capacity in *. split; [done|lia].
  - intros i Hi. rewrite (sh_agrees _ _ Hsh) by done. destruct (lookup_lt_is_Some_2 l i Hi) as [c Hc].
    exists c. rewrite Hc. split; [done|]. by eapply Forall_lookup_1; [eapply Hbytes|].
Qed.

(** C7: The strong guarantee of exceptions: an operation that throws, whether the position is not
    in the string, the result would be too long, a null pointer was given or there is no
    memory, leaves every object and all memory exactly as they were. *)
Theorem exceptions_change_nothing st w i r w1 e st' :
  reachable st w → spec_op w i = Some (r, w1) → run_op i st = Some (inr e, st') →
  st' = st ∧ (e = bad_alloc ∨ (r = inr e ∧ w1 = w)).
Proof.
  intros [Hinv _]%reachable_inv Hspec Hrun.
  destruct (op_simulates st w i _ Hinv Hspec) as [(st1 & Hrun1 & Hinv1 & He)|[_ Hrun1] ]; cbn [fst snd] in *; simplify_eq.
  - split; [by eapply He|right]. split; [done|]. by eapply spec_throws.
  - by split; [|left].
Qed.

End theory.

(** * Examples *)

(** There is always memory. *)
Definition plenty : Allocator := {| refuses := λ _ _, false |}.

(** A program that does one operation after the other, and ends when there is no memory. *)
Fixpoint straight (ops : list op) : program :=
  match ops with
  | [] => Done
  | i :: ops => Do i (λ r, match r with inr bad_alloc => Done | _ => straight ops end)
  end.

Local Ltac defined_by_computing :=
  repeat (eexists _, _; split; [vm_compute; reflexivity|split; [|done] ]); exact I.

(** A string from an array, put in front of itself and into another one. *)
Definition example_arrays : gmap nat (list cell) := {[ 7%nat := [Some 104; Some 105; Some 0; None] ]}.

Definition example_ops : list op :=
  [New_from 0 (Chars (CStr (In_array 7 0))); Insert 0 1 (Chars (Range (In_string 0 0) 2)); New_from 1 (Part 0 1 2);
   Append 1 (Fill 20 65); Swap 0 1; At 1 9; Copy 1 7 0 3 1; Destroy 0].

Lemma strings_are_lists_witness :
  ∃ rs st w, run_program (H := plenty) (straight example_ops) (State ∅ example_arrays) = Some (rs, st) ∧
    allowed (World ∅ example_arrays) (straight example_ops) rs w ∧ dom (strings st) = dom (w_strings w) ∧
    ∀ o l, w_strings w !! o = Some l → c_str o st = Some (inl (Some <$> (l ++ [0])), st).
Proof. apply (strings_are_lists (H := plenty)). defined_by_computing. Defined.

(** A state after some operations. *)
Fixpoint after (st : state) (ops : list op) : state :=
  match ops with
  | [] => st
  | i :: ops => match run_op (H := plenty) i st with Some (_, st) => after st ops | None => st end
  end.

Fixpoint meant (w : world) (ops : list op) : world :=
  match ops with
  | [] => w
  | i :: ops => match spec_op w i with Some (_, w) => meant w ops | None => w end
  end.

Definition example_start : state := State ∅ example_arrays.
Definition example_first : op := New_from 0 (Chars (CStr (In_array 7 0))).
Definition example_second : op := Append 0 (Fill 20 65).

(** A local string, and the same one in a block. *)
Lemma example_reachable :
  reachable (H := plenty) (after example_start [example_first]) (meant (World ∅ example_arrays) [example_first]).
Proof.
  apply (reachable_step (H := plenty) example_start (World ∅ example_arrays) example_first (inl None)).
  - apply reachable_init. unfold example_arrays. intros b cs c [<- <-]%lookup_singleton_Some Hc. unfold byte.
    repeat (apply elem_of_cons in Hc as [Hc|Hc]; [first [discriminate Hc|injection Hc as ->; lia]|]). by apply elem_of_nil in Hc.
  - vm_compute. reflexivity.
  - constructor.
  - vm_compute. reflexivity.
Qed.

Lemma strings_own_memory_witness :
  let st := after example_start [example_first; example_second] in
  uses st 0 8 ∧ ∀ o, uses st o 8 → o = 0%nat.
Proof.
  intros st. assert (uses st 0 8) as Hu by (eexists; vm_compute; split; reflexivity). split; [exact Hu|]. intros o Ho.
  refine (proj1 (proj2 (strings_own_memory (H := plenty) st (meant (World ∅ example_arrays) [example_first; example_second]) _)) o 0%nat 8%nat Ho Hu).
  apply (reachable_step (H := plenty) _ _ example_second (inl None) _ _ example_reachable).
  - vm_compute. reflexivity.
  - repeat constructor; vm_compute; congruence.
  - vm_compute. reflexivity.
Defined.

Lemma strings_well_typed_witness :
  ∃ s, strings (after example_start [example_first]) !! 0%nat = Some s ∧ well_typed (after example_start [example_first]) 0 s.
Proof.
  eexists. split; [vm_compute; reflexivity|].
  apply (strings_well_typed (H := plenty) _ _ 0%nat _ example_reachable). vm_compute. reflexivity.
Defined.

Lemma exceptions_change_nothing_witness :
  ∃ st', run_op (H := plenty) (At 0 2) (after example_start [example_first]) = Some (inr out_of_range, st') ∧
    st' = after example_start [example_first].
Proof.
  eexists. split; [vm_compute; reflexivity|].
  apply (exceptions_change_nothing (H := plenty) _ _ (At 0 2) (inr out_of_range)
    (meant (World ∅ example_arrays) [example_first]) out_of_range _ example_reachable).
  - vm_compute. reflexivity.
  - vm_compute. reflexivity.
Defined.
