(* ===== verification/StdStringAlias.v ===== *)
(** * Where strings break their promise: a string with its own null character, and itself

    The characters that a program passes may be those of the string that it changes
    ([StdStringClient]). The null character behind them is one of the characters that
    [c_str()] points to, but the functions that work in the buffer forget it; and a string
    can be moved into itself. *)
From stdpp Require Import base numbers list gmap.
From Stdlib Require Import ZArith Lia.
From S2P Require Import Prelude StdString StdStringView StdStringInPlace StdStringOps StdStringLife StdStringMove.
From S2P Require Import StdStringMemory StdStringSpec StdStringClient.

Section alias.
Context `{Allocator} (st : state) (o : nat) (V : view) (l : list Z).
Context (HV : has st o V) (Hsh : shows V l).

#[local] Abbreviation len := (Z.of_nat (length l)).

(** Copying cells inside the buffer, whatever they are. *)
Lemma copy_cells_run st' V' d s n :
  good V' → 2 <= Z.of_nat n → (d + n <= s)%nat → (s + n <= length (v_cells V'))%nat →
  _S_copy (v_buffer o V', Z.of_nat d) (v_buffer o V', Z.of_nat s) (Z.of_nat n) (put st' o V') =
  Some (inl tt, put st' o (with_cells V' (splice d (take n (drop s (v_cells V'))) (v_cells V')))).
Proof.
  intros Hg Hn Hds Hs. unfold _S_copy, traits_copy, memcpy, overlap. cbn [fst snd].
  rewrite !(proj2 (Z.eqb_neq _ _)) by lia. rewrite bool_decide_eq_true_2 by done. cbn [andb].
  rewrite (proj2 (Z.ltb_lt (Z.of_nat d) _)), (proj2 (Z.ltb_ge _ _)) by lia. cbn [andb]. unfold memmove.
  rewrite (bind_ok _ _ _ _ _ (read_run _ _ _ (has_put st' o V' Hg) s n ltac:(lia))).
  apply put_write; [done|]. rewrite length_take, length_drop. lia.
Qed.

(** The tail moves up, and with it goes what the null character is copied from. *)
Definition own_tail : list cell := splice (S (length l)) (Some <$> l) (v_cells V).
Definition own_copied : list cell := splice 0 (take (S (length l)) (drop (S (length l)) own_tail)) own_tail.

Lemma own_lengths :
  2 * len + 1 <= v_cap V → length own_tail = length (v_cells V) ∧ length own_copied = length (v_cells V).
Proof using HV Hsh.
  intros Hroom. pose proof (sizes V l Hsh) as (Hs1 & Hs2 & Hs3).
  assert (length own_tail = length (v_cells V)) as Hl1 by (apply length_splice; cell_lengths; lia).
  split; [done|]. rewrite <-Hl1. apply length_splice. rewrite length_take, length_drop. lia.
Qed.

Lemma insert_own_in_place :
  l ≠ [] → 2 * len + 1 <= v_cap V →
  _M_replace_in_place (v_buffer o V, 0) (v_buffer o V, 0) 0 (Z.of_nat (S (length l))) len st =
  Some (inl tt, put st o (with_cells V own_copied)).
Proof using HV Hsh.
  intros Hne Hroom. pose proof (sizes V l Hsh) as (Hs1 & Hs2 & Hs3). destruct (own_lengths Hroom) as [Hl1 Hl2].
  assert (0 < length l)%nat as Hl by (destruct l; cbn; [done|lia]). set (n := S (length l)) in *.
  unfold _M_replace_in_place, truth, offset. cbn [fst snd].
  rewrite (proj2 (Z.leb_gt (Z.of_nat n) 0)), !(proj2 (Z.eqb_neq _ _)), (proj2 (Z.ltb_lt _ _)) by lia. cbn [negb andb].
  rewrite bind_ret, !Z.add_0_l, !Z.add_0_r.
  assert (good (with_cells V own_tail)) as Hg1 by (by apply good_cells; [apply Hsh|]).
  rewrite (bind_ok _ _ _ tt (put st o (with_cells V own_tail))).
  2: { rewrite <-(put_same st o V HV) at 1. apply put_move; [apply Hsh| |cbn; lia].
       rewrite (put_same st o V HV). by apply has_reads_all. }
  rewrite (proj2 (Z.leb_gt _ _)), (proj2 (Z.leb_le 0 0)) by lia.
  pose proof (copy_cells_run st (with_cells V own_tail) 0 n n Hg1 ltac:(lia) ltac:(lia) ltac:(cbn; lia)) as Hc.
  exact Hc.
Qed.

(** C30: Inserting a string, with its null character, in front of itself does not insert the null
    character: [s.insert(0, s.c_str(), s.size() + 1)], where the buffer has room, leaves
    behind the first copy of the characters whatever was in the buffer at twice the length
    plus one. *)
Theorem insert_own_null :
  l ≠ [] → 2 * len + 1 <= v_cap V →
  ∃ V', insert_ptr_n o 0 (v_buffer o V, 0) (len + 1) st = Some (inl tt, put st o V') ∧
    v_len V' = 2 * len + 1 ∧ v_cells V' !! length l = v_cells V !! (2 * length l + 1)%nat.
Proof using HV Hsh.
  intros Hne Hroom. pose proof (sizes V l Hsh) as (Hs1 & Hs2 & Hs3). pose proof max_size_eq as Hmax.
  destruct (own_lengths Hroom) as [Hl1 Hl2]. pose proof (insert_own_in_place Hne Hroom) as Hip.
  assert (0 < length l)%nat as Hl by (destruct l; cbn; [done|lia]).
  replace (len + 1) with (Z.of_nat (S (length l))) by lia. unfold insert_ptr_n, replace_ptr_n. rewrite (checked st o V l Hsh HV 0 0) by lia.
  assert (limit l 0 0 = 0)%nat as -> by (unfold limit; lia). unfold _M_replace.
  pose proof (check_length_run st o V l HV Hsh 0 (Z.of_nat (S (length l))) ltac:(lia) ltac:(lia)) as Hchk.
  rewrite (proj2 (Z.ltb_ge _ _)) in Hchk by lia.
  rewrite (bind_ok _ _ _ _ _ Hchk), (bind_ok _ _ _ _ _ (string_size_run _ _ _ HV)), (sh_len _ _ Hsh).
  rewrite (bind_ok _ _ _ _ _ (capacity_run _ _ _ HV)), u32_new by lia. rewrite (proj2 (Z.leb_le _ _)) by lia.
  rewrite (u32_tail (length l) (Z.to_nat 0) 0) by lia.
  rewrite bind_assoc, (bind_ok _ _ _ _ _ (data_run _ _ _ HV)), bind_assoc.
  rewrite (bind_ok _ _ _ false st).
  2: { rewrite (disjunct_run st o V l HV Hsh (v_buffer o V, 0) []); [by rewrite bool_decide_eq_false_2 by tauto|].
       right. exists 0%nat. split_and!; [done|cbn; lia|done]. }
  cbv beta iota. unfold offset at 1. cbn [fst snd Z.add Z.of_nat Z.to_nat]. rewrite !Nat.sub_0_r.
  rewrite (bind_ok _ _ _ _ _ Hip), (put_set_length st o (with_cells V own_copied)) by (by apply good_cells; [apply Hsh|]) || (cbn; lia).
  eexists. split; [done|]. cbn [v_len v_cells with_cells]. split; [lia|].
  rewrite lookup_splice by (cbn; lia). rewrite decide_True by lia. unfold own_copied.
  rewrite lookup_splice by (rewrite length_take, length_drop; lia). rewrite decide_False, decide_True by (rewrite ?length_take, ?length_drop; lia).
  rewrite lookup_take_lt, lookup_drop by lia. unfold own_tail. rewrite lookup_splice by (cell_lengths; lia).
  rewrite !decide_False by (cell_lengths; lia). f_equal. lia.
Qed.

(** Where the buffer must grow, the same call does insert the null character. *)
Lemma insert_own_null_grows :
  v_cap V < 2 * len + 1 → outcome st o V ((l ++ [0]) ++ l) (insert_ptr_n o 0 (v_buffer o V, 0) (len + 1) st).
Proof using HV Hsh.
  intros Hfull. pose proof (sizes V l Hsh) as (Hs1 & Hs2 & Hs3). pose proof max_size_eq as Hmax.
  assert (length (l ++ [0]) = S (length l)) as Hla by (rewrite length_app; cbn; lia).
  replace (len + 1) with (Z.of_nat (length (l ++ [0]))) by lia. unfold insert_ptr_n, replace_ptr_n.
  rewrite (checked st o V l Hsh HV 0 0) by lia. assert (limit l 0 0 = 0)%nat as -> by (unfold limit; lia). unfold _M_replace.
  assert (replaced l 0 0 (l ++ [0]) = (l ++ [0]) ++ l) as Hre by (unfold replaced; cbn; by rewrite drop_0).
  pose proof (length_replaced l 0 0 (l ++ [0]) ltac:(lia)) as Hlr. rewrite <-Hre.
  pose proof (check_length_run st o V l HV Hsh 0 (Z.of_nat (length (l ++ [0]))) ltac:(lia) ltac:(lia)) as Hchk.
  rewrite <-Nat2Z.inj_add, <-Hlr in Hchk.
  destruct (Z.ltb_spec max_size (Z.of_nat (length (replaced l 0 0 (l ++ [0]))))).
  { right. rewrite (bind_throws _ _ _ _ _ Hchk). by rewrite (proj2 (Z.ltb_lt _ _)). }
  rewrite (bind_ok _ _ _ _ _ Hchk), (bind_ok _ _ _ _ _ (string_size_run _ _ _ HV)), (sh_len _ _ Hsh).
  rewrite (bind_ok _ _ _ _ _ (capacity_run _ _ _ HV)), u32_new by lia. rewrite (proj2 (Z.leb_gt _ _)), <-Hlr by lia.
  apply (mutate_then st o V l HV Hsh (Some (v_buffer o V, 0)) 0 0 (l ++ [0])); [lia|lia|by apply has_reads_null|lia|].
  intros b n cs Hb Hcs Hfill Hn Hcap. apply finish_fresh; [done..| |done]. lia.
Qed.

(** Appending a string, with its null character, to itself where there is room copies with
    [memcpy] between ranges that have the null character in common, which is undefined. *)
Theorem append_own_null :
  l ≠ [] → 2 * len + 1 <= v_cap V → append_ptr_n o (v_buffer o V, 0) (len + 1) st = None.
Proof using HV Hsh.
  intros Hne Hroom. pose proof (sizes V l Hsh) as (Hs1 & Hs2 & Hs3). pose proof max_size_eq as Hmax.
  assert (0 < length l)%nat as Hl by (destruct l; cbn; [done|lia]). unfold append_ptr_n, _M_append.
  pose proof (check_length_run st o V l HV Hsh 0 (len + 1) ltac:(lia) ltac:(lia)) as Hchk.
  rewrite (proj2 (Z.ltb_ge _ _)) in Hchk by lia.
  rewrite (bind_ok _ _ _ _ _ Hchk), (bind_ok _ _ _ _ _ (string_size_run _ _ _ HV)), (sh_len _ _ Hsh).
  rewrite (bind_ok _ _ _ _ _ (capacity_run _ _ _ HV)), u32_id by (unfold is_u32; lia).
  rewrite (proj2 (Z.leb_le _ _)) by lia. unfold truth. rewrite (proj2 (Z.eqb_neq _ 0)) by lia. cbn [negb].
  rewrite bind_assoc, (bind_ok _ _ _ _ _ (data_run _ _ _ HV)). unfold _S_copy, traits_copy, memcpy, overlap, offset.
  cbn [fst snd]. rewrite !(proj2 (Z.eqb_neq _ _)) by lia. rewrite bool_decide_eq_true_2 by done.
  by rewrite !(proj2 (Z.ltb_lt _ _)) by lia.
Qed.

Lemma splice_same (cs : list cell) i x : cs !! i = Some x → splice i [x] cs = cs.
Proof.
  intros Hi. unfold splice. cbn. rewrite Nat.add_1_r, <-(drop_S _ _ _ Hi). apply take_drop.
Qed.

(** The length set to what it is. *)
Lemma set_same_length : _M_set_length o len st = Some (inl tt, st).
Proof using HV Hsh.
  pose proof (sizes V l Hsh) as (Hs1 & Hs2 & Hs3). rewrite <-(put_same st o V HV) at 1. rewrite put_set_length by (apply Hsh || lia).
  rewrite splice_same by apply Hsh. rewrite <-(sh_len _ _ Hsh). rewrite <-(put_same st o V HV) at 2. by destruct V.
Qed.

(** A character copied onto itself. *)
Lemma copy_one_itself :
  len = 1 → (c ← read_char (v_buffer o V, 0); traits_assign (v_buffer o V, 0) c) st = Some (inl tt, st).
Proof using HV Hsh.
  intros Hlen. pose proof (sizes V l Hsh) as (Hs1 & Hs2 & Hs3). pose proof (has_reads_all st o V l HV Hsh) as Hr.
  pose proof (put_same st o V HV) as Hst. rewrite <-Hst in Hr. rewrite <-Hst at 1. pose proof (put_one st o V (sh_good _ _ Hsh) 0 _ l Hr ltac:(lia) Hlen) as Hp.
  change (Z.of_nat 0) with 0 in Hp. rewrite Hp. do 2 f_equal. destruct l as [|c [|c' l'] ]; cbn in Hlen; try lia. cbn.
  rewrite splice_same by apply (sh_agrees _ _ Hsh 0%nat ltac:(cbn; lia)). rewrite <-Hst at 2. by destruct V.
Qed.

(** An allocated buffer handed over to itself. *)
Lemma hand_to_itself b n :
  v_block V = Some (b, n) →
  (mine ← _M_is_local o;
   kept ← (if (mine : bool) then mret None
           else (d ← _M_data o; n ← allocated_capacity o; mret (Some (d, n))));
   p ← _M_data o; _M_set_data o p;;
   n ← size o; _M_length o n;;
   cap ← allocated_capacity o; _M_capacity o cap;;
   match kept with
   | Some (d, n) => _M_set_data o d;; _M_capacity o n
   | None => _M_set_data o (_M_local_data o)
   end) st = Some (inl tt, st).
Proof using HV.
  intros E. destruct st as [ss bs]. destruct HV as (Ho & _ & _). cbn [strings] in Ho. unfold v_object, v_buffer in Ho. rewrite E in Ho.
  obj_step. cbn [_M_p]. rewrite bool_decide_eq_false_2 by congruence. cbv beta iota. repeat obj_step.
  do 3 f_equal. apply map_eq. intros i. destruct (decide (i = o)) as [->|Hi]; [by rewrite lookup_insert_eq|].
  by rewrite !lookup_insert_ne by congruence.
Qed.

(** C31: Moving a string into itself is undefined for a local string of more than one character,
    which [memcpy] copies onto itself; any other string is empty afterwards. *)
Theorem move_to_itself :
  assign_move o o st =
  if bool_decide (v_block V = None ∧ 2 <= len) then None
  else Some (inl tt, put st o (View (v_block V) (splice 0 [Some 0] (v_cells V)) 0)).
Proof using HV Hsh.
  pose proof (sizes V l Hsh) as (Hs1 & Hs2 & Hs3). unfold assign_move, clear.
  assert (_M_set_length o 0 st = Some (inl tt, put st o (View (v_block V) (splice 0 [Some 0] (v_cells V)) 0))) as Hcl.
  { rewrite <-(put_same st o V HV) at 1. apply (put_set_length st o V (sh_good _ _ Hsh) 0). lia. }
  rewrite (bind_ok _ _ _ _ _ (is_local_run _ _ _ HV)). destruct (v_block V) as [ [b n]|] eqn:E.
  - rewrite !bool_decide_eq_false_2 by (done || tauto). cbv beta iota.
    rewrite (bind_ok _ _ _ _ _ (hand_to_itself b n E)). by rewrite Hcl.
  - rewrite bool_decide_eq_true_2 by done. cbv beta iota.
    rewrite bind_assoc, (bind_ok _ _ _ _ _ (string_size_run _ _ _ HV)), (sh_len _ _ Hsh).
    case_bool_decide as Hlen.
    + destruct Hlen as [_ Hlen]. unfold truth. rewrite (proj2 (Z.eqb_neq _ 0)) by lia. cbn [negb].
      rewrite !bind_assoc, (bind_ok _ _ _ _ _ (data_run _ _ _ HV)), bind_assoc, (bind_ok _ _ _ _ _ (data_run _ _ _ HV)).
      unfold _S_copy, traits_copy, memcpy, overlap. cbn [fst snd]. rewrite !(proj2 (Z.eqb_neq _ _)) by lia.
      rewrite bool_decide_eq_true_2 by done. by rewrite !(proj2 (Z.ltb_lt _ _)) by lia.
    + assert ((if truth len then d ← _M_data o; p ← _M_data o; _S_copy d p len else mret tt) st = Some (inl tt, st)) as Hcopy.
      { unfold truth. destruct (Z.eqb_spec len 0); [done|]. cbn [negb]. assert (len = 1) as Hone by (destruct (decide (2 <= len)); [tauto|lia]).
        rewrite !(bind_ok _ _ _ _ _ (data_run _ _ _ HV)). unfold _S_copy. rewrite (proj2 (Z.eqb_eq _ _) Hone). by apply copy_one_itself. }
      rewrite bind_assoc, (bind_ok _ _ _ _ _ Hcopy), bind_assoc, (bind_ok _ _ _ _ _ (string_size_run _ _ _ HV)), (sh_len _ _ Hsh).
      by rewrite (bind_ok _ _ _ _ _ set_same_length).
Qed.

End alias.

(** * Examples *)

Definition no_memory : Allocator := {| refuses := λ _ _, true |}.

Lemma insert_own_null_witness :
  ∃ V', insert_ptr_n (H := no_memory) 0 0 (Local 0, 0) 3 hi_state = Some (inl tt, put hi_state 0 V') ∧
    v_len V' = 5 ∧ v_cells V' !! 2%nat = Some None.
Proof.
  apply (insert_own_null (H := no_memory) hi_state 0 hi [104; 105] hi_has hi_shows); [discriminate|vm_compute; congruence].
Defined.

Lemma append_own_null_witness : append_ptr_n (H := no_memory) 0 (Local 0, 0) 3 hi_state = None.
Proof.
  apply (append_own_null (H := no_memory) hi_state 0 hi [104; 105] hi_has hi_shows); [discriminate|vm_compute; congruence].
Defined.

Lemma move_to_itself_witness : assign_move 0 0 hi_state = None.
Proof. apply (move_to_itself hi_state 0 hi [104; 105] hi_has hi_shows). Defined.
