(* ===== verification/StdStringFind.v ===== *)
(** * Searching and comparing strings

    The searches of [basic_string] give the first or the last position with a property, or
    [npos], and [compare] gives the sign of the lexicographic order. The characters searched
    for can be anywhere, also in the string itself. *)
From stdpp Require Import base numbers list gmap.
From Stdlib Require Import ZArith Lia.
From S2P Require Import Prelude StdString StdStringView StdStringInPlace StdStringOps StdStringLife.
From S2P Require Import StdStringMemory StdStringSpec StdStringClient.

(** * Results *)

(** The first position from [lo] on and before [hi], or [npos]. *)
Definition is_first (P : nat → Prop) (lo hi : nat) (r : Z) : Prop :=
  (∃ i, r = Z.of_nat i ∧ (lo <= i < hi)%nat ∧ P i ∧ ∀ j, (lo <= j < i)%nat → ¬ P j) ∨
  (r = npos ∧ ∀ j, (lo <= j < hi)%nat → ¬ P j).

Definition is_last (P : nat → Prop) (hi : nat) (r : Z) : Prop :=
  (∃ i, r = Z.of_nat i ∧ (i < hi)%nat ∧ P i ∧ ∀ j, (i < j < hi)%nat → ¬ P j) ∨
  (r = npos ∧ ∀ j, (j < hi)%nat → ¬ P j).

Lemma is_first_skip (P : nat → Prop) lo mid hi r :
  (lo <= mid)%nat → (∀ j, (lo <= j < mid)%nat → (j < hi)%nat → ¬ P j) → is_first P mid hi r → is_first P lo hi r.
Proof.
  intros Hle Hskip [(i & -> & Hi & HP & Hfirst)|[-> Hnone] ]; [left|right].
  - exists i. split_and!; [done|lia|lia|done|]. intros j Hj. destruct (decide (j < mid)%nat); [apply Hskip; lia|apply Hfirst; lia].
  - split; [done|]. intros j Hj. destruct (decide (j < mid)%nat); [apply Hskip; lia|apply Hnone; lia].
Qed.

Lemma is_last_skip (P : nat → Prop) hi r : ¬ P hi → is_last P hi r → is_last P (S hi) r.
Proof.
  intros Hno [(i & -> & Hi & HP & Hlast)|[-> Hnone] ]; [left|right].
  - exists i. split_and!; [done|lia|done|]. intros j Hj. destruct (decide (j = hi)) as [->|]; [done|apply Hlast; lia].
  - split; [done|]. intros j Hj. destruct (decide (j = hi)) as [->|]; [done|apply Hnone; lia].
Qed.

(** The order of two lists of characters: negative, zero or positive. *)
Fixpoint order (l1 l2 : list Z) : Z :=
  match l1, l2 with
  | [], [] => 0
  | [], _ => -1
  | _, [] => 1
  | a :: l1, b :: l2 => if a <? b then -1 else if b <? a then 1 else order l1 l2
  end.

Lemma order_zero l1 : ∀ l2, order l1 l2 = 0 ↔ l1 = l2.
Proof.
  induction l1 as [|a l1 IH]; intros [|b l2]; cbn; try done.
  destruct (Z.ltb_spec a b), (Z.ltb_spec b a); try lia; try (split; [done|intros [= ? ?]; lia]).
  rewrite IH. assert (a = b) as -> by lia. split; congruence.
Qed.

Section find.
Context `{Allocator}.

(** * The functions of [char_traits] *)

Definition window (cs : list cell) (off : nat) (l : list Z) : Prop :=
  ∀ i c, l !! i = Some c → cs !! (off + i)%nat = Some (Some c).

Lemma reads_window st b off l :
  reads st (b, Z.of_nat off) l → ∃ cs, cells st b = Some cs ∧ window cs off l.
Proof.
  unfold reads, read_cells. cbn [fst snd]. destruct (cells st b) as [cs|] eqn:E; cbn; [|done].
  destruct (in_buffer _ _ _); [|done]. rewrite !Nat2Z.id. intros [= Hr]. exists cs. split; [done|].
  intros i c Hc. rewrite <-lookup_drop. pose proof (lookup_lt_Some _ _ _ Hc).
  rewrite <-(lookup_take_lt _ (length l)), Hr, list_lookup_fmap, Hc by done. done.
Qed.

Lemma window_cons cs off c l : window cs off (c :: l) → cs !! off = Some (Some c) ∧ window cs (S off) l.
Proof.
  intros Hw. split; [rewrite <-(Nat.add_0_r off); by apply (Hw 0%nat)|].
  intros i c' Hc. replace (S off + i)%nat with (off + S i)%nat by lia. by apply Hw.
Qed.

Lemma window_sub cs off l i n : window cs off l → window cs (off + i) (sub l i n).
Proof.
  intros Hw j c Hj. unfold sub in Hj. apply lookup_take_Some in Hj as [Hj _]. rewrite lookup_drop in Hj.
  rewrite <-Nat.add_assoc. by apply Hw.
Qed.

Lemma offset_one (b : buffer) off : offset (b, Z.of_nat off) 1 = (b, Z.of_nat (S off)).
Proof. unfold offset. cbn [fst snd]. f_equal. lia. Qed.

(** [memchr] finds the first. *)
Lemma find_loop_run st b cs a : ∀ l off,
  cells st b = Some cs → window cs off l →
  ∃ r, traits_find_loop (length l) (b, Z.of_nat off) a st = Some (inl r, st) ∧
    match r with
    | Some p => ∃ k, p = (b, Z.of_nat (off + k)) ∧ l !! k = Some a ∧ ∀ j, (j < k)%nat → l !! j ≠ Some a
    | None => a ∉ l
    end.
Proof.
  induction l as [|c l IH]; intros off Hcs Hw; cbn [length traits_find_loop].
  { exists None. split; [done|]. apply not_elem_of_nil. }
  apply window_cons in Hw as [Hc Hw]. rewrite (bind_ok _ _ _ _ _ (read_char_cells _ _ _ _ _ Hcs Hc)).
  destruct (Z.eqb_spec c a) as [->|Hne].
  { eexists. split; [done|]. exists 0%nat. rewrite Nat.add_0_r. split_and!; [done..|]. lia. }
  rewrite offset_one. destruct (IH (S off) Hcs Hw) as (r & -> & Hr). exists r. split; [done|]. destruct r as [p|].
  - destruct Hr as (k & -> & Hk & Hmin). exists (S k). split_and!; [do 2 f_equal; lia|done|].
    intros [|j] Hj; cbn; [congruence|apply Hmin; lia].
  - rewrite not_elem_of_cons. done.
Qed.

(** [memcmp] gives the order. *)
Lemma compare_loop_run st b1 cs1 b2 cs2 : ∀ l1 l2 off1 off2,
  cells st b1 = Some cs1 → window cs1 off1 l1 → cells st b2 = Some cs2 → window cs2 off2 l2 → length l1 = length l2 →
  traits_compare_loop (length l1) (b1, Z.of_nat off1) (b2, Z.of_nat off2) st = Some (inl (order l1 l2), st).
Proof.
  induction l1 as [|a l1 IH]; intros [|b l2] off1 off2 Hc1 Hw1 Hc2 Hw2 Hlen; try done. cbn [length traits_compare_loop order].
  apply window_cons in Hw1 as [Ha Hw1], Hw2 as [Hb Hw2].
  rewrite (bind_ok _ _ _ _ _ (read_char_cells _ _ _ _ _ Hc1 Ha)), (bind_ok _ _ _ _ _ (read_char_cells _ _ _ _ _ Hc2 Hb)).
  rewrite !offset_one. destruct (Z.eqb_spec a b) as [->|Hne].
  - rewrite Z.ltb_irrefl. apply IH; try done. by injection Hlen.
  - destruct (Z.ltb_spec a b); [done|]. by rewrite (proj2 (Z.ltb_lt b a)) by lia.
Qed.

Lemma compare_run st p q l1 l2 :
  reads st (p.1, Z.of_nat p.2) l1 → reads st (q.1, Z.of_nat q.2) l2 → length l1 = length l2 →
  traits_compare (p.1, Z.of_nat p.2) (q.1, Z.of_nat q.2) (Z.of_nat (length l1)) st = Some (inl (order l1 l2), st).
Proof.
  intros Hp Hq Hlen. unfold traits_compare. destruct (Z.eqb_spec (Z.of_nat (length l1)) 0) as [E|_].
  { by destruct l1, l2. }
  rewrite (bind_ok _ _ _ _ _ Hp). unfold reads in Hq. rewrite <-Hlen in Hq. rewrite (bind_ok _ _ _ _ _ Hq), Nat2Z.id.
  rewrite Hlen in Hq. apply reads_window in Hp as (cs1 & Hc1 & Hw1), Hq as (cs2 & Hc2 & Hw2). by eapply compare_loop_run.
Qed.

(** What can be read can be read in part. *)
Lemma reads_prefix st b off l n : (n <= length l)%nat → reads st (b, Z.of_nat off) l → reads st (b, Z.of_nat off) (take n l).
Proof.
  intros Hn. unfold reads, read_cells. cbn [fst snd]. destruct (cells st b) as [cs|]; cbn; [|done].
  rewrite length_take, Nat.min_l by done.
  destruct (in_buffer (Z.of_nat off) (Z.of_nat (length l)) cs) eqn:E; [|done].
  assert (in_buffer (Z.of_nat off) (Z.of_nat n) cs = true) as -> by (unfold in_buffer in *; lia).
  rewrite !Nat2Z.id. intros [= Hr]. by rewrite fmap_take, <-Hr, take_take, Nat.min_l.
Qed.

(** * Searching for characters *)

Section searching.
Context (st : state) (o : nat) (V : view) (l : list Z).
Context (HV : has st o V) (Hsh : shows V l).

Lemma string_window : window (v_cells V) 0 l.
Proof using Hsh. intros i c Hc. cbn [Nat.add]. rewrite (sh_agrees _ _ Hsh) by (by eapply lookup_lt_Some). by rewrite Hc. Qed.

Lemma string_cells : cells st (v_buffer o V) = Some (v_cells V).
Proof using HV. by apply cells_view. Qed.

Lemma char_at i c : l !! i = Some c → read_char (offset (v_buffer o V, 0) (Z.of_nat i)) st = Some (inl c, st).
Proof using HV Hsh.
  intros Hc. apply (read_char_cells _ _ _ (v_cells V)); [apply string_cells|]. by apply (string_window i).
Qed.

(** The positions of the characters that pass a test. *)
Definition passes (P : Z → bool) (i : nat) : Prop := ∃ c, l !! i = Some c ∧ P c = true.

Lemma passes_dec (P : Z → bool) i c : l !! i = Some c → if P c then passes P i else ¬ passes P i.
Proof. intros Hc. destruct (P c) eqn:E; [by exists c|]. intros (c' & Hc' & E'). congruence. Qed.

Lemma first_loop_run (P : Z → bool) (test : Z → Exc bool) :
  (∀ c, test c st = Some (inl (P c), st)) → ∀ fuel pos,
  (length l - pos < fuel)%nat → Z.of_nat pos < 4294967296 →
  ∃ r, first_loop fuel o test (Z.of_nat pos) st = Some (inl r, st) ∧ is_first (passes P) pos (length l) r.
Proof using HV Hsh.
  intros Ht. pose proof (sizes V l Hsh) as (Hs1 & Hs2 & _). induction fuel as [|fuel IH]; intros pos Hf Hpos; cbn [first_loop]; [lia|].
  rewrite (bind_ok _ _ _ _ _ (string_size_run _ _ _ HV)), (sh_len _ _ Hsh).
  destruct (Z.ltb_spec (Z.of_nat pos) (Z.of_nat (length l))) as [Hlt|Hge].
  2: { exists npos. split; [done|right]. split; [done|]. lia. }
  destruct (lookup_lt_is_Some_2 l pos ltac:(lia)) as [c Hc].
  rewrite (bind_ok _ _ _ _ _ (data_run _ _ _ HV)), (bind_ok _ _ _ _ _ (char_at pos c Hc)), (bind_ok _ _ _ _ _ (Ht c)).
  pose proof (passes_dec P pos c Hc) as Hp. destruct (P c).
  - eexists. split; [done|left]. exists pos. split_and!; [done|lia|lia|done|lia].
  - rewrite u32_id by (unfold is_u32; lia). replace (Z.of_nat pos + 1) with (Z.of_nat (S pos)) by lia.
    destruct (IH (S pos) ltac:(lia) ltac:(lia)) as (r & -> & Hr). exists r. split; [done|].
    apply (is_first_skip _ pos (S pos)); [lia| |done]. intros j Hj _. by replace j with pos by lia.
Qed.

Lemma last_loop_run (P : Z → bool) (test : Z → Exc bool) :
  (∀ c, test c st = Some (inl (P c), st)) → ∀ pos, (pos < length l)%nat →
  ∃ r, last_loop pos o test st = Some (inl r, st) ∧ is_last (passes P) (S pos) r.
Proof using HV Hsh.
  intros Ht pos. induction pos as [|pos IH]; intros Hpos; destruct (lookup_lt_is_Some_2 l _ Hpos) as [c Hc]; cbn [last_loop];
    rewrite (bind_ok _ _ _ _ _ (data_run _ _ _ HV)), (bind_ok _ _ _ _ _ (char_at _ c Hc)), (bind_ok _ _ _ _ _ (Ht c));
    pose proof (passes_dec P _ c Hc) as Hp; destruct (P c).
  - eexists. split; [done|left]. exists 0%nat. split_and!; [done|lia|done|lia].
  - exists npos. split; [done|right]. split; [done|]. intros j Hj. by replace j with 0%nat by lia.
  - eexists. split; [done|left]. exists (S pos). split_and!; [done|lia|done|lia].
  - destruct (IH ltac:(lia)) as (r & -> & Hr). exists r. split; [done|]. by apply is_last_skip.
Qed.

Lemma first_search_run (P : Z → bool) (test : Z → Exc bool) pos :
  (∀ c, test c st = Some (inl (P c), st)) → 0 <= pos < 4294967296 →
  ∃ r, first_search o test pos st = Some (inl r, st) ∧ is_first (passes P) (Z.to_nat pos) (length l) r.
Proof using HV Hsh.
  intros Ht Hpos. unfold first_search. rewrite (bind_ok _ _ _ _ _ (string_size_run _ _ _ HV)), (sh_len _ _ Hsh), Nat2Z.id.
  pose proof (first_loop_run P test Ht (S (length l)) (Z.to_nat pos) ltac:(lia) ltac:(lia)) as Hr.
  by rewrite Z2Nat.id in Hr by lia.
Qed.

(** Positions not after [pos]. *)
Lemma last_search_run (P : Z → bool) (test : Z → Exc bool) pos :
  (∀ c, test c st = Some (inl (P c), st)) → 0 <= pos →
  ∃ r, last_search o test pos st = Some (inl r, st) ∧ is_last (passes P) (Nat.min (S (Z.to_nat pos)) (length l)) r.
Proof using HV Hsh.
  intros Ht Hpos. pose proof (sizes V l Hsh) as (Hs1 & Hs2 & _). unfold last_search, truth.
  rewrite (bind_ok _ _ _ _ _ (string_size_run _ _ _ HV)), (sh_len _ _ Hsh). destruct (Z.eqb_spec (Z.of_nat (length l)) 0); cbn [negb].
  { exists npos. split; [done|right]. split; [done|]. lia. }
  rewrite u32_id by (unfold is_u32; lia). set (top := if _ <? _ then _ else _).
  assert (S (Z.to_nat top) = Nat.min (S (Z.to_nat pos)) (length l)) as <-.
  { unfold top. destruct (Z.ltb_spec pos (Z.of_nat (length l) - 1)); lia. }
  apply last_loop_run; [done|]. unfold top. destruct (Z.ltb_spec pos (Z.of_nat (length l) - 1)); lia.
Qed.

(** ** The tests *)

Lemma one_of_run p off set c :
  reads st (p, Z.of_nat off) set →
  one_of (p, Z.of_nat off) (Z.of_nat (length set)) c st = Some (inl (bool_decide (c ∈ set)), st) ∧
  none_of (p, Z.of_nat off) (Z.of_nat (length set)) c st = Some (inl (bool_decide (c ∉ set)), st).
Proof.
  intros (cs & Hcs & Hw)%reads_window. destruct (find_loop_run st p cs c set off Hcs Hw) as (r & Hr & Hc).
  unfold one_of, none_of, traits_find. rewrite Nat2Z.id, !(bind_ok _ _ _ _ _ Hr). unfold mret, Exc_ret.
  assert (bool_decide (is_Some r) = bool_decide (c ∈ set)) as ->.
  { apply bool_decide_ext. destruct r as [q|].
    - split; [|done]. intros _. destruct Hc as (k & _ & Hk & _). by eapply list_elem_of_lookup_2.
    - split; [by intros [? ?]|done]. }
  by rewrite bool_decide_not.
Qed.

(** The searches for one of a set of characters, or for a character that is not one of them,
    give the first position from [pos] on, or the last one up to [pos], or [npos] if there is
    none; the set is any range of characters in memory, also of the string itself. *)
Theorem find_of_set p off set pos :
  reads st (p, Z.of_nat off) set → 0 <= pos < 4294967296 →
  let s := (p, Z.of_nat off) in let n := Z.of_nat (length set) in
  (∃ r, find_first_of o s pos n st = Some (inl r, st) ∧
     is_first (passes (λ c, bool_decide (c ∈ set))) (Z.to_nat pos) (length l) r) ∧
  (∃ r, find_last_of o s pos n st = Some (inl r, st) ∧
     is_last (passes (λ c, bool_decide (c ∈ set))) (Nat.min (S (Z.to_nat pos)) (length l)) r) ∧
  (∃ r, find_first_not_of o s pos n st = Some (inl r, st) ∧
     is_first (passes (λ c, bool_decide (c ∉ set))) (Z.to_nat pos) (length l) r) ∧
  (∃ r, find_last_not_of o s pos n st = Some (inl r, st) ∧
     is_last (passes (λ c, bool_decide (c ∉ set))) (Nat.min (S (Z.to_nat pos)) (length l)) r).
Proof using HV Hsh.
  intros Hset Hpos s n. pose proof (λ c, proj1 (one_of_run p off set c Hset)) as H1.
  pose proof (λ c, proj2 (one_of_run p off set c Hset)) as H2.
  split_and!; [| |by apply first_search_run|apply last_search_run; [done|lia] ].
  - unfold find_first_of, truth. destruct (Z.eqb_spec n 0) as [E|]; [|by apply first_search_run].
    exists npos. split; [done|right]. split; [done|]. intros j _ (c & _ & Hc%bool_decide_eq_true_1).
    destruct set; [by apply not_elem_of_nil in Hc|done].
  - unfold find_last_of, truth. destruct (Z.eqb_spec n 0) as [E|]; [|apply last_search_run; [done|lia] ].
    exists npos. split; [done|right]. split; [done|]. intros j _ (c & _ & Hc%bool_decide_eq_true_1).
    destruct set; [by apply not_elem_of_nil in Hc|done].
Qed.

(** ** Searching for a sequence of characters *)

Section pattern.
Context (p : buffer) (off : nat) (pat : list Z) (Hpat : reads st (p, Z.of_nat off) pat).

(** The positions where it is. *)
Definition occurs (i : nat) : Prop := sub l i (length pat) = pat.

(** There are no positions from here on. *)
Abbreviation past := (S (length l) - length pat)%nat.

Lemma compare_at i :
  (i + length pat <= length l)%nat →
  traits_compare (v_buffer o V, Z.of_nat i) (p, Z.of_nat off) (Z.of_nat (length pat)) st =
  Some (inl (order (sub l i (length pat)) pat), st).
Proof using HV Hsh Hpat.
  intros Hi. pose proof (shows_length _ _ Hsh). pose proof (length_sub l i (length pat) Hi) as Hlen.
  pose proof (has_reads st o V l i (length pat) HV (sh_agrees _ _ Hsh) ltac:(lia) ltac:(lia)) as Hr.
  pose proof (compare_run st (v_buffer o V, i) (p, off) _ pat Hr Hpat Hlen) as Hc. cbn [fst snd] in Hc. by rewrite Hlen in Hc.
Qed.

Lemma compare_occurs i : (order (sub l i (length pat)) pat =? 0) = true ↔ occurs i.
Proof. rewrite Z.eqb_eq. apply order_zero. Qed.

Lemma occurs_head e0 pat' i : pat = e0 :: pat' → occurs i → l !! i = Some e0.
Proof.
  intros E Hocc. unfold occurs in Hocc. rewrite <-(Nat.add_0_r i), <-(lookup_sub l i (length pat)) by (rewrite E; cbn; lia).
  by rewrite Hocc, E.
Qed.

Lemma find_loop_first e0 pat' : pat = e0 :: pat' → ∀ fuel i,
  (i <= length l)%nat → (length l - i < fuel)%nat →
  ∃ r, find_loop fuel (v_buffer o V, 0) (v_buffer o V, Z.of_nat (length l)) (v_buffer o V, Z.of_nat i) (p, Z.of_nat off)
      (Z.of_nat (length l - i)) (Z.of_nat (length pat)) e0 st = Some (inl r, st) ∧
    is_first occurs i past r.
Proof using HV Hsh Hpat.
  intros Epat. pose proof (sizes V l Hsh) as (Hs1 & Hs2 & _). pose proof (shows_length _ _ Hsh) as Hvl.
  assert (1 <= length pat)%nat as Hn by (rewrite Epat; cbn; lia).
  induction fuel as [|fuel IH]; intros i Hi Hf; [lia|]. cbn [find_loop].
  destruct (Z.leb_spec (Z.of_nat (length pat)) (Z.of_nat (length l - i))) as [Hle|Hgt].
  2: { exists npos. split; [done|right]. split; [done|]. lia. }
  set (m := (length l - i - length pat + 1)%nat).
  replace (u32 (u32 (Z.of_nat (length l - i) - Z.of_nat (length pat)) + 1)) with (Z.of_nat m)
    by (rewrite (u32_id (_ - _)), u32_id; unfold is_u32; lia).
  destruct (find_loop_run st (v_buffer o V) (v_cells V) e0 (sub l i m) i string_cells (window_sub _ 0 l i m string_window)) as (r & Hr & Hfound).
  rewrite length_sub in Hr by lia. unfold traits_find. rewrite Nat2Z.id, (bind_ok _ _ _ _ _ Hr). destruct r as [q|].
  - destruct Hfound as (k & -> & Hk & Hmin). pose proof (lookup_lt_Some _ _ _ Hk) as Hkm. rewrite length_sub in Hkm by lia.
    assert (∀ j, (i <= j < i + k)%nat → ¬ occurs j) as Hbefore.
    { intros j Hj Hocc%(occurs_head _ _ _ Epat). apply (Hmin (j - i)%nat ltac:(lia)). rewrite lookup_sub by lia.
      by replace (i + (j - i))%nat with j by lia. }
    rewrite (bind_ok _ _ _ _ _ (compare_at (i + k) ltac:(lia))). pose proof (compare_occurs (i + k)) as Hc.
    destruct (order _ _ =? 0).
    + exists (Z.of_nat (i + k)). split; [cbn; by rewrite Z.sub_0_r|left]. exists (i + k)%nat.
      split_and!; [done|lia|lia|by apply Hc|done].
    + unfold offset. cbn [fst snd]. replace (Z.of_nat (i + k) + 1) with (Z.of_nat (S (i + k))) by lia.
      replace (Z.of_nat (length l) - Z.of_nat (S (i + k))) with (Z.of_nat (length l - S (i + k))) by lia.
      destruct (IH (S (i + k)) ltac:(lia) ltac:(lia)) as (r & -> & Hfirst). exists r. split; [done|].
      apply (is_first_skip _ i (S (i + k))); [lia| |done]. intros j Hj _.
      destruct (decide (j = i + k)%nat) as [->|]; [by rewrite <-Hc|apply Hbefore; lia].
  - exists npos. split; [done|right]. split; [done|]. intros j Hj Hocc%(occurs_head _ _ _ Epat). apply Hfound.
    apply (list_elem_of_lookup_2 _ (j - i)). rewrite lookup_sub by lia. by replace (i + (j - i))%nat with j by lia.
Qed.

(** [find] gives the first occurrence from [pos] on. *)
Lemma find_run pos :
  0 <= pos < 4294967296 → Z.of_nat (length pat) < 4294967296 →
  ∃ r, find_ptr o (p, Z.of_nat off) pos (Z.of_nat (length pat)) st = Some (inl r, st) ∧
    is_first occurs (Z.to_nat pos) past r.
Proof using HV Hsh Hpat.
  intros Hpos Hlen. pose proof (sizes V l Hsh) as (Hs1 & Hs2 & _). unfold find_ptr.
  rewrite (bind_ok _ _ _ _ _ (string_size_run _ _ _ HV)), (sh_len _ _ Hsh).
  assert (pat = [] ∨ ∃ e0 pat', pat = e0 :: pat') as [Epat|(e0 & pat' & Epat)] by (clear; destruct pat; eauto).
  - assert (length pat = 0%nat) as El by (by rewrite Epat). rewrite El. cbn [Z.of_nat Z.eqb].
    eexists. split; [done|]. destruct (Z.leb_spec pos (Z.of_nat (length l))).
    + left. exists (Z.to_nat pos). split_and!; [lia|lia|lia| |lia]. unfold occurs. by rewrite El, Epat.
    + right. split; [done|]. lia.
  - assert (1 <= length pat)%nat by (rewrite Epat; cbn; lia). rewrite (proj2 (Z.eqb_neq _ 0)) by lia.
    destruct (Z.leb_spec (Z.of_nat (length l)) pos).
    { exists npos. split; [done|right]. split; [done|]. lia. }
    pose proof Hpat as (cs & Hcs & Hw)%reads_window. rewrite Epat in Hw. apply window_cons in Hw as [Hc _].
    rewrite (bind_ok _ _ _ _ _ (read_char_cells _ _ _ _ _ Hcs Hc)), (bind_ok _ _ _ _ _ (data_run _ _ _ HV)), Nat2Z.id.
    unfold offset. cbn [fst snd]. rewrite !Z.add_0_l, u32_id by (unfold is_u32; lia).
    pose proof (find_loop_first e0 pat' Epat (S (length l)) (Z.to_nat pos) ltac:(lia) ltac:(lia)) as Hr.
    rewrite Z2Nat.id in Hr by lia. by replace (Z.of_nat (length l - Z.to_nat pos)) with (Z.of_nat (length l) - pos) in Hr by lia.
Qed.

Lemma rfind_loop_last i :
  (i + length pat <= length l)%nat →
  ∃ r, rfind_loop i (v_buffer o V, 0) (p, Z.of_nat off) (Z.of_nat (length pat)) st = Some (inl r, st) ∧
    is_last occurs (S i) r.
Proof using HV Hsh Hpat.
  induction i as [|i IH]; intros Hi; cbn [rfind_loop]; unfold offset; cbn [fst snd]; rewrite Z.add_0_l;
    rewrite (bind_ok _ _ _ _ _ (compare_at _ Hi)).
  - pose proof (compare_occurs 0) as Hc. destruct (order _ _ =? 0).
    + eexists. split; [done|left]. exists 0%nat. split_and!; [done|lia|by apply Hc|lia].
    + exists npos. split; [done|right]. split; [done|]. intros j Hj. replace j with 0%nat by lia. by rewrite <-Hc.
  - pose proof (compare_occurs (S i)) as Hc. destruct (order _ _ =? 0).
    + eexists. split; [done|left]. exists (S i). split_and!; [done|lia|by apply Hc|lia].
    + destruct (IH ltac:(lia)) as (r & -> & Hr). exists r. split; [done|]. apply is_last_skip; [by rewrite <-Hc|done].
Qed.

(** [rfind] gives the last occurrence that begins up to [pos]. *)
Lemma rfind_run pos :
  0 <= pos → Z.of_nat (length pat) < 4294967296 →
  ∃ r, rfind_ptr o (p, Z.of_nat off) pos (Z.of_nat (length pat)) st = Some (inl r, st) ∧
    is_last occurs (Nat.min (S (Z.to_nat pos)) past) r.
Proof using HV Hsh Hpat.
  intros Hpos Hlen. pose proof (sizes V l Hsh) as (Hs1 & Hs2 & _). unfold rfind_ptr.
  rewrite (bind_ok _ _ _ _ _ (string_size_run _ _ _ HV)), (sh_len _ _ Hsh).
  destruct (Z.leb_spec (Z.of_nat (length pat)) (Z.of_nat (length l))).
  - rewrite (bind_ok _ _ _ _ _ (data_run _ _ _ HV)), u32_id by (unfold is_u32; lia). set (i := Z.to_nat _).
    replace (Nat.min (S (Z.to_nat pos)) past) with (S i) by lia. apply rfind_loop_last. lia.
  - exists npos. split; [done|right]. split; [done|]. lia.
Qed.

End pattern.

(** C29: [find] gives the first position from [pos] on where the characters occur, and [rfind] the
    last one up to [pos], or [npos] if there is none; the empty sequence occurs everywhere,
    also at the end. Both stop, and read nothing outside the two ranges. *)
Theorem find_sequence p off pat pos :
  reads st (p, Z.of_nat off) pat → 0 <= pos < 4294967296 → Z.of_nat (length pat) < 4294967296 →
  (∃ r, find_ptr o (p, Z.of_nat off) pos (Z.of_nat (length pat)) st = Some (inl r, st) ∧
     is_first (occurs pat) (Z.to_nat pos) (S (length l) - length pat) r) ∧
  (∃ r, rfind_ptr o (p, Z.of_nat off) pos (Z.of_nat (length pat)) st = Some (inl r, st) ∧
     is_last (occurs pat) (Nat.min (S (Z.to_nat pos)) (S (length l) - length pat)) r).
Proof using HV Hsh. intros Hp Hpos Hlen. split; [by apply find_run|apply rfind_run; [done|lia|done] ]. Qed.

End searching.
(** * Comparing *)

Lemma order_prefix l1 : ∀ l2,
  let m := Nat.min (length l1) (length l2) in
  order l1 l2 = if order (take m l1) (take m l2) =? 0 then Z.sgn (Z.of_nat (length l1) - Z.of_nat (length l2))
                else order (take m l1) (take m l2).
Proof.
  induction l1 as [|a l1 IH]; intros [|b l2]; [done..|]. cbn [length Nat.min take order].
  destruct (a <? b); [done|]. destruct (b <? a); [done|]. rewrite IH. cbn zeta.
  destruct (order _ _ =? 0); [|done]. f_equal. lia.
Qed.

Lemma order_sgn l1 : ∀ l2, Z.sgn (order l1 l2) = order l1 l2.
Proof. induction l1 as [|a l1 IH]; intros [|b l2]; cbn; try done. destruct (a <? b), (b <? a); done. Qed.

Lemma size_compare n1 n2 : 0 <= n1 <= max_size → 0 <= n2 <= max_size → _S_compare n1 n2 = n1 - n2.
Proof.
  rewrite max_size_eq. intros H1 H2. unfold _S_compare, u32. destruct (Z.leb_spec 0 (n1 - n2)).
  - rewrite Z.mod_small by lia. by rewrite (proj2 (Z.leb_gt _ _)) by lia.
  - rewrite <-(Z.mod_add _ 1), Z.mod_small by lia. rewrite (proj2 (Z.leb_le _ _)) by lia. lia.
Qed.

Lemma compare_ranges_run st b1 off1 l1 b2 off2 l2 :
  reads st (b1, Z.of_nat off1) l1 → reads st (b2, Z.of_nat off2) l2 →
  Z.of_nat (length l1) <= max_size → Z.of_nat (length l2) <= max_size →
  ∃ r, compare_ranges (b1, Z.of_nat off1) (Z.of_nat (length l1)) (b2, Z.of_nat off2) (Z.of_nat (length l2)) st = Some (inl r, st) ∧
    Z.sgn r = order l1 l2.
Proof.
  intros Hp Hq H1 H2. unfold compare_ranges. rewrite <-Nat2Z.inj_min. set (m := Nat.min (length l1) (length l2)).
  apply (λ Hm, reads_prefix _ _ _ _ m Hm) in Hp; [|lia]. apply (λ Hm, reads_prefix _ _ _ _ m Hm) in Hq; [|lia].
  pose proof (compare_run st (b1, off1) (b2, off2) _ _ Hp Hq) as Hr. rewrite !length_take, !Nat.min_l in Hr by lia.
  rewrite (bind_ok _ _ _ _ _ (Hr eq_refl)).
  eexists. split; [done|]. rewrite (order_prefix l1 l2). fold m. destruct (order _ _ =? 0); [|apply order_sgn].
  by rewrite size_compare by lia.
Qed.

(** [compare] gives a number with the sign of the lexicographic order of the two parts, where a
    part that is a prefix of the other comes first, and throws [out_of_range] if one begins
    behind its string. The difference of the lengths does not overflow an [int]. *)
Theorem compare_orders st o V l s W l' pos1 n1 pos2 n2 :
  has st o V → shows V l → has st s W → shows W l' →
  0 <= pos1 < 4294967296 → 0 <= n1 < 4294967296 → 0 <= pos2 < 4294967296 → 0 <= n2 < 4294967296 →
  if (Z.of_nat (length l) <? pos1) || (Z.of_nat (length l') <? pos2)
  then compare_sub_sub o pos1 n1 s pos2 n2 st = Some (inr out_of_range, st)
  else ∃ r, compare_sub_sub o pos1 n1 s pos2 n2 st = Some (inl r, st) ∧
    Z.sgn r = order (sub l (Z.to_nat pos1) (limit l pos1 n1)) (sub l' (Z.to_nat pos2) (limit l' pos2 n2)).
Proof.
  intros HV HshV HW HshW Hp1 Hn1 Hp2 Hn2. pose proof (sizes V l HshV) as (? & ? & _). pose proof (sizes W l' HshW) as (? & ? & _).
  pose proof (shows_length _ _ HshV). pose proof (shows_length _ _ HshW). pose proof max_size_eq.
  pose proof (check_run st o V l pos1 HV HshV) as Hc1. pose proof (check_run st s W l' pos2 HW HshW) as Hc2.
  unfold compare_sub_sub. destruct (Z.ltb_spec (Z.of_nat (length l)) pos1); cbn [orb]; [by rewrite (bind_throws _ _ _ _ _ Hc1)|].
  rewrite (bind_ok _ _ _ _ _ Hc1).
  destruct (Z.ltb_spec (Z.of_nat (length l')) pos2); [by rewrite (bind_throws _ _ _ _ _ Hc2)|].
  rewrite (bind_ok _ _ _ _ _ Hc2), (bind_ok _ _ _ _ _ (limit_run st o V l pos1 n1 HV HshV ltac:(lia) ltac:(lia))).
  rewrite (bind_ok _ _ _ _ _ (limit_run st s W l' pos2 n2 HW HshW ltac:(lia) ltac:(lia))).
  rewrite (bind_ok _ _ _ _ _ (data_run _ _ _ HV)), (bind_ok _ _ _ _ _ (data_run _ _ _ HW)).
  pose proof (limit_bounds l pos1 n1 ltac:(lia) ltac:(lia)) as Hb1. pose proof (limit_bounds l' pos2 n2 ltac:(lia) ltac:(lia)) as Hb2.
  pose proof (compare_ranges_run st (v_buffer o V) (Z.to_nat pos1) (sub l (Z.to_nat pos1) (limit l pos1 n1))
    (v_buffer s W) (Z.to_nat pos2) (sub l' (Z.to_nat pos2) (limit l' pos2 n2))) as Hr.
  pose proof (has_reads st o V l _ _ HV (sh_agrees _ _ HshV) Hb1 ltac:(lia)) as Hr1.
  pose proof (has_reads st s W l' _ _ HW (sh_agrees _ _ HshW) Hb2 ltac:(lia)) as Hr2.
  specialize (Hr Hr1 Hr2). rewrite !length_sub, !Z2Nat.id in Hr by lia.
  unfold offset. cbn [fst snd]. rewrite !Z.add_0_l. apply Hr; lia.
Qed.

End find.

(** * Examples *)

Lemma find_of_set_witness :
  reads hi_state (Local 0, Z.of_nat 1) [105] ∧
  ∃ r, find_first_of 0 (Local 0, Z.of_nat 1) 0 1 hi_state = Some (inl r, hi_state) ∧
    is_first (passes [104; 105] (λ c, bool_decide (c ∈ [105]))) 0 2 r.
Proof.
  split; [reflexivity|].
  apply (find_of_set hi_state 0 hi [104; 105] hi_has hi_shows (Local 0) 1 [105] 0); [reflexivity|lia].
Defined.

Lemma find_sequence_witness :
  ∃ r, find_ptr 0 (Local 0, Z.of_nat 1) 0 1 hi_state = Some (inl r, hi_state) ∧ is_first (occurs [104; 105] [105]) 0 2 r.
Proof.
  apply (find_sequence hi_state 0 hi [104; 105] hi_has hi_shows (Local 0) 1 [105] 0); [reflexivity|lia|cbn; lia].
Defined.

Lemma compare_orders_witness :
  ∃ r, compare_sub_sub 0 0 1 0 1 1 hi_state = Some (inl r, hi_state) ∧ Z.sgn r = order [104] [105].
Proof.
  apply (compare_orders hi_state 0 hi [104; 105] 0 hi [104; 105] 0 1 1 1 hi_has hi_shows hi_has hi_shows); lia.
Defined.
