(* ===== verification/StlSeg.v ===== *)
(** * Segments of arrays

    The algorithms that move blocks of objects about ([std::rotate], the merges,
    [std::stable_sort]) are specified by the lists of values that stretches of
    the array hold, and by the cells they may change: [seg l lo xs] says that the
    values [xs] are in the cells from [lo] on, [changed R l l'] that only the
    cells in [R] differ. *)
From stdpp Require Import base numbers list sorting.
From Stdlib Require Import ZArith Lia.
From S2P Require Import Prelude StlArray.

Create HintDb seg.

Section Seg.
Context {A : Type}.
Local Abbreviation arr := (list (option A)).
Implicit Types l : arr.
Implicit Types xs ys : list A.

Definition seg l (lo : Z) xs : Prop :=
  ∀ (k : nat) a, xs !! k = Some a → holds l (lo + Z.of_nat k) a.

Definition changed (R : Z → Prop) l l' : Prop :=
  zlen l' = zlen l ∧ ∀ i, ¬ R i → nthZ l' i = nthZ l i.

(** ** Lengths *)

Lemma zlen_nil : zlen (@nil A) = 0.
Proof. done. Qed.
Lemma zlen_cons (x : A) xs : zlen (x :: xs) = 1 + zlen xs.
Proof. unfold zlen. cbn [length]. lia. Qed.
Lemma zlen_app xs ys : zlen (xs ++ ys) = zlen xs + zlen ys.
Proof. unfold zlen. rewrite length_app. lia. Qed.
Lemma zlen_nonneg xs : 0 <= zlen xs.
Proof. unfold zlen. lia. Qed.
Lemma zlen_reverse xs : zlen (reverse xs) = zlen xs.
Proof. unfold zlen. by rewrite length_reverse. Qed.
Lemma zlen_zero xs : zlen xs <= 0 → xs = [].
Proof. unfold zlen. destruct xs; [done|]. cbn [length]. lia. Qed.
Lemma zlen_split xs n :
  0 <= n <= zlen xs → ∃ ys zs, xs = ys ++ zs ∧ zlen ys = n ∧ zlen zs = zlen xs - n.
Proof.
  unfold zlen. intros. exists (take (Z.to_nat n) xs), (drop (Z.to_nat n) xs).
  rewrite take_drop, length_take, length_drop. split; [done|lia].
Qed.
Lemma zlen_last xs : 0 < zlen xs → ∃ ys y, xs = ys ++ [y].
Proof.
  intros. destruct (zlen_split xs (zlen xs - 1)) as (ys & zs & -> & ? & Hz); [lia|].
  destruct zs as [|z [|? ?]]; rewrite ?zlen_cons, ?zlen_nil in Hz;
    [lia|by exists ys, z|]. pose proof (zlen_nonneg l). lia.
Qed.
Lemma zlen_first xs : 0 < zlen xs → ∃ y ys, xs = y :: ys.
Proof. destruct xs as [|y ys]; [by rewrite zlen_nil|by exists y, ys]. Qed.

(** ** Segments *)

Lemma seg_nil l lo : seg l lo [].
Proof. done. Qed.

Lemma seg_cons l lo x xs : seg l lo (x :: xs) ↔ holds l lo x ∧ seg l (lo + 1) xs.
Proof.
  split.
  - intros H. split; [by rewrite <- (Z.add_0_r lo); apply (H 0%nat)|].
    intros k a E. replace (lo + 1 + Z.of_nat k) with (lo + Z.of_nat (S k)) by lia. by apply H.
  - intros [Hx H] [|k] a E; cbn in E.
    + rewrite Z.add_0_r. naive_solver.
    + replace (lo + Z.of_nat (S k)) with (lo + 1 + Z.of_nat k) by lia. by apply H.
Qed.

Lemma seg_app l lo xs ys : seg l lo (xs ++ ys) ↔ seg l lo xs ∧ seg l (lo + zlen xs) ys.
Proof.
  revert lo. induction xs as [|x xs IH]; intros lo; cbn [app].
  - rewrite zlen_nil, Z.add_0_r. split; [by split|by intros [_ ?]].
  - rewrite !seg_cons, IH, zlen_cons. replace (lo + 1 + zlen xs) with (lo + (1 + zlen xs)) by lia.
    tauto.
Qed.

Lemma seg_one l lo x : seg l lo [x] ↔ holds l lo x.
Proof. rewrite seg_cons. split; [by intros [? _]|done]. Qed.

(** The cells of a segment are in the array. *)
Lemma seg_range l lo xs : seg l lo xs → 0 < zlen xs → 0 <= lo ∧ lo + zlen xs <= zlen l.
Proof.
  intros H ?. destruct (zlen_first xs) as (x & xs' & ->); [done|].
  destruct (proj1 (seg_cons _ _ _ _) H) as [?%holds_range _].
  destruct (zlen_last (x :: xs')) as (ys & y & E); [done|]. rewrite E in *.
  apply seg_app in H as [_ H]. apply seg_one, holds_range in H.
  rewrite zlen_app, zlen_cons, zlen_nil. lia.
Qed.

Lemma seg_holds l lo xs i :
  seg l lo xs → lo <= i < lo + zlen xs → ∃ a, xs !! Z.to_nat (i - lo) = Some a ∧ holds l i a.
Proof.
  unfold zlen. intros H ?. destruct (lookup_lt_is_Some_2 xs (Z.to_nat (i - lo))) as [a E]; [lia|].
  exists a. split; [done|]. apply H in E. by replace (lo + _) with i in E by lia.
Qed.

Lemma seg_lookup l lo xs i a :
  seg l lo xs → lo <= i < lo + zlen xs → holds l i a → xs !! Z.to_nat (i - lo) = Some a.
Proof.
  intros H Hi Ha. destruct (seg_holds l lo xs i H Hi) as (b & E & Hb).
  by rewrite (holds_fun _ _ _ _ Ha Hb).
Qed.

Lemma seg_full l lo xs : seg l lo xs → full l lo (lo + zlen xs).
Proof. intros H i Hi. destruct (seg_holds l lo xs i H Hi) as (a & _ & ?). by exists a. Qed.

Lemma seg_agree l l' lo xs :
  seg l lo xs → (∀ i, lo <= i < lo + zlen xs → nthZ l' i = nthZ l i) → seg l' lo xs.
Proof.
  intros H E k a Ek. pose proof (lookup_lt_Some _ _ _ Ek). unfold holds.
  rewrite E by (unfold zlen; lia). by apply H.
Qed.

Lemma seg_updZ l lo xs i v :
  seg l lo xs → 0 <= i → ¬ (lo <= i < lo + zlen xs) → seg (updZ l i v) lo xs.
Proof. intros H ??. apply (seg_agree l); [done|]. intros j ?. apply nthZ_updZ_ne; lia. Qed.

(** Two segments at the same place with as many values are the same. *)
Lemma seg_unique l lo xs ys : seg l lo xs → seg l lo ys → zlen xs = zlen ys → xs = ys.
Proof.
  intros Hx Hy E. apply list_eq_same_length with (n := length xs); [unfold zlen in E; lia|done|].
  intros k x y Hk Ex Ey. apply Hx in Ex. apply Hy in Ey. by apply (holds_fun _ _ _ _ Ex Ey).
Qed.

Lemma seg_middle (pre post : arr) xs : seg (pre ++ (Some <$> xs) ++ post) (zlen pre) xs.
Proof. intros k a E. apply holds_app_mid. by left. Qed.

(** ** Changes *)

Lemma changed_refl R l : changed R l l.
Proof. done. Qed.

Lemma changed_trans R l1 l2 l3 : changed R l1 l2 → changed R l2 l3 → changed R l1 l3.
Proof.
  intros [H1 E1] [H2 E2]. split; [lia|]. intros i Hi. by rewrite E2, E1.
Qed.

Lemma changed_mono (R R' : Z → Prop) l l' : changed R l l' → (∀ i, R i → R' i) → changed R' l l'.
Proof. intros [H E] HR. split; [done|]. intros i Hi. apply E. naive_solver. Qed.

Lemma changed_updZ (R : Z → Prop) l i v : 0 <= i → R i → changed R l (updZ l i v).
Proof.
  intros ? Hi. split; [apply zlen_updZ|]. intros j Hj. apply nthZ_updZ_ne; [done|].
  intros ->. by apply Hj.
Qed.

Lemma changed_zlen R l l' : changed R l l' → zlen l' = zlen l.
Proof. by intros [? _]. Qed.

Lemma changed_seg R l l' lo xs :
  changed R l l' → seg l lo xs → (∀ i, lo <= i < lo + zlen xs → ¬ R i) → seg l' lo xs.
Proof. intros [_ E] H Hd. apply (seg_agree l); [done|]. intros i Hi. by apply E, Hd. Qed.

Lemma changed_holds (R : Z → Prop) l l' i a : changed R l l' → ¬ R i → holds l i a → holds l' i a.
Proof. intros [_ E] Hi. unfold holds. by rewrite E. Qed.

(** The cells around a range that alone has changed. *)
Lemma changed_middle (pre post : arr) xs ys l' :
  changed (λ i, zlen pre <= i < zlen pre + zlen xs) (pre ++ (Some <$> xs) ++ post) l' →
  zlen ys = zlen xs → seg l' (zlen pre) ys → l' = pre ++ (Some <$> ys) ++ post.
Proof.
  intros [Hl E] Hy Hs. apply list_eq. intros k. unfold zlen in *.
  assert (∀ l : arr, nthZ l (Z.of_nat k) = l !! k) as Hn.
  { intros l. unfold nthZ. destruct (Z.ltb_spec (Z.of_nat k) 0); [lia|]. by rewrite Nat2Z.id. }
  destruct (decide (k < length pre)%nat).
  { rewrite <- Hn, E, Hn by lia. by rewrite !lookup_app_l. }
  destruct (decide (k < length pre + length xs)%nat).
  - rewrite lookup_app_r, lookup_app_l, list_lookup_fmap by (rewrite ?length_fmap; lia).
    destruct (lookup_lt_is_Some_2 ys (k - length pre)) as [a Ea]; [lia|].
    rewrite Ea. cbn. rewrite <- Hn. apply Hs in Ea. rewrite <- Ea. f_equal. lia.
  - rewrite <- Hn, E, Hn by lia.
    rewrite !lookup_app_r by (rewrite ?length_fmap; lia). rewrite !length_fmap. f_equal. lia.
Qed.
End Seg.

#[export] Hint Resolve changed_refl seg_nil : seg.

(** Cells are distinct and lie in the array. *)
Ltac zlens :=
  repeat match goal with
  | H : changed _ ?l ?l' |- _ =>
      lazymatch goal with
      | _ : zlen l' = zlen l |- _ => fail
      | _ => pose proof (changed_zlen _ _ _ H)
      end
  end;
  repeat match goal with
  | H : context [zlen (?x ++ ?y)] |- _ => rewrite (zlen_app x y) in H
  | |- context [zlen (?x ++ ?y)] => rewrite (zlen_app x y)
  | H : context [zlen (?x :: ?y)] |- _ => rewrite (zlen_cons x y) in H
  | |- context [zlen (?x :: ?y)] => rewrite (zlen_cons x y)
  | H : context [zlen (reverse ?x)] |- _ => rewrite (zlen_reverse x) in H
  | |- context [zlen (reverse ?x)] => rewrite (zlen_reverse x)
  | H : context [@zlen ?T []] |- _ => change (@zlen T []) with 0 in H
  | |- context [@zlen ?T []] => change (@zlen T []) with 0
  end;
  repeat match goal with
  | xs : list ?A |- _ =>
      lazymatch goal with
      | _ : 0 <= zlen xs |- _ => fail
      | _ => pose proof (zlen_nonneg xs)
      end
  end.
Ltac zlia := zlens; lia.

(** A segment whose place is written in another way. *)
Ltac seg_place :=
  match goal with
  | H : seg ?l ?lo' ?xs |- seg ?l ?lo ?xs => replace lo with lo' by zlia; exact H
  end.

(** A segment that lies apart from what has changed is still there. *)
Ltac seg_frame :=
  match goal with
  | C : changed _ ?l ?l', H : seg ?l ?lo' ?xs |- seg ?l' ?lo ?xs =>
      replace lo with lo' by zlia;
      apply (changed_seg _ l l' lo' xs C H); intros; zlia
  end.

(** Changes of two steps together. *)
Ltac changes :=
  match goal with
  | |- changed _ ?l ?l => apply changed_refl
  | C : changed _ ?l1 ?l' |- changed _ ?l ?l' =>
      apply (changed_trans _ l l1 l'); [|apply (changed_mono _ _ _ _ C); intros; zlia];
      clear C; changes
  end.

(** Half of a length. *)
Lemma half_bounds n : 2 <= n → 1 <= cdiv n 2 < n.
Proof. intros. rewrite cdiv_div by lia. divlia. Qed.

(** ** Buffers *)

(** [n] cells from [lo] on, and [m] cells from [hi] on, have no cell in common. *)
Definition apart (lo n hi m : Z) : Prop := lo + n <= hi ∨ hi + m <= lo.

Section BufferPlace.
Context {A : Type}.
Implicit Types l : list (option A).

(** The buffer is in the array, apart from [n] cells from [first] on. *)
Definition buffer_ok (buffer buffer_size first n : Z) l : Prop :=
  0 <= buffer ∧ 0 <= buffer_size ∧ buffer + buffer_size <= zlen l ∧
  apart buffer buffer_size first n.

Lemma buffer_ok_sub buffer bs first n first' n' l l' :
  buffer_ok buffer bs first n l → zlen l' = zlen l → first <= first' → first' + n' <= first + n →
  buffer_ok buffer bs first' n' l'.
Proof. unfold buffer_ok, apart. lia. Qed.

End BufferPlace.

(** ** Steps of the algorithms on segments *)

Section Steps.
Context {A : Type}.
Local Abbreviation arr := (list (option A)).
Implicit Types l : arr.

Lemma wpr_transfer {B} (m : M arr B) i j a Q l :
  holds l i a → 0 <= j < zlen l → i ≠ j →
  (∀ l', changed (λ k, k = i ∨ k = j) l l' → holds l' j a → wpr m Q l') →
  wpr (v ← move_from i; assign j v;; m) Q l.
Proof.
  intros Ha Hj ? HQ. pose proof (holds_range _ _ _ Ha).
  apply wpr_bind, (wpr_move_from _ _ _ _ Ha), wpr_bind, wpr_assign; [by rewrite zlen_updZ|].
  apply HQ; [|by apply holds_updZ_eq; rewrite zlen_updZ].
  apply (changed_trans _ _ (updZ l i None)); apply changed_updZ; lia.
Qed.

Lemma wpr_exchange i j a b (Q : unit → arr → Prop) l :
  holds l i a → holds l j b → i ≠ j →
  (∀ l', changed (λ k, k = i ∨ k = j) l l' → holds l' i b → holds l' j a → Q tt l') →
  wpr (iter_swap i j) Q l.
Proof.
  intros Ha Hb ? HQ. pose proof (holds_range _ _ _ Ha). pose proof (holds_range _ _ _ Hb).
  apply (wpr_iter_swap _ _ _ a b); [done..|]. apply HQ.
  - apply (changed_trans _ _ (updZ l i (Some b))); apply changed_updZ; lia.
  - apply holds_updZ_ne; [lia..|]. by apply holds_updZ_eq.
  - by apply holds_updZ_eq; rewrite zlen_updZ.
Qed.

(** The value that [*i] refers to. *)
Definition load (i : Z) : M arr A :=
  v ← deref i;
  match v with
  | Some a => mret a
  | None => ub
  end.

Lemma wpr_load l i a (Q : A → arr → Prop) : holds l i a → Q a l → wpr (load i) Q l.
Proof. intros Ha HQ. by apply wpr_bind, (wpr_deref _ _ _ _ Ha), wpr_ret. Qed.

End Steps.
