(* ===== verification/StlRotate.v ===== *)
(** * Reversing and rotating, [bits/stl_algo.h]

    [std::move] with three arguments, [std::swap_ranges] ([bits/stl_algobase.h]),
    [std::reverse] and [std::rotate]. [std::rotate] has an implementation for each
    category of iterators: one that follows the blocks with forward iterators,
    one by three reversals, and one for random access that shifts the shorter
    block through the longer one and goes on with what is left of it, as
    Euclid's algorithm does. The theorems: each of them ends and exchanges the two
    blocks, and returns the position where the second block ends. *)
From stdpp Require Import base numbers list sorting.
From Stdlib Require Import ZArith Lia.
From S2P Require Import Prelude StlArray StlHeap StlSort StlSeg.

Section Code.
Context {A : Type}.
Local Abbreviation arr := (list (option A)).

(** [_GLIBCXX_MOVE3]: the loop counts [n] down from [last - first]. *)
Definition move3 (first last result : Z) : M arr Z :=
  while (λ '(n, first, result),
    if 0 <? n then
      v ← move_from first;
      assign result v;;
      mret (inl (n - 1, first + 1, result + 1))
    else mret (inr result)) (last - first, first, result).

Definition swap_ranges (first1 last1 first2 : Z) : M arr Z :=
  while (λ '(first1, first2),
    if first1 =? last1 then mret (inr first2)
    else
      iter_swap first1 first2;;
      mret (inl (first1 + 1, first2 + 1))) (first1, first2).

Inductive iterator_category :=
  | forward_iterator_tag
  | bidirectional_iterator_tag
  | random_access_iterator_tag.

Definition __reverse_bidirectional (first last : Z) : M arr unit :=
  while (λ '(first, last),
    if first =? last then mret (inr tt)
    else
      let last := last - 1 in
      if first =? last then mret (inr tt)
      else
        iter_swap first last;;
        mret (inl (first + 1, last))) (first, last).

Definition __reverse_random_access (first last : Z) : M arr unit :=
  if first =? last then mret tt
  else
    while (λ '(first, last),
      if first <? last then
        iter_swap first last;;
        mret (inl (first + 1, last - 1))
      else mret (inr tt)) (first, last - 1).

(** [std::reverse] takes no forward iterators. *)
Definition std_reverse (category : iterator_category) (first last : Z) : M arr unit :=
  match category with
  | forward_iterator_tag => ub
  | bidirectional_iterator_tag => __reverse_bidirectional first last
  | random_access_iterator_tag => __reverse_random_access first last
  end.

(** The first loop tests its condition at the end. *)
Definition __rotate_forward (first middle last : Z) : M arr Z :=
  if first =? middle then mret last
  else if last =? middle then mret first
  else
    r ← while (λ '(first, middle, first2),
      iter_swap first first2;;
      let first := first + 1 in
      let first2 := first2 + 1 in
      let middle := if first =? middle then first2 else middle in
      mret (if first2 =? last then inr (first, middle) else inl (first, middle, first2)))
      (first, middle, middle);
    let '(first, middle) := r in
    let ret := first in
    while (λ '(first, middle, first2),
      if first2 =? last then mret (inr tt)
      else
        iter_swap first first2;;
        let first := first + 1 in
        let first2 := first2 + 1 in
        if first =? middle then mret (inl (first, first2, first2))
        else if first2 =? last then mret (inl (first, middle, middle))
        else mret (inl (first, middle, first2))) (first, middle, middle);;
    mret ret.

Definition __rotate_bidirectional (first middle last : Z) : M arr Z :=
  if first =? middle then mret last
  else if last =? middle then mret first
  else
    __reverse_bidirectional first middle;;
    __reverse_bidirectional middle last;;
    r ← while (λ '(first, last),
      if negb (first =? middle) && negb (middle =? last) then
        iter_swap first (last - 1);;
        mret (inl (first + 1, last - 1))
      else mret (inr (first, last))) (first, last);
    let '(first, last) := r in
    if first =? middle then
      __reverse_bidirectional middle last;;
      mret last
    else
      __reverse_bidirectional first middle;;
      mret first.

(** [for (i = 0; i < count; ++i) { iter_swap(p, q); ++p; ++q; }], and the loop that
    decrements [p] and [q] first. *)
Definition swap_up (count p q : Z) : M arr (Z * Z) :=
  while (λ '(i, p, q),
    if i <? count then
      iter_swap p q;;
      mret (inl (i + 1, p + 1, q + 1))
    else mret (inr (p, q))) (0, p, q).

Definition swap_down (count p q : Z) : M arr (Z * Z) :=
  while (λ '(i, p, q),
    if i <? count then
      iter_swap (p - 1) (q - 1);;
      mret (inl (i + 1, p - 1, q - 1))
    else mret (inr (p, q))) (0, p, q).

(** [is_pod]: whether the objects are plain old data ([__is_pod]). *)
Definition __rotate_random_access (is_pod : bool) (first middle last : Z) : M arr Z :=
  if first =? middle then mret last
  else if last =? middle then mret first
  else
    let n := last - first in
    let k := middle - first in
    if k =? n - k then
      swap_ranges first middle middle;;
      mret middle
    else
      let ret := first + (last - middle) in
      while (λ '(n, k, p),
        if k <? n - k then
          if is_pod && (k =? 1) then
            t ← move_from p;
            move3 (p + 1) (p + n) p;;
            assign (p + n - 1) t;;
            mret (inr ret)
          else
            pq ← swap_up (n - k) p (p + k);
            let n := Z.rem n k in
            if n =? 0 then mret (inr ret)
            else mret (inl (k, k - n, pq.1))
        else
          let k := n - k in
          if is_pod && (k =? 1) then
            t ← move_from (p + n - 1);
            move_backward p (p + n - 1) (p + n);;
            assign p t;;
            mret (inr ret)
          else
            let q := p + n in
            pq ← swap_down (n - k) (q - k) q;
            let n := Z.rem n k in
            if n =? 0 then mret (inr ret)
            else mret (inl (k, n, pq.1))) (n, k, first).

Definition std_rotate (category : iterator_category) (is_pod : bool) (first middle last : Z) : M arr Z :=
  match category with
  | forward_iterator_tag => __rotate_forward first middle last
  | bidirectional_iterator_tag => __rotate_bidirectional first middle last
  | random_access_iterator_tag => __rotate_random_access is_pod first middle last
  end.
End Code.

Section Theory.
Context {A : Type}.
Local Abbreviation arr := (list (option A)).
Implicit Types l : arr.
Implicit Types xs ys u v w : list A.

(** ** Moving a range *)

Lemma move3_spec first last result xs l0 :
  last = first + zlen xs → seg l0 first xs → 0 <= result → result + zlen xs <= zlen l0 →
  result < first ∨ first + zlen xs <= result →
  wpr (move3 first last result) (λ r l,
    r = result + zlen xs ∧ seg l result xs ∧
    changed (λ i, first <= i < first + zlen xs ∨ result <= i < result + zlen xs) l0 l) l0.
Proof.
  intros -> Hs Hr Hb Hd. apply (wpr_while (λ '(n, f, r) l, ∃ xs1 xs2,
    xs = xs1 ++ xs2 ∧ n = zlen xs2 ∧ f = first + zlen xs1 ∧ r = result + zlen xs1 ∧
    seg l result xs1 ∧ seg l f xs2 ∧
    changed (λ i, first <= i < first + zlen xs ∨ result <= i < result + zlen xs) l0 l)
    (λ '(n, _, _), n)).
  - intros [ [n f] r] l (xs1 & xs2 & -> & -> & -> & -> & H1 & H2 & C). split; [zlia|].
    destruct xs2 as [|x xs2].
    { rewrite app_nil_r in C, Hs, Hd, Hb |- *. by apply wpr_ret. }
    destruct (Z.ltb_spec 0 (zlen (x :: xs2))); [|zlia].
    apply seg_cons in H2 as [Hx H2].
    apply (wpr_transfer _ _ _ x); [done|zlia|zlia|]. intros l' C' Hx'.
    apply wpr_ret. split; [|zlia]. exists (xs1 ++ [x]), xs2. split_and!; [by rewrite <- app_assoc|zlia..| | |].
    + apply seg_app. split; [seg_frame|by apply seg_one].
    + seg_frame.
    + changes.
  - exists [], xs. split_and!; [done|zlia..|done|done|done].
  - zlia.
Qed.

Lemma move_backward_seg first last result xs l0 :
  last = first + zlen xs → seg l0 first xs → result <= zlen l0 → 0 <= result - zlen xs →
  last < result ∨ result <= first →
  wpr (move_backward first last result) (λ r l,
    r = result - zlen xs ∧ seg l (result - zlen xs) xs ∧
    changed (λ i, first <= i < first + zlen xs ∨ result - zlen xs <= i < result) l0 l) l0.
Proof.
  intros -> Hs Hr Hb Hd. apply (wpr_while (λ '(n, f, r) l, ∃ xs1 xs2,
    xs = xs1 ++ xs2 ∧ n = zlen xs1 ∧ f = first + zlen xs1 ∧ r = result - zlen xs2 ∧
    seg l r xs2 ∧ seg l first xs1 ∧
    changed (λ i, first <= i < first + zlen xs ∨ result - zlen xs <= i < result) l0 l)
    (λ '(n, _, _), n)).
  - intros [ [n f] r] l (xs1 & xs2 & -> & -> & -> & -> & H2 & H1 & C). split; [zlia|].
    destruct (Z.ltb_spec 0 (zlen xs1)) as [Hn|Hn].
    2:{ apply zlen_zero in Hn as ->. by apply wpr_ret. }
    destruct (zlen_last xs1 Hn) as (xs3 & x & ->).
    apply seg_app in H1 as [H1 Hx]. apply seg_one in Hx.
    apply (wpr_transfer _ _ _ x); [by replace (_ - 1) with (first + zlen xs3) by zlia|zlia|zlia|].
    intros l' C' Hx'.
    apply wpr_ret. split; [|zlia]. exists xs3, (x :: xs2).
    split_and!; [by rewrite <- app_assoc|zlia..| | |].
    + apply seg_cons. split; [done|seg_frame].
    + seg_frame.
    + changes.
  - exists xs, []. split_and!; [by rewrite app_nil_r|zlia..|done|done|done].
  - zlia.
Qed.

(** ** Exchanging two ranges *)

Lemma swap_ranges_spec first1 last1 first2 xs ys l0 :
  last1 = first1 + zlen xs → zlen ys = zlen xs → seg l0 first1 xs → seg l0 first2 ys →
  last1 <= first2 ∨ first2 + zlen ys <= first1 →
  wpr (swap_ranges first1 last1 first2) (λ r l,
    r = first2 + zlen ys ∧ seg l first1 ys ∧ seg l first2 xs ∧
    changed (λ i, first1 <= i < first1 + zlen xs ∨ first2 <= i < first2 + zlen ys) l0 l) l0.
Proof.
  intros -> Hl Hx Hy Hd. apply (wpr_while (λ '(f1, f2) l, ∃ xs1 xs2 ys1 ys2,
    xs = xs1 ++ xs2 ∧ ys = ys1 ++ ys2 ∧ zlen xs1 = zlen ys1 ∧ f1 = first1 + zlen xs1 ∧
    f2 = first2 + zlen ys1 ∧ seg l first1 ys1 ∧ seg l f1 xs2 ∧ seg l first2 xs1 ∧ seg l f2 ys2 ∧
    changed (λ i, first1 <= i < first1 + zlen xs ∨ first2 <= i < first2 + zlen ys) l0 l)
    (λ '(f1, _), first1 + zlen xs - f1)).
  - intros [f1 f2] l (xs1 & xs2 & ys1 & ys2 & -> & -> & E & -> & -> & H1 & H2 & H3 & H4 & C).
    split; [zlia|]. destruct (Z.eqb_spec (first1 + zlen xs1) (first1 + zlen (xs1 ++ xs2))) as [En|En].
    + assert (xs2 = [] ∧ ys2 = []) as [-> ->] by (split; apply zlen_zero; zlia).
      rewrite !app_nil_r in C |- *. apply wpr_ret. split_and!; [lia|done..].
    + destruct (zlen_first xs2) as (x & xs3 & ->); [zlia|].
      destruct (zlen_first ys2) as (y & ys3 & ->); [zlia|].
      apply seg_cons in H2 as [Hx2 H2]. apply seg_cons in H4 as [Hy2 H4].
      apply wpr_bind, (wpr_exchange _ _ x y); [done|done|zlia|]. intros l' C' Hi Hj.
      apply wpr_ret. split; [|zlia]. exists (xs1 ++ [x]), xs3, (ys1 ++ [y]), ys3.
      rewrite !seg_app, !seg_one.
      split_and!; [by rewrite <- app_assoc..|zlia|zlia|zlia|seg_frame|
        by rewrite <- E|seg_frame|seg_frame|by rewrite E|seg_frame|changes].
  - exists [], xs, [], ys. split_and!; [done|done|done|zlia|zlia|done..].
  - pose proof (zlen_nonneg l0). destruct (decide (zlen xs = 0)); [lia|].
    apply seg_range in Hx; zlia.
Qed.

(** ** Reversing *)

(** The ends of the range have been exchanged up to [f] and from [la] on. *)
Definition reversing first xs l0 (f la : Z) l : Prop :=
  ∃ p m s, xs = p ++ m ++ s ∧ zlen p = zlen s ∧ f = first + zlen p ∧ la = f + zlen m ∧
  seg l first (reverse s) ∧ seg l f m ∧ seg l la (reverse p) ∧
  changed (λ i, first <= i < first + zlen xs) l0 l.

Lemma reversing_start first xs l0 :
  seg l0 first xs → reversing first xs l0 first (first + zlen xs) l0.
Proof.
  intros Hs. exists [], xs, []. split_and!; [by rewrite app_nil_r|done|zlia|done|done|done|done|done].
Qed.

Lemma reversing_step first xs l0 f la l (Q : unit → arr → Prop) :
  reversing first xs l0 f la l → f + 1 < la →
  (∀ l', reversing first xs l0 (f + 1) (la - 1) l' → Q tt l') →
  wpr (iter_swap f (la - 1)) Q l.
Proof.
  intros (p & m & s & -> & E & -> & -> & H1 & H2 & H3 & C) ? HQ.
  destruct (zlen_first m) as (x & m' & ->); [zlia|].
  destruct (zlen_last m') as (m & y & ->); [zlia|].
  apply seg_cons in H2 as [Hx H2]. apply seg_app in H2 as [H2 Hy]. apply seg_one in Hy.
  apply (wpr_exchange _ _ x y); [done| |zlia|].
  { replace (_ - 1) with (first + zlen p + 1 + zlen m) by zlia. done. }
  intros l' C' Hi Hj. apply HQ. exists (p ++ [x]), m, (y :: s).
  rewrite reverse_cons, reverse_snoc, seg_app, seg_one, seg_cons, zlen_reverse.
  split_and!; [by simplify_list_eq|zlia..|seg_frame| |seg_frame|done|seg_frame|].
  - by replace (first + zlen s) with (first + zlen p) by zlia.
  - changes.
Qed.

Lemma reversing_end first xs l0 f la l :
  reversing first xs l0 f la l → la <= f + 1 →
  seg l first (reverse xs) ∧ changed (λ i, first <= i < first + zlen xs) l0 l.
Proof.
  intros (p & m & s & -> & E & -> & -> & H1 & H2 & H3 & C) ?. split; [|done].
  rewrite !reverse_app, !seg_app. assert (reverse m = m) as ->.
  { destruct m as [|x m]; [done|]. rewrite (zlen_zero m) by zlia. done. }
  zlens. split_and!; [done| |].
  - by replace (first + zlen s) with (first + zlen p) by lia.
  - by replace (first + (zlen s + zlen m)) with (first + zlen p + zlen m) by lia.
Qed.

Definition reversed first xs l0 l : Prop :=
  seg l first (reverse xs) ∧ changed (λ i, first <= i < first + zlen xs) l0 l.

Lemma __reverse_bidirectional_spec first last xs l0 :
  last = first + zlen xs → seg l0 first xs →
  wpr (__reverse_bidirectional first last) (λ _ l, reversed first xs l0 l) l0.
Proof.
  intros -> Hs. apply (wpr_while (λ '(f, la) l, reversing first xs l0 f la l) (λ '(f, la), la - f)).
  - intros [f la] l Hr. pose proof Hr as (p & m & s & -> & E & -> & -> & _). split; [zlia|].
    destruct (Z.eqb_spec (first + zlen p) (first + zlen p + zlen m)) as [?|?];
      [|cbv zeta; destruct (Z.eqb_spec (first + zlen p) (first + zlen p + zlen m - 1))];
      [apply wpr_ret; apply (reversing_end _ _ _ _ _ _ Hr); lia..|].
    apply wpr_bind, (reversing_step _ _ _ _ _ _ _ Hr); [zlia|]. intros l' Hr'.
    apply wpr_ret. split; [done|lia].
  - by apply reversing_start.
  - pose proof (zlen_nonneg l0). destruct (decide (zlen xs = 0)); [lia|].
    apply seg_range in Hs; zlia.
Qed.

Lemma __reverse_random_access_spec first last xs l0 :
  last = first + zlen xs → seg l0 first xs →
  wpr (__reverse_random_access first last) (λ _ l, reversed first xs l0 l) l0.
Proof.
  intros -> Hs. unfold __reverse_random_access.
  pose proof (reversing_start _ _ _ Hs) as Hr0.
  destruct (Z.eqb_spec first (first + zlen xs)).
  { apply wpr_ret. apply (reversing_end _ _ _ _ _ _ Hr0). lia. }
  apply (wpr_while (λ '(f, la) l, reversing first xs l0 f (la + 1) l) (λ '(f, la), la + 1 - f)).
  - intros [f la] l Hr. pose proof Hr as (p & m & s & -> & E & -> & Ela & _). split; [zlia|].
    destruct (Z.ltb_spec (first + zlen p) la).
    + apply wpr_bind. replace (iter_swap (first + zlen p) la) with (@iter_swap A (first + zlen p) (la + 1 - 1)) by (f_equal; lia).
      apply (reversing_step _ _ _ _ _ _ _ Hr); [zlia|]. intros l' Hr'.
      apply wpr_ret. split; [|lia]. by replace (la - 1 + 1) with (la + 1 - 1) by lia.
    + apply wpr_ret. apply (reversing_end _ _ _ _ _ _ Hr). lia.
  - by replace (first + zlen xs - 1 + 1) with (first + zlen xs) by lia.
  - apply seg_range in Hs; zlia.
Qed.

(** ** Rotating *)

Definition rotated first u v l0 (r : Z) l : Prop :=
  r = first + zlen v ∧ seg l first (v ++ u) ∧
  changed (λ i, first <= i < first + zlen u + zlen v) l0 l.

(** The guards of the rotations: one of the blocks is empty. *)
Lemma rotate_guard first u v l (m : M arr Z) :
  seg l first u → seg l (first + zlen u) v →
  (0 < zlen u → 0 < zlen v → wpr m (rotated first u v l) l) →
  wpr (if first =? first + zlen u then mret (first + zlen u + zlen v)
       else if first + zlen u + zlen v =? first + zlen u then mret first
       else m) (rotated first u v l) l.
Proof.
  intros Hu Hv Hm. destruct (Z.eqb_spec first (first + zlen u)).
  { apply wpr_ret. assert (u = []) as -> by (apply zlen_zero; lia).
    rewrite zlen_nil, Z.add_0_r in *. split_and!; [done|by rewrite app_nil_r|done]. }
  destruct (Z.eqb_spec (first + zlen u + zlen v) (first + zlen u)).
  { apply wpr_ret. assert (v = []) as -> by (apply zlen_zero; lia). split_and!; [zlia|done|done]. }
  apply Hm; zlia.
Qed.

Lemma seg_within lo xs l : seg l lo xs → zlen xs <= zlen l.
Proof.
  intros H. destruct (decide (0 < zlen xs)); [apply seg_range in H; zlia|zlia].
Qed.

(** The blocks have been reversed, and the ends of the whole are being exchanged. *)
Definition turning first u v l0 (f la : Z) l : Prop :=
  ∃ p a b s, u = reverse (p ++ a) ∧ v = reverse (b ++ s) ∧ zlen p = zlen s ∧
  f = first + zlen p ∧ la = first + zlen u + zlen b ∧
  seg l first (reverse s) ∧ seg l f a ∧ seg l (first + zlen u) b ∧ seg l la (reverse p) ∧
  changed (λ i, first <= i < first + zlen u + zlen v) l0 l.

Lemma turning_start first u v l0 l :
  seg l first (reverse u) → seg l (first + zlen u) (reverse v) →
  changed (λ i, first <= i < first + zlen u + zlen v) l0 l →
  turning first u v l0 first (first + zlen u + zlen v) l.
Proof.
  intros Hu Hv C. exists [], (reverse u), (reverse v), []. rewrite app_nil_l, app_nil_r.
  split_and!; [by rewrite reverse_involutive..|done|zlia|zlia|done|done|done|done|done].
Qed.

Lemma turning_step first u v l0 f la l (Q : unit → arr → Prop) :
  turning first u v l0 f la l → f ≠ first + zlen u → la ≠ first + zlen u →
  (∀ l', turning first u v l0 (f + 1) (la - 1) l' → Q tt l') →
  wpr (iter_swap f (la - 1)) Q l.
Proof.
  intros (p & a & b & s & -> & -> & E & -> & -> & H1 & H2 & H3 & H4 & C) ?? HQ.
  destruct (zlen_first a) as (x & a' & ->); [zlia|].
  destruct (zlen_last b) as (b' & y & ->); [zlia|].
  apply seg_cons in H2 as [Hx H2]. apply seg_app in H3 as [H3 Hy]. apply seg_one in Hy.
  apply (wpr_exchange _ _ x y); [done| |zlia|].
  { replace (_ - 1) with (first + zlen (reverse (p ++ x :: a')) + zlen b') by zlia. done. }
  intros l' C' Hi Hj. apply HQ. exists (p ++ [x]), a', b', (y :: s).
  rewrite reverse_snoc, reverse_cons, (seg_app _ _ (reverse s)), seg_one, (seg_cons _ _ x).
  split_and!; [by simplify_list_eq..|zlia|zlia|zlia|seg_frame| |seg_frame|seg_frame|done|seg_frame|].
  - rewrite zlen_reverse. by replace (first + zlen s) with (first + zlen p) by zlia.
  - changes.
Qed.

Lemma turning_end_left first u v l0 f la l (Q : unit → arr → Prop) :
  turning first u v l0 f la l → f = first + zlen u →
  (∀ l', rotated first u v l0 la l' → Q tt l') →
  wpr (__reverse_bidirectional (first + zlen u) la) Q l.
Proof.
  intros (p & a & b & s & -> & -> & E & -> & -> & H1 & H2 & H3 & H4 & C) ? HQ.
  eapply wpr_mono; [apply (__reverse_bidirectional_spec _ _ b); [done|done]|].
  intros [] l' [Hb C']. apply HQ. assert (a = []) as -> by (apply zlen_zero; zlia).
  rewrite app_nil_r in *. split_and!; [zlia| |changes].
  rewrite reverse_app, !seg_app. split_and!; [seg_frame| |seg_frame].
  by replace (first + zlen (reverse s)) with (first + zlen (reverse p)) by zlia.
Qed.

Lemma turning_end_right first u v l0 f la l (Q : unit → arr → Prop) :
  turning first u v l0 f la l → la = first + zlen u →
  (∀ l', rotated first u v l0 f l' → Q tt l') →
  wpr (__reverse_bidirectional f (first + zlen u)) Q l.
Proof.
  intros (p & a & b & s & -> & -> & E & -> & -> & H1 & H2 & H3 & H4 & C) ? HQ.
  eapply wpr_mono; [apply (__reverse_bidirectional_spec _ _ a); [zlia|done]|].
  intros [] l' [Ha C']. apply HQ. assert (b = []) as -> by (apply zlen_zero; zlia).
  rewrite app_nil_l in *. split_and!; [zlia| |changes].
  rewrite reverse_app, !seg_app. split_and!; [seg_frame| |seg_frame].
  by replace (first + zlen (reverse s)) with (first + zlen p) by zlia.
Qed.

Lemma __rotate_bidirectional_spec first middle last u v l0 :
  middle = first + zlen u → last = middle + zlen v → seg l0 first u → seg l0 middle v →
  wpr (__rotate_bidirectional first middle last) (rotated first u v l0) l0.
Proof.
  intros -> -> Hu Hv. unfold __rotate_bidirectional.
  apply rotate_guard; [done..|]. intros ? ?.
  apply wpr_bind. eapply wpr_mono; [by apply (__reverse_bidirectional_spec _ _ u)|].
  intros [] l1 [Hu1 C1]. apply wpr_bind.
  eapply wpr_mono; [apply (__reverse_bidirectional_spec _ _ v); [done|seg_frame]|].
  intros [] l2 [Hv2 C2]. apply wpr_bind.
  apply (wpr_while (λ '(f, la) l, turning first u v l0 f la l) (λ '(f, la), la - f)).
  - intros [f la] l Ht. pose proof Ht as (p & a & b & s & Eu & _ & _ & Ef & Ela & _).
    assert (zlen u = zlen p + zlen a) by (rewrite Eu; zlia). split; [zlia|].
    destruct (Z.eqb_spec f (first + zlen u)) as [Ef'|]; cbn [negb andb].
    { apply wpr_ret. destruct (Z.eqb_spec f (first + zlen u)); [|done].
      apply wpr_bind, (turning_end_left _ _ _ _ _ _ _ _ Ht); done. }
    destruct (Z.eqb_spec (first + zlen u) la); cbn [negb].
    { apply wpr_ret. destruct (Z.eqb_spec f (first + zlen u)); [done|].
      apply wpr_bind, (turning_end_right _ _ _ _ _ _ _ _ Ht); done. }
    apply wpr_bind, (turning_step _ _ _ _ _ _ _ _ Ht); [done..|]. intros l' Ht'.
    apply wpr_ret. split; [done|lia].
  - apply turning_start; [seg_frame|done|]. changes.
  - apply seg_within in Hu, Hv. pose proof (seg_range _ _ _ Hu1). pose proof (seg_range _ _ _ Hv2). zlia.
Qed.

(** The forward rotation: [d] is in its final place, then come [a], from [f] to
    [m], the values [w] that have been exchanged against those of [d], and [b],
    from [f2] on. The rest will be [b], [w] and [a]. *)
Definition following first u v l0 (f m f2 : Z) d a w b l : Prop :=
  v ++ u = d ++ b ++ w ++ a ∧ f = first + zlen d ∧ m = f + zlen a ∧ f2 = m + zlen w ∧
  seg l first d ∧ seg l f a ∧ seg l m w ∧ seg l f2 b ∧
  changed (λ i, first <= i < first + zlen u + zlen v) l0 l.

Lemma following_zlen first u v l0 f m f2 d a w b l :
  following first u v l0 f m f2 d a w b l →
  zlen u + zlen v = zlen d + zlen b + zlen w + zlen a ∧ f = first + zlen d ∧ m = f + zlen a ∧
  f2 = m + zlen w.
Proof. intros (E & -> & -> & -> & _). apply (f_equal zlen) in E. zlia. Qed.

Lemma following_step first u v l0 f m f2 d h a w y b l (Q : unit → arr → Prop) :
  following first u v l0 f m f2 d (h :: a) w (y :: b) l →
  (∀ l', following first u v l0 (f + 1) m (f2 + 1) (d ++ [y]) a (w ++ [h]) b l' → Q tt l') →
  wpr (iter_swap f f2) Q l.
Proof.
  intros Hf HQ. pose proof (following_zlen _ _ _ _ _ _ _ _ _ _ _ _ Hf).
  destruct Hf as (E & -> & -> & -> & H1 & H2 & H3 & H4 & C).
  apply seg_cons in H2 as [Hh H2], H4 as [Hy H4].
  apply (wpr_exchange _ _ h y); [done|done|zlia|]. intros l' C' Hi Hj. apply HQ.
  unfold following. rewrite !seg_app, !seg_one.
  split_and!; [rewrite E; by simplify_list_eq|zlia|zlia|zlia|seg_frame|done|seg_frame|seg_frame|
    done|seg_frame|changes].
Qed.

(** The first block is used up: what was exchanged takes its place. *)
Lemma following_reset first u v l0 f m f2 d w b l :
  following first u v l0 f m f2 d [] w b l → following first u v l0 f f2 f2 d w [] b l.
Proof.
  intros (E & -> & -> & -> & H1 & H2 & H3 & H4 & C).
  split_and!; [by rewrite E, app_nil_r|done|zlia|zlia|done| |done|done|done].
  by replace (first + zlen d) with (first + zlen d + zlen (@nil A)) by zlia.
Qed.

(** The second block is used up, and what was exchanged takes its place. *)
Lemma following_restart first u v l0 f m f2 d a w l :
  following first u v l0 f m f2 d a w [] l → following first u v l0 f m m d a [] w l.
Proof.
  intros (E & -> & -> & -> & H1 & H2 & H3 & H4 & C).
  split_and!; [by rewrite E|done|zlia|zlia|done|done|done|done|done].
Qed.

(** The first loop: it ends when the second block is in place. *)
Lemma follow_first_spec first u v l0 (Q : Z * Z → arr → Prop) :
  0 < zlen u → 0 < zlen v → seg l0 first u → seg l0 (first + zlen u) v →
  (∀ m a w l, a ≠ [] → following first u v l0 (first + zlen v) m m v a [] w l →
              Q (first + zlen v, m) l) →
  wpr (while (λ '(first', middle, first2),
      iter_swap first' first2;;
      let first' := first' + 1 in
      let first2 := first2 + 1 in
      let middle := if first' =? middle then first2 else middle in
      mret (if first2 =? first + zlen u + zlen v then inr (first', middle)
            else inl (first', middle, first2)))
    (first, first + zlen u, first + zlen u)) Q l0.
Proof.
  intros Hpu Hpv Hu Hv HQ. apply (wpr_while (λ '(f, m, f2) l, ∃ d a w b,
    v = d ++ b ∧ a ≠ [] ∧ b ≠ [] ∧ following first u v l0 f m f2 d a w b l)
    (λ '(_, _, f2), first + zlen u + zlen v - f2)).
  - intros [ [f m] f2] l (d & a & w & b & Ev & Ha & Hb & Hf).
    pose proof (following_zlen _ _ _ _ _ _ _ _ _ _ _ _ Hf). split; [zlia|].
    destruct a as [|h a]; [done|]. destruct b as [|y b]; [done|].
    apply wpr_bind, (following_step _ _ _ _ _ _ _ _ _ _ _ _ _ _ _ Hf).
    clear l Hf. intros l Hf. pose proof (following_zlen _ _ _ _ _ _ _ _ _ _ _ _ Hf).
    set (m' := if f + 1 =? m then f2 + 1 else m).
    assert (∃ a' w', a' ≠ [] ∧ following first u v l0 (f + 1) m' (f2 + 1) (d ++ [y]) a' w' b l)
      as (a' & w' & Ha' & Hf').
    { unfold m'. destruct (Z.eqb_spec (f + 1) m).
      - assert (a = []) as -> by (apply zlen_zero; zlia). exists (w ++ [h]), [].
        split; [by destruct w|by eapply following_reset].
      - exists a, (w ++ [h]). split; [|done]. intros ->. zlia. }
    apply wpr_ret. destruct (Z.eqb_spec (f2 + 1) (first + zlen u + zlen v)).
    + assert (b = []) as -> by (apply zlen_zero; zlia).
      rewrite <- Ev in Hf'. apply following_restart in Hf'.
      assert (f + 1 = first + zlen v) as E by (rewrite Ev; zlia). fold m'. clearbody m'. rewrite E in Hf' |- *.
      by apply (HQ _ a' w').
    + split; [|lia]. exists (d ++ [y]), a', w', b.
      split_and!; [by rewrite <- app_assoc|done|by intros ->; zlia|done].
  - exists [], u, [], v. split_and!; [done|by intros ->|by intros ->|].
    split_and!; [done|zlia|zlia|zlia|done|done|done|done|done].
  - apply seg_within in Hu, Hv. zlia.
Qed.

(** The second loop goes on until the rest is in place. *)
Lemma follow_rest_spec first u v l0 f m a w l :
  a ≠ [] → following first u v l0 f m m v a [] w l →
  wpr (while (λ '(first', middle, first2),
      if first2 =? first + zlen u + zlen v then mret (inr tt)
      else
        iter_swap first' first2;;
        let first' := first' + 1 in
        let first2 := first2 + 1 in
        if first' =? middle then mret (inl (first', first2, first2))
        else if first2 =? first + zlen u + zlen v then mret (inl (first', middle, middle))
        else mret (inl (first', middle, first2))) (f, m, m))
    (λ (_ : unit) l, rotated first u v l0 (first + zlen v) l) l.
Proof.
  intros Ha Hf. apply (wpr_while (λ '(f, m, f2) l, ∃ d a w b, a ≠ [] ∧ (b = [] → w = []) ∧
    following first u v l0 f m f2 d a w b l) (λ '(f, _, _), first + zlen u + zlen v - f)).
  - clear. intros [ [f m] f2] l (d & a & w & b & Ha & Hb & Hf).
    pose proof (following_zlen _ _ _ _ _ _ _ _ _ _ _ _ Hf). split; [zlia|].
    destruct (Z.eqb_spec f2 (first + zlen u + zlen v)).
    { assert (b = []) as -> by (apply zlen_zero; zlia). rewrite Hb in Hf by done.
      destruct Hf as (E & -> & -> & -> & H1 & H2 & _ & _ & C). apply wpr_ret.
      split_and!; [done|rewrite E; by apply seg_app|done]. }
    destruct a as [|h a]; [done|]. destruct b as [|y b]; [zlia|].
    apply wpr_bind, (following_step _ _ _ _ _ _ _ _ _ _ _ _ _ _ _ Hf).
    clear l Hf. intros l Hf. pose proof (following_zlen _ _ _ _ _ _ _ _ _ _ _ _ Hf). cbv zeta.
    destruct (Z.eqb_spec (f + 1) m).
    + apply wpr_ret. assert (a = []) as -> by (apply zlen_zero; zlia). split; [|lia].
      exists (d ++ [y]), (w ++ [h]), [], b. split_and!; [by destruct w|done|by eapply following_reset].
    + assert (a ≠ []) by (intros ->; zlia).
      destruct (Z.eqb_spec (f2 + 1) (first + zlen u + zlen v)); apply wpr_ret; (split; [|lia]).
      * assert (b = []) as -> by (apply zlen_zero; zlia). apply following_restart in Hf.
        exists (d ++ [y]), a, [], (w ++ [h]). split_and!; [done|done|done].
      * exists (d ++ [y]), a, (w ++ [h]), b. split_and!; [done| |done]. intros ->. zlia.
  - exists v, a, [], w. done.
  - pose proof (following_zlen _ _ _ _ _ _ _ _ _ _ _ _ Hf).
    destruct Hf as (_ & _ & _ & _ & _ & H1 & _ & H2 & _).
    pose proof (seg_range _ _ _ H1). pose proof (seg_range _ _ _ H2). apply seg_within in H1, H2.
    destruct (zlen_first a) as (? & ? & ->); [destruct a; [done|zlia]|]. zlia.
Qed.

Lemma __rotate_forward_spec first middle last u v l0 :
  middle = first + zlen u → last = middle + zlen v → seg l0 first u → seg l0 middle v →
  wpr (__rotate_forward first middle last) (rotated first u v l0) l0.
Proof.
  intros -> -> Hu Hv. unfold __rotate_forward.
  apply rotate_guard; [done..|]. intros ? ?.
  apply wpr_bind, (follow_first_spec first u v); [zlia|zlia|done|done|].
  intros m a w l Ha Hf. apply wpr_bind. eapply wpr_mono; [by eapply follow_rest_spec|].
  intros [] l' Hr. by apply wpr_ret.
Qed.

(** ** Shifting a block through another *)

(** [w] is the block [u] turned left by [i] places. *)
Definition turned (i : Z) u w : Prop :=
  ∃ a b, u = a ++ b ∧ w = b ++ a ∧ b ≠ [] ∧ zlen a = i mod zlen u.

Lemma turned_zlen i u w : turned i u w → zlen w = zlen u.
Proof. intros (a & b & -> & -> & _). zlia. Qed.

Lemma turned_0 u : u ≠ [] → turned 0 u u.
Proof. intros. exists [], u. by rewrite app_nil_r. Qed.

Lemma turned_step i u h w : 0 <= i → turned i u (h :: w) → turned (i + 1) u (w ++ [h]).
Proof.
  intros Hi (a & b & -> & E & Hb & El). destruct b as [|h' b]; [done|].
  injection E as -> ->. destruct b as [|h2 b].
  - exists [], (a ++ [h']). split_and!; [done|by rewrite app_nil_r|by destruct a|].
    zlens. rewrite <- Z.add_mod_idemp_l, <- El by lia.
    replace (zlen a + (1 + 0)) with (zlen a + 1) by lia. symmetry. apply Z.mod_same. lia.
  - exists (a ++ [h']), (h2 :: b). split_and!; [by simplify_list_eq..|].
    zlens. rewrite <- Z.add_mod_idemp_l, <- El by lia. rewrite Z.mod_small; lia.
Qed.

(** [w] is the block [v] turned right by [i] places. *)
Definition turned_back (i : Z) v w : Prop :=
  ∃ a b, v = a ++ b ∧ w = b ++ a ∧ a ≠ [] ∧ zlen b = i mod zlen v.

Lemma turned_back_zlen i v w : turned_back i v w → zlen w = zlen v.
Proof. intros (a & b & -> & -> & _). zlia. Qed.

Lemma turned_back_0 v : v ≠ [] → turned_back 0 v v.
Proof. intros. exists v, []. by rewrite app_nil_r. Qed.

Lemma turned_back_step i v h w : 0 <= i → turned_back i v (w ++ [h]) → turned_back (i + 1) v (h :: w).
Proof.
  intros Hi (a & b & -> & E & Ha & El).
  destruct (zlen_last a) as (a' & h' & ->); [destruct a; [done|zlia]|].
  rewrite app_assoc in E. apply app_inj_tail in E as [-> ->]. destruct a' as [|h2 a'].
  - exists (h' :: b), []. split_and!; [by rewrite app_nil_r|by rewrite app_nil_r|done|].
    zlens. rewrite <- Z.add_mod_idemp_l, <- El by lia.
    replace (0 + (1 + 0) + zlen b) with (zlen b + 1) by lia. symmetry. apply Z.mod_same. lia.
  - exists (h2 :: a'), (h' :: b). split_and!; [by simplify_list_eq..|].
    zlens. rewrite <- Z.add_mod_idemp_l, <- El by lia. rewrite Z.mod_small; lia.
Qed.

Lemma swap_up_spec count p q u v l0 :
  u ≠ [] → count = zlen v → q = p + zlen u → seg l0 p u → seg l0 q v →
  wpr (swap_up count p q) (λ r l, r.1 = p + zlen v ∧
    ∃ w, turned (zlen v) u w ∧ seg l p v ∧ seg l (p + zlen v) w ∧
    changed (λ i, p <= i < p + zlen u + zlen v) l0 l) l0.
Proof.
  intros Hne -> -> Hu Hv. apply (wpr_while (λ '(i, p', q') l, ∃ v1 v2 w,
    v = v1 ++ v2 ∧ i = zlen v1 ∧ p' = p + i ∧ q' = p' + zlen u ∧ turned i u w ∧
    seg l p v1 ∧ seg l p' w ∧ seg l q' v2 ∧
    changed (λ i, p <= i < p + zlen u + zlen v) l0 l) (λ '(i, _, _), zlen v - i)).
  - intros [ [i p'] q'] l (v1 & v2 & w & -> & -> & -> & -> & Ht & H1 & H2 & H3 & C).
    pose proof (turned_zlen _ _ _ Ht). split; [zlia|]. destruct v2 as [|y v2].
    { rewrite app_nil_r in C |- *. rewrite Z.ltb_irrefl. apply wpr_ret.
      split; [done|]. by exists w. }
    destruct (Z.ltb_spec (zlen v1) (zlen (v1 ++ y :: v2))); [|zlia].
    destruct (zlen_first w) as (h & w' & ->); [destruct u; [done|zlia]|].
    apply seg_cons in H2 as [Hh H2], H3 as [Hy H3].
    apply wpr_bind, (wpr_exchange _ _ h y); [done|done|zlia|]. intros l' C' Hi Hj.
    apply wpr_ret. split; [|zlia]. exists (v1 ++ [y]), v2, (w' ++ [h]).
    rewrite !seg_app, !seg_one.
    split_and!; [by simplify_list_eq|zlia|zlia|zlia|by apply turned_step; [zlia|]|
      seg_frame|done|seg_frame| |seg_frame|changes].
    by replace (p + zlen v1 + 1 + zlen w') with (p + zlen v1 + zlen u) by zlia.
  - exists [], v, u. split_and!; [done|done|zlia|done|by apply turned_0|done|done|done|done].
  - apply seg_within in Hv. zlia.
Qed.

Lemma swap_down_spec count p q u v l0 :
  v ≠ [] → count = zlen u → q = p + zlen v → seg l0 (p - zlen u) u → seg l0 p v →
  wpr (swap_down count p q) (λ r l, r.1 = p - zlen u ∧
    ∃ w, turned_back (zlen u) v w ∧ seg l (p - zlen u) w ∧ seg l (p - zlen u + zlen v) u ∧
    changed (λ i, p - zlen u <= i < p + zlen v) l0 l) l0.
Proof.
  intros Hne -> -> Hu Hv. apply (wpr_while (λ '(i, p', q') l, ∃ u1 u2 w,
    u = u1 ++ u2 ∧ i = zlen u2 ∧ p' = p - i ∧ q' = p' + zlen v ∧ turned_back i v w ∧
    seg l (p - zlen u) u1 ∧ seg l p' w ∧ seg l q' u2 ∧
    changed (λ i, p - zlen u <= i < p + zlen v) l0 l) (λ '(i, _, _), zlen u - i)).
  - intros [ [i p'] q'] l (u1 & u2 & w & -> & -> & -> & -> & Ht & H1 & H2 & H3 & C).
    pose proof (turned_back_zlen _ _ _ Ht). split; [zlia|].
    destruct (Z.ltb_spec (zlen u2) (zlen (u1 ++ u2))) as [Hl|].
    2:{ assert (u1 = []) as -> by (apply zlen_zero; zlia). apply wpr_ret.
        split; [done|]. by exists w. }
    destruct (zlen_last u1) as (u1' & x & ->); [zlia|].
    destruct (zlen_last w) as (w' & h & ->); [destruct v; [done|zlia]|].
    apply seg_app in H1 as [H1 Hx], H2 as [H2 Hh]. apply seg_one in Hx, Hh.
    apply wpr_bind, (wpr_exchange _ _ x h); [| |zlia|].
    { by replace (p - zlen u2 - 1) with (p - zlen ((u1' ++ [x]) ++ u2) + zlen u1') by zlia. }
    { by replace (p - zlen u2 + zlen v - 1) with (p - zlen u2 + zlen w') by zlia. }
    intros l' C' Hi Hj. apply wpr_ret. split; [|zlia]. exists u1', (x :: u2), (h :: w').
    rewrite !seg_cons.
    split_and!; [by simplify_list_eq|zlia|zlia|zlia|by apply turned_back_step; [zlia|]|
      seg_frame|done|seg_frame| |seg_frame|changes].
    by replace (p - zlen u2 - 1 + zlen v) with (p - zlen u2 + zlen v - 1) by zlia.
  - exists u, [], v. split_and!; [by rewrite app_nil_r|done|zlia|done|by apply turned_back_0|done|done|done|done].
  - apply seg_within in Hu. zlia.
Qed.

(** What is left of a rotation: to exchange the blocks [a] and [b], which makes
    [T] true. *)
Definition to_rotate (T : arr → Prop) (n k p : Z) a b l : Prop :=
  a ≠ [] ∧ b ≠ [] ∧ k = zlen a ∧ n = k + zlen b ∧ seg l p a ∧ seg l (p + k) b ∧
  ∀ l', changed (λ i, p <= i < p + n) l l' → seg l' p (b ++ a) → T l'.

Lemma zlen_pos xs : xs ≠ [] → 0 < zlen xs.
Proof. destruct xs; [done|zlia]. Qed.

Lemma rem_add_left a b : 0 <= a → 0 < b → Z.rem (a + b) b = a mod b.
Proof.
  intros. rewrite Z.rem_mod_nonneg by lia.
  replace (a + b) with (a + 1 * b) by lia. apply Z_mod_plus_full.
Qed.

(** The loop body when the first block is the shorter one. *)
Lemma rotate_shift_up T n k p a b l (Q : Z * Z → arr → Prop) :
  to_rotate T n k p a b l →
  (∀ p' q' l', (Z.rem n k = 0 → T l') →
    (Z.rem n k ≠ 0 → ∃ a' b', to_rotate T k (k - Z.rem n k) p' a' b' l') → Q (p', q') l') →
  wpr (swap_up (n - k) p (p + k)) Q l.
Proof.
  intros (Ha & Hb & -> & -> & H1 & H2 & HT) HQ. apply zlen_pos in Ha as Hpa, Hb as Hpb.
  eapply wpr_mono; [apply (swap_up_spec _ _ _ a b); [done|zlia|done|done|done]|].
  intros [p' q'] l' (Ep & w & Ht & Hs1 & Hs2 & C). cbn in Ep. subst p'.
  assert (Z.rem (zlen a + zlen b) (zlen a) = zlen b mod zlen a) as Er.
  { rewrite Z.add_comm. apply rem_add_left; lia. }
  rewrite Er in HQ. clear Er.
  destruct Ht as (a1 & a2 & -> & -> & Hne & Er). rewrite <- Er in HQ. apply HQ.
  - intros E. assert (a1 = []) as -> by (apply zlen_zero; lia).
    rewrite app_nil_l, app_nil_r in *. apply HT; [changes|]. by apply seg_app.
  - intros E. exists a2, a1. apply seg_app in Hs2 as [Hs2 Hs3].
    split_and!; [done|by intros ->|zlia|zlia|done| |].
    { by replace (_ + (_ - _)) with (p + zlen b + zlen a2) by zlia. }
    intros l2 C2 Hs. apply HT; [changes|]. apply seg_app. split; [seg_frame|done].
Qed.

(** The loop body when the second block is not longer than the first. *)
Lemma rotate_shift_down T n k p a b l (Q : Z * Z → arr → Prop) :
  to_rotate T n k p a b l →
  (∀ p' q' l', (Z.rem n (n - k) = 0 → T l') →
    (Z.rem n (n - k) ≠ 0 → ∃ a' b', to_rotate T (n - k) (Z.rem n (n - k)) p' a' b' l') → Q (p', q') l') →
  wpr (swap_down (n - (n - k)) (p + n - (n - k)) (p + n)) Q l.
Proof.
  intros (Ha & Hb & -> & -> & H1 & H2 & HT) HQ. apply zlen_pos in Ha as Hpa, Hb as Hpb.
  replace (zlen a + zlen b - zlen a) with (zlen b) in HQ |- * by lia.
  replace (zlen a + zlen b - zlen b) with (zlen a) by lia.
  replace (p + (zlen a + zlen b) - zlen b) with (p + zlen a) by lia.
  eapply wpr_mono; [apply (swap_down_spec _ _ _ a b); [done|done|lia| |done]|].
  { by replace (p + zlen a - zlen a) with p by lia. }
  intros [p' q'] l' (Ep & w & Ht & Hs1 & Hs2 & C). cbn in Ep.
  assert (p' = p) as -> by lia. clear Ep. replace (p + zlen a - zlen a) with p in * by lia.
  rewrite rem_add_left in HQ by lia.
  destruct Ht as (b1 & b2 & -> & -> & Hne & Er). rewrite <- Er in HQ. apply HQ.
  - intros E. assert (b2 = []) as -> by (apply zlen_zero; lia).
    rewrite app_nil_l, app_nil_r in *. apply HT; [changes|]. by apply seg_app.
  - intros E. exists b2, b1. apply seg_app in Hs1 as [Hs1 Hs3].
    split_and!; [by intros ->|done|done|zlia|done|done|].
    intros l2 C2 Hs. apply HT; [changes|]. apply seg_app. split; [done|seg_frame].
Qed.

(** One object of plain old data is moved past the others. *)
Lemma rotate_one_up {Y} (res : Y) T n p a b l (Q : Y → arr → Prop) :
  to_rotate T n 1 p a b l → (∀ l', T l' → Q res l') →
  wpr (t ← move_from p; move3 (p + 1) (p + n) p;; assign (p + n - 1) t;; mret res) Q l.
Proof.
  intros (Ha & Hb & El & -> & H1 & H2 & HT) HQ. apply zlen_pos in Hb as Hpb.
  destruct a as [|x [|x2 a]]; [done| |zlia]. apply seg_one in H1.
  pose proof (holds_range _ _ _ H1). pose proof (seg_range _ _ _ H2 Hpb).
  apply wpr_bind, (wpr_move_from _ _ _ _ H1), wpr_bind.
  assert (changed (λ i, i = p) l (updZ l p None)) as C0 by (apply changed_updZ; lia).
  eapply wpr_mono; [apply (move3_spec _ _ _ b); [lia|seg_frame|zlia|zlia|zlia]|].
  intros r l' (_ & Hs & C). apply wpr_bind, wpr_assign; [zlia|]. apply wpr_ret, HQ, HT.
  - apply (changed_trans _ _ l'); [changes|]. apply changed_updZ; zlia.
  - apply seg_app. split; [apply seg_updZ; [done|zlia..]|].
    apply seg_one. replace (p + zlen b) with (p + (1 + zlen b) - 1) by lia.
    apply holds_updZ_eq. zlia.
Qed.

Lemma rotate_one_down {Y} (res : Y) T n k p a b l (Q : Y → arr → Prop) :
  to_rotate T n k p a b l → n - k = 1 → (∀ l', T l' → Q res l') →
  wpr (t ← move_from (p + n - 1); move_backward p (p + n - 1) (p + n);; assign p t;; mret res) Q l.
Proof.
  intros (Ha & Hb & -> & -> & H1 & H2 & HT) E HQ. apply zlen_pos in Ha as Hpa.
  destruct b as [|y [|y2 b]]; [done| |zlia]. apply seg_one in H2.
  pose proof (holds_range _ _ _ H2). pose proof (seg_range _ _ _ H1 Hpa).
  replace (p + (zlen a + zlen [y]) - 1) with (p + zlen a) by zlia.
  apply wpr_bind, (wpr_move_from _ _ _ _ H2), wpr_bind.
  assert (changed (λ i, i = p + zlen a) l (updZ l (p + zlen a) None)) as C0 by (apply changed_updZ; lia).
  eapply wpr_mono; [apply (move_backward_seg _ _ _ a); [lia|seg_frame|zlia|zlia|zlia]|].
  intros r l' (_ & Hs & C). apply wpr_bind, wpr_assign; [zlia|]. apply wpr_ret, HQ, HT.
  - apply (changed_trans _ _ l'); [changes|]. apply changed_updZ; zlia.
  - apply seg_app. split; [by apply seg_one, holds_updZ_eq; zlia|].
    replace (p + zlen [y]) with (p + (zlen a + zlen [y]) - zlen a) by zlia.
    apply seg_updZ; [done|zlia..].
Qed.

Lemma __rotate_random_access_spec is_pod first middle last u v l0 :
  middle = first + zlen u → last = middle + zlen v → seg l0 first u → seg l0 middle v →
  wpr (__rotate_random_access is_pod first middle last) (rotated first u v l0) l0.
Proof.
  intros -> -> Hu Hv. unfold __rotate_random_access.
  apply rotate_guard; [done..|]. intros ? ?.
  cbv zeta. destruct (Z.eqb_spec (first + zlen u - first) (first + zlen u + zlen v - first - (first + zlen u - first))).
  { apply wpr_bind. eapply wpr_mono; [apply (swap_ranges_spec _ _ _ u v); [done|lia|done|done|lia]|].
    intros r l (_ & H1 & H2 & C). apply wpr_ret. split_and!; [lia| |changes].
    apply seg_app. split; [done|]. by replace (zlen v) with (zlen u) by lia. }
  set (ret := first + (first + zlen u + zlen v - (first + zlen u))).
  apply (wpr_while (λ '(n, k, p) l, ∃ a b, to_rotate (rotated first u v l0 ret) n k p a b l)
    (λ '(n, _, _), n)).
  - clear. intros [ [n k] p] l (a & b & Ht). pose proof Ht as (Ha & Hb & Ek & En & _).
    apply zlen_pos in Ha, Hb. split; [lia|]. destruct (Z.ltb_spec k (n - k)).
    + destruct (is_pod && (k =? 1)) eqn:Ep.
      { apply andb_prop in Ep as [_ ->%Z.eqb_eq].
        by apply (rotate_one_up _ _ _ _ _ _ _ _ Ht). }
      apply wpr_bind, (rotate_shift_up _ _ _ _ _ _ _ _ Ht). intros p' q' l' H0 H1.
      destruct (Z.eqb_spec (Z.rem n k) 0); apply wpr_ret; [by apply H0|]. split; [by apply H1|lia].
    + destruct (is_pod && (n - k =? 1)) eqn:Ep.
      { apply andb_prop in Ep as [_ E1%Z.eqb_eq]. by apply (rotate_one_down _ _ _ _ _ _ _ _ _ Ht). }
      apply wpr_bind, (rotate_shift_down _ _ _ _ _ _ _ _ Ht). intros p' q' l' H0 H1.
      destruct (Z.eqb_spec (Z.rem n (n - k)) 0); apply wpr_ret; [by apply H0|]. split; [by apply H1|lia].
  - exists u, v. split_and!; [by intros ->; zlia|by intros ->; zlia|lia|lia|done| |].
    { by replace (first + zlen u - first) with (zlen u) by lia. }
    intros l' C Hs. split_and!; [lia|done|changes].
  - apply seg_within in Hu as ?, Hv as ?. pose proof (seg_range _ _ _ Hu). pose proof (seg_range _ _ _ Hv). zlia.
Qed.

Lemma std_rotate_spec category is_pod first middle last u v l0 :
  middle = first + zlen u → last = middle + zlen v → seg l0 first u → seg l0 middle v →
  wpr (std_rotate category is_pod first middle last) (rotated first u v l0) l0.
Proof.
  destruct category;
    [apply __rotate_forward_spec|apply __rotate_bidirectional_spec|apply __rotate_random_access_spec].
Qed.

(** C25: [std::rotate] exchanges the two parts of the range and nothing else: its
    three implementations, for forward, bidirectional and random access
    iterators, and for plain old data or other objects, always end, do not leave
    the array, put [v] before [u] whatever their lengths, and return the
    position where [u] now begins. *)
Theorem rotate_exchanges category is_pod (pre post : arr) u v :
  std_rotate category is_pod (zlen pre) (zlen pre + zlen u) (zlen pre + zlen u + zlen v)
    (pre ++ (Some <$> u ++ v) ++ post) =
  Some (zlen pre + zlen v, pre ++ (Some <$> v ++ u) ++ post).
Proof.
  pose proof (seg_middle pre post (u ++ v)) as Hs. apply seg_app in Hs as [Hu Hv].
  destruct (wpr_run _ _ _ (std_rotate_spec category is_pod _ _ _ u v _ eq_refl eq_refl Hu Hv))
    as (r & l' & -> & -> & Hs' & C).
  f_equal. f_equal. apply (changed_middle _ _ (u ++ v)); [changes|zlia|done].
Qed.

(** [std::reverse] leaves the range reversed. *)
Lemma reverse_reverses category (pre post : arr) xs :
  category ≠ forward_iterator_tag →
  std_reverse category (zlen pre) (zlen pre + zlen xs) (pre ++ (Some <$> xs) ++ post) =
  Some (tt, pre ++ (Some <$> reverse xs) ++ post).
Proof.
  intros Hc. pose proof (seg_middle pre post xs) as Hs.
  assert (wpr (std_reverse category (zlen pre) (zlen pre + zlen xs))
    (λ _ l, reversed (zlen pre) xs (pre ++ (Some <$> xs) ++ post) l)
    (pre ++ (Some <$> xs) ++ post)) as ([] & l' & -> & Hs' & C)%wpr_run.
  { destruct category; [done|by apply __reverse_bidirectional_spec|by apply __reverse_random_access_spec]. }
  f_equal. f_equal. apply (changed_middle _ _ xs); [done|zlia|done].
Qed.
End Theory.
