(* ===== verification/StlOrder.v ===== *)
(** * Stable rearrangements

    What the documentation of [std::inplace_merge] and [std::stable_sort] promises:
    the values are in order, and equivalent values, of which neither is before
    the other, are in the order they had. There is only one such arrangement of a
    list ([stable_unique]). Here are the steps of merging two lists from the
    front and from the back, and merging by halves. *)
From stdpp Require Import base numbers list sorting.
From Stdlib Require Import ZArith Lia.
From S2P Require Import Prelude StlArray StlSearch StlSeg.

Section Stable.
Context {A : Type} (comp : A → A → bool) `{!StrictWeakOrder comp}.
Local Notation "a ⊑ b" := (le comp a b) (at level 70).
Implicit Types xs ys zs : list A.

Definition equivalent (a b : A) : bool := negb (comp a b) && negb (comp b a).

Definition in_order xs : Prop := StronglySorted (le comp) xs.

(** [ys] has the values of [xs], those of a class of equivalent values in the same
    order. *)
Definition stable xs ys : Prop :=
  ys ≡ₚ xs ∧ ∀ a, List.filter (equivalent a) ys = List.filter (equivalent a) xs.

(** [ys] is [xs] sorted stably. *)
Definition stably_sorted xs ys : Prop := in_order ys ∧ stable xs ys.

Lemma equivalent_le a b : equivalent a b = true ↔ a ⊑ b ∧ b ⊑ a.
Proof. unfold equivalent, le. rewrite andb_true_iff, !negb_true_iff. tauto. Qed.

Lemma stable_refl xs : stable xs xs.
Proof. done. Qed.

Lemma stable_trans xs ys zs : stable xs ys → stable ys zs → stable xs zs.
Proof. intros [P1 F1] [P2 F2]. split; [by rewrite P2|]. intros a. by rewrite F2. Qed.

Lemma stable_app xs ys xs' ys' : stable xs xs' → stable ys ys' → stable (xs ++ ys) (xs' ++ ys').
Proof.
  intros [P1 F1] [P2 F2]. split; [by rewrite P1, P2|]. intros a. by rewrite !List.filter_app, F1, F2.
Qed.

Lemma stable_zlen xs ys : stable xs ys → zlen ys = zlen xs.
Proof. intros [P _]. by apply zlen_perm. Qed.

Lemma stable_elem xs ys a : stable xs ys → a ∈ ys ↔ a ∈ xs.
Proof. intros [P _]. by rewrite P. Qed.

(** Blocks without equivalent values may be exchanged. *)
Lemma stable_swap xs ys :
  (∀ x y, x ∈ xs → y ∈ ys → comp y x = true) → stable (xs ++ ys) (ys ++ xs).
Proof.
  intros H. split; [apply Permutation_app_comm|]. intros a. rewrite !List.filter_app.
  assert (List.filter (equivalent a) xs = [] ∨ List.filter (equivalent a) ys = []) as [-> | ->];
    [|by rewrite app_nil_r..].
  destruct (List.filter (equivalent a) xs) as [|x xs'] eqn:Ex; [by left|].
  destruct (List.filter (equivalent a) ys) as [|y ys'] eqn:Ey; [by right|]. exfalso.
  assert (In x (x :: xs')) as Hx by (by left). rewrite <- Ex in Hx. apply filter_In in Hx as [Hx Hax].
  assert (In y (y :: ys')) as Hy by (by left). rewrite <- Ey in Hy. apply filter_In in Hy as [Hy Hay].
  apply equivalent_le in Hax as [? Hxa], Hay as [Hay ?].
  rewrite <- list_elem_of_In in Hx, Hy. specialize (H x y Hx Hy).
  assert (x ⊑ y) as H' by (etrans; [exact Hxa|exact Hay]). unfold le in H'. congruence.
Qed.

(** A list is sorted stably in one way only. *)
Lemma stable_unique_perm ys zs : in_order ys → in_order zs → stable ys zs → ys = zs.
Proof.
  revert zs. induction ys as [|y ys IH]; intros zs Hy Hz [P F].
  { by apply Permutation_nil_r in P. }
  destruct zs as [|z zs]; [by apply Permutation_nil_l in P|].
  apply StronglySorted_cons in Hy as [Hy Hy'], Hz as [Hz Hz'].
  assert (y ⊑ z) as Hyz.
  { assert (z ∈ y :: ys) as [->|Hin]%elem_of_cons by (rewrite <- P; by left); [done|].
    by eapply Forall_forall in Hy. }
  assert (z ⊑ y) as Hzy.
  { assert (y ∈ z :: zs) as [->|Hin]%elem_of_cons by (rewrite P; by left); [done|].
    by eapply Forall_forall in Hz. }
  assert (z = y) as ->.
  { specialize (F y). cbn in F.
    rewrite (proj2 (equivalent_le y z)), (proj2 (equivalent_le y y)) in F by done. by injection F. }
  f_equal. apply IH; [done|done|]. split; [by apply Permutation_cons_inv in P|].
  intros a. specialize (F a). cbn in F. destruct (equivalent a y); [by injection F|done].
Qed.

Lemma stable_unique xs ys zs : stably_sorted xs ys → stably_sorted xs zs → ys = zs.
Proof.
  intros [Hy [Py Fy]] [Hz [Pz Fz]]. apply stable_unique_perm; [done|done|].
  split; [by rewrite Py|]. intros a. by rewrite Fy.
Qed.

(** ** Merging from the front *)

Definition merging X Y d xs ys : Prop :=
  in_order (d ++ xs) ∧ in_order (d ++ ys) ∧ stable (X ++ Y) (d ++ xs ++ ys).

Lemma merging_zlen X Y d xs ys : merging X Y d xs ys → zlen X + zlen Y = zlen d + zlen xs + zlen ys.
Proof. intros (_ & _ & E%stable_zlen). zlia. Qed.

(** A value that is not after a sorted list goes before it. *)
Lemma in_order_insert d z x xs :
  in_order (d ++ [z]) → in_order (d ++ x :: xs) → z ⊑ x → in_order ((d ++ [z]) ++ x :: xs).
Proof.
  intros Hz Hx E. unfold in_order in *.
  pose proof (StronglySorted_app_1_r _ _ _ Hx) as [Hf Hs]%StronglySorted_cons.
  rewrite <- app_assoc. cbn [app]. rewrite StronglySorted_app, StronglySorted_cons in *.
  destruct Hz as (Hz & _), Hx as (Hx & Hd & _). split_and!; [|done| |by constructor].
  - intros a b Ha [->|Hb]%elem_of_cons; [by apply Hz; [|left]|by apply Hx].
  - constructor; [done|]. rewrite Forall_forall in Hf |- *. intros b Hb.
    etrans; [exact E|by apply Hf].
Qed.

Lemma in_order_head d x xs : in_order (d ++ x :: xs) → in_order (d ++ [x]).
Proof.
  rewrite (cons_middle x d xs). rewrite app_assoc. apply StronglySorted_app_1_l.
Qed.

Lemma merging_second X Y d x xs y ys :
  merging X Y d (x :: xs) (y :: ys) → comp y x = true → merging X Y (d ++ [y]) (x :: xs) ys.
Proof.
  intros (Hx & Hy & HS) E. split_and!.
  - apply in_order_insert; [by eapply in_order_head|done|by apply comp_le].
  - by rewrite <- app_assoc.
  - eapply stable_trans; [exact HS|]. rewrite <- app_assoc. apply stable_app; [done|].
    rewrite (cons_middle y (x :: xs) ys), !app_assoc. apply stable_app; [|done].
    apply (stable_swap (x :: xs) [y]). intros a b Ha ->%list_elem_of_singleton.
    apply StronglySorted_app_1_r, StronglySorted_cons in Hx as [Hf _].
    apply elem_of_cons in Ha as [->|Ha]; [done|]. rewrite Forall_forall in Hf.
    specialize (Hf a Ha). destruct (comp y a) eqn:E'; [done|].
    assert (x ⊑ y) as H by (etrans; [exact Hf|exact E']). unfold le in H. congruence.
Qed.

Lemma merging_first X Y d x xs y ys :
  merging X Y d (x :: xs) (y :: ys) → comp y x = false → merging X Y (d ++ [x]) xs (y :: ys).
Proof.
  intros (Hx & Hy & HS) E. split_and!.
  - by rewrite <- app_assoc.
  - apply in_order_insert; [by eapply in_order_head|done|done].
  - by rewrite <- app_assoc.
Qed.

Lemma merging_start X Y : in_order X → in_order Y → merging X Y [] X Y.
Proof. done. Qed.

Lemma merging_end_first X Y d ys : merging X Y d [] ys → stably_sorted (X ++ Y) (d ++ ys).
Proof. by intros (_ & ? & ?). Qed.

Lemma merging_end_second X Y d xs : merging X Y d xs [] → stably_sorted (X ++ Y) (d ++ xs).
Proof. rewrite <- (app_nil_r xs) at 2. by intros (? & _ & ?); rewrite app_nil_r in *. Qed.

(** ** Merging from the back *)

Definition merging_back X Y xs ys d : Prop :=
  in_order (xs ++ d) ∧ in_order (ys ++ d) ∧ stable (X ++ Y) (xs ++ ys ++ d).

Lemma merging_back_zlen X Y xs ys d :
  merging_back X Y xs ys d → zlen X + zlen Y = zlen xs + zlen ys + zlen d.
Proof. intros (_ & _ & E%stable_zlen). zlia. Qed.

Lemma in_order_last xs x a : in_order (xs ++ [x]) → a ∈ xs ++ [x] → a ⊑ x.
Proof.
  intros [H _]%StronglySorted_app [Ha| ->%list_elem_of_singleton]%elem_of_app; [|done].
  by apply H; [|left].
Qed.

Lemma in_order_insert_back ys y x d :
  in_order ((ys ++ [y]) ++ d) → in_order (x :: d) → y ⊑ x → in_order ((ys ++ [y]) ++ x :: d).
Proof.
  intros (Hy & Hs & _)%StronglySorted_app Hx E. apply StronglySorted_app. split_and!; [|done|done].
  intros a b Ha [->|Hb]%elem_of_cons; [|by apply Hy].
  etrans; [by eapply in_order_last|done].
Qed.

Lemma merging_back_first X Y xs x ys y d :
  merging_back X Y (xs ++ [x]) (ys ++ [y]) d → comp y x = true →
  merging_back X Y xs (ys ++ [y]) (x :: d).
Proof.
  intros (Hx & Hy & HS) E. rewrite <- app_assoc in Hx. split_and!.
  - done.
  - apply in_order_insert_back; [done|by apply StronglySorted_app_1_r in Hx|by apply comp_le].
  - eapply stable_trans; [exact HS|]. rewrite <- (app_assoc xs). apply stable_app; [done|].
    rewrite (cons_middle x (ys ++ [y]) d), !app_assoc. apply stable_app; [|done].
    rewrite <- app_assoc. apply (stable_swap [x] (ys ++ [y])).
    intros a b ->%list_elem_of_singleton Hb. apply (le_comp_trans comp b y); [|done].
    apply StronglySorted_app_1_l in Hy. by eapply in_order_last.
Qed.

Lemma merging_back_second X Y xs x ys y d :
  merging_back X Y (xs ++ [x]) (ys ++ [y]) d → comp y x = false →
  merging_back X Y (xs ++ [x]) ys (y :: d).
Proof.
  intros (Hx & Hy & HS) E. rewrite <- (app_assoc ys) in Hy, HS. split_and!; [|done|done].
  apply in_order_insert_back; [done|by apply StronglySorted_app_1_r in Hy|done].
Qed.

Lemma merging_back_start X Y : in_order X → in_order Y → merging_back X Y X Y [].
Proof. intros. unfold merging_back. by rewrite !app_nil_r. Qed.

Lemma merging_back_end_first X Y ys d :
  merging_back X Y [] ys d → stably_sorted (X ++ Y) (ys ++ d).
Proof. by intros (_ & ? & ?). Qed.

Lemma merging_back_end_second X Y xs d :
  merging_back X Y xs [] d → stably_sorted (X ++ Y) (xs ++ d).
Proof. by intros (? & _ & ?). Qed.

(** ** Merging by halves *)

(** Cutting the parts: the values of [Y1] are before those of [X2], and those of
    [X1] not after those of [Y2]. *)
Definition cut (X1 X2 Y1 Y2 : list A) : Prop :=
  (∀ x y, x ∈ X2 → y ∈ Y1 → comp y x = true) ∧ (∀ x y, x ∈ X1 → y ∈ Y2 → x ⊑ y).

(** Sorted parts that are stably merged and do not overlap. *)
Lemma cut_merge X1 X2 Y1 Y2 Z1 Z2 :
  in_order (X1 ++ X2) → in_order (Y1 ++ Y2) → cut X1 X2 Y1 Y2 →
  stably_sorted (X1 ++ Y1) Z1 → stably_sorted (X2 ++ Y2) Z2 →
  stably_sorted ((X1 ++ X2) ++ Y1 ++ Y2) (Z1 ++ Z2).
Proof.
  intros (HX & _)%StronglySorted_app (HY & _)%StronglySorted_app [Hc1 Hc2] [S1 T1] [S2 T2]. split.
  - apply StronglySorted_app. split_and!; [|done|done].
    intros a b Ha Hb. apply (stable_elem _ _ a T1), elem_of_app in Ha.
    apply (stable_elem _ _ b T2), elem_of_app in Hb.
    destruct Ha as [Ha|Ha], Hb as [Hb|Hb]; [by apply HX|by apply Hc2| |by apply HY].
    by apply comp_le, Hc1.
  - eapply stable_trans; [|by apply stable_app]. rewrite <- !app_assoc.
    apply stable_app; [done|]. rewrite !app_assoc. apply stable_app; [|done].
    by apply stable_swap.
Qed.

(** Sorting the parts first. *)
Lemma stably_sorted_app xs ys xs' ys' zs :
  stable xs xs' → stable ys ys' → stably_sorted (xs' ++ ys') zs → stably_sorted (xs ++ ys) zs.
Proof.
  intros ?? [? ?]. split; [done|]. eapply stable_trans; [|done]. by apply stable_app.
Qed.
End Stable.
