(* ===== verification/StlMerge.v ===== *)
(** * Stable merging, [bits/stl_algo.h]

    The merges behind [std::inplace_merge] and [std::stable_sort]: with a buffer
    that holds the shorter part ([__move_merge_adaptive] and its backward
    twin), with a buffer that is too short or without one
    ([__merge_adaptive], [__merge_without_buffer]: cut both parts, rotate the
    middle, merge the halves), and from one array to another ([__move_merge]).
    The theorems: the functions end, no object that has been moved from is
    compared, and the result is sorted and stable: equivalent objects keep the
    order they had. *)
From stdpp Require Import base numbers list sorting.
From Stdlib Require Import ZArith Lia.
From S2P Require Import Prelude StlArray StlHeap StlSort StlSearch StlSeg StlRotate StlOrder.

Section Code.
Context {A : Type}.
Local Abbreviation arr := (list (option A)).
Variable comp : A → A → bool.
(** The kind of the iterators, and whether the objects are plain old data ([__is_pod]). *)
Variable category : iterator_category.
Variable is_pod : bool.

Local Abbreviation rotate := (std_rotate category is_pod).

(** The loop that [__move_merge_adaptive] and [__move_merge] begin with. *)
Definition move_merge_loop (first1 last1 first2 last2 result : Z) : M arr (Z * Z * Z) :=
  while (λ '(first1, first2, result),
    if negb (first1 =? last1) && negb (first2 =? last2) then
      b ← _Iter_comp_iter comp first2 first1;
      if b : bool then
        v ← move_from first2;
        assign result v;;
        mret (inl (first1, first2 + 1, result + 1))
      else
        v ← move_from first1;
        assign result v;;
        mret (inl (first1 + 1, first2, result + 1))
    else mret (inr (first1, first2, result))) (first1, first2, result).

Definition __move_merge_adaptive (first1 last1 first2 last2 result : Z) : M arr unit :=
  r ← move_merge_loop first1 last1 first2 last2 result;
  let '(first1, first2, result) := r in
  if negb (first1 =? last1) then move3 first1 last1 result;; mret tt else mret tt.

Definition __move_merge_adaptive_backward (first1 last1 first2 last2 result : Z) : M arr unit :=
  if first1 =? last1 then move_backward first2 last2 result;; mret tt
  else if first2 =? last2 then mret tt
  else
    while (λ '(last1, last2, result),
      b ← _Iter_comp_iter comp last2 last1;
      if b : bool then
        v ← move_from last1;
        assign (result - 1) v;;
        if first1 =? last1 then
          move_backward first2 (last2 + 1) (result - 1);;
          mret (inr tt)
        else mret (inl (last1 - 1, last2, result - 1))
      else
        v ← move_from last2;
        assign (result - 1) v;;
        if first2 =? last2 then mret (inr tt)
        else mret (inl (last1, last2 - 1, result - 1))) (last1 - 1, last2 - 1, result).

Definition __move_merge (first1 last1 first2 last2 result : Z) : M arr Z :=
  r ← move_merge_loop first1 last1 first2 last2 result;
  let '(first1, first2, result) := r in
  result ← move3 first1 last1 result;
  move3 first2 last2 result.

Definition __rotate_adaptive (first middle last len1 len2 buffer buffer_size : Z) : M arr Z :=
  if (len2 <? len1) && (len2 <=? buffer_size) then
    if negb (len2 =? 0) then
      buffer_end ← move3 middle last buffer;
      move_backward first middle last;;
      move3 buffer buffer_end first
    else mret first
  else if len1 <=? buffer_size then
    if negb (len1 =? 0) then
      buffer_end ← move3 first middle buffer;
      move3 middle last first;;
      move_backward buffer buffer_end last
    else mret last
  else
    rotate first middle last;;
    mret (first + (last - middle)).

(** Where [__merge_adaptive] and [__merge_without_buffer] cut the two parts:
    [(first_cut, second_cut, len11, len22)]. *)
Definition merge_cuts (first middle last len1 len2 : Z) : M arr (Z * Z * Z * Z) :=
  if len2 <? len1 then
    let len11 := cdiv len1 2 in
    let first_cut := first + len11 in
    val ← load first_cut;
    second_cut ← __lower_bound comp middle last val;
    mret (first_cut, second_cut, len11, second_cut - middle)
  else
    let len22 := cdiv len2 2 in
    let second_cut := middle + len22 in
    val ← load second_cut;
    first_cut ← __upper_bound comp first middle val;
    mret (first_cut, second_cut, first_cut - first, len22).

(** The depth of the recursion is given. *)
Fixpoint merge_adaptive_n (depth : nat) (first middle last len1 len2 buffer buffer_size : Z) :
    M arr unit :=
  match depth with
  | O => ub
  | S depth =>
      if (len1 <=? len2) && (len1 <=? buffer_size) then
        buffer_end ← move3 first middle buffer;
        __move_merge_adaptive buffer buffer_end middle last first
      else if len2 <=? buffer_size then
        buffer_end ← move3 middle last buffer;
        __move_merge_adaptive_backward first middle buffer buffer_end last
      else
        cuts ← merge_cuts first middle last len1 len2;
        let '(first_cut, second_cut, len11, len22) := cuts in
        new_middle ← __rotate_adaptive first_cut middle second_cut (len1 - len11) len22
                                       buffer buffer_size;
        merge_adaptive_n depth first first_cut new_middle len11 len22 buffer buffer_size;;
        merge_adaptive_n depth new_middle second_cut last (len1 - len11) (len2 - len22)
                         buffer buffer_size
  end.

Definition __merge_adaptive (first middle last len1 len2 buffer buffer_size : Z) : M arr unit :=
  λ l, merge_adaptive_n (S (length l)) first middle last len1 len2 buffer buffer_size l.

Fixpoint merge_without_buffer_n (depth : nat) (first middle last len1 len2 : Z) : M arr unit :=
  match depth with
  | O => ub
  | S depth =>
      if (len1 =? 0) || (len2 =? 0) then mret tt
      else if len1 + len2 =? 2 then
        b ← _Iter_comp_iter comp middle first;
        if b : bool then iter_swap first middle else mret tt
      else
        cuts ← merge_cuts first middle last len1 len2;
        let '(first_cut, second_cut, len11, len22) := cuts in
        rotate first_cut middle second_cut;;
        let new_middle := first_cut + (second_cut - middle) in
        merge_without_buffer_n depth first first_cut new_middle len11 len22;;
        merge_without_buffer_n depth new_middle second_cut last (len1 - len11) (len2 - len22)
  end.

Definition __merge_without_buffer (first middle last len1 len2 : Z) : M arr unit :=
  λ l, merge_without_buffer_n (S (length l)) first middle last len1 len2 l.
End Code.

Section Theory.
Context {A : Type} (comp : A → A → bool) `{!StrictWeakOrder comp}.
Local Abbreviation arr := (list (option A)).
Implicit Types l : arr.
Implicit Types X Y Z xs ys : list A.

(** ** Merging forward *)

Lemma move_merge_loop_spec first1 last1 first2 last2 result X Y l0 :
  last1 = first1 + zlen X → last2 = first2 + zlen Y → seg l0 first1 X → seg l0 first2 Y →
  in_order comp X → in_order comp Y →
  0 <= result → result + zlen X + zlen Y <= zlen l0 →
  apart first1 (zlen X) first2 (zlen Y) → apart result (zlen X + zlen Y) first1 (zlen X) →
  result + zlen X <= first2 ∨ last2 <= result →
  wpr (move_merge_loop comp first1 last1 first2 last2 result) (λ r l, ∃ d xs ys,
    r = (last1 - zlen xs, last2 - zlen ys, result + zlen d) ∧ (xs = [] ∨ ys = []) ∧
    zlen xs <= zlen X ∧ zlen ys <= zlen Y ∧ merging comp X Y d xs ys ∧ seg l result d ∧ seg l (last1 - zlen xs) xs ∧
    seg l (last2 - zlen ys) ys ∧
    changed (λ i, first1 <= i < last1 ∨ first2 <= i < last2 ∨
                  result <= i < result + zlen X + zlen Y) l0 l) l0.
Proof.
  unfold apart. intros -> -> H1 H2 S1 S2 ?? Ha Ha1 Ha2.
  apply (wpr_while (λ '(f1, f2, r) l, ∃ d xs ys,
    f1 = first1 + zlen X - zlen xs ∧ f2 = first2 + zlen Y - zlen ys ∧ r = result + zlen d ∧
    merging comp X Y d xs ys ∧ zlen xs <= zlen X ∧ zlen ys <= zlen Y ∧
    seg l result d ∧ seg l f1 xs ∧ seg l f2 ys ∧
    changed (λ i, first1 <= i < first1 + zlen X ∨ first2 <= i < first2 + zlen Y ∨
                  result <= i < result + zlen X + zlen Y) l0 l)
    (λ '(_, _, r), result + zlen X + zlen Y - r)).
  - intros [ [f1 f2] r] l (d & xs & ys & -> & -> & -> & Hm & Hlx & Hly & Hd & Hx & Hy & C).
    pose proof (merging_zlen _ _ _ _ _ _ Hm). split; [zlia|].
    destruct xs as [|x xs].
    { destruct (Z.eqb_spec (first1 + zlen X - zlen (@nil A)) (first1 + zlen X)); [|zlia].
      apply wpr_ret. exists d, [], ys. split_and!; [done|by left|done..]. }
    destruct ys as [|y ys].
    { destruct (Z.eqb_spec (first2 + zlen Y - zlen (@nil A)) (first2 + zlen Y)); [|zlia].
      rewrite andb_false_r. apply wpr_ret. exists d, (x :: xs), []. split_and!; [done|by right|done..]. }
    destruct (Z.eqb_spec (first1 + zlen X - zlen (x :: xs)) (first1 + zlen X)); [zlia|].
    destruct (Z.eqb_spec (first2 + zlen Y - zlen (y :: ys)) (first2 + zlen Y)); [zlia|].
    apply seg_cons in Hx as [Hx0 Hx], Hy as [Hy0 Hy]. cbn [negb andb].
    apply wpr_bind, (wpr_iter_iter _ _ _ _ _ _ _ Hy0 Hx0). destruct (comp y x) eqn:E.
    + apply (wpr_transfer _ _ _ y); [done|zlia|zlia|]. intros l' C' Hr. apply wpr_ret. split; [|lia].
      exists (d ++ [y]), (x :: xs), ys. rewrite seg_app, seg_one, seg_cons.
      split_and!; [done|zlia|zlia|by apply merging_second|done|zlia|seg_frame|done| |seg_frame|seg_frame|changes].
      apply (changed_holds _ _ _ _ _ C'); [zlia|done].
    + apply (wpr_transfer _ _ _ x); [done|zlia|zlia|]. intros l' C' Hr. apply wpr_ret. split; [|lia].
      exists (d ++ [x]), xs, (y :: ys). rewrite seg_app, seg_one, seg_cons.
      split_and!; [zlia|done|zlia|by apply merging_first|zlia|done|seg_frame|done|seg_frame| |seg_frame|changes].
      apply (changed_holds _ _ _ _ _ C'); [zlia|done].
  - exists [], X, Y. split_and!; [lia|lia|zlia|by apply merging_start|done..].
  - apply seg_within in H1, H2. zlia.
Qed.

(** The cells [lo..lo+n) hold [X ++ Y] merged. *)
Definition merged X Y (lo : Z) l : Prop := ∃ zs, stably_sorted comp (X ++ Y) zs ∧ seg l lo zs.

Lemma merged_intro X Y zs lo l : stably_sorted comp (X ++ Y) zs → seg l lo zs → merged X Y lo l.
Proof. by exists zs. Qed.

(** The second part lies where the result will end. *)
Lemma __move_merge_adaptive_spec first1 last1 first2 last2 result X Y l0 :
  last1 = first1 + zlen X → last2 = first2 + zlen Y → seg l0 first1 X → seg l0 first2 Y →
  in_order comp X → in_order comp Y →
  0 <= result → first2 = result + zlen X → last2 <= zlen l0 →
  apart result (zlen X + zlen Y) first1 (zlen X) →
  wpr (__move_merge_adaptive comp first1 last1 first2 last2 result) (λ _ l, merged X Y result l ∧
    changed (λ i, first1 <= i < last1 ∨ result <= i < result + zlen X + zlen Y) l0 l) l0.
Proof.
  intros -> -> H1 H2 S1 S2 ? -> ? Ha. apply wpr_bind. unfold apart in Ha.
  eapply wpr_mono; [apply (move_merge_loop_spec _ _ _ _ _ X Y); [done..|lia|lia|unfold apart; zlia|done|lia]|].
  intros [ [f1 f2] r] l (d & xs & ys & [= -> -> ->] & Hor & Hlx & Hly & Hm & Hd & Hx & Hy & C).
  pose proof (merging_zlen _ _ _ _ _ _ Hm). destruct xs as [|x xs].
  - destruct (Z.eqb_spec (first1 + zlen X - zlen (@nil A)) (first1 + zlen X)); [|zlia]. apply wpr_ret.
    split; [|changes]. apply (merged_intro _ _ (d ++ ys)); [by apply merging_end_first|].
    apply seg_app. split; [done|]. by replace (result + zlen d) with (result + zlen X + zlen Y - zlen ys) by zlia.
  - destruct Hor as [?| ->]; [done|].
    destruct (Z.eqb_spec (first1 + zlen X - zlen (x :: xs)) (first1 + zlen X)); [zlia|].
    apply wpr_bind. eapply wpr_mono.
    { apply (move3_spec _ _ _ (x :: xs)); [zlia|done|zlia|zlia|zlia]. }
    intros r l' (_ & Hr & C'). apply wpr_ret. split; [|changes].
    apply (merged_intro _ _ (d ++ x :: xs)); [by apply merging_end_second|].
    apply seg_app. split; [seg_frame|done].
Qed.

(** The result lies apart from both parts. *)
Lemma __move_merge_spec first1 last1 first2 last2 result X Y l0 :
  last1 = first1 + zlen X → last2 = first2 + zlen Y → seg l0 first1 X → seg l0 first2 Y →
  in_order comp X → in_order comp Y →
  0 <= result → result + zlen X + zlen Y <= zlen l0 → apart first1 (zlen X) first2 (zlen Y) →
  apart result (zlen X + zlen Y) first1 (zlen X) → apart result (zlen X + zlen Y) first2 (zlen Y) →
  wpr (__move_merge comp first1 last1 first2 last2 result) (λ r l,
    r = result + zlen X + zlen Y ∧ merged X Y result l ∧
    changed (λ i, first1 <= i < last1 ∨ first2 <= i < last2 ∨
                  result <= i < result + zlen X + zlen Y) l0 l) l0.
Proof.
  intros -> -> H1 H2 S1 S2 ?? Ha0 Ha1 Ha2. apply wpr_bind. unfold apart in *.
  eapply wpr_mono; [apply (move_merge_loop_spec _ _ _ _ _ X Y); [done..|zlia]|].
  intros [ [f1 f2] r] l (d & xs & ys & [= -> -> ->] & Hor & Hlx & Hly & Hm & Hd & Hx & Hy & C).
  pose proof (merging_zlen _ _ _ _ _ _ Hm). apply wpr_bind.
  eapply wpr_mono; [apply (move3_spec _ _ _ xs); [zlia|done|zlia|zlia|zlia]|].
  intros r l1 (-> & Hx1 & C1).
  eapply wpr_mono; [apply (move3_spec _ _ _ ys); [zlia|seg_frame|zlia|zlia|zlia]|].
  intros r l2 (-> & Hy2 & C2). split_and!; [zlia| |changes].
  apply (merged_intro _ _ (d ++ xs ++ ys)).
  - destruct Hor as [-> | ->]; [by apply merging_end_first|].
    rewrite app_nil_r. by apply merging_end_second.
  - rewrite !seg_app. split_and!; [|seg_frame|done].
    assert (seg l1 result d) by seg_frame. seg_frame.
Qed.

(** ** Merging backward *)

(** The state of the loop: [xs] and [ys] are left, [d] follows the place where they
    will go. *)
Definition backing X Y (first1 first2 : Z) l0 xs ys d l : Prop :=
  merging_back comp X Y xs ys d ∧ zlen ys <= zlen Y ∧
  seg l first1 xs ∧ seg l first2 ys ∧ seg l (first1 + zlen xs + zlen ys) d ∧
  changed (λ i, first2 <= i < first2 + zlen Y ∨ first1 <= i < first1 + zlen X + zlen Y) l0 l.

Section Backward.
Context (X Y : list A) (first1 first2 : Z) (l0 : arr).
Hypothesis first1_range : 0 <= first1 ∧ first1 + zlen X + zlen Y <= zlen l0.
Hypothesis buffer_apart : apart first1 (zlen X + zlen Y) first2 (zlen Y).
Local Abbreviation backing := (backing X Y first1 first2 l0).

Lemma backing_first {B} (m : M arr B) xs x ys y d Q l :
  backing (xs ++ [x]) (ys ++ [y]) d l → comp y x = true →
  (∀ l', backing xs (ys ++ [y]) (x :: d) l' → wpr m Q l') →
  wpr (v ← move_from (first1 + zlen xs); assign (first1 + zlen xs + zlen ys + 1) v;; m) Q l.
Proof.
  unfold apart in *. intros (Hm & Hly & Hx & Hy & Hd & C) E HQ.
  pose proof (merging_back_zlen _ _ _ _ _ _ Hm). apply seg_app in Hx as [Hx Hx0]. apply seg_one in Hx0.
  apply (wpr_transfer _ _ _ x); [done|zlia|zlia|]. intros l' C' Hr. apply HQ.
  split_and!; [by apply merging_back_first|done|seg_frame|seg_frame| |changes].
  apply seg_cons. split; [|seg_frame].
  by replace (first1 + zlen xs + zlen (ys ++ [y])) with (first1 + zlen xs + zlen ys + 1) by zlia.
Qed.

Lemma backing_second {B} (m : M arr B) xs x ys y d Q l :
  backing (xs ++ [x]) (ys ++ [y]) d l → comp y x = false →
  (∀ l', backing (xs ++ [x]) ys (y :: d) l' → wpr m Q l') →
  wpr (v ← move_from (first2 + zlen ys); assign (first1 + zlen xs + zlen ys + 1) v;; m) Q l.
Proof.
  unfold apart in *. intros (Hm & Hly & Hx & Hy & Hd & C) E HQ.
  pose proof (merging_back_zlen _ _ _ _ _ _ Hm). apply seg_app in Hy as [Hy Hy0]. apply seg_one in Hy0.
  apply (wpr_transfer _ _ _ y); [done|zlia|zlia|]. intros l' C' Hr. apply HQ.
  split_and!; [by apply merging_back_second|zlia|seg_frame|seg_frame| |changes].
  apply seg_cons. split; [|seg_frame].
  by replace (first1 + zlen (xs ++ [x]) + zlen ys) with (first1 + zlen xs + zlen ys + 1) by zlia.
Qed.

(** Only values of the second part are left. *)
Lemma backing_end_first last2 result ys d (Q : Z → arr → Prop) l :
  backing [] ys d l → last2 = first2 + zlen ys → result = first1 + zlen ys →
  (∀ r l', merged X Y first1 l' →
    changed (λ i, first2 <= i < first2 + zlen Y ∨ first1 <= i < first1 + zlen X + zlen Y) l0 l' → Q r l') →
  wpr (move_backward first2 last2 result) Q l.
Proof.
  unfold apart in *. intros (Hm & Hly & Hx & Hy & Hd & C) -> -> HQ.
  pose proof (merging_back_zlen _ _ _ _ _ _ Hm).
  eapply wpr_mono; [apply (move_backward_seg _ _ _ ys); [done|done|zlia|zlia|zlia]|].
  intros r l' (_ & Hy' & C'). apply HQ; [|changes].
  apply (merged_intro _ _ (ys ++ d)); [by apply merging_back_end_first|].
  apply seg_app. split; [by replace first1 with (first1 + zlen ys - zlen ys) by lia|seg_frame].
Qed.

Lemma backing_end_second xs d l : backing xs [] d l → merged X Y first1 l.
Proof.
  intros (Hm & Hly & Hx & Hy & Hd & C).
  apply (merged_intro _ _ (xs ++ d)); [by apply merging_back_end_second|].
  apply seg_app. split; [done|]. by replace (first1 + zlen xs) with (first1 + zlen xs + zlen (@nil A)) by zlia.
Qed.
End Backward.

(** The first part lies where the result will begin, the second one in a buffer. *)
Lemma __move_merge_adaptive_backward_spec first1 last1 first2 last2 result X Y l0 :
  last1 = first1 + zlen X → last2 = first2 + zlen Y → seg l0 first1 X → seg l0 first2 Y →
  in_order comp X → in_order comp Y →
  0 <= first1 → result = first1 + zlen X + zlen Y → result <= zlen l0 →
  apart first1 (zlen X + zlen Y) first2 (zlen Y) →
  wpr (__move_merge_adaptive_backward comp first1 last1 first2 last2 result) (λ _ l,
    merged X Y first1 l ∧
    changed (λ i, first2 <= i < first2 + zlen Y ∨ first1 <= i < first1 + zlen X + zlen Y) l0 l) l0.
Proof.
  intros -> -> H1 H2 S1 S2 ? -> ? Ha. unfold __move_merge_adaptive_backward.
  assert (backing X Y first1 first2 l0 X Y [] l0) as Hb0.
  { split_and!; [by apply merging_back_start|done..]. }
  destruct (Z.eqb_spec first1 (first1 + zlen X)).
  { assert (X = []) as -> by (apply zlen_zero; zlia).
    apply wpr_bind, (backing_end_first _ _ _ _ _ ltac:(done) Ha _ _ _ _ _ _ Hb0); [done|zlia|].
    intros r l' Hm C. by apply wpr_ret. }
  destruct (Z.eqb_spec first2 (first2 + zlen Y)).
  { assert (Y = []) as -> by (apply zlen_zero; zlia). apply wpr_ret.
    split; [by eapply backing_end_second|done]. }
  apply (wpr_while (λ '(la1, la2, r) l, ∃ xs x ys y d, la1 = first1 + zlen xs ∧ la2 = first2 + zlen ys ∧
    r = first1 + zlen xs + zlen ys + 2 ∧ backing X Y first1 first2 l0 (xs ++ [x]) (ys ++ [y]) d l)
    (λ '(_, _, r), r - first1)).
  - intros [ [la1 la2] r] l (xs & x & ys & y & d & -> & -> & -> & Hb). split; [zlia|].
    pose proof Hb as (_ & _ & [_ Hx0]%seg_app & [_ Hy0]%seg_app & _). apply seg_one in Hx0, Hy0.
    replace (first1 + zlen xs + zlen ys + 2 - 1) with (first1 + zlen xs + zlen ys + 1) by lia.
    apply wpr_bind, (wpr_iter_iter _ _ _ _ _ _ _ Hy0 Hx0). destruct (comp y x) eqn:E.
    + apply (backing_first _ _ _ _ _ ltac:(done) Ha _ _ _ _ _ _ _ _ Hb E). clear Hb. intros l' Hb.
      destruct (Z.eqb_spec first1 (first1 + zlen xs)).
      * assert (xs = []) as -> by (apply zlen_zero; zlia).
        apply wpr_bind, (backing_end_first _ _ _ _ _ ltac:(done) Ha _ _ _ _ _ _ Hb); [zlia|zlia|].
        intros r l2 Hm C. by apply wpr_ret.
      * destruct (zlen_last xs) as (xs' & x' & ->); [zlia|].
        apply wpr_ret. split; [|lia]. exists xs', x', ys, y, (x :: d). split_and!; [zlia|done|zlia|done].
    + apply (backing_second _ _ _ _ _ ltac:(done) Ha _ _ _ _ _ _ _ _ Hb E). clear Hb. intros l' Hb.
      destruct (Z.eqb_spec first2 (first2 + zlen ys)); apply wpr_ret.
      * assert (ys = []) as -> by (apply zlen_zero; zlia).
        split; [by eapply backing_end_second|apply Hb].
      * destruct (zlen_last ys) as (ys' & y' & ->); [zlia|].
        split; [|lia]. exists xs, x, ys', y', (y :: d). split_and!; [done|zlia|zlia|done].
  - destruct (zlen_last X) as (xs & x & ->); [zlia|]. destruct (zlen_last Y) as (ys & y & ->); [zlia|].
    exists xs, x, ys, y, []. split_and!; [zlia|zlia|zlia|done].
  - apply seg_within in H1, H2. zlia.
Qed.

(** ** Rotating with a buffer *)

Section Rotate.
Context (first buffer bs : Z) (u v : list A) (l0 : arr).
Hypothesis Hu : seg l0 first u.
Hypothesis Hv : seg l0 (first + zlen u) v.
Hypothesis first_range : 0 <= first ∧ first + zlen u + zlen v <= zlen l0.
Hypothesis Hb : buffer_ok buffer bs first (zlen u + zlen v) l0.

Definition rotated_with_buffer (r : Z) l : Prop :=
  r = first + zlen v ∧ seg l first (v ++ u) ∧
  changed (λ i, buffer <= i < buffer + bs ∨ first <= i < first + zlen u + zlen v) l0 l.

Lemma rotate_second_part :
  0 < zlen v → zlen v <= bs →
  wpr (buffer_end ← move3 (first + zlen u) (first + zlen u + zlen v) buffer;
       move_backward first (first + zlen u) (first + zlen u + zlen v);;
       move3 buffer buffer_end first) rotated_with_buffer l0.
Proof.
  destruct Hb as (? & ? & ? & Ha). unfold apart in Ha. intros ??.
  apply wpr_bind. eapply wpr_mono; [apply (move3_spec _ _ _ v); [done|done|lia|lia|zlia]|].
  intros be l1 (-> & Hb1 & C1). apply wpr_bind.
  eapply wpr_mono; [apply (move_backward_seg _ _ _ u); [done|seg_frame|zlia|zlia|zlia]|].
  intros r l2 (_ & Hu2 & C2).
  eapply wpr_mono; [apply (move3_spec _ _ _ v); [done|seg_frame|zlia|zlia|zlia]|].
  intros r' l3 (-> & Hv3 & C3). split_and!; [done| |changes]. apply seg_app. split; [done|].
  replace (first + zlen v) with (first + zlen u + zlen v - zlen u) by lia. seg_frame.
Qed.

Lemma rotate_first_part :
  0 < zlen u → zlen u <= bs →
  wpr (buffer_end ← move3 first (first + zlen u) buffer;
       move3 (first + zlen u) (first + zlen u + zlen v) first;;
       move_backward buffer buffer_end (first + zlen u + zlen v)) rotated_with_buffer l0.
Proof.
  destruct Hb as (? & ? & ? & Ha). unfold apart in Ha. intros ??.
  apply wpr_bind. eapply wpr_mono; [apply (move3_spec _ _ _ u); [done|done|lia|zlia|zlia]|].
  intros be l1 (-> & Hb1 & C1). apply wpr_bind.
  eapply wpr_mono; [apply (move3_spec _ _ _ v); [done|seg_frame|zlia|zlia|zlia]|].
  intros r l2 (_ & Hv2 & C2).
  eapply wpr_mono; [apply (move_backward_seg _ _ _ u); [done|seg_frame|zlia|zlia|zlia]|].
  intros r' l3 (-> & Hu3 & C3). split_and!; [lia| |changes]. apply seg_app. split; [seg_frame|].
  by replace (first + zlen v) with (first + zlen u + zlen v - zlen u) by lia.
Qed.

Lemma __rotate_adaptive_spec category is_pod middle last len1 len2 :
  middle = first + zlen u → last = middle + zlen v → len1 = zlen u → len2 = zlen v →
  wpr (__rotate_adaptive category is_pod first middle last len1 len2 buffer bs) rotated_with_buffer l0.
Proof.
  intros -> -> -> ->. unfold __rotate_adaptive. case_match.
  - destruct (Z.eqb_spec (zlen v) 0); cbn [negb]; [|apply rotate_second_part; zlia].
    apply wpr_ret. unfold rotated_with_buffer. rewrite (zlen_zero v) by lia. split_and!; [zlia|done|done].
  - destruct (Z.leb_spec (zlen u) bs).
    + destruct (Z.eqb_spec (zlen u) 0) as [E|]; cbn [negb]; [|apply rotate_first_part; zlia].
      apply wpr_ret. rewrite E, Z.add_0_r in Hv |- *. unfold rotated_with_buffer.
      rewrite (zlen_zero u) by lia. split_and!; [done|by rewrite app_nil_r|done].
    + apply wpr_bind. eapply wpr_mono; [by apply (std_rotate_spec _ _ _ _ _ u v)|].
      intros r l (_ & Hs & C). apply wpr_ret. split_and!; [lia|done|changes].
Qed.
End Rotate.

(** ** Cutting the parts *)

Lemma seg_elem lo xs l x : seg l lo xs → x ∈ xs → ∃ i, lo <= i < lo + zlen xs ∧ holds l i x.
Proof.
  intros H [k E]%list_elem_of_lookup. pose proof (lookup_lt_Some _ _ _ E).
  exists (lo + Z.of_nat k). split; [unfold zlen; lia|by apply H].
Qed.

Lemma seg_sorted_range lo xs l : seg l lo xs → in_order comp xs → sorted_range comp l lo (lo + zlen xs).
Proof.
  intros H Hs i j a b ?? Ha Hb.
  apply (proj2 (StronglySorted_lookup comp xs) Hs (Z.to_nat (i - lo)) (Z.to_nat (j - lo))); [lia|..];
    apply (seg_lookup l); done || lia.
Qed.

(** A cut point splits the values of a segment. *)
Lemma seg_cut P lo k xs l :
  seg l lo xs → cut_point P lo k (lo + zlen xs) l →
  ∃ xs1 xs2, xs = xs1 ++ xs2 ∧ k = lo + zlen xs1 ∧
    (∀ x, x ∈ xs1 → P x = true) ∧ (∀ x, x ∈ xs2 → P x = false).
Proof.
  intros H (? & Hl & Hu). destruct (zlen_split xs (k - lo)) as (xs1 & xs2 & -> & E1 & E2); [lia|].
  apply seg_app in H as [H1 H2]. exists xs1, xs2. split_and!; [done|lia|..].
  - intros x (i & ? & Hi)%(seg_elem _ _ _ _ H1). by apply (Hl i); [lia|].
  - intros x (i & ? & Hi)%(seg_elem _ _ _ _ H2). by apply (Hu i); [zlia|].
Qed.

(** The cuts leave something to do on both sides. *)
Definition cuts_spec X Y (first middle : Z) l0 : Z * Z * Z * Z → arr → Prop :=
  λ '(first_cut, second_cut, len11, len22) l, l = l0 ∧ ∃ X1 X2 Y1 Y2,
    X = X1 ++ X2 ∧ Y = Y1 ++ Y2 ∧ cut comp X1 X2 Y1 Y2 ∧
    first_cut = first + zlen X1 ∧ second_cut = middle + zlen Y1 ∧
    len11 = zlen X1 ∧ len22 = zlen Y1 ∧
    0 < zlen X1 + zlen Y1 ∧ 0 < zlen X2 + zlen Y2.

Lemma in_order_pivot xs1 x xs2 z :
  in_order comp (xs1 ++ x :: xs2) → z ∈ xs1 → le comp z x.
Proof. intros [H _]%StronglySorted_app Hz. apply H; [done|by left]. Qed.

Lemma in_order_pivot_right xs1 x xs2 z :
  in_order comp (xs1 ++ x :: xs2) → z ∈ x :: xs2 → le comp x z.
Proof.
  intros H%StronglySorted_app_1_r [->|Hz]%elem_of_cons; [done|].
  apply StronglySorted_cons in H as [H _]. by eapply Forall_forall in H.
Qed.

Lemma merge_cuts_spec first middle last len1 len2 X Y l0 :
  middle = first + zlen X → last = middle + zlen Y → len1 = zlen X → len2 = zlen Y →
  seg l0 first X → seg l0 middle Y → in_order comp X → in_order comp Y →
  1 <= len1 → 1 <= len2 → 3 <= len1 + len2 →
  wpr (merge_cuts comp first middle last len1 len2) (cuts_spec X Y first middle l0) l0.
Proof.
  intros -> -> -> -> HX HY SX SY ???. pose proof (seg_range _ _ _ HX ltac:(lia)).
  pose proof (seg_range _ _ _ HY ltac:(lia)). unfold merge_cuts.
  destruct (Z.ltb_spec (zlen Y) (zlen X)).
  - pose proof (half_bounds (zlen X) ltac:(lia)). set (half := cdiv (zlen X) 2) in *. clearbody half.
    destruct (zlen_split X half) as (X1 & X2 & -> & <- & E2); [lia|].
    destruct (zlen_first X2) as (x & X3 & ->); [lia|].
    pose proof HX as [_ [Hx _]%seg_cons]%seg_app.
    apply wpr_bind, (wpr_load _ _ _ _ Hx), wpr_bind. eapply wpr_mono.
    { apply __lower_bound_spec; [zlia|by apply seg_full|].
      apply (sorted_below comp). by apply seg_sorted_range. }
    intros k l [-> (Y1 & Y2 & -> & -> & HY1 & HY2)%(seg_cut _ _ _ _ _ HY)].
    apply wpr_ret. split; [done|]. exists X1, (x :: X3), Y1, Y2.
    split_and!; [done|done| |done|done|done|lia|zlia|zlia]. split.
    + intros z y Hz Hy. destruct (comp y z) eqn:E; [done|]. rewrite <- (HY1 y Hy). unfold below_val.
      symmetry. by apply (le_transitive comp _ _ _ (in_order_pivot_right _ _ _ _ SX Hz)).
    + intros z y Hz Hy. etrans; [by eapply in_order_pivot|]. by apply (HY2 y Hy).
  - pose proof (half_bounds (zlen Y) ltac:(lia)). set (half := cdiv (zlen Y) 2) in *. clearbody half.
    destruct (zlen_split Y half) as (Y1 & Y2 & -> & <- & E2); [lia|].
    destruct (zlen_first Y2) as (y & Y3 & ->); [lia|].
    pose proof HY as [_ [Hy _]%seg_cons]%seg_app.
    apply wpr_bind, (wpr_load _ _ _ _ Hy), wpr_bind. eapply wpr_mono.
    { apply __upper_bound_spec; [zlia|by apply seg_full|].
      apply (sorted_not_above comp). by apply seg_sorted_range. }
    intros k l [-> (X1 & X2 & -> & -> & HX1 & HX2)%(seg_cut _ _ _ _ _ HX)].
    apply wpr_ret. split; [done|]. exists X1, X2, Y1, (y :: Y3).
    split_and!; [done|done| |done|done|lia|done|zlia|zlia]. split.
    + intros x z Hx Hz. apply (le_comp_trans comp z y); [by eapply in_order_pivot|].
      specialize (HX2 x Hx). by apply negb_false_iff in HX2.
    + intros x z Hx Hz. etrans; [|by eapply in_order_pivot_right].
      specialize (HX1 x Hx). by apply negb_true_iff in HX1.
Qed.

(** ** The recursive merges *)

Lemma merged_halves X1 X2 Y1 Y2 lo l :
  in_order comp (X1 ++ X2) → in_order comp (Y1 ++ Y2) → cut comp X1 X2 Y1 Y2 →
  merged X1 Y1 lo l → merged X2 Y2 (lo + zlen X1 + zlen Y1) l →
  merged (X1 ++ X2) (Y1 ++ Y2) lo l.
Proof.
  intros HX HY Hc (z1 & HS1 & H1) (z2 & HS2 & H2). exists (z1 ++ z2). split; [by apply cut_merge|].
  apply seg_app. split; [done|]. destruct HS1 as [_ E%stable_zlen].
  by replace (lo + zlen z1) with (lo + zlen X1 + zlen Y1) by zlia.
Qed.

Lemma merged_frame (R : Z → Prop) X Y lo l l' :
  changed R l l' → merged X Y lo l → (∀ i, lo <= i < lo + zlen X + zlen Y → ¬ R i) → merged X Y lo l'.
Proof.
  intros C (zs & HS & H) Hd. exists zs. split; [done|]. destruct HS as [_ E%stable_zlen].
  apply (changed_seg _ _ _ _ _ C H). intros i ?. apply Hd. zlia.
Qed.

Lemma in_order_app_inv xs ys : in_order comp (xs ++ ys) → in_order comp xs ∧ in_order comp ys.
Proof. by intros (_ & ? & ?)%StronglySorted_app. Qed.

(** Merging two halves that do not overlap, with the cells [R] to spare. *)
Lemma merge_halves_spec (R : Z → Prop) first X1 X2 Y1 Y2 (m1 m2 : M arr unit) l0 :
  in_order comp (X1 ++ X2) → in_order comp (Y1 ++ Y2) → cut comp X1 X2 Y1 Y2 →
  (∀ i, R i → ¬ (first <= i < first + zlen (X1 ++ X2) + zlen (Y1 ++ Y2))) →
  seg l0 first ((X1 ++ Y1) ++ X2 ++ Y2) →
  (∀ l, zlen l = zlen l0 → seg l first X1 → seg l (first + zlen X1) Y1 →
    wpr m1 (λ _ l', merged X1 Y1 first l' ∧
      changed (λ i, R i ∨ first <= i < first + zlen X1 + zlen Y1) l l') l) →
  (∀ lo l, lo = first + zlen X1 + zlen Y1 → zlen l = zlen l0 → seg l lo X2 → seg l (lo + zlen X2) Y2 →
    wpr m2 (λ _ l', merged X2 Y2 lo l' ∧
      changed (λ i, R i ∨ lo <= i < lo + zlen X2 + zlen Y2) l l') l) →
  wpr (m1;; m2) (λ _ l, merged (X1 ++ X2) (Y1 ++ Y2) first l ∧
    changed (λ i, R i ∨ first <= i < first + zlen (X1 ++ X2) + zlen (Y1 ++ Y2)) l0 l) l0.
Proof.
  intros SX SY Hc HR [ [H1 H2]%seg_app [H3 H4]%seg_app]%seg_app Hm1 Hm2.
  rewrite zlen_app in H3, H4. rewrite Z.add_assoc in H3, H4.
  assert (∀ i, R i → ¬ (first <= i < first + zlen X1 + zlen X2 + zlen Y1 + zlen Y2)) as HR'.
  { intros i Hi. specialize (HR i Hi). zlia. }
  apply wpr_bind. eapply wpr_mono; [by apply Hm1|]. intros [] l1 [M1 C1].
  assert (seg l1 (first + zlen X1 + zlen Y1) X2).
  { apply (changed_seg _ _ _ _ _ C1 H3). intros i ? [Hi|?]; [by apply HR' in Hi; zlia|lia]. }
  assert (seg l1 (first + zlen X1 + zlen Y1 + zlen X2) Y2).
  { apply (changed_seg _ _ _ _ _ C1 H4). intros i ? [Hi|?]; [by apply HR' in Hi; zlia|zlia]. }
  eapply wpr_mono; [apply Hm2; [done|zlia|done|done]|]. intros [] l2 [M2 C2]. split.
  - apply merged_halves; [done|done|done| |done].
    apply (merged_frame _ _ _ _ _ _ C2 M1). intros i ? [Hi|?]; [by apply HR' in Hi; zlia|zlia].
  - apply (changed_trans _ _ l1); eapply changed_mono; [exact C1| |exact C2|];
      (intros i [?|?]; [by left|right; zlia]).
Qed.

Lemma seg_four lo xs1 xs2 ys1 ys2 l :
  seg l lo xs1 → seg l (lo + zlen xs1) (ys1 ++ xs2) → seg l (lo + zlen xs1 + zlen ys1 + zlen xs2) ys2 →
  seg l lo ((xs1 ++ ys1) ++ xs2 ++ ys2).
Proof. rewrite !seg_app, zlen_app, !Z.add_assoc. tauto. Qed.

(** Two objects. *)
Lemma merge_two_spec first x y l0 :
  holds l0 first x → holds l0 (first + 1) y →
  wpr (b ← _Iter_comp_iter comp (first + 1) first;
       if b : bool then iter_swap first (first + 1) else mret tt)
    (λ _ l, merged [x] [y] first l ∧ changed (λ i, first <= i < first + 1 + 1) l0 l) l0.
Proof.
  intros Hx Hy. apply wpr_bind, (wpr_iter_iter _ _ _ _ _ _ _ Hy Hx).
  assert (merging comp [x] [y] [] [x] [y]) as Hm by (apply merging_start; by repeat constructor).
  destruct (comp y x) eqn:E.
  - apply (wpr_exchange _ _ x y); [done|done|lia|]. intros l C H1 H2. split; [|changes].
    apply (merged_intro _ _ [y; x]); [|by rewrite seg_cons, seg_one].
    by apply (merging_end_second comp [x] [y] [y]), (merging_second comp _ _ [] x [] y []).
  - apply wpr_ret. split; [|done]. apply (merged_intro _ _ [x; y]); [|by rewrite seg_cons, seg_one].
    by apply (merging_end_first comp [x] [y] [x]), (merging_first comp _ _ [] x [] y []).
Qed.

Lemma merge_without_buffer_n_spec category is_pod depth first middle last len1 len2 X Y l0 :
  middle = first + zlen X → last = middle + zlen Y → len1 = zlen X → len2 = zlen Y →
  seg l0 first X → seg l0 middle Y → in_order comp X → in_order comp Y →
  len1 + len2 < Z.of_nat depth →
  wpr (merge_without_buffer_n comp category is_pod depth first middle last len1 len2)
    (λ _ l, merged X Y first l ∧ changed (λ i, first <= i < first + zlen X + zlen Y) l0 l) l0.
Proof.
  revert first middle last len1 len2 X Y l0.
  induction depth as [|depth IH]; intros first middle last len1 len2 X Y l0; [zlia|].
  intros -> -> -> -> HX HY SX SY Hd. cbn [merge_without_buffer_n].
  destruct (Z.eqb_spec (zlen X) 0) as [E|]; cbn [orb].
  { assert (X = []) as -> by (apply zlen_zero; lia). apply wpr_ret. split; [|done].
    rewrite zlen_nil, Z.add_0_r in HY. by apply (merged_intro _ _ Y). }
  destruct (Z.eqb_spec (zlen Y) 0).
  { assert (Y = []) as -> by (apply zlen_zero; lia). apply wpr_ret. split; [|done].
    by apply (merged_intro _ _ X); [rewrite app_nil_r|]. }
  destruct (Z.eqb_spec (zlen X + zlen Y) 2).
  { destruct X as [|x [|x2 X]], Y as [|y [|y2 Y]]; try zlia.
    apply seg_one in HX, HY. by apply (merge_two_spec first x y). }
  apply wpr_bind. eapply wpr_mono; [apply (merge_cuts_spec _ _ _ _ _ X Y); zlia || done|].
  intros [ [ [fc sc] len11] len22] l [-> (X1 & X2 & Y1 & Y2 & -> & -> & Hc & -> & -> & -> & -> & ? & ?)].
  pose proof (in_order_app_inv _ _ SX) as [? ?]. pose proof (in_order_app_inv _ _ SY) as [? ?].
  apply seg_app in HX as [HX1 HX2], HY as [HY1 HY2].
  apply wpr_bind. eapply wpr_mono; [apply (std_rotate_spec _ _ _ _ _ X2 Y1); zlia || done|].
  intros r l1 (_ & HS & C1). cbv zeta. eapply wpr_mono.
  { replace (first + zlen X1 + (first + zlen (X1 ++ X2) + zlen Y1 - (first + zlen (X1 ++ X2))))
      with (first + zlen X1 + zlen Y1) by lia.
    apply (merge_halves_spec (λ _, False) first X1 X2 Y1 Y2); [done|done|done|done| | |].
    - apply seg_four; [seg_frame|done|seg_frame].
    - intros l El HS1 HS2. eapply wpr_mono; [apply (IH _ _ _ _ _ X1 Y1); zlia || done|].
      intros [] l' [? C]. split; [done|changes].
    - intros lo l -> El HS1 HS2. eapply wpr_mono; [apply (IH _ _ _ _ _ X2 Y2); zlia || done || seg_place|].
      intros [] l' [? C]. split; [done|changes]. }
  intros [] l2 [? C2]. split; [done|changes].
Qed.

Lemma __merge_without_buffer_spec category is_pod first middle last len1 len2 X Y l0 :
  middle = first + zlen X → last = middle + zlen Y → len1 = zlen X → len2 = zlen Y →
  seg l0 first X → seg l0 middle Y → in_order comp X → in_order comp Y →
  wpr (__merge_without_buffer comp category is_pod first middle last len1 len2)
    (λ _ l, merged X Y first l ∧ changed (λ i, first <= i < first + zlen X + zlen Y) l0 l) l0.
Proof.
  intros -> -> -> -> HX HY SX SY.
  apply (merge_without_buffer_n_spec _ _ _ _ _ _ _ _ X Y); [done..|].
  pose proof (seg_range _ _ _ HX). pose proof (seg_range _ _ _ HY).
  apply seg_within in HX, HY. unfold zlen in *. lia.
Qed.

Lemma merge_adaptive_n_spec category is_pod depth first middle last len1 len2 buffer bs X Y l0 :
  middle = first + zlen X → last = middle + zlen Y → len1 = zlen X → len2 = zlen Y →
  seg l0 first X → seg l0 middle Y → in_order comp X → in_order comp Y →
  0 <= first → last <= zlen l0 → 1 <= bs →
  buffer_ok buffer bs first (zlen X + zlen Y) l0 → len1 + len2 < Z.of_nat depth →
  wpr (merge_adaptive_n comp category is_pod depth first middle last len1 len2 buffer bs)
    (λ _ l, merged X Y first l ∧
      changed (λ i, buffer <= i < buffer + bs ∨ first <= i < first + zlen X + zlen Y) l0 l) l0.
Proof.
  revert first middle last len1 len2 X Y l0.
  induction depth as [|depth IH]; intros first middle last len1 len2 X Y l0; [zlia|].
  intros -> -> -> -> HX HY SX SY ??? Hb Hd. cbn [merge_adaptive_n].
  pose proof Hb as (? & ? & ? & Ha). unfold apart in Ha.
  destruct ((zlen X <=? zlen Y) && (zlen X <=? bs)) eqn:E.
  { apply wpr_bind. eapply wpr_mono; [apply (move3_spec _ _ _ X); zlia || done|].
    intros r l1 (-> & HX1 & C1). eapply wpr_mono.
    { apply (__move_merge_adaptive_spec _ _ _ _ _ X Y); try (zlia || done); [seg_frame|].
      unfold apart. lia. }
    intros [] l2 [? C2]. split; [done|changes]. }
  destruct (Z.leb_spec (zlen Y) bs).
  { apply wpr_bind. eapply wpr_mono; [apply (move3_spec _ _ _ Y); zlia || done|].
    intros r l1 (-> & HY1 & C1). eapply wpr_mono.
    { apply (__move_merge_adaptive_backward_spec _ _ _ _ _ X Y); try (zlia || done); [seg_frame|].
      unfold apart. lia. }
    intros [] l2 [? C2]. split; [done|changes]. }
  apply wpr_bind. eapply wpr_mono; [apply (merge_cuts_spec _ _ _ _ _ X Y); zlia || done|].
  intros [ [ [fc sc] len11] len22] l [-> (X1 & X2 & Y1 & Y2 & -> & -> & Hc & -> & -> & -> & -> & ? & ?)].
  pose proof (in_order_app_inv _ _ SX) as [? ?]. pose proof (in_order_app_inv _ _ SY) as [? ?].
  apply seg_app in HX as [HX1 HX2], HY as [HY1 HY2].
  apply wpr_bind. eapply wpr_mono.
  { apply (__rotate_adaptive_spec _ _ _ X2 Y1); try (zlia || done).
    - seg_place.
    - apply (buffer_ok_sub _ _ _ _ _ _ _ _ Hb); zlia. }
  intros r l1 (-> & HS & C1). eapply wpr_mono.
  { apply (merge_halves_spec (λ i, buffer <= i < buffer + bs) first X1 X2 Y1 Y2); [done|done|done|intros; lia| | |].
    - apply seg_four; [seg_frame|done|seg_frame].
    - intros l El HS1 HS2. apply (IH _ _ _ _ _ X1 Y1); try (zlia || done).
      apply (buffer_ok_sub _ _ _ _ _ _ _ _ Hb); zlia.
    - intros lo l -> El HS1 HS2. apply (IH _ _ _ _ _ X2 Y2); try (zlia || done || seg_place).
      apply (buffer_ok_sub _ _ _ _ _ _ _ _ Hb); zlia. }
  intros [] l2 [? C2]. split; [done|changes].
Qed.

Lemma __merge_adaptive_spec category is_pod first middle last len1 len2 buffer bs X Y l0 :
  middle = first + zlen X → last = middle + zlen Y → len1 = zlen X → len2 = zlen Y →
  seg l0 first X → seg l0 middle Y → in_order comp X → in_order comp Y →
  0 <= first → last <= zlen l0 → 1 <= bs → buffer_ok buffer bs first (zlen X + zlen Y) l0 →
  wpr (__merge_adaptive comp category is_pod first middle last len1 len2 buffer bs)
    (λ _ l, merged X Y first l ∧
      changed (λ i, buffer <= i < buffer + bs ∨ first <= i < first + zlen X + zlen Y) l0 l) l0.
Proof.
  intros -> -> -> -> **. apply (merge_adaptive_n_spec _ _ _ _ _ _ _ _ _ _ X Y); [done..|].
  unfold zlen in *. lia.
Qed.
End Theory.
