(* ===== verification/StlTempbuf.v ===== *)
(** * Temporary buffers, [bits/stl_tempbuf.h]

    [get_temporary_buffer] tries to get storage for as many objects as it is asked
    for, then for half of them, and so on; [_Temporary_buffer] makes objects in it by
    moving one object of the range through them.

    [operator new] is not part of the library; what it refuses is a parameter.
    What it grants are new cells at the end of the array, which
    [operator delete] takes away again. A cell of storage without an object is
    [None], as one whose object has been moved from. The theorems: the buffer has
    at least one cell, and nothing else changes but for the cells it has. *)
From stdpp Require Import base numbers list sorting.
From Stdlib Require Import ZArith Lia.
From S2P Require Import Prelude StlArray StlSeg StlRotate.

(** What the library does not decide: the requests, in bytes, that
    [operator new] refuses, and the type of the objects: their size, whether they are plain
    old data, and whether their constructor is trivial. *)
Class Memory := {
  new_refuses : Z → bool;
  size_of : Z;
  is_pod : bool;
  has_trivial_constructor : bool;
}.

Section Buffer.
Context {A : Type} `{Memory}.
Local Abbreviation arr := (list (option A)).

(** [::operator new(n * sizeof(_Tp), std::nothrow)] for [n] objects. *)
Definition operator_new (n : Z) : M arr (option Z) := λ l,
  if new_refuses (u32 (n * size_of)) then Some (None, l)
  else Some (Some (zlen l), l ++ replicate (Z.to_nat n) None).

Definition operator_delete (p : Z) : M arr unit := λ l, Some (tt, take (Z.to_nat p) l).

Definition ptrdiff_max : Z := 2147483647.

Definition get_temporary_buffer (len : Z) : M arr (option Z * Z) :=
  let max := ptrdiff_max / size_of in
  let len := if max <? len then max else len in
  while (λ len,
    if 0 <? len then
      tmp ← operator_new len;
      match tmp with
      | Some p => mret (inr (Some p, len))
      | None => mret (inl (cdiv len 2))
      end
    else mret (inr (None, 0))) len.

Definition return_temporary_buffer (p : option Z) : M arr unit :=
  match p with
  | Some p => operator_delete p
  | None => mret tt
  end.

(** [__ucr]: the objects of the buffer are made by moving [*seed] through them. *)
Definition __uninitialized_construct_buf (first last seed : Z) : M arr unit :=
  if has_trivial_constructor then mret tt
  else if first =? last then mret tt
  else
    v ← move_from seed;
    assign first v;;
    prev ← while (λ '(cur, prev),
      if cur =? last then mret (inr prev)
      else
        v ← move_from prev;
        assign cur v;;
        mret (inl (cur + 1, prev + 1))) (first + 1, first);
    v ← move_from prev;
    assign seed v.

Record Temporary_buffer := {
  _M_original_len : Z;
  _M_len : Z;
  _M_buffer : option Z;
}.

Definition new_Temporary_buffer (first last : Z) : M arr Temporary_buffer :=
  let original_len := last - first in
  p ← get_temporary_buffer original_len;
  match p.1 with
  | Some b =>
      __uninitialized_construct_buf b (b + p.2) first;;
      mret {| _M_original_len := original_len; _M_len := p.2; _M_buffer := Some b |}
  | None => mret {| _M_original_len := original_len; _M_len := p.2; _M_buffer := None |}
  end.

Definition delete_Temporary_buffer (this : Temporary_buffer) : M arr unit :=
  return_temporary_buffer (_M_buffer this).
End Buffer.

(** * Buffers *)

Section BufferTheory.
Context {A : Type} `{Memory}.
Local Abbreviation arr := (list (option A)).
Implicit Types l : arr.

(** [l] is [l0] with [n] cells more. *)
Definition extends l0 (n : Z) l : Prop :=
  zlen l = zlen l0 + n ∧ ∀ i, i < zlen l0 → nthZ l i = nthZ l0 i.

Lemma nthZ_app_left l l' i : i < zlen l → nthZ (l ++ l') i = nthZ l i.
Proof.
  unfold nthZ, zlen. intros. destruct (Z.ltb_spec i 0); [done|]. apply lookup_app_l. lia.
Qed.

Lemma extends_new l n : 0 <= n → extends l n (l ++ replicate (Z.to_nat n) None).
Proof.
  intros. split; [unfold zlen; rewrite length_app, length_replicate; lia|].
  intros i ?. by apply nthZ_app_left.
Qed.

Lemma extends_changed l0 n l l' :
  extends l0 n l → changed (λ i, zlen l0 <= i < zlen l0 + n) l l' → extends l0 n l'.
Proof.
  intros [El E] [El' E']. split; [lia|]. intros i ?. rewrite E' by lia. by apply E.
Qed.

Lemma extends_seg l0 n l lo xs : extends l0 n l → seg l0 lo xs → seg l lo xs.
Proof.
  intros [_ E] Hs. apply (seg_agree l0); [done|]. intros i ?. apply E.
  destruct (seg_holds _ _ _ _ Hs ltac:(done)) as (a & _ & ?%holds_range). lia.
Qed.

Lemma nthZ_take l n i : i < n → nthZ (take (Z.to_nat n) l) i = nthZ l i.
Proof.
  unfold nthZ. intros. destruct (Z.ltb_spec i 0); [done|]. apply lookup_take_lt. lia.
Qed.

Lemma nthZ_ge {B} (l : list B) i : zlen l <= i → nthZ l i = None.
Proof. intros. destruct (nthZ l i) eqn:E; [|done]. apply nthZ_Some in E. lia. Qed.

(** Work in a buffer leaves no traces when the buffer is gone. *)
Lemma changed_truncate (R : Z → Prop) l0 n l l' :
  0 <= n → extends l0 n l → changed (λ i, zlen l0 <= i < zlen l0 + n ∨ R i) l l' →
  changed R l0 (take (Z.to_nat (zlen l0)) l').
Proof.
  intros ? [El E] [El' E'].
  assert (zlen (take (Z.to_nat (zlen l0)) l') = zlen l0) as Et.
  { unfold zlen in *. rewrite length_take. lia. }
  split; [done|]. intros i Hi. destruct (decide (i < zlen l0)); [|by rewrite !nthZ_ge by lia].
  rewrite nthZ_take by done. rewrite E'; [by apply E|]. intros [?|?]; [lia|done].
Qed.

Lemma seg_truncate l n lo xs : seg l lo xs → lo + zlen xs <= n → seg (take (Z.to_nat n) l) lo xs.
Proof. intros Hs ?. apply (seg_agree l); [done|]. intros i ?. apply nthZ_take. lia. Qed.

Definition got_buffer l0 (len : Z) (p : option Z * Z) l : Prop :=
  (p = (None, 0) ∧ l = l0) ∨
  ∃ n, 1 <= n <= len ∧ p = (Some (zlen l0), n) ∧ extends l0 n l.

Lemma get_temporary_buffer_spec len l0 :
  0 <= len <= zlen l0 → 1 <= size_of → wpr (get_temporary_buffer len) (got_buffer l0 len) l0.
Proof.
  intros ??. unfold get_temporary_buffer. set (max := ptrdiff_max / size_of).
  assert (0 <= max) by (apply Z.div_pos; [done|lia]).
  apply (wpr_while (λ n l, l = l0 ∧ 0 <= n <= len) id).
  - intros n l [-> ?]. split; [unfold id; lia|]. destruct (Z.ltb_spec 0 n).
    + apply wpr_bind. unfold operator_new, wpr at 1.
      destruct (new_refuses _); apply wpr_ret.
      * split; [|unfold id]; rewrite !cdiv_div by lia; [split; [done|divlia]|divlia].
      * right. exists n. split_and!; [lia|lia|done|]. apply extends_new. lia.
    + apply wpr_ret. by left.
  - split; [done|]. case_match; lia.
  - unfold id. case_match; lia.
Qed.

Lemma changed_restore (R : Z → Prop) l l' i a :
  changed (λ k, R k ∨ k = i) l l' → holds l i a → holds l' i a → changed R l l'.
Proof.
  intros [El E] H1 H2. split; [done|]. intros k Hk. destruct (decide (k = i)) as [->|].
  - unfold holds in *. congruence.
  - apply E. tauto.
Qed.

Lemma __uninitialized_construct_buf_spec first last seed x l0 :
  first <= last → 0 <= first → last <= zlen l0 → seed < first → holds l0 seed x →
  wpr (__uninitialized_construct_buf first last seed)
    (λ _ l, changed (λ i, first <= i < last) l0 l) l0.
Proof.
  intros ???? Hx. pose proof (holds_range _ _ _ Hx). unfold __uninitialized_construct_buf.
  case_match; [by apply wpr_ret|]. destruct (Z.eqb_spec first last); [by apply wpr_ret|].
  apply (wpr_transfer _ _ _ x); [done|lia|lia|]. intros l1 C1 Hf. apply wpr_bind.
  apply (wpr_while (λ '(cur, prev) l, first <= prev < last ∧ cur = prev + 1 ∧ holds l prev x ∧
    changed (λ k, first <= k < last ∨ k = seed) l0 l) (λ '(cur, _), last - cur)).
  - clear Hf C1 l1. intros [cur prev] l (? & -> & Hp & C). split; [lia|].
    destruct (Z.eqb_spec (prev + 1) last).
    + apply wpr_ret. pose proof (changed_zlen _ _ _ C).
      apply wpr_bind, (wpr_move_from _ _ _ _ Hp), wpr_assign; [rewrite zlen_updZ; lia|].
      apply (changed_restore _ _ _ seed x); [|done|apply holds_updZ_eq; rewrite zlen_updZ; lia].
      apply (changed_trans _ _ l); [done|]. apply (changed_trans _ _ (updZ l prev None));
        apply changed_updZ; lia.
    + pose proof (changed_zlen _ _ _ C). apply (wpr_transfer _ _ _ x); [done|lia|lia|].
      intros l' C' Hp'. apply wpr_ret. split; [|lia]. split_and!; [lia|lia|done|done|changes].
  - split_and!; [lia|lia|done|done|changes].
  - pose proof (changed_zlen _ _ _ C1). lia.
Qed.

(** What the constructor of a buffer for the range that [xs] is in leaves. *)
Lemma new_Temporary_buffer_spec first last (xs : list A) l0 :
  last = first + zlen xs → seg l0 first xs → 1 <= size_of →
  wpr (new_Temporary_buffer first last) (λ buf l, _M_original_len buf = zlen xs ∧
    (_M_buffer buf = None ∧ _M_len buf = 0 ∧ l = l0 ∨
     _M_buffer buf = Some (zlen l0) ∧ 1 <= _M_len buf <= zlen xs ∧ extends l0 (_M_len buf) l)) l0.
Proof.
  intros -> Hs ?. apply wpr_bind. replace (first + zlen xs - first) with (zlen xs) by lia.
  eapply wpr_mono; [apply get_temporary_buffer_spec; [|done]|].
  { apply seg_within in Hs. zlia. }
  intros p l [ [-> ->]|(n & ? & -> & He)]; cbn [fst snd].
  - apply wpr_ret. split; [done|]. by left.
  - apply wpr_bind. destruct (zlen_first xs) as (x & xs' & ->); [lia|].
    pose proof (extends_seg _ _ _ _ _ He Hs) as [Hx _]%seg_cons. pose proof Hs as [Hx0%holds_range _]%seg_cons.
    eapply wpr_mono; [apply (__uninitialized_construct_buf_spec _ _ _ x); destruct He; zlia || done|].
    intros [] l' C. apply wpr_ret. split; [done|]. right. cbn [_M_buffer _M_len]. split_and!; [done|lia|lia|].
    by eapply extends_changed.
Qed.
End BufferTheory.
