(* ===== verification/StlStable.v ===== *)
(** * Stable sorting, [bits/stl_algo.h]

    [std::stable_sort] and [std::inplace_merge]: they ask for a temporary buffer
    ([StlTempbuf]), merge runs to and fro between the range and the buffer when
    it is long enough, halve the range when it is not, and work in place when
    there is none.

    The theorems: whatever memory they get, the functions end, and the range is
    sorted stably. *)
From stdpp Require Import base numbers list sorting.
From Stdlib Require Import ZArith Lia.
From S2P Require Import Prelude StlArray StlHeap StlSort StlSearch StlSeg StlRotate StlOrder StlMerge StlTempbuf.

(** * Sorting and merging *)

Section Code.
Context {A : Type} `{Memory}.
Local Abbreviation arr := (list (option A)).
Variable comp : A → A → bool.

Definition __merge_sort_loop (first last result step_size : Z) : M arr unit :=
  let two_step := 2 * step_size in
  r ← while (λ '(first, result),
    if two_step <=? last - first then
      result ← __move_merge comp first (first + step_size) (first + step_size) (first + two_step)
                            result;
      mret (inl (first + two_step, result))
    else mret (inr (first, result))) (first, result);
  let '(first, result) := r in
  let step_size := Z.min (last - first) step_size in
  __move_merge comp first (first + step_size) (first + step_size) last result;;
  mret tt.

Definition __chunk_insertion_sort (first last chunk_size : Z) : M arr unit :=
  first ← while (λ first,
    if chunk_size <=? last - first then
      __insertion_sort comp first (first + chunk_size);;
      mret (inl (first + chunk_size))
    else mret (inr first)) first;
  __insertion_sort comp first last.

Definition _S_chunk_size : Z := 7.

Definition __merge_sort_with_buffer (first last buffer : Z) : M arr unit :=
  let len := last - first in
  let buffer_last := buffer + len in
  __chunk_insertion_sort first last _S_chunk_size;;
  while (λ step_size,
    if step_size <? len then
      __merge_sort_loop first last buffer step_size;;
      let step_size := step_size * 2 in
      __merge_sort_loop buffer buffer_last first step_size;;
      mret (inl (step_size * 2))
    else mret (inr tt)) _S_chunk_size.

Fixpoint stable_sort_adaptive_n (depth : nat) (first last buffer buffer_size : Z) : M arr unit :=
  match depth with
  | O => ub
  | S depth =>
      let len := cdiv (last - first + 1) 2 in
      let middle := first + len in
      (if buffer_size <? len then
         stable_sort_adaptive_n depth first middle buffer buffer_size;;
         stable_sort_adaptive_n depth middle last buffer buffer_size
       else
         __merge_sort_with_buffer first middle buffer;;
         __merge_sort_with_buffer middle last buffer);;
      __merge_adaptive comp random_access_iterator_tag is_pod first middle last (middle - first) (last - middle)
                       buffer buffer_size
  end.

Definition __stable_sort_adaptive (first last buffer buffer_size : Z) : M arr unit :=
  λ l, stable_sort_adaptive_n (S (length l)) first last buffer buffer_size l.

Fixpoint inplace_stable_sort_n (depth : nat) (first last : Z) : M arr unit :=
  match depth with
  | O => ub
  | S depth =>
      if last - first <? 15 then __insertion_sort comp first last
      else
        let middle := first + cdiv (last - first) 2 in
        inplace_stable_sort_n depth first middle;;
        inplace_stable_sort_n depth middle last;;
        __merge_without_buffer comp random_access_iterator_tag is_pod first middle last (middle - first) (last - middle)
  end.

Definition __inplace_stable_sort (first last : Z) : M arr unit :=
  λ l, inplace_stable_sort_n (S (length l)) first last l.

Definition stable_sort (first last : Z) : M arr unit :=
  buf ← new_Temporary_buffer first last;
  match _M_buffer buf with
  | None => __inplace_stable_sort first last
  | Some b => __stable_sort_adaptive first last b (_M_len buf)
  end;;
  delete_Temporary_buffer buf.

Definition inplace_merge (category : iterator_category) (first middle last : Z) : M arr unit :=
  if (first =? middle) || (middle =? last) then mret tt
  else
    let len1 := middle - first in
    let len2 := last - middle in
    buf ← new_Temporary_buffer first last;
    match _M_buffer buf with
    | None => __merge_without_buffer comp category is_pod first middle last len1 len2
    | Some b => __merge_adaptive comp category is_pod first middle last len1 len2 b (_M_len buf)
    end;;
    delete_Temporary_buffer buf.
End Code.

(** * Insertion sort is stable *)

Section Insertion.
Context {A : Type} (comp : A → A → bool) `{!StrictWeakOrder comp}.
Local Abbreviation arr := (list (option A)).
Local Notation "a ⊑ b" := (le comp a b) (at level 70).
Implicit Types l : arr.
Implicit Types xs ys zs : list A.

(** A value inserted after those it is not before. *)
Lemma insert_stably xs a b x :
  stably_sorted comp xs (a ++ b) → (∀ z, z ∈ a → z ⊑ x) → (∀ z, z ∈ b → comp x z = true) →
  stably_sorted comp (xs ++ [x]) (a ++ x :: b).
Proof.
  intros [Hs HS] Ha Hb. apply StronglySorted_app in Hs as (Hab & Hsa & Hsb). split.
  - apply StronglySorted_app. split_and!; [|done|].
    + intros y z Hy [->|Hz]%elem_of_cons; [by apply Ha|by apply Hab].
    + apply StronglySorted_cons. split; [|done]. apply Forall_forall. intros z Hz.
      by apply comp_le, Hb.
  - eapply stable_trans; [by apply stable_app, stable_refl|].
    rewrite <- app_assoc. apply stable_app; [done|]. apply (stable_swap comp b [x]).
    intros z y Hz ->%list_elem_of_singleton. by apply Hb.
Qed.

(** The loop of [__unguarded_linear_insert]: the values [b] are after [x] and have
    moved up; the cell [first + zlen a] is free. *)
Lemma linear_insert_spec first i xs h zs x l0 :
  stably_sorted comp xs (h :: zs) → seg l0 first (h :: zs) → i = first + zlen (h :: zs) →
  holds l0 i x → h ⊑ x → 0 <= first →
  wpr (__unguarded_linear_insert comp i) (λ _ l, ∃ ys, stably_sorted comp (xs ++ [x]) ys ∧
    seg l first ys ∧ changed (λ k, first <= k <= i) l0 l) l0.
Proof.
  intros HS Hs Ei Hx Hh ?. pose proof (holds_range _ _ _ Hx).
  apply wpr_bind, (wpr_move_from _ _ _ _ Hx), wpr_bind.
  apply (wpr_while (λ '(last, next) l, ∃ a b, h :: zs = a ++ b ∧ a ≠ [] ∧ last = first + zlen a ∧
    next = last - 1 ∧ (∀ z, z ∈ b → comp x z = true) ∧ seg l first a ∧ seg l (last + 1) b ∧
    changed (λ k, first <= k <= i) l0 l) (λ '(last, _), last - first)).
  - intros [la ne] l (a & b & E & Ha & -> & -> & Hb & H1 & H2 & C). split; [zlia|].
    assert (i = first + zlen a + zlen b) as Ei' by (rewrite Ei, E; zlia).
    destruct (zlen_last a) as (a' & z & ->); [by apply zlen_pos|].
    pose proof H1 as [H1' Hz]%seg_app. apply seg_one in Hz.
    replace (first + zlen (a' ++ [z]) - 1) with (first + zlen a') by zlia.
    apply wpr_bind, (wpr_val_iter _ _ _ _ _ _ Hz). destruct (comp x z) eqn:Ez.
    + apply (wpr_transfer _ _ _ z); [done|zlia|zlia|]. intros l' C' Hz'. apply wpr_ret.
      split; [|zlia]. exists a', (z :: b).
      split_and!; [by rewrite E, <- app_assoc| |done|done| |seg_frame| |changes].
      * intros ->. injection E as -> _. unfold le in Hh. congruence.
      * intros y [->|Hy]%elem_of_cons; [done|by apply Hb].
      * apply seg_cons. replace (first + zlen a' + 1) with (first + zlen (a' ++ [z])) by zlia.
        split; [done|seg_frame].
    + apply wpr_ret, wpr_assign; [zlia|].
      assert (changed (λ k, k = first + zlen (a' ++ [z])) l
        (updZ l (first + zlen (a' ++ [z])) (Some x))) as C' by (apply changed_updZ; zlia).
      exists ((a' ++ [z]) ++ x :: b). rewrite E in HS.
      split_and!; [|rewrite (seg_app _ _ (a' ++ [z])), (seg_cons _ _ x); split_and!; [seg_frame| |seg_frame]|changes].
      * apply insert_stably; [done| |done]. intros y Hy. destruct HS as [HS _].
        etrans; [|exact Ez]. apply StronglySorted_app_1_l in HS. by eapply in_order_last.
      * apply holds_updZ_eq. zlia.
  - exists (h :: zs), []. assert (changed (λ k, k = i) l0 (updZ l0 i None)) as C by (apply changed_updZ; zlia).
    split_and!; [by rewrite app_nil_r|done|done|done|by intros ? ?%elem_of_nil|seg_frame|done|changes].
  - apply seg_within in Hs. rewrite zlen_updZ. zlia.
Qed.

(** A value before all others moves to the front. *)
Lemma front_insert_spec first i xs h zs x (Q : unit → arr → Prop) l0 :
  stably_sorted comp xs (h :: zs) → seg l0 first (h :: zs) → i = first + zlen (h :: zs) →
  holds l0 i x → comp x h = true → 0 <= first →
  (∀ l ys, stably_sorted comp (xs ++ [x]) ys → seg l first ys →
    changed (λ k, first <= k <= i) l0 l → Q tt l) →
  wpr (val ← move_from i; move_backward first i (i + 1);; assign first val) Q l0.
Proof.
  intros HS Hs Ei Hx Hh ? HQ. pose proof (holds_range _ _ _ Hx).
  apply wpr_bind, (wpr_move_from _ _ _ _ Hx), wpr_bind.
  assert (changed (λ k, k = i) l0 (updZ l0 i None)) as C0 by (apply changed_updZ; zlia).
  eapply wpr_mono.
  { apply (move_backward_seg _ _ _ (h :: zs)); [done|seg_frame|zlia|zlia|zlia]. }
  intros r l1 (_ & H1 & C1). apply wpr_assign; [zlia|].
  apply (HQ _ (x :: h :: zs)).
  - apply (insert_stably xs [] (h :: zs) x HS); [by intros ? ?%elem_of_nil|].
    intros z Hz. destruct HS as [HS _]. destruct (comp x z) eqn:E; [done|].
    assert (h ⊑ x) as H'; [|unfold le in H'; congruence].
    etrans; [|exact E]. apply elem_of_cons in Hz as [->|Hz]; [done|].
    apply StronglySorted_cons in HS as [HS _]. by eapply Forall_forall in HS.
  - apply seg_cons. split; [apply holds_updZ_eq; zlia|].
    apply seg_updZ; [seg_place|done|zlia].
  - apply (changed_trans _ _ l1); [changes|]. apply changed_updZ; zlia.
Qed.

(** The range holds its values sorted stably, and the rest but for [R] is as it was. *)
Definition sorted_stably (R : Z → Prop) first xs l0 l : Prop :=
  ∃ ys, stably_sorted comp xs ys ∧ seg l first ys ∧
  changed (λ i, R i ∨ first <= i < first + zlen xs) l0 l.

Lemma stably_sorted_one x : stably_sorted comp [x] [x].
Proof. split; [by repeat constructor|done]. Qed.

(** One step of the sort, whichever way the value goes. *)
Lemma insert_step_spec first xs h zs x l :
  stably_sorted comp xs (h :: zs) → seg l first (h :: zs) → zlen xs = zlen (h :: zs) →
  holds l (first + zlen xs) x → 0 <= first →
  wpr (if comp x h then val ← move_from (first + zlen xs);
         move_backward first (first + zlen xs) (first + zlen xs + 1);; assign first val
       else __unguarded_linear_insert comp (first + zlen xs))
    (λ _ l', ∃ ys, stably_sorted comp (xs ++ [x]) ys ∧
      seg l' first ys ∧ changed (λ k, first <= k <= first + zlen xs) l l') l.
Proof.
  intros HS Hs El Hx ?. destruct (comp x h) eqn:E.
  - apply (front_insert_spec _ _ xs h zs x); [done|done|zlia|done|done|lia|].
    intros l' ys' ???. by exists ys'.
  - apply (linear_insert_spec _ _ xs h zs); [done|done|zlia|done|done|lia].
Qed.

Lemma insertion_sort_stable_spec R first last xs l0 :
  last = first + zlen xs → seg l0 first xs →
  wpr (__insertion_sort comp first last) (λ _ l, sorted_stably R first xs l0 l) l0.
Proof.
  intros -> Hs. unfold __insertion_sort. destruct (Z.eqb_spec first (first + zlen xs)).
  { assert (xs = []) as -> by (apply zlen_zero; lia). apply wpr_ret. exists [].
    split_and!; [split; [constructor|done]|done|done]. }
  pose proof (seg_range _ _ _ Hs ltac:(zlia)).
  apply (wpr_while (λ i l, ∃ xs1 xs2 ys, xs = xs1 ++ xs2 ∧ xs1 ≠ [] ∧ i = first + zlen xs1 ∧
    stably_sorted comp xs1 ys ∧ seg l first ys ∧ seg l i xs2 ∧
    changed (λ i, R i ∨ first <= i < first + zlen xs) l0 l) (λ i, first + zlen xs - i)).
  - intros i l (xs1 & xs2 & ys & -> & Hne & -> & HS & H1 & H2 & C). split; [zlia|].
    pose proof (stable_zlen comp _ _ (proj2 HS)) as El.
    destruct (Z.eqb_spec (first + zlen xs1) (first + zlen (xs1 ++ xs2))).
    { assert (xs2 = []) as -> by (apply zlen_zero; zlia). rewrite app_nil_r in C |- *.
      apply wpr_ret. by exists ys. }
    destruct (zlen_first xs2) as (x & xs3 & ->); [zlia|]. apply zlen_pos in Hne as ?.
    destruct (zlen_first ys) as (h & zs & ->); [zlia|].
    apply seg_cons in H2 as [Hx H2]. pose proof H1 as [Hh _]%seg_cons.
    apply wpr_bind, (wpr_iter_iter _ _ _ _ _ _ _ Hx Hh), wpr_bind.
    eapply wpr_mono; [apply (insert_step_spec first xs1 h zs x); done || lia|].
    intros [] l' (ys' & HS' & H1' & C'). apply wpr_ret. split; [|lia].
    exists (xs1 ++ [x]), xs3, ys'.
    split_and!; [by rewrite <- app_assoc|by destruct xs1|zlia|done|done|seg_frame|].
    apply (changed_trans _ _ l); [done|]. apply (changed_mono _ _ _ _ C'). intros. right. zlia.
  - destruct (zlen_first xs) as (x & xs2 & ->); [zlia|]. pose proof Hs as [Hx H2]%seg_cons.
    exists [x], xs2, [x]. split_and!; [done|done|done|apply stably_sorted_one|by apply seg_one|done|done].
  - zlia.
Qed.
End Insertion.

(** * Sorted runs *)

Section Runs.
Context {A : Type} (comp : A → A → bool) `{!StrictWeakOrder comp}.
Implicit Types xs ys zs : list A.

(** [ys] is [xs] with runs of [n] values, the last of them maybe shorter, sorted
    stably. *)
Inductive runs (n : Z) : list A → list A → Prop :=
  | runs_last xs ys : zlen xs <= n → stably_sorted comp xs ys → runs n xs ys
  | runs_cons xs ys xs' ys' :
      zlen xs = n → stably_sorted comp xs ys → runs n xs' ys' → runs n (xs ++ xs') (ys ++ ys').

Lemma stably_sorted_zlen xs ys : stably_sorted comp xs ys → zlen ys = zlen xs.
Proof. intros [_ ?]. by eapply stable_zlen. Qed.

Lemma stably_sorted_nil : stably_sorted comp [] [].
Proof. split; [constructor|done]. Qed.

Lemma runs_zlen n xs ys : runs n xs ys → zlen ys = zlen xs.
Proof.
  induction 1 as [xs ys _ ?%stably_sorted_zlen|xs ys xs' ys' _ ?%stably_sorted_zlen _ IH]; [done|zlia].
Qed.

(** All in one run. *)
Lemma runs_one n xs ys : 0 < n → runs n xs ys → zlen xs <= n → stably_sorted comp xs ys.
Proof.
  intros Hn [|xs1 ys1 xs' ys' E HS Hr] Hl; [done|]. pose proof (runs_zlen _ _ _ Hr).
  rewrite (zlen_zero xs'), (zlen_zero ys'), !app_nil_r by zlia. done.
Qed.

(** The first run. *)
Lemma runs_head n xs ys :
  0 < n → runs n xs ys → ∃ a b a' b', xs = a ++ b ∧ ys = a' ++ b' ∧ zlen a = Z.min (zlen xs) n ∧
  stably_sorted comp a a' ∧ runs n b b'.
Proof.
  intros Hn [xs1 ys1 Hl HS|xs1 ys1 xs' ys' E HS Hr].
  - exists xs1, [], ys1, []. rewrite !app_nil_r.
    split_and!; [done|done|lia|done|]. apply runs_last; [zlia|apply stably_sorted_nil].
  - exists xs1, xs', ys1, ys'. split_and!; [done|done|zlia|done|done].
Qed.

(** The first two runs, and what is left when there are no more. *)
Lemma runs_two n xs ys :
  0 < n → runs n xs ys → ∃ a b c a' b' c', xs = a ++ b ++ c ∧ ys = a' ++ b' ++ c' ∧
  zlen a = Z.min (zlen xs) n ∧ zlen b = Z.min (zlen xs - zlen a) n ∧
  stably_sorted comp a a' ∧ stably_sorted comp b b' ∧ runs n c c'.
Proof.
  intros Hn Hr. destruct (runs_head n xs ys Hn Hr) as (a & r & a' & r' & -> & -> & Ea & HSa & Hr').
  destruct (runs_head n r r' Hn Hr') as (b & c & b' & c' & -> & -> & Eb & HSb & Hc).
  exists a, b, c, a', b', c'. split_and!; [done|done|done|zlia|done|done|done].
Qed.

(** Two runs that are merged are a run of twice the length. *)
Lemma stably_sorted_merge a a' b b' zs :
  stably_sorted comp a a' → stably_sorted comp b b' → stably_sorted comp (a' ++ b') zs →
  stably_sorted comp (a ++ b) zs.
Proof. intros [_ ?] [_ ?]. by apply stably_sorted_app. Qed.
End Runs.

Section Sorts.
Context {A : Type} (comp : A → A → bool) `{!StrictWeakOrder comp}.
Local Abbreviation arr := (list (option A)).
Implicit Types l : arr.
Implicit Types xs ys zs : list A.

Lemma __chunk_insertion_sort_spec first last size xs l0 :
  0 < size → last = first + zlen xs → seg l0 first xs →
  wpr (__chunk_insertion_sort comp first last size) (λ _ l, ∃ ys, runs comp size xs ys ∧
    seg l first ys ∧ changed (λ i, first <= i < first + zlen xs) l0 l) l0.
Proof.
  intros Hn -> Hs. apply wpr_bind.
  apply (wpr_while (λ f l, ∃ xs1 xs2 ys, xs = xs1 ++ xs2 ∧ f = first + zlen xs1 ∧ zlen ys = zlen xs1 ∧
    (∀ zs, runs comp size xs2 zs → runs comp size xs (ys ++ zs)) ∧ seg l first ys ∧ seg l f xs2 ∧
    changed (λ i, first <= i < first + zlen xs) l0 l) (λ f, first + zlen xs - f)).
  - intros f l (xs1 & xs2 & ys & -> & -> & El & Hr & H1 & H2 & C). split; [zlia|].
    destruct (Z.leb_spec size (first + zlen (xs1 ++ xs2) - (first + zlen xs1))).
    + destruct (zlen_split xs2 size) as (a & b & -> & Ea & Eb); [zlia|].
      apply seg_app in H2 as [H2 H3]. apply wpr_bind. eapply wpr_mono.
      { apply (insertion_sort_stable_spec comp (λ _, False) _ _ a); [lia|done]. }
      intros [] l' (za & HS & H2' & C'). pose proof (stably_sorted_zlen _ _ _ HS).
      apply wpr_ret. split; [|lia]. exists (xs1 ++ a), b, (ys ++ za).
      split_and!; [by rewrite app_assoc|zlia|zlia| | |seg_frame|changes].
      * intros zs Hz. rewrite <- (app_assoc ys). by apply Hr, runs_cons.
      * apply seg_app. split; [seg_frame|seg_place].
    + apply wpr_ret. eapply wpr_mono; [by apply (insertion_sort_stable_spec comp (λ _, False) _ _ xs2); [zlia|]|].
      intros [] l' (zs & HS & H2' & C'). exists (ys ++ zs).
      split_and!; [apply Hr, runs_last; [zlia|done]| |changes].
      apply seg_app. split; [seg_frame|seg_place].
  - exists [], xs, []. split_and!; [done|zlia|done|done|done|done|done].
  - apply seg_within in Hs. lia.
Qed.

(** Merging two runs from one array to another. *)
Lemma merge_runs_spec first result a b a' b' l0 :
  stably_sorted comp a a' → stably_sorted comp b b' → seg l0 first (a' ++ b') →
  0 <= result → result + zlen a + zlen b <= zlen l0 → apart result (zlen a + zlen b) first (zlen a + zlen b) →
  wpr (__move_merge comp first (first + zlen a) (first + zlen a) (first + zlen a + zlen b) result)
    (λ r l, r = result + zlen a + zlen b ∧ ∃ zs, stably_sorted comp (a ++ b) zs ∧ seg l result zs ∧
      changed (λ i, first <= i < first + zlen a + zlen b ∨ result <= i < result + zlen a + zlen b) l0 l) l0.
Proof.
  intros HSa HSb [Ha Hb]%seg_app ???. pose proof (stably_sorted_zlen _ _ _ HSa).
  pose proof (stably_sorted_zlen _ _ _ HSb). eapply wpr_mono.
  { apply (__move_merge_spec comp _ _ _ _ _ a' b'); unfold apart in *; try (zlia || apply HSa || apply HSb || done).
    seg_place. }
  intros r l (-> & (zs & HS & Hz) & C). split; [lia|]. exists zs.
  split_and!; [by eapply stably_sorted_merge|done|changes].
Qed.

Lemma __merge_sort_loop_spec first last result n xs ys l0 :
  0 < n → last = first + zlen xs → runs comp n xs ys → seg l0 first ys →
  0 <= result → result + zlen xs <= zlen l0 → apart result (zlen xs) first (zlen xs) →
  wpr (__merge_sort_loop comp first last result n) (λ _ l, ∃ zs, runs comp (n * 2) xs zs ∧
    seg l result zs ∧
    changed (λ i, first <= i < first + zlen xs ∨ result <= i < result + zlen xs) l0 l) l0.
Proof.
  unfold apart. intros Hn -> Hr0 Hs ?? Hap. pose proof (runs_zlen _ _ _ _ Hr0) as El0. apply wpr_bind.
  apply (wpr_while (λ '(f, r) l, ∃ xs1 xs2 ys2 zs, xs = xs1 ++ xs2 ∧ runs comp n xs2 ys2 ∧
    f = first + zlen xs1 ∧ r = result + zlen xs1 ∧ zlen zs = zlen xs1 ∧
    (∀ zs', runs comp (n * 2) xs2 zs' → runs comp (n * 2) xs (zs ++ zs')) ∧
    seg l result zs ∧ seg l f ys2 ∧
    changed (λ i, first <= i < first + zlen xs ∨ result <= i < result + zlen xs) l0 l)
    (λ '(f, _), first + zlen xs - f)).
  - intros [f r] l (xs1 & xs2 & ys2 & zs & -> & Hr & -> & -> & El & Hz & H1 & H2 & C). split; [zlia|].
    pose proof (runs_zlen _ _ _ _ Hr).
    destruct (runs_two _ _ _ _ Hn Hr) as (a & b & c & a' & b' & c' & -> & -> & Ea & Eb & HSa & HSb & Hc).
    pose proof (stably_sorted_zlen _ _ _ HSa). pose proof (stably_sorted_zlen _ _ _ HSb).
    rewrite app_assoc in H2. apply seg_app in H2 as [H2 Hc'].
    destruct (Z.leb_spec (2 * n) (first + zlen (xs1 ++ a ++ b ++ c) - (first + zlen xs1))).
    + assert (zlen a = n ∧ zlen b = n) as [Ena Enb] by zlia.
      apply wpr_bind. replace (first + zlen xs1 + 2 * n) with (first + zlen xs1 + zlen a + zlen b) by lia.
      replace (first + zlen xs1 + n) with (first + zlen xs1 + zlen a) by lia.
      eapply wpr_mono.
      { apply (merge_runs_spec _ _ a b a' b'); [done|done|done|unfold apart; zlia..]. }
      intros r l' (-> & za & HS & Hza & C'). pose proof (stably_sorted_zlen _ _ _ HS).
      apply wpr_ret. split; [|lia]. exists (xs1 ++ a ++ b), c, c', (zs ++ za).
      split_and!; [by rewrite <- !app_assoc|done|zlia|zlia|zlia| | |seg_frame|changes].
      * intros zs' Hz'. rewrite <- app_assoc. apply Hz. rewrite app_assoc.
        apply runs_cons; [zlia|done|done].
      * apply seg_app. split; [seg_frame|seg_place].
    + assert (c = []) as -> by (apply zlen_zero; zlia).
      assert (c' = []) as -> by (apply zlen_zero; pose proof (runs_zlen _ _ _ _ Hc); zlia).
      rewrite !app_nil_r in *. apply wpr_ret, wpr_bind.
      replace (Z.min _ _) with (zlen a) by zlia.
      replace (first + zlen (xs1 ++ a ++ b)) with (first + zlen xs1 + zlen a + zlen b) by zlia.
      eapply wpr_mono.
      { apply (merge_runs_spec _ _ a b a' b'); [done|done|done|unfold apart; zlia..]. }
      intros r l' (_ & za & HS & Hza & C'). apply wpr_ret. exists (zs ++ za).
      split_and!; [apply Hz, runs_last; [zlia|done]| |changes].
      apply seg_app. split; [seg_frame|seg_place].
  - exists [], xs, ys, []. split_and!; [done|done|zlia|zlia|done|done|done|done|done].
  - apply seg_within in Hs. lia.
Qed.

Lemma __merge_sort_with_buffer_spec first last buffer bs xs l0 :
  last = first + zlen xs → seg l0 first xs → zlen xs <= bs → 0 <= first → last <= zlen l0 →
  buffer_ok buffer bs first (zlen xs) l0 →
  wpr (__merge_sort_with_buffer comp first last buffer)
    (λ _ l, sorted_stably comp (λ i, buffer <= i < buffer + bs) first xs l0 l) l0.
Proof.
  intros -> Hs ??? Hb. pose proof Hb as (? & ? & ? & Ha). unfold apart in Ha. apply wpr_bind.
  eapply wpr_mono; [by apply (__chunk_insertion_sort_spec _ _ _ xs)|].
  intros [] l1 (ys & Hr & Hy & C1). replace (first + zlen xs - first) with (zlen xs) by lia.
  apply (wpr_while (λ step l, 0 < step ∧ ∃ ys, runs comp step xs ys ∧ seg l first ys ∧
    changed (λ i, buffer <= i < buffer + bs ∨ first <= i < first + zlen xs) l0 l)
    (λ step, Z.max 0 (zlen xs - step))).
  - clear ys Hr Hy C1. intros step l (Hp & ys & Hr & Hy & C). split; [lia|].
    destruct (Z.ltb_spec step (zlen xs)).
    + apply wpr_bind. eapply wpr_mono.
      { apply (__merge_sort_loop_spec _ _ _ _ xs ys); unfold apart; zlia || done. }
      intros [] l2 (zs & Hr2 & Hz & C2). apply wpr_bind. eapply wpr_mono.
      { apply (__merge_sort_loop_spec _ _ _ _ xs zs); unfold apart; zlia || done. }
      intros [] l3 (zs3 & Hr3 & Hz3 & C3). apply wpr_ret. split; [|lia]. split; [lia|].
      exists zs3. split_and!; [done|done|changes].
    + apply wpr_ret. exists ys. split_and!; [by eapply runs_one|done|done].
  - split; [done|]. exists ys. split_and!; [done|done|changes].
  - apply seg_within in Hs. unfold _S_chunk_size. zlia.
Qed.

(** Sorting both halves and merging them. *)
Lemma sort_halves_spec (R : Z → Prop) first xs1 xs2 (m1 m2 m3 : M arr unit) l0 :
  (∀ i, R i → ¬ (first <= i < first + zlen xs1 + zlen xs2)) →
  seg l0 first (xs1 ++ xs2) →
  wpr m1 (λ _ l, sorted_stably comp R first xs1 l0 l) l0 →
  (∀ lo l, lo = first + zlen xs1 → zlen l = zlen l0 → seg l lo xs2 →
    wpr m2 (λ _ l', sorted_stably comp R lo xs2 l l') l) →
  (∀ l ys1 ys2, zlen l = zlen l0 → zlen ys1 = zlen xs1 → zlen ys2 = zlen xs2 →
    seg l first ys1 → seg l (first + zlen ys1) ys2 → in_order comp ys1 → in_order comp ys2 →
    wpr m3 (λ _ l', merged comp ys1 ys2 first l' ∧
      changed (λ i, R i ∨ first <= i < first + zlen ys1 + zlen ys2) l l') l) →
  wpr ((m1;; m2);; m3) (λ _ l, sorted_stably comp R first (xs1 ++ xs2) l0 l) l0.
Proof.
  intros HR [H1 H2]%seg_app Hm1 Hm2 Hm3. apply wpr_bind, wpr_bind.
  eapply wpr_mono; [exact Hm1|]. intros [] l1 (ys1 & HS1 & Hy1 & C1).
  pose proof (stably_sorted_zlen _ _ _ HS1).
  eapply wpr_mono; [apply Hm2; [done|zlia|]|].
  { apply (changed_seg _ _ _ _ _ C1 H2). intros i ? [Hi|?]; [by apply HR in Hi; zlia|lia]. }
  intros [] l2 (ys2 & HS2 & Hy2 & C2). pose proof (stably_sorted_zlen _ _ _ HS2).
  eapply wpr_mono; [apply (Hm3 _ ys1 ys2); [zlia|done|done| |seg_place|apply HS1|apply HS2]|].
  { apply (changed_seg _ _ _ _ _ C2 Hy1). intros i ? [Hi|?]; [by apply HR in Hi; zlia|lia]. }
  intros [] l3 [(zs & HS3 & Hz) C3]. exists zs. split_and!; [by eapply stably_sorted_merge|done|].
  apply (changed_trans _ _ l1); [|apply (changed_trans _ _ l2)];
    eapply changed_mono; [exact C1| |exact C2| |exact C3|]; (intros i [?|?]; [by left|right; zlia]).
Qed.

Lemma stable_sort_adaptive_n_spec `{Memory} depth first last buffer bs xs l0 :
  last = first + zlen xs → seg l0 first xs → 0 <= first → last <= zlen l0 → 1 <= bs →
  buffer_ok buffer bs first (zlen xs) l0 → zlen xs < Z.of_nat depth →
  wpr (stable_sort_adaptive_n comp depth first last buffer bs)
    (λ _ l, sorted_stably comp (λ i, buffer <= i < buffer + bs) first xs l0 l) l0.
Proof.
  revert first last xs l0. induction depth as [|depth IH]; intros first last xs l0; [zlia|].
  intros -> Hs ??? Hb Hd. cbn [stable_sort_adaptive_n].
  pose proof Hb as (_ & _ & _ & Ha). unfold apart in Ha.
  replace (first + zlen xs - first) with (zlen xs) by lia. set (len := cdiv (zlen xs + 1) 2).
  assert (zlen xs <= 2 * len <= zlen xs + 1) as Hlen.
  { unfold len. pose proof (zlen_nonneg xs). rewrite cdiv_div by lia. divlia. }
  clearbody len. destruct (zlen_split xs len) as (xs1 & xs2 & -> & <- & E2); [zlia|].
  assert (∀ l, zlen l = zlen l0 → buffer_ok buffer bs first (zlen xs1 + zlen xs2) l) as Hbl.
  { intros l El. apply (buffer_ok_sub _ _ _ _ _ _ _ _ Hb); zlia. }
  assert (∀ lo l, lo = first + zlen xs1 → zlen l = zlen l0 → buffer_ok buffer bs lo (zlen xs2) l) as Hb2.
  { intros lo l -> El. apply (buffer_ok_sub _ _ _ _ _ _ _ _ Hb); zlia. }
  assert (buffer_ok buffer bs first (zlen xs1) l0) as Hb1.
  { apply (buffer_ok_sub _ _ _ _ _ _ _ _ Hb); zlia. }
  pose proof Hs as [Hs1 _]%seg_app. pose proof (zlen_app xs1 xs2).
  destruct (Z.ltb_spec bs (zlen xs1));
    (apply (sort_halves_spec (λ i, buffer <= i < buffer + bs) first xs1 xs2); [intros; lia|done|..]).
  - apply (IH _ _ xs1); zlia || done.
  - intros lo l -> El Hl. apply (IH _ _ xs2); zlia || done || by apply Hb2.
  - intros l ys1 ys2 El E1 E3 Hy1 Hy2 ??.
    apply (__merge_adaptive_spec comp _ _ _ _ _ _ _ _ _ ys1 ys2); try (zlia || done || seg_place).
    rewrite E1, E3. by apply Hbl.
  - apply (__merge_sort_with_buffer_spec _ _ _ _ xs1); zlia || done.
  - intros lo l -> El Hl. apply (__merge_sort_with_buffer_spec _ _ _ _ xs2); zlia || done || by apply Hb2.
  - intros l ys1 ys2 El E1 E3 Hy1 Hy2 ??.
    apply (__merge_adaptive_spec comp _ _ _ _ _ _ _ _ _ ys1 ys2); try (zlia || done || seg_place).
    rewrite E1, E3. by apply Hbl.
Qed.

Lemma inplace_stable_sort_n_spec `{Memory} depth first last xs l0 :
  last = first + zlen xs → seg l0 first xs → zlen xs < Z.of_nat depth →
  wpr (inplace_stable_sort_n comp depth first last)
    (λ _ l, sorted_stably comp (λ _, False) first xs l0 l) l0.
Proof.
  revert first last xs l0. induction depth as [|depth IH]; intros first last xs l0; [zlia|].
  intros -> Hs Hd. cbn [inplace_stable_sort_n].
  destruct (Z.ltb_spec (first + zlen xs - first) 15); [by apply insertion_sort_stable_spec|].
  replace (first + zlen xs - first) with (zlen xs) in * by lia.
  pose proof (half_bounds (zlen xs) ltac:(lia)). set (half := cdiv (zlen xs) 2) in *. clearbody half.
  destruct (zlen_split xs half) as (xs1 & xs2 & -> & <- & E2); [zlia|]. cbv zeta.
  pose proof Hs as [Hs1 _]%seg_app. apply wpr_bind_bind.
  apply (sort_halves_spec (λ _, False) first xs1 xs2); [done|done|..].
  - apply (IH _ _ xs1); zlia || done.
  - intros lo l -> El Hl. apply (IH _ _ xs2); zlia || done.
  - intros l ys1 ys2 El E1 E3 Hy1 Hy2 ??. eapply wpr_mono.
    { apply (__merge_without_buffer_spec comp _ _ _ _ _ _ _ ys1 ys2); zlia || done || seg_place. }
    intros [] l' [? C]. split; [done|changes].
Qed.
End Sorts.

(** * The functions *)

Section Functions.
Context {A : Type} (comp : A → A → bool) `{!StrictWeakOrder comp}.
Local Abbreviation arr := (list (option A)).
Implicit Types l pre post : arr.
Implicit Types xs ys : list A.

(** A function that works with a buffer if there is one. *)
Lemma with_buffer_spec `{Memory} first last xs (m0 : M arr unit) (m1 : Z → Z → M arr unit) l0 :
  last = first + zlen xs → seg l0 first xs → last <= zlen l0 → 1 <= size_of →
  wpr m0 (λ _ l, sorted_stably comp (λ _, False) first xs l0 l) l0 →
  (∀ n l, 1 <= n → extends l0 n l →
    wpr (m1 (zlen l0) n) (λ _ l', sorted_stably comp (λ i, zlen l0 <= i < zlen l0 + n) first xs l l') l) →
  wpr (buf ← new_Temporary_buffer first last;
       match _M_buffer buf with
       | None => m0
       | Some b => m1 b (_M_len buf)
       end;;
       delete_Temporary_buffer buf) (λ _ l, sorted_stably comp (λ _, False) first xs l0 l) l0.
Proof.
  intros -> Hs ?? H0 H1. apply wpr_bind.
  eapply wpr_mono; [by apply (new_Temporary_buffer_spec _ _ xs)|].
  unfold delete_Temporary_buffer.
  intros buf l [_ [(-> & _ & ->)|(-> & ? & He)]]; apply wpr_bind.
  - eapply wpr_mono; [exact H0|]. intros [] l' Hl. by apply wpr_ret.
  - eapply wpr_mono; [apply H1; [lia|done]|]. intros [] l' (ys & HS & Hy & C).
    pose proof (stably_sorted_zlen _ _ _ HS). exists ys. split_and!; [done|apply seg_truncate; [done|lia]|].
    eapply changed_mono; [eapply changed_truncate; [|exact He|exact C]; lia|]. intros. by right.
Qed.

Lemma stable_sort_spec `{Memory} first last xs l0 :
  last = first + zlen xs → seg l0 first xs → 0 <= first → last <= zlen l0 → 1 <= size_of →
  wpr (stable_sort comp first last) (λ _ l, sorted_stably comp (λ _, False) first xs l0 l) l0.
Proof.
  intros -> Hs ???. apply (with_buffer_spec _ _ xs); [done..| |].
  - apply (inplace_stable_sort_n_spec comp _ _ _ xs); [done|done|]. unfold zlen in *. lia.
  - intros n l ? He. pose proof (extends_seg _ _ _ _ _ He Hs). destruct He as [El _].
    apply (stable_sort_adaptive_n_spec comp _ _ _ _ _ xs); try (lia || done); [|unfold zlen in *; lia].
    split_and!; [zlia|lia|lia|]. unfold apart. lia.
Qed.

Lemma sorted_stably_merged (R : Z → Prop) first X Y l0 l :
  merged comp X Y first l → changed (λ i, R i ∨ first <= i < first + zlen X + zlen Y) l0 l →
  sorted_stably comp R first (X ++ Y) l0 l.
Proof.
  intros (zs & HS & Hz) C. exists zs. split_and!; [done|done|].
  apply (changed_mono _ _ _ _ C). intros i [?|?]; [by left|right; zlia].
Qed.

Lemma inplace_merge_spec `{Memory} category first middle last X Y l0 :
  middle = first + zlen X → last = middle + zlen Y → seg l0 first (X ++ Y) →
  in_order comp X → in_order comp Y → 0 <= first → last <= zlen l0 → 1 <= size_of →
  wpr (inplace_merge comp category first middle last)
    (λ _ l, sorted_stably comp (λ _, False) first (X ++ Y) l0 l) l0.
Proof.
  intros -> -> Hs SX SY ???. unfold inplace_merge. pose proof Hs as [HX HY]%seg_app.
  destruct (Z.eqb_spec first (first + zlen X)); cbn [orb].
  { assert (X = []) as -> by (apply zlen_zero; lia). apply wpr_ret. by exists Y. }
  destruct (Z.eqb_spec (first + zlen X) (first + zlen X + zlen Y)).
  { assert (Y = []) as -> by (apply zlen_zero; lia). rewrite app_nil_r in *. apply wpr_ret. by exists X. }
  cbv zeta. apply (with_buffer_spec _ _ (X ++ Y)
    (__merge_without_buffer comp category is_pod first (first + zlen X) (first + zlen X + zlen Y)
       (first + zlen X - first) (first + zlen X + zlen Y - (first + zlen X)))
    (λ b n, __merge_adaptive comp category is_pod first (first + zlen X) (first + zlen X + zlen Y)
       (first + zlen X - first) (first + zlen X + zlen Y - (first + zlen X)) b n)); [zlia|done|done|done| |].
  - eapply wpr_mono; [apply (__merge_without_buffer_spec comp _ _ _ _ _ _ _ X Y); zlia || done|].
    intros [] l [? C]. apply sorted_stably_merged; [done|changes].
  - intros len l ? He. pose proof (extends_seg _ _ _ _ _ He HX). pose proof (extends_seg _ _ _ _ _ He HY).
    destruct He as [El _]. eapply wpr_mono.
    { apply (__merge_adaptive_spec comp _ _ _ _ _ _ _ _ _ X Y); try (zlia || done).
      split_and!; [zlia|lia|lia|]. unfold apart. zlia. }
    intros [] l' [? C]. apply sorted_stably_merged; [done|changes].
Qed.

(** The run of a function that sorts the middle of an array. *)
Lemma run_sorted (m : M arr unit) pre post xs :
  wpr m (λ _ l, sorted_stably comp (λ _, False) (zlen pre) xs (pre ++ (Some <$> xs) ++ post) l)
    (pre ++ (Some <$> xs) ++ post) →
  ∃ ys, m (pre ++ (Some <$> xs) ++ post) = Some (tt, pre ++ (Some <$> ys) ++ post) ∧
        stably_sorted comp xs ys.
Proof.
  intros ([] & l' & -> & ys & HS & Hy & C)%wpr_run. exists ys. split; [|done]. f_equal. f_equal.
  apply (changed_middle _ _ xs); [changes|by eapply stably_sorted_zlen|done].
Qed.
End Functions.

(** C23: [std::stable_sort] sorts stably, whatever memory it gets: for every strict
    weak order and every list of objects there is one arrangement that is in
    order and keeps equivalent objects in the order they had, and the function
    ends with it in the range and nothing else changed, for every
    behaviour of [operator new] and every kind of objects: it does not leave
    its range and its buffer, and compares no object that has been moved from. *)
Theorem stable_sort_sorts {A} (comp : A → A → bool) (pre post : list (option A)) xs :
  StrictWeakOrder comp →
  ∃ ys, stably_sorted comp xs ys ∧ ∀ mem : Memory, 1 <= size_of →
    stable_sort comp (zlen pre) (zlen pre + zlen xs) (pre ++ (Some <$> xs) ++ post) =
    Some (tt, pre ++ (Some <$> ys) ++ post).
Proof.
  intros Hc.
  assert (∀ mem : Memory, 1 <= size_of → ∃ ys,
    stable_sort comp (zlen pre) (zlen pre + zlen xs) (pre ++ (Some <$> xs) ++ post) =
    Some (tt, pre ++ (Some <$> ys) ++ post) ∧ stably_sorted comp xs ys) as Hall.
  { intros mem ?. apply (run_sorted comp), (stable_sort_spec comp); [done|apply seg_middle|unfold zlen; lia| |done].
    rewrite zlen_app_mid. unfold zlen. lia. }
  destruct (Hall {| new_refuses _ := true; size_of := 1; is_pod := true; has_trivial_constructor := true |})
    as (ys & _ & HS); [done|].
  exists ys. split; [done|]. intros mem Hm. destruct (Hall mem Hm) as (ys' & -> & HS').
  by rewrite (stable_unique comp xs ys ys').
Qed.

(** Pairs compared by their first component. *)
Definition by_key (a b : Z * Z) : bool := a.1 <? b.1.

#[export] Instance by_key_order : StrictWeakOrder by_key.
Proof.
  split; unfold by_key.
  - intros a. apply Z.ltb_irrefl.
  - intros a b c. rewrite !Z.ltb_lt. lia.
  - intros a b c. rewrite !Z.ltb_ge. lia.
Qed.

Lemma stable_sort_sorts_witness :
  ∃ ys, stably_sorted by_key [(2, 1); (1, 1); (2, 2); (1, 2)] ys ∧ ∀ mem : Memory, 1 <= size_of →
    stable_sort by_key (zlen [Some (0, 0)]) (zlen [Some (0, 0)] + 4)
      [Some (0, 0); Some (2, 1); Some (1, 1); Some (2, 2); Some (1, 2); None] =
    Some (tt, [Some (0, 0)] ++ (Some <$> ys) ++ [None]).
Proof.
  exact (stable_sort_sorts by_key [Some (0, 0)] [None] [(2, 1); (1, 1); (2, 2); (1, 2)] by_key_order).
Defined.

(** C24: [std::inplace_merge] merges the two sorted parts of its range stably,
    whatever memory it gets and whatever kind its iterators are: equivalent objects of the
    first part come before those of the second one. *)
Theorem inplace_merge_merges {A} (comp : A → A → bool) (mem : Memory) category (pre post : list (option A)) X Y :
  StrictWeakOrder comp → 1 <= size_of → in_order comp X → in_order comp Y →
  ∃ ys, inplace_merge comp category (zlen pre) (zlen pre + zlen X) (zlen pre + zlen X + zlen Y)
          (pre ++ (Some <$> X ++ Y) ++ post) = Some (tt, pre ++ (Some <$> ys) ++ post) ∧
        stably_sorted comp (X ++ Y) ys.
Proof.
  intros Hc ? SX SY. apply (run_sorted comp), (inplace_merge_spec comp); [done|done|apply seg_middle|done|done| | |done].
  - unfold zlen. lia.
  - rewrite zlen_app_mid. zlia.
Qed.

Lemma inplace_merge_merges_witness :
  let mem := {| new_refuses n := 8 <? n; size_of := 4; is_pod := false; has_trivial_constructor := false |} in
  ∃ ys, inplace_merge by_key bidirectional_iterator_tag 0 3 6
          [Some (1, 1); Some (2, 1); Some (3, 1); Some (1, 2); Some (2, 2); Some (3, 2)] =
          Some (tt, Some <$> ys) ∧
        stably_sorted by_key [(1, 1); (2, 1); (3, 1); (1, 2); (2, 2); (3, 2)] ys.
Proof.
  intros mem. destruct (inplace_merge_merges by_key mem bidirectional_iterator_tag [] [] [(1, 1); (2, 1); (3, 1)] [(1, 2); (2, 2); (3, 2)])
    as (ys & E & HS); [apply _|done|repeat constructor|repeat constructor|].
  exists ys. rewrite !app_nil_l, !app_nil_r in E. by split.
Defined.
