(* ===== verification/StlPartition.v ===== *)
(** * Finding and partitioning by a predicate, [bits/stl_algo.h]

    [std::find_if], whose implementation for random access iterators tests four
    elements in a turn, [std::remove_if], [std::partition] for forward and
    bidirectional iterators, and [std::stable_partition], which halves the range
    until a part fits into its buffer. The theorems: the unrolled search finds what
    the plain one finds, [std::remove_if] and [std::stable_partition] compute the
    filters of the list of values, and [std::partition] puts the values that
    satisfy the predicate first. *)
From stdpp Require Import base numbers list sorting.
From Stdlib Require Import ZArith Lia.
From S2P Require Import Prelude StlArray StlHeap StlSort StlSeg StlRotate StlTempbuf.

Section Code.
Context {A : Type}.
Local Abbreviation arr := (list (option A)).
Variable pred : A → bool.

(** [__pred(i)], and [!__pred(i)] ([__gnu_cxx::__ops::__negate]). *)
Definition _Iter_pred (i : Z) : M arr bool := a ← load i; mret (pred a).
Definition _Iter_negate (i : Z) : M arr bool := a ← load i; mret (negb (pred a)).
End Code.

Section Find.
Context {A : Type}.
Local Abbreviation arr := (list (option A)).
Variable pred : Z → M arr bool.

Definition __find_if_input (first last : Z) : M arr Z :=
  while (λ first,
    if first =? last then mret (inr first)
    else
      b ← pred first;
      mret (if b : bool then inr first else inl (first + 1))) first.

(** [if (__pred(__first)) return __first; ++__first;] and what comes then. *)
Definition find_step (first : Z) (next : Z → M arr Z) : M arr Z :=
  b ← pred first;
  if b : bool then mret first else next (first + 1).

(** The loop goes on with [inl] when none of four elements satisfies [pred]. *)
Definition find_four (first : Z) : M arr (Z + Z) :=
  b ← pred first;
  if b : bool then mret (inr first) else
  let first := first + 1 in
  b ← pred first;
  if b : bool then mret (inr first) else
  let first := first + 1 in
  b ← pred first;
  if b : bool then mret (inr first) else
  let first := first + 1 in
  b ← pred first;
  if b : bool then mret (inr first) else
  mret (inl (first + 1)).

(** The cases of the [switch] fall through. *)
Definition __find_if_random_access (first last : Z) : M arr Z :=
  r ← while (λ '(trip_count, first),
    if 0 <? trip_count then
      r ← find_four first;
      match r with
      | inr found => mret (inr (inr found))
      | inl first => mret (inl (trip_count - 1, first))
      end
    else mret (inr (inl first))) ((last - first) >> 2, first);
  match r with
  | inr found => mret found
  | inl first =>
      let case0 := λ _, mret last in
      let case1 := λ first, find_step first case0 in
      let case2 := λ first, find_step first case1 in
      let case3 := λ first, find_step first case2 in
      let rest := last - first in
      if rest =? 3 then case3 first
      else if rest =? 2 then case2 first
      else if rest =? 1 then case1 first
      else case0 first
  end.

Definition __find_if (category : iterator_category) (first last : Z) : M arr Z :=
  match category with
  | random_access_iterator_tag => __find_if_random_access first last
  | _ => __find_if_input first last
  end.
End Find.

Section Partition.
Context {A : Type}.
Local Abbreviation arr := (list (option A)).
Variable category : iterator_category.
Variable pred : A → bool.

Definition __find_if_not (first last : Z) : M arr Z :=
  __find_if (_Iter_negate pred) category first last.

(** Returns the position and what is left of [len]. *)
Definition __find_if_not_n (first len : Z) : M arr (Z * Z) :=
  while (λ '(first, len),
    if len =? 0 then mret (inr (first, len))
    else
      b ← _Iter_pred pred first;
      mret (if b : bool then inl (first + 1, len - 1) else inr (first, len))) (first, len).

Definition __remove_if (first last : Z) : M arr Z :=
  first ← __find_if (_Iter_pred pred) category first last;
  if first =? last then mret first
  else
    while (λ '(first, result),
      if first =? last then mret (inr result)
      else
        b ← _Iter_pred pred first;
        if negb b then
          v ← move_from first;
          assign result v;;
          mret (inl (first + 1, result + 1))
        else mret (inl (first + 1, result))) (first + 1, first).

Definition __partition_forward (first last : Z) : M arr Z :=
  if first =? last then mret first
  else
    r ← while (λ first,
      b ← _Iter_pred pred first;
      mret (if b : bool then
              if first + 1 =? last then inr (inr (first + 1)) else inl (first + 1)
            else inr (inl first))) first;
    match r with
    | inr last => mret last
    | inl first =>
        while (λ '(first, next),
          let next := next + 1 in
          if next =? last then mret (inr first)
          else
            b ← _Iter_pred pred next;
            if b : bool then
              iter_swap first next;;
              mret (inl (first + 1, next))
            else mret (inl (first, next))) (first, first)
    end.

(** The first inner loop returns when it meets [last] ([inr]). *)
Definition partition_up (first last : Z) : M arr (Z + Z) :=
  while (λ first,
    if first =? last then mret (inr (inr first))
    else
      b ← _Iter_pred pred first;
      mret (if b : bool then inl (first + 1) else inr (inl first))) first.

Definition partition_down (first last : Z) : M arr (Z + Z) :=
  while (λ last,
    if first =? last then mret (inr (inr first))
    else
      b ← _Iter_pred pred last;
      mret (if negb b then inl (last - 1) else inr (inl last))) last.

Definition __partition_bidirectional (first last : Z) : M arr Z :=
  while (λ '(first, last),
    r ← partition_up first last;
    match r with
    | inr found => mret (inr found)
    | inl first =>
        r ← partition_down first (last - 1);
        match r with
        | inr found => mret (inr found)
        | inl last =>
            iter_swap first last;;
            mret (inl (first + 1, last))
        end
    end) (first, last).

Definition partition (first last : Z) : M arr Z :=
  match category with
  | forward_iterator_tag => __partition_forward first last
  | _ => __partition_bidirectional first last
  end.
End Partition.

Section StablePartition.
Context {A : Type} `{Memory}.
Local Abbreviation arr := (list (option A)).
Variable category : iterator_category.
Variable pred : A → bool.

(** The part fits into the buffer. *)
Definition partition_with_buffer (first last buffer : Z) : M arr Z :=
  let result1 := first in
  let result2 := buffer in
  v ← move_from first;
  assign result2 v;;
  r ← while (λ '(first, result1, result2),
    if first =? last then mret (inr (result1, result2))
    else
      b ← _Iter_pred pred first;
      if b : bool then
        v ← move_from first;
        assign result1 v;;
        mret (inl (first + 1, result1 + 1, result2))
      else
        v ← move_from first;
        assign result2 v;;
        mret (inl (first + 1, result1, result2 + 1))) (first + 1, result1, result2 + 1);
  let '(result1, result2) := r in
  move3 buffer result2 result1;;
  mret result1.

Fixpoint stable_partition_adaptive_n (depth : nat) (first last len buffer buffer_size : Z) :
    M arr Z :=
  match depth with
  | O => ub
  | S depth =>
      if len =? 1 then mret first
      else if len <=? buffer_size then partition_with_buffer first last buffer
      else
        let middle := first + cdiv len 2 in
        left_split ← stable_partition_adaptive_n depth first middle (cdiv len 2) buffer buffer_size;
        r ← __find_if_not_n pred middle (len - cdiv len 2);
        let '(right_split, right_len) := r in
        right_split ←
          (if negb (right_len =? 0) then
             stable_partition_adaptive_n depth right_split last right_len buffer buffer_size
           else mret right_split);
        std_rotate category is_pod left_split middle right_split;;
        mret (left_split + (right_split - middle))
  end.

Definition __stable_partition_adaptive (first last len buffer buffer_size : Z) : M arr Z :=
  λ l, stable_partition_adaptive_n (S (length l)) first last len buffer buffer_size l.

(** Without storage the buffer is null and has no size; no cell of it is used. *)
Definition stable_partition (first last : Z) : M arr Z :=
  first ← __find_if_not category pred first last;
  if first =? last then mret first
  else
    buf ← new_Temporary_buffer first last;
    r ← __stable_partition_adaptive first last (_M_original_len buf)
          (default 0 (_M_buffer buf)) (_M_len buf);
    delete_Temporary_buffer buf;;
    mret r.
End StablePartition.

(** * Finding *)

Section FindTheory.
Context {A : Type}.
Local Abbreviation arr := (list (option A)).
Implicit Types l : arr.
Implicit Types xs a b : list A.

(** [pred] tests the value of a cell with [P]. *)
Definition tests (P : A → bool) (pred : Z → M arr bool) : Prop :=
  ∀ l i x (Q : bool → arr → Prop), holds l i x → Q (P x) l → wpr (pred i) Q l.

Lemma _Iter_pred_tests P : tests P (_Iter_pred P).
Proof. intros l i x Q Hx HQ. by apply wpr_bind, (wpr_load _ _ _ _ Hx), wpr_ret. Qed.

Lemma _Iter_negate_tests P : tests (λ x, negb (P x)) (_Iter_negate P).
Proof. intros l i x Q Hx HQ. by apply wpr_bind, (wpr_load _ _ _ _ Hx), wpr_ret. Qed.

Context (P : A → bool) (pred : Z → M arr bool) (Hpred : tests P pred).

(** None of [a] satisfies [P], [b] is still to be searched. *)
Definition searching xs a b : Prop := xs = a ++ b ∧ ∀ z, z ∈ a → P z = false.

(** The first value of [xs] that satisfies [P] is at [r]. *)
Definition found (first : Z) xs (r : Z) : Prop :=
  ∃ a b, searching xs a b ∧ r = first + zlen a ∧ ∀ h b', b = h :: b' → P h = true.

Lemma searching_next xs a h b : searching xs a (h :: b) → P h = false → searching xs (a ++ [h]) b.
Proof.
  intros [-> Ha] Hh. split; [by rewrite <- app_assoc|].
  intros z [Hz| ->%list_elem_of_singleton]%elem_of_app; [by apply Ha|done].
Qed.

Lemma searching_found first xs a h b : searching xs a (h :: b) → P h = true → found first xs (first + zlen a).
Proof. intros Hs Hh. exists a, (h :: b). split_and!; [done|done|]. by intros ? ? [= <- _]. Qed.

Lemma searching_end first xs a : searching xs a [] → found first xs (first + zlen xs).
Proof. intros Hs. exists a, []. split_and!; [done| |done]. destruct Hs as [-> _]. by rewrite app_nil_r. Qed.

(** One test at the place where the search is. *)
Lemma search_step {B} first xs a h b f (m : bool → M arr B) Q l :
  searching xs a (h :: b) → seg l first xs → f = first + zlen a →
  (found first xs f → wpr (m true) Q l) →
  (searching xs (a ++ [h]) b → f + 1 = first + zlen (a ++ [h]) → wpr (m false) Q l) →
  wpr (r ← pred f; m r) Q l.
Proof.
  intros Hs Hl -> Ht Hf. pose proof Hs as [-> _]. apply seg_app in Hl as [_ [Hh _]%seg_cons].
  apply wpr_bind, (Hpred _ _ _ _ Hh). destruct (P h) eqn:E.
  - apply Ht. by eapply searching_found.
  - apply Hf; [by apply searching_next|zlia].
Qed.

Lemma __find_if_input_spec first last xs l :
  last = first + zlen xs → seg l first xs →
  wpr (__find_if_input pred first last) (λ r l', l' = l ∧ found first xs r) l.
Proof.
  intros -> Hs. apply (wpr_while (λ f l', l' = l ∧ ∃ a b, searching xs a b ∧ f = first + zlen a)
    (λ f, first + zlen xs - f)).
  - intros f l' [-> (a & b & Ha & ->)]. assert (zlen xs = zlen a + zlen b) by (destruct Ha as [-> _]; zlia).
    split; [zlia|]. destruct b as [|h b].
    { rewrite (proj2 (Z.eqb_eq _ _)) by zlia. apply wpr_ret. split; [done|].
      replace (zlen a) with (zlen xs) by zlia. by eapply searching_end. }
    rewrite (proj2 (Z.eqb_neq _ _)) by zlia.
    apply (search_step first xs a h b); [done|done|done|..].
    + intros Hf. by apply wpr_ret.
    + intros Hn E. apply wpr_ret. split; [|lia]. split; [done|]. by exists (a ++ [h]), b.
  - split; [done|]. exists [], xs. split; [split; [done|by intros ? ?%elem_of_nil]|zlia].
  - apply seg_within in Hs. lia.
Qed.

Lemma find_four_spec first xs a b f l :
  searching xs a b → seg l first xs → f = first + zlen a → 4 <= zlen b →
  wpr (find_four pred f) (λ r l', l' = l ∧ match r with
    | inr r => found first xs r
    | inl f' => f' = f + 4 ∧ ∃ a' b', searching xs a' b' ∧ f' = first + zlen a'
    end) l.
Proof.
  intros Ha Hs Ef Hl. destruct b as [|b1 [|b2 [|b3 [|b4 b]]]]; try zlia.
  do 4 (eapply search_step; [done|done|done|intros Hf; by apply wpr_ret|];
    clear Ha Ef; intros Ha Ef; cbv zeta).
  apply wpr_ret. split; [done|]. split; [lia|]. by eexists _, b.
Qed.

(** The elements that are left when fewer than four are. *)
Lemma find_step_spec first last xs a h b f next l :
  searching xs a (h :: b) → seg l first xs → f = first + zlen a →
  (searching xs (a ++ [h]) b → f + 1 = first + zlen (a ++ [h]) →
    wpr (next (f + 1)) (λ r l', l' = l ∧ found first xs r) l) →
  last = first + zlen xs → wpr (find_step pred f next) (λ r l', l' = l ∧ found first xs r) l.
Proof.
  intros Ha Hs Ef Hn Hl. eapply search_step; [done|done|done|intros Hf; by apply wpr_ret|done].
Qed.

Lemma shift_2 x : x >> 2 = x / 4.
Proof. by rewrite Z.shiftr_div_pow2. Qed.

Lemma __find_if_random_access_spec first last xs l :
  last = first + zlen xs → seg l first xs →
  wpr (__find_if_random_access pred first last) (λ r l', l' = l ∧ found first xs r) l.
Proof.
  intros Hl Hs. apply wpr_bind. apply (wpr_while (λ '(t, f) l', l' = l ∧ ∃ a b,
    searching xs a b ∧ f = first + zlen a ∧ t = zlen b / 4) fst).
  - intros [t f] l' [-> (a & b & Ha & Ef & ->)]. pose proof (zlen_nonneg b).
    assert (zlen xs = zlen a + zlen b) as El by (destruct Ha as [-> _]; zlia).
    cbn [fst]. split; [divlia|]. destruct (Z.ltb_spec 0 (zlen b / 4)).
    + apply wpr_bind. eapply wpr_mono; [apply (find_four_spec first xs a b); [done|done|done|divlia]|].
      intros [f'|r] l' [-> Hr]; [|by apply wpr_ret, wpr_ret].
      destruct Hr as (-> & a' & b' & Ha' & Ef'). apply wpr_ret. split; [|cbn [fst]; lia]. split; [done|].
      exists a', b'. split_and!; [done|done|].
      assert (zlen xs = zlen a' + zlen b') by (destruct Ha' as [-> _]; zlia).
      replace (zlen b) with (zlen b' + 1 * 4) by lia. rewrite Z.div_add; lia.
    + apply wpr_ret. cbv zeta.
      assert (∀ a, searching xs a [] → wpr (mret last) (λ r l', l' = l ∧ found first xs r) l) as Hend.
      { intros a' Ha'. apply wpr_ret. split; [done|]. rewrite Hl. by eapply searching_end. }
      destruct b as [|b1 [|b2 [|b3 [|b4 b]]]]; [| | | |zlens; divlia];
        repeat (rewrite (proj2 (Z.eqb_neq _ _)) by zlia); try (rewrite (proj2 (Z.eqb_eq _ _)) by zlia);
        eauto; repeat (eapply find_step_spec; [done|done|done| |done]; clear Ha Ef; intros Ha Ef); eauto.
  - split; [done|]. exists [], xs. rewrite shift_2, Hl.
    split_and!; [split; [done|by intros ? ?%elem_of_nil]|zlia|f_equal; lia].
  - cbn [fst]. rewrite shift_2. apply seg_within in Hs. pose proof (zlen_nonneg xs). divlia.
Qed.

Lemma __find_if_spec category first last xs l :
  last = first + zlen xs → seg l first xs →
  wpr (__find_if pred category first last) (λ r l', l' = l ∧ found first xs r) l.
Proof.
  intros. destruct category;
    [by apply __find_if_input_spec..|by apply __find_if_random_access_spec].
Qed.
End FindTheory.

(** * Filters *)

Section Filters.
Context {A : Type} (P : A → bool).
Implicit Types xs a b : list A.

Definition chosen xs : list A := List.filter P xs.
Definition others xs : list A := List.filter (λ x, negb (P x)) xs.

Definition all_chosen xs : Prop := ∀ z, z ∈ xs → P z = true.
Definition none_chosen xs : Prop := ∀ z, z ∈ xs → P z = false.

Lemma chosen_app a b : chosen (a ++ b) = chosen a ++ chosen b.
Proof. apply List.filter_app. Qed.
Lemma others_app a b : others (a ++ b) = others a ++ others b.
Proof. apply List.filter_app. Qed.

Lemma all_chosen_filter xs : all_chosen xs → chosen xs = xs ∧ others xs = [].
Proof.
  induction xs as [|x xs IH]; intros H; [done|].
  unfold chosen, others in *. cbn. rewrite (H x) by (by left). cbn.
  destruct IH as [-> ->]; [|done]. intros z Hz. apply H. by right.
Qed.

Lemma none_chosen_filter xs : none_chosen xs → chosen xs = [] ∧ others xs = xs.
Proof.
  induction xs as [|x xs IH]; intros H; [done|].
  unfold chosen, others in *. cbn. rewrite (H x) by (by left). cbn.
  destruct IH as [-> ->]; [|done]. intros z Hz. apply H. by right.
Qed.

Lemma filters_zlen xs :
  zlen (chosen xs) + zlen (others xs) = zlen xs ∧ 0 <= zlen (chosen xs) ∧ 0 <= zlen (others xs).
Proof.
  split_and!; [|apply zlen_nonneg..].
  induction xs as [|x xs IH]; [done|]. unfold chosen, others in *. cbn.
  destruct (P x); cbn [negb]; zlia.
Qed.

Lemma chosen_one x : chosen [x] = if P x then [x] else [].
Proof. done. Qed.
Lemma others_one x : others [x] = if P x then [] else [x].
Proof. unfold others. cbn. by destruct (P x). Qed.

Lemma all_chosen_app a b : all_chosen (a ++ b) ↔ all_chosen a ∧ all_chosen b.
Proof. unfold all_chosen. rewrite <- !(Forall_forall (λ z, P z = true)). apply Forall_app. Qed.
Lemma none_chosen_app a b : none_chosen (a ++ b) ↔ none_chosen a ∧ none_chosen b.
Proof. unfold none_chosen. rewrite <- !(Forall_forall (λ z, P z = false)). apply Forall_app. Qed.
Lemma all_chosen_cons x a : all_chosen (x :: a) ↔ P x = true ∧ all_chosen a.
Proof. unfold all_chosen. rewrite <- !(Forall_forall (λ z, P z = true)). by rewrite Forall_cons. Qed.
Lemma none_chosen_cons x a : none_chosen (x :: a) ↔ P x = false ∧ none_chosen a.
Proof. unfold none_chosen. rewrite <- !(Forall_forall (λ z, P z = false)). by rewrite Forall_cons. Qed.
Lemma all_chosen_nil : all_chosen [].
Proof. by intros ? ?%elem_of_nil. Qed.
Lemma none_chosen_nil : none_chosen [].
Proof. by intros ? ?%elem_of_nil. Qed.
Lemma all_chosen_snoc a x : all_chosen a → P x = true → all_chosen (a ++ [x]).
Proof. intros. rewrite all_chosen_app, all_chosen_cons. auto using all_chosen_nil. Qed.
Lemma none_chosen_snoc a x : none_chosen a → P x = false → none_chosen (a ++ [x]).
Proof. intros. rewrite none_chosen_app, none_chosen_cons. auto using none_chosen_nil. Qed.
End Filters.

#[export] Hint Resolve all_chosen_nil none_chosen_nil all_chosen_snoc none_chosen_snoc : seg.

(** What a search that is found leaves: the prefix, and the value that stopped it. *)
Lemma found_cases {A} (P : A → bool) first xs r :
  found P first xs r →
  none_chosen P xs ∧ r = first + zlen xs ∨
  ∃ a h b, xs = a ++ h :: b ∧ none_chosen P a ∧ P h = true ∧ r = first + zlen a.
Proof.
  intros (a & b & [-> Ha] & -> & Hh). destruct b as [|h b].
  - left. by rewrite app_nil_r.
  - right. exists a, h, b. by specialize (Hh h b eq_refl).
Qed.

(** The position of the first value that satisfies [P], or the length. *)
Fixpoint find_index {A} (P : A → bool) (xs : list A) : Z :=
  match xs with
  | [] => 0
  | x :: xs => if P x then 0 else 1 + find_index P xs
  end.

Lemma find_index_app {A} (P : A → bool) a b :
  none_chosen P a → find_index P (a ++ b) = zlen a + find_index P b.
Proof.
  induction a as [|x a IH]; intros Ha; [done|]. apply none_chosen_cons in Ha as [Hx Ha].
  cbn [app find_index]. rewrite Hx, IH by done. zlia.
Qed.

Lemma found_index {A} (P : A → bool) first xs r : found P first xs r → r = first + find_index P xs.
Proof.
  intros [ [Hn ->]|(a & h & b & -> & Ha & Hh & ->)]%found_cases.
  - rewrite <- (app_nil_r xs) at 2. rewrite find_index_app by done. cbn. lia.
  - rewrite find_index_app by done. cbn [find_index]. rewrite Hh. lia.
Qed.

Section PartitionTheory.
Context {A : Type} (P : A → bool).
Local Abbreviation arr := (list (option A)).
Implicit Types l : arr.
Implicit Types xs a b : list A.

Lemma __remove_if_spec category first last xs l0 :
  last = first + zlen xs → seg l0 first xs →
  wpr (__remove_if category P first last) (λ r l, r = first + zlen (others P xs) ∧
    seg l first (others P xs) ∧ changed (λ i, first <= i < first + zlen xs) l0 l) l0.
Proof.
  intros -> Hs. apply wpr_bind.
  eapply wpr_mono; [by apply (__find_if_spec P _ (_Iter_pred_tests P))|].
  intros r l [-> [ [Hn ->]|(a & h & b & -> & Ha & Hh & ->)]%found_cases].
  { rewrite Z.eqb_refl. apply wpr_ret. by rewrite (proj2 (none_chosen_filter P _ Hn)). }
  rewrite (proj2 (Z.eqb_neq _ _)) by zlia.
  pose proof (seg_range _ _ _ Hs ltac:(zlia)). pose proof Hs as [H1 [Hx H2]%seg_cons]%seg_app.
  assert (others P (a ++ h :: b) = a ++ others P b) as ->.
  { rewrite others_app, (proj2 (none_chosen_filter P _ Ha)). f_equal. unfold others. cbn. by rewrite Hh. }
  apply (wpr_while (λ '(f, r) l, ∃ c d, b = c ++ d ∧ f = first + zlen a + 1 + zlen c ∧
    r = first + zlen (a ++ others P c) ∧ seg l first (a ++ others P c) ∧ seg l f d ∧
    changed (λ i, first <= i < first + zlen (a ++ h :: b)) l0 l)
    (λ '(f, _), first + zlen (a ++ h :: b) - f)).
  - intros [f r] l (c & d & -> & -> & -> & Hk & Hd & C).
    pose proof (filters_zlen P c). split; [zlia|]. destruct d as [|x d].
    { rewrite (proj2 (Z.eqb_eq _ _)) by zlia. rewrite !app_nil_r in *. by apply wpr_ret. }
    rewrite (proj2 (Z.eqb_neq _ _)) by zlia. apply seg_cons in Hd as [Hd0 Hd].
    apply wpr_bind, (_Iter_pred_tests P _ _ _ _ Hd0).
    destruct (P x) eqn:E; cbn [negb].
    + apply wpr_ret. split; [|zlia]. exists (c ++ [x]), d. rewrite others_app, others_one, E, app_nil_r.
      split_and!; [by rewrite <- app_assoc|zlia|done|done|seg_place|done].
    + apply (wpr_transfer _ _ _ x); [done|zlia|zlia|]. intros l' C' Hx'. apply wpr_ret. split; [|zlia].
      exists (c ++ [x]), d. rewrite others_app, others_one, E, app_assoc, (seg_app _ _ _ [x]), seg_one.
      split_and!; [by rewrite <- app_assoc|zlia|zlia|seg_frame|done|seg_frame|changes].
  - exists [], b. rewrite app_nil_r. split_and!; [done|zlia|done|done|seg_place|done].
  - apply seg_within in Hs. zlia.
Qed.

(** ** [std::partition] *)

(** The values that satisfy [P] come first, up to [r]. *)
Definition split_at first xs l0 (r : Z) l : Prop :=
  ∃ a b, a ++ b ≡ₚ xs ∧ all_chosen P a ∧ none_chosen P b ∧ r = first + zlen a ∧
  seg l first (a ++ b) ∧ changed (λ i, first <= i < first + zlen xs) l0 l.

(** The state of the forward partition: [a] satisfies [P], [b] does not, [c] is to be
    looked at. *)
Definition sifting first xs l0 a b c l : Prop :=
  a ++ b ++ c ≡ₚ xs ∧ all_chosen P a ∧ none_chosen P b ∧ seg l first (a ++ b ++ c) ∧
  changed (λ i, first <= i < first + zlen xs) l0 l.

Lemma sifting_zlen first xs l0 a b c l :
  sifting first xs l0 a b c l → zlen xs = zlen a + zlen b + zlen c.
Proof. intros (E%zlen_perm & _). zlia. Qed.

Lemma sifting_swap first xs l0 a y b h c (Q : unit → arr → Prop) l :
  sifting first xs l0 a (y :: b) (h :: c) l → P h = true →
  (∀ l', sifting first xs l0 (a ++ [h]) (b ++ [y]) c l' → Q tt l') →
  wpr (iter_swap (first + zlen a) (first + zlen a + 1 + zlen b)) Q l.
Proof.
  intros Hst Hh HQ. pose proof (sifting_zlen _ _ _ _ _ _ _ Hst).
  destruct Hst as (Hp & Ha & [Hy Hb]%none_chosen_cons & Hs & C).
  apply seg_app in Hs as [H1 [ [Hy0 H2]%seg_cons [Hh0 H3]%seg_cons]%seg_app].
  apply (wpr_exchange _ _ y h); [done| |zlia|].
  { by replace (first + zlen a + 1 + zlen b) with (first + zlen a + zlen (y :: b)) by zlia. }
  intros l' C' Hi Hj. apply HQ. split_and!.
  - rewrite <- Hp. rewrite <- !app_assoc. f_equiv. cbn [app].
    rewrite <- (Permutation_middle b c y), <- (Permutation_middle b c h). apply perm_swap.
  - auto with seg.
  - auto with seg.
  - rewrite !seg_app, !seg_one.
    split_and!; [seg_frame|done|seg_frame| |seg_frame].
    by replace (first + zlen (a ++ [h]) + zlen b) with (first + zlen a + 1 + zlen b) by zlia.
  - changes.
Qed.

(** The second loop of the forward partition. *)
Lemma sift_spec first xs l0 a y b c l1 :
  sifting first xs l0 a (y :: b) c l1 →
  wpr (while (λ '(first', next),
      let next := next + 1 in
      if next =? first + zlen xs then mret (inr first')
      else
        b ← _Iter_pred P next;
        if b : bool then
          iter_swap first' next;;
          mret (inl (first' + 1, next))
        else mret (inl (first', next))) (first + zlen a, first + zlen a + zlen b))
    (split_at first xs l0) l1.
Proof.
  intros H1. apply (wpr_while (λ '(f, n) l, ∃ a y b c, sifting first xs l0 a (y :: b) c l ∧
    f = first + zlen a ∧ n = f + zlen b) (λ '(_, n), first + zlen xs - n)).
  - clear. intros [f n] l (a & y & b & c & Hst & -> & ->).
    pose proof (sifting_zlen _ _ _ _ _ _ _ Hst). split; [zlia|]. cbv zeta. destruct c as [|h c].
    { rewrite (proj2 (Z.eqb_eq _ _)) by zlia. destruct Hst as (Hp & Ha & Hb & Hs & C).
      rewrite app_nil_r in *. apply wpr_ret. by exists a, (y :: b). }
    rewrite (proj2 (Z.eqb_neq _ _)) by zlia.
    pose proof Hst as (Hp & Ha & Hb & Hs & C). pose proof Hs as [_ [_ [Hh _]%seg_cons]%seg_app]%seg_app.
    replace (first + zlen a + zlen (y :: b)) with (first + zlen a + zlen b + 1) in Hh by zlia.
    apply wpr_bind, (_Iter_pred_tests P _ _ _ _ Hh). destruct (P h) eqn:E.
    + replace (first + zlen a + zlen b + 1) with (first + zlen a + 1 + zlen b) by lia.
      apply wpr_bind, (sifting_swap _ _ _ _ _ _ _ _ _ _ Hst E). clear. intros l Hst. apply wpr_ret.
      split; [|lia]. destruct b as [|y' b].
      * exists (a ++ [h]), y, [], c. split_and!; [done|zlia|zlia].
      * exists (a ++ [h]), y', (b ++ [y]), c. split_and!; [done|zlia|zlia].
    + apply wpr_ret. split; [|lia]. exists a, y, (b ++ [h]), c.
      split_and!; [|done|zlia]. unfold sifting. rewrite app_comm_cons in *.
      rewrite <- (app_assoc (y :: b)). split_and!; [done|done|auto with seg|done|done].
  - by exists a, y, b, c.
  - pose proof (sifting_zlen _ _ _ _ _ _ _ H1). destruct H1 as (_ & _ & _ & Hs & _).
    apply seg_within in Hs. zlia.
Qed.

Lemma __partition_forward_spec first last xs l0 :
  last = first + zlen xs → seg l0 first xs →
  wpr (__partition_forward P first last) (split_at first xs l0) l0.
Proof.
  intros -> Hs. unfold __partition_forward. destruct (Z.eqb_spec first (first + zlen xs)).
  { assert (xs = []) as -> by (apply zlen_zero; lia). apply wpr_ret. exists [], [].
    split_and!; [done|auto with seg|auto with seg|zlia|done|done]. }
  apply wpr_bind. apply (wpr_while (λ f l, l = l0 ∧ ∃ a h b, xs = a ++ h :: b ∧ all_chosen P a ∧
    f = first + zlen a) (λ f, first + zlen xs - f)).
  - intros f l [-> (a & h & b & -> & Ha & ->)]. split; [zlia|].
    pose proof Hs as [_ [Hh _]%seg_cons]%seg_app.
    apply wpr_bind, (_Iter_pred_tests P _ _ _ _ Hh), wpr_ret. destruct (P h) eqn:E.
    + assert (all_chosen P (a ++ [h])) by auto with seg.
      destruct (Z.eqb_spec (first + zlen a + 1) (first + zlen (a ++ h :: b))).
      * assert (b = []) as -> by (apply zlen_zero; zlia). apply wpr_ret.
        exists (a ++ [h]), []. rewrite app_nil_r. split_and!; [done|done|auto with seg|zlia|done|done].
      * destruct b as [|h2 b]; [zlia|]. split; [|lia]. split; [done|]. exists (a ++ [h]), h2, b.
        split_and!; [by rewrite <- app_assoc|done|zlia].
    + pose proof (sift_spec first (a ++ h :: b) l0 a h [] b l0) as Hw.
      rewrite zlen_nil, Z.add_0_r in Hw. apply Hw.
      split_and!; [done|done| |done|done]. rewrite none_chosen_cons. auto with seg.
  - split; [done|]. destruct (zlen_first xs) as (h & b & ->); [zlia|]. exists [], h, b.
    split_and!; [done|auto with seg|zlia].
  - apply seg_within in Hs. lia.
Qed.

(** The inner loops of the partition for bidirectional iterators. *)
Lemma partition_up_spec f la m l :
  la = f + zlen m → seg l f m →
  wpr (partition_up P f la) (λ r l', l' = l ∧ match r with
    | inr r => r = la ∧ all_chosen P m
    | inl f' => ∃ m1 h m2, m = m1 ++ h :: m2 ∧ f' = f + zlen m1 ∧ all_chosen P m1 ∧ P h = false
    end) l.
Proof.
  intros -> Hs. apply (wpr_while (λ f' l', l' = l ∧ ∃ m1 m2, m = m1 ++ m2 ∧ f' = f + zlen m1 ∧
    all_chosen P m1) (λ f', f + zlen m - f')).
  - intros f' l' [-> (m1 & m2 & -> & -> & Hm)]. split; [zlia|]. destruct m2 as [|h m2].
    { rewrite (proj2 (Z.eqb_eq _ _)) by zlia. apply wpr_ret. rewrite app_nil_r. done. }
    rewrite (proj2 (Z.eqb_neq _ _)) by zlia. pose proof Hs as [_ [Hh _]%seg_cons]%seg_app.
    apply wpr_bind, (_Iter_pred_tests P _ _ _ _ Hh), wpr_ret. destruct (P h) eqn:E.
    + split; [|lia]. split; [done|]. exists (m1 ++ [h]), m2.
      split_and!; [by rewrite <- app_assoc|zlia|auto with seg].
    + split; [done|]. by exists m1, h, m2.
  - split; [done|]. exists [], m. split_and!; [done|zlia|auto with seg].
  - apply seg_within in Hs. lia.
Qed.

Lemma partition_down_spec f h m la l :
  la = f + zlen m → seg l f (h :: m) →
  wpr (partition_down P f la) (λ r l', l' = l ∧ match r with
    | inr r => r = f ∧ none_chosen P m
    | inl la' => ∃ m1 k m2, m = m1 ++ k :: m2 ∧ la' = f + 1 + zlen m1 ∧ P k = true ∧ none_chosen P m2
    end) l.
Proof.
  intros -> Hs. apply (wpr_while (λ la' l', l' = l ∧ ∃ m1 m2, m = m1 ++ m2 ∧ la' = f + zlen m1 ∧
    none_chosen P m2) (λ la', la' - f)).
  - intros la' l' [-> (m1 & m2 & -> & -> & Hm)]. split; [zlia|].
    destruct (Z.eqb_spec f (f + zlen m1)).
    { assert (m1 = []) as -> by (apply zlen_zero; lia). by apply wpr_ret. }
    destruct (zlen_last m1) as (m3 & k & ->); [zlia|].
    pose proof Hs as [_ [ [_ Hk]%seg_app _]%seg_app]%seg_cons. apply seg_one in Hk.
    replace (f + zlen (m3 ++ [k])) with (f + 1 + zlen m3) by zlia.
    apply wpr_bind, (_Iter_pred_tests P _ _ _ _ Hk), wpr_ret. destruct (P k) eqn:E; cbn [negb].
    + split; [done|]. exists m3, k, m2. by rewrite <- app_assoc.
    + split; [|zlia]. split; [done|]. exists m3, (k :: m2).
      split_and!; [by rewrite <- app_assoc|lia|]. by apply none_chosen_cons.
  - split; [done|]. exists m, []. split_and!; [by rewrite app_nil_r|done|auto with seg].
  - apply seg_within in Hs. zlia.
Qed.

Lemma __partition_bidirectional_spec first last xs l0 :
  last = first + zlen xs → seg l0 first xs →
  wpr (__partition_bidirectional P first last) (split_at first xs l0) l0.
Proof.
  intros -> Hs. apply (wpr_while (λ '(f, la) l, ∃ a m b, a ++ m ++ b ≡ₚ xs ∧ all_chosen P a ∧
    none_chosen P b ∧ f = first + zlen a ∧ la = f + zlen m ∧ seg l first (a ++ m ++ b) ∧
    changed (λ i, first <= i < first + zlen xs) l0 l) (λ '(f, la), la - f)).
  - intros [f la] l (a & m & b & Hp & Ha & Hb & -> & -> & Hl & C). split; [zlia|].
    pose proof (zlen_perm _ _ Hp). pose proof Hl as [H1 [H2 H3]%seg_app]%seg_app.
    apply wpr_bind. eapply wpr_mono; [by apply (partition_up_spec _ _ m)|].
    intros [f'|r] l' [-> Hr].
    2:{ destruct Hr as [-> Hm]. apply wpr_ret. exists (a ++ m), b. rewrite <- app_assoc.
        split_and!; [done|by apply all_chosen_app|done|zlia|done|done]. }
    destruct Hr as (m1 & h & m' & -> & -> & Hm1 & Hh). apply seg_app in H2 as [H21 H22].
    apply wpr_bind. eapply wpr_mono; [apply (partition_down_spec _ h m'); [zlia|done]|].
    intros [la'|r] l' [-> Hr].
    2:{ destruct Hr as [-> Hm]. apply wpr_ret. exists (a ++ m1), (h :: m' ++ b). simplify_list_eq.
        split_and!; [done|by apply all_chosen_app| |zlia|done|done].
        by rewrite none_chosen_cons, none_chosen_app. }
    destruct Hr as (m2 & k & m3 & -> & -> & Hk & Hm3).
    apply seg_cons in H22 as [Hh0 [H23 [Hk0 H24]%seg_cons]%seg_app].
    apply wpr_bind, (wpr_exchange _ _ h k); [done|done|zlia|]. intros l' C' Hi Hj.
    apply wpr_ret. split; [|zlia]. exists (a ++ m1 ++ [k]), m2, (h :: m3 ++ b).
    split_and!; [| |by rewrite none_chosen_cons, none_chosen_app|zlia|zlia| |changes].
    + rewrite <- Hp. simplify_list_eq. do 2 f_equiv.
      rewrite <- (Permutation_middle m2 (m3 ++ b) h), <- (Permutation_middle m2 (m3 ++ b) k).
      apply perm_swap.
    + rewrite app_assoc. apply all_chosen_snoc; [by apply all_chosen_app|done].
    + rewrite !seg_app, seg_one, (seg_cons _ _ h), seg_app.
      split_and!; [seg_frame|seg_frame| |seg_frame| |seg_frame|seg_frame].
      * by replace (first + zlen a + zlen m1) with (first + zlen a + zlen m1) by zlia.
      * by replace (first + zlen (a ++ m1 ++ [k]) + zlen m2) with (first + zlen a + zlen m1 + 1 + zlen m2) by zlia.
  - exists [], xs, []. rewrite app_nil_r. split_and!; [done|auto with seg|auto with seg|zlia|done|done|done].
  - apply seg_within in Hs. lia.
Qed.

Lemma partition_spec category first last xs l0 :
  last = first + zlen xs → seg l0 first xs →
  wpr (partition category P first last) (split_at first xs l0) l0.
Proof.
  destruct category; [apply __partition_forward_spec|apply __partition_bidirectional_spec..].
Qed.

(** ** [std::stable_partition] *)

(** The range holds the values that satisfy [P], then the others, each in their order. *)
Definition split_stably (R : Z → Prop) first xs l0 (r : Z) l : Prop :=
  r = first + zlen (chosen P xs) ∧ seg l first (chosen P xs ++ others P xs) ∧
  changed (λ i, R i ∨ first <= i < first + zlen xs) l0 l.

Lemma partition_with_buffer_spec first last buffer bs h xs l0 :
  last = first + zlen (h :: xs) → seg l0 first (h :: xs) → P h = false → zlen (h :: xs) <= bs →
  buffer_ok buffer bs first (zlen (h :: xs)) l0 →
  wpr (partition_with_buffer P first last buffer)
    (split_stably (λ i, buffer <= i < buffer + bs) first (h :: xs) l0) l0.
Proof.
  intros -> Hs Hh ? (? & ? & ? & Ha). unfold apart in Ha. pose proof (seg_range _ _ _ Hs ltac:(zlia)).
  pose proof Hs as [Hh0 Hx]%seg_cons.
  apply (wpr_transfer _ _ _ h); [done|zlia|zlia|]. intros l1 C1 Hb1. apply wpr_bind.
  apply (wpr_while (λ '(f, r1, r2) l, ∃ c d, xs = c ++ d ∧ f = first + 1 + zlen c ∧
    r1 = first + zlen (chosen P c) ∧ r2 = buffer + 1 + zlen (others P c) ∧
    seg l first (chosen P c) ∧ seg l buffer (h :: others P c) ∧ seg l f d ∧
    changed (λ i, buffer <= i < buffer + bs ∨ first <= i < first + zlen (h :: xs)) l0 l)
    (λ '(f, _, _), first + zlen (h :: xs) - f)).
  - clear C1 Hb1 l1. intros [ [f r1] r2] l (c & d & -> & -> & -> & -> & Hc & Ho & Hd & C).
    pose proof (filters_zlen P c). split; [zlia|]. destruct d as [|x d].
    + rewrite (proj2 (Z.eqb_eq _ _)) by zlia. rewrite app_nil_r in *. apply wpr_ret, wpr_bind.
      eapply wpr_mono; [apply (move3_spec _ _ _ (h :: others P c)); zlia || done|].
      intros r l2 (_ & Hm & C2). apply wpr_ret.
      assert (chosen P (h :: c) = chosen P c ∧ others P (h :: c) = h :: others P c) as [Ec Eo].
      { unfold chosen, others. cbn. by rewrite Hh. }
      unfold split_stably. rewrite Ec, Eo. split_and!; [done| |changes].
      apply seg_app. split; [seg_frame|done].
    + rewrite (proj2 (Z.eqb_neq _ _)) by zlia. apply seg_cons in Hd as [Hx0 Hd].
      apply wpr_bind, (_Iter_pred_tests P _ _ _ _ Hx0). destruct (P x) eqn:E;
        (apply (wpr_transfer _ _ _ x); [done|zlia|zlia|]; intros l' C' Hr; apply wpr_ret;
         split; [|lia]; exists (c ++ [x]), d;
         rewrite chosen_app, others_app, chosen_one, others_one, E, app_nil_r;
         split_and!; [by rewrite <- app_assoc|zlia|zlia|zlia| | |seg_frame|changes]).
      * apply seg_app. split; [seg_frame|by apply seg_one].
      * seg_frame.
      * seg_frame.
      * rewrite app_comm_cons. apply seg_app. split; [seg_frame|].
        apply seg_one. by replace (buffer + zlen (h :: others P c)) with (buffer + 1 + zlen (others P c)) by zlia.
  - exists [], xs. change (chosen P []) with (@nil A). change (others P []) with (@nil A).
    split_and!; [done|zlia|zlia|zlia|done|by apply seg_one|seg_frame|changes].
  - apply seg_within in Hs. pose proof (changed_zlen _ _ _ C1). zlia.
Qed.

Lemma __find_if_not_n_spec first len xs l :
  len = zlen xs → seg l first xs →
  wpr (__find_if_not_n P first len) (λ r l', l' = l ∧ ∃ a b, xs = a ++ b ∧ all_chosen P a ∧
    (∀ h b', b = h :: b' → P h = false) ∧ r = (first + zlen a, zlen b)) l.
Proof.
  intros -> Hs. apply (wpr_while (λ '(f, n) l', l' = l ∧ ∃ a b, xs = a ++ b ∧ all_chosen P a ∧
    f = first + zlen a ∧ n = zlen b) snd).
  - intros [f n] l' [-> (a & b & -> & Ha & -> & ->)]. cbn [snd]. split; [zlia|]. destruct b as [|h b].
    { apply wpr_ret. split; [done|]. by exists a, []. }
    rewrite (proj2 (Z.eqb_neq _ _)) by zlia. pose proof Hs as [_ [Hh _]%seg_cons]%seg_app.
    apply wpr_bind, (_Iter_pred_tests P _ _ _ _ Hh), wpr_ret. destruct (P h) eqn:E.
    + split; [|cbn [snd]; lia]. split; [done|]. exists (a ++ [h]), b.
      split_and!; [by rewrite <- app_assoc|auto with seg|zlia|zlia].
    + split; [done|]. exists a, (h :: b). split_and!; [done|done| |done]. by intros ? ? [= <- _].
  - split; [done|]. exists [], xs. split_and!; [done|auto with seg|zlia|done].
  - cbn [snd]. by apply seg_within in Hs.
Qed.

(** Rotating the middle of two parts that have been split joins them. *)
Lemma join_splits `{Memory} category (R : Z → Prop) first xs ys l0 l (Q : Z → arr → Prop) :
  seg l first (chosen P xs ++ others P xs) →
  seg l (first + zlen xs) (chosen P ys ++ others P ys) →
  changed (λ i, R i ∨ first <= i < first + zlen xs + zlen ys) l0 l →
  (∀ r l', split_stably R first (xs ++ ys) l0 r l' → Q r l') →
  wpr (std_rotate category is_pod (first + zlen (chosen P xs)) (first + zlen xs)
         (first + zlen xs + zlen (chosen P ys));;
       mret (first + zlen (chosen P xs) + (first + zlen xs + zlen (chosen P ys) - (first + zlen xs))))
    Q l.
Proof.
  intros [H1 H2]%seg_app [H3 H4]%seg_app C HQ.
  pose proof (filters_zlen P xs). pose proof (filters_zlen P ys).
  apply wpr_bind. eapply wpr_mono.
  { apply (std_rotate_spec _ _ _ _ _ (others P xs) (chosen P ys)); zlia || done. }
  intros r l' (_ & Hs & C'). apply wpr_ret, HQ. unfold split_stably. rewrite chosen_app, others_app.
  split_and!; [zlia| |].
  - rewrite <- !app_assoc, (seg_app _ _ (chosen P xs)), app_assoc, (seg_app _ _ (chosen P ys ++ _)).
    split_and!; [seg_frame|done|seg_frame].
  - apply (changed_trans _ _ l).
    + apply (changed_mono _ _ _ _ C). intros i [?|?]; [by left|right; zlia].
    + apply (changed_mono _ _ _ _ C'). intros i ?. right. zlia.
Qed.

(** A part that begins with chosen values: splitting the rest of it is enough. *)
Lemma split_rest_spec (R : Z → Prop) first a b (m : M arr Z) l :
  all_chosen P a → seg l first (a ++ b) → (∀ i, R i → ¬ (first <= i < first + zlen a)) →
  (b ≠ [] → wpr m (split_stably R (first + zlen a) b l) l) →
  wpr (if negb (zlen b =? 0) then m else mret (first + zlen a)) (split_stably R first (a ++ b) l) l.
Proof.
  intros Ha Hs HR Hm. unfold split_stably. rewrite chosen_app, others_app.
  destruct (all_chosen_filter P a Ha) as [-> ->]. rewrite app_nil_l.
  destruct (Z.eqb_spec (zlen b) 0); cbn [negb].
  - assert (b = []) as -> by (apply zlen_zero; lia). apply wpr_ret.
    change (chosen P []) with (@nil A). change (others P []) with (@nil A). rewrite !app_nil_r in *. done.
  - eapply wpr_mono; [apply Hm; by intros ->|]. intros r l' (-> & Hb & C). split_and!; [zlia| |].
    + rewrite <- app_assoc. apply seg_app. split; [|done]. apply seg_app in Hs as [Hs _].
      apply (changed_seg _ _ _ _ _ C Hs). intros i ? [Hi|?]; [by apply HR in Hi|lia].
    + apply (changed_mono _ _ _ _ C). intros i [?|?]; [by left|right; zlia].
Qed.

Lemma stable_partition_adaptive_n_spec `{Memory} category depth first last len buffer bs h xs l0 :
  last = first + zlen (h :: xs) → len = zlen (h :: xs) → seg l0 first (h :: xs) → P h = false →
  buffer_ok buffer bs first (zlen (h :: xs)) l0 → zlen (h :: xs) < Z.of_nat depth →
  wpr (stable_partition_adaptive_n category P depth first last len buffer bs)
    (split_stably (λ i, buffer <= i < buffer + bs) first (h :: xs) l0) l0.
Proof.
  revert first last len h xs l0.
  induction depth as [|depth IH]; intros first last len h xs l0 -> -> Hs Hh Hb Hd; [zlia|].
  cbn [stable_partition_adaptive_n]. destruct (Z.eqb_spec (zlen (h :: xs)) 1).
  { assert (xs = []) as -> by (apply zlen_zero; zlia). apply wpr_ret. unfold split_stably.
    rewrite chosen_one, others_one, Hh. split_and!; [zlia|done|done]. }
  destruct (Z.leb_spec (zlen (h :: xs)) bs); [by apply partition_with_buffer_spec|].
  pose proof (half_bounds (zlen (h :: xs)) ltac:(zlia)).
  set (half := cdiv (zlen (h :: xs)) 2) in *. clearbody half. cbv zeta.
  destruct (zlen_split (h :: xs) half) as (xs1 & xs2 & E & <- & E2); [lia|].
  destruct xs1 as [|h' xs1]; [zlia|]. injection E as <- ->.
  change (h :: xs1 ++ xs2) with ((h :: xs1) ++ xs2) in *. set (ys := h :: xs1) in *.
  pose proof Hs as [Hs1 Hs2]%seg_app. apply wpr_bind. pose proof (filters_zlen P ys).
  pose proof Hb as (_ & _ & _ & Hap). unfold apart in Hap. pose proof (zlen_app ys xs2).
  eapply wpr_mono; [apply (IH _ _ _ h xs1)|]; [done|done|done|done| |unfold ys in *; zlia|].
  { apply (buffer_ok_sub _ _ _ _ _ _ _ _ Hb); unfold ys; zlia. }
  intros ls l1 (-> & Hl1 & C1). fold ys in Hl1, C1 |- *.
  assert (seg l1 (first + zlen ys) xs2) as Hs2' by seg_frame. clear Hs2. rename Hs2' into Hs2.
  apply wpr_bind. eapply wpr_mono.
  { by apply (__find_if_not_n_spec _ _ xs2); [lia|]. }
  intros [rs rl] l [-> (a & b & -> & Ha & Hb' & [= -> ->])]. apply wpr_bind.
  eapply wpr_mono; [apply (split_rest_spec (λ i, buffer <= i < buffer + bs)); [done|done|intros; zlia|]|].
  { intros Hne. destruct b as [|h2 b]; [done|]. pose proof Hs2 as [_ Hs3]%seg_app.
    apply (IH _ _ _ h2 b); [zlia|done|done|by eapply Hb'| |unfold ys in *; zlia].
    apply (buffer_ok_sub _ _ _ _ _ _ _ _ Hb); zlia. }
  intros rs l2 (-> & Hl2 & C2).
  assert (seg l2 first (chosen P ys ++ others P ys)) by seg_frame.
  apply (join_splits category (λ i, buffer <= i < buffer + bs) first ys (a ++ b) l0 l2); [done|done|changes|done].
Qed.

(** With the buffer that the memory grants, if any. *)
Lemma partition_buffered_spec `{Memory} category first last h xs l0 :
  last = first + zlen (h :: xs) → seg l0 first (h :: xs) → P h = false → 1 <= size_of →
  wpr (buf ← new_Temporary_buffer first last;
       r ← __stable_partition_adaptive category P first last (_M_original_len buf)
             (default 0 (_M_buffer buf)) (_M_len buf);
       delete_Temporary_buffer buf;;
       mret r) (split_stably (λ _, False) first (h :: xs) l0) l0.
Proof.
  intros -> Hs Hh ?. pose proof (seg_range _ _ _ Hs ltac:(zlia)). apply wpr_bind.
  eapply wpr_mono; [by apply (new_Temporary_buffer_spec _ _ (h :: xs))|].
  unfold delete_Temporary_buffer. intros buf l [-> [(-> & -> & ->)|(-> & ? & He)]]; cbn [from_option id]; apply wpr_bind.
  - eapply wpr_mono.
    { apply (stable_partition_adaptive_n_spec category _ _ _ _ _ _ h xs); [done..| |].
      - unfold buffer_ok, apart. zlia.
      - unfold zlen in *. lia. }
    intros r l (-> & Hr & C). apply wpr_bind, wpr_ret, wpr_ret. split_and!; [done|done|].
    apply (changed_mono _ _ _ _ C). intros i ?. right. lia.
  - pose proof (extends_seg _ _ _ _ _ He Hs). pose proof He as [El _]. eapply wpr_mono.
    { apply (stable_partition_adaptive_n_spec category _ _ _ _ _ _ h xs); [done..| |].
      - unfold buffer_ok, apart. zlia.
      - unfold zlen in *. lia. }
    intros r l' (-> & Hr & C). apply wpr_bind. pose proof (filters_zlen P (h :: xs)).
    split_and!; [done|apply seg_truncate; [done|zlia]|].
    eapply changed_mono; [eapply changed_truncate; [|exact He|exact C]; lia|]. intros. by right.
Qed.

Lemma stable_partition_spec `{Memory} category first last xs l0 :
  last = first + zlen xs → seg l0 first xs → 1 <= size_of →
  wpr (stable_partition category P first last) (split_stably (λ _, False) first xs l0) l0.
Proof.
  intros -> Hs ?. apply wpr_bind.
  eapply wpr_mono; [by apply (__find_if_spec _ _ (_Iter_negate_tests P))|].
  intros r l [-> [ [Hn ->]|(a & h & b & -> & Ha & Hh & ->)]%found_cases].
  - rewrite Z.eqb_refl. apply wpr_ret.
    destruct (all_chosen_filter P xs) as [Ec Eo].
    { intros z Hz. by apply negb_false_iff, Hn. }
    unfold split_stably. rewrite Ec, Eo, app_nil_r. done.
  - rewrite (proj2 (Z.eqb_neq _ _)) by zlia.
    assert (all_chosen P a) as Ha' by (intros z Hz; by apply negb_false_iff, Ha).
    pose proof (split_rest_spec (λ _, False) first a (h :: b)) as Hrest.
    rewrite (proj2 (Z.eqb_neq _ _)) in Hrest by zlia. apply Hrest; [done|done|done|]. intros _.
    apply seg_app in Hs as [_ Hs]. apply partition_buffered_spec; [zlia|done| |done].
    by apply negb_true_iff.
Qed.
End PartitionTheory.

(** * The functions on arrays given by their values *)

Section Functions.
Context {A : Type} (P : A → bool).
Implicit Types pre post : list (option A).

(** C26: [std::stable_partition] is a pair of filters, whatever memory it gets: it
    ends with the values that satisfy the predicate first and the others after
    them, each group in the order it had, changes nothing else, and returns the
    position where the others begin, for every kind of iterators, of objects and
    every behaviour of [operator new]. *)
Theorem stable_partition_filters (mem : Memory) category pre post xs :
  1 <= size_of →
  stable_partition category P (zlen pre) (zlen pre + zlen xs) (pre ++ (Some <$> xs) ++ post) =
  Some (zlen pre + zlen (chosen P xs), pre ++ (Some <$> chosen P xs ++ others P xs) ++ post).
Proof.
  intros Hm. destruct (wpr_run _ _ _ (stable_partition_spec P category _ _ xs _ eq_refl
    (seg_middle pre post xs) Hm)) as (r & l' & -> & -> & Hs & C).
  pose proof (filters_zlen P xs). f_equal. f_equal.
  apply (changed_middle _ _ xs); [changes|zlia|done].
Qed.

(** [std::partition] puts the values that satisfy the predicate first, and returns
    where they end. *)
Lemma partition_splits category pre post xs :
  ∃ a b, a ++ b ≡ₚ xs ∧ all_chosen P a ∧ none_chosen P b ∧
  partition category P (zlen pre) (zlen pre + zlen xs) (pre ++ (Some <$> xs) ++ post) =
  Some (zlen pre + zlen a, pre ++ (Some <$> a ++ b) ++ post).
Proof.
  destruct (wpr_run _ _ _ (partition_spec P category _ _ xs _ eq_refl (seg_middle pre post xs)))
    as (r & l' & -> & a & b & Hp & Ha & Hb & -> & Hs & C).
  exists a, b. split_and!; [done|done|done|]. f_equal. f_equal.
  apply (changed_middle _ _ xs); [done|by apply zlen_perm|done].
Qed.

(** [std::find_if] finds the first value that satisfies the predicate: the
    search that tests four elements in a turn and the rest in a [switch] that
    falls through, and the plain one, both end at the position of that value, or
    at the end, and read no cell outside the range. *)
Theorem find_if_finds category pre post xs :
  __find_if (_Iter_pred P) category (zlen pre) (zlen pre + zlen xs) (pre ++ (Some <$> xs) ++ post) =
  Some (zlen pre + find_index P xs, pre ++ (Some <$> xs) ++ post).
Proof.
  destruct (wpr_run _ _ _ (__find_if_spec P _ (_Iter_pred_tests P) category _ _ xs _ eq_refl
    (seg_middle pre post xs))) as (r & l & -> & -> & Hr).
  by rewrite (found_index P _ _ _ Hr).
Qed.
End Functions.

Lemma stable_partition_filters_witness :
  let mem := {| new_refuses n := 8 <? n; size_of := 4; is_pod := true; has_trivial_constructor := false |} in
  stable_partition forward_iterator_tag Z.even 0 5 (Some <$> [2; 1; 4; 3; 6]) =
  Some (3, Some <$> [2; 4; 6; 1; 3]).
Proof.
  intros mem. exact (stable_partition_filters Z.even mem forward_iterator_tag [] [] [2; 1; 4; 3; 6]
    ltac:(done)).
Defined.
