(* ===== verification/StlSets.v ===== *)
(** * Merging and set operations on sorted ranges, [bits/stl_algo.h]

    [std::merge], [std::includes] and the four set operations, which walk over two
    sorted ranges and copy to a third one. Ranges may hold equivalent values
    several times. The theorems: the functions end and read only their ranges; the
    result is sorted, and for each class of equivalent values the number of its
    members is the maximum, the minimum, the difference or the distance of the
    numbers in the two ranges; [std::includes] decides whether every class has
    enough members. *)
From stdpp Require Import base numbers list sorting.
From Stdlib Require Import ZArith Lia.
From S2P Require Import Prelude StlArray StlHeap StlSort StlSearch StlSeg StlRotate StlOrder.

Section Code.
Context {A : Type}.
Local Abbreviation arr := (list (option A)).
Variable comp : A → A → bool.

(** [*j = *i]. *)
Definition copy_cell (i j : Z) : M arr unit :=
  v ← deref i;
  assign j v.

(** [std::copy]: the loop counts [n] down from [last - first]. *)
Definition copy3 (first last result : Z) : M arr Z :=
  while (λ '(n, first, result),
    if 0 <? n then
      copy_cell first result;;
      mret (inl (n - 1, first + 1, result + 1))
    else mret (inr result)) (last - first, first, result).

Definition __merge (first1 last1 first2 last2 result : Z) : M arr Z :=
  r ← while (λ '(first1, first2, result),
    if negb (first1 =? last1) && negb (first2 =? last2) then
      b ← _Iter_comp_iter comp first2 first1;
      if b : bool then
        copy_cell first2 result;;
        mret (inl (first1, first2 + 1, result + 1))
      else
        copy_cell first1 result;;
        mret (inl (first1 + 1, first2, result + 1))
    else mret (inr (first1, first2, result))) (first1, first2, result);
  let '(first1, first2, result) := r in
  result ← copy3 first1 last1 result;
  copy3 first2 last2 result.

Definition __includes (first1 last1 first2 last2 : Z) : M arr bool :=
  while (λ '(first1, first2),
    if negb (first1 =? last1) && negb (first2 =? last2) then
      b ← _Iter_comp_iter comp first2 first1;
      if b : bool then mret (inr false)
      else
        b ← _Iter_comp_iter comp first1 first2;
        if b : bool then mret (inl (first1 + 1, first2))
        else mret (inl (first1 + 1, first2 + 1))
    else mret (inr (first2 =? last2))) (first1, first2).

Definition __set_union (first1 last1 first2 last2 result : Z) : M arr Z :=
  r ← while (λ '(first1, first2, result),
    if negb (first1 =? last1) && negb (first2 =? last2) then
      b ← _Iter_comp_iter comp first1 first2;
      if b : bool then
        copy_cell first1 result;;
        mret (inl (first1 + 1, first2, result + 1))
      else
        b ← _Iter_comp_iter comp first2 first1;
        if b : bool then
          copy_cell first2 result;;
          mret (inl (first1, first2 + 1, result + 1))
        else
          copy_cell first1 result;;
          mret (inl (first1 + 1, first2 + 1, result + 1))
    else mret (inr (first1, first2, result))) (first1, first2, result);
  let '(first1, first2, result) := r in
  result ← copy3 first1 last1 result;
  copy3 first2 last2 result.

Definition __set_intersection (first1 last1 first2 last2 result : Z) : M arr Z :=
  r ← while (λ '(first1, first2, result),
    if negb (first1 =? last1) && negb (first2 =? last2) then
      b ← _Iter_comp_iter comp first1 first2;
      if b : bool then
        mret (inl (first1 + 1, first2, result))
      else
        b ← _Iter_comp_iter comp first2 first1;
        if b : bool then
          mret (inl (first1, first2 + 1, result))
        else
          copy_cell first1 result;;
          mret (inl (first1 + 1, first2 + 1, result + 1))
    else mret (inr (first1, first2, result))) (first1, first2, result);
  let '(first1, first2, result) := r in
  mret result.

Definition __set_difference (first1 last1 first2 last2 result : Z) : M arr Z :=
  r ← while (λ '(first1, first2, result),
    if negb (first1 =? last1) && negb (first2 =? last2) then
      b ← _Iter_comp_iter comp first1 first2;
      if b : bool then
        copy_cell first1 result;;
        mret (inl (first1 + 1, first2, result + 1))
      else
        b ← _Iter_comp_iter comp first2 first1;
        if b : bool then
          mret (inl (first1, first2 + 1, result))
        else
          mret (inl (first1 + 1, first2 + 1, result))
    else mret (inr (first1, first2, result))) (first1, first2, result);
  let '(first1, first2, result) := r in
  copy3 first1 last1 result.

Definition __set_symmetric_difference (first1 last1 first2 last2 result : Z) : M arr Z :=
  r ← while (λ '(first1, first2, result),
    if negb (first1 =? last1) && negb (first2 =? last2) then
      b ← _Iter_comp_iter comp first1 first2;
      if b : bool then
        copy_cell first1 result;;
        mret (inl (first1 + 1, first2, result + 1))
      else
        b ← _Iter_comp_iter comp first2 first1;
        if b : bool then
          copy_cell first2 result;;
          mret (inl (first1, first2 + 1, result + 1))
        else
          mret (inl (first1 + 1, first2 + 1, result))
    else mret (inr (first1, first2, result))) (first1, first2, result);
  let '(first1, first2, result) := r in
  result ← copy3 first1 last1 result;
  copy3 first2 last2 result.

(** The element is copied and [result] advanced, or neither. *)
Definition output {B} (copies : bool) (i result : Z) (k : Z → M arr B) : M arr B :=
  if copies then copy_cell i result;; k (result + 1) else k result.

(** What the loops of the four operations have in common: [less], [greater] and [equal] tell in
    which of the three cases an element is copied. *)
Definition set_loop (less greater equal : bool) (first1 last1 first2 last2 result : Z) :
    M arr (Z * Z * Z) :=
  while (λ '(first1, first2, result),
    if negb (first1 =? last1) && negb (first2 =? last2) then
      b ← _Iter_comp_iter comp first1 first2;
      if b : bool then
        output less first1 result (λ result, mret (inl (first1 + 1, first2, result)))
      else
        b ← _Iter_comp_iter comp first2 first1;
        if b : bool then
          output greater first2 result (λ result, mret (inl (first1, first2 + 1, result)))
        else
          output equal first1 result (λ result, mret (inl (first1 + 1, first2 + 1, result)))
    else mret (inr (first1, first2, result))) (first1, first2, result).
End Code.

(** * Numbers of equivalent values *)

Section Counts.
Context {A : Type} (comp : A → A → bool) `{!StrictWeakOrder comp}.
Implicit Types xs ys : list A.
Local Notation "a ⊑ b" := (le comp a b) (at level 70).

(** How many values of [xs] are equivalent to [a]. *)
Definition number (a : A) xs : Z := zlen (List.filter (equivalent comp a) xs).

Lemma number_nonneg a xs : 0 <= number a xs.
Proof. apply zlen_nonneg. Qed.

Lemma number_app a xs ys : number a (xs ++ ys) = number a xs + number a ys.
Proof. unfold number. rewrite List.filter_app. zlia. Qed.

Lemma number_cons a x xs : number a (x :: xs) = (if equivalent comp a x then 1 else 0) + number a xs.
Proof. unfold number. cbn. destruct (equivalent comp a x); zlia. Qed.

Lemma number_nil a : number a [] = 0.
Proof. done. Qed.

Lemma number_zero a xs : (∀ x, x ∈ xs → equivalent comp a x = false) → number a xs = 0.
Proof.
  induction xs as [|x xs IH]; intros H; [done|]. rewrite number_cons, (H x) by (by left).
  rewrite IH; [done|]. intros y Hy. apply H. by right.
Qed.

(** Below the least value of a sorted list. *)
Lemma number_below a x y ys :
  equivalent comp a x = true → comp x y = true → in_order comp (y :: ys) → number a (y :: ys) = 0.
Proof.
  intros [Hax Hxa]%equivalent_le Hxy Hs. apply number_zero. intros z Hz.
  destruct (equivalent comp a z) eqn:E; [|done]. apply equivalent_le in E as [_ Hza].
  assert (y ⊑ x) as H; [|unfold le in H; congruence].
  etrans; [|exact Hax]. etrans; [|exact Hza].
  apply StronglySorted_cons in Hs as [Hf _]. apply elem_of_cons in Hz as [->|Hz]; [done|].
  by eapply Forall_forall in Hf.
Qed.

(** Equivalent values are in the same classes. *)
Lemma equivalent_same a x y :
  comp x y = false → comp y x = false → equivalent comp a x = equivalent comp a y.
Proof.
  intros Hxy Hyx. destruct (equivalent comp a y) eqn:E.
  - apply equivalent_le in E as [? ?]. apply equivalent_le. split; (etrans; [done|done]).
  - destruct (equivalent comp a x) eqn:E'; [|done]. rewrite <- E. symmetry.
    apply equivalent_le in E' as [? ?]. apply equivalent_le. split; (etrans; [done|done]).
Qed.

Lemma equivalent_refl a : equivalent comp a a = true.
Proof. by apply equivalent_le. Qed.
End Counts.

(** * The walk over two sorted ranges *)

Section Walk.
Context {A : Type} (comp : A → A → bool) `{!StrictWeakOrder comp}.
Local Abbreviation arr := (list (option A)).
Implicit Types l : arr.
Implicit Types X Y d xs ys : list A.

Lemma wpr_copy_cell {B} (m : M arr B) i j a Q l :
  holds l i a → 0 <= j < zlen l →
  (∀ l', changed (λ k, k = j) l l' → holds l' j a → wpr m Q l') → wpr (copy_cell i j;; m) Q l.
Proof.
  intros Ha Hj HQ. apply wpr_bind, wpr_bind, (wpr_deref _ _ _ _ Ha), wpr_assign; [done|].
  apply HQ; [apply changed_updZ; lia|by apply holds_updZ_eq].
Qed.

Lemma copy3_spec first last result xs l0 :
  last = first + zlen xs → seg l0 first xs → 0 <= result → result + zlen xs <= zlen l0 →
  result < first ∨ first + zlen xs <= result →
  wpr (copy3 first last result) (λ r l, r = result + zlen xs ∧ seg l result xs ∧
    changed (λ i, result <= i < result + zlen xs) l0 l) l0.
Proof.
  intros -> Hs Hr Hb Hd. apply (wpr_while (λ '(n, f, r) l, ∃ xs1 xs2,
    xs = xs1 ++ xs2 ∧ n = zlen xs2 ∧ f = first + zlen xs1 ∧ r = result + zlen xs1 ∧
    seg l result xs1 ∧ seg l f xs2 ∧
    changed (λ i, result <= i < result + zlen xs) l0 l) (λ '(n, _, _), n)).
  - intros [ [n f] r] l (xs1 & xs2 & -> & -> & -> & -> & H1 & H2 & C). split; [zlia|].
    destruct xs2 as [|x xs2].
    { rewrite app_nil_r in C |- *. by apply wpr_ret. }
    destruct (Z.ltb_spec 0 (zlen (x :: xs2))); [|zlia]. apply seg_cons in H2 as [Hx H2].
    apply (wpr_copy_cell _ _ _ x); [done|zlia|]. intros l' C' Hx'.
    apply wpr_ret. split; [|zlia]. exists (xs1 ++ [x]), xs2.
    split_and!; [by rewrite <- app_assoc|zlia..| |seg_frame|changes].
    apply seg_app. split; [seg_frame|by apply seg_one].
  - exists [], xs. split_and!; [done|zlia..|done|done|done].
  - zlia.
Qed.

(** How many members a class has in the result of an operation. *)
Definition combined (less greater equal : bool) (n1 n2 : Z) : Z :=
  (if equal then Z.min n1 n2 else 0) + (if less then n1 - Z.min n1 n2 else 0) +
  (if greater then n2 - Z.min n1 n2 else 0).

(** The state of the walk: [d] has been copied, [xs] and [ys] are left. *)
Definition walking (less greater equal : bool) X Y d xs ys : Prop :=
  in_order comp (d ++ xs) ∧ in_order comp (d ++ ys) ∧
  zlen d + zlen xs + zlen ys <= zlen X + zlen Y ∧ zlen xs <= zlen X ∧ zlen ys <= zlen Y ∧
  ∀ a, number comp a d + combined less greater equal (number comp a xs) (number comp a ys) =
       combined less greater equal (number comp a X) (number comp a Y).

Section Flags.
Variables less greater equal : bool.

Lemma walking_start X Y : in_order comp X → in_order comp Y → walking less greater equal X Y [] X Y.
Proof. intros. split_and!; [done|done|zlia|done|done|]. intros a. rewrite number_nil. lia. Qed.

Lemma in_order_tail d x xs : in_order comp (d ++ x :: xs) → in_order comp (d ++ xs).
Proof.
  unfold in_order. rewrite !StronglySorted_app, StronglySorted_cons. intros (H & Hd & _ & Hs).
  split_and!; [|done|done]. intros a b Ha Hb. apply H; [done|by right].
Qed.

(** Sums of numbers, when it is known whether [x] is equivalent to [a]. *)
Ltac numbers Ea :=
  match type of Ea with equivalent _ ?a ?x = _ =>
    destruct less, greater, equal;
    rewrite ?app_nil_r, ?(number_app comp a), ?(number_cons comp a x), ?Ea, ?number_nil;
    repeat match goal with
    | xs : list A |- _ =>
        lazymatch goal with
        | _ : 0 <= number comp a xs |- _ => fail
        | _ => pose proof (number_nonneg comp a xs)
        end
    end;
    unfold combined; lia
  end.

Lemma walking_less X Y d x xs y ys :
  walking less greater equal X Y d (x :: xs) (y :: ys) → comp x y = true →
  walking less greater equal X Y (d ++ if less then [x] else []) xs (y :: ys).
Proof.
  intros (Hx & Hy & H1 & H2 & H3 & Hn) E. split_and!.
  - destruct less; [by rewrite <- app_assoc|rewrite app_nil_r; by eapply in_order_tail].
  - destruct less; [|by rewrite app_nil_r].
    apply (in_order_insert comp); [by eapply in_order_head|done|by apply comp_le].
  - destruct less; zlia.
  - zlia.
  - done.
  - intros a. rewrite <- (Hn a). destruct (equivalent comp a x) eqn:Ea.
    + assert (number comp a (y :: ys) = 0) as -> by
        (eapply (number_below comp); [exact Ea|exact E|by apply StronglySorted_app_1_r in Hy]).
      numbers Ea.
    + numbers Ea.
Qed.

Lemma walking_greater X Y d x xs y ys :
  walking less greater equal X Y d (x :: xs) (y :: ys) → comp y x = true →
  walking less greater equal X Y (d ++ if greater then [y] else []) (x :: xs) ys.
Proof.
  intros (Hx & Hy & H1 & H2 & H3 & Hn) E. split_and!.
  - destruct greater; [|by rewrite app_nil_r].
    apply (in_order_insert comp); [by eapply in_order_head|done|by apply comp_le].
  - destruct greater; [by rewrite <- app_assoc|rewrite app_nil_r; by eapply in_order_tail].
  - destruct greater; zlia.
  - done.
  - zlia.
  - intros a. rewrite <- (Hn a). destruct (equivalent comp a y) eqn:Ea.
    + assert (number comp a (x :: xs) = 0) as -> by
        (eapply (number_below comp); [exact Ea|exact E|by apply StronglySorted_app_1_r in Hx]).
      numbers Ea.
    + numbers Ea.
Qed.

Lemma walking_equal X Y d x xs y ys :
  walking less greater equal X Y d (x :: xs) (y :: ys) → comp x y = false → comp y x = false →
  walking less greater equal X Y (d ++ if equal then [x] else []) xs ys.
Proof.
  intros (Hx & Hy & H1 & H2 & H3 & Hn) E E'. split_and!.
  - destruct equal; [by rewrite <- app_assoc|rewrite app_nil_r; by eapply in_order_tail].
  - destruct equal; [|rewrite app_nil_r; by eapply in_order_tail].
    apply (in_order_tail _ y). apply (in_order_insert comp); [by eapply in_order_head|done|done].
  - destruct equal; zlia.
  - zlia.
  - zlia.
  - intros a. rewrite <- (Hn a), (number_cons comp a y), <- (equivalent_same comp a x y) by done.
    destruct (equivalent comp a x) eqn:Ea; numbers Ea.
Qed.
End Flags.

Section Ranges.
Context (X Y : list A) (first1 first2 result : Z) (l0 : arr).
Hypothesis HX : seg l0 first1 X.
Hypothesis HY : seg l0 first2 Y.
Hypothesis SX : in_order comp X.
Hypothesis SY : in_order comp Y.
Hypothesis room : 0 <= result ∧ result + zlen X + zlen Y <= zlen l0.
Hypothesis apart1 : apart result (zlen X + zlen Y) first1 (zlen X).
Hypothesis apart2 : apart result (zlen X + zlen Y) first2 (zlen Y).
Local Abbreviation last1 := (first1 + zlen X).
Local Abbreviation last2 := (first2 + zlen Y).

(** The ranges are still to be read from where the walk is, and [d] is written. *)
Definition walked d xs ys (f1 f2 r : Z) l : Prop :=
  f1 = last1 - zlen xs ∧ f2 = last2 - zlen ys ∧ r = result + zlen d ∧
  seg l result d ∧ seg l f1 xs ∧ seg l f2 ys ∧
  changed (λ i, result <= i < result + zlen X + zlen Y) l0 l.

Lemma walked_start : walked [] X Y first1 first2 result l0.
Proof. split_and!; [lia|lia|zlia|done..]. Qed.

(** Copying an element to the end of what is written. *)
Lemma walked_copy {B} (m : M arr B) d xs ys f1 f2 r i a Q l :
  walked d xs ys f1 f2 r l → holds l i a → zlen d < zlen X + zlen Y →
  zlen xs <= zlen X → zlen ys <= zlen Y →
  (∀ l', walked (d ++ [a]) xs ys f1 f2 (r + 1) l' → wpr m Q l') → wpr (copy_cell i r;; m) Q l.
Proof.
  unfold apart in *. intros (-> & -> & -> & Hd & Hx & Hy & C) Ha ??? HQ.
  apply (wpr_copy_cell _ _ _ a); [done|zlia|]. intros l' C' Hr. apply HQ.
  split_and!; [done|done|zlia| |seg_frame|seg_frame|changes].
  apply seg_app. split; [seg_frame|by apply seg_one].
Qed.

Lemma walked_output {B} (copies : bool) (k : Z → M arr B) d xs ys f1 f2 r i a Q l :
  walked d xs ys f1 f2 r l → holds l i a → zlen d < zlen X + zlen Y →
  zlen xs <= zlen X → zlen ys <= zlen Y →
  (∀ r' l', walked (d ++ if copies then [a] else []) xs ys f1 f2 r' l' → wpr (k r') Q l') →
  wpr (output copies i r k) Q l.
Proof.
  intros Hw Ha ??? HQ. unfold output. destruct copies.
  - apply (walked_copy _ d xs ys f1 f2 r i a); [done..|]. intros l' Hw'. by apply HQ.
  - apply HQ. by rewrite app_nil_r.
Qed.

Lemma walked_first d x xs ys f1 f2 r l :
  walked d (x :: xs) ys f1 f2 r l → holds l f1 x ∧ walked d xs ys (f1 + 1) f2 r l.
Proof.
  intros (-> & -> & -> & Hd & [Hx0 Hx]%seg_cons & Hy & C). split; [done|].
  split_and!; [zlia|done|done|done|done|done|done].
Qed.

Lemma walked_second d xs y ys f1 f2 r l :
  walked d xs (y :: ys) f1 f2 r l → holds l f2 y ∧ walked d xs ys f1 (f2 + 1) r l.
Proof.
  intros (-> & -> & -> & Hd & Hx & [Hy0 Hy]%seg_cons & C). split; [done|].
  split_and!; [done|zlia|done|done|done|done|done].
Qed.

(** The test whether one of the ranges is used up. *)
Lemma walked_test {B} d xs ys f1 f2 r l (m1 m2 : M arr B) Q :
  walked d xs ys f1 f2 r l →
  (∀ x xs' y ys', xs = x :: xs' → ys = y :: ys' → wpr m1 Q l) →
  (xs = [] ∨ ys = [] → wpr m2 Q l) →
  wpr (if negb (f1 =? last1) && negb (f2 =? last2) then m1 else m2) Q l.
Proof.
  intros (-> & -> & _) H1 H2. destruct xs as [|x xs].
  { rewrite (proj2 (Z.eqb_eq _ _)) by zlia. apply H2. by left. }
  rewrite (proj2 (Z.eqb_neq _ _)) by zlia. destruct ys as [|y ys].
  { rewrite (proj2 (Z.eqb_eq _ _)) by zlia. apply H2. by right. }
  rewrite (proj2 (Z.eqb_neq _ _)) by zlia. by eapply H1.
Qed.

Lemma set_loop_spec less greater equal :
  wpr (set_loop comp less greater equal first1 last1 first2 last2 result)
    (λ '(f1, f2, r) l, ∃ d xs ys, (xs = [] ∨ ys = []) ∧
      walking less greater equal X Y d xs ys ∧ walked d xs ys f1 f2 r l) l0.
Proof.
  apply (wpr_while (λ '(f1, f2, r) l, ∃ d xs ys,
    walking less greater equal X Y d xs ys ∧ walked d xs ys f1 f2 r l)
    (λ '(f1, f2, _), last1 - f1 + (last2 - f2))).
  - intros [ [f1 f2] r] l (d & xs & ys & Hk & Hw). pose proof Hw as (E1 & E2 & _).
    pose proof Hk as (_ & _ & ? & ? & ? & _). split; [zlia|].
    apply (walked_test d xs ys f1 f2 r); [done| |].
    2:{ intros Hor. apply wpr_ret. by exists d, xs, ys. }
    intros x xs' y ys' -> ->. pose proof (walked_first _ _ _ _ _ _ _ _ Hw) as [Hx Hw1].
    pose proof (walked_second _ _ _ _ _ _ _ _ Hw) as [Hy Hw2].
    pose proof (walked_second _ _ _ _ _ _ _ _ Hw1) as [_ Hw12].
    apply wpr_bind, (wpr_iter_iter _ _ _ _ _ _ _ Hx Hy). destruct (comp x y) eqn:E.
    { apply (walked_output less _ d xs' (y :: ys') (f1 + 1) f2 r _ x); [done|done|zlia|zlia|zlia|].
      intros r' l' Hw'. apply wpr_ret. split; [|lia]. eexists _, _, _. split; [by apply walking_less|done]. }
    apply wpr_bind, (wpr_iter_iter _ _ _ _ _ _ _ Hy Hx). destruct (comp y x) eqn:E'.
    { apply (walked_output greater _ d (x :: xs') ys' f1 (f2 + 1) r _ y); [done|done|zlia|zlia|zlia|].
      intros r' l' Hw'. apply wpr_ret. split; [|lia]. eexists _, _, _. split; [by apply walking_greater|done]. }
    apply (walked_output equal _ d xs' ys' (f1 + 1) (f2 + 1) r _ x); [done|done|zlia|zlia|zlia|].
    intros r' l' Hw'. apply wpr_ret. split; [|lia]. eexists _, _, _. split; [by eapply walking_equal|done].
  - exists [], X, Y. split; [by apply walking_start|apply walked_start].
  - apply seg_within in HX as ?, HY as ?. zlia.
Qed.

(** Copying what is left of the first or the second range. *)
Lemma copy_rest_first d xs ys f1 f2 r (Q : Z → arr → Prop) l :
  walked d xs ys f1 f2 r l → zlen d + zlen xs <= zlen X + zlen Y → zlen xs <= zlen X → zlen ys <= zlen Y →
  (∀ r' l', walked (d ++ xs) [] ys last1 f2 r' l' → Q r' l') → wpr (copy3 f1 last1 r) Q l.
Proof.
  unfold apart in *. intros (-> & -> & -> & Hd & Hx & Hy & C) ??? HQ.
  eapply wpr_mono; [apply (copy3_spec _ _ _ xs); [zlia|done|zlia|zlia|zlia]|].
  intros r l' (-> & Hr & C'). apply HQ. split_and!; [zlia|done|zlia| |done|seg_frame|changes].
  apply seg_app. split; [seg_frame|done].
Qed.

Lemma copy_rest_second d xs ys f1 f2 r (Q : Z → arr → Prop) l :
  walked d xs ys f1 f2 r l → zlen d + zlen ys <= zlen X + zlen Y → zlen xs <= zlen X → zlen ys <= zlen Y →
  (∀ r' l', walked (d ++ ys) xs [] f1 last2 r' l' → Q r' l') → wpr (copy3 f2 last2 r) Q l.
Proof.
  unfold apart in *. intros (-> & -> & -> & Hd & Hx & Hy & C) ??? HQ.
  eapply wpr_mono; [apply (copy3_spec _ _ _ ys); [zlia|done|zlia|zlia|zlia]|].
  intros r l' (-> & Hr & C'). apply HQ. split_and!; [done|zlia|zlia| |seg_frame|done|changes].
  apply seg_app. split; [seg_frame|done].
Qed.

(** What an operation leaves. *)
Definition set_result (less greater equal : bool) (r : Z) l : Prop :=
  ∃ zs, in_order comp zs ∧
  (∀ a, number comp a zs = combined less greater equal (number comp a X) (number comp a Y)) ∧
  r = result + zlen zs ∧ seg l result zs ∧
  changed (λ i, result <= i < result + zlen X + zlen Y) l0 l.

Lemma set_result_walked less greater equal zs xs ys f1 f2 r l :
  walked zs xs ys f1 f2 r l → in_order comp zs →
  (∀ a, number comp a zs = combined less greater equal (number comp a X) (number comp a Y)) →
  set_result less greater equal r l.
Proof. intros (_ & _ & -> & Hz & _ & _ & C) ??. by exists zs. Qed.

(** The rest of both ranges is copied. *)
Lemma copy_both_spec equal d xs ys f1 f2 r l :
  xs = [] ∨ ys = [] → walking true true equal X Y d xs ys → walked d xs ys f1 f2 r l →
  wpr (r' ← copy3 f1 last1 r; copy3 f2 last2 r') (set_result true true equal) l.
Proof.
  intros Hor (Ox & Oy & ? & ? & ? & Hn) Hw.
  apply wpr_bind, (copy_rest_first d xs ys f1 f2 r); [done|zlia|done|done|]. intros r1 l1 Hw1.
  apply (copy_rest_second (d ++ xs) [] ys last1 f2 r1); [done|zlia|zlia|done|]. intros r2 l2 Hw2.
  apply (set_result_walked _ _ _ _ _ _ _ _ _ _ Hw2).
  - destruct Hor as [-> | ->]; [by rewrite app_nil_r|by rewrite app_nil_r].
  - intros a. rewrite <- (Hn a), !number_app. pose proof (number_nonneg comp a xs).
    pose proof (number_nonneg comp a ys).
    destruct Hor as [-> | ->]; rewrite number_nil in *; unfold combined; destruct equal; lia.
Qed.

Lemma __set_union_spec :
  wpr (__set_union comp first1 last1 first2 last2 result) (set_result true true true) l0.
Proof.
  apply wpr_bind. eapply wpr_mono; [apply (set_loop_spec true true true)|].
  intros [ [f1 f2] r] l (d & xs & ys & Hor & Hk & Hw). by apply (copy_both_spec _ d xs ys).
Qed.

Lemma __set_symmetric_difference_spec :
  wpr (__set_symmetric_difference comp first1 last1 first2 last2 result) (set_result true true false) l0.
Proof.
  apply wpr_bind. eapply wpr_mono; [apply (set_loop_spec true true false)|].
  intros [ [f1 f2] r] l (d & xs & ys & Hor & Hk & Hw). by apply (copy_both_spec _ d xs ys).
Qed.

Lemma __set_difference_spec :
  wpr (__set_difference comp first1 last1 first2 last2 result) (set_result true false false) l0.
Proof.
  apply wpr_bind. eapply wpr_mono; [apply (set_loop_spec true false false)|].
  intros [ [f1 f2] r] l (d & xs & ys & Hor & (Ox & Oy & ? & ? & ? & Hn) & Hw).
  apply (copy_rest_first d xs ys f1 f2 r); [done|zlia|done|done|]. intros r1 l1 Hw1.
  apply (set_result_walked _ _ _ _ _ _ _ _ _ _ Hw1); [done|].
  intros a. rewrite <- (Hn a), number_app. pose proof (number_nonneg comp a xs).
  pose proof (number_nonneg comp a ys).
  destruct Hor as [-> | ->]; rewrite number_nil in *; unfold combined; lia.
Qed.

Lemma __set_intersection_spec :
  wpr (__set_intersection comp first1 last1 first2 last2 result) (set_result false false true) l0.
Proof.
  apply wpr_bind. eapply wpr_mono; [apply (set_loop_spec false false true)|].
  intros [ [f1 f2] r] l (d & xs & ys & Hor & (Ox & Oy & ? & ? & ? & Hn) & Hw).
  apply wpr_ret, (set_result_walked _ _ _ _ _ _ _ _ _ _ Hw); [by apply StronglySorted_app_1_l in Ox|].
  intros a. rewrite <- (Hn a). pose proof (number_nonneg comp a xs).
  pose proof (number_nonneg comp a ys).
  destruct Hor as [-> | ->]; rewrite number_nil in *; unfold combined; lia.
Qed.

(** [std::merge] merges stably. *)
Lemma __merge_spec :
  wpr (__merge comp first1 last1 first2 last2 result) (λ r l, ∃ zs,
    stably_sorted comp (X ++ Y) zs ∧ r = result + zlen zs ∧ seg l result zs ∧
    changed (λ i, result <= i < result + zlen X + zlen Y) l0 l) l0.
Proof.
  apply wpr_bind, (wpr_while (λ '(f1, f2, r) l, ∃ d xs ys, merging comp X Y d xs ys ∧
    zlen xs <= zlen X ∧ zlen ys <= zlen Y ∧ walked d xs ys f1 f2 r l)
    (λ '(f1, f2, _), last1 - f1 + (last2 - f2))).
  - intros [ [f1 f2] r] l (d & xs & ys & Hm & ? & ? & Hw). pose proof Hw as (E1 & E2 & _).
    pose proof (merging_zlen _ _ _ _ _ _ Hm). split; [zlia|].
    apply (walked_test d xs ys f1 f2 r); [done| |].
    + intros x xs' y ys' -> ->. pose proof (walked_first _ _ _ _ _ _ _ _ Hw) as [Hx Hw1].
      pose proof (walked_second _ _ _ _ _ _ _ _ Hw) as [Hy Hw2].
      apply wpr_bind, (wpr_iter_iter _ _ _ _ _ _ _ Hy Hx). destruct (comp y x) eqn:E.
      * apply (walked_copy _ d (x :: xs') ys' f1 (f2 + 1) r _ y); [done|done|zlia|zlia|zlia|].
        intros l' Hw'. apply wpr_ret. split; [|lia]. eexists _, _, _.
        split_and!; [by apply merging_second|zlia|zlia|done].
      * apply (walked_copy _ d xs' (y :: ys') (f1 + 1) f2 r _ x); [done|done|zlia|zlia|zlia|].
        intros l' Hw'. apply wpr_ret. split; [|lia]. eexists _, _, _.
        split_and!; [by apply merging_first|zlia|zlia|done].
    + intros Hor. apply wpr_ret.
      apply wpr_bind, (copy_rest_first d xs ys f1 f2 r); [done|zlia|done|done|]. intros r1 l1 Hw1.
      apply (copy_rest_second (d ++ xs) [] ys last1 f2 r1); [done|zlia|zlia|done|].
      intros r2 l2 (_ & _ & -> & Hz & _ & _ & C). exists ((d ++ xs) ++ ys). split_and!; [|done..].
      destruct Hor as [-> | ->]; rewrite app_nil_r; [by apply merging_end_first|by apply merging_end_second].
  - exists [], X, Y. split_and!; [by apply merging_start|done|done|apply walked_start].
  - apply seg_within in HX as ?, HY as ?. zlia.
Qed.
End Ranges.

(** [std::includes] only reads. *)
Lemma __includes_spec X Y first1 first2 l :
  seg l first1 X → seg l first2 Y → in_order comp X → in_order comp Y →
  wpr (__includes comp first1 (first1 + zlen X) first2 (first2 + zlen Y))
    (λ b l', l' = l ∧ (b = true ↔ ∀ a, number comp a Y <= number comp a X)) l.
Proof.
  intros HX HY SX SY. apply (wpr_while (λ '(f1, f2) l', l' = l ∧ ∃ xs ys,
    f1 = first1 + zlen X - zlen xs ∧ f2 = first2 + zlen Y - zlen ys ∧ seg l f1 xs ∧ seg l f2 ys ∧
    in_order comp xs ∧ in_order comp ys ∧
    ((∀ a, number comp a ys <= number comp a xs) ↔ ∀ a, number comp a Y <= number comp a X))
    (λ '(f1, _), first1 + zlen X - f1)).
  - intros [f1 f2] l' [-> (xs & ys & -> & -> & Hx & Hy & Sx & Sy & Hn)]. split; [zlia|].
    destruct ys as [|y ys].
    { rewrite andb_comm, (proj2 (Z.eqb_eq (first2 + _ - _) _)) by zlia. apply wpr_ret. split; [done|].
      split; [|done]. intros _. apply Hn. intros a. rewrite number_nil. apply number_nonneg. }
    rewrite (proj2 (Z.eqb_neq (first2 + _ - _) _)) by zlia. destruct xs as [|x xs].
    { rewrite (proj2 (Z.eqb_eq _ _)) by zlia. apply wpr_ret. split; [done|]. rewrite <- Hn.
      split; [done|]. intros H. specialize (H y). rewrite number_cons, number_nil, equivalent_refl in H by done.
      pose proof (number_nonneg comp y ys). lia. }
    rewrite (proj2 (Z.eqb_neq _ _)) by zlia. apply seg_cons in Hx as [Hx0 Hx], Hy as [Hy0 Hy].
    pose proof Sx as [_ Sx']%StronglySorted_cons. pose proof Sy as [_ Sy']%StronglySorted_cons.
    apply wpr_bind, (wpr_iter_iter _ _ _ _ _ _ _ Hy0 Hx0). destruct (comp y x) eqn:E.
    { apply wpr_ret. split; [done|]. rewrite <- Hn. split; [done|]. intros H. specialize (H y).
      rewrite (number_below comp y y x xs), number_cons, equivalent_refl in H
        by (done || by apply equivalent_refl).
      pose proof (number_nonneg comp y ys). lia. }
    apply wpr_bind, (wpr_iter_iter _ _ _ _ _ _ _ Hx0 Hy0). destruct (comp x y) eqn:E'; apply wpr_ret.
    + split; [|zlia]. split; [done|]. exists xs, (y :: ys).
      split_and!; [zlia|zlia|seg_place|by apply seg_cons|done|done|]. rewrite <- Hn.
      split; intros H a; specialize (H a); rewrite (number_cons comp a x) in *;
        destruct (equivalent comp a x) eqn:Ea; try lia;
        rewrite (number_below comp a x y ys) in * by done; pose proof (number_nonneg comp a xs); lia.
    + split; [|zlia]. split; [done|]. exists xs, ys.
      split_and!; [zlia|zlia|seg_place|seg_place|done|done|]. rewrite <- Hn.
      split; intros H a; specialize (H a);
        rewrite (number_cons comp a x), (number_cons comp a y), (equivalent_same comp a x y) in * by done; lia.
  - split; [done|]. exists X, Y. split_and!; [lia|lia|done|done|done|done|done].
  - apply seg_within in HX. lia.
Qed.
End Walk.

(** * The operations on arrays given by their values *)

Section Functions.
Context {A : Type} (comp : A → A → bool).
Local Abbreviation arr := (list (option A)).

Definition set_operation := Z → Z → Z → Z → Z → M arr Z.

(** The operations, with the cases in which they copy an element. *)
Inductive set_op : bool → bool → bool → set_operation → Prop :=
  | op_union : set_op true true true (__set_union comp)
  | op_intersection : set_op false false true (__set_intersection comp)
  | op_difference : set_op true false false (__set_difference comp)
  | op_symmetric_difference : set_op true true false (__set_symmetric_difference comp).

Lemma seg_three (X Y : list A) (out : arr) :
  let l := (Some <$> X) ++ (Some <$> Y) ++ out in
  seg l 0 X ∧ seg l (zlen X) Y ∧ zlen l = zlen X + zlen Y + zlen out.
Proof.
  cbv zeta. split_and!.
  - apply (seg_middle [] ((Some <$> Y) ++ out) X).
  - pose proof (seg_middle (Some <$> X) out Y) as H.
    replace (zlen (Some <$> X)) with (zlen X) in H by (unfold zlen; by rewrite length_fmap). done.
  - unfold zlen. rewrite !length_app, !length_fmap. lia.
Qed.

(** C28: the set operations compute with the numbers of equivalent values. On sorted
    ranges [std::set_union], [set_intersection], [set_difference] and
    [set_symmetric_difference] end, read only the two ranges and write only the
    output; the result is sorted, and each class of equivalent values has as
    many members in it as the maximum, the minimum, the difference or the distance of its
    numbers in the ranges. *)
Theorem set_operations_count less greater equal op X Y (out : arr) :
  StrictWeakOrder comp → set_op less greater equal op →
  in_order comp X → in_order comp Y → zlen X + zlen Y <= zlen out →
  ∃ zs l', op 0 (zlen X) (zlen X) (zlen X + zlen Y) (zlen X + zlen Y)
               ((Some <$> X) ++ (Some <$> Y) ++ out) = Some (zlen X + zlen Y + zlen zs, l') ∧
    in_order comp zs ∧ seg l' (zlen X + zlen Y) zs ∧
    (∀ a, number comp a zs = combined less greater equal (number comp a X) (number comp a Y)) ∧
    changed (λ i, zlen X + zlen Y <= i < 2 * (zlen X + zlen Y))
            ((Some <$> X) ++ (Some <$> Y) ++ out) l'.
Proof.
  intros Hc Hop SX SY Ho. destruct (seg_three X Y out) as (HX & HY & El).
  set (l := (Some <$> X) ++ (Some <$> Y) ++ out) in *. clearbody l.
  assert (wpr (op 0 (0 + zlen X) (zlen X) (zlen X + zlen Y) (zlen X + zlen Y))
    (set_result comp X Y (zlen X + zlen Y) l less greater equal) l) as Hw.
  { assert (apart (zlen X + zlen Y) (zlen X + zlen Y) 0 (zlen X)) by (right; zlia).
    assert (apart (zlen X + zlen Y) (zlen X + zlen Y) (zlen X) (zlen Y)) by (right; zlia).
    assert (0 <= zlen X + zlen Y ∧ zlen X + zlen Y + zlen X + zlen Y <= zlen l) by zlia.
    destruct Hop; [by apply __set_union_spec|by apply __set_intersection_spec|
      by apply __set_difference_spec|by apply __set_symmetric_difference_spec]. }
  destruct (wpr_run _ _ _ Hw) as (r & l' & E & zs & Hz & Hn & -> & Hs & C).
  exists zs, l'. split_and!; [done|done|done|done|changes].
Qed.

(** [std::includes] decides whether the second sorted range is included in the
    first one, equivalent values counted as often as they occur; it reads only
    the two ranges and ends, also when they are the same range. *)
Theorem includes_decides X Y (pre post pre' post' : arr) :
  StrictWeakOrder comp → in_order comp X → in_order comp Y →
  pre ++ (Some <$> X) ++ post = pre' ++ (Some <$> Y) ++ post' →
  ∃ b, __includes comp (zlen pre) (zlen pre + zlen X) (zlen pre') (zlen pre' + zlen Y)
         (pre ++ (Some <$> X) ++ post) = Some (b, pre ++ (Some <$> X) ++ post) ∧
    (b = true ↔ ∀ a, number comp a Y <= number comp a X).
Proof.
  intros Hc SX SY E. pose proof (seg_middle pre post X) as HX. pose proof (seg_middle pre' post' Y) as HY.
  rewrite <- E in HY. destruct (wpr_run _ _ _ (__includes_spec comp X Y _ _ _ HX HY SX SY))
    as (b & l' & -> & -> & Hb). by exists b.
Qed.
End Functions.

Lemma set_operations_count_witness :
  ∃ zs l', __set_symmetric_difference Z.ltb 0 4 4 7 7
             ((Some <$> [1; 2; 2; 5]) ++ (Some <$> [2; 3; 5]) ++ replicate 8 None) = Some (7 + zlen zs, l') ∧
    in_order Z.ltb zs ∧ seg l' 7 zs ∧
    (∀ a, number Z.ltb a zs =
          combined true true false (number Z.ltb a [1; 2; 2; 5]) (number Z.ltb a [2; 3; 5])) ∧
    changed (λ i, 7 <= i < 14)
            ((Some <$> [1; 2; 2; 5]) ++ (Some <$> [2; 3; 5]) ++ replicate 8 None) l'.
Proof.
  apply (set_operations_count Z.ltb true true false (__set_symmetric_difference Z.ltb) [1; 2; 2; 5] [2; 3; 5]
    (replicate 8 None)); [apply _|constructor|by repeat constructor|by repeat constructor|done].
Defined.

Lemma includes_decides_witness :
  ∃ b, __includes Z.ltb 0 4 1 4 (Some <$> [1; 2; 2; 5]) = Some (b, Some <$> [1; 2; 2; 5]) ∧
    (b = true ↔ ∀ a, number Z.ltb a [2; 2; 5] <= number Z.ltb a [1; 2; 2; 5]).
Proof.
  apply (includes_decides Z.ltb [1; 2; 2; 5] [2; 2; 5] [] [] [Some 1] []);
    [apply _|by repeat constructor|by repeat constructor|done].
Defined.
