(* ===== verification/StlPermute.v ===== *)
(** * Permutations in dictionary order, [bits/stl_algo.h]

    [std::next_permutation] and [std::prev_permutation]. The order of sequences
    is the lexicographic order that the comparison gives; sequences whose values
    are equivalent place by place are not told apart, and a permutation may put
    equivalent values in each other's places. The theorems: the functions end, the
    sequence that they leave is the next one of the permutations in that order,
    with none in between, and [false] is returned exactly at the greatest one, where
    the least one is left. *)
From stdpp Require Import base numbers list sorting.
From Stdlib Require Import ZArith Lia.
From S2P Require Import Prelude StlArray StlHeap StlSort StlSearch StlSeg StlRotate StlOrder StlSets.

Section Code.
Context {A : Type}.
Local Abbreviation arr := (list (option A)).
Variable category : iterator_category.
Variable comp : A → A → bool.

(** [while (!__comp(__i, --__j)) {}]: returns [j]. *)
Definition last_greater (i last : Z) : M arr Z :=
  while (λ j,
    let j := j - 1 in
    b ← _Iter_comp_iter comp i j;
    mret (if negb b then inl j else inr j)) last.

Definition __next_permutation (first last : Z) : M arr bool :=
  if first =? last then mret false
  else if first + 1 =? last then mret false
  else
    while (λ i,
      let ii := i in
      let i := i - 1 in
      b ← _Iter_comp_iter comp i ii;
      if b : bool then
        j ← last_greater i last;
        iter_swap i j;;
        std_reverse category ii last;;
        mret (inr true)
      else if i =? first then
        std_reverse category first last;;
        mret (inr false)
      else mret (inl i)) (last - 1).

(** [while (!__comp(--__j, __i)) {}]. *)
Definition last_less (i last : Z) : M arr Z :=
  while (λ j,
    let j := j - 1 in
    b ← _Iter_comp_iter comp j i;
    mret (if negb b then inl j else inr j)) last.

Definition __prev_permutation (first last : Z) : M arr bool :=
  if first =? last then mret false
  else if first + 1 =? last then mret false
  else
    while (λ i,
      let ii := i in
      let i := i - 1 in
      b ← _Iter_comp_iter comp ii i;
      if b : bool then
        j ← last_less i last;
        iter_swap i j;;
        std_reverse category ii last;;
        mret (inr true)
      else if i =? first then
        std_reverse category first last;;
        mret (inr false)
      else mret (inl i)) (last - 1).
End Code.

(** * Dictionary order *)

(** [xs] is before [ys], for lists of the same length. *)
Fixpoint before {A} (comp : A → A → bool) (xs ys : list A) : bool :=
  match xs, ys with
  | x :: xs, y :: ys => comp x y || (negb (comp y x) && before comp xs ys)
  | _, _ => false
  end.

(** The other direction of an order. *)
Definition converse {A} (comp : A → A → bool) (a b : A) : bool := comp b a.

#[export] Instance converse_order {A} (comp : A → A → bool) :
  StrictWeakOrder comp → StrictWeakOrder (converse comp).
Proof.
  intros [Hi Ht Hn]. split; unfold converse.
  - apply Hi.
  - intros a b c ??. by apply (Ht c b a).
  - intros a b c ????. by apply and_comm, (Hn a b c).
Qed.

Lemma before_converse {A} (comp : A → A → bool) xs ys : before (converse comp) xs ys = before comp ys xs.
Proof.
  revert ys. induction xs as [|x xs IH]; intros [|y ys]; [done..|]. cbn. by rewrite IH.
Qed.

Section Dictionary.
Context {A : Type} (comp : A → A → bool) `{!StrictWeakOrder comp}.
Implicit Types xs ys zs : list A.
Local Notation "a ⊑ b" := (le comp a b) (at level 70).

(** The same values up to equivalence. *)
Definition same_numbers xs ys : Prop := ∀ a, number comp a xs = number comp a ys.

Lemma same_numbers_cons x y xs ys :
  comp x y = false → comp y x = false → same_numbers (x :: xs) (y :: ys) → same_numbers xs ys.
Proof.
  intros Hxy Hyx H a. specialize (H a). rewrite !number_cons, (equivalent_same comp a x y) in H by done. lia.
Qed.

Lemma number_pos a xs : 0 < number comp a xs → ∃ x, x ∈ xs ∧ equivalent comp a x = true.
Proof.
  induction xs as [|x xs IH]; [by rewrite number_nil|]. rewrite number_cons.
  destruct (equivalent comp a x) eqn:E; [exists x; split; [by left|done]|].
  intros (z & Hz & Ez)%IH. exists z. split; [by right|done].
Qed.

Lemma number_elem x xs : x ∈ xs → 0 < number comp x xs.
Proof.
  intros (xs1 & xs2 & ->)%list_elem_of_split. rewrite number_app, number_cons, (equivalent_refl comp).
  pose proof (number_nonneg comp x xs1). pose proof (number_nonneg comp x xs2). lia.
Qed.

(** A value of one list is equivalent to one of the other. *)
Lemma same_numbers_elem xs ys x : same_numbers xs ys → x ∈ xs → ∃ y, y ∈ ys ∧ x ⊑ y ∧ y ⊑ x.
Proof.
  intros H Hx%number_elem. rewrite H in Hx. apply number_pos in Hx as (y & Hy & [??]%equivalent_le).
  by exists y.
Qed.

Lemma same_numbers_perm xs ys : xs ≡ₚ ys → same_numbers xs ys.
Proof.
  intros H a. induction H as [|x xs ys _ IH|x y xs|xs ys zs _ IH1 _ IH2];
    rewrite ?number_cons in *; lia.
Qed.

Lemma same_numbers_sym xs ys : same_numbers xs ys → same_numbers ys xs.
Proof. intros H a. by rewrite H. Qed.

(** Nothing is before a sorted list. *)
Lemma sorted_least xs zs : in_order comp xs → same_numbers zs xs → before comp zs xs = false.
Proof.
  revert zs. induction xs as [|x xs IH]; intros [|z zs] Hs Hn; [done..|]. cbn.
  pose proof Hs as [Hf Hs']%StronglySorted_cons.
  assert (x ⊑ z) as Hxz.
  { destruct (same_numbers_elem (z :: zs) (x :: xs) z Hn) as (y & Hy & Hzy & Hyz); [by left|].
    etrans; [|exact Hyz]. apply elem_of_cons in Hy as [->|Hy]; [done|]. by eapply Forall_forall in Hf. }
  unfold le in Hxz. rewrite Hxz. cbn. destruct (comp x z) eqn:E; [done|]. cbn.
  apply IH; [done|]. by apply (same_numbers_cons z x).
Qed.
End Dictionary.

Lemma equivalent_converse {A} (comp : A → A → bool) a b : equivalent (converse comp) a b = equivalent comp a b.
Proof. unfold equivalent, converse. apply andb_comm. Qed.

Lemma number_converse {A} (comp : A → A → bool) a xs : number (converse comp) a xs = number comp a xs.
Proof.
  induction xs as [|x xs IH]; [done|]. by rewrite !number_cons, equivalent_converse, IH.
Qed.

(** A list that descends is before nothing. *)
Lemma descending_greatest {A} (comp : A → A → bool) `{!StrictWeakOrder comp} xs zs :
  in_order (converse comp) xs → same_numbers comp zs xs → before comp xs zs = false.
Proof.
  intros Hs Hn. rewrite <- before_converse. apply (sorted_least (converse comp)); [done|].
  intros a. by rewrite !number_converse.
Qed.

Section Next.
Context {A : Type} (comp : A → A → bool) `{!StrictWeakOrder comp}.
Implicit Types xs ys zs p s : list A.
Local Notation "a ⊑ b" := (le comp a b) (at level 70).

Definition descending xs : Prop := in_order (converse comp) xs.

Lemma descending_reverse xs : descending xs → in_order comp (reverse xs).
Proof.
  induction xs as [|x xs IH]; intros H; [constructor|]. rewrite reverse_cons.
  apply StronglySorted_cons in H as [Hf Hs]. apply StronglySorted_app.
  split_and!; [|by apply IH|by repeat constructor].
  intros a b Ha ->%list_elem_of_singleton. rewrite elem_of_reverse in Ha.
  rewrite Forall_forall in Hf. exact (Hf a Ha).
Qed.

(** The step: [y] is the least value behind [x] that is greater than it; they change
    places, and what is behind is reversed. *)
Definition steps x s1 y s2 : Prop :=
  descending (s1 ++ y :: s2) ∧ comp x y = true ∧ (∀ z, z ∈ s2 → comp x z = false).

Definition here p x s1 y s2 : list A := p ++ x :: s1 ++ y :: s2.
Definition there p x s1 y s2 : list A := p ++ y :: reverse (s1 ++ x :: s2).

Lemma steps_perm p x s1 y s2 : there p x s1 y s2 ≡ₚ here p x s1 y s2.
Proof.
  unfold there, here. f_equiv. rewrite reverse_Permutation.
  rewrite <- (Permutation_middle s1 s2 x), <- (Permutation_middle s1 s2 y). apply perm_swap.
Qed.

Lemma steps_before p x s1 y s2 :
  steps x s1 y s2 → before comp (here p x s1 y s2) (there p x s1 y s2) = true.
Proof.
  intros (_ & E & _). unfold here, there. induction p as [|a p IH]; cbn.
  - by rewrite E.
  - rewrite (swo_irreflexive a). cbn. by rewrite IH.
Qed.

Lemma steps_sorted x s1 y s2 : steps x s1 y s2 → in_order comp (reverse (s1 ++ x :: s2)).
Proof.
  intros ((H12 & H1 & [Hf H2]%StronglySorted_cons)%StronglySorted_app & E & Hx).
  apply descending_reverse, StronglySorted_app. split_and!; [|done|].
  - intros a b Ha [->|Hb]%elem_of_cons; [|apply H12; [done|by right]].
    assert (y ⊑ a) as Hy by (apply (H12 a y); [done|by left]).
    change (x ⊑ a). etrans; [by apply comp_le|done].
  - apply StronglySorted_cons. split; [|done]. apply Forall_forall. intros z Hz. by apply Hx.
Qed.

(** A value of the rest that is greater than [x] is not less than [y]. *)
Lemma steps_least_greater x s1 y s2 z :
  steps x s1 y s2 → z ∈ x :: s1 ++ y :: s2 → comp x z = true → y ⊑ z.
Proof.
  intros ((H12 & _)%StronglySorted_app & E & Hx) Hz Exz.
  apply elem_of_cons in Hz as [->|[Hz|[->|Hz]%elem_of_cons]%elem_of_app].
  - by rewrite swo_irreflexive in Exz.
  - apply (H12 z y); [done|by left].
  - done.
  - by rewrite (Hx z Hz) in Exz.
Qed.

(** The first place where a permutation is greater. *)
Lemma steps_next_here x s1 y s2 b zs :
  steps x s1 y s2 → same_numbers comp (b :: zs) (x :: s1 ++ y :: s2) → comp x b = true →
  before comp (b :: zs) (y :: reverse (s1 ++ x :: s2)) = false.
Proof.
  intros Hst Hn Exb. cbn.
  destruct (same_numbers_elem comp _ _ b Hn) as (z & Hz & Hbz & Hzb); [by left|].
  assert (comp x z = true) as Exz.
  { destruct (comp x z) eqn:E; [done|]. assert (b ⊑ x) as H by (etrans; [exact Hbz|exact E]).
    unfold le in H. congruence. }
  assert (y ⊑ b) as Hyb by (etrans; [by eapply steps_least_greater|done]).
  unfold le in Hyb. rewrite Hyb. cbn. destruct (comp y b) eqn:Eyb; [done|]. cbn.
  apply (sorted_least comp); [by eapply steps_sorted|].
  apply (same_numbers_cons comp b y); [done|done|]. intros a. rewrite (Hn a). symmetry.
  apply (same_numbers_perm comp), (steps_perm [] x s1 y s2).
Qed.

(** No permutation lies in between. *)
Lemma steps_next p x s1 y s2 zs :
  steps x s1 y s2 → same_numbers comp zs (here p x s1 y s2) →
  before comp (here p x s1 y s2) zs = true → before comp zs (there p x s1 y s2) = false.
Proof.
  intros Hst. revert zs. unfold here, there. induction p as [|a p IH]; intros [|b zs] Hn; try done.
  - cbn [app]. destruct (comp x b) eqn:Exb; cbn [before].
    + intros _. by apply (steps_next_here x).
    + rewrite Exb. intros [Hbx Hb]%andb_prop. apply negb_true_iff in Hbx. destruct Hst as (Hd & _).
      rewrite (descending_greatest comp) in Hb; [done|done|]. by apply (same_numbers_cons comp b x).
  - cbn. destruct (comp a b) eqn:Eab; cbn [orb].
    + intros _. by rewrite (comp_asym comp a b Eab).
    + intros [Hba Hb]%andb_prop. apply negb_true_iff in Hba. rewrite Hba. cbn.
      apply IH; [|done]. by apply (same_numbers_cons comp b a).
Qed.
End Next.

(** * The functions *)

Section Permute.
Context {A : Type} (category : iterator_category).
Local Abbreviation arr := (list (option A)).
Implicit Types l : arr.
Implicit Types xs zs p s : list A.

(** What the two functions have in common: they differ in the test. *)
Definition last_that (test : Z → Z → M arr bool) (i last : Z) : M arr Z :=
  while (λ j,
    let j := j - 1 in
    b ← test i j;
    mret (if negb b then inl j else inr j)) last.

Definition permute (test : Z → Z → M arr bool) (first last : Z) : M arr bool :=
  if first =? last then mret false
  else if first + 1 =? last then mret false
  else
    while (λ i,
      let ii := i in
      let i := i - 1 in
      b ← test i ii;
      if b : bool then
        j ← last_that test i last;
        iter_swap i j;;
        std_reverse category ii last;;
        mret (inr true)
      else if i =? first then
        std_reverse category first last;;
        mret (inr false)
      else mret (inl i)) (last - 1).

Lemma next_permutes comp : __next_permutation category comp = permute (_Iter_comp_iter comp).
Proof. done. Qed.

Lemma prev_permutes comp : __prev_permutation category comp = permute (λ i j, _Iter_comp_iter comp j i).
Proof. done. Qed.

Context (comp : A → A → bool) `{!StrictWeakOrder comp}.
Context (test : Z → Z → M arr bool).
Hypothesis test_spec : ∀ l i j a b (Q : bool → arr → Prop),
  holds l i a → holds l j b → Q (comp a b) l → wpr (test i j) Q l.
Hypothesis has_reverse : category ≠ forward_iterator_tag.

Lemma std_reverse_spec first last xs l :
  last = first + zlen xs → seg l first xs →
  wpr (std_reverse category first last) (λ _ l', reversed first xs l l') l.
Proof.
  intros. destruct category; [done|by apply __reverse_bidirectional_spec|by apply __reverse_random_access_spec].
Qed.

Lemma last_that_spec i last x s z l :
  last = i + 1 + zlen s → seg l i (x :: s) → z ∈ s → comp x z = true →
  wpr (last_that test i last) (λ j l', l' = l ∧ ∃ s1 y s2, s = s1 ++ y :: s2 ∧ j = i + 1 + zlen s1 ∧
    comp x y = true ∧ ∀ z, z ∈ s2 → comp x z = false) l.
Proof.
  intros -> Hs Hz Exz. apply (wpr_while (λ j l', l' = l ∧ ∃ s1 s2, s = s1 ++ s2 ∧ j = i + 1 + zlen s1 ∧
    ∀ z, z ∈ s2 → comp x z = false) (λ j, j - i)).
  - intros j l' [-> (s1 & s2 & -> & -> & Hn)]. split; [zlia|]. cbv zeta.
    destruct (zlen_last s1) as (s3 & y & ->).
    { apply zlen_pos. intros ->. rewrite app_nil_l in Hz. rewrite (Hn z Hz) in Exz. done. }
    pose proof Hs as [Hx [ [_ Hy]%seg_app _]%seg_app]%seg_cons. apply seg_one in Hy.
    replace (i + 1 + zlen (s3 ++ [y]) - 1) with (i + 1 + zlen s3) by zlia.
    apply wpr_bind, (test_spec _ _ _ _ _ _ Hx Hy), wpr_ret. destruct (comp x y) eqn:E; cbn [negb].
    + split; [done|]. exists s3, y, s2. by rewrite <- app_assoc.
    + split; [|zlia]. split; [done|]. exists s3, (y :: s2). split_and!; [by rewrite <- app_assoc|done|].
      intros z' [->|Hz']%elem_of_cons; [done|by apply Hn].
  - split; [done|]. exists s, []. split_and!; [by rewrite app_nil_r|done|by intros ? ?%elem_of_nil].
  - apply seg_within in Hs. zlia.
Qed.

(** The sequence that is left and the value that is returned. *)
Definition next_of xs (b : bool) r : Prop :=
  r ≡ₚ xs ∧
  if b then before comp xs r = true ∧
    ∀ zs, same_numbers comp zs xs → before comp xs zs = true → before comp zs r = false
  else in_order comp r ∧ ∀ zs, same_numbers comp zs xs → before comp xs zs = false.

Lemma next_of_greatest xs : descending comp xs → next_of xs false (reverse xs).
Proof.
  intros Hd. split; [apply reverse_Permutation|]. split; [by apply descending_reverse|].
  intros zs Hz. by apply descending_greatest.
Qed.

Lemma descending_short xs : zlen xs <= 1 → descending comp xs ∧ reverse xs = xs.
Proof.
  intros. destruct xs as [|x xs]; [split; [constructor|done]|].
  rewrite (zlen_zero xs) by zlia. split; [by repeat constructor|done].
Qed.

(** The exchange and the reversal. *)
Lemma permute_step_spec first p x s l0 (Q : bool → arr → Prop) :
  seg l0 first (p ++ x :: s) → descending comp s → (∃ h s', s = h :: s' ∧ comp x h = true) →
  (∀ r l, next_of (p ++ x :: s) true r → seg l first r →
    changed (λ i, first <= i < first + zlen (p ++ x :: s)) l0 l → Q true l) →
  wpr (j ← last_that test (first + zlen p) (first + zlen (p ++ x :: s));
       iter_swap (first + zlen p) j;;
       std_reverse category (first + zlen p + 1) (first + zlen (p ++ x :: s));;
       mret (inr true : Z + bool)) (λ r l, match r with inr b => Q b l | inl _ => False end) l0.
Proof.
  intros Hs Hd (h & s' & Es & Exh) HQ. pose proof Hs as [Hp Hxs]%seg_app. apply wpr_bind.
  eapply wpr_mono; [apply (last_that_spec _ _ x s h); [zlia|done|rewrite Es; by left|done]|].
  intros j l [-> (s1 & y & s2 & -> & -> & Exy & Hs2)].
  pose proof Hxs as [Hx [H1 [Hy H2]%seg_cons]%seg_app]%seg_cons. apply wpr_bind.
  apply (wpr_exchange _ _ x y); [done|done|zlia|]. intros l1 C1 Hi Hj. apply wpr_bind.
  eapply wpr_mono; [apply (std_reverse_spec _ _ (s1 ++ x :: s2)); [zlia|]|].
  { apply seg_app. split; [seg_frame|]. apply seg_cons. split; [done|seg_frame]. }
  intros [] l2 [H3 C2]. apply wpr_ret.
  assert (steps comp x s1 y s2) as Hst by done.
  apply (HQ (there p x s1 y s2)).
  - split; [apply steps_perm|]. split; [by apply steps_before|]. intros zs ??. by apply steps_next.
  - unfold there. apply seg_app. split.
    + assert (seg l1 first p) by seg_frame. seg_frame.
    + apply seg_cons. split; [|done]. apply (changed_holds _ _ _ _ _ C2); [zlia|done].
  - changes.
Qed.

Lemma permute_spec first last xs l0 :
  last = first + zlen xs → seg l0 first xs →
  wpr (permute test first last) (λ b l, ∃ r, next_of xs b r ∧ seg l first r ∧
    changed (λ i, first <= i < first + zlen xs) l0 l) l0.
Proof.
  intros -> Hs. unfold permute.
  assert (zlen xs <= 1 → wpr (mret false) (λ b l, ∃ r, next_of xs b r ∧ seg l first r ∧
    changed (λ i, first <= i < first + zlen xs) l0 l) l0) as Hshort.
  { intros [Hd E]%descending_short. apply wpr_ret. exists xs.
    pose proof (next_of_greatest xs Hd) as Hn. rewrite E in Hn. done. }
  destruct (Z.eqb_spec first (first + zlen xs)); [apply Hshort; lia|].
  destruct (Z.eqb_spec (first + 1) (first + zlen xs)); [apply Hshort; lia|].
  apply (wpr_while (λ i l, l = l0 ∧ ∃ p x s, xs = p ++ x :: s ∧ p ≠ [] ∧ i = first + zlen p ∧
    descending comp (x :: s)) (λ i, i - first)).
  - intros i l [-> (p & h & s & -> & Hne & -> & Hd)]. split; [zlia|]. cbv zeta.
    destruct (zlen_last p) as (p' & x & ->); [by apply zlen_pos|].
    rewrite <- app_assoc in Hs. cbn [app] in Hs. pose proof Hs as [_ [Hx [Hh _]%seg_cons]%seg_cons]%seg_app.
    replace (first + zlen (p' ++ [x]) - 1) with (first + zlen p') by zlia.
    replace (first + zlen (p' ++ [x])) with (first + zlen p' + 1) by zlia.
    rewrite <- !(app_assoc p'). cbn [app].
    apply wpr_bind, (test_spec _ _ _ _ _ _ Hx Hh). destruct (comp x h) eqn:E.
    + eapply wpr_mono.
      { apply (permute_step_spec first p' x (h :: s) l0 (λ b l, ∃ r, next_of (p' ++ x :: h :: s) b r ∧
          seg l first r ∧ changed (λ i, first <= i < first + zlen (p' ++ x :: h :: s)) l0 l)); [done|done| |].
        - by exists h, s.
        - intros r l ???. by exists r. }
      by intros [i|b] l.
    + assert (descending comp (x :: h :: s)) as Hd'.
      { apply StronglySorted_cons. split; [|done]. pose proof Hd as [Hf _]%StronglySorted_cons.
        constructor; [done|]. rewrite Forall_forall in Hf |- *. intros z Hz.
        change (le comp z x). etrans; [exact (Hf z Hz)|exact E]. }
      destruct (Z.eqb_spec (first + zlen p') first).
      * assert (p' = []) as -> by (apply zlen_zero; lia). apply wpr_bind.
        eapply wpr_mono; [by apply (std_reverse_spec _ _ (x :: h :: s))|].
        intros [] l [Hr C]. apply wpr_ret. exists (reverse (x :: h :: s)).
        split_and!; [by apply next_of_greatest|done|done].
      * apply wpr_ret. split; [|lia]. split; [done|]. exists p', x, (h :: s).
        split_and!; [done|intros ->; zlia|done|done].
  - split; [done|]. destruct (zlen_last xs) as (p & x & ->); [zlia|]. exists p, x, [].
    split_and!; [done|intros ->; zlia|zlia|by repeat constructor].
  - apply seg_within in Hs. lia.
Qed.
End Permute.

(** * The theorems *)

Section Theorems.
Context {A : Type} (category : iterator_category) (comp : A → A → bool) `{!StrictWeakOrder comp}.

Lemma permute_at test lt (pre post : list (option A)) xs :
  StrictWeakOrder lt →
  (∀ l i j a b (Q : bool → list (option A) → Prop),
    holds l i a → holds l j b → Q (lt a b) l → wpr (test i j) Q l) →
  category ≠ forward_iterator_tag →
  ∃ b ys, permute category test (zlen pre) (zlen pre + zlen xs) (pre ++ (Some <$> xs) ++ post) =
      Some (b, pre ++ (Some <$> ys) ++ post) ∧ next_of lt xs b ys.
Proof.
  intros Ho Ht Hc.
  destruct (wpr_run _ _ _ (permute_spec category lt test Ht Hc _ _ xs _ eq_refl
    (seg_middle pre post xs))) as (b & l & -> & ys & Hn & Hs & C).
  exists b, ys. split; [|done]. f_equal. f_equal.
  apply (changed_middle _ _ xs); [done|by apply zlen_perm, Hn|done].
Qed.

Lemma next_of_converse xs b r : next_of (converse comp) xs b r ↔
  r ≡ₚ xs ∧
  if b then before comp r xs = true ∧
    ∀ zs, same_numbers comp zs xs → before comp zs xs = true → before comp r zs = false
  else in_order (converse comp) r ∧ ∀ zs, same_numbers comp zs xs → before comp zs xs = false.
Proof.
  assert (∀ zs, same_numbers (converse comp) zs xs ↔ same_numbers comp zs xs) as En.
  { intros zs. split; intros H a; specialize (H a); by rewrite !number_converse in *. }
  unfold next_of. destruct b; rewrite ?before_converse.
  - split; intros (? & ? & H); (split_and!; [done..|]); intros zs Hz%En;
      specialize (H zs Hz); by rewrite ?before_converse in *.
  - split; intros (? & ? & H); (split_and!; [done..|]); intros zs Hz%En;
      specialize (H zs Hz); by rewrite ?before_converse in *.
Qed.

(** C27: [std::next_permutation], for bidirectional and random access iterators and any
    strict weak order, ends without undefined behaviour, changes nothing outside the
    range and leaves a permutation of it. When it returns [true] that permutation is after
    the given one in dictionary order and no sequence of the same values lies strictly in
    between; when it returns [false] no sequence of the same values is after the given
    one, and the least of them is left: the sorted one. *)
Theorem next_permutation_is_next (pre post : list (option A)) xs :
  category ≠ forward_iterator_tag →
  ∃ b ys, __next_permutation category comp (zlen pre) (zlen pre + zlen xs) (pre ++ (Some <$> xs) ++ post) =
      Some (b, pre ++ (Some <$> ys) ++ post) ∧ ys ≡ₚ xs ∧
    if b then before comp xs ys = true ∧
      ∀ zs, same_numbers comp zs xs → before comp xs zs = true → before comp zs ys = false
    else in_order comp ys ∧ ∀ zs, same_numbers comp zs xs → before comp xs zs = false.
Proof.
  intros Hc. rewrite next_permutes. apply (permute_at _ comp); [done| |done].
  intros. by eapply wpr_iter_iter.
Qed.

(** The same for [std::prev_permutation], in the other direction. *)
Theorem prev_permutation_is_previous (pre post : list (option A)) xs :
  category ≠ forward_iterator_tag →
  ∃ b ys, __prev_permutation category comp (zlen pre) (zlen pre + zlen xs) (pre ++ (Some <$> xs) ++ post) =
      Some (b, pre ++ (Some <$> ys) ++ post) ∧ ys ≡ₚ xs ∧
    if b then before comp ys xs = true ∧
      ∀ zs, same_numbers comp zs xs → before comp zs xs = true → before comp ys zs = false
    else in_order (converse comp) ys ∧ ∀ zs, same_numbers comp zs xs → before comp zs xs = false.
Proof.
  intros Hc. rewrite prev_permutes.
  destruct (permute_at (λ i j, _Iter_comp_iter comp j i) (converse comp) pre post xs)
    as (b & ys & E & Hn); [apply _| |done|].
  { intros. by eapply wpr_iter_iter. }
  exists b, ys. split; [done|]. by apply next_of_converse.
Qed.
End Theorems.

(** Keys with equal values, at both kinds of iterator, and the end of the order. *)
Lemma next_permutation_is_next_witness :
  (∃ b ys, __next_permutation random_access_iterator_tag Z.ltb 1 5
      [None; Some 1; Some 3; Some 3; Some 2] = Some (b, None :: (Some <$> ys)) ∧ ys ≡ₚ [1; 3; 3; 2]) ∧
  __next_permutation bidirectional_iterator_tag Z.ltb 1 5
      [None; Some 1; Some 3; Some 3; Some 2] = Some (true, [None; Some 2; Some 1; Some 3; Some 3]) ∧
  __next_permutation random_access_iterator_tag Z.ltb 0 3
      [Some 3; Some 2; Some 1] = Some (false, [Some 1; Some 2; Some 3]).
Proof.
  split_and!; [|by vm_compute..].
  destruct (next_permutation_is_next random_access_iterator_tag Z.ltb [None] [] [1; 3; 3; 2] ltac:(done))
    as (b & ys & E & Hp & _).
  exists b, ys. split; [|done]. cbn [app] in E. rewrite !app_nil_r in E. exact E.
Defined.
