(* ===== verification/Obstack.v ===== *)
(** * Obstacks, [obstack.h]

    The macros for stacks of growing objects, in the variant for GNU C, with
    32-bit pointers and [int]s. The functions of [obstack.c], which the macros
    call when a chunk is full and to free objects of older chunks, are the class
    [Slow_paths]: their types here, what is documented of them in [ObstackSpec].

    A pointer is an address, and arithmetic on it wraps around at 32 bits. The
    memory maps the addresses of allocated bytes to their values, [None] for a
    byte that has not been written. *)
From stdpp Require Import base numbers list gmap.
From Stdlib Require Import ZArith Lia.
From S2P Require Import Prelude.

(** * State and outcomes *)

(** [struct obstack]; [temp] is not used by these macros. *)
Record obstack := Obstack {
  chunk_size : Z;
  chunk : Z;
  object_base : Z;
  next_free : Z;
  chunk_limit : Z;
  alignment_mask : Z;
  chunkfun : Z;
  freefun : Z;
  extra_arg : Z;
  use_extra_arg : bool;
  maybe_empty_object : bool;
  alloc_failed : bool;
}.

Definition set_next_free (a : Z) (h : obstack) : obstack :=
  Obstack (chunk_size h) (chunk h) (object_base h) a (chunk_limit h) (alignment_mask h) (chunkfun h)
    (freefun h) (extra_arg h) (use_extra_arg h) (maybe_empty_object h) (alloc_failed h).
Definition set_object_base (a : Z) (h : obstack) : obstack :=
  Obstack (chunk_size h) (chunk h) a (next_free h) (chunk_limit h) (alignment_mask h) (chunkfun h)
    (freefun h) (extra_arg h) (use_extra_arg h) (maybe_empty_object h) (alloc_failed h).
Definition set_maybe_empty_object (b : bool) (h : obstack) : obstack :=
  Obstack (chunk_size h) (chunk h) (object_base h) (next_free h) (chunk_limit h) (alignment_mask h)
    (chunkfun h) (freefun h) (extra_arg h) (use_extra_arg h) b (alloc_failed h).
Definition set_chunkfun (f : Z) (h : obstack) : obstack :=
  Obstack (chunk_size h) (chunk h) (object_base h) (next_free h) (chunk_limit h) (alignment_mask h)
    f (freefun h) (extra_arg h) (use_extra_arg h) (maybe_empty_object h) (alloc_failed h).
Definition set_freefun (f : Z) (h : obstack) : obstack :=
  Obstack (chunk_size h) (chunk h) (object_base h) (next_free h) (chunk_limit h) (alignment_mask h)
    (chunkfun h) f (extra_arg h) (use_extra_arg h) (maybe_empty_object h) (alloc_failed h).

Abbreviation byte := (option Z).
Abbreviation memory := (gmap Z byte).
Abbreviation state := (obstack * memory)%type.

(** A macro returns, or does not return because [obstack_alloc_failed_handler] was called,
    or its behaviour is undefined. *)
Inductive outcome (A : Type) : Type :=
  | Returns (a : A) (s : state)
  | Alloc_failed
  | Undefined.
Arguments Returns {A} a s.
Arguments Alloc_failed {A}.
Arguments Undefined {A}.

Definition O (A : Type) : Type := state → outcome A.

#[export] Instance O_ret : MRet O := λ A a s, Returns a s.
#[export] Instance O_bind : MBind O := λ A B k m s,
  match m s with
  | Returns a s' => k a s'
  | Alloc_failed => Alloc_failed
  | Undefined => Undefined
  end.

Definition field {A} (f : obstack → A) : O A := λ s, Returns (f s.1) s.
Definition update (f : obstack → obstack) : O unit := λ s, Returns tt (f s.1, s.2).
Definition undefined {A} : O A := λ _, Undefined.

(** * Pointers and memory *)

(** [p + n] and [p - q]; differences are of type [ptrdiff_t], which is [int]. *)
Definition ptr_add (p n : Z) : Z := u32 (p + n).
Definition ptr_sub (p q : Z) : Z :=
  let d := u32 (p - q) in if d <? 2147483648 then d else d - 4294967296.
Definition is_int (z : Z) : Prop := -2147483648 <= z < 2147483648.

#[export] Instance is_int_dec z : Decision (is_int z).
Proof. unfold is_int. apply _. Defined.

Fixpoint read_bytes (m : memory) (a : Z) (n : nat) : option (list byte) :=
  match n with
  | 0%nat => Some []
  | S n => b ← m !! a; bs ← read_bytes m (a + 1) n; Some (b :: bs)
  end.

Fixpoint write_bytes (a : Z) (bs : list byte) (m : memory) : memory :=
  match bs with
  | [] => m
  | b :: bs => <[a := b]> (write_bytes (a + 1) bs m)
  end.

(** Writing to bytes that are allocated. *)
Definition store (a : Z) (bs : list byte) : O unit := λ '(h, m),
  match read_bytes m a (length bs) with
  | Some _ => Returns tt (h, write_bytes a bs m)
  | None => Undefined
  end.

(** [memcpy]: a negative length is an enormous [size_t]; the ranges must not overlap. *)
Definition memcpy (dst src n : Z) : O unit := λ s,
  if decide (0 <= n ∧ (dst + n <= src ∨ src + n <= dst)) then
    match read_bytes s.2 src (Z.to_nat n) with
    | Some bs => store dst bs s
    | None => Undefined
    end
  else Undefined.

(** A word, least significant byte first, at an aligned address. *)
Definition word_bytes (v : Z) : list byte :=
  [Some (v mod 256); Some (v / 256 mod 256); Some (v / 65536 mod 256); Some (v / 16777216 mod 256)].
Definition store_word (a v : Z) : O unit :=
  if a mod 4 =? 0 then store a (word_bytes (u32 v)) else undefined.
Definition bytes_word (bs : list byte) : option Z :=
  match bs with
  | [Some b0; Some b1; Some b2; Some b3] => Some (b0 + 256 * (b1 + 256 * (b2 + 256 * b3)))
  | _ => None
  end.
Definition load_word (a : Z) : O Z := λ s,
  match (if a mod 4 =? 0 then read_bytes s.2 a 4 ≫= bytes_word else None) with
  | Some v => Returns v s
  | None => Undefined
  end.

(** [struct _obstack_chunk] at address [c]. *)
Definition chunk_limit_of (c : Z) : O Z := load_word c.
Definition chunk_prev_of (c : Z) : O Z := load_word (c + 4).
Definition chunk_contents (c : Z) : Z := ptr_add c 8.

(** * Alignment *)

(** [((B) + (((P) - (B) + (A)) & ~(A)))]; the sum of the difference and the mask is an [int]. *)
Definition __BPTR_ALIGN (B P A : Z) : O Z :=
  let d := ptr_sub P B in
  if decide (is_int (d + A)) then mret (ptr_add B ((d + A) .& Z.lnot A)) else undefined.

(** The size of [PTR_INT_TYPE] is not less than that of a pointer: the test is [4 < 4]. *)
Definition __PTR_ALIGN (B P A : Z) : O Z :=
  __BPTR_ALIGN (if 4 <? 4 then B else 0) P A.

(** * The functions of [obstack.c] *)

Class Slow_paths := {
  _obstack_newchunk : Z → O unit;
  _obstack_begin : Z → Z → Z → Z → O Z;
  _obstack_begin_1 : Z → Z → Z → Z → Z → O Z;
  __obstack_free : Z → O unit;
}.

Section Macros.
Context `{!Slow_paths}.

(** [obstack_chunk_alloc] and [obstack_chunk_free], which the user defines. *)
Variables obstack_chunk_alloc obstack_chunk_free : Z.

Definition obstack_base : O Z := field object_base.
Definition obstack_chunk_size : O Z := field chunk_size.
Definition obstack_next_free : O Z := field next_free.
Definition obstack_alignment_mask : O Z := field alignment_mask.

Definition obstack_init : O Z := _obstack_begin 0 0 obstack_chunk_alloc obstack_chunk_free.
Definition obstack_begin (size : Z) : O Z :=
  _obstack_begin size 0 obstack_chunk_alloc obstack_chunk_free.
Definition obstack_specify_allocation (size alignment chunkfun freefun : Z) : O Z :=
  _obstack_begin size alignment chunkfun freefun.
Definition obstack_specify_allocation_with_arg (size alignment chunkfun freefun arg : Z) : O Z :=
  _obstack_begin_1 size alignment chunkfun freefun arg.
Definition obstack_chunkfun (newchunkfun : Z) : O unit := update (set_chunkfun newchunkfun).
Definition obstack_freefun (newfreefun : Z) : O unit := update (set_freefun newfreefun).

(** [( *((h)->next_free)++ = (achar))]. *)
Definition obstack_1grow_fast (achar : Z) : O unit :=
  p ← field next_free;
  update (set_next_free (ptr_add p 1));;
  store p [Some (u8 achar)].

Definition obstack_blank_fast (n : Z) : O unit :=
  p ← field next_free;
  update (set_next_free (ptr_add p n)).

Definition obstack_object_size : O Z :=
  next ← field next_free;
  base ← field object_base;
  mret (u32 (ptr_sub next base)).

Definition obstack_room : O Z :=
  limit ← field chunk_limit;
  next ← field next_free;
  mret (u32 (ptr_sub limit next)).

Definition obstack_make_room (length : Z) : O unit :=
  let len := length in
  limit ← field chunk_limit;
  next ← field next_free;
  if ptr_sub limit next <? len then _obstack_newchunk len else mret tt.

Definition obstack_empty_p : O bool :=
  c ← field chunk;
  prev ← chunk_prev_of c;
  if prev =? 0 then
    next ← field next_free;
    mask ← field alignment_mask;
    p ← __PTR_ALIGN c (chunk_contents c) mask;
    mret (next =? p)
  else mret false.

Definition obstack_grow (where_ length : Z) : O unit :=
  let len := length in
  next ← field next_free;
  limit ← field chunk_limit;
  (if limit <? ptr_add next len then _obstack_newchunk len else mret tt);;
  next ← field next_free;
  memcpy next where_ len;;
  update (set_next_free (ptr_add next len)).

Definition obstack_grow0 (where_ length : Z) : O unit :=
  let len := length in
  next ← field next_free;
  limit ← field chunk_limit;
  (if limit <? ptr_add (ptr_add next len) 1 then _obstack_newchunk (len + 1) else mret tt);;
  next ← field next_free;
  memcpy next where_ len;;
  update (set_next_free (ptr_add next len));;
  next ← field next_free;
  update (set_next_free (ptr_add next 1));;
  store next [Some 0].

Definition obstack_1grow (datum : Z) : O unit :=
  next ← field next_free;
  limit ← field chunk_limit;
  (if limit <? ptr_add next 1 then _obstack_newchunk 1 else mret tt);;
  obstack_1grow_fast datum.

Definition obstack_ptr_grow_fast (aptr : Z) : O unit :=
  p1 ← field next_free;
  store_word p1 aptr;;
  update (set_next_free (ptr_add p1 4)).

Definition obstack_int_grow_fast (aint : Z) : O unit :=
  p1 ← field next_free;
  store_word p1 aint;;
  update (set_next_free (ptr_add p1 4)).

Definition obstack_ptr_grow (datum : Z) : O unit :=
  next ← field next_free;
  limit ← field chunk_limit;
  (if limit <? ptr_add next 4 then _obstack_newchunk 4 else mret tt);;
  obstack_ptr_grow_fast datum.

Definition obstack_int_grow (datum : Z) : O unit :=
  next ← field next_free;
  limit ← field chunk_limit;
  (if limit <? ptr_add next 4 then _obstack_newchunk 4 else mret tt);;
  obstack_int_grow_fast datum.

Definition obstack_blank (length : Z) : O unit :=
  let len := length in
  limit ← field chunk_limit;
  next ← field next_free;
  (if ptr_sub limit next <? len then _obstack_newchunk len else mret tt);;
  obstack_blank_fast len.

(** Returns the object that is finished. *)
Definition obstack_finish : O Z :=
  value ← field object_base;
  next ← field next_free;
  (if next =? value then update (set_maybe_empty_object true) else mret tt);;
  base ← field object_base;
  next ← field next_free;
  mask ← field alignment_mask;
  p ← __PTR_ALIGN base next mask;
  update (set_next_free p);;
  next ← field next_free;
  c ← field chunk;
  limit ← field chunk_limit;
  (if ptr_sub limit c <? ptr_sub next c then update (set_next_free limit) else mret tt);;
  next ← field next_free;
  update (set_object_base next);;
  mret value.

Definition obstack_alloc (length : Z) : O Z :=
  obstack_blank length;;
  obstack_finish.

Definition obstack_copy (where_ length : Z) : O Z :=
  obstack_grow where_ length;;
  obstack_finish.

Definition obstack_copy0 (where_ length : Z) : O Z :=
  obstack_grow0 where_ length;;
  obstack_finish.

Definition obstack_free (obj : Z) : O unit :=
  c ← field chunk;
  limit ← field chunk_limit;
  if (c <? obj) && (obj <? limit) then
    update (set_object_base obj);;
    update (set_next_free obj)
  else __obstack_free obj.
End Macros.
