(* ===== verification/ObstackSpec.v ===== *)
(** * What obstacks promise: chunks, objects, and the functions of [obstack.c]

    An obstack is a stack of finished objects and one that is growing. Here is
    how they lie in memory ([rep]): the objects of a chunk one above the other,
    the growing one on top in the current chunk, chunks and other memory
    apart, and the flag [maybe_empty_object] set if the current chunk has an empty
    object. The class [Obstack_c] states what is documented of the functions of
    [obstack.c] in these terms. *)
From stdpp Require Import base numbers list gmap.
From Stdlib Require Import ZArith Lia.
From S2P Require Import Prelude Obstack.

(** * Bytes in memory *)

Definition size {A} (l : list A) : Z := Z.of_nat (length l).

Lemma size_app {A} (l k : list A) : size (l ++ k) = size l + size k.
Proof. unfold size. rewrite length_app. lia. Qed.
Lemma size_nonneg {A} (l : list A) : 0 <= size l.
Proof. unfold size. lia. Qed.
Lemma size_cons {A} (x : A) l : size (x :: l) = 1 + size l.
Proof. unfold size. cbn [length]. lia. Qed.
Lemma size_nil {A} : size (@nil A) = 0.
Proof. done. Qed.
Lemma size_zero {A} (l : list A) : size l = 0 → l = [].
Proof. unfold size. destruct l; [done|]. cbn. lia. Qed.

(** Linear arithmetic with the sizes of lists. *)
Ltac sizes :=
  repeat match goal with
  | H : context [size (_ ++ _)] |- _ => rewrite !size_app in H
  | H : context [size (_ :: _)] |- _ => rewrite !size_cons in H
  | |- context [size (_ ++ _)] => rewrite !size_app
  | |- context [size (_ :: _)] => rewrite !size_cons
  | H : context [size (@nil ?A)] |- _ => change (size (@nil A)) with 0 in H
  | |- context [size (@nil ?A)] => change (size (@nil A)) with 0
  end;
  repeat match goal with
  | H : context [size ?l] |- _ => lazymatch goal with K : 0 <= size l |- _ => fail | _ => pose proof (size_nonneg l) end
  | |- context [size ?l] => lazymatch goal with K : 0 <= size l |- _ => fail | _ => pose proof (size_nonneg l) end
  end.
Ltac slia := sizes; lia.

(** The bytes from [a] on are [bs]. *)
Definition holds_bytes (m : memory) (a : Z) (bs : list byte) : Prop :=
  read_bytes m a (length bs) = Some bs.

(** The bytes of a range are allocated. *)
Definition allocated (m : memory) (lo hi : Z) : Prop := ∀ i, lo <= i < hi → is_Some (m !! i).

(** [m'] has the bytes of [m] outside a range, and allocates no less. *)
Definition written (lo hi : Z) (m m' : memory) : Prop :=
  (∀ i, i < lo ∨ hi <= i → m' !! i = m !! i) ∧ (∀ i, is_Some (m !! i) → is_Some (m' !! i)).

Lemma holds_nil m a : holds_bytes m a [].
Proof. done. Qed.

Lemma holds_cons m a b bs : holds_bytes m a (b :: bs) ↔ m !! a = Some b ∧ holds_bytes m (a + 1) bs.
Proof.
  unfold holds_bytes. cbn [read_bytes length]. unfold mbind, option_bind.
  destruct (m !! a) as [c|]; [|by split; [|intros [? _] ]].
  destruct (read_bytes m (a + 1) (length bs)) as [cs|]; [|by split; [|intros [_ ?] ]].
  split; [by intros [= -> ->]|by intros [ [= ->] [= ->] ] ].
Qed.

Lemma holds_app m a bs cs : holds_bytes m a (bs ++ cs) ↔ holds_bytes m a bs ∧ holds_bytes m (a + size bs) cs.
Proof.
  revert a. induction bs as [|b bs IH]; intros a; cbn [app].
  - change (size (@nil byte)) with 0. rewrite Z.add_0_r. pose proof (holds_nil m a). tauto.
  - rewrite !holds_cons, IH, size_cons, Z.add_assoc. tauto.
Qed.

Lemma holds_lookup m a bs :
  holds_bytes m a bs ↔ ∀ i, 0 <= i < size bs → m !! (a + i) = bs !! Z.to_nat i.
Proof.
  revert a. induction bs as [|b bs IH]; intros a.
  - split; [intros _ i Hi; slia|by intros _; apply holds_nil].
  - rewrite holds_cons, IH, size_cons. split.
    + intros [Hb H] i Hi. destruct (decide (i = 0)) as [->|]; [by rewrite Z.add_0_r|].
      replace (a + i) with (a + 1 + (i - 1)) by lia. rewrite H by lia.
      replace (Z.to_nat i) with (S (Z.to_nat (i - 1))) by lia. done.
    + intros H. pose proof (size_nonneg bs). split.
      * specialize (H 0). rewrite Z.add_0_r in H. apply H. lia.
      * intros i Hi. replace (a + 1 + i) with (a + (i + 1)) by lia. rewrite H by lia.
        replace (Z.to_nat (i + 1)) with (S (Z.to_nat i)) by lia. done.
Qed.

Lemma holds_agree m m' a bs :
  holds_bytes m a bs → (∀ i, a <= i < a + size bs → m' !! i = m !! i) → holds_bytes m' a bs.
Proof. rewrite !holds_lookup. intros H E i Hi. rewrite E by lia. by apply H. Qed.

Lemma holds_written lo hi m m' a bs :
  written lo hi m m' → holds_bytes m a bs → a + size bs <= lo ∨ hi <= a ∨ bs = [] → holds_bytes m' a bs.
Proof.
  intros [E _] H Ha. apply (holds_agree m); [done|]. intros i Hi. apply E.
  destruct Ha as [?|[?| ->] ]; [lia|lia|]. slia.
Qed.

Lemma holds_allocated m a bs : holds_bytes m a bs → allocated m a (a + size bs).
Proof.
  rewrite holds_lookup. intros H i Hi. specialize (H (i - a)). replace (a + (i - a)) with i in H by lia.
  rewrite H by lia. apply lookup_lt_is_Some_2. unfold size in *. lia.
Qed.

Lemma allocated_read m a n : 0 <= n → allocated m a (a + n) → ∃ bs, size bs = n ∧ holds_bytes m a bs.
Proof.
  intros Hn. revert a. pattern n. apply natlike_ind; [|clear n Hn; intros n Hn IH a H|done].
  - intros a _. by exists [].
  - destruct (H a) as [b Hb]; [lia|]. destruct (IH (a + 1)) as (bs & Es & Hbs); [intros i Hi; apply H; lia|].
    exists (b :: bs). rewrite size_cons, holds_cons. split; [lia|done].
Qed.

Lemma allocated_sub m lo hi lo' hi' : allocated m lo hi → lo <= lo' → hi' <= hi → allocated m lo' hi'.
Proof. intros H ?? i Hi. apply H. lia. Qed.

Lemma write_lookup_out a bs m i : i < a ∨ a + size bs <= i → write_bytes a bs m !! i = m !! i.
Proof.
  revert a. induction bs as [|b bs IH]; intros a Hi; [done|]. cbn [write_bytes].
  rewrite size_cons in Hi. pose proof (size_nonneg bs).
  rewrite lookup_insert_ne by lia. apply IH. lia.
Qed.

Lemma write_holds a bs m : holds_bytes (write_bytes a bs m) a bs.
Proof.
  revert a. induction bs as [|b bs IH]; intros a; [done|]. apply holds_cons. cbn [write_bytes].
  split; [by rewrite lookup_insert_eq|]. apply (holds_agree (write_bytes (a + 1) bs m)); [apply IH|].
  intros i Hi. by rewrite lookup_insert_ne by lia.
Qed.

Lemma write_written a bs m lo hi :
  lo <= a → a + size bs <= hi → written lo hi m (write_bytes a bs m).
Proof.
  intros ??. split.
  - intros i Hi. apply write_lookup_out. lia.
  - intros i Hi. destruct (decide (a <= i < a + size bs)) as [Hin|]; [|by rewrite write_lookup_out by lia].
    apply (holds_allocated _ a bs); [apply write_holds|done].
Qed.

(** * Running macros *)

Definition wpo {A} (m : O A) (Q : A → state → Prop) (s : state) : Prop :=
  match m s with
  | Returns a s' => Q a s'
  | Alloc_failed => True
  | Undefined => False
  end.

Section Rules.
Context {A B : Type}.

Lemma wpo_ret (a : A) (Q : A → state → Prop) s : Q a s → wpo (mret a) Q s.
Proof. done. Qed.

Lemma wpo_bind (m : O A) (k : A → O B) (Q : B → state → Prop) s :
  wpo m (λ a, wpo (k a) Q) s → wpo (m ≫= k) Q s.
Proof. unfold wpo, mbind, O_bind. by destruct (m s). Qed.

Lemma wpo_mono (m : O A) (P Q : A → state → Prop) s :
  wpo m P s → (∀ a s', P a s' → Q a s') → wpo m Q s.
Proof. unfold wpo. destruct (m s); auto. Qed.

Lemma wpo_field (f : obstack → A) (Q : A → state → Prop) h m : Q (f h) (h, m) → wpo (field f) Q (h, m).
Proof. done. Qed.

Lemma wpo_field_bind (f : obstack → A) (k : A → O B) Q h m :
  wpo (k (f h)) Q (h, m) → wpo (x ← field f; k x) Q (h, m).
Proof. done. Qed.

Lemma wpo_update_bind (f : obstack → obstack) (k : O B) Q h m :
  wpo k Q (f h, m) → wpo (update f;; k) Q (h, m).
Proof. done. Qed.
End Rules.

Lemma wpo_update f (Q : unit → state → Prop) h m : Q tt (f h, m) → wpo (update f) Q (h, m).
Proof. done. Qed.

Lemma wpo_store a bs (Q : unit → state → Prop) h m :
  allocated m a (a + size bs) → Q tt (h, write_bytes a bs m) → wpo (store a bs) Q (h, m).
Proof.
  intros Ha HQ. unfold wpo, store. destruct (allocated_read m a (size bs)) as (cs & Es & H); [apply size_nonneg|done|].
  unfold holds_bytes in H. replace (length bs) with (length cs) by (unfold size in Es; lia). by rewrite H.
Qed.

Lemma wpo_memcpy dst src bs (Q : unit → state → Prop) h m :
  holds_bytes m src bs → allocated m dst (dst + size bs) → dst + size bs <= src ∨ src + size bs <= dst →
  Q tt (h, write_bytes dst bs m) → wpo (memcpy dst src (size bs)) Q (h, m).
Proof.
  intros Hs Hd Ho HQ. unfold wpo, memcpy. rewrite decide_True by (pose proof (size_nonneg bs); lia).
  unfold size at 1. rewrite Nat2Z.id. cbn [snd]. rewrite Hs. by apply wpo_store.
Qed.

(** * Alignment *)

Section Align.
Variable n : Z.
Hypothesis n_range : 0 <= n < 31.
Local Abbreviation mask := (2 ^ n - 1).

(** The next multiple of [2 ^ n]. *)
Definition align (p : Z) : Z := (p + mask) .& Z.lnot mask.
Definition aligned (p : Z) : Prop := p mod 2 ^ n = 0.

Lemma pow_bounds : 1 <= 2 ^ n <= 1073741824.
Proof.
  split; [pose proof (Z.pow_pos_nonneg 2 n); lia|]. apply (Z.pow_le_mono_r 2 n 30); lia.
Qed.

Lemma align_eq p : align p = p + mask - (p + mask) mod 2 ^ n.
Proof.
  unfold align. rewrite <- Z.ldiff_land. replace mask with (Z.ones n) at 2 by (rewrite Z.ones_equiv; lia).
  rewrite Z.ldiff_ones_r, Z.shiftl_mul_pow2, Z.shiftr_div_pow2 by lia.
  pose proof (Z.div_mod (p + mask) (2 ^ n)). pose proof pow_bounds. lia.
Qed.

Lemma align_range p : p <= align p <= p + mask.
Proof. rewrite align_eq. pose proof (Z.mod_pos_bound (p + mask) (2 ^ n)). pose proof pow_bounds. lia. Qed.

Lemma align_aligned p : aligned (align p).
Proof.
  unfold aligned. rewrite align_eq, Zminus_mod_idemp_r. by rewrite Z.sub_diag.
Qed.

Lemma aligned_align p : aligned p → align p = p.
Proof.
  unfold aligned. intros H. rewrite align_eq, <- Zplus_mod_idemp_l, H, Z.add_0_l.
  pose proof pow_bounds. rewrite Z.mod_small; lia.
Qed.

(** The address space is a multiple of every alignment. *)
Lemma align_wraps p : align (p - 4294967296) = align p - 4294967296.
Proof.
  rewrite !align_eq. replace (p - 4294967296 + mask) with (p + mask + - 2 ^ (32 - n) * 2 ^ n).
  - rewrite Z.mod_add by (pose proof pow_bounds; lia). replace 4294967296 with (2 ^ (32 - n) * 2 ^ n); [lia|].
    rewrite <- Z.pow_add_r by lia. by replace (32 - n + n) with 32 by lia.
  - rewrite Z.mul_opp_l, <- Z.pow_add_r by lia. replace (32 - n + n) with 32 by lia. lia.
Qed.

(** The sum with the mask is an [int] except at the end of the lower half of the address space. *)
Lemma wpo_align base p (Q : Z → state → Prop) s :
  0 <= p → p + mask < 2147483648 ∨ 2147483648 <= p → p + mask < 4294967296 →
  Q (align p) s → wpo (__PTR_ALIGN base p mask) Q s.
Proof.
  intros Hp Hm Hend HQ. unfold __PTR_ALIGN, __BPTR_ALIGN. change (4 <? 4) with false. cbv iota zeta.
  pose proof pow_bounds. pose proof (align_range p). unfold ptr_sub.
  rewrite Z.sub_0_r, u32_id by (unfold is_u32; lia). destruct (Z.ltb_spec p 2147483648).
  - rewrite decide_True by (unfold is_int; lia). fold (align p). apply wpo_ret.
    unfold ptr_add. rewrite Z.add_0_l, u32_id; [done|]. unfold is_u32. lia.
  - rewrite decide_True by (unfold is_int; lia). fold (align (p - 4294967296)). apply wpo_ret.
    rewrite align_wraps. unfold ptr_add, u32. rewrite Z.add_0_l, <- (Z.mod_add _ 1) by lia.
    rewrite Z.mod_small by lia. by replace (align p - 4294967296 + 1 * 4294967296) with (align p) by lia.
Qed.
End Align.

(** * Objects in chunks *)

(** An object: its address and its bytes. *)
Abbreviation object := (Z * list byte)%type.

(** A chunk with its finished objects, the last one first. *)
Record piece := Piece { p_addr : Z; p_limit : Z; p_objects : list object }.

(** The objects lie one above the other between [lo] and [hi]. *)
Fixpoint placed (lo hi : Z) (os : list object) : Prop :=
  match os with
  | [] => lo <= hi
  | (a, bs) :: os => a + size bs <= hi ∧ placed lo a os
  end.

(** The header: [limit] and [prev]. *)
Definition header (k : piece) (prev : Z) : list byte := word_bytes (p_limit k) ++ word_bytes prev.

Definition prev_of (ks : list piece) : Z := match ks with [] => 0 | k :: _ => p_addr k end.

Fixpoint chained (m : memory) (ks : list piece) : Prop :=
  match ks with
  | [] => True
  | k :: ks => holds_bytes m (p_addr k) (header k (prev_of ks)) ∧ chained m ks
  end.

(** Chunks share no memory. *)
Definition apart (k k' : piece) : Prop := p_limit k <= p_addr k' ∨ p_limit k' <= p_addr k.

Definition all_objects (ks : list piece) : list object := concat (p_objects <$> ks).

(** An address that no chunk goes beyond. *)
Class Ceiling := ceiling : Z.

Section Rep.
Context {C : Ceiling}.
Variable n : Z.
Local Abbreviation mask := (2 ^ n - 1).

(** Where the objects of a chunk begin. *)
Definition start (k : piece) : Z := align n (p_addr k + 8).

(** An object is aligned; an empty one may also lie at the end of its chunk. *)
Definition object_ok (k : piece) (o : object) : Prop :=
  aligned n o.1 ∨ (o.2 = [] ∧ o.1 = p_limit k).

(** Where the macros can handle a chunk, as they compute with [int]s and round up without a
    test: it is not larger than an [int], and with the room for an alignment behind it it does not
    reach the end of the address space, or from its lower into its upper half. *)
Definition well_placed (lo hi : Z) : Prop :=
  hi <= ceiling ∧ hi - lo + mask < 2147483648 ∧ hi + mask < 4294967296 ∧
  (hi + mask < 2147483648 ∨ 2147483648 <= lo).

Record piece_ok (m : memory) (k : piece) : Prop := {
  piece_addr : 0 < p_addr k;
  piece_word : p_addr k mod 4 = 0;
  piece_top : well_placed (p_addr k) (p_limit k);
  piece_start : start k <= p_limit k;
  piece_allocated : allocated m (p_addr k) (p_limit k);
  piece_placed : placed (start k) (p_limit k) (p_objects k);
  piece_holds : Forall (λ o, holds_bytes m o.1 o.2) (p_objects k);
  piece_objects : Forall (object_ok k) (p_objects k);
}.

(** Other memory, which is not changed. *)
Definition framed (F m : memory) (ks : list piece) : Prop :=
  F ⊆ m ∧ ∀ i, is_Some (F !! i) → Forall (λ k, i < p_addr k ∨ p_limit k <= i) ks.

(** The obstack [h] in memory [m] has the chunks [k :: ks], and the growing object
    has the bytes [cur]. *)
Record rep (F : memory) (k : piece) (ks : list piece) (cur : list byte) (h : obstack) (m : memory) : Prop := {
  rep_chunk : chunk h = p_addr k;
  rep_limit : chunk_limit h = p_limit k;
  rep_mask : alignment_mask h = mask;
  rep_pieces : Forall (piece_ok m) (k :: ks);
  rep_apart : ForallOrdPairs apart (k :: ks);
  rep_chained : chained m (k :: ks);
  rep_framed : framed F m (k :: ks);
  rep_base : placed (start k) (object_base h) (p_objects k);
  rep_next : next_free h = object_base h + size cur;
  rep_room : next_free h <= chunk_limit h;
  rep_current : holds_bytes m (object_base h) cur;
  rep_aligned : aligned n (object_base h) ∨ (cur = [] ∧ object_base h = chunk_limit h);
  rep_empty : Exists (λ o, o.2 = []) (p_objects k) → maybe_empty_object h = true;
}.
End Rep.

(** * What is documented of [obstack.c]

    [_obstack_newchunk] allocates a larger chunk, copies the growing object to its
    beginning and leaves room for [length] more bytes; the old chunk is freed if
    nothing but the growing object can be in it. [__obstack_free] frees an object
    and everything that was allocated since. [_obstack_begin] makes the first
    chunk. Other memory is left alone.

    The chunks are taken from memory where the macros can handle them ([well_placed]), below
    the address [ceiling]: this is not documented but a condition of the macros on
    [obstack_chunk_alloc]. *)

Definition default_alignment (alignment n : Z) : Prop :=
  0 <= n < 31 ∧ (alignment = 0 ∨ alignment = 2 ^ n).

Class Obstack_c `{!Slow_paths} `{!Ceiling} := {
  newchunk_spec n F k ks cur h m length :
    0 <= n < 31 → rep n F k ks cur h m → 0 <= length < 2147483648 →
    wpo (_obstack_newchunk length) (λ _ '(h', m'), ∃ k' ks',
      rep n F k' ks' cur h' m' ∧ p_objects k' = [] ∧ aligned n (object_base h') ∧
      next_free h' + length <= chunk_limit h' ∧
      (ks' = k :: ks ∨
       (ks' = ks ∧ object_base h = start n k ∧ maybe_empty_object h = false))) (h, m);
  free_spec n F k ks cur h m ks1 c l os1 a bs os2 ks2 :
    0 <= n < 31 → rep n F k ks cur h m → k :: ks = ks1 ++ Piece c l (os1 ++ (a, bs) :: os2) :: ks2 →
    wpo (__obstack_free a) (λ _ '(h', m'), rep n F (Piece c l os2) ks2 [] h' m') (h, m);
  begin_spec F m h size alignment chunkfun freefun :
    F ⊆ m → alignment = 0 ∨ (∃ n, 0 <= n < 31 ∧ alignment = 2 ^ n) →
    wpo (_obstack_begin size alignment chunkfun freefun) (λ _ '(h', m'), ∃ n k,
      default_alignment alignment n ∧ rep n F k [] [] h' m' ∧ p_objects k = []) (h, m);
}.
