(* ===== verification/ObstackTheory.v ===== *)
(** * Obstacks implement stacks of growing objects

    The macros of [Obstack] on the representation of [ObstackSpec], for any
    functions of [obstack.c] that do what is documented of them, and the
    refinement: any sequence of operations behaves as on a stack of lists of bytes.
    The last section has functions that satisfy the class [Obstack_c]. *)
From stdpp Require Import base numbers list gmap.
From Stdlib Require Import ZArith Lia.
From S2P Require Import Prelude Obstack ObstackSpec.

(** * Objects that lie in chunks *)

Lemma placed_le lo hi os : placed lo hi os → lo <= hi.
Proof.
  revert hi. induction os as [|[a bs] os IH]; intros hi; [done|]. intros [? H%IH]. slia.
Qed.

Lemma placed_in lo hi os o : placed lo hi os → o ∈ os → lo <= o.1 ∧ o.1 + size o.2 <= hi.
Proof.
  revert hi. induction os as [|[a bs] os IH]; intros hi H Ho; [by apply elem_of_nil in Ho|].
  destruct H as [Hb H]. pose proof (placed_le _ _ _ H).
  apply elem_of_cons in Ho as [->|Ho]; cbn [fst snd]; [lia|]. destruct (IH a H Ho). slia.
Qed.

Lemma placed_app lo hi os1 a bs os2 :
  placed lo hi (os1 ++ (a, bs) :: os2) ↔ placed (a + size bs) hi os1 ∧ placed lo a os2.
Proof.
  revert hi. induction os1 as [|[b cs] os1 IH]; intros hi; cbn [app placed]; [tauto|]. rewrite IH. tauto.
Qed.

Lemma placed_mono lo hi hi' os : placed lo hi os → hi <= hi' → placed lo hi' os.
Proof. destruct os as [|[a bs] os]; cbn; [lia|]. intros [? ?] ?. split; [lia|done]. Qed.

Definition place (k : piece) : Z * Z := (p_addr k, p_limit k).

Lemma apart_same ks ks' : place <$> ks = place <$> ks' → ForallOrdPairs apart ks → ForallOrdPairs apart ks'.
Proof.
  revert ks'. induction ks as [|k ks IH]; intros [|k' ks'] E; [done..|]. injection E as Ea El Es.
  intros H. inversion H as [|? ? Hk Hks]; subst. constructor; [|by apply IH]. clear IH Hks H. revert ks' Es.
  induction Hk as [|x ks Hx _ IH]; intros [|x' ks'] Es; [constructor|done..|]. injection Es as Ea' El' Es.
  constructor; [unfold apart in *; lia|by apply IH].
Qed.

Lemma prev_same ks ks' : place <$> ks = place <$> ks' → prev_of ks = prev_of ks'.
Proof. destruct ks as [|k ks], ks' as [|k' ks']; [done..|]. by intros [= ? ? _]. Qed.

Lemma chained_same m ks ks' : place <$> ks = place <$> ks' → chained m ks → chained m ks'.
Proof.
  revert ks'. induction ks as [|k ks IH]; intros [|k' ks'] E; [done..|]. injection E as Ea El Es. cbn.
  intros [H Hks]. unfold header in *. rewrite <- Ea, <- El, <- (prev_same _ _ Es). split; [done|by apply IH].
Qed.

Lemma framed_same F m ks ks' : place <$> ks = place <$> ks' → framed F m ks → framed F m ks'.
Proof.
  intros E [HF H]. split; [done|]. intros i Hi. specialize (H i Hi). clear HF Hi. revert ks' E.
  induction H as [|k ks Hk _ IH]; intros [|k' ks'] E; [constructor|done..|]. injection E as Ea El Es.
  constructor; [lia|by apply IH].
Qed.

(** * Memory that is written to *)

Section Written.
Context {C : Ceiling}.
Variable n : Z.
Hypothesis n_range : 0 <= n < 31.
Implicit Types (m F : memory) (k : piece) (ks : list piece).

Lemma start_bounds k : p_addr k + 8 <= start n k.
Proof. unfold start. pose proof (align_range n n_range (p_addr k + 8)). lia. Qed.

(** The range does not touch the chunk. *)
Definition misses (lo hi : Z) (k : piece) : Prop := hi <= p_addr k ∨ p_limit k <= lo.

Lemma written_allocated lo hi m m' a b : written lo hi m m' → allocated m a b → allocated m' a b.
Proof. intros [_ H] Ha i Hi. by apply H, Ha. Qed.

Lemma piece_misses lo hi m m' k : written lo hi m m' → misses lo hi k → piece_ok n m k → piece_ok n m' k.
Proof.
  intros Hw Hk [? ? ? ? ? Hp Hh ?]. split; [done..|by eapply written_allocated|done| |done].
  rewrite Forall_forall in Hh |- *. intros o Ho. apply (holds_written lo hi m); [done|by apply Hh|].
  destruct (placed_in _ _ _ _ Hp Ho). pose proof (start_bounds k). unfold misses in Hk. slia.
Qed.

Lemma header_size k prev : size (header k prev) = 8.
Proof. done. Qed.

Lemma chained_written lo hi m m' ks :
  written lo hi m m' → Forall (λ k, misses lo hi k ∨ p_addr k + 8 <= lo) ks →
  Forall (λ k, p_addr k + 8 <= p_limit k) ks → chained m ks → chained m' ks.
Proof.
  intros Hw H. induction H as [|k ks Hk _ IH]; intros Hl; [done|]. intros [Hh Hks].
  apply Forall_cons in Hl as [Hl Hls]. split; [|by apply IH].
  apply (holds_written lo hi m); [done|done|]. rewrite header_size. unfold misses in Hk. lia.
Qed.

Lemma framed_written lo hi m m' F k ks :
  written lo hi m m' → k ∈ ks → p_addr k <= lo → hi <= p_limit k → framed F m ks → framed F m' ks.
Proof.
  intros [Hw _] Hk ?? [HF H]. split; [|done]. apply map_subseteq_spec. intros i b Hb.
  rewrite Hw; [by eapply lookup_weaken|]. specialize (H i ltac:(by eexists)).
  rewrite Forall_forall in H. specialize (H k Hk). lia.
Qed.

Lemma apart_misses lo hi k k' : p_addr k <= lo → hi <= p_limit k → apart k k' → misses lo hi k'.
Proof. unfold apart, misses. lia. Qed.

Lemma apart_others ks1 k ks2 lo hi :
  ForallOrdPairs apart (ks1 ++ k :: ks2) → p_addr k <= lo → hi <= p_limit k →
  Forall (misses lo hi) ks1 ∧ Forall (misses lo hi) ks2.
Proof.
  intros H ??. induction ks1 as [|x ks1 IH]; cbn [app] in H; inversion H as [|? ? Hx Hks]; subst.
  - split; [constructor|]. eapply Forall_impl; [exact Hx|]. intros k'. by apply apart_misses.
  - destruct (IH Hks) as [Hm1 Hm2]. split; [|done]. constructor; [|done].
    apply Forall_app in Hx as [_ [Hx _]%Forall_cons]. unfold apart, misses in *. lia.
Qed.

Lemma piece_room m k : piece_ok n m k → p_addr k + 8 <= p_limit k.
Proof. intros Hk. pose proof (start_bounds k). pose proof (piece_start _ _ _ Hk). lia. Qed.

Lemma pieces_room m ks : Forall (piece_ok n m) ks → Forall (λ k, p_addr k + 8 <= p_limit k) ks.
Proof. intros H. eapply Forall_impl; [exact H|]. intros k. apply piece_room. Qed.
End Written.

(** * Steps of the representation *)

Section Steps.
Context {C : Ceiling}.
Variable n : Z.
Hypothesis n_range : 0 <= n < 31.
Implicit Types (m F : memory) (k : piece) (ks : list piece) (cur bs : list byte) (h : obstack).

Lemma rep_next_range F k ks cur h m :
  rep n F k ks cur h m →
  0 < p_addr k ∧ p_addr k + 8 <= start n k ∧ start n k <= object_base h ∧
  object_base h <= next_free h ∧ next_free h <= p_limit k ∧ 1 <= 2 ^ n ∧
  p_limit k <= ceiling ∧ p_limit k - p_addr k + (2 ^ n - 1) < 2147483648 ∧ p_limit k + (2 ^ n - 1) < 4294967296 ∧
  (p_limit k + (2 ^ n - 1) < 2147483648 ∨ 2147483648 <= p_addr k).
Proof.
  intros H. destruct H as [_ El _ [Hk _]%Forall_cons _ _ _ Hb Hn Hr _ _ _].
  pose proof (placed_le _ _ _ Hb). pose proof (start_bounds n n_range k). pose proof (pow_bounds n n_range).
  destruct Hk as [? ? Htop ? _ _ _ _]. unfold well_placed in Htop. rewrite El in Hr. slia.
Qed.

(** Writing where no object is yet. *)
Lemma rep_written F k ks cur h m m' :
  rep n F k ks cur h m → written (next_free h) (p_limit k) m m' → rep n F k ks cur h m'.
Proof.
  intros H Hw. pose proof (rep_next_range _ _ _ _ _ _ H) as Hr.
  destruct H as [Ec El Em Hp Ha Hch Hf Hb En Hroom Hcur Hal He].
  destruct (apart_others [] k ks (next_free h) (p_limit k) Ha) as [_ Hmiss]; [lia|lia|].
  split; try done.
  - apply Forall_cons in Hp as [ [? ? ? ? ? Hpl Hh ?] Hps]. constructor.
    + split; [done..|by eapply written_allocated|done| |done]. rewrite Forall_forall in Hh |- *. intros o Ho.
      apply (holds_written (next_free h) (p_limit k) m); [done|by apply Hh|].
      destruct (placed_in _ _ _ _ Hb Ho). lia.
    + rewrite Forall_forall in Hps, Hmiss |- *. intros k' Hk'.
      apply (piece_misses n n_range (next_free h) (p_limit k) m); auto.
  - apply (chained_written (next_free h) (p_limit k) m); [done| |by eapply pieces_room|done].
    constructor; [right; lia|]. eapply Forall_impl; [exact Hmiss|]. intros k'. by left.
  - apply (framed_written (next_free h) (p_limit k) m _ _ k); [done|by left|lia|lia|done].
  - apply (holds_written (next_free h) (p_limit k) m); [done|done|lia].
Qed.

(** The object grows by the bytes behind it, or loses its last ones. *)
Lemma rep_extend F k ks cur bs h m :
  rep n F k ks cur h m → holds_bytes m (next_free h) bs → next_free h + size bs <= p_limit k →
  rep n F k ks (cur ++ bs) (set_next_free (next_free h + size bs) h) m.
Proof.
  intros [Ec El Em Hp Ha Hch Hf Hb En Hroom Hcur Hal He] Hbs Hl.
  split; cbn; try done.
  - rewrite size_app. lia.
  - lia.
  - apply holds_app. rewrite <- En. done.
  - destruct Hal as [?|[-> Eb] ]; [by left|]. right. split; [|done].
    assert (bs = []) as -> by (apply size_zero; slia). done.
Qed.

Lemma rep_shrink F k ks cur bs h m :
  rep n F k ks (cur ++ bs) h m → rep n F k ks cur (set_next_free (next_free h - size bs) h) m.
Proof.
  intros [Ec El Em Hp Ha Hch Hf Hb En Hroom Hcur Hal He]. split; cbn; try done.
  - slia.
  - slia.
  - by apply holds_app in Hcur as [? _].
  - destruct Hal as [?|[ [-> _]%app_nil Eb] ]; [by left|by right].
Qed.

(** The growing object is finished. *)
Lemma rep_finish F k ks cur h h' m e :
  rep n F k ks cur h m →
  chunk h' = chunk h → chunk_limit h' = chunk_limit h → alignment_mask h' = alignment_mask h →
  object_base h' = e → next_free h' = e → next_free h <= e <= p_limit k →
  aligned n e ∨ e = p_limit k →
  maybe_empty_object h' = (if next_free h =? object_base h then true else maybe_empty_object h) →
  rep n F (Piece (p_addr k) (p_limit k) ((object_base h, cur) :: p_objects k)) ks [] h' m.
Proof.
  intros [Ec El Em Hp Ha Hch Hf Hb En Hroom Hcur Hal He] Ec' El' Em' Eb' En' He' Hal' Ef'.
  apply Forall_cons in Hp as [ [? ? ? ? ? Hpl Hh Ho] Hps].
  set (k' := Piece _ _ _). assert (place <$> k :: ks = place <$> k' :: ks) as Es by done.
  split.
  - cbn. congruence.
  - cbn. congruence.
  - congruence.
  - constructor; [|done]. split; [done..| | |].
    + split; [cbn; lia|done].
    + by constructor.
    + constructor; [|done]. destruct Hal as [?|[-> ?] ]; [by left|]. right. split; [done|]. cbn. congruence.
  - by apply (apart_same (k :: ks)).
  - by apply (chained_same _ (k :: ks)).
  - by apply (framed_same _ _ (k :: ks)).
  - split; [lia|done].
  - rewrite En', Eb'. slia.
  - rewrite En', El', El. lia.
  - done.
  - rewrite Eb', El', El. destruct Hal' as [?|?]; [by left|by right].
  - intros Hx%Exists_cons. rewrite Ef'. cbn in Hx. destruct Hx as [->|Hx%He]; [|by destruct (_ =? _)].
    change (size []) with 0 in En. rewrite En, Z.add_0_r, Z.eqb_refl. done.
Qed.

(** An object of the current chunk is freed, with those above it. *)
Lemma rep_free F c l os1 a bs os2 ks cur h m :
  rep n F (Piece c l (os1 ++ (a, bs) :: os2)) ks cur h m → a < l →
  rep n F (Piece c l os2) ks [] (set_next_free a (set_object_base a h)) m.
Proof.
  intros [Ec El Em Hp Ha Hch Hf Hb En Hroom Hcur Hal He] Hl. cbn [p_addr p_limit p_objects] in *.
  apply Forall_cons in Hp as [ [? ? ? ? ? Hpl Hh Ho] Hps]. cbn [p_addr p_limit p_objects] in *.
  set (k := Piece _ _ (_ ++ _)) in *. set (k' := Piece _ _ os2).
  assert (place <$> k :: ks = place <$> k' :: ks) as Es by done.
  apply Forall_app in Hh as [_ [_ Hh]%Forall_cons]. apply Forall_app in Ho as [_ [Hoa Ho]%Forall_cons].
  pose proof Hpl as [Hpl1 Hpl2]%placed_app. apply placed_le in Hpl1 as Hl1.
  split; cbn; try done.
  - constructor; [|done]. split; [done..| |done|done]. cbn.
    apply (placed_mono _ a); [done|lia].
  - by apply (apart_same (k :: ks)).
  - by apply (framed_same _ _ (k :: ks)).
  - slia.
  - lia.
  - destruct Hoa as [?|[_ Eo] ]; [by left|]. cbn in Eo. lia.
  - intros Hx. apply He. apply Exists_app. right. by apply Exists_cons_tl.
Qed.

(** * Writing to a finished object *)

Lemma nil_same {A} (bs bs' : list A) : size bs' = size bs → bs = [] ↔ bs' = [].
Proof. intros E. split; intros ->; apply size_zero; slia. Qed.

Lemma placed_poke lo hi os1 a bs bs' os2 :
  size bs' = size bs → placed lo hi (os1 ++ (a, bs) :: os2) → placed lo hi (os1 ++ (a, bs') :: os2).
Proof. intros E. rewrite !placed_app, E. done. Qed.

Lemma empty_poke os1 a bs bs' os2 :
  size bs' = size bs → Exists (λ o : object, o.2 = []) (os1 ++ (a, bs') :: os2) →
  Exists (λ o : object, o.2 = []) (os1 ++ (a, bs) :: os2).
Proof.
  intros E. rewrite !Exists_app, !Exists_cons. cbn. by rewrite (nil_same bs bs').
Qed.

Lemma piece_poke c l os1 a bs bs' os2 m :
  size bs' = size bs → piece_ok n m (Piece c l (os1 ++ (a, bs) :: os2)) →
  piece_ok n (write_bytes a bs' m) (Piece c l (os1 ++ (a, bs') :: os2)).
Proof.
  intros E [? ? ? ? Hal Hpl Hh Ho]. cbn [p_addr p_limit p_objects] in *.
  assert (written a (a + size bs) m (write_bytes a bs' m)) as Hw by (apply write_written; lia).
  split; [done..| | | |]; cbn [p_addr p_limit p_objects].
  - by eapply written_allocated.
  - by apply placed_poke with bs.
  - apply placed_app in Hpl as [Hp1 Hp2]. apply Forall_app in Hh as [Hh1 [_ Hh2]%Forall_cons].
    rewrite Forall_forall in Hh1, Hh2. apply Forall_app; split; [|constructor]; [|apply write_holds|];
      apply Forall_forall; intros o Hin; apply (holds_written a (a + size bs) m); auto.
    + destruct (placed_in _ _ _ _ Hp1 Hin). lia.
    + destruct (placed_in _ _ _ _ Hp2 Hin). lia.
  - apply Forall_app in Ho as [Ho1 [Ho Ho2]%Forall_cons]. apply Forall_app; split; [done|].
    constructor; [|done]. destruct Ho as [?|[Eb ?] ]; [by left|]. right. split; [|done]. by apply (nil_same bs).
Qed.

(** An object of the list lies in its chunk. *)
Lemma object_range m c l os1 a bs os2 :
  piece_ok n m (Piece c l (os1 ++ (a, bs) :: os2)) → 0 < c ∧ c + 8 <= a ∧ a + size bs <= l.
Proof.
  intros Hk. destruct (placed_in _ _ _ (a, bs) (piece_placed _ _ _ Hk)) as [? ?].
  { apply elem_of_app. right. by left. }
  pose proof (start_bounds n n_range (Piece c l (os1 ++ (a, bs) :: os2))). pose proof (piece_addr _ _ _ Hk).
  cbn in *. lia.
Qed.

(** The chunks after bytes of one object have been written. *)
Lemma pieces_poke F m ks1 c l os1 a bs bs' os2 ks2 :
  let ks os := ks1 ++ Piece c l os :: ks2 in
  size bs' = size bs →
  Forall (piece_ok n m) (ks (os1 ++ (a, bs) :: os2)) → ForallOrdPairs apart (ks (os1 ++ (a, bs) :: os2)) →
  chained m (ks (os1 ++ (a, bs) :: os2)) → framed F m (ks (os1 ++ (a, bs) :: os2)) →
  let m' := write_bytes a bs' m in
  written a (a + size bs) m m' ∧ Forall (misses a (a + size bs)) ks1 ∧
  Forall (piece_ok n m') (ks (os1 ++ (a, bs') :: os2)) ∧ ForallOrdPairs apart (ks (os1 ++ (a, bs') :: os2)) ∧
  chained m' (ks (os1 ++ (a, bs') :: os2)) ∧ framed F m' (ks (os1 ++ (a, bs') :: os2)).
Proof.
  intros ks E Hp Ha Hch Hf m'. set (P := Piece c l (os1 ++ (a, bs) :: os2)) in *.
  assert (place <$> ks (os1 ++ (a, bs) :: os2) = place <$> ks (os1 ++ (a, bs') :: os2)) as Es
    by (unfold ks; by rewrite !fmap_app).
  pose proof Hp as [Hp1 [HP Hp2]%Forall_cons]%Forall_app. pose proof (object_range _ _ _ _ _ _ _ HP) as Hrange.
  destruct (apart_others ks1 P ks2 a (a + size bs) Ha) as [M1 M2]; [cbn; lia|cbn; lia|].
  assert (written a (a + size bs) m m') as Hw by (apply write_written; lia).
  assert (∀ xs, Forall (misses a (a + size bs)) xs → Forall (piece_ok n m) xs → Forall (piece_ok n m') xs) as Hkeep.
  { intros xs Hm Hxs. rewrite Forall_forall in Hm, Hxs |- *. intros x Hx.
    apply (piece_misses n n_range a (a + size bs) m); auto. }
  split_and!; [done|done| |by apply (apart_same _ _ Es)| |].
  - apply Forall_app; split; [by apply Hkeep|]. constructor; [by apply piece_poke with bs|by apply Hkeep].
  - apply (chained_same _ _ _ Es), (chained_written a (a + size bs) m); [done| |by eapply pieces_room|done].
    apply Forall_app; split; [|constructor]; [| |]; [eapply Forall_impl; [exact M1|]; by left|right; cbn; lia|].
    eapply Forall_impl; [exact M2|]. by left.
  - apply (framed_same _ _ _ _ Es), (framed_written a (a + size bs) m _ _ P); [done| |cbn; lia|cbn; lia|done].
    apply elem_of_app. right. by left.
Qed.

Lemma rep_poke F k ks cur h m ks1 c l os1 a bs bs' os2 ks2 k' ks' :
  rep n F k ks cur h m → k :: ks = ks1 ++ Piece c l (os1 ++ (a, bs) :: os2) :: ks2 →
  k' :: ks' = ks1 ++ Piece c l (os1 ++ (a, bs') :: os2) :: ks2 → size bs' = size bs →
  rep n F k' ks' cur h (write_bytes a bs' m).
Proof.
  intros H Ek Ek' E. pose proof (rep_next_range _ _ _ _ _ _ H) as Hr.
  destruct H as [Ec El Em Hp Ha Hch Hf Hb En Hroom Hcur Hal He].
  assert (place <$> k :: ks = place <$> k' :: ks') as Es by (rewrite Ek, Ek', !fmap_app; done).
  rewrite Ek in Hp, Ha, Hch, Hf.
  destruct (pieces_poke _ _ _ _ _ _ _ _ _ _ _ E Hp Ha Hch Hf) as (Hw & M1 & Hp' & Ha' & Hch' & Hf').
  rewrite <- Ek' in Hp', Ha', Hch', Hf'.
  assert (p_addr k' = p_addr k ∧ p_limit k' = p_limit k) as [Ea' El'] by (by injection Es as -> -> _).
  assert (placed (start n k') (object_base h) (p_objects k') ∧
    (Exists (λ o : object, o.2 = []) (p_objects k') → maybe_empty_object h = true) ∧
    (object_base h + size cur <= a ∨ a + size bs <= object_base h ∨ cur = [])) as (Hb' & He' & Hdis).
  { destruct ks1 as [|x ks1]; cbn [app] in Ek, Ek'; injection Ek as -> ->; injection Ek' as -> ->.
    - cbn [p_objects] in *.
      split_and!; [by apply placed_poke with bs|intros ?%(empty_poke _ _ bs); auto|].
      destruct (placed_in _ _ _ (a, bs) Hb) as [_ ?]; [apply elem_of_app; right; by left|]. by right; left.
    - apply Forall_cons in M1 as [Mx _]. unfold misses in Mx. split_and!; [done|done|]. lia. }
  split; [congruence|congruence|done..|lia| |done|done].
  apply (holds_written a (a + size bs) m); [done|done|tauto].
Qed.
End Steps.

(** * The macros *)

Section Macros.
Context {paths : Slow_paths} {C : Ceiling} {spec : Obstack_c}.
Variables (n : Z) (F : memory).
Hypothesis n_range : 0 <= n < 31.
Implicit Types (m : memory) (os : list object) (cur bs : list byte) (h : obstack).

(** The finished objects [os], the growing one, and room for [room] more bytes. *)
Definition obs (room : Z) os cur h m : Prop :=
  ∃ k ks, rep n F k ks cur h m ∧ os = all_objects (k :: ks) ∧ next_free h + room <= chunk_limit h.

Lemma obs_range room os cur h m :
  obs room os cur h m →
  0 < object_base h ∧ next_free h = object_base h + size cur ∧ next_free h <= chunk_limit h ∧
  next_free h + room <= chunk_limit h ∧ chunk_limit h <= ceiling ∧ chunk_limit h < 4294967296 ∧
  chunk_limit h - object_base h < 2147483648.
Proof.
  intros (k & ks & H & _ & Hroom). pose proof (rep_next_range _ n_range _ _ _ _ _ _ H).
  destruct H as [_ El _ _ _ _ _ _ En Hr _ _ _]. lia.
Qed.

Lemma ptr_add_id p i : 0 <= p + i < 4294967296 → ptr_add p i = p + i.
Proof. intros. by apply u32_id. Qed.

Lemma ptr_sub_id p q : 0 <= p - q < 2147483648 → ptr_sub p q = p - q.
Proof.
  intros. unfold ptr_sub. rewrite u32_id by (unfold is_u32; lia). destruct (Z.ltb_spec (p - q) 2147483648); lia.
Qed.

(** An empty chunk may be replaced by the new one. *)
Lemma dropped_empty k ks cur h m :
  rep n F k ks cur h m → object_base h = start n k → maybe_empty_object h = false → p_objects k = [].
Proof.
  intros H Eb Ef. destruct (p_objects k) as [|[a bs] os] eqn:Eo; [done|].
  pose proof (rep_base _ _ _ _ _ _ _ H) as Hb. rewrite Eo, Eb in Hb. destruct Hb as [Hb Hb'%placed_le].
  rewrite (rep_empty _ _ _ _ _ _ _ H) in Ef; [done|]. rewrite Eo. apply Exists_cons_hd. cbn.
  apply size_zero. slia.
Qed.

(** A new chunk is made exactly if there is not enough room. *)
Lemma room_spec (b : bool) len room os cur h m (Q : unit → state → Prop) :
  obs room os cur h m → 0 <= len < 2147483648 →
  b = (chunk_limit h - next_free h <? len) →
  (∀ h' m', obs len os cur h' m' → Q tt (h', m')) →
  wpo (if b then _obstack_newchunk len else mret tt) Q (h, m).
Proof.
  intros (k & ks & H & -> & _) Hlen -> HQ. destruct (Z.ltb_spec (chunk_limit h - next_free h) len).
  2:{ apply wpo_ret, HQ. exists k, ks. split_and!; [done|done|lia]. }
  eapply wpo_mono; [by apply (newchunk_spec n F k ks cur)|].
  intros [] [h' m'] (k' & ks' & H' & Eo & _ & Hroom & Hk). apply HQ. exists k', ks'.
  split_and!; [done| |done]. unfold all_objects. cbn. rewrite Eo. destruct Hk as [->|(-> & Eb & Ef)]; [done|].
  by rewrite (dropped_empty _ _ _ _ _ H Eb Ef).
Qed.

(** The tests of the macros, by the sum and by the difference. *)
Lemma room_by_sum room os cur h m len :
  obs room os cur h m → 0 <= len → ceiling + len < 4294967296 →
  (chunk_limit h <? ptr_add (next_free h) len) = (chunk_limit h - next_free h <? len).
Proof.
  intros H Hl Hw. apply obs_range in H. rewrite ptr_add_id by slia.
  destruct (Z.ltb_spec (chunk_limit h) (next_free h + len)), (Z.ltb_spec (chunk_limit h - next_free h) len); lia.
Qed.

Lemma room_by_difference room os cur h m :
  obs room os cur h m → ptr_sub (chunk_limit h) (next_free h) = chunk_limit h - next_free h.
Proof. intros H%obs_range. apply ptr_sub_id. slia. Qed.

(** Bytes are stored behind the object, which grows by them. *)
Lemma obs_append room os cur bs h m :
  obs room os cur h m → 0 <= room - size bs →
  allocated m (next_free h) (next_free h + size bs) ∧
  ptr_add (next_free h) (size bs) = next_free h + size bs ∧
  obs (room - size bs) os (cur ++ bs) (set_next_free (next_free h + size bs) h)
    (write_bytes (next_free h) bs m).
Proof.
  intros H Hr. pose proof (obs_range _ _ _ _ _ H) as Hrange. destruct H as (k & ks & H & -> & Hroom).
  pose proof (rep_next_range _ n_range _ _ _ _ _ _ H) as Hr'.
  assert (p_limit k = chunk_limit h) as El by (symmetry; apply H). split_and!.
  - apply (allocated_sub _ (p_addr k) (p_limit k)); [|lia|lia].
    pose proof (rep_pieces _ _ _ _ _ _ _ H) as [Hk _]%Forall_cons. apply Hk.
  - apply ptr_add_id. slia.
  - exists k, ks. split_and!; [|done|cbn; lia]. apply rep_extend; [done| |apply write_holds|lia].
    apply (rep_written n n_range _ _ _ _ _ m); [done|]. apply write_written; lia.
Qed.

(** ** Sources of data *)

(** The bytes [bs] at [p], in memory of the client or in a finished object. *)
Definition readable os (p : Z) bs : Prop :=
  holds_bytes F p bs ∨ ∃ a xs ys, (a, xs ++ bs ++ ys) ∈ os ∧ p = a + size xs.

Lemma object_holds room os cur h m a bs :
  obs room os cur h m → (a, bs) ∈ os →
  holds_bytes m a bs ∧ (a + size bs <= next_free h ∨ chunk_limit h <= a).
Proof.
  intros (k & ks & H & -> & _) Hin. pose proof (rep_next_range _ n_range _ _ _ _ _ _ H) as Hr.
  unfold all_objects in Hin. rewrite list_elem_of_In, in_concat in Hin.
  destruct Hin as (os & Hos & Hin). rewrite <- list_elem_of_In in Hos. rewrite <- list_elem_of_In in Hin.
  apply list_elem_of_fmap in Hos as (k' & -> & Hk').
  destruct H as [_ El _ Hp Ha _ _ Hb _ _ _ _ _]. rewrite El.
  rewrite Forall_forall in Hp. pose proof (Hp k' Hk') as [? ? ? ? ? Hpl Hh _].
  rewrite Forall_forall in Hh. split; [exact (Hh _ Hin)|].
  apply elem_of_cons in Hk' as [->|Hk']; [destruct (placed_in _ _ _ _ Hb Hin); cbn in *; lia|].
  destruct (placed_in _ _ _ _ Hpl Hin). pose proof (start_bounds n n_range k'). cbn in *.
  inversion Ha as [|? ? Hap _]; subst. rewrite Forall_forall in Hap. specialize (Hap k' Hk'). unfold apart in Hap. lia.
Qed.

Lemma frame_holds room os cur h m p bs :
  obs room os cur h m → holds_bytes F p bs →
  holds_bytes m p bs ∧ (p + size bs <= next_free h ∨ chunk_limit h <= p ∨ bs = []).
Proof.
  intros (k & ks & H & -> & _) HF. pose proof (rep_next_range _ n_range _ _ _ _ _ _ H) as Hr.
  destruct H as [_ El _ _ _ _ [Hsub Hout] _ _ _ _ _ _]. rewrite El. split.
  - apply holds_lookup. intros i Hi. rewrite holds_lookup in HF. specialize (HF i Hi).
    assert (is_Some (bs !! Z.to_nat i)) as [b Hb] by (apply lookup_lt_is_Some_2; unfold size in *; lia).
    rewrite Hb in HF |- *. by eapply lookup_weaken.
  - apply holds_allocated in HF.
    assert (∀ i, p <= i < p + size bs → i < p_addr k ∨ p_limit k <= i) as Hi.
    { intros i Hi. specialize (Hout i (HF i Hi)). by apply Forall_cons in Hout as [? _]. }
    destruct (decide (size bs = 0)) as [->%size_zero|]; [by right; right|].
    destruct (decide (p < p_limit k)); [left|by right; left; lia].
    destruct (decide (p < p_addr k)); [|specialize (Hi p); slia].
    destruct (decide (p + size bs <= p_addr k)); [lia|]. specialize (Hi (p_addr k)). lia.
Qed.

Lemma readable_holds room os cur h m p bs :
  obs room os cur h m → readable os p bs → size bs <= room →
  holds_bytes m p bs ∧ (next_free h + size bs <= p ∨ p + size bs <= next_free h).
Proof.
  intros H Hr Hs. pose proof (obs_range _ _ _ _ _ H) as Hrange. destruct Hr as [HF|(a & xs & ys & Hin & ->)].
  - destruct (frame_holds _ _ _ _ _ _ _ H HF) as [? [?|[?| ->] ] ]; (split; [done|]); [by right|left; lia|slia].
  - destruct (object_holds _ _ _ _ _ _ _ H Hin) as [ [_ [Hb _]%holds_app]%holds_app Ho].
    split; [done|]. slia.
Qed.

(** ** Growing *)

Lemma obs_weaken room room' os cur h m : obs room os cur h m → room' <= room → obs room' os cur h m.
Proof. intros (k & ks & ? & ? & ?) ?. exists k, ks. split_and!; [done|done|lia]. Qed.

Lemma make_room_spec os cur h m len :
  obs 0 os cur h m → 0 <= len < 2147483648 →
  wpo (obstack_make_room len) (λ _ '(h', m'), obs len os cur h' m') (h, m).
Proof.
  intros H Hl. unfold obstack_make_room. do 2 apply wpo_field_bind. rewrite (room_by_difference _ _ _ _ _ H).
  by eapply room_spec.
Qed.

Lemma grow_spec os cur h m p bs :
  obs 0 os cur h m → readable os p bs → size bs < 2147483648 → ceiling + size bs < 4294967296 →
  wpo (obstack_grow p (size bs)) (λ _ '(h', m'), obs 0 os (cur ++ bs) h' m') (h, m).
Proof.
  intros H Hp Hs Hw. unfold obstack_grow. do 2 apply wpo_field_bind. pose proof (size_nonneg bs).
  rewrite (room_by_sum _ _ _ _ _ _ H) by done. apply wpo_bind. eapply room_spec; [done|done|done|].
  intros h1 m1 H1. apply wpo_field_bind, wpo_bind.
  destruct (obs_append _ _ _ bs _ _ H1) as (Ha & Ep & H2); [lia|].
  destruct (readable_holds _ _ _ _ _ _ _ H1 Hp) as [Hb Ho]; [done|].
  apply wpo_memcpy; [done|done|done|]. rewrite Ep. apply wpo_update. by rewrite Z.sub_diag in H2.
Qed.

(** A single byte, where there is room for it. *)
Lemma one_grow_fast_spec room os cur h m c :
  obs room os cur h m → 1 <= room →
  wpo (obstack_1grow_fast c) (λ _ '(h', m'), obs (room - 1) os (cur ++ [Some (u8 c)]) h' m') (h, m).
Proof.
  intros H Hr. unfold obstack_1grow_fast. apply wpo_field_bind, wpo_update_bind.
  destruct (obs_append _ _ _ [Some (u8 c)] _ _ H) as (Ha & Ep & H2); [by slia|].
  change (size [Some (u8 c)]) with 1 in *. rewrite Ep. by apply wpo_store.
Qed.

Lemma grow0_spec os cur h m p bs :
  obs 0 os cur h m → readable os p bs → size bs + 1 < 2147483648 → ceiling + (size bs + 1) < 4294967296 →
  wpo (obstack_grow0 p (size bs)) (λ _ '(h', m'), obs 0 os (cur ++ bs ++ [Some 0]) h' m') (h, m).
Proof.
  intros H Hp Hs Hw. unfold obstack_grow0. do 2 apply wpo_field_bind. pose proof (size_nonneg bs).
  assert (ptr_add (ptr_add (next_free h) (size bs)) 1 = ptr_add (next_free h) (size bs + 1)) as ->.
  { apply obs_range in H. rewrite (ptr_add_id (next_free h) (size bs)), !ptr_add_id by slia. lia. }
  rewrite (room_by_sum _ _ _ _ _ _ H) by lia. apply wpo_bind. eapply room_spec; [done|lia|done|].
  intros h1 m1 H1. apply wpo_field_bind, wpo_bind.
  destruct (obs_append _ _ _ bs _ _ H1) as (Ha & Ep & H2); [lia|].
  destruct (readable_holds _ _ _ _ _ _ _ H1 Hp) as [Hb Ho]; [lia|].
  apply wpo_memcpy; [done|done|done|]. rewrite Ep. apply wpo_update_bind.
  eapply wpo_mono; [apply (one_grow_fast_spec _ _ _ _ _ 0 H2); lia|].
  intros [] [h3 m3] H3. rewrite <- app_assoc in H3. eapply obs_weaken; [exact H3|lia].
Qed.

Lemma one_grow_spec os cur h m c :
  obs 0 os cur h m → ceiling + 1 < 4294967296 →
  wpo (obstack_1grow c) (λ _ '(h', m'), obs 0 os (cur ++ [Some (u8 c)]) h' m') (h, m).
Proof.
  intros H Hw. unfold obstack_1grow. do 2 apply wpo_field_bind. rewrite (room_by_sum _ _ _ _ _ _ H) by lia.
  apply wpo_bind. eapply room_spec; [done|lia|done|]. intros h1 m1 H1. by apply (one_grow_fast_spec 1).
Qed.

(** A word: "these assume that the obstack alignment is good enough, and that the data
    added so far shares that much alignment". *)
Lemma obs_word room os cur h m :
  obs room os cur h m → 1 <= room → 2 <= n → size cur mod 4 = 0 → next_free h mod 4 = 0.
Proof.
  intros (k & ks & H & _ & Hroom) ? Hn Hc. destruct H as [_ _ _ _ _ _ _ _ En _ _ [Hal|[-> Eb] ] _].
  2:{ change (size []) with 0 in En. lia. }
  unfold aligned in Hal. rewrite En, <- Zplus_mod_idemp_r, Hc, Z.add_0_r.
  apply Z.mod_divide; [lia|]. apply Z.mod_divide in Hal; [|pose proof (pow_bounds n n_range); lia].
  etrans; [|exact Hal]. exists (2 ^ (n - 2)). replace n with (n - 2 + 2) at 1 by lia. by rewrite Z.pow_add_r by lia.
Qed.

Lemma word_grow_fast_spec os cur h m v :
  obs 4 os cur h m → 2 <= n → size cur mod 4 = 0 →
  wpo (obstack_int_grow_fast v) (λ _ '(h', m'), obs 0 os (cur ++ word_bytes (u32 v)) h' m') (h, m).
Proof.
  intros H Hn Hc. unfold obstack_int_grow_fast. apply wpo_field_bind, wpo_bind. unfold store_word.
  rewrite (obs_word _ _ _ _ _ H) by (done || lia). cbn [Z.eqb].
  destruct (obs_append _ _ _ (word_bytes (u32 v)) _ _ H) as (Ha & Ep & H2); [done|].
  change (size (word_bytes (u32 v))) with 4 in *. apply wpo_store; [done|]. rewrite Ep. by apply wpo_update.
Qed.

Lemma int_grow_spec os cur h m v :
  obs 0 os cur h m → 2 <= n → size cur mod 4 = 0 → ceiling + 4 < 4294967296 →
  wpo (obstack_int_grow v) (λ _ '(h', m'), obs 0 os (cur ++ word_bytes (u32 v)) h' m') (h, m).
Proof.
  intros H Hn Hc Hw. unfold obstack_int_grow. do 2 apply wpo_field_bind. rewrite (room_by_sum _ _ _ _ _ _ H) by lia.
  apply wpo_bind. eapply room_spec; [done|lia|done|]. intros h1 m1 H1. by apply word_grow_fast_spec.
Qed.

Lemma ptr_grow_spec os cur h m v :
  obs 0 os cur h m → 2 <= n → size cur mod 4 = 0 → ceiling + 4 < 4294967296 →
  wpo (obstack_ptr_grow v) (λ _ '(h', m'), obs 0 os (cur ++ word_bytes (u32 v)) h' m') (h, m).
Proof. exact (int_grow_spec os cur h m v). Qed.

(** Bytes that are not written; a negative length shrinks the object. *)
Lemma blank_spec os cur h m len :
  obs 0 os cur h m → 0 <= len < 2147483648 →
  wpo (obstack_blank len) (λ _ '(h', m'), ∃ bs, size bs = len ∧ obs 0 os (cur ++ bs) h' m') (h, m).
Proof.
  intros H Hl. unfold obstack_blank. do 2 apply wpo_field_bind. rewrite (room_by_difference _ _ _ _ _ H).
  apply wpo_bind. eapply room_spec; [done|done|done|]. intros h1 m1 H1. unfold obstack_blank_fast.
  apply wpo_field_bind, wpo_update. pose proof (obs_range _ _ _ _ _ H1).
  destruct H1 as (k & ks & H1 & -> & Hroom).
  pose proof (rep_next_range _ n_range _ _ _ _ _ _ H1). pose proof (rep_limit _ _ _ _ _ _ _ H1).
  pose proof (rep_pieces _ _ _ _ _ _ _ H1) as [Hk _]%Forall_cons.
  destruct (allocated_read m1 (next_free h1) len) as (bs & Es & Hb); [lia| |].
  { apply (allocated_sub _ _ _ _ _ (piece_allocated _ _ _ Hk)); lia. }
  exists bs. split; [done|]. rewrite ptr_add_id by slia. exists k, ks.
  split_and!; [|done|cbn; lia]. rewrite <- Es. apply rep_extend; [done|done|done|lia].
Qed.

Lemma shrink_spec os cur bs h m :
  obs 0 os (cur ++ bs) h m →
  wpo (obstack_blank (- size bs)) (λ _ '(h', m'), obs 0 os cur h' m') (h, m).
Proof.
  intros H. unfold obstack_blank. do 2 apply wpo_field_bind. rewrite (room_by_difference _ _ _ _ _ H).
  pose proof (obs_range _ _ _ _ _ H). destruct (Z.ltb_spec (chunk_limit h - next_free h) (- size bs)); [slia|].
  apply wpo_bind, wpo_ret. unfold obstack_blank_fast. apply wpo_field_bind, wpo_update.
  rewrite ptr_add_id by slia. destruct H as (k & ks & Hr & -> & Hroom). exists k, ks.
  rewrite Z.add_opp_r. split_and!; [by apply rep_shrink|done|cbn; slia].
Qed.

(** ** Finishing and freeing *)

(** The end of [obstack_finish]: [h2] is the obstack with [next_free] aligned. *)
Lemma finish_end_spec k ks cur h h2 m e :
  rep n F k ks cur h m → next_free h <= e <= p_limit k → aligned n e ∨ e = p_limit k →
  chunk h2 = chunk h → chunk_limit h2 = chunk_limit h → alignment_mask h2 = alignment_mask h →
  maybe_empty_object h2 = (if next_free h =? object_base h then true else maybe_empty_object h) →
  next_free h2 = e →
  wpo (next ← field next_free; update (set_object_base next);; mret (object_base h)) (λ a '(h', m'),
    obs 0 ((a, cur) :: all_objects (k :: ks)) [] h' m' ∧ (aligned n a ∨ cur = [])) (h2, m).
Proof.
  intros H He Hae Ec El Em Ef En. pose proof (rep_limit _ _ _ _ _ _ _ H) as El'.
  apply wpo_field_bind, wpo_update_bind, wpo_ret. split.
  - exists (Piece (p_addr k) (p_limit k) ((object_base h, cur) :: p_objects k)), ks.
    split_and!; [|done|cbn; rewrite En; lia]. by apply (rep_finish n n_range F k ks cur h _ m e).
  - destruct (rep_aligned _ _ _ _ _ _ _ H) as [?|[? _] ]; [by left|by right].
Qed.

Lemma finish_spec os cur h m :
  obs 0 os cur h m →
  wpo obstack_finish (λ a '(h', m'), obs 0 ((a, cur) :: os) [] h' m' ∧ (aligned n a ∨ cur = [])) (h, m).
Proof.
  intros (k & ks & H & -> & _). pose proof (rep_next_range _ n_range _ _ _ _ _ _ H) as Hr.
  pose proof (rep_limit _ _ _ _ _ _ _ H) as El. pose proof (rep_chunk _ _ _ _ _ _ _ H) as Ec.
  pose proof (rep_mask _ _ _ _ _ _ _ H) as Em.
  pose proof (align_range n n_range (next_free h)) as Hab.
  pose proof (align_aligned n n_range (next_free h)) as Hal.
  set (e := if p_limit k <? align n (next_free h) then p_limit k else align n (next_free h)).
  assert (next_free h <= e <= p_limit k ∧ (aligned n e ∨ e = p_limit k)) as [He Hae].
  { subst e. destruct (Z.ltb_spec (p_limit k) (align n (next_free h))); (split; [lia|]); [by right|by left]. }
  unfold obstack_finish. do 2 apply wpo_field_bind.
  set (h1 := if next_free h =? object_base h then set_maybe_empty_object true h else h).
  assert (∀ K Q, wpo (K : O Z) Q (h1, m) → wpo ((if next_free h =? object_base h
    then update (set_maybe_empty_object true) else mret tt);; K) Q (h, m)) as Hflag.
  { intros K Q HK. subst h1. by destruct (next_free h =? object_base h). }
  apply Hflag. clear Hflag. do 3 apply wpo_field_bind.
  assert (next_free h1 = next_free h ∧ object_base h1 = object_base h ∧ chunk h1 = chunk h ∧
    chunk_limit h1 = chunk_limit h ∧ alignment_mask h1 = alignment_mask h) as (E1 & E2 & E3 & E4 & E5)
    by (subst h1; by destruct (next_free h =? object_base h)).
  rewrite E1, E5, Em. apply wpo_bind, (wpo_align n n_range); [lia|lia|lia|]. apply wpo_update_bind.
  do 3 apply wpo_field_bind. cbn [next_free chunk chunk_limit set_next_free]. rewrite E3, E4, Ec, El.
  rewrite !ptr_sub_id by lia. apply wpo_bind.
  assert (((p_limit k - p_addr k <? align n (next_free h) - p_addr k)) = (p_limit k <? align n (next_free h))) as ->.
  { destruct (Z.ltb_spec (p_limit k) (align n (next_free h))); [apply Z.ltb_lt|apply Z.ltb_ge]; lia. }
  assert (maybe_empty_object h1 = (if next_free h =? object_base h then true else maybe_empty_object h)) as E6
    by (subst h1; by destruct (next_free h =? object_base h)).
  subst e. destruct (p_limit k <? align n (next_free h)); [apply wpo_update|apply wpo_ret];
    by eapply (finish_end_spec k ks cur h).
Qed.

(** The chunk of an object of the stack. *)
Lemma objects_split ks os1 o os2 :
  all_objects ks = os1 ++ o :: os2 →
  ∃ ks1 c l x y ks2, ks = ks1 ++ Piece c l (x ++ o :: y) :: ks2 ∧
    os1 = all_objects ks1 ++ x ∧ os2 = y ++ all_objects ks2.
Proof.
  unfold all_objects. revert os1. induction ks as [|[c l os] ks IH]; intros os1; [by destruct os1|]. cbn.
  intros [(x & -> & E)|(x & -> & E)]%app_eq_inv.
  - destruct x as [|o' x]; cbn in E.
    + rewrite app_nil_r in *. destruct (IH [] (eq_sym E)) as (ks1 & c' & l' & x & y & ks2 & -> & E1 & ->).
      exists (Piece c l os1 :: ks1), c', l', x, y, ks2. cbn. rewrite <- app_assoc, <- E1, app_nil_r. done.
    + injection E as <- ->. by exists [], c, l, os1, x, ks.
  - destruct (IH x E) as (ks1 & c' & l' & x' & y & ks2 & -> & -> & ->).
    exists (Piece c l os :: ks1), c', l', x', y, ks2. cbn. by rewrite app_assoc.
Qed.

Lemma free_spec_obs os1 a bs os2 cur h m :
  obs 0 (os1 ++ (a, bs) :: os2) cur h m →
  wpo (obstack_free a) (λ _ '(h', m'), obs 0 os2 [] h' m') (h, m).
Proof.
  intros (k & ks & H & Eo & _). symmetry in Eo.
  destruct (objects_split _ _ _ _ Eo) as (ks1 & c & l & x & y & ks2 & Ek & _ & ->).
  assert (∀ h' m', rep n F (Piece c l y) ks2 [] h' m' → obs 0 (y ++ all_objects ks2) [] h' m') as Hobs.
  { intros h' m' H'. exists (Piece c l y), ks2. pose proof (rep_next_range _ n_range _ _ _ _ _ _ H').
    pose proof (rep_limit _ _ _ _ _ _ _ H'). split_and!; [done|done|lia]. }
  unfold obstack_free. do 2 apply wpo_field_bind.
  rewrite (rep_chunk _ _ _ _ _ _ _ H), (rep_limit _ _ _ _ _ _ _ H).
  destruct (Z.ltb_spec (p_addr k) a), (Z.ltb_spec a (p_limit k)); cbn [andb];
    try (eapply wpo_mono; [by eapply (free_spec n F k ks)|]; intros [] [h' m']; apply Hobs).
  destruct ks1 as [|k1 ks1]; cbn [app] in Ek; injection Ek as -> ->.
  - apply wpo_update_bind, wpo_update, Hobs. by apply (rep_free n n_range F _ _ x _ bs _ _ cur).
  - exfalso. pose proof (rep_apart _ _ _ _ _ _ _ H) as Ha. inversion Ha as [|? ? Hap _]; subst.
    apply Forall_app in Hap as [_ [Hap _]%Forall_cons].
    pose proof (rep_pieces _ _ _ _ _ _ _ H) as [_ [_ [HP _]%Forall_cons]%Forall_app]%Forall_cons.
    pose proof (object_range n n_range _ _ _ _ _ _ _ HP). unfold apart in Hap. cbn in Hap. slia.
Qed.

Lemma alloc_spec os cur h m len :
  obs 0 os cur h m → 0 <= len < 2147483648 →
  wpo (obstack_alloc len) (λ a '(h', m'), ∃ bs, size bs = len ∧
    obs 0 ((a, cur ++ bs) :: os) [] h' m' ∧ (aligned n a ∨ cur ++ bs = [])) (h, m).
Proof.
  intros H Hl. apply wpo_bind. eapply wpo_mono; [by apply (blank_spec os cur)|].
  intros [] [h1 m1] (bs & Es & H1). eapply wpo_mono; [by apply finish_spec|].
  intros a [h2 m2] H2. by exists bs.
Qed.

Lemma copy_spec os cur h m p bs :
  obs 0 os cur h m → readable os p bs → size bs < 2147483648 → ceiling + size bs < 4294967296 →
  wpo (obstack_copy p (size bs)) (λ a '(h', m'),
    obs 0 ((a, cur ++ bs) :: os) [] h' m' ∧ (aligned n a ∨ cur ++ bs = [])) (h, m).
Proof.
  intros H Hp Hl Hw. apply wpo_bind. eapply wpo_mono; [by apply (grow_spec os cur)|].
  intros [] [h1 m1] H1. by apply finish_spec.
Qed.

Lemma copy0_spec os cur h m p bs :
  obs 0 os cur h m → readable os p bs → size bs + 1 < 2147483648 → ceiling + (size bs + 1) < 4294967296 →
  wpo (obstack_copy0 p (size bs)) (λ a '(h', m'),
    obs 0 ((a, cur ++ bs ++ [Some 0]) :: os) [] h' m' ∧ (aligned n a ∨ cur ++ bs ++ [Some 0] = [])) (h, m).
Proof.
  intros H Hp Hl Hw. apply wpo_bind. eapply wpo_mono; [by apply (grow0_spec os cur)|].
  intros [] [h1 m1] H1. by apply finish_spec.
Qed.

Lemma object_size_spec os cur h m (Q : Z → state → Prop) :
  obs 0 os cur h m → Q (size cur) (h, m) → wpo obstack_object_size Q (h, m).
Proof.
  intros H HQ. pose proof (obs_range _ _ _ _ _ H). unfold obstack_object_size. do 2 apply wpo_field_bind.
  apply wpo_ret. rewrite ptr_sub_id by slia. rewrite u32_id by (unfold is_u32; slia).
  by replace (next_free h - object_base h) with (size cur) by lia.
Qed.

(** The word [prev] of a chunk. *)
Lemma prev_spec F' k ks cur h m (Q : Z → state → Prop) :
  rep n F' k ks cur h m → Q (prev_of ks) (h, m) → wpo (chunk_prev_of (p_addr k)) Q (h, m).
Proof.
  intros H HQ. pose proof (rep_chained _ _ _ _ _ _ _ H) as [ [_ Hp]%holds_app _].
  pose proof (rep_pieces _ _ _ _ _ _ _ H) as [Hk Hks]%Forall_cons.
  assert (is_u32 (prev_of ks)) as Hu.
  { unfold is_u32. destruct ks as [|k' ks]; cbn; [lia|]. apply Forall_cons in Hks as [Hk' _].
    pose proof (start_bounds n n_range k'). destruct Hk' as [? ? Htop ? _ _ _ _]. unfold well_placed in Htop.
    pose proof (pow_bounds n n_range). lia. }
  change (size (word_bytes (p_limit k))) with 4 in Hp. unfold wpo, chunk_prev_of, load_word.
  assert ((p_addr k + 4) mod 4 = 0) as -> by (rewrite <- Zplus_mod_idemp_l, (piece_word _ _ _ Hk); done).
  cbn [Z.eqb snd]. unfold holds_bytes in Hp. change (length (word_bytes (prev_of ks))) with 4%nat in Hp.
  rewrite Hp. cbn. replace (_ + _) with (prev_of ks); [done|]. unfold is_u32 in Hu. divlia.
Qed.

(** An obstack is found empty only if all its objects are. *)
Lemma empty_p_spec os cur h m :
  obs 0 os cur h m →
  wpo obstack_empty_p (λ b s', s' = (h, m) ∧ (b = true → cur = [] ∧ Forall (λ o, o.2 = []) os)) (h, m).
Proof.
  intros (k & ks & H & -> & _). pose proof (rep_next_range _ n_range _ _ _ _ _ _ H).
  unfold obstack_empty_p. apply wpo_field_bind, wpo_bind. rewrite (rep_chunk _ _ _ _ _ _ _ H).
  apply (prev_spec _ _ _ _ _ _ _ H). destruct (Z.eqb_spec (prev_of ks) 0) as [E|]; [|by apply wpo_ret].
  assert (ks = []) as ->.
  { destruct ks as [|k' ks]; [done|]. pose proof (rep_pieces _ _ _ _ _ _ _ H) as [_ [Hk' _]%Forall_cons]%Forall_cons.
    pose proof (piece_addr _ _ _ Hk'). cbn in E. lia. }
  do 2 apply wpo_field_bind. apply wpo_bind. rewrite (rep_mask _ _ _ _ _ _ _ H). unfold chunk_contents.
  rewrite ptr_add_id by lia. apply (wpo_align n n_range); [lia|lia|lia|]. fold (start n k). apply wpo_ret.
  split; [done|]. intros Hb%Z.eqb_eq. pose proof (rep_next _ _ _ _ _ _ _ H).
  split; [apply size_zero; slia|]. unfold all_objects. cbn. rewrite app_nil_r. apply Forall_forall.
  intros o Ho. destruct (placed_in _ _ _ _ (rep_base _ _ _ _ _ _ _ H) Ho). apply size_zero. slia.
Qed.
End Macros.
