(* ===== verification/ObstackInstance.v ===== *)
(** * Functions that satisfy the class [Obstack_c]

    A simple [obstack.c]: chunks are taken from the addresses above all that is
    allocated, if the macros can handle them there, and never given back. It shows that
    what [ObstackSpec] states of the functions can be satisfied, for every ceiling. *)
From stdpp Require Import base numbers list gmap.
From Stdlib Require Import ZArith Lia.
From S2P Require Import Prelude Obstack ObstackSpec ObstackTheory.

(** * Fresh memory *)

Definition top_of (m : memory) : Z := foldr (λ p t, Z.max (p.1 + 1) t) 4 (map_to_list m).

(** A multiple of 4 above every allocated address. *)
Definition fresh (m : memory) : Z := 4 * (top_of m / 4 + 1).

Lemma fresh_spec m : 4 <= fresh m ∧ fresh m mod 4 = 0 ∧ ∀ i, is_Some (m !! i) → i < fresh m.
Proof.
  assert (4 <= top_of m ∧ ∀ i, is_Some (m !! i) → i < top_of m) as [Ht Hi].
  { unfold top_of. split.
    - induction (map_to_list m); cbn; lia.
    - intros i [b Hb]. apply elem_of_map_to_list in Hb.
      induction (map_to_list m) as [|x l IH]; [by apply elem_of_nil in Hb|].
      apply elem_of_cons in Hb as [<-|Hb]; cbn; [lia|specialize (IH Hb); lia]. }
  unfold fresh. split_and!; [divlia|rewrite Z.mul_comm; by apply Z_mod_mult|].
  intros i Hb%Hi. divlia.
Qed.

(** A new chunk [c, limit) with its header, the rest not written. *)
Definition new_bytes (limit prev n : Z) : list byte :=
  word_bytes limit ++ word_bytes prev ++ replicate (Z.to_nat n) None.

Definition set_chunk (c limit base next : Z) (empty : bool) (mask : Z) (h : obstack) : obstack :=
  Obstack (chunk_size h) c base next limit mask (chunkfun h) (freefun h) (extra_arg h) (use_extra_arg h)
    empty (alloc_failed h).

Section Functions.
Context {C : Ceiling}.

(** The test for [well_placed]. *)
Definition can_place (mask lo hi : Z) : bool :=
  (hi <=? ceiling) && (hi - lo + mask <? 2147483648) && (hi + mask <? 4294967296) &&
  ((hi + mask <? 2147483648) || (2147483648 <=? lo)).

(** A chunk with room for [room] bytes behind the growing object [cur]. *)
Definition allocate (prev mask : Z) (cur : list byte) (room : Z) : O unit := λ '(h, m),
  let c := fresh m in
  let n := mask + size cur + room in
  let limit := c + 8 + n in
  if can_place mask c limit then
    let base := (c + 8 + mask) .& Z.lnot mask in
    Returns tt (set_chunk c limit base (base + size cur) false mask h,
      write_bytes base cur (write_bytes c (new_bytes limit prev n) m))
  else Alloc_failed.

Definition simple_newchunk (length : Z) : O unit := λ '(h, m),
  match read_bytes m (object_base h) (Z.to_nat (next_free h - object_base h)) with
  | Some cur => allocate (chunk h) (alignment_mask h) cur length (h, m)
  | None => Undefined
  end.

Definition simple_begin (size alignment chunkfun freefun : Z) : O Z := λ s,
  let mask := if alignment =? 0 then 7 else alignment - 1 in
  (allocate 0 mask [] (Z.max size 4064);; mret 1) s.

(** The words of a chunk header. *)
Definition word_at (m : memory) (a : Z) : option Z := read_bytes m a 4 ≫= bytes_word.

(** The chunk, from [c] back, that has the object. *)
Fixpoint find_chunk (fuel : nat) (m : memory) (c obj : Z) : option (Z * Z) :=
  match fuel with
  | 0%nat => None
  | S fuel =>
      limit ← word_at m c;
      prev ← word_at m (c + 4);
      if (c <? obj) && (obj <=? limit) then Some (c, limit) else find_chunk fuel m prev obj
  end.

Definition simple_free (obj : Z) : O unit := λ '(h, m),
  match find_chunk (length (map_to_list m)) m (chunk h) obj with
  | Some (c, limit) => Returns tt (set_chunk c limit obj obj true (alignment_mask h) h, m)
  | None => Undefined
  end.

Definition simple_paths : Slow_paths := {|
  _obstack_newchunk := simple_newchunk;
  _obstack_begin := simple_begin;
  _obstack_begin_1 size alignment chunkfun freefun arg := simple_begin size alignment chunkfun freefun;
  __obstack_free := simple_free;
|}.
End Functions.

(** * It does what is documented *)

Section Correct.
Context {C : Ceiling}.
Variable n : Z.
Hypothesis n_range : 0 <= n < 31.
Implicit Types (m F : memory) (ks : list piece) (cur : list byte) (h : obstack).
Local Abbreviation mask := (2 ^ n - 1).

(** All chunks lie below fresh memory. *)
Lemma pieces_below m ks :
  Forall (piece_ok n m) ks → Forall (λ k, p_limit k <= fresh m ∧ p_addr k < p_limit k) ks.
Proof.
  intros H. eapply Forall_impl; [exact H|]. intros k Hk. cbn.
  pose proof (start_bounds n n_range k). pose proof (piece_start _ _ _ Hk).
  destruct (fresh_spec m) as (_ & _ & Hf). specialize (Hf (p_limit k - 1)).
  enough (is_Some (m !! (p_limit k - 1))) by (specialize (Hf ltac:(done)); lia).
  apply (piece_allocated _ _ _ Hk). lia.
Qed.

Lemma new_bytes_size limit prev k : 0 <= k → size (new_bytes limit prev k) = 8 + k.
Proof. intros. unfold new_bytes, size. rewrite !length_app, length_replicate. cbn. lia. Qed.

Lemma allocate_spec F ks cur room h m :
  F ⊆ m → Forall (piece_ok n m) ks → ForallOrdPairs apart ks → chained m ks → framed F m ks →
  0 <= room →
  wpo (allocate (prev_of ks) mask cur room) (λ _ '(h', m'), ∃ k, rep n F k ks cur h' m' ∧
    p_objects k = [] ∧ aligned n (object_base h') ∧ next_free h' + room <= chunk_limit h') (h, m).
Proof.
  intros HF Hp Ha Hch Hf Hroom. unfold wpo, allocate. pose proof (pow_bounds n n_range).
  destruct (fresh_spec m) as (Hf4 & Hfm & Hfi). set (c := fresh m) in *.
  set (k := mask + size cur + room). set (limit := c + 8 + k).
  destruct (can_place mask c limit) eqn:Htop; [|done].
  assert (well_placed n c limit) as Hplace by (unfold can_place in Htop; unfold well_placed; lia).
  fold (align n (c + 8)). pose proof (align_range n n_range (c + 8)) as Hab.
  pose proof (align_aligned n n_range (c + 8)) as Hal. pose proof (size_nonneg cur).
  set (m1 := write_bytes c (new_bytes limit (prev_of ks) k) m).
  set (m2 := write_bytes (align n (c + 8)) cur m1).
  assert (size (new_bytes limit (prev_of ks) k) = 8 + k) as En by (apply new_bytes_size; lia).
  assert (written c limit m m1) as W1 by (apply write_written; lia).
  assert (written (c + 8) limit m1 m2) as W2 by (apply write_written; lia).
  assert (written c limit m m2) as W.
  { split; [|intros i Hi; by apply W2, W1]. intros i Hi. rewrite (proj1 W2), (proj1 W1); [done|lia|lia]. }
  pose proof (pieces_below _ _ Hp) as Hb. set (K := Piece c limit []).
  assert (Forall (misses c limit) ks) as Hmiss.
  { eapply Forall_impl; [exact Hb|]. intros k' [? ?]. right. done. }
  exists K. split; [|split_and!; [done|done|cbn; lia]]. split; cbn; try done.
  - constructor.
    + split; cbn; [lia|done|done|unfold start; cbn; lia| |unfold start; cbn; lia|constructor|constructor].
      apply (written_allocated _ _ m1 _ _ _ W2), (allocated_sub _ c (c + (8 + k))); [|lia|lia].
      rewrite <- En. apply holds_allocated, write_holds.
    + rewrite Forall_forall in Hp, Hmiss |- *. intros k' Hk'. apply (piece_misses n n_range c limit m); auto.
  - constructor; [|done]. eapply Forall_impl; [exact Hb|]. intros k' [? _]. by right.
  - split; [|apply (chained_written c limit m); [done| |by eapply pieces_room|done]].
    + apply (holds_written (c + 8) limit m1); [done| |left; unfold size; cbn; lia].
      pose proof (write_holds c (new_bytes limit (prev_of ks) k) m) as Hw. unfold new_bytes in Hw at 2.
      rewrite app_assoc in Hw. by apply holds_app in Hw as [Hw _].
    + eapply Forall_impl; [exact Hmiss|]. by left.
  - destruct Hf as [_ Hf]. split.
    + apply map_subseteq_spec. intros i b Hib. pose proof (lookup_weaken _ _ _ _ Hib HF) as Hm.
      rewrite (proj1 W); [done|]. left. apply Hfi. by exists b.
    + intros i [b Hib]. constructor; [left; cbn; apply Hfi; exists b; by eapply lookup_weaken|]. apply Hf. by exists b.
  - unfold start. cbn. lia.
  - apply write_holds.
  - by left.
  - intros Hx%Exists_nil. done.
Qed.

Lemma newchunk_correct F k ks cur h m length :
  rep n F k ks cur h m → 0 <= length →
  wpo (simple_newchunk length) (λ _ '(h', m'), ∃ k',
    rep n F k' (k :: ks) cur h' m' ∧ p_objects k' = [] ∧ aligned n (object_base h') ∧
    next_free h' + length <= chunk_limit h') (h, m).
Proof.
  intros H Hl. unfold wpo, simple_newchunk.
  destruct H as [Ec El Em Hp Ha Hch Hf Hb En Hroom Hcur Hal He].
  replace (Z.to_nat (next_free h - object_base h)) with (List.length cur) by (unfold size in En; lia).
  rewrite Hcur, Em, Ec. by apply (allocate_spec F (k :: ks) cur length h m (proj1 Hf) Hp Ha Hch Hf).
Qed.

(** The walk over the chunks. *)
Lemma word_at_spec m a v : holds_bytes m a (word_bytes v) → is_u32 v → word_at m a = Some v.
Proof.
  intros H Hv. unfold word_at. change 4%nat with (length (word_bytes v)). rewrite H. cbn. f_equal.
  unfold is_u32 in Hv. divlia.
Qed.

Lemma header_words m k ks :
  Forall (piece_ok n m) (k :: ks) → chained m (k :: ks) →
  word_at m (p_addr k) = Some (p_limit k) ∧ word_at m (p_addr k + 4) = Some (prev_of ks).
Proof.
  intros Hp [ [Hl Hpr]%holds_app _]. pose proof (pow_bounds n n_range).
  assert (∀ k', piece_ok n m k' → is_u32 (p_addr k') ∧ is_u32 (p_limit k')) as Hu.
  { intros k' Hk'. pose proof (start_bounds n n_range k'). destruct Hk' as [? ? Htop ? _ _ _ _].
    unfold well_placed in Htop. unfold is_u32. lia. }
  apply Forall_cons in Hp as [Hk Hks]. split; (apply word_at_spec; [done|]); [by apply Hu|].
  destruct ks as [|k' ks]; [done|]. apply Forall_cons in Hks as [Hk' _]. by apply Hu.
Qed.

Lemma find_chunk_spec m ks1 P ks2 a fuel :
  let ks := ks1 ++ P :: ks2 in
  Forall (piece_ok n m) ks → ForallOrdPairs apart ks → chained m ks →
  p_addr P + 8 <= a <= p_limit P → (length ks1 < fuel)%nat →
  find_chunk fuel m (prev_of ks) a = Some (p_addr P, p_limit P).
Proof.
  intros ks Hp Ha Hch Hr. unfold ks in *. clear ks. revert fuel.
  induction ks1 as [|k ks1 IH]; intros [|fuel] Hfuel; cbn [length] in Hfuel; try lia; cbn [app] in *;
    destruct (header_words _ _ _ Hp Hch) as [E1 E2]; cbn [find_chunk prev_of]; rewrite E1, E2; cbn.
  - destruct (Z.ltb_spec (p_addr P) a), (Z.leb_spec a (p_limit P)); try lia. done.
  - apply Forall_cons in Hp as [Hk Hp]. inversion Ha as [|? ? Hap Ha']; subst. destruct Hch as [_ Hch].
    apply Forall_app in Hap as [_ [Hap _]%Forall_cons]. unfold apart in Hap.
    pose proof (piece_room n n_range _ _ Hk).
    destruct (Z.ltb_spec (p_addr k) a), (Z.leb_spec a (p_limit k)); cbn [andb]; try lia; apply IH; (done || lia).
Qed.

(** There are fewer chunks than allocated bytes. *)
Lemma chunks_fuel m ks : Forall (piece_ok n m) ks → ForallOrdPairs apart ks → (length ks <= length (map_to_list m))%nat.
Proof.
  intros Hp Ha. rewrite length_map_to_list, <- size_dom.
  assert (NoDup (p_addr <$> ks)) as Hnd.
  { induction Ha as [|k ks Hk _ IH]; [constructor|]. apply Forall_cons in Hp as [Hpk Hp].
    constructor; [|by apply IH]. intros (k' & E & Hk')%list_elem_of_fmap.
    rewrite Forall_forall in Hk, Hp. specialize (Hk k' Hk'). specialize (Hp k' Hk').
    pose proof (piece_room n n_range _ _ Hpk). pose proof (piece_room n n_range _ _ Hp). unfold apart in Hk. lia. }
  transitivity (base.size (list_to_set (C := gset Z) (p_addr <$> ks))).
  { rewrite size_list_to_set by done. by rewrite length_fmap. }
  apply subseteq_size. intros i [k [-> Hk] ]%elem_of_list_to_set%list_elem_of_fmap.
  rewrite Forall_forall in Hp. specialize (Hp k Hk). apply elem_of_dom, (piece_allocated _ _ _ Hp).
  pose proof (piece_room n n_range _ _ Hp). lia.
Qed.

Lemma free_correct F k ks cur h m ks1 c l os1 a bs os2 ks2 :
  rep n F k ks cur h m → k :: ks = ks1 ++ Piece c l (os1 ++ (a, bs) :: os2) :: ks2 →
  wpo (simple_free a) (λ _ '(h', m'), rep n F (Piece c l os2) ks2 [] h' m') (h, m).
Proof.
  intros [Ec El Em Hp Ha Hch Hf Hb En Hroom Hcur Hal He] Ek. unfold wpo, simple_free.
  pose proof (chunks_fuel _ _ Hp Ha) as Hfuel. rewrite Ek in *.
  set (P := Piece c l (os1 ++ (a, bs) :: os2)) in *.
  pose proof Hp as [_ [HP Hp2]%Forall_cons]%Forall_app. pose proof (object_range n n_range _ _ _ _ _ _ _ HP) as Hr.
  assert (chunk h = prev_of (ks1 ++ P :: ks2)) as -> by (rewrite Ec, <- Ek; done).
  rewrite (find_chunk_spec m ks1 P ks2 a) by (done || (rewrite length_app in Hfuel; cbn in *; slia)).
  assert (place <$> P :: ks2 = place <$> Piece c l os2 :: ks2) as Es by done.
  assert (ForallOrdPairs apart (P :: ks2) ∧ chained m (P :: ks2) ∧ framed F m (P :: ks2)) as (Ha2 & Hch2 & Hf2).
  { clear -Ha Hch Hf. induction ks1 as [|x ks1 IH]; [done|]. apply IH.
    - by inversion Ha.
    - apply Hch.
    - destruct Hf as [HF Hf]. split; [done|]. intros i Hi. by specialize (Hf i Hi) as [_ ?]%Forall_cons. }
  destruct HP as [? ? ? ? ? Hpl Hh Ho]. cbn [p_addr p_limit p_objects] in *.
  apply placed_app in Hpl as [Hp1 Hp2']. apply Forall_app in Hh as [_ [_ Hh]%Forall_cons].
  apply Forall_app in Ho as [_ [Hoa Ho]%Forall_cons].
  split; cbn; try done.
  - constructor; [|done]. split; try done. apply (placed_mono _ a); [done|cbn; slia].
  - by apply (apart_same _ _ Es).
  - by apply (framed_same _ _ _ _ Es).
  - slia.
  - slia.
  - destruct Hoa as [?|[_ ?] ]; [by left|by right].
Qed.
End Correct.

Lemma simple_obstack_c {C : Ceiling} : @Obstack_c simple_paths C.
Proof.
  split.
  - intros n F k ks cur h m length Hn H Hl. eapply wpo_mono; [apply (newchunk_correct n Hn F k ks cur); [done|lia]|].
    intros [] [h' m'] (k' & H' & Eo & Ha & Hroom). exists k', (k :: ks). split_and!; [done..|by left].
  - intros n F k ks cur h m ks1 c l os1 a bs os2 ks2 Hn H E. by eapply (free_correct n Hn F k ks).
  - intros F m h size alignment chunkfun freefun HF Hal.
    assert (∃ n, default_alignment alignment n ∧
      (if alignment =? 0 then 7 else alignment - 1) = 2 ^ n - 1) as (n & Hn & E).
    { destruct Hal as [->|(n & Hn & ->)]; [by exists 3; split; [split; [|left]|]|].
      exists n. split; [split; [done|by right]|]. pose proof (pow_bounds n Hn).
      destruct (Z.eqb_spec (2 ^ n) 0); [lia|done]. }
    cbn. unfold simple_begin. rewrite E. destruct Hn as [Hn Hd].
    pose proof (allocate_spec n Hn F [] [] (Z.max size 4064) h m HF) as Hs.
    unfold wpo, mbind, O_bind in *. cbv beta zeta in *. destruct (allocate _ _ _ _ _) as [[] [h' m']| |].
    + destruct Hs as (k & H & Eo & _); [constructor|constructor|done|done|lia|]. exists n, k. done.
    + done.
    + destruct Hs; [constructor|constructor|done|done|lia].
Qed.
