(* ===== verification/ObstackClient.v ===== *)
(** * Programs with an obstack

    A client keeps the addresses of the objects it has finished, the last one
    first, and names objects by their place in this list. Its operations are those
    of [Obstack], and reading and writing its objects. The specification is a
    stack of lists of bytes. The theorem: any program that the specification allows
    ([legal_run]) runs on an obstack without undefined behaviour, with the answers of the
    specification, or stops because memory is exhausted. What is not allowed are lengths that are
    no [int]s, sources and objects that do not exist, words that are not aligned, and lengths
    that take the pointers of the macros which compare a sum beyond the end of the address
    space. The last section shows what the macros do where chunks are not [well_placed] and
    with such lengths. *)
From stdpp Require Import base numbers list gmap.
From Stdlib Require Import ZArith Lia.
From S2P Require Import Prelude Obstack ObstackSpec ObstackTheory ObstackInstance.

(** Bytes that are copied into an obstack: from other memory, or from a finished object. *)
Inductive source :=
  | Client (p : Z) (len : nat)
  | Object (i off len : nat).

Inductive op :=
  | Grow (src : source)
  | Grow0 (src : source)
  | One_grow (c : Z)
  | Ptr_grow (v : Z)
  | Int_grow (v : Z)
  | Fast_grow (cs : list Z)
  | Blank (len : Z)
  | Shrink (len : nat)
  | Finish
  | Alloc (len : Z)
  | Copy (src : source)
  | Copy0 (src : source)
  | Free (i : nat)
  | Write (i off : nat) (bs : list byte)
  | Read (i off len : nat)
  | Object_size
  | Empty_p.

Inductive answer :=
  | Nothing
  | Bytes (bs : list byte)
  | Number (z : Z)
  | Truth (b : bool).

(** * The client *)

Section Client.
Context {paths : Slow_paths}.

Definition nth_address (addrs : list Z) (i : nat) : O Z :=
  match addrs !! i with Some a => mret a | None => undefined end.

Definition source_address (addrs : list Z) (src : source) : O Z :=
  match src with
  | Client p _ => mret p
  | Object i off _ => a ← nth_address addrs i; mret (a + Z.of_nat off)
  end.

Definition source_length (src : source) : Z :=
  match src with Client _ len => Z.of_nat len | Object _ _ len => Z.of_nat len end.

Fixpoint fast_grow (cs : list Z) : O unit :=
  match cs with
  | [] => mret tt
  | c :: cs => obstack_1grow_fast c;; fast_grow cs
  end.

Definition load (a : Z) (len : nat) : O (list byte) := λ s,
  match read_bytes s.2 a len with
  | Some bs => Returns bs s
  | None => Undefined
  end.

(** The addresses after an operation, and its answer. *)
Definition perform (o : op) (addrs : list Z) : O (list Z * answer) :=
  match o with
  | Grow src => p ← source_address addrs src; obstack_grow p (source_length src);; mret (addrs, Nothing)
  | Grow0 src => p ← source_address addrs src; obstack_grow0 p (source_length src);; mret (addrs, Nothing)
  | One_grow c => obstack_1grow c;; mret (addrs, Nothing)
  | Ptr_grow v => obstack_ptr_grow v;; mret (addrs, Nothing)
  | Int_grow v => obstack_int_grow v;; mret (addrs, Nothing)
  | Fast_grow cs => obstack_make_room (size cs);; fast_grow cs;; mret (addrs, Nothing)
  | Blank len => obstack_blank len;; mret (addrs, Nothing)
  | Shrink len => obstack_blank (- Z.of_nat len);; mret (addrs, Nothing)
  | Finish => a ← obstack_finish; mret (a :: addrs, Nothing)
  | Alloc len => a ← obstack_alloc len; mret (a :: addrs, Nothing)
  | Copy src => p ← source_address addrs src; a ← obstack_copy p (source_length src); mret (a :: addrs, Nothing)
  | Copy0 src => p ← source_address addrs src; a ← obstack_copy0 p (source_length src); mret (a :: addrs, Nothing)
  | Free i => a ← nth_address addrs i; obstack_free a;; mret (drop (S i) addrs, Nothing)
  | Write i off bs => a ← nth_address addrs i; store (a + Z.of_nat off) bs;; mret (addrs, Nothing)
  | Read i off len => a ← nth_address addrs i; bs ← load (a + Z.of_nat off) len; mret (addrs, Bytes bs)
  | Object_size => z ← obstack_object_size; mret (addrs, Number z)
  | Empty_p => b ← obstack_empty_p; mret (addrs, Truth b)
  end.

Fixpoint exec (ops : list op) (addrs : list Z) : O (list Z * list answer) :=
  match ops with
  | [] => mret (addrs, [])
  | o :: ops =>
      r ← perform o addrs;
      r' ← exec ops r.1;
      mret (r'.1, r.2 :: r'.2)
  end.
End Client.

(** * The specification *)

Section Specification.
Context {C : Ceiling}.
(** The alignment is [2 ^ n], and other memory has the bytes [F]. *)
Variables (n : Z) (F : memory).

Definition source_bytes (os : list object) (src : source) : option (list byte) :=
  match src with
  | Client p len => read_bytes F p len
  | Object i off len =>
      o ← os !! i;
      if (off + len <=? length o.2)%nat then Some (take len (drop off o.2)) else None
  end.

(** Bytes [bs] written at [off] in [xs]. *)
Definition poke (off : nat) (bs xs : list byte) : list byte := take off xs ++ bs ++ drop (off + length bs) xs.

(** The pointer behind [len] more bytes in a chunk below the ceiling does not wrap around. *)
Definition no_wrap (len : Z) : Prop := ceiling + len < 4294967296.

(** What an operation may be called on: lengths are [int]s, objects exist, words are aligned,
    and the sum that a macro compares does not wrap around. *)
Definition legal (o : op) (os : list object) (cur : list byte) : Prop :=
  match o with
  | Grow src | Copy src =>
      is_Some (source_bytes os src) ∧ source_length src < 2147483648 ∧ no_wrap (source_length src)
  | Grow0 src | Copy0 src =>
      is_Some (source_bytes os src) ∧ source_length src + 1 < 2147483648 ∧ no_wrap (source_length src + 1)
  | One_grow _ => no_wrap 1
  | Ptr_grow _ | Int_grow _ => 2 <= n ∧ size cur mod 4 = 0 ∧ no_wrap 4
  | Fast_grow cs => size cs < 2147483648
  | Blank len | Alloc len => 0 <= len < 2147483648
  | Shrink len => (len <= length cur)%nat
  | Free i => (i < length os)%nat
  | Write i off bs => ∃ a xs, os !! i = Some (a, xs) ∧ (off + length bs <= length xs)%nat
  | Read i off len => ∃ a xs, os !! i = Some (a, xs) ∧ (off + len <= length xs)%nat
  | Finish | Object_size | Empty_p => True
  end.

(** What an operation does: addresses, and bytes that nobody has written, are arbitrary. *)
Definition step (o : op) (os : list object) (cur : list byte) (ans : answer)
    (os' : list object) (cur' : list byte) : Prop :=
  match o with
  | Grow src => ans = Nothing ∧ os' = os ∧ ∃ bs, source_bytes os src = Some bs ∧ cur' = cur ++ bs
  | Grow0 src => ans = Nothing ∧ os' = os ∧ ∃ bs, source_bytes os src = Some bs ∧ cur' = cur ++ bs ++ [Some 0]
  | One_grow c => ans = Nothing ∧ os' = os ∧ cur' = cur ++ [Some (u8 c)]
  | Ptr_grow v | Int_grow v => ans = Nothing ∧ os' = os ∧ cur' = cur ++ word_bytes (u32 v)
  | Fast_grow cs => ans = Nothing ∧ os' = os ∧ cur' = cur ++ ((λ c, Some (u8 c)) <$> cs)
  | Blank len => ans = Nothing ∧ os' = os ∧ ∃ bs, size bs = len ∧ cur' = cur ++ bs
  | Shrink len => ans = Nothing ∧ os' = os ∧ cur' = take (length cur - len) cur
  | Finish => ans = Nothing ∧ cur' = [] ∧ ∃ a, os' = (a, cur) :: os
  | Alloc len => ans = Nothing ∧ cur' = [] ∧ ∃ a bs, size bs = len ∧ os' = (a, cur ++ bs) :: os
  | Copy src => ans = Nothing ∧ cur' = [] ∧ ∃ a bs, source_bytes os src = Some bs ∧ os' = (a, cur ++ bs) :: os
  | Copy0 src =>
      ans = Nothing ∧ cur' = [] ∧ ∃ a bs, source_bytes os src = Some bs ∧ os' = (a, cur ++ bs ++ [Some 0]) :: os
  | Free i => ans = Nothing ∧ cur' = [] ∧ os' = drop (S i) os
  | Write i off bs =>
      ans = Nothing ∧ cur' = cur ∧ ∃ a xs, os !! i = Some (a, xs) ∧ os' = <[i := (a, poke off bs xs)]> os
  | Read i off len =>
      os' = os ∧ cur' = cur ∧ ∃ a xs, os !! i = Some (a, xs) ∧ ans = Bytes (take len (drop off xs))
  | Object_size => os' = os ∧ cur' = cur ∧ ans = Number (size cur)
  | Empty_p => os' = os ∧ cur' = cur ∧ ∃ b, ans = Truth b ∧ (b = true → cur = [] ∧ Forall (λ o, o.2 = []) os)
  end.

Inductive steps : list op → list object → list byte → list answer → list object → list byte → Prop :=
  | steps_nil os cur : steps [] os cur [] os cur
  | steps_cons o ops os cur ans os1 cur1 anss os2 cur2 :
      step o os cur ans os1 cur1 → steps ops os1 cur1 anss os2 cur2 →
      steps (o :: ops) os cur (ans :: anss) os2 cur2.

(** Every operation of the program is legal where it comes to be called. *)
Fixpoint legal_run (ops : list op) (os : list object) (cur : list byte) : Prop :=
  match ops with
  | [] => True
  | o :: ops => legal o os cur ∧ ∀ ans os' cur', step o os cur ans os' cur' → legal_run ops os' cur'
  end.
End Specification.

(** * The operations on an obstack *)

Section Refinement.
Context {paths : Slow_paths} {C : Ceiling} {spec : Obstack_c}.
Variables (n : Z) (F : memory).
Hypothesis n_range : 0 <= n < 31.
Implicit Types (m : memory) (os : list object) (cur bs : list byte) (h : obstack).
Local Abbreviation obs := (obs n F).

(** The state of the client agrees with that of the specification. *)
Definition agrees o os cur (r : list Z * answer) (s : state) : Prop :=
  ∃ os' cur', step F o os cur r.2 os' cur' ∧ r.1 = os'.*1 ∧ obs 0 os' cur' s.1 s.2.

Lemma agrees_step o os cur ans os' cur' addrs h m :
  obs 0 os' cur' h m → addrs = os'.*1 → step F o os cur ans os' cur' → agrees o os cur (addrs, ans) (h, m).
Proof. intros Ho -> Hs. by exists os', cur'. Qed.

Lemma nth_address_spec os i a xs (Q : Z → state → Prop) s :
  os !! i = Some (a, xs) → Q a s → wpo (nth_address os.*1 i) Q s.
Proof. intros E HQ. unfold nth_address. rewrite list_lookup_fmap, E. by apply wpo_ret. Qed.

(** The bytes of a source are readable at its address. *)
Lemma source_spec os src bs (Q : Z → state → Prop) s :
  source_bytes F os src = Some bs →
  (∀ p, readable F os p bs → size bs = source_length src → Q p s) →
  wpo (source_address os.*1 src) Q s.
Proof.
  intros E HQ. destruct src as [p len|i off len]; cbn in E |- *.
  - assert (length bs = len) as El.
    { clear HQ. revert p bs E. induction len as [|len IH]; intros p bs; cbn; [by intros [= <-]|].
      intros (b & _ & (cs & Hcs & [= <-])%bind_Some)%bind_Some. cbn. by rewrite (IH _ _ Hcs). }
    apply wpo_ret, HQ; [left; unfold holds_bytes; by rewrite El|unfold size; by rewrite El].
  - apply bind_Some in E as ([a xs] & Ei & E). cbn in E. destruct (Nat.leb_spec (off + len) (length xs)); [|done].
    injection E as <-. apply wpo_bind, (nth_address_spec _ _ _ _ _ _ Ei), wpo_ret, HQ.
    + right. exists a, (take off xs), (drop len (drop off xs)). rewrite !take_drop. split.
      * by apply list_elem_of_lookup_2 in Ei.
      * unfold size. rewrite length_take. lia.
    + unfold size. cbn. rewrite length_take, length_drop. lia.
Qed.

Lemma fast_grow_spec cs room os cur h m :
  obs room os cur h m → size cs <= room →
  wpo (fast_grow cs) (λ _ '(h', m'), obs 0 os (cur ++ ((λ c, Some (u8 c)) <$> cs)) h' m') (h, m).
Proof.
  revert room cur h m. induction cs as [|c cs IH]; intros room cur h m H Hr; cbn [fast_grow].
  - apply wpo_ret. cbn. rewrite app_nil_r. eapply obs_weaken; [exact H|slia].
  - apply wpo_bind. eapply wpo_mono; [apply one_grow_fast_spec; [done|exact H|slia]|].
    intros [] [h1 m1] H1. eapply wpo_mono; [apply (IH _ _ _ _ H1); slia|].
    intros [] [h2 m2]. by rewrite <- app_assoc.
Qed.

Lemma object_at os i a xs : os !! i = Some (a, xs) → os = take i os ++ (a, xs) :: drop (S i) os.
Proof. intros E. by rewrite take_drop_middle. Qed.

Lemma free_op_spec i os cur h m :
  obs 0 os cur h m → (i < length os)%nat → wpo (perform (Free i) os.*1) (agrees (Free i) os cur) (h, m).
Proof.
  intros H [ [a xs] E]%lookup_lt_is_Some_2. unfold perform. apply wpo_bind, (nth_address_spec _ _ _ _ _ _ E).
  rewrite (object_at _ _ _ _ E) in H. apply wpo_bind. eapply wpo_mono; [by apply (free_spec_obs n F n_range _ _ _ _ _ _ _ H)|].
  intros [] [h' m'] H'. apply wpo_ret. eapply agrees_step; [done|by rewrite fmap_drop|done].
Qed.

(** Bytes in the middle of an object. *)
Lemma object_middle os cur h m i a xs off len :
  obs 0 os cur h m → os !! i = Some (a, xs) → (off + len <= length xs)%nat →
  holds_bytes m (a + Z.of_nat off) (take len (drop off xs)).
Proof.
  intros H E Hl. apply list_elem_of_lookup_2 in E. destruct (object_holds n F n_range _ _ _ _ _ _ _ H E) as [Hb _].
  rewrite <- (take_drop off xs), <- (take_drop len (drop off xs)) in Hb.
  apply holds_app in Hb as [_ [Hb _]%holds_app].
  replace (size (take off xs)) with (Z.of_nat off) in Hb by (unfold size; rewrite length_take; lia). done.
Qed.

Lemma read_op_spec i off len a xs os cur h m :
  obs 0 os cur h m → os !! i = Some (a, xs) → (off + len <= length xs)%nat →
  wpo (perform (Read i off len) os.*1) (agrees (Read i off len) os cur) (h, m).
Proof.
  intros H E Hl. unfold perform. apply wpo_bind, (nth_address_spec _ _ _ _ _ _ E), wpo_bind.
  pose proof (object_middle _ _ _ _ _ _ _ _ _ H E Hl) as Hb. unfold holds_bytes in Hb.
  rewrite length_take, length_drop, Nat.min_l in Hb by lia. unfold load, wpo. cbn [snd]. rewrite Hb.
  eapply agrees_step; [done|done|]. split_and!; [done|done|]. by exists a, xs.
Qed.

(** ** Writing to an object *)

Lemma write_app a bs cs m : write_bytes a (bs ++ cs) m = write_bytes a bs (write_bytes (a + size bs) cs m).
Proof.
  revert a. induction bs as [|b bs IH]; intros a; cbn [app write_bytes].
  - change (size (@nil byte)) with 0. by rewrite Z.add_0_r.
  - rewrite IH, size_cons. by rewrite Z.add_assoc.
Qed.

Lemma write_id a bs m : holds_bytes m a bs → write_bytes a bs m = m.
Proof.
  revert a. induction bs as [|b bs IH]; intros a; [done|]. intros [Hb Hbs]%holds_cons. cbn [write_bytes].
  rewrite IH by done. by apply insert_id.
Qed.

(** Writing a part of an object is writing all of it. *)
Lemma write_part a off bs xs m :
  holds_bytes m a xs → (off + length bs <= length xs)%nat →
  write_bytes (a + Z.of_nat off) bs m = write_bytes a (poke off bs xs) m.
Proof.
  intros H Hl. unfold poke. rewrite !write_app.
  assert (size (take off xs) = Z.of_nat off) as Eo by (unfold size; rewrite length_take; lia). rewrite Eo.
  rewrite <- (take_drop off xs), <- (take_drop (length bs) (drop off xs)), drop_drop in H.
  apply holds_app in H as [H1 [_ H2]%holds_app].
  replace (size (take (length bs) (drop off xs))) with (size bs) in H2
    by (unfold size; rewrite length_take, length_drop; lia).
  rewrite Eo in H2. rewrite (write_id (a + Z.of_nat off + size bs)) by done. symmetry. apply write_id.
  apply (holds_agree m); [done|]. intros i Hi. apply write_lookup_out. lia.
Qed.

Lemma poke_size off bs xs : (off + length bs <= length xs)%nat → size (poke off bs xs) = size xs.
Proof. intros. unfold poke, size. rewrite !length_app, length_take, length_drop. lia. Qed.

Lemma obs_poke os cur h m i a xs xs' :
  obs 0 os cur h m → os !! i = Some (a, xs) → size xs' = size xs →
  obs 0 (<[i := (a, xs')]> os) cur h (write_bytes a xs' m).
Proof.
  intros (k & ks & H & Eo & Hroom) E Es. rewrite (object_at _ _ _ _ E) in Eo. symmetry in Eo.
  destruct (objects_split _ _ _ _ Eo) as (ks1 & c & l & x & y & ks2 & Ek & E1 & E2).
  assert (∃ k' ks', k' :: ks' = ks1 ++ Piece c l (x ++ (a, xs') :: y) :: ks2) as (k' & ks' & Ek').
  { destruct ks1 as [|k1 ks1]; by eexists _, _. }
  exists k', ks'. split_and!; [by eapply (rep_poke n n_range F k ks cur h m)| |done].
  rewrite insert_take_drop by (by eapply lookup_lt_Some). rewrite E1, E2, Ek'. unfold all_objects.
  rewrite fmap_app, concat_app. cbn. by rewrite <- !app_assoc.
Qed.

Lemma write_op_spec i off bs a xs os cur h m :
  obs 0 os cur h m → os !! i = Some (a, xs) → (off + length bs <= length xs)%nat →
  wpo (perform (Write i off bs) os.*1) (agrees (Write i off bs) os cur) (h, m).
Proof.
  intros H E Hl. unfold perform. apply wpo_bind, (nth_address_spec _ _ _ _ _ _ E), wpo_bind.
  pose proof (list_elem_of_lookup_2 _ _ _ E) as Hin.
  destruct (object_holds n F n_range _ _ _ _ _ _ _ H Hin) as [Hb _]. apply wpo_store.
  { apply (allocated_sub _ _ _ _ _ (holds_allocated _ _ _ Hb)); unfold size; lia. }
  rewrite (write_part _ _ _ xs) by done. apply wpo_ret.
  eapply agrees_step; [apply (obs_poke os cur h m i a xs); [done|done|by apply poke_size]| |].
  - rewrite list_fmap_insert. cbn. rewrite list_insert_id; [done|]. by rewrite list_lookup_fmap, E.
  - split_and!; [done|done|]. by exists a, xs.
Qed.

(** ** Every operation *)

(** The macro leaves the stack, or pushes the finished object. *)
Lemma then_grown o os cur (macro : O unit) s :
  wpo macro (λ _ '(h', m'), ∃ cur', obs 0 os cur' h' m' ∧ step F o os cur Nothing os cur') s →
  wpo (macro;; mret (os.*1, Nothing)) (agrees o os cur) s.
Proof.
  intros H. apply wpo_bind. eapply wpo_mono; [exact H|]. intros [] [h' m'] (cur' & ? & ?).
  by eapply wpo_ret, agrees_step.
Qed.

Lemma then_finished o os cur (macro : O Z) s :
  wpo macro (λ a '(h', m'), ∃ bs, obs 0 ((a, bs) :: os) [] h' m' ∧ step F o os cur Nothing ((a, bs) :: os) []) s →
  wpo (a ← macro; mret (a :: os.*1, Nothing)) (agrees o os cur) s.
Proof.
  intros H. apply wpo_bind. eapply wpo_mono; [exact H|]. intros a [h' m'] (bs & ? & ?).
  by eapply wpo_ret, agrees_step.
Qed.

(** An operation with a source: its bytes, at a readable address. *)
Ltac source_op Hl bs E :=
  let Es := fresh "Es" in
  destruct Hl as ([bs E] & Hl & Hw); unfold no_wrap in Hw; apply wpo_bind, (source_spec _ _ _ _ _ E);
  intros p Hp Es; rewrite <- Es in *.

Lemma grow_op_spec o os cur h m :
  obs 0 os cur h m → legal n F o os cur →
  match o with Grow _ | Grow0 _ | One_grow _ | Ptr_grow _ | Int_grow _ | Fast_grow _ | Blank _ | Shrink _ =>
    wpo (perform o os.*1) (agrees o os cur) (h, m) | _ => True end.
Proof.
  intros H Hl. destruct o as [src|src|c|v|v|cs|len|len| | | | | | | | |]; cbn in Hl; try done.
  - source_op Hl bs E. apply then_grown. eapply wpo_mono; [by apply (grow_spec n F n_range os cur)|].
    intros [] [h' m'] H'. exists (cur ++ bs). split; [done|cbn]. split_and!; [done..|]. by exists bs.
  - source_op Hl bs E. apply then_grown. eapply wpo_mono; [by apply (grow0_spec n F n_range os cur)|].
    intros [] [h' m'] H'. exists (cur ++ bs ++ [Some 0]). split; [done|cbn]. split_and!; [done..|]. by exists bs.
  - apply then_grown. eapply wpo_mono; [by apply (one_grow_spec n F n_range os cur)|].
    intros [] [h' m'] H'. by eexists.
  - destruct Hl as (? & ? & ?). apply then_grown. eapply wpo_mono; [by apply (ptr_grow_spec n F n_range os cur)|].
    intros [] [h' m'] H'. by eexists.
  - destruct Hl as (? & ? & ?). apply then_grown. eapply wpo_mono; [by apply (int_grow_spec n F n_range os cur)|].
    intros [] [h' m'] H'. by eexists.
  - pose proof (size_nonneg cs). apply wpo_bind. eapply wpo_mono; [by apply (make_room_spec n F n_range os cur)|].
    intros [] [h1 m1] Hroom. apply then_grown. eapply wpo_mono; [by eapply fast_grow_spec|].
    intros [] [h' m'] H'. by eexists.
  - apply then_grown. eapply wpo_mono; [by apply (blank_spec n F n_range os cur)|].
    intros [] [h' m'] (bs & Es & H'). exists (cur ++ bs). split; [done|cbn]. split_and!; [done..|]. by exists bs.
  - rewrite <- (take_drop (length cur - len) cur) in H.
    assert (Z.of_nat len = size (drop (length cur - len) cur)) as E by (unfold size; rewrite length_drop; lia).
    unfold perform. rewrite E. apply then_grown. eapply wpo_mono; [by apply (shrink_spec n F n_range os)|].
    intros [] [h' m'] H'. by eexists.
Qed.

Lemma perform_spec o os cur h m :
  obs 0 os cur h m → legal n F o os cur → wpo (perform o os.*1) (agrees o os cur) (h, m).
Proof.
  intros H Hl. pose proof (grow_op_spec o os cur h m H Hl) as Hgrow.
  destruct o as [| | | | | | | | |len|src|src|i|i off bs|i off len| |]; cbn in Hl; try exact Hgrow.
  - apply then_finished. eapply wpo_mono; [by apply (finish_spec n F n_range os cur)|].
    intros a [h' m'] [H' _]. exists cur. split; [done|cbn]. split_and!; [done..|]. by exists a.
  - apply then_finished. eapply wpo_mono; [by apply (alloc_spec n F n_range os cur)|].
    intros a [h' m'] (bs & Es & H' & _). exists (cur ++ bs). split; [done|cbn]. split_and!; [done..|]. by exists a, bs.
  - source_op Hl bs E. apply then_finished. eapply wpo_mono; [by apply (copy_spec n F n_range os cur)|].
    intros a [h' m'] [H' _]. exists (cur ++ bs). split; [done|cbn]. split_and!; [done..|]. by exists a, bs.
  - source_op Hl bs E. apply then_finished. eapply wpo_mono; [by apply (copy0_spec n F n_range os cur)|].
    intros a [h' m'] [H' _]. exists (cur ++ bs ++ [Some 0]). split; [done|cbn]. split_and!; [done..|]. by exists a, bs.
  - by apply free_op_spec.
  - destruct Hl as (a & xs & E & Hlen). by eapply write_op_spec.
  - destruct Hl as (a & xs & E & Hlen). by eapply read_op_spec.
  - apply wpo_bind, (object_size_spec n F n_range _ _ _ _ _ H). by eapply wpo_ret, agrees_step.
  - apply wpo_bind. eapply wpo_mono; [by apply (empty_p_spec n F n_range os cur)|]. intros b ? [-> Hb].
    eapply wpo_ret, agrees_step; [done|done|]. split_and!; [done|done|]. by exists b.
Qed.

Lemma exec_spec ops os cur h m :
  obs 0 os cur h m → legal_run n F ops os cur →
  wpo (exec ops os.*1) (λ r s, ∃ os' cur', steps F ops os cur r.2 os' cur' ∧ r.1 = os'.*1 ∧
    obs 0 os' cur' s.1 s.2) (h, m).
Proof.
  revert os cur h m. induction ops as [|o ops IH]; intros os cur h m H Hl; cbn [exec].
  - apply wpo_ret. exists os, cur. split_and!; [constructor|done|done].
  - destruct Hl as [Hlo Hl]. apply wpo_bind. eapply wpo_mono; [by apply perform_spec|].
    intros [addrs ans] [h1 m1] (os1 & cur1 & Hs & E & H1). cbn in *. subst addrs.
    apply wpo_bind. eapply wpo_mono; [apply IH; [exact H1|by eapply Hl]|].
    intros [addrs' anss] [h2 m2] (os2 & cur2 & Hss & E & H2). apply wpo_ret. exists os2, cur2.
    split_and!; [by econstructor|done|done].
Qed.

(** ** What the representation says of the memory *)

Lemma obs_aligned room os cur h m a bs : obs room os cur h m → (a, bs) ∈ os → aligned n a ∨ bs = [].
Proof.
  intros (k & ks & H & -> & _) Hin. unfold all_objects in Hin.
  apply list_elem_of_split in Hin as (os1 & os2 & E).
  destruct (objects_split _ _ _ _ E) as (ks1 & c & l & x & y & ks2 & Ek & _ & _).
  pose proof (rep_pieces _ _ _ _ _ _ _ H) as Hp. rewrite Ek in Hp. apply Forall_app in Hp as [_ [HP _]%Forall_cons].
  pose proof (piece_objects _ _ _ HP) as [_ [Ho _]%Forall_cons]%Forall_app. destruct Ho as [?|[? _] ]; [by left|by right].
Qed.

Lemma obs_frame room os cur h m : obs room os cur h m → F ⊆ m.
Proof. intros (k & ks & H & _). apply (rep_framed _ _ _ _ _ _ _ H). Qed.

Lemma obs_current room os cur h m : obs room os cur h m → holds_bytes m (object_base h) cur.
Proof. intros (k & ks & H & _). apply H. Qed.
End Refinement.

(** C20: obstacks implement stacks of growing objects. A program that makes an obstack with any
    alignment and then grows, finishes, copies, allocates, frees, reads and writes objects, with
    arguments that are legal where they come to be used ([legal_run]), runs without undefined
    behaviour, for all functions of [obstack.c] that do what is documented with chunks where the
    macros can handle them ([well_placed]: below [ceiling], which leaves room for what is added at
    once, and not across the middle of the address space). Its answers are those of the stack,
    unless the handler for exhausted memory is called. In the end every object that was not freed
    has its bytes at the address where it was finished, which is aligned, the growing object has
    its bytes at [obstack_base], and other memory is unchanged. *)
Theorem obstack_refines (paths : Slow_paths) (C : Ceiling) (spec : Obstack_c) ops F h m size alignment chunkfun freefun :
  F ⊆ m → alignment = 0 ∨ (∃ n, 0 <= n < 31 ∧ alignment = 2 ^ n) →
  (∀ n, default_alignment alignment n → legal_run n F ops [] []) →
  wpo (obstack_specify_allocation size alignment chunkfun freefun;; exec ops []) (λ r '(h', m'),
    ∃ n os cur, default_alignment alignment n ∧ steps F ops [] [] r.2 os cur ∧ r.1 = os.*1 ∧ F ⊆ m' ∧
      holds_bytes m' (object_base h') cur ∧
      ∀ a bs, (a, bs) ∈ os → holds_bytes m' a bs ∧ (aligned n a ∨ bs = [])) (h, m).
Proof.
  intros HF Hal Hl. apply wpo_bind. eapply wpo_mono; [by apply (begin_spec F m h)|].
  intros _ [h1 m1] (n & k & Hd & H & Eo). pose proof Hd as [Hn _].
  assert (obs n F 0 [] [] h1 m1) as H1.
  { exists k, []. pose proof (rep_room _ _ _ _ _ _ _ H). split_and!; [done|unfold all_objects; cbn; by rewrite Eo|lia]. }
  eapply wpo_mono; [by apply (exec_spec n F Hn ops [] [] h1 m1 H1), Hl|].
  intros [addrs anss] [h2 m2] (os & cur & Hs & E & H2). exists n, os, cur. split_and!; [done..| | |].
  - by apply (obs_frame n F 0 os cur h2).
  - by apply (obs_current n F 0 os cur h2).
  - intros a bs Hin. split; [by apply (object_holds n F Hn _ _ _ _ _ _ _ H2 Hin)|by apply (obs_aligned n F _ _ _ _ _ _ _ H2)].
Qed.

(** A string is copied, an object with two words is built, the string is read and everything
    freed, in the upper half of an address space of three gigabytes. *)
Lemma obstack_refines_witness :
  let C : Ceiling := 3221225472 in
  let paths : Slow_paths := simple_paths in
  let F : memory := <[3069181952 := Some 65]> (<[3069181953 := Some 66]> ∅) in
  let h := Obstack 0 0 0 0 0 0 0 0 0 false false false in
  let ops := [Copy0 (Client 3069181952 2); Int_grow 7; Ptr_grow 100; Object_size; Finish; Read 1 0 3; Free 1] in
  wpo (obstack_specify_allocation 0 4 0 0;; exec ops []) (λ r '(h', m'),
    ∃ n os cur, default_alignment 4 n ∧ steps F ops [] [] r.2 os cur ∧ r.1 = os.*1 ∧ F ⊆ m' ∧
      holds_bytes m' (object_base h') cur ∧
      ∀ a bs, (a, bs) ∈ os → holds_bytes m' a bs ∧ (aligned n a ∨ bs = [])) (h, F).
Proof.
  intros C paths F h ops. apply (obstack_refines simple_paths C simple_obstack_c ops F h F 0 4 0 0).
  - done.
  - right. by exists 2.
  - intros n [Hn [|E] ]; [done|].
    assert (n = 2) as -> by (apply (Z.pow_inj_r 2); lia).
    split; [split; [eexists; reflexivity|done]|]. intros ? ? ? (_ & -> & a & bs & [= <-] & ->).
    split; [done|]. intros ? ? ? (_ & -> & ->).
    split; [done|]. intros ? ? ? (_ & -> & ->).
    split; [done|]. intros ? ? ? (-> & -> & _).
    split; [done|]. intros ? ? ? (_ & -> & b & ->).
    split; [eexists _, _; split; [reflexivity|apply Nat.leb_le; reflexivity]|]. intros ? ? ? (-> & -> & _).
    split; [apply Nat.ltb_lt; reflexivity|]. intros ? ? ? _. exact I.
Defined.

(** The obstack is made there, not refused. *)
Lemma obstack_refines_runs :
  let C : Ceiling := 3221225472 in
  let paths : Slow_paths := simple_paths in
  let F : memory := <[3069181952 := Some 65]> (<[3069181953 := Some 66]> ∅) in
  let h := Obstack 0 0 0 0 0 0 0 0 0 false false false in
  let ops := [Copy0 (Client 3069181952 2); Int_grow 7; Ptr_grow 100; Object_size; Finish; Read 1 0 3; Free 1] in
  match (obstack_specify_allocation 0 4 0 0;; exec ops []) (h, F) with
  | Returns r _ => r.2 = [Nothing; Nothing; Nothing; Number 8; Nothing; Bytes [Some 65; Some 66; Some 0]; Nothing]
  | _ => False
  end.
Proof. vm_compute. reflexivity. Qed.

(** * High addresses *)

Lemma read_unallocated m a len i : m !! i = None → a <= i < a + Z.of_nat len → read_bytes m a len = None.
Proof.
  intros E. revert a. induction len as [|len IH]; intros a Hi; [lia|]. cbn [read_bytes].
  destruct (decide (i = a)) as [->|]; [by rewrite E|]. rewrite (IH (a + 1)) by lia. by destruct (m !! a).
Qed.

Lemma read_bytes_length m a len bs : read_bytes m a len = Some bs → length bs = len.
Proof.
  revert a bs. induction len as [|len IH]; intros a bs; cbn; [by intros [= <-]|].
  intros (b & _ & (cs & Hcs & [= <-])%bind_Some)%bind_Some. cbn. by rewrite (IH _ _ Hcs).
Qed.

(** [obstack_grow] adds the length to the pointer before it compares: near the end of the
    address space the sum wraps around, no chunk is made, and bytes behind the chunk are written;
    [obstack_make_room], which compares the difference, makes a new chunk. *)
Theorem obstack_grow_wraps {paths : Slow_paths} h m p len :
  len < 2147483648 → 0 <= next_free h <= chunk_limit h → chunk_limit h < 4294967296 →
  4294967296 <= next_free h + len → m !! chunk_limit h = None →
  obstack_grow p len (h, m) = Undefined ∧
  obstack_make_room len (h, m) = _obstack_newchunk len (h, m).
Proof.
  intros Hlen Hn Hc Hw Hm. assert (chunk_limit h < next_free h + len) by lia. split.
  - unfold obstack_grow, mbind, O_bind, field. cbn [fst].
    assert (ptr_add (next_free h) len = next_free h + len - 4294967296) as ->.
    { unfold ptr_add, u32. symmetry. apply (Z.mod_unique _ _ 1); lia. }
    destruct (Z.ltb_spec (chunk_limit h) (next_free h + len - 4294967296)); [lia|]. cbn. unfold memcpy.
    destruct (decide _); [|done]. destruct (read_bytes _ p _) as [bs|] eqn:E; [|done]. unfold store.
    rewrite (read_unallocated _ _ _ (chunk_limit h)); [done|done|]. apply read_bytes_length in E. lia.
  - unfold obstack_make_room, mbind, O_bind, field. cbn [fst]. rewrite ptr_sub_id by lia.
    destruct (Z.ltb_spec (chunk_limit h - next_free h) len); [done|lia].
Qed.

(** At the end of the lower half of the address space the rounding of [obstack_finish] overflows
    an [int]. *)
Theorem obstack_finish_overflows h m :
  0 <= next_free h < 2147483648 → alignment_mask h < 2147483648 → 2147483648 <= next_free h + alignment_mask h →
  obstack_finish (h, m) = Undefined.
Proof.
  intros Hn Hm Hw. unfold obstack_finish, mbind, O_bind, field. cbn [fst snd].
  assert (__PTR_ALIGN (object_base h) (next_free h) (alignment_mask h) = undefined) as E.
  { unfold __PTR_ALIGN, __BPTR_ALIGN. change (4 <? 4) with false. cbv iota zeta.
    rewrite ptr_sub_id, Z.sub_0_r by lia. rewrite decide_False; [done|]. unfold is_int. lia. }
  by destruct (next_free h =? object_base h); cbn; rewrite E.
Qed.
