(* ===== verification/UsbCh9.v ===== *)
(** * USB endpoint descriptors, [linux/usb/ch9.h]

    The functions that take apart endpoint descriptors and the companion
    descriptors of SuperSpeed endpoints. [int]s that are used as truth values are
    [bool]s; [__le16] fields are in the byte order of the processor, so
    [__le16_to_cpu] is the identity. The theorems: the predicates classify every
    endpoint, and the fields that a descriptor is composed of are found again. *)
From stdpp Require Import base numbers list.
From Stdlib Require Import ZArith Lia.
From S2P Require Import Prelude.

(** * Constants *)

Definition USB_DIR_OUT : Z := 0.
Definition USB_DIR_IN : Z := 0x80.
Definition USB_ENDPOINT_NUMBER_MASK : Z := 0x0f.
Definition USB_ENDPOINT_DIR_MASK : Z := 0x80.
Definition USB_ENDPOINT_XFERTYPE_MASK : Z := 0x03.
Definition USB_ENDPOINT_XFER_CONTROL : Z := 0.
Definition USB_ENDPOINT_XFER_ISOC : Z := 1.
Definition USB_ENDPOINT_XFER_BULK : Z := 2.
Definition USB_ENDPOINT_XFER_INT : Z := 3.
Definition USB_ENDPOINT_MAXP_MASK : Z := 0x07ff.
Definition USB_EP_MAXP_MULT_SHIFT : Z := 11.
Definition USB_EP_MAXP_MULT_MASK : Z := 3 << USB_EP_MAXP_MULT_SHIFT.
Definition USB_EP_MAXP_MULT (m : Z) : Z := (m .& USB_EP_MAXP_MULT_MASK) >> USB_EP_MAXP_MULT_SHIFT.
Definition USB_ENDPOINT_INTRTYPE : Z := 0x30.

(** * Endpoint descriptors *)

Record usb_endpoint_descriptor := {
  bLength : Z;
  bDescriptorType : Z;
  bEndpointAddress : Z;
  bmAttributes : Z;
  wMaxPacketSize : Z;
  bInterval : Z;
  bRefresh : Z;
  bSynchAddress : Z;
}.

Definition usb_endpoint_num (epd : usb_endpoint_descriptor) : Z :=
  bEndpointAddress epd .& USB_ENDPOINT_NUMBER_MASK.
Definition usb_endpoint_type (epd : usb_endpoint_descriptor) : Z :=
  bmAttributes epd .& USB_ENDPOINT_XFERTYPE_MASK.
Definition usb_endpoint_dir_in (epd : usb_endpoint_descriptor) : bool :=
  bEndpointAddress epd .& USB_ENDPOINT_DIR_MASK =? USB_DIR_IN.
Definition usb_endpoint_dir_out (epd : usb_endpoint_descriptor) : bool :=
  bEndpointAddress epd .& USB_ENDPOINT_DIR_MASK =? USB_DIR_OUT.
Definition usb_endpoint_xfer_bulk (epd : usb_endpoint_descriptor) : bool :=
  bmAttributes epd .& USB_ENDPOINT_XFERTYPE_MASK =? USB_ENDPOINT_XFER_BULK.
Definition usb_endpoint_xfer_control (epd : usb_endpoint_descriptor) : bool :=
  bmAttributes epd .& USB_ENDPOINT_XFERTYPE_MASK =? USB_ENDPOINT_XFER_CONTROL.
Definition usb_endpoint_xfer_int (epd : usb_endpoint_descriptor) : bool :=
  bmAttributes epd .& USB_ENDPOINT_XFERTYPE_MASK =? USB_ENDPOINT_XFER_INT.
Definition usb_endpoint_xfer_isoc (epd : usb_endpoint_descriptor) : bool :=
  bmAttributes epd .& USB_ENDPOINT_XFERTYPE_MASK =? USB_ENDPOINT_XFER_ISOC.
Definition usb_endpoint_is_bulk_in (epd : usb_endpoint_descriptor) : bool :=
  usb_endpoint_xfer_bulk epd && usb_endpoint_dir_in epd.
Definition usb_endpoint_is_bulk_out (epd : usb_endpoint_descriptor) : bool :=
  usb_endpoint_xfer_bulk epd && usb_endpoint_dir_out epd.
Definition usb_endpoint_is_int_in (epd : usb_endpoint_descriptor) : bool :=
  usb_endpoint_xfer_int epd && usb_endpoint_dir_in epd.
Definition usb_endpoint_is_int_out (epd : usb_endpoint_descriptor) : bool :=
  usb_endpoint_xfer_int epd && usb_endpoint_dir_out epd.
Definition usb_endpoint_is_isoc_in (epd : usb_endpoint_descriptor) : bool :=
  usb_endpoint_xfer_isoc epd && usb_endpoint_dir_in epd.
Definition usb_endpoint_is_isoc_out (epd : usb_endpoint_descriptor) : bool :=
  usb_endpoint_xfer_isoc epd && usb_endpoint_dir_out epd.
Definition usb_endpoint_maxp (epd : usb_endpoint_descriptor) : Z :=
  wMaxPacketSize epd .& USB_ENDPOINT_MAXP_MASK.
Definition usb_endpoint_maxp_mult (epd : usb_endpoint_descriptor) : Z :=
  let maxp := wMaxPacketSize epd in
  USB_EP_MAXP_MULT maxp + 1.
Definition usb_endpoint_interrupt_type (epd : usb_endpoint_descriptor) : Z :=
  bmAttributes epd .& USB_ENDPOINT_INTRTYPE.

(** * Companion descriptors *)

Record usb_ss_ep_comp_descriptor := {
  comp_bLength : Z;
  comp_bDescriptorType : Z;
  comp_bMaxBurst : Z;
  comp_bmAttributes : Z;
  comp_wBytesPerInterval : Z;
}.

(** The argument may be a null pointer. [1 << max_streams] is undefined where it is not an [int]. *)
Definition usb_ss_max_streams (comp : option usb_ss_ep_comp_descriptor) : option Z :=
  match comp with
  | None => Some 0
  | Some comp =>
      let max_streams := comp_bmAttributes comp .& 0x1f in
      if max_streams =? 0 then Some 0
      else
        let max_streams := 1 << max_streams in
        if max_streams <? 2147483648 then Some max_streams else None
  end.
Definition USB_SS_MULT (p : Z) : Z := 1 + (p .& 0x3).
Definition USB_SS_SSP_ISOC_COMP (p : Z) : Z := p .& (1 << 7).

(** * Classification *)

Inductive direction := Out | In.
Inductive transfer := Control | Isoc | Bulk | Interrupt.
#[export] Instance direction_eq : EqDecision direction.
Proof. solve_decision. Defined.
#[export] Instance transfer_eq : EqDecision transfer.
Proof. solve_decision. Defined.

Definition direction_bits (d : direction) : Z := match d with Out => 0 | In => 1 end.
Definition transfer_bits (t : transfer) : Z := match t with Control => 0 | Isoc => 1 | Bulk => 2 | Interrupt => 3 end.

(** A descriptor put together from its fields; [more] are the upper bits of the attributes. *)
Definition endpoint (num : Z) (d : direction) (t : transfer) (more maxp mult interval : Z) : usb_endpoint_descriptor :=
  {| bLength := 7; bDescriptorType := 5;
     bEndpointAddress := (direction_bits d << 7) .| num;
     bmAttributes := (more << 2) .| transfer_bits t;
     wMaxPacketSize := ((mult - 1) << 11) .| maxp;
     bInterval := interval; bRefresh := 0; bSynchAddress := 0 |}.

(** A field of [w] bits from bit [k] on. *)
Lemma and_field x k w : 0 <= k → 0 <= w → x .& ((2 ^ w - 1) << k) = (x / 2 ^ k mod 2 ^ w) * 2 ^ k.
Proof.
  intros. rewrite <- (and_mod _ w), <- shr_div, <- shl_mul by done.
  apply Z.bits_inj'. intros i Hi. rewrite Z.land_spec, !Z.shiftl_spec, Z.land_spec by done.
  destruct (decide (i < k)).
  - rewrite !(Z.testbit_neg_r _ (i - k)) by lia. by rewrite !andb_false_r.
  - rewrite Z.shiftr_spec by lia. by replace (i - k + k) with i by lia.
Qed.

Lemma or_pack hi lo k : 0 <= k → 0 <= lo < 2 ^ k → (hi << k) .| lo = hi * 2 ^ k + lo.
Proof. intros Hk Hlo. rewrite shl_mul by done. apply (or_add k); [done| |done]. by apply Z_mod_mult. Qed.

Lemma eqb_decide (P : Prop) `{!Decision P} x y : (x = y ↔ P) → (x =? y) = bool_decide P.
Proof. intros H. destruct (Z.eqb_spec x y); symmetry; [apply bool_decide_eq_true|apply bool_decide_eq_false]; tauto. Qed.

(** Every endpoint has one direction and one kind of transfer, and the predicates tell them. *)
Theorem endpoint_classified epd :
  is_u8 (bEndpointAddress epd) → is_u8 (bmAttributes epd) →
  ∃ d t, usb_endpoint_type epd = transfer_bits t ∧
    usb_endpoint_dir_in epd = bool_decide (d = In) ∧ usb_endpoint_dir_out epd = bool_decide (d = Out) ∧
    usb_endpoint_xfer_control epd = bool_decide (t = Control) ∧
    usb_endpoint_xfer_isoc epd = bool_decide (t = Isoc) ∧
    usb_endpoint_xfer_bulk epd = bool_decide (t = Bulk) ∧
    usb_endpoint_xfer_int epd = bool_decide (t = Interrupt) ∧
    usb_endpoint_is_bulk_in epd = bool_decide (t = Bulk ∧ d = In) ∧
    usb_endpoint_is_bulk_out epd = bool_decide (t = Bulk ∧ d = Out) ∧
    usb_endpoint_is_int_in epd = bool_decide (t = Interrupt ∧ d = In) ∧
    usb_endpoint_is_int_out epd = bool_decide (t = Interrupt ∧ d = Out) ∧
    usb_endpoint_is_isoc_in epd = bool_decide (t = Isoc ∧ d = In) ∧
    usb_endpoint_is_isoc_out epd = bool_decide (t = Isoc ∧ d = Out).
Proof.
  intros Ha Hm.
  assert (∃ d, bEndpointAddress epd .& USB_ENDPOINT_DIR_MASK = direction_bits d * 128) as [d Ed].
  { assert (0 <= bEndpointAddress epd / 128 < 2) by (unfold is_u8 in Ha; divlia).
    exists (if bEndpointAddress epd / 128 =? 1 then In else Out). unfold USB_ENDPOINT_DIR_MASK. shifts_to_arith.
    destruct (Z.eqb_spec (bEndpointAddress epd / 128) 1); cbn; divlia. }
  assert (∃ t, bmAttributes epd .& USB_ENDPOINT_XFERTYPE_MASK = transfer_bits t) as [t Et].
  { unfold USB_ENDPOINT_XFERTYPE_MASK. shifts_to_arith.
    assert (0 <= bmAttributes epd mod 4 < 4) by divlia.
    destruct (decide (bmAttributes epd mod 4 = 0)); [by exists Control|].
    destruct (decide (bmAttributes epd mod 4 = 1)); [by exists Isoc|].
    destruct (decide (bmAttributes epd mod 4 = 2)); [by exists Bulk|]. exists Interrupt. cbn. lia. }
  exists d, t. unfold usb_endpoint_is_bulk_in, usb_endpoint_is_bulk_out, usb_endpoint_is_int_in,
    usb_endpoint_is_int_out, usb_endpoint_is_isoc_in, usb_endpoint_is_isoc_out, usb_endpoint_type,
    usb_endpoint_dir_in, usb_endpoint_dir_out, usb_endpoint_xfer_control, usb_endpoint_xfer_isoc,
    usb_endpoint_xfer_bulk, usb_endpoint_xfer_int. rewrite Ed, Et. by destruct d, t.
Qed.

(** The accessors find the fields again that a descriptor is put together from. *)
Theorem endpoint_fields num d t more maxp mult interval :
  0 <= num < 16 → 0 <= more < 64 → 0 <= maxp < 2048 → 1 <= mult <= 4 →
  let epd := endpoint num d t more maxp mult interval in
  usb_endpoint_num epd = num ∧ usb_endpoint_type epd = transfer_bits t ∧
  usb_endpoint_maxp epd = maxp ∧ usb_endpoint_maxp_mult epd = mult ∧
  usb_endpoint_interrupt_type epd = more / 4 mod 4 * 16 ∧
  usb_endpoint_dir_in epd = bool_decide (d = In) ∧ usb_endpoint_dir_out epd = bool_decide (d = Out).
Proof.
  intros Hnum Hmore Hmaxp Hmult epd.
  assert (bEndpointAddress epd = direction_bits d * 128 + num) as Ea by (apply (or_pack _ _ 7); lia).
  assert (0 <= transfer_bits t < 4) as Ht by (destruct t; cbn; lia).
  assert (bmAttributes epd = more * 4 + transfer_bits t) as Em by (apply (or_pack _ _ 2); lia).
  assert (wMaxPacketSize epd = (mult - 1) * 2048 + maxp) as Ew by (apply (or_pack _ _ 11); lia).
  unfold usb_endpoint_num, usb_endpoint_type, usb_endpoint_maxp, usb_endpoint_maxp_mult, USB_EP_MAXP_MULT,
    usb_endpoint_interrupt_type, usb_endpoint_dir_in, usb_endpoint_dir_out.
  rewrite Ea, Em, Ew. change USB_EP_MAXP_MULT_MASK with ((2 ^ 2 - 1) << 11).
  change USB_ENDPOINT_INTRTYPE with ((2 ^ 2 - 1) << 4). rewrite !and_field by lia.
  unfold USB_ENDPOINT_NUMBER_MASK, USB_ENDPOINT_XFERTYPE_MASK, USB_ENDPOINT_MAXP_MASK, USB_EP_MAXP_MULT_SHIFT,
    USB_ENDPOINT_DIR_MASK. shifts_to_arith.
  change (2 ^ 2) with 4. change (2 ^ 4) with 16. change (2 ^ 11) with 2048.
  destruct d; cbn [direction_bits]; split_and!;
    first [divlia | apply eqb_decide; unfold USB_DIR_IN, USB_DIR_OUT; split; intros ?; (done || divlia)].
Qed.

(** [usb_ss_max_streams] gives a power of two, except for 31, which the five bits allow: the shift
    is then undefined. *)
Theorem max_streams_shift comp :
  is_u8 (comp_bmAttributes comp) →
  usb_ss_max_streams (Some comp) =
    (let k := comp_bmAttributes comp mod 32 in
     if k =? 0 then Some 0 else if k =? 31 then None else Some (2 ^ k)).
Proof.
  intros H. unfold usb_ss_max_streams. shifts_to_arith. cbv zeta.
  assert (0 <= comp_bmAttributes comp mod 32 < 32) as Hk by divlia.
  set (k := comp_bmAttributes comp mod 32) in *. destruct (Z.eqb_spec k 0); [done|].
  rewrite shl_mul, Z.mul_1_l by lia. destruct (Z.eqb_spec k 31) as [->|]; [done|].
  pose proof (Z.pow_le_mono_r 2 k 30). change (2 ^ 30) with 1073741824 in *.
  destruct (Z.ltb_spec (2 ^ k) 2147483648); [done|lia].
Qed.
