(* ===== verification/HashTable.v ===== *)
(** * Hash tables of the C++ library, [bits/hashtable.h] and [bits/hashtable_policy.h]

    [std::_Hashtable] with unique keys, which [std::unordered_map] and
    [std::unordered_set] are made of: a singly linked list of nodes in which the
    nodes of a bucket are next to each other, and an array that has for each bucket
    a pointer to the node before its first one.

    The state holds the members of one table and the nodes that are allocated. A
    [__node_base*] points to [_M_before_begin] or to a node. Undefined are the
    use of a null pointer or of a node that has been given back, an index outside the
    array, a remainder by zero, and the use of a hash code that was not stored.
    Allocations may throw. The numbers of nodes and buckets are those of objects in
    memory, so that arithmetic on them does not wrap around.

    What the table is instantiated with is the class [Hashing]: the keys of values, the
    hash function, the equality of keys, and whether nodes cache their hash
    codes. The rehash policy, a class that is a parameter too, is [Rehash_policy]; the policies
    of the library are its instances in [HashPolicy]. The memory is [Heap]. *)
From stdpp Require Import base numbers list gmap.
From Stdlib Require Import ZArith Lia.
From S2P Require Import Prelude.

Class Hashing (K V : Type) := {
  _M_extract : V → K;
  _M_h1 : K → Z;
  _M_eq : K → K → bool;
  hash_cached : bool;
}.

Class Rehash_policy := {
  policy : Type;
  new_policy : policy;
  rehash_state : Type;
  _M_state : policy → rehash_state;
  _M_reset : rehash_state → policy → policy;
  _M_need_rehash : Z → Z → Z → policy → (bool * Z) * policy;
  _M_next_bkt : Z → policy → Z * policy;
  _M_bkt_for_elements : policy → Z → Z;
}.

(** Whether the n-th allocation throws. *)
Class Heap := { no_memory : nat → bool }.

(** * State *)

Abbreviation loc := nat.

Inductive node_base := Before_begin | At (l : loc).

#[export] Instance node_base_eq_dec : EqDecision node_base.
Proof. solve_decision. Defined.

Record node (V : Type) := Node {
  _M_nxt : option loc;
  _M_v : V;
  _M_hash_code : option Z;
}.
Arguments Node {V} _ _ _.
Arguments _M_nxt {V} _.
Arguments _M_v {V} _.
Arguments _M_hash_code {V} _.

Section Hashtable.
Context {K V : Type} `{!Hashing K V} `{!Rehash_policy} `{!Heap}.

Record table := Table {
  nodes : gmap loc (node V);
  _M_buckets : list (option node_base);
  _M_bucket_count : Z;
  _M_before_begin : option loc;
  _M_element_count : Z;
  _M_rehash_policy : policy;
  allocations : nat;
}.

Definition set_nodes (m : gmap loc (node V)) (t : table) : table :=
  Table m (_M_buckets t) (_M_bucket_count t) (_M_before_begin t) (_M_element_count t) (_M_rehash_policy t)
    (allocations t).
Definition set_buckets (bs : list (option node_base)) (t : table) : table :=
  Table (nodes t) bs (_M_bucket_count t) (_M_before_begin t) (_M_element_count t) (_M_rehash_policy t)
    (allocations t).
Definition set_bucket_count (n : Z) (t : table) : table :=
  Table (nodes t) (_M_buckets t) n (_M_before_begin t) (_M_element_count t) (_M_rehash_policy t)
    (allocations t).
Definition set_before_begin (p : option loc) (t : table) : table :=
  Table (nodes t) (_M_buckets t) (_M_bucket_count t) p (_M_element_count t) (_M_rehash_policy t)
    (allocations t).
Definition set_element_count (n : Z) (t : table) : table :=
  Table (nodes t) (_M_buckets t) (_M_bucket_count t) (_M_before_begin t) n (_M_rehash_policy t)
    (allocations t).
Definition set_policy (p : policy) (t : table) : table :=
  Table (nodes t) (_M_buckets t) (_M_bucket_count t) (_M_before_begin t) (_M_element_count t) p
    (allocations t).
Definition set_allocations (n : nat) (t : table) : table :=
  Table (nodes t) (_M_buckets t) (_M_bucket_count t) (_M_before_begin t) (_M_element_count t)
    (_M_rehash_policy t) n.

(** * Commands

    [None] is undefined behaviour, and [Some (None, t)] means that [std::bad_alloc] is thrown. *)

Definition T (A : Type) : Type := table → option (option A * table).

#[export] Instance T_ret : MRet T := λ A a t, Some (Some a, t).
#[export] Instance T_bind : MBind T := λ A B k c t,
  match c t with
  | Some (Some a, t') => k a t'
  | Some (None, t') => Some (None, t')
  | None => None
  end.

Definition undefined {A} : T A := λ _, None.
Definition bad_alloc {A} : T A := λ t, Some (None, t).
Definition catch {A} (c : T A) (handler : T A) : T A := λ t,
  match c t with
  | Some (None, t') => handler t'
  | r => r
  end.
Definition get {A} (f : table → A) : T A := λ t, Some (Some (f t), t).
Definition set_ (f : table → table) : T unit := λ t, Some (Some tt, f t).
Definition defined {A} (o : option A) : T A := λ t, (λ a, (Some a, t)) <$> o.

Fixpoint iterate {X Y} (fuel : nat) (body : X → T (X + Y)) (x : X) : T Y :=
  match fuel with
  | 0%nat => undefined
  | S fuel =>
      r ← body x;
      match r with
      | inl x => iterate fuel body x
      | inr y => mret y
      end
  end.

(** A loop over nodes: it goes on for at most as many turns as there are nodes, and one more. *)
Definition while {X Y} (body : X → T (X + Y)) (x : X) : T Y :=
  m ← get nodes;
  iterate (S (size m)) body x.

(** * Pointers *)

Definition node_at (l : loc) : T (node V) := m ← get nodes; defined (m !! l).

(** [p->_M_nxt] for a [__node_base*] that is not null. *)
Definition nxt_of (p : node_base) : T (option loc) :=
  match p with
  | Before_begin => get _M_before_begin
  | At l => n ← node_at l; mret (_M_nxt n)
  end.

Definition set_nxt (p : node_base) (q : option loc) : T unit :=
  match p with
  | Before_begin => set_ (set_before_begin q)
  | At l =>
      n ← node_at l;
      set_ (λ t, set_nodes (<[l := Node q (_M_v n) (_M_hash_code n)]> (nodes t)) t)
  end.

Definition nth_bucket (bs : list (option node_base)) (i : Z) : option (option node_base) :=
  if i <? 0 then None else bs !! Z.to_nat i.

Definition bucket (i : Z) : T (option node_base) := bs ← get _M_buckets; defined (nth_bucket bs i).

Definition set_nth_bucket (bs : list (option node_base)) (i : Z) (p : option node_base) :
    T (list (option node_base)) :=
  _ ← defined (nth_bucket bs i);
  mret (<[Z.to_nat i := p]> bs).

Definition set_bucket (i : Z) (p : option node_base) : T unit :=
  bs ← get _M_buckets;
  bs ← set_nth_bucket bs i p;
  set_ (set_buckets bs).

(** * Hash codes and allocation, [bits/hashtable_policy.h] *)

(** [_Mod_range_hashing]. *)
Definition _M_h2 (num den : Z) : T Z := if den =? 0 then undefined else mret (num mod den).

Definition _M_hash_code_of (k : K) : Z := _M_h1 k.

(** [_M_bucket_index(__k, __c, __n)]. *)
Definition bucket_index (c n : Z) : T Z := _M_h2 c n.

(** [_M_bucket_index(__p, __n)]: from the cached code, or from the key. *)
Definition node_bucket_index (l : loc) (n : Z) : T Z :=
  p ← node_at l;
  if hash_cached then
    c ← defined (_M_hash_code p);
    _M_h2 c n
  else _M_h2 (_M_h1 (_M_extract (_M_v p))) n.

Definition _M_store_code (l : loc) (c : Z) : T unit :=
  if hash_cached then
    p ← node_at l;
    set_ (λ t, set_nodes (<[l := Node (_M_nxt p) (_M_v p) (Some c)]> (nodes t)) t)
  else mret tt.

(** [_M_equals(__k, __c, __n)]. *)
Definition _M_equals (k : K) (c : Z) (l : loc) : T bool :=
  p ← node_at l;
  if hash_cached then
    c' ← defined (_M_hash_code p);
    mret ((c =? c') && _M_eq k (_M_extract (_M_v p)))
  else mret (_M_eq k (_M_extract (_M_v p))).

Definition allocate : T unit :=
  n ← get allocations;
  set_ (set_allocations (S n));;
  if no_memory n then bad_alloc else mret tt.

Definition _M_allocate_node (v : V) : T loc :=
  allocate;;
  m ← get nodes;
  let l := fresh (dom m) in
  set_ (set_nodes (<[l := Node None v None]> m));;
  mret l.

Definition _M_deallocate_node (l : loc) : T unit :=
  _ ← node_at l;
  set_ (λ t, set_nodes (delete l (nodes t)) t).

Definition _M_deallocate_nodes (n : option loc) : T unit :=
  while (λ n,
    match n with
    | None => mret (inr tt)
    | Some tmp =>
        n ← nxt_of (At tmp);
        _M_deallocate_node tmp;;
        mret (inl n)
    end) n.

(** A single bucket is a member of the table and needs no memory. *)
Definition _M_allocate_buckets (n : Z) : T (list (option node_base)) :=
  if n =? 1 then mret [None]
  else
    allocate;;
    mret (replicate (Z.to_nat n) None).

(** * Searching, [bits/hashtable.h] *)

Definition _M_begin : T (option loc) := get _M_before_begin.

Definition _M_bucket_begin (bkt : Z) : T (option loc) :=
  n ← bucket bkt;
  match n with
  | Some n => nxt_of n
  | None => mret None
  end.

(** The node after a bucket's node [p], if it is in the same bucket. *)
Definition next_in_bucket (p : loc) (n : Z) : T (option loc) :=
  nxt ← nxt_of (At p);
  match nxt with
  | None => mret None
  | Some q =>
      count ← get _M_bucket_count;
      b ← node_bucket_index q count;
      mret (if b =? n then Some q else None)
  end.

Definition _M_find_before_node (n : Z) (k : K) (code : Z) : T (option node_base) :=
  prev_p ← bucket n;
  match prev_p with
  | None => mret None
  | Some prev_p =>
      p ← nxt_of prev_p;
      p ← defined p;
      while (λ '(prev_p, p),
        b ← _M_equals k code p;
        if b : bool then mret (inr (Some prev_p))
        else
          nxt ← next_in_bucket p n;
          match nxt with
          | None => mret (inr None)
          | Some q => mret (inl (At p, q))
          end) (prev_p, p)
  end.

Definition _M_find_node (bkt : Z) (key : K) (c : Z) : T (option loc) :=
  before_n ← _M_find_before_node bkt key c;
  match before_n with
  | Some before_n => nxt_of before_n
  | None => mret None
  end.

Definition find (k : K) : T (option loc) :=
  let code := _M_hash_code_of k in
  count ← get _M_bucket_count;
  n ← bucket_index code count;
  _M_find_node n k code.

Definition count (k : K) : T Z :=
  let code := _M_hash_code_of k in
  cnt ← get _M_bucket_count;
  n ← bucket_index code cnt;
  p ← _M_bucket_begin n;
  match p with
  | None => mret 0
  | Some p =>
      while (λ '(result, p),
        b ← _M_equals k code p;
        if negb b && negb (result =? 0) then mret (inr result)
        else
          let result := if b : bool then result + 1 else result in
          nxt ← next_in_bucket p n;
          match nxt with
          | None => mret (inr result)
          | Some q => mret (inl (result, q))
          end) (0, p)
  end.

Definition equal_range (k : K) : T (option loc * option loc) :=
  let code := _M_hash_code_of k in
  count ← get _M_bucket_count;
  n ← bucket_index code count;
  p ← _M_find_node n k code;
  match p with
  | None => mret (None, None)
  | Some p =>
      p1 ← nxt_of (At p);
      p1 ← while (λ p1,
        match p1 with
        | None => mret (inr None)
        | Some q =>
            b ← node_bucket_index q count;
            if b =? n then
              e ← _M_equals k code q;
              if e : bool then
                q' ← nxt_of (At q);
                mret (inl q')
              else mret (inr (Some q))
            else mret (inr (Some q))
        end) p1;
      mret (Some p, p1)
  end.

(** * Linking and unlinking *)

Definition _M_insert_bucket_begin (bkt : Z) (node : loc) : T unit :=
  b ← bucket bkt;
  match b with
  | Some before =>
      q ← nxt_of before;
      set_nxt (At node) q;;
      set_nxt before (Some node)
  | None =>
      q ← get _M_before_begin;
      set_nxt (At node) q;;
      set_ (set_before_begin (Some node));;
      match q with
      | Some q =>
          count ← get _M_bucket_count;
          i ← node_bucket_index q count;
          set_bucket i (Some (At node))
      | None => mret tt
      end;;
      set_bucket bkt (Some Before_begin)
  end.

Definition _M_remove_bucket_begin (bkt : Z) (next : option loc) (next_bkt : Z) : T unit :=
  if match next with None => true | Some _ => negb (next_bkt =? bkt) end then
    match next with
    | Some _ =>
        b ← bucket bkt;
        set_bucket next_bkt b
    | None => mret tt
    end;;
    b ← bucket bkt;
    (if bool_decide (Some Before_begin = b) then set_ (set_before_begin next) else mret tt);;
    set_bucket bkt None
  else mret tt.

Definition _M_get_previous_node (bkt : Z) (n : loc) : T node_base :=
  prev_n ← bucket bkt;
  prev_n ← defined prev_n;
  while (λ prev_n,
    q ← nxt_of prev_n;
    if bool_decide (q = Some n) then mret (inr prev_n)
    else
      q ← defined q;
      mret (inl (At q))) prev_n.

(** * Rehashing *)

Definition _M_rehash_aux (n : Z) : T unit :=
  new_buckets ← _M_allocate_buckets n;
  p ← _M_begin;
  set_ (set_before_begin None);;
  new_buckets ← while (λ '(new_buckets, p, bbegin_bkt),
    match p with
    | None => mret (inr new_buckets)
    | Some p =>
        next ← nxt_of (At p);
        bkt ← node_bucket_index p n;
        b ← defined (nth_bucket new_buckets bkt);
        match b with
        | None =>
            q ← get _M_before_begin;
            set_nxt (At p) q;;
            set_ (set_before_begin (Some p));;
            new_buckets ← set_nth_bucket new_buckets bkt (Some Before_begin);
            new_buckets ← match q with
                          | Some _ => set_nth_bucket new_buckets bbegin_bkt (Some (At p))
                          | None => mret new_buckets
                          end;
            mret (inl (new_buckets, next, bkt))
        | Some before =>
            q ← nxt_of before;
            set_nxt (At p) q;;
            set_nxt before (Some p);;
            mret (inl (new_buckets, next, bbegin_bkt))
        end
    end) (new_buckets, p, 0);
  set_ (set_bucket_count n);;
  set_ (set_buckets new_buckets).

Definition _M_rehash (n : Z) (state : rehash_state) : T unit :=
  catch (_M_rehash_aux n)
    (set_ (λ t, set_policy (_M_reset state (_M_rehash_policy t)) t);; bad_alloc).

Definition rehash (n : Z) : T unit :=
  p ← get _M_rehash_policy;
  let saved_state := _M_state p in
  elements ← get _M_element_count;
  let buckets := Z.max (_M_bkt_for_elements p (elements + 1)) n in
  let '(buckets, p) := _M_next_bkt buckets p in
  set_ (set_policy p);;
  count ← get _M_bucket_count;
  if negb (buckets =? count) then _M_rehash buckets saved_state
  else set_ (λ t, set_policy (_M_reset saved_state (_M_rehash_policy t)) t).

(** * Inserting *)

Definition _M_insert_unique_node (bkt code : Z) (node : loc) (n_elt : Z) : T loc :=
  p ← get _M_rehash_policy;
  let saved_state := _M_state p in
  count ← get _M_bucket_count;
  elements ← get _M_element_count;
  let '(do_rehash, p) := _M_need_rehash count elements n_elt p in
  set_ (set_policy p);;
  catch
    (bkt ← (if do_rehash.1 : bool then
              _M_rehash do_rehash.2 saved_state;;
              count ← get _M_bucket_count;
              bucket_index code count
            else mret bkt);
     _M_store_code node code;;
     _M_insert_bucket_begin bkt node;;
     set_ (λ t, set_element_count (_M_element_count t + 1) t);;
     mret node)
    (_M_deallocate_node node;; bad_alloc).

Definition _M_insert (v : V) (n_elt : Z) : T (loc * bool) :=
  let k := _M_extract v in
  let code := _M_hash_code_of k in
  count ← get _M_bucket_count;
  bkt ← bucket_index code count;
  n ← _M_find_node bkt k code;
  match n with
  | Some n => mret (n, false)
  | None =>
      n ← _M_allocate_node v;
      n ← _M_insert_unique_node bkt code n n_elt;
      mret (n, true)
  end.

Definition _M_emplace (v : V) : T (loc * bool) :=
  node ← _M_allocate_node v;
  let k := _M_extract v in
  let code := _M_hash_code_of k in
  count ← get _M_bucket_count;
  bkt ← bucket_index code count;
  p ← _M_find_node bkt k code;
  match p with
  | Some p =>
      _M_deallocate_node node;;
      mret (p, false)
  | None =>
      n ← _M_insert_unique_node bkt code node 1;
      mret (n, true)
  end.

(** [operator[]] of a map: [make k] is the pair of the key and a value-initialised object. *)
Definition subscript (make : K → V) (k : K) : T loc :=
  let code := _M_hash_code_of k in
  count ← get _M_bucket_count;
  n ← bucket_index code count;
  p ← _M_find_node n k code;
  match p with
  | Some p => mret p
  | None =>
      p ← _M_allocate_node (make k);
      _M_insert_unique_node n code p 1
  end.

(** * Erasing *)

Definition _M_erase (bkt : Z) (prev_n : node_base) (n : loc) : T (option loc) :=
  count ← get _M_bucket_count;
  b ← bucket bkt;
  nxt ← nxt_of (At n);
  (if bool_decide (Some prev_n = b) then
     next_bkt ← match nxt with Some q => node_bucket_index q count | None => mret 0 end;
     _M_remove_bucket_begin bkt nxt next_bkt
   else
     match nxt with
     | Some q =>
         next_bkt ← node_bucket_index q count;
         if negb (next_bkt =? bkt) then set_bucket next_bkt (Some prev_n) else mret tt
     | None => mret tt
     end);;
  q ← nxt_of (At n);
  set_nxt prev_n q;;
  result ← nxt_of (At n);
  _M_deallocate_node n;;
  set_ (λ t, set_element_count (_M_element_count t - 1) t);;
  mret result.

(** [erase(const_iterator)]. *)
Definition erase (n : loc) : T (option loc) :=
  count ← get _M_bucket_count;
  bkt ← node_bucket_index n count;
  prev_n ← _M_get_previous_node bkt n;
  _M_erase bkt prev_n n.

(** [erase(const key_type&)]. *)
Definition erase_key (k : K) : T Z :=
  let code := _M_hash_code_of k in
  count ← get _M_bucket_count;
  bkt ← bucket_index code count;
  prev_n ← _M_find_before_node bkt k code;
  match prev_n with
  | None => mret 0
  | Some prev_n =>
      n ← nxt_of prev_n;
      n ← defined n;
      _M_erase bkt prev_n n;;
      mret 1
  end.

Definition clear : T unit :=
  n ← _M_begin;
  _M_deallocate_nodes n;;
  bs ← get _M_buckets;
  count ← get _M_bucket_count;
  (if Z.of_nat (length bs) <? count then undefined
   else set_ (set_buckets (replicate (Z.to_nat count) None ++ drop (Z.to_nat count) bs)));;
  set_ (set_element_count 0);;
  set_ (set_before_begin None).

(** [_Hashtable()]. *)
Definition new_table : table := Table ∅ [None] 1 None 0 new_policy 0.

(** [_Hashtable(__bucket_hint, ...)]. *)
Definition new_table_hint (bucket_hint : Z) : T unit :=
  p ← get _M_rehash_policy;
  let '(bkt, p) := _M_next_bkt bucket_hint p in
  set_ (set_policy p);;
  count ← get _M_bucket_count;
  if count <? bkt then
    bs ← _M_allocate_buckets bkt;
    set_ (set_buckets bs);;
    set_ (set_bucket_count bkt)
  else mret tt.
End Hashtable.
