(* ===== verification/HashTableChain.v ===== *)
(** * The list of a hash table and its buckets

    How the nodes of a table are linked ([lseg]), what its array of buckets says of
    the list ([layout]), and what inserting and removing a node does to the two. *)
From stdpp Require Import base numbers list gmap.
From Stdlib Require Import ZArith Lia.
From S2P Require Import Prelude HashTable.

(** * Running commands *)

Section Rules.
Context {K V : Type} `{!Hashing K V} `{!Rehash_policy} `{!Heap}.
Local Abbreviation table := (table (V := V)).
Local Abbreviation T := (T (V := V)).

(** [Q] holds if the command returns, and [E] if it throws. *)
Definition wpt {A} (c : T A) (Q : A → table → Prop) (E : table → Prop) (t : table) : Prop :=
  match c t with
  | Some (Some a, t') => Q a t'
  | Some (None, t') => E t'
  | None => False
  end.

Lemma wpt_ret {A} (a : A) (Q : A → table → Prop) E t : Q a t → wpt (mret a) Q E t.
Proof. done. Qed.

Lemma wpt_bind {A B} (c : T A) (k : A → T B) (Q : B → table → Prop) E t :
  wpt c (λ a, wpt (k a) Q E) E t → wpt (c ≫= k) Q E t.
Proof. unfold wpt, mbind, T_bind. by destruct (c t) as [ [ [a|] t']|]. Qed.

Lemma wpt_mono {A} (c : T A) (P Q : A → table → Prop) (D E : table → Prop) t :
  wpt c P D t → (∀ a t', P a t' → Q a t') → (∀ t', D t' → E t') → wpt c Q E t.
Proof. unfold wpt. destruct (c t) as [ [ [a|] t']|]; auto. Qed.

Lemma wpt_get {A B} (f : table → A) (k : A → T B) (Q : B → table → Prop) E t :
  wpt (k (f t)) Q E t → wpt (x ← get f; k x) Q E t.
Proof. done. Qed.

Lemma wpt_set {B} (f : table → table) (k : T B) (Q : B → table → Prop) E t :
  wpt k Q E (f t) → wpt (set_ f;; k) Q E t.
Proof. done. Qed.

Lemma wpt_defined {A B} (o : option A) a (k : A → T B) (Q : B → table → Prop) E t :
  o = Some a → wpt (k a) Q E t → wpt (x ← defined o; k x) Q E t.
Proof. by intros ->. Qed.

Lemma wpt_catch {A} (c h : T A) (Q : A → table → Prop) E t :
  wpt c Q (wpt h Q E) t → wpt (catch c h) Q E t.
Proof. unfold wpt, catch. by destruct (c t) as [ [ [a|] t']|]. Qed.

(** A command at the end of another one. *)
Lemma wpt_bind_ret {A} (c : T A) (Q : A → table → Prop) E t : wpt (x ← c; mret x) Q E t → wpt c Q E t.
Proof. unfold wpt, mbind, T_bind, mret, T_ret. by destruct (c t) as [ [ [a|] t']|]. Qed.

Lemma wpt_seq_ret (c : T unit) (Q : unit → table → Prop) E t : wpt (c;; mret tt) Q E t → wpt c Q E t.
Proof. unfold wpt, mbind, T_bind, mret, T_ret. by destruct (c t) as [ [ [ [] |] t']|]. Qed.

(** The invariant has a number that decreases. *)
Lemma wpt_iterate {X Y} (I : Z → X → table → Prop) (body : X → T (X + Y))
    (Q : Y → table → Prop) E fuel i x t :
  (∀ i x t, I i x t → 0 <= i ∧ wpt (body x) (λ r t', match r with
     | inl x' => ∃ i', i' < i ∧ I i' x' t'
     | inr y => Q y t' end) E t) →
  I i x t → i < Z.of_nat fuel → wpt (iterate fuel body x) Q E t.
Proof.
  intros Hb. revert i x t. induction fuel as [|fuel IH]; intros i x t HI Hf.
  - destruct (Hb i x t HI). lia.
  - destruct (Hb i x t HI) as [_ Hw]. cbn [iterate]. apply wpt_bind. eapply wpt_mono; [exact Hw| |done].
    intros [x'|y] t' Ht; [|done]. destruct Ht as (i' & Hi' & Ht). apply (IH i'); [done|lia].
Qed.

Lemma wpt_while {X Y} (I : Z → X → table → Prop) (body : X → T (X + Y)) (Q : Y → table → Prop) E i x t :
  (∀ i x t, I i x t → 0 <= i ∧ wpt (body x) (λ r t', match r with
     | inl x' => ∃ i', i' < i ∧ I i' x' t'
     | inr y => Q y t' end) E t) →
  I i x t → i <= Z.of_nat (size (nodes t)) → wpt (while body x) Q E t.
Proof. intros Hb HI Hm. unfold while. apply wpt_get. apply (wpt_iterate I body Q E _ i); [done|done|lia]. Qed.
End Rules.

(** * Positions of a list *)

Section Chain.
Context {V : Type}.
Abbreviation entry := (loc * V)%type.
Implicit Types (A B C ls : list entry) (p q : option loc).

(** The pointer before the node that follows [A]. *)
Definition base_after (b : node_base) A : node_base :=
  match list.last A with Some x => At x.1 | None => b end.

Definition first_loc ls q : option loc := match ls with [] => q | x :: _ => Some x.1 end.

Lemma base_after_cons b x A : base_after b (x :: A) = base_after (At x.1) A.
Proof. unfold base_after. rewrite last_cons. by destruct (list.last A). Qed.

Lemma base_after_snoc b A x : base_after b (A ++ [x]) = At x.1.
Proof. unfold base_after. by rewrite last_snoc. Qed.

Lemma base_after_app b A B : base_after b (A ++ B) = base_after (base_after b A) B.
Proof.
  revert b. induction A as [|x A IH]; intros b; [done|]. cbn. by rewrite !base_after_cons, IH.
Qed.

Lemma base_after_in b A : A ≠ [] → ∃ x, x ∈ A ∧ base_after b A = At x.1.
Proof.
  destruct A as [|x A _] using rev_ind; [done|]. intros _. exists x. rewrite base_after_snoc.
  split; [apply elem_of_app; right; by left|done].
Qed.

(** Different positions have different pointers before them. *)
Lemma base_after_proper b A x B :
  NoDup (A ++ x :: B).*1 → b = Before_begin → base_after b A ≠ base_after b (A ++ x :: B).
Proof.
  intros Hd -> E. rewrite base_after_app in E. destruct (base_after_in (base_after Before_begin A) (x :: B)) as (y & Hy & Ey); [done|].
  rewrite Ey in E. destruct (decide (A = [])) as [->|Hne]; [done|].
  destruct (base_after_in Before_begin A Hne) as (z & Hz & Ez). rewrite Ez in E. injection E as E.
  rewrite fmap_app in Hd. apply NoDup_app in Hd as (_ & Hd & _). apply (Hd z.1); [by apply list_elem_of_fmap_2|].
  rewrite E. by apply list_elem_of_fmap_2.
Qed.
End Chain.

(** * Buckets *)

Section Buckets.
Context {V : Type}.
Local Abbreviation entry := (loc * V)%type.
Implicit Types (A B C L R ls : list entry).
(** The bucket of a value. *)
Variable idx : V → Z.

Definition outside (b : Z) ls : Prop := ∀ x, x ∈ ls → idx x.2 ≠ b.
Definition inside (b : Z) ls : Prop := ∀ x, x ∈ ls → idx x.2 = b.

(** The pointer before the first node of a bucket. *)
Fixpoint first_prev (b : Z) (prev : node_base) ls : option node_base :=
  match ls with
  | [] => None
  | x :: ls => if idx x.2 =? b then Some prev else first_prev b (At x.1) ls
  end.

(** The nodes of a bucket are next to each other. *)
Fixpoint grouped ls : Prop :=
  match ls with
  | [] => True
  | x :: ls =>
      ((∃ y ls', ls = y :: ls' ∧ idx y.2 = idx x.2) ∨ outside (idx x.2) ls) ∧ grouped ls
  end.

Lemma outside_cons b x ls : outside b (x :: ls) ↔ idx x.2 ≠ b ∧ outside b ls.
Proof.
  unfold outside. split.
  - intros H. split; [apply H; by left|]. intros y Hy. apply H. by right.
  - intros [Hx H] y [->|Hy]%elem_of_cons; auto.
Qed.

Lemma outside_nil b : outside b [].
Proof. intros x ?%elem_of_nil. done. Qed.

Lemma outside_app b A B : outside b (A ++ B) ↔ outside b A ∧ outside b B.
Proof.
  induction A as [|x A IH]; cbn [app]; [pose proof (outside_nil b); tauto|]. rewrite !outside_cons. tauto.
Qed.

Lemma first_prev_outside b prev ls : outside b ls ↔ first_prev b prev ls = None.
Proof.
  revert prev. induction ls as [|x ls IH]; intros prev; [by split; [|intros _; apply outside_nil]|].
  rewrite outside_cons, (IH (At x.1)). cbn. destruct (Z.eqb_spec (idx x.2) b); [|tauto].
  split; [tauto|done].
Qed.

Lemma first_prev_app b prev A B :
  first_prev b prev (A ++ B) =
  match first_prev b prev A with Some r => Some r | None => first_prev b (base_after prev A) B end.
Proof.
  revert prev. induction A as [|x A IH]; intros prev; [done|]. cbn. rewrite base_after_cons.
  by destruct (idx x.2 =? b).
Qed.

(** The run of a bucket that is not empty. *)
Lemma first_prev_split b prev prev' ls :
  first_prev b prev ls = Some prev' → ∃ A x B, ls = A ++ x :: B ∧ outside b A ∧ idx x.2 = b ∧ prev' = base_after prev A.
Proof.
  revert prev. induction ls as [|x ls IH]; intros prev; cbn; [done|].
  destruct (Z.eqb_spec (idx x.2) b) as [E|E].
  - intros [= <-]. exists [], x, ls. split_and!; [done|apply outside_nil|done|done].
  - intros (A & y & B & -> & HA & Ey & ->)%IH. exists (x :: A), y, B.
    split_and!; [done|by apply outside_cons|done|by rewrite base_after_cons].
Qed.

Lemma first_prev_here b prev A x B :
  outside b A → idx x.2 = b → first_prev b prev (A ++ x :: B) = Some (base_after prev A).
Proof.
  intros HA Hx. rewrite first_prev_app, (proj1 (first_prev_outside b prev A)) by done. cbn.
  by rewrite Hx, Z.eqb_refl.
Qed.

(** The pointer before does not matter for a bucket that begins later. *)
Lemma first_prev_later b prev prev' x ls : idx x.2 ≠ b → first_prev b prev (x :: ls) = first_prev b prev' (x :: ls).
Proof. intros H. cbn. by destruct (Z.eqb_spec (idx x.2) b). Qed.

(** ** Grouping *)

Lemma grouped_app A B : grouped (A ++ B) → grouped B.
Proof. induction A as [|x A IH]; [done|]. intros [_ H]. by apply IH. Qed.

Lemma grouped_front x ls : outside (idx x.2) ls → grouped ls → grouped (x :: ls).
Proof. intros Ho Hg. split; [by right|done]. Qed.

Lemma grouped_insert A x y B :
  grouped (A ++ y :: B) → outside (idx y.2) A → idx x.2 = idx y.2 → grouped (A ++ x :: y :: B).
Proof.
  intros Hg HA E. induction A as [|z A IH]; cbn [app] in *.
  - split; [left; by exists y, B|done].
  - destruct Hg as [Hz Hg]. apply outside_cons in HA as [Hzy HA]. split; [|by apply IH].
    destruct Hz as [(w & ls & Ew & Hw)|Ho].
    + destruct A as [|a A]; cbn in Ew; injection Ew as -> <-; [congruence|]. left. by eexists _, _.
    + right. apply outside_app in Ho as [Ho1 [Ho2 Ho3]%outside_cons]. apply outside_app. split; [done|].
      apply outside_cons. split; [congruence|]. by apply outside_cons.
Qed.

Lemma grouped_remove L x R : grouped (L ++ x :: R) → grouped (L ++ R).
Proof.
  induction L as [|y L IH]; cbn [app]; [by intros [_ ?]|]. intros [Hy Hg]. split; [|by apply IH].
  destruct Hy as [(w & ls & Ew & Hw)|Ho].
  - destruct L as [|z L]; cbn in Ew; injection Ew as -> <-; [|left; by eexists _, _].
    destruct Hg as [ [(r & R' & -> & Hr)|Ho] _]; [left; exists r, R'; split; [done|congruence]|].
    right. by rewrite <- Hw.
  - right. apply outside_app in Ho as [Ho1 [Ho2 Ho3]%outside_cons]. by apply outside_app.
Qed.

(** Behind the last node of a bucket there are no others of it. *)
Lemma grouped_after L x R :
  grouped (L ++ x :: R) → match R with y :: _ => idx y.2 ≠ idx x.2 | [] => True end → outside (idx x.2) R.
Proof.
  intros [Hx _]%grouped_app HR. destruct Hx as [(y & R' & -> & E)|Ho]; [done|done].
Qed.

(** Between two nodes of a bucket there are only nodes of it. *)
Lemma grouped_between z B y C : grouped (z :: B ++ y :: C) → idx z.2 = idx y.2 → inside (idx y.2) B.
Proof.
  revert z. induction B as [|x B IH]; intros z Hg E; [by intros w ?%elem_of_nil|].
  destruct Hg as [Hz Hg]. destruct Hz as [(w & ls & [= <- <-] & Hx)|Ho].
  - intros w [->|Hw]%elem_of_cons; [congruence|]. apply (IH x); [done|congruence|done].
  - exfalso. apply (Ho y); [right; apply elem_of_app; right; by left|done].
Qed.

Lemma grouped_skip L x y R : grouped (L ++ x :: y :: R) → idx y.2 ≠ idx x.2 → outside (idx y.2) L.
Proof.
  intros Hg N. destruct (first_prev (idx y.2) Before_begin L) as [r|] eqn:E; [|by apply (first_prev_outside _ Before_begin)].
  exfalso. apply first_prev_split in E as (A & z & B & -> & _ & Ez & _).
  rewrite <- app_assoc in Hg. apply grouped_app in Hg. cbn in Hg.
  change (x :: y :: R) with ([x] ++ y :: R) in Hg. rewrite app_assoc in Hg.
  apply N. symmetry. apply (grouped_between z (B ++ [x]) y R Hg Ez). apply elem_of_app. right. by left.
Qed.

(** ** The array *)

(** The array [bs] of [n] buckets belongs to the list. *)
Definition layout (n : Z) (bs : list (option node_base)) ls : Prop :=
  Z.of_nat (length bs) = n ∧ (∀ b, 0 <= b < n → nth_bucket bs b = Some (first_prev b Before_begin ls)) ∧ grouped ls.

Lemma nth_bucket_set bs i p b :
  0 <= i < Z.of_nat (length bs) → 0 <= b →
  nth_bucket (<[Z.to_nat i := p]> bs) b = if b =? i then Some p else nth_bucket bs b.
Proof.
  intros Hi Hb. unfold nth_bucket. destruct (Z.ltb_spec b 0); [lia|]. destruct (Z.eqb_spec b i) as [->|].
  - apply list_lookup_insert_eq. lia.
  - apply list_lookup_insert_ne. lia.
Qed.

(** A node at the front of the list, in a bucket that was empty. *)
Lemma layout_front n bs x ls bs' :
  layout n bs ls → (∀ y, 0 <= idx y < n) → outside (idx x.2) ls →
  length bs' = length bs →
  (∀ b, 0 <= b < n → nth_bucket bs' b =
    if b =? idx x.2 then Some (Some Before_begin)
    else match ls with
         | y :: _ => if b =? idx y.2 then Some (Some (At x.1)) else nth_bucket bs b
         | [] => nth_bucket bs b
         end) →
  layout n bs' (x :: ls).
Proof.
  intros (Hl & Hb & Hg) Hi Ho El Hb'. split_and!; [lia| |by apply grouped_front].
  intros b Hr. rewrite (Hb' b Hr). cbn. rewrite (Z.eqb_sym (idx x.2)). destruct (Z.eqb_spec b (idx x.2)); [done|].
  rewrite (Hb b Hr). destruct ls as [|y ls]; [done|]. cbn. rewrite (Z.eqb_sym (idx y.2)). by destruct (b =? idx y.2).
Qed.

(** A node at the beginning of a bucket that is not empty. *)
Lemma layout_insert n bs A x y B :
  layout n bs (A ++ y :: B) → outside (idx y.2) A → idx x.2 = idx y.2 → layout n bs (A ++ x :: y :: B).
Proof.
  intros (Hl & Hb & Hg) HA E. split_and!; [done| |by apply grouped_insert]. intros b Hr. rewrite (Hb b Hr). f_equal.
  rewrite !first_prev_app. destruct (first_prev b Before_begin A); [done|]. cbn. rewrite E.
  by destruct (idx y.2 =? b).
Qed.

(** A node is removed. *)
Lemma layout_remove n bs L x R bs' :
  layout n bs (L ++ x :: R) → length bs' = length bs →
  (∀ b, 0 <= b < n → nth_bucket bs' b =
    match R with
    | y :: _ =>
        if idx y.2 =? idx x.2 then nth_bucket bs b
        else if b =? idx y.2 then Some (Some (base_after Before_begin L))
        else if (b =? idx x.2) && bool_decide (first_prev b Before_begin L = None) then Some None
        else nth_bucket bs b
    | [] => if (b =? idx x.2) && bool_decide (first_prev b Before_begin L = None) then Some None else nth_bucket bs b
    end) →
  layout n bs' (L ++ R).
Proof.
  intros (Hl & Hb & Hg) El Hb'. split_and!; [lia| |by eapply grouped_remove]. intros b Hr. rewrite (Hb' b Hr).
  pose proof (Hb b Hr) as E. rewrite first_prev_app in E |- *. cbn in E.
  destruct R as [|y R].
  - rewrite E. cbn. rewrite (Z.eqb_sym (idx x.2)). destruct (first_prev b Before_begin L) as [r|] eqn:EL.
    + rewrite bool_decide_eq_false_2 by done. by rewrite andb_false_r.
    + rewrite bool_decide_eq_true_2 by done. rewrite andb_true_r. by destruct (b =? idx x.2).
  - destruct (Z.eqb_spec (idx y.2) (idx x.2)) as [Eyx|Nyx].
    + rewrite E. destruct (first_prev b Before_begin L); [done|]. cbn. rewrite Eyx.
      by destruct (idx x.2 =? b).
    + pose proof (grouped_after L x (y :: R) Hg Nyx) as Ho.
      destruct (Z.eqb_spec b (idx y.2)) as [->|Nb].
      { rewrite (proj1 (first_prev_outside _ _ _) (grouped_skip _ _ _ _ Hg Nyx)). cbn. by rewrite Z.eqb_refl. }
      rewrite E, (Z.eqb_sym (idx x.2)), (first_prev_later b (base_after Before_begin L) (At x.1) y R) by done.
      destruct (first_prev b Before_begin L) as [r|] eqn:EL.
      * rewrite bool_decide_eq_false_2 by done. by rewrite andb_false_r.
      * rewrite bool_decide_eq_true_2 by done. rewrite andb_true_r. destruct (Z.eqb_spec b (idx x.2)) as [->|]; [|done].
        by rewrite (proj1 (first_prev_outside _ _ _) Ho).
Qed.

(** Another value in the same bucket. *)
Lemma grouped_replace A x y B : idx x.2 = idx y.2 → grouped (A ++ x :: B) → grouped (A ++ y :: B).
Proof.
  intros E. induction A as [|z A IH]; cbn [app]; intros [Hz Hg]; [cbn; by rewrite <- E|].
  split; [|by apply IH]. destruct Hz as [(w & ls & Ew & Hw)|Ho].
  - left. destruct A as [|a A]; cbn in Ew; injection Ew as -> <-; eexists _, _; (split; [done|congruence]).
  - right. apply outside_app in Ho as [Ho1 [Ho2 Ho3]%outside_cons]. apply outside_app. split; [done|].
    apply outside_cons. split; [congruence|done].
Qed.

Lemma layout_replace n bs A x y B :
  layout n bs (A ++ x :: B) → x.1 = y.1 → idx x.2 = idx y.2 → layout n bs (A ++ y :: B).
Proof.
  intros (Hl & Hb & Hg) El Ei. split_and!; [done| |by apply (grouped_replace A x)]. intros b Hr. rewrite (Hb b Hr).
  rewrite !first_prev_app. cbn. by rewrite El, Ei.
Qed.
End Buckets.
