(* ===== verification/HashTableTheory.v ===== *)
(** * Hash tables keep their invariant

    For keys with an equality that the hash function respects, and a rehash policy
    that asks for at least one bucket: what each function of [HashTable] does to
    the list of nodes and the array of buckets. *)
From stdpp Require Import base numbers list gmap.
From Stdlib Require Import ZArith Lia.
From S2P Require Import Prelude HashTable HashTableChain.

(** What the standard requires of the hash function and the equality. *)
Class Hashing_ok {K V} `{!Hashing K V} : Prop := {
  eq_refl_key k : _M_eq k k = true;
  eq_sym_key k k' : _M_eq k k' = true → _M_eq k' k = true;
  eq_trans_key k1 k2 k3 : _M_eq k1 k2 = true → _M_eq k2 k3 = true → _M_eq k1 k3 = true;
  eq_hash k k' : _M_eq k k' = true → _M_h1 k = _M_h1 k';
}.

(** "Return a bucket size no smaller than n", "a bucket count appropriate for n elements", "the new
    bucket count". *)
Class Policy_ok `{!Rehash_policy} : Prop := {
  need_rehash_bucket n_bkt n_elt n_ins p n : (_M_need_rehash n_bkt n_elt n_ins p).1 = (true, n) → 1 <= n;
  next_bkt_size n p : n <= (_M_next_bkt n p).1;
  bkt_for_elements_pos n p : 1 <= n → 1 <= _M_bkt_for_elements p n;
}.

Section Theory.
Context {K V : Type} {hashing : Hashing K V} {rehashing : Rehash_policy} {heap : Heap}.
Context {hashing_ok : Hashing_ok} {policy_ok : Policy_ok}.
Local Abbreviation table := (table (V := V)).
Local Abbreviation entry := (loc * V)%type.
Implicit Types (t : table) (m : gmap loc (node V)) (A B C L R ls : list entry) (p q : option loc).

(** The bucket of a value, in a table with [n] buckets. *)
Definition idx (n : Z) (v : V) : Z := _M_h1 (_M_extract v) mod n.

Lemma idx_range n v : 0 < n → 0 <= idx n v < n.
Proof. intros. by apply Z.mod_pos_bound. Qed.

Lemma idx_key n k v : _M_eq k (_M_extract v) = true → _M_h1 k mod n = idx n v.
Proof. intros ->%eq_hash. done. Qed.

(** * Nodes *)

Definition code_ok (nd : node V) : Prop :=
  hash_cached = true → _M_hash_code nd = Some (_M_h1 (_M_extract (_M_v nd))).

(** The nodes [ls] are linked from [p] to [q]. *)
Fixpoint lseg m p ls q : Prop :=
  match ls with
  | [] => p = q
  | x :: ls => p = Some x.1 ∧ ∃ nd, m !! x.1 = Some nd ∧ _M_v nd = x.2 ∧ code_ok nd ∧ lseg m (_M_nxt nd) ls q
  end.

Lemma lseg_app m p A B q : lseg m p (A ++ B) q ↔ ∃ r, lseg m p A r ∧ lseg m r B q.
Proof.
  revert p. induction A as [|x A IH]; intros p; cbn [app lseg].
  - split; [intros H; by exists p|by intros (r & -> & H)].
  - split.
    + intros (Ep & nd & ? & ? & ? & (r & HA & HB)%IH). exists r. split; [|done]. split; [done|]. by exists nd.
    + intros (r & (Ep & nd & ? & ? & ? & HA) & HB). split; [done|]. exists nd. split_and!; [done..|].
      apply IH. by exists r.
Qed.

Lemma lseg_first m p ls q : lseg m p ls q → p = first_loc ls q.
Proof. destruct ls as [|x ls]; [done|]. by intros [-> _]. Qed.

Lemma lseg_insert m p ls q l nd : l ∉ ls.*1 → lseg m p ls q → lseg (<[l := nd]> m) p ls q.
Proof.
  revert p. induction ls as [|x ls IH]; intros p Hl; [done|]. cbn in *.
  apply not_elem_of_cons in Hl as [Hx Hl]. intros (-> & nd' & ? & ? & ? & ?). split; [done|]. exists nd'.
  rewrite lookup_insert_ne by done. split_and!; [done..|by apply IH].
Qed.

Lemma lseg_delete m p ls q l : l ∉ ls.*1 → lseg m p ls q → lseg (delete l m) p ls q.
Proof.
  revert p. induction ls as [|x ls IH]; intros p Hl; [done|]. cbn in *.
  apply not_elem_of_cons in Hl as [Hx Hl]. intros (-> & nd' & ? & ? & ? & ?). split; [done|]. exists nd'.
  rewrite lookup_delete_ne by done. split_and!; [done..|by apply IH].
Qed.

Lemma lseg_agree m m' p ls q : lseg m p ls q → (∀ l, l ∈ ls.*1 → m' !! l = m !! l) → lseg m' p ls q.
Proof.
  revert p. induction ls as [|x ls IH]; intros p; [done|]. cbn. intros (-> & nd & ? & ? & ? & H) Hl.
  split; [done|]. exists nd. rewrite Hl by (by left). split_and!; [done..|].
  apply IH; [done|]. intros l ?. apply Hl. by right.
Qed.

Lemma lseg_node m p ls q x : lseg m p ls q → x ∈ ls → ∃ nd, m !! x.1 = Some nd ∧ _M_v nd = x.2 ∧ code_ok nd.
Proof.
  revert p. induction ls as [|y ls IH]; intros p; [by intros _ ?%elem_of_nil|]. cbn.
  intros (_ & nd & ? & ? & ? & H) [->|Hx]%elem_of_cons; [by exists nd|by eapply IH].
Qed.

(** The last node of a segment points to what follows. *)
Lemma lseg_relink m p A x q r nd :
  lseg m p (A ++ [x]) q → NoDup (A ++ [x]).*1 → m !! x.1 = Some nd →
  lseg (<[x.1 := Node r (_M_v nd) (_M_hash_code nd)]> m) p (A ++ [x]) r ∧ _M_nxt nd = q.
Proof.
  intros (s & HA & Hx)%lseg_app Hd Hn. destruct Hx as (-> & nd' & Hn' & Ev & Hc & Eq). cbn in Eq.
  rewrite Hn in Hn'. injection Hn' as <-. split; [|done].
  rewrite fmap_app in Hd. apply NoDup_app in Hd as (_ & Hd & _). apply lseg_app. exists (Some x.1). split.
  - apply lseg_insert; [|done]. intros Hin. apply (Hd x.1 Hin). by left.
  - split; [done|]. exists (Node r (_M_v nd) (_M_hash_code nd)). rewrite lookup_insert_eq. done.
Qed.

(** * Commands on nodes *)

Section Commands.
Context {Y : Type} (Q : Y → table → Prop) (E : table → Prop).

Lemma wpt_node_at l nd (k : node V → T Y) t :
  nodes t !! l = Some nd → wpt (k nd) Q E t → wpt (x ← node_at l; k x) Q E t.
Proof. intros H Hk. unfold wpt, node_at, mbind, T_bind, get, defined. cbn. by rewrite H. Qed.

Lemma wpt_node_at_set l nd (f : node V → table → table) (Q' : unit → table → Prop) t :
  nodes t !! l = Some nd → Q' tt (f nd t) → wpt (n ← node_at l; set_ (f n)) Q' E t.
Proof. intros H Hk. unfold wpt, node_at, mbind, T_bind, get, defined. cbn. by rewrite H. Qed.

Lemma wpt_node_bucket_index l nd n (k : Z → T Y) t :
  nodes t !! l = Some nd → code_ok nd → 0 < n → wpt (k (idx n (_M_v nd))) Q E t →
  wpt (x ← node_bucket_index l n; k x) Q E t.
Proof.
  intros H Hc Hn Hk. unfold node_bucket_index, _M_h2, idx, code_ok in *.
  assert ((n =? 0) = false) as E0 by (apply Z.eqb_neq; lia).
  unfold wpt, node_at, mbind, T_bind, get, defined in *. cbn. rewrite H. cbn. destruct hash_cached; [rewrite Hc by done; cbn|]; by rewrite E0.
Qed.

Lemma wpt_equals key l nd (k : bool → T Y) t :
  nodes t !! l = Some nd → code_ok nd → wpt (k (_M_eq key (_M_extract (_M_v nd)))) Q E t →
  wpt (x ← _M_equals key (_M_h1 key) l; k x) Q E t.
Proof.
  intros H Hc Hk. unfold _M_equals, code_ok in *. unfold wpt, node_at, mbind, T_bind, get, defined in *.
  cbn. rewrite H. cbn. destruct hash_cached; [|done]. rewrite Hc by done. cbn.
  destruct (_M_eq key (_M_extract (_M_v nd))) eqn:Ek; [|by rewrite andb_false_r].
  rewrite (eq_hash _ _ Ek), Z.eqb_refl. done.
Qed.

Lemma wpt_bucket_index c n (k : Z → T Y) t : 0 < n → wpt (k (c mod n)) Q E t → wpt (x ← bucket_index c n; k x) Q E t.
Proof.
  intros Hn Hk. unfold bucket_index, _M_h2. destruct (Z.eqb_spec n 0); [lia|done].
Qed.

Lemma wpt_nxt_at l nd (k : option loc → T Y) t :
  nodes t !! l = Some nd → wpt (k (_M_nxt nd)) Q E t → wpt (x ← nxt_of (At l); k x) Q E t.
Proof. intros H Hk. unfold wpt, nxt_of, node_at, mbind, T_bind, get, defined. cbn. by rewrite H. Qed.

(** The pointer before the node that follows [A]. *)
Lemma wpt_nxt_of A r (k : option loc → T Y) t :
  lseg (nodes t) (_M_before_begin t) A r → wpt (k r) Q E t → wpt (x ← nxt_of (base_after Before_begin A); k x) Q E t.
Proof.
  destruct A as [|x A _] using rev_ind; [by intros <-|]. intros (s & _ & -> & nd & Hn & _ & _ & Er)%lseg_app Hk.
  rewrite base_after_snoc. apply (wpt_nxt_at x.1 nd); [done|]. cbn in Er. by rewrite Er.
Qed.

(** [set_nxt] there: the segment ends at [q], other nodes are as they were. *)
Lemma wpt_set_nxt A r q (k : T Y) t :
  lseg (nodes t) (_M_before_begin t) A r → NoDup A.*1 →
  (∀ t', lseg (nodes t') (_M_before_begin t') A q → dom (nodes t') = dom (nodes t) →
    (∀ l, l ∉ A.*1 → nodes t' !! l = nodes t !! l) → _M_buckets t' = _M_buckets t →
    _M_bucket_count t' = _M_bucket_count t → _M_element_count t' = _M_element_count t → wpt k Q E t') →
  wpt (set_nxt (base_after Before_begin A) q;; k) Q E t.
Proof.
  destruct A as [|x A _] using rev_ind; intros HA Hd Hk.
  - apply wpt_set. apply Hk; [done..|]. done.
  - rewrite base_after_snoc. destruct (lseg_node _ _ _ _ x HA) as (nd & Hn & _); [apply elem_of_app; right; by left|].
    apply wpt_bind. cbn [set_nxt]. apply (wpt_node_at_set x.1 nd); [done|]. apply Hk; cbn; try done.
    + by apply (lseg_relink _ _ A x r q nd).
    + apply dom_insert_lookup_L. by exists nd.
    + intros l Hl. apply lookup_insert_ne. intros <-. apply Hl. rewrite fmap_app. apply elem_of_app. right. by left.
Qed.
End Commands.

(** * The representation *)

(** The table has the list [ls]; the nodes [X] are allocated but not in it. *)
Record rep t ls (X : gset loc) : Prop := {
  rep_chain : lseg (nodes t) (_M_before_begin t) ls None;
  rep_nodup : NoDup ls.*1;
  rep_dom : ∀ l, l ∈ dom (nodes t) ↔ l ∈ ls.*1 ∨ l ∈ X;
  rep_extra : ∀ l, l ∈ X → l ∉ ls.*1;
  rep_buckets : 0 < _M_bucket_count t;
  rep_layout : layout (idx (_M_bucket_count t)) (_M_bucket_count t) (_M_buckets t) ls;
}.

Lemma rep_size t ls X : rep t ls X → (length ls + size X = size (nodes t))%nat.
Proof.
  intros H. rewrite <- size_dom. replace (dom (nodes t)) with (list_to_set ls.*1 ∪ X).
  2:{ apply set_eq. intros l. by rewrite elem_of_union, elem_of_list_to_set, (rep_dom _ _ _ H). }
  rewrite size_union.
  - rewrite size_list_to_set by apply (rep_nodup _ _ _ H). by rewrite length_fmap.
  - intros l Hl%elem_of_list_to_set HX. by apply (rep_extra _ _ _ H l).
Qed.

Section Searching.
Context {Y : Type} (Q : Y → table → Prop) (E : table → Prop).

(** The pointers around a position of the list. *)
Lemma wpt_position A B ls X (k : option loc → T Y) t :
  rep t ls X → ls = A ++ B → wpt (k (first_loc B None)) Q E t →
  wpt (x ← nxt_of (base_after Before_begin A); k x) Q E t.
Proof.
  intros H -> Hk. pose proof (rep_chain _ _ _ H) as (r & HA & HB)%lseg_app.
  apply (wpt_nxt_of _ _ A r); [done|]. by rewrite (lseg_first _ _ _ _ HB).
Qed.

Lemma wpt_bucket b ls X (k : option node_base → T Y) t :
  rep t ls X → 0 <= b < _M_bucket_count t →
  wpt (k (first_prev (idx (_M_bucket_count t)) b Before_begin ls)) Q E t → wpt (x ← bucket b; k x) Q E t.
Proof.
  intros H Hb Hk. destruct (rep_layout _ _ _ H) as (_ & Hl & _).
  unfold bucket, wpt, mbind, T_bind, get, defined in *. cbn. by rewrite (Hl b Hb).
Qed.

End Searching.

(** The next node of the bucket. *)
Lemma wpt_next_in_bucket {Y} (Q : Y → table → Prop) E A x B ls X b (k : option loc → T Y) t :
  rep t ls X → ls = A ++ x :: B →
  wpt (k match B with y :: _ => if idx (_M_bucket_count t) y.2 =? b then Some y.1 else None | [] => None end) Q E t →
  wpt (p ← next_in_bucket x.1 b; k p) Q E t.
Proof.
  intros H Els Hk. apply wpt_bind. unfold next_in_bucket.
  rewrite <- (base_after_snoc Before_begin A x).
  apply (wpt_position _ _ (A ++ [x]) B ls X); [done|by rewrite Els, <- app_assoc|].
  destruct B as [|y B]; cbn [first_loc]; [done|]. apply wpt_get.
  destruct (lseg_node _ _ _ _ y (rep_chain _ _ _ H)) as (nd & Hn & Ev & Hc).
  { rewrite Els. apply elem_of_app. right. right. by left. }
  apply (wpt_node_bucket_index _ _ y.1 nd); [done|done|apply (rep_buckets _ _ _ H)|]. by rewrite Ev.
Qed.

Lemma not_equal_outside n k ls : outside (idx n) (_M_h1 k mod n) ls → ∀ x, x ∈ ls → _M_eq k (_M_extract x.2) = false.
Proof.
  intros Ho x Hx. destruct (_M_eq k (_M_extract x.2)) eqn:Ek; [|done]. exfalso.
  apply (Ho x Hx). by rewrite <- (idx_key _ k).
Qed.

(** What a search for a key finds: the first node whose key is equal. *)
Definition found_before k ls (r : option node_base) : Prop :=
  match r with
  | Some prev => ∃ A x B, ls = A ++ x :: B ∧ prev = base_after Before_begin A ∧ _M_eq k (_M_extract x.2) = true ∧
                   ∀ y, y ∈ A → _M_eq k (_M_extract y.2) = false
  | None => ∀ y, y ∈ ls → _M_eq k (_M_extract y.2) = false
  end.

Lemma find_before_node_spec k ls X t E :
  rep t ls X →
  wpt (_M_find_before_node (_M_h1 k mod _M_bucket_count t) k (_M_h1 k)) (λ r t', t' = t ∧ found_before k ls r) E t.
Proof.
  intros H. pose proof (rep_buckets _ _ _ H) as Hn. set (n := _M_bucket_count t) in *. set (b := _M_h1 k mod n).
  destruct (rep_layout _ _ _ H) as (_ & _ & Hg). fold n in Hg. unfold _M_find_before_node.
  apply (wpt_bucket _ _ b ls X); [done|by apply Z.mod_pos_bound|]. fold n.
  destruct (first_prev (idx n) b Before_begin ls) as [prev|] eqn:Ef.
  2:{ apply wpt_ret. split; [done|]. intros y Hy. apply (not_equal_outside n k ls); [|done]. by apply (first_prev_outside _ _ Before_begin). }
  apply first_prev_split in Ef as (A & x & B & Els & HA & Hx & ->).
  apply (wpt_position _ _ A (x :: B) ls X); [done|done|]. apply (wpt_defined _ x.1); [done|].
  apply (wpt_while (λ i '(prev, p) t', t' = t ∧ ∃ A x B, ls = A ++ x :: B ∧ prev = base_after Before_begin A ∧
    p = x.1 ∧ idx n x.2 = b ∧ (∀ y, y ∈ A → _M_eq k (_M_extract y.2) = false) ∧ i = Z.of_nat (length B))
    _ _ _ (Z.of_nat (length B))).
  - intros i [prev p] t' (-> & A' & y & B' & Els' & -> & -> & Hy & HA' & ->). split; [lia|].
    destruct (lseg_node _ _ _ _ y (rep_chain _ _ _ H)) as (nd & Hnd & Ev & Hc).
    { rewrite Els'. apply elem_of_app. right. by left. }
    apply (wpt_equals _ _ k y.1 nd); [done|done|]. rewrite Ev. destruct (_M_eq k (_M_extract y.2)) eqn:Ek.
    { apply wpt_ret. split; [done|]. by exists A', y, B'. }
    apply (wpt_next_in_bucket _ _ A' y B' ls X); [done|done|]. fold n.
    assert (∀ z, z ∈ A' ++ [y] → _M_eq k (_M_extract z.2) = false) as Hno.
    { intros z [Hz| ->%list_elem_of_singleton]%elem_of_app; auto. }
    assert (outside (idx n) b B' → found_before k ls None) as Hnone.
    { intros Ho z Hz. rewrite Els', cons_middle, app_assoc in Hz. apply elem_of_app in Hz as [?|?]; [by apply Hno|].
      by apply (not_equal_outside n k B'). }
    rewrite Els' in Hg. rewrite <- Hy in Hnone.
    destruct B' as [|z B']; [apply wpt_ret; split; [done|]; apply Hnone, outside_nil|].
    destruct (Z.eqb_spec (idx n z.2) b) as [Ez|Nz].
    + apply wpt_ret. exists (Z.of_nat (length B')). split; [cbn; lia|]. split; [done|]. exists (A' ++ [y]), z, B'.
      rewrite base_after_snoc, <- app_assoc. by split_and!.
    + apply wpt_ret. split; [done|]. apply Hnone, (grouped_after _ A'); [done|]. by rewrite Hy.
  - split; [done|]. exists A, x, B. split_and!; [done..| |done]. by apply (not_equal_outside n).
  - pose proof (rep_size _ _ _ H) as Hs. rewrite Els, length_app in Hs. cbn in Hs. lia.
Qed.

(** A node with the key, or none. *)
Definition found k ls (r : option loc) : Prop :=
  match r with
  | Some l => ∃ v, (l, v) ∈ ls ∧ _M_eq k (_M_extract v) = true
  | None => ∀ y, y ∈ ls → _M_eq k (_M_extract y.2) = false
  end.

Lemma find_node_spec k ls X t E :
  rep t ls X →
  wpt (_M_find_node (_M_h1 k mod _M_bucket_count t) k (_M_h1 k)) (λ r t', t' = t ∧ found k ls r) E t.
Proof.
  intros H. apply wpt_bind. eapply wpt_mono; [by apply (find_before_node_spec k ls X)| |done].
  intros [prev|] t' [-> Hf]; [|by apply wpt_ret]. destruct Hf as (A & [l v] & B & Els & -> & Ek & _).
  apply wpt_bind_ret. apply (wpt_position _ _ A ((l, v) :: B) ls X); [done|done|]. apply wpt_ret.
  split; [done|]. exists v. split; [|done]. rewrite Els. apply elem_of_app. right. by left.
Qed.

Lemma find_spec k ls X t E : rep t ls X → wpt (find k) (λ r t', t' = t ∧ found k ls r) E t.
Proof.
  intros H. apply wpt_get, wpt_bucket_index; [apply (rep_buckets _ _ _ H)|]. by apply (find_node_spec k ls X).
Qed.

(** * Linking a node *)

Lemma wpt_set_nxt_at {Y} (Q : Y → table → Prop) E l nd q (k : T Y) t :
  nodes t !! l = Some nd →
  wpt k Q E (set_nodes (<[l := Node q (_M_v nd) (_M_hash_code nd)]> (nodes t)) t) →
  wpt (set_nxt (At l) q;; k) Q E t.
Proof. intros H Hk. unfold wpt, set_nxt, node_at, mbind, T_bind, get, defined in *. cbn. by rewrite H. Qed.

Lemma wpt_set_bucket {Y} (Q : Y → table → Prop) E i (p : option node_base) (k : T Y) t :
  0 <= i < Z.of_nat (length (_M_buckets t)) →
  wpt k Q E (set_buckets (<[Z.to_nat i := p]> (_M_buckets t)) t) → wpt (set_bucket i p;; k) Q E t.
Proof.
  intros Hi Hk. unfold set_bucket, set_nth_bucket, wpt, mbind, T_bind, get, defined in *. cbn.
  unfold nth_bucket. destruct (Z.ltb_spec i 0); [lia|].
  destruct (lookup_lt_is_Some_2 (_M_buckets t) (Z.to_nat i)) as [b Hb]; [lia|]. by rewrite Hb.
Qed.

Definition same_counts t t' : Prop :=
  _M_bucket_count t' = _M_bucket_count t ∧ _M_element_count t' = _M_element_count t.

Lemma nodup_middle A (x : entry) B : NoDup ((A ++ x :: B).*1) ↔ (x.1 ∉ ((A ++ B).*1)) ∧ NoDup ((A ++ B).*1).
Proof.
  rewrite !fmap_app. cbn. rewrite <- Permutation_middle. apply NoDup_cons.
Qed.

Lemma elem_of_middle l A (x : entry) B : l ∈ (A ++ x :: B).*1 ↔ l = x.1 ∨ l ∈ (A ++ B).*1.
Proof. rewrite !fmap_app. cbn. rewrite !elem_of_app, elem_of_cons. tauto. Qed.

(** The three commands that link the node [x] between [A] and [B]. *)
Lemma wpt_link {Y} (Q : Y → table → Prop) E A B x nd (k : option loc → T Y) t :
  lseg (nodes t) (_M_before_begin t) (A ++ B) None → NoDup ((A ++ B).*1) → x.1 ∉ ((A ++ B).*1) →
  nodes t !! x.1 = Some nd → _M_v nd = x.2 → code_ok nd →
  (∀ t', lseg (nodes t') (_M_before_begin t') (A ++ x :: B) None → dom (nodes t') = dom (nodes t) →
    (∀ l, l ∉ ((A ++ x :: B).*1) → nodes t' !! l = nodes t !! l) → _M_buckets t' = _M_buckets t →
    same_counts t t' → wpt (k (first_loc B None)) Q E t') →
  wpt (q ← nxt_of (base_after Before_begin A); set_nxt (At x.1) q;; set_nxt (base_after Before_begin A) (Some x.1);; k q) Q E t.
Proof.
  intros (r & HA & HB)%lseg_app Hnd Hx Hn Ev Hc Hk. rewrite fmap_app in Hx, Hnd. apply not_elem_of_app in Hx as [HxA HxB].
  pose proof Hnd as (HdA & Hdis & HdB)%NoDup_app. pose proof (lseg_first _ _ _ _ HB) as ->.
  apply (wpt_nxt_of _ _ A (first_loc B None)); [done|]. apply (wpt_set_nxt_at _ _ x.1 nd); [done|].
  set (t1 := set_nodes _ t). apply (wpt_set_nxt _ _ A (first_loc B None) (Some x.1) _ t1); [by apply lseg_insert|done|].
  intros t' HA' Hdom Hkeep Eb Ec Ee. apply Hk; [|..|done|done].
  - apply lseg_app. exists (Some x.1). split; [done|]. split; [done|].
    exists (Node (first_loc B None) (_M_v nd) (_M_hash_code nd)). rewrite (Hkeep x.1) by done.
    split_and!; [apply lookup_insert_eq|done|by intros ?; apply Hc|]. cbn [_M_nxt].
    apply (lseg_agree (nodes t)); [done|]. intros l Hl. rewrite Hkeep by (intros Hl'; by apply (Hdis l Hl')).
    apply lookup_insert_ne. by intros <-.
  - rewrite Hdom. apply dom_insert_lookup_L. by exists nd.
  - intros l Hl. rewrite elem_of_middle, fmap_app, elem_of_app in Hl. rewrite Hkeep by tauto.
    apply lookup_insert_ne. intros <-. tauto.
Qed.

(** The same three commands, at the end. *)
Lemma wpt_tail (a : T (option loc)) (b : option loc → T unit) (c : T unit) (Q : unit → table → Prop) E t :
  wpt (q ← a; b q;; c;; mret tt) Q E t → wpt (q ← a; b q;; c) Q E t.
Proof.
  unfold wpt, mbind, T_bind, mret, T_ret. destruct (a t) as [ [ [q|] t1]|]; [|done..].
  destruct (b q t1) as [ [ [u|] t2]|]; [|done..]. by destruct (c t2) as [ [ [ [] |] t3]|].
Qed.

(** A table with one more node in the list. *)
Lemma rep_linked t t' A x B :
  rep t (A ++ B) {[x.1]} → lseg (nodes t') (_M_before_begin t') (A ++ x :: B) None → dom (nodes t') = dom (nodes t) →
  _M_bucket_count t' = _M_bucket_count t →
  layout (idx (_M_bucket_count t)) (_M_bucket_count t) (_M_buckets t') (A ++ x :: B) → rep t' (A ++ x :: B) ∅.
Proof.
  intros H Hc Hdom Ec Hl. split; [done|..].
  - apply nodup_middle. split; [|apply (rep_nodup _ _ _ H)]. apply (rep_extra _ _ _ H). by apply elem_of_singleton.
  - intros l. rewrite Hdom, (rep_dom _ _ _ H), elem_of_middle, elem_of_singleton.
    pose proof (not_elem_of_empty (C := gset loc) l). tauto.
  - intros l ?%elem_of_empty. done.
  - rewrite Ec. apply (rep_buckets _ _ _ H).
  - by rewrite Ec.
Qed.

Lemma insert_bucket_begin_spec t ls x nd (Q : unit → table → Prop) E :
  rep t ls {[x.1]} → nodes t !! x.1 = Some nd → _M_v nd = x.2 → code_ok nd →
  (∀ t' ls', ls' ≡ₚ x :: ls → rep t' ls' ∅ → same_counts t t' → Q tt t') →
  wpt (_M_insert_bucket_begin (idx (_M_bucket_count t) x.2) x.1) Q E t.
Proof.
  intros H Hnd Ev Hc HQ. pose proof (rep_buckets _ _ _ H) as Hn. pose proof (rep_layout _ _ _ H) as Hlay.
  pose proof (rep_extra _ _ _ H x.1 ltac:(by apply elem_of_singleton)) as Hx.
  pose proof (rep_chain _ _ _ H) as Hch. pose proof (rep_nodup _ _ _ H) as Hd.
  unfold _M_insert_bucket_begin. apply (wpt_bucket _ _ _ ls {[x.1]}); [done|by apply idx_range|].
  set (n := _M_bucket_count t) in *. destruct (first_prev _ _ _ ls) as [prev|] eqn:Ef.
  - apply first_prev_split in Ef as (A & y & B & -> & HA & Ey & ->).
    apply wpt_tail, (wpt_link _ _ A (y :: B) x nd (λ _, mret tt)); try done. intros t' Hc' Hdom _ Eb Hs.
    apply wpt_ret. apply (HQ t' (A ++ x :: y :: B)); [by rewrite Permutation_middle| |done].
    apply (rep_linked t); [done|done|done|apply Hs|]. rewrite Eb. apply layout_insert; [done|fold n; by rewrite Ey|done].
  - apply (wpt_link _ _ [] ls x nd (λ q, _)); try done. intros t' Hc' Hdom Hkeep Eb Hs.
    apply (first_prev_outside _ _ Before_begin) in Ef. destruct Hlay as (Hlen & Hb & Hg).
    assert (∀ v, 0 <= idx n v < Z.of_nat (length (_M_buckets t'))) as Hi by (intros v; rewrite Eb, Hlen; by apply idx_range).
    assert (∀ bs', length bs' = length (_M_buckets t) →
      (∀ b, 0 <= b < n → nth_bucket bs' b = if b =? idx n x.2 then Some (Some Before_begin)
        else match ls with y :: _ => if b =? idx n y.2 then Some (Some (At x.1)) else nth_bucket (_M_buckets t) b
             | [] => nth_bucket (_M_buckets t) b end) → Q tt (set_buckets bs' t')) as Hend.
    { intros bs' El Hbs. apply (HQ _ (x :: ls)); [done| |done]. apply (rep_linked t _ [] x ls); [done|done|done|apply Hs|].
      apply (layout_front _ n (_M_buckets t)); [done| |done|done|done]. intros y. by apply idx_range. }
    destruct ls as [|y ls]; cbn [first_loc].
    + apply wpt_bind, wpt_ret, wpt_seq_ret, wpt_set_bucket; [done|]. apply wpt_ret, Hend.
      * by rewrite length_insert, Eb.
      * intros b Hr. by rewrite nth_bucket_set, Eb by (done || lia).
    + apply wpt_bind, wpt_get. rewrite (proj1 Hs). fold n.
      destruct (lseg_node _ _ _ _ y Hc') as (ndy & Hy & Evy & Hcy); [right; by left|].
      apply (wpt_node_bucket_index _ _ y.1 ndy); [done..|]. rewrite Evy.
      apply wpt_seq_ret, wpt_set_bucket; [done|]. apply wpt_ret, wpt_seq_ret.
      apply wpt_set_bucket; [cbn; by rewrite length_insert|]. apply wpt_ret. apply (Hend (<[_ := _]> (<[_ := _]> (_M_buckets t')))).
      * by rewrite !length_insert, Eb.
      * intros b Hr. by rewrite !nth_bucket_set, Eb by (rewrite ?length_insert; done || lia).
Qed.

(** * Unique keys *)

Definition unique_keys ls : Prop :=
  ∀ x y, x ∈ ls → y ∈ ls → _M_eq (_M_extract x.2) (_M_extract y.2) = true → x.1 = y.1.

(** Only one node has the key. *)
Lemma unique_found k ls x y :
  unique_keys ls → x ∈ ls → y ∈ ls → _M_eq k (_M_extract x.2) = true → _M_eq k (_M_extract y.2) = true → x.1 = y.1.
Proof. intros Hu Hx Hy Ex Ey. apply Hu; [done..|]. by apply (eq_trans_key _ k); [apply eq_sym_key|]. Qed.

Lemma unique_rest k A x B :
  unique_keys (A ++ x :: B) → NoDup ((A ++ x :: B).*1) → _M_eq k (_M_extract x.2) = true →
  ∀ y, y ∈ A ++ B → _M_eq k (_M_extract y.2) = false.
Proof.
  intros Hu [Hd _]%nodup_middle Ex y Hy. destruct (_M_eq k (_M_extract y.2)) eqn:Ey; [|done]. exfalso. apply Hd.
  rewrite (unique_found k (A ++ x :: B) x y) by
    (done || (rewrite <- Permutation_middle; by left) || (rewrite <- Permutation_middle; by right)).
  by apply list_elem_of_fmap_2.
Qed.

(** How many nodes have the key. *)
Definition counted k ls (r : Z) : Prop :=
  (r = 0 ∧ ∀ y, y ∈ ls → _M_eq k (_M_extract y.2) = false) ∨ (r = 1 ∧ ∃ y, y ∈ ls ∧ _M_eq k (_M_extract y.2) = true).

Lemma counted_app k A B r : counted k A r → (∀ y, y ∈ B → _M_eq k (_M_extract y.2) = false) → counted k (A ++ B) r.
Proof.
  intros [ [-> H]|[-> (y & Hy & Ey)] ] HB.
  - left. split; [done|]. intros y [?|?]%elem_of_app; auto.
  - right. split; [done|]. exists y. split; [apply elem_of_app; by left|done].
Qed.

Lemma bucket_begin_spec b ls X t (Q : option loc → table → Prop) E :
  rep t ls X → 0 <= b < _M_bucket_count t →
  (outside (idx (_M_bucket_count t)) b ls → Q None t) →
  (∀ A x B, ls = A ++ x :: B → outside (idx (_M_bucket_count t)) b A → idx (_M_bucket_count t) x.2 = b → Q (Some x.1) t) →
  wpt (_M_bucket_begin b) Q E t.
Proof.
  intros H Hb HN HS. unfold _M_bucket_begin. apply (wpt_bucket _ _ b ls X); [done|done|].
  destruct (first_prev _ b Before_begin ls) as [prev|] eqn:Ef.
  - apply first_prev_split in Ef as (A & x & B & -> & HA & Ex & ->). apply wpt_bind_ret.
    apply (wpt_position _ _ A (x :: B) (A ++ x :: B) X); [done|done|]. apply wpt_ret. by apply (HS A x B).
  - apply wpt_ret, HN. by apply (first_prev_outside _ _ Before_begin).
Qed.

(** The loop of [count] is at a node of the bucket, and has counted the nodes before it. *)
Definition counting k t ls i (rp : Z * loc) t' : Prop :=
  t' = t ∧ ∃ A x B, ls = A ++ x :: B ∧ rp.2 = x.1 ∧ idx (_M_bucket_count t) x.2 = _M_h1 k mod _M_bucket_count t ∧
    counted k A rp.1 ∧ i = Z.of_nat (length B).

Lemma counting_step k t A x B X r E :
  rep t (A ++ x :: B) X → idx (_M_bucket_count t) x.2 = _M_h1 k mod _M_bucket_count t → counted k (A ++ [x]) r →
  wpt (nxt ← next_in_bucket x.1 (_M_h1 k mod _M_bucket_count t);
       match nxt with None => mret (inr r) | Some q => mret (inl (r, q)) end)
    (λ s t', match s with
      | inl rp => ∃ i', i' < Z.of_nat (length B) ∧ counting k t (A ++ x :: B) i' rp t'
      | inr r' => t' = t ∧ counted k (A ++ x :: B) r' end) E t.
Proof.
  intros H Hx Hr. destruct (rep_layout _ _ _ H) as (_ & _ & Hg). set (n := _M_bucket_count t) in *.
  apply (wpt_next_in_bucket _ _ A x B (A ++ x :: B) X); [done|done|]. fold n.
  assert (outside (idx n) (_M_h1 k mod n) B → counted k (A ++ x :: B) r) as Hend.
  { intros Ho. rewrite cons_middle, app_assoc. apply counted_app; [done|]. by apply (not_equal_outside n). }
  rewrite <- Hx in Hend. destruct B as [|z B]; [apply wpt_ret; split; [done|]; apply Hend, outside_nil|].
  destruct (Z.eqb_spec (idx n z.2) (_M_h1 k mod n)) as [Ez|Nz]; apply wpt_ret.
  - exists (Z.of_nat (length B)). split; [cbn; lia|]. split; [done|]. exists (A ++ [x]), z, B. by rewrite <- app_assoc.
  - split; [done|]. apply Hend, (grouped_after _ A); [done|]. by rewrite Hx.
Qed.

(** A node with the key is the first and the only one. *)
Lemma counted_here k A x B r :
  unique_keys (A ++ x :: B) → NoDup ((A ++ x :: B).*1) → counted k A r → _M_eq k (_M_extract x.2) = true →
  r = 0 ∧ counted k (A ++ [x]) 1.
Proof.
  intros Hu Hd Hr Ek. pose proof (unique_rest k A x B Hu Hd Ek) as Hno. split.
  - destruct Hr as [ [-> _]|[_ (y & Hy & Ey)] ]; [done|]. rewrite Hno in Ey by (apply elem_of_app; by left). done.
  - right. split; [done|]. exists x. split; [apply elem_of_app; right; by left|done].
Qed.

Lemma count_spec k ls X t E :
  rep t ls X → unique_keys ls → wpt (count k) (λ r t', t' = t ∧ counted k ls r) E t.
Proof.
  intros H Hu. pose proof (rep_buckets _ _ _ H) as Hn.
  unfold count. apply wpt_get, wpt_bucket_index; [done|].
  apply wpt_bind, (bucket_begin_spec _ ls X); [done|by apply Z.mod_pos_bound|..].
  { intros Ho. apply wpt_ret. split; [done|]. left. split; [done|]. by apply (not_equal_outside (_M_bucket_count t)). }
  intros A x B Els HA Hx.
  apply (wpt_while (counting k t ls) _ _ _ (Z.of_nat (length B))).
  - clear A x B Els HA Hx. intros i [r p] t' (-> & A & x & B & -> & Ep & Hx & Hr & ->). cbn in Ep, Hr. subst p. split; [lia|].
    destruct (lseg_node _ _ _ _ x (rep_chain _ _ _ H)) as (nd & Hnd & Ev & Hc); [apply elem_of_app; right; by left|].
    apply (wpt_equals _ _ k x.1 nd); [done|done|]. rewrite Ev. destruct (_M_eq k (_M_extract x.2)) eqn:Ek; cbn [negb andb].
    + destruct (counted_here k A x B r) as [-> H1]; [done|apply (rep_nodup _ _ _ H)|done|done|].
      by apply (counting_step k t A x B X).
    + destruct (Z.eqb_spec r 0) as [->|Hr0]; cbn [negb].
      { apply (counting_step k t A x B X); [done|done|]. apply counted_app; [done|]. by intros y ->%list_elem_of_singleton. }
      apply wpt_ret. split; [done|]. destruct Hr as [ [-> _]|[-> (y & Hy & Ey)] ]; [done|]. right. split; [done|]. exists y.
      split; [apply elem_of_app; by left|done].
  - split; [done|]. exists A, x, B. split_and!; [done..| |done]. left. split; [done|]. by apply (not_equal_outside (_M_bucket_count t)).
  - pose proof (rep_size _ _ _ H) as Hs. rewrite Els, length_app in Hs. cbn in Hs. lia.
Qed.

(** The nodes from [l] up to the next one are those with the key: [l] alone. *)
Lemma equal_range_spec k ls X t E :
  rep t ls X → unique_keys ls →
  wpt (equal_range k) (λ r t', t' = t ∧ match r with
    | (Some l, p) => ∃ A v B, ls = A ++ (l, v) :: B ∧ _M_eq k (_M_extract v) = true ∧ p = first_loc B None
    | (None, p) => p = None ∧ found k ls None end) E t.
Proof.
  intros H Hu. pose proof (rep_buckets _ _ _ H) as Hn. unfold equal_range. apply wpt_get, wpt_bucket_index; [done|].
  apply wpt_bind. eapply wpt_mono; [by apply (find_node_spec k ls X)| |done]. intros [l|] t' [-> Hf]; [|by apply wpt_ret].
  destruct Hf as (v & (A & B & ->)%list_elem_of_split & Ek).
  change (nxt_of (At l)) with (nxt_of (V := V) (At (l, v).1)). rewrite <- (base_after_snoc Before_begin A (l, v)).
  apply (wpt_position _ _ (A ++ [(l, v)]) B (A ++ (l, v) :: B) X); [done|by rewrite <- app_assoc|]. apply wpt_bind.
  eapply (wpt_while (λ i p t', t' = t ∧ p = first_loc B None ∧ i = 0) _ _ _ 0); [|done|lia].
  intros i p t' (-> & -> & ->). split; [lia|].
  assert (∀ s, s = first_loc B None → t = t ∧ ∃ A0 v0 B0, A ++ (l, v) :: B = A0 ++ (l, v0) :: B0 ∧ _M_eq k (_M_extract v0) = true ∧ s = first_loc B0 None)
    as Hend by (intros s ->; split; [done|by exists A, v, B]).
  destruct B as [|y B]; cbn [first_loc]; [by apply wpt_ret, wpt_ret, Hend|].
  destruct (lseg_node _ _ _ _ y (rep_chain _ _ _ H)) as (nd & Hnd & Ev & Hc); [apply elem_of_app; right; right; by left|].
  apply (wpt_node_bucket_index _ _ y.1 nd); [done..|]. destruct (_ =? _); [|by apply wpt_ret, wpt_ret, Hend].
  apply (wpt_equals _ _ k y.1 nd); [done|done|]. rewrite Ev.
  rewrite (unique_rest k A (l, v) (y :: B)); [by apply wpt_ret, wpt_ret, Hend|done|apply (rep_nodup _ _ _ H)|done|].
  apply elem_of_app. right. by left.
Qed.
End Theory.
