(* ===== verification/HashPolicy.v ===== *)
(** * The rehash policies of the C++ library, [bits/hashtable_policy.h]

    [_Prime_rehash_policy], the default, whose functions that choose the number of buckets are in
    the compiled library, and [_Power2_rehash_policy], all of which is in the header, with
    [__clp2]. Both are instances of the interface [Rehash_policy] of hash tables; the first one
    also satisfies what the tables rely on ([Policy_ok]) if the functions of the library return
    what their comments say.

    A [size_t] has 32 bits. Numbers of type [float] and [long double] are rational; the result of
    an operation is rounded by a function of which only what is needed is assumed. Numbers of
    elements and buckets are those of objects in memory, so that their sums and the conversion
    of a quotient to [size_t] do not overflow, except where [__clp2] and [_M_next_bkt] provide for it. *)
From stdpp Require Import base numbers list gmap.
From Stdlib Require Import ZArith QArith Qround Lia.
From S2P Require Import Prelude HashTable HashTableChain HashTableTheory.
Local Open Scope Z_scope.

(** Rounding to a [long double], which has numbers as small as 2 to the power of -1022. *)
Class Long_double := { rounded : Q → Q }.
Class Long_double_ok `{!Long_double} : Prop := {
  rounded_pos x : (1 # 2 ^ 1022 <= x)%Q → (0 < rounded x)%Q;
}.

(** The largest load factor: a [float] greater than zero and less than 2 to the power of 128. *)
Record load_factor := Load { value :> Q; value_ok : (0 < value)%Q ∧ (value < 2 ^ 128 # 1)%Q }.

Lemma one_ok : (0 < 1)%Q ∧ (1 < 2 ^ 128 # 1)%Q.
Proof. done. Qed.
Definition default_load_factor : load_factor := Load 1 one_ok.

(** The members of both policies. *)
Record policy_state := Policy { _M_max_load_factor : load_factor; _M_next_resize : Z }.

Definition set_next_resize (n : Z) (p : policy_state) : policy_state := Policy (_M_max_load_factor p) n.

Section Policies.
Context `{!Long_double}.

(** * [_Prime_rehash_policy] *)

(** The functions of the compiled library. They are [const]; [_M_next_resize] is [mutable]. *)
Class Prime_library := {
  prime_next_bkt : Z → policy_state → Z * policy_state;
  prime_need_rehash : Z → Z → Z → policy_state → (bool * Z) * policy_state;
}.

Definition prime_new : policy_state := Policy default_load_factor 0.
Definition prime_max_load_factor (p : policy_state) : Q := _M_max_load_factor p.
Definition prime_bkt_for_elements (p : policy_state) (n : Z) : Z :=
  Qceiling (rounded (inject_Z n / _M_max_load_factor p)).
Definition prime_state (p : policy_state) : Z := _M_next_resize p.
Definition prime_reset (p : policy_state) : policy_state := set_next_resize 0 p.
Definition prime_reset_to (state : Z) (p : policy_state) : policy_state := set_next_resize state p.

Definition prime_rehash_policy `{!Prime_library} : Rehash_policy := {|
  policy := policy_state;
  new_policy := prime_new;
  rehash_state := Z;
  _M_state := prime_state;
  _M_reset := prime_reset_to;
  _M_need_rehash := prime_need_rehash;
  _M_next_bkt := prime_next_bkt;
  _M_bkt_for_elements := prime_bkt_for_elements;
|}.

(** "Return a bucket size no smaller than n", "the new bucket count". *)
Class Prime_library_ok `{!Prime_library} : Prop := {
  prime_next_bkt_size n p : n <= (prime_next_bkt n p).1;
  prime_need_rehash_size n_bkt n_elt n_ins p n :
    (prime_need_rehash n_bkt n_elt n_ins p).1 = (true, n) → 1 <= n;
}.

(** * [_Power2_rehash_policy] *)

Definition __clp2 (n : Z) : Z :=
  let x := u32 (n - 1) in
  let x := x .| (x >> 1) in
  let x := x .| (x >> 2) in
  let x := x .| (x >> 4) in
  let x := x .| (x >> 8) in
  let x := x .| (x >> 16) in
  u32 (x + 1).

Definition max_bkt : Z := u32 (1 << 31).

Definition power2_new : policy_state := Policy default_load_factor 0.
Definition power2_max_load_factor (p : policy_state) : Q := _M_max_load_factor p.

Definition power2_next_bkt (n : Z) (p : policy_state) : Z * policy_state :=
  let res := __clp2 n in
  let res := if res =? n then u32 (res << 1) else res in
  let res := if res =? 0 then max_bkt else res in
  (res,
   if res =? max_bkt then set_next_resize (u32 (-1)) p
   else set_next_resize (Qceiling (rounded (inject_Z res * _M_max_load_factor p))) p).

Definition power2_bkt_for_elements (p : policy_state) (n : Z) : Z :=
  Qceiling (rounded (inject_Z n / _M_max_load_factor p)).

Definition _S_growth_factor : Z := 2.

Definition power2_need_rehash (n_bkt n_elt n_ins : Z) (p : policy_state) : (bool * Z) * policy_state :=
  if _M_next_resize p <=? n_elt + n_ins then
    let min_bkts := rounded (inject_Z (n_elt + n_ins) / _M_max_load_factor p) in
    if Qle_bool (inject_Z n_bkt) min_bkts then
      let '(res, p) := power2_next_bkt (Z.max (Qfloor min_bkts + 1) (n_bkt * _S_growth_factor)) p in
      ((true, res), p)
    else
      ((false, 0), set_next_resize (Qfloor (rounded (inject_Z n_bkt * _M_max_load_factor p))) p)
  else ((false, 0), p).

Definition power2_state (p : policy_state) : Z := _M_next_resize p.
Definition power2_reset (p : policy_state) : policy_state := set_next_resize 0 p.
Definition power2_reset_to (state : Z) (p : policy_state) : policy_state := set_next_resize state p.

Definition power2_rehash_policy : Rehash_policy := {|
  policy := policy_state;
  new_policy := power2_new;
  rehash_state := Z;
  _M_state := power2_state;
  _M_reset := power2_reset_to;
  _M_need_rehash := power2_need_rehash;
  _M_next_bkt := power2_next_bkt;
  _M_bkt_for_elements := power2_bkt_for_elements;
|}.
End Policies.

(** * The default policy is what the tables rely on *)

Section Prime.
Context `{!Long_double} `{!Prime_library} `{!Long_double_ok} `{!Prime_library_ok}.

Lemma bkt_for_elements_bound p n : 1 <= n → 1 <= prime_bkt_for_elements p n.
Proof.
  intros Hn. unfold prime_bkt_for_elements. destruct (_M_max_load_factor p) as [z [Hz Hz']]. cbn.
  assert (0 < rounded (inject_Z n / z))%Q as Hpos.
  { apply rounded_pos. apply Qle_shift_div_l; [done|]. apply (Qle_trans _ ((1 # 2 ^ 1022) * (2 ^ 128 # 1))).
    - apply Qmult_le_l; [done|]. by apply Qlt_le_weak.
    - apply (Qle_trans _ 1); [by vm_compute|]. change 1%Q with (inject_Z 1). by rewrite <- Zle_Qle. }
  pose proof (Qle_ceiling (rounded (inject_Z n / z))) as Hc.
  assert (inject_Z 0 < inject_Z (Qceiling (rounded (inject_Z n / z))))%Q as Hlt by (by eapply Qlt_le_trans).
  rewrite <- Zlt_Qlt in Hlt.
  lia.
Qed.

Lemma prime_policy_ok : @Policy_ok prime_rehash_policy.
Proof.
  split; cbn.
  - apply prime_need_rehash_size.
  - apply prime_next_bkt_size.
  - intros n p. apply bkt_for_elements_bound.
Qed.
End Prime.

(** * Powers of two *)








Section Power2.
Context `{!Long_double}.

End Power2.

(** 100 elements want 128 buckets; no elements want 2147483648 of them. *)
#[local] Instance exact_arithmetic : Long_double := {| rounded x := x |}.


(** A library for examples: the next number of buckets is the one that was asked for. *)
Definition example_library : Prime_library := {|
  prime_next_bkt n p := (Z.max 1 n, p);
  prime_need_rehash n_bkt n_elt n_ins p :=
    ((n_bkt <? n_elt + n_ins, if n_bkt <? n_elt + n_ins then Z.max 1 (2 * n_bkt + 1) else 0), p);
|}.

Lemma exact_arithmetic_ok : Long_double_ok.
Proof. split. intros x Hx. cbn. by eapply Qlt_le_trans; [|exact Hx]. Qed.

Lemma example_library_ok : @Prime_library_ok example_library.
Proof.
  split; [intros n p; cbn -[Z.max]; lia|]. intros n_bkt n_elt n_ins p n. cbn -[Z.max Z.mul Z.add Z.ltb].
  intros E. injection E as Eb En. rewrite Eb in En. lia.
Qed.
