(* ===== verification/HashTableErase.v ===== *)
(** * Erasing from hash tables

    [_M_erase] unlinks a node and repairs the pointers of the buckets it was
    the first or the last node of; [erase], [erase_key] and [clear] are made of it. *)
From stdpp Require Import base numbers list gmap.
From Stdlib Require Import ZArith Lia.
From S2P Require Import Prelude HashTable HashTableChain HashTableTheory.

Section Erase.
Context {K V : Type} {hashing : Hashing K V} {rehashing : Rehash_policy} {heap : Heap}.
Context {hashing_ok : Hashing_ok}.
Local Abbreviation table := (table (V := V)).
Local Abbreviation entry := (loc * V)%type.
Implicit Types (t : table) (m : gmap loc (node V)) (A B C L R ls : list entry) (p q : option loc).

Lemma wpt_bucket_is {Y} (Q : Y → table → Prop) E b (p : option node_base) (k : option node_base → T Y) t :
  nth_bucket (_M_buckets t) b = Some p → wpt (k p) Q E t → wpt (x ← bucket b; k x) Q E t.
Proof. intros Hb Hk. unfold bucket, wpt, mbind, T_bind, get, defined in *. cbn. by rewrite Hb. Qed.

(** * Buckets *)

(** A node is the first of its bucket if the pointer before it is the one in the array. *)
Lemma bucket_prev (i : V → Z) L x R :
  NoDup (L.*1) →
  bool_decide (Some (base_after Before_begin L) = first_prev i (i x.2) Before_begin (L ++ x :: R)) =
  bool_decide (first_prev i (i x.2) Before_begin L = None).
Proof.
  intros Hd. apply bool_decide_ext. rewrite first_prev_app. cbn. rewrite Z.eqb_refl.
  destruct (first_prev i (i x.2) Before_begin L) as [r|] eqn:Ef; [|done]. split; [|done]. intros [= E].
  apply first_prev_split in Ef as (A & y & B & -> & _ & _ & ->). by apply (base_after_proper Before_begin A y B) in Hd.
Qed.

(** What the array is after the node [x] between [L] and [R] is removed. *)
Definition removed_from (i : V → Z) bs L (x : entry) R bs' : Prop :=
  length bs' = length bs ∧
  ∀ b, 0 <= b < Z.of_nat (length bs) → nth_bucket bs' b =
    match R with
    | y :: _ =>
        if i y.2 =? i x.2 then nth_bucket bs b
        else if b =? i y.2 then Some (Some (base_after Before_begin L))
        else if (b =? i x.2) && bool_decide (first_prev i b Before_begin L = None) then Some None
        else nth_bucket bs b
    | [] => if (b =? i x.2) && bool_decide (first_prev i b Before_begin L = None) then Some None else nth_bucket bs b
    end.

(** The bucket of the node after [x]. *)
Definition next_index n R : Z := match R with y :: _ => idx n y.2 | [] => 0 end.

Lemma remove_bucket_begin_spec t L x R E :
  let n := _M_bucket_count t in
  rep t (L ++ x :: R) ∅ → first_prev (idx n) (idx n x.2) Before_begin L = None →
  wpt (_M_remove_bucket_begin (idx n x.2) (first_loc R None) (next_index n R))
    (λ _ t1, nodes t1 = nodes t ∧ (_M_before_begin t1 = _M_before_begin t ∨ L = []) ∧ same_counts t t1 ∧
      removed_from (idx n) (_M_buckets t) L x R (_M_buckets t1)) E t.
Proof.
  intros n H HL. pose proof (rep_buckets _ _ _ H) as Hn. fold n in Hn. pose proof (rep_layout _ _ _ H) as (Hlen & Hb & Hg).
  fold n in Hlen, Hb, Hg. assert (nth_bucket (_M_buckets t) (idx n x.2) = Some (Some (base_after Before_begin L))) as Ex.
  { rewrite Hb by (by apply idx_range). by rewrite first_prev_here by (by try apply (first_prev_outside _ _ Before_begin)). }
  assert (∀ bs' t0, length bs' = length (_M_buckets t) → nodes t0 = nodes t → _M_before_begin t0 = _M_before_begin t →
    same_counts t t0 → _M_buckets t0 = bs' → nth_bucket bs' (idx n x.2) = Some (Some (base_after Before_begin L)) →
    removed_from (idx n) (_M_buckets t) L x R (<[Z.to_nat (idx n x.2) := None]> bs') →
    wpt (b ← bucket (idx n x.2);
         (if bool_decide (Some Before_begin = b) then set_ (set_before_begin (first_loc R None)) else mret tt);;
         set_bucket (idx n x.2) None)
      (λ _ t1, nodes t1 = nodes t ∧ (_M_before_begin t1 = _M_before_begin t ∨ L = []) ∧ same_counts t t1 ∧
        removed_from (idx n) (_M_buckets t) L x R (_M_buckets t1)) E t0) as Hend.
  { intros bs' t0 El En Eb0 Hs <- Ebs Hr. apply (wpt_bucket_is _ _ _ (Some (base_after Before_begin L))); [done|].
    assert (0 <= idx n x.2 < Z.of_nat (length (_M_buckets t0))) by (rewrite El, Hlen; by apply idx_range).
    case_bool_decide as Eb; (apply wpt_set || (apply wpt_bind, wpt_ret)); apply wpt_seq_ret, wpt_set_bucket; try done;
      apply wpt_ret; split_and!; try done; [right|by left].
    destruct (decide (L = [])) as [|Hne]; [done|]. destruct (base_after_in Before_begin L Hne) as (z & _ & Ez).
    rewrite Ez in Eb. done. }
  unfold _M_remove_bucket_begin, removed_from in *. destruct R as [|y R]; cbn [first_loc next_index].
  - apply wpt_bind, wpt_ret. apply (Hend (_M_buckets t)); try done. rewrite length_insert. split; [done|].
    intros b Hr. rewrite nth_bucket_set by (rewrite ?Hlen; by (apply idx_range || lia)).
    destruct (Z.eqb_spec b (idx n x.2)) as [->|]; [|done]. rewrite bool_decide_eq_true_2 by done. done.
  - destruct (Z.eqb_spec (idx n y.2) (idx n x.2)) as [Eyx|Nyx]; cbn [negb].
    { apply wpt_ret. split_and!; try done. by left. }
    apply wpt_bind. apply (wpt_bucket_is _ _ _ (Some (base_after Before_begin L))); [done|].
    apply wpt_seq_ret, wpt_set_bucket; [rewrite Hlen; by apply idx_range|]. apply wpt_ret.
    assert (0 <= idx n x.2 < n ∧ 0 <= idx n y.2 < n) as [Rx Ry] by (split; by apply idx_range).
    eapply Hend; [|done|done|done|reflexivity|..]; cbn [_M_buckets set_buckets].
    + apply length_insert.
    + rewrite nth_bucket_set by lia. destruct (Z.eqb_spec (idx n x.2) (idx n y.2)); [congruence|done].
    + rewrite !length_insert. split; [done|]. intros b Hr. rewrite !nth_bucket_set by (rewrite ?length_insert; lia).
      destruct (Z.eqb_spec b (idx n x.2)) as [->|].
      * rewrite bool_decide_eq_true_2 by done. by destruct (Z.eqb_spec (idx n x.2) (idx n y.2)); [congruence|].
      * done.
Qed.

(** The part of [_M_erase] that repairs the buckets. *)
Lemma erase_buckets_spec t L x R E :
  let n := _M_bucket_count t in
  rep t (L ++ x :: R) ∅ →
  wpt (if bool_decide (Some (base_after Before_begin L) = first_prev (idx n) (idx n x.2) Before_begin (L ++ x :: R)) then
         next_bkt ← match first_loc R None with Some q => node_bucket_index q n | None => mret 0 end;
         _M_remove_bucket_begin (idx n x.2) (first_loc R None) next_bkt
       else
         match first_loc R None with
         | Some q =>
             next_bkt ← node_bucket_index q n;
             if negb (next_bkt =? idx n x.2) then set_bucket next_bkt (Some (base_after Before_begin L)) else mret tt
         | None => mret tt
         end)
    (λ _ t1, nodes t1 = nodes t ∧ (_M_before_begin t1 = _M_before_begin t ∨ L = []) ∧ same_counts t t1 ∧
      removed_from (idx n) (_M_buckets t) L x R (_M_buckets t1)) E t.
Proof.
  intros n H. pose proof (rep_buckets _ _ _ H) as Hn. fold n in Hn. pose proof (rep_layout _ _ _ H) as (Hlen & _ & _).
  pose proof (rep_nodup _ _ _ H) as Hd. rewrite fmap_app in Hd. apply NoDup_app in Hd as (Hd & _ & _).
  assert (∀ y R', R = y :: R' → ∃ nd, nodes t !! y.1 = Some nd ∧ _M_v nd = y.2 ∧ code_ok nd) as Hy.
  { intros y R' ->. apply (lseg_node _ _ _ _ y (rep_chain _ _ _ H)). apply elem_of_app. right. right. by left. }
  rewrite bucket_prev by done. case_bool_decide as Ho.
  - destruct R as [|y R]; cbn [first_loc].
    + apply wpt_bind, wpt_ret. by apply (remove_bucket_begin_spec t L x []).
    + destruct (Hy y R) as (nd & Hnd & Ev & Hc); [done|]. apply (wpt_node_bucket_index _ _ y.1 nd); [done..|].
      rewrite Ev. by apply (remove_bucket_begin_spec t L x (y :: R)).
  - assert (∀ b, (b =? idx n x.2) && bool_decide (first_prev (idx n) b Before_begin L = None) = false) as Hf.
    { intros b. destruct (Z.eqb_spec b (idx n x.2)) as [->|]; [|done]. by rewrite bool_decide_eq_false_2. }
    destruct R as [|y R]; cbn [first_loc].
    + apply wpt_ret. split_and!; try done; [by left|]. split; [done|]. intros b Hb. by rewrite Hf.
    + destruct (Hy y R) as (nd & Hnd & Ev & Hc); [done|]. apply (wpt_node_bucket_index _ _ y.1 nd); [done..|].
      rewrite Ev. unfold removed_from. destruct (Z.eqb_spec (idx n y.2) (idx n x.2)); cbn [negb].
      { apply wpt_ret. split_and!; try done. by left. }
      apply wpt_seq_ret, wpt_set_bucket; [rewrite Hlen; by apply idx_range|]. apply wpt_ret.
      split_and!; try done; [by left|apply length_insert|]. intros b Hb. cbn.
      rewrite nth_bucket_set by (rewrite ?Hlen; by (apply idx_range || lia)). by rewrite Hf.
Qed.

(** * The node *)

Lemma wpt_deallocate {Y} (Q : Y → table → Prop) E l nd (k : T Y) t :
  nodes t !! l = Some nd → wpt k Q E (set_nodes (delete l (nodes t)) t) → wpt (_M_deallocate_node l;; k) Q E t.
Proof. intros H Hk. unfold wpt, _M_deallocate_node, node_at, mbind, T_bind, get, defined, set_ in *. cbn. by rewrite H. Qed.

Lemma erase_node_spec t L x R E :
  rep t (L ++ x :: R) ∅ →
  wpt (_M_erase (idx (_M_bucket_count t) x.2) (base_after Before_begin L) x.1)
    (λ r t', r = first_loc R None ∧ rep t' (L ++ R) ∅ ∧ _M_bucket_count t' = _M_bucket_count t ∧
      _M_element_count t' = _M_element_count t - 1) E t.
Proof.
  intros H. pose proof (rep_buckets _ _ _ H) as Hn. pose proof (rep_layout _ _ _ H) as Hlay.
  pose proof (rep_chain _ _ _ H) as (r & HcL & HcR)%lseg_app. destruct HcR as (-> & nd & Hx & Ev & Hc & HcR).
  pose proof (lseg_first _ _ _ _ HcR) as Enxt. rewrite Enxt in HcR.
  pose proof (rep_nodup _ _ _ H) as [HxLR Hd]%nodup_middle. rewrite fmap_app in HxLR, Hd.
  apply not_elem_of_app in HxLR as [HxL HxR]. pose proof Hd as (HdL & Hdis & HdR)%NoDup_app.
  unfold _M_erase. apply wpt_get. apply (wpt_bucket _ _ _ (L ++ x :: R) ∅); [done|by apply idx_range|].
  apply (wpt_nxt_at _ _ x.1 nd); [done|]. rewrite Enxt. apply wpt_bind. eapply wpt_mono; [by apply erase_buckets_spec| |done].
  intros _ t1 (En1 & Eb1 & [Ec1 Ee1] & Hr). apply (wpt_nxt_at _ _ x.1 nd); [by rewrite En1|]. rewrite Enxt.
  assert (∃ r, lseg (nodes t1) (_M_before_begin t1) L r) as [r' HL1].
  { rewrite En1. destruct Eb1 as [->| ->]; [by eexists|by exists (_M_before_begin t1)]. }
  apply (wpt_set_nxt _ _ L r' (first_loc R None) _ t1); [done|done|]. intros t2 HL2 Hdom Hkeep Ebs Ec2 Ee2.
  rewrite En1 in Hdom, Hkeep. apply (wpt_nxt_at _ _ x.1 nd); [by rewrite Hkeep|]. rewrite Enxt.
  apply (wpt_deallocate _ _ x.1 nd); [by rewrite Hkeep|]. apply wpt_set, wpt_ret. split; [done|].
  split_and!; [|cbn; congruence|cbn; lia]. split; cbn.
  - apply lseg_app. exists (first_loc R None). split; [by apply lseg_delete|]. apply lseg_delete; [done|].
    apply (lseg_agree (nodes t)); [done|]. intros l Hl. apply Hkeep. intros Hl'. by apply (Hdis l).
  - by rewrite fmap_app.
  - intros l. rewrite dom_delete_L, Hdom, elem_of_difference, elem_of_singleton, (rep_dom _ _ _ H), elem_of_middle, fmap_app, elem_of_app.
    pose proof (not_elem_of_empty (C := gset loc) l). destruct (decide (l = x.1)) as [->|]; tauto.
  - intros l ?%elem_of_empty. done.
  - by rewrite Ec2, Ec1.
  - rewrite Ec2, Ec1, Ebs. destruct Hr as [El Hb]. apply (layout_remove _ _ (_M_buckets t) L x R); [done|done|].
    intros b Hr. rewrite Hb by (by rewrite (proj1 Hlay)). done.
Qed.

Lemma get_previous_node_spec t L x R X E :
  rep t (L ++ x :: R) X →
  wpt (_M_get_previous_node (idx (_M_bucket_count t) x.2) x.1) (λ r t', t' = t ∧ r = base_after Before_begin L) E t.
Proof.
  intros H. pose proof (rep_buckets _ _ _ H) as Hn. set (n := _M_bucket_count t) in *.
  pose proof (rep_nodup _ _ _ H) as [HxLR _]%nodup_middle. rewrite fmap_app in HxLR. apply not_elem_of_app in HxLR as [HxL _].
  unfold _M_get_previous_node. apply (wpt_bucket _ _ _ (L ++ x :: R) X); [done|by apply idx_range|]. fold n.
  assert (∃ A C, L = A ++ C ∧ first_prev (idx n) (idx n x.2) Before_begin (L ++ x :: R) = Some (base_after Before_begin A))
    as (A & C & EL & ->).
  { rewrite first_prev_app. destruct (first_prev (idx n) (idx n x.2) Before_begin L) as [r|] eqn:Ef.
    - apply first_prev_split in Ef as (A & y & B & -> & _ & _ & ->). by exists A, (y :: B).
    - exists L, []. cbn. by rewrite app_nil_r, Z.eqb_refl. }
  apply (wpt_defined _ (base_after Before_begin A)); [done|].
  apply (wpt_while (λ i prev t', t' = t ∧ ∃ A C, L = A ++ C ∧ prev = base_after Before_begin A ∧ i = Z.of_nat (length C))
    _ _ _ (Z.of_nat (length C))).
  - clear A C EL. intros i prev t' (-> & A & C & EL & -> & ->). split; [lia|].
    apply (wpt_position _ _ A (C ++ x :: R) (L ++ x :: R) X); [done|by rewrite EL, <- app_assoc|].
    destruct C as [|z C]; cbn [app first_loc].
    { rewrite bool_decide_eq_true_2 by done. apply wpt_ret. by rewrite EL, app_nil_r. }
    rewrite bool_decide_eq_false_2.
    2:{ intros [= E1]. apply HxL. rewrite EL, fmap_app. apply elem_of_app. right. rewrite <- E1. by left. }
    apply (wpt_defined _ z.1); [done|]. apply wpt_ret. exists (Z.of_nat (length C)). split; [cbn; lia|]. split; [done|].
    exists (A ++ [z]), C. rewrite base_after_snoc, <- app_assoc. done.
  - split; [done|]. by exists A, C.
  - pose proof (rep_size _ _ _ H) as Hs. rewrite EL, !length_app in Hs. lia.
Qed.

(** What erasing leaves: the table without the node. *)
Definition without t l v ls t' : Prop :=
  ∃ ls', rep t' ls' ∅ ∧ (l, v) :: ls' ≡ₚ ls ∧ _M_element_count t' = _M_element_count t - 1.

Lemma erase_spec t ls l v E :
  rep t ls ∅ → (l, v) ∈ ls → wpt (erase l) (λ r t', without t l v ls t') E t.
Proof.
  intros H (L & R & ->)%list_elem_of_split. unfold erase. apply wpt_get.
  destruct (lseg_node _ _ _ _ (l, v) (rep_chain _ _ _ H)) as (nd & Hn & Ev & Hc); [apply elem_of_app; right; by left|].
  apply (wpt_node_bucket_index _ _ l nd); [done|done|apply (rep_buckets _ _ _ H)|]. rewrite Ev.
  apply wpt_bind. eapply wpt_mono; [apply (get_previous_node_spec t L (l, v) R ∅ E H)| |done]. intros r t' [-> ->].
  eapply wpt_mono; [apply (erase_node_spec t L (l, v) R E H)| |done]. intros r t' (_ & H' & _ & He).
  exists (L ++ R). split_and!; [done|by rewrite Permutation_middle|done].
Qed.

Lemma erase_key_spec t ls k E :
  rep t ls ∅ →
  wpt (erase_key k) (λ r t',
    (r = 0 ∧ t' = t ∧ ∀ y, y ∈ ls → _M_eq k (_M_extract y.2) = false) ∨
    (r = 1 ∧ ∃ l v, _M_eq k (_M_extract v) = true ∧ without t l v ls t')) E t.
Proof.
  intros H. unfold erase_key. apply wpt_get, wpt_bucket_index; [apply (rep_buckets _ _ _ H)|].
  apply wpt_bind. eapply wpt_mono; [by apply (find_before_node_spec k ls ∅)| |done].
  intros [prev|] t' [-> Hf]; [|apply wpt_ret; by left]. destruct Hf as (A & [l v] & B & -> & -> & Ek & _).
  apply (wpt_position _ _ A ((l, v) :: B) (A ++ (l, v) :: B) ∅); [done|done|]. apply (wpt_defined _ l); [done|].
  unfold _M_hash_code_of. rewrite (idx_key _ _ _ Ek). apply wpt_bind. eapply wpt_mono; [apply (erase_node_spec t A (l, v) B E H)| |done].
  intros r t' (_ & H' & _ & He). apply wpt_ret. right. split; [done|]. exists l, v. split; [done|].
  exists (A ++ B). split_and!; [done|by rewrite Permutation_middle|done].
Qed.

(** * Clearing *)

Lemma deallocate_nodes_spec t ls p (Q : unit → table → Prop) E :
  lseg (nodes t) p ls None → NoDup (ls.*1) → (∀ l, l ∈ dom (nodes t) ↔ l ∈ ls.*1) → Q tt (set_nodes ∅ t) →
  wpt (_M_deallocate_nodes p) Q E t.
Proof.
  intros Hc Hd Hdom HQ. apply (wpt_while (λ i p t', ∃ ls, lseg (nodes t') p ls None ∧ NoDup (ls.*1) ∧
    (∀ l, l ∈ dom (nodes t') ↔ l ∈ ls.*1) ∧ Q tt (set_nodes ∅ t') ∧ i = Z.of_nat (length ls)) _ _ _ (Z.of_nat (length ls))).
  - clear. intros i p t (ls & Hc & Hd & Hdom & HQ & ->). split; [lia|]. destruct ls as [|x ls].
    { cbn in Hc. subst p. apply wpt_ret. assert (nodes t = ∅) as En.
      { apply dom_empty_inv_L, set_eq. intros l. rewrite Hdom. cbn. rewrite elem_of_nil. pose proof (not_elem_of_empty (C := gset loc) l). tauto. }
      destruct t. cbn in En. by subst. }
    destruct Hc as (-> & nd & Hn & Ev & Hc & Hrest). apply (wpt_nxt_at _ _ x.1 nd); [done|].
    apply (wpt_deallocate _ _ x.1 nd); [done|]. apply wpt_ret. exists (Z.of_nat (length ls)). split; [cbn; lia|].
    apply NoDup_cons in Hd as [Hx Hd]. exists ls. split_and!; [by apply lseg_delete|done| |done|done].
    intros l. cbn. rewrite dom_delete_L, elem_of_difference, elem_of_singleton, Hdom. cbn. rewrite elem_of_cons.
    destruct (decide (l = x.1)) as [->|]; tauto.
  - exists ls. done.
  - rewrite <- size_dom. replace (dom (nodes t)) with (list_to_set (C := gset loc) ls.*1).
    2:{ apply set_eq. intros l. by rewrite elem_of_list_to_set, Hdom. }
    rewrite size_list_to_set, length_fmap by done. lia.
Qed.

Lemma clear_spec t ls E :
  rep t ls ∅ →
  wpt clear (λ _ t', rep t' [] ∅ ∧ _M_bucket_count t' = _M_bucket_count t ∧ _M_element_count t' = 0) E t.
Proof.
  intros H. unfold clear, _M_begin. apply wpt_get, wpt_bind.
  apply (deallocate_nodes_spec t ls); [apply (rep_chain _ _ _ H)|apply (rep_nodup _ _ _ H)| |].
  { intros l. rewrite (rep_dom _ _ _ H). pose proof (not_elem_of_empty (C := gset loc) l). tauto. }
  apply wpt_get, wpt_get. cbn [_M_buckets set_nodes _M_bucket_count]. pose proof (rep_layout _ _ _ H) as (Hlen & _ & _).
  destruct (Z.ltb_spec (Z.of_nat (length (_M_buckets t))) (_M_bucket_count t)); [lia|].
  apply wpt_set, wpt_set, wpt_seq_ret, wpt_set, wpt_ret. split_and!; [|done|done].
  split; cbn; try done.
  - apply NoDup_nil_2.
  - intros l. rewrite dom_empty_L, elem_of_nil. pose proof (not_elem_of_empty (C := gset loc) l). tauto.
  - apply (rep_buckets _ _ _ H).
  - rewrite drop_ge, app_nil_r by lia. split_and!; [rewrite length_replicate; pose proof (rep_buckets _ _ _ H); lia| |done].
    intros b Hb. unfold nth_bucket. destruct (Z.ltb_spec b 0); [lia|]. apply lookup_replicate_2. lia.
Qed.
End Erase.
