(* ===== verification/HashTableInsert.v ===== *)
(** * Rehashing and inserting into hash tables

    [_M_rehash_aux] links all nodes into a new array of buckets; the functions
    that insert look the key up, allocate a node, and rehash when the policy asks for
    it. If an allocation throws, the table has what it had before. *)
From stdpp Require Import base numbers list gmap.
From Stdlib Require Import ZArith Lia.
From S2P Require Import Prelude HashTable HashTableChain HashTableTheory HashTableErase.

Section Insert.
Context {K V : Type} {hashing : Hashing K V} {rehashing : Rehash_policy} {heap : Heap}.
Context {hashing_ok : Hashing_ok} {policy_ok : Policy_ok}.
Local Abbreviation table := (table (V := V)).
Local Abbreviation entry := (loc * V)%type.
Implicit Types (t : table) (m : gmap loc (node V)) (A B C L R ls : list entry) (p q : option loc).

(** All but the policy and the number of allocations are the same. *)
Definition unchanged t t' : Prop :=
  nodes t' = nodes t ∧ _M_buckets t' = _M_buckets t ∧ _M_before_begin t' = _M_before_begin t ∧ same_counts t t'.

(** Whether there is an allocation that throws. *)
Definition out_of_memory : Prop := ∃ n, no_memory n = true.

(** An allocation threw before anything was changed. *)
Definition failed t t' : Prop := unchanged t t' ∧ out_of_memory.

Lemma unchanged_trans t1 t2 t3 : unchanged t1 t2 → unchanged t2 t3 → unchanged t1 t3.
Proof. intros (? & ? & ? & ? & ?) (? & ? & ? & ? & ?). unfold unchanged, same_counts. by split_and!; etransitivity. Qed.

Lemma rep_unchanged t t' ls X : unchanged t t' → rep t ls X → rep t' ls X.
Proof.
  intros (En & Eb & Ebb & Ec & Ee) [H1 H2 H3 H4 H5 H6]. split.
  - by rewrite En, Ebb.
  - done.
  - by rewrite En.
  - done.
  - by rewrite Ec.
  - by rewrite Ec, Eb.
Qed.

(** * Rehashing *)

(** The nodes [D] are in the new list and those of [L] are still to be linked. *)
Record rehashing_inv (t0 : table) ls (X : gset loc) n (bs : list (option node_base)) p bbegin t D L : Prop := {
  inv_done : lseg (nodes t) (_M_before_begin t) D None;
  inv_todo : lseg (nodes t) p L None;
  inv_all : D ++ L ≡ₚ ls;
  inv_dom : dom (nodes t) = dom (nodes t0);
  inv_keep : ∀ l, l ∈ X → nodes t !! l = nodes t0 !! l;
  inv_layout : layout (idx n) n bs D;
  inv_begin : match D with y :: _ => bbegin = idx n y.2 | [] => True end;
  inv_elements : _M_element_count t = _M_element_count t0;
}.

Lemma inv_link t0 ls X n bs p bbegin t A B x L bs' bbegin' t' :
  rep t0 ls X → rehashing_inv t0 ls X n bs p bbegin t (A ++ B) (x :: L) →
  lseg (nodes t') (_M_before_begin t') (A ++ x :: B) None → dom (nodes t') = dom (nodes t) →
  (∀ l, l ∉ ((A ++ x :: B).*1) → nodes t' !! l = nodes t !! l) → _M_element_count t' = _M_element_count t →
  layout (idx n) n bs' (A ++ x :: B) → match A ++ x :: B with y :: _ => bbegin' = idx n y.2 | [] => True end →
  rehashing_inv t0 ls X n bs' (first_loc L None) bbegin' t' (A ++ x :: B) L.
Proof.
  intros H0 [H1 H2 H3 H4 H5 H6 H7 H8] Hc Hdom Hkeep He Hl Hb.
  assert ((A ++ x :: B) ++ L ≡ₚ ls) as Hp.
  { rewrite <- H3, <- (Permutation_middle A B x). cbn. by rewrite <- (Permutation_middle (A ++ B) L x). }
  assert (NoDup (((A ++ x :: B) ++ L).*1)) as Hd by (rewrite Hp; apply (rep_nodup _ _ _ H0)).
  split; [done| |done|congruence| |done|done|congruence].
  - destruct H2 as (_ & nd & _ & _ & _ & H2). rewrite (lseg_first _ _ _ _ H2) in H2.
    apply (lseg_agree (nodes t)); [done|]. intros l Hin. apply Hkeep. rewrite fmap_app in Hd.
    intros Hin'. apply NoDup_app in Hd as (_ & Hd & _). by apply (Hd l).
  - intros l HX. rewrite Hkeep; [by apply H5|]. intros Hin. apply (rep_extra _ _ _ H0 l HX).
    rewrite <- Hp, fmap_app. apply elem_of_app. by left.
Qed.

Lemma wpt_set_nth_bucket {Y} (Q : Y → table → Prop) E bs i (b : option node_base) (k : list (option node_base) → T Y) t :
  0 <= i < Z.of_nat (length bs) → wpt (k (<[Z.to_nat i := b]> bs)) Q E t → wpt (x ← set_nth_bucket bs i b; k x) Q E t.
Proof.
  intros Hi Hk. unfold set_nth_bucket, wpt, mbind, T_bind, defined, nth_bucket in *. destruct (Z.ltb_spec i 0); [lia|].
  destruct (lookup_lt_is_Some_2 bs (Z.to_nat i)) as [b' Hb]; [lia|]. by rewrite Hb.
Qed.

(** One turn of the loop. *)
Lemma rehash_step t0 ls X n bs p bbegin t D x L (Q : _ → table → Prop) E :
  rep t0 ls X → 0 < n → rehashing_inv t0 ls X n bs p bbegin t D (x :: L) →
  (∀ bs' bbegin' t' D', rehashing_inv t0 ls X n bs' (first_loc L None) bbegin' t' D' L →
    Q (inl (bs', first_loc L None, bbegin')) t') →
  wpt (next ← nxt_of (At x.1);
       bkt ← node_bucket_index x.1 n;
       b ← defined (nth_bucket bs bkt);
       match b with
       | None =>
           q ← get _M_before_begin;
           set_nxt (At x.1) q;;
           set_ (set_before_begin (Some x.1));;
           bs ← set_nth_bucket bs bkt (Some Before_begin);
           bs ← match q with
                | Some _ => set_nth_bucket bs bbegin (Some (At x.1))
                | None => mret bs
                end;
           mret (inl (bs, next, bkt))
       | Some before =>
           q ← nxt_of before;
           set_nxt (At x.1) q;;
           set_nxt before (Some x.1);;
           mret (inl (bs, next, bbegin))
       end) (Q : (_ + list (option node_base)) → table → Prop) E t.
Proof.
  intros H0 Hn Hi HQ. pose proof Hi as [H1 H2 H3 H4 H5 H6 H7 H8]. destruct H2 as (_ & nd & Hnd & Ev & Hc & H2).
  assert (NoDup ((D ++ x :: L).*1)) as Hd by (rewrite H3; apply (rep_nodup _ _ _ H0)).
  apply nodup_middle in Hd as [Hx Hd]. rewrite fmap_app in Hx, Hd. apply NoDup_app in Hd as (Hd & _ & _).
  apply not_elem_of_app in Hx as [Hx _]. destruct H6 as (Hlen & Hb & Hg).
  apply (wpt_nxt_at _ _ x.1 nd); [done|]. rewrite (lseg_first _ _ _ _ H2).
  apply (wpt_node_bucket_index _ _ x.1 nd); [done..|]. rewrite Ev.
  apply (wpt_defined _ (first_prev (idx n) (idx n x.2) Before_begin D)); [by apply Hb, idx_range|].
  destruct (first_prev (idx n) (idx n x.2) Before_begin D) as [prev|] eqn:Ef.
  - apply first_prev_split in Ef as (A & y & B & -> & HA & Ey & ->).
    apply (wpt_link _ _ A (y :: B) x nd (λ _, _)); try done. intros t' Hc' Hdom Hkeep _ [_ He].
    apply wpt_ret. eapply HQ, inv_link; [done..| |].
    + apply layout_insert; [done|by rewrite Ey|done].
    + destruct A as [|a A]; [cbn in *; congruence|done].
  - apply (wpt_link _ _ [] D x nd (λ q, _)); try done. intros t' Hc' Hdom Hkeep _ [_ He].
    apply (first_prev_outside _ _ Before_begin) in Ef.
    assert (0 <= idx n x.2 < Z.of_nat (length bs)) as Rx by (rewrite Hlen; by apply idx_range).
    apply wpt_set_nth_bucket; [done|].
    assert (∀ bs', length bs' = length bs →
      (∀ b, 0 <= b < n → nth_bucket bs' b = if b =? idx n x.2 then Some (Some Before_begin)
        else match D with y :: _ => if b =? idx n y.2 then Some (Some (At x.1)) else nth_bucket bs b
             | [] => nth_bucket bs b end) → Q (inl (bs', first_loc L None, idx n x.2)) t') as Hend.
    { intros bs' El Hbs. eapply (HQ bs' _ t' ([] ++ x :: D)), (inv_link _ _ _ _ _ _ _ _ [] D); try done.
      apply (layout_front _ n bs); [done| |done|done|done]. intros y. by apply idx_range. }
    destruct D as [|y D]; cbn [first_loc].
    + apply wpt_bind, wpt_ret, wpt_ret, Hend; [apply length_insert|]. intros b Hr. apply nth_bucket_set; [done|lia].
    + subst bbegin. assert (0 <= idx n y.2 < Z.of_nat (length bs)) as Ry by (rewrite Hlen; by apply idx_range).
      apply outside_cons in Ef as [Nyx _].
      apply wpt_set_nth_bucket; [by rewrite length_insert|]. apply wpt_ret, Hend; [by rewrite !length_insert|].
      intros b Hr. rewrite !nth_bucket_set by (rewrite ?length_insert; done || lia).
      destruct (Z.eqb_spec b (idx n y.2)) as [->|]; [|done]. by destruct (Z.eqb_spec (idx n y.2) (idx n x.2)).
Qed.

(** What an array of null pointers is the array of: an empty list. *)
Lemma layout_empty n : 0 < n → layout (idx n) n (replicate (Z.to_nat n) None) [].
Proof.
  intros Hn. split_and!; [rewrite length_replicate; lia| |done]. intros b Hb. unfold nth_bucket.
  destruct (Z.ltb_spec b 0); [lia|]. apply lookup_replicate_2. lia.
Qed.

Lemma allocation_spec t (Q : unit → table → Prop) (E : table → Prop) :
  (∀ t', unchanged t t' → Q tt t' ∧ (out_of_memory → E t')) → wpt allocate Q E t.
Proof.
  intros H. unfold allocate. apply wpt_get, wpt_set.
  destruct (H (set_allocations (S (allocations t)) t)) as [HQ HE]; [done|].
  destruct (no_memory (allocations t)) eqn:En; [|done]. apply HE. by exists (allocations t).
Qed.

Lemma allocate_buckets_spec n t (Q : list (option node_base) → table → Prop) (E : table → Prop) :
  0 < n → (∀ t', unchanged t t' → Q (replicate (Z.to_nat n) None) t' ∧ (out_of_memory → E t')) → wpt (_M_allocate_buckets n) Q E t.
Proof.
  intros Hn H. unfold _M_allocate_buckets. destruct (Z.eqb_spec n 1) as [->|].
  - apply wpt_ret. by apply (H t).
  - apply wpt_bind, allocation_spec. intros t' Hu. split; [apply wpt_ret|]; by apply H.
Qed.

(** A table with the same entries, in [n] buckets. *)
Definition rehashed t ls (X : gset loc) n t' : Prop :=
  ∃ ls', ls' ≡ₚ ls ∧ rep t' ls' X ∧ (∀ l, l ∈ X → nodes t' !! l = nodes t !! l) ∧
    _M_bucket_count t' = n ∧ _M_element_count t' = _M_element_count t.

Lemma rehash_aux_spec t ls X n :
  rep t ls X → 0 < n → wpt (_M_rehash_aux n) (λ _ t', rehashed t ls X n t') (failed t) t.
Proof.
  intros H Hn. unfold _M_rehash_aux, _M_begin. apply wpt_bind, allocate_buckets_spec; [done|].
  intros t1 Hu. split; [|done]. pose proof (rep_unchanged _ _ _ _ Hu H) as H1. destruct Hu as (En & _ & _ & _ & Ee).
  apply wpt_get, wpt_set, wpt_bind.
  eapply (wpt_while (λ i '(bs, p, bbegin) t', ∃ D L, rehashing_inv t1 ls X n bs p bbegin t' D L ∧ i = Z.of_nat (length L))
    _ _ _ (Z.of_nat (length ls))).
  - intros i [ [bs p] bbegin] t' (D & L & Hi & ->). split; [lia|]. destruct L as [|x L].
    + pose proof Hi as [I1 I2 I3 I4 I5 I6 I7 I8]. cbn in I2. subst p. apply wpt_ret, wpt_set, wpt_seq_ret, wpt_set, wpt_ret.
      rewrite app_nil_r in I3. exists D. split; [done|]. split_and!; [|by intros; rewrite <- En; apply I5|done|cbn; congruence]. split; cbn; try done.
      * rewrite I3. apply (rep_nodup _ _ _ H).
      * intros l. rewrite I4, (rep_dom _ _ _ H1). by rewrite I3.
      * intros l Hl. rewrite I3. by apply (rep_extra _ _ _ H).
    + pose proof (proj1 (inv_todo _ _ _ _ _ _ _ _ _ _ Hi)) as ->. apply (rehash_step t1 ls X n bs (Some x.1) bbegin t' D x L); [done..|].
      intros bs' bbegin' t2 D' Hi'. exists (Z.of_nat (length L)). split; [cbn; lia|]. by exists D', L.
  - exists [], ls. split; [|done]. split; try done; [apply (rep_chain _ _ _ H1)|by apply layout_empty].
  - pose proof (rep_size _ _ _ H1). cbn. lia.
Qed.

Lemma rehash_buckets_spec t ls X n state :
  rep t ls X → 0 < n → wpt (_M_rehash n state) (λ _ t', rehashed t ls X n t') (failed t) t.
Proof.
  intros H Hn. apply wpt_catch. eapply wpt_mono; [by apply (rehash_aux_spec t ls X)|done|].
  intros t' [Hu Ho]. by apply wpt_set.
Qed.

Lemma rehash_spec t ls n :
  rep t ls ∅ → 0 <= _M_element_count t →
  wpt (rehash n) (λ _ t', ∃ ls', ls' ≡ₚ ls ∧ rep t' ls' ∅ ∧ _M_element_count t' = _M_element_count t) (failed t) t.
Proof.
  intros H He. unfold rehash. apply wpt_get, wpt_get.
  pose proof (bkt_for_elements_pos (_M_element_count t + 1) (_M_rehash_policy t) ltac:(lia)) as Hp.
  set (b := Z.max _ n). assert (1 <= b) as Hb by lia. pose proof (next_bkt_size b (_M_rehash_policy t)) as Hs.
  destruct (_M_next_bkt b (_M_rehash_policy t)) as [b' pol]. cbn in Hs. apply wpt_set, wpt_get.
  assert (unchanged t (set_policy pol t)) as Hu by done. destruct (negb _).
  - eapply wpt_mono; [apply (rehash_buckets_spec _ ls ∅); [by apply (rep_unchanged t)|lia]| |].
    + intros _ t' (ls' & Hls & H' & _ & _ & Ee). exists ls'. done.
    + intros t' [Hu' Ho]. split; [by apply (unchanged_trans _ _ _ Hu)|done].
  - apply wpt_seq_ret, wpt_set, wpt_ret. exists ls. split_and!; [done| |done]. by apply (rep_unchanged t).
Qed.

(** * Inserting *)

Lemma allocate_node_spec t ls v (Q : loc → table → Prop) (E : table → Prop) :
  rep t ls ∅ → (∀ t', failed t t' → E t') →
  (∀ l t', l ∉ (ls.*1) → rep t' ls {[l]} → nodes t' !! l = Some (Node None v None) → nodes t' = <[l := Node None v None]> (nodes t) →
    same_counts t t' → Q l t') →
  wpt (_M_allocate_node v) Q E t.
Proof.
  intros H HE HQ. unfold _M_allocate_node. apply wpt_bind, allocation_spec. intros t1 Hu. split; [|intros Ho; by apply HE].
  pose proof (rep_unchanged _ _ _ _ Hu H) as [H1 H2 H3 H4 H5 H6]. apply wpt_get, wpt_set, wpt_ret.
  set (l := fresh (dom (nodes t1))). assert (l ∉ dom (nodes t1)) as Hl by apply is_fresh.
  destruct Hu as (En & _ & _ & Hs). assert (l ∉ ls.*1) as Hl' by (rewrite H3 in Hl; tauto).
  apply HQ; [done| |by apply lookup_insert_eq|cbn; by rewrite En|done]. split; cbn; try done.
  - by apply lseg_insert.
  - intros l'. rewrite dom_insert_L, elem_of_union, elem_of_singleton, H3.
    pose proof (not_elem_of_empty (C := gset loc) l'). tauto.
  - by intros l' ->%elem_of_singleton.
Qed.

(** The node that was allocated is given back. *)
Lemma rep_deallocate t ls l : rep t ls {[l]} → rep (set_nodes (delete l (nodes t)) t) ls ∅.
Proof.
  intros [H1 H2 H3 H4 H5 H6]. pose proof (H4 l ltac:(by apply elem_of_singleton)) as Hl. split; cbn; try done.
  - by apply lseg_delete.
  - intros l'. rewrite dom_delete_L, elem_of_difference, elem_of_singleton, H3, elem_of_singleton.
    pose proof (not_elem_of_empty (C := gset loc) l'). destruct (decide (l' = l)) as [->|]; tauto.
Qed.

Lemma wpt_store_code {Y} (Q : Y → table → Prop) E l nd c (k : T Y) t :
  nodes t !! l = Some nd →
  (∀ nd', _M_v nd' = _M_v nd → (hash_cached = true → _M_hash_code nd' = Some c) →
    wpt k Q E (set_nodes (<[l := nd']> (nodes t)) t)) →
  wpt (_M_store_code l c;; k) Q E t.
Proof.
  intros H Hk. unfold _M_store_code. destruct hash_cached.
  - apply wpt_bind. apply (wpt_node_at_set _ l nd); [done|]. by apply Hk.
  - apply wpt_bind, wpt_ret. specialize (Hk nd eq_refl ltac:(done)). rewrite insert_id in Hk by done. by destruct t.
Qed.

(** Another node at a place that is not in the list. *)
Lemma rep_node t ls l nd nd' :
  rep t ls {[l]} → nodes t !! l = Some nd → rep (set_nodes (<[l := nd']> (nodes t)) t) ls {[l]}.
Proof.
  intros [H1 H2 H3 H4 H5 H6] Hn. pose proof (H4 l ltac:(by apply elem_of_singleton)) as Hl. split; cbn; try done.
  - by apply lseg_insert.
  - intros l'. rewrite dom_insert_lookup_L by (by exists nd). apply H3.
Qed.

(** What is left when an insertion throws. *)
Definition kept t ls t' : Prop := rep t' ls ∅ ∧ _M_element_count t' = _M_element_count t.

Definition lost t ls t' : Prop := kept t ls t' ∧ out_of_memory.

(** The table with one more entry. *)
Definition added t l v ls t' : Prop :=
  ∃ ls', rep t' ls' ∅ ∧ ls' ≡ₚ (l, v) :: ls ∧ _M_element_count t' = _M_element_count t + 1.

(** The commands after the rehash. *)
Lemma link_node_spec t ls l v nd E :
  rep t ls {[l]} → nodes t !! l = Some nd → _M_v nd = v →
  wpt (_M_store_code l (_M_h1 (_M_extract v));;
       _M_insert_bucket_begin (idx (_M_bucket_count t) v) l;;
       set_ (λ t, set_element_count (_M_element_count t + 1) t);;
       mret l) (λ r t', r = l ∧ added t l v ls t') E t.
Proof.
  intros H Hn Ev. apply (wpt_store_code _ _ l nd); [done|]. intros nd' Ev' Hcode. apply wpt_bind.
  eapply (insert_bucket_begin_spec (set_nodes (<[l := nd']> (nodes t)) t) ls (l, v) nd').
  - by apply (rep_node _ _ _ nd).
  - apply lookup_insert_eq.
  - cbn. congruence.
  - intros Hh. by rewrite Hcode, Ev', Ev.
  - intros t' ls' Hls H' [_ He]. apply wpt_set, wpt_ret. split; [done|]. exists ls'. split_and!; [|done|cbn in *; lia].
    by destruct H'.
Qed.

Lemma insert_unique_node_spec t ls l v nd n_elt :
  rep t ls {[l]} → nodes t !! l = Some nd → _M_v nd = v →
  wpt (_M_insert_unique_node (_M_h1 (_M_extract v) mod _M_bucket_count t) (_M_h1 (_M_extract v)) l n_elt)
    (λ r t', r = l ∧ added t l v ls t') (lost t ls) t.
Proof.
  intros H Hn Ev. unfold _M_insert_unique_node. apply wpt_get, wpt_get, wpt_get.
  pose proof (λ n, need_rehash_bucket (_M_bucket_count t) (_M_element_count t) n_elt (_M_rehash_policy t) n) as Hp.
  destruct (_M_need_rehash _ _ _ _) as [ [do n] pol]. cbn in Hp. apply wpt_set, wpt_catch. set (t1 := set_policy pol t).
  assert (rep t1 ls {[l]}) as H1 by (by apply (rep_unchanged t)). apply wpt_bind. destruct do; cbn [fst snd].
  - specialize (Hp n eq_refl). apply wpt_bind. eapply wpt_mono; [apply (rehash_buckets_spec t1 ls {[l]} n); [done|lia]| |].
    + intros _ t2 (ls2 & Hls & H2 & Hkeep & Ec & Ee). apply wpt_get, wpt_bind_ret, wpt_bucket_index; [lia|]. apply wpt_ret.
      eapply wpt_mono; [apply (link_node_spec t2 ls2 l v nd); [done| |done]| |done].
      * rewrite Hkeep by (by apply elem_of_singleton). done.
      * intros r t' (-> & ls' & H' & Hls' & He). split; [done|]. exists ls'.
        split_and!; [done|by rewrite Hls', Hls|cbn in *; lia].
    + intros t2 [Hu Ho]. pose proof (rep_unchanged _ _ _ _ Hu H1) as H2. destruct Hu as (En & _ & _ & _ & Ee).
      apply (wpt_deallocate _ _ l nd); [by rewrite En|]. split; [|done]. split; [by apply rep_deallocate|done].
  - apply wpt_ret. eapply wpt_mono; [by apply (link_node_spec t1 ls l v nd (λ _, False))|done|]. intros t2 [].
Qed.

(** What inserting a value of type [V] with the key [k] returns. *)
Definition inserted t ls v (r : loc * bool) t' : Prop :=
  if r.2 then (∀ y, y ∈ ls → _M_eq (_M_extract v) (_M_extract y.2) = false) ∧ added t r.1 v ls t'
  else kept t ls t' ∧ ∃ v', (r.1, v') ∈ ls ∧ _M_eq (_M_extract v) (_M_extract v') = true.

Lemma lost_failed t ls t' : rep t ls ∅ → failed t t' → lost t ls t'.
Proof. intros H [Hu Ho]. split; [|done]. split; [by apply (rep_unchanged t)|apply Hu]. Qed.

Lemma insert_spec t ls v n_elt : rep t ls ∅ → wpt (_M_insert v n_elt) (inserted t ls v) (lost t ls) t.
Proof.
  intros H. unfold _M_insert. apply wpt_get, wpt_bucket_index; [apply (rep_buckets _ _ _ H)|].
  apply wpt_bind. eapply wpt_mono; [by apply (find_node_spec _ ls ∅)| |done]. intros [l|] t' [-> Hf].
  { apply wpt_ret. by split. }
  apply wpt_bind, (allocate_node_spec t ls); [done|intros t1 Hu; by apply lost_failed|]. intros l t1 _ H1 Hn _ [Ec Ee].
  unfold _M_hash_code_of. rewrite <- Ec. apply wpt_bind. eapply wpt_mono; [by apply (insert_unique_node_spec t1 ls l v (Node None v None))| |].
  - intros r t2 (-> & ls2 & H2 & Hls & He). apply wpt_ret. split; [done|]. exists ls2. split_and!; [done|done|cbn in *; lia].
  - intros t2 [ [H2 He] Ho]. split; [|done]. split; [done|lia].
Qed.

Lemma emplace_spec t ls v : rep t ls ∅ → wpt (_M_emplace v) (inserted t ls v) (lost t ls) t.
Proof.
  intros H. unfold _M_emplace. apply wpt_bind, (allocate_node_spec t ls); [done|intros t1 Hu; by apply lost_failed|].
  intros l t1 Hl H1 Hn _ [Ec Ee]. apply wpt_get, wpt_bucket_index; [apply (rep_buckets _ _ _ H1)|].
  apply wpt_bind. eapply wpt_mono; [by apply (find_node_spec _ ls {[l]})| |done]. intros [l'|] t' [-> Hf].
  { eapply wpt_deallocate; [done|]. apply wpt_ret. split; [|done]. split; [by apply rep_deallocate|done]. }
  apply wpt_bind. eapply wpt_mono; [by apply (insert_unique_node_spec t1 ls l v (Node None v None))| |].
  - intros r t2 (-> & ls2 & H2 & Hls & He). apply wpt_ret. split; [done|]. exists ls2. split_and!; [done|done|cbn in *; lia].
  - intros t2 [ [H2 He] Ho]. split; [|done]. split; [done|lia].
Qed.

Lemma subscript_spec t ls make k :
  rep t ls ∅ → _M_extract (make k) = k →
  wpt (subscript make k) (λ l t',
    (t' = t ∧ ∃ v, (l, v) ∈ ls ∧ _M_eq k (_M_extract v) = true) ∨
    ((∀ y, y ∈ ls → _M_eq k (_M_extract y.2) = false) ∧ added t l (make k) ls t')) (lost t ls) t.
Proof.
  intros H Hk. unfold subscript. apply wpt_get, wpt_bucket_index; [apply (rep_buckets _ _ _ H)|].
  apply wpt_bind. eapply wpt_mono; [by apply (find_node_spec _ ls ∅)| |done]. intros [l|] t' [-> Hf].
  { apply wpt_ret. by left. }
  apply wpt_bind, (allocate_node_spec t ls); [done|intros t1 Hu; by apply lost_failed|]. intros l t1 _ H1 Hn _ [Ec Ee].
  pose proof (insert_unique_node_spec t1 ls l (make k) _ 1 H1 Hn eq_refl) as Hi. rewrite Hk in Hi.
  unfold _M_hash_code_of. rewrite <- Ec. eapply wpt_mono; [exact Hi| |].
  - intros r t2 (-> & ls2 & H2 & Hls & He). right. split; [done|]. exists ls2. split_and!; [done|done|lia].
  - intros t2 [ [H2 He] Ho]. split; [|done]. split; [done|lia].
Qed.
End Insert.
