(* ===== verification/HashTableClient.v ===== *)
(** * Programs that use a hash table

    A table refines a collection of values with different keys: every program
    of operations runs without undefined behaviour and gets the answers of the
    collection, whatever the policy makes of the number of buckets. An operation that
    runs out of memory leaves the collection as it was, and nodes are neither
    leaked nor used after they are given back. *)
From stdpp Require Import base numbers list gmap.
From Stdlib Require Import ZArith Lia.
From S2P Require Import Prelude HashTable HashTableChain HashTableTheory HashTableErase HashTableInsert HashPolicy.

(** * Programs *)

Section Programs.
Context {K V : Type} `{!Hashing K V} `{!Rehash_policy} `{!Heap}.

(** [Assign k f] is [f(m[k])] of a map, which assigns to the mapped value; [Erase_found k] passes what
    [find] returns to [erase]. *)
Inductive operation :=
  | Find (k : K)
  | Count (k : K)
  | Equal_range (k : K)
  | Elements
  | Size
  | Insert (v : V)
  | Emplace (v : V)
  | Assign (k : K) (f : V → V)
  | Erase_key (k : K)
  | Erase_found (k : K)
  | Rehash (n : Z)
  | Clear.

Inductive answer :=
  | Value (v : option V)
  | Number (n : Z)
  | Inserted (v : V) (new : bool)
  | Values (vs : list V)
  | Done.

(** [*it]. *)
Definition value_at (l : loc) : T V := p ← node_at l; mret (_M_v p).

Definition assign (l : loc) (f : V → V) : T unit :=
  p ← node_at l;
  set_ (λ t, set_nodes (<[l := Node (_M_nxt p) (f (_M_v p)) (_M_hash_code p)]> (nodes t)) t).

(** The values from an iterator up to another one; [++it] is [_M_incr]. *)
Definition traverse (first last : option loc) : T (list V) :=
  while (λ '(vs, p),
    if bool_decide (p = last) then mret (inr vs)
    else
      l ← defined p;
      v ← value_at l;
      p ← nxt_of (At l);
      mret (inl (vs ++ [v], p))) ([], first).

Definition run_operation (make : K → V) (op : operation) : T answer :=
  match op with
  | Find k =>
      p ← find k;
      match p with
      | Some l => v ← value_at l; mret (Value (Some v))
      | None => mret (Value None)
      end
  | Count k => n ← count k; mret (Number n)
  | Equal_range k => r ← equal_range k; vs ← traverse r.1 r.2; mret (Values vs)
  | Elements => b ← _M_begin; vs ← traverse b None; mret (Values vs)
  | Size => n ← get _M_element_count; mret (Number n)
  | Insert v => r ← _M_insert v 1; w ← value_at r.1; mret (Inserted w r.2)
  | Emplace v => r ← _M_emplace v; w ← value_at r.1; mret (Inserted w r.2)
  | Assign k f => l ← subscript make k; assign l f;; mret Done
  | Erase_key k => n ← erase_key k; mret (Number n)
  | Erase_found k =>
      p ← find k;
      match p with
      | Some l => erase l;; mret (Number 1)
      | None => mret (Number 0)
      end
  | Rehash n => rehash n;; mret Done
  | Clear => clear;; mret Done
  end.

(** An operation that throws answers [None]; the program goes on. *)
Fixpoint run (make : K → V) (ops : list operation) (t : table) : option (list (option answer) * table) :=
  match ops with
  | [] => Some ([], t)
  | op :: ops =>
      '(a, t) ← run_operation make op t;
      '(rs, t) ← run make ops t;
      Some (a :: rs, t)
  end.

(** [_Hashtable()], or [_Hashtable(__bucket_hint)]. *)
Definition construct (hint : option Z) : T (V := V) unit :=
  match hint with
  | Some n => new_table_hint n
  | None => mret tt
  end.

(** * What they mean *)

Definition has (k : K) (c : list V) (v : V) : Prop := v ∈ c ∧ _M_eq k (_M_extract v) = true.
Definition lacks (k : K) (c : list V) : Prop := ∀ v, v ∈ c → _M_eq k (_M_extract v) = false.

(** No two values have equal keys. *)
Definition distinct (c : list V) : Prop := ∀ A v B, c = A ++ v :: B → lacks (_M_extract v) (A ++ B).

(** The operation takes the collection [c] to [c'] and answers [a]. *)
Inductive does (make : K → V) (c : list V) : operation → answer → list V → Prop :=
  | does_find k v : has k c v → does make c (Find k) (Value (Some v)) c
  | does_find_not k : lacks k c → does make c (Find k) (Value None) c
  | does_count k v : has k c v → does make c (Count k) (Number 1) c
  | does_count_not k : lacks k c → does make c (Count k) (Number 0) c
  | does_equal_range k v : has k c v → does make c (Equal_range k) (Values [v]) c
  | does_equal_range_not k : lacks k c → does make c (Equal_range k) (Values []) c
  | does_elements vs : vs ≡ₚ c → does make c Elements (Values vs) c
  | does_size : does make c Size (Number (Z.of_nat (length c))) c
  | does_insert v : lacks (_M_extract v) c → does make c (Insert v) (Inserted v true) (v :: c)
  | does_insert_not v w : has (_M_extract v) c w → does make c (Insert v) (Inserted w false) c
  | does_emplace v : lacks (_M_extract v) c → does make c (Emplace v) (Inserted v true) (v :: c)
  | does_emplace_not v w : has (_M_extract v) c w → does make c (Emplace v) (Inserted w false) c
  | does_assign k f v c' : has k c v → v :: c' ≡ₚ c → does make c (Assign k f) Done (f v :: c')
  | does_assign_new k f : lacks k c → does make c (Assign k f) Done (f (make k) :: c)
  | does_erase_key k v c' : has k c v → v :: c' ≡ₚ c → does make c (Erase_key k) (Number 1) c'
  | does_erase_key_not k : lacks k c → does make c (Erase_key k) (Number 0) c
  | does_erase_found k v c' : has k c v → v :: c' ≡ₚ c → does make c (Erase_found k) (Number 1) c'
  | does_erase_found_not k : lacks k c → does make c (Erase_found k) (Number 0) c
  | does_rehash n : does make c (Rehash n) Done c
  | does_clear : does make c Clear Done [].

(** The operations that allocate. *)
Definition allocates (op : operation) : Prop :=
  match op with Insert _ | Emplace _ | Assign _ _ | Rehash _ => True | _ => False end.

(** A program, with the operations that throw. *)
Inductive does_all (make : K → V) : list V → list operation → list (option answer) → list V → Prop :=
  | all_nil c : does_all make c [] [] c
  | all_returns c op a c1 ops rs c2 :
      does make c op a c1 → does_all make c1 ops rs c2 → does_all make c (op :: ops) (Some a :: rs) c2
  | all_throws c op ops rs c2 :
      allocates op → out_of_memory → does_all make c ops rs c2 → does_all make c (op :: ops) (None :: rs) c2.

(** Assignments do not change the key. *)
Definition keeps_keys (op : operation) : Prop :=
  match op with Assign _ f => ∀ v, _M_extract (f v) = _M_extract v | _ => True end.
End Programs.

Section Client.
Context {K V : Type} {hashing : Hashing K V} {rehashing : Rehash_policy} {heap : Heap}.
Context {hashing_ok : Hashing_ok} {policy_ok : Policy_ok}.
Context (make : K → V) (make_key : ∀ k, _M_extract (make k) = k).
Local Abbreviation table := (table (V := V)).
Local Abbreviation entry := (loc * V)%type.
Implicit Types (t : table) (A B C ls : list entry) (c : list V).

(** The table holds the collection. *)
Definition holds t c : Prop :=
  ∃ ls, rep t ls ∅ ∧ ls.*2 ≡ₚ c ∧ _M_element_count t = Z.of_nat (length ls) ∧ unique_keys ls.

(** * Entries and values *)

Lemma lacks_entries k ls c : ls.*2 ≡ₚ c → (∀ y, y ∈ ls → _M_eq k (_M_extract y.2) = false) → lacks k c.
Proof. intros Hc H v Hv. rewrite <- Hc in Hv. apply list_elem_of_fmap in Hv as (y & -> & Hy). by apply H. Qed.

Lemma has_entry k ls c l v : ls.*2 ≡ₚ c → (l, v) ∈ ls → _M_eq k (_M_extract v) = true → has k c v.
Proof. intros Hc Hl Ek. split; [|done]. rewrite <- Hc. by apply (list_elem_of_fmap_2 snd ls (l, v)). Qed.

#[local] Instance unique_keys_proper : Proper (Permutation ==> iff) unique_keys.
Proof. intros ls ls' Hp. unfold unique_keys. by setoid_rewrite Hp. Qed.

Lemma unique_cons l v ls :
  unique_keys ls → (∀ y, y ∈ ls → _M_eq (_M_extract v) (_M_extract y.2) = false) → unique_keys ((l, v) :: ls).
Proof.
  intros Hu H x y [->|Hx]%elem_of_cons [->|Hy]%elem_of_cons; [done|..|by apply Hu]; cbn; intros E.
  - by rewrite (H y Hy) in E.
  - apply eq_sym_key in E. by rewrite (H x Hx) in E.
Qed.

Lemma unique_tail x ls : unique_keys (x :: ls) → unique_keys ls.
Proof. intros H y z Hy Hz. by apply H; right. Qed.

(** Values of a collection that a table holds have different keys. *)
Lemma holds_distinct t c : holds t c → distinct c.
Proof.
  intros (ls & H & Hc & _ & Hu) A v B -> w Hw. rewrite <- Permutation_middle in Hc. symmetry in Hc.
  apply Permutation_map_inv in Hc as (ls' & E & Hp). destruct ls' as [|x ls']; [done|]. injection E as Ev Ew.
  assert (NoDup ((x :: ls').*1)) as Hd by (rewrite <- Hp; apply (rep_nodup _ _ _ H)).
  rewrite Ew in Hw. apply list_elem_of_fmap in Hw as (y & -> & Hy). subst v.
  apply (unique_rest (_M_extract x.2) [] x ls'); [by rewrite <- Hp|done|apply eq_refl_key|done].
Qed.

(** No node is leaked. *)
Lemma holds_nodes t c : holds t c → size (nodes t) = length c.
Proof.
  intros (ls & H & Hc & _). pose proof (rep_size _ _ _ H) as Hs. rewrite size_empty in Hs.
  rewrite <- Hc, length_fmap. lia.
Qed.

Lemma holds_kept t t' ls c : ls.*2 ≡ₚ c → _M_element_count t = Z.of_nat (length ls) → unique_keys ls → kept t ls t' → holds t' c.
Proof. intros Hc He Hu [H' He']. exists ls. split_and!; [done|done|congruence|done]. Qed.

Lemma holds_added t t' ls c l v :
  ls.*2 ≡ₚ c → _M_element_count t = Z.of_nat (length ls) → unique_keys ls →
  (∀ y, y ∈ ls → _M_eq (_M_extract v) (_M_extract y.2) = false) → added t l v ls t' → holds t' (v :: c).
Proof.
  intros Hc He Hu Hno (ls' & H' & Hls & He'). exists ls'. split_and!; [done| | |].
  - rewrite Hls. cbn. by rewrite Hc.
  - rewrite Hls. cbn. lia.
  - rewrite Hls. by apply unique_cons.
Qed.

Lemma holds_without t t' ls c l v :
  ls.*2 ≡ₚ c → _M_element_count t = Z.of_nat (length ls) → unique_keys ls → without t l v ls t' →
  ∃ c', v :: c' ≡ₚ c ∧ holds t' c'.
Proof.
  intros Hc He Hu (ls' & H' & Hls & He'). exists (ls'.*2). split.
  - rewrite <- Hc, <- Hls. done.
  - exists ls'. split_and!; [done|done| |].
    + rewrite <- Hls in He. cbn in He. lia.
    + apply (unique_tail (l, v)). by rewrite Hls.
Qed.

Lemma wpt_value_at {Y} (Q : Y → table → Prop) E ls X l v (k : V → T Y) t :
  rep t ls X → (l, v) ∈ ls → wpt (k v) Q E t → wpt (x ← value_at l; k x) Q E t.
Proof.
  intros H Hl Hk. destruct (lseg_node _ _ _ _ (l, v) (rep_chain _ _ _ H) Hl) as (nd & Hn & Ev & _).
  apply wpt_bind, (wpt_node_at _ _ l nd); [done|]. apply wpt_ret. by rewrite Ev.
Qed.

Lemma traverse_spec t A B C X E :
  rep t (A ++ B ++ C) X → wpt (traverse (first_loc (B ++ C) None) (first_loc C None)) (λ vs t', t' = t ∧ vs = B.*2) E t.
Proof.
  intros H. pose proof (rep_nodup _ _ _ H) as Hd. rewrite !fmap_app in Hd. apply NoDup_app in Hd as (_ & _ & Hd).
  apply NoDup_app in Hd as (_ & Hd & _).
  apply (wpt_while (λ i '(vs, p) t', t' = t ∧ ∃ B1 B2, B = B1 ++ B2 ∧ vs = B1.*2 ∧ p = first_loc (B2 ++ C) None ∧
    i = Z.of_nat (length B2)) _ _ _ (Z.of_nat (length B))).
  - intros i [vs p] t' (-> & B1 & B2 & EB & -> & -> & ->). split; [lia|]. destruct B2 as [|x B2]; cbn [app first_loc].
    { rewrite bool_decide_eq_true_2 by done. apply wpt_ret. by rewrite EB, app_nil_r. }
    assert (Some x.1 ≠ first_loc C None) as Hne.
    { destruct C as [|y C]; [done|]. cbn. intros [= E1]. apply (Hd x.1).
      - rewrite EB, fmap_app. apply elem_of_app. right. by left.
      - rewrite E1. by left. }
    rewrite bool_decide_eq_false_2 by done. apply (wpt_defined _ x.1); [done|]. destruct x as [l v].
    apply (wpt_value_at _ _ (A ++ B ++ C) X l v); [done| |].
    { apply elem_of_app. right. apply elem_of_app. left. rewrite EB. apply elem_of_app. right. by left. }
    replace (At (l, v).1) with (base_after Before_begin ((A ++ B1) ++ [(l, v)])) by apply base_after_snoc.
    apply (wpt_position _ _ _ (B2 ++ C) (A ++ B ++ C) X); [done|by rewrite EB, <- !app_assoc|]. apply wpt_ret.
    exists (Z.of_nat (length B2)). split; [cbn; lia|]. split; [done|]. exists (B1 ++ [(l, v)]), B2.
    rewrite <- app_assoc, fmap_app. done.
  - split; [done|]. by exists [], B.
  - pose proof (rep_size _ _ _ H) as Hs. rewrite !length_app in Hs. lia.
Qed.

Lemma assign_spec t A l v B f (Q : unit → table → Prop) E :
  rep t (A ++ (l, v) :: B) ∅ → _M_extract (f v) = _M_extract v →
  (∀ t', rep t' (A ++ (l, f v) :: B) ∅ → same_counts t t' → Q tt t') → wpt (assign l f) Q E t.
Proof.
  intros H Hf HQ. pose proof (rep_chain _ _ _ H) as (r & HA & HB)%lseg_app. destruct HB as (-> & nd & Hn & Ev & Hc & HB). cbn in Hn, Ev.
  pose proof (rep_nodup _ _ _ H) as Hd. pose proof Hd as [Hl _]%nodup_middle. cbn in Hl. rewrite fmap_app in Hl.
  apply not_elem_of_app in Hl as [HlA HlB]. apply (wpt_node_at_set _ l nd); [done|]. apply HQ; [|done].
  assert ((A ++ (l, f v) :: B).*1 = (A ++ (l, v) :: B).*1) as Ef by (by rewrite !fmap_app).
  split; cbn; try rewrite Ef; try apply H; [| |].
  - apply lseg_app. exists (Some l). split; [by apply lseg_insert|]. split; [done|]. eexists. cbn. rewrite lookup_insert_eq.
    split_and!; [done|cbn; congruence| |by apply lseg_insert].
    intros Hh. specialize (Hc Hh). cbn. by rewrite Hc, Ev, Hf.
  - intros l'. rewrite dom_insert_lookup_L by (by exists nd). apply (rep_dom _ _ _ H).
  - apply (layout_replace _ _ _ A (l, v)); [apply (rep_layout _ _ _ H)|done|]. unfold idx. cbn. by rewrite Hf.
Qed.

Lemma unique_replace l v w ls : _M_extract w = _M_extract v → unique_keys ((l, v) :: ls) → unique_keys ((l, w) :: ls).
Proof.
  intros E H x y [->|Hx]%elem_of_cons [->|Hy]%elem_of_cons; cbn; [done|..]; rewrite ?E.
  - apply (H (l, v) y); [by left|by right].
  - apply (H x (l, v)); [by right|by left].
  - apply (H x y); by right.
Qed.

(** The collection after the value at [l] is replaced. *)
Lemma holds_assign t ls l v f c' (E : table → Prop) :
  rep t ls ∅ → (l, v) ∈ ls → unique_keys ls → _M_element_count t = Z.of_nat (length ls) →
  _M_extract (f v) = _M_extract v → ls.*2 ≡ₚ v :: c' →
  wpt (assign l f) (λ _ t', holds t' (f v :: c')) E t.
Proof.
  intros H (A & B & ->)%list_elem_of_split Hu He Hf Hc. apply (assign_spec t A l v B); [done|done|].
  intros t' H' [_ He']. exists (A ++ (l, f v) :: B). rewrite fmap_app in *. cbn in *. split_and!; [done| | |].
  - rewrite <- Permutation_middle in Hc |- *. constructor. by apply Permutation_cons_inv in Hc.
  - rewrite He', He, !length_app. done.
  - rewrite <- Permutation_middle in Hu |- *. by apply (unique_replace l v).
Qed.

(** * Operations *)

(** What an operation does to a table and to the collection it holds. *)
Definition refines_on t c op : Prop :=
  wpt (run_operation make op) (λ a t', ∃ c', does make c op a c' ∧ holds t' c')
    (λ t', allocates op ∧ out_of_memory ∧ holds t' c) t.

Lemma search_refines t c op :
  holds t c → match op with Find _ | Count _ | Equal_range _ | Elements | Size => True | _ => False end →
  refines_on t c op.
Proof.
  intros (ls & H & Hc & He & Hu) Hop.
  assert (holds t c) as Ht by (by exists ls).
  destruct op as [k|k|k| | |v|v|k f|k|k|n|]; try done; unfold refines_on; cbn [run_operation]; clear Hop.
  - apply wpt_bind. eapply wpt_mono; [by apply (find_spec k ls ∅ t (λ _, False))| |done]. intros [l|] t' [-> Hf].
    + destruct Hf as (v & Hl & Ek). apply (wpt_value_at _ _ ls ∅ l v); [done..|]. apply wpt_ret. exists c.
      split; [|done]. constructor. by apply (has_entry k ls c l).
    + apply wpt_ret. exists c. split; [|done]. constructor. by apply (lacks_entries k ls).
  - apply wpt_bind. eapply wpt_mono; [by apply (count_spec k ls ∅ t (λ _, False))| |done]. intros r t' [-> Hr]. apply wpt_ret.
    exists c. split; [|done]. destruct Hr as [ [-> Hno]|[-> ([l v] & Hl & Ek)] ].
    + constructor. by apply (lacks_entries k ls).
    + apply (does_count _ _ _ v). by apply (has_entry k ls c l).
  - apply wpt_bind. eapply wpt_mono; [by apply (equal_range_spec k ls ∅ t (λ _, False))| |done]. intros [ [l|] p] t' [-> Hr]; cbn [fst snd].
    + destruct Hr as (A & v & B & -> & Ek & ->). apply wpt_bind.
      eapply wpt_mono; [by apply (traverse_spec t A [(l, v)] B ∅ (λ _, False))| |done]. intros vs t' [-> ->]. apply wpt_ret.
      exists c. split; [|done]. constructor. apply (has_entry k _ c l v Hc); [|done]. apply elem_of_app. right. by left.
    + destruct Hr as [-> Hno]. apply wpt_bind. pose proof H as H'. rewrite <- (app_nil_r ls) in H'.
      eapply wpt_mono; [by apply (traverse_spec t ls [] [] ∅ (λ _, False))| |done]. intros vs t' [-> ->]. apply wpt_ret.
      exists c. split; [|done]. constructor. by apply (lacks_entries k ls).
  - unfold _M_begin. apply wpt_get. rewrite (lseg_first _ _ _ _ (rep_chain _ _ _ H)). apply wpt_bind.
    pose proof H as H'. rewrite <- (app_nil_r ls) in H'. pose proof (traverse_spec t [] ls [] ∅ (λ _, False) H') as Hw.
    rewrite app_nil_r in Hw. eapply wpt_mono; [exact Hw| |done]. intros vs t' [-> ->]. apply wpt_ret.
    exists c. split; [|done]. by constructor.
  - apply wpt_get, wpt_ret. exists c. split; [|done]. rewrite He, <- (length_fmap snd), Hc. constructor.
Qed.

Lemma insert_refines t c op v :
  holds t c → op = Insert v ∨ op = Emplace v → refines_on t c op.
Proof.
  intros (ls & H & Hc & He & Hu) Hop.
  assert (∀ ins, wpt ins (inserted t ls v) (lost t ls) t →
    wpt (r ← ins; w ← value_at r.1; mret (Inserted w r.2)) (λ a t', ∃ c', holds t' c' ∧ match a with
      | Inserted w true => w = v ∧ lacks (_M_extract v) c ∧ c' = v :: c
      | Inserted w false => has (_M_extract v) c w ∧ c' = c
      | _ => False end) (λ t', out_of_memory ∧ holds t' c) t) as Hins.
  { intros ins Hw. apply wpt_bind. eapply wpt_mono; [exact Hw| |].
    - intros [l [] ] t'; intros [H1 H2]; cbn [fst snd] in *.
      + pose proof H2 as (ls' & H' & Hls & _). apply (wpt_value_at _ _ ls' ∅ l v); [done|rewrite Hls; by left|].
        apply wpt_ret. exists (v :: c). split; [by apply (holds_added t t' ls c l v)|].
        split_and!; [done|by apply (lacks_entries _ ls)|done].
      + pose proof H1 as [H' _]. destruct H2 as (w & Hl & Ek). apply (wpt_value_at _ _ ls ∅ l w); [done..|].
        apply wpt_ret. exists c. split; [by apply (holds_kept t t' ls)|]. split; [by apply (has_entry _ ls c l)|done].
    - intros t' [Hk Ho]. split; [done|]. by apply (holds_kept t t' ls). }
  destruct Hop as [-> | ->]; unfold refines_on; cbn [run_operation];
    (eapply wpt_mono; [apply Hins; by (apply insert_spec || apply emplace_spec)| |intros t' [? ?]; done]);
    intros a t' (c' & Hh & Ha); exists c'; (split; [|done]); (destruct a as [| |w [] | |]; try done);
    [destruct Ha as (-> & Hno & ->)|destruct Ha as (Hha & ->)|destruct Ha as (-> & Hno & ->)|destruct Ha as (Hha & ->)];
    by constructor.
Qed.

Lemma assign_refines t c k f :
  holds t c → (∀ v, _M_extract (f v) = _M_extract v) → refines_on t c (Assign k f).
Proof using make_key hashing_ok policy_ok.
  intros (ls & H & Hc & He & Hu) Hf. apply wpt_bind. eapply wpt_mono; [by apply (subscript_spec t ls make k)| |].
  - intros l t' [ [-> (v & Hl & Ek)]|[Hno Hadd] ]; apply wpt_bind.
    + pose proof Hl as (A & B & Els)%list_elem_of_split.
      assert (v :: (A ++ B).*2 ≡ₚ ls.*2) as Hls by (rewrite Els, !fmap_app; apply Permutation_middle).
      eapply wpt_mono; [by apply (holds_assign t ls l v f ((A ++ B).*2) (λ _, False))| |done]. intros [] t' Hh. apply wpt_ret.
      eexists. split; [|done]. apply (does_assign _ _ _ _ v); [by apply (has_entry k ls c l)|by rewrite Hls].
    + destruct Hadd as (ls' & H' & Hls & He').
      eapply wpt_mono; [apply (holds_assign t' ls' l (make k) f c (λ _, False)); [done|rewrite Hls; by left| | |done|]| |done].
      * rewrite Hls. apply unique_cons; [done|]. by rewrite make_key.
      * rewrite Hls. cbn. lia.
      * rewrite Hls. cbn. by rewrite Hc.
      * intros [] t2 Hh'. apply wpt_ret. eexists. split; [|done]. apply does_assign_new. by apply (lacks_entries k ls).
  - intros t' [Hk Ho]. split_and!; [done|done|]. by apply (holds_kept t t' ls).
Qed.

Lemma erase_refines t c op k :
  holds t c → op = Erase_key k ∨ op = Erase_found k → refines_on t c op.
Proof.
  intros (ls & H & Hc & He & Hu) Hop. assert (holds t c) as Ht by (by exists ls).
  assert (∀ l v t', (l, v) ∈ ls → _M_eq k (_M_extract v) = true → without t l v ls t' →
    ∃ c', has k c v ∧ v :: c' ≡ₚ c ∧ holds t' c') as Hout.
  { intros l v t' Hl Ek Hw. destruct (holds_without t t' ls c l v) as (c' & Hc' & Hh); [done..|]. exists c'.
    split; [by apply (has_entry k ls c l)|done]. }
  destruct Hop as [-> | ->]; apply wpt_bind.
  - eapply wpt_mono; [by apply (erase_key_spec t ls k (λ _, False))| |done]. intros r t' [(-> & -> & Hno)|[-> (l & v & Ek & Hw)] ]; apply wpt_ret.
    + exists c. split; [|done]. constructor. by apply (lacks_entries k ls).
    + destruct (Hout l v t') as (c' & Hh & Hp & Ht'); [|done|done|exists c'; split; [by apply (does_erase_key _ _ _ v)|done] ].
      destruct Hw as (ls' & _ & <- & _). by left.
  - eapply wpt_mono; [by apply (find_spec k ls ∅ t (λ _, False))| |done]. intros [l|] t' [-> Hf].
    + destruct Hf as (v & Hl & Ek). apply wpt_bind. eapply wpt_mono; [by apply (erase_spec t ls l v (λ _, False))| |done].
      intros r t' Hw. apply wpt_ret. destruct (Hout l v t') as (c' & Hh & Hp & Ht'); [done..|].
      exists c'. split; [by apply (does_erase_found _ _ _ v)|done].
    + apply wpt_ret. exists c. split; [|done]. constructor. by apply (lacks_entries k ls).
Qed.

Lemma whole_refines t c op :
  holds t c → (∃ n, op = Rehash n) ∨ op = Clear → refines_on t c op.
Proof.
  intros (ls & H & Hc & He & Hu) [ [n ->]| ->]; apply wpt_bind.
  - eapply wpt_mono; [apply (rehash_spec t ls n H); lia| |].
    + intros _ t' (ls' & Hls & H' & He'). apply wpt_ret. exists c. split; [constructor|]. exists ls'.
      split_and!; [done|by rewrite Hls|rewrite Hls; lia|by rewrite Hls].
    + intros t' [Hf Ho]. split_and!; [done|done|]. exists ls. split_and!; [by apply (rep_unchanged t)|done| |done].
      rewrite (proj2 (proj2 (proj2 (proj2 Hf)))). done.
  - eapply wpt_mono; [by apply (clear_spec t ls (λ _, False))| |done]. intros _ t' (H' & _ & He'). apply wpt_ret.
    exists []. split; [constructor|]. exists []. split_and!; [done|done|done|]. intros x y ?%elem_of_nil. done.
Qed.

Lemma operation_refines t c op : holds t c → keeps_keys op → refines_on t c op.
Proof using make_key hashing_ok policy_ok.
  intros Ht Hop. destruct op as [k|k|k| | |v|v|k f|k|k|n|].
  1-5: by apply search_refines.
  1-2: by apply (insert_refines t c _ v); auto.
  - by apply assign_refines.
  - apply (erase_refines t c _ k); auto.
  - apply (erase_refines t c _ k); auto.
  - apply whole_refines; [done|]. left. by exists n.
  - apply whole_refines; auto.
Qed.

(** * Programs *)

Lemma run_refines ops t c :
  Forall keeps_keys ops → holds t c → ∃ rs t' c', run make ops t = Some (rs, t') ∧ does_all make c ops rs c' ∧ holds t' c'.
Proof using make_key hashing_ok policy_ok.
  intros Hops. revert t c. induction Hops as [|op ops Hop _ IH]; intros t c Ht.
  - exists [], t, c. split_and!; [done|constructor|done].
  - pose proof (operation_refines t c op Ht Hop) as Hr. unfold refines_on, wpt in Hr. cbn [run].
    destruct (run_operation make op t) as [ [ [a|] t1]|]; [| |done].
    + destruct Hr as (c1 & Hd & H1). destruct (IH t1 c1 H1) as (rs & t2 & c2 & E & Hrs & H2).
      exists (Some a :: rs), t2, c2. cbn. rewrite E. split_and!; [done| |done]. by econstructor.
    + destruct Hr as (Ha & Ho & H1). destruct (IH t1 c H1) as (rs & t2 & c2 & E & Hrs & H2).
      exists (None :: rs), t2, c2. cbn. rewrite E. split_and!; [done| |done]. by constructor.
Qed.

Lemma holds_new : holds new_table [].
Proof.
  exists []. split_and!; [|done|done|by intros x y ?%elem_of_nil]. split; cbn; try done.
  - apply NoDup_nil_2.
  - intros l. rewrite dom_empty_L, elem_of_nil. pose proof (not_elem_of_empty (C := gset loc) l). tauto.
  - by apply (layout_empty 1).
Qed.

Lemma new_table_hint_spec hint t :
  holds t [] → wpt (new_table_hint hint) (λ _ t', holds t' []) (λ _, out_of_memory) t.
Proof.
  intros (ls & H & Hls%Permutation_nil_r & He & Hu). apply fmap_nil_inv in Hls as ->.
  unfold new_table_hint. apply wpt_get. destruct (_M_next_bkt hint (_M_rehash_policy t)) as [b pol]. apply wpt_set, wpt_get. cbn [_M_bucket_count set_policy].
  assert (holds (set_policy pol t) []) as Hs by (exists []; by split_and!; [apply (rep_unchanged t)|..]).
  destruct (Z.ltb_spec (_M_bucket_count t) b); [|by apply wpt_ret]. pose proof (rep_buckets _ _ _ H) as Hpos.
  apply wpt_bind, allocate_buckets_spec; [lia|]. intros t' Hu'. split; [|done].
  apply wpt_set, wpt_seq_ret, wpt_set, wpt_ret. exists []. destruct Hu' as (En & _ & Eb & _ & Ee).
  split_and!; [|done|cbn; by rewrite Ee|done]. destruct H as [H1 H2 H3 H4 H5 H6]. split; cbn; try done.
  - rewrite Eb. done.
  - intros l. rewrite En. apply H3.
  - lia.
  - apply layout_empty. lia.
Qed.
End Client.

(** C18: A [std::_Hashtable] with unique keys refines a collection of values with different
    keys. From either constructor, every program of searches, insertions, assignments
    through [operator[]], erasures, rehashes and clears runs without undefined
    behaviour and gets the answers of the collection, in the order the
    collection has them up to permutation. Only operations that allocate throw, and only
    if memory runs out; they leave the collection as it was. At the end there are as
    many nodes as values, so that none is leaked. *)
Theorem hashtable_refines {K V} {hashing : Hashing K V} {rehashing : Rehash_policy} {heap : Heap}
    {hashing_ok : Hashing_ok} {policy_ok : Policy_ok} (make : K → V) (hint : option Z) (ops : list operation) :
  (∀ k, _M_extract (make k) = k) → Forall keeps_keys ops →
  match construct hint new_table with
  | Some (Some _, t) =>
      ∃ rs t' c, run make ops t = Some (rs, t') ∧ does_all make [] ops rs c ∧ distinct c ∧ size (nodes t') = length c
  | Some (None, _) => out_of_memory
  | None => False
  end.
Proof.
  intros Hmake Hops. assert (wpt (construct hint) (λ _ t, holds t []) (λ _, out_of_memory) new_table) as Hw.
  { destruct hint as [n|]; [apply new_table_hint_spec|apply wpt_ret]; apply holds_new. }
  unfold wpt in Hw. destruct (construct hint new_table) as [ [ [u|] t]|]; [|done..].
  destruct (run_refines make Hmake ops t [] Hops Hw) as (rs & t' & c & E & Hrs & Hh). exists rs, t', c.
  split_and!; [done|done|by apply (holds_distinct t')|by apply holds_nodes].
Qed.

(** * An example: a map of integers with the default policy *)

Module Example.
Definition hashing : Hashing Z (Z * Z) := {|
  _M_extract := fst;
  _M_h1 k := k mod 2 ^ 32;
  _M_eq := Z.eqb;
  hash_cached := true;
|}.

Definition rehashing : Rehash_policy := @prime_rehash_policy exact_arithmetic example_library.

(** The allocation number four throws. *)
Definition heap : Heap := {| no_memory n := Nat.eqb n 4 |}.

Lemma hashing_ok : @Hashing_ok _ _ hashing.
Proof. split; cbn; intros *; rewrite ?Z.eqb_eq; congruence. Qed.

Lemma policy_ok : @Policy_ok rehashing.
Proof. exact (@prime_policy_ok _ _ exact_arithmetic_ok example_library_ok). Qed.

Definition program : list (operation (K := Z) (V := Z * Z)) :=
  [Insert (1, 10); Insert (8, 80); Insert (1, 11); Emplace (4, 40); Emplace (8, 81); Assign 4 (λ v, (v.1, 41)); Assign 5 (λ v, (v.1, 50));
   Find 4; Count 8; Equal_range 9; Erase_key 1; Erase_found 7; Elements; Rehash 20; Size; Clear].

#[local] Existing Instances hashing rehashing heap hashing_ok policy_ok.

Lemma hashtable_refines_witness :
  match construct (Some 3) new_table with
  | Some (Some _, t) =>
      ∃ rs t' c, run (λ k, (k, 0)) program t = Some (rs, t') ∧ does_all (λ k, (k, 0)) [] program rs c ∧ distinct c ∧
        size (nodes t') = length c
  | Some (None, _) => out_of_memory
  | None => False
  end.
Proof.
  apply (hashtable_refines (λ k, (k, 0)) (Some 3) program); [done|].
  unfold program. by repeat constructor.
Defined.

(** What the program answers. [_M_emplace] allocates before it looks the key up, and throws for a key that is there. *)
Lemma program_answers :
  match construct (Some 3) new_table with
  | Some (_, t) => fst <$> run (λ k, (k, 0)) program t
  | None => None
  end = Some
    [Some (Inserted (1, 10) true); Some (Inserted (8, 80) true); Some (Inserted (1, 10) false);
     Some (Inserted (4, 40) true); None; Some Done; Some Done; Some (Value (Some (4, 41))); Some (Number 1);
     Some (Values []); Some (Number 1); Some (Number 0); Some (Values [(5, 50); (4, 41); (8, 80)]); Some Done;
     Some (Number 3); Some Done].
Proof. vm_compute. reflexivity. Qed.
End Example.
